(* ===== verification/_CoqProject ===== *)
-Q . S2P
Prelude.v
Headers.v
Packet.v
Encrypt.v
Compressor.v
ReplayWindow.v
SecureDatagram.v
SecureSession.v
SenderThreads.v
PeerSession.v
TokenBucket.v
Acl.v
AclProofs.v
AclFilter.v
RouteGraph.v
RouteMessages.v
RouteTable.v
RouteTableProofs.v
Rpc.v
RpcRuntime.v
RpcProofs.v
RouteWire.v
SyncedRoute.v
SyncedRouteProofs.v
CredentialProofs.v
CredentialStore.v
CredentialStoreProofs.v
SyncSession.v
RouteSync.v
RouteSyncProofs.v
DeliveryProofs.v
BitmapProofs.v
RouteSyncExamples.v
Framing.v
IpReassembler.v
CidrTable.v
TransportWire.v
TcpProxy.v
TcpProxyProofs.v
UdpProxy.v
UdpProxyProofs.v
IcmpProxy.v
PublicIpv6.v
PublicIpv6Proofs.v
Dhcp.v
PeerConns.v
PeerConnsProofs.v
RelayPeerMap.v
PacketRouter.v
PacketPath.v
PacketRouterProofs.v
PacketSafety.v
HopLimit.v
RelayProofs.v
RouteDelivery.v
ConnLiveness.v
PeerHandshake.v
HandshakeProofs.v
ConnEstablish.v
