(* ===== verification/Prelude.v ===== *)
(** * EasyTier core: a verification development

    EasyTier is a peer-to-peer mesh VPN.  Its core, [src/rust/easytier-core],
    moves IP packets between nodes: a packet read from the TUN device is put
    behind a peer-manager header in a [ZCPacket], judged by the ACL filter,
    perhaps compressed, sealed by the secure session shared with the
    destination peer, and sent through a tunnel, whose own header goes in front
    of it; the receiving node does the same in reverse.  Where packets go is
    decided by the route table, which each node computes from the information
    that the nodes exchange over RPC, OSPF-like: every node floods its own
    information and connections, in sessions with its neighbours.  A node may
    also give its peers access to a network behind it: proxy engines translate
    the addresses of such packets.  Who may join is decided by the network
    secret or by credentials that admin nodes issue.  This development models
    the data path from the host of one node to that of another, the handshake
    by which nodes connect, the route computation, the exchange and the RPC
    layer under it, the credential store and the proxy engines, with their
    state, and proves what makes them correct,
    up to the composition: in a network whose routes have converged packets are
    delivered ([RouteDelivery]).

    ** Files and the sources they translate

    Paths are relative to [src/rust/easytier-core/src].

    - [Prelude] (this file): outcomes with panics, [Result], machine integers
      and saturating arithmetic, slices with Rust's bounds checks, byte codecs,
      the [Wire] class of layouts, tactics and hint databases.
    - [Headers]: the wire headers, tails and header flags of [packet/mod.rs].
    - [Packet]: [ZCPacket] of [packet/mod.rs]: offsets by packet type,
      construction, borrowing, conversion, foreign-network encapsulation.
    - [Encrypt]: [tunnel/encrypt/] and [config/encryption.rs]: the [Encryptor]
      trait as a record of operations, the XOR, null and unsupported ciphers,
      the AES-GCM, ChaCha20, ring and OpenSSL backends, and the choice among
      them by build features.
    - [Compressor]: [packet/compressor.rs] and [packet/compressor/zstd.rs].
    - [ReplayWindow]: [ReplayWindow256] of [tunnel/secure_datagram.rs].
    - [SecureDatagram]: [SecureDatagramSession] of the same file: key schedule,
      epochs, nonces, receive slots, key sync, sealing and opening, each method
      a state transformer on the record [Session].
    - [SecureSession]: the end-to-end theorems about it.
    - [SenderThreads]: its send path again, one atomic access per step, as a
      step relation on threads.
    - [PeerSession]: [peers/conn/peer_session.rs]: the store of sessions shared
      through [Arc] (a heap of objects), and the create, join and sync actions
      of the handshake.
    - [TokenBucket]: [foundation/token_bucket.rs].
    - [Acl], [AclProofs]: [peers/acl/processor.rs]: rule compilation, matching,
      verdict cache, limiters, connection table, cleanup; and its theorems.
    - [AclFilter]: [peers/acl/filter.rs]: header parsing, chain choice,
      verdicts, records of outbound traffic, hot reload.
    - [RouteGraph]: [peers/route/graph_algo.rs]: the shortest-path search with
      first hops.
    - [RouteTable], [RouteTableProofs]: [OspfRouteTable] of
      [peers/route/peer_ospf_route.rs]: the peer graph of a snapshot, the two
      next-hop policies, address and proxy maps, expiry; and its theorems.
    - [Rpc]: [rpc/packet.rs]: compression, splitting and merging of messages.
    - [RpcRuntime], [RpcProofs]: the receive loops and timers of [rpc/client.rs]
      and [rpc/server.rs], [rpc/service_registry.rs], [rpc/dispatch.rs], the
      packet routing of [rpc/bidirect.rs], the error conversion of the proto
      crate; and the theorems about a call from end to end.
    - [RouteMessages]: the protobuf messages of the route exchange
      ([easytier-proto/proto/peer_rpc.proto], [common.proto]) as records.
    - [RouteWire]: [peers/route/route_peer_wire.rs]: edits on raw protobuf bytes.
    - [SyncedRoute], [SyncedRouteProofs], [CredentialProofs]: [SyncedRouteInfo]
      of [peer_ospf_route.rs] (each method a function on the record), with
      groups and credentials; and its theorems.
    - [SyncSession]: [SyncRouteSession]: saved versions, generations and roles.
    - [RouteSync]: [PeerRouteServiceImpl] and [RouteSessionManager]: building a
      request ([sync_start]), handling one ([do_sync_route_info]), committing
      the response ([sync_finish]), refresh of table, bitmap and trust, expiry,
      one round of [maintain_sessions].  [RouteSyncProofs], [DeliveryProofs] and
      [BitmapProofs] have the theorems; [RouteSyncExamples] three concrete nodes
      on which they are instantiated.
    - [CredentialStore], [CredentialStoreProofs]: [peers/credential_manager.rs]:
      issuing, importing, revoking and expiring credentials, the file they are
      kept in, configured credentials and their guarded replacement; and its
      theorems.
    - [Framing]: [tunnel/framed.rs]: packets as frames of a byte stream.
    - [IpReassembler]: [gateway/proxy/ip_reassembler.rs]: composing IPv4
      fragments in place and collecting them.
    - [CidrTable]: [gateway/proxy/cidr_table.rs]: announced and real networks.
    - [TransportWire]: what the engines use of smoltcp's TCP and UDP headers.
    - [TcpProxy], [TcpProxyProofs], [UdpProxy], [UdpProxyProofs], [IcmpProxy]:
      [gateway/proxy/tcp_proxy_engine.rs], [udp_proxy_engine.rs] and
      [icmp_proxy_engine.rs], with step relations of what happens to them; and
      their theorems.
    - [PublicIpv6], [PublicIpv6Proofs]: [peers/public_ipv6/service.rs]: leases of
      public IPv6 addresses, the provider and the client; and its theorems.
    - [Dhcp]: [gateway/dhcp.rs]: the choice of a free IPv4 address.
    - [PeerConns], [PeerConnsProofs]: [peers/conn/peer.rs] and [peer_map.rs]: the
      connections of a peer with their cached default, and the peers of a node
      with its routes, the [Route] trait as a record of answers; and their
      theorems, along interleavings of interrupted additions, closes and sends.
    - [RelayPeerMap], [RelayProofs]: [peers/relay_peer_map.rs] and the next hops
      of [peers/foreign_network/client.rs]: sessions with peers that are reached
      through relays, packets that wait for them, both sides of the handshake;
      a handshake is cut where it waits for the answer.  And its theorems.
    - [PacketRouter]: [PeerOutboundPacketRouter] and [PeerPacketRouter] of
      [peers/peer_manager.rs] with [send_msg_internal], the pipelines, foreign
      network packets, the relay switch and recent traffic; the state [Core] of
      a node holds the peer maps, the session store, the ACL filter and the
      channels, and every operation is an action on it.
    - [PacketPath], [PacketRouterProofs]: packets on their way between nodes as a
      step relation, and end-to-end delivery.  [PacketSafety]: what reaches a
      host, and the relay switch.  [HopLimit]: the limit of hops.
    - [RouteDelivery]: the lookups of [PeerRoute] in [peer_ospf_route.rs], which
      serve the peer map, and the composition of routing and forwarding.
    - [ConnLiveness]: [peers/conn/peer_conn_liveness.rs], [peer_conn_ping.rs] and
      the latency window of [tunnel/stats.rs]: markers on ordinary packets, the
      schedule and the rounds of pings; and their theorems.
    - [PeerHandshake]: the handshake of [peers/conn/peer_conn.rs] on both sides,
      with and without secure mode, the filter that seals a connection, network
      secrets and trusted keys of [config/mod.rs] and [peers/context.rs], and
      [PeerConnectionAdmission] of [peers/peer_manager.rs].  [HandshakeProofs]:
      who is admitted; [ConnEstablish]: that members of a network connect.

    ** What is shown

    - Packets: header layouts are bijections and flags are independent; header
      access is safe and framed; conversion between tunnels and foreign-network
      encapsulation keep every byte of the packet.
    - Encryption and compression: every backend and the compressor undo
      themselves bit for bit on every packet.
    - Secure session: the byte-wise window shift is a 256-bit shift, the window
      refines a set of accepted numbers, the pre-check predicts the commit; a
      session keeps its invariant along every history of sends, receives, key
      syncs and invalidations; nothing is accepted twice while slots stay busy;
      packets and streams of every algorithm but XOR are delivered across
      rotations; nonces are unique along sequences of sends and syncs and in
      every interleaving of senders.
    - Session store: every operation keeps it well formed, eviction keeps
      exactly what it should, the two sides of a handshake agree.
    - Token bucket: grants never exceed capacity plus rate times time, refills
      compose exactly, sleeps are exact, [consume] completes.
    - ACL: the rule of highest priority decides; the cache is transparent and
      its panic unreachable along every history; the filter is total and
      decides by the rules; answers to allowed traffic pass.
    - Routing: the search finds least-cost walks, their first hops and lengths,
      for every binary heap; where path costs fit in a usize the table has a
      next hop exactly for reachable peers, on a best route under either policy;
      announced addresses resolve to the nearest announcer.
    - RPC: splitting and merging restore every message under any order and
      repetition of packets, within the UDP budget; a merger refuses exactly
      what it should and never panics; a request is handled once and a call
      with a request and an answer of at most 32 KiB returns what the service
      answered, whatever other traffic there is.
    - Route exchange: replicas that received the same converge; every request
      contains what the other side lacks, the shortcuts of the scan
      notwithstanding, unless a new generation of it answered a request to the
      old one; an exchange delivers; responses of another generation
      are discarded; the bitmap carries the connections; raw bytes survive any
      number of hops and patching edits two fields only; the state stays well
      formed and every visible change raises the version, but for updates that
      fail halfway.
    - Credentials: only admins create trust, a credential has one owner, a
      credential peer is confined to its own entry.  The store keeps its
      invariant along every history with failing writes and restarts; a revoked
      credential is gone for good; an issued one admits, here and on every node
      that has the announcement.
    - Framing: packets arrive in order and unchanged under every schedule of
      partial writes and reads.
    - Fragments: a composed payload comes out of the reassembler with the packet
      that completes it, under any order, repetition and foreign traffic.
    - Proxies: the tables of the engines keep their invariants along every
      history; requests reach the real destination and answers come from the
      address that the peer spoke to, with the data unchanged; the UDP and ICMP
      engines handle every packet.
    - Public IPv6: the provider finds a free address when there is one, a lease
      is exclusive while it lasts when requests do not overlap, and a client uses what it announces and
      announces what it leases.
    - Automatic IPv4 addresses: one round settles on a free address, if any.
    - Connections: the default connection of a peer is one of its connections
      in every interleaving, a send takes one of least latency, and connections
      agree with the identity and the key of their peer.
    - Data path: with secure mode off, a packet reaches the host it is addressed
      to, with its payload, along next hops that lead there, and such next hops
      are what nodes with the same knowledge compute when they count hops; no
      packet but those of foreign networks passes more than seven relays,
      whatever the routes are; the host and the gateways get only what was
      decrypted and let through by the ACL; switching off the relaying of data does just that.
    - Relay sessions: one exchange whose messages arrive as they were sent
      establishes a session on both sides; in secure mode what leaves through a
      relay is what the session of the destination made of the packet, and
      packets without a session wait.
    - Direct connections: in secure mode only a client is admitted that proved
      the network secret in this handshake or has a trusted key, under its
      static key; two members of a network that call each other's address end
      with admitted connections and paired sessions after three messages.
    - Liveness: an echo proves a round trip, a dead connection is closed after
      five failures and no live one is, pings keep coming, and the latency is
      the mean of the window.

    Further theorems record behaviours that differ from the evident intent:
    nonce reuse when a key sync races a sender or is repeated, root keys swapped
    by a simultaneous open, replay after a slot was idle, the truncated distance
    of the window on 32-bit targets, double counting by limited rules, old
    addresses that still resolve, messages that no receiver can decompress,
    a new generation of a neighbour that is not told what is old, a packet of
    almost the greatest length that ends its stream, a TCP segment cut short
    that makes a proxying node panic, echo replies garbled by IPv4 options,
    one IPv6 address granted to two clients that ask at once, an IPv4 address
    taken that a peer has with another prefix length, a peer whose connections
    have different keys after a close in the middle of an addition, a short
    foreign-network packet that stops the receive loop, a relay that seals the
    handshakes of others, a credential peer that any proof makes an
    administrator, a root key sent before the client is authenticated, a
    digest or a pong of the wrong length that makes a task panic, packets of
    sessions with the XOR cipher that are opened to other bytes, reluctant
    relays that are preferred where a usize has 32 bits, and a first response
    that makes the sender forget who was unreachable.

    ** Conventions, bounds and fuel

    Integers are [Z] with their width written out where it matters ([wrap],
    [sat_add], range predicates such as [u32]); bytes are [Z] below 256, a
    buffer is a list of them.  A computation that can panic is a [comp].  Code
    outside the repository is a class with the laws it documents: [CryptoLib]
    with [CryptoLaws] (AEAD primitives), [HmacLib] (HMAC-SHA256), [Zstd] with
    [ZstdLaws], [CidrLib], [PetGraph] with [PetGraphLaws], [RouteNet]; the
    standard library's binary heap and hash-map iteration order are the classes
    [MinHeap] with [MinHeapLaws] and [HashOrder]; the protobuf codec is [ProstRpc]
    and [RpcMessages] (RPC packets and messages), [ProstWire] (keys, varints,
    skipping) and [ProstRoute] (route messages), with their laws; [ZstdBytes]
    adds that compression yields bytes; [OrderedMap] with its laws and
    [OrderedMapOrder] is the ordered hash map; [TrustLib] has the HMAC and the
    encoding of credentials; [BytesMutLib] is the growth of a [BytesMut],
    [CredLib] with [CredLaws] the key generation and file format of the
    credential store, [NetLib] with [NetLaws] the IPv4 networks of the cidr
    crate, [Ipv4Lib] with [Ipv4Laws] and [TransportLib] with [TransportLaws] and
    [UdpLaws] and [IcmpLib] with [IcmpLaws] the header accessors of smoltcp,
    [Net6Lib] with [Net6Laws] the IPv6 networks, [InetLib] with [InetLaws] the
    addresses with a network that DHCP iterates; [RouteControl] with
    [RouteControlLaws] is what the lease service asks of the route layer;
    [ConnEnv] has the latencies of connections and whether a send succeeds,
    [NoiseLib] with [NoiseLaws] and [NoiseXX] with [NoiseXXLaws] the Noise
    handshakes of snow, [RelayPb] with [RelayPbLaws] and [HandshakePb] with
    [HandshakePbLaws] the codecs of their messages, [DigestLib] the standard
    hasher, [AddrLib] the arithmetic of address blocks.  Every theorem that uses laws has a witness with concrete
    functions.  Random bytes, clock readings, uninitialised memory and
    reference counts are arguments.

    Recursion is structural except where fuel is an argument: the text of
    numbers below [2^32] has at most 10 decimal and 8 hexadecimal digits;
    [consume_chunk] needs at most two iterations when its task is alone, and
    [consume] one per chunk, as [consume_completes] proves; a thread running
    alone takes at most eight accesses per nonce ([solo_is_next_nonce]); the
    path search needs one iteration per edge plus one ([first_hop_shortest]);
    splitting takes at most one step per byte of content
    ([split_merge_round_trip] proves it ends); parsing a message takes at most
    one step per byte, as each field consumes one ([parse_fields_unfold]);
    composing fragments takes at most one round per byte of payload, as each
    round advances ([fragments_spec] proves it ends); the search of a free
    address meets another used one in each round ([find_offset_none],
    [find_none]).
    The width of [usize] is the class [Target]; the repository is built for 64
    bits and, on armv7, for 32.  Theorems on the replay window and the sessions
    above it assume 64 bits or distances that fit, as the truncation theorem
    says they must; theorems on routes assume that path costs fit ([costs_ok]).

    Mutexes and [DashMap] entries are taken as atomic regions: an operation
    runs to completion (the handling of a closed connection, whose reset of
    identity and key follows the release of the lock, is one step too), except
    in [SenderThreads], which has atomic accesses as
    steps under sequential consistency, and where a theorem is about an await in
    the middle: the addition of a connection ([add_check], [add_insert]), a lease
    request ([acquire_begin], [acquire_end]), a relay handshake ([attempt_send],
    [attempt_receive]), a direct one ([noise_client_begin], [noise_client_finish]
    and their counterparts), a round of pings ([ping_begin], [ping_end]) and the
    exchange of routes ([sync_start], [sync_finish]).

    ** Not modelled

    Tasks, channels and sockets (tunnels, listeners, connectors, the services
    around the proxy engines, the timer loops of the services), the assembly of
    a node from its components, counters and listings for display, generated
    protobuf code, configuration parsing, the command line and the Flutter
    application: they are I/O, glue or text around the modelled operations.  Of
    the protocols, STUN, hole punching, SOCKS5, magic DNS and the VPN portal are
    not part of the development, and of the foreign networks only the forwarding
    of packets and the hand-over of their connections is. *)

From Stdlib Require Import ZArith Lia.
From stdpp Require Import base list option gmap.

Local Open Scope Z_scope.

(** ** Outcomes

    A Rust expression either yields a value or panics (an out-of-range slice,
    an [unwrap] of [None], a failed [assert_eq!], [unreachable!]). *)

Inductive comp (A : Type) : Type :=
  | Ret (a : A)
  | Panic.
Arguments Ret {A} a.
Arguments Panic {A}.

#[export] Instance comp_ret : MRet comp := @Ret.
#[export] Instance comp_bind : MBind comp := fun A B f m =>
  match m with Ret a => f a | Panic => Panic end.
#[export] Instance comp_fmap : FMap comp := fun A B f m =>
  match m with Ret a => Ret (f a) | Panic => Panic end.

(** [Result<A, E>]. *)
Inductive result (E A : Type) : Type :=
  | Ok (a : A)
  | Err (e : E).
Arguments Ok {E A} a.
Arguments Err {E A} e.

Definition is_ok {E A} (r : result E A) : bool :=
  match r with Ok _ => true | Err _ => false end.

(** [Option::unwrap]. *)
Definition unwrap {A} (o : option A) : comp A :=
  match o with Some a => Ret a | None => Panic end.

Lemma unwrap_Some {A} (o : option A) a : o = Some a -> unwrap o = Ret a.
Proof. by intros ->. Qed.

(** ** Machine integers *)

Definition wrap (w : Z) (z : Z) : Z := z mod 2 ^ w.
Definition in_range (w : Z) (z : Z) : Prop := 0 <= z < 2 ^ w.

Abbreviation u8 := (in_range 8).
Abbreviation u16 := (in_range 16).
Abbreviation u32 := (in_range 32).
Abbreviation u64 := (in_range 64).
Abbreviation u128 := (in_range 128).

Definition max_of (w : Z) : Z := 2 ^ w - 1.
(** The width of [usize] on the build's target: 64, or 32 on armv7. *)
Class Target := usize_bits : Z.
(** [saturating_add], [saturating_mul] and [saturating_sub] at width [w]. *)
Definition sat_add (w a b : Z) : Z := Z.min (a + b) (max_of w).
Definition sat_mul (w a b : Z) : Z := Z.min (a * b) (max_of w).
Definition sat_sub (a b : Z) : Z := Z.max 0 (a - b).

Lemma wrap_range w z : 0 <= w -> in_range w (wrap w z).
Proof. intros. apply Z.mod_pos_bound. lia. Qed.

Lemma wrap_small w z : in_range w z -> wrap w z = z.
Proof. apply Z.mod_small. Qed.

(** ** Byte strings *)

Abbreviation byte := (in_range 8).
Definition bytes_ok (l : list Z) : Prop := Forall byte l.
Definition len {A} (l : list A) : Z := Z.of_nat (length l).

Fixpoint le_encode (n : nat) (z : Z) : list Z :=
  match n with
  | O => []
  | S n => z mod 256 :: le_encode n (z / 256)
  end.

Fixpoint le_decode (l : list Z) : Z :=
  match l with
  | [] => 0
  | b :: l => b + 256 * le_decode l
  end.

Definition be_encode (n : nat) (z : Z) : list Z := rev (le_encode n z).
Definition be_decode (l : list Z) : Z := le_decode (rev l).

(** Slices: [slice_from] is [&l[off..]], [get_from] is [l.get(off..)]. *)
Definition get_from {A} (off : Z) (l : list A) : option (list A) :=
  if off <=? len l then Some (drop (Z.to_nat off) l) else None.
Definition slice_from {A} (off : Z) (l : list A) : comp (list A) :=
  unwrap (get_from off l).
(** [&l[a..b]]. *)
Definition slice {A} (a b : Z) (l : list A) : comp (list A) :=
  if (a <=? b) && (b <=? len l)
  then Ret (take (Z.to_nat (b - a)) (drop (Z.to_nat a) l))
  else Panic.
(** [l[off..off + d.len()].copy_from_slice(d)], for an in-range target. *)
Definition overwrite {A} (off : Z) (d l : list A) : list A :=
  take (Z.to_nat off) l ++ d ++ drop (Z.to_nat off + length d) l.

(** [dst[a..b].copy_from_slice(src)], with its two panics: the range and the
    length mismatch. *)
Definition copy_into {A} (a b : Z) (src dst : list A) : comp (list A) :=
  if (a <=? b) && (b <=? len dst) && (b - a =? len src)
  then Ret (overwrite a src dst) else Panic.

(** ** Tactics *)

Create HintDb et.
Create Rewrite HintDb et.

(** Split the [if]s and [match]es of the goal, clearing contradictions. *)
Ltac crush_match :=
  repeat (case_match; simplify_eq/=; try done).

(** Turn boolean comparisons in the context into propositions. *)
Ltac bools :=
  repeat match goal with
  | H : (_ && _)%bool = true |- _ => apply andb_prop in H; destruct H
  | H : (_ || _)%bool = false |- _ => apply orb_false_elim in H; destruct H
  | H : negb _ = true |- _ => apply negb_true_iff in H
  | H : negb _ = false |- _ => apply negb_false_iff in H
  | H : (_ =? _) = true |- _ => apply Z.eqb_eq in H
  | H : (_ =? _) = false |- _ => apply Z.eqb_neq in H
  | H : (_ <=? _) = true |- _ => apply Z.leb_le in H
  | H : (_ <=? _) = false |- _ => apply Z.leb_gt in H
  | H : (_ <? _) = true |- _ => apply Z.ltb_lt in H
  | H : (_ <? _) = false |- _ => apply Z.ltb_ge in H
  end.

Ltac unfold_len := unfold len in *.

(** ** Lemmas on byte strings *)

Lemma pow256_S n : 256 ^ Z.of_nat (S n) = 256 * 256 ^ Z.of_nat n.
Proof. rewrite Nat2Z.inj_succ, Z.pow_succ_r; lia. Qed.

Lemma length_le_encode n z : length (le_encode n z) = n.
Proof. revert z; induction n; intros; simpl; auto. Qed.

Lemma length_be_encode n z : length (be_encode n z) = n.
Proof. unfold be_encode. by rewrite length_rev, length_le_encode. Qed.

Lemma le_encode_ok n z : bytes_ok (le_encode n z).
Proof.
  revert z; induction n; intros z; simpl; constructor; [|apply IHn].
  apply (Z.mod_pos_bound z 256). lia.
Qed.

Lemma be_encode_ok n z : bytes_ok (be_encode n z).
Proof. apply Forall_rev, le_encode_ok. Qed.

Lemma le_decode_encode n z :
  0 <= z < 256 ^ Z.of_nat n -> le_decode (le_encode n z) = z.
Proof.
  revert z; induction n as [|n IH]; intros z Hz; simpl.
  - simpl in Hz. lia.
  - rewrite IH.
    + pose proof (Z.div_mod z 256). lia.
    + rewrite pow256_S in Hz. split; [apply Z.div_pos; lia|].
      apply Z.div_lt_upper_bound; lia.
Qed.

Lemma le_decode_range l :
  bytes_ok l -> 0 <= le_decode l < 256 ^ len l.
Proof.
  unfold len. induction 1 as [|b l Hb _ IH]; simpl length; [simpl; lia|].
  rewrite pow256_S. simpl. unfold in_range in Hb. simpl in Hb.
  change (2 ^ 8) with 256 in *. lia.
Qed.

Lemma le_encode_decode l :
  bytes_ok l -> le_encode (length l) (le_decode l) = l.
Proof.
  induction 1 as [|b l Hb _ IH]; [done|]. simpl.
  unfold in_range in Hb. change (2 ^ 8) with 256 in Hb.
  rewrite (Z.mul_comm 256), Z.mod_add, Z.mod_small by lia.
  rewrite Z.div_add, Z.div_small, Z.add_0_l by lia. by rewrite IH.
Qed.

Lemma be_decode_encode n z :
  0 <= z < 256 ^ Z.of_nat n -> be_decode (be_encode n z) = z.
Proof.
  intros. unfold be_decode, be_encode. rewrite rev_involutive.
  by apply le_decode_encode.
Qed.

Lemma be_decode_range l :
  bytes_ok l -> 0 <= be_decode l < 256 ^ len l.
Proof.
  intros H. unfold be_decode, len. rewrite <- length_rev.
  apply le_decode_range. by apply Forall_rev.
Qed.

Lemma le_encode_inj n a b :
  0 <= a < 256 ^ Z.of_nat n -> 0 <= b < 256 ^ Z.of_nat n ->
  le_encode n a = le_encode n b -> a = b.
Proof.
  intros Ha Hb H. rewrite <- (le_decode_encode n a Ha), H.
  by apply le_decode_encode.
Qed.

Lemma be_encode_inj n a b :
  0 <= a < 256 ^ Z.of_nat n -> 0 <= b < 256 ^ Z.of_nat n ->
  be_encode n a = be_encode n b -> a = b.
Proof.
  intros Ha Hb H. rewrite <- (be_decode_encode n a Ha), H.
  by apply be_decode_encode.
Qed.

(** ** Lemmas on slices *)

Lemma len_cons {A} (x : A) l : len (x :: l) = 1 + len l.
Proof. unfold len. cbn [length]. lia. Qed.

Lemma len_nonneg {A} (l : list A) : 0 <= len l.
Proof. unfold len. lia. Qed.

Lemma len_app {A} (l k : list A) : len (l ++ k) = len l + len k.
Proof. unfold len. rewrite length_app. lia. Qed.

Lemma len_drop {A} n (l : list A) :
  0 <= n <= len l -> len (drop (Z.to_nat n) l) = len l - n.
Proof. unfold len. rewrite length_drop. lia. Qed.

Lemma get_from_in {A} off (l : list A) :
  off <= len l -> get_from off l = Some (drop (Z.to_nat off) l).
Proof. intros H. unfold get_from. by rewrite (proj2 (Z.leb_le _ _) H). Qed.

Lemma get_from_out {A} off (l : list A) :
  len l < off -> get_from off l = None.
Proof. intros H. unfold get_from. by rewrite (proj2 (Z.leb_gt _ _) H). Qed.

Lemma slice_from_in {A} off (l : list A) :
  off <= len l -> slice_from off l = Ret (drop (Z.to_nat off) l).
Proof. intros H. unfold slice_from. by rewrite get_from_in. Qed.

Lemma slice_in {A} a b (l : list A) :
  a <= b <= len l ->
  slice a b l = Ret (take (Z.to_nat (b - a)) (drop (Z.to_nat a) l)).
Proof.
  intros [H1 H2]. unfold slice.
  by rewrite (proj2 (Z.leb_le _ _) H1), (proj2 (Z.leb_le _ _) H2).
Qed.

Lemma copy_into_in {A} a b (src dst : list A) :
  a <= b <= len dst -> b - a = len src -> copy_into a b src dst = Ret (overwrite a src dst).
Proof.
  intros [H1 H2] H3. unfold copy_into.
  by rewrite (proj2 (Z.leb_le _ _) H1), (proj2 (Z.leb_le _ _) H2), (proj2 (Z.eqb_eq _ _) H3).
Qed.

Lemma length_overwrite {A} off (d l : list A) :
  0 <= off -> off + len d <= len l -> length (overwrite off d l) = length l.
Proof.
  unfold len, overwrite. intros.
  rewrite !length_app, length_take, length_drop. lia.
Qed.

Lemma overwrite_before {A} off (d l : list A) n :
  (n <= Z.to_nat off)%nat -> off <= len l -> 0 <= off ->
  take n (overwrite off d l) = take n l.
Proof.
  intros Hn Hl Ho. unfold overwrite. rewrite take_app_le, take_take.
  - f_equal. lia.
  - rewrite length_take. unfold len in *. lia.
Qed.

Lemma overwrite_at {A} off (d l : list A) :
  0 <= off -> off + len d <= len l ->
  take (length d) (drop (Z.to_nat off) (overwrite off d l)) = d.
Proof.
  intros Ho Hl. unfold overwrite, len in *.
  rewrite drop_app_length' by (rewrite length_take; lia).
  by rewrite take_app_length.
Qed.

Lemma overwrite_after {A} off (d l : list A) n :
  0 <= off -> off + len d <= len l -> (Z.to_nat off + length d <= n)%nat ->
  drop n (overwrite off d l) = drop n l.
Proof.
  intros Ho Hl Hn. unfold overwrite, len in *.
  rewrite app_assoc, drop_app_ge by (rewrite length_app, length_take; lia).
  rewrite drop_drop. f_equal. rewrite length_app, length_take. lia.
Qed.

Lemma overwrite_app {A} off (pre old post d : list A) :
  off = len pre -> length d = length old ->
  overwrite off d (pre ++ old ++ post) = pre ++ d ++ post.
Proof.
  intros -> Hd. unfold overwrite, len. rewrite Nat2Z.id, take_app_length. do 2 f_equal.
  rewrite app_assoc, drop_app_length'; [done|]. rewrite length_app. lia.
Qed.

Lemma copy_into_app {A} a b (pre old post d : list A) :
  a = len pre -> b = len pre + len d -> length d = length old ->
  copy_into a b d (pre ++ old ++ post) = Ret (pre ++ d ++ post).
Proof.
  intros -> -> Hd. rewrite copy_into_in.
  - by rewrite overwrite_app.
  - rewrite !len_app. unfold len. lia.
  - lia.
Qed.

Lemma slice_prefix {A} (a b : list A) : slice 0 (len a) (a ++ b) = Ret a.
Proof.
  rewrite slice_in by (rewrite len_app; pose proof (len_nonneg a); pose proof (len_nonneg b); lia).
  rewrite Z.sub_0_r, drop_0. unfold len. by rewrite Nat2Z.id, take_app_length.
Qed.

Lemma overwrite_prefix {A} (a a' b : list A) :
  length a' = length a -> overwrite 0 a' (a ++ b) = a' ++ b.
Proof. intros. by apply (overwrite_app 0 [] a b a'). Qed.

Lemma bytes_ok_app l k : bytes_ok (l ++ k) <-> bytes_ok l /\ bytes_ok k.
Proof. apply Forall_app. Qed.

Lemma bytes_ok_take n l : bytes_ok l -> bytes_ok (take n l).
Proof. apply Forall_take. Qed.

Lemma bytes_ok_drop n l : bytes_ok l -> bytes_ok (drop n l).
Proof. apply Forall_drop. Qed.

Lemma bytes_ok_overwrite off d l :
  bytes_ok d -> bytes_ok l -> bytes_ok (overwrite off d l).
Proof.
  intros. unfold overwrite. rewrite !bytes_ok_app.
  auto using bytes_ok_take, bytes_ok_drop.
Qed.

#[export] Hint Resolve le_encode_ok be_encode_ok bytes_ok_take bytes_ok_drop
  bytes_ok_overwrite len_nonneg wrap_range : et.
#[export] Hint Rewrite @length_le_encode @length_be_encode @length_app
  @length_take @length_drop @len_app : et.

(** ** Lemmas on bits *)

(** A bitwise result is in range when its high bits are clear. *)
Lemma bits_range w z :
  0 <= w -> 0 <= z -> (forall i, w <= i -> Z.testbit z i = false) -> in_range w z.
Proof.
  intros Hw Hz Hb. assert (E : z mod 2 ^ w = z).
  { apply Z.bits_inj'. intros i Hi. destruct (Z.lt_ge_cases i w).
    - by rewrite Z.mod_pow2_bits_low by lia.
    - by rewrite Z.mod_pow2_bits_high, Hb by lia. }
  rewrite <- E. apply Z.mod_pos_bound. lia.
Qed.

Lemma range_high_bit w z i : in_range w z -> 0 <= w -> w <= i -> Z.testbit z i = false.
Proof.
  intros Hz Hw Hi. rewrite <- (wrap_small w z Hz). unfold wrap.
  by apply Z.mod_pow2_bits_high.
Qed.

Lemma land_range w a b : 0 <= w -> in_range w a -> 0 <= b -> in_range w (Z.land a b).
Proof.
  intros Hw Ha Hb. apply bits_range; [done|apply Z.land_nonneg; destruct Ha; lia|].
  intros i Hi. by rewrite Z.land_spec, (range_high_bit w a).
Qed.

Lemma ldiff_range w a b : 0 <= w -> in_range w a -> in_range w (Z.ldiff a b).
Proof.
  intros Hw Ha. apply bits_range; [done|apply Z.ldiff_nonneg; destruct Ha; lia|].
  intros i Hi. by rewrite Z.ldiff_spec, (range_high_bit w a).
Qed.

Lemma lor_range w a b : 0 <= w -> in_range w a -> in_range w b -> in_range w (Z.lor a b).
Proof.
  intros Hw Ha Hb. apply bits_range; [done|apply Z.lor_nonneg; destruct Ha, Hb; lia|].
  intros i Hi. by rewrite Z.lor_spec, (range_high_bit w a), (range_high_bit w b).
Qed.

Lemma lxor_range w a b : 0 <= w -> in_range w a -> in_range w b -> in_range w (Z.lxor a b).
Proof.
  intros Hw Ha Hb. apply bits_range; [done|apply Z.lxor_nonneg; destruct Ha, Hb; lia|].
  intros i Hi. by rewrite Z.lxor_spec, (range_high_bit w a), (range_high_bit w b).
Qed.

(** ** Wire formats

    [fld off n b] reads the [n]-byte little-endian integer at offset [off];
    [arr off n b] the [n]-byte array there.  A [repr(C, packed)] struct is a
    concatenation of such fields. *)

Definition arr (off n : nat) (b : list Z) : list Z := take n (drop off b).
Definition fld (off n : nat) (b : list Z) : Z := le_decode (arr off n b).

Lemma arr_skip off n k l r :
  length l = k -> (k <= off)%nat -> arr off n (l ++ r) = arr (off - k) n r.
Proof. intros <- ?. unfold arr. by rewrite drop_app_ge. Qed.

Lemma arr_here n l r : length l = n -> arr 0 n (l ++ r) = l.
Proof. intros <-. unfold arr. by rewrite drop_0, take_app_length. Qed.

Lemma arr_last n l : length l = n -> arr 0 n l = l.
Proof. intros <-. unfold arr. by rewrite drop_0, firstn_all. Qed.

Lemma arr_ok off n b : bytes_ok b -> bytes_ok (arr off n b).
Proof. intros. unfold arr. auto with et. Qed.

Lemma length_arr off n b : (off + n <= length b)%nat -> length (arr off n b) = n.
Proof. intros. unfold arr. rewrite length_take, length_drop. lia. Qed.

Lemma fld_range off n b :
  bytes_ok b -> (off + n <= length b)%nat -> 0 <= fld off n b < 256 ^ Z.of_nat n.
Proof.
  intros Hb Hl. unfold fld. pose proof (le_decode_range _ (arr_ok off n b Hb)) as H.
  unfold len in H. by rewrite length_arr in H.
Qed.

Lemma fld_encode off n b :
  bytes_ok b -> (off + n <= length b)%nat -> le_encode n (fld off n b) = arr off n b.
Proof.
  intros Hb Hl. unfold fld. pose proof (le_encode_decode _ (arr_ok off n b Hb)) as H.
  by rewrite length_arr in H.
Qed.

Lemma arr_join off off' n m b :
  off' = (off + n)%nat -> arr off n b ++ arr off' m b = arr off (n + m) b.
Proof.
  intros ->. unfold arr. rewrite <- (take_drop n (take (n + m) (drop off b))).
  rewrite take_take, Nat.min_l by lia. f_equal.
  rewrite skipn_firstn_comm, drop_drop. f_equal. lia.
Qed.

Lemma arr_all n b : length b = n -> arr 0 n b = b.
Proof. intros <-. unfold arr. by rewrite drop_0, firstn_all. Qed.

(** A fixed-size wire struct (a zerocopy [AsBytes + FromBytes] type): its
    size, its bytes, and the laws of the two conversions. *)
Class Wire (T : Type) := {
  wire_size : nat;
  wire_encode : T -> list Z;
  wire_decode : list Z -> T;
  wire_wf : T -> Prop;
  wire_length : forall h, wire_wf h -> length (wire_encode h) = wire_size;
  wire_bytes : forall h, wire_wf h -> bytes_ok (wire_encode h);
  wire_decode_encode : forall h, wire_wf h -> wire_decode (wire_encode h) = h;
  wire_encode_decode : forall b,
    bytes_ok b -> length b = wire_size -> wire_encode (wire_decode b) = b;
  wire_decode_wf : forall b,
    bytes_ok b -> length b = wire_size -> wire_wf (wire_decode b)
}.
Arguments wire_size T {_}.

(** [T::ref_from_prefix], [T::ref_from_suffix]. *)
Definition ref_from_prefix {T} `{Wire T} (b : list Z) : option T :=
  if (Z.of_nat (wire_size T) <=? len b) then Some (wire_decode (take (wire_size T) b)) else None.
Definition ref_from_suffix {T} `{Wire T} (b : list Z) : option T :=
  if (Z.of_nat (wire_size T) <=? len b)
  then Some (wire_decode (drop (length b - wire_size T) b)) else None.

Section wire_lemmas.
Context {T : Type} `{Wire T}.
Implicit Types h : T.

Lemma ref_from_prefix_encode h r :
  wire_wf h -> ref_from_prefix (wire_encode h ++ r) = Some h.
Proof.
  intros Hw. unfold ref_from_prefix.
  pose proof (wire_length h Hw) as Hl.
  rewrite (proj2 (Z.leb_le _ _)) by (unfold len; rewrite length_app; lia).
  by rewrite <- Hl, take_app_length, wire_decode_encode.
Qed.

Lemma ref_from_suffix_wf b h : bytes_ok b -> ref_from_suffix b = Some h -> wire_wf h.
Proof.
  intros Hb. unfold ref_from_suffix. case_match; intros; simplify_eq; bools.
  apply wire_decode_wf; [by apply Forall_drop|].
  unfold len in *. rewrite length_drop. lia.
Qed.
Lemma ref_from_suffix_encode h r :
  wire_wf h -> ref_from_suffix (r ++ wire_encode h) = Some h.
Proof.
  intros Hw. unfold ref_from_suffix.
  pose proof (wire_length h Hw) as Hl.
  rewrite (proj2 (Z.leb_le _ _)) by (unfold len; rewrite length_app; lia).
  rewrite length_app, Hl. replace (length r + wire_size T - wire_size T)%nat
    with (length r) by lia.
  by rewrite drop_app_length, wire_decode_encode.
Qed.

Lemma ref_from_prefix_is_Some b :
  bytes_ok b -> Z.of_nat (wire_size T) <= len b ->
  exists h, ref_from_prefix b = Some h /\ wire_wf h /\
    wire_encode h ++ drop (wire_size T) b = b.
Proof.
  intros Hb Hl. unfold ref_from_prefix. rewrite (proj2 (Z.leb_le _ _) Hl).
  assert (length (take (wire_size T) b) = wire_size T)
    by (rewrite length_take; unfold len in Hl; lia).
  eexists; split; [done|]. split; [by apply wire_decode_wf; auto with et|].
  rewrite wire_encode_decode by auto with et. apply take_drop.
Qed.

Lemma ref_from_prefix_None b :
  ref_from_prefix (T:=T) b = None <-> len b < Z.of_nat (wire_size T).
Proof.
  unfold ref_from_prefix. case_match; bools; split; intros; simplify_eq; try done; lia.
Qed.

Lemma ref_from_prefix_take b k :
  (wire_size T <= k)%nat -> ref_from_prefix (T:=T) (take k b) = ref_from_prefix b.
Proof.
  intros Hk. unfold ref_from_prefix, len. rewrite length_take, take_take.
  rewrite (Nat.min_l (wire_size T) k) by lia.
  repeat (case_match; bools); try done; lia.
Qed.
End wire_lemmas.

(** Proves the laws of a struct whose [encode] is a right-nested
    concatenation of [le_encode n _] and array fields and whose [decode]
    reads each field with [fld] or [arr]. *)
Ltac wire_lengths :=
  intros; rewrite ?length_app, ?length_le_encode; simpl in *; try lia.
Ltac wire_step :=
  first
    [ rewrite arr_here by wire_lengths
    | rewrite arr_last by wire_lengths
    | erewrite arr_skip by (first [apply length_le_encode | eassumption | lia]); simpl Nat.sub ].
