(* ===== verification/Headers.v ===== *)
(** The wire headers of [packet/mod.rs]: the tunnel headers, the peer-manager
    header with its flag byte and liveness markers, the foreign-network header,
    the AEAD and compressor tails, and their byte layouts. *)

From S2P Require Import Prelude.
From stdpp Require Import list.
Local Open Scope Z_scope.

(** [packet/mod.rs: max]. *)
Definition max_usize (a b : Z) : Z := if a <? b then b else a.

(** ** Tunnel headers *)

Record TCPTunnelHeader := { tcp_len : Z }.
Record UDPTunnelHeader := {
  conn_id : Z; msg_type : Z; padding : Z; udp_len : Z }.
Record WGTunnelHeader := { ipv4_header : list Z }.
Record V4HolePunchPacket := { dst_ipv4 : list Z; v4_dst_port : Z }.
Record V6HolePunchPacket := {
  dst_ipv6 : list Z; v6_dst_port : Z;
  preferred_src_ipv6 : list Z; preferred_src_ifindex : Z }.

Inductive UdpPacketType :=
  | UdpInvalid | UdpSyn | UdpSack | UdpData | UdpFin
  | UdpHolePunch | UdpV4HolePunch | UdpV6HolePunch.
Definition UdpPacketType_as_u8 (t : UdpPacketType) : Z :=
  match t with
  | UdpInvalid => 0 | UdpSyn => 1 | UdpSack => 2 | UdpData => 3 | UdpFin => 4
  | UdpHolePunch => 5 | UdpV4HolePunch => 6 | UdpV6HolePunch => 7
  end.

Inductive PacketType :=
  | Invalid | Data | HandShake | RoutePacket | Ping | Pong | TaRpc | Route
  | RpcReq | RpcResp | ForeignNetworkPacket | KcpSrc | KcpDst | QuicSrc | QuicDst
  | NoiseHandshakeMsg1 | NoiseHandshakeMsg2 | NoiseHandshakeMsg3
  | RelayHandshake | RelayHandshakeAck
  | DataWithKcpSrcModified | DataWithQuicSrcModified.
Definition PacketType_as_u8 (t : PacketType) : Z :=
  match t with
  | Invalid => 0 | Data => 1 | HandShake => 2 | RoutePacket => 3 | Ping => 4
  | Pong => 5 | TaRpc => 6 | Route => 7 | RpcReq => 8 | RpcResp => 9
  | ForeignNetworkPacket => 10 | KcpSrc => 11 | KcpDst => 12
  | QuicSrc => 16 | QuicDst => 17
  | NoiseHandshakeMsg1 => 13 | NoiseHandshakeMsg2 => 14 | NoiseHandshakeMsg3 => 15
  | RelayHandshake => 20 | RelayHandshakeAck => 21
  | DataWithKcpSrcModified => 18 | DataWithQuicSrcModified => 19
  end.

Definition TCPTunnelHeader_as_bytes (h : TCPTunnelHeader) : list Z := le_encode 4 (tcp_len h).
Definition TCPTunnelHeader_from_bytes (b : list Z) : TCPTunnelHeader :=
  {| tcp_len := fld 0 4 b |}.
Definition TCPTunnelHeader_wf (h : TCPTunnelHeader) : Prop := u32 (tcp_len h).

Definition UDPTunnelHeader_as_bytes (h : UDPTunnelHeader) : list Z :=
  le_encode 4 (conn_id h) ++ le_encode 1 (msg_type h) ++ le_encode 1 (padding h) ++
  le_encode 2 (udp_len h).
Definition UDPTunnelHeader_from_bytes (b : list Z) : UDPTunnelHeader :=
  {| conn_id := fld 0 4 b; msg_type := fld 4 1 b; padding := fld 5 1 b; udp_len := fld 6 2 b |}.
Definition UDPTunnelHeader_wf (h : UDPTunnelHeader) : Prop :=
  u32 (conn_id h) /\ u8 (msg_type h) /\ u8 (padding h) /\ u16 (udp_len h).

Definition WGTunnelHeader_as_bytes (h : WGTunnelHeader) : list Z := ipv4_header h.
Definition WGTunnelHeader_from_bytes (b : list Z) : WGTunnelHeader :=
  {| ipv4_header := arr 0 20 b |}.
Definition WGTunnelHeader_wf (h : WGTunnelHeader) : Prop :=
  length (ipv4_header h) = 20%nat /\ bytes_ok (ipv4_header h).

Definition V4HolePunchPacket_as_bytes (h : V4HolePunchPacket) : list Z :=
  dst_ipv4 h ++ le_encode 2 (v4_dst_port h).
Definition V4HolePunchPacket_from_bytes (b : list Z) : V4HolePunchPacket :=
  {| dst_ipv4 := arr 0 4 b; v4_dst_port := fld 4 2 b |}.
Definition V4HolePunchPacket_wf (h : V4HolePunchPacket) : Prop :=
  length (dst_ipv4 h) = 4%nat /\ bytes_ok (dst_ipv4 h) /\ u16 (v4_dst_port h).

Definition V6HolePunchPacket_as_bytes (h : V6HolePunchPacket) : list Z :=
  dst_ipv6 h ++ le_encode 2 (v6_dst_port h) ++ preferred_src_ipv6 h ++
  le_encode 4 (preferred_src_ifindex h).
Definition V6HolePunchPacket_from_bytes (b : list Z) : V6HolePunchPacket :=
  {| dst_ipv6 := arr 0 16 b; v6_dst_port := fld 16 2 b;
     preferred_src_ipv6 := arr 18 16 b; preferred_src_ifindex := fld 34 4 b |}.
Definition V6HolePunchPacket_wf (h : V6HolePunchPacket) : Prop :=
  (length (dst_ipv6 h) = 16%nat /\ bytes_ok (dst_ipv6 h)) /\ u16 (v6_dst_port h) /\
  (length (preferred_src_ipv6 h) = 16%nat /\ bytes_ok (preferred_src_ipv6 h)) /\
  u32 (preferred_src_ifindex h).

(** ** The peer-manager header *)

Record PeerManagerHeader := {
  from_peer_id : Z; to_peer_id : Z; pm_packet_type : Z; flags : Z;
  forward_counter : Z; reserved : Z; pm_len : Z }.

Definition PeerManagerHeader_as_bytes (h : PeerManagerHeader) : list Z :=
  le_encode 4 (from_peer_id h) ++ le_encode 4 (to_peer_id h) ++
  le_encode 1 (pm_packet_type h) ++ le_encode 1 (flags h) ++
  le_encode 1 (forward_counter h) ++ le_encode 1 (reserved h) ++ le_encode 4 (pm_len h).
Definition PeerManagerHeader_from_bytes (b : list Z) : PeerManagerHeader :=
  {| from_peer_id := fld 0 4 b; to_peer_id := fld 4 4 b; pm_packet_type := fld 8 1 b;
     flags := fld 9 1 b; forward_counter := fld 10 1 b; reserved := fld 11 1 b;
     pm_len := fld 12 4 b |}.
Definition PeerManagerHeader_wf (h : PeerManagerHeader) : Prop :=
  u32 (from_peer_id h) /\ u32 (to_peer_id h) /\ u8 (pm_packet_type h) /\ u8 (flags h) /\
  u8 (forward_counter h) /\ u8 (reserved h) /\ u32 (pm_len h).

(** [PeerManagerHeaderFlags]: [const _ = !0] makes every bit known, so
    [from_bits(b).unwrap()] is the identity on [u8]. *)
Definition ENCRYPTED : Z := 1.
Definition LATENCY_FIRST : Z := 2.
Definition EXIT_NODE : Z := 4.
Definition NO_PROXY : Z := 8.
Definition COMPRESSED : Z := 16.
Definition LIVENESS_PROBE : Z := 32.
Definition NOT_SEND_TO_TUN : Z := 64.
Definition LIVENESS_ECHO : Z := 128.

Definition contains (fs f : Z) : bool := Z.land fs f =? f.

Definition with_flags (h : PeerManagerHeader) (fs : Z) : PeerManagerHeader :=
  {| from_peer_id := from_peer_id h; to_peer_id := to_peer_id h;
     pm_packet_type := pm_packet_type h; flags := fs;
     forward_counter := forward_counter h; reserved := reserved h; pm_len := pm_len h |}.
Definition with_reserved (h : PeerManagerHeader) (r : Z) : PeerManagerHeader :=
  {| from_peer_id := from_peer_id h; to_peer_id := to_peer_id h;
     pm_packet_type := pm_packet_type h; flags := flags h;
     forward_counter := forward_counter h; reserved := r; pm_len := pm_len h |}.
Definition with_packet_type (h : PeerManagerHeader) (t : Z) : PeerManagerHeader :=
  {| from_peer_id := from_peer_id h; to_peer_id := to_peer_id h;
     pm_packet_type := t; flags := flags h;
     forward_counter := forward_counter h; reserved := reserved h; pm_len := pm_len h |}.

(** [flags.insert(f)] or [flags.remove(f)], written back to the header. *)
Definition set_flag (f : Z) (b : bool) (h : PeerManagerHeader) : PeerManagerHeader :=
  with_flags h (if b then Z.lor (flags h) f else Z.ldiff (flags h) f).

Definition is_encrypted (h : PeerManagerHeader) : bool := contains (flags h) ENCRYPTED.
Definition set_encrypted (h : PeerManagerHeader) (b : bool) := set_flag ENCRYPTED b h.
Definition is_latency_first (h : PeerManagerHeader) : bool := contains (flags h) LATENCY_FIRST.
Definition is_exit_node (h : PeerManagerHeader) : bool := contains (flags h) EXIT_NODE.
Definition is_no_proxy (h : PeerManagerHeader) : bool := contains (flags h) NO_PROXY.
Definition is_compressed (h : PeerManagerHeader) : bool := contains (flags h) COMPRESSED.
Definition set_latency_first (h : PeerManagerHeader) (b : bool) := set_flag LATENCY_FIRST b h.
Definition set_exit_node (h : PeerManagerHeader) (b : bool) := set_flag EXIT_NODE b h.
Definition set_no_proxy (h : PeerManagerHeader) (b : bool) := set_flag NO_PROXY b h.
Definition set_compressed (h : PeerManagerHeader) (b : bool) := set_flag COMPRESSED b h.
Definition liveness_probe_token (h : PeerManagerHeader) : option Z :=
  if contains (flags h) LIVENESS_PROBE then Some (reserved h) else None.
Definition liveness_echo_token (h : PeerManagerHeader) : option Z :=
  if contains (flags h) LIVENESS_ECHO then Some (reserved h) else None.
Definition clear_liveness_marker (h : PeerManagerHeader) : PeerManagerHeader :=
  with_reserved (with_flags h (Z.ldiff (flags h) (Z.lor LIVENESS_PROBE LIVENESS_ECHO))) 0.
Definition set_liveness_marker (h : PeerManagerHeader) (marker token : Z) : PeerManagerHeader :=
  let h := clear_liveness_marker h in
  with_reserved (with_flags h (Z.lor (flags h) marker)) token.
Definition set_liveness_probe (h : PeerManagerHeader) (token : Z) : PeerManagerHeader :=
  set_liveness_marker h LIVENESS_PROBE token.
Definition set_liveness_echo (h : PeerManagerHeader) (token : Z) : PeerManagerHeader :=
  set_liveness_marker h LIVENESS_ECHO token.
Definition mark_kcp_src_modified (h : PeerManagerHeader) : comp PeerManagerHeader :=
  if pm_packet_type h =? PacketType_as_u8 Data
  then Ret (with_packet_type h (PacketType_as_u8 DataWithKcpSrcModified)) else Panic.
Definition mark_quic_src_modified (h : PeerManagerHeader) : comp PeerManagerHeader :=
  if pm_packet_type h =? PacketType_as_u8 Data
  then Ret (with_packet_type h (PacketType_as_u8 DataWithQuicSrcModified)) else Panic.
Definition set_not_send_to_tun (h : PeerManagerHeader) (b : bool) := set_flag NOT_SEND_TO_TUN b h.
Definition is_not_send_to_tun (h : PeerManagerHeader) : bool :=
  contains (flags h) NOT_SEND_TO_TUN.

(** ** The foreign-network header *)

Record ForeignNetworkPacketHeader := {
  fn_header_len : Z; fn_dst_peer_id : Z; network_name_offset : Z; network_name_len : Z }.

Definition ForeignNetworkPacketHeader_as_bytes (h : ForeignNetworkPacketHeader) : list Z :=
  le_encode 2 (fn_header_len h) ++ le_encode 4 (fn_dst_peer_id h) ++
  le_encode 2 (network_name_offset h) ++ le_encode 2 (network_name_len h).
Definition ForeignNetworkPacketHeader_from_bytes (b : list Z) : ForeignNetworkPacketHeader :=
  {| fn_header_len := fld 0 2 b; fn_dst_peer_id := fld 2 4 b;
     network_name_offset := fld 6 2 b; network_name_len := fld 8 2 b |}.
Definition ForeignNetworkPacketHeader_wf (h : ForeignNetworkPacketHeader) : Prop :=
  u16 (fn_header_len h) /\ u32 (fn_dst_peer_id h) /\
  u16 (network_name_offset h) /\ u16 (network_name_len h).

(** [std::str::from_utf8(b).is_ok()]: the well-formed byte sequences. *)
Definition cont (lo hi b : Z) : bool := (lo <=? b) && (b <=? hi).
Fixpoint utf8_valid (l : list Z) : bool :=
  match l with
  | [] => true
  | b0 :: r0 =>
    if b0 <? 128 then utf8_valid r0
    else match r0 with
    | [] => false
    | b1 :: r1 =>
      if cont 194 223 b0 then cont 128 191 b1 && utf8_valid r1
      else match r1 with
      | [] => false
      | b2 :: r2 =>
        if cont 224 239 b0 then
          (if b0 =? 224 then cont 160 191 b1
           else if b0 =? 237 then cont 128 159 b1 else cont 128 191 b1)
          && cont 128 191 b2 && utf8_valid r2
        else match r2 with
        | [] => false
        | b3 :: r3 =>
          cont 240 244 b0 &&
          (if b0 =? 240 then cont 144 191 b1
           else if b0 =? 244 then cont 128 143 b1 else cont 128 191 b1)
          && cont 128 191 b2 && cont 128 191 b3 && utf8_valid r3
        end
      end
    end
  end.

(** [as u16] truncates; [u16 + u16] wraps (release arithmetic). *)
Definition ForeignNetworkPacketHeader_new (dst_peer_id : Z) (network_name : list Z)
    : ForeignNetworkPacketHeader :=
  let off := wrap 16 10 in
  let nlen := wrap 16 (len network_name) in
  {| fn_header_len := wrap 16 (off + nlen); fn_dst_peer_id := dst_peer_id;
     network_name_offset := off; network_name_len := nlen |}.
Definition get_network_name (h : ForeignNetworkPacketHeader) (zc_packet_payload : list Z)
    : comp (list Z) :=
  let offset := network_name_offset h in
  let n := network_name_len h in
  s ← slice offset (offset + n) zc_packet_payload;
  if utf8_valid s then Ret s else Panic.
Definition fn_get_dst_peer_id (h : ForeignNetworkPacketHeader) : Z := fn_dst_peer_id h.
Definition get_header_len (h : ForeignNetworkPacketHeader) : Z := fn_header_len h.

(** ** Tails and the compression vocabulary *)

(** [StandardAeadTail = AeadTail<16, 12>]. *)
Record StandardAeadTail := { tag : list Z; nonce : list Z }.
Definition TAG_SIZE : Z := 16.
Definition NONCE_SIZE : Z := 12.
Definition AEAD_TAIL_SIZE : Z := 28.
Definition StandardAeadTail_as_bytes (t : StandardAeadTail) : list Z := tag t ++ nonce t.
Definition StandardAeadTail_from_bytes (b : list Z) : StandardAeadTail :=
  {| tag := arr 0 16 b; nonce := arr 16 12 b |}.
Definition StandardAeadTail_wf (t : StandardAeadTail) : Prop :=
  (length (tag t) = 16%nat /\ bytes_ok (tag t)) /\
  (length (nonce t) = 12%nat /\ bytes_ok (nonce t)).

Inductive CompressorAlgo := CompressNone | ZstdDefault.
Definition CompressorAlgo_as_u8 (a : CompressorAlgo) : Z :=
  match a with CompressNone => 0 | ZstdDefault => 1 end.
(** [zstd_available] is the [cfg!(feature = "zstd")] of the build. *)
Definition CompressorAlgo_is_available (zstd_available : bool) (a : CompressorAlgo) : bool :=
  match a with CompressNone => true | ZstdDefault => zstd_available end.
Definition CompressorAlgo_ensure_available (zstd_available : bool) (a : CompressorAlgo)
    : result CompressorAlgo unit :=
  if CompressorAlgo_is_available zstd_available a then Ok tt else Err a.

(** [common.proto: CompressionAlgoPb]. *)
Inductive CompressionAlgoPb := PbInvalid | PbNone | PbZstd.
Definition CompressorAlgo_try_from (v : CompressionAlgoPb) : result CompressionAlgoPb CompressorAlgo :=
  match v with
  | PbZstd => Ok ZstdDefault
  | PbNone => Ok CompressNone
  | _ => Err v
  end.
Definition CompressionAlgoPb_try_from (v : CompressorAlgo) : result CompressionAlgoPb CompressionAlgoPb :=
  match v with
  | ZstdDefault => Ok PbZstd
  | CompressNone => Ok PbNone
  end.

Record CompressorTail := { algo : Z }.
Definition COMPRESSOR_TAIL_SIZE : Z := 1.
Definition CompressorTail_as_bytes (t : CompressorTail) : list Z := le_encode 1 (algo t).
Definition CompressorTail_from_bytes (b : list Z) : CompressorTail := {| algo := fld 0 1 b |}.
Definition CompressorTail_wf (t : CompressorTail) : Prop := u8 (algo t).
Definition CompressorTail_get_algo (t : CompressorTail) : option CompressorAlgo :=
  match algo t with
  | 1 => Some ZstdDefault
  | _ => None
  end.
Definition CompressorTail_new (a : CompressorAlgo) : CompressorTail :=
  {| algo := CompressorAlgo_as_u8 a |}.

Definition TAIL_RESERVED_SIZE : Z := max_usize AEAD_TAIL_SIZE COMPRESSOR_TAIL_SIZE.

(** ** The layouts are wire formats *)

Ltac range_tac :=
  unfold in_range in *;
  change (256 ^ Z.of_nat 1) with 256 in *; change (256 ^ Z.of_nat 2) with 65536 in *;
  change (256 ^ Z.of_nat 4) with 4294967296 in *;
  change (2 ^ 8) with 256 in *; change (2 ^ 16) with 65536 in *;
  change (2 ^ 32) with 4294967296 in *; lia.

Ltac wire_law :=
  intros;
  repeat match goal with
  | h : ?T |- _ => lazymatch T with
      | TCPTunnelHeader => destruct h | UDPTunnelHeader => destruct h
      | WGTunnelHeader => destruct h | V4HolePunchPacket => destruct h
      | V6HolePunchPacket => destruct h | PeerManagerHeader => destruct h
      | ForeignNetworkPacketHeader => destruct h | StandardAeadTail => destruct h
      | CompressorTail => destruct h
      end
  end;
  cbv [TCPTunnelHeader_as_bytes TCPTunnelHeader_from_bytes TCPTunnelHeader_wf
    UDPTunnelHeader_as_bytes UDPTunnelHeader_from_bytes UDPTunnelHeader_wf
    WGTunnelHeader_as_bytes WGTunnelHeader_from_bytes WGTunnelHeader_wf
    V4HolePunchPacket_as_bytes V4HolePunchPacket_from_bytes V4HolePunchPacket_wf
    V6HolePunchPacket_as_bytes V6HolePunchPacket_from_bytes V6HolePunchPacket_wf
    PeerManagerHeader_as_bytes PeerManagerHeader_from_bytes PeerManagerHeader_wf
    ForeignNetworkPacketHeader_as_bytes ForeignNetworkPacketHeader_from_bytes
    ForeignNetworkPacketHeader_wf StandardAeadTail_as_bytes StandardAeadTail_from_bytes
    StandardAeadTail_wf CompressorTail_as_bytes CompressorTail_from_bytes CompressorTail_wf
    tcp_len conn_id msg_type padding udp_len ipv4_header dst_ipv4 v4_dst_port dst_ipv6
    v6_dst_port preferred_src_ipv6 preferred_src_ifindex from_peer_id to_peer_id
    pm_packet_type flags forward_counter reserved pm_len fn_header_len fn_dst_peer_id
    network_name_offset network_name_len tag nonce algo] in *;
  destruct_and?;
  first
    [ (* lengths *) rewrite ?length_app, ?length_le_encode; lia
    | (* bytes *) rewrite ?bytes_ok_app; repeat split; auto with et; fail
    | (* decode after encode *)
      f_equal; unfold fld; repeat wire_step; try done;
      apply le_decode_encode; range_tac
    | (* encode after decode *)
      rewrite ?fld_encode by (first [done | lia]);
      rewrite ?app_assoc; repeat rewrite arr_join by reflexivity;
      apply arr_all; done
    | (* decoded values are well formed *)
      repeat split;
      lazymatch goal with
      | |- context [fld ?o ?n ?b] =>
          let H := fresh in
          assert (H := fld_range o n b ltac:(assumption) ltac:(lia)); range_tac
      | |- length (arr _ _ _) = _ => rewrite length_arr; lia
      | |- bytes_ok _ => by apply arr_ok
      | |- _ => idtac
      end ].

#[export] Instance TCPTunnelHeader_wire : Wire TCPTunnelHeader.
Proof.
  refine {| wire_size := 4; wire_encode := TCPTunnelHeader_as_bytes;
            wire_decode := TCPTunnelHeader_from_bytes; wire_wf := TCPTunnelHeader_wf |};
  abstract wire_law.
Defined.

#[export] Instance UDPTunnelHeader_wire : Wire UDPTunnelHeader.
Proof.
  refine {| wire_size := 8; wire_encode := UDPTunnelHeader_as_bytes;
            wire_decode := UDPTunnelHeader_from_bytes; wire_wf := UDPTunnelHeader_wf |};
  abstract wire_law.
Defined.

#[export] Instance WGTunnelHeader_wire : Wire WGTunnelHeader.
Proof.
  refine {| wire_size := 20; wire_encode := WGTunnelHeader_as_bytes;
            wire_decode := WGTunnelHeader_from_bytes; wire_wf := WGTunnelHeader_wf |};
  abstract wire_law.
Defined.

#[export] Instance V4HolePunchPacket_wire : Wire V4HolePunchPacket.
Proof.
  refine {| wire_size := 6; wire_encode := V4HolePunchPacket_as_bytes;
            wire_decode := V4HolePunchPacket_from_bytes; wire_wf := V4HolePunchPacket_wf |};
  abstract wire_law.
Defined.

#[export] Instance V6HolePunchPacket_wire : Wire V6HolePunchPacket.
Proof.
  refine {| wire_size := 38; wire_encode := V6HolePunchPacket_as_bytes;
            wire_decode := V6HolePunchPacket_from_bytes; wire_wf := V6HolePunchPacket_wf |};
  abstract wire_law.
Defined.

#[export] Instance PeerManagerHeader_wire : Wire PeerManagerHeader.
Proof.
  refine {| wire_size := 16; wire_encode := PeerManagerHeader_as_bytes;
            wire_decode := PeerManagerHeader_from_bytes; wire_wf := PeerManagerHeader_wf |};
  abstract wire_law.
Defined.

#[export] Instance ForeignNetworkPacketHeader_wire : Wire ForeignNetworkPacketHeader.
Proof.
  refine {| wire_size := 10; wire_encode := ForeignNetworkPacketHeader_as_bytes;
            wire_decode := ForeignNetworkPacketHeader_from_bytes; wire_wf := ForeignNetworkPacketHeader_wf |};
  abstract wire_law.
Defined.

#[export] Instance StandardAeadTail_wire : Wire StandardAeadTail.
Proof.
  refine {| wire_size := 28; wire_encode := StandardAeadTail_as_bytes;
            wire_decode := StandardAeadTail_from_bytes; wire_wf := StandardAeadTail_wf |};
  abstract wire_law.
Defined.

#[export] Instance CompressorTail_wire : Wire CompressorTail.
Proof.
  refine {| wire_size := 1; wire_encode := CompressorTail_as_bytes;
            wire_decode := CompressorTail_from_bytes; wire_wf := CompressorTail_wf |};
  abstract wire_law.
Defined.

(** ** The flag byte *)

Definition all_flags : list Z :=
  [ENCRYPTED; LATENCY_FIRST; EXIT_NODE; NO_PROXY; COMPRESSED;
   LIVENESS_PROBE; NOT_SEND_TO_TUN; LIVENESS_ECHO].

Lemma all_flags_bit f : f ∈ all_flags -> exists i, 0 <= i < 8 /\ f = 2 ^ i.
Proof.
  unfold all_flags. intros H.
  repeat (apply elem_of_cons in H as [->|H]); [..|by apply elem_of_nil in H].
  - by exists 0. - by exists 1. - by exists 2. - by exists 3.
  - by exists 4. - by exists 5. - by exists 6. - by exists 7.
Qed.

Lemma contains_testbit fs i : 0 <= i -> contains fs (2 ^ i) = Z.testbit fs i.
Proof.
  intros Hi. unfold contains.
  assert (E : Z.land fs (2 ^ i) = if Z.testbit fs i then 2 ^ i else 0).
  { apply Z.bits_inj'. intros n Hn. rewrite Z.land_spec, Z.pow2_bits_eqb by done.
    destruct (Z.eqb_spec i n) as [->|Hne].
    - destruct (Z.testbit fs n); rewrite ?Z.pow2_bits_eqb, ?Z.eqb_refl, ?Z.testbit_0_l by done; done.
    - rewrite andb_false_r. destruct (Z.testbit fs i); [|by rewrite Z.testbit_0_l].
      rewrite Z.pow2_bits_eqb by done. by rewrite (proj2 (Z.eqb_neq i n)). }
  rewrite E. destruct (Z.testbit fs i); [apply Z.eqb_refl|].
  apply Z.eqb_neq. pose proof (Z.pow_pos_nonneg 2 i). lia.
Qed.

Lemma set_flag_testbit i b h n :
  0 <= i -> 0 <= n ->
  Z.testbit (flags (set_flag (2 ^ i) b h)) n = if i =? n then b else Z.testbit (flags h) n.
Proof.
  intros Hi Hn. unfold set_flag, with_flags; simpl.
  destruct b; rewrite ?Z.lor_spec, ?Z.ldiff_spec, Z.pow2_bits_eqb by done;
    destruct (i =? n); simpl; by rewrite ?orb_true_r, ?orb_false_r, ?andb_false_r, ?andb_true_r.
Qed.

Lemma set_flag_wf f b h :
  f ∈ all_flags -> PeerManagerHeader_wf h -> PeerManagerHeader_wf (set_flag f b h).
Proof.
  intros Hf. unfold PeerManagerHeader_wf, set_flag, with_flags; simpl.
  intros (?&?&?&Hfl&?&?&?).
  assert (u8 f /\ 0 <= f) as [Hu ?].
  { destruct (all_flags_bit f Hf) as (i & Hi & ->).
    assert (0 < 2 ^ i) by (apply Z.pow_pos_nonneg; lia).
    assert (2 ^ i < 2 ^ 8) by (apply Z.pow_lt_mono_r; lia). unfold in_range. lia. }
  repeat split_and; try done;
    destruct b; first [apply (lor_range 8) | apply (ldiff_range 8)]; try done; lia.
Qed.

(** Setting a clear flag and clearing it again restores the header. *)
Lemma set_flag_undo f h :
  f ∈ all_flags -> contains (flags h) f = false -> set_flag f false (set_flag f true h) = h.
Proof.
  intros Hf. destruct (all_flags_bit f Hf) as (i & Hi & ->).
  rewrite contains_testbit by lia. intros Hb.
  destruct h as [a b c fl d e g]. unfold set_flag, with_flags. cbn [flags] in *. f_equal.
  apply Z.bits_inj'. intros n Hn.
  rewrite Z.ldiff_spec, Z.lor_spec, Z.pow2_bits_eqb by lia.
  destruct (Z.eqb_spec i n) as [<-|]; cbn [negb]; [by rewrite andb_false_r, Hb|].
  by rewrite orb_false_r, andb_true_r.
Qed.

Lemma contains_set_flag f b h : f ∈ all_flags -> contains (flags (set_flag f b h)) f = b.
Proof.
  intros Hf. destruct (all_flags_bit f Hf) as (i & Hi & ->).
  by rewrite contains_testbit, set_flag_testbit, Z.eqb_refl by lia.
Qed.

(** The bits of the liveness markers. *)
Lemma liveness_marker_bits h marker t n :
  0 <= n -> marker = LIVENESS_PROBE \/ marker = LIVENESS_ECHO ->
  Z.testbit (flags (set_liveness_marker h marker t)) n =
  if (n =? 5) || (n =? 7) then Z.testbit marker n else Z.testbit (flags h) n.
Proof.
  intros Hn Hm. unfold set_liveness_marker, clear_liveness_marker; simpl.
  rewrite Z.lor_spec, Z.ldiff_spec.
  change LIVENESS_PROBE with (2 ^ 5) in *; change LIVENESS_ECHO with (2 ^ 7) in *.
  rewrite Z.lor_spec, !Z.pow2_bits_eqb by lia.
  destruct Hm as [-> | ->]; rewrite Z.pow2_bits_eqb by lia;
    rewrite !(Z.eqb_sym _ n); destruct (Z.eqb_spec n 5), (Z.eqb_spec n 7);
    subst; simpl; rewrite ?andb_false_r, ?andb_true_r, ?orb_false_r; done.
Qed.

Lemma clear_marker_bits h n :
  0 <= n ->
  Z.testbit (flags (clear_liveness_marker h)) n =
  if (n =? 5) || (n =? 7) then false else Z.testbit (flags h) n.
Proof.
  intros Hn. unfold clear_liveness_marker; simpl flags.
  change LIVENESS_PROBE with (2 ^ 5); change LIVENESS_ECHO with (2 ^ 7).
  rewrite Z.ldiff_spec, Z.lor_spec, !Z.pow2_bits_eqb, !(Z.eqb_sym _ n) by lia.
  destruct (n =? 5), (n =? 7); simpl; by rewrite ?andb_false_r, ?andb_true_r.
Qed.

Lemma contains_flag f fs i : f = 2 ^ i -> 0 <= i -> contains fs f = Z.testbit fs i.
Proof. intros -> ?. by apply contains_testbit. Qed.

(** ** Properties *)

(** The peer-manager header layout is a bijection: a header with fields in
    their widths reads back from its own bytes whatever follows them, and any
    sixteen bytes are the bytes of the well-formed header read from them. *)
Theorem pm_header_roundtrip (h : PeerManagerHeader) (b rest : list Z)
    (Hh : PeerManagerHeader_wf h) (Hb : bytes_ok b) (Hl : 16 <= len b) :
  ref_from_prefix (PeerManagerHeader_as_bytes h ++ rest) = Some h /\
  exists h', ref_from_prefix b = Some h' /\ PeerManagerHeader_wf h' /\
    PeerManagerHeader_as_bytes h' ++ drop 16 b = b.
Proof.
  split; [exact (ref_from_prefix_encode h rest Hh)|].
  exact (ref_from_prefix_is_Some (T:=PeerManagerHeader) b Hb Hl).
Qed.

Definition sample_header : PeerManagerHeader :=
  {| from_peer_id := 4294967295; to_peer_id := 7; pm_packet_type := 1; flags := 33;
     forward_counter := 1; reserved := 200; pm_len := 1300 |}.

Lemma sample_header_wf : PeerManagerHeader_wf sample_header.
Proof. vm_compute. repeat split; discriminate. Qed.

Lemma pm_header_roundtrip_witness :
  ref_from_prefix (PeerManagerHeader_as_bytes sample_header ++ [1; 2]) = Some sample_header /\
  exists h', ref_from_prefix (repeat 9 17) = Some h' /\ PeerManagerHeader_wf h' /\
    PeerManagerHeader_as_bytes h' ++ drop 16 (repeat 9 17) = repeat 9 17.
Proof.
  apply (pm_header_roundtrip sample_header (repeat 9 17) [1; 2]).
  - exact sample_header_wf.
  - vm_compute. repeat constructor; discriminate.
  - vm_compute. discriminate.
Defined.

(** The eight header flags are independent: setting or clearing one flag
    makes that flag read back as set or cleared, leaves every other flag as it
    was, changes no other field, and keeps the header within its widths. *)
Theorem header_flags_independent (h : PeerManagerHeader) (f g : Z) (b : bool)
    (Hf : f ∈ all_flags) (Hg : g ∈ all_flags) (Hh : PeerManagerHeader_wf h) :
  contains (flags (set_flag f b h)) g = (if f =? g then b else contains (flags h) g) /\
  with_flags (set_flag f b h) (flags h) = h /\
  PeerManagerHeader_wf (set_flag f b h).
Proof.
  split; [|split; [by destruct h|by apply set_flag_wf]].
  destruct (all_flags_bit f Hf) as (i & Hi & ->), (all_flags_bit g Hg) as (j & Hj & ->).
  rewrite !contains_testbit, set_flag_testbit by lia.
  destruct (Z.eqb_spec i j) as [->|Hne]; [by rewrite Z.eqb_refl|].
  rewrite (proj2 (Z.eqb_neq (2 ^ i) (2 ^ j))); [done|].
  intros E. apply Z.pow_inj_r in E; lia.
Qed.

Lemma header_flags_independent_witness :
  contains (flags (set_flag COMPRESSED true sample_header)) ENCRYPTED =
    (if COMPRESSED =? ENCRYPTED then true else contains (flags sample_header) ENCRYPTED) /\
  with_flags (set_flag COMPRESSED true sample_header) (flags sample_header) = sample_header /\
  PeerManagerHeader_wf (set_flag COMPRESSED true sample_header).
Proof.
  apply (header_flags_independent sample_header COMPRESSED ENCRYPTED true).
  - apply (bool_decide_unpack _). vm_compute. exact I.
  - apply (bool_decide_unpack _). vm_compute. exact I.
  - exact sample_header_wf.
Defined.

(** Liveness markers: a header carries at most one of the probe and echo
    markers, with its token; setting either replaces the other, clearing drops
    both, and the six ordinary flags are untouched by all three. *)
Theorem liveness_markers (h : PeerManagerHeader) (t : Z) :
  liveness_probe_token (set_liveness_probe h t) = Some t /\
  liveness_echo_token (set_liveness_probe h t) = None /\
  liveness_echo_token (set_liveness_echo h t) = Some t /\
  liveness_probe_token (set_liveness_echo h t) = None /\
  liveness_probe_token (clear_liveness_marker h) = None /\
  liveness_echo_token (clear_liveness_marker h) = None /\
  (forall f, f ∈ all_flags -> f <> LIVENESS_PROBE -> f <> LIVENESS_ECHO ->
     contains (flags (set_liveness_probe h t)) f = contains (flags h) f /\
     contains (flags (set_liveness_echo h t)) f = contains (flags h) f /\
     contains (flags (clear_liveness_marker h)) f = contains (flags h) f).
Proof.
  unfold liveness_probe_token, liveness_echo_token, set_liveness_probe, set_liveness_echo.
  assert (Hp : forall fs, contains fs LIVENESS_PROBE = Z.testbit fs 5)
    by (intros; by apply (contains_flag _ _ 5)).
  assert (He : forall fs, contains fs LIVENESS_ECHO = Z.testbit fs 7)
    by (intros; by apply (contains_flag _ _ 7)).
  rewrite !Hp, !He, !liveness_marker_bits, !clear_marker_bits by (auto || lia).
  repeat split_and; try done.
  intros f Hf Hnp Hne. destruct (all_flags_bit f Hf) as (i & Hi & ->).
  rewrite !contains_testbit, !liveness_marker_bits, !clear_marker_bits by (auto || lia).
  assert (i <> 5) by (by intros ->). assert (i <> 7) by (by intros ->).
  by rewrite !(proj2 (Z.eqb_neq i _)).
Qed.
