(* ===== verification/Packet.v ===== *)
(** [ZCPacket] of [packet/mod.rs]: one buffer that holds, at offsets fixed by
    the packet's type, a tunnel header, the peer-manager header and the
    payload; its accessors, constructors and the conversion between tunnel
    types.  A [&mut T] into the buffer is the pair of the value read and the
    function that writes a value back.  The bytes left uninitialised by
    [set_len] are an arbitrary function [g] of their position. *)

From S2P Require Import Prelude Headers.
From stdpp Require Import list.
Local Open Scope Z_scope.

Definition TCP_TUNNEL_HEADER_SIZE : Z := 4.
Definition UDP_TUNNEL_HEADER_SIZE : Z := 8.
Definition WG_TUNNEL_HEADER_SIZE : Z := 20.
Definition PEER_MANAGER_HEADER_SIZE : Z := 16.

Record ZCPacketOffsets := {
  payload_offset : Z;
  peer_manager_header_offset : Z;
  tcp_tunnel_header_offset : Z;
  udp_tunnel_header_offset : Z;
  wg_tunnel_header_offset : Z;
  dummy_tunnel_header_offset : Z }.

Inductive ZCPacketType := TCP | UDP | WG | NIC | DummyTunnel.
#[export] Instance ZCPacketType_eq_dec : EqDecision ZCPacketType.
Proof. solve_decision. Defined.

Definition PAYLOAD_OFFSET_FOR_NIC_PACKET : Z :=
  max_usize (max_usize TCP_TUNNEL_HEADER_SIZE UDP_TUNNEL_HEADER_SIZE) WG_TUNNEL_HEADER_SIZE
  + PEER_MANAGER_HEADER_SIZE.

(** [usize::MAX] of a 64-bit target. *)
Definition INVALID_OFFSET : Z := max_of 64.

Definition get_converted_offset (old_hdr_size new_hdr_size : Z) : Z :=
  if old_hdr_size <? new_hdr_size then INVALID_OFFSET else old_hdr_size - new_hdr_size.

Definition get_packet_offsets (t : ZCPacketType) : ZCPacketOffsets :=
  match t with
  | TCP =>
    {| payload_offset := TCP_TUNNEL_HEADER_SIZE + PEER_MANAGER_HEADER_SIZE;
       peer_manager_header_offset := TCP_TUNNEL_HEADER_SIZE;
       tcp_tunnel_header_offset := 0;
       udp_tunnel_header_offset := get_converted_offset TCP_TUNNEL_HEADER_SIZE UDP_TUNNEL_HEADER_SIZE;
       wg_tunnel_header_offset := get_converted_offset TCP_TUNNEL_HEADER_SIZE WG_TUNNEL_HEADER_SIZE;
       dummy_tunnel_header_offset := get_converted_offset TCP_TUNNEL_HEADER_SIZE 0 |}
  | UDP =>
    {| payload_offset := UDP_TUNNEL_HEADER_SIZE + PEER_MANAGER_HEADER_SIZE;
       peer_manager_header_offset := UDP_TUNNEL_HEADER_SIZE;
       tcp_tunnel_header_offset := get_converted_offset UDP_TUNNEL_HEADER_SIZE TCP_TUNNEL_HEADER_SIZE;
       udp_tunnel_header_offset := 0;
       wg_tunnel_header_offset := get_converted_offset UDP_TUNNEL_HEADER_SIZE WG_TUNNEL_HEADER_SIZE;
       dummy_tunnel_header_offset := get_converted_offset UDP_TUNNEL_HEADER_SIZE 0 |}
  | WG =>
    {| payload_offset := WG_TUNNEL_HEADER_SIZE + PEER_MANAGER_HEADER_SIZE;
       peer_manager_header_offset := WG_TUNNEL_HEADER_SIZE;
       tcp_tunnel_header_offset := get_converted_offset WG_TUNNEL_HEADER_SIZE TCP_TUNNEL_HEADER_SIZE;
       udp_tunnel_header_offset := get_converted_offset WG_TUNNEL_HEADER_SIZE UDP_TUNNEL_HEADER_SIZE;
       wg_tunnel_header_offset := 0;
       dummy_tunnel_header_offset := get_converted_offset WG_TUNNEL_HEADER_SIZE 0 |}
  | NIC =>
    {| payload_offset := PAYLOAD_OFFSET_FOR_NIC_PACKET;
       peer_manager_header_offset := PAYLOAD_OFFSET_FOR_NIC_PACKET - PEER_MANAGER_HEADER_SIZE;
       tcp_tunnel_header_offset :=
         PAYLOAD_OFFSET_FOR_NIC_PACKET - PEER_MANAGER_HEADER_SIZE - TCP_TUNNEL_HEADER_SIZE;
       udp_tunnel_header_offset :=
         PAYLOAD_OFFSET_FOR_NIC_PACKET - PEER_MANAGER_HEADER_SIZE - UDP_TUNNEL_HEADER_SIZE;
       wg_tunnel_header_offset :=
         PAYLOAD_OFFSET_FOR_NIC_PACKET - PEER_MANAGER_HEADER_SIZE - WG_TUNNEL_HEADER_SIZE;
       dummy_tunnel_header_offset := PAYLOAD_OFFSET_FOR_NIC_PACKET - PEER_MANAGER_HEADER_SIZE |}
  | DummyTunnel =>
    {| payload_offset := PEER_MANAGER_HEADER_SIZE;
       peer_manager_header_offset := 0;
       tcp_tunnel_header_offset := get_converted_offset 0 TCP_TUNNEL_HEADER_SIZE;
       udp_tunnel_header_offset := get_converted_offset 0 UDP_TUNNEL_HEADER_SIZE;
       wg_tunnel_header_offset := get_converted_offset 0 WG_TUNNEL_HEADER_SIZE;
       dummy_tunnel_header_offset := 0 |}
  end.

Record ZCPacket := { inner : list Z; packet_type : ZCPacketType }.

Definition bytes_from_offset (p : ZCPacket) (offset : Z) : option (list Z) :=
  get_from offset (inner p).

(** The bytes from [offset] on, and the write-back of their first bytes. *)
Definition mut_bytes_from_offset (p : ZCPacket) (offset : Z)
    : option (list Z * (list Z -> ZCPacket)) :=
  b ← get_from offset (inner p);
  Some (b, fun d => {| inner := overwrite offset d (inner p); packet_type := packet_type p |}).

Definition new_nic_packet : ZCPacket := {| inner := []; packet_type := NIC |}.

Definition new_from_buf (buf : list Z) (t : ZCPacketType) : ZCPacket :=
  {| inner := buf; packet_type := t |}.

(** Buffer contents exposed by [set_len]. *)
Definition uninit (g : nat -> Z) (n : Z) : list Z :=
  map (fun i => g i mod 256) (seq 0 (Z.to_nat n)).

Definition zc_payload_offset (p : ZCPacket) : Z :=
  payload_offset (get_packet_offsets (packet_type p)).

(** [mut_payload]: the payload slice and the write-back of the whole slice. *)
Definition mut_payload (p : ZCPacket) : comp (list Z * (list Z -> ZCPacket)) :=
  let offset := zc_payload_offset p in
  s ← slice_from offset (inner p);
  Ret (s, fun d => {| inner := overwrite offset d (inner p); packet_type := packet_type p |}).

Definition new_with_payload (g : nat -> Z) (pl : list Z) : comp ZCPacket :=
  let ret := new_nic_packet in
  let payload_off := payload_offset (get_packet_offsets (packet_type ret)) in
  let total_len := payload_off + len pl in
  let ret := {| inner := uninit g total_len; packet_type := packet_type ret |} in
  '(s, put) ← mut_payload ret;
  s' ← copy_into 0 (len s) pl s;
  Ret (put s').

Definition new_for_tun (g : nat -> Z) (cap packet_info_len : Z) : ZCPacket :=
  let ret := new_nic_packet in
  let total_len :=
    wrap 64 (payload_offset (get_packet_offsets (packet_type ret)) - packet_info_len) in
  {| inner := uninit g total_len; packet_type := packet_type ret |}.

Definition mut_header {T} `{Wire T} (p : ZCPacket) (offset : Z)
    : option (T * (T -> ZCPacket)) :=
  '(b, put) ← mut_bytes_from_offset p offset;
  h ← ref_from_prefix b;
  Some (h, fun h' => put (wire_encode h')).

Definition mut_peer_manager_header (p : ZCPacket)
    : option (PeerManagerHeader * (PeerManagerHeader -> ZCPacket)) :=
  mut_header p (peer_manager_header_offset (get_packet_offsets (packet_type p))).
Definition mut_tcp_tunnel_header (p : ZCPacket)
    : option (TCPTunnelHeader * (TCPTunnelHeader -> ZCPacket)) :=
  mut_header p (tcp_tunnel_header_offset (get_packet_offsets (packet_type p))).
Definition mut_udp_tunnel_header (p : ZCPacket)
    : option (UDPTunnelHeader * (UDPTunnelHeader -> ZCPacket)) :=
  mut_header p (udp_tunnel_header_offset (get_packet_offsets (packet_type p))).
Definition mut_wg_tunnel_header (p : ZCPacket)
    : option (WGTunnelHeader * (WGTunnelHeader -> ZCPacket)) :=
  mut_header p (wg_tunnel_header_offset (get_packet_offsets (packet_type p))).

Definition payload (p : ZCPacket) : comp (list Z) :=
  slice_from (zc_payload_offset p) (inner p).
(** [advance] panics past the end, as the slice does. *)
Definition payload_bytes (p : ZCPacket) : comp (list Z) :=
  slice_from (zc_payload_offset p) (inner p).

Definition peer_manager_header (p : ZCPacket) : option PeerManagerHeader :=
  b ← bytes_from_offset p (peer_manager_header_offset (get_packet_offsets (packet_type p)));
  ref_from_prefix b.
Definition udp_tunnel_header (p : ZCPacket) : option UDPTunnelHeader :=
  b ← bytes_from_offset p (udp_tunnel_header_offset (get_packet_offsets (packet_type p)));
  ref_from_prefix b.

(** The offset sum wraps for [INVALID_OFFSET] (release arithmetic). *)
Definition udp_payload (p : ZCPacket) : comp (list Z) :=
  slice_from
    (wrap 64 (udp_tunnel_header_offset (get_packet_offsets (packet_type p)) + UDP_TUNNEL_HEADER_SIZE))
    (inner p).
Definition udp_payload_bytes (p : ZCPacket) : comp (list Z) :=
  slice_from
    (wrap 64 (udp_tunnel_header_offset (get_packet_offsets (packet_type p)) + UDP_TUNNEL_HEADER_SIZE))
    (inner p).

Definition payload_len (p : ZCPacket) : Z := wrap 64 (len (inner p) - zc_payload_offset p).
Definition buf_len (p : ZCPacket) : Z := len (inner p).

Definition fill_peer_manager_hdr (p : ZCPacket) (from_id to_id ptype : Z) : comp ZCPacket :=
  let pl := payload_len p in
  '(hdr, put) ← unwrap (mut_peer_manager_header p);
  Ret (put {| from_peer_id := from_id; to_peer_id := to_id; pm_packet_type := ptype;
              flags := 0; forward_counter := 1; reserved := 0; pm_len := wrap 32 pl |}).

Definition tunnel_payload (p : ZCPacket) : comp (list Z) :=
  slice_from (peer_manager_header_offset (get_packet_offsets (packet_type p))) (inner p).
Definition tunnel_payload_bytes (p : ZCPacket) : comp (list Z) :=
  slice_from (peer_manager_header_offset (get_packet_offsets (packet_type p))) (inner p).

Definition new_for_foreign_network (g : nat -> Z) (network_name : list Z) (dst_peer_id : Z)
    (foreign_zc_packet : ZCPacket) : comp ZCPacket :=
  let fhdr := ForeignNetworkPacketHeader_new dst_peer_id network_name in
  tp ← tunnel_payload foreign_zc_packet;
  let total_payload_len := get_header_len fhdr + len tp in
  let ret := new_nic_packet in
  let payload_off := payload_offset (get_packet_offsets (packet_type ret)) in
  let ret := {| inner := uninit g (payload_off + total_payload_len);
                packet_type := packet_type ret |} in
  let fixed_hdr_len := 10 in
  '(s, put) ← mut_payload ret;
  s ← copy_into 0 fixed_hdr_len (ForeignNetworkPacketHeader_as_bytes fhdr) s;
  let ret := put s in
  let name_offset := network_name_offset fhdr in
  let name_len := network_name_len fhdr in
  '(s, put) ← mut_payload ret;
  s ← copy_into name_offset (name_offset + name_len) network_name s;
  let ret := put s in
  '(s, put) ← mut_payload ret;
  s ← copy_into (get_header_len fhdr) (len s) tp s;
  let ret := put s in
  fill_peer_manager_hdr ret 0 0 (PacketType_as_u8 ForeignNetworkPacket).

Definition convert_type (g : nat -> Z) (p : ZCPacket) (target : ZCPacketType) : comp ZCPacket :=
  if decide (target = packet_type p) then Ret p else
  let offs := get_packet_offsets (packet_type p) in
  new_offset ← match target with
    | TCP => Ret (tcp_tunnel_header_offset offs)
    | UDP => Ret (udp_tunnel_header_offset offs)
    | WG => Ret (wg_tunnel_header_offset offs)
    | DummyTunnel => Ret (dummy_tunnel_header_offset offs)
    | NIC => Panic
    end;
  if new_offset =? INVALID_OFFSET then
    tp ← tunnel_payload p;
    let new_pm_offset := peer_manager_header_offset (get_packet_offsets target) in
    Ret (new_from_buf (uninit g new_pm_offset ++ tp) target)
  else
    rest ← slice_from new_offset (inner p);
    Ret (new_from_buf rest target).

Definition is_lossy (p : ZCPacket) : bool :=
  match peer_manager_header p with
  | Some hdr => pm_packet_type hdr =? PacketType_as_u8 Data
  | None => false
  end.

Definition foreign_network_hdr (p : ZCPacket) : comp (option ForeignNetworkPacketHeader) :=
  hdr ← unwrap (peer_manager_header p);
  if pm_packet_type hdr =? PacketType_as_u8 ForeignNetworkPacket then
    s ← payload p;
    Ret (ref_from_prefix s)
  else Ret None.

Definition foreign_network_inner_packet_info (p : ZCPacket)
    : comp (option (PeerManagerHeader * Z)) :=
  match peer_manager_header p with
  | None => Ret None
  | Some hdr =>
    if negb (pm_packet_type hdr =? PacketType_as_u8 ForeignNetworkPacket) then Ret None else
    s ← payload p;
    Ret (fh ← ref_from_prefix s;
         inner_packet ← get_from (get_header_len fh) s;
         ih ← ref_from_prefix inner_packet;
         Some (ih, len inner_packet - PEER_MANAGER_HEADER_SIZE))
  end.

Definition foreign_network_inner_packet_type (p : ZCPacket) : comp (option Z) :=
  o ← foreign_network_inner_packet_info p;
  Ret (option_map (fun '(hdr, _) => pm_packet_type hdr) o).

Definition foreign_network_packet (p : ZCPacket) : comp ZCPacket :=
  oh ← foreign_network_hdr p;
  hdr ← unwrap oh;
  let foreign_hdr_len := get_header_len hdr in
  rest ← slice_from (foreign_hdr_len + zc_payload_offset p) (inner p);
  Ret (new_from_buf rest DummyTunnel).

Definition get_src_peer_id (p : ZCPacket) : option Z :=
  option_map from_peer_id (peer_manager_header p).
Definition get_dst_peer_id (p : ZCPacket) : option Z :=
  option_map to_peer_id (peer_manager_header p).

(** ** Lemmas: the header region *)

Abbreviation pm_offset p := (peer_manager_header_offset (get_packet_offsets (packet_type p))).

Definition put_pm_header (p : ZCPacket) (h : PeerManagerHeader) : ZCPacket :=
  {| inner := overwrite (pm_offset p) (PeerManagerHeader_as_bytes h) (inner p);
     packet_type := packet_type p |}.

(** Room for the tunnel header and the peer-manager header. *)
Definition has_header (p : ZCPacket) : Prop := zc_payload_offset p <= len (inner p).

Lemma payload_offset_pm t :
  payload_offset (get_packet_offsets t) = peer_manager_header_offset (get_packet_offsets t) + 16.
Proof. by destruct t. Qed.

Lemma pm_offset_nonneg t : 0 <= peer_manager_header_offset (get_packet_offsets t).
Proof. destruct t; vm_compute; congruence. Qed.

Lemma length_uninit g n : length (uninit g n) = Z.to_nat n.
Proof. unfold uninit. by rewrite length_map, length_seq. Qed.

Lemma uninit_ok g n : bytes_ok (uninit g n).
Proof.
  apply Forall_forall. intros x Hx. apply list_elem_of_In, in_map_iff in Hx as (i & <- & _).
  apply (Z.mod_pos_bound (g i) 256). lia.
Qed.

Lemma pm_header_None p : peer_manager_header p = None <-> len (inner p) < zc_payload_offset p.
Proof.
  unfold peer_manager_header, bytes_from_offset, zc_payload_offset.
  rewrite payload_offset_pm. pose proof (pm_offset_nonneg (packet_type p)).
  unfold get_from. case_match; bools; simpl; [|split; [lia|done]].
  rewrite (ref_from_prefix_None (T:=PeerManagerHeader)). unfold len.
  rewrite length_drop. simpl wire_size. unfold len in *. lia.
Qed.

Lemma mut_pm_header p :
  mut_peer_manager_header p = option_map (fun h => (h, put_pm_header p)) (peer_manager_header p).
Proof.
  unfold mut_peer_manager_header, mut_header, mut_bytes_from_offset, peer_manager_header,
    bytes_from_offset.
  destruct (get_from _ _); simpl; [|done]. by destruct (ref_from_prefix _).
Qed.

Lemma pm_header_is_Some p :
  bytes_ok (inner p) -> has_header p ->
  exists h, peer_manager_header p = Some h /\ PeerManagerHeader_wf h /\
    PeerManagerHeader_as_bytes h = arr (Z.to_nat (pm_offset p)) 16 (inner p).
Proof.
  unfold has_header, zc_payload_offset. rewrite payload_offset_pm. intros Hb Hl.
  pose proof (pm_offset_nonneg (packet_type p)).
  unfold peer_manager_header, bytes_from_offset. rewrite get_from_in by lia. simpl.
  destruct (ref_from_prefix_is_Some (T:=PeerManagerHeader)
    (drop (Z.to_nat (pm_offset p)) (inner p))) as (h & Hs & Hw & He); [auto with et| |].
  { rewrite len_drop; simpl wire_size; lia. }
  exists h. split_and!; [done|done|]. unfold arr. rewrite <- He.
  rewrite take_app_length'; [done|].
  exact (wire_length (T:=PeerManagerHeader) h Hw).
Qed.

Lemma length_pm_bytes h : length (PeerManagerHeader_as_bytes h) = 16%nat.
Proof.
  unfold PeerManagerHeader_as_bytes. by rewrite !length_app, !length_le_encode.
Qed.

Section put_header.
Context (p : ZCPacket) (h : PeerManagerHeader) (Hl : has_header p).

Lemma put_pm_bounds : 0 <= pm_offset p /\ pm_offset p + 16 <= len (inner p).
Proof using Hl.
  pose proof (pm_offset_nonneg (packet_type p)).
  unfold has_header, zc_payload_offset in Hl. rewrite payload_offset_pm in Hl. lia.
Qed.

Lemma put_pm_length : length (inner (put_pm_header p h)) = length (inner p).
Proof using Hl.
  destruct put_pm_bounds. simpl. apply length_overwrite; [done|].
  unfold len at 1. rewrite length_pm_bytes. lia.
Qed.

Lemma put_pm_has_header : has_header (put_pm_header p h).
Proof using Hl.
  unfold has_header, len. rewrite put_pm_length. exact Hl.
Qed.

Lemma put_pm_payload : payload (put_pm_header p h) = payload p.
Proof using Hl.
  destruct put_pm_bounds. unfold payload.
  change (zc_payload_offset (put_pm_header p h)) with (zc_payload_offset p).
  rewrite !slice_from_in by (exact Hl || exact put_pm_has_header). f_equal. simpl.
  apply overwrite_after; [done|unfold len at 1; rewrite length_pm_bytes; lia|].
  rewrite length_pm_bytes. unfold zc_payload_offset. rewrite payload_offset_pm. lia.
Qed.

Lemma put_pm_prefix :
  take (Z.to_nat (pm_offset p)) (inner (put_pm_header p h)) =
  take (Z.to_nat (pm_offset p)) (inner p).
Proof using Hl. destruct put_pm_bounds. simpl. apply overwrite_before; lia. Qed.

Lemma put_pm_get :
  PeerManagerHeader_wf h -> peer_manager_header (put_pm_header p h) = Some h.
Proof using Hl.
  intros Hw. destruct put_pm_bounds.
  assert (B : pm_offset p <= len (inner (put_pm_header p h)))
    by (unfold len in *; rewrite put_pm_length; lia).
  unfold peer_manager_header, bytes_from_offset. simpl in *.
  rewrite get_from_in by exact B. simpl.
  rewrite <- (ref_from_prefix_take (T:=PeerManagerHeader) _ 16) by done.
  rewrite <- (length_pm_bytes h) at 1. rewrite overwrite_at.
  - rewrite <- (app_nil_r (PeerManagerHeader_as_bytes h)).
    exact (ref_from_prefix_encode (T:=PeerManagerHeader) h [] Hw).
  - done.
  - unfold len at 1. rewrite length_pm_bytes. lia.
Qed.

Lemma put_pm_ok :
  PeerManagerHeader_wf h -> bytes_ok (inner p) -> bytes_ok (inner (put_pm_header p h)).
Proof.
  intros Hw Hb. apply bytes_ok_overwrite; [|done].
  exact (wire_bytes (T:=PeerManagerHeader) h Hw).
Qed.
End put_header.

Lemma payload_in p :
  has_header p -> payload p = Ret (drop (Z.to_nat (zc_payload_offset p)) (inner p)).
Proof. apply slice_from_in. Qed.

Lemma put_pm_payload_drop p h :
  has_header p ->
  drop (Z.to_nat (zc_payload_offset p)) (inner (put_pm_header p h)) =
  drop (Z.to_nat (zc_payload_offset p)) (inner p).
Proof.
  intros Hl. pose proof (put_pm_payload p h Hl) as E.
  rewrite !payload_in in E by auto using put_pm_has_header. by injection E.
Qed.

Lemma payload_len_in p :
  has_header p -> len (inner p) < 2 ^ 64 ->
  payload_len p = len (drop (Z.to_nat (zc_payload_offset p)) (inner p)).
Proof.
  intros Hl Hb. unfold payload_len, has_header in *.
  assert (0 <= zc_payload_offset p).
  { unfold zc_payload_offset. rewrite payload_offset_pm.
    pose proof (pm_offset_nonneg (packet_type p)). lia. }
  rewrite len_drop by lia. apply wrap_small. unfold in_range. lia.
Qed.

Lemma payload_offset_nonneg p : 0 <= zc_payload_offset p.
Proof.
  unfold zc_payload_offset. rewrite payload_offset_pm.
  pose proof (pm_offset_nonneg (packet_type p)). lia.
Qed.

(** ** Lemmas: constructors *)

Lemma mut_payload_app pre s t :
  len pre = payload_offset (get_packet_offsets t) ->
  mut_payload {| inner := pre ++ s; packet_type := t |} =
  Ret (s, fun d => {| inner := overwrite (len pre) d (pre ++ s); packet_type := t |}).
Proof.
  intros Hp. unfold mut_payload, zc_payload_offset; simpl. rewrite <- Hp.
  rewrite slice_from_in by (rewrite len_app; pose proof (len_nonneg s); lia).
  simpl. unfold len at 1. by rewrite Nat2Z.id, drop_app_length.
Qed.

Lemma overwrite_payload {A} (pre s d : list A) :
  length d = length s -> overwrite (len pre) d (pre ++ s) = pre ++ d.
Proof.
  intros Hd. pose proof (overwrite_app (len pre) pre s [] d eq_refl Hd) as E.
  by rewrite !app_nil_r in E.
Qed.

Lemma payload_app pre s t :
  len pre = payload_offset (get_packet_offsets t) ->
  payload {| inner := pre ++ s; packet_type := t |} = Ret s.
Proof.
  intros Hp. unfold payload, zc_payload_offset; simpl. rewrite <- Hp.
  rewrite slice_from_in by (rewrite len_app; pose proof (len_nonneg s); lia).
  unfold len. by rewrite Nat2Z.id, drop_app_length.
Qed.

Lemma fill_hdr_spec p from_id to_id ptype :
  has_header p ->
  fill_peer_manager_hdr p from_id to_id ptype =
  Ret (put_pm_header p
    {| from_peer_id := from_id; to_peer_id := to_id; pm_packet_type := ptype;
       flags := 0; forward_counter := 1; reserved := 0; pm_len := wrap 32 (payload_len p) |}).
Proof.
  intros Hl. unfold fill_peer_manager_hdr. rewrite mut_pm_header.
  destruct (peer_manager_header p) eqn:E; [done|].
  apply pm_header_None in E. unfold has_header in Hl. lia.
Qed.

(** The shape of a foreign-network packet before its header is filled in. *)
Lemma new_for_foreign_network_spec g name dst fz tp :
  tunnel_payload fz = Ret tp -> len name + 10 < 65536 ->
  exists pre, len pre = 36 /\ bytes_ok pre /\
  new_for_foreign_network g name dst fz =
  fill_peer_manager_hdr
    {| inner := pre ++ ForeignNetworkPacketHeader_as_bytes
                  (ForeignNetworkPacketHeader_new dst name) ++ name ++ tp;
       packet_type := NIC |} 0 0 (PacketType_as_u8 ForeignNetworkPacket).
Proof.
  intros Htp Hn. pose proof (len_nonneg name). pose proof (len_nonneg tp).
  assert (Hw : wrap 16 (len name) = len name) by (apply wrap_small; unfold in_range; lia).
  assert (Hh : fn_header_len (ForeignNetworkPacketHeader_new dst name) = 10 + len name).
  { unfold ForeignNetworkPacketHeader_new; cbv zeta; cbn [fn_header_len]. rewrite Hw.
    change (wrap 16 10) with 10. apply wrap_small. unfold in_range. lia. }
  unfold new_for_foreign_network. rewrite Htp. cbn [mbind comp_bind].
  unfold get_header_len. rewrite Hh. cbn [packet_type new_nic_packet].
  set (hb := ForeignNetworkPacketHeader_as_bytes _).
  assert (Hhb : length hb = 10%nat)
    by (subst hb; unfold ForeignNetworkPacketHeader_as_bytes; by rewrite !length_app, !length_le_encode).
  set (u := uninit g _).
  assert (Hu : length u = (36 + (10 + (length name + length tp)))%nat).
  { subst u. rewrite length_uninit. change (payload_offset (get_packet_offsets NIC)) with 36.
    unfold len. lia. }
  rewrite <- (take_drop 36 u). set (pre := take 36 u). set (s := drop 36 u).
  assert (Hpre : len pre = 36) by (subst pre; unfold len; rewrite length_take; lia).
  assert (Hs : length s = (10 + (length name + length tp))%nat)
    by (subst s; rewrite length_drop; lia).
  rewrite <- (take_drop 10 s). set (s1 := take 10 s). set (s23 := drop 10 s).
  rewrite <- (take_drop (length name) s23).
  set (s2 := take (length name) s23). set (s3 := drop (length name) s23).
  assert (H1 : length s1 = 10%nat) by (subst s1; rewrite length_take; lia).
  assert (H2 : length s2 = length name)
    by (subst s2 s23; rewrite length_take, length_drop; lia).
  assert (H3 : length s3 = length tp)
    by (subst s3 s23; rewrite !length_drop; lia).
  exists pre. split_and!; [done|subst pre u; auto using uninit_ok with et|].
  rewrite mut_payload_app by done. cbn [mbind comp_bind].
  rewrite <- (app_nil_l (s1 ++ s2 ++ s3)) at 1.
  rewrite copy_into_app by (unfold len; simpl; lia). cbn [mbind comp_bind app].
  rewrite overwrite_payload by (rewrite !length_app; lia).
  rewrite mut_payload_app by done. cbn [mbind comp_bind].
  unfold ForeignNetworkPacketHeader_new; cbn [network_name_offset network_name_len].
  rewrite Hw. change (wrap 16 10) with 10.
  rewrite copy_into_app by (unfold len; lia). cbn [mbind comp_bind].
  rewrite overwrite_payload by (rewrite !length_app; lia).
  rewrite mut_payload_app by done. cbn [mbind comp_bind].
  rewrite (app_assoc hb name s3). rewrite <- (app_nil_r s3) at 2.
  rewrite copy_into_app by (rewrite ?len_app; unfold len; lia).
  cbn [mbind comp_bind]. rewrite app_nil_r.
  rewrite overwrite_payload by (rewrite !length_app; lia).
  by rewrite <- (app_assoc hb name tp).
Qed.

Lemma tunnel_payload_in p :
  pm_offset p <= len (inner p) ->
  tunnel_payload p = Ret (drop (Z.to_nat (pm_offset p)) (inner p)).
Proof. apply slice_from_in. Qed.

Lemma has_header_pm p : has_header p -> pm_offset p + 16 <= len (inner p).
Proof. unfold has_header, zc_payload_offset. by rewrite payload_offset_pm. Qed.

(** The source offset at which the target's tunnel header starts: either the
    buffer has no room for it, or the two peer-manager headers coincide. *)
Definition tunnel_offset_for (t target : ZCPacketType) : Z :=
  let offs := get_packet_offsets t in
  match target with
  | TCP => tcp_tunnel_header_offset offs
  | UDP => udp_tunnel_header_offset offs
  | WG => wg_tunnel_header_offset offs
  | DummyTunnel | NIC => dummy_tunnel_header_offset offs
  end.

Lemma tunnel_offset_aligned t target :
  target <> NIC -> target <> t ->
  tunnel_offset_for t target = INVALID_OFFSET \/
  (0 <= tunnel_offset_for t target /\
   tunnel_offset_for t target <> INVALID_OFFSET /\
   tunnel_offset_for t target + peer_manager_header_offset (get_packet_offsets target) =
   peer_manager_header_offset (get_packet_offsets t)).
Proof.
  intros. destruct t, target; try done;
    first [left; reflexivity
          | right; split_and!; [vm_compute; congruence|vm_compute; congruence|reflexivity]].
Qed.

(** ** Packets by parts

    [mk_packet t tun h pl] is the packet with tunnel bytes [tun], header [h]
    and payload [pl]; every packet with room for its headers has this form, and
    the accessors act on the parts. *)
Definition mk_packet (t : ZCPacketType) (tun : list Z) (h : PeerManagerHeader) (pl : list Z)
    : ZCPacket :=
  {| inner := tun ++ PeerManagerHeader_as_bytes h ++ pl; packet_type := t |}.

Definition parts_ok (t : ZCPacketType) (tun : list Z) (h : PeerManagerHeader) : Prop :=
  len tun = peer_manager_header_offset (get_packet_offsets t) /\ PeerManagerHeader_wf h.

Lemma packet_parts p :
  bytes_ok (inner p) -> has_header p ->
  exists tun h pl, p = mk_packet (packet_type p) tun h pl /\ parts_ok (packet_type p) tun h /\
    bytes_ok tun /\ bytes_ok pl.
Proof.
  intros Hb Hl. destruct (pm_header_is_Some p Hb Hl) as (h & _ & Hw & He).
  pose proof (has_header_pm p Hl). pose proof (pm_offset_nonneg (packet_type p)).
  exists (take (Z.to_nat (pm_offset p)) (inner p)), h,
    (drop 16 (drop (Z.to_nat (pm_offset p)) (inner p))).
  split_and!; auto with et.
  - destruct p as [b t]; unfold mk_packet; cbn [inner packet_type] in *. f_equal.
    rewrite He. unfold arr.
    by rewrite !take_drop.
  - split; [|done]. unfold len in *. rewrite length_take. lia.
Qed.

Section parts.
Context (t : ZCPacketType) (tun : list Z) (h : PeerManagerHeader) (pl : list Z).
Context (Hok : parts_ok t tun h).

Lemma parts_pre_len :
  len (tun ++ PeerManagerHeader_as_bytes h) = payload_offset (get_packet_offsets t).
Proof using Hok.
  destruct Hok as [Ht _]. rewrite len_app, Ht, payload_offset_pm. unfold len.
  by rewrite length_pm_bytes.
Qed.

Lemma parts_has_header : has_header (mk_packet t tun h pl).
Proof using Hok.
  unfold has_header, mk_packet, zc_payload_offset; cbn [inner packet_type].
  rewrite app_assoc, len_app.
  rewrite parts_pre_len. pose proof (len_nonneg pl). lia.
Qed.

Lemma parts_header : peer_manager_header (mk_packet t tun h pl) = Some h.
Proof using Hok.
  destruct Hok as [Ht Hw]. unfold peer_manager_header, bytes_from_offset, mk_packet; cbn [inner packet_type].
  pose proof (len_nonneg (PeerManagerHeader_as_bytes h ++ pl)).
  rewrite get_from_in by (rewrite len_app; lia). simpl.
  rewrite drop_app_length' by (unfold len in Ht; lia).
  exact (ref_from_prefix_encode (T:=PeerManagerHeader) h pl Hw).
Qed.

Lemma parts_payload : payload (mk_packet t tun h pl) = Ret pl.
Proof using Hok.
  unfold mk_packet. rewrite app_assoc. apply payload_app, parts_pre_len.
Qed.

Lemma parts_put_header h' :
  put_pm_header (mk_packet t tun h pl) h' = mk_packet t tun h' pl.
Proof using Hok.
  destruct Hok as [Ht _]. unfold put_pm_header, mk_packet; cbn [inner packet_type]. f_equal.
  apply overwrite_app; [done|by rewrite !length_pm_bytes].
Qed.

Lemma parts_mut_header :
  mut_peer_manager_header (mk_packet t tun h pl) =
  Some (h, put_pm_header (mk_packet t tun h pl)).
Proof using Hok. by rewrite mut_pm_header, parts_header. Qed.

Lemma parts_mut_payload :
  mut_payload (mk_packet t tun h pl) =
  Ret (pl, fun d => {| inner := overwrite (zc_payload_offset (mk_packet t tun h pl)) d
                         (inner (mk_packet t tun h pl)); packet_type := t |}).
Proof using Hok.
  unfold mk_packet, zc_payload_offset; cbn [inner packet_type]. rewrite <- parts_pre_len, app_assoc.
  apply mut_payload_app, parts_pre_len.
Qed.

Lemma parts_put_payload d :
  length d = length pl ->
  {| inner := overwrite (zc_payload_offset (mk_packet t tun h pl)) d
                (inner (mk_packet t tun h pl)); packet_type := t |} = mk_packet t tun h d.
Proof using Hok.
  intros Hd. unfold mk_packet, zc_payload_offset; cbn [inner packet_type]. rewrite <- parts_pre_len, app_assoc.
  by rewrite overwrite_payload, <- app_assoc by done.
Qed.

Lemma parts_buf_len :
  buf_len (mk_packet t tun h pl) = payload_offset (get_packet_offsets t) + len pl.
Proof using Hok.
  unfold buf_len, mk_packet; cbn [inner packet_type]. by rewrite app_assoc, len_app, parts_pre_len.
Qed.
End parts.

(** [mut_inner().truncate(n)] and [mut_inner().extend_from_slice(d)]. *)
Definition truncate_packet (p : ZCPacket) (n : Z) : ZCPacket :=
  {| inner := take (Z.to_nat n) (inner p); packet_type := packet_type p |}.
Definition extend_packet (p : ZCPacket) (d : list Z) : ZCPacket :=
  {| inner := inner p ++ d; packet_type := packet_type p |}.

Lemma extend_parts t tun h pl d :
  extend_packet (mk_packet t tun h pl) d = mk_packet t tun h (pl ++ d).
Proof. unfold extend_packet, mk_packet; cbn [inner packet_type]. by rewrite <- !app_assoc. Qed.

Lemma truncate_parts t tun h pl d n :
  n = buf_len (mk_packet t tun h pl) ->
  truncate_packet (mk_packet t tun h (pl ++ d)) n = mk_packet t tun h pl.
Proof.
  intros ->. unfold truncate_packet, buf_len, mk_packet; cbn [inner packet_type]. f_equal.
  rewrite !app_assoc. apply take_app_length'. unfold len. by rewrite Nat2Z.id.
Qed.

Lemma parts_buf_len_app t tun h pl d :
  buf_len (mk_packet t tun h (pl ++ d)) = buf_len (mk_packet t tun h pl) + len d.
Proof.
  unfold buf_len, mk_packet; cbn [inner]. rewrite !len_app. lia.
Qed.

Lemma header_has_header p h : peer_manager_header p = Some h -> has_header p.
Proof.
  intros E. unfold has_header.
  destruct (Z.le_gt_cases (zc_payload_offset p) (len (inner p))); [done|].
  by rewrite (proj2 (pm_header_None p)) in E.
Qed.

(** Header access is memory safe and framed: reading or borrowing the
    peer-manager header succeeds exactly when the buffer holds both headers,
    and writing a header through the borrow is read back unchanged, without
    touching the payload, the tunnel header or the buffer length. *)
Theorem header_access (p : ZCPacket) (h : PeerManagerHeader) (Hh : PeerManagerHeader_wf h) :
  (peer_manager_header p = None <-> len (inner p) < zc_payload_offset p) /\
  (mut_peer_manager_header p = None <-> peer_manager_header p = None) /\
  (forall h0 put, mut_peer_manager_header p = Some (h0, put) ->
     peer_manager_header p = Some h0 /\
     peer_manager_header (put h) = Some h /\
     payload (put h) = payload p /\
     take (Z.to_nat (pm_offset p)) (inner (put h)) = take (Z.to_nat (pm_offset p)) (inner p) /\
     length (inner (put h)) = length (inner p) /\
     packet_type (put h) = packet_type p).
Proof.
  split; [apply pm_header_None|]. rewrite mut_pm_header.
  split; [by destruct (peer_manager_header p)|].
  intros h0 put E. destruct (peer_manager_header p) as [h1|] eqn:Ep; [|done]. simplify_eq/=.
  assert (Hl : has_header p).
  { unfold has_header. destruct (Z.le_gt_cases (zc_payload_offset p) (len (inner p))); [done|].
    by rewrite (proj2 (pm_header_None p)) in Ep. }
  split_and!; [done|by apply put_pm_get|by apply put_pm_payload|by apply put_pm_prefix
              |by apply put_pm_length|done].
Qed.

Definition sample_packet : ZCPacket :=
  {| inner := repeat 3 10 ++ [1; 2; 3; 4; 5; 6; 7; 8; 9; 10; 11; 12; 13; 14; 15; 16; 17; 18];
     packet_type := UDP |}.

Lemma header_access_witness :
  (peer_manager_header sample_packet = None <->
     len (inner sample_packet) < zc_payload_offset sample_packet) /\
  (mut_peer_manager_header sample_packet = None <-> peer_manager_header sample_packet = None) /\
  (forall h0 put, mut_peer_manager_header sample_packet = Some (h0, put) ->
     peer_manager_header sample_packet = Some h0 /\
     peer_manager_header (put sample_header) = Some sample_header /\
     payload (put sample_header) = payload sample_packet /\
     take (Z.to_nat (pm_offset sample_packet)) (inner (put sample_header)) =
       take (Z.to_nat (pm_offset sample_packet)) (inner sample_packet) /\
     length (inner (put sample_header)) = length (inner sample_packet) /\
     packet_type (put sample_header) = packet_type sample_packet).
Proof. apply (header_access sample_packet sample_header). exact sample_header_wf. Defined.

(** [fill_peer_manager_hdr] panics exactly on a buffer without room for
    the headers; otherwise it leaves the payload and sets every header field,
    the length field being the payload length. *)
Theorem fill_peer_manager_hdr_spec (p : ZCPacket) (from_id to_id ptype : Z)
    (Hf : u32 from_id) (Ht : u32 to_id) (Hp : u8 ptype) (Hsz : len (inner p) < 2 ^ 32) :
  match fill_peer_manager_hdr p from_id to_id ptype with
  | Panic => len (inner p) < zc_payload_offset p
  | Ret p' => exists pl, payload p = Ret pl /\ payload p' = Ret pl /\
      peer_manager_header p' =
      Some {| from_peer_id := from_id; to_peer_id := to_id; pm_packet_type := ptype;
              flags := 0; forward_counter := 1; reserved := 0; pm_len := len pl |}
  end.
Proof.
  destruct (Z.le_gt_cases (zc_payload_offset p) (len (inner p))) as [Hl|Hl].
  - change (has_header p) in Hl. rewrite fill_hdr_spec by done.
    pose proof (payload_offset_nonneg p). pose proof (len_nonneg (inner p)).
    rewrite (payload_in p Hl). eexists. split; [done|]. rewrite put_pm_payload by done.
    split; [by apply payload_in|].
    rewrite payload_len_in by (first [done | change (2 ^ 64) with (2 ^ 32 * 2 ^ 32); lia]).
    assert (Hlen : u32 (len (drop (Z.to_nat (zc_payload_offset p)) (inner p))))
      by (rewrite len_drop by (unfold has_header in Hl; lia); unfold has_header in Hl;
          unfold in_range; lia).
    rewrite (wrap_small 32) by done.
    apply put_pm_get; [done|]. unfold PeerManagerHeader_wf; simpl. split_and!; done.
  - unfold fill_peer_manager_hdr.
    by rewrite mut_pm_header, (proj2 (pm_header_None p)) by done.
Qed.

Lemma fill_peer_manager_hdr_spec_witness :
  match fill_peer_manager_hdr sample_packet 5 9 8 with
  | Panic => len (inner sample_packet) < zc_payload_offset sample_packet
  | Ret p' => exists pl, payload sample_packet = Ret pl /\ payload p' = Ret pl /\
      peer_manager_header p' =
      Some {| from_peer_id := 5; to_peer_id := 9; pm_packet_type := 8;
              flags := 0; forward_counter := 1; reserved := 0; pm_len := len pl |}
  end.
Proof.
  apply (fill_peer_manager_hdr_spec sample_packet 5 9 8); vm_compute; try split; congruence.
Defined.

Lemma convert_type_spec (g : nat -> Z) (p : ZCPacket) (target : ZCPacketType)
    (Hl : has_header p) :
  match convert_type g p target with
  | Panic => target = NIC /\ packet_type p <> NIC
  | Ret p' => packet_type p' = target /\ tunnel_payload p' = tunnel_payload p /\ has_header p'
  end.
Proof.
  unfold convert_type. case_decide as Ht; [by subst|].
  pose proof (has_header_pm p Hl) as Hpm. pose proof (pm_offset_nonneg (packet_type p)) as Hp0.
  pose proof (pm_offset_nonneg target) as Hq0.
  destruct (decide (target = NIC)) as [->|Hn]; [by split; [|congruence]|].
  replace (match target with TCP => _ | UDP => _ | WG => _ | NIC => _ | DummyTunnel => _ end)
    with (Ret (tunnel_offset_for (packet_type p) target)) by (by destruct target).
  cbn [mbind comp_bind].
  rewrite (tunnel_payload_in p) by lia. cbn [mbind comp_bind].
  destruct (tunnel_offset_aligned (packet_type p) target Hn Ht) as [E|(E0 & Ei & E)].
  - rewrite E, Z.eqb_refl. split; [done|].
    assert (Hu : len (uninit g (peer_manager_header_offset (get_packet_offsets target))) =
                 peer_manager_header_offset (get_packet_offsets target))
      by (unfold len; rewrite length_uninit; lia).
    split.
    + rewrite tunnel_payload_in; simpl; rewrite ?len_app, ?Hu;
        [|pose proof (len_nonneg (drop (Z.to_nat (pm_offset p)) (inner p))); lia].
      f_equal. apply drop_app_length'. rewrite length_uninit. lia.
    + unfold has_header, zc_payload_offset; simpl.
      rewrite payload_offset_pm, len_app, Hu, len_drop by lia. lia.
  - rewrite (proj2 (Z.eqb_neq _ _) Ei).
    rewrite slice_from_in by lia. cbn [mbind comp_bind]. split; [done|]. split.
    + rewrite tunnel_payload_in; simpl; [|rewrite len_drop by lia; lia].
      f_equal. rewrite drop_drop. f_equal. lia.
    + unfold has_header, zc_payload_offset; simpl.
      rewrite payload_offset_pm, len_drop by lia. lia.
Qed.

(** [convert_type] to any tunnel type succeeds on a packet that holds its
    headers, keeps the peer-manager header and payload byte for byte, and
    leaves room for the target's tunnel header; converting to [NIC] from
    another type is the only panic. *)
Theorem convert_type_preserves (g : nat -> Z) (p : ZCPacket) (target : ZCPacketType)
    (Hl : has_header p) :
  match convert_type g p target with
  | Panic => target = NIC /\ packet_type p <> NIC
  | Ret p' => packet_type p' = target /\ tunnel_payload p' = tunnel_payload p /\ has_header p'
  end.
Proof. exact (convert_type_spec g p target Hl). Qed.

Lemma convert_type_preserves_witness :
  match convert_type (fun _ => 0) sample_packet WG with
  | Panic => WG = NIC /\ packet_type sample_packet <> NIC
  | Ret p' => packet_type p' = WG /\ tunnel_payload p' = tunnel_payload sample_packet /\
              has_header p'
  end.
Proof. apply (convert_type_preserves (fun _ => 0) sample_packet WG). vm_compute. congruence. Defined.

Lemma foreign_hdr_wf dst name :
  u32 dst -> ForeignNetworkPacketHeader_wf (ForeignNetworkPacketHeader_new dst name).
Proof.
  intros Hd. unfold ForeignNetworkPacketHeader_wf, ForeignNetworkPacketHeader_new; simpl.
  split_and!; try done; by apply wrap_range.
Qed.

Lemma foreign_hdr_small dst name :
  len name + 10 < 65536 ->
  ForeignNetworkPacketHeader_new dst name =
  {| fn_header_len := 10 + len name; fn_dst_peer_id := dst;
     network_name_offset := 10; network_name_len := len name |}.
Proof.
  intros Hn. pose proof (len_nonneg name). unfold ForeignNetworkPacketHeader_new.
  rewrite (wrap_small 16 10) by (unfold in_range; lia).
  rewrite (wrap_small 16 (len name)) by (unfold in_range; lia).
  by rewrite (wrap_small 16) by (unfold in_range; lia).
Qed.

Lemma filled_hdr_wf from_id to_id ptype n :
  u32 from_id -> u32 to_id -> u8 ptype ->
  PeerManagerHeader_wf
    {| from_peer_id := from_id; to_peer_id := to_id; pm_packet_type := ptype;
       flags := 0; forward_counter := 1; reserved := 0; pm_len := wrap 32 n |}.
Proof.
  intros. unfold PeerManagerHeader_wf; cbn [from_peer_id to_peer_id pm_packet_type flags
    forward_counter reserved pm_len].
  split_and!; try done; by apply wrap_range.
Qed.

(** What a reader sees of a foreign-network packet after its header is filled. *)
Section foreign_views.
Context (pre name tp : list Z) (dst : Z).
Context (Hpre : len pre = 36) (Hn : len name + 10 < 65536) (Hd : u32 dst).

Let hb := ForeignNetworkPacketHeader_as_bytes (ForeignNetworkPacketHeader_new dst name).
Let p0 := {| inner := pre ++ hb ++ name ++ tp; packet_type := NIC |}.

Lemma foreign_hb_length : length hb = 10%nat.
Proof using Type.
  unfold hb, ForeignNetworkPacketHeader_as_bytes. by rewrite !length_app, !length_le_encode.
Qed.

Lemma foreign_has_header : has_header p0.
Proof using Hpre.
  change (36 <= len (pre ++ hb ++ name ++ tp)). rewrite len_app.
  pose proof (len_nonneg (hb ++ name ++ tp)). lia.
Qed.

Lemma foreign_payload h : payload (put_pm_header p0 h) = Ret (hb ++ name ++ tp).
Proof using Hpre.
  rewrite put_pm_payload by exact foreign_has_header. by apply payload_app.
Qed.

Lemma foreign_hdr_view h :
  PeerManagerHeader_wf h -> pm_packet_type h = PacketType_as_u8 ForeignNetworkPacket ->
  foreign_network_hdr (put_pm_header p0 h) =
  Ret (Some (ForeignNetworkPacketHeader_new dst name)).
Proof using Hpre Hd.
  intros Hw Ht. unfold foreign_network_hdr.
  rewrite put_pm_get by auto using foreign_has_header. cbn [unwrap mbind comp_bind].
  rewrite Ht, Z.eqb_refl, foreign_payload. cbn [mbind comp_bind]. do 2 f_equal.
  exact (ref_from_prefix_encode (T:=ForeignNetworkPacketHeader) _ (name ++ tp)
           (foreign_hdr_wf dst name Hd)).
Qed.

Lemma foreign_name_view :
  utf8_valid name = true ->
  get_network_name (ForeignNetworkPacketHeader_new dst name) (hb ++ name ++ tp) = Ret name.
Proof using Hn.
  intros Hutf. pose proof foreign_hb_length. pose proof (len_nonneg name).
  pose proof (len_nonneg tp). rewrite foreign_hdr_small by done. unfold get_network_name.
  cbn [network_name_offset network_name_len].
  rewrite slice_in by (rewrite !len_app; unfold len at 3; lia).
  cbn [mbind comp_bind]. rewrite (drop_app_length' hb) by (simpl; lia).
  rewrite take_app_length' by (unfold len; lia). by rewrite Hutf.
Qed.

Lemma foreign_inner_view h :
  PeerManagerHeader_wf h -> pm_packet_type h = PacketType_as_u8 ForeignNetworkPacket ->
  foreign_network_packet (put_pm_header p0 h) = Ret (new_from_buf tp DummyTunnel).
Proof using Hpre Hn Hd.
  intros Hw Ht. unfold foreign_network_packet. rewrite foreign_hdr_view by done.
  cbn [unwrap mbind comp_bind]. rewrite foreign_hdr_small by done.
  unfold get_header_len; cbn [fn_header_len].
  change (zc_payload_offset (put_pm_header p0 h)) with 36.
  pose proof foreign_hb_length. pose proof foreign_has_header as Hl.
  rewrite slice_from_in.
  - cbn [mbind comp_bind]. do 2 f_equal.
    replace (Z.to_nat (10 + len name + 36)) with (36 + (10 + length name))%nat
      by (unfold len; lia).
    rewrite <- drop_drop. pose proof (put_pm_payload_drop p0 h Hl) as E.
    change (Z.to_nat (zc_payload_offset p0)) with 36%nat in E. rewrite E.
    unfold p0; cbn [inner]. rewrite (drop_app_length' pre) by (unfold len in Hpre; lia).
    rewrite app_assoc, drop_app_length'; [done|]. rewrite length_app. lia.
  - unfold len. rewrite put_pm_length by done. unfold p0; cbn [inner].
    rewrite !length_app. unfold len in Hpre. lia.
Qed.
End foreign_views.

(** Foreign-network encapsulation round-trips: wrapping any packet for a
    network with a valid name of at most 65525 bytes yields a packet from which
    the name, the destination peer and the inner packet (its peer-manager
    header and payload) are recovered exactly. *)
Theorem foreign_network_roundtrip (g : nat -> Z) (name : list Z) (dst : Z) (fz : ZCPacket)
    (Hutf : utf8_valid name = true) (Hn : len name + 10 < 65536) (Hd : u32 dst)
    (Hfz : pm_offset fz <= len (inner fz)) :
  exists p' hdr pl q,
    new_for_foreign_network g name dst fz = Ret p' /\
    foreign_network_hdr p' = Ret (Some hdr) /\ payload p' = Ret pl /\
    get_network_name hdr pl = Ret name /\ fn_get_dst_peer_id hdr = dst /\
    foreign_network_packet p' = Ret q /\ packet_type q = DummyTunnel /\
    tunnel_payload q = tunnel_payload fz.
Proof.
  rewrite (tunnel_payload_in fz Hfz). set (tp := drop _ _).
  destruct (new_for_foreign_network_spec g name dst fz tp) as (pre & Hpre & _ & ->);
    [by apply tunnel_payload_in|done|].
  rewrite fill_hdr_spec by (by apply foreign_has_header).
  assert (Hw := filled_hdr_wf 0 0 (PacketType_as_u8 ForeignNetworkPacket)).
  eexists _, _, _, (new_from_buf tp DummyTunnel). split_and!; [done| | | | | |done|].
  - apply foreign_hdr_view; [done|done| |done]. apply Hw; vm_compute; split; congruence.
  - by apply foreign_payload.
  - by apply foreign_name_view.
  - done.
  - apply foreign_inner_view; [done|done|done| |done]. apply Hw; vm_compute; split; congruence.
  - unfold tunnel_payload; simpl. rewrite slice_from_in; [done|apply len_nonneg].
Qed.

Lemma foreign_network_roundtrip_witness :
  exists p' hdr pl q,
    new_for_foreign_network (fun n => Z.of_nat n) [110; 195; 169] 77 sample_packet = Ret p' /\
    foreign_network_hdr p' = Ret (Some hdr) /\ payload p' = Ret pl /\
    get_network_name hdr pl = Ret [110; 195; 169] /\ fn_get_dst_peer_id hdr = 77 /\
    foreign_network_packet p' = Ret q /\ packet_type q = DummyTunnel /\
    tunnel_payload q = tunnel_payload sample_packet.
Proof.
  apply (foreign_network_roundtrip (fun n => Z.of_nat n) [110; 195; 169] 77 sample_packet);
    vm_compute; try split; congruence.
Defined.
