(* ===== verification/Encrypt.v ===== *)
(** Packet encryption: [tunnel/encrypt/] and [config/encryption.rs].  The
    [Encryptor] trait is a record of operations on packets; the XOR, null and
    unsupported ciphers, the RustCrypto, ring and OpenSSL AEAD backends and the
    algorithm selection are translated, with the cipher primitives of the
    third-party crates as the operations of [CryptoLib].  An operation returns
    the packet it leaves behind together with its [Result], or panics. *)

From S2P Require Import Prelude Headers Packet.
From stdpp Require Import list strings.
Local Open Scope Z_scope.

(** ** Algorithms and errors *)

Inductive EncryptionAlgorithm := Xor | AesGcm | Aes256Gcm | ChaCha20.
#[export] Instance EncryptionAlgorithm_eq_dec : EqDecision EncryptionAlgorithm.
Proof. solve_decision. Defined.

Definition EncryptionAlgorithm_as_str (a : EncryptionAlgorithm) : string :=
  match a with
  | Xor => "xor" | AesGcm => "aes-gcm" | Aes256Gcm => "aes-256-gcm" | ChaCha20 => "chacha20"
  end.

(** [str::to_ascii_lowercase]. *)
Definition ascii_lower (c : Ascii.ascii) : Ascii.ascii :=
  let n := Ascii.nat_of_ascii c in
  if ((65 <=? n) && (n <=? 90))%nat then Ascii.ascii_of_nat (n + 32) else c.
Fixpoint to_ascii_lowercase (s : string) : string :=
  match s with
  | EmptyString => EmptyString
  | String c s => String (ascii_lower c) (to_ascii_lowercase s)
  end.

Definition EncryptionAlgorithm_from_str (value : string) : result unit EncryptionAlgorithm :=
  let v := to_ascii_lowercase value in
  if bool_decide (v = "xor"%string) then Ok Xor
  else if bool_decide (v = "aes-gcm"%string) || bool_decide (v = "openssl-aes-gcm"%string)
  then Ok AesGcm
  else if bool_decide (v = "aes-256-gcm"%string) || bool_decide (v = "openssl-aes-256-gcm"%string)
  then Ok Aes256Gcm
  else if bool_decide (v = "chacha20"%string) || bool_decide (v = "chacha20-poly1305"%string)
          || bool_decide (v = "openssl-chacha20"%string)
  then Ok ChaCha20
  else Err tt.

Inductive CipherError :=
  | PacketTooShort (n : Z)
  | DecryptionFailed
  | EncryptionFailed
  | InvalidAlgorithm (a : string)
  | AlgorithmUnavailable (a : string).

(** ** The [Encryptor] trait

    [rng] is the output of the random generator an operation may draw a nonce
    from. *)

Abbreviation cipher_result := (comp (ZCPacket * result CipherError unit)).

Record Encryptor := {
  e_decrypt : ZCPacket -> cipher_result;
  e_encrypt : list Z -> ZCPacket -> cipher_result;
  e_encrypt_with_nonce : list Z -> ZCPacket -> option (list Z) -> cipher_result }.

(** ** Null and unsupported ciphers *)

Definition NullCipher_decrypt (p : ZCPacket) : cipher_result :=
  h ← unwrap (peer_manager_header p);
  Ret (p, if is_encrypted h then Err DecryptionFailed else Ok tt).
Definition NullCipher_encrypt (p : ZCPacket) : cipher_result := Ret (p, Ok tt).
Definition NullCipher : Encryptor :=
  {| e_decrypt := NullCipher_decrypt;
     e_encrypt := fun _ => NullCipher_encrypt;
     e_encrypt_with_nonce := fun _ p _ => NullCipher_encrypt p |}.

Record UnsupportedCipher := { uc_algorithm : string; uc_unavailable : bool }.
Definition UnsupportedCipher_error (c : UnsupportedCipher) : CipherError :=
  if uc_unavailable c then AlgorithmUnavailable (uc_algorithm c)
  else InvalidAlgorithm (uc_algorithm c).
Definition UnsupportedCipher_encryptor (c : UnsupportedCipher) : Encryptor :=
  {| e_decrypt := fun p => Ret (p, Err (UnsupportedCipher_error c));
     e_encrypt := fun _ p => Ret (p, Err (UnsupportedCipher_error c));
     e_encrypt_with_nonce := fun _ p _ => Ret (p, Err (UnsupportedCipher_error c)) |}.
Definition invalid_encryptor (algorithm : string) : Encryptor :=
  UnsupportedCipher_encryptor {| uc_algorithm := algorithm; uc_unavailable := false |}.
Definition unavailable_encryptor (algorithm : string) : Encryptor :=
  UnsupportedCipher_encryptor {| uc_algorithm := algorithm; uc_unavailable := true |}.

(** ** The XOR cipher *)

Definition XorCipher_new (key : list Z) : comp (list Z) :=
  match key with [] => Panic | _ => Ret key end.
Definition xor_data (key data : list Z) : list Z :=
  imap (fun i b => Z.lxor b (nth (i mod length key) key 0)) data.
Definition XorCipher_decrypt (key : list Z) (p : ZCPacket) : cipher_result :=
  h ← unwrap (peer_manager_header p);
  if negb (is_encrypted h) then Ret (p, Ok tt) else
  '(s, put) ← mut_payload p;
  let p := put (xor_data key s) in
  '(h, put) ← unwrap (mut_peer_manager_header p);
  Ret (put (set_encrypted h false), Ok tt).
Definition XorCipher_encrypt (key : list Z) (p : ZCPacket) : cipher_result :=
  h ← unwrap (peer_manager_header p);
  if is_encrypted h then Ret (p, Ok tt) else
  '(s, put) ← mut_payload p;
  let p := put (xor_data key s) in
  '(h, put) ← unwrap (mut_peer_manager_header p);
  Ret (put (set_encrypted h true), Ok tt).
(** [encrypt_with_nonce] is the trait's default: it ignores the nonce. *)
Definition XorCipher_encryptor (key : list Z) : Encryptor :=
  {| e_decrypt := XorCipher_decrypt key;
     e_encrypt := fun _ => XorCipher_encrypt key;
     e_encrypt_with_nonce := fun _ p _ => XorCipher_encrypt key p |}.

(** ** AEAD primitives of the linked crates *)

Inductive AeadKind := Aes128Gcm_kind | Aes256Gcm_kind | ChaCha20Poly1305_kind.

(** [rc_*]: [aes-gcm] and [chacha20poly1305], in place with a detached tag, the
    buffer returned as left behind; [ring_*]: [ring::aead], opening a buffer
    that ends with the tag; [ossl_*]: an OpenSSL [Crypter] run, whose outcome is
    the bytes written by [update] and [finalize] or an error, with [get_tag]'s
    own result when sealing. *)
Class CryptoLib := {
  rc_seal : AeadKind -> list Z -> list Z -> list Z -> list Z * option (list Z);
  rc_open : AeadKind -> list Z -> list Z -> list Z -> list Z -> list Z * bool;
  ring_seal : AeadKind -> list Z -> list Z -> list Z -> list Z * option (list Z);
  ring_open : AeadKind -> list Z -> list Z -> list Z -> list Z * bool;
  ossl_seal : AeadKind -> list Z -> list Z -> list Z -> option (list Z * option (list Z));
  ossl_open : AeadKind -> list Z -> list Z -> list Z -> list Z -> option (list Z) }.

(** Authenticated encryption restores what it sealed, in place, with 16-byte
    tags. *)
Class CryptoLaws (L : CryptoLib) := {
  rc_law : forall k key n pt ct tg,
    rc_seal k key n pt = (ct, Some tg) ->
    length ct = length pt /\ length tg = 16%nat /\ bytes_ok tg /\
    rc_open k key n ct tg = (pt, true);
  ring_law : forall k key n pt ct tg,
    ring_seal k key n pt = (ct, Some tg) ->
    length ct = length pt /\ length tg = 16%nat /\ bytes_ok tg /\
    exists junk, length junk = 16%nat /\ ring_open k key n (ct ++ tg) = (pt ++ junk, true);
  ossl_law : forall k key n pt ct tg,
    ossl_seal k key n pt = Some (ct, Some tg) ->
    length ct = length pt /\ length tg = 16%nat /\ bytes_ok tg /\
    ossl_open k key n ct tg = Some pt }.

(** The tail read by the decryption paths. *)
Definition read_tail (s : list Z) : comp StandardAeadTail := unwrap (ref_from_suffix s).

(** The nonce argument: [try_from] needs exactly twelve bytes; [None] draws
    one from the generator. *)
Definition pick_nonce (rng : list Z) (n : option (list Z)) : result CipherError (list Z) :=
  match n with
  | Some n => if (length n =? 12)%nat then Ok n else Err EncryptionFailed
  | None => Ok rng
  end.

Section aead.
Context {L : CryptoLib}.

(** *** RustCrypto AES-GCM *)

Record AesGcmCipher := { aes_kind : AeadKind; aes_key : list Z }.
Definition AesGcmCipher_new_128 (key : list Z) : AesGcmCipher :=
  {| aes_kind := Aes128Gcm_kind; aes_key := key |}.
Definition AesGcmCipher_new_256 (key : list Z) : AesGcmCipher :=
  {| aes_kind := Aes256Gcm_kind; aes_key := key |}.
Definition AesGcmCipher_decrypt (c : AesGcmCipher) (p : ZCPacket) : cipher_result :=
  h ← unwrap (peer_manager_header p);
  if negb (is_encrypted h) then Ret (p, Ok tt) else
  s ← payload p;
  let payload_len := len s in
  if payload_len <? AEAD_TAIL_SIZE then Ret (p, Err (PacketTooShort payload_len)) else
  let text_len := payload_len - AEAD_TAIL_SIZE in
  tail ← read_tail s;
  '(m, put) ← mut_payload p;
  ct ← slice 0 text_len m;
  let '(pt, ok) := rc_open (aes_kind c) (aes_key c) (nonce tail) ct (tag tail) in
  let p := put (overwrite 0 pt m) in
  if negb ok then Ret (p, Err DecryptionFailed) else
  '(h, put) ← unwrap (mut_peer_manager_header p);
  let p := put (set_encrypted h false) in
  let old_len := buf_len p in
  Ret (truncate_packet p (old_len - AEAD_TAIL_SIZE), Ok tt).
Definition AesGcmCipher_encrypt_with_nonce (c : AesGcmCipher) (rng : list Z) (p : ZCPacket)
    (n : option (list Z)) : cipher_result :=
  h ← unwrap (peer_manager_header p);
  if is_encrypted h then Ret (p, Ok tt) else
  match pick_nonce rng n with
  | Err e => Ret (p, Err e)
  | Ok nonce =>
    '(m, put) ← mut_payload p;
    let '(ct, tg) := rc_seal (aes_kind c) (aes_key c) nonce m in
    let p := put ct in
    match tg with
    | None => Ret (p, Err EncryptionFailed)
    | Some tg =>
      let tail := {| tag := tg; nonce := nonce |} in
      '(h, put) ← unwrap (mut_peer_manager_header p);
      let p := put (set_encrypted h true) in
      Ret (extend_packet p (StandardAeadTail_as_bytes tail), Ok tt)
    end
  end.
Definition AesGcmCipher_encrypt (c : AesGcmCipher) (rng : list Z) (p : ZCPacket) : cipher_result :=
  AesGcmCipher_encrypt_with_nonce c rng p None.
Definition AesGcmCipher_encryptor (c : AesGcmCipher) : Encryptor :=
  {| e_decrypt := AesGcmCipher_decrypt c; e_encrypt := AesGcmCipher_encrypt c;
     e_encrypt_with_nonce := AesGcmCipher_encrypt_with_nonce c |}.

(** *** RustCrypto ChaCha20-Poly1305 *)

Definition ChaCha20Cipher_decrypt (key : list Z) (p : ZCPacket) : cipher_result :=
  h ← unwrap (peer_manager_header p);
  if negb (is_encrypted h) then Ret (p, Ok tt) else
  s ← payload p;
  let payload_len := len s in
  if payload_len <? AEAD_TAIL_SIZE then Ret (p, Err (PacketTooShort payload_len)) else
  let text_len := payload_len - AEAD_TAIL_SIZE in
  tail ← read_tail s;
  '(m, put) ← mut_payload p;
  ct ← slice 0 text_len m;
  let '(pt, ok) := rc_open ChaCha20Poly1305_kind key (nonce tail) ct (tag tail) in
  let p := put (overwrite 0 pt m) in
  if negb ok then Ret (p, Err DecryptionFailed) else
  '(h, put) ← unwrap (mut_peer_manager_header p);
  let p := put (set_encrypted h false) in
  let old_len := buf_len p in
  Ret (truncate_packet p (old_len - AEAD_TAIL_SIZE), Ok tt).
Definition ChaCha20Cipher_encrypt_with_nonce (key rng : list Z) (p : ZCPacket)
    (n : option (list Z)) : cipher_result :=
  h ← unwrap (peer_manager_header p);
  if is_encrypted h then Ret (p, Ok tt) else
  match pick_nonce rng n with
  | Err e => Ret (p, Err e)
  | Ok nonce =>
    '(m, put) ← mut_payload p;
    let '(ct, tg) := rc_seal ChaCha20Poly1305_kind key nonce m in
    let p := put ct in
    match tg with
    | None => Ret (p, Err EncryptionFailed)
    | Some tg =>
      let tail := {| tag := tg; nonce := nonce |} in
      '(h, put) ← unwrap (mut_peer_manager_header p);
      let p := put (set_encrypted h true) in
      Ret (extend_packet p (StandardAeadTail_as_bytes tail), Ok tt)
    end
  end.
Definition ChaCha20Cipher_encrypt (key rng : list Z) (p : ZCPacket) : cipher_result :=
  ChaCha20Cipher_encrypt_with_nonce key rng p None.
Definition ChaCha20Cipher_encryptor (key : list Z) : Encryptor :=
  {| e_decrypt := ChaCha20Cipher_decrypt key; e_encrypt := ChaCha20Cipher_encrypt key;
     e_encrypt_with_nonce := ChaCha20Cipher_encrypt_with_nonce key |}.

(** *** ring *)

Record RingCipher := { ring_kind : AeadKind; ring_key : list Z }.
Definition RingCipher_new_aes128_gcm (key : list Z) : RingCipher :=
  {| ring_kind := Aes128Gcm_kind; ring_key := key |}.
Definition RingCipher_new_aes256_gcm (key : list Z) : RingCipher :=
  {| ring_kind := Aes256Gcm_kind; ring_key := key |}.
Definition RingCipher_new_chacha20 (key : list Z) : RingCipher :=
  {| ring_kind := ChaCha20Poly1305_kind; ring_key := key |}.
Definition RingCipher_decrypt (c : RingCipher) (p : ZCPacket) : cipher_result :=
  h ← unwrap (peer_manager_header p);
  if negb (is_encrypted h) then Ret (p, Ok tt) else
  s ← payload p;
  let payload_len := len s in
  if payload_len <? AEAD_TAIL_SIZE then Ret (p, Err (PacketTooShort payload_len)) else
  let text_and_tag_len := payload_len - AEAD_TAIL_SIZE + TAG_SIZE in
  tail ← read_tail s;
  '(m, put) ← mut_payload p;
  b ← slice 0 text_and_tag_len m;
  let '(b, ok) := ring_open (ring_kind c) (ring_key c) (nonce tail) b in
  let p := put (overwrite 0 b m) in
  if negb ok then Ret (p, Err DecryptionFailed) else
  '(h, put) ← unwrap (mut_peer_manager_header p);
  let p := put (set_encrypted h false) in
  let old_len := buf_len p in
  Ret (truncate_packet p (old_len - AEAD_TAIL_SIZE), Ok tt).
Definition RingCipher_encrypt_with_nonce (c : RingCipher) (rng : list Z) (p : ZCPacket)
    (n : option (list Z)) : cipher_result :=
  h ← unwrap (peer_manager_header p);
  if is_encrypted h then Ret (p, Ok tt) else
  match pick_nonce rng n with
  | Err e => Ret (p, Err e)
  | Ok nonce =>
    '(m, put) ← mut_payload p;
    let '(ct, tg) := ring_seal (ring_kind c) (ring_key c) nonce m in
    let p := put ct in
    match tg with
    | None => Ret (p, Err EncryptionFailed)
    | Some tg =>
      let tail := {| tag := tg; nonce := nonce |} in
      '(h, put) ← unwrap (mut_peer_manager_header p);
      let p := put (set_encrypted h true) in
      Ret (extend_packet p (StandardAeadTail_as_bytes tail), Ok tt)
    end
  end.
Definition RingCipher_encrypt (c : RingCipher) (rng : list Z) (p : ZCPacket) : cipher_result :=
  RingCipher_encrypt_with_nonce c rng p None.
Definition RingCipher_encryptor (c : RingCipher) : Encryptor :=
  {| e_decrypt := RingCipher_decrypt c; e_encrypt := RingCipher_encrypt c;
     e_encrypt_with_nonce := RingCipher_encrypt_with_nonce c |}.

(** *** OpenSSL *)

Record OpenSslCipher := { ossl_kind : AeadKind; ossl_key : list Z }.
Definition OpenSslCipher_new_aes128_gcm (key : list Z) : OpenSslCipher :=
  {| ossl_kind := Aes128Gcm_kind; ossl_key := key |}.
Definition OpenSslCipher_new_aes256_gcm (key : list Z) : OpenSslCipher :=
  {| ossl_kind := Aes256Gcm_kind; ossl_key := key |}.
Definition OpenSslCipher_new_chacha20 (key : list Z) : OpenSslCipher :=
  {| ossl_kind := ChaCha20Poly1305_kind; ossl_key := key |}.
Definition OpenSslCipher_decrypt (c : OpenSslCipher) (p : ZCPacket) : cipher_result :=
  h ← unwrap (peer_manager_header p);
  if negb (is_encrypted h) then Ret (p, Ok tt) else
  s ← payload p;
  let payload_len := len s in
  if payload_len <? AEAD_TAIL_SIZE then Ret (p, Err (PacketTooShort payload_len)) else
  tail ← read_tail s;
  let text_len := payload_len - AEAD_TAIL_SIZE in
  ct ← slice 0 text_len s;
  match ossl_open (ossl_kind c) (ossl_key c) (nonce tail) ct (tag tail) with
  | None => Ret (p, Err DecryptionFailed)
  | Some output =>
    let written := len output in
    '(m, put) ← mut_payload p;
    m ← copy_into 0 written output m;
    let p := put m in
    '(h, put) ← unwrap (mut_peer_manager_header p);
    let p := put (set_encrypted h false) in
    let old_len := buf_len p in
    Ret (truncate_packet p (old_len - (payload_len - written)), Ok tt)
  end.
Definition OpenSslCipher_encrypt_with_nonce (c : OpenSslCipher) (rng : list Z) (p : ZCPacket)
    (n : option (list Z)) : cipher_result :=
  h ← unwrap (peer_manager_header p);
  if is_encrypted h then Ret (p, Ok tt) else
  match pick_nonce rng n with
  | Err e => Ret (p, Err e)
  | Ok nonce =>
    s ← payload p;
    match ossl_seal (ossl_kind c) (ossl_key c) nonce s with
    | None => Ret (p, Err EncryptionFailed)
    | Some (output, tg) =>
      let written := len output in
      '(m, put) ← mut_payload p;
      m ← copy_into 0 written output m;
      let p := put m in
      match tg with
      | None => Ret (p, Err EncryptionFailed)
      | Some tg =>
        let tail := {| tag := tg; nonce := nonce |} in
        '(h, put) ← unwrap (mut_peer_manager_header p);
        let p := put (set_encrypted h true) in
        Ret (extend_packet p (StandardAeadTail_as_bytes tail), Ok tt)
      end
    end
  end.
Definition OpenSslCipher_encrypt (c : OpenSslCipher) (rng : list Z) (p : ZCPacket) : cipher_result :=
  OpenSslCipher_encrypt_with_nonce c rng p None.
Definition OpenSslCipher_encryptor (c : OpenSslCipher) : Encryptor :=
  {| e_decrypt := OpenSslCipher_decrypt c; e_encrypt := OpenSslCipher_encrypt c;
     e_encrypt_with_nonce := OpenSslCipher_encrypt_with_nonce c |}.

(** ** Build profile and algorithm selection *)

(** The cargo features the selection reads ([cfg!(feature = ...)]). *)
Record Features := {
  feature_aes_gcm : bool; feature_chacha20 : bool;
  feature_openssl : bool; feature_ring : bool }.

Inductive AeadBackend := OpenSsl | Ring | RustCrypto.

Definition algorithm_is_available (f : Features) (a : EncryptionAlgorithm) : bool :=
  match a with
  | Xor => true
  | AesGcm | Aes256Gcm => feature_aes_gcm f || feature_openssl f || feature_ring f
  | ChaCha20 => feature_chacha20 f || feature_openssl f || feature_ring f
  end.
Definition is_aead_algorithm (a : EncryptionAlgorithm) : bool :=
  match a with AesGcm | Aes256Gcm | ChaCha20 => true | Xor => false end.
Definition preferred_aead_backend (f : Features) (a : EncryptionAlgorithm) : option AeadBackend :=
  if feature_openssl f then if is_aead_algorithm a then Some OpenSsl else None
  else if feature_ring f then if is_aead_algorithm a then Some Ring else None
  else if feature_aes_gcm f || feature_chacha20 f then
    if is_aead_algorithm a && algorithm_is_available f a then Some RustCrypto else None
  else None.

(** [maybe_offload_aead] is the identity outside the WASI host build. *)
Definition create_aes_128 (f : Features) (key : list Z) : Encryptor :=
  match preferred_aead_backend f AesGcm with
  | Some OpenSsl => OpenSslCipher_encryptor (OpenSslCipher_new_aes128_gcm key)
  | Some Ring => RingCipher_encryptor (RingCipher_new_aes128_gcm key)
  | Some RustCrypto =>
    if feature_aes_gcm f then AesGcmCipher_encryptor (AesGcmCipher_new_128 key)
    else unavailable_encryptor "aes-gcm"
  | None => unavailable_encryptor "aes-gcm"
  end.
Definition create_aes_256 (f : Features) (key : list Z) : Encryptor :=
  match preferred_aead_backend f Aes256Gcm with
  | Some OpenSsl => OpenSslCipher_encryptor (OpenSslCipher_new_aes256_gcm key)
  | Some Ring => RingCipher_encryptor (RingCipher_new_aes256_gcm key)
  | Some RustCrypto =>
    if feature_aes_gcm f then AesGcmCipher_encryptor (AesGcmCipher_new_256 key)
    else unavailable_encryptor "aes-256-gcm"
  | None => unavailable_encryptor "aes-256-gcm"
  end.
Definition create_chacha20 (f : Features) (key : list Z) : Encryptor :=
  match preferred_aead_backend f ChaCha20 with
  | Some OpenSsl => OpenSslCipher_encryptor (OpenSslCipher_new_chacha20 key)
  | Some Ring => RingCipher_encryptor (RingCipher_new_chacha20 key)
  | Some RustCrypto =>
    if feature_chacha20 f then ChaCha20Cipher_encryptor key
    else unavailable_encryptor "chacha20"
  | None => unavailable_encryptor "chacha20"
  end.

Definition validate_algorithm (f : Features) (algorithm : string) : result CipherError unit :=
  match EncryptionAlgorithm_from_str algorithm with
  | Err _ => Err (InvalidAlgorithm algorithm)
  | Ok parsed =>
    if algorithm_is_available f parsed then Ok tt
    else Err (AlgorithmUnavailable (EncryptionAlgorithm_as_str parsed))
  end.
Definition effective_algorithm_uses_xor (algorithm : string) : bool :=
  match EncryptionAlgorithm_from_str algorithm with Ok Xor => true | _ => false end.

(** [XorCipher::new] cannot panic here: the key has sixteen bytes. *)
Definition create_encryptor (f : Features) (algorithm : string) (key_128 key_256 : list Z)
    : Encryptor :=
  match EncryptionAlgorithm_from_str algorithm with
  | Err _ => invalid_encryptor algorithm
  | Ok Xor => XorCipher_encryptor key_128
  | Ok AesGcm => create_aes_128 f key_128
  | Ok Aes256Gcm => create_aes_256 f key_256
  | Ok ChaCha20 => create_chacha20 f key_256
  end.
End aead.

(** ** Lemmas: the encrypted flag and the tail, by parts *)

Lemma encrypted_flag : ENCRYPTED ∈ all_flags.
Proof. by apply (bool_decide_unpack _). Qed.

Lemma set_encrypted_undo h :
  is_encrypted h = false -> set_encrypted (set_encrypted h true) false = h.
Proof. exact (set_flag_undo ENCRYPTED h encrypted_flag). Qed.

Lemma is_encrypted_set h b : is_encrypted (set_encrypted h b) = b.
Proof. exact (contains_set_flag ENCRYPTED b h encrypted_flag). Qed.

Lemma set_encrypted_wf h b : PeerManagerHeader_wf h -> PeerManagerHeader_wf (set_encrypted h b).
Proof. apply set_flag_wf, encrypted_flag. Qed.

Lemma parts_ok_encrypted t tun h b : parts_ok t tun h -> parts_ok t tun (set_encrypted h b).
Proof. intros [? ?]. split; [done|by apply set_encrypted_wf]. Qed.

Lemma tail_length tg n :
  length tg = 16%nat -> length n = 12%nat ->
  len (StandardAeadTail_as_bytes {| tag := tg; nonce := n |}) = AEAD_TAIL_SIZE.
Proof.
  intros H1 H2. unfold StandardAeadTail_as_bytes, len; cbn [tag nonce].
  by rewrite length_app, H1, H2.
Qed.

Lemma read_tail_app ct tg n :
  length tg = 16%nat -> length n = 12%nat -> bytes_ok tg -> bytes_ok n ->
  read_tail (ct ++ StandardAeadTail_as_bytes {| tag := tg; nonce := n |}) =
  Ret {| tag := tg; nonce := n |}.
Proof.
  intros. unfold read_tail. apply unwrap_Some.
  refine (ref_from_suffix_encode (T:=StandardAeadTail) {| tag := tg; nonce := n |} ct _).
  by split.
Qed.

(** ** What an encryptor promises *)

(** A nonce as the AEAD backends take it. *)
Definition nonce_ok (n : list Z) : Prop := length n = 12%nat /\ bytes_ok n.

(** Decryption inverts a successful encryption of a clear packet, and the
    encrypted packet says so in its header. *)
Class RoundTrip (E : Encryptor) := round_trip : forall rng n p p' h,
  bytes_ok (inner p) -> nonce_ok (default rng n) ->
  peer_manager_header p = Some h -> is_encrypted h = false ->
  e_encrypt_with_nonce E rng p n = Ret (p', Ok tt) ->
  e_decrypt E p' = Ret (p, Ok tt) /\
  peer_manager_header p' = Some (set_encrypted h true).

(** The nonce used is the last field of the encrypted payload. *)
Class CarriesNonce (E : Encryptor) := carries_nonce : forall rng n p p' h,
  bytes_ok (inner p) -> nonce_ok (default rng n) ->
  peer_manager_header p = Some h -> is_encrypted h = false ->
  e_encrypt_with_nonce E rng p n = Ret (p', Ok tt) ->
  exists ct tg, length tg = 16%nat /\ bytes_ok tg /\
    payload p' = Ret (ct ++ StandardAeadTail_as_bytes {| tag := tg; nonce := default rng n |}).

(** The shape of a sealed packet, and its reading by each decryption path. *)
Section sealed.
Context (t : ZCPacketType) (tun pl ct tg n : list Z) (h : PeerManagerHeader).
Context (Hok : parts_ok t tun h) (Henc : is_encrypted h = false).

Definition sealed_packet : ZCPacket :=
  mk_packet t tun (set_encrypted h true)
    (ct ++ StandardAeadTail_as_bytes {| tag := tg; nonce := n |}).

Lemma sealed_header : peer_manager_header sealed_packet = Some (set_encrypted h true).
Proof using Hok. by apply parts_header, parts_ok_encrypted. Qed.

Lemma sealed_payload :
  payload sealed_packet = Ret (ct ++ StandardAeadTail_as_bytes {| tag := tg; nonce := n |}).
Proof using Hok. by apply parts_payload, parts_ok_encrypted. Qed.

(** The final steps shared by the backends, from the buffer [pl ++ rest]
    they leave in the payload. *)
Lemma unseal_finish rest :
  len rest = AEAD_TAIL_SIZE ->
  ('(h', put) ← unwrap (mut_peer_manager_header
      (mk_packet t tun (set_encrypted h true) (pl ++ rest)));
   let p := put (set_encrypted h' false) in
   Ret (truncate_packet p (buf_len p - AEAD_TAIL_SIZE), @Ok CipherError unit tt)) =
  Ret (mk_packet t tun h pl, Ok tt).
Proof using Hok Henc.
  intros Hr. assert (Hok' := parts_ok_encrypted t tun h true Hok).
  rewrite parts_mut_header by done. cbn [unwrap mbind comp_bind].
  rewrite parts_put_header, set_encrypted_undo by done.
  rewrite parts_buf_len_app, Hr, truncate_parts by lia. done.
Qed.

Lemma seal_finish d :
  length d = length pl ->
  ('(h', put) ← unwrap (mut_peer_manager_header (mk_packet t tun h d));
   let p := put (set_encrypted h' true) in
   Ret (extend_packet p (StandardAeadTail_as_bytes {| tag := tg; nonce := n |}),
        @Ok CipherError unit tt)) =
  Ret (mk_packet t tun (set_encrypted h true)
         (d ++ StandardAeadTail_as_bytes {| tag := tg; nonce := n |}), Ok tt).
Proof using Hok.
  intros Hd. rewrite parts_mut_header by done. cbn [unwrap mbind comp_bind].
  by rewrite parts_put_header, extend_parts by done.
Qed.
End sealed.

(** Opens the guards shared by the decryption paths on a sealed packet. *)
Ltac open_guards Hok :=
  rewrite (sealed_header _ _ _ _ _ _ Hok); cbn [unwrap mbind comp_bind];
  rewrite is_encrypted_set; cbn [negb];
  rewrite (sealed_payload _ _ _ _ _ _ Hok); cbn [mbind comp_bind]; cbv zeta.

Lemma sealed_len ct tg n :
  length tg = 16%nat -> nonce_ok n ->
  len (ct ++ StandardAeadTail_as_bytes {| tag := tg; nonce := n |}) = len ct + 28.
Proof. intros ? [? _]. by rewrite len_app, tail_length. Qed.

Section backends.
Context {L : CryptoLib} {HL : CryptoLaws L}.
Context (t : ZCPacketType) (tun pl n : list Z) (h : PeerManagerHeader).
Context (Hok : parts_ok t tun h) (Henc : is_encrypted h = false) (Hn : nonce_ok n).

Lemma aes_gcm_open c ct tg :
  rc_seal (aes_kind c) (aes_key c) n pl = (ct, Some tg) ->
  AesGcmCipher_decrypt c (sealed_packet t tun ct tg n h) = Ret (mk_packet t tun h pl, Ok tt).
Proof using HL Hok Henc Hn.
  intros E. destruct (rc_law _ _ _ _ _ _ E) as (Hc & Ht & Htb & Ho). destruct Hn as [Hn1 Hn2].
  unfold AesGcmCipher_decrypt. open_guards Hok.
  assert (Hok' := parts_ok_encrypted t tun h true Hok).
  rewrite sealed_len, (proj2 (Z.ltb_ge _ _)) by (first [done | unfold AEAD_TAIL_SIZE; pose proof (len_nonneg ct); lia]).
  rewrite read_tail_app by done. cbn [mbind comp_bind].
  unfold sealed_packet. rewrite parts_mut_payload by done. cbn [mbind comp_bind].
  replace (len ct + 28 - AEAD_TAIL_SIZE) with (len ct) by (unfold AEAD_TAIL_SIZE; lia).
  rewrite slice_prefix. cbn [mbind comp_bind tag nonce]. rewrite Ho. cbn [negb].
  rewrite overwrite_prefix by done.
  rewrite parts_put_payload by (first [done | rewrite !length_app; lia]).
  apply unseal_finish; [done..|]. by apply tail_length.
Qed.

Lemma chacha20_open key ct tg :
  rc_seal ChaCha20Poly1305_kind key n pl = (ct, Some tg) ->
  ChaCha20Cipher_decrypt key (sealed_packet t tun ct tg n h) = Ret (mk_packet t tun h pl, Ok tt).
Proof using HL Hok Henc Hn.
  exact (aes_gcm_open {| aes_kind := ChaCha20Poly1305_kind; aes_key := key |} ct tg).
Qed.

Lemma ring_cipher_open c ct tg :
  ring_seal (ring_kind c) (ring_key c) n pl = (ct, Some tg) ->
  RingCipher_decrypt c (sealed_packet t tun ct tg n h) = Ret (mk_packet t tun h pl, Ok tt).
Proof using HL Hok Henc Hn.
  intros E. destruct (ring_law _ _ _ _ _ _ E) as (Hc & Ht & Htb & junk & Hj & Ho).
  destruct Hn as [Hn1 Hn2]. unfold RingCipher_decrypt. open_guards Hok.
  assert (Hok' := parts_ok_encrypted t tun h true Hok).
  rewrite sealed_len, (proj2 (Z.ltb_ge _ _)) by (first [done | unfold AEAD_TAIL_SIZE; pose proof (len_nonneg ct); lia]).
  rewrite read_tail_app by done. cbn [mbind comp_bind].
  unfold sealed_packet. rewrite parts_mut_payload by done. cbn [mbind comp_bind].
  replace (len ct + 28 - AEAD_TAIL_SIZE + TAG_SIZE) with (len (ct ++ tg))
    by (rewrite len_app; unfold AEAD_TAIL_SIZE, TAG_SIZE, len; lia).
  unfold StandardAeadTail_as_bytes; cbn [tag nonce]. rewrite (app_assoc ct tg n).
  rewrite slice_prefix. cbn [mbind comp_bind]. rewrite Ho. cbn [negb].
  rewrite overwrite_prefix by (rewrite !length_app; lia).
  rewrite parts_put_payload by (first [done | rewrite !length_app; lia]).
  rewrite <- app_assoc. apply unseal_finish; [done..|].
  unfold len. rewrite length_app, Hj, Hn1. done.
Qed.

Lemma openssl_open c ct tg :
  ossl_seal (ossl_kind c) (ossl_key c) n pl = Some (ct, Some tg) ->
  OpenSslCipher_decrypt c (sealed_packet t tun ct tg n h) = Ret (mk_packet t tun h pl, Ok tt).
Proof using HL Hok Henc Hn.
  intros E. destruct (ossl_law _ _ _ _ _ _ E) as (Hc & Ht & Htb & Ho). destruct Hn as [Hn1 Hn2].
  unfold OpenSslCipher_decrypt. open_guards Hok.
  assert (Hok' := parts_ok_encrypted t tun h true Hok).
  rewrite sealed_len, (proj2 (Z.ltb_ge _ _)) by (first [done | unfold AEAD_TAIL_SIZE; pose proof (len_nonneg ct); lia]).
  rewrite read_tail_app by done. cbn [mbind comp_bind].
  replace (len ct + 28 - AEAD_TAIL_SIZE) with (len ct) by (unfold AEAD_TAIL_SIZE; lia).
  rewrite slice_prefix. cbn [mbind comp_bind tag nonce]. rewrite Ho.
  unfold sealed_packet. rewrite parts_mut_payload by done. cbn [mbind comp_bind].
  rewrite copy_into_in by (rewrite ?sealed_len; unfold len; lia || done).
  cbn [mbind comp_bind]. rewrite overwrite_prefix by done.
  rewrite parts_put_payload by (first [done | rewrite !length_app; lia]).
  replace (len ct + 28 - len pl) with AEAD_TAIL_SIZE by (unfold AEAD_TAIL_SIZE, len; lia).
  apply unseal_finish; [done..|]. by apply tail_length.
Qed.
End backends.

Lemma pick_nonce_ok rng n nn :
  pick_nonce rng n = Ok nn -> nn = default rng n.
Proof. destruct n; simpl; [case_match|]; intros; by simplify_eq. Qed.

(** A successful encryption of a clear packet is a sealed packet. *)
Section seal_shapes.
Context {L : CryptoLib} {HL : CryptoLaws L}.
Context (t : ZCPacketType) (tun pl rng : list Z) (n : option (list Z)) (h : PeerManagerHeader).
Context (Hok : parts_ok t tun h) (Henc : is_encrypted h = false).

Lemma aes_gcm_seal c p' :
  AesGcmCipher_encrypt_with_nonce c rng (mk_packet t tun h pl) n = Ret (p', Ok tt) ->
  exists ct tg, rc_seal (aes_kind c) (aes_key c) (default rng n) pl = (ct, Some tg) /\
    p' = sealed_packet t tun ct tg (default rng n) h.
Proof using HL Hok Henc.
  unfold AesGcmCipher_encrypt_with_nonce. rewrite parts_header by done.
  cbn [unwrap mbind comp_bind]. rewrite Henc.
  destruct (pick_nonce rng n) as [nn|] eqn:En; [|done]. apply pick_nonce_ok in En as ->.
  rewrite parts_mut_payload by done. cbn [mbind comp_bind].
  destruct (rc_seal _ _ _ _) as [ct [tg|]] eqn:E; [|done].
  destruct (rc_law _ _ _ _ _ _ E) as (Hc & _). cbv zeta.
  rewrite parts_put_payload, (seal_finish t tun pl) by done.
  intros; simplify_eq. eauto.
Qed.

Lemma chacha20_seal key p' :
  ChaCha20Cipher_encrypt_with_nonce key rng (mk_packet t tun h pl) n = Ret (p', Ok tt) ->
  exists ct tg, rc_seal ChaCha20Poly1305_kind key (default rng n) pl = (ct, Some tg) /\
    p' = sealed_packet t tun ct tg (default rng n) h.
Proof using HL Hok Henc.
  exact (aes_gcm_seal {| aes_kind := ChaCha20Poly1305_kind; aes_key := key |} p').
Qed.

Lemma ring_cipher_seal c p' :
  RingCipher_encrypt_with_nonce c rng (mk_packet t tun h pl) n = Ret (p', Ok tt) ->
  exists ct tg, ring_seal (ring_kind c) (ring_key c) (default rng n) pl = (ct, Some tg) /\
    p' = sealed_packet t tun ct tg (default rng n) h.
Proof using HL Hok Henc.
  unfold RingCipher_encrypt_with_nonce. rewrite parts_header by done.
  cbn [unwrap mbind comp_bind]. rewrite Henc.
  destruct (pick_nonce rng n) as [nn|] eqn:En; [|done]. apply pick_nonce_ok in En as ->.
  rewrite parts_mut_payload by done. cbn [mbind comp_bind].
  destruct (ring_seal _ _ _ _) as [ct [tg|]] eqn:E; [|done].
  destruct (ring_law _ _ _ _ _ _ E) as (Hc & _). cbv zeta.
  rewrite parts_put_payload, (seal_finish t tun pl) by done.
  intros; simplify_eq. eauto.
Qed.

Lemma openssl_seal c p' :
  OpenSslCipher_encrypt_with_nonce c rng (mk_packet t tun h pl) n = Ret (p', Ok tt) ->
  exists ct tg, ossl_seal (ossl_kind c) (ossl_key c) (default rng n) pl = Some (ct, Some tg) /\
    p' = sealed_packet t tun ct tg (default rng n) h.
Proof using HL Hok Henc.
  unfold OpenSslCipher_encrypt_with_nonce. rewrite parts_header by done.
  cbn [unwrap mbind comp_bind]. rewrite Henc.
  destruct (pick_nonce rng n) as [nn|] eqn:En; [|done]. apply pick_nonce_ok in En as ->.
  rewrite parts_payload by done. cbn [mbind comp_bind].
  destruct (ossl_seal _ _ _ _) as [[ct tg]|] eqn:E; [|done].
  rewrite parts_mut_payload by done. cbn [mbind comp_bind].
  destruct (copy_into _ _ _ _) as [m|] eqn:Em; [|done]. cbn [mbind comp_bind].
  destruct tg as [tg|]; [|done].
  destruct (ossl_law _ _ _ _ _ _ E) as (Hc & _).
  rewrite copy_into_in in Em by (unfold len; lia). simplify_eq.
  rewrite <- (app_nil_r pl) at 2. rewrite overwrite_prefix, app_nil_r by done. cbv zeta.
  rewrite parts_put_payload, (seal_finish t tun pl) by done.
  intros; simplify_eq. eauto.
Qed.
End seal_shapes.

(** Discharges a backend's two promises from its seal and open lemmas. *)
Ltac backend_promise seal_lemma :=
  let p := fresh "p" in let h := fresh "h" in
  intros ? ? p ? h Hb Hn Hh He Hs;
  destruct (packet_parts p Hb (header_has_header p h Hh)) as (tun & h' & pl & Hp & Hok & _ & _);
  rewrite Hp in Hs, Hh; try rewrite Hp; rewrite parts_header in Hh by done; simplify_eq;
  edestruct seal_lemma as (ct & tg & E & ->); [exact Hok|exact He|exact Hs|].

Section instances.
Context {L : CryptoLib} {HL : CryptoLaws L}.

#[export] Instance AesGcm_round_trip c : RoundTrip (AesGcmCipher_encryptor c).
Proof using HL.
  backend_promise aes_gcm_seal. split; [by apply aes_gcm_open|by apply sealed_header].
Qed.
#[export] Instance AesGcm_carries_nonce c : CarriesNonce (AesGcmCipher_encryptor c).
Proof using HL.
  backend_promise aes_gcm_seal. destruct (rc_law _ _ _ _ _ _ E) as (? & ? & ? & ?).
  exists ct, tg. split_and!; [done..|by apply sealed_payload].
Qed.
#[export] Instance ChaCha20_round_trip key : RoundTrip (ChaCha20Cipher_encryptor key).
Proof using HL.
  backend_promise chacha20_seal. split; [by apply chacha20_open|by apply sealed_header].
Qed.
#[export] Instance ChaCha20_carries_nonce key : CarriesNonce (ChaCha20Cipher_encryptor key).
Proof using HL.
  backend_promise chacha20_seal. destruct (rc_law _ _ _ _ _ _ E) as (? & ? & ? & ?).
  exists ct, tg. split_and!; [done..|by apply sealed_payload].
Qed.
#[export] Instance RingCipher_round_trip c : RoundTrip (RingCipher_encryptor c).
Proof using HL.
  backend_promise ring_cipher_seal. split; [by apply ring_cipher_open|by apply sealed_header].
Qed.
#[export] Instance RingCipher_carries_nonce c : CarriesNonce (RingCipher_encryptor c).
Proof using HL.
  backend_promise ring_cipher_seal. destruct (ring_law _ _ _ _ _ _ E) as (? & ? & ? & ?).
  exists ct, tg. split_and!; [done..|by apply sealed_payload].
Qed.
#[export] Instance OpenSsl_round_trip c : RoundTrip (OpenSslCipher_encryptor c).
Proof using HL.
  backend_promise openssl_seal. split; [by apply openssl_open|by apply sealed_header].
Qed.
#[export] Instance OpenSsl_carries_nonce c : CarriesNonce (OpenSslCipher_encryptor c).
Proof using HL.
  backend_promise openssl_seal. destruct (ossl_law _ _ _ _ _ _ E) as (? & ? & ? & ?).
  exists ct, tg. split_and!; [done..|by apply sealed_payload].
Qed.
End instances.

Lemma length_xor_data key d : length (xor_data key d) = length d.
Proof. unfold xor_data. apply length_imap. Qed.

Lemma xor_data_involutive key d : xor_data key (xor_data key d) = d.
Proof.
  unfold xor_data. apply list_eq. intros i. rewrite !list_lookup_imap.
  destruct (d !! i) as [b|]; simpl; [|done].
  by rewrite Z.lxor_assoc, Z.lxor_nilpotent, Z.lxor_0_r.
Qed.

Lemma xor_encrypt_parts key t tun h pl :
  parts_ok t tun h -> is_encrypted h = false ->
  XorCipher_encrypt key (mk_packet t tun h pl) =
  Ret (mk_packet t tun (set_encrypted h true) (xor_data key pl), Ok tt).
Proof.
  intros Hok Henc. unfold XorCipher_encrypt. rewrite parts_header by done.
  cbn [unwrap mbind comp_bind]. rewrite Henc, parts_mut_payload by done.
  cbn [mbind comp_bind]. cbv zeta. rewrite parts_put_payload by auto using length_xor_data.
  rewrite parts_mut_header by done. cbn [unwrap mbind comp_bind].
  by rewrite parts_put_header.
Qed.

Lemma xor_decrypt_parts key t tun h pl :
  parts_ok t tun h -> is_encrypted h = true ->
  XorCipher_decrypt key (mk_packet t tun h pl) =
  Ret (mk_packet t tun (set_encrypted h false) (xor_data key pl), Ok tt).
Proof.
  intros Hok Henc. unfold XorCipher_decrypt. rewrite parts_header by done.
  cbn [unwrap mbind comp_bind]. rewrite Henc; cbn [negb]. rewrite parts_mut_payload by done.
  cbn [mbind comp_bind]. cbv zeta. rewrite parts_put_payload by auto using length_xor_data.
  rewrite parts_mut_header by done. cbn [unwrap mbind comp_bind].
  by rewrite parts_put_header.
Qed.

#[export] Instance Xor_round_trip key : RoundTrip (XorCipher_encryptor key).
Proof.
  intros rng n p p' h Hb Hn Hh He Hs.
  destruct (packet_parts p Hb (header_has_header p h Hh)) as (tun & h' & pl & Hp & Hok & _ & _).
  rewrite Hp in Hs, Hh. rewrite parts_header in Hh by done. simplify_eq.
  cbn [e_encrypt_with_nonce XorCipher_encryptor] in Hs.
  rewrite xor_encrypt_parts in Hs by done. simplify_eq. split.
  - cbn [e_decrypt XorCipher_encryptor].
    rewrite xor_decrypt_parts; [|by apply parts_ok_encrypted|by apply is_encrypted_set].
    rewrite xor_data_involutive, set_encrypted_undo by done. by rewrite <- Hp.
  - by apply parts_header, parts_ok_encrypted.
Qed.

#[export] Instance Unsupported_round_trip c : RoundTrip (UnsupportedCipher_encryptor c).
Proof. by intros ? ? ? ? ? ? ? ? ? ?. Qed.

(** The backend chosen for each available AEAD algorithm. *)
Lemma create_encryptor_cases `{L : CryptoLib} f alg k1 k2 :
  (exists e, validate_algorithm f alg = Err e /\
     exists c, create_encryptor f alg k1 k2 = UnsupportedCipher_encryptor c /\
       UnsupportedCipher_error c = e) \/
  (validate_algorithm f alg = Ok tt /\
   (create_encryptor f alg k1 k2 = XorCipher_encryptor k1 \/
    (exists c, create_encryptor f alg k1 k2 = AesGcmCipher_encryptor c) \/
    (exists k, create_encryptor f alg k1 k2 = ChaCha20Cipher_encryptor k) \/
    (exists c, create_encryptor f alg k1 k2 = RingCipher_encryptor c) \/
    (exists c, create_encryptor f alg k1 k2 = OpenSslCipher_encryptor c))).
Proof.
  unfold validate_algorithm, create_encryptor, create_aes_128, create_aes_256, create_chacha20,
    preferred_aead_backend, algorithm_is_available.
  destruct (EncryptionAlgorithm_from_str alg) as [[| | |]|];
    destruct f as [[] [] [] []]; cbn;
    first [by left; eexists; split; [done|]; eexists; split
          | by right; split; [done|]; eauto 8].
Qed.

#[export] Instance create_encryptor_rt `{HL : CryptoLaws} f alg k1 k2 :
  RoundTrip (create_encryptor f alg k1 k2).
Proof.
  destruct (create_encryptor_cases f alg k1 k2)
    as [(e & _ & c & -> & _)|(_ & [-> | [(c & ->) | [(c & ->) | [(c & ->) | (c & ->)]]]])];
    apply _.
Qed.

(** Every algorithm but XOR puts the nonce it was given on the wire. *)
Lemma create_encryptor_carries `{HL : CryptoLaws} f alg k1 k2 :
  EncryptionAlgorithm_from_str alg <> Ok Xor -> CarriesNonce (create_encryptor f alg k1 k2).
Proof.
  unfold create_encryptor, create_aes_128, create_aes_256, create_chacha20,
    preferred_aead_backend.
  destruct (EncryptionAlgorithm_from_str alg) as [[| | |]|]; intros Hx; [done|..];
    destruct f as [[] [] [] []]; cbn; first [apply _ | by intros ????].
Qed.

(** ** Properties *)

(** C37. For every build profile, every algorithm name and every key, the
    encryptor that [create_encryptor] returns undoes its own encryption: a clear
    packet that encrypts successfully is flagged as encrypted, and decrypting
    it restores the original packet bit for bit. *)
Theorem create_encryptor_round_trip {L : CryptoLib} {HL : CryptoLaws L}
    (f : Features) (alg : string) (key_128 key_256 rng : list Z) (n : option (list Z))
    (p p' : ZCPacket) (h : PeerManagerHeader)
    (Hb : bytes_ok (inner p)) (Hn : nonce_ok (default rng n))
    (Hh : peer_manager_header p = Some h) (He : is_encrypted h = false)
    (Hs : e_encrypt_with_nonce (create_encryptor f alg key_128 key_256) rng p n = Ret (p', Ok tt)) :
  e_decrypt (create_encryptor f alg key_128 key_256) p' = Ret (p, Ok tt) /\
  peer_manager_header p' = Some (set_encrypted h true).
Proof.
  by eapply (create_encryptor_rt f alg key_128 key_256).
Qed.

(** A concrete library: the identity cipher with an all-zero tag. *)
Definition toy_lib : CryptoLib :=
  {| rc_seal := fun _ _ _ pt => (pt, Some (repeat 0 16));
     rc_open := fun _ _ _ ct _ => (ct, true);
     ring_seal := fun _ _ _ pt => (pt, Some (repeat 0 16));
     ring_open := fun _ _ _ b => (b, true);
     ossl_seal := fun _ _ _ pt => Some (pt, Some (repeat 0 16));
     ossl_open := fun _ _ _ ct _ => Some ct |}.

#[export] Instance toy_laws : CryptoLaws toy_lib.
Proof.
  assert (bytes_ok (repeat 0 16)) by (vm_compute; repeat constructor; discriminate).
  split; intros; simpl in *; simplify_eq; split_and!; try done.
  by exists (repeat 0 16).
Qed.

Definition full_features : Features :=
  {| feature_aes_gcm := true; feature_chacha20 := true; feature_openssl := false;
     feature_ring := false |}.

Definition clear_header : PeerManagerHeader :=
  {| from_peer_id := 1; to_peer_id := 2; pm_packet_type := 1; flags := 2;
     forward_counter := 1; reserved := 0; pm_len := 3 |}.
Definition clear_packet : ZCPacket := mk_packet DummyTunnel [] clear_header [10; 20; 30].
Definition sealed_clear_packet : ZCPacket :=
  mk_packet DummyTunnel [] (set_encrypted clear_header true)
    ([10; 20; 30] ++ repeat 0 16 ++ repeat 7 12).

Lemma create_encryptor_round_trip_witness :
  e_decrypt (create_encryptor (L:=toy_lib) full_features "AES-GCM" [1] [2]) sealed_clear_packet =
    Ret (clear_packet, Ok tt) /\
  peer_manager_header sealed_clear_packet = Some (set_encrypted clear_header true).
Proof.
  apply (create_encryptor_round_trip (L:=toy_lib) full_features "AES-GCM" [1] [2]
           (repeat 7 12) None clear_packet sealed_clear_packet clear_header).
  - vm_compute. repeat constructor; discriminate.
  - split; [reflexivity|]. vm_compute. repeat constructor; discriminate.
  - reflexivity.
  - reflexivity.
  - reflexivity.
Defined.

(** [validate_algorithm] decides exactly what [create_encryptor] supports:
    a rejected name yields an encryptor that refuses to encrypt and to decrypt,
    with the same error and the packet untouched, and an accepted name never
    fails with an algorithm error. *)
Theorem validate_algorithm_exact {L : CryptoLib}
    (f : Features) (alg : string) (key_128 key_256 : list Z) :
  let E := create_encryptor f alg key_128 key_256 in
  match validate_algorithm f alg with
  | Err e => forall rng p n,
      e_encrypt_with_nonce E rng p n = Ret (p, Err e) /\ e_encrypt E rng p = Ret (p, Err e) /\
      e_decrypt E p = Ret (p, Err e)
  | Ok _ => forall rng p n p' r,
      e_encrypt_with_nonce E rng p n = Ret (p', r) \/ e_decrypt E p = Ret (p', r) ->
      forall a, r <> Err (InvalidAlgorithm a) /\ r <> Err (AlgorithmUnavailable a)
  end.
Proof.
  intros E. subst E.
  destruct (create_encryptor_cases f alg key_128 key_256)
    as [(e & -> & c & -> & <-)|(-> & HE)]; [by intros|].
  intros rng p n p' r Hr a.
  destruct HE as [HE | [(c & HE) | [(c & HE) | [(c & HE) | (c & HE)]]]]; rewrite HE in Hr;
    destruct Hr as [Hr|Hr]; cbn in Hr;
    unfold XorCipher_encrypt, XorCipher_decrypt, AesGcmCipher_encrypt_with_nonce,
      AesGcmCipher_decrypt, ChaCha20Cipher_encrypt_with_nonce, ChaCha20Cipher_decrypt,
      RingCipher_encrypt_with_nonce, RingCipher_decrypt, OpenSslCipher_encrypt_with_nonce,
      OpenSslCipher_decrypt, pick_nonce, mbind, comp_bind in Hr;
    repeat (case_match; simplify_eq/=); try done.
Qed.
