(* ===== verification/Compressor.v ===== *)
(** Payload compression: [packet/compressor.rs] and [packet/compressor/zstd.rs].
    The zstd library is a parameter: a bulk compressor and a decompressor that
    is given the capacity of its output buffer. *)

From S2P Require Import Prelude Headers Packet.
From stdpp Require Import list.
Local Open Scope Z_scope.

Inductive CompressError :=
  | ZstdFailed
  | CompressionUnavailable (a : CompressorAlgo)
  | TooManyAttempts (a : CompressorAlgo)
  | CompressPacketTooShort (n : Z)
  | UnknownAlgo (a : Z)
  | LengthMismatch (actual expected : Z).

(** [bulk::Decompressor::decompress(data, capacity)]. *)
Inductive ZstdOutcome := ZOk (buf : list Z) | ZBufferTooSmall | ZError.

Class Zstd := {
  zstd_available : bool;
  zstd_bulk_compress : list Z -> option (list Z);
  zstd_bulk_decompress : list Z -> Z -> ZstdOutcome }.

(** A compressed block decompresses to its source, when that fits. *)
Class ZstdLaws (z : Zstd) := zstd_law : forall d c cap,
  zstd_bulk_compress d = Some c ->
  zstd_bulk_decompress c cap = if len d <=? cap then ZOk d else ZBufferTooSmall.

Section compressor.
Context {z : Zstd}.

Definition zstd_compress (data : list Z) (a : CompressorAlgo) : result CompressError (list Z) :=
  if zstd_available then
    match zstd_bulk_compress data with Some c => Ok c | None => Err ZstdFailed end
  else Err (CompressionUnavailable a).

(** The loop over [i in 1..=5]; the last attempt gets at least 64 KiB. *)
Fixpoint zstd_attempts (data : list Z) (a : CompressorAlgo) (todo : list Z)
    : result CompressError (list Z) :=
  match todo with
  | [] => Err (TooManyAttempts a)
  | i :: todo =>
    let n := len data * 2 ^ i in
    let n := if (i =? 5) && (n <? 64 * 1024) then 64 * 1024 else n in
    match zstd_bulk_decompress data n with
    | ZOk buf => Ok buf
    | ZBufferTooSmall => zstd_attempts data a todo
    | ZError => Err ZstdFailed
    end
  end.
Definition zstd_decompress (data : list Z) (a : CompressorAlgo) : result CompressError (list Z) :=
  if zstd_available then zstd_attempts data a [1; 2; 3; 4; 5]
  else Err (CompressionUnavailable a).

Definition compress_raw (data : list Z) (a : CompressorAlgo) : result CompressError (list Z) :=
  match a with
  | ZstdDefault => zstd_compress data a
  | CompressNone => Ok data
  end.
Definition decompress_raw (data : list Z) (a : CompressorAlgo) : result CompressError (list Z) :=
  match a with
  | ZstdDefault => zstd_decompress data a
  | CompressNone => Ok data
  end.

Definition compress (p : ZCPacket) (a : CompressorAlgo)
    : comp (ZCPacket * result CompressError unit) :=
  match a with
  | CompressNone => Ret (p, Ok tt)
  | ZstdDefault =>
    h ← unwrap (peer_manager_header p);
    if is_compressed h then Ret (p, Ok tt) else
    let tail := CompressorTail_new a in
    s ← payload p;
    match compress_raw s a with
    | Err e => Ret (p, Err e)
    | Ok buf =>
      if pm_len h <? len buf + COMPRESSOR_TAIL_SIZE then Ret (p, Ok tt) else
      '(h, put) ← unwrap (mut_peer_manager_header p);
      let p := put (set_compressed h true) in
      let p := truncate_packet p (zc_payload_offset p) in
      let p := extend_packet p buf in
      Ret (extend_packet p (CompressorTail_as_bytes tail), Ok tt)
    end
  end.

Definition decompress (p : ZCPacket) : comp (ZCPacket * result CompressError unit) :=
  h ← unwrap (peer_manager_header p);
  if negb (is_compressed h) then Ret (p, Ok tt) else
  s ← payload p;
  let payload_len := len s in
  if payload_len <? COMPRESSOR_TAIL_SIZE then Ret (p, Err (CompressPacketTooShort payload_len)) else
  let text_len := payload_len - COMPRESSOR_TAIL_SIZE in
  tail ← unwrap (ref_from_suffix s);
  match CompressorTail_get_algo tail with
  | None => Ret (p, Err (UnknownAlgo (algo tail)))
  | Some a =>
    text ← slice 0 text_len s;
    match decompress_raw text a with
    | Err e => Ret (p, Err e)
    | Ok buf =>
      if negb (len buf =? pm_len h) then Ret (p, Err (LengthMismatch (len buf) (pm_len h))) else
      '(h, put) ← unwrap (mut_peer_manager_header p);
      let p := put (set_compressed h false) in
      let p := truncate_packet p (zc_payload_offset p) in
      Ret (extend_packet p buf, Ok tt)
    end
  end.
End compressor.

(** ** Lemmas *)

Lemma compressed_flag : COMPRESSED ∈ all_flags.
Proof. by apply (bool_decide_unpack _). Qed.

Lemma parts_ok_compressed t tun h b : parts_ok t tun h -> parts_ok t tun (set_compressed h b).
Proof. intros [? ?]. split; [done|]. apply set_flag_wf; [exact compressed_flag|done]. Qed.

(** Truncating to the headers and appending replaces the payload. *)
Lemma replace_payload t tun h pl d :
  parts_ok t tun h ->
  extend_packet (truncate_packet (mk_packet t tun h pl)
    (zc_payload_offset (mk_packet t tun h pl))) d = mk_packet t tun h d.
Proof.
  intros Hok. rewrite <- (app_nil_l pl) at 1. rewrite truncate_parts; [apply extend_parts|].
  rewrite parts_buf_len by done. unfold len, zc_payload_offset; simpl. lia.
Qed.

Section attempts.
Context {z : Zstd} {Hz : ZstdLaws z}.

(** The five attempts reach the larger of 32 times the input and 64 KiB. *)
Lemma zstd_attempts_ok d c a :
  zstd_bulk_compress d = Some c -> len d <= Z.max (32 * len c) 65536 ->
  zstd_attempts c a [1; 2; 3; 4; 5] = Ok d.
Proof using Hz.
  intros Hc Hd. cbn [zstd_attempts Z.eqb Pos.eqb andb].
  rewrite !(zstd_law _ _ _ Hc). cbv zeta.
  do 4 (destruct (_ <=? _); [done|]).
  destruct (_ <? _) eqn:E; bools; rewrite (proj2 (Z.leb_le _ _)); lia || done.
Qed.
End attempts.

Lemma compressor_tail_suffix buf :
  ref_from_suffix (buf ++ CompressorTail_as_bytes (CompressorTail_new ZstdDefault)) =
  Some (CompressorTail_new ZstdDefault).
Proof.
  refine (ref_from_suffix_encode (T:=CompressorTail) (CompressorTail_new ZstdDefault) buf _).
  vm_compute. split; congruence.
Qed.

Section by_parts.
Context {z : Zstd} (t : ZCPacketType) (tun pl : list Z) (h : PeerManagerHeader).
Context (Hok : parts_ok t tun h) (Hnc : is_compressed h = false).

Definition packed (buf : list Z) : ZCPacket :=
  mk_packet t tun (set_compressed h true)
    (buf ++ CompressorTail_as_bytes (CompressorTail_new ZstdDefault)).

(** What [compress] does to a packet given by its parts. *)
Lemma compress_parts p' :
  compress (mk_packet t tun h pl) ZstdDefault = Ret (p', Ok tt) ->
  p' = mk_packet t tun h pl \/
  exists buf, zstd_available = true /\ zstd_bulk_compress pl = Some buf /\
    len buf + 1 <= pm_len h /\ p' = packed buf.
Proof using Hok Hnc.
  unfold compress, packed. rewrite parts_header by done. cbn [unwrap mbind comp_bind].
  rewrite Hnc, parts_payload by done. cbn [mbind comp_bind compress_raw].
  unfold zstd_compress. destruct zstd_available eqn:Ez; [|done].
  destruct (zstd_bulk_compress pl) as [buf|] eqn:Eb; [|done].
  destruct (pm_len h <? len buf + COMPRESSOR_TAIL_SIZE) eqn:El; bools;
    [intros; simplify_eq; by left|].
  rewrite parts_mut_header by done. cbn [unwrap mbind comp_bind]. cbv zeta.
  rewrite parts_put_header by done.
  rewrite replace_payload, extend_parts by (by apply parts_ok_compressed).
  intros; simplify_eq. right. exists buf. unfold COMPRESSOR_TAIL_SIZE in El.
  split_and!; [done..|lia|done].
Qed.

Lemma decompress_packed {Hz : ZstdLaws z} buf :
  zstd_available = true -> zstd_bulk_compress pl = Some buf ->
  len pl <= Z.max (32 * len buf) 65536 -> pm_len h = len pl ->
  decompress (packed buf) = Ret (mk_packet t tun h pl, Ok tt).
Proof using Hok Hnc.
  intros Ez Eb Hd Hl. assert (Hok' := parts_ok_compressed t tun h true Hok).
  unfold decompress, packed. rewrite parts_header by done. cbn [unwrap mbind comp_bind].
  unfold is_compressed at 1, set_compressed at 1.
  rewrite contains_set_flag by exact compressed_flag. cbn [negb].
  rewrite parts_payload by done. cbn [mbind comp_bind]. cbv zeta.
  rewrite len_app. change (len (CompressorTail_as_bytes (CompressorTail_new ZstdDefault))) with 1.
  rewrite (proj2 (Z.ltb_ge _ _)) by (unfold COMPRESSOR_TAIL_SIZE; pose proof (len_nonneg buf); lia).
  rewrite compressor_tail_suffix. cbn [unwrap mbind comp_bind]. 
  replace (len buf + 1 - COMPRESSOR_TAIL_SIZE) with (len buf) by (unfold COMPRESSOR_TAIL_SIZE; lia).
  rewrite slice_prefix. cbn. unfold zstd_decompress. rewrite Ez.
  rewrite (zstd_attempts_ok pl) by done.
  rewrite Hl, Z.eqb_refl. cbn [negb].
  rewrite parts_mut_header by done. cbn [unwrap mbind comp_bind]. cbv zeta.
  rewrite parts_put_header by done.
  unfold set_compressed. rewrite set_flag_undo by (exact compressed_flag || exact Hnc).
  by rewrite replace_payload.
Qed.
End by_parts.

(** Compressing a packet whose header is readable, not yet marked and
    carries the payload's length, then decompressing what comes out, succeeds
    and gives back the same packet, byte for byte, provided the payload is at
    most 32 times its compressed form or 64 KiB (what the attempts of the
    decompressor reach); and whatever [compress] returns is never longer than
    what it was given. *)
Theorem compress_round_trip `{z : Zstd, !ZstdLaws z} (p p' : ZCPacket) (h : PeerManagerHeader)
    (pl : list Z) (a : CompressorAlgo) :
  bytes_ok (inner p) ->
  peer_manager_header p = Some h -> is_compressed h = false ->
  payload p = Ret pl -> pm_len h = len pl ->
  (forall c, zstd_bulk_compress pl = Some c -> len pl <= Z.max (32 * len c) 65536) ->
  compress p a = Ret (p', Ok tt) ->
  decompress p' = Ret (p, Ok tt) /\ buf_len p' <= buf_len p.
Proof.
  intros Hb Hh Hnc Hp Hl Hc Hrun.
  destruct a; [simpl in Hrun; simplify_eq|].
  1: { split; [|lia]. unfold decompress. rewrite Hh. cbn. by rewrite Hnc. }
  destruct (packet_parts p Hb (header_has_header p h Hh)) as (tun & h' & pl' & E & Hok & _).
  rewrite E in Hh, Hp, Hrun |- *. rewrite parts_header in Hh by done. rewrite parts_payload in Hp by done.
  simplify_eq.
  destruct (compress_parts _ _ _ _ Hok Hnc _ Hrun) as [->|(buf & Ez & Eb & Hlen & ->)].
  - split; [|lia]. unfold decompress. rewrite parts_header by done. cbn. by rewrite Hnc.
  - split; [by apply decompress_packed; eauto|].
    unfold packed. rewrite !parts_buf_len; [|done|by apply parts_ok_compressed].
    rewrite len_app. change (len (CompressorTail_as_bytes _)) with 1. lia.
Qed.

(** A library that stores a block of zeros by its length and refuses others. *)
Definition zeros_zstd : Zstd := {|
  zstd_available := true;
  zstd_bulk_compress d :=
    if forallb (Z.eqb 0) d && (len d <? 256) then Some [len d] else None;
  zstd_bulk_decompress c cap :=
    match c with
    | [n] => if (n <=? cap) then ZOk (repeat 0 (Z.to_nat n)) else ZBufferTooSmall
    | _ => ZError
    end |}.

Lemma zeros_zstd_laws : ZstdLaws zeros_zstd.
Proof.
  intros d c cap. cbn. destruct (forallb _ d && _) eqn:E; [|done]. intros; simplify_eq.
  destruct (len d <=? cap); [|done]. f_equal. bools. unfold len. rewrite Nat2Z.id.
  clear -H. induction d as [|x d IH]; [done|]. simpl in *. bools.
  f_equal; [by destruct x|by apply IH].
Qed.

Definition zeros_header : PeerManagerHeader :=
  {| from_peer_id := 11; to_peer_id := 7; pm_packet_type := 1; flags := 1;
     forward_counter := 1; reserved := 0; pm_len := 40 |}.
Definition zeros_packet : ZCPacket :=
  mk_packet UDP (repeat 7 8) zeros_header (repeat 0 40).

Lemma compress_round_trip_witness :
  exists p', @compress zeros_zstd zeros_packet ZstdDefault = Ret (p', Ok tt) /\
    buf_len p' = 26 /\ @decompress zeros_zstd p' = Ret (zeros_packet, Ok tt).
Proof.
  eexists. split; [vm_compute; reflexivity|]. split; [vm_compute; reflexivity|].
  refine (proj1 (@compress_round_trip zeros_zstd zeros_zstd_laws zeros_packet _
    zeros_header (repeat 0 40) ZstdDefault _ _ _ _ _ _ _));
    try (vm_compute; reflexivity).
  - apply (bool_decide_unpack _). vm_compute. reflexivity.
  - intros c _. transitivity 65536; [vm_compute; congruence|lia].
Defined.
