(* ===== verification/ReplayWindow.v ===== *)
(** The anti-replay window of [tunnel/secure_datagram.rs] ([ReplayWindow256]):
    a 256-bit bitmap held as 32 bytes, bit [d] standing for sequence number
    [max_seq - d], and its specification as a set of accepted numbers. *)

From S2P Require Import Prelude.
From stdpp Require Import list gmap.
Local Open Scope Z_scope.

Record ReplayWindow256 := { max_seq : Z; bitmap : list Z; w_valid : bool }.

Definition window_default : ReplayWindow256 :=
  {| max_seq := 0; bitmap := repeat 0 32; w_valid := false |}.
Definition with_bitmap (w : ReplayWindow256) (b : list Z) : ReplayWindow256 :=
  {| max_seq := max_seq w; bitmap := b; w_valid := w_valid w |}.
Definition with_max_seq (w : ReplayWindow256) (s : Z) : ReplayWindow256 :=
  {| max_seq := s; bitmap := bitmap w; w_valid := w_valid w |}.
Definition with_valid (w : ReplayWindow256) (v : bool) : ReplayWindow256 :=
  {| max_seq := max_seq w; bitmap := bitmap w; w_valid := v |}.

Definition window_clear (w : ReplayWindow256) : ReplayWindow256 :=
  {| max_seq := 0; bitmap := map (fun _ => 0) (bitmap w); w_valid := false |}.

Definition test_bit (w : ReplayWindow256) (idx : Z) : comp bool :=
  b ← unwrap (bitmap w !! Z.to_nat (idx / 8));
  Ret (Z.land (Z.shiftr b (idx mod 8)) 1 =? 1).

Definition set_bit (w : ReplayWindow256) (idx : Z) : comp ReplayWindow256 :=
  b ← unwrap (bitmap w !! Z.to_nat (idx / 8));
  Ret (with_bitmap w (<[Z.to_nat (idx / 8) := Z.lor b (wrap 8 (Z.shiftl 1 (idx mod 8)))]> (bitmap w))).

(** The two loops of [shift_right]: whole bytes in place from the top index
    down, then the remaining bits with a carry from byte to byte. *)
Definition shift_bytes (byte_shift : nat) (l : list Z) : list Z :=
  foldl (fun l i =>
    <[i := if decide (byte_shift <= i)%nat then default 0 (l !! (i - byte_shift)%nat) else 0]> l)
    l (rev (seq 0 (length l))).
Fixpoint shift_bits (bit_shift carry : Z) (l : list Z) : list Z :=
  match l with
  | [] => []
  | b :: l =>
    let new_carry := Z.shiftr b (8 - bit_shift) in
    Z.lor (wrap 8 (Z.shiftl b bit_shift)) carry :: shift_bits bit_shift new_carry l
  end.

Definition shift_right (w : ReplayWindow256) (shift : Z) : ReplayWindow256 :=
  if shift =? 0 then w else
  let total_bits := 256 in
  if total_bits <=? shift then with_bitmap w (map (fun _ => 0) (bitmap w)) else
  let byte_shift := shift / 8 in
  let bit_shift := shift mod 8 in
  let w := if 0 <? byte_shift then with_bitmap w (shift_bytes (Z.to_nat byte_shift) (bitmap w))
           else w in
  if 0 <? bit_shift then with_bitmap w (shift_bits bit_shift 0 (bitmap w)) else w.

Section accept.
Context {T : Target}.

Definition accept (w : ReplayWindow256) (seq : Z) : comp (ReplayWindow256 * bool) :=
  if negb (w_valid w) then
    let w := with_max_seq (with_valid w true) seq in
    w ← set_bit w 0;
    Ret (w, true)
  else if max_seq w <? seq then
    let shift := wrap usize_bits (seq - max_seq w) in
    let w := shift_right w shift in
    let w := with_max_seq w seq in
    w ← set_bit w 0;
    Ret (w, true)
  else
    let delta := wrap usize_bits (max_seq w - seq) in
    if 256 <=? delta then Ret (w, false) else
    b ← test_bit w delta;
    if b : bool then Ret (w, false) else
    w ← set_bit w delta;
    Ret (w, true).

Definition can_accept (w : ReplayWindow256) (seq : Z) : comp bool :=
  if negb (w_valid w) || (max_seq w <? seq) then Ret true else
  let delta := wrap usize_bits (max_seq w - seq) in
  if delta <? 256 then b ← test_bit w delta; Ret (negb b) else Ret false.
End accept.

(** ** The bitmap as a 256-bit number *)

Definition wf_bitmap (l : list Z) : Prop := length l = 32%nat /\ bytes_ok l.
Definition bits (w : ReplayWindow256) : Z := le_decode (bitmap w).

Lemma le_decode_testbit l i b :
  bytes_ok l -> 0 <= i -> l !! Z.to_nat (i / 8) = Some b ->
  Z.testbit (le_decode l) i = Z.testbit b (i mod 8).
Proof.
  intros Hl. revert i. induction Hl as [|x l Hx Hl IH]; intros i Hi; [done|].
  simpl. destruct (Z.lt_ge_cases i 8) as [Hlt|Hge].
  - rewrite Z.div_small, Z.mod_small by lia. intros [= ->].
    rewrite <- (Z.mod_pow2_bits_low _ 8) by lia. f_equal.
    rewrite Z.mul_comm, Z.add_comm. change (2 ^ 8) with 256.
    rewrite Z.add_comm, Z.mod_add by lia. by apply Z.mod_small.
  - assert (i / 8 = (i - 8) / 8 + 1) as Hd
      by (rewrite <- Z.div_add by lia; f_equal; lia).
    assert (i mod 8 = (i - 8) mod 8) as Hm.
    { replace i with (i - 8 + 1 * 8) at 1 by lia. by rewrite Z.mod_add. }
    rewrite Hd, Z2Nat.inj_add, Nat.add_1_r by (try apply Z.div_pos; lia). simpl. intros Hlk.
    rewrite Hm, <- (IH (i - 8)) by (done || lia).
    replace i with (i - 8 + 8) at 1 by lia.
    rewrite <- (Z.div_pow2_bits _ 8) by lia. f_equal. change (2 ^ 8) with 256.
    rewrite Z.mul_comm, Z.div_add, Z.div_small; [lia|apply Hx|lia].
Qed.

Lemma lookup_byte l i : wf_bitmap l -> 0 <= i < 256 ->
  exists b, l !! Z.to_nat (i / 8) = Some b /\ byte b.
Proof.
  intros [Hlen Hb] Hi.
  destruct (lookup_lt_is_Some_2 l (Z.to_nat (i / 8))) as [b Hlk].
  { assert (i / 8 < 32) by (apply Z.div_lt_upper_bound; lia).
    assert (0 <= i / 8) by (apply Z.div_pos; lia). lia. }
  exists b. split; [done|]. by eapply Forall_lookup_1.
Qed.

Lemma test_bit_ok w i : wf_bitmap (bitmap w) -> 0 <= i < 256 ->
  test_bit w i = Ret (Z.testbit (bits w) i).
Proof.
  intros Hw Hi. destruct (lookup_byte _ i Hw Hi) as (b & Hlk & Hb).
  unfold test_bit, bits. rewrite Hlk. cbn. f_equal.
  rewrite (le_decode_testbit _ _ b) by (apply Hw || done || lia).
  assert (0 <= i mod 8) by (apply Z.mod_pos_bound; lia).
  rewrite <- (Z.add_0_l (i mod 8)) at 2. rewrite <- Z.shiftr_spec by lia.
  rewrite Z.bit0_eqb. f_equal. by rewrite (Z.land_ones _ 1).
Qed.

(** Equality of bitmaps bit by bit. *)
Lemma bits_of_lookup l i : wf_bitmap l -> 0 <= i < 256 ->
  Z.testbit (le_decode l) i = Z.testbit (l !!! Z.to_nat (i / 8)) (i mod 8).
Proof.
  intros Hl Hi. destruct (lookup_byte l i Hl Hi) as (b & Hlk & _).
  rewrite (list_lookup_total_correct _ _ _ Hlk). by apply le_decode_testbit; [apply Hl|lia|].
Qed.

Lemma one_shift_byte k : 0 <= k < 8 -> wrap 8 (Z.shiftl 1 k) = 2 ^ k /\ byte (2 ^ k).
Proof.
  intros Hk. rewrite Z.shiftl_1_l. assert (byte (2 ^ k)).
  { split; [lia|]. apply Z.pow_lt_mono_r; lia. }
  by rewrite wrap_small.
Qed.

Lemma set_bit_ok w i : wf_bitmap (bitmap w) -> 0 <= i < 256 ->
  exists w', set_bit w i = Ret w' /\ wf_bitmap (bitmap w') /\
    max_seq w' = max_seq w /\ w_valid w' = w_valid w /\
    forall j, 0 <= j < 256 -> Z.testbit (bits w') j = (j =? i) || Z.testbit (bits w) j.
Proof.
  intros Hw Hi. destruct (lookup_byte _ i Hw Hi) as (b & Hlk & Hb).
  assert (Hm : 0 <= i mod 8 < 8) by (apply Z.mod_pos_bound; lia).
  destruct (one_shift_byte _ Hm) as [Hs Hsb].
  unfold set_bit. rewrite Hlk, Hs. cbn. eexists. split; [done|]. cbn.
  assert (Hw' : wf_bitmap (<[Z.to_nat (i / 8):=Z.lor b (2 ^ (i mod 8))]> (bitmap w))).
  { destruct Hw. split; [by rewrite length_insert|]. apply Forall_insert; [done|].
    apply lor_range; [lia|done..]. }
  split_and!; [done..|]. intros j Hj. unfold bits; cbn.
  rewrite !bits_of_lookup by done.
  destruct (decide (i / 8 = j / 8)) as [E|E].
  - rewrite <- E, list_lookup_total_insert_eq by (by eapply lookup_lt_Some).
    rewrite (list_lookup_total_correct _ _ _ Hlk), Z.lor_spec, orb_comm. f_equal.
    rewrite Z.pow2_bits_eqb by lia.
    apply eq_true_iff_eq. rewrite !Z.eqb_eq.
    pose proof (Z.div_mod i 8). pose proof (Z.div_mod j 8). split; [lia|by intros ->].
  - rewrite list_lookup_total_insert_ne.
    + by rewrite (proj2 (Z.eqb_neq j i)) by congruence.
    + intros E'. apply E. apply Z2Nat.inj in E'; [done|apply Z.div_pos; lia..].
Qed.

(** *** Shifting *)

Lemma shift_bytes_lookup bs n l : (n <= length l)%nat ->
  let l' := foldl (fun l i =>
    <[i := if decide (bs <= i)%nat then default 0 (l !! (i - bs)%nat) else 0]> l)
    l (rev (seq 0 n)) in
  length l' = length l /\
  forall i, l' !! i =
    if decide (i < n)%nat
    then Some (if decide (bs <= i)%nat then default 0 (l !! (i - bs)%nat) else 0) else l !! i.
Proof.
  revert l. induction n as [|n IH]; intros l Hn; [by split|].
  rewrite seq_S, rev_app_distr. cbn [rev app foldl Nat.add].
  set (v := if decide (bs <= n)%nat then _ else _).
  destruct (IH (<[n:=v]> l)) as [Hlen Hlk]; [rewrite length_insert; lia|].
  split; [by rewrite Hlen, length_insert|]. intros i. rewrite Hlk.
  destruct (decide (i < n)%nat) as [Hi|Hi].
  - rewrite (decide_True (P:=(i < S n)%nat)) by lia. f_equal. case_decide; [|done].
    by rewrite list_lookup_insert_ne by lia.
  - destruct (decide (i = n)) as [->|].
    + by rewrite (decide_True (P:=(n < S n)%nat)), list_lookup_insert_eq by lia.
    + by rewrite (decide_False (P:=(i < S n)%nat)), list_lookup_insert_ne by lia.
Qed.

Lemma shift_bytes_spec bs l :
  shift_bytes bs l = take (length l) (replicate bs 0 ++ l).
Proof.
  destruct (shift_bytes_lookup bs (length l) l) as [Hlen Hlk]; [lia|].
  apply list_eq. intros i. unfold shift_bytes. rewrite Hlk.
  destruct (decide (i < length l)%nat) as [Hi|Hi].
  - rewrite lookup_take_lt by done. destruct (decide (bs <= i)%nat).
    + rewrite lookup_app_r, length_replicate by (rewrite length_replicate; lia).
      destruct (lookup_lt_is_Some_2 l (i - bs)) as [x Hx]; [lia|]. by rewrite Hx.
    + rewrite lookup_app_l by (rewrite length_replicate; lia).
      by rewrite lookup_replicate_2 by lia.
  - rewrite !lookup_ge_None_2; [done| |lia].
    rewrite length_take, length_app, length_replicate. lia.
Qed.

Lemma le_decode_app a b : le_decode (a ++ b) = le_decode a + 256 ^ len a * le_decode b.
Proof.
  unfold len. induction a as [|x a IH]; [cbn; lia|].
  cbn [app le_decode length]. rewrite IH, pow256_S. lia.
Qed.

Lemma le_decode_take n l : bytes_ok l -> (n <= length l)%nat ->
  le_decode (take n l) = le_decode l mod 256 ^ Z.of_nat n.
Proof.
  intros Hl Hn. rewrite <- (take_drop n l) at 2. rewrite le_decode_app.
  assert (len (take n l) = Z.of_nat n) as E by (unfold len; rewrite length_take; lia).
  rewrite E, Z.mul_comm, Z.mod_add by lia.
  symmetry. apply Z.mod_small. rewrite <- E. apply le_decode_range. by apply Forall_take.
Qed.

Lemma le_decode_zeros n : le_decode (replicate n 0) = 0.
Proof. induction n; [done|]. cbn [replicate le_decode]. lia. Qed.

Lemma shift_bytes_ok bs l : bytes_ok l -> bytes_ok (shift_bytes bs l).
Proof.
  intros Hl. rewrite shift_bytes_spec. apply Forall_take, Forall_app. split; [|done].
  apply Forall_replicate. by split.
Qed.

Lemma shift_bytes_value bs l : bytes_ok l ->
  length (shift_bytes bs l) = length l /\
  le_decode (shift_bytes bs l) = (le_decode l * 2 ^ (8 * Z.of_nat bs)) mod 2 ^ (8 * len l).
Proof.
  intros Hl. rewrite shift_bytes_spec. split.
  { rewrite length_take, length_app, length_replicate. lia. }
  rewrite le_decode_take.
  - rewrite le_decode_app, le_decode_zeros. unfold len. rewrite length_replicate.
    rewrite !Z.pow_mul_r by lia. change (2 ^ 8) with 256. f_equal. lia.
  - apply Forall_app. split; [|done]. apply Forall_replicate. by split.
  - rewrite length_app. lia.
Qed.

Lemma low_lor_add k a b : 0 <= k -> 0 <= b < 2 ^ k -> Z.lor (a * 2 ^ k) b = a * 2 ^ k + b.
Proof.
  intros Hk Hb. rewrite <- Z.add_lor_land. enough (Z.land (a * 2 ^ k) b = 0) by lia.
  apply Z.bits_inj'. intros i Hi. rewrite Z.land_spec, Z.bits_0, Z.mul_pow2_bits by done.
  destruct (Z.lt_ge_cases i k).
  - by rewrite Z.testbit_neg_r by lia.
  - by rewrite (range_high_bit k b), andb_false_r by (done || lia).
Qed.

(** One byte of the carry loop. *)
Lemma shift_bits_byte k c b : 0 < k < 8 -> 0 <= c < 2 ^ k -> byte b ->
  let x := Z.lor (wrap 8 (Z.shiftl b k)) c in
  let c' := Z.shiftr b (8 - k) in
  byte x /\ 0 <= c' < 2 ^ k /\ c + 2 ^ k * b = x + 256 * c'.
Proof.
  intros Hk Hc Hb x c'. assert (H256 : 256 = 2 ^ (8 - k) * 2 ^ k).
  { rewrite <- Z.pow_add_r by lia. by replace (8 - k + k) with 8 by lia. }
  assert (Hpk : 0 < 2 ^ k) by lia. assert (Hp8 : 0 < 2 ^ (8 - k)) by lia.
  assert (Ex : x = (b mod 2 ^ (8 - k)) * 2 ^ k + c).
  { unfold x, wrap. rewrite Z.shiftl_mul_pow2 by lia. change (2 ^ 8) with 256.
    rewrite H256, Z.mul_mod_distr_r by lia. by apply low_lor_add; lia. }
  assert (Ec : c' = b / 2 ^ (8 - k)) by (unfold c'; by rewrite Z.shiftr_div_pow2 by lia).
  pose proof (Z.mod_pos_bound b _ Hp8). pose proof (Z.div_mod b (2 ^ (8 - k))).
  destruct Hb. split_and!.
  - rewrite Ex. split; [nia|]. change (2 ^ 8) with 256. nia.
  - rewrite Ec. apply Z.div_pos; lia.
  - rewrite Ec. apply Z.div_lt_upper_bound; [lia|]. change (2 ^ 8) with 256 in *. lia.
  - rewrite Ex, Ec, H256. nia.
Qed.

Lemma shift_bits_value k c l : 0 < k < 8 -> 0 <= c < 2 ^ k -> bytes_ok l ->
  length (shift_bits k c l) = length l /\ bytes_ok (shift_bits k c l) /\
  le_decode (shift_bits k c l) = (c + 2 ^ k * le_decode l) mod 2 ^ (8 * len l).
Proof.
  intros Hk Hc Hl. revert c Hc. unfold len.
  induction Hl as [|b l Hb Hl IH]; intros c Hc; cbn [shift_bits le_decode length].
  { split_and!; [done|constructor|]. by rewrite Z.mod_1_r. }
  destruct (shift_bits_byte k c b Hk Hc Hb) as (Hx & Hc' & E).
  destruct (IH _ Hc') as (Hlen & Hok & ->).
  split_and!; [lia|by constructor|].
  rewrite !Z.pow_mul_r by lia. change (2 ^ 8) with 256. rewrite pow256_S.
  rewrite Z.mul_add_distr_l, Z.add_assoc, E.
  replace (2 ^ k * (256 * le_decode l)) with (256 * (2 ^ k * le_decode l)) by lia.
  rewrite <- Z.add_assoc, <- Z.mul_add_distr_l.
  set (y := _ + 2 ^ k * le_decode l). set (m := 256 ^ Z.of_nat (length l)).
  assert (0 < m) by (unfold m; lia).
  rewrite Z.add_mod, Z.mul_mod_distr_l by lia.
  rewrite (Z.mod_small (Z.lor _ _)) by (destruct Hx; change (2 ^ 8) with 256 in *; nia).
  symmetry. apply Z.mod_small. pose proof (Z.mod_pos_bound y m). destruct Hx.
  change (2 ^ 8) with 256 in *. nia.
Qed.

Lemma zero_bitmap_ok l : wf_bitmap l ->
  wf_bitmap (map (fun _ => 0) l) /\ le_decode (map (fun _ => 0) l) = 0.
Proof.
  intros [Hl _]. split.
  - split; [by rewrite length_map|]. apply Forall_fmap, Forall_true. intros; by split.
  - clear Hl. induction l; [done|]. cbn [map le_decode]. lia.
Qed.

(** [shift_right] multiplies the bitmap by a power of two, modulo 2^256. *)
Lemma shift_right_spec w shift : wf_bitmap (bitmap w) -> 0 <= shift ->
  wf_bitmap (bitmap (shift_right w shift)) /\
  max_seq (shift_right w shift) = max_seq w /\ w_valid (shift_right w shift) = w_valid w /\
  bits (shift_right w shift) = (bits w * 2 ^ shift) mod 2 ^ 256.
Proof.
  intros Hw Hs. destruct Hw as [Hlen Hok]. unfold shift_right, bits.
  assert (H256 : 8 * len (bitmap w) = 256) by (unfold len; lia).
  destruct (Z.eqb_spec shift 0) as [->|Hnz].
  { split_and!; [done..|]. rewrite Z.mul_1_r, <- H256, Z.mod_small; [done|].
    rewrite Z.pow_mul_r by (unfold len; lia). by apply le_decode_range. }
  destruct (Z.leb_spec 256 shift) as [Hge|Hlt].
  { destruct (zero_bitmap_ok (bitmap w)) as [H1 H2]; [done|]. cbn. split_and!; [done..|].
    rewrite H2. replace shift with (shift - 256 + 256) by lia.
    by rewrite Z.pow_add_r, Z.mul_assoc, Z.mod_mul by lia. }
  cbv zeta. assert (Hm : 0 <= shift mod 8 < 8) by (apply Z.mod_pos_bound; lia).
  assert (Hd : 0 <= shift / 8) by (apply Z.div_pos; lia).
  set (w1 := if 0 <? shift / 8 then _ else w).
  assert (H1 : length (bitmap w1) = 32%nat /\ bytes_ok (bitmap w1) /\ max_seq w1 = max_seq w /\
    w_valid w1 = w_valid w /\
    le_decode (bitmap w1) = (le_decode (bitmap w) * 2 ^ (8 * (shift / 8))) mod 2 ^ 256).
  { unfold w1. destruct (Z.ltb_spec 0 (shift / 8)).
    - destruct (shift_bytes_value (Z.to_nat (shift / 8)) (bitmap w) Hok) as [E1 E2].
      rewrite Z2Nat.id, H256 in E2 by lia. cbn. split_and!; [lia|by apply shift_bytes_ok|done..].
    - replace (shift / 8) with 0 by lia. rewrite Z.mul_1_r.
      split_and!; [done..|]. rewrite Z.mod_small; [done|]. rewrite <- H256.
      rewrite Z.pow_mul_r by (unfold len; lia). by apply le_decode_range. }
  destruct H1 as (Hl1 & Hb1 & Hs1 & Hv1 & E1).
  assert (Esh : 2 ^ shift = 2 ^ (8 * (shift / 8)) * 2 ^ (shift mod 8)).
  { rewrite <- Z.pow_add_r by lia. f_equal. apply Z.div_mod. lia. }
  rewrite Esh, Z.mul_assoc. destruct (Z.ltb_spec 0 (shift mod 8)).
  - destruct (shift_bits_value (shift mod 8) 0 (bitmap w1)) as (E2 & E3 & E4); [lia..|done|].
    cbn [bitmap max_seq w_valid with_bitmap]. split_and!; [split; [lia|done]|done..|].
    rewrite E4. replace (8 * len (bitmap w1)) with 256 by (unfold len; lia).
    rewrite Z.add_0_l, Z.mul_comm, E1. by rewrite Zmult_mod_idemp_l.
  - replace (shift mod 8) with 0 by lia. rewrite Z.mul_1_r. by split_and!.
Qed.

(** ** The specification: a set of accepted numbers

    A number is accepted when nothing was accepted before, when it is newer
    than everything accepted, or when it is less than 256 behind the newest and
    not itself accepted yet. *)

Definition newest (seen : list Z) : Z := foldr Z.max 0 seen.

Definition spec_accepts (seen : list Z) (seq : Z) : bool :=
  match seen with
  | [] => true
  | _ => (newest seen <? seq) || ((newest seen - seq <? 256) && negb (bool_decide (seq ∈ seen)))
  end.
Definition spec_accept (seen : list Z) (seq : Z) : list Z * bool :=
  if spec_accepts seen seq then (seq :: seen, true) else (seen, false).

Lemma newest_ge seen x : x ∈ seen -> x <= newest seen.
Proof.
  unfold newest. induction 1 as [x l|x y l Hin IH]; cbn; [lia|].
  etrans; [exact IH|]. apply Z.le_max_r.
Qed.

Lemma newest_nonneg seen : 0 <= newest seen.
Proof. unfold newest. induction seen; cbn; lia. Qed.

Lemma newest_cons x seen : newest (x :: seen) = Z.max x (newest seen).
Proof. done. Qed.

(** Once refused, a number stays refused; an accepted number is refused from
    then on. *)
Lemma spec_refused_stable seen x s :
  spec_accepts seen x = false -> spec_accepts (s :: seen) x = false.
Proof.
  unfold spec_accepts at 1. destruct seen as [|y seen']; [done|].
  intros H. apply orb_false_elim in H as [H1 H2]. unfold spec_accepts.
  rewrite newest_cons. apply orb_false_intro; [apply Z.ltb_ge in H1; apply Z.ltb_ge; lia|].
  apply andb_false_iff in H2 as [H2|H2]; apply andb_false_iff.
  - left. apply Z.ltb_ge in H2. apply Z.ltb_ge. lia.
  - right. apply negb_false_iff, bool_decide_eq_true in H2.
    apply negb_false_iff, bool_decide_eq_true. by right.
Qed.

Lemma spec_accepted_refused seen s : spec_accepts (s :: seen) s = false.
Proof.
  unfold spec_accepts. rewrite newest_cons.
  rewrite (proj2 (Z.ltb_ge _ _)) by lia. rewrite bool_decide_true by left.
  by rewrite andb_false_r.
Qed.

(** The refinement relation. *)
Record window_rel (w : ReplayWindow256) (seen : list Z) : Prop := {
  rel_bitmap : wf_bitmap (bitmap w);
  rel_valid : w_valid w = negb (bool_decide (seen = []));
  rel_max : max_seq w = newest seen;
  rel_bits : forall d, 0 <= d < 256 ->
    Z.testbit (bits w) d = bool_decide (max_seq w - d ∈ seen) }.

Lemma window_default_rel : window_rel window_default [].
Proof.
  split; [split; [done|by apply (bool_decide_unpack _)]|done..|].
  intros d _. rewrite bool_decide_false by (by intros ?%elem_of_nil). apply Z.bits_0.
Qed.

Lemma window_clear_rel w : wf_bitmap (bitmap w) -> window_rel (window_clear w) [].
Proof.
  intros Hw. destruct (zero_bitmap_ok _ Hw) as [H1 H2].
  split; [done..|]. intros d _. rewrite bool_decide_false by (by intros ?%elem_of_nil).
  unfold bits; cbn. rewrite H2. apply Z.bits_0.
Qed.

Section refinement.
Context {T : Target}.

(** Numbers whose differences fit in [usize]; every [u64] on a 64-bit target. *)
Definition in_span (base s : Z) : Prop := 0 <= s /\ base <= s < base + 2 ^ usize_bits.

Definition seen_in_span (base : Z) (seen : list Z) : Prop := Forall (in_span base) seen.

Lemma newest_in_span base seen :
  seen_in_span base seen -> seen <> [] -> in_span base (newest seen).
Proof.
  unfold seen_in_span. induction 1 as [|x l Hx Hl IH]; [done|]. intros _. rewrite newest_cons.
  destruct l as [|y l]; [unfold newest; cbn; destruct Hx; split; lia|].
  destruct IH as [? ?]; [done|]. destruct Hx. split; lia.
Qed.

Lemma diff_wrap base a b : in_span base a -> in_span base b -> b <= a ->
  wrap usize_bits (a - b) = a - b.
Proof. intros [? ?] [? ?] ?. apply wrap_small. split; lia. Qed.

Lemma can_accept_refines base w seen s :
  window_rel w seen -> seen_in_span base seen -> in_span base s ->
  can_accept w s = Ret (spec_accepts seen s).
Proof.
  intros [Hb Hv Hm Hbits] Hsp Hs. unfold can_accept, spec_accepts. rewrite Hv.
  destruct seen as [|x seen]; [done|]. rewrite bool_decide_false by done. cbn [negb orb].
  rewrite Hm. destruct (Z.ltb_spec (newest (x :: seen)) s) as [|Hle]; [done|]. cbn [orb].
  rewrite (diff_wrap base) by (done || by apply newest_in_span).
  destruct (Z.ltb_spec (newest (x :: seen) - s) 256) as [Hd|]; [|done].
  rewrite test_bit_ok, Hbits by (done || lia). cbn [mbind comp_bind]. rewrite Hm.
  by replace (newest (x :: seen) - (newest (x :: seen) - s)) with s by lia.
Qed.

(** Recording a number at distance [d] behind the newest one. *)
Lemma mark_rel w w' seen s d :
  window_rel w seen -> seen <> [] -> s = max_seq w - d -> 0 <= d < 256 ->
  set_bit w d = Ret w' -> window_rel w' (s :: seen).
Proof.
  intros [Hb Hv Hm Hbits] Hne -> Hd Hset.
  destruct (set_bit_ok w d Hb Hd) as (w2 & E & Hb2 & Hm2 & Hv2 & Hbits2).
  rewrite E in Hset. injection Hset as <-. split; [done|..].
  - rewrite Hv2, Hv. by rewrite !bool_decide_false.
  - rewrite Hm2, newest_cons, <- Hm. lia.
  - intros j Hj. rewrite Hbits2, Hbits, Hm2 by done.
    destruct (Z.eqb_spec j d) as [->|Hjd]; cbn [orb].
    + symmetry. apply bool_decide_true. by left.
    + apply bool_decide_ext. rewrite elem_of_cons. split; [by right|]. intros [?|?]; [lia|done].
Qed.

(** Advancing the window to a newer number. *)
Lemma advance_rel w w' seen s :
  window_rel w seen -> max_seq w < s ->
  set_bit (with_max_seq (shift_right w (s - max_seq w)) s) 0 = Ret w' ->
  w_valid w = true -> window_rel w' (s :: seen).
Proof.
  intros [Hb Hv Hm Hbits] Hlt Hset Hval.
  destruct (shift_right_spec w (s - max_seq w) Hb) as (Hb1 & Hm1 & Hv1 & E1); [lia|].
  destruct (set_bit_ok (with_max_seq (shift_right w (s - max_seq w)) s) 0)
    as (w2 & E & Hb2 & Hm2 & Hv2 & Hbits2); [done|lia|].
  rewrite E in Hset. injection Hset as <-. split; [done|..].
  - rewrite Hv2; cbn. by rewrite Hv1, Hval.
  - rewrite Hm2, newest_cons; cbn. lia.
  - intros j Hj. rewrite Hbits2, Hm2 by done. cbn [with_max_seq max_seq bits bitmap].
    change (bits (with_max_seq _ _)) with (bits (shift_right w (s - max_seq w))).
    rewrite E1, Z.mod_pow2_bits_low, Z.mul_pow2_bits by lia.
    destruct (Z.eqb_spec j 0) as [->|Hj0]; cbn [orb].
    { symmetry. apply bool_decide_true. rewrite Z.sub_0_r. by left. }
    destruct (Z.lt_ge_cases j (s - max_seq w)) as [Hjs|Hjs].
    + rewrite Z.testbit_neg_r by lia. symmetry. apply bool_decide_false.
      rewrite elem_of_cons. intros [?|Hin]; [lia|]. apply newest_ge in Hin. lia.
    + rewrite Hbits by lia. apply bool_decide_ext. rewrite elem_of_cons.
      replace (max_seq w - (j - (s - max_seq w))) with (s - j) by lia.
      split; [by right|]. intros [?|?]; [lia|done].
Qed.

Lemma first_rel w w' s :
  window_rel w [] -> 0 <= s ->
  set_bit (with_max_seq (with_valid w true) s) 0 = Ret w' -> window_rel w' [s].
Proof.
  intros [Hb Hv Hm Hbits] Hs Hset.
  destruct (set_bit_ok (with_max_seq (with_valid w true) s) 0)
    as (w2 & E & Hb2 & Hm2 & Hv2 & Hbits2); [done|lia|].
  rewrite E in Hset. injection Hset as <-. split; [done..| |].
  - rewrite Hm2. unfold newest; cbn. lia.
  - intros j Hj. rewrite Hbits2, Hm2 by done. cbn [max_seq with_max_seq].
    change (bits (with_max_seq _ _)) with (bits w). rewrite Hbits by done.
    rewrite (bool_decide_false (_ ∈ [])) by (by intros ?%elem_of_nil). rewrite orb_false_r.
    apply eq_true_iff_eq. rewrite Z.eqb_eq, bool_decide_eq_true, list_elem_of_singleton. lia.
Qed.

Lemma set_bit_Ret w i : wf_bitmap (bitmap w) -> 0 <= i < 256 -> exists w', set_bit w i = Ret w'.
Proof. intros Hw Hi. destruct (set_bit_ok w i Hw Hi) as (w' & ? & _). eauto. Qed.

Lemma accept_refines base w seen s :
  window_rel w seen -> seen_in_span base seen -> in_span base s ->
  exists w', accept w s = Ret (w', (spec_accept seen s).2) /\
    window_rel w' (spec_accept seen s).1.
Proof.
  intros HR Hsp Hs. pose proof HR as [Hb Hv Hm Hbits]. unfold accept, spec_accept, spec_accepts.
  rewrite Hv. destruct seen as [|x seen].
  { rewrite bool_decide_true by done. cbn [negb].
    destruct (set_bit_Ret (with_max_seq (with_valid w true) s) 0) as [w' E]; [done|lia|].
    rewrite E. eexists. split; [done|]. eapply first_rel; [done| |done]. apply Hs. }
  set (seen' := x :: seen) in *. rewrite bool_decide_false by done. cbn [negb].
  assert (Hnew : in_span base (newest seen')) by (by apply newest_in_span).
  rewrite <- Hm in Hnew |- *. destruct (Z.ltb_spec (max_seq w) s) as [Hlt|Hle]; cbn [orb].
  - rewrite (diff_wrap base) by (done || lia). cbv zeta.
    destruct (set_bit_Ret (with_max_seq (shift_right w (s - max_seq w)) s) 0) as [w' E];
      [apply shift_right_spec; [done|lia]|lia|].
    rewrite E. eexists. split; [done|]. by eapply advance_rel; rewrite ?Hv.
  - rewrite (diff_wrap base) by done. cbv zeta.
    rewrite (Z.leb_antisym _ 256). destruct (Z.ltb_spec (max_seq w - s) 256) as [Hd|Hd];
      cbn [negb andb]; [|by exists w].
    rewrite test_bit_ok, Hbits by (done || lia). cbn [mbind comp_bind].
    replace (max_seq w - (max_seq w - s)) with s by lia.
    destruct (bool_decide (s ∈ seen')); cbn [negb]; [by exists w|].
    destruct (set_bit_Ret w (max_seq w - s)) as [w' E]; [done|lia|].
    rewrite E. eexists. split; [done|]. apply (mark_rel w w' seen' s (max_seq w - s)); done || lia.
Qed.

Lemma spec_accept_span base seen s :
  seen_in_span base seen -> in_span base s -> seen_in_span base (spec_accept seen s).1.
Proof. intros. unfold spec_accept. case_match; [by constructor|done]. Qed.

(** Offering a list of numbers in order, and the same for the specification. *)
Fixpoint accept_all (w : ReplayWindow256) (l : list Z) : comp (ReplayWindow256 * list bool) :=
  match l with
  | [] => Ret (w, [])
  | s :: l => '(w, b) ← accept w s; '(w, bs) ← accept_all w l; Ret (w, b :: bs)
  end.
Fixpoint spec_all (seen : list Z) (l : list Z) : list bool :=
  match l with
  | [] => []
  | s :: l => (spec_accept seen s).2 :: spec_all (spec_accept seen s).1 l
  end.

Lemma accept_all_refines base w seen l :
  window_rel w seen -> seen_in_span base seen -> Forall (in_span base) l ->
  exists w', accept_all w l = Ret (w', spec_all seen l).
Proof.
  intros HR Hsp Hl. revert w seen HR Hsp. induction Hl as [|s l Hs Hl IH]; intros w seen HR Hsp.
  { by eexists. }
  destruct (accept_refines base w seen s HR Hsp Hs) as (w1 & E & HR1).
  destruct (IH w1 (spec_accept seen s).1 HR1) as [w2 E2]; [by apply spec_accept_span|].
  exists w2. cbn. rewrite E. cbn. by rewrite E2.
Qed.
End refinement.

(** The numbers a run accepted. *)
Fixpoint chosen (l : list Z) (bs : list bool) : list Z :=
  match l, bs with
  | s :: l, b :: bs => (if b : bool then [s] else []) ++ chosen l bs
  | _, _ => []
  end.

Lemma spec_all_refused seen l x : spec_accepts seen x = false -> x ∉ chosen l (spec_all seen l).
Proof.
  revert seen. induction l as [|s l IH]; intros seen Hx; [by intros ?%elem_of_nil|].
  cbn [spec_all chosen]. unfold spec_accept. destruct (spec_accepts seen s) eqn:E; cbn.
  - intros [->|Hin]%elem_of_cons; [congruence|]. revert Hin. apply IH. by apply spec_refused_stable.
  - by apply IH.
Qed.

Lemma spec_all_nodup seen l : NoDup (chosen l (spec_all seen l)).
Proof.
  revert seen. induction l as [|s l IH]; intros seen; [constructor|].
  cbn [spec_all chosen]. unfold spec_accept. destruct (spec_accepts seen s) eqn:E; cbn; [|apply IH].
  constructor; [|apply IH]. apply spec_all_refused, spec_accepted_refused.
Qed.

(** ** Properties *)

(** The byte-array shift that moves the window is the shift of the 256-bit
    number it encodes: for every distance, [shift_right] gives the bitmap's
    value times [2^shift] modulo [2^256], leaves the other fields alone and
    keeps 32 well-formed bytes. *)
Theorem shift_right_exact (w : ReplayWindow256) (shift : Z) :
  wf_bitmap (bitmap w) -> 0 <= shift ->
  bits (shift_right w shift) = (bits w * 2 ^ shift) mod 2 ^ 256 /\
  wf_bitmap (bitmap (shift_right w shift)) /\
  max_seq (shift_right w shift) = max_seq w /\ w_valid (shift_right w shift) = w_valid w.
Proof. intros Hw Hs. by destruct (shift_right_spec w shift Hw Hs) as (? & ? & ? & ?). Qed.

Definition marked_window : ReplayWindow256 :=
  {| max_seq := 70; bitmap := [129; 3] ++ repeat 0 29 ++ [255]; w_valid := true |}.

Lemma shift_right_exact_witness :
  bits (shift_right marked_window 21) = (bits marked_window * 2 ^ 21) mod 2 ^ 256 /\
  wf_bitmap (bitmap (shift_right marked_window 21)) /\
  max_seq (shift_right marked_window 21) = max_seq marked_window /\
  w_valid (shift_right marked_window 21) = w_valid marked_window.
Proof.
  apply (shift_right_exact marked_window 21); [|lia].
  split; [reflexivity|]. by apply (bool_decide_unpack _).
Defined.

(** C14. The window implements its specification.  Offered any list of
    sequence numbers whose differences fit in [usize] (every [u64] on a 64-bit
    target), a new window returns without panicking, its verdicts are those of
    the set-of-accepted-numbers specification, and no number is accepted
    twice. *)
Theorem accept_implements_spec {T : Target} (base : Z) (l : list Z) :
  Forall (in_span base) l ->
  exists w, accept_all window_default l = Ret (w, spec_all [] l) /\
    NoDup (chosen l (spec_all [] l)).
Proof.
  intros Hl. destruct (accept_all_refines base window_default [] l) as [w E];
    [exact window_default_rel|constructor|done|]. eauto using spec_all_nodup.
Qed.

Lemma accept_implements_spec_witness :
  exists w, accept_all (T:=64) window_default [5; 7; 5; 300; 44; 45; 45] =
      Ret (w, spec_all [] [5; 7; 5; 300; 44; 45; 45]) /\
    NoDup (chosen [5; 7; 5; 300; 44; 45; 45] (spec_all [] [5; 7; 5; 300; 44; 45; 45])).
Proof.
  apply (accept_implements_spec (T:=64) 0). repeat constructor; vm_compute; congruence.
Defined.

(** [can_accept], which reads the window before a packet is authenticated,
    predicts exactly the verdict [accept] gives on the same window, and a
    refused number leaves the window as it was. *)
Theorem can_accept_predicts {T : Target} (base : Z) (w : ReplayWindow256) (seen : list Z) (s : Z) :
  window_rel w seen -> seen_in_span base seen -> in_span base s ->
  exists w' b, accept w s = Ret (w', b) /\ can_accept w s = Ret b /\ (b = false -> w' = w).
Proof.
  intros HR Hsp Hs. destruct (accept_refines base w seen s HR Hsp Hs) as (w' & E & _).
  exists w', (spec_accepts seen s). rewrite (can_accept_refines base w seen s) by done.
  unfold spec_accept in E. split_and!; [|done|].
  { rewrite E. by case_match. }
  intros Hb. rewrite Hb in E. cbn in E. revert E. unfold accept.
  destruct (w_valid w); cbn [negb]; unfold mbind, comp_bind;
    repeat case_match; intros; simplify_eq; done.
Qed.

Lemma can_accept_predicts_witness :
  exists w' b, accept (T:=32) window_default 9 = Ret (w', b) /\
    can_accept (T:=32) window_default 9 = Ret b /\ (b = false -> w' = window_default).
Proof.
  apply (can_accept_predicts (T:=32) 0 window_default []); [exact window_default_rel|constructor|].
  vm_compute. repeat split; congruence.
Defined.

(** Where [usize] is 32 bits wide the distance is truncated: number 0 is
    accepted a second time once the window has moved past it by more than
    [2^32]. *)
Theorem truncated_distance_accepts_twice :
  exists w, accept_all (T:=32) window_default [0; 300; 2 ^ 32 + 10; 0] =
    Ret (w, [true; true; true; true]).
Proof. eexists. vm_compute. reflexivity. Qed.
