(* ===== verification/SecureDatagram.v ===== *)
(** [tunnel/secure_datagram.rs]: the per-peer secure session.  It derives one
    traffic key per epoch and direction, numbers outgoing packets, rotates the
    epoch, caches ciphers and filters replays on the way in.

    The session's atomics and mutexes are the fields of [Session]; each method
    is a state transformer that runs to completion, and [now] arguments are the
    readings of the wall clock.  [SenderThreads] models the same send path with
    one atomic access per step. *)

From S2P Require Import Prelude Headers Packet Encrypt ReplayWindow.
From stdpp Require Import list strings.
Local Open Scope Z_scope.

Inductive SecureDatagramDirection := AToB | BToA.
#[export] Instance Direction_eq_dec : EqDecision SecureDatagramDirection.
Proof. solve_decision. Defined.
Definition dir_idx (d : SecureDatagramDirection) : Z :=
  match d with AToB => 0 | BToA => 1 end.

(** Arrays of length two, indexed by direction. *)
Abbreviation two A := (A * A)%type.
Definition at_dir {A} (d : SecureDatagramDirection) (t : two A) : A :=
  match d with AToB => t.1 | BToA => t.2 end.
Definition put_dir {A} (d : SecureDatagramDirection) (a : A) (t : two A) : two A :=
  match d with AToB => (a, t.2) | BToA => (t.1, a) end.
Definition map2 {A B} (f : A -> B) (t : two A) : two B := (f t.1, f t.2).

Record EpochKeySlot := {
  k_epoch : Z; k_generation : Z; k_valid : bool;
  send_cipher : option Encryptor; recv_cipher : option Encryptor }.
Definition key_slot_default : EpochKeySlot :=
  {| k_epoch := 0; k_generation := 0; k_valid := false;
     send_cipher := None; recv_cipher := None |}.
Definition get_encryptor (s : EpochKeySlot) (is_send : bool) : comp Encryptor :=
  if is_send then unwrap (send_cipher s) else unwrap (recv_cipher s).

Record EpochRxSlot := {
  rx_epoch : Z; rx_window : ReplayWindow256; last_rx_ms : Z; rx_valid : bool }.
Definition rx_slot_default : EpochRxSlot :=
  {| rx_epoch := 0; rx_window := window_default; last_rx_ms := 0; rx_valid := false |}.
Definition rx_slot_clear (s : EpochRxSlot) : EpochRxSlot :=
  {| rx_epoch := 0; rx_window := window_clear (rx_window s); last_rx_ms := 0; rx_valid := false |}.
Definition rx_slot_new (epoch now_ms : Z) : EpochRxSlot :=
  {| rx_epoch := epoch; rx_window := window_default; last_rx_ms := now_ms; rx_valid := true |}.
(** [slot.last_rx_ms = now] together with the window [accept] left. *)
Definition rx_slot_touch (s : EpochRxSlot) (now_ms : Z) (w : ReplayWindow256) : EpochRxSlot :=
  {| rx_epoch := rx_epoch s; rx_window := w; last_rx_ms := now_ms; rx_valid := rx_valid s |}.

Abbreviation RxSlots := (two (two EpochRxSlot)).

Record SyncRxGrace := { g_slots : RxSlots; expires_at_ms : Z; g_valid : bool }.
Definition grace_clear : SyncRxGrace :=
  {| g_slots := ((rx_slot_default, rx_slot_default), (rx_slot_default, rx_slot_default));
     expires_at_ms := 0; g_valid := false |}.
Definition grace_refresh (slots : RxSlots) (expires : Z) : SyncRxGrace :=
  {| g_slots := slots; expires_at_ms := expires; g_valid := true |}.
Definition grace_maybe_expire (g : SyncRxGrace) (now_ms : Z) : SyncRxGrace :=
  if g_valid g && (expires_at_ms g <=? now_ms) then grace_clear else g.
Definition grace_with_slots (g : SyncRxGrace) (s : RxSlots) : SyncRxGrace :=
  {| g_slots := s; expires_at_ms := expires_at_ms g; g_valid := g_valid g |}.

Record Session := {
  root_key : list Z;
  session_generation : Z;
  send_epoch : Z;
  send_seq : two Z;
  send_epoch_started_ms : Z;
  send_packets_since_epoch : Z;
  rx_slots : RxSlots;
  key_cache : two (two EpochKeySlot);
  sync_rx_grace : SyncRxGrace;
  sync_rx_grace_expires_at_ms : Z;
  send_cipher_algorithm : string;
  recv_cipher_algorithm : string;
  invalidated : bool;
  decrypt_fail_count : Z }.

(** Stores to single fields. *)
Definition with_send (st : Session) (epoch : Z) (seqs : two Z) (started packets : Z) : Session :=
  {| root_key := root_key st; session_generation := session_generation st;
     send_epoch := epoch; send_seq := seqs; send_epoch_started_ms := started;
     send_packets_since_epoch := packets; rx_slots := rx_slots st; key_cache := key_cache st;
     sync_rx_grace := sync_rx_grace st;
     sync_rx_grace_expires_at_ms := sync_rx_grace_expires_at_ms st;
     send_cipher_algorithm := send_cipher_algorithm st;
     recv_cipher_algorithm := recv_cipher_algorithm st;
     invalidated := invalidated st; decrypt_fail_count := decrypt_fail_count st |}.
Definition with_root (st : Session) (key : list Z) (generation : Z) : Session :=
  {| root_key := key; session_generation := generation;
     send_epoch := send_epoch st; send_seq := send_seq st;
     send_epoch_started_ms := send_epoch_started_ms st;
     send_packets_since_epoch := send_packets_since_epoch st;
     rx_slots := rx_slots st; key_cache := key_cache st;
     sync_rx_grace := sync_rx_grace st;
     sync_rx_grace_expires_at_ms := sync_rx_grace_expires_at_ms st;
     send_cipher_algorithm := send_cipher_algorithm st;
     recv_cipher_algorithm := recv_cipher_algorithm st;
     invalidated := invalidated st; decrypt_fail_count := decrypt_fail_count st |}.
Definition with_rx (st : Session) (rx : RxSlots) (g : SyncRxGrace) (g_exp : Z) : Session :=
  {| root_key := root_key st; session_generation := session_generation st;
     send_epoch := send_epoch st; send_seq := send_seq st;
     send_epoch_started_ms := send_epoch_started_ms st;
     send_packets_since_epoch := send_packets_since_epoch st;
     rx_slots := rx; key_cache := key_cache st;
     sync_rx_grace := g; sync_rx_grace_expires_at_ms := g_exp;
     send_cipher_algorithm := send_cipher_algorithm st;
     recv_cipher_algorithm := recv_cipher_algorithm st;
     invalidated := invalidated st; decrypt_fail_count := decrypt_fail_count st |}.
Definition with_key_cache (st : Session) (kc : two (two EpochKeySlot)) : Session :=
  {| root_key := root_key st; session_generation := session_generation st;
     send_epoch := send_epoch st; send_seq := send_seq st;
     send_epoch_started_ms := send_epoch_started_ms st;
     send_packets_since_epoch := send_packets_since_epoch st;
     rx_slots := rx_slots st; key_cache := kc;
     sync_rx_grace := sync_rx_grace st;
     sync_rx_grace_expires_at_ms := sync_rx_grace_expires_at_ms st;
     send_cipher_algorithm := send_cipher_algorithm st;
     recv_cipher_algorithm := recv_cipher_algorithm st;
     invalidated := invalidated st; decrypt_fail_count := decrypt_fail_count st |}.
Definition with_health (st : Session) (inv : bool) (fails : Z) : Session :=
  {| root_key := root_key st; session_generation := session_generation st;
     send_epoch := send_epoch st; send_seq := send_seq st;
     send_epoch_started_ms := send_epoch_started_ms st;
     send_packets_since_epoch := send_packets_since_epoch st;
     rx_slots := rx_slots st; key_cache := key_cache st;
     sync_rx_grace := sync_rx_grace st;
     sync_rx_grace_expires_at_ms := sync_rx_grace_expires_at_ms st;
     send_cipher_algorithm := send_cipher_algorithm st;
     recv_cipher_algorithm := recv_cipher_algorithm st;
     invalidated := inv; decrypt_fail_count := fails |}.

Definition EVICT_IDLE_AFTER_MS : Z := 30000.
Definition SYNC_RX_GRACE_AFTER_MS : Z := 5000.
Definition ROTATE_AFTER_PACKETS : Z := 1000000.
Definition ROTATE_AFTER_MS : Z := 10 * 60 * 1000.
Definition MAX_ACCEPTED_RX_EPOCH_AHEAD : Z := 3.
Definition DECRYPT_FAIL_THRESHOLD : Z := 10.

Inductive SessionError :=
  | SessionInvalidated
  | NoTail
  | ReplayRejected
  | EncryptAlgorithmNotSame
  | SessionCipherError (e : CipherError).

Definition session_new (key : list Z) (generation initial_epoch : Z)
    (send_alg recv_alg : string) (now_ms : Z) : Session :=
  {| root_key := key; session_generation := generation;
     send_epoch := initial_epoch; send_seq := (0, 0);
     send_epoch_started_ms := now_ms; send_packets_since_epoch := 0;
     rx_slots := ((rx_slot_default, rx_slot_default), (rx_slot_default, rx_slot_default));
     key_cache := ((key_slot_default, key_slot_default), (key_slot_default, key_slot_default));
     sync_rx_grace := grace_clear; sync_rx_grace_expires_at_ms := 0;
     send_cipher_algorithm := send_alg; recv_cipher_algorithm := recv_alg;
     invalidated := false; decrypt_fail_count := 0 |}.

Definition invalidate (st : Session) : Session := with_health st true (decrypt_fail_count st).
Definition is_valid (st : Session) : bool := negb (invalidated st).

Definition next_sync_epoch (st : Session) : Z :=
  let rx := rx_slots st in
  let step := fun m (s : EpochRxSlot) => if rx_valid s then Z.max m (rx_epoch s) else m in
  wrap 32 (step (step (step (step (send_epoch st) rx.1.1) rx.1.2) rx.2.1) rx.2.2 + 1).

Definition check_encrypt_algo_same (st : Session) (send_alg recv_alg : string)
    : result SessionError unit :=
  if negb (bool_decide (send_cipher_algorithm st = send_alg))
     || negb (bool_decide (recv_cipher_algorithm st = recv_alg))
  then Err EncryptAlgorithmNotSame else Ok tt.

(** [now1] and [now2] are the two clock readings. *)
Definition sync_root_key (st : Session) (key : list Z) (generation initial_epoch : Z)
    (preserve_rx_grace : bool) (now1 now2 : Z) : Session :=
  let can_preserve := preserve_rx_grace && bool_decide (root_key st = key) in
  let st := with_root st key generation in
  let st := with_send st initial_epoch (0, 0) now1 0 in
  let rx := rx_slots st in
  let '(g, g_exp) :=
    if can_preserve then
      let e := sat_add 64 now2 SYNC_RX_GRACE_AFTER_MS in (grace_refresh rx e, e)
    else (grace_clear, 0) in
  let st := with_rx st (map2 (map2 rx_slot_clear) rx) g g_exp in
  with_key_cache st ((key_slot_default, key_slot_default), (key_slot_default, key_slot_default)).

(** The early return of [maybe_rotate_epoch]. *)
Definition epoch_still_fresh (packets now_ms started : Z) : bool :=
  (packets <? ROTATE_AFTER_PACKETS) && (sat_sub now_ms started <? ROTATE_AFTER_MS).
Definition maybe_rotate_epoch (st : Session) (now_ms : Z) : Session :=
  let packets := wrap 64 (send_packets_since_epoch st + 1) in
  let st := with_send st (send_epoch st) (send_seq st) (send_epoch_started_ms st) packets in
  if epoch_still_fresh packets now_ms (send_epoch_started_ms st) then st
  else with_send st (wrap 32 (send_epoch st + 1)) (send_seq st) now_ms 0.

Definition make_nonce (epoch seq : Z) : list Z := be_encode 4 epoch ++ be_encode 8 seq.

Definition next_nonce (st : Session) (dir : SecureDatagramDirection) (now_ms : Z)
    : Session * (Z * Z * list Z) :=
  let st := maybe_rotate_epoch st now_ms in
  let epoch := send_epoch st in
  let seq := at_dir dir (send_seq st) in
  let st := with_send st epoch (put_dir dir (wrap 64 (seq + 1)) (send_seq st))
              (send_epoch_started_ms st) (send_packets_since_epoch st) in
  (st, (epoch, seq, make_nonce epoch seq)).

Definition parse_tail (payload : list Z) : option (list Z) :=
  match ref_from_suffix payload with
  | Some t => Some (nonce t)
  | None => None
  end.

Definition evict_slot (now_ms : Z) (s : EpochRxSlot) : EpochRxSlot :=
  if negb (rx_valid s) then s else
  if negb (last_rx_ms s =? 0) && (EVICT_IDLE_AFTER_MS <? sat_sub now_ms (last_rx_ms s))
  then rx_slot_clear s else s.
Definition evict_old_rx_slots (rx : RxSlots) (now_ms : Z) : RxSlots :=
  map2 (map2 (evict_slot now_ms)) rx.

Definition slot_has (s : EpochRxSlot) (epoch : Z) : bool := rx_valid s && (rx_epoch s =? epoch).
Definition epoch_in_slots (slots : two EpochRxSlot) (epoch : Z) : bool :=
  slot_has slots.1 epoch || slot_has slots.2 epoch.

Definition sync_rx_grace_active (st : Session) (now_ms : Z) : Session * bool :=
  let expires := sync_rx_grace_expires_at_ms st in
  if expires =? 0 then (st, false) else
  if now_ms <? expires then (st, true) else
  (with_rx st (rx_slots st) (sync_rx_grace st) 0, false).

Definition prune_slot (send_epoch : Z) (rx : two EpochRxSlot) (grace : option (two EpochRxSlot))
    (k : EpochKeySlot) : EpochKeySlot :=
  if negb (k_valid k) then k else
  let e := k_epoch k in
  let allowed := (e =? send_epoch) || slot_has rx.1 e || slot_has rx.2 e
    || match grace with Some g => epoch_in_slots g e | None => false end in
  if negb allowed then
    {| k_epoch := k_epoch k; k_generation := k_generation k; k_valid := false;
       send_cipher := send_cipher k; recv_cipher := recv_cipher k |}
  else k.
Definition prune_key_cache (st : Session) (rx : RxSlots) (grace : option SyncRxGrace) : Session :=
  let prune := fun d => map2 (prune_slot (send_epoch st) (at_dir d rx)
                                (at_dir d <$> (g_slots <$> grace))) (at_dir d (key_cache st)) in
  with_key_cache st (prune AToB, prune BToA).

(** The common head of [precheck_replay] and [commit_replay]: evict idle slots
    and take the grace slots if the grace period is running. *)
Definition open_slots (st : Session) (now_ms : Z) : Session * RxSlots * option SyncRxGrace :=
  let rx := evict_old_rx_slots (rx_slots st) now_ms in
  let st := with_rx st rx (sync_rx_grace st) (sync_rx_grace_expires_at_ms st) in
  let '(st, active) := sync_rx_grace_active st now_ms in
  if active : bool then
    let g := grace_maybe_expire (sync_rx_grace st) now_ms in
    if g_valid g then
      let g := grace_with_slots g (evict_old_rx_slots (g_slots g) now_ms) in
      (with_rx st rx g (sync_rx_grace_expires_at_ms st), rx, Some g)
    else (with_rx st rx g 0, rx, None)
  else (st, rx, None).

(** The newest epoch a new slot may have. *)
Definition max_allowed_epoch (st : Session) (slots : two EpochRxSlot) : Z :=
  let baseline := send_epoch st in
  let baseline := if rx_valid slots.1 then Z.max baseline (rx_epoch slots.1) else baseline in
  let baseline := if rx_valid slots.2 then Z.max baseline (rx_epoch slots.2) else baseline in
  sat_add 32 baseline MAX_ACCEPTED_RX_EPOCH_AHEAD.

Section replay.
Context {T : Target}.

Definition precheck_replay (st : Session) (epoch seq : Z) (dir : SecureDatagramDirection)
    (now_ms : Z) : comp (Session * bool) :=
  let '(st, rx, grace) := open_slots st now_ms in
  let slots := at_dir dir rx in
  let in_grace :=
    match grace with
    | Some g =>
      let gs := at_dir dir (g_slots g) in
      if slot_has gs.1 epoch then Some gs.1
      else if slot_has gs.2 epoch then Some gs.2 else None
    | None => None
    end in
  match in_grace with
  | Some slot => b ← can_accept (rx_window slot) seq; Ret (st, b)
  | None =>
    if negb (rx_valid slots.1) then Ret (st, true)
    else if slot_has slots.1 epoch then
      b ← can_accept (rx_window slots.1) seq; Ret (st, b)
    else if slot_has slots.2 epoch then
      b ← can_accept (rx_window slots.2) seq; Ret (st, b)
    else if rx_valid slots.1 && (rx_epoch slots.1 <? epoch) then
      if max_allowed_epoch st slots <? epoch then Ret (st, false) else Ret (st, true)
    else Ret (st, false)
  end.

Definition accept_slot (s : EpochRxSlot) (seq now_ms : Z) : comp (EpochRxSlot * bool) :=
  '(w, b) ← accept (rx_window s) seq;
  Ret (rx_slot_touch s now_ms w, b).

(** The branch of [commit_replay] outside the grace slots. *)
Definition commit_slots (st : Session) (slots : two EpochRxSlot) (epoch seq now_ms : Z)
    : comp (two EpochRxSlot * bool) :=
  let slots := if negb (rx_valid slots.1) then (rx_slot_new epoch now_ms, slots.2) else slots in
  if slot_has slots.1 epoch then
    '(s, b) ← accept_slot slots.1 seq now_ms; Ret ((s, slots.2), b)
  else if slot_has slots.2 epoch then
    '(s, b) ← accept_slot slots.2 seq now_ms; Ret ((slots.1, s), b)
  else if rx_valid slots.1 && (rx_epoch slots.1 <? epoch) then
    if max_allowed_epoch st slots <? epoch then Ret (slots, false) else
    let slots := (rx_slot_new epoch now_ms, slots.1) in
    '(s, b) ← accept_slot slots.1 seq now_ms; Ret ((s, slots.2), b)
  else Ret (slots, false).

Definition commit_replay (st : Session) (epoch seq : Z) (dir : SecureDatagramDirection)
    (now_ms : Z) : comp (Session * bool) :=
  let '(st, rx, grace) := open_slots st now_ms in
  let in_grace :=
    match grace with Some g => epoch_in_slots (at_dir dir (g_slots g)) epoch | None => false end in
  '(st, rx, grace, accepted) ←
    match grace, in_grace with
    | Some g, true =>
      let gs := at_dir dir (g_slots g) in
      '(gs, b) ←
        (if slot_has gs.1 epoch then '(s, b) ← accept_slot gs.1 seq now_ms; Ret ((s, gs.2), b)
         else '(s, b) ← accept_slot gs.2 seq now_ms; Ret ((gs.1, s), b));
      let g := grace_with_slots g (put_dir dir gs (g_slots g)) in
      Ret (with_rx st rx g (sync_rx_grace_expires_at_ms st), rx, Some g, b)
    | _, _ =>
      '(slots, b) ← commit_slots st (at_dir dir rx) epoch seq now_ms;
      let rx := put_dir dir slots rx in
      Ret (with_rx st rx (sync_rx_grace st) (sync_rx_grace_expires_at_ms st), rx, grace, b)
    end;
  Ret (prune_key_cache st rx grace, accepted).
End replay.

(** [hmac::Hmac<Sha256>]: key, message, 32-byte tag. *)
Class HmacLib := hmac_sha256 : list Z -> list Z -> list Z.

Section session.
Context {T : Target} {H : HmacLib} {L : CryptoLib} (f : Features).

(** The bytes of ["et-traffic"]. *)
Definition traffic_label : list Z := [101; 116; 45; 116; 114; 97; 102; 102; 105; 99].

Definition hkdf_traffic_key (key : list Z) (epoch : Z) (dir : SecureDatagramDirection)
    : list Z :=
  let salt := repeat 0 32 in
  let prk := hmac_sha256 salt key in
  let info := traffic_label ++ be_encode 4 epoch ++ [dir_idx dir] in
  take 32 (hmac_sha256 prk (info ++ [1])).

Definition key_slot_new (st : Session) (epoch generation : Z) (dir : SecureDatagramDirection)
    : EpochKeySlot :=
  let key := hkdf_traffic_key (root_key st) epoch dir in
  let key_128 := take 16 key in
  {| k_epoch := epoch; k_generation := generation; k_valid := true;
     send_cipher := Some (create_encryptor f (send_cipher_algorithm st) key_128 key);
     recv_cipher := Some (create_encryptor f (recv_cipher_algorithm st) key_128 key) |}.

Definition key_slot_matches (s : EpochKeySlot) (epoch generation : Z) : bool :=
  k_valid s && (k_epoch s =? epoch) && (k_generation s =? generation).

Definition get_or_create_encryptor (st : Session) (epoch : Z) (dir : SecureDatagramDirection)
    (generation : Z) (is_send : bool) : comp (Session * Encryptor) :=
  let slots := at_dir dir (key_cache st) in
  if key_slot_matches slots.1 epoch generation then
    e ← get_encryptor slots.1 is_send; Ret (st, e)
  else if key_slot_matches slots.2 epoch generation then
    e ← get_encryptor slots.2 is_send; Ret (st, e)
  else
    let slot := key_slot_new st epoch generation dir in
    ret ← get_encryptor slot is_send;
    let slots :=
      if negb (k_valid slots.1) || (k_epoch slots.1 =? epoch) then (slot, slots.2)
      else (slots.1, slot) in
    Ret (with_key_cache st (put_dir dir slots (key_cache st)), ret).

Definition encrypt_payload (st : Session) (dir : SecureDatagramDirection) (rng : list Z)
    (pkt : ZCPacket) (now_ms : Z) : comp (Session * ZCPacket * result SessionError unit) :=
  if negb (is_valid st) then Ret (st, pkt, Err SessionInvalidated) else
  let '(st, (epoch, _, nonce_bytes)) := next_nonce st dir now_ms in
  '(st, encryptor) ← get_or_create_encryptor st epoch dir (session_generation st) true;
  '(pkt, r) ← e_encrypt_with_nonce encryptor rng pkt (Some nonce_bytes);
  match r with
  | Err e => Ret (invalidate st, pkt, Err (SessionCipherError e))
  | Ok _ => Ret (st, pkt, Ok tt)
  end.

(** [nonce_bytes[..4]] and [nonce_bytes[4..]] as big-endian integers. *)
Definition nonce_epoch (n : list Z) : Z := be_decode (take 4 n).
Definition nonce_seq (n : list Z) : Z := be_decode (drop 4 n).

Definition decrypt_payload (st : Session) (dir : SecureDatagramDirection) (pkt : ZCPacket)
    (now_ms : Z) : comp (Session * ZCPacket * result SessionError unit) :=
  if negb (is_valid st) then Ret (st, pkt, Err SessionInvalidated) else
  s ← payload pkt;
  match parse_tail s with
  | None => Ret (st, pkt, Err NoTail)
  | Some nonce_bytes =>
    let epoch := nonce_epoch nonce_bytes in
    let seq := nonce_seq nonce_bytes in
    '(st, ok) ← precheck_replay st epoch seq dir now_ms;
    if negb ok then Ret (st, pkt, Err ReplayRejected) else
    '(st, encryptor) ← get_or_create_encryptor st epoch dir (session_generation st) false;
    '(pkt, r) ← e_decrypt encryptor pkt;
    match r with
    | Err e =>
      let count := wrap 32 (decrypt_fail_count st + 1) in
      let st := with_health st (invalidated st) count in
      let st := if DECRYPT_FAIL_THRESHOLD <=? count then invalidate st else st in
      Ret (st, pkt, Err (SessionCipherError e))
    | Ok _ =>
      let st := with_health st (invalidated st) 0 in
      '(st, ok) ← commit_replay st epoch seq dir now_ms;
      if negb ok then Ret (st, pkt, Err ReplayRejected) else Ret (st, pkt, Ok tt)
    end
  end.
End session.

(** ** Lemmas *)

Lemma at_put_dir {A} d (a : A) t : at_dir d (put_dir d a t) = a.
Proof. by destruct d. Qed.
Lemma at_put_other {A} d d' (a : A) t : d <> d' -> at_dir d' (put_dir d a t) = at_dir d' t.
Proof. by destruct d, d'. Qed.
Lemma at_map2 {A B} d (g : A -> B) t : at_dir d (map2 g t) = g (at_dir d t).
Proof. by destruct d. Qed.

(** *** Nonces *)

Lemma make_nonce_ok epoch seq : nonce_ok (make_nonce epoch seq).
Proof.
  split; [done|]. unfold make_nonce. apply Forall_app. split; apply be_encode_ok.
Qed.

Lemma nonce_epoch_make epoch seq : u32 epoch -> nonce_epoch (make_nonce epoch seq) = epoch.
Proof.
  intros. unfold nonce_epoch, make_nonce. rewrite take_app_length' by done.
  by apply be_decode_encode.
Qed.

Lemma nonce_seq_make epoch seq : u64 seq -> nonce_seq (make_nonce epoch seq) = seq.
Proof.
  intros. unfold nonce_seq, make_nonce. rewrite drop_app_length' by done.
  by apply be_decode_encode.
Qed.

Lemma parse_tail_app ct tg n : length tg = 16%nat -> bytes_ok tg -> nonce_ok n ->
  parse_tail (ct ++ StandardAeadTail_as_bytes {| tag := tg; nonce := n |}) = Some n.
Proof.
  intros Ht Hb [Hn Hnb]. unfold parse_tail.
  assert (ref_from_suffix (ct ++ StandardAeadTail_as_bytes {| tag := tg; nonce := n |}) =
    Some {| tag := tg; nonce := n |}) as ->; [|done].
  refine (ref_from_suffix_encode (T:=StandardAeadTail) {| tag := tg; nonce := n |} ct _).
  by split.
Qed.

(** *** The receive windows *)

Section receive.
Context {T : Target} (H64 : 64 <= usize_bits).

Definition win_ok (w : ReplayWindow256) : Prop :=
  exists seen, window_rel w seen /\ seen_in_span 0 seen.
Definition slots_ok (t : two EpochRxSlot) : Prop :=
  win_ok (rx_window t.1) /\ win_ok (rx_window t.2).
Definition all_slots_ok (rx : RxSlots) : Prop := slots_ok rx.1 /\ slots_ok rx.2.

(** A refused number, as the window sees it. *)
Definition refused (w : ReplayWindow256) (s : Z) : Prop := can_accept w s = Ret false.

Lemma u64_in_span s : u64 s -> in_span 0 s.
Proof using H64.
  intros [? ?]. split; [done|]. assert (2 ^ 64 <= 2 ^ usize_bits) by (apply Z.pow_le_mono_r; lia).
  lia.
Qed.

Lemma win_default_ok : win_ok window_default.
Proof. exists []. split; [exact window_default_rel|constructor]. Qed.
Lemma win_clear_ok w : win_ok w -> win_ok (window_clear w).
Proof. intros (seen & [] & _). exists []. split; [by apply window_clear_rel|constructor]. Qed.

(** What one [accept] does to a well-formed window. *)
Lemma win_accept w s : win_ok w -> u64 s ->
  exists w' b, accept w s = Ret (w', b) /\ can_accept w s = Ret b /\ win_ok w' /\
    (b = true -> refused w' s) /\ (forall x, u64 x -> refused w x -> refused w' x).
Proof using H64.
  intros (seen & HR & Hsp) Hs. apply u64_in_span in Hs.
  destruct (accept_refines 0 w seen s HR Hsp Hs) as (w' & E & HR').
  pose proof (spec_accept_span 0 seen s Hsp Hs) as Hsp'.
  assert (Hca : forall x, u64 x -> can_accept w' x = Ret (spec_accepts (spec_accept seen s).1 x))
    by (intros x Hx; by apply (can_accept_refines 0); [..|by apply u64_in_span]).
  exists w', (spec_accepts seen s). unfold refused.
  rewrite (can_accept_refines 0 w seen s) by done. split_and!; [|done|by eexists|..].
  - rewrite E. unfold spec_accept. by case_match.
  - intros Hb. rewrite (can_accept_refines 0 w' _ s HR' Hsp' Hs). unfold spec_accept.
    rewrite Hb. cbn. f_equal. apply spec_accepted_refused.
  - intros x Hx. rewrite (can_accept_refines 0 w seen x) by (done || by apply u64_in_span).
    intros [= Hf]. rewrite Hca by done. f_equal. unfold spec_accept.
    case_match; [by apply spec_refused_stable|done].
Qed.

Lemma evict_slot_ok now s : win_ok (rx_window s) -> win_ok (rx_window (evict_slot now s)).
Proof. unfold evict_slot. intros. repeat case_match; [done|by apply win_clear_ok|done]. Qed.
Lemma evict_all_ok rx now : all_slots_ok rx -> all_slots_ok (evict_old_rx_slots rx now).
Proof. intros [[] []]. split; split; by apply evict_slot_ok. Qed.

Lemma accept_slot_ok s seq now : win_ok (rx_window s) -> u64 seq ->
  exists s' b, accept_slot s seq now = Ret (s', b) /\ win_ok (rx_window s') /\
    rx_epoch s' = rx_epoch s /\ rx_valid s' = rx_valid s /\ last_rx_ms s' = now /\
    can_accept (rx_window s) seq = Ret b /\
    (b = true -> refused (rx_window s') seq) /\
    (forall x, u64 x -> refused (rx_window s) x -> refused (rx_window s') x).
Proof using H64.
  intros Hw Hs. destruct (win_accept _ _ Hw Hs) as (w' & b & E & Ec & Hw' & Hb & Hst).
  exists (rx_slot_touch s now w'), b. unfold accept_slot. rewrite E. by split_and!.
Qed.

(** Both functions only move the receive side of the session. *)
Definition rx_inv (st : Session) : Prop :=
  all_slots_ok (rx_slots st) /\ all_slots_ok (g_slots (sync_rx_grace st)).

Lemma grace_clear_ok : all_slots_ok (g_slots grace_clear).
Proof. repeat split; apply win_default_ok. Qed.

Lemma open_slots_form st now : rx_inv st ->
  exists g e og, open_slots st now =
      (with_rx st (evict_old_rx_slots (rx_slots st) now) g e,
       evict_old_rx_slots (rx_slots st) now, og) /\
    all_slots_ok (g_slots g) /\ (og = None \/ og = Some g) /\
    (sync_rx_grace_expires_at_ms st = 0 -> og = None /\ e = 0 /\ g = sync_rx_grace st).
Proof.
  intros [_ Hg]. unfold open_slots, sync_rx_grace_active, grace_maybe_expire.
  cbn [sync_rx_grace_expires_at_ms with_rx sync_rx_grace rx_slots].
  destruct (Z.eqb_spec (sync_rx_grace_expires_at_ms st) 0) as [E|E]; [|destruct (now <? _)]; cbn [sync_rx_grace with_rx].
  - eexists _, _, _. split; [reflexivity|]. split_and!; auto.
  - destruct (g_valid (sync_rx_grace st) && _) eqn:Ev; cbn [g_valid grace_clear].
    + eexists _, _, _. split; [reflexivity|]. by split_and!; [apply grace_clear_ok|left|].
    + destruct (g_valid (sync_rx_grace st));
        (eexists _, _, _; split; [reflexivity|]); split_and!; auto; try done.
      by apply evict_all_ok.
  - eexists _, _, _. split; [reflexivity|]. by split_and!; [|left|].
Qed.

Lemma at_dir_slots rx d : all_slots_ok rx -> slots_ok (at_dir d rx).
Proof. by destruct d; intros []. Qed.
Lemma put_dir_slots rx d t : all_slots_ok rx -> slots_ok t -> all_slots_ok (put_dir d t rx).
Proof. by destruct d; intros [] ?; split. Qed.

Lemma win_can_accept w s : win_ok w -> u64 s -> exists b, can_accept w s = Ret b.
Proof using H64. intros Hw Hs. destruct (win_accept w s Hw Hs) as (w' & b & _ & E & _). eauto. Qed.

Lemma precheck_form st epoch seq dir now : rx_inv st -> u64 seq ->
  exists g e b, precheck_replay st epoch seq dir now =
      Ret (with_rx st (evict_old_rx_slots (rx_slots st) now) g e, b) /\
    all_slots_ok (g_slots g) /\
    (sync_rx_grace_expires_at_ms st = 0 -> e = 0 /\ g = sync_rx_grace st).
Proof using H64.
  intros Hr Hs. destruct (open_slots_form st now Hr) as (g & e & og & E & Hg & Hog & Hz).
  assert (Hz' : sync_rx_grace_expires_at_ms st = 0 -> e = 0 /\ g = sync_rx_grace st)
    by (intros; by destruct Hz as (_ & ? & ?)). clear Hz.
  unfold precheck_replay. rewrite E.
  pose proof (at_dir_slots _ dir (evict_all_ok _ now (proj1 Hr))) as [H1 H2].
  pose proof (at_dir_slots _ dir Hg) as [H3 H4].
  set (ing := match og with Some _ => _ | None => None end).
  assert (Hing : forall s, ing = Some s -> win_ok (rx_window s)).
  { intros s. unfold ing. destruct Hog as [-> | ->]; [done|].
    repeat case_match; intros; by simplify_eq. }
  destruct ing as [s|].
  { destruct (win_can_accept _ seq (Hing _ eq_refl) Hs) as [b Eb]. rewrite Eb.
    eexists _, _, _. split; [reflexivity|]. by split. }
  destruct (win_can_accept _ seq H1 Hs) as [b1 Eb1].
  destruct (win_can_accept _ seq H2 Hs) as [b2 Eb2]. rewrite Eb1, Eb2.
  repeat case_match; (eexists _, _, _; split; [reflexivity|]); by split.
Qed.

Lemma commit_slots_ok st t epoch seq now : slots_ok t -> u64 seq ->
  exists t' b, commit_slots st t epoch seq now = Ret (t', b) /\ slots_ok t'.
Proof using H64.
  intros [H1 H2] Hs. unfold commit_slots. set (t1 := if negb _ then _ else t).
  assert (slots_ok t1) as [H3 H4].
  { unfold t1. case_match; split; try done. apply win_default_ok. }
  destruct (accept_slot_ok t1.1 seq now H3 Hs) as (s1 & b1 & E1 & ? & _).
  destruct (accept_slot_ok t1.2 seq now H4 Hs) as (s2 & b2 & E2 & ? & _).
  destruct (accept_slot_ok (rx_slot_new epoch now) seq now win_default_ok Hs)
    as (s3 & b3 & E3 & ? & _).
  cbn [fst snd]. rewrite E1, E2, E3.
  repeat case_match; (eexists _, _; split; [reflexivity|]); by split.
Qed.

Lemma commit_form st epoch seq dir now : rx_inv st -> u64 seq ->
  exists rx g e og b, commit_replay st epoch seq dir now =
      Ret (prune_key_cache (with_rx st rx g e) rx og, b) /\
    all_slots_ok rx /\ all_slots_ok (g_slots g).
Proof using H64.
  intros Hr Hs. destruct (open_slots_form st now Hr) as (g & e & og & E & Hg & Hog & _).
  unfold commit_replay. rewrite E.
  pose proof (evict_all_ok _ now (proj1 Hr)) as Hrx.
  destruct (commit_slots_ok (with_rx st (evict_old_rx_slots (rx_slots st) now) g e) _ epoch seq now
    (at_dir_slots _ dir Hrx) Hs) as (t' & b & Ec & Ht'). rewrite Ec.
  destruct Hog as [-> | ->]; cbn [mbind comp_bind].
  { eexists _, _, _, _, _. split; [reflexivity|]. split; [by apply put_dir_slots|done]. }
  pose proof (at_dir_slots _ dir Hg) as [H1 H2].
  destruct (accept_slot_ok _ seq now H1 Hs) as (s1 & b1 & E1 & ? & _).
  destruct (accept_slot_ok _ seq now H2 Hs) as (s2 & b2 & E2 & ? & _). rewrite E1, E2.
  repeat case_match; cbn in *; simplify_eq;
    (eexists _, _, _, _, _; split; [reflexivity|]); split; try done;
    by apply put_dir_slots.
Qed.
End receive.

(** *** The key cache *)

Section cache.
Context {T : Target} {H : HmacLib} {L : CryptoLib} (f : Features).

(** The cipher the session's root key prescribes. *)
Definition cipher_for (st : Session) (epoch : Z) (dir : SecureDatagramDirection)
    (is_send : bool) : Encryptor :=
  let key := hkdf_traffic_key (root_key st) epoch dir in
  create_encryptor f (if is_send then send_cipher_algorithm st else recv_cipher_algorithm st)
    (take 16 key) key.

Definition key_slot_ok (st : Session) (dir : SecureDatagramDirection) (k : EpochKeySlot) : Prop :=
  k_valid k = true ->
  send_cipher k = Some (cipher_for st (k_epoch k) dir true) /\
  recv_cipher k = Some (cipher_for st (k_epoch k) dir false).
Definition cache_ok (st : Session) : Prop := forall dir,
  key_slot_ok st dir (at_dir dir (key_cache st)).1 /\
  key_slot_ok st dir (at_dir dir (key_cache st)).2.

Lemma get_encryptor_ok st dir k is_send :
  key_slot_ok st dir k -> k_valid k = true ->
  get_encryptor k is_send = Ret (cipher_for st (k_epoch k) dir is_send).
Proof.
  intros Hk Hv. destruct (Hk Hv) as [E1 E2]. unfold get_encryptor. by destruct is_send; rewrite ?E1, ?E2.
Qed.

Lemma key_slot_new_ok st epoch generation dir :
  key_slot_ok st dir (key_slot_new f st epoch generation dir).
Proof. by intros _. Qed.

Lemma get_or_create_ok st epoch dir generation is_send :
  cache_ok st ->
  exists kc, get_or_create_encryptor f st epoch dir generation is_send =
      Ret (with_key_cache st kc, cipher_for st epoch dir is_send) /\
    cache_ok (with_key_cache st kc).
Proof.
  intros Hc. destruct (Hc dir) as [H1 H2]. unfold get_or_create_encryptor, key_slot_matches.
  assert (Hid : st = with_key_cache st (key_cache st)) by (by destruct st).
  destruct (k_valid (at_dir dir (key_cache st)).1 && _ && _) eqn:E1; bools.
  { rewrite (get_encryptor_ok st dir) by done. exists (key_cache st). by rewrite <- Hid; subst. }
  destruct (k_valid (at_dir dir (key_cache st)).2 && _ && _) eqn:E2; bools.
  { rewrite (get_encryptor_ok st dir) by done. exists (key_cache st). by rewrite <- Hid; subst. }
  rewrite (get_encryptor_ok st dir) by (done || apply key_slot_new_ok). cbn [mbind comp_bind].
  eexists. split; [reflexivity|]. intros d. cbn [key_cache with_key_cache].
  destruct (decide (d = dir)) as [->|Hne].
  - rewrite at_put_dir. case_match; split; done || apply key_slot_new_ok.
  - rewrite at_put_other by done. apply Hc.
Qed.

Lemma prune_slot_ok st se rx g dir k : key_slot_ok st dir k -> key_slot_ok st dir (prune_slot se rx g k).
Proof. unfold prune_slot. intros Hk. by repeat case_match. Qed.

Lemma prune_ok st rx og : cache_ok st -> cache_ok (prune_key_cache st rx og).
Proof.
  intros Hc d. destruct (Hc d) as [H1 H2]. destruct d; split; by apply prune_slot_ok.
Qed.
End cache.

(** *** The session invariant *)

Section invariant.
Context {T : Target} (H64 : 64 <= usize_bits) {H : HmacLib} {L : CryptoLib} (f : Features).

Record session_ok (st : Session) : Prop := {
  so_cache : cache_ok f st;
  so_rx : rx_inv st;
  so_epoch : u32 (send_epoch st);
  so_seq : u64 (send_seq st).1 /\ u64 (send_seq st).2;
  so_fails : 0 <= decrypt_fail_count st /\
    (invalidated st = false -> decrypt_fail_count st < DECRYPT_FAIL_THRESHOLD) }.

Lemma session_ok_seq st dir : session_ok st -> u64 (at_dir dir (send_seq st)).
Proof. intros [_ _ _ [? ?] _]. by destruct dir. Qed.

Lemma session_new_ok key g e sa ra now : u32 e -> session_ok (session_new key g e sa ra now).
Proof.
  intros He. split; cbn.
  - by intros []; split; intros ?.
  - split; exact grace_clear_ok.
  - done.
  - by split.
  - unfold DECRYPT_FAIL_THRESHOLD. lia.
Qed.

Lemma invalidate_ok st : session_ok st -> session_ok (invalidate st).
Proof. intros []. split; try done. by destruct so_fails0. Qed.

Lemma sync_root_key_ok st key g e preserve now1 now2 :
  u32 e -> session_ok st -> session_ok (sync_root_key st key g e preserve now1 now2).
Proof.
  intros He [Hc [Hr Hg] _ _ Hf]. unfold sync_root_key.
  destruct (if preserve && _ then _ else _) as [gr g_exp] eqn:E. split; cbn.
  - by intros []; split; intros ?.
  - destruct Hr as [[] []]. split; cbn.
    + repeat split; by apply win_clear_ok.
    + revert E. case_match; intros; simplify_eq; [done|exact grace_clear_ok].
  - done.
  - by split.
  - done.
Qed.

Lemma maybe_rotate_ok st now : session_ok st -> session_ok (maybe_rotate_epoch st now).
Proof.
  intros [Hc Hr He Hs Hf]. unfold maybe_rotate_epoch. case_match; split; try done; cbn.
  by apply wrap_range.
Qed.

Lemma next_nonce_ok st dir now st' e s n :
  session_ok st -> next_nonce st dir now = (st', (e, s, n)) ->
  session_ok st' /\ u32 e /\ u64 s /\ n = make_nonce e s /\ e = send_epoch st' /\
  s = at_dir dir (send_seq st) /\ at_dir dir (send_seq st') = wrap 64 (s + 1) /\
  (e = send_epoch st \/ e = wrap 32 (send_epoch st + 1)) /\
  root_key st' = root_key st /\ session_generation st' = session_generation st /\
  send_cipher_algorithm st' = send_cipher_algorithm st /\
  recv_cipher_algorithm st' = recv_cipher_algorithm st.
Proof.
  intros Hok. pose proof (maybe_rotate_ok st now Hok) as Hok1. unfold next_nonce.
  assert (Hsame : send_seq (maybe_rotate_epoch st now) = send_seq st /\
    root_key (maybe_rotate_epoch st now) = root_key st /\
    session_generation (maybe_rotate_epoch st now) = session_generation st /\
    send_cipher_algorithm (maybe_rotate_epoch st now) = send_cipher_algorithm st /\
    recv_cipher_algorithm (maybe_rotate_epoch st now) = recv_cipher_algorithm st /\
    (send_epoch (maybe_rotate_epoch st now) = send_epoch st \/
     send_epoch (maybe_rotate_epoch st now) = wrap 32 (send_epoch st + 1))).
  { unfold maybe_rotate_epoch. case_match; cbn; split_and!; auto. }
  destruct Hsame as (Es & Er & Eg & Ea & Eb & Ee).
  destruct (maybe_rotate_epoch st now) as [] eqn:Em. rewrite <- Em in *.
  intros [= <- <- <- <-]. cbn [send_epoch with_send send_seq root_key session_generation
    send_cipher_algorithm recv_cipher_algorithm].
  split.
  { destruct Hok1 as [Hc Hr He [Hs1 Hs2] Hf]. split; try done.
    cbn. destruct dir; cbn; split; try done; by apply wrap_range. }
  split_and!; try done; try apply Hok1; try (by apply session_ok_seq); try (by rewrite Es).
  by rewrite at_put_dir.
Qed.

Lemma encrypt_payload_ok st dir rng p now st' p' r :
  session_ok st -> encrypt_payload f st dir rng p now = Ret (st', p', r) -> session_ok st'.
Proof.
  intros Hok. unfold encrypt_payload. destruct (negb (is_valid st)); [by intros [= <- _ _]|].
  destruct (next_nonce st dir now) as [st1 [[e s] n]] eqn:En.
  destruct (next_nonce_ok _ _ _ _ _ _ _ Hok En) as (Hok1 & _).
  destruct (get_or_create_ok f st1 e dir (session_generation st1) true) as (kc & -> & Hc);
    [apply Hok1|]. cbn [mbind comp_bind].
  assert (session_ok (with_key_cache st1 kc)) by (destruct Hok1; by split).
  destruct (e_encrypt_with_nonce _ _ _ _) as [[p2 [|err]]|]; intros [= <- _ _]; [done|].
  by apply invalidate_ok.
Qed.

Lemma count_failure_ok st :
  session_ok st ->
  session_ok (let count := wrap 32 (decrypt_fail_count st + 1) in
              let st := with_health st (invalidated st) count in
              if DECRYPT_FAIL_THRESHOLD <=? count then invalidate st else st).
Proof.
  intros [Hc Hr He Hs [Hf1 Hf2]]. cbv zeta.
  assert (0 <= wrap 32 (decrypt_fail_count st + 1)) by (apply wrap_range; lia).
  case_match; bools; split; try done.
Qed.
End invariant.

(** *** One delivery *)

Lemma payload_bytes_ok p s : bytes_ok (inner p) -> payload p = Ret s -> bytes_ok s.
Proof.
  intros Hb. unfold payload, slice_from, get_from. case_match; [|done].
  intros [= <-]. by apply Forall_drop.
Qed.

Lemma parse_tail_nonce_ok s n : bytes_ok s -> parse_tail s = Some n -> nonce_ok n.
Proof.
  intros Hs. unfold parse_tail. destruct (ref_from_suffix s) as [t|] eqn:E; [|done].
  intros [= <-]. apply ref_from_suffix_wf in E; [|done]. by destruct E.
Qed.

Lemma nonce_seq_u64 n : nonce_ok n -> u64 (nonce_seq n).
Proof.
  intros [Hl Hb]. unfold nonce_seq.
  pose proof (be_decode_range (drop 4 n) (Forall_drop _ _ _ Hb)) as Hr.
  unfold len in Hr. rewrite length_drop, Hl in Hr. exact Hr.
Qed.

Section delivery.
Context {T : Target} (H64 : 64 <= usize_bits) {H : HmacLib} {L : CryptoLib} (f : Features).
Abbreviation decrypt := (decrypt_payload f).

Lemma session_ok_rx st rx g e : session_ok f st -> all_slots_ok rx -> all_slots_ok (g_slots g) ->
  session_ok f (with_rx st rx g e).
Proof. intros [] ? ?. by split. Qed.

Lemma precheck_ok st epoch seq dir now st' b :
  session_ok f st -> u64 seq -> precheck_replay st epoch seq dir now = Ret (st', b) ->
  session_ok f st'.
Proof using H64.
  intros Hok Hs. destruct (precheck_form H64 st epoch seq dir now) as (g & e & b' & E & Hg & _);
    [apply Hok|done|]. rewrite E. intros [= <- _].
  apply session_ok_rx; [done| |done]. apply evict_all_ok, Hok.
Qed.

Lemma commit_ok st epoch seq dir now :
  session_ok f st -> u64 seq ->
  exists st' b, commit_replay st epoch seq dir now = Ret (st', b) /\ session_ok f st'.
Proof using H64.
  intros Hok Hs. destruct (commit_form H64 st epoch seq dir now) as (rx & g & e & og & b & E & Hrx & Hg);
    [apply Hok|done|]. eexists _, _. split; [exact E|].
  assert (session_ok f (with_rx st rx g e)) as [Hc Hr He Hq Hf] by (by apply session_ok_rx).
  split; try done. by apply prune_ok.
Qed.

(** [decrypt_payload] on a packet whose tail carries nonce [n], by cases. *)
Lemma decrypt_cases st dir p s n now :
  session_ok f st -> is_valid st = true -> payload p = Ret s -> nonce_ok n ->
  parse_tail s = Some n ->
  exists st1 b, precheck_replay st (nonce_epoch n) (nonce_seq n) dir now = Ret (st1, b) /\
  session_ok f st1 /\
  if b : bool then
    exists kc, let st2 := with_key_cache st1 kc in session_ok f st2 /\
    match e_decrypt (cipher_for f st (nonce_epoch n) dir false) p with
    | Panic => decrypt st dir p now = Panic
    | Ret (p', Err e) => exists st', decrypt st dir p now = Ret (st', p', Err (SessionCipherError e)) /\
        session_ok f st'
    | Ret (p', Ok _) => exists st' b',
        commit_replay (with_health st2 (invalidated st2) 0) (nonce_epoch n) (nonce_seq n) dir now =
          Ret (st', b') /\ session_ok f st' /\
        decrypt st dir p now = Ret (st', p', if b' : bool then Ok tt else Err ReplayRejected)
    end
  else decrypt st dir p now = Ret (st1, p, Err ReplayRejected).
Proof using H64.
  intros Hok Hv Hp Hn Ht. pose proof (nonce_seq_u64 n Hn) as Hu.
  destruct (precheck_form H64 st (nonce_epoch n) (nonce_seq n) dir now) as (g & e & b & E & Hg & _);
    [apply Hok|done|]. eexists _, _. split; [exact E|].
  pose proof (precheck_ok _ _ _ _ _ _ _ Hok Hu E) as Hok1. split; [done|].
  unfold decrypt_payload. rewrite Hv, Hp. cbn [negb mbind comp_bind]. rewrite Ht. cbv zeta.
  rewrite E. cbn [negb mbind comp_bind].
  destruct b; cbn [negb]; [|done].
  match type of Hok1 with session_ok _ ?s => set (st1 := s) in * end.
  destruct (get_or_create_ok f st1 (nonce_epoch n) dir (session_generation st1) false)
    as (kc & E2 & Hc); [apply Hok1|].
  exists kc. cbv zeta. assert (Hok2 : session_ok f (with_key_cache st1 kc)) by (destruct Hok1; by split).
  split; [done|]. rewrite E2. cbn [mbind comp_bind].
  change (cipher_for f st1 (nonce_epoch n) dir false) with (cipher_for f st (nonce_epoch n) dir false).
  destruct (e_decrypt _ p) as [[p' [u|err]]|]; [| |done].
  - assert (Hok3 : session_ok f (with_health (with_key_cache st1 kc) (invalidated (with_key_cache st1 kc)) 0)).
    { destruct Hok2. by split. }
    destruct (commit_ok _ (nonce_epoch n) (nonce_seq n) dir now Hok3 Hu) as (st' & b' & E3 & Hok').
    exists st', b'. split_and!; [done..|]. rewrite E3. cbn [mbind comp_bind]. by destruct b'.
  - eexists. split; [reflexivity|]. by apply count_failure_ok.
Qed.

(** [precheck_replay] and [commit_replay] decide alike. *)
Lemma evict_slot_idem now s : evict_slot now (evict_slot now s) = evict_slot now s.
Proof.
  unfold evict_slot. destruct (rx_valid s) eqn:E1; cbn [negb]; [|by rewrite E1].
  destruct (negb (last_rx_ms s =? 0) && _) eqn:E2; [done|]. by rewrite E1, E2.
Qed.
Lemma evict_all_idem now rx :
  evict_old_rx_slots (evict_old_rx_slots rx now) now = evict_old_rx_slots rx now.
Proof. unfold evict_old_rx_slots, map2; cbn. by rewrite !evict_slot_idem. Qed.

Lemma open_slots_idem st now st1 rx og kc fails :
  open_slots st now = (st1, rx, og) ->
  open_slots (with_health (with_key_cache st1 kc) (invalidated st1) fails) now =
    (with_health (with_key_cache st1 kc) (invalidated st1) fails, rx, og).
Proof.
  unfold open_slots, sync_rx_grace_active, grace_maybe_expire. cbn.
  destruct (sync_rx_grace_expires_at_ms st =? 0) eqn:E0;
    [|destruct (now <? sync_rx_grace_expires_at_ms st) eqn:E1; cbn;
      [destruct (g_valid (sync_rx_grace st)) eqn:E2; cbn;
       [destruct (expires_at_ms (sync_rx_grace st) <=? now) eqn:E3; cbn; rewrite ?E2; cbn|]|]];
    rewrite ?E2; intros; simplify_eq; cbn; rewrite ?E0, ?E1, ?E2, ?E3; cbn;
    rewrite ?E2; cbn; rewrite ?E3; cbn; rewrite ?E2; cbn; by rewrite ?evict_all_idem.
Qed.

Lemma commit_agrees st epoch seq dir now rx og b :
  rx_inv st -> u64 seq -> open_slots st now = (st, rx, og) ->
  precheck_replay st epoch seq dir now = Ret (st, b) ->
  exists st', commit_replay st epoch seq dir now = Ret (st', b).
Proof using H64.
  intros Hr Hs E. destruct (open_slots_form st now Hr) as (g & e & og' & E' & Hg & Hog & _).
  pose proof (at_dir_slots _ dir (evict_all_ok _ now (proj1 Hr))) as [H1 H2].
  pose proof (at_dir_slots _ dir Hg) as [H3 H4].
  rewrite E in E'. injection E' as Est -> ->. unfold precheck_replay, commit_replay. rewrite E.
  set (t := at_dir dir (evict_old_rx_slots (rx_slots st) now)) in *.
  set (gs := at_dir dir (g_slots g)) in *.
  destruct (accept_slot_ok H64 _ seq now H1 Hs) as (s1 & b1 & A1 & _ & _ & _ & _ & C1 & _).
  destruct (accept_slot_ok H64 _ seq now H2 Hs) as (s2 & b2 & A2 & _ & _ & _ & _ & C2 & _).
  destruct (accept_slot_ok H64 _ seq now H3 Hs) as (s3 & b3 & A3 & _ & _ & _ & _ & C3 & _).
  destruct (accept_slot_ok H64 _ seq now H4 Hs) as (s4 & b4 & A4 & _ & _ & _ & _ & C4 & _).
  destruct (accept_slot_ok H64 (rx_slot_new epoch now) seq now win_default_ok Hs)
    as (s5 & b5 & A5 & _ & _ & _ & _ & C5 & _).
  assert (b5 = true) as -> by (by injection C5).
  assert (Hsl : (if negb (rx_valid t.1) then Ret (st, true)
    else if slot_has t.1 epoch then b ← can_accept (rx_window t.1) seq; Ret (st, b)
    else if slot_has t.2 epoch then b ← can_accept (rx_window t.2) seq; Ret (st, b)
    else if rx_valid t.1 && (rx_epoch t.1 <? epoch) then
      if max_allowed_epoch st t <? epoch then Ret (st, false) else Ret (st, true)
    else Ret (st, false)) = Ret (st, b) ->
    exists t', commit_slots st t epoch seq now = Ret (t', b)).
  { unfold commit_slots. destruct (rx_valid t.1) eqn:Ev; cbn [negb].
    - rewrite C1, C2, A1, A2. cbn [mbind comp_bind fst]. rewrite Ev, A5.
      repeat case_match; intros; simplify_eq/=; eauto.
    - intros [= <-]. cbn [fst snd]. unfold slot_has at 1. cbn [rx_valid rx_epoch rx_slot_new].
      rewrite Z.eqb_refl. cbn [andb]. rewrite A5. cbn. eauto. }
  destruct Hog as [-> | ->].
  - intros Hb. destruct (Hsl Hb) as [t' ->]. cbn. eauto.
  - fold gs. unfold epoch_in_slots.
    destruct (slot_has gs.1 epoch); cbn [orb]; [rewrite C3, A3; cbn; intros; simplify_eq; eauto|].
    destruct (slot_has gs.2 epoch); cbn [orb]; [rewrite C4, A4; cbn; intros; simplify_eq; eauto|].
    intros Hb. destruct (Hsl Hb) as [t' ->]. cbn. eauto.
Qed.
End delivery.

(** *** Replays *)

(** [(e, s)] has been accepted and the slots [t] remember it. *)
Definition guarded `{Target} (t : two EpochRxSlot) (e s : Z) : Prop :=
  rx_valid t.1 = true /\ e <= rx_epoch t.1 /\
  (e = rx_epoch t.1 -> refused (rx_window t.1) s) /\
  (e <> rx_epoch t.1 -> slot_has t.2 e = true -> refused (rx_window t.2) s).

(** The older slot is only in use behind a newer one. *)
Definition ordered (t : two EpochRxSlot) : Prop :=
  rx_valid t.2 = true -> rx_valid t.1 = true /\ rx_epoch t.2 < rx_epoch t.1.

(** No slot has been idle long enough to be recycled. *)
Definition no_idle_slot (st : Session) (now_ms : Z) : Prop :=
  evict_old_rx_slots (rx_slots st) now_ms = rx_slots st.

Section replays.
Context {T : Target} (H64 : 64 <= usize_bits) {H : HmacLib} {L : CryptoLib} (f : Features).

Lemma slot_has_spec s e : slot_has s e = true <-> rx_valid s = true /\ rx_epoch s = e.
Proof. unfold slot_has. by rewrite andb_true_iff, Z.eqb_eq. Qed.

Lemma refused_not_true s seq now : win_ok (rx_window s) -> u64 seq -> refused (rx_window s) seq ->
  forall s', accept_slot s seq now <> Ret (s', true).
Proof using H64.
  intros Hw Hs Hr s' E. destruct (accept_slot_ok H64 s seq now Hw Hs) as (s2 & b & E2 & _ & _ & _ & _ & C & _).
  unfold refused in Hr. congruence.
Qed.

(** A remembered pair is not accepted again. *)
Lemma guarded_rejected st t e s now t' :
  slots_ok t -> u64 s -> guarded t e s -> commit_slots st t e s now <> Ret (t', true).
Proof using H64.
  intros [H1 H2] Hs (Hv & Hle & Hcur & Hprev). unfold commit_slots. rewrite Hv; cbn [negb].
  destruct (slot_has t.1 e) eqn:E1.
  { apply slot_has_spec in E1 as [_ E1].
    pose proof (refused_not_true t.1 s now H1 Hs (Hcur (eq_sym E1))) as Hn.
    destruct (accept_slot t.1 s now) as [[s1 []]|]; cbn; try done. by destruct (Hn s1). }
  assert (Hne : e <> rx_epoch t.1).
  { intros ->. unfold slot_has in E1. by rewrite Hv, Z.eqb_refl in E1. }
  destruct (slot_has t.2 e) eqn:E2.
  { pose proof (refused_not_true t.2 s now H2 Hs (Hprev Hne eq_refl)) as Hn.
    destruct (accept_slot t.2 s now) as [[s1 []]|]; cbn; try done. by destruct (Hn s1). }
  rewrite (proj2 (Z.ltb_ge _ _)) by lia. by rewrite andb_false_r.
Qed.

(** Committing one pair keeps the others remembered and remembers it. *)
Lemma commit_slots_guards st t e s now t' b :
  slots_ok t -> ordered t -> u64 s -> commit_slots st t e s now = Ret (t', b) ->
  ordered t' /\ (forall e' s', u64 s' -> guarded t e' s' -> guarded t' e' s') /\ (b = true -> guarded t' e s).
Proof using H64.
  intros [H1 H2] Hord Hs. unfold commit_slots.
  destruct (rx_valid t.1) eqn:Hv; cbn [negb fst snd].
  2: { assert (Hv2 : rx_valid t.2 = false).
    { destruct (rx_valid t.2) eqn:E; [|done]. destruct (Hord E). congruence. }
    unfold slot_has at 1. cbn [rx_valid rx_epoch rx_slot_new]. rewrite Z.eqb_refl. cbn [andb].
    destruct (accept_slot_ok H64 (rx_slot_new e now) s now win_default_ok Hs)
      as (s1 & b1 & -> & _ & Ee & Eva & _ & _ & Hr & _). intros [= <- <-].
    split_and!; [by intros Hf; cbn in Hf; congruence|intros ? ? _ [Hf _]; by rewrite Hv in Hf|].
    intros Hb. split_and!; cbn; [done|cbn in Ee; lia|by intros _; apply Hr|].
    unfold slot_has. by rewrite Hv2. }
  destruct (slot_has t.1 e) eqn:E1.
  { apply slot_has_spec in E1 as [_ E1].
    destruct (accept_slot_ok H64 t.1 s now H1 Hs) as (s1 & b1 & -> & _ & Ee & Eva & _ & _ & Hr & Hst).
    intros [= <- <-]. split_and!.
    - intros Hf. destruct (Hord Hf). cbn. by rewrite Eva, Ee.
    - intros e' s' Hs' (G1 & G2 & G3 & G4). split_and!; cbn; rewrite ?Ee; auto; by rewrite Eva.
    - intros Hb. split_and!; cbn; rewrite ?Ee, ?Eva; try done; [lia|auto]. }
  assert (Hne : e <> rx_epoch t.1).
  { intros ->. unfold slot_has in E1. by rewrite Hv, Z.eqb_refl in E1. }
  destruct (slot_has t.2 e) eqn:E2.
  { apply slot_has_spec in E2 as [E2v E2]. destruct (Hord E2v) as [_ Hlt].
    destruct (accept_slot_ok H64 t.2 s now H2 Hs) as (s2 & b2 & -> & _ & Ee & Eva & _ & _ & Hr & Hst).
    assert (Hh : forall x, slot_has s2 x = slot_has t.2 x) by (intros; unfold slot_has; by rewrite Ee, Eva).
    intros [= <- <-]. split_and!.
    - intros _. cbn. by rewrite Ee.
    - intros e' s' Hs' (G1 & G2 & G3 & G4). split_and!; cbn; try done. rewrite Hh. auto.
    - intros Hb. split_and!; cbn; auto; lia. }
  rewrite Hv; cbn [andb]. destruct (rx_epoch t.1 <? e) eqn:E3; bools.
  2: { intros Hq. injection Hq as <- <-. by split_and!. }
  destruct (max_allowed_epoch st t <? e); [intros Hq; injection Hq as <- <-; by split_and!|].
  destruct (accept_slot_ok H64 (rx_slot_new e now) s now win_default_ok Hs)
    as (s1 & b1 & -> & _ & Ee & Eva & _ & _ & Hr & _). cbn in Ee, Eva. intros [= <- <-].
  split_and!.
  - intros _. cbn. rewrite Eva, Ee. by split.
  - intros e' s' Hs' (G1 & G2 & G3 & G4). split_and!; cbn; rewrite ?Eva, ?Ee; [done|lia|lia|].
    intros _ Hh. apply slot_has_spec in Hh as [_ Hh]. by apply G3.
  - intros Hb. split_and!; cbn; rewrite ?Eva, ?Ee; [done|lia|by intros _; apply Hr|done].
Qed.

(** Outside the grace period both functions work on the direction's slots. *)
Lemma open_slots_steady st now :
  sync_rx_grace_expires_at_ms st = 0 ->
  open_slots st now =
    (with_rx st (evict_old_rx_slots (rx_slots st) now) (sync_rx_grace st) 0,
     evict_old_rx_slots (rx_slots st) now, None).
Proof. intros E. unfold open_slots, sync_rx_grace_active. cbn. by rewrite E. Qed.

Lemma commit_steady st e s dir now st' b :
  sync_rx_grace_expires_at_ms st = 0 -> no_idle_slot st now ->
  commit_replay st e s dir now = Ret (st', b) ->
  sync_rx_grace_expires_at_ms st' = 0 /\
  exists st2 t', commit_slots st2 (at_dir dir (rx_slots st)) e s now = Ret (t', b) /\
    rx_slots st' = put_dir dir t' (rx_slots st).
Proof.
  intros Ez Hi. unfold commit_replay. rewrite open_slots_steady, Hi by done.
  destruct (commit_slots _ _ e s now) as [[t' b']|] eqn:E; [|done]. cbn.
  intros [= <- <-]. split; [done|]. eexists _, _. split; [exact E|]. cbn.
  by rewrite Hi.
Qed.

(** What a history of accepted (direction, nonce) pairs requires of the
    session. *)
Record remembers (st : Session) (acc : list (SecureDatagramDirection * list Z)) : Prop := {
  rem_ok : session_ok f st;
  rem_steady : sync_rx_grace_expires_at_ms st = 0;
  rem_ordered : forall d, ordered (at_dir d (rx_slots st));
  rem_guard : forall d n, (d, n) ∈ acc -> nonce_ok n /\
    guarded (at_dir d (rx_slots st)) (nonce_epoch n) (nonce_seq n) }.

Lemma remembers_frame st st' acc :
  remembers st acc -> session_ok f st' -> rx_slots st' = rx_slots st ->
  sync_rx_grace_expires_at_ms st' = 0 -> remembers st' acc.
Proof. intros [? ? Ho Hg] ? E ?. split; [done..| |]; rewrite E; [apply Ho|apply Hg]. Qed.

Lemma remembers_send st acc dir rng p now st' p' r :
  remembers st acc -> encrypt_payload f st dir rng p now = Ret (st', p', r) -> remembers st' acc.
Proof.
  intros Hrem E. pose proof (encrypt_payload_ok f _ _ _ _ _ _ _ _ (rem_ok _ _ Hrem) E) as Hok'.
  assert (rx_slots st' = rx_slots st /\
    sync_rx_grace_expires_at_ms st' = sync_rx_grace_expires_at_ms st) as [E1 E2].
  { revert E. unfold encrypt_payload, next_nonce, maybe_rotate_epoch.
    destruct (negb (is_valid st)); [by intros [= <- _ _]|].
    unfold get_or_create_encryptor, mbind, comp_bind.
    repeat case_match; intros; by simplify_eq/=. }
  apply (remembers_frame st); [done..|]. by rewrite E2, (rem_steady _ _ Hrem).
Qed.

Lemma remembers_commit st acc e s n dir now st' b :
  remembers st acc -> no_idle_slot st now -> nonce_ok n -> e = nonce_epoch n -> s = nonce_seq n ->
  commit_replay st e s dir now = Ret (st', b) ->
  remembers st' (if b then (dir, n) :: acc else acc) /\ (b = true -> (dir, n) ∉ acc).
Proof using H64.
  intros Hrem Hi Hn -> -> E. pose proof (nonce_seq_u64 n Hn) as Hu.
  destruct (commit_ok H64 f _ (nonce_epoch n) (nonce_seq n) dir now (rem_ok _ _ Hrem) Hu)
    as (st2 & b2 & E2 & Hok'). rewrite E in E2. injection E2 as <- <-.
  destruct (commit_steady _ _ _ _ _ _ _ (rem_steady _ _ Hrem) Hi E) as (Ez & st3 & t' & Ec & Er).
  pose proof (at_dir_slots _ dir (proj1 (so_rx _ _ (rem_ok _ _ Hrem)))) as Hsl.
  destruct (commit_slots_guards _ _ _ _ _ _ _ Hsl (rem_ordered _ _ Hrem dir) Hu Ec)
    as (Ho' & Hkeep & Hnew).
  assert (Hold : forall d m, (d, m) ∈ acc ->
    nonce_ok m /\ guarded (at_dir d (rx_slots st')) (nonce_epoch m) (nonce_seq m)).
  { intros d m Hin. destruct (rem_guard _ _ Hrem d m Hin) as [Hm Hg]. split; [done|]. rewrite Er.
    destruct (decide (d = dir)) as [->|Hne].
    - rewrite at_put_dir. apply Hkeep; [by apply nonce_seq_u64|done].
    - by rewrite at_put_other by done. }
  split; [split; [done..| |]|].
  - intros d. rewrite Er. destruct (decide (d = dir)) as [->|Hne]; [by rewrite at_put_dir|].
    rewrite at_put_other by done. apply Hrem.
  - intros d m Hin. destruct b; [|by apply Hold].
    apply elem_of_cons in Hin as [Heq|Hin]; [|by apply Hold].
    injection Heq as -> ->. split; [done|]. rewrite Er, at_put_dir. by apply Hnew.
  - intros -> Hin. destruct (rem_guard _ _ Hrem dir n Hin) as [_ Hg].
    by apply (guarded_rejected _ _ _ _ _ t' Hsl Hu Hg Ec).
Qed.
End replays.

Definition tail_nonce (p : ZCPacket) : option (list Z) :=
  match payload p with Ret s => parse_tail s | Panic => None end.

Section runs.
Context {T : Target} (H64 : 64 <= usize_bits) {H : HmacLib} {L : CryptoLib} (f : Features).

Lemma precheck_steady st e s dir now st' b :
  rx_inv st -> u64 s -> sync_rx_grace_expires_at_ms st = 0 -> no_idle_slot st now ->
  precheck_replay st e s dir now = Ret (st', b) ->
  st' = with_rx st (rx_slots st) (sync_rx_grace st) 0.
Proof using H64.
  intros Hr Hs Ez Hi. destruct (precheck_form H64 st e s dir now Hr Hs) as (g & x & b' & E & _ & Hz).
  rewrite E. intros [= <- _]. destruct (Hz Ez) as [-> ->]. by rewrite Hi.
Qed.

(** One received packet, whatever it contains. *)
Lemma remembers_recv st acc dir p now st' p' r :
  remembers f st acc -> bytes_ok (inner p) -> no_idle_slot st now ->
  decrypt_payload f st dir p now = Ret (st', p', r) ->
  match r with
  | Ok _ => exists n, tail_nonce p = Some n /\ ((dir, n) ∉ acc) /\ remembers f st' ((dir, n) :: acc)
  | Err _ => remembers f st' acc
  end.
Proof using H64.
  intros Hrem Hb Hi Hd. destruct (is_valid st) eqn:Hv.
  2: { revert Hd. unfold decrypt_payload. rewrite Hv. cbn. by intros [= <- _ <-]. }
  destruct (payload p) as [s|] eqn:Hp.
  2: { revert Hd. unfold decrypt_payload. by rewrite Hv, Hp. }
  pose proof (payload_bytes_ok p s Hb Hp) as Hs.
  destruct (parse_tail s) as [n|] eqn:Ht.
  2: { revert Hd. unfold decrypt_payload. rewrite Hv, Hp. cbn. rewrite Ht. by intros [= <- _ <-]. }
  pose proof (parse_tail_nonce_ok _ _ Hs Ht) as Hn. pose proof (nonce_seq_u64 n Hn) as Hu.
  pose proof (rem_ok _ _ _ Hrem) as Hok.
  destruct (decrypt_cases H64 f st dir p s n now Hok Hv Hp Hn Ht) as (st1 & b & Epre & Hok1 & Hc).
  pose proof (precheck_steady _ _ _ _ _ _ _ (so_rx _ _ Hok) Hu (rem_steady _ _ _ Hrem) Hi Epre) as Est1.
  assert (Hrem1 : remembers f st1 acc) by (apply (remembers_frame f st); subst st1; done).
  destruct b; [|rewrite Hd in Hc; injection Hc as <- <- ->; done].
  destruct Hc as (kc & Hok2 & Hc).
  assert (Hcore : rx_slots st1 = rx_slots st) by (by subst st1).
  destruct (e_decrypt _ p) as [[p2 [u|e]]|].
  - destruct Hc as (st3 & b' & Ecom & Hok3 & Hd'). rewrite Hd in Hd'. injection Hd' as <- <- ->.
    set (stc := with_health _ _ _) in Ecom.
    assert (Hokc : session_ok f stc) by (destruct Hok2; by split).
    assert (Hremc : remembers f stc acc).
    { apply (remembers_frame f st1); [done..|]. by subst st1. }
    assert (Hic : no_idle_slot stc now) by (unfold no_idle_slot; subst stc st1; exact Hi).
    destruct (remembers_commit H64 f stc acc _ _ n dir now st' b' Hremc Hic Hn eq_refl eq_refl Ecom)
      as [Hrem' Hnew].
    destruct b'; [|done]. exists n. unfold tail_nonce. rewrite Hp. auto.
  - destruct Hc as (st3 & Hd' & Hok3). rewrite Hd in Hd'. injection Hd' as <- <- ->.
    apply (remembers_frame f st1); [done..| |].
    + revert Hd. unfold decrypt_payload. rewrite Hv, Hp. cbn [negb mbind comp_bind].
      rewrite Ht. cbv zeta. rewrite Epre. cbn [negb mbind comp_bind].
      unfold get_or_create_encryptor, mbind, comp_bind. repeat case_match; intros; by simplify_eq/=.
    + revert Hd. unfold decrypt_payload. rewrite Hv, Hp. cbn [negb mbind comp_bind].
      rewrite Ht. cbv zeta. rewrite Epre. cbn [negb mbind comp_bind].
      unfold get_or_create_encryptor, mbind, comp_bind. repeat case_match; intros; by simplify_eq/=.
  - by rewrite Hd in Hc.
Qed.

(** Histories of a session: packets sent and received in any order, at times
    when no receive slot has been idle for 30 s; [acc] lists the accepted
    (direction, nonce) pairs. *)
Inductive session_run (s0 : Session)
    : Session -> list (SecureDatagramDirection * list Z) -> Prop :=
  | run_start : session_run s0 s0 []
  | run_send st acc dir rng p now st' p' r :
      session_run s0 st acc ->
      encrypt_payload f st dir rng p now = Ret (st', p', r) ->
      session_run s0 st' acc
  | run_recv st acc dir p now st' p' n :
      session_run s0 st acc -> bytes_ok (inner p) -> no_idle_slot st now ->
      decrypt_payload f st dir p now = Ret (st', p', Ok tt) -> tail_nonce p = Some n ->
      session_run s0 st' ((dir, n) :: acc)
  | run_reject st acc dir p now st' p' e :
      session_run s0 st acc -> bytes_ok (inner p) -> no_idle_slot st now ->
      decrypt_payload f st dir p now = Ret (st', p', Err e) ->
      session_run s0 st' acc.

Lemma session_new_remembers key g e sa ra now : u32 e -> remembers f (session_new key g e sa ra now) [].
Proof.
  intros He. split; [by apply session_new_ok|done|by intros []|]. by intros ? ? ?%elem_of_nil.
Qed.

Lemma run_remembers s0 st acc : remembers f s0 [] -> session_run s0 st acc ->
  remembers f st acc /\ NoDup acc.
Proof using H64.
  intros H0 Hrun.
  induction Hrun as [|st acc dir rng p now st' p' r _ [IH Hnd] E
    |st acc dir p now st' p' n _ [IH Hnd] Hb Hi E Hn|st acc dir p now st' p' e _ [IH Hnd] Hb Hi E].
  - split; [done|constructor].
  - split; [|done]. by eapply remembers_send.
  - destruct (remembers_recv _ _ _ _ _ _ _ _ IH Hb Hi E) as (n' & En & Hni & Hrem).
    rewrite En in Hn. injection Hn as <-. split; [done|]. by constructor.
  - split; [|done]. exact (remembers_recv _ _ _ _ _ _ _ _ IH Hb Hi E).
Qed.
End runs.
