(* ===== verification/SecureSession.v ===== *)
(** End-to-end properties of [tunnel/secure_datagram.rs]: what a packet sealed
    by one session does at the other, in-order transfer, anti-replay, and the
    send path under interleaving. *)

From S2P Require Import Prelude Headers Packet Encrypt ReplayWindow SecureDatagram.
From stdpp Require Import list strings.
Local Open Scope Z_scope.

(** ** One packet across two sessions *)

Section across.
Context {T : Target} (H64 : 64 <= usize_bits) {H : HmacLib} {L : CryptoLib} {HL : CryptoLaws L}.
Context (f : Features).

(** Two sessions that share a root key, [S] sending what [R] receives. *)
Definition paired (S R : Session) : Prop :=
  root_key R = root_key S /\ recv_cipher_algorithm R = send_cipher_algorithm S.

(** The session's algorithm is not the XOR cipher, which appends no tail and
    so carries no nonce ([xor_session_corrupts]). *)
Definition tailed (S : Session) : Prop :=
  EncryptionAlgorithm_from_str (send_cipher_algorithm S) <> Ok Xor.

(** The shape of what [encrypt_payload] produces. *)
Lemma encrypt_payload_shape S dir rng p now S' p' h :
  session_ok f S -> tailed S ->
  bytes_ok (inner p) -> peer_manager_header p = Some h -> is_encrypted h = false ->
  encrypt_payload f S dir rng p now = Ret (S', p', Ok tt) ->
  exists e s pl, let n := make_nonce e s in
    u32 e /\ u64 s /\ payload p' = Ret pl /\ parse_tail pl = Some n /\
    e_decrypt (cipher_for f S e dir true) p' = Ret (p, Ok tt) /\
    e = send_epoch S' /\ s = at_dir dir (send_seq S) /\
    at_dir dir (send_seq S') = wrap 64 (s + 1) /\
    (e = send_epoch S \/ e = wrap 32 (send_epoch S + 1)) /\
    session_ok f S' /\ root_key S' = root_key S /\
    send_cipher_algorithm S' = send_cipher_algorithm S.
Proof using HL.
  intros Hok Hx Hb Hh He Henc.
  pose proof (encrypt_payload_ok f _ _ _ _ _ _ _ _ Hok Henc) as Hok'. revert Henc.
  unfold encrypt_payload. destruct (negb (is_valid S)); [done|].
  destruct (next_nonce S dir now) as [S1 [[e s] n]] eqn:En.
  destruct (next_nonce_ok f _ _ _ _ _ _ _ Hok En)
    as (Hok1 & Hu1 & Hu2 & -> & Ee & Es & Es' & Eo & Er & _ & Ea & Eb).
  destruct (get_or_create_ok f S1 e dir (session_generation S1) true) as (kc & -> & Hc);
    [apply Hok1|]. cbn [mbind comp_bind].
  assert (Ecf : cipher_for f S1 e dir true = cipher_for f S e dir true)
    by (unfold cipher_for; by rewrite Er, Ea). rewrite Ecf.
  destruct (e_encrypt_with_nonce _ _ _ _) as [[p2 [u|err]]|] eqn:Eenc; cbn [mbind comp_bind];
    intros Heq; simplify_eq.
  destruct u. pose proof (make_nonce_ok (send_epoch S1) (at_dir dir (send_seq S))) as Hn.
  pose proof (create_encryptor_rt f (send_cipher_algorithm S)
    (take 16 (hkdf_traffic_key (root_key S) (send_epoch S1) dir))
    (hkdf_traffic_key (root_key S) (send_epoch S1) dir)
    rng (Some _) p p' h Hb Hn Hh He Eenc) as [Hrt _].
  destruct (create_encryptor_carries f (send_cipher_algorithm S)
    (take 16 (hkdf_traffic_key (root_key S) (send_epoch S1) dir))
    (hkdf_traffic_key (root_key S) (send_epoch S1) dir) Hx
    rng (Some _) p p' h Hb Hn Hh He Eenc) as (ct & tg & Htg & Htb & Hpl).
  eexists _, _, _. cbv zeta. split_and!; [exact Hu1|exact Hu2|exact Hpl|..]; try done.
  by apply parse_tail_app.
Qed.

(** What the receiver does with it. *)
Lemma deliver_cases S R dir rng p now S' p' h t :
  session_ok f S -> session_ok f R -> paired S R -> tailed S -> is_valid R = true ->
  bytes_ok (inner p) ->
  peer_manager_header p = Some h -> is_encrypted h = false ->
  encrypt_payload f S dir rng p now = Ret (S', p', Ok tt) ->
  exists R1 b R', precheck_replay R (send_epoch S') (at_dir dir (send_seq S)) dir t = Ret (R1, b) /\
    session_ok f R' /\
    (b = true -> exists kc,
      commit_replay (with_health (with_key_cache R1 kc) (invalidated R1) 0)
        (send_epoch S') (at_dir dir (send_seq S)) dir t = Ret (R', true)) /\
    decrypt_payload f R dir p' t =
      if b : bool then Ret (R', p, Ok tt) else Ret (R', p', Err ReplayRejected).
Proof using H64 HL.
  intros Hs Hr [Ek Ea] Hx Hv Hb Hh He Henc.
  destruct (encrypt_payload_shape S dir rng p now S' p' h) as
    (e & s & pl & Hu1 & Hu2 & Hpl & Ht & Hd & -> & -> & _); [done..|].
  destruct (decrypt_cases H64 f R dir p' pl _ t Hr Hv Hpl (make_nonce_ok _ _) Ht) as (R1 & b & Epre & Hok1 & Hc).
  rewrite nonce_epoch_make, nonce_seq_make in Epre, Hc by done.
  exists R1, b. destruct b; [|by eexists].
  destruct Hc as (kc & Hok2 & Hc).
  assert (Ecf : cipher_for f R (send_epoch S') dir false = cipher_for f S (send_epoch S') dir true)
    by (unfold cipher_for; by rewrite Ek, Ea). rewrite Ecf, Hd in Hc.
  destruct Hc as (R3 & b' & Ecom & Hok3 & ->). exists R3.
  cut (b' = true); [intros ->; split_and!; eauto; by eexists|].
  destruct (open_slots R t) as [[R0 rx] og] eqn:Eo.
  assert (R0 = R1 /\ exists rx' g e, R1 = with_rx R rx' g e) as [-> (rx' & g & e & E1)].
  { destruct (precheck_form H64 R (send_epoch S') (at_dir dir (send_seq S)) dir t)
      as (g & e & b & E & _); [apply Hr|done|]. rewrite E in Epre. injection Epre as <- _.
    split; [|by eauto]. revert E. unfold precheck_replay. rewrite Eo.
    unfold mbind, comp_bind. repeat case_match; intros; by simplify_eq. }
  pose proof (open_slots_idem R t R1 rx og kc 0 Eo) as Eo2.
  set (R2 := with_health (with_key_cache R1 kc) (invalidated R1) 0) in *.
  assert (Epre2 : precheck_replay R2 (send_epoch S') (at_dir dir (send_seq S)) dir t = Ret (R2, true)).
  { revert Epre. unfold precheck_replay. rewrite Eo, Eo2.
    assert (max_allowed_epoch R2 (at_dir dir rx) = max_allowed_epoch R1 (at_dir dir rx)) as -> by done.
    unfold mbind, comp_bind. repeat case_match; intros; by simplify_eq. }
  destruct (commit_agrees H64 R2 (send_epoch S') (at_dir dir (send_seq S)) dir t rx og true) as [R4 E4];
    [by destruct Hok2|done..|].
  change (with_health (with_key_cache R1 kc) (invalidated (with_key_cache R1 kc)) 0) with R2 in Ecom.
  rewrite E4 in Ecom. by injection Ecom as <- <-.
Qed.
End across.

(** ** In-order transfer *)

Section transfer.
Context {T : Target} (H64 : 64 <= usize_bits) {H : HmacLib} {L : CryptoLib} {HL : CryptoLaws L}.
Context (f : Features).

(** The numbers a window has seen are below [bound]. *)
Definition window_below (bound : Z) (w : ReplayWindow256) : Prop :=
  exists seen, window_rel w seen /\ seen_in_span 0 seen /\ Forall (fun s => s < bound) seen.

(** The receiver's slots follow the sender's counters. *)
Definition slots_track (epoch seq : Z) (t : two EpochRxSlot) : Prop :=
  (rx_valid t.1 = true -> rx_epoch t.1 = epoch /\ window_below seq (rx_window t.1)) /\
  (rx_valid t.2 = true -> rx_epoch t.2 < epoch).

Record tracks (S R : Session) (dir : SecureDatagramDirection) : Prop := {
  tr_send : session_ok f S;
  tr_recv : session_ok f R;
  tr_pair : paired S R;
  tr_tailed : tailed S;
  tr_valid : is_valid R = true;
  tr_steady : sync_rx_grace_expires_at_ms R = 0;
  tr_slots : slots_track (send_epoch S) (at_dir dir (send_seq S)) (at_dir dir (rx_slots R)) }.

Lemma evict_slot_valid now s : rx_valid (evict_slot now s) = true -> evict_slot now s = s.
Proof. unfold evict_slot. intros. by repeat case_match. Qed.

Lemma evict_track e s t now : slots_track e s t -> slots_track e s (map2 (evict_slot now) t).
Proof.
  intros [H1 H2]. split; cbn; intros Hv; rewrite evict_slot_valid in * by done; auto.
Qed.

Lemma window_below_accepts w s : window_below s w -> u64 s -> can_accept w s = Ret true.
Proof using H64.
  intros (seen & HR & Hsp & Hall) Hu.
  rewrite (can_accept_refines 0 w seen s HR Hsp (u64_in_span H64 s Hu)). f_equal.
  destruct seen as [|x seen]; [done|]. unfold spec_accepts.
  rewrite (proj2 (Z.ltb_lt _ _)); [done|].
  assert (Hn : newest (x :: seen) < s \/ newest (x :: seen) = 0).
  { clear -Hall. generalize (x :: seen) Hall. clear. intros l. induction 1 as [|y l Hy Hl IH]; [by right|].
    rewrite newest_cons. pose proof (newest_nonneg l). lia. }
  destruct Hn as [|E]; [done|]. rewrite E. apply Forall_inv in Hall. apply Forall_inv in Hsp.
  destruct Hsp. lia.
Qed.

Lemma window_below_accept w s w' : window_below s w -> u64 s -> accept w s = Ret (w', true) ->
  window_below (s + 1) w'.
Proof using H64.
  intros (seen & HR & Hsp & Hall) Hu E. pose proof (u64_in_span H64 s Hu) as Hs.
  destruct (accept_refines 0 w seen s HR Hsp Hs) as (w2 & E2 & HR2).
  pose proof (spec_accept_span 0 seen s Hsp Hs) as Hsp2.
  rewrite E in E2. unfold spec_accept in *. destruct (spec_accepts seen s); cbn in *; simplify_eq.
  exists (s :: seen). split_and!; [done..|]. constructor; [lia|].
  eapply Forall_impl; [done|]. cbn. lia.
Qed.

Lemma window_below_default s : window_below s window_default.
Proof. exists []. split_and!; [exact window_default_rel|constructor..]. Qed.

(** Accepting the next number of the sender, possibly in the next epoch. *)
Lemma commit_tracks st t e0 e s now :
  slots_ok t -> slots_track e0 s t -> (e = e0 \/ e = e0 + 1) -> u32 e -> u64 s ->
  exists t', commit_slots st t e s now = Ret (t', true) /\ slots_track e (s + 1) t'.
Proof using H64.
  intros Hsl [Ht1 Ht2] He Hue Hus. unfold commit_slots.
  assert (Hnew : exists w, accept window_default s = Ret (w, true) /\ window_below (s + 1) w).
  { destruct (win_accept H64 window_default s win_default_ok Hus) as (w & b & E & Ec & _).
    injection Ec as <-. exists w. split; [done|].
    by eapply window_below_accept; [apply window_below_default|..]. }
  destruct Hnew as (wn & En & Hwn).
  destruct (rx_valid t.1) eqn:Ev; cbn [negb fst snd].
  2: { unfold slot_has at 1. cbn [rx_valid rx_epoch rx_slot_new]. rewrite Z.eqb_refl. cbn [andb].
    unfold accept_slot; cbn [rx_window rx_slot_new]. rewrite En. eexists. split; [done|].
    split; cbn; [by intros _|]. intros Hv2. specialize (Ht2 Hv2). lia. }
  destruct (Ht1 eq_refl) as [E1 Hb1]. unfold slot_has at 1. rewrite Ev, E1. cbn [andb].
  destruct (Z.eqb_spec e0 e) as [<-|Hne].
  { destruct (win_accept H64 (rx_window t.1) s (proj1 Hsl) Hus) as (w & b & E & Ec & _).
    rewrite window_below_accepts in Ec by done. injection Ec as <-.
    unfold accept_slot. rewrite E. eexists. split; [done|]. split; cbn; [|done].
    intros _. split; [done|]. by eapply window_below_accept. }
  assert (e = e0 + 1) as -> by (destruct He; congruence).
  assert (slot_has t.2 (e0 + 1) = false) as ->.
  { unfold slot_has. destruct (rx_valid t.2) eqn:Ev2; [|done]. specialize (Ht2 eq_refl).
    cbn [andb]. apply Z.eqb_neq. lia. }
  rewrite (proj2 (Z.ltb_lt _ _)) by lia. cbn [andb].
  rewrite (proj2 (Z.ltb_ge _ _)).
  2: { unfold max_allowed_epoch, sat_add, max_of, MAX_ACCEPTED_RX_EPOCH_AHEAD. rewrite Ev, E1.
    destruct Hue. case_match; lia. }
  unfold accept_slot; cbn [rx_window rx_slot_new]. rewrite En. eexists. split; [done|].
  split; cbn; [by intros _|]. rewrite E1. lia.
Qed.

Lemma precheck_tracks R e0 e s dir now :
  sync_rx_grace_expires_at_ms R = 0 ->
  slots_track e0 s (map2 (evict_slot now) (at_dir dir (rx_slots R))) ->
  (e = e0 \/ e = e0 + 1) -> u32 e -> u64 s ->
  exists R1, precheck_replay R e s dir now = Ret (R1, true).
Proof using H64.
  intros Ez [Ht1 Ht2] He Hue Hus. unfold precheck_replay. rewrite open_slots_steady by done.
  unfold evict_old_rx_slots. rewrite at_map2.
  set (t := map2 (evict_slot now) _) in *.
  destruct (rx_valid t.1) eqn:Ev; cbn [negb]; [|by eexists].
  destruct (Ht1 eq_refl) as [E1 Hb1]. unfold slot_has at 1. rewrite Ev, E1. cbn [andb].
  destruct (Z.eqb_spec e0 e) as [<-|Hne].
  { rewrite window_below_accepts by done. by eexists. }
  assert (e = e0 + 1) as -> by (destruct He; congruence).
  assert (slot_has t.2 (e0 + 1) = false) as ->.
  { unfold slot_has. destruct (rx_valid t.2) eqn:Ev2; [|done]. specialize (Ht2 eq_refl).
    cbn [andb]. apply Z.eqb_neq. lia. }
  rewrite (proj2 (Z.ltb_lt _ _)) by lia.
  rewrite (proj2 (Z.ltb_ge _ _)); [by eexists|].
  unfold max_allowed_epoch, sat_add, max_of, MAX_ACCEPTED_RX_EPOCH_AHEAD. rewrite Ev, E1.
  destruct Hue. case_match; lia.
Qed.

Lemma tracks_step S R dir rng p now S' p' h t :
  tracks S R dir -> bytes_ok (inner p) ->
  peer_manager_header p = Some h -> is_encrypted h = false ->
  send_epoch S + 1 < 2 ^ 32 -> at_dir dir (send_seq S) + 1 < 2 ^ 64 ->
  encrypt_payload f S dir rng p now = Ret (S', p', Ok tt) ->
  exists R', decrypt_payload f R dir p' t = Ret (R', p, Ok tt) /\ tracks S' R' dir.
Proof using H64 HL.
  intros [Hs Hr Hp Hx Hv Hz Ht] Hb Hh He Hw1 Hw2 Henc.
  destruct (encrypt_payload_shape f S dir rng p now S' p' h) as
    (e & s & pl & Hu1 & Hu2 & _ & _ & _ & -> & -> & Es' & Eo & Hs' & Er & Ea); [done..|].
  assert (Heo : send_epoch S' = send_epoch S \/ send_epoch S' = send_epoch S + 1).
  { destruct Eo as [->|Eo]; [by left|right]. rewrite Eo. apply wrap_small.
    split; [|lia]. destruct (so_epoch _ _ Hs). lia. }
  rewrite wrap_small in Es' by (split; [destruct Hu2; lia|lia]).
  destruct (deliver_cases H64 f S R dir rng p now S' p' h t) as (R1 & b & R' & Epre & Hok' & Hcom & Hd);
    [done..|].
  pose proof (evict_track _ _ _ t Ht) as Ht'.
  destruct (precheck_tracks R _ (send_epoch S') _ dir t Hz Ht' Heo Hu1 Hu2) as [R1' E].
  rewrite E in Epre. injection Epre as <- <-. exists R'. split; [done|].
  destruct (Hcom eq_refl) as [kc Ecom].
  destruct (precheck_form H64 R (send_epoch S') (at_dir dir (send_seq S)) dir t)
    as (g & x & b & E' & Hg & Hgz); [apply Hr|done|]. rewrite E in E'. injection E' as -> <-.
  destruct (Hgz Hz) as [-> ->]. set (R2 := with_health _ _ _) in Ecom.
  assert (Hi2 : no_idle_slot R2 t) by apply evict_all_idem.
  destruct (commit_steady R2 _ _ _ _ _ _ eq_refl Hi2 Ecom) as (Ez' & st2 & t2 & Ec & Erx).
  assert (Hsl : slots_ok (at_dir dir (rx_slots R2))) by (apply at_dir_slots, evict_all_ok, Hr).
  assert (Htr : slots_track (send_epoch S) (at_dir dir (send_seq S)) (at_dir dir (rx_slots R2)))
    by (cbn; unfold evict_old_rx_slots; by rewrite at_map2).
  destruct (commit_tracks st2 _ _ _ _ t Hsl Htr Heo Hu1 Hu2) as (t3 & Ec3 & Ht3).
  rewrite Ec in Ec3. injection Ec3 as <-.
  destruct (commit_form H64 R2 (send_epoch S') (at_dir dir (send_seq S)) dir t)
    as (rx & g & x & og & b & Ef & _ & _); [|done|].
  { split; [apply evict_all_ok, Hr|apply Hr]. }
  rewrite Ecom in Ef. injection Ef as -> _.
  split; [done..| | | |done|].
  - destruct Hp as [Hp1 Hp2]. unfold paired. rewrite Er, Ea. by split_and!.
  - unfold tailed. by rewrite Ea.
  - done.
  - rewrite Erx, at_put_dir, Es'. exact Ht3.
Qed.

(** A stream of packets: [sealed_stream] is the sender encrypting one after
    the other, [open_stream] the receiver decrypting them in that order. *)
Record parcel := {
  pc_rng : list Z; pc_packet : ZCPacket; pc_sent : Z; pc_wire : ZCPacket; pc_received : Z }.
Definition clear (p : ZCPacket) : Prop :=
  bytes_ok (inner p) /\ exists h, peer_manager_header p = Some h /\ is_encrypted h = false.

Inductive sealed_stream (dir : SecureDatagramDirection) : Session -> list parcel -> Prop :=
  | sealed_nil S : sealed_stream dir S []
  | sealed_cons S S' c l :
      clear (pc_packet c) ->
      encrypt_payload f S dir (pc_rng c) (pc_packet c) (pc_sent c) = Ret (S', pc_wire c, Ok tt) ->
      sealed_stream dir S' l -> sealed_stream dir S (c :: l).

Fixpoint open_stream (R : Session) (dir : SecureDatagramDirection) (l : list parcel)
    : comp (list (ZCPacket * result SessionError unit)) :=
  match l with
  | [] => Ret []
  | c :: l =>
    '(R, q, r) ← decrypt_payload f R dir (pc_wire c) (pc_received c);
    out ← open_stream R dir l;
    Ret ((q, r) :: out)
  end.

Lemma open_stream_ok S R dir l :
  tracks S R dir -> sealed_stream dir S l ->
  send_epoch S + len l < 2 ^ 32 -> at_dir dir (send_seq S) + len l < 2 ^ 64 ->
  open_stream R dir l = Ret (map (fun c => (pc_packet c, Ok tt)) l).
Proof using H64 HL.
  intros Htr Hl. revert R Htr.
  induction Hl as [S|S S' c l (Hb & h & Hh & He) Henc Hl IH]; intros R Htr Hw1 Hw2; [done|].
  rewrite len_cons in Hw1, Hw2. pose proof (len_nonneg l) as Hlen.
  destruct (tracks_step S R dir (pc_rng c) (pc_packet c) (pc_sent c) S' (pc_wire c) h
    (pc_received c) Htr Hb Hh He) as (R' & Hd & Htr');
    [lia..|done|].
  destruct (encrypt_payload_shape f S dir (pc_rng c) (pc_packet c) (pc_sent c) S' (pc_wire c) h
    (tr_send _ _ _ Htr) (tr_tailed _ _ _ Htr) Hb Hh He Henc)
    as (e & s & pl & Hu1 & Hu2 & _ & _ & _ & -> & -> & Es' & Eo & _).
  destruct (so_epoch _ _ (tr_send _ _ _ Htr)). destruct Hu2.
  rewrite wrap_small in Es' by (split; lia).
  cbn [open_stream]. rewrite Hd. cbn [mbind comp_bind]. rewrite (IH R' Htr').
  - done.
  - destruct Eo as [->|Eo]; [lia|]. rewrite Eo, wrap_small by (split; lia). lia.
  - rewrite Es'. lia.
Qed.
End transfer.

(** ** Sends and key syncs in sequence *)

(** Whole [next_nonce] calls and whole [sync_root_key] calls, every sync moving
    to an epoch above the current one, away from the wrap-around. *)
Inductive send_history (s0 : Session)
    : Session -> list (SecureDatagramDirection * Z * Z) -> Prop :=
  | hist_start : send_history s0 s0 []
  | hist_send st l dir now st' e s n :
      send_history s0 st l -> next_nonce st dir now = (st', (e, s, n)) ->
      send_epoch st + 1 < 2 ^ 32 -> s + 1 < 2 ^ 64 ->
      send_history s0 st' ((dir, e, s) :: l)
  | hist_sync st l key g e preserve t1 t2 :
      send_history s0 st l -> send_epoch st < e -> u32 e ->
      send_history s0 (sync_root_key st key g e preserve t1 t2) l.

(** Every nonce handed out is behind the session's counters. *)
Definition behind (st : Session) (n : SecureDatagramDirection * Z * Z) : Prop :=
  let '(d, e, s) := n in
  0 <= s /\ (e < send_epoch st \/ (e = send_epoch st /\ s < at_dir d (send_seq st))).

Lemma behind_sync st key g e preserve t1 t2 n :
  send_epoch st < e -> behind st n -> behind (sync_root_key st key g e preserve t1 t2) n.
Proof.
  unfold sync_root_key. destruct (if preserve && _ then _ else _).
  destruct n as [[d e'] q]. cbn. lia.
Qed.

Lemma next_nonce_counters st dir now st' e s n :
  next_nonce st dir now = (st', (e, s, n)) ->
  s = at_dir dir (send_seq st) /\ e = send_epoch st' /\
  send_seq st' = put_dir dir (wrap 64 (s + 1)) (send_seq st) /\
  (e = send_epoch st \/ e = wrap 32 (send_epoch st + 1)).
Proof.
  unfold next_nonce, maybe_rotate_epoch. case_match; cbn; intros; simplify_eq; cbn; auto.
Qed.

Lemma behind_send st dir now st' e s n :
  u32 (send_epoch st) -> 0 <= at_dir dir (send_seq st) ->
  next_nonce st dir now = (st', (e, s, n)) -> send_epoch st + 1 < 2 ^ 32 -> s + 1 < 2 ^ 64 ->
  (forall m, behind st m -> behind st' m /\ m <> (dir, e, s)) /\ behind st' (dir, e, s).
Proof.
  intros [He _] Hs E Hw1 Hw2. destruct (next_nonce_counters _ _ _ _ _ _ _ E) as (Es & Ee & Eq & Eo).
  rewrite !wrap_small in * by (split; lia).
  split.
  - intros [[d e'] s'] [Hs' Hb]. cbn. rewrite Eq. destruct (decide (dir = d)) as [->|Hne].
    + rewrite at_put_dir. split; [lia|]. intros [= ? ?]. lia.
    + rewrite at_put_other by done. split; [lia|]. by intros [= ->].
  - cbn. rewrite Eq, at_put_dir. lia.
Qed.

Lemma send_history_behind s0 st l :
  u32 (send_epoch s0) -> (forall d, 0 <= at_dir d (send_seq s0)) -> send_history s0 st l ->
  u32 (send_epoch st) /\ (forall d, 0 <= at_dir d (send_seq st)) /\ Forall (behind st) l /\ NoDup l.
Proof.
  intros He Hq. induction 1 as [|st l dir now st' e s n _ (Hu & Hp & Hall & Hnd) E Hw1 Hw2
    |st l key g e preserve t1 t2 _ (Hu & Hp & Hall & Hnd) Hlt Hue].
  - split_and!; [done..|constructor|constructor].
  - destruct (behind_send _ _ _ _ _ _ _ Hu (Hp dir) E Hw1 Hw2) as [Hold Hnew].
    destruct (next_nonce_counters _ _ _ _ _ _ _ E) as (Es & Ee & Eq & Eo).
    split_and!.
    + rewrite <- Ee. destruct Eo as [->|Eo]; [done|]. rewrite Eo. by apply wrap_range.
    + intros d. rewrite Eq. destruct (decide (dir = d)) as [->|Hne].
      * rewrite at_put_dir. by apply wrap_range.
      * by rewrite at_put_other.
    + constructor; [done|]. eapply Forall_impl; [exact Hall|]. cbn. intros m Hm. by apply Hold.
    + constructor; [|done]. intros Hin. eapply Forall_forall in Hin; [|exact Hall].
      by destruct (Hold _ Hin) as [_ ?].
  - assert (Heq : send_epoch (sync_root_key st key g e preserve t1 t2) = e /\
      send_seq (sync_root_key st key g e preserve t1 t2) = (0, 0)).
    { unfold sync_root_key. by destruct (if preserve && _ then _ else _). }
    destruct Heq as [-> ->]. split_and!; [done|by intros []| |done].
    eapply Forall_impl; [exact Hall|]. cbn. intros m Hm. by apply behind_sync.
Qed.

(** ** Histories with every operation *)

Section histories.
Context {T : Target} (H64 : 64 <= usize_bits) {H : HmacLib} {L : CryptoLib}.
Context (f : Features).

(** Everything that happens to a session between two locks of it: packets
    sealed and opened (at any time, successfully or not), key syncs to any
    epoch, and invalidations, in any order. *)
Inductive session_history (s0 : Session) : Session -> Prop :=
  | history_start : session_history s0 s0
  | history_send st dir rng p now st' p' r :
      session_history s0 st -> encrypt_payload f st dir rng p now = Ret (st', p', r) ->
      session_history s0 st'
  | history_receive st dir p now st' p' r :
      session_history s0 st -> bytes_ok (inner p) ->
      decrypt_payload f st dir p now = Ret (st', p', r) ->
      session_history s0 st'
  | history_sync st key g e preserve t1 t2 :
      session_history s0 st -> u32 e ->
      session_history s0 (sync_root_key st key g e preserve t1 t2)
  | history_invalidate st :
      session_history s0 st -> session_history s0 (invalidate st).

Lemma decrypt_payload_ok st dir p now st' p' r :
  session_ok f st -> bytes_ok (inner p) -> decrypt_payload f st dir p now = Ret (st', p', r) ->
  session_ok f st'.
Proof using H64.
  intros Hok Hb Hd. destruct (is_valid st) eqn:Hv;
    [|revert Hd; unfold decrypt_payload; rewrite Hv; by intros [= <- _ _]].
  destruct (payload p) as [s|] eqn:Hp; [|revert Hd; unfold decrypt_payload; by rewrite Hv, Hp].
  destruct (parse_tail s) as [n|] eqn:Ht;
    [|revert Hd; unfold decrypt_payload; rewrite Hv, Hp; cbn [negb mbind comp_bind];
      rewrite Ht; by intros [= <- _ _]].
  pose proof (parse_tail_nonce_ok _ _ (payload_bytes_ok _ _ Hb Hp) Ht) as Hn.
  destruct (decrypt_cases H64 f st dir p s n now Hok Hv Hp Hn Ht) as (st1 & [] & _ & Hok1 & Hc).
  - destruct Hc as (kc & _ & Hc). destruct (e_decrypt _ p) as [[p2 [u|e]]|].
    + destruct Hc as (st3 & b & _ & Hok3 & E). rewrite E in Hd. by injection Hd as <- _ _.
    + destruct Hc as (st3 & E & Hok3). rewrite E in Hd. by injection Hd as <- _ _.
    + by rewrite Hc in Hd.
  - rewrite Hc in Hd. by injection Hd as <- _ _.
Qed.

Lemma session_history_ok s0 st : session_ok f s0 -> session_history s0 st -> session_ok f st.
Proof using H64.
  intros H0. induction 1; [done| | | |].
  - by eapply encrypt_payload_ok.
  - by eapply decrypt_payload_ok.
  - by apply sync_root_key_ok.
  - by apply invalidate_ok.
Qed.
End histories.

(** ** Properties *)

Section properties.
Context {T : Target} {H : HmacLib} {L : CryptoLib}.

(** C7. On targets whose usize has 64 bits, every history of a session (sends,
    receives of any bytes at any time, key syncs and invalidations in any
    order) keeps its invariant: cached ciphers are the ones the root key
    prescribes, windows are well formed, counters are in range and a session
    with ten failures is invalidated; and at every point of it neither replay
    check panics on any input, both keeping the invariant. *)
Theorem session_invariant (f : Features) (key : list Z) (g e : Z) (sa ra : string) (now : Z)
    (st : Session) :
  64 <= usize_bits -> u32 e -> session_history f (session_new key g e sa ra now) st ->
  session_ok f st /\
  (forall epoch seq dir t, u64 seq ->
     exists st' b, precheck_replay st epoch seq dir t = Ret (st', b) /\ session_ok f st') /\
  (forall epoch seq dir t, u64 seq ->
     exists st' b, commit_replay st epoch seq dir t = Ret (st', b) /\ session_ok f st').
Proof.
  intros H64 He Hh.
  pose proof (session_history_ok H64 f _ _ (session_new_ok f key g e sa ra now He) Hh) as Hok.
  split_and!; [done|..].
  - intros epoch seq dir t Hs.
    destruct (precheck_form H64 st epoch seq dir t (so_rx _ _ Hok) Hs) as (g0 & x & b & E & _).
    eexists _, _. split; [exact E|]. by eapply precheck_ok.
  - intros. by apply commit_ok.
Qed.

(** C2. Anti-replay, on targets whose usize has 64 bits: along every history of sends and receives that starts
    from a new session and in which no receive slot has been idle for more than
    30 s, no (direction, nonce) pair is accepted twice, whatever packets the
    network delivers. *)
Theorem no_replay (f : Features) (key : list Z) (g e : Z) (sa ra : string) (now : Z)
    (st : Session) (acc : list (SecureDatagramDirection * list Z)) :
  64 <= usize_bits -> u32 e -> session_run f (session_new key g e sa ra now) st acc -> NoDup acc.
Proof.
  intros H64 He Hrun.
  by destruct (run_remembers H64 f _ _ _ (session_new_remembers f key g e sa ra now He) Hrun).
Qed.

(** C3. With any algorithm but XOR and on targets whose usize has 64 bits: a
    packet not yet marked encrypted that one session seals and that is given to
    a live session with the same root key and algorithm is either delivered bit for bit, or refused as
    a replay and left as it was; which one is exactly the verdict of the
    replay pre-check on the sender's epoch and sequence number. *)
Theorem session_delivery `{HL : !CryptoLaws L} (f : Features) (S R S' : Session)
    (dir : SecureDatagramDirection) (rng : list Z) (p p' : ZCPacket) (h : PeerManagerHeader)
    (now t : Z) :
  64 <= usize_bits -> session_ok f S -> session_ok f R -> paired S R ->
  EncryptionAlgorithm_from_str (send_cipher_algorithm S) <> Ok Xor -> is_valid R = true ->
  bytes_ok (inner p) -> peer_manager_header p = Some h -> is_encrypted h = false ->
  encrypt_payload f S dir rng p now = Ret (S', p', Ok tt) ->
  exists R1 b R', precheck_replay R (send_epoch S') (at_dir dir (send_seq S)) dir t = Ret (R1, b) /\
    decrypt_payload f R dir p' t =
      if b : bool then Ret (R', p, Ok tt) else Ret (R', p', Err ReplayRejected).
Proof.
  intros H64 Hs Hr Hp Hx Hv Hb Hh He Henc.
  destruct (deliver_cases H64 f S R dir rng p now S' p' h t) as (R1 & b & R' & E & _ & _ & Hd);
    [done..|]. eauto.
Qed.

(** In-order delivery: from two new sessions with a common root key, any
    stream of packets the sender seals, of any length below the wrap-around of
    the counters and across any number of epoch rotations, is opened completely
    and unchanged by the receiver, at any receive times (idle recycling of the
    slots included). *)
Theorem in_order_delivery `{HL : !CryptoLaws L} (f : Features) (key : list Z) (g1 g2 e1 e2 : Z)
    (sa ra sb : string) (t1 t2 : Z) (dir : SecureDatagramDirection) (l : list parcel) :
  64 <= usize_bits -> u32 e1 -> u32 e2 -> e1 + len l < 2 ^ 32 -> len l < 2 ^ 64 ->
  EncryptionAlgorithm_from_str sa <> Ok Xor ->
  sealed_stream f dir (session_new key g1 e1 sa ra t1) l ->
  open_stream f (session_new key g2 e2 sb sa t2) dir l = Ret (map (fun c => (pc_packet c, Ok tt)) l).
Proof.
  intros H64 He1 He2 Hw1 Hw2 Hx Hl.
  eapply open_stream_ok; [done|done| |exact Hl|done|by destruct dir].
  split; try by apply session_new_ok.
  1-4: done.
  by destruct dir.
Qed.

(** Nonces across key syncs: along every sequence of sends and key syncs
    in which each sync moves to an epoch above the session's own, no
    (direction, epoch, sequence number) is used twice, even when a sync keeps
    the root key and resets the sequence numbers. *)
Theorem sequential_nonces_unique (key : list Z) (g e : Z) (sa ra : string) (now : Z)
    (st : Session) (l : list (SecureDatagramDirection * Z * Z)) :
  u32 e -> send_history (session_new key g e sa ra now) st l -> NoDup l.
Proof.
  intros He Hh. eapply send_history_behind in Hh; [by destruct Hh as (_ & _ & _ & ?)|done|].
  by intros [].
Qed.
End properties.

(** ** Witnesses *)

Section witnesses.
Definition toy_hmac : HmacLib := fun k m => repeat 5 32.
#[local] Existing Instance toy_hmac.
#[local] Existing Instance toy_lib.
#[local] Instance target64 : Target := 64.

Definition sender0 : Session := session_new (repeat 1 32) 1 0 "aes-gcm" "chacha20" 1000.
Definition receiver0 : Session := session_new (repeat 1 32) 1 0 "chacha20" "aes-gcm" 1000.
Definition after_send : Session * ZCPacket :=
  match encrypt_payload full_features sender0 AToB [] clear_packet 1001 with
  | Ret (s, p, Ok _) => (s, p)
  | _ => (sender0, clear_packet)
  end.
Definition wire0 : ZCPacket := after_send.2.
Definition after_receive : Session :=
  match decrypt_payload full_features receiver0 AToB wire0 1002 with
  | Ret (s, _, _) => s
  | _ => receiver0
  end.

Lemma sender0_ok : session_ok full_features sender0.
Proof. by apply session_new_ok. Qed.
Lemma receiver0_ok : session_ok full_features receiver0.
Proof. by apply session_new_ok. Qed.
Lemma clear_packet_bytes : bytes_ok (inner clear_packet).
Proof. by apply (bool_decide_unpack _). Qed.

Lemma after_send_eq :
  encrypt_payload full_features sender0 AToB [] clear_packet 1001 = Ret (after_send.1, wire0, Ok tt).
Proof.
  assert (E : match encrypt_payload full_features sender0 AToB [] clear_packet 1001 with
              | Ret (_, _, r) => r = Ok tt | Panic => False end) by (vm_compute; reflexivity).
  unfold wire0, after_send. destruct (encrypt_payload _ _ _ _ _ _) as [[[s p] r]|]; [|done]. by subst r.
Qed.
Lemma after_receive_eq :
  decrypt_payload full_features receiver0 AToB wire0 1002 = Ret (after_receive, clear_packet, Ok tt).
Proof.
  assert (E : match decrypt_payload full_features receiver0 AToB wire0 1002 with
              | Ret (_, p, r) => p = clear_packet /\ r = Ok tt | Panic => False end)
    by (vm_compute; split; reflexivity).
  unfold after_receive. destruct (decrypt_payload _ _ _ _ _) as [[[s p] r]|]; [|done].
  by destruct E as [-> ->].
Qed.

Lemma one_packet_run :
  session_run full_features receiver0 after_receive [(AToB, make_nonce 0 0)].
Proof.
  eapply (run_recv _ _ receiver0 [] AToB wire0 1002 after_receive clear_packet).
  - constructor.
  - by apply (bool_decide_unpack _).
  - reflexivity.
  - exact after_receive_eq.
  - vm_compute. reflexivity.
Qed.

(** A packet opened, the same packet once its slot was idle, a key sync, a
    packet sealed under the new key. *)
Definition after_replay : Session :=
  match decrypt_payload full_features after_receive AToB wire0 31003 with
  | Ret (s, _, _) => s
  | _ => after_receive
  end.
Definition after_sync : Session := sync_root_key after_replay (repeat 2 32) 2 5 true 31004 31004.
Definition after_rekeyed_send : Session :=
  match encrypt_payload full_features after_sync BToA [] clear_packet 31005 with
  | Ret (s, _, _) => s
  | _ => after_sync
  end.

Lemma busy_history : session_history full_features receiver0 after_rekeyed_send.
Proof.
  assert (Hr : exists p r,
    decrypt_payload full_features after_receive AToB wire0 31003 = Ret (after_replay, p, r)).
  { unfold after_replay.
    assert (E : match decrypt_payload full_features after_receive AToB wire0 31003 with
      | Ret _ => True | Panic => False end) by (vm_compute; exact I).
    destruct (decrypt_payload _ _ _ _ _) as [[[s p] r]|]; [by eauto|done]. }
  assert (Hs : exists p r,
    encrypt_payload full_features after_sync BToA [] clear_packet 31005 = Ret (after_rekeyed_send, p, r)).
  { unfold after_rekeyed_send.
    assert (E : match encrypt_payload full_features after_sync BToA [] clear_packet 31005 with
      | Ret _ => True | Panic => False end) by (vm_compute; exact I).
    destruct (encrypt_payload _ _ _ _ _ _) as [[[s p] r]|]; [by eauto|done]. }
  destruct Hr as (p1 & r1 & E1), Hs as (p2 & r2 & E2).
  eapply history_send; [|exact E2]. unfold after_sync.
  apply (history_sync _ _ after_replay); [|by split].
  eapply history_receive; [| |exact E1]; [|by apply (bool_decide_unpack _)].
  eapply history_receive; [constructor| |exact after_receive_eq]. by apply (bool_decide_unpack _).
Qed.

Lemma session_invariant_witness : session_ok full_features after_rekeyed_send.
Proof.
  apply (session_invariant full_features (repeat 1 32) 1 0 "chacha20" "aes-gcm" 1000);
    [done|done|exact busy_history].
Defined.

Lemma no_replay_witness : NoDup [(AToB, make_nonce 0 0)].
Proof.
  apply (no_replay full_features (repeat 1 32) 1 0 "chacha20" "aes-gcm" 1000 after_receive);
    [done|done|exact one_packet_run].
Defined.

Lemma session_delivery_witness :
  exists R1 b R', precheck_replay receiver0 0 0 AToB 1002 = Ret (R1, b) /\
    decrypt_payload full_features receiver0 AToB wire0 1002 =
      if b : bool then Ret (R', clear_packet, Ok tt) else Ret (R', wire0, Err ReplayRejected).
Proof.
  apply (session_delivery full_features sender0 receiver0 after_send.1 AToB [] clear_packet wire0
    clear_header 1001 1002).
  - done.
  - exact sender0_ok.
  - exact receiver0_ok.
  - split; reflexivity.
  - vm_compute. congruence.
  - reflexivity.
  - exact clear_packet_bytes.
  - reflexivity.
  - reflexivity.
  - exact after_send_eq.
Defined.

Lemma in_order_delivery_witness :
  open_stream full_features receiver0 AToB
    [{| pc_rng := []; pc_packet := clear_packet; pc_sent := 1001; pc_wire := wire0;
        pc_received := 99999 |}] = Ret [(clear_packet, Ok tt)].
Proof.
  apply (in_order_delivery full_features (repeat 1 32) 1 1 0 0 "aes-gcm" "chacha20" "chacha20"
    1000 1000 AToB [{| pc_rng := []; pc_packet := clear_packet; pc_sent := 1001; pc_wire := wire0;
        pc_received := 99999 |}]).
  - done.
  - done.
  - done.
  - vm_compute. reflexivity.
  - vm_compute. reflexivity.
  - vm_compute. congruence.
  - apply sealed_cons with after_send.1.
    + split; [exact clear_packet_bytes|]. exists clear_header. split; reflexivity.
    + exact after_send_eq.
    + constructor.
Defined.

Lemma sequential_nonces_unique_witness : NoDup [(BToA, 1, 0); (AToB, 0, 0)].
Proof.
  set (s1 := (next_nonce sender0 AToB 1001).1).
  set (s2 := sync_root_key s1 (repeat 1 32) 1 1 true 1002 1002).
  apply (sequential_nonces_unique (repeat 1 32) 1 0 "aes-gcm" "chacha20" 1000 (next_nonce s2 BToA 1003).1);
    [done|].
  apply (hist_send _ s2 [(AToB, 0, 0)] BToA 1003 _ 1 0 (make_nonce 1 0));
    [|vm_compute; reflexivity|done|done].
  apply hist_sync; [|done|done].
  apply (hist_send _ sender0 [] AToB 1001 _ 0 0 (make_nonce 0 0));
    [constructor|vm_compute; reflexivity|done|done].
Defined.

(** Recycling an idle slot forgets what it accepted: a packet delivered at
    one time is delivered again, bit for bit, once its slot has been idle for
    more than 30 s. *)
Theorem idle_slot_allows_replay :
  match decrypt_payload full_features after_receive AToB wire0 31001 with
  | Ret (_, p, r) => p = wire0 /\ r = Err ReplayRejected
  | Panic => False
  end /\
  match decrypt_payload full_features after_receive AToB wire0 31003 with
  | Ret (_, p, r) => p = clear_packet /\ r = Ok tt
  | Panic => False
  end.
Proof. vm_compute. done. Qed.
End witnesses.

(** With the XOR cipher, which the sessions accept, nothing marks the nonce:
    the receiver reads the epoch from the last bytes of the ciphertext, opens
    the packet with that epoch's key, and reports other bytes than those sent
    as a success. *)
Section xor.
Definition sum_hmac : HmacLib := fun _ m => repeat (wrap 8 (foldr Z.add 0 m)) 32.
#[local] Existing Instance sum_hmac.
#[local] Existing Instance toy_lib.
#[local] Instance xor_target : Target := 64.

Definition xor_session : Session := session_new (repeat 1 32) 1 0 "xor" "xor" 1000.
Definition long_packet : ZCPacket :=
  mk_packet DummyTunnel []
    {| from_peer_id := 1; to_peer_id := 2; pm_packet_type := 1; flags := 2;
       forward_counter := 1; reserved := 0; pm_len := 40 |} (repeat 9 40).

Example xor_session_corrupts :
  match encrypt_payload full_features xor_session AToB [] long_packet 1001 with
  | Ret (_, wire, Ok _) =>
      match decrypt_payload full_features xor_session AToB wire 1002 with
      | Ret (_, p, r) => r = Ok tt /\ payload p <> payload long_packet
      | Panic => False
      end
  | _ => False
  end.
Proof. vm_compute. split; [reflexivity|discriminate]. Qed.
End xor.
