(* ===== verification/SenderThreads.v ===== *)
(** The send path of [tunnel/secure_datagram.rs] under interleaving: threads
    that call [next_nonce] on one session, each step one access to an atomic,
    and a thread in [sync_root_key].  Nonces are unique across all
    interleavings of senders; against a concurrent [sync_root_key] they are
    not. *)

From S2P Require Import Prelude Headers Packet Encrypt ReplayWindow SecureDatagram.
From stdpp Require Import list gmap relations.
Local Open Scope Z_scope.

(** The atomics of the send side. *)
Record SendState := {
  a_epoch : Z; a_seq : two Z; a_started : Z; a_packets : Z }.

(** Where a thread is inside [next_nonce(dir)]; locals are arguments. *)
Inductive pc :=
  | Idle
  | CountPacket (dir : SecureDatagramDirection) (now_ms : Z)
  | LoadStarted (dir : SecureDatagramDirection) (now_ms packets : Z)
  | LoadCur (dir : SecureDatagramDirection) (now_ms : Z)
  | CasEpoch (dir : SecureDatagramDirection) (now_ms cur : Z)
  | StoreStarted (dir : SecureDatagramDirection) (now_ms : Z)
  | StorePackets (dir : SecureDatagramDirection)
  | LoadEpoch (dir : SecureDatagramDirection)
  | TakeSeq (dir : SecureDatagramDirection) (epoch : Z).

(** The nonces handed out, latest first. *)
Abbreviation nonce_log := (list (SecureDatagramDirection * Z * Z)).

Definition set_epoch (m : SendState) (v : Z) : SendState :=
  {| a_epoch := v; a_seq := a_seq m; a_started := a_started m; a_packets := a_packets m |}.
Definition set_seq (m : SendState) (v : two Z) : SendState :=
  {| a_epoch := a_epoch m; a_seq := v; a_started := a_started m; a_packets := a_packets m |}.
Definition set_started (m : SendState) (v : Z) : SendState :=
  {| a_epoch := a_epoch m; a_seq := a_seq m; a_started := v; a_packets := a_packets m |}.
Definition set_packets (m : SendState) (v : Z) : SendState :=
  {| a_epoch := a_epoch m; a_seq := a_seq m; a_started := a_started m; a_packets := v |}.

(** One atomic access of a thread inside [next_nonce]: the memory after it,
    the next control point and the nonce it completes, if any. *)
Definition nonce_step (m : SendState) (c : pc)
    : option (SendState * pc * option (SecureDatagramDirection * Z * Z)) :=
  match c with
  | Idle => None
  | CountPacket dir now =>
    let packets := wrap 64 (a_packets m + 1) in
    Some (set_packets m packets, LoadStarted dir now packets, None)
  | LoadStarted dir now packets =>
    if epoch_still_fresh packets now (a_started m)
    then Some (m, LoadEpoch dir, None)
    else Some (m, LoadCur dir now, None)
  | LoadCur dir now => Some (m, CasEpoch dir now (a_epoch m), None)
  | CasEpoch dir now cur =>
    if a_epoch m =? cur
    then Some (set_epoch m (wrap 32 (cur + 1)), StoreStarted dir now, None)
    else Some (m, LoadEpoch dir, None)
  | StoreStarted dir now => Some (set_started m now, StorePackets dir, None)
  | StorePackets dir => Some (set_packets m 0, LoadEpoch dir, None)
  | LoadEpoch dir => Some (m, TakeSeq dir (a_epoch m), None)
  | TakeSeq dir epoch =>
    let seq := at_dir dir (a_seq m) in
    Some (set_seq m (put_dir dir (wrap 64 (seq + 1)) (a_seq m)), Idle, Some (dir, epoch, seq))
  end.

(** The stores of [sync_root_key] to the send side, in order. *)
Inductive sync_pc :=
  | SyncEpoch (epoch now_ms : Z) | SyncSeq0 (now_ms : Z) | SyncSeq1 (now_ms : Z)
  | SyncStarted (now_ms : Z) | SyncPackets | SyncDone.
Definition sync_step (m : SendState) (c : sync_pc) : option (SendState * sync_pc) :=
  match c with
  | SyncEpoch e now => Some (set_epoch m e, SyncSeq0 now)
  | SyncSeq0 now => Some (set_seq m (0, (a_seq m).2), SyncSeq1 now)
  | SyncSeq1 now => Some (set_seq m ((a_seq m).1, 0), SyncStarted now)
  | SyncStarted now => Some (set_started m now, SyncPackets)
  | SyncPackets => Some (set_packets m 0, SyncDone)
  | SyncDone => None
  end.

Record Machine := { mem : SendState; threads : gmap nat pc; log : nonce_log }.

Definition emit (o : option (SecureDatagramDirection * Z * Z)) (l : nonce_log) : nonce_log :=
  match o with Some n => n :: l | None => l end.

(** Any thread may start a call when idle and may take its next access at any
    time. *)
Inductive send_step : Machine -> Machine -> Prop :=
  | call_step mc i dir now :
      threads mc !! i = Some Idle ->
      send_step mc {| mem := mem mc; threads := <[i := CountPacket dir now]> (threads mc);
                      log := log mc |}
  | access_step mc i c m' c' o :
      threads mc !! i = Some c -> nonce_step (mem mc) c = Some (m', c', o) ->
      send_step mc {| mem := m'; threads := <[i := c']> (threads mc); log := emit o (log mc) |}.

(** The send side of a session. *)
Definition send_side (st : Session) : SendState :=
  {| a_epoch := send_epoch st; a_seq := send_seq st;
     a_started := send_epoch_started_ms st; a_packets := send_packets_since_epoch st |}.

(** ** Uniqueness *)

Definition dir_seq (n : SecureDatagramDirection * Z * Z) : SecureDatagramDirection * Z := (n.1.1, n.2).

(** While the counters have not wrapped, every number handed out in a
    direction is below the counter. *)
Record log_inv (mc : Machine) : Prop := {
  li_below : forall d e s, (d, e, s) ∈ log mc -> s < at_dir d (a_seq (mem mc));
  li_nodup : NoDup (dir_seq <$> log mc);
  li_count : forall d, 0 <= at_dir d (a_seq (mem mc)) <= len (log mc) }.

Lemma nonce_step_mem m c m' c' o :
  nonce_step m c = Some (m', c', o) ->
  match o with
  | None => a_seq m' = a_seq m
  | Some (d, e, s) => s = at_dir d (a_seq m) /\ a_seq m' = put_dir d (wrap 64 (s + 1)) (a_seq m)
  end.
Proof. destruct c; cbn; repeat case_match; intros; by simplify_eq. Qed.

Lemma log_inv_same mc m' th : log_inv mc -> a_seq m' = a_seq (mem mc) ->
  log_inv {| mem := m'; threads := th; log := log mc |}.
Proof. intros [Hb Hn Hc] E. split; cbn; rewrite ?E; [apply Hb|done|apply Hc]. Qed.

Lemma log_inv_emit mc m' th d e s :
  log_inv mc -> s = at_dir d (a_seq (mem mc)) -> s + 1 < 2 ^ 64 ->
  a_seq m' = put_dir d (wrap 64 (s + 1)) (a_seq (mem mc)) ->
  log_inv {| mem := m'; threads := th; log := (d, e, s) :: log mc |}.
Proof.
  intros [Hb Hn Hc] Hs Hw E. pose proof (Hc d) as Hd.
  rewrite wrap_small in E by (split; lia). split; cbn [mem log]; rewrite ?E.
  - intros d' e' s' [Heq|Hin]%elem_of_cons.
    + injection Heq as -> -> ->. rewrite at_put_dir. lia.
    + specialize (Hb _ _ _ Hin). destruct (decide (d = d')) as [->|Hne].
      * rewrite at_put_dir. lia.
      * by rewrite at_put_other.
  - cbn. constructor; [|done]. intros ([[d' e'] s'] & Heq & Hin)%list_elem_of_fmap.
    injection Heq as <- <-. specialize (Hb _ _ _ Hin). lia.
  - intros d'. rewrite len_cons. destruct (decide (d = d')) as [->|Hne].
    + rewrite at_put_dir. lia.
    + rewrite at_put_other by done. specialize (Hc d'). lia.
Qed.

Lemma send_step_inv mc mc' : send_step mc mc' -> len (log mc') < 2 ^ 64 -> log_inv mc -> log_inv mc'.
Proof.
  destruct 1 as [mc i dir now _|mc i c m' c' o _ E]; cbn [log]; intros Hlen Hinv.
  - by apply log_inv_same.
  - apply nonce_step_mem in E. destruct o as [[[d e] s]|]; cbn [emit] in *; [|by apply log_inv_same].
    destruct E as [-> E]. rewrite len_cons in Hlen. pose proof (li_count _ Hinv d).
    apply log_inv_emit; [done..|lia|done].
Qed.

Lemma send_step_log mc mc' : send_step mc mc' -> len (log mc) <= len (log mc').
Proof.
  destruct 1 as [|mc i c m' c' o]; cbn [log]; [done|]. destruct o; cbn [emit]; rewrite ?len_cons; lia.
Qed.

Lemma send_steps_inv mc mc' :
  rtc send_step mc mc' -> len (log mc') < 2 ^ 64 -> log_inv mc -> log_inv mc'.
Proof.
  intros Hr Hlen. induction Hr as [|mc mc1 mc' Hs Hr IH]; [done|]. intros Hinv.
  apply IH; [done|]. eapply send_step_inv; [done| |done].
  assert (len (log mc1) <= len (log mc')); [|lia]. clear -Hr.
  induction Hr as [|x y z Hs Hr IH]; [done|]. apply send_step_log in Hs. lia.
Qed.

(** ** One thread alone is [next_nonce] *)

Definition is_idle (c : pc) : bool := match c with Idle => true | _ => false end.

(** Up to [n] accesses of one thread, until its call returns. *)
Fixpoint solo (n : nat) (m : SendState) (c : pc)
    : option (SendState * option (SecureDatagramDirection * Z * Z)) :=
  match n with
  | O => None
  | S n =>
    match nonce_step m c with
    | Some (m', c', o) => if is_idle c' then Some (m', o) else solo n m' c'
    | None => None
    end
  end.

Lemma solo_step n m c m' c' o : nonce_step m c = Some (m', c', o) ->
  solo (S n) m c = if is_idle c' then Some (m', o) else solo n m' c'.
Proof. intros E. cbn [solo]. by rewrite E. Qed.

(** From the epoch load on. *)
Lemma solo_take n m dir :
  solo (S (S n)) m (LoadEpoch dir) =
    Some (set_seq m (put_dir dir (wrap 64 (at_dir dir (a_seq m) + 1)) (a_seq m)),
          Some (dir, a_epoch m, at_dir dir (a_seq m))).
Proof. erewrite !solo_step by reflexivity. reflexivity. Qed.

(** ** A sender against [sync_root_key]

    Schedules of one sending thread, calling [next_nonce(AToB)] again and again
    at time 1, and one thread in [sync_root_key] towards epoch 1. *)
Inductive action := Access | Sync.

Record Duel := { d_mem : SendState; d_pc : pc; d_sync : sync_pc; d_log : nonce_log }.
Definition duel_step (d : Duel) (a : action) : option Duel :=
  match a with
  | Access =>
    let c := if is_idle (d_pc d) then CountPacket AToB 1 else d_pc d in
    '(m, c, o) ← nonce_step (d_mem d) c;
    Some {| d_mem := m; d_pc := c; d_sync := d_sync d; d_log := emit o (d_log d) |}
  | Sync =>
    '(m, y) ← sync_step (d_mem d) (d_sync d);
    Some {| d_mem := m; d_pc := d_pc d; d_sync := y; d_log := d_log d |}
  end.
Fixpoint duel (d : Duel) (l : list action) : option Duel :=
  match l with
  | [] => Some d
  | a :: l => d ← duel_step d a; duel d l
  end.
Definition new_duel : Duel :=
  {| d_mem := {| a_epoch := 0; a_seq := (0, 0); a_started := 0; a_packets := 0 |};
     d_pc := Idle; d_sync := SyncEpoch 1 1; d_log := [] |}.

(** ** Properties *)

(** C19. Nonce uniqueness under concurrency: starting from any point where no
    nonce has been handed out, in every interleaving of any number of threads
    calling [next_nonce], epoch rotations and lost compare-exchanges included,
    no two calls in the same direction get the same sequence number (so no two
    get the same nonce), as long as fewer than [2^64] nonces were handed out. *)
Theorem concurrent_nonces_unique (m0 : SendState) (ts : gmap nat pc) (mc : Machine) :
  a_seq m0 = (0, 0) ->
  rtc send_step {| mem := m0; threads := ts; log := [] |} mc -> len (log mc) < 2 ^ 64 ->
  NoDup (dir_seq <$> log mc) /\ NoDup (log mc).
Proof.
  intros E0 Hr Hlen. destruct (send_steps_inv _ _ Hr Hlen) as [_ Hn _].
  { split; cbn; [by intros ? ? ? ?%elem_of_nil|constructor|].
    intros d. rewrite E0. unfold len. by destruct d. }
  split; [done|]. by apply NoDup_fmap_1 in Hn.
Qed.

Definition start_mem : SendState :=
  {| a_epoch := 3; a_seq := (0, 0); a_started := 0; a_packets := 0 |}.

Lemma concurrent_nonces_unique_witness :
  exists mc, rtc send_step {| mem := start_mem; threads := {[ 0%nat := Idle; 1%nat := Idle ]}; log := [] |} mc /\
    log mc = [(AToB, 3, 0)] /\ NoDup (log mc).
Proof.
  assert (Hrun : exists mc, rtc send_step
    {| mem := start_mem; threads := {[ 0%nat := Idle; 1%nat := Idle ]}; log := [] |} mc /\
    log mc = [(AToB, 3, 0)]).
  { eexists. split.
    - eapply rtc_l; [eapply (call_step _ 0%nat AToB 5); reflexivity|].
      eapply rtc_l; [eapply (access_step _ 0%nat); reflexivity|].
      eapply rtc_l; [eapply (call_step _ 1%nat BToA 6); reflexivity|].
      eapply rtc_l; [eapply (access_step _ 0%nat); reflexivity|].
      eapply rtc_l; [eapply (access_step _ 0%nat); reflexivity|].
      eapply rtc_l; [eapply (access_step _ 0%nat); reflexivity|]. apply rtc_refl.
    - reflexivity. }
  destruct Hrun as (mc & Hrun & El). exists mc. split; [exact Hrun|]. split; [exact El|].
  apply (concurrent_nonces_unique start_mem _ mc eq_refl Hrun). rewrite El. reflexivity.
Defined.

#[local] Opaque wrap epoch_still_fresh.

(** A thread running alone through its accesses computes the method as
    translated: for every session and clock reading it reaches the same send
    side and the same epoch and sequence number as [next_nonce], in at most
    eight accesses. *)
Theorem solo_is_next_nonce (st : Session) (dir : SecureDatagramDirection) (now_ms : Z) :
  let '(st', (e, s, _)) := next_nonce st dir now_ms in
  solo 8 (send_side st) (CountPacket dir now_ms) = Some (send_side st', Some (dir, e, s)).
Proof.
  unfold next_nonce, maybe_rotate_epoch. cbn [send_epoch_started_ms with_send].
  erewrite solo_step by reflexivity. cbn [is_idle].
  destruct (epoch_still_fresh _ _ _) eqn:E.
  - erewrite solo_step by (cbn [nonce_step]; cbn; rewrite E; reflexivity).
    cbn [is_idle]. by rewrite solo_take.
  - erewrite solo_step by (cbn [nonce_step]; cbn; rewrite E; reflexivity). cbn [is_idle].
    erewrite solo_step by reflexivity. cbn [is_idle].
    erewrite solo_step by (cbn [nonce_step]; rewrite Z.eqb_refl; reflexivity). cbn [is_idle].
    erewrite solo_step by reflexivity. cbn [is_idle].
    erewrite solo_step by reflexivity. cbn [is_idle].
    by rewrite solo_take.
Qed.

#[local] Transparent wrap epoch_still_fresh.

(** A sender that has loaded the epoch when another thread runs
    [sync_root_key] draws its sequence number from the reset counter under the
    old epoch: with the root key unchanged, the first nonce of the old epoch is
    handed out twice. *)
Theorem sync_race_reuses_nonce :
  d_log <$> duel new_duel
    [Access; Access; Access; Access; (* a first packet *)
     Access; Access; Access;         (* a second one, up to its sequence number *)
     Sync; Sync;                     (* the new epoch and the counter reset *)
     Access] =
  Some [(AToB, 0, 0); (AToB, 0, 0)].
Proof. vm_compute. reflexivity. Qed.
