(* ===== verification/PeerSession.v ===== *)
(** [peers/conn/peer_session.rs]: one secure session per peer, shared by all
    its connections through [Arc], and the store that the handshake's join,
    sync and create rules act on.

    A store owns a heap of sessions addressed by [Arc] identity, so that a
    session reached through two entries or handles is one object.  Clock
    readings, fresh root keys and "some connection still holds this [Arc]" are
    arguments. *)

From S2P Require Import Prelude Headers Packet Encrypt ReplayWindow SecureDatagram.
From stdpp Require Import list strings gmap.
Local Open Scope Z_scope.

Definition SESSION_IDLE_TIMEOUT : Z := 60000.

Inductive PeerSessionAction := Join | Sync | Create.
#[export] Instance PeerSessionAction_eq_dec : EqDecision PeerSessionAction.
Proof. solve_decision. Defined.

(** [SessionKey]: network name and peer id. *)
Abbreviation SessionKey := (string * Z)%type.

Record PeerSession := {
  ps_peer_id : Z;
  peer_static_pubkey : option (list Z);
  datagram : Session;
  ps_invalidated : bool }.

Inductive StoreError :=
  | NoSessionForJoin
  | JoinGenerationMismatch
  | MissingRootKey
  | StaticPubkeyMismatch
  | StoreSessionError (e : SessionError).

Definition PeerSession_new (peer_id : Z) (key : list Z) (generation initial_epoch : Z)
    (send_alg recv_alg : string) (pubkey : option (list Z)) (now_ms : Z) : PeerSession :=
  {| ps_peer_id := peer_id; peer_static_pubkey := pubkey;
     datagram := session_new key generation initial_epoch send_alg recv_alg now_ms;
     ps_invalidated := false |}.

Definition with_datagram (s : PeerSession) (d : Session) : PeerSession :=
  {| ps_peer_id := ps_peer_id s; peer_static_pubkey := peer_static_pubkey s;
     datagram := d; ps_invalidated := ps_invalidated s |}.

Definition PeerSession_invalidate (s : PeerSession) : PeerSession :=
  {| ps_peer_id := ps_peer_id s; peer_static_pubkey := peer_static_pubkey s;
     datagram := invalidate (datagram s); ps_invalidated := true |}.
Definition PeerSession_is_valid (s : PeerSession) : bool :=
  negb (ps_invalidated s) && is_valid (datagram s).
Definition ps_generation (s : PeerSession) : Z := session_generation (datagram s).
Definition ps_root_key (s : PeerSession) : list Z := root_key (datagram s).

Definition check_or_set_peer_static_pubkey (s : PeerSession) (pubkey : option (list Z))
    : PeerSession * result StoreError unit :=
  match pubkey with
  | None => (s, Ok tt)
  | Some k =>
    match peer_static_pubkey s with
    | Some existing =>
      if negb (bool_decide (existing = k)) then (s, Err StaticPubkeyMismatch) else (s, Ok tt)
    | None =>
      ({| ps_peer_id := ps_peer_id s; peer_static_pubkey := Some k;
          datagram := datagram s; ps_invalidated := ps_invalidated s |}, Ok tt)
    end
  end.

Definition dir_for_sender (sender_peer_id receiver_peer_id : Z) : SecureDatagramDirection :=
  if sender_peer_id <? receiver_peer_id then AToB else BToA.

Section data_path.
Context {T : Target} {H : HmacLib} {L : CryptoLib} (f : Features).

Definition PeerSession_encrypt_payload (s : PeerSession) (sender receiver : Z) (rng : list Z)
    (pkt : ZCPacket) (now_ms : Z) : comp (PeerSession * ZCPacket * result SessionError unit) :=
  if negb (PeerSession_is_valid s) then Ret (s, pkt, Err SessionInvalidated) else
  '(d, pkt, r) ← encrypt_payload f (datagram s) (dir_for_sender sender receiver) rng pkt now_ms;
  Ret (with_datagram s d, pkt, r).

Definition PeerSession_decrypt_payload (s : PeerSession) (sender receiver : Z)
    (pkt : ZCPacket) (now_ms : Z) : comp (PeerSession * ZCPacket * result SessionError unit) :=
  if negb (PeerSession_is_valid s) then Ret (s, pkt, Err SessionInvalidated) else
  '(d, pkt, r) ← decrypt_payload f (datagram s) (dir_for_sender sender receiver) pkt now_ms;
  Ret (with_datagram s d, pkt, r).
End data_path.

(** ** The store *)

Record PeerSessionEntry := { e_session : nat; last_used_at : Z }.

Record PeerSessionStore := {
  sessions : gmap SessionKey PeerSessionEntry;
  heap : gmap nat PeerSession;
  next_arc : nat }.

Definition store_new : PeerSessionStore := {| sessions := ∅; heap := ∅; next_arc := 0%nat |}.

Definition deref (st : PeerSessionStore) (a : nat) : comp PeerSession := unwrap (heap st !! a).
Definition put_session (st : PeerSessionStore) (a : nat) (s : PeerSession) : PeerSessionStore :=
  {| sessions := sessions st; heap := <[a := s]> (heap st); next_arc := next_arc st |}.
Definition put_entry (st : PeerSessionStore) (k : SessionKey) (e : PeerSessionEntry)
    : PeerSessionStore :=
  {| sessions := <[k := e]> (sessions st); heap := heap st; next_arc := next_arc st |}.
(** [Arc::new]. *)
Definition alloc (st : PeerSessionStore) (s : PeerSession) : PeerSessionStore * nat :=
  ({| sessions := sessions st; heap := <[next_arc st := s]> (heap st);
      next_arc := S (next_arc st) |}, next_arc st).

Definition touch (e : PeerSessionEntry) (now : Z) : PeerSessionEntry :=
  {| e_session := e_session e; last_used_at := now |}.

Definition store_remove (st : PeerSessionStore) (k : SessionKey) : PeerSessionStore :=
  {| sessions := delete k (sessions st); heap := heap st; next_arc := next_arc st |}.

Definition store_get (st : PeerSessionStore) (k : SessionKey) (now : Z)
    : comp (PeerSessionStore * option nat) :=
  match sessions st !! k with
  | None => Ret (st, None)
  | Some e =>
    let st := put_entry st k (touch e now) in
    s ← deref st (e_session e);
    if PeerSession_is_valid s then Ret (st, Some (e_session e))
    else Ret (store_remove st k, None)
  end.

(** [held a]: the strong count of [Arc] [a] is above one. *)
Definition keep_entry (st : PeerSessionStore) (idle now : Z) (held : nat -> bool)
    (e : PeerSessionEntry) : bool :=
  match heap st !! e_session e with
  | Some s => PeerSession_is_valid s && (held (e_session e) || (sat_sub now (last_used_at e) <? idle))
  | None => false
  end.
Definition evict_unused_sessions_idle (st : PeerSessionStore) (idle now : Z) (held : nat -> bool)
    : PeerSessionStore :=
  {| sessions := filter (fun kv => keep_entry st idle now held kv.2 = true) (sessions st);
     heap := heap st; next_arc := next_arc st |}.
Definition evict_unused_sessions (st : PeerSessionStore) (now : Z) (held : nat -> bool) :=
  evict_unused_sessions_idle st SESSION_IDLE_TIMEOUT now held.

Record UpsertResponderSessionReturn := {
  u_session : nat; u_action : PeerSessionAction; u_generation : Z;
  u_root_key : option (list Z); u_initial_epoch : Z }.

(** The checks both handshake sides make on an existing session. *)
Definition check_session (st : PeerSessionStore) (a : nat) (send_alg recv_alg : string)
    (pubkey : option (list Z)) : comp (PeerSessionStore * result StoreError unit) :=
  s ← deref st a;
  match check_encrypt_algo_same (datagram s) send_alg recv_alg with
  | Err e => Ret (st, Err (StoreSessionError e))
  | Ok _ =>
    let '(s, r) := check_or_set_peer_static_pubkey s pubkey in
    Ret (put_session st a s, r)
  end.

(** [fresh_key] is what [new_root_key] draws; [now] the monotonic clock and
    [now_ms] the wall clock. *)
Definition upsert_responder_session (st : PeerSessionStore) (k : SessionKey)
    (a_generation : option Z) (send_alg recv_alg : string) (pubkey : option (list Z))
    (fresh_key : list Z) (now now_ms : Z)
    : comp (PeerSessionStore * result StoreError UpsertResponderSessionReturn) :=
  '(st, existing) ←
    match sessions st !! k with
    | None => Ret (st, None)
    | Some e =>
      let st := put_entry st k (touch e now) in
      s ← deref st (e_session e);
      Ret (st, if PeerSession_is_valid s then Some (e_session e) else None)
    end;
  match existing with
  | None =>
    let generation := 1 in
    let initial_epoch := 0 in
    let '(st, a) := alloc st (PeerSession_new k.2 fresh_key generation initial_epoch
                                send_alg recv_alg pubkey now_ms) in
    let st := put_entry st k {| e_session := a; last_used_at := now |} in
    Ret (st, Ok {| u_session := a; u_action := Create; u_generation := generation;
                   u_root_key := Some fresh_key; u_initial_epoch := initial_epoch |})
  | Some a =>
    '(st, r) ← check_session st a send_alg recv_alg pubkey;
    match r with
    | Err e => Ret (st, Err e)
    | Ok _ =>
      s ← deref st a;
      let local_gen := ps_generation s in
      if bool_decide (a_generation = Some local_gen) then
        Ret (st, Ok {| u_session := a; u_action := Join; u_generation := local_gen;
                       u_root_key := None; u_initial_epoch := 0 |})
      else
        Ret (st, Ok {| u_session := a; u_action := Sync; u_generation := local_gen;
                       u_root_key := Some (ps_root_key s);
                       u_initial_epoch := next_sync_epoch (datagram s) |})
    end
  end.

Definition apply_initiator_action (st : PeerSessionStore) (k : SessionKey)
    (action : PeerSessionAction) (b_generation : Z) (root_key_32 : option (list Z))
    (initial_epoch : Z) (send_alg recv_alg : string) (pubkey : option (list Z))
    (now now_ms : Z) : comp (PeerSessionStore * result StoreError nat) :=
  match action with
  | Join =>
    '(st, found) ← store_get st k now;
    match found with
    | None => Ret (st, Err NoSessionForJoin)
    | Some a =>
      '(st, r) ← check_session st a send_alg recv_alg pubkey;
      match r with
      | Err e => Ret (st, Err e)
      | Ok _ =>
        s ← deref st a;
        if negb (ps_generation s =? b_generation) then Ret (st, Err JoinGenerationMismatch)
        else Ret (st, Ok a)
      end
    end
  | Sync | Create =>
    match root_key_32 with
    | None => Ret (st, Err MissingRootKey)
    | Some key =>
      st ←
        match sessions st !! k with
        | None => Ret st
        | Some e =>
          s ← deref st (e_session e);
          Ret (if negb (PeerSession_is_valid s) then store_remove st k else st)
        end;
      let '(st, a) :=
        match sessions st !! k with
        | Some e => (put_entry st k (touch e now), e_session e)
        | None =>
          let '(st, a) := alloc st (PeerSession_new k.2 key b_generation initial_epoch
                                      send_alg recv_alg pubkey now_ms) in
          (put_entry st k {| e_session := a; last_used_at := now |}, a)
        end in
      '(st, r) ← check_session st a send_alg recv_alg pubkey;
      match r with
      | Err e => Ret (st, Err e)
      | Ok _ =>
        s ← deref st a;
        let s := with_datagram s (sync_root_key (datagram s) key b_generation initial_epoch
                                    (bool_decide (action = Sync)) now_ms now_ms) in
        Ret (put_session st a s, Ok a)
      end
    end
  end.

(** ** Well-formed stores *)

(** Every entry's [Arc] points to a live session and fresh addresses are unused. *)
Record store_wf (st : PeerSessionStore) : Prop := {
  wf_entries : forall k e, sessions st !! k = Some e -> is_Some (heap st !! e_session e);
  wf_fresh : forall a, is_Some (heap st !! a) -> (a < next_arc st)%nat }.

Lemma store_new_wf : store_wf store_new.
Proof. split; intros *; cbn; [by rewrite lookup_empty|rewrite lookup_empty; by intros []]. Qed.

Lemma put_entry_wf st k e : store_wf st -> is_Some (heap st !! e_session e) -> store_wf (put_entry st k e).
Proof.
  intros [H1 H2] He. split; cbn; [|done]. intros k' e'.
  destruct (decide (k = k')) as [->|]; [rewrite lookup_insert_eq; by intros [= <-]|].
  rewrite lookup_insert_ne by done. apply H1.
Qed.

Lemma put_session_wf st a s : store_wf st -> is_Some (heap st !! a) -> store_wf (put_session st a s).
Proof.
  intros [H1 H2] Ha. split; cbn.
  - intros k e Hk. specialize (H1 k e Hk). destruct (decide (a = e_session e)) as [->|].
    + rewrite lookup_insert_eq. by eexists.
    + by rewrite lookup_insert_ne.
  - intros a'. destruct (decide (a = a')) as [->|]; [by intros _; apply H2|].
    rewrite lookup_insert_ne by done. apply H2.
Qed.

Lemma store_remove_wf st k : store_wf st -> store_wf (store_remove st k).
Proof.
  intros [H1 H2]. split; cbn; [|done]. intros k' e'. rewrite lookup_delete_Some. intros [_ ?]. eauto.
Qed.

Lemma alloc_wf st s : store_wf st ->
  store_wf (alloc st s).1 /\ heap (alloc st s).1 !! (alloc st s).2 = Some s.
Proof.
  intros [H1 H2]. split; [|apply lookup_insert_eq]. split; cbn.
  - intros k e Hk. destruct (H1 k e Hk) as [x Hx].
    rewrite lookup_insert_ne; [by eexists|]. intros E.
    assert (e_session e < next_arc st)%nat by (apply H2; by eexists). lia.
  - intros a. destruct (decide (next_arc st = a)) as [->|]; [lia|].
    rewrite lookup_insert_ne by done. intros Ha. specialize (H2 a Ha). lia.
Qed.

(** [s'] is [s] but for the pinned static key. *)
Definition same_session (s s' : PeerSession) : Prop :=
  datagram s' = datagram s /\ ps_invalidated s' = ps_invalidated s.

Lemma check_session_form st a s sa ra pk :
  heap st !! a = Some s ->
  exists s' r, same_session s s' /\
    (check_session st a sa ra pk = Ret (put_session st a s', r) \/
     (exists e, r = Err e /\ check_session st a sa ra pk = Ret (st, r))) /\
    (r = Ok tt -> send_cipher_algorithm (datagram s) = sa /\ recv_cipher_algorithm (datagram s) = ra).
Proof.
  intros Hs. unfold check_session, deref. rewrite Hs. cbn [unwrap mbind comp_bind].
  unfold check_encrypt_algo_same.
  destruct (negb _ || negb _) eqn:E.
  { exists s, (Err (StoreSessionError EncryptAlgorithmNotSame)). split; [done|].
    split; [|done]. right. eauto. }
  bools. rewrite bool_decide_eq_true in *.
  unfold check_or_set_peer_static_pubkey. destruct pk as [pk|].
  - destruct (peer_static_pubkey s) as [e|]; [destruct (negb _)|];
      (eexists _, _; split; [|split; [by left|]]; [by split|done]).
  - eexists _, _; split; [|split; [by left|]]; [by split|done].
Qed.

Lemma check_session_cases st a s sa ra pk : store_wf st -> heap st !! a = Some s ->
  exists st' r, check_session st a sa ra pk = Ret (st', r) /\ store_wf st' /\
    sessions st' = sessions st /\
    (exists s', heap st' !! a = Some s' /\ same_session s s') /\
    (r = Ok tt -> send_cipher_algorithm (datagram s) = sa /\ recv_cipher_algorithm (datagram s) = ra).
Proof.
  intros Hwf Hs. destruct (check_session_form st a s sa ra pk Hs) as (s' & r & Hss & Hc & Hr).
  destruct Hc as [Hc|(e & -> & Hc)].
  - exists (put_session st a s'), r. split_and!; [done|apply put_session_wf; [done|by eexists]|done| |done].
    exists s'. split; [apply lookup_insert_eq|done].
  - eexists _, _. split_and!; [exact Hc|done..|by exists s|done].
Qed.

Lemma store_get_cases st k now : store_wf st ->
  exists st' r, store_get st k now = Ret (st', r) /\ store_wf st' /\ heap st' = heap st /\
    match r with
    | Some a => (exists s, heap st !! a = Some s /\ PeerSession_is_valid s = true) /\
                (exists e, sessions st !! k = Some e /\ e_session e = a)
    | None => sessions st' !! k = None
    end.
Proof.
  intros Hwf. unfold store_get. destruct (sessions st !! k) as [e|] eqn:Ek; [|by eexists _, None].
  destruct (wf_entries _ Hwf _ _ Ek) as [s Hs].
  assert (Hwf' : store_wf (put_entry st k (touch e now))) by (apply put_entry_wf; [done|by eexists]).
  unfold deref; cbn [put_entry heap]. rewrite Hs. cbn [unwrap mbind comp_bind].
  destruct (PeerSession_is_valid s) eqn:Ev.
  - eexists _, (Some _). split_and!; eauto.
  - eexists _, None. split_and!; [done|by apply store_remove_wf|done|]. apply lookup_delete_eq.
Qed.

Lemma apply_join_cases st k g key ep sa ra pk now now_ms : store_wf st ->
  exists st' r, apply_initiator_action st k Join g key ep sa ra pk now now_ms = Ret (st', r) /\
    store_wf st' /\
    match r with
    | Ok a => exists s s0, heap st' !! a = Some s /\ heap st !! a = Some s0 /\ same_session s0 s /\
        (exists e, sessions st !! k = Some e /\ e_session e = a) /\
        PeerSession_is_valid s = true /\
        ps_generation s = g /\ send_cipher_algorithm (datagram s) = sa /\
        recv_cipher_algorithm (datagram s) = ra
    | Err _ => True
    end.
Proof.
  intros Hwf. unfold apply_initiator_action.
  destruct (store_get_cases st k now Hwf) as (st1 & r & -> & Hwf1 & Eh & Hr).
  cbn [mbind comp_bind]. destruct r as [a|]; [|by eexists _, (Err _)].
  destruct Hr as [(s & Hs & Hv) He]. rewrite <- Eh in Hs.
  destruct (check_session_cases st1 a s sa ra pk Hwf1 Hs)
    as (st2 & r2 & -> & Hwf2 & _ & (s' & Hs' & Hss) & Halg). cbn [mbind comp_bind].
  destruct r2 as [[]|e]; [|by eexists _, (Err _)].
  unfold deref. rewrite Hs'. cbn [unwrap mbind comp_bind].
  destruct (Z.eqb_spec (ps_generation s') g); cbn [negb]; [|by eexists _, (Err _)].
  eexists _, (Ok _). split_and!; [done..|]. exists s', s. rewrite <- Eh.
  destruct Hss as [E1 E2]. destruct (Halg eq_refl) as [Ha1 Ha2].
  unfold PeerSession_is_valid in *. rewrite E1, E2. by split_and!.
Qed.

(** The entry [apply_initiator_action] works on when it installs a key. *)
Lemma apply_install_cases st k act g key ep sa ra pk now now_ms : store_wf st -> act <> Join ->
  exists st' r, apply_initiator_action st k act g (Some key) ep sa ra pk now now_ms = Ret (st', r) /\
    store_wf st' /\
    match r with
    | Ok a => exists s, heap st' !! a = Some s /\
        (exists e, sessions st' !! k = Some e /\ e_session e = a) /\
        PeerSession_is_valid s = true /\ ps_generation s = g /\ ps_root_key s = key /\
        send_epoch (datagram s) = ep /\ send_seq (datagram s) = (0, 0) /\
        send_cipher_algorithm (datagram s) = sa /\ recv_cipher_algorithm (datagram s) = ra
    | Err _ => True
    end.
Proof.
  intros Hwf Hact.
  assert (Hpre : exists st1, (match sessions st !! k with
      | None => Ret st
      | Some e => s ← deref st (e_session e);
          Ret (if negb (PeerSession_is_valid s) then store_remove st k else st) end) = Ret st1 /\
    store_wf st1 /\
    (forall e, sessions st1 !! k = Some e -> exists s, heap st1 !! e_session e = Some s /\
        PeerSession_is_valid s = true)).
  { destruct (sessions st !! k) as [e|] eqn:Ek.
    2: { eexists. split_and!; [done..|]. intros e. by rewrite Ek. }
    destruct (wf_entries _ Hwf _ _ Ek) as [s Hs]. unfold deref. rewrite Hs. cbn [unwrap mbind comp_bind].
    destruct (PeerSession_is_valid s) eqn:Ev; cbn [negb]; eexists; (split; [done|]).
    - split; [done|]. rewrite Ek. intros e' [= <-]. eauto.
    - split; [by apply store_remove_wf|]. cbn. by rewrite lookup_delete_eq. }
  destruct Hpre as (st1 & E1 & Hwf1 & Hent).
  assert (Hslot : exists st2 a s, (match sessions st1 !! k with
      | Some e => (put_entry st1 k (touch e now), e_session e)
      | None => let '(st, a) := alloc st1 (PeerSession_new k.2 key g ep sa ra pk now_ms) in
                (put_entry st k {| e_session := a; last_used_at := now |}, a) end) = (st2, a) /\
    store_wf st2 /\ heap st2 !! a = Some s /\ PeerSession_is_valid s = true /\
    (exists e, sessions st2 !! k = Some e /\ e_session e = a)).
  { destruct (sessions st1 !! k) as [e|] eqn:Ek.
    - destruct (Hent e eq_refl) as (s & Hs & Hv). eexists _, _, s. split_and!; [done| |done|done|].
      + apply put_entry_wf; [done|by eexists].
      + exists (touch e now). split; [apply lookup_insert_eq|done].
    - destruct (alloc_wf st1 (PeerSession_new k.2 key g ep sa ra pk now_ms) Hwf1) as [Hwf2 Hl].
      destruct (alloc st1 _) as [st2 a] eqn:Ea. cbn [fst snd] in *. eexists _, a, _.
      split_and!; [reflexivity| |exact Hl|done|].
      + apply put_entry_wf; [done|by eexists].
      + eexists. split; [apply lookup_insert_eq|done]. }
  destruct Hslot as (st2 & a & s & E2 & Hwf2 & Hs & Hv & Hk).
  destruct (check_session_cases st2 a s sa ra pk Hwf2 Hs)
    as (st3 & r & E3 & Hwf3 & Esess & (s' & Hs' & [Es1 Es2]) & Halg).
  assert (Hgoal : forall res, (match r with
      | Err e => Ret (st3, Err e)
      | Ok _ => s ← deref st3 a;
        Ret (put_session st3 a (with_datagram s (sync_root_key (datagram s) key g ep
          (bool_decide (act = Sync)) now_ms now_ms)), Ok a) end) = res ->
      exists st' r', res = Ret (st', r') /\ store_wf st' /\
      match r' with
      | Ok a => exists s, heap st' !! a = Some s /\
        (exists e, sessions st' !! k = Some e /\ e_session e = a) /\
        PeerSession_is_valid s = true /\ ps_generation s = g /\ ps_root_key s = key /\
        send_epoch (datagram s) = ep /\ send_seq (datagram s) = (0, 0) /\
        send_cipher_algorithm (datagram s) = sa /\ recv_cipher_algorithm (datagram s) = ra
      | Err _ => True
      end).
  { intros res <-. destruct r as [[]|e]; [|by eexists _, (Err _)].
    unfold deref. rewrite Hs'. cbn [unwrap mbind comp_bind]. eexists _, (Ok a).
    destruct (Halg eq_refl) as [Ha1 Ha2].
    split_and!; [reflexivity|apply put_session_wf; [done|by eexists]|].
    eexists. split; [apply lookup_insert_eq|]. cbn [put_session sessions]. rewrite Esess.
    unfold PeerSession_is_valid, ps_generation, ps_root_key, sync_root_key in *. cbn.
    rewrite Es2, Es1. destruct (if _ && _ then _ else _). cbn. by split_and!. }
  destruct act; [done|..]; unfold apply_initiator_action; rewrite E1; cbn [mbind comp_bind];
    rewrite E2, E3; cbn [mbind comp_bind]; by apply Hgoal.
Qed.

Lemma upsert_cases st k ag sa ra pk fresh now now_ms : store_wf st ->
  exists st' r, upsert_responder_session st k ag sa ra pk fresh now now_ms = Ret (st', r) /\
    store_wf st' /\
    match r with
    | Ok u => exists s, heap st' !! u_session u = Some s /\ PeerSession_is_valid s = true /\
        (exists e, sessions st' !! k = Some e /\ e_session e = u_session u) /\
        send_cipher_algorithm (datagram s) = sa /\ recv_cipher_algorithm (datagram s) = ra /\
        ps_generation s = u_generation u /\
        match u_action u with
        | Join => u_root_key u = None /\ ag = Some (u_generation u)
        | Sync => u_root_key u = Some (ps_root_key s) /\ ag <> Some (u_generation u) /\
                  u_initial_epoch u = next_sync_epoch (datagram s)
        | Create => u_root_key u = Some (ps_root_key s) /\ ps_root_key s = fresh /\
                    u_generation u = 1 /\ u_initial_epoch u = 0
        end
    | Err _ => True
    end.
Proof.
  intros Hwf. unfold upsert_responder_session.
  set (pre := match sessions st !! k with Some _ => _ | None => _ end).
  assert (Hpre : exists st1 o, pre = Ret (st1, o) /\ store_wf st1 /\
    match o with
    | Some a => exists s e, heap st1 !! a = Some s /\ PeerSession_is_valid s = true /\
        sessions st1 !! k = Some e /\ e_session e = a
    | None => True
    end).
  { unfold pre. destruct (sessions st !! k) as [e|] eqn:Ek; [|by eexists _, None].
    destruct (wf_entries _ Hwf _ _ Ek) as [s Hs].
    assert (store_wf (put_entry st k (touch e now))) by (apply put_entry_wf; [done|by eexists]).
    unfold deref; cbn [put_entry heap]. rewrite Hs. cbn [unwrap mbind comp_bind].
    destruct (PeerSession_is_valid s) eqn:Ev; eexists _, _; (split_and!; [done..|]); [|done].
    exists s, (touch e now). split_and!; try done. apply lookup_insert_eq. }
  destruct Hpre as (st1 & o & -> & Hwf1 & Ho). cbn [mbind comp_bind]. destruct o as [a|].
  - destruct Ho as (s & e & Hs & Hv & Hk & He).
    destruct (check_session_cases st1 a s sa ra pk Hwf1 Hs)
      as (st2 & r & -> & Hwf2 & Esess & (s' & Hs' & [Es1 Es2]) & Halg). cbn [mbind comp_bind].
    destruct r as [[]|err]; [|by eexists _, (Err _)]. destruct (Halg eq_refl) as [Ha1 Ha2].
    unfold deref. rewrite Hs'. cbn [unwrap mbind comp_bind].
    assert (Hv' : PeerSession_is_valid s' = true) by (unfold PeerSession_is_valid in *; by rewrite Es1, Es2).
    rewrite <- Es1 in Ha1, Ha2. rewrite <- Esess in Hk.
    case_bool_decide; eexists _, (Ok _); (split_and!; [done..|]); exists s'; cbn; split_and!; eauto.
  - destruct (alloc_wf st1 (PeerSession_new k.2 fresh 1 0 sa ra pk now_ms) Hwf1) as [Hwf2 Hl].
    destruct (alloc st1 _) as [st2 a] eqn:Ea. cbn [fst snd] in *.
    eexists _, (Ok _). split_and!; [reflexivity|apply put_entry_wf; [done|by eexists]|].
    eexists. cbn [u_session put_entry heap]. split_and!; [exact Hl|done| |done..].
    eexists. cbn [sessions put_entry]. split; [apply lookup_insert_eq|done].
Qed.

(** ** Properties *)

(** Store operations are safe: on a well-formed store, looking up,
    removing, evicting, both handshake sides and invalidation never
    dereference a dead session and leave a well-formed store; eviction keeps
    exactly the entries whose session is valid and still held or recently
    used. *)
Theorem store_operations_safe (st : PeerSessionStore) (k : SessionKey) (now now_ms : Z) :
  store_wf st ->
  (exists st' r, store_get st k now = Ret (st', r) /\ store_wf st') /\
  store_wf (store_remove st k) /\
  (forall ag sa ra pk fresh, exists st' r,
     upsert_responder_session st k ag sa ra pk fresh now now_ms = Ret (st', r) /\ store_wf st') /\
  (forall act g key ep sa ra pk, exists st' r,
     apply_initiator_action st k act g key ep sa ra pk now now_ms = Ret (st', r) /\ store_wf st') /\
  (forall idle held, let st' := evict_unused_sessions_idle st idle now held in
     store_wf st' /\
     forall k e, sessions st' !! k = Some e <->
       sessions st !! k = Some e /\
       exists s, heap st !! e_session e = Some s /\ PeerSession_is_valid s = true /\
         (held (e_session e) = true \/ sat_sub now (last_used_at e) < idle)).
Proof.
  intros Hwf. split_and!.
  - destruct (store_get_cases st k now Hwf) as (st' & r & E & Hw & _). eauto.
  - by apply store_remove_wf.
  - intros. destruct (upsert_cases st k ag sa ra pk fresh now now_ms Hwf) as (st' & r & E & Hw & _). eauto.
  - intros. destruct (decide (act = Join)) as [->|Hne].
    + destruct (apply_join_cases st k g key ep sa ra pk now now_ms Hwf) as (st' & r & E & Hw & _). eauto.
    + destruct key as [key|].
      * destruct (apply_install_cases st k act g key ep sa ra pk now now_ms Hwf Hne)
          as (st' & r & E & Hw & _). eauto.
      * exists st, (Err MissingRootKey). by destruct act.
  - intros idle held st'. unfold st', evict_unused_sessions_idle.
    assert (Hiff : forall k e, filter (fun kv => keep_entry st idle now held kv.2 = true) (sessions st) !! k = Some e <->
      sessions st !! k = Some e /\ keep_entry st idle now held e = true)
      by (intros; apply map_lookup_filter_Some).
    split.
    + destruct Hwf as [H1 H2]. split; cbn [sessions heap next_arc]; [|done].
      intros k' e. rewrite Hiff. intros [? _]. eauto.
    + intros k' e. cbn [sessions]. rewrite Hiff. unfold keep_entry.
      assert (Hk : forall P Q : Prop, (sessions st !! k' = Some e -> P <-> Q) ->
        sessions st !! k' = Some e /\ P <-> sessions st !! k' = Some e /\ Q) by tauto.
      apply Hk. intros He. destruct (wf_entries _ Hwf _ _ He) as [s Hs]. rewrite Hs.
      rewrite andb_true_iff, orb_true_iff, Z.ltb_lt. split; [by eauto|].
      intros (s' & [= <-] & ? & ?). by split.
Qed.

Lemma store_operations_safe_witness :
  (exists st' r, store_get store_new ("net"%string, 7) 5 = Ret (st', r) /\ store_wf st').
Proof. exact (proj1 (store_operations_safe store_new ("net"%string, 7) 5 5 store_new_wf)). Defined.

(** Handshake agreement: when the responder answers and the initiator
    applies the answer, with mirrored algorithms, both end with valid sessions
    of the same generation whose algorithms are paired in both directions; on
    Create and Sync they also share the root key, and the initiator starts at
    the announced epoch with both sequence numbers at zero; on Join neither
    side's keys change. *)
Theorem handshake_agrees (A B A' B' : PeerSessionStore) (ka kb : SessionKey) (ag : option Z)
    (sa ra : string) (pka pkb : option (list Z)) (fresh : list Z) (t1 t2 t3 t4 : Z)
    (u : UpsertResponderSessionReturn) (a : nat) :
  store_wf A -> store_wf B ->
  upsert_responder_session B kb ag ra sa pkb fresh t1 t2 = Ret (B', Ok u) ->
  apply_initiator_action A ka (u_action u) (u_generation u) (u_root_key u) (u_initial_epoch u)
    sa ra pka t3 t4 = Ret (A', Ok a) ->
  exists ia ib, heap A' !! a = Some ia /\ heap B' !! u_session u = Some ib /\
    PeerSession_is_valid ia = true /\ PeerSession_is_valid ib = true /\
    ps_generation ia = ps_generation ib /\
    send_cipher_algorithm (datagram ia) = recv_cipher_algorithm (datagram ib) /\
    recv_cipher_algorithm (datagram ia) = send_cipher_algorithm (datagram ib) /\
    match u_action u with
    | Join => exists i0, heap A !! a = Some i0 /\ datagram ia = datagram i0
    | _ => ps_root_key ia = ps_root_key ib /\
           send_epoch (datagram ia) = u_initial_epoch u /\ send_seq (datagram ia) = (0, 0)
    end.
Proof.
  intros HA HB Hu Ha.
  destruct (upsert_cases B kb ag ra sa pkb fresh t1 t2 HB) as (B1 & r & E & _ & Hr).
  rewrite Hu in E. injection E as <- <-. destruct Hr as (ib & Hib & Hvb & _ & Hsb & Hrb & Hgb & Hact).
  destruct (decide (u_action u = Join)) as [Ej|Ej].
  - rewrite Ej in *. destruct (apply_join_cases A ka (u_generation u) (u_root_key u)
      (u_initial_epoch u) sa ra pka t3 t4 HA) as (A1 & r & E & _ & Hr).
    rewrite Ha in E. injection E as <- <-.
    destruct Hr as (ia & i0 & Hia & Hi0 & [Hd _] & _ & Hva & Hga & Hsa & Hra).
    exists ia, ib. split_and!; try done; try congruence. eauto.
  - assert (Hkey : u_root_key u = Some (ps_root_key ib)) by (destruct (u_action u); [done|apply Hact..]).
    rewrite Hkey in Ha.
    destruct (apply_install_cases A ka (u_action u) (u_generation u) (ps_root_key ib)
      (u_initial_epoch u) sa ra pka t3 t4 HA Ej) as (A1 & r & E & _ & Hr).
    rewrite Ha in E. injection E as <- <-.
    destruct Hr as (ia & Hia & _ & Hva & Hga & Hka & Hea & Hqa & Hsa & Hra).
    exists ia, ib. split_and!; try done; try congruence. by destruct (u_action u).
Qed.

Definition one_side : PeerSessionStore * UpsertResponderSessionReturn :=
  match upsert_responder_session store_new ("net"%string, 2) None "aes-gcm" "chacha20" None
          (repeat 9 32) 100 100 with
  | Ret (st, Ok u) => (st, u)
  | _ => (store_new, {| u_session := 0%nat; u_action := Join; u_generation := 0;
                        u_root_key := None; u_initial_epoch := 0 |})
  end.

Lemma handshake_agrees_witness :
  exists A' a ia ib, apply_initiator_action store_new ("net"%string, 1) (u_action one_side.2)
      (u_generation one_side.2) (u_root_key one_side.2) (u_initial_epoch one_side.2)
      "chacha20" "aes-gcm" None 200 200 = Ret (A', Ok a) /\
    heap A' !! a = Some ia /\ heap one_side.1 !! u_session one_side.2 = Some ib /\
    ps_root_key ia = ps_root_key ib.
Proof.
  destruct (apply_initiator_action store_new ("net"%string, 1) (u_action one_side.2)
    (u_generation one_side.2) (u_root_key one_side.2) (u_initial_epoch one_side.2)
    "chacha20" "aes-gcm" None 200 200) as [[A' [a|e]]|] eqn:Ea; [|vm_compute in Ea; congruence..].
  destruct (handshake_agrees store_new store_new A' one_side.1 ("net"%string, 1) ("net"%string, 2)
    None "chacha20" "aes-gcm" None None (repeat 9 32) 100 100 200 200 one_side.2 a
    store_new_wf store_new_wf eq_refl Ea) as (ia & ib & H1 & H2 & _ & _ & _ & _ & _ & H3).
  exists A', a, ia, ib. split; [reflexivity|]. split; [exact H1|]. split; [exact H2|]. exact (proj1 H3).
Defined.

(** Two nodes that dial each other at the same time, each answering the other's
    first message before its own answer arrives; then one more handshake. *)
Definition simultaneous_open (key_a key_b : list Z)
    : comp (list Z * list Z * Z * Z * PeerSessionAction) :=
  let ka := ("net"%string, 2) in
  let kb := ("net"%string, 1) in
  '(A, ra) ← upsert_responder_session store_new ka None "aes-gcm" "aes-gcm" None key_a 0 0;
  '(B, rb) ← upsert_responder_session store_new kb None "aes-gcm" "aes-gcm" None key_b 0 0;
  match ra, rb with
  | Ok ua, Ok ub =>
    '(A, _) ← apply_initiator_action A ka (u_action ub) (u_generation ub) (u_root_key ub)
                (u_initial_epoch ub) "aes-gcm" "aes-gcm" None 0 0;
    '(B, _) ← apply_initiator_action B kb (u_action ua) (u_generation ua) (u_root_key ua)
                (u_initial_epoch ua) "aes-gcm" "aes-gcm" None 0 0;
    sa ← deref A (u_session ua);
    sb ← deref B (u_session ub);
    '(B, r) ← upsert_responder_session B kb (Some (ps_generation sa)) "aes-gcm" "aes-gcm" None key_b 0 0;
    match r with
    | Ok u => Ret (ps_root_key sa, ps_root_key sb, ps_generation sa, ps_generation sb, u_action u)
    | Err _ => Panic
    end
  | _, _ => Panic
  end.

(** Generation 1 does not identify a root key: when two nodes without a
    session dial each other at once, each installs the key the other generated,
    for every pair of keys; both sessions have generation 1, and a further
    handshake is answered with Join. *)
Theorem simultaneous_open_swaps_keys (key_a key_b : list Z) :
  simultaneous_open key_a key_b = Ret (key_b, key_a, 1, 1, Join).
Proof. vm_compute. reflexivity. Qed.

(** An initiator that completes three handshakes started before it had a
    session, and sends one packet after each of the last two. *)
Definition repeated_sync (fresh : list Z) : comp (list Z * list Z * (Z * Z) * (Z * Z)) :=
  let ka := ("net"%string, 2) in
  let kb := ("net"%string, 1) in
  let upsert := fun B => upsert_responder_session B kb None "aes-gcm" "aes-gcm" None fresh 0 0 in
  let apply := fun A u => apply_initiator_action A ka (u_action u) (u_generation u) (u_root_key u)
                 (u_initial_epoch u) "aes-gcm" "aes-gcm" None 0 0 in
  '(B, r1) ← upsert store_new;
  '(B, r2) ← upsert B;
  '(B, r3) ← upsert B;
  match r1, r2, r3 with
  | Ok u1, Ok u2, Ok u3 =>
    '(A, _) ← apply store_new u1;
    '(A, _) ← apply A u2;
    s2 ← deref A 0%nat;
    let '(d2, (e2, q2, _)) := next_nonce (datagram s2) AToB 1 in
    '(A, _) ← apply (put_session A 0%nat (with_datagram s2 d2)) u3;
    s3 ← deref A 0%nat;
    let '(_, (e3, q3, _)) := next_nonce (datagram s3) AToB 2 in
    Ret (ps_root_key s2, ps_root_key s3, (e2, q2), (e3, q3))
  | _, _, _ => Panic
  end.

(** Two Sync answers computed before the initiator's packets arrive carry
    the same epoch, so the second resets the counter of an epoch already in
    use: with the root key unchanged, the initiator seals two packets with
    epoch 1 and sequence number 0. *)
Theorem repeated_sync_reuses_nonce :
  repeated_sync (repeat 9 32) = Ret (repeat 9 32, repeat 9 32, (1, 0), (1, 0)).
Proof. vm_compute. reflexivity. Qed.
