(* ===== verification/TokenBucket.v ===== *)
(** [foundation/token_bucket.rs]: the token bucket that limits relayed and
    ACL-limited traffic.  Instants are nanoseconds on the monotonic clock.
    [try_consume] and one iteration of [consume_chunk] run under the state lock,
    so a history of the bucket is a sequence of such operations. *)

From S2P Require Import Prelude.
From stdpp Require Import list strings gmap.
Local Open Scope Z_scope.

Definition MIN_FILL_RATE : Z := 8196.
Definition NANOS_PER_SECOND : Z := 1000000000.

Record BucketConfig := { capacity : Z; fill_rate : Z }.
Definition BucketConfig_new (capacity fill_rate : Z) : BucketConfig :=
  {| capacity := capacity; fill_rate := fill_rate |}.
Definition with_default_capacity (fill_rate : Z) : BucketConfig :=
  let fill_rate := Z.max fill_rate MIN_FILL_RATE in BucketConfig_new fill_rate fill_rate.

Record BucketState := { available_tokens : Z; last_refill : Z; refill_remainder : Z }.

Record TokenBucket := { state : BucketState; config : BucketConfig; stopped : bool }.

Definition new_from_cfg (c : BucketConfig) (now : Z) : TokenBucket :=
  let c := {| capacity := Z.max (capacity c) 1; fill_rate := Z.max (fill_rate c) 1 |} in
  {| state := {| available_tokens := capacity c; last_refill := now; refill_remainder := 0 |};
     config := c; stopped := false |}.
Definition TokenBucket_new (cap bps now : Z) : TokenBucket :=
  new_from_cfg (BucketConfig_new cap bps) now.

Definition refill (c : BucketConfig) (s : BucketState) (now : Z) : BucketState :=
  let elapsed_nanos := sat_sub now (last_refill s) in
  if elapsed_nanos =? 0 then s else
  if available_tokens s =? capacity c then
    {| available_tokens := available_tokens s; last_refill := now; refill_remainder := 0 |}
  else
    let generated :=
      sat_add 128 (sat_mul 128 (fill_rate c) elapsed_nanos) (refill_remainder s) in
    let tokens_to_add := generated / NANOS_PER_SECOND in
    let refill_remainder := generated mod NANOS_PER_SECOND in
    let available_capacity := capacity c - available_tokens s in
    if available_capacity <=? tokens_to_add then
      {| available_tokens := capacity c; last_refill := now; refill_remainder := 0 |}
    else
      {| available_tokens := available_tokens s + wrap 64 tokens_to_add; last_refill := now;
         refill_remainder := wrap 64 refill_remainder |}.

Definition take_tokens (s : BucketState) (tokens : Z) : BucketState :=
  {| available_tokens := available_tokens s - tokens; last_refill := last_refill s;
     refill_remainder := refill_remainder s |}.
Definition with_state (b : TokenBucket) (s : BucketState) : TokenBucket :=
  {| state := s; config := config b; stopped := stopped b |}.

Definition try_consume (b : TokenBucket) (tokens now : Z) : TokenBucket * bool :=
  if stopped b then (b, true) else
  if capacity (config b) <? tokens then (b, false) else
  let s := refill (config b) (state b) now in
  if available_tokens s <? tokens then (with_state b s, false)
  else (with_state b (take_tokens s tokens), true).

(** One iteration of the loop of [consume_chunk]: done, or the time to sleep. *)
Inductive Poll := Done | Sleep (nanos : Z).

(** [u128::div_ceil]. *)
Definition div_ceil (a b : Z) : Z := a / b + (if a mod b =? 0 then 0 else 1).

Definition sleep_nanos (c : BucketConfig) (s : BucketState) (tokens : Z) : Z :=
  let deficit := tokens - available_tokens s in
  let required := deficit * NANOS_PER_SECOND in
  let remaining := required - refill_remainder s in
  Z.max (Z.min (div_ceil remaining (fill_rate c)) (max_of 64)) 1000000.

Definition poll_chunk (b : TokenBucket) (tokens now : Z) : TokenBucket * Poll :=
  if stopped b then (b, Done) else
  let s := refill (config b) (state b) now in
  if tokens <=? available_tokens s then (with_state b (take_tokens s tokens), Done)
  else (with_state b s, Sleep (sleep_nanos (config b) s tokens)).

Definition stop (b : TokenBucket) : TokenBucket :=
  {| state := state b; config := config b; stopped := true |}.

(** [consume_chunk] and [consume] for a task that sleeps exactly as long as
    asked and meets no other task: the fuel bounds the iterations of the two
    loops, the result carries the time at which it returns. *)
Fixpoint consume_chunk (fuel : nat) (b : TokenBucket) (tokens now : Z) : option (TokenBucket * Z) :=
  match fuel with
  | O => None
  | S fuel =>
    match poll_chunk b tokens now with
    | (b, Done) => Some (b, now)
    | (b, Sleep d) => consume_chunk fuel b tokens (now + d)
    end
  end.
Fixpoint consume (fuel : nat) (b : TokenBucket) (remaining now : Z) : option (TokenBucket * Z) :=
  if remaining <=? 0 then Some (b, now) else
  match fuel with
  | O => None
  | S fuel =>
    if stopped b then Some (b, now) else
    let chunk := Z.min remaining (capacity (config b)) in
    '(b, now) ← consume_chunk 2 b chunk now;
    consume fuel b (remaining - chunk) now
  end.

(** ** The manager *)

Record TokenBucketManager := {
  buckets : gmap string nat; arcs : gmap nat TokenBucket; next_bucket : nat; retain_running : bool }.

Definition manager_new : TokenBucketManager :=
  {| buckets := ∅; arcs := ∅; next_bucket := 0%nat; retain_running := true |}.

Definition get_or_create (mg : TokenBucketManager) (key : string) (cfg : BucketConfig) (now : Z)
    : TokenBucketManager * nat :=
  match buckets mg !! key with
  | Some a => (mg, a)
  | None =>
    ({| buckets := <[key := next_bucket mg]> (buckets mg);
        arcs := <[next_bucket mg := new_from_cfg cfg now]> (arcs mg);
        next_bucket := S (next_bucket mg); retain_running := retain_running mg |},
     next_bucket mg)
  end.

(** One round of the background task; [held a]: the strong count is above one. *)
Definition retain (mg : TokenBucketManager) (held : nat -> bool) : TokenBucketManager :=
  if retain_running mg then
    {| buckets := filter (fun kv => held kv.2 = true) (buckets mg); arcs := arcs mg;
       next_bucket := next_bucket mg; retain_running := true |}
  else mg.

(** Stopping the bucket behind each entry. *)
Definition stop_arcs (l : list nat) (m : gmap nat TokenBucket) : gmap nat TokenBucket :=
  foldr (fun a m => alter stop a m) m l.
Definition manager_stop (mg : TokenBucketManager) : TokenBucketManager :=
  {| buckets := ∅; arcs := stop_arcs ((map_to_list (buckets mg)).*2) (arcs mg);
     next_bucket := next_bucket mg; retain_running := false |}.

(** ** Invariant *)

Record config_ok (c : BucketConfig) : Prop := {
  co_cap : 1 <= capacity c < 2 ^ 64;
  co_rate : 1 <= fill_rate c < 2 ^ 64 }.
Record state_ok (c : BucketConfig) (s : BucketState) : Prop := {
  st_avail : 0 <= available_tokens s <= capacity c;
  st_rem : 0 <= refill_remainder s < NANOS_PER_SECOND }.
Definition bucket_ok (b : TokenBucket) : Prop := config_ok (config b) /\ state_ok (config b) (state b).

(** Tokens and fraction, in token-nanoseconds. *)
Definition credit (s : BucketState) : Z :=
  available_tokens s * NANOS_PER_SECOND + refill_remainder s.

Lemma credit_split c s : state_ok c s ->
  credit s / NANOS_PER_SECOND = available_tokens s /\ credit s mod NANOS_PER_SECOND = refill_remainder s.
Proof.
  intros [Ha Hr]. unfold credit. split.
  - rewrite Z.div_add_l, Z.div_small by (unfold NANOS_PER_SECOND in *; lia). lia.
  - rewrite Z.add_comm, Z.mod_add by done. by apply Z.mod_small.
Qed.

Lemma state_eq s1 s2 : available_tokens s1 = available_tokens s2 -> last_refill s1 = last_refill s2 ->
  refill_remainder s1 = refill_remainder s2 -> s1 = s2.
Proof. destruct s1, s2. cbn. congruence. Qed.

Section refill.
Context (c : BucketConfig) (Hc : config_ok c).

(** The state a full bucket is refilled to. *)
Definition full_at (now : Z) : BucketState :=
  {| available_tokens := capacity c; last_refill := now; refill_remainder := 0 |}.

(** [refill] in closed form: the credit grows by [rate * elapsed], capped at
    the capacity. *)
Lemma refill_closed s now : state_ok c s -> last_refill s < now ->
  now - last_refill s < 2 ^ 64 ->
  let total := credit s + fill_rate c * (now - last_refill s) in
  refill c s now =
    if bool_decide (available_tokens s = capacity c \/ capacity c * NANOS_PER_SECOND <= total)
    then full_at now
    else {| available_tokens := total / NANOS_PER_SECOND; last_refill := now;
            refill_remainder := total mod NANOS_PER_SECOND |}.
Proof using Hc.
  intros [Ha Hr] Hlt Hbig total. destruct Hc as [Hcap Hrate]. unfold refill.
  assert (sat_sub now (last_refill s) = now - last_refill s) as -> by (unfold sat_sub; lia).
  rewrite (proj2 (Z.eqb_neq _ _)) by lia.
  destruct (Z.eqb_spec (available_tokens s) (capacity c)) as [E|E].
  { rewrite bool_decide_true by auto. by rewrite E. }
  set (el := now - last_refill s) in *.
  assert (Hprod : 0 <= fill_rate c * el < (2 ^ 64) * (2 ^ 64 - 1)) by nia.
  assert (sat_add 128 (sat_mul 128 (fill_rate c) el) (refill_remainder s) =
          fill_rate c * el + refill_remainder s) as ->.
  { unfold sat_add, sat_mul, max_of, NANOS_PER_SECOND in *. lia. }
  assert (Htot : total = (fill_rate c * el + refill_remainder s) + available_tokens s * NANOS_PER_SECOND)
    by (unfold total, credit; lia).
  set (gen := fill_rate c * el + refill_remainder s) in *.
  assert (Hgen : 0 <= gen) by lia.
  assert (Hq : total / NANOS_PER_SECOND = gen / NANOS_PER_SECOND + available_tokens s).
  { rewrite Htot, Z.div_add by done. done. }
  assert (Hmod : total mod NANOS_PER_SECOND = gen mod NANOS_PER_SECOND).
  { rewrite Htot, Z.mod_add by done. done. }
  pose proof (Z.div_mod gen NANOS_PER_SECOND). pose proof (Z.mod_pos_bound gen NANOS_PER_SECOND).
  assert (0 <= gen / NANOS_PER_SECOND) by (apply Z.div_pos; unfold NANOS_PER_SECOND; lia).
  unfold NANOS_PER_SECOND in *.
  destruct (Z.leb_spec (capacity c - available_tokens s) (gen / 1000000000)) as [Hf|Hf].
  - rewrite bool_decide_true; [done|]. right. nia.
  - rewrite bool_decide_false by (intros [?|?]; [done|]; nia).
    rewrite Hq, Hmod, !wrap_small by (split; lia). f_equal. lia.
Qed.

Lemma refill_same s now : now <= last_refill s -> refill c s now = s.
Proof. intros H. unfold refill. by rewrite (proj2 (Z.eqb_eq _ _)) by (unfold sat_sub; lia). Qed.

Lemma refill_ok s now : state_ok c s -> now - last_refill s < 2 ^ 64 -> state_ok c (refill c s now).
Proof using Hc.
  intros Hs Hb. destruct (Z.le_gt_cases now (last_refill s)); [by rewrite refill_same|].
  rewrite refill_closed by (done || lia). case_bool_decide as Hd.
  - destruct Hc. split; cbn; [lia|done].
  - pose proof Hs as [Ha Hr]. destruct Hc as [Hcap Hrate]. split; cbn.
    + split; [apply Z.div_pos; [unfold credit, NANOS_PER_SECOND in *; nia|done]|].
      apply Z.lt_le_incl, Z.div_lt_upper_bound; [done|]. lia.
    + by apply Z.mod_pos_bound.
Qed.

(** Refilling never creates more than the rate allows. *)
Lemma refill_credit s now : state_ok c s -> now - last_refill s < 2 ^ 64 ->
  let s' := refill c s now in
  last_refill s' = Z.max (last_refill s) now /\
  credit s' <= credit s + fill_rate c * (last_refill s' - last_refill s).
Proof using Hc.
  intros Hs Hb s'. subst s'. destruct (Z.le_gt_cases now (last_refill s)).
  { rewrite refill_same by done. split; lia. }
  rewrite refill_closed by (done || lia). pose proof Hs as [Ha Hr]. destruct Hc as [Hcap Hrate].
  unfold credit, NANOS_PER_SECOND in *. case_bool_decide as Hd; cbn.
  - split; [lia|]. destruct Hd as [Hd|Hd]; nia.
  - split; [lia|].
    set (total := _ + fill_rate c * _). pose proof (Z.div_mod total 1000000000). lia.
Qed.

(** Refilling in two steps is refilling in one. *)
Lemma refill_split s t1 t2 : state_ok c s -> last_refill s <= t1 -> t1 <= t2 ->
  t2 - last_refill s < 2 ^ 64 -> refill c (refill c s t1) t2 = refill c s t2.
Proof using Hc.
  intros Hs H1 H2 Hb.
  destruct (Z.eq_dec (last_refill s) t1) as [<-|]; [by rewrite (refill_same s) by lia|].
  pose proof (refill_ok s t1 Hs ltac:(lia)) as Hs1.
  assert (Hl1 : last_refill (refill c s t1) = t1) by (rewrite (proj1 (refill_credit s t1 Hs ltac:(lia))); lia).
  destruct (Z.eq_dec t1 t2) as [<-|]; [by rewrite (refill_same (refill c s t1)) by lia|].
  rewrite (refill_closed (refill c s t1)), (refill_closed s t2) by (done || lia). rewrite Hl1.
  pose proof (refill_closed s t1 Hs ltac:(lia) ltac:(lia)) as E1. cbv zeta in E1.
  destruct Hc as [Hcap Hrate].
  destruct (decide (available_tokens s = capacity c \/
    capacity c * NANOS_PER_SECOND <= credit s + fill_rate c * (t1 - last_refill s))) as [Hd|Hd];
    [rewrite bool_decide_true in E1 by done|rewrite bool_decide_false in E1 by done]; rewrite E1; cbn [available_tokens full_at].
  - rewrite bool_decide_true by (by left). rewrite bool_decide_true; [done|].
    destruct Hd as [?|Hd]; [by left|right]. nia.
  - assert (Hcr : credit {| available_tokens := (credit s + fill_rate c * (t1 - last_refill s)) / NANOS_PER_SECOND;
      last_refill := t1; refill_remainder := (credit s + fill_rate c * (t1 - last_refill s)) mod NANOS_PER_SECOND |}
      = credit s + fill_rate c * (t1 - last_refill s)).
    { unfold credit at 1. cbn. rewrite Z.mul_comm. symmetry. by apply Z.div_mod. }
    rewrite Hcr. replace (credit s + fill_rate c * (t1 - last_refill s) + fill_rate c * (t2 - t1))
      with (credit s + fill_rate c * (t2 - last_refill s)) by lia.
    erewrite bool_decide_ext; [done|].
    assert ((credit s + fill_rate c * (t1 - last_refill s)) / NANOS_PER_SECOND < capacity c).
    { apply Z.div_lt_upper_bound; [done|]. apply Decidable.not_or in Hd as [_ Hd]. lia. }
    apply Decidable.not_or in Hd as [Hd _]. split; intros [?|?]; auto; lia.
Qed.
End refill.

(** ** Histories *)

(** An operation of some task on a shared bucket at a given time. *)
Inductive bucket_op := TryConsume (tokens now : Z) | PollChunk (tokens now : Z).
Definition op_time (o : bucket_op) : Z := match o with TryConsume _ t | PollChunk _ t => t end.
Definition op_tokens (o : bucket_op) : Z := match o with TryConsume n _ | PollChunk n _ => n end.

(** The bucket after an operation and the tokens it granted. *)
Definition run_op (b : TokenBucket) (o : bucket_op) : TokenBucket * Z :=
  match o with
  | TryConsume n t => let '(b', ok) := try_consume b n t in (b', if ok then n else 0)
  | PollChunk n t =>
    let '(b', r) := poll_chunk b n t in (b', match r with Done => n | Sleep _ => 0 end)
  end.
Fixpoint run_ops (b : TokenBucket) (l : list bucket_op) : TokenBucket * Z :=
  match l with
  | [] => (b, 0)
  | o :: l => let '(b, n) := run_op b o in let '(b, m) := run_ops b l in (b, n + m)
  end.

Lemma take_ok c s n : state_ok c s -> 0 <= n <= available_tokens s -> state_ok c (take_tokens s n).
Proof. intros [] ?. split; cbn; lia. Qed.

Lemma run_op_ok b o : bucket_ok b -> stopped b = false -> 0 <= op_tokens o ->
  op_time o - last_refill (state b) < 2 ^ 64 ->
  let '(b', n) := run_op b o in
  bucket_ok b' /\ config b' = config b /\ stopped b' = false /\ 0 <= n /\
  last_refill (state b) <= last_refill (state b') <= Z.max (last_refill (state b)) (op_time o) /\
  credit (state b') + n * NANOS_PER_SECOND <=
    credit (state b) + fill_rate (config b) * (last_refill (state b') - last_refill (state b)).
Proof.
  intros [Hc Hs] Hst Hn Ht.
  pose proof (refill_ok _ Hc _ (op_time o) Hs Ht) as Hs'.
  destruct (refill_credit _ Hc _ (op_time o) Hs Ht) as [El Ecr].
  set (s' := refill (config b) (state b) (op_time o)) in *.
  assert (Htake : forall n, 0 <= n <= available_tokens s' ->
    bucket_ok (with_state b (take_tokens s' n)) /\
    credit (take_tokens s' n) + n * NANOS_PER_SECOND = credit s').
  { intros n Hle. split; [split; [done|by apply take_ok]|]. unfold credit; cbn. lia. }
  destruct o as [n t|n t]; cbn [run_op op_time op_tokens] in *;
    [unfold try_consume|unfold poll_chunk]; rewrite Hst; fold s'.
  - destruct (capacity (config b) <? n); [split_and!; (done || lia)|].
    destruct (Z.ltb_spec (available_tokens s') n) as [Hl|Hl]; cbn [with_state config stopped state];
      [|destruct (Htake n ltac:(lia)) as [Hb Ecr']]; split_and!; try done; cbn; lia.
  - destruct (Z.leb_spec n (available_tokens s')) as [Hl|Hl]; cbn [with_state config stopped state];
      [destruct (Htake n ltac:(lia)) as [Hb Ecr']|]; split_and!; try done; cbn; lia.
Qed.

(** Times that do not go back and stay below [t_end]. *)
Fixpoint monotone_until (t t_end : Z) (l : list bucket_op) : Prop :=
  match l with
  | [] => t <= t_end
  | o :: l => t <= op_time o /\ monotone_until (op_time o) t_end l
  end.

Lemma run_ops_potential b l t t_end :
  bucket_ok b -> stopped b = false -> Forall (fun o => 0 <= op_tokens o) l ->
  last_refill (state b) <= t -> monotone_until t t_end l ->
  t_end - last_refill (state b) < 2 ^ 64 ->
  let '(b', n) := run_ops b l in
  bucket_ok b' /\ config b' = config b /\ stopped b' = false /\
  last_refill (state b) <= last_refill (state b') <= t_end /\
  credit (state b') + n * NANOS_PER_SECOND <=
    credit (state b) + fill_rate (config b) * (last_refill (state b') - last_refill (state b)).
Proof.
  intros Hb Hst Hl. revert b t Hb Hst. induction Hl as [|o l Ho Hl IH]; intros b t Hb Hst Ht Hm Hbig.
  { cbn in *. split_and!; (done || lia). }
  destruct Hm as [Hm1 Hm2]. cbn [run_ops].
  assert (Hto : op_time o <= t_end).
  { clear -Hm2. revert Hm2. generalize (op_time o) as x. induction l as [|o' l IH]; cbn; intros x; [lia|].
    intros [? ?%IH]. lia. }
  pose proof (run_op_ok b o Hb Hst Ho ltac:(lia)) as H1. destruct (run_op b o) as [b1 n1].
  destruct H1 as (Hb1 & Ec1 & Hst1 & Hn1 & Hl1 & Hcr1).
  specialize (IH b1 (op_time o) Hb1 Hst1 ltac:(lia) Hm2 ltac:(lia)).
  destruct (run_ops b1 l) as [b2 n2]. destruct IH as (Hb2 & Ec2 & Hst2 & Hl2 & Hcr2).
  rewrite Ec1 in *. split_and!; [done|congruence|done|lia|lia|].
  rewrite Z.mul_add_distr_r. lia.
Qed.

Lemma new_bucket_ok c now : 0 <= capacity c < 2 ^ 64 -> 0 <= fill_rate c < 2 ^ 64 ->
  bucket_ok (new_from_cfg c now).
Proof. intros. split; [split; cbn; lia|]. split; cbn; [lia|done]. Qed.

(** ** Sleeping *)

Lemma div_ceil_spec a b : 0 < b -> 0 <= a -> b * (div_ceil a b - 1) < a \/ a = 0.
Proof.
  intros Hb Ha. unfold div_ceil. pose proof (Z.div_mod a b). pose proof (Z.mod_pos_bound a b Hb).
  case_match; bools; nia.
Qed.
Lemma div_ceil_ge a b : 0 < b -> a <= b * div_ceil a b.
Proof.
  intros Hb. unfold div_ceil. pose proof (Z.div_mod a b). pose proof (Z.mod_pos_bound a b Hb).
  case_match; bools; nia.
Qed.

(** After the sleep a lone task finds its tokens; a wait longer than the
    minimum of 1 ms is not a nanosecond too long. *)
Lemma sleep_exact c s tokens d now :
  config_ok c -> state_ok c s -> tokens <= capacity c -> available_tokens s < tokens ->
  last_refill s = now ->
  let wait := sleep_nanos c s tokens in
  wait < max_of 64 ->
  (wait <= d -> d < 2 ^ 64 -> tokens <= available_tokens (refill c s (now + d))) /\
  (1000000 < wait -> 0 <= d < wait -> available_tokens (refill c s (now + d)) < tokens).
Proof.
  intros Hc Hs Hcap Hlt <- wait Hw. pose proof Hs as [Ha Hr]. pose proof Hc as [Hcc Hcr].
  assert (Hlast : last_refill s + d - last_refill s = d) by lia.
  unfold wait, sleep_nanos in *.
  set (rest := (tokens - available_tokens s) * NANOS_PER_SECOND - refill_remainder s) in *.
  assert (Hrest : 0 < rest) by (unfold rest, NANOS_PER_SECOND in *; nia).
  pose proof (div_ceil_ge rest (fill_rate c) ltac:(lia)) as Hge.
  pose proof (div_ceil_spec rest (fill_rate c) ltac:(lia) ltac:(lia)) as Hle.
  split.
  - intros Hd Hd2. rewrite refill_closed by (done || lia). rewrite Hlast.
    case_bool_decide as Hf; [cbn; lia|]. cbn [available_tokens].
    apply Z.div_le_lower_bound; [done|]. unfold credit. unfold max_of in *.
    assert (rest <= fill_rate c * d) by nia. unfold rest in *. lia.
  - intros Hmin Hd. destruct (Z.eq_dec d 0) as [->|]; [rewrite refill_same by lia; done|].
    unfold max_of in *. rewrite refill_closed by (done || lia). rewrite Hlast.
    assert (fill_rate c * d < rest) by nia.
    assert (credit s + fill_rate c * d < tokens * NANOS_PER_SECOND)
      by (unfold credit, rest in *; lia).
    rewrite bool_decide_false.
    + cbn. apply Z.div_lt_upper_bound; [done|]. lia.
    + intros [?|?]; [lia|]. unfold NANOS_PER_SECOND in *. nia.
Qed.

Lemma div_ceil_mono a a' b : 0 < b -> a <= a' -> div_ceil a b <= div_ceil a' b.
Proof.
  intros Hb Ha. unfold div_ceil. pose proof (Z.div_mod a b). pose proof (Z.mod_pos_bound a b Hb).
  pose proof (Z.div_mod a' b). pose proof (Z.mod_pos_bound a' b Hb).
  pose proof (Z.div_le_mono a a' b Hb Ha).
  repeat case_match; bools; nia.
Qed.
Lemma div_ceil_le a b : 1 <= b -> 0 <= a -> div_ceil a b <= a.
Proof.
  intros Hb Ha. unfold div_ceil. pose proof (Z.div_mod a b). pose proof (Z.mod_pos_bound a b ltac:(lia)).
  assert (0 <= a / b) by (apply Z.div_pos; lia).
  case_match; bools; nia.
Qed.

Section completion.
Context (b0 : TokenBucket) (Hsmall : capacity (config b0) * NANOS_PER_SECOND < max_of 64).
Let c := config b0.
(** The longest a single chunk can have to wait. *)
Definition max_wait : Z := Z.max 1000000 (div_ceil (capacity (config b0) * NANOS_PER_SECOND) (fill_rate (config b0))).

(** A bucket of this configuration that is live and was refilled before [now]. *)
Definition live (b : TokenBucket) (now : Z) : Prop :=
  config b = c /\ bucket_ok b /\ stopped b = false /\
  last_refill (state b) <= now /\ now - last_refill (state b) < 2 ^ 64.

Lemma wait_bound s tokens : config_ok c -> state_ok c s -> tokens <= capacity c ->
  available_tokens s < tokens ->
  1000000 <= sleep_nanos c s tokens <= max_wait /\ sleep_nanos c s tokens < max_of 64.
Proof using Hsmall.
  intros [Hcc Hcr] [Ha Hr] Hcap Hlt. unfold sleep_nanos, max_wait. subst c.
  set (rest := (tokens - available_tokens s) * NANOS_PER_SECOND - refill_remainder s).
  assert (0 < rest <= capacity (config b0) * NANOS_PER_SECOND) by (unfold rest, NANOS_PER_SECOND in *; nia).
  pose proof (div_ceil_mono rest (capacity (config b0) * NANOS_PER_SECOND) (fill_rate (config b0)) ltac:(lia) ltac:(lia)).
  pose proof (div_ceil_le rest (fill_rate (config b0)) ltac:(lia) ltac:(lia)).
  unfold max_of in *. lia.
Qed.

Lemma chunk_completes b tokens now : live b now -> 0 < tokens <= capacity c ->
  exists b' t, consume_chunk 2 b tokens now = Some (b', t) /\ live b' t /\ now <= t <= now + max_wait /\
    credit (state b') + tokens * NANOS_PER_SECOND <=
      credit (state b) + fill_rate c * (last_refill (state b') - last_refill (state b)).
Proof using Hsmall.
  intros (Ec & [Hc Hs] & Hst & Hl & Hb) Htok. rewrite Ec in Hc, Hs.
  assert (Hmw : 0 <= max_wait) by (unfold max_wait; lia).
  pose proof (refill_ok _ Hc _ now Hs Hb) as Hs1.
  destruct (refill_credit _ Hc _ now Hs Hb) as [El1 Ecr1].
  set (s1 := refill c (state b) now) in *.
  cbn [consume_chunk]. unfold poll_chunk at 1. rewrite Hst, Ec. fold s1.
  destruct (Z.leb_spec tokens (available_tokens s1)) as [Hle|Hgt].
  - eexists _, _. split; [done|]. split_and!; try lia.
    + split_and!; cbn; try done; try lia. split; cbn; rewrite Ec; [done|]. apply take_ok; [done|lia].
    + unfold credit in *; cbn. lia.
  - destruct (wait_bound s1 tokens Hc Hs1 ltac:(lia) ltac:(lia)) as [Hw1 Hw2].
    set (d := sleep_nanos c s1 tokens) in *.
    assert (El1' : last_refill s1 = now) by lia.
    destruct (sleep_exact c s1 tokens d now Hc Hs1 ltac:(lia) Hgt El1' Hw2) as [Hsuff _].
    unfold max_of in *. specialize (Hsuff ltac:(lia) ltac:(lia)).
    pose proof (refill_ok _ Hc _ (now + d) Hs1 ltac:(lia)) as Hs2.
    destruct (refill_credit _ Hc _ (now + d) Hs1 ltac:(lia)) as [El2 Ecr2].
    unfold poll_chunk. cbn [stopped with_state config state]. rewrite Hst, Ec.
    set (s2 := refill c s1 (now + d)) in *.
    rewrite (proj2 (Z.leb_le _ _)) by lia.
    eexists _, _. split; [done|]. split_and!; try lia.
    + split_and!; cbn; try done; try lia. split; cbn; rewrite Ec; [done|]. apply take_ok; [done|lia].
    + unfold credit in *; cbn in *. lia.
Qed.

Lemma consume_completes_aux n b remaining now : live b now -> 0 <= remaining ->
  remaining <= Z.of_nat n * capacity c ->
  exists b' t, consume n b remaining now = Some (b', t) /\ live b' t /\
    now <= t <= now + Z.of_nat n * max_wait /\
    credit (state b') + remaining * NANOS_PER_SECOND <=
      credit (state b) + fill_rate c * (last_refill (state b') - last_refill (state b)).
Proof using Hsmall.
  assert (Hmw : 0 <= max_wait) by (unfold max_wait; lia).
  revert b remaining now. induction n as [|n IH]; intros b remaining now Hb Hr Hn.
  - assert (remaining = 0) as -> by lia. exists b, now. cbn [consume Z.leb Z.compare].
    split_and!; try done; lia.
  - cbn [consume]. destruct (Z.leb_spec remaining 0) as [H0|H0].
    { assert (remaining = 0) as -> by lia. exists b, now. split_and!; try done; nia. }
    pose proof Hb as (Ec & [Hc _] & Hst & _). rewrite Hst, Ec. destruct Hc as [Hcc _]. rewrite Ec in Hcc.
    destruct (chunk_completes b (Z.min remaining (capacity c)) now Hb ltac:(lia))
      as (b1 & t1 & -> & Hb1 & Ht1 & Hcr1). cbn [mbind option_bind].
    destruct (IH b1 (remaining - Z.min remaining (capacity c)) t1 Hb1 ltac:(lia) ltac:(lia))
      as (b2 & t2 & E2 & Hb2 & Ht2 & Hcr2).
    exists b2, t2. rewrite E2. split_and!; try done; try lia.
Qed.
End completion.

(** ** Properties *)

(** C38. Rate limit: on a bucket created at time [t0], whatever mix of
    [try_consume] calls and [consume] iterations any number of tasks make up to
    time [t1], while the bucket is not stopped, the tokens granted are at most
    the capacity plus the fill rate times the elapsed time (both at least 1),
    exactly, with no drift from rounding; and the bucket never holds more than
    its capacity. *)
Theorem rate_limit (c : BucketConfig) (t0 t1 : Z) (l : list bucket_op) :
  0 <= capacity c < 2 ^ 64 -> 0 <= fill_rate c < 2 ^ 64 ->
  Forall (fun o => 0 <= op_tokens o) l -> monotone_until t0 t1 l -> t1 - t0 < 2 ^ 64 ->
  let '(b, granted) := run_ops (new_from_cfg c t0) l in
  granted * NANOS_PER_SECOND <=
    Z.max (capacity c) 1 * NANOS_PER_SECOND + Z.max (fill_rate c) 1 * (t1 - t0) /\
  0 <= available_tokens (state b) <= Z.max (capacity c) 1 /\
  0 <= refill_remainder (state b) < NANOS_PER_SECOND.
Proof.
  intros Hcap Hrate Hl Hm Hbig.
  pose proof (run_ops_potential (new_from_cfg c t0) l t0 t1 (new_bucket_ok c t0 Hcap Hrate)
    eq_refl Hl ltac:(cbn; lia) Hm ltac:(cbn; lia)) as H.
  destruct (run_ops _ l) as [b n]. destruct H as (Hb & Ec & _ & Hlast & Hcr).
  destruct Hb as [_ [Ha Hr]]. rewrite Ec in Ha. cbn in *. split_and!; try lia.
  unfold credit in *. cbn in *. unfold NANOS_PER_SECOND in *. nia.
Qed.

Lemma rate_limit_witness :
  let '(b, granted) := run_ops (new_from_cfg (BucketConfig_new 1000 2000) 0)
    [TryConsume 900 5; TryConsume 900 6; PollChunk 500 300000000; TryConsume 900 300000001] in
  granted * NANOS_PER_SECOND <= Z.max 1000 1 * NANOS_PER_SECOND + Z.max 2000 1 * (300000001 - 0) /\
  0 <= available_tokens (state b) <= Z.max 1000 1 /\
  0 <= refill_remainder (state b) < NANOS_PER_SECOND.
Proof.
  apply (rate_limit (BucketConfig_new 1000 2000) 0 300000001
    [TryConsume 900 5; TryConsume 900 6; PollChunk 500 300000000; TryConsume 900 300000001]);
    [cbn; lia|cbn; lia| |cbn; lia|lia].
  repeat constructor; cbn; lia.
Defined.

(** Refilling is exact: however often the bucket is refilled in between,
    it ends in the same state as one refill over the whole interval, the
    fractional remainder included. *)
Theorem refill_composes (c : BucketConfig) (s : BucketState) (t1 t2 : Z) :
  config_ok c -> state_ok c s -> last_refill s <= t1 <= t2 -> t2 - last_refill s < 2 ^ 64 ->
  refill c (refill c s t1) t2 = refill c s t2.
Proof. intros Hc Hs [H1 H2] Hb. by apply refill_split. Qed.

Lemma refill_composes_witness :
  refill (BucketConfig_new 10 3) (refill (BucketConfig_new 10 3)
    {| available_tokens := 1; last_refill := 7; refill_remainder := 5 |} 700000001) 900000000 =
  refill (BucketConfig_new 10 3) {| available_tokens := 1; last_refill := 7; refill_remainder := 5 |} 900000000.
Proof. apply refill_composes; [split; cbn; lia|split; cbn; [lia|done]|cbn; lia|cbn; lia]. Defined.

(** The sleep computed by [consume_chunk] is right: a task alone on the
    bucket finds its tokens when it wakes up, at any later time too, and if the
    wait is above the 1 ms minimum, not a nanosecond before. *)
Theorem sleep_is_exact (c : BucketConfig) (s : BucketState) (tokens d now : Z) :
  config_ok c -> state_ok c s -> tokens <= capacity c -> available_tokens s < tokens ->
  last_refill s = now -> sleep_nanos c s tokens < max_of 64 ->
  (sleep_nanos c s tokens <= d -> d < 2 ^ 64 -> tokens <= available_tokens (refill c s (now + d))) /\
  (1000000 < sleep_nanos c s tokens -> 0 <= d < sleep_nanos c s tokens ->
     available_tokens (refill c s (now + d)) < tokens).
Proof. intros. by apply sleep_exact. Qed.

Lemma sleep_is_exact_witness :
  let c := BucketConfig_new 10 3 in
  let s := {| available_tokens := 1; last_refill := 7; refill_remainder := 5 |} in
  sleep_nanos c s 3 = 666666665 /\ 3 <= available_tokens (refill c s (7 + 666666665)).
Proof.
  cbv zeta. split; [reflexivity|].
  apply (sleep_is_exact (BucketConfig_new 10 3)
    {| available_tokens := 1; last_refill := 7; refill_remainder := 5 |} 3 666666665 7);
    first [reflexivity | split; cbn; unfold NANOS_PER_SECOND; lia | vm_compute; congruence].
Defined.

(** [consume] terminates: for a task alone on a live bucket, any request,
    however much larger than the capacity, completes in as many chunks as the
    capacity requires, each within the time its tokens take to accrue (at least
    1 ms), and it never takes more than the rate allows. *)
Theorem consume_completes (b : TokenBucket) (tokens now : Z) :
  bucket_ok b -> stopped b = false -> capacity (config b) * NANOS_PER_SECOND < max_of 64 ->
  last_refill (state b) <= now -> now - last_refill (state b) < 2 ^ 64 -> 0 <= tokens ->
  let chunks := div_ceil tokens (capacity (config b)) in
  exists b' t, consume (Z.to_nat chunks) b tokens now = Some (b', t) /\
    now <= t <= now + chunks * Z.max 1000000
      (div_ceil (capacity (config b) * NANOS_PER_SECOND) (fill_rate (config b))) /\
    bucket_ok b' /\
    credit (state b') + tokens * NANOS_PER_SECOND <=
      credit (state b) + fill_rate (config b) * (last_refill (state b') - last_refill (state b)).
Proof.
  intros Hb Hst Hsm Hl Hbig Ht chunks. pose proof Hb as [[Hcc Hcr] _].
  assert (Hch : 0 <= chunks).
  { unfold chunks, div_ceil. assert (0 <= tokens / capacity (config b)) by (apply Z.div_pos; lia). case_match; lia. }
  destruct (consume_completes_aux b Hsm (Z.to_nat chunks) b tokens now) as (b' & t & E & Hlive & Ht' & Hcr').
  - by split_and!.
  - done.
  - rewrite Z2Nat.id by done. unfold chunks. rewrite Z.mul_comm. apply div_ceil_ge. lia.
  - exists b', t. rewrite Z2Nat.id in Ht' by done. destruct Hlive as (_ & Hb' & _).
    split; [exact E|]. split; [exact Ht'|]. split; [done|exact Hcr'].
Qed.

Lemma consume_completes_witness :
  exists b' t, consume 3 (new_from_cfg (BucketConfig_new 1000 2000) 0) 2500 0 = Some (b', t) /\
    0 <= t <= 3 * 500000000.
Proof.
  destruct (consume_completes (new_from_cfg (BucketConfig_new 1000 2000) 0) 2500 0)
    as (b' & t & E & Ht & _); try (cbn; lia).
  - apply new_bucket_ok; cbn; lia.
  - reflexivity.
  - exists b', t. split; [exact E|]. exact Ht.
Defined.
