(* ===== verification/Acl.v ===== *)
(** [peers/acl/processor.rs]: the ACL rule engine.  Rules are compiled into
    per-chain vectors sorted by priority; a packet is judged by the first rule
    that matches, a per-rule token bucket and a verdict cache.

    Text is a list of Unicode scalar values.  Configuration enums are the values
    their accessors return.  The [cidr] crate is the parameter [CidrLib].  The
    shared counters behind [Arc<RuleStats>] live in [stat_items], addressed by
    the identity of the [Arc].  All readings of the monotonic clock within one
    call are its argument [now], in nanoseconds, and those of the wall clock its
    argument [secs]. *)

From S2P Require Import Prelude TokenBucket.
From stdpp Require Import list strings gmap sorting.
Local Open Scope Z_scope.

Abbreviation text := (list Z).

Inductive Protocol := ProtoUnspecified | Tcp | Udp | Icmp | IcmPv6 | ProtoAny.
Inductive Action := Noop | Allow | DropPkt.
Inductive ChainType := UnspecifiedChain | Inbound | Outbound | Forward.
Inductive IpAddr := V4 (a : Z) | V6 (a : Z).

#[export] Instance Protocol_eq_dec : EqDecision Protocol.
Proof. solve_decision. Defined.
#[export] Instance Action_eq_dec : EqDecision Action.
Proof. solve_decision. Defined.
#[export] Instance ChainType_eq_dec : EqDecision ChainType.
Proof. solve_decision. Defined.
#[export] Instance IpAddr_eq_dec : EqDecision IpAddr.
Proof. solve_decision. Defined.

Definition Protocol_as_i32 (p : Protocol) : Z :=
  match p with ProtoUnspecified => 0 | Tcp => 1 | Udp => 2 | Icmp => 3 | IcmPv6 => 4 | ProtoAny => 5 end.
Definition ChainType_as_i32 (c : ChainType) : Z :=
  match c with UnspecifiedChain => 0 | Inbound => 1 | Outbound => 2 | Forward => 3 end.

#[export] Instance Protocol_countable : Countable Protocol.
Proof.
  refine (inj_countable' Protocol_as_i32 (fun z => match z with
    | 1 => Tcp | 2 => Udp | 3 => Icmp | 4 => IcmPv6 | 5 => ProtoAny | _ => ProtoUnspecified end) _).
  by intros [].
Defined.
#[export] Instance ChainType_countable : Countable ChainType.
Proof.
  refine (inj_countable' ChainType_as_i32 (fun z => match z with
    | 1 => Inbound | 2 => Outbound | 3 => Forward | _ => UnspecifiedChain end) _).
  by intros [].
Defined.
#[export] Instance IpAddr_countable : Countable IpAddr.
Proof.
  refine (inj_countable' (fun a => match a with V4 x => inl x | V6 x => inr x end)
    (fun s => match s with inl x => V4 x | inr x => V6 x end) _).
  by intros [].
Defined.

(** ** Configuration *)

Record Rule := {
  r_priority : Z; r_enabled : bool; r_protocol : Protocol;
  r_ports : list text; r_source_ips : list text; r_destination_ips : list text;
  r_source_ports : list text; r_action : Action; r_rate_limit : Z; r_burst_limit : Z;
  r_stateful : bool; r_source_groups : list text; r_destination_groups : list text }.

Record Chain := {
  c_type : ChainType; c_enabled : bool; c_rules : list Rule; c_default_action : Action }.

(** [Acl]: the chains of [acl_v1], if present. *)
Abbreviation AclConfig := (option (list Chain)).

(** ** Port ranges *)

(** [char::is_whitespace]. *)
Definition is_whitespace (c : Z) : bool :=
  ((9 <=? c) && (c <=? 13)) || (c =? 32) || (c =? 133) || (c =? 160) || (c =? 5760) ||
  ((8192 <=? c) && (c <=? 8202)) || (c =? 8232) || (c =? 8233) || (c =? 8239) || (c =? 8287) ||
  (c =? 12288).
Fixpoint trim_start (s : text) : text :=
  match s with
  | c :: s' => if is_whitespace c then trim_start s' else s
  | [] => []
  end.
(** [str::trim]. *)
Definition trim (s : text) : text := rev (trim_start (rev (trim_start s))).

(** [str::parse::<u16>]: an optional plus sign, then at least one digit, with
    the overflow check at every digit. *)
Fixpoint parse_digits (acc : Z) (s : text) : option Z :=
  match s with
  | [] => Some acc
  | c :: s =>
    if (48 <=? c) && (c <=? 57) then
      let acc := acc * 10 + (c - 48) in
      if acc <=? max_of 16 then parse_digits acc s else None
    else None
  end.
Definition parse_u16 (s : text) : option Z :=
  match s with
  | [] => None
  | [43] => None
  | 43 :: s => parse_digits 0 s
  | s => parse_digits 0 s
  end.

(** [str::split_once('-')]. *)
Fixpoint split_once_dash (s : text) : option (text * text) :=
  match s with
  | [] => None
  | c :: s =>
    if c =? 45 then Some ([], s) else
    match split_once_dash s with
    | Some (a, b) => Some (c :: a, b)
    | None => None
    end
  end.

Definition parse_port_range (s : text) : option (Z * Z) :=
  match split_once_dash s with
  | Some (start, stop) =>
    start ← parse_u16 (trim start);
    stop ← parse_u16 (trim stop);
    Some (start, stop)
  | None => port ← parse_u16 (trim s); Some (port, port)
  end.

(** ** Address text *)

(** Decimal and lower-case hexadecimal digits of a number below [2^32]. *)
Fixpoint digits_of (fuel : nat) (base z : Z) : text :=
  match fuel with
  | O => []
  | S fuel =>
    let d := z mod base in
    let c := if d <? 10 then 48 + d else 87 + d in
    (if z <? base then [] else digits_of fuel base (z / base)) ++ [c]
  end.
Definition show_dec (z : Z) : text := digits_of 10 10 z.
Definition show_hex (z : Z) : text := digits_of 8 16 z.

Fixpoint join (sep : text) (l : list text) : text :=
  match l with
  | [] => []
  | [x] => x
  | x :: l => x ++ sep ++ join sep l
  end.

(** [Display] for [Ipv4Addr] and [Ipv6Addr]. *)
Definition show_ipv4 (a : Z) : text := join [46] (map show_dec (be_encode 4 a)).

Definition segments (a : Z) : list Z :=
  map (fun i => (a / 2 ^ (16 * (7 - Z.of_nat i))) mod 2 ^ 16) (seq 0 8).

(** The longest run of zero segments, the first one on ties: start, length. *)
Fixpoint longest_zeros (i : nat) (l : list Z) (cur best : nat * nat) : nat * nat :=
  match l with
  | [] => best
  | s :: l =>
    if s =? 0 then
      let cur := if (cur.2 =? 0)%nat then (i, 1%nat) else (cur.1, S cur.2) in
      longest_zeros (S i) l cur (if (best.2 <? cur.2)%nat then cur else best)
    else longest_zeros (S i) l (0%nat, 0%nat) best
  end.

Definition show_ipv6 (a : Z) : text :=
  if a / 2 ^ 32 =? 65535 then [58; 58; 102; 102; 102; 102; 58] ++ show_ipv4 (a mod 2 ^ 32) else
  let segs := segments a in
  let '(start, n) := longest_zeros 0 segs (0%nat, 0%nat) (0%nat, 0%nat) in
  if (1 <? n)%nat then
    join [58] (map show_hex (take start segs)) ++ [58; 58] ++
    join [58] (map show_hex (drop (start + n) segs))
  else join [58] (map show_hex segs).

Definition show_ip (a : IpAddr) : text :=
  match a with V4 x => show_ipv4 x | V6 x => show_ipv6 x end.

(** ** Statistics keys *)

Inductive AclStatType := StatTotal | StatAllowed | StatDropped | StatNoop.
Inductive AclStatKey :=
  | CacheHits | CacheSize | CacheMaxSize | RuleMatches | DefaultAllows | DefaultDrops
  | PacketsTotal | PacketsAllowed | PacketsDropped | PacketsNoop
  | InboundPacketsTotal | InboundPacketsAllowed | InboundPacketsDropped | InboundPacketsNoop
  | OutboundPacketsTotal | OutboundPacketsAllowed | OutboundPacketsDropped | OutboundPacketsNoop
  | ForwardPacketsTotal | ForwardPacketsAllowed | ForwardPacketsDropped | ForwardPacketsNoop
  | UnknownPacketsTotal | UnknownPacketsAllowed | UnknownPacketsDropped | UnknownPacketsNoop.

#[export] Instance AclStatKey_eq_dec : EqDecision AclStatKey.
Proof. solve_decision. Defined.
Definition all_stat_keys : list AclStatKey :=
  [CacheHits; CacheSize; CacheMaxSize; RuleMatches; DefaultAllows; DefaultDrops;
   PacketsTotal; PacketsAllowed; PacketsDropped; PacketsNoop;
   InboundPacketsTotal; InboundPacketsAllowed; InboundPacketsDropped; InboundPacketsNoop;
   OutboundPacketsTotal; OutboundPacketsAllowed; OutboundPacketsDropped; OutboundPacketsNoop;
   ForwardPacketsTotal; ForwardPacketsAllowed; ForwardPacketsDropped; ForwardPacketsNoop;
   UnknownPacketsTotal; UnknownPacketsAllowed; UnknownPacketsDropped; UnknownPacketsNoop].
#[export] Instance AclStatKey_countable : Countable AclStatKey.
Proof.
  refine (inj_countable' (fun k => default 0%nat (fst <$> list_find (eq k) all_stat_keys))
    (fun n => nth n all_stat_keys CacheHits) _).
  by intros [].
Defined.

Definition from_chain_and_action (c : ChainType) (t : AclStatType) : AclStatKey :=
  match c, t with
  | Inbound, StatTotal => InboundPacketsTotal
  | Inbound, StatAllowed => InboundPacketsAllowed
  | Inbound, StatDropped => InboundPacketsDropped
  | Inbound, StatNoop => InboundPacketsNoop
  | Outbound, StatTotal => OutboundPacketsTotal
  | Outbound, StatAllowed => OutboundPacketsAllowed
  | Outbound, StatDropped => OutboundPacketsDropped
  | Outbound, StatNoop => OutboundPacketsNoop
  | Forward, StatTotal => ForwardPacketsTotal
  | Forward, StatAllowed => ForwardPacketsAllowed
  | Forward, StatDropped => ForwardPacketsDropped
  | Forward, StatNoop => ForwardPacketsNoop
  | UnspecifiedChain, StatTotal => UnknownPacketsTotal
  | UnspecifiedChain, StatAllowed => UnknownPacketsAllowed
  | UnspecifiedChain, StatDropped => UnknownPacketsDropped
  | UnspecifiedChain, StatNoop => UnknownPacketsNoop
  end.

(** ** Compiled rules *)

(** [RateLimitKey]: chain type and rule priority. *)
Abbreviation RateLimitKey := (ChainType * Z)%type.
(** [AclCacheKey]: chain, protocol, addresses, ports (0 when absent), groups. *)
Abbreviation AclCacheKey :=
  (ChainType * Protocol * IpAddr * IpAddr * Z * Z * list text * list text)%type.

(** The [cidr] crate: the two network types, their membership tests and the
    parser. *)
Class CidrLib := {
  V4Cidr : Type; V6Cidr : Type;
  v4_contains : V4Cidr -> Z -> bool;
  v6_contains : V6Cidr -> Z -> bool;
  cidr_from_str : text -> option (V4Cidr + V6Cidr) }.
Abbreviation IpCidr := (V4Cidr + V6Cidr)%type.

Section acl.
Context {C : CidrLib}.

Record FastLookupRule := {
  priority : Z; protocol : Protocol;
  src_ip_ranges : list IpCidr; dst_ip_ranges : list IpCidr;
  src_port_ranges : list (Z * Z); dst_port_ranges : list (Z * Z);
  source_groups : gset text; destination_groups : gset text;
  action : Action; enabled : bool; stateful : bool;
  rate_limit : Z; burst_limit : Z; rule_stats : nat }.

Definition convert_ip_inet_to_cidr (s : text) : option IpCidr := cidr_from_str s.

(** [arc] is the identity of the new [Arc<RuleStats>]. *)
Definition convert_to_fast_lookup_rule (r : Rule) (arc : nat) : FastLookupRule :=
  {| priority := r_priority r; protocol := r_protocol r;
     src_ip_ranges := omap convert_ip_inet_to_cidr (r_source_ips r);
     dst_ip_ranges := omap convert_ip_inet_to_cidr (r_destination_ips r);
     src_port_ranges := omap parse_port_range (r_source_ports r);
     dst_port_ranges := omap parse_port_range (r_ports r);
     source_groups := list_to_set (r_source_groups r);
     destination_groups := list_to_set (r_destination_groups r);
     action := r_action r; enabled := r_enabled r; stateful := r_stateful r;
     rate_limit := r_rate_limit r; burst_limit := r_burst_limit r; rule_stats := arc |}.

Fixpoint convert_rules (arc : nat) (l : list Rule) : list FastLookupRule * nat :=
  match l with
  | [] => ([], arc)
  | r :: l =>
    let '(rest, next) := convert_rules (S arc) l in
    (convert_to_fast_lookup_rule r arc :: rest, next)
  end.

(** [sort_by_key(|r| Reverse(r.priority))]: a stable sort, highest priority
    first. *)
Fixpoint insert_rule (r : FastLookupRule) (l : list FastLookupRule) : list FastLookupRule :=
  match l with
  | [] => [r]
  | x :: l' => if priority x <=? priority r then r :: l else x :: insert_rule r l'
  end.
Definition sort_rules (l : list FastLookupRule) : list FastLookupRule := foldr insert_rule [] l.

Record RuleVectors := {
  inbound_rules : list FastLookupRule; outbound_rules : list FastLookupRule;
  forward_rules : list FastLookupRule }.

Definition add_chain (v : RuleVectors) (t : ChainType) (l : list FastLookupRule) : RuleVectors :=
  match t with
  | Inbound => {| inbound_rules := inbound_rules v ++ l; outbound_rules := outbound_rules v;
                  forward_rules := forward_rules v |}
  | Outbound => {| inbound_rules := inbound_rules v; outbound_rules := outbound_rules v ++ l;
                   forward_rules := forward_rules v |}
  | Forward => {| inbound_rules := inbound_rules v; outbound_rules := outbound_rules v;
                  forward_rules := forward_rules v ++ l |}
  | UnspecifiedChain => v
  end.

Fixpoint build_chains (arc : nat) (v : RuleVectors) (chains : list Chain) : RuleVectors * nat :=
  match chains with
  | [] => (v, arc)
  | c :: chains =>
    if negb (c_enabled c) then build_chains arc v chains else
    let '(rules, arc) := convert_rules arc (filter (fun r => r_enabled r = true) (c_rules c)) in
    build_chains arc (add_chain v (c_type c) (sort_rules rules)) chains
  end.
(** The default rule's counters are [Arc] 0. *)
Definition build_rules (cfg : AclConfig) : RuleVectors * nat :=
  build_chains 1%nat {| inbound_rules := []; outbound_rules := []; forward_rules := [] |}
    (default [] cfg).

Definition default_action_of (cfg : AclConfig) (t : ChainType) : Action :=
  match list_find (fun c => c_type c = t) (default [] cfg) with
  | Some (_, c) => c_default_action c
  | None => Allow
  end.
Definition build_default_actions (cfg : AclConfig) : Action * Action * Action :=
  (default_action_of cfg Inbound, default_action_of cfg Outbound, default_action_of cfg Forward).

(** ** Packets, verdicts and the cache *)

Record PacketInfo := {
  src_ip : IpAddr; dst_ip : IpAddr; src_port : option Z; dst_port : option Z;
  pi_protocol : Protocol; packet_size : Z; src_groups : list text; dst_groups : list text }.

Record RateLimitValue := { token_bucket : TokenBucket; last_update : Z }.

Inductive RuleId := RulePriority (p : Z) | RuleStateful (p : Z) | RuleDefault.

Definition from_packet_info (p : PacketInfo) (t : ChainType) : AclCacheKey :=
  (t, pi_protocol p, src_ip p, dst_ip p, default 0 (src_port p), default 0 (dst_port p),
   src_groups p, dst_groups p).

Inductive AclLogContext :=
  | StatefulMatch (src dst : IpAddr)
  | RuleMatch (src dst : IpAddr) (a : Action)
  | DefaultDrop | DefaultAllow | UnsupportedChainType | RateLimitDrop.

Record AclResult := {
  res_action : Action; res_rule : option RuleId; should_log : bool;
  log_context : option AclLogContext }.

Record AclCacheEntry := {
  ce_rule : RuleId; last_access : Z; ce_conn_track_key : option text;
  rate_limit_keys : list RateLimitKey; acl_result : option AclResult; rule_stats_vec : list nat }.

Record ConnTrackEntry := {
  ct_src : IpAddr * Z; ct_dst : IpAddr * Z; ct_protocol : Z; ct_state : Z;
  created_at : Z; last_seen : Z; ct_packet_count : Z; ct_byte_count : Z }.

Record AclState := {
  conn_track : gmap text ConnTrackEntry;
  rate_limiters : gmap RateLimitKey RateLimitValue;
  rule_cache : gmap AclCacheKey AclCacheEntry;
  acl_stats : gmap AclStatKey Z;
  stat_items : gmap nat (Z * Z) }.

Record AclProcessor := {
  rules : RuleVectors;
  default_inbound_action : Action; default_outbound_action : Action;
  default_forward_action : Action;
  cache_max_size : Z; cache_cleanup_interval : Z }.

Definition with_conn_track (st : AclState) (m : gmap text ConnTrackEntry) : AclState :=
  {| conn_track := m; rate_limiters := rate_limiters st; rule_cache := rule_cache st;
     acl_stats := acl_stats st; stat_items := stat_items st |}.
Definition with_rate_limiters (st : AclState) (m : gmap RateLimitKey RateLimitValue) : AclState :=
  {| conn_track := conn_track st; rate_limiters := m; rule_cache := rule_cache st;
     acl_stats := acl_stats st; stat_items := stat_items st |}.
Definition with_rule_cache (st : AclState) (m : gmap AclCacheKey AclCacheEntry) : AclState :=
  {| conn_track := conn_track st; rate_limiters := rate_limiters st; rule_cache := m;
     acl_stats := acl_stats st; stat_items := stat_items st |}.
Definition with_acl_stats (st : AclState) (m : gmap AclStatKey Z) : AclState :=
  {| conn_track := conn_track st; rate_limiters := rate_limiters st; rule_cache := rule_cache st;
     acl_stats := m; stat_items := stat_items st |}.
Definition with_stat_items (st : AclState) (m : gmap nat (Z * Z)) : AclState :=
  {| conn_track := conn_track st; rate_limiters := rate_limiters st; rule_cache := rule_cache st;
     acl_stats := acl_stats st; stat_items := m |}.

(** The counters of the [Arc]s [0 .. n-1]. *)
Definition fresh_stat_items (n : nat) : gmap nat (Z * Z) :=
  list_to_map (map (fun i => (i, (0, 0))) (seq 0 n)).

(** [shared]: connection table, rate limiters and statistics of the processor
    being replaced. *)
Definition new_with_shared_state (cfg : AclConfig)
    (shared : option (gmap text ConnTrackEntry * gmap RateLimitKey RateLimitValue * gmap AclStatKey Z))
    : AclProcessor * AclState :=
  let '(v, arcs) := build_rules cfg in
  let '(a_in, a_out, a_fwd) := build_default_actions cfg in
  let '(ct, rl, stats) := default (∅, ∅, ∅) shared in
  ({| rules := v; default_inbound_action := a_in; default_outbound_action := a_out;
      default_forward_action := a_fwd; cache_max_size := 1024;
      cache_cleanup_interval := 20 * NANOS_PER_SECOND |},
   {| conn_track := ct; rate_limiters := rl; rule_cache := ∅; acl_stats := stats;
      stat_items := fresh_stat_items arcs |}).
Definition AclProcessor_new (cfg : AclConfig) : AclProcessor * AclState :=
  new_with_shared_state cfg None.
Definition get_shared_state (st : AclState) := (conn_track st, rate_limiters st, acl_stats st).

(** ** Matching *)

Definition cidr_matches (c : IpCidr) (a : IpAddr) : bool :=
  match c, a with
  | inl n, V4 x => v4_contains n x
  | inr n, V6 x => v6_contains n x
  | _, _ => false
  end.
Definition ip_check (ranges : list IpCidr) (a : IpAddr) : bool :=
  match ranges with [] => true | _ => existsb (fun c => cidr_matches c a) ranges end.
Definition port_check (ranges : list (Z * Z)) (port : option Z) : bool :=
  match port, ranges with
  | Some p, _ :: _ => existsb (fun '(lo, hi) => (lo <=? p) && (p <=? hi)) ranges
  | _, _ => true
  end.
Definition group_check (wanted : gset text) (groups : list text) : bool :=
  if decide (wanted = ∅) then true else existsb (fun g => bool_decide (g ∈ wanted)) groups.

Definition rule_matches (r : FastLookupRule) (p : PacketInfo) : bool :=
  if negb (bool_decide (protocol r = ProtoAny)) &&
     negb (Protocol_as_i32 (protocol r) =? Protocol_as_i32 (pi_protocol p)) then false else
  if negb (ip_check (src_ip_ranges r) (src_ip p)) then false else
  if negb (ip_check (dst_ip_ranges r) (dst_ip p)) then false else
  if negb (port_check (src_port_ranges r) (src_port p)) then false else
  if negb (port_check (dst_port_ranges r) (dst_port p)) then false else
  if negb (group_check (source_groups r) (src_groups p)) then false else
  if negb (group_check (destination_groups r) (dst_groups p)) then false else
  true.

(** ** Counters and connection tracking *)

Definition increment_stat (st : AclState) (k : AclStatKey) : AclState :=
  with_acl_stats st (<[k := match acl_stats st !! k with Some n => wrap 64 (n + 1) | None => 1 end]>
                       (acl_stats st)).

(** The [+=] behind the [Arc]s, in order. *)
Definition bump (size : Z) (c : Z * Z) : Z * Z := (wrap 64 (c.1 + 1), wrap 64 (c.2 + size)).
Definition inc_cache_entry_stats (st : AclState) (e : AclCacheEntry) (p : PacketInfo) : AclState :=
  with_stat_items st (foldl (fun m a => alter (bump (packet_size p)) a m) (stat_items st)
                        (rule_stats_vec e)).

Definition conn_track_key (p : PacketInfo) : text :=
  show_ip (src_ip p) ++ [58] ++ show_dec (default 0 (src_port p)) ++ [45; 62] ++
  show_ip (dst_ip p) ++ [58] ++ show_dec (default 0 (dst_port p)).

Definition check_connection_state (st : AclState) (key : text) (p : PacketInfo) (secs : Z) : AclState :=
  let e :=
    match conn_track st !! key with
    | Some x =>
      {| ct_src := ct_src x; ct_dst := ct_dst x; ct_protocol := ct_protocol x; ct_state := 1;
         created_at := created_at x; last_seen := secs;
         ct_packet_count := wrap 64 (ct_packet_count x + 1);
         ct_byte_count := wrap 64 (ct_byte_count x + packet_size p) |}
    | None =>
      {| ct_src := (src_ip p, default 0 (src_port p)); ct_dst := (dst_ip p, default 0 (dst_port p));
         ct_protocol := Protocol_as_i32 (pi_protocol p); ct_state := 0;
         created_at := secs; last_seen := secs; ct_packet_count := 1;
         ct_byte_count := packet_size p |}
    end in
  with_conn_track st (<[key := e]> (conn_track st)).

(** [current_time - entry.last_seen] is a [u64] subtraction. *)
Definition cleanup_expired_connections (st : AclState) (timeout_secs secs : Z) : AclState :=
  with_conn_track st
    (filter (fun kv => (timeout_secs <? wrap 64 (secs - last_seen kv.2)) = false) (conn_track st)).

(** ** Rate limiting *)

Definition check_rate_limit (st : AclState) (k : RateLimitKey) (rate burst : Z)
    (allow_create : bool) (now : Z) : comp (AclState * bool) :=
  if rate =? 0 then Ret (st, true) else
  v ←
    match rate_limiters st !! k with
    | Some v => Ret v
    | None =>
      if negb allow_create then Panic
      else Ret {| token_bucket := TokenBucket_new burst rate now; last_update := now |}
    end;
  let '(b, ok) := try_consume (token_bucket v) 1 now in
  Ret (with_rate_limiters st (<[k := {| token_bucket := b; last_update := now |}]> (rate_limiters st)), ok).

(** ** The cache *)

Definition expired_timepoint (now : Z) : Z :=
  if 15 * NANOS_PER_SECOND <=? now then now - 15 * NANOS_PER_SECOND else now.

(** The entries with the oldest access first; equal times in an unspecified
    order. *)
Definition older (a b : AclCacheKey * AclCacheEntry) : Prop := last_access a.2 <= last_access b.2.
#[export] Instance older_dec a b : Decision (older a b).
Proof. unfold older. apply _. Defined.

Definition cleanup_cache (cache : gmap AclCacheKey AclCacheEntry) (max_size now : Z)
    : gmap AclCacheKey AclCacheEntry :=
  let cache := filter (fun kv => (expired_timepoint now <? last_access kv.2) = true) cache in
  let current_size := Z.of_nat (size cache) in
  if current_size <=? max_size then cache else
  let entries := merge_sort older (map_to_list cache) in
  let to_remove := current_size - max_size + max_size / 5 in
  foldl (fun m kv => delete kv.1 m) cache (take (Z.to_nat to_remove) entries).

Definition cache_result (P : AclProcessor) (st : AclState) (k : AclCacheKey) (e : AclCacheEntry)
    (now : Z) : AclState :=
  let st := with_rule_cache st (<[k := e]> (rule_cache st)) in
  if cache_max_size P * 2 <? Z.of_nat (size (rule_cache st))
  then with_rule_cache st (cleanup_cache (rule_cache st) (cache_max_size P) now)
  else st.

(** One tick of the background task: the cache at [now1], the limiters at
    [now2]. *)
Definition cleanup_tick (P : AclProcessor) (st : AclState) (now1 now2 : Z) : AclState :=
  let st := with_rule_cache st (cleanup_cache (rule_cache st) (cache_max_size P) now1) in
  with_rate_limiters st
    (filter (fun kv => (sat_sub now2 (last_update kv.2) <? cache_cleanup_interval P) = true)
       (rate_limiters st)).

(** ** Processing a packet *)

Definition rate_drop (r : RuleId) : AclResult :=
  {| res_action := DropPkt; res_rule := Some r; should_log := false;
     log_context := Some RateLimitDrop |}.

(** The loop over the cached limiter keys. *)
Fixpoint check_cached_limits (st : AclState) (keys : list RateLimitKey) (now : Z)
    : comp (AclState * bool) :=
  match keys with
  | [] => Ret (st, true)
  | k :: keys =>
    '(st, ok) ← check_rate_limit st k 1 1 false now;
    if negb ok then Ret (st, false) else check_cached_limits st keys now
  end.

Definition process_packet_with_cache_entry (st : AclState) (p : PacketInfo) (e : AclCacheEntry)
    (now secs : Z) : comp (AclState * AclResult) :=
  '(st, ok) ← check_cached_limits st (rate_limit_keys e) now;
  if negb ok then Ret (st, rate_drop (ce_rule e)) else
  let st := match ce_conn_track_key e with
            | Some k => check_connection_state st k p secs
            | None => st
            end in
  let st := inc_cache_entry_stats st e p in
  r ← unwrap (acl_result e);
  Ret (st, r).

Definition touch_entry (e : AclCacheEntry) (now : Z) : AclCacheEntry :=
  {| ce_rule := ce_rule e; last_access := now; ce_conn_track_key := ce_conn_track_key e;
     rate_limit_keys := rate_limit_keys e; acl_result := acl_result e;
     rule_stats_vec := rule_stats_vec e |}.

Definition chain_rules (P : AclProcessor) (t : ChainType) : option (list FastLookupRule) :=
  match t with
  | Inbound => Some (inbound_rules (rules P))
  | Outbound => Some (outbound_rules (rules P))
  | Forward => Some (forward_rules (rules P))
  | UnspecifiedChain => None
  end.
Definition default_action (P : AclProcessor) (t : ChainType) : Action :=
  match t with
  | Inbound => default_inbound_action P
  | Outbound => default_outbound_action P
  | Forward => default_forward_action P
  | UnspecifiedChain => Allow
  end.

Definition stateful_allow (r : FastLookupRule) : bool :=
  stateful r && bool_decide (action r = Allow).

(** What a matching rule puts into the cache entry. *)
Definition rule_entry (r : FastLookupRule) (p : PacketInfo) (t : ChainType) (now : Z) : AclCacheEntry :=
  let limited := 0 <? rate_limit r in
  let keys := if limited then [(t, priority r)] else [] in
  let stats := if limited then [rule_stats r] else [] in
  if stateful_allow r then
    {| ce_rule := RuleStateful (priority r); last_access := now;
       ce_conn_track_key := Some (conn_track_key p); rate_limit_keys := keys;
       acl_result := Some {| res_action := Allow; res_rule := Some (RuleStateful (priority r));
         should_log := false; log_context := Some (StatefulMatch (src_ip p) (dst_ip p)) |};
       rule_stats_vec := stats ++ [rule_stats r] |}
  else
    {| ce_rule := RulePriority (priority r); last_access := now;
       ce_conn_track_key := None; rate_limit_keys := keys;
       acl_result := Some {| res_action := action r; res_rule := Some (RulePriority (priority r));
         should_log := false; log_context := Some (RuleMatch (src_ip p) (dst_ip p) (action r)) |};
       rule_stats_vec := stats ++ [rule_stats r] |}.

Definition default_entry (P : AclProcessor) (t : ChainType) (now : Z) : AclCacheEntry :=
  let a := default_action P t in
  {| ce_rule := RuleDefault; last_access := now; ce_conn_track_key := None; rate_limit_keys := [];
     acl_result := Some {| res_action := a; res_rule := Some RuleDefault; should_log := false;
       log_context := Some (if bool_decide (a = DropPkt) then DefaultDrop else DefaultAllow) |};
     rule_stats_vec := [0%nat] |}.

(** The body of the rule loop for the first rule that matches. *)
Definition apply_rule (P : AclProcessor) (st : AclState) (r : FastLookupRule) (p : PacketInfo)
    (t : ChainType) (now secs : Z) : comp (AclState * AclResult) :=
  '(st, ok) ←
    if 0 <? rate_limit r
    then check_rate_limit st (t, priority r) (rate_limit r) (burst_limit r) true now
    else Ret (st, true);
  if negb ok then Ret (st, rate_drop (RulePriority (priority r))) else
  let st := if stateful_allow r then check_connection_state st (conn_track_key p) p secs else st in
  let e := rule_entry r p t now in
  let st := increment_stat st RuleMatches in
  let st := inc_cache_entry_stats st e p in
  let st := cache_result P st (from_packet_info p t) e now in
  r ← unwrap (acl_result e);
  Ret (st, r).

Fixpoint scan_rules (P : AclProcessor) (st : AclState) (l : list FastLookupRule) (p : PacketInfo)
    (t : ChainType) (now secs : Z) : comp (AclState * AclResult) :=
  match l with
  | r :: l =>
    if negb (enabled r) || negb (rule_matches r p) then scan_rules P st l p t now secs
    else apply_rule P st r p t now secs
  | [] =>
    let a := default_action P t in
    let st := increment_stat st (if bool_decide (a = DropPkt) then DefaultDrops else DefaultAllows) in
    let e := default_entry P t now in
    let st := inc_cache_entry_stats st e p in
    let st := cache_result P st (from_packet_info p t) e now in
    r ← unwrap (acl_result e);
    Ret (st, r)
  end.

Definition process_packet (P : AclProcessor) (st : AclState) (p : PacketInfo) (t : ChainType)
    (now secs : Z) : comp (AclState * AclResult) :=
  let k := from_packet_info p t in
  match rule_cache st !! k with
  | Some e =>
    let e := touch_entry e now in
    let st := with_rule_cache st (<[k := e]> (rule_cache st)) in
    let st := increment_stat st CacheHits in
    process_packet_with_cache_entry st p e now secs
  | None =>
    match chain_rules P t with
    | Some l => scan_rules P st l p t now secs
    | None => Ret (st, {| res_action := DropPkt; res_rule := Some RuleDefault; should_log := false;
                          log_context := Some UnsupportedChainType |})
    end
  end.
End acl.
