(* ===== verification/AclProofs.v ===== *)
(** Properties of the ACL engine: rule order, agreement of cached and fresh
    verdicts, and the absence of panics along every history of packets and
    cleanup ticks. *)

From S2P Require Import Prelude TokenBucket Acl.
From stdpp Require Import list strings gmap sorting.
Local Open Scope Z_scope.

Section acl.
Context {C : CidrLib}.

(** ** Rule order *)

(** The reference choice: among the rules satisfying [m], one of the highest
    priority, the earliest in configuration order. *)
Fixpoint best_rule (m : FastLookupRule -> bool) (l : list FastLookupRule) : option FastLookupRule :=
  match l with
  | [] => None
  | r :: l =>
    match best_rule m l with
    | Some b => if m r && (priority b <=? priority r) then Some r else Some b
    | None => if m r then Some r else None
    end
  end.

Definition descending (a b : FastLookupRule) : Prop := priority b <= priority a.

Lemma insert_rule_sorted r l : StronglySorted descending l -> StronglySorted descending (insert_rule r l).
Proof.
  induction 1 as [|x l Hl IH Hx]; [by repeat constructor|]. cbn.
  destruct (Z.leb_spec (priority x) (priority r)) as [Hle|Hgt].
  - constructor; [by constructor|]. constructor; [done|].
    eapply Forall_impl; [exact Hx|]. unfold descending. cbn. lia.
  - constructor; [done|]. clear IH Hl. revert Hx. induction l as [|y l IHl]; cbn; intros Hx.
    + constructor; [unfold descending; lia|done].
    + apply Forall_cons in Hx as [Hy Hx]. case_match; constructor; try done.
      * unfold descending; lia.
      * by constructor.
      * by apply IHl.
Qed.

Lemma sort_rules_sorted l : StronglySorted descending (sort_rules l).
Proof. induction l; [constructor|]. by apply insert_rule_sorted. Qed.

Lemma insert_rule_perm r l : insert_rule r l ≡ₚ r :: l.
Proof.
  induction l as [|x l IH]; [done|]. cbn. case_match; [done|]. rewrite IH. apply Permutation_swap.
Qed.
Lemma sort_rules_perm l : sort_rules l ≡ₚ l.
Proof. induction l as [|x l IH]; [done|]. cbn. by rewrite insert_rule_perm, IH. Qed.

Lemma find_insert_rule m r l : StronglySorted descending l ->
  find m (insert_rule r l) =
    match find m l with
    | Some b => if m r && (priority b <=? priority r) then Some r else Some b
    | None => if m r then Some r else None
    end.
Proof.
  induction 1 as [|x l Hl IH Hx]; [done|]. cbn [insert_rule].
  destruct (Z.leb_spec (priority x) (priority r)) as [Hle|Hgt].
  - cbn [find]. destruct (m r) eqn:Em; cbn [andb].
    + destruct (m x) eqn:Ex; [by rewrite (proj2 (Z.leb_le _ _))|].
      destruct (find m l) as [b|] eqn:Ef; [|done].
      apply find_some in Ef as [Hin _]. rewrite Forall_forall in Hx.
      assert (Hb : b ∈ l) by (by apply list_elem_of_In).
      specialize (Hx b Hb). unfold descending in Hx. by rewrite (proj2 (Z.leb_le _ _)) by lia.
    + by destruct (m x), (find m l).
  - cbn [find]. rewrite IH. destruct (m x) eqn:Ex; [|done].
    rewrite (proj2 (Z.leb_gt _ _)) by lia. by rewrite andb_false_r.
Qed.

Lemma find_sort_rules m l : find m (sort_rules l) = best_rule m l.
Proof.
  induction l as [|r l IH]; [done|]. cbn [sort_rules foldr best_rule].
  fold (sort_rules l). by rewrite find_insert_rule, IH by apply sort_rules_sorted.
Qed.

(** ** Verdicts without cache and limits *)

Definition usable (p : PacketInfo) (r : FastLookupRule) : bool := enabled r && rule_matches r p.

Definition static_entry (P : AclProcessor) (p : PacketInfo) (t : ChainType)
    (l : list FastLookupRule) (now : Z) : AclCacheEntry :=
  match find (usable p) l with
  | Some r => rule_entry r p t now
  | None => default_entry P t now
  end.

(** The verdict of the rules alone. *)
Definition static_result (P : AclProcessor) (p : PacketInfo) (t : ChainType)
    (l : list FastLookupRule) : AclResult :=
  match find (usable p) l with
  | Some r =>
    if stateful_allow r then
      {| res_action := Allow; res_rule := Some (RuleStateful (priority r)); should_log := false;
         log_context := Some (StatefulMatch (src_ip p) (dst_ip p)) |}
    else
      {| res_action := action r; res_rule := Some (RulePriority (priority r)); should_log := false;
         log_context := Some (RuleMatch (src_ip p) (dst_ip p) (action r)) |}
  | None =>
    {| res_action := default_action P t; res_rule := Some RuleDefault; should_log := false;
       log_context := Some (if bool_decide (default_action P t = DropPkt) then DefaultDrop else DefaultAllow) |}
  end.

Lemma static_entry_result P p t l now : acl_result (static_entry P p t l now) = Some (static_result P p t l).
Proof.
  unfold static_entry, static_result. destruct (find _ l) as [r|]; [|done].
  unfold rule_entry. by destruct (stateful_allow r).
Qed.

(** Whether the bucket of the deciding rule grants a token. *)
Definition limit_verdict (st : AclState) (p : PacketInfo) (t : ChainType) (l : list FastLookupRule)
    (now : Z) : bool :=
  match find (usable p) l with
  | Some r =>
    if 0 <? rate_limit r then
      let b := match rate_limiters st !! (t, priority r) with
               | Some v => token_bucket v
               | None => TokenBucket_new (burst_limit r) (rate_limit r) now
               end in
      (try_consume b 1 now).2
    else true
  | None => true
  end.

(** Packets as [filter.rs] builds them: ports exactly for TCP and UDP. *)
Definition has_ports (pr : Protocol) : bool :=
  match pr with Tcp | Udp => true | _ => false end.
Definition pkt_ok (p : PacketInfo) : Prop :=
  (is_Some (src_port p) <-> has_ports (pi_protocol p) = true) /\
  (is_Some (dst_port p) <-> has_ports (pi_protocol p) = true).

Lemma port_from_key (o o' : option Z) (b : bool) :
  (is_Some o <-> b = true) -> (is_Some o' <-> b = true) -> default 0 o = default 0 o' -> o = o'.
Proof.
  intros H1 H2. destruct o, o'; cbn; intros E; subst; try done.
  - assert (is_Some (@None Z)) as [? ?] by (apply H2, H1; eauto). done.
  - assert (is_Some (@None Z)) as [? ?] by (apply H1, H2; eauto). done.
Qed.

(** The cache key determines everything the rules look at. *)
Lemma key_determines p p' t t' : pkt_ok p -> pkt_ok p' -> from_packet_info p t = from_packet_info p' t' ->
  t = t' /\ (forall P l now, static_entry P p t l now = static_entry P p' t l now).
Proof.
  intros [H1 H2] [H3 H4] E. unfold from_packet_info in E. injection E as -> Epr Es Ed Esp Edp Esg Edg.
  split; [done|]. rewrite <- Epr in H3, H4.
  pose proof (port_from_key _ _ _ H1 H3 Esp) as Esp'. pose proof (port_from_key _ _ _ H2 H4 Edp) as Edp'.
  intros P l now. destruct p, p'. cbn in *. by subst.
Qed.

(** ** The invariant *)

Record acl_inv (P : AclProcessor) (st : AclState) (T : Z) : Prop := {
  inv_entry : forall k e, rule_cache st !! k = Some e ->
    exists p t l, pkt_ok p /\ k = from_packet_info p t /\ chain_rules P t = Some l /\
      e = static_entry P p t l (last_access e);
  inv_limit : forall k e rk, rule_cache st !! k = Some e -> rk ∈ rate_limit_keys e ->
    exists v, rate_limiters st !! rk = Some v /\ last_access e <= last_update v;
  inv_time : forall k e, rule_cache st !! k = Some e -> last_access e <= T }.

Lemma acl_inv_weaken P st T T' : acl_inv P st T -> T <= T' -> acl_inv P st T'.
Proof. intros [H1 H2 H3] HT. split; [done..|]. intros k e Hk. specialize (H3 k e Hk). lia. Qed.

(** Removing cache entries, or changing counters and connections, keeps it. *)
Lemma acl_inv_sub P st st' T : acl_inv P st T ->
  (forall k e, rule_cache st' !! k = Some e -> rule_cache st !! k = Some e) ->
  rate_limiters st' = rate_limiters st -> acl_inv P st' T.
Proof.
  intros [H1 H2 H3] Hsub Er. split; [by eauto| |by eauto].
  intros k e rk Hk. rewrite Er. by eauto.
Qed.

Lemma deletes_sub (l : list (AclCacheKey * AclCacheEntry)) (m : gmap AclCacheKey AclCacheEntry) k e :
  foldl (fun m kv => delete kv.1 m) m l !! k = Some e -> m !! k = Some e.
Proof.
  revert m. induction l as [|[k' e'] l IH]; intros m; [done|]. cbn. intros H%IH.
  by apply lookup_delete_Some in H as [_ ?].
Qed.

Lemma cleanup_cache_sub c mx now k e : cleanup_cache c mx now !! k = Some e ->
  c !! k = Some e /\ expired_timepoint now < last_access e.
Proof.
  unfold cleanup_cache.
  assert (Hf : forall k e, filter (fun kv => (expired_timepoint now <? last_access kv.2) = true) c !! k = Some e ->
    c !! k = Some e /\ expired_timepoint now < last_access e).
  { intros k' e' [H1 H2]%map_lookup_filter_Some. split; [done|]. by apply Z.ltb_lt. }
  case_match; [apply Hf|]. intros Hd%deletes_sub. by apply Hf.
Qed.

Lemma cache_result_inv P st k e now T :
  acl_inv P (with_rule_cache st (<[k := e]> (rule_cache st))) T -> acl_inv P (cache_result P st k e now) T.
Proof.
  intros Hinv. unfold cache_result. case_match; [|done].
  eapply acl_inv_sub; [exact Hinv| |done]. intros k' e' Hk. by apply cleanup_cache_sub in Hk as [? _].
Qed.

(** A consulted limiter is as fresh as the clock. *)
Lemma check_rate_limit_spec st k rate burst create now :
  rate <> 0 -> (create = true \/ is_Some (rate_limiters st !! k)) ->
  let b := match rate_limiters st !! k with
           | Some v => token_bucket v | None => TokenBucket_new burst rate now end in
  check_rate_limit st k rate burst create now =
    Ret (with_rate_limiters st (<[k := {| token_bucket := (try_consume b 1 now).1; last_update := now |}]>
           (rate_limiters st)), (try_consume b 1 now).2).
Proof.
  intros Hr Hc b. unfold check_rate_limit. rewrite (proj2 (Z.eqb_neq _ _)) by done. subst b.
  destruct (rate_limiters st !! k) as [v|] eqn:E.
  - cbn [mbind comp_bind]. by destruct (try_consume (token_bucket v) 1 now) as [b ok].
  - assert (create = true) as -> by (destruct Hc as [?|[? ?]]; done). cbn [negb mbind comp_bind token_bucket].
    by destruct (try_consume (TokenBucket_new burst rate now) 1 now) as [b ok].
Qed.

Lemma acl_inv_limiter P st T k v : acl_inv P st T -> T <= last_update v ->
  acl_inv P (with_rate_limiters st (<[k := v]> (rate_limiters st))) T.
Proof.
  intros [H1 H2 H3] Hv. split; cbn; [done| |done].
  intros k' e rk Hk Hin. destruct (decide (rk = k)) as [->|Hne].
  - exists v. rewrite lookup_insert_eq. split; [done|]. specialize (H3 _ _ Hk). lia.
  - rewrite lookup_insert_ne by done. by eauto.
Qed.

Lemma acl_inv_insert P st T p t l e :
  acl_inv P st T -> pkt_ok p -> chain_rules P t = Some l ->
  e = static_entry P p t l (last_access e) -> last_access e <= T ->
  (forall rk, rk ∈ rate_limit_keys e ->
     exists v, rate_limiters st !! rk = Some v /\ last_access e <= last_update v) ->
  acl_inv P (with_rule_cache st (<[from_packet_info p t := e]> (rule_cache st))) T.
Proof.
  intros [H1 H2 H3] Hp Hl He Ht Hlim. split; cbn.
  - intros k e' [[<- <-]|[_ Hk]]%lookup_insert_Some; [|by eauto]. exists p, t, l. by split_and!.
  - intros k e' rk [[<- <-]|[_ Hk]]%lookup_insert_Some; [by eauto|by eauto].
  - intros k e' [[<- <-]|[_ Hk]]%lookup_insert_Some; [done|by eauto].
Qed.

(** ** One packet *)

Lemma scan_rules_find P st l p t now secs :
  scan_rules P st l p t now secs =
    match find (usable p) l with
    | Some r => apply_rule P st r p t now secs
    | None =>
      let st := increment_stat st (if bool_decide (default_action P t = DropPkt) then DefaultDrops else DefaultAllows) in
      let st := inc_cache_entry_stats st (default_entry P t now) p in
      Ret (cache_result P st (from_packet_info p t) (default_entry P t now) now, static_result P p t l)
    end.
Proof.
  unfold static_result. induction l as [|r l IH]; [done|]. cbn [scan_rules find]. unfold usable at 1 3.
  destruct (enabled r), (rule_matches r p); cbn [negb orb andb]; [done|exact IH..].
Qed.

(** The outcome every path must produce. *)
Definition verdict_ok (P : AclProcessor) (p : PacketInfo) (t : ChainType) (l : list FastLookupRule)
    (granted : bool) (res : AclResult) : Prop :=
  if granted then res = static_result P p t l
  else res_action res = DropPkt /\ log_context res = Some RateLimitDrop.

Lemma rule_entry_keys r p t now rk : rk ∈ rate_limit_keys (rule_entry r p t now) ->
  rk = (t, priority r) /\ 0 < rate_limit r.
Proof.
  unfold rule_entry. destruct (Z.ltb_spec 0 (rate_limit r)), (stateful_allow r); cbn;
    intros Hin; try (by apply elem_of_nil in Hin); apply list_elem_of_singleton in Hin; done.
Qed.
Lemma rule_entry_access r p t now : last_access (rule_entry r p t now) = now.
Proof. unfold rule_entry. by destruct (stateful_allow r). Qed.
Lemma static_entry_access P p t l now : last_access (static_entry P p t l now) = now.
Proof. unfold static_entry. destruct (find _ l); [apply rule_entry_access|done]. Qed.

(** A packet judged by the rules. *)
Lemma fresh_packet P st p t l now secs T :
  acl_inv P st T -> T <= now -> pkt_ok p -> chain_rules P t = Some l ->
  exists st' res, scan_rules P st l p t now secs = Ret (st', res) /\ acl_inv P st' now /\
    verdict_ok P p t l (limit_verdict st p t l now) res.
Proof.
  intros Hinv HT Hp Hl. apply (acl_inv_weaken _ _ _ now) in Hinv; [|done].
  rewrite scan_rules_find. unfold limit_verdict. destruct (find (usable p) l) as [r|] eqn:Ef.
  2: { eexists _, _. split; [done|]. split; [|done]. apply cache_result_inv.
    apply (acl_inv_insert P _ now p t l); [|done|done| |done|].
    - eapply acl_inv_sub; [exact Hinv|done|done].
    - unfold static_entry. by rewrite Ef.
    - by intros rk Hin%elem_of_nil. }
  unfold apply_rule.
  (* the limiter *)
  set (lim := if 0 <? rate_limit r then check_rate_limit _ _ _ _ _ _ else _).
  set (ok := if 0 <? rate_limit r then _ else true).
  assert (Hlim : exists st1, lim = Ret (st1, ok) /\ acl_inv P st1 now /\
    (0 < rate_limit r -> exists v, rate_limiters st1 !! (t, priority r) = Some v /\ now <= last_update v)).
  { unfold lim, ok. destruct (Z.ltb_spec 0 (rate_limit r)) as [Hpos|Hz].
    - rewrite check_rate_limit_spec by (auto || lia). eexists. split; [done|].
      split; [by apply acl_inv_limiter|]. intros _. eexists. cbn. rewrite lookup_insert_eq. by split.
    - exists st. split_and!; [done..|lia]. }
  destruct Hlim as (st1 & -> & Hinv1 & Hlim). cbn [mbind comp_bind].
  destruct ok; cbn [negb].
  2: { eexists _, _. split; [done|]. by split. }
  (* the entry *)
  assert (Hres : acl_result (rule_entry r p t now) = Some (static_result P p t l)).
  { rewrite <- (static_entry_result P p t l now). unfold static_entry. by rewrite Ef. }
  rewrite Hres. cbn [unwrap mbind comp_bind]. eexists _, _. split; [done|]. split; [|done].
  apply cache_result_inv. apply (acl_inv_insert P _ now p t l); [|done|done|..].
  - eapply acl_inv_sub; [exact Hinv1| |]; by destruct (stateful_allow r).
  - rewrite rule_entry_access. unfold static_entry. by rewrite Ef.
  - by rewrite rule_entry_access.
  - intros rk Hin. apply rule_entry_keys in Hin as [-> Hpos]. rewrite rule_entry_access.
    destruct (Hlim Hpos) as (v & Hv & Hle). exists v. split; [|done].
    by destruct (stateful_allow r).
Qed.

(** A packet judged from the cache. *)
Lemma cached_packet P st p t e now secs T :
  acl_inv P st T -> T <= now -> pkt_ok p -> rule_cache st !! from_packet_info p t = Some e ->
  exists st' res l, chain_rules P t = Some l /\
    process_packet_with_cache_entry
      (increment_stat (with_rule_cache st (<[from_packet_info p t := touch_entry e now]> (rule_cache st))) CacheHits)
      p (touch_entry e now) now secs = Ret (st', res) /\ acl_inv P st' now /\
    verdict_ok P p t l (limit_verdict st p t l now) res.
Proof.
  intros Hinv HT Hp He. pose proof (acl_inv_weaken _ _ _ _ Hinv HT) as Hinv'.
  destruct (inv_entry _ _ _ Hinv _ _ He) as (p' & t' & l & Hp' & Ek & Hl & Ee).
  destruct (key_determines p p' t t' Hp Hp' Ek) as [<- Hst]. rewrite <- Hst in Ee.
  assert (Etouch : touch_entry e now = static_entry P p t l now).
  { rewrite Ee. unfold static_entry. destruct (find _ l); [|done]. unfold rule_entry. by case_match. }
  set (e' := touch_entry e now) in *.
  assert (Hacc : last_access e' = now) by done.
  (* the limiter of the deciding rule, if any *)
  assert (Hkeys : rate_limit_keys e' = match find (usable p) l with
    | Some r => if 0 <? rate_limit r then [(t, priority r)] else [] | None => [] end).
  { rewrite Etouch. unfold static_entry. destruct (find _ l); [|done]. unfold rule_entry. by case_match. }
  set (st1 := increment_stat _ CacheHits).
  assert (Hrl : rate_limiters st1 = rate_limiters st) by done.
  assert (Hlimit : forall rk, rk ∈ rate_limit_keys e' ->
    exists v, rate_limiters st1 !! rk = Some v).
  { intros rk Hin. rewrite Hrl. destruct (inv_limit _ _ _ Hinv _ _ rk He Hin) as (v & ? & _). eauto. }
  assert (Hcheck : exists st2, check_cached_limits st1 (rate_limit_keys e') now =
      Ret (st2, limit_verdict st p t l now) /\ acl_inv P st2 now).
  { assert (Hinv1 : forall st2, rule_cache st2 = <[from_packet_info p t := e']> (rule_cache st) ->
      (forall rk v, rate_limiters st !! rk = Some v ->
         exists v', rate_limiters st2 !! rk = Some v' /\ (v' = v \/ last_update v' = now)) ->
      (forall rk, rk ∈ rate_limit_keys e' -> exists v', rate_limiters st2 !! rk = Some v' /\ last_update v' = now) ->
      acl_inv P st2 now).
    { intros st2 Hc Hr Hr'. destruct Hinv' as [G1 G2 G3]. split; rewrite Hc.
      - intros k0 e0 [[<- <-]|[_ Hk]]%lookup_insert_Some; [|by eauto].
        exists p, t, l. split_and!; try done.
      - intros k0 e0 rk [[<- <-]|[_ Hk]]%lookup_insert_Some Hin.
        + destruct (Hr' rk Hin) as (v' & ? & Hu). exists v'. split; [done|]. rewrite Hacc. lia.
        + destruct (G2 _ _ _ Hk Hin) as (v & Hv & Hle). destruct (Hr _ _ Hv) as (v' & ? & [->|Hu]); [by eauto|].
          exists v'. split; [done|]. specialize (G3 _ _ Hk). lia.
      - intros k0 e0 [[<- <-]|[_ Hk]]%lookup_insert_Some; [done|by eauto]. }
    rewrite Hkeys in *. unfold limit_verdict. destruct (find (usable p) l) as [r|].
    2: { exists st1. split; [done|]. apply Hinv1; [done|by eauto|by intros ? ?%elem_of_nil]. }
    destruct (0 <? rate_limit r).
    2: { exists st1. split; [done|]. apply Hinv1; [done|by eauto|by intros ? ?%elem_of_nil]. }
    destruct (Hlimit (t, priority r)) as [v Hv]; [by left|].
    cbn [check_cached_limits]. rewrite check_rate_limit_spec by (done || eauto). rewrite Hrl in Hv |- *.
    rewrite Hv. cbn [mbind comp_bind].
    destruct (try_consume (token_bucket v) 1 now) as [b [|]]; cbn [fst snd negb]; eexists; (split; [done|]);
      apply Hinv1; try done.
    all: try (intros rk Hin; apply list_elem_of_singleton in Hin as ->; eexists; cbn; rewrite lookup_insert_eq; by split).
    all: intros rk v0 Hv0; cbn; destruct (decide (rk = (t, priority r))) as [->|Hne];
      [rewrite lookup_insert_eq; eexists; split; [done|by right]
      |rewrite lookup_insert_ne by done; eauto]. }
  destruct Hcheck as (st2 & Ec & Hinv2). unfold process_packet_with_cache_entry. rewrite Ec. cbn [mbind comp_bind].
  assert (Hres : acl_result e' = Some (static_result P p t l)) by (by rewrite Etouch, static_entry_result).
  rewrite Hres.
  destruct (limit_verdict st p t l now) eqn:Elv; cbn [negb unwrap mbind comp_bind]; eexists _, _, l;
    (split; [done|]); (split; [done|]); rewrite Elv; split; try done.
  eapply acl_inv_sub; [exact Hinv2| |]; by destruct (ce_conn_track_key e').
Qed.

(** ** Background work and histories *)

Lemma tick_inv P st T now1 now2 :
  acl_inv P st T -> T <= now1 <= now2 -> now2 - now1 < 5 * NANOS_PER_SECOND ->
  cache_cleanup_interval P = 20 * NANOS_PER_SECOND ->
  acl_inv P (cleanup_tick P st now1 now2) now2.
Proof.
  intros [H1 H2 H3] Ht Hgap Hint.
  assert (Hsub : forall k e, rule_cache (cleanup_tick P st now1 now2) !! k = Some e ->
    rule_cache st !! k = Some e /\ now1 - 15 * NANOS_PER_SECOND < last_access e).
  { intros k e Hk. apply cleanup_cache_sub in Hk as [Hk Hexp]. split; [done|].
    specialize (H3 _ _ Hk). unfold expired_timepoint, NANOS_PER_SECOND in *.
    revert Hexp. case_match; bools; lia. }
  split.
  - intros k e [Hk _]%Hsub. by eauto.
  - intros k e rk Hk Hin. apply Hsub in Hk as [Hk Hacc]. destruct (H2 _ _ _ Hk Hin) as (v & Hv & Hle).
    exists v. split; [|done]. cbn. apply map_lookup_filter_Some. split; [done|]. cbn.
    apply Z.ltb_lt. rewrite Hint. unfold sat_sub, NANOS_PER_SECOND in *. lia.
  - intros k e [Hk _]%Hsub. specialize (H3 _ _ Hk). lia.
Qed.

(** A processor's life from its creation: packets on the three chains, ticks
    of the two background tasks, under a clock that does not go back and with
    less than 5 s between the two halves of a tick. *)
Inductive acl_run (P : AclProcessor) (s0 : AclState) : AclState -> Z -> Prop :=
  | acl_start t0 : acl_run P s0 s0 t0
  | acl_packet st T p t now secs st' res :
      acl_run P s0 st T -> T <= now -> pkt_ok p ->
      process_packet P st p t now secs = Ret (st', res) -> acl_run P s0 st' now
  | acl_tick st T now1 now2 :
      acl_run P s0 st T -> T <= now1 <= now2 -> now2 - now1 < 5 * NANOS_PER_SECOND ->
      acl_run P s0 (cleanup_tick P st now1 now2) now2
  | acl_expire st T timeout secs :
      acl_run P s0 st T -> acl_run P s0 (cleanup_expired_connections st timeout secs) T.

Lemma process_packet_inv P st p t now secs T :
  acl_inv P st T -> T <= now -> pkt_ok p ->
  exists st' res, process_packet P st p t now secs = Ret (st', res) /\ acl_inv P st' now /\
    match chain_rules P t with
    | Some l => verdict_ok P p t l (limit_verdict st p t l now) res
    | None => res_action res = DropPkt /\ log_context res = Some UnsupportedChainType
    end.
Proof.
  intros Hinv HT Hp. unfold process_packet.
  destruct (rule_cache st !! from_packet_info p t) as [e|] eqn:Ec.
  - destruct (cached_packet P st p t e now secs T Hinv HT Hp Ec) as (st' & res & l & -> & E & Hi & Hv).
    exists st', res. by split_and!.
  - destruct (chain_rules P t) as [l|] eqn:El.
    + exact (fresh_packet P st p t l now secs T Hinv HT Hp El).
    + eexists _, _. split; [done|]. split; [|done]. by apply (acl_inv_weaken _ _ T).
Qed.

Lemma acl_run_inv P s0 st T :
  rule_cache s0 = ∅ -> cache_cleanup_interval P = 20 * NANOS_PER_SECOND ->
  acl_run P s0 st T -> acl_inv P st T.
Proof.
  intros H0 Hint. induction 1 as [t0|st T p t now secs st' res _ IH HT Hp E|st T now1 now2 _ IH Ht Hg|st T timeout secs _ IH].
  - split; intros *; rewrite H0, lookup_empty; done.
  - destruct (process_packet_inv P st p t now secs T IH HT Hp) as (st2 & res2 & E2 & Hi & _).
    rewrite E in E2. by injection E2 as <- <-.
  - by apply (tick_inv P st T).
  - by eapply acl_inv_sub.
Qed.

(** ** Compiled chains *)

Definition vec_of (v : RuleVectors) (t : ChainType) : list FastLookupRule :=
  match t with
  | Inbound => inbound_rules v | Outbound => outbound_rules v | Forward => forward_rules v
  | UnspecifiedChain => []
  end.

(** The enabled chains of one type, and what one of them compiles to when its
    first counter is [arc]. *)
Definition active_chains (t : ChainType) (chains : list Chain) : list Chain :=
  filter (fun c => c_enabled c = true /\ c_type c = t) chains.
Definition configured (arc : nat) (c : Chain) : list FastLookupRule :=
  (convert_rules arc (filter (fun r => r_enabled r = true) (c_rules c))).1.

Lemma vec_of_add v t t' l : t <> UnspecifiedChain ->
  vec_of (add_chain v t' l) t = vec_of v t ++ (if decide (t' = t) then l else []).
Proof. intros Ht. destruct t, t'; cbn; rewrite ?app_nil_r; done. Qed.

Lemma build_chains_vec t chains : t <> UnspecifiedChain -> forall arc v, exists arcs,
  length arcs = length (active_chains t chains) /\
  vec_of (build_chains arc v chains).1 t =
    vec_of v t ++ concat (zip_with (fun a c => sort_rules (configured a c)) arcs (active_chains t chains)).
Proof.
  intros Ht. unfold active_chains. induction chains as [|c chains IH]; intros arc v.
  { exists []. cbn. by rewrite app_nil_r. }
  cbn [build_chains]. destruct (c_enabled c) eqn:Een; cbn [negb].
  2: { rewrite filter_cons_False by (intros [? _]; congruence). apply IH. }
  destruct (convert_rules arc _) as [l arc'] eqn:El.
  destruct (IH arc' (add_chain v (c_type c) (sort_rules l))) as (arcs & Hlen & ->).
  rewrite vec_of_add by done. destruct (decide (c_type c = t)) as [Et|Et].
  - exists (arc :: arcs). rewrite filter_cons_True by done. cbn. rewrite Hlen. split; [done|].
    rewrite <- app_assoc. unfold configured at 2. by rewrite El.
  - exists arcs. rewrite filter_cons_False by (intros [_ ?]; congruence). by rewrite app_nil_r.
Qed.

Lemma new_chain_rules cfg shared t : t <> UnspecifiedChain ->
  chain_rules (new_with_shared_state cfg shared).1 t = Some (vec_of (build_rules cfg).1 t).
Proof.
  intros Ht. unfold new_with_shared_state. destruct (build_rules cfg) as [v n], (build_default_actions cfg) as [[? ?] ?].
  destruct (default _ shared) as [[? ?] ?]. by destruct t.
Qed.

Lemma new_processor cfg shared :
  cache_cleanup_interval (new_with_shared_state cfg shared).1 = 20 * NANOS_PER_SECOND /\
  rule_cache (new_with_shared_state cfg shared).2 = ∅.
Proof.
  unfold new_with_shared_state. destruct (build_rules cfg) as [v n], (build_default_actions cfg) as [[? ?] ?].
  by destruct (default _ shared) as [[? ?] ?].
Qed.

(** ** Properties *)

(** A rule of the highest priority decides: when a configuration has one
    enabled chain of a type, the compiled vector holds exactly that chain's
    enabled rules, and scanning it for the first rule that satisfies any
    predicate finds the rule of the highest priority that satisfies it, the
    earliest in configuration order among equals. *)
Theorem priority_order chains shared t c :
  t <> UnspecifiedChain -> active_chains t chains = [c] ->
  exists arc l, chain_rules (new_with_shared_state (Some chains) shared).1 t = Some l /\
    l ≡ₚ configured arc c /\ forall m, find m l = best_rule m (configured arc c).
Proof.
  intros Ht Hc.
  destruct (build_chains_vec t chains Ht 1%nat {| inbound_rules := []; outbound_rules := []; forward_rules := [] |})
    as (arcs & Hlen & Hv).
  rewrite Hc in *. destruct arcs as [|arc [|? ?]]; [done| |done].
  exists arc, (sort_rules (configured arc c)). rewrite new_chain_rules by done. unfold build_rules.
  change (default [] (Some chains)) with chains.
  rewrite Hv. cbn. rewrite app_nil_r. split_and!; [by destruct t|apply sort_rules_perm|].
  intros m. apply find_sort_rules.
Qed.

(** C21. The verdict cache is transparent and never panics: along every history
    of packets and cleanup ticks of a processor, the verdict on the next packet
    is the one the rules give on a fresh evaluation, except that the token
    bucket of the deciding rule may turn it into a drop, and an unknown chain
    type is dropped.  The [unreachable] panic of a cached limiter without its
    bucket cannot occur. *)
Theorem cached_verdicts_agree cfg shared st T p t now secs :
  let P := (new_with_shared_state cfg shared).1 in
  acl_run P (new_with_shared_state cfg shared).2 st T -> T <= now -> pkt_ok p ->
  exists st' res, process_packet P st p t now secs = Ret (st', res) /\
    match chain_rules P t with
    | Some l => verdict_ok P p t l (limit_verdict st p t l now) res
    | None => res_action res = DropPkt /\ log_context res = Some UnsupportedChainType
    end.
Proof.
  intros P Hrun HT Hp. destruct (new_processor cfg shared) as [Hi Hc].
  pose proof (acl_run_inv P _ st T Hc Hi Hrun) as Hinv.
  destruct (process_packet_inv P st p t now secs T Hinv HT Hp) as (st' & res & E & _ & Hv). eauto.
Qed.
End acl.

(** ** A concrete network library *)

Module Example_net.
(** Cuts a text at every occurrence of [c]. *)
Fixpoint split_on (c : Z) (s : text) : list text :=
  match s with
  | [] => [[]]
  | x :: s =>
    if x =? c then [] :: split_on c s else
    match split_on c s with y :: l => (x :: y) :: l | [] => [[x]] end
  end.

(** IPv4 networks [a.b.c.d/n] as pairs of address and prefix length. *)
Definition parse_v4 (s : text) : option (Z * Z) :=
  match split_on 47 s with
  | [a; n] =>
    match map parse_u16 (split_on 46 a), parse_u16 n with
    | [Some a; Some b; Some c; Some d], Some n => Some (be_decode [a; b; c; d], n)
    | _, _ => None
    end
  | _ => None
  end.
Definition net : CidrLib := {|
  V4Cidr := Z * Z; V6Cidr := unit;
  v4_contains n a := Z.shiftr a (32 - n.2) =? Z.shiftr n.1 (32 - n.2);
  v6_contains _ _ := false;
  cidr_from_str s := inl <$> parse_v4 s |}.
#[export] Existing Instance net.

Definition rule (prio : Z) (a : Action) (rate burst : Z) (ports ips : list text) : Rule :=
  {| r_priority := prio; r_enabled := true; r_protocol := Tcp; r_ports := ports;
     r_source_ips := ips; r_destination_ips := []; r_source_ports := []; r_action := a;
     r_rate_limit := rate; r_burst_limit := burst; r_stateful := false; r_source_groups := [];
     r_destination_groups := [] |}.
(** Drop 10.1.0.0/16 at priority 10, allow ports 80-90 at most 1 per second
    at priority 20, drop everything else. *)
Definition chain : Chain :=
  {| c_type := Inbound; c_enabled := true; c_default_action := DropPkt;
     c_rules := [rule 10 DropPkt 0 0 [] [[49; 48; 46; 49; 46; 48; 46; 48; 47; 49; 54]];
                 rule 20 Allow 1 1 [[56; 48; 45; 57; 48]] []] |}.
Definition cfg : AclConfig := Some [chain].

Definition packet (src port : Z) : PacketInfo :=
  {| src_ip := V4 src; dst_ip := V4 167837697; src_port := Some 5555; dst_port := Some port;
     pi_protocol := Tcp; packet_size := 60; src_groups := []; dst_groups := [] |}.
Lemma packet_ok src port : pkt_ok (packet src port).
Proof. split; (split; [done|by eexists]). Qed.

(** The rule counters after a packet. *)
Definition counters (r : comp (AclState * AclResult)) (arc : nat) : option (Z * Z) :=
  match r with Ret (st, _) => stat_items st !! arc | _ => None end.
Definition verdicts (r : comp (AclState * AclResult)) : option Action :=
  match r with Ret (_, res) => Some (res_action res) | _ => None end.
End Example_net.
Import Example_net.

Lemma priority_order_witness :
  exists arc l, chain_rules (new_with_shared_state cfg None).1 Inbound = Some l /\
    l ≡ₚ configured arc chain /\ forall m, find m l = best_rule m (configured arc chain).
Proof. apply priority_order; [done|reflexivity]. Defined.

(** The state after a first packet, whose verdict is cached. *)
Definition seen_once : AclState :=
  match process_packet (new_with_shared_state cfg None).1 (new_with_shared_state cfg None).2
          (packet 167772161 80) Inbound 5 0 with
  | Ret (st, _) => st
  | Panic => (new_with_shared_state cfg None).2
  end.

Lemma cached_verdicts_agree_witness :
  exists st' res,
    process_packet (new_with_shared_state cfg None).1 seen_once (packet 167772161 80) Inbound 7 0 = Ret (st', res) /\
    match chain_rules (new_with_shared_state cfg None).1 Inbound with
    | Some l => verdict_ok (new_with_shared_state cfg None).1 (packet 167772161 80) Inbound l
        (limit_verdict seen_once (packet 167772161 80) Inbound l 7) res
    | None => res_action res = DropPkt /\ log_context res = Some UnsupportedChainType
    end.
Proof.
  apply (cached_verdicts_agree cfg None seen_once 5); [|lia|apply packet_ok].
  assert (E : match process_packet (new_with_shared_state cfg None).1 (new_with_shared_state cfg None).2
    (packet 167772161 80) Inbound 5 0 with Ret _ => True | Panic => False end) by (vm_compute; exact I).
  unfold seen_once. destruct (process_packet _ _ _ _ _ _) as [[st res]|] eqn:Ep; [|done].
  eapply acl_packet; [apply (acl_start _ _ 0)|lia|apply packet_ok|exact Ep].
Defined.

(** The example chain at work: allowed once, then limited; the other sources
    and ports are dropped. *)
Example example_verdicts :
  let '(P, st) := AclProcessor_new cfg in
  let r1 := process_packet P st (packet 167772161 80) Inbound 5 0 in
  verdicts r1 = Some Allow /\
  match r1 with
  | Ret (st, _) => verdicts (process_packet P st (packet 167772161 80) Inbound 6 0) = Some DropPkt
  | _ => False
  end /\
  verdicts (process_packet P st (packet 167837953 443) Inbound 5 0) = Some DropPkt.
Proof. vm_compute. split_and!; reflexivity. Qed.

(** A rate-limited rule counts every packet twice: after one packet of 60
    bytes its counters read two packets and 120 bytes, while a rule without a
    limit counts it once. *)
Theorem limited_rule_counts_twice :
  let '(P, st) := AclProcessor_new cfg in
  let limited := process_packet P st (packet 167772161 80) Inbound 5 0 in
  let unlimited := process_packet P st (packet 167837953 443) Inbound 5 0 in
  counters limited 2 = Some (2, 120) /\ counters unlimited 1 = Some (1, 60).
Proof. vm_compute. split; reflexivity. Qed.
