(* ===== verification/AclFilter.v ===== *)
(** [peers/acl/filter.rs]: the ACL stage of the packet pipeline.  It parses the
    IP and transport headers of a packet, picks the chain, asks the processor
    and lets answers to allowed outbound traffic back in. *)

From S2P Require Import Prelude Headers Packet TokenBucket Acl AclProofs.
From stdpp Require Import list strings gmap.
Local Open Scope Z_scope.

Definition IP_PROTO_ICMP : Z := 1.
Definition IP_PROTO_TCP : Z := 6.
Definition IP_PROTO_UDP : Z := 17.
Definition IP_PROTO_ICMPV6 : Z := 58.

Record ParsedIpPacket := {
  ip_src : IpAddr; ip_dst : IpAddr; ip_protocol : Z; transport_payload : list Z }.

(** [payload[i]]. *)
Definition byte_at (l : list Z) (i : nat) : comp Z := unwrap (l !! i).

Definition parse_ipv4_packet (payload : list Z) : comp (option ParsedIpPacket) :=
  if len payload <? 20 then Ret None else
  b0 ← byte_at payload 0;
  let header_len := Z.land b0 15 * 4 in
  let options_len := sat_sub header_len 20 in
  let payload_offset := 20 + options_len in
  let payload_start := Z.min payload_offset (len payload) in
  b2 ← byte_at payload 2;
  b3 ← byte_at payload 3;
  let total_length := be_decode [b2; b3] in
  let payload_len := sat_sub total_length header_len in
  let payload_end := Z.min (payload_start + payload_len) (len payload) in
  s ← slice 12 16 payload;
  d ← slice 16 20 payload;
  proto ← byte_at payload 9;
  t ← slice payload_start payload_end payload;
  Ret (Some {| ip_src := V4 (be_decode s); ip_dst := V4 (be_decode d); ip_protocol := proto;
               transport_payload := t |}).

Definition parse_ipv6_packet (payload : list Z) : comp (option ParsedIpPacket) :=
  if len payload <? 40 then Ret None else
  b4 ← byte_at payload 4;
  b5 ← byte_at payload 5;
  let payload_len := be_decode [b4; b5] in
  let payload_end := Z.min (40 + payload_len) (len payload) in
  s ← slice 8 24 payload;
  d ← slice 24 40 payload;
  proto ← byte_at payload 6;
  t ← slice 40 payload_end payload;
  Ret (Some {| ip_src := V6 (be_decode s); ip_dst := V6 (be_decode d); ip_protocol := proto;
               transport_payload := t |}).

Definition parse_ip_packet (payload : list Z) : comp (option ParsedIpPacket) :=
  match payload with
  | [] => Ret None
  | b :: _ =>
    let version := Z.shiftr b 4 in
    if version =? 4 then parse_ipv4_packet payload
    else if version =? 6 then parse_ipv6_packet payload
    else Ret None
  end.

Definition parse_transport_ports (protocol : Z) (payload : list Z)
    : comp (option (option Z * option Z)) :=
  let ports := fun min_len =>
    if len payload <? min_len then Ret None else
    a ← byte_at payload 0; b ← byte_at payload 1; c ← byte_at payload 2; d ← byte_at payload 3;
    Ret (Some (Some (be_decode [a; b]), Some (be_decode [c; d]))) in
  if protocol =? IP_PROTO_TCP then ports 20
  else if protocol =? IP_PROTO_UDP then ports 8
  else Ret (Some (None, None)).

Definition acl_protocol (protocol : Z) : Protocol :=
  if protocol =? IP_PROTO_TCP then Tcp
  else if protocol =? IP_PROTO_UDP then Udp
  else if protocol =? IP_PROTO_ICMP then Icmp
  else if protocol =? IP_PROTO_ICMPV6 then IcmPv6
  else ProtoUnspecified.

(** [OutboundAllowRecord]: source, destination, ports, protocol. *)
Abbreviation OutboundAllowRecord := (IpAddr * IpAddr * option Z * option Z * Protocol)%type.
Definition new_from_inbound_packet (p : PacketInfo) : OutboundAllowRecord :=
  (src_ip p, dst_ip p, src_port p, dst_port p, pi_protocol p).
Definition new_from_outbound_packet (p : PacketInfo) : OutboundAllowRecord :=
  (dst_ip p, src_ip p, dst_port p, src_port p, pi_protocol p).

Section filter.
Context {C : CidrLib}.

Record AclFilter := {
  acl_processor : AclProcessor; acl_state : AclState; acl_enabled : bool;
  outbound_allow_records : gmap OutboundAllowRecord Z }.

Definition AclFilter_new : AclFilter :=
  let '(P, st) := AclProcessor_new None in
  {| acl_processor := P; acl_state := st; acl_enabled := false; outbound_allow_records := ∅ |}.

(** One round of the background task. *)
Definition clean_records (F : AclFilter) (now : Z) : AclFilter :=
  {| acl_processor := acl_processor F; acl_state := acl_state F; acl_enabled := acl_enabled F;
     outbound_allow_records :=
       filter (fun kv => (sat_sub now kv.2 <? 30 * NANOS_PER_SECOND) = true) (outbound_allow_records F) |}.

Definition reload_rules (F : AclFilter) (cfg : option AclConfig) : AclFilter :=
  match cfg with
  | None =>
    {| acl_processor := acl_processor F; acl_state := acl_state F; acl_enabled := false;
       outbound_allow_records := ∅ |}
  | Some cfg =>
    let '(P, st) := new_with_shared_state cfg (Some (get_shared_state (acl_state F))) in
    {| acl_processor := P; acl_state := st; acl_enabled := true; outbound_allow_records := ∅ |}
  end.

(** [get_peer_groups] is the routing table's answer. *)
Definition extract_packet_info (packet : ZCPacket) (get_peer_groups : Z -> list text)
    : comp (option PacketInfo) :=
  s ← payload packet;
  parsed ← parse_ip_packet s;
  match parsed with
  | None => Ret None
  | Some parsed =>
    ports ← parse_transport_ports (ip_protocol parsed) (transport_payload parsed);
    match ports with
    | None => Ret None
    | Some (sp, dp) =>
      Ret (Some {| src_ip := ip_src parsed; dst_ip := ip_dst parsed; src_port := sp; dst_port := dp;
                   pi_protocol := acl_protocol (ip_protocol parsed); packet_size := len s;
                   src_groups := match get_src_peer_id packet with
                                 | Some id => get_peer_groups id | None => [] end;
                   dst_groups := match get_dst_peer_id packet with
                                 | Some id => get_peer_groups id | None => [] end |})
    end
  end.

(** The counters of [handle_acl_result]; [should_log] is never set. *)
Definition handle_acl_result (st : AclState) (res : AclResult) (t : ChainType) : AclState :=
  let st :=
    match res_action res with
    | Allow => increment_stat (increment_stat st PacketsAllowed) (from_chain_and_action t StatAllowed)
    | DropPkt => increment_stat (increment_stat st PacketsDropped) (from_chain_and_action t StatDropped)
    | Noop => increment_stat (increment_stat st PacketsNoop) (from_chain_and_action t StatNoop)
    end in
  increment_stat (increment_stat st (from_chain_and_action t StatTotal)) PacketsTotal.

Definition classify_chain_type (is_in : bool) (p : PacketInfo) (my_ipv4 : option Z)
    (is_local_ipv6 : Z -> bool) : ChainType :=
  if negb is_in then Outbound else
  let is_local_dst :=
    bool_decide (dst_ip p = V4 (default 0 my_ipv4)) ||
    match dst_ip p with V6 a => is_local_ipv6 a | V4 _ => false end in
  if is_local_dst then Inbound else Forward.

Definition with_records (F : AclFilter) (m : gmap OutboundAllowRecord Z) : AclFilter :=
  {| acl_processor := acl_processor F; acl_state := acl_state F; acl_enabled := acl_enabled F;
     outbound_allow_records := m |}.
Definition filter_with_state (F : AclFilter) (st : AclState) : AclFilter :=
  {| acl_processor := acl_processor F; acl_state := st; acl_enabled := acl_enabled F;
     outbound_allow_records := outbound_allow_records F |}.

Definition process_packet_with_acl (F : AclFilter) (packet : ZCPacket) (is_in : bool)
    (my_ipv4 : option Z) (is_local_ipv6 : Z -> bool) (get_peer_groups : Z -> list text)
    (now secs : Z) : comp (AclFilter * bool) :=
  if negb (acl_enabled F) then Ret (F, true) else
  h ← unwrap (peer_manager_header packet);
  if negb (pm_packet_type h =? PacketType_as_u8 Data) then Ret (F, true) else
  info ← extract_packet_info packet get_peer_groups;
  match info with
  | None => Ret (F, true)
  | Some p =>
    let t := classify_chain_type is_in p my_ipv4 is_local_ipv6 in
    '(st, res) ← process_packet (acl_processor F) (acl_state F) p t now secs;
    let F := filter_with_state F (handle_acl_result st res t) in
    match res_action res with
    | Allow | Noop =>
      if bool_decide (t = Outbound)
      then Ret (with_records F (<[new_from_outbound_packet p := now]> (outbound_allow_records F)), true)
      else Ret (F, true)
    | DropPkt =>
      if is_in then
        match outbound_allow_records F !! new_from_inbound_packet p with
        | Some _ =>
          Ret (with_records F (<[new_from_inbound_packet p := now]> (outbound_allow_records F)), true)
        | None => Ret (F, false)
        end
      else Ret (F, false)
    end
  end.

(** ** Lemmas *)

Lemma byte_at_in l i : (i < length l)%nat -> exists b, byte_at l i = Ret b.
Proof.
  intros Hi. destruct (lookup_lt_is_Some_2 l i Hi) as [b Hb]. exists b. unfold byte_at. by rewrite Hb.
Qed.

Lemma slice_ok {A} a b (l : list A) : 0 <= a <= b -> b <= len l -> exists s, slice a b l = Ret s.
Proof.
  intros Hab Hb. unfold slice. rewrite (proj2 (Z.leb_le a b)), (proj2 (Z.leb_le b (len l))) by lia. by eexists.
Qed.

Ltac read_bytes :=
  repeat match goal with
  | |- context [byte_at ?l ?i] =>
    let b := fresh "b" in let E := fresh "E" in
    destruct (byte_at_in l i) as [b E]; [unfold len in *; lia|]; rewrite E; cbn [mbind comp_bind]
  end.

Lemma be_decode_nonneg l : bytes_ok l -> 0 <= be_decode l.
Proof. intros Hl. destruct (be_decode_range l Hl). done. Qed.

Lemma byte_at_ok l i b : bytes_ok l -> byte_at l i = Ret b -> byte b.
Proof.
  intros Hl. unfold byte_at. destruct (l !! i) as [x|] eqn:E; [|done]. intros [= <-].
  by eapply Forall_lookup_1 in E.
Qed.

Lemma parse_ipv4_total s : bytes_ok s -> exists r, parse_ipv4_packet s = Ret r.
Proof.
  intros Hs. unfold parse_ipv4_packet. destruct (Z.ltb_spec (len s) 20) as [|Hl]; [by eexists|].
  read_bytes. cbv zeta.
  destruct (slice_ok 12 16 s) as [x ->]; [lia..|]. destruct (slice_ok 16 20 s) as [y ->]; [lia..|].
  cbn [mbind comp_bind]. read_bytes.
  match goal with |- context [slice ?x ?y s] => destruct (slice_ok x y s) as [z ->] end;
    [unfold sat_sub; lia..|]. by eexists.
Qed.

Lemma parse_ipv6_total s : bytes_ok s -> exists r, parse_ipv6_packet s = Ret r.
Proof.
  intros Hs. unfold parse_ipv6_packet. destruct (Z.ltb_spec (len s) 40) as [|Hl]; [by eexists|].
  read_bytes. cbv zeta.
  assert (0 <= be_decode [b1; b0]).
  { apply be_decode_nonneg. repeat constructor; by eapply byte_at_ok. }
  destruct (slice_ok 8 24 s) as [x ->]; [lia..|]. destruct (slice_ok 24 40 s) as [y ->]; [lia..|].
  cbn [mbind comp_bind]. read_bytes.
  match goal with |- context [slice ?x ?y s] => destruct (slice_ok x y s) as [z ->] end; [lia..|].
  by eexists.
Qed.

Lemma parse_ip_total s : bytes_ok s -> exists r, parse_ip_packet s = Ret r.
Proof.
  intros Hs. unfold parse_ip_packet. destruct s as [|b s]; [by eexists|].
  repeat case_match; [by apply parse_ipv4_total|by apply parse_ipv6_total|by eexists].
Qed.

Lemma parse_ports_total proto s :
  exists r, parse_transport_ports proto s = Ret r /\
    match r with
    | Some (sp, dp) => (is_Some sp <-> has_ports (acl_protocol proto) = true) /\
                       (is_Some dp <-> has_ports (acl_protocol proto) = true)
    | None => True
    end.
Proof.
  unfold parse_transport_ports, acl_protocol.
  destruct (proto =? IP_PROTO_TCP); [|destruct (proto =? IP_PROTO_UDP)].
  - destruct (Z.ltb_spec (len s) 20); [by exists None|]. read_bytes. eexists. split; [done|].
    split; (split; [done|]); intros _; by eexists.
  - destruct (Z.ltb_spec (len s) 8); [by exists None|]. read_bytes. eexists. split; [done|].
    split; (split; [done|]); intros _; by eexists.
  - exists (Some (None, None)). split; [done|]. destruct (proto =? IP_PROTO_ICMP), (proto =? IP_PROTO_ICMPV6);
      split; (split; [by intros [? [=]]|done]).
Qed.

Lemma extract_total packet groups : bytes_ok (inner packet) -> has_header packet ->
  exists r, extract_packet_info packet groups = Ret r /\ (forall p, r = Some p -> pkt_ok p).
Proof.
  intros Hb Hh. unfold extract_packet_info.
  destruct (packet_parts packet Hb Hh) as (tun & h & pl & Ep & Hok & _ & Hpl). rewrite Ep.
  rewrite parts_payload by done. cbn [mbind comp_bind].
  destruct (parse_ip_total pl Hpl) as [[parsed|] ->]; cbn [mbind comp_bind]; [|by exists None].
  destruct (parse_ports_total (ip_protocol parsed) (transport_payload parsed)) as (r & -> & Hr).
  cbn [mbind comp_bind]. destruct r as [[sp dp]|]; [|by exists None].
  eexists. split; [done|]. intros p [= <-]. exact Hr.
Qed.

Lemma increment_stat_inv P st T k : acl_inv P st T -> acl_inv P (increment_stat st k) T.
Proof. intros H. by eapply acl_inv_sub. Qed.

Lemma handle_inv P st T res t : acl_inv P st T -> acl_inv P (handle_acl_result st res t) T.
Proof. intros H. unfold handle_acl_result. destruct (res_action res); by repeat apply increment_stat_inv. Qed.

(** What the filter decides, in terms of the rules alone. *)
Definition rules_allow (F : AclFilter) (p : PacketInfo) (t : ChainType) (now : Z) : bool :=
  match chain_rules (acl_processor F) t with
  | Some l =>
    limit_verdict (acl_state F) p t l now &&
    negb (bool_decide (res_action (static_result (acl_processor F) p t l) = DropPkt))
  | None => false
  end.
Definition answer_expected (F : AclFilter) (p : PacketInfo) : bool :=
  match outbound_allow_records F !! new_from_inbound_packet p with Some _ => true | None => false end.

Definition filter_inv (F : AclFilter) (T : Z) : Prop := acl_inv (acl_processor F) (acl_state F) T.

Lemma filter_judges F packet is_in ip4 local6 groups now secs T h p :
  filter_inv F T -> T <= now -> acl_enabled F = true ->
  peer_manager_header packet = Some h -> pm_packet_type h = PacketType_as_u8 Data ->
  extract_packet_info packet groups = Ret (Some p) -> pkt_ok p ->
  let t := classify_chain_type is_in p ip4 local6 in
  exists F', process_packet_with_acl F packet is_in ip4 local6 groups now secs =
      Ret (F', rules_allow F p t now || (is_in && answer_expected F p)) /\
    filter_inv F' now /\ acl_processor F' = acl_processor F /\ acl_enabled F' = true /\
    outbound_allow_records F' =
      if rules_allow F p t now then
        if is_in then outbound_allow_records F
        else <[new_from_outbound_packet p := now]> (outbound_allow_records F)
      else if is_in && answer_expected F p then
        <[new_from_inbound_packet p := now]> (outbound_allow_records F)
      else outbound_allow_records F.
Proof.
  intros Hinv HT Hen Hh Hty Hex Hp t. unfold process_packet_with_acl. rewrite Hen, Hh. cbn [negb unwrap mbind comp_bind].
  rewrite Hty, Z.eqb_refl. cbn [negb]. rewrite Hex. cbn [mbind comp_bind]. fold t.
  destruct (process_packet_inv (acl_processor F) (acl_state F) p t now secs T Hinv HT Hp)
    as (st' & res & -> & Hinv' & Hv). cbn [mbind comp_bind].
  assert (Hin : bool_decide (t = Outbound) = negb is_in).
  { unfold t, classify_chain_type. destruct is_in; cbn; [|done]. by destruct (_ || _). }
  assert (Hallow : rules_allow F p t now = negb (bool_decide (res_action res = DropPkt))).
  { unfold rules_allow. destruct (chain_rules _ t) as [l|]; [|destruct Hv as [-> _]; done].
    unfold verdict_ok in Hv. destruct (limit_verdict _ _ _ _ _); [by subst res|]. by destruct Hv as [-> _]. }
  rewrite Hallow. unfold answer_expected, filter_inv.
  assert (Hh' := handle_inv (acl_processor F) st' now res t Hinv').
  destruct (res_action res); cbn [bool_decide decide negb orb]; rewrite ?Hin;
    destruct is_in; cbn [negb andb]; try (eexists; split; [done|]; by split_and!).
  cbn [outbound_allow_records filter_with_state].
  destruct (outbound_allow_records F !! _); eexists; (split; [done|]); by split_and!.
Qed.

(** ** Histories *)

(** One event of a filter's life under a clock that does not go back: a packet,
    a background task, or, with the label [true], a reload. *)
Inductive filter_step : bool -> AclFilter * Z -> AclFilter * Z -> Prop :=
  | filter_reload F T cfg : filter_step true (F, T) (reload_rules F cfg, T)
  | filter_clean F T now : T <= now -> filter_step false (F, T) (clean_records F now, now)
  | filter_packet F T packet is_in ip4 local6 groups now secs F' v :
      T <= now -> bytes_ok (inner packet) -> has_header packet ->
      process_packet_with_acl F packet is_in ip4 local6 groups now secs = Ret (F', v) ->
      filter_step false (F, T) (F', now)
  | filter_tick F T now1 now2 :
      T <= now1 <= now2 -> now2 - now1 < 5 * NANOS_PER_SECOND ->
      filter_step false (F, T)
        (filter_with_state F (cleanup_tick (acl_processor F) (acl_state F) now1 now2), now2)
  | filter_expire F T timeout secs :
      filter_step false (F, T)
        (filter_with_state F (cleanup_expired_connections (acl_state F) timeout secs), T).

(** Histories from creation, and stretches of history without a reload. *)
Inductive filter_run : AclFilter * Z -> Prop :=
  | filter_start t0 : filter_run (AclFilter_new, t0)
  | filter_next b s s' : filter_run s -> filter_step b s s' -> filter_run s'.
Definition no_reload : AclFilter * Z -> AclFilter * Z -> Prop := rtc (filter_step false).

(** The packets the rules are asked about. *)
Definition judged (F : AclFilter) (packet : ZCPacket) : bool :=
  acl_enabled F &&
  match peer_manager_header packet with
  | Some h => pm_packet_type h =? PacketType_as_u8 Data
  | None => false
  end.

Lemma empty_cache_inv P st T : rule_cache st = ∅ -> acl_inv P st T.
Proof. intros H0. split; intros *; rewrite H0, lookup_empty; done. Qed.

Lemma process_total F packet is_in ip4 local6 groups now secs T :
  filter_inv F T -> T <= now -> bytes_ok (inner packet) -> has_header packet ->
  exists F' v info, extract_packet_info packet groups = Ret info /\
    (forall p, info = Some p -> pkt_ok p) /\
    process_packet_with_acl F packet is_in ip4 local6 groups now secs = Ret (F', v) /\
    filter_inv F' now /\ acl_processor F' = acl_processor F /\
    match info with
    | Some p =>
      if judged F packet then
        v = rules_allow F p (classify_chain_type is_in p ip4 local6) now || (is_in && answer_expected F p)
      else v = true /\ F' = F
    | None => v = true /\ F' = F
    end.
Proof.
  intros Hinv HT Hb Hh. pose proof (acl_inv_weaken _ _ _ _ Hinv HT) as Hinv'.
  destruct (extract_total packet groups Hb Hh) as (info & Ei & Hi).
  destruct (pm_header_is_Some packet Hb Hh) as (h & Eh & _).
  assert (Hpass : acl_enabled F = false \/ pm_packet_type h <> PacketType_as_u8 Data \/ info = None ->
    process_packet_with_acl F packet is_in ip4 local6 groups now secs = Ret (F, true)).
  { unfold process_packet_with_acl. intros Hc. destruct (acl_enabled F); [|done]. rewrite Eh, Ei.
    cbn [negb unwrap mbind comp_bind]. destruct (Z.eqb_spec (pm_packet_type h) (PacketType_as_u8 Data)); [|done].
    by destruct Hc as [Hc|[Hc| -> ]]. }
  unfold judged. rewrite Eh.
  destruct (acl_enabled F) eqn:En; cbn [andb].
  2: { exists F, true, info. rewrite Hpass by auto. split_and!; try done. by destruct info. }
  destruct (Z.eqb_spec (pm_packet_type h) (PacketType_as_u8 Data)) as [Ety|Ety].
  2: { exists F, true, info. rewrite Hpass by auto. split_and!; try done. by destruct info. }
  destruct info as [p|].
  - destruct (filter_judges F packet is_in ip4 local6 groups now secs T h p) as (F' & E & ? & ? & _); auto.
    exists F', (rules_allow F p (classify_chain_type is_in p ip4 local6) now || is_in && answer_expected F p), (Some p).
    by split_and!.
  - exists F, true, None. rewrite Hpass by auto. by split_and!.
Qed.

Lemma reload_inv F T cfg : filter_inv F T -> filter_inv (reload_rules F cfg) T.
Proof.
  intros H. unfold reload_rules. destruct cfg as [cfg|]; [|exact H].
  pose proof (new_processor cfg (Some (get_shared_state (acl_state F)))) as [_ Hc].
  destruct (new_with_shared_state _ _) as [P st]. by apply empty_cache_inv.
Qed.

Lemma interval_kept F cfg : cache_cleanup_interval (acl_processor F) = 20 * NANOS_PER_SECOND ->
  cache_cleanup_interval (acl_processor (reload_rules F cfg)) = 20 * NANOS_PER_SECOND.
Proof.
  intros H. unfold reload_rules. destruct cfg as [cfg|]; [|done].
  pose proof (new_processor cfg (Some (get_shared_state (acl_state F)))) as [Hi _].
  by destruct (new_with_shared_state _ _).
Qed.

Definition run_inv (s : AclFilter * Z) : Prop :=
  filter_inv s.1 s.2 /\ cache_cleanup_interval (acl_processor s.1) = 20 * NANOS_PER_SECOND.

Lemma filter_step_inv b s s' : run_inv s -> filter_step b s s' -> run_inv s'.
Proof.
  intros [Hinv Hint] Hs; destruct Hs as [F T cfg|F T now Ht|F T packet is_in ip4 local6 groups now secs F' v Ht Hb Hh E
    |F T now1 now2 Ht Hg|F T timeout secs]; cbn in *.
  - split; [by apply reload_inv|by apply interval_kept].
  - split; [|done]. by apply (acl_inv_weaken _ _ T).
  - destruct (process_total F packet is_in ip4 local6 groups now secs T Hinv Ht Hb Hh)
      as (F2 & v2 & info & _ & _ & E2 & Hi2 & Hp2 & _).
    rewrite E in E2. injection E2 as <- <-. split; [done|]. cbn. by rewrite Hp2.
  - split; [|done]. by apply (tick_inv _ _ T).
  - split; [|done]. by eapply acl_inv_sub.
Qed.

Lemma filter_run_inv s : filter_run s -> run_inv s.
Proof.
  induction 1 as [t0|b s s' _ IH Hs]; [|by eapply filter_step_inv].
  split; [by apply empty_cache_inv|done].
Qed.

(** A record that is fresh enough. *)
Definition recorded (k : OutboundAllowRecord) (t : Z) (s : AclFilter * Z) : Prop :=
  t <= s.2 /\ exists ts, outbound_allow_records s.1 !! k = Some ts /\ t <= ts.

Lemma packet_records F packet is_in ip4 local6 groups now secs F' v k ts :
  process_packet_with_acl F packet is_in ip4 local6 groups now secs = Ret (F', v) ->
  outbound_allow_records F !! k = Some ts ->
  exists ts', outbound_allow_records F' !! k = Some ts' /\ (ts' = ts \/ ts' = now).
Proof.
  intros E Hk.
  assert (Hins : forall k', exists ts', <[k' := now]> (outbound_allow_records F) !! k = Some ts' /\ (ts' = ts \/ ts' = now)).
  { intros k'. destruct (decide (k' = k)) as [->|Hne]; [rewrite lookup_insert_eq|rewrite lookup_insert_ne by done]; eauto. }
  revert E. unfold process_packet_with_acl. destruct (acl_enabled F); [|intros [=]; subst; eauto].
  destruct (peer_manager_header packet) as [h|]; [|done]. cbn [negb unwrap mbind comp_bind].
  destruct (negb _); [intros [=]; subst; eauto|].
  destruct (extract_packet_info _ _) as [[p|]|]; cbn [mbind comp_bind]; [ |intros [=]; subst; eauto|done].
  destruct (process_packet _ _ _ _ _ _) as [[st res]|]; cbn [mbind comp_bind]; [|done].
  repeat case_match; intros [=]; subst; cbn; eauto.
Qed.

Lemma recorded_step k t s s' : recorded k t s -> filter_step false s s' -> s'.2 < t + 30 * NANOS_PER_SECOND ->
  recorded k t s'.
Proof.
  intros (Ht & ts & Hk & Hts) Hs. revert Ht Hk. inversion Hs as [|F T now HT|F T packet is_in ip4 local6 groups now secs F' v HT Hb Hh E
    |F T now1 now2 HT Hg|F T timeout secs]; subst; cbn; intros Ht Hk Hlt; (split; cbn; [lia|]).
  - exists ts. split; [|done]. apply map_lookup_filter_Some. split; [done|]. cbn. apply Z.ltb_lt.
    unfold sat_sub, NANOS_PER_SECOND in *. lia.
  - destruct (packet_records _ _ _ _ _ _ _ _ _ _ _ _ E Hk) as (ts' & Hk' & Hor).
    exists ts'. split; [exact Hk'|]. destruct Hor; subst; lia.
  - by exists ts.
  - by exists ts.
Qed.

Lemma step_time b s s' : filter_step b s s' -> s.2 <= s'.2.
Proof. destruct 1; cbn; lia. Qed.

Lemma recorded_steps k t s s' : no_reload s s' -> recorded k t s -> s'.2 < t + 30 * NANOS_PER_SECOND ->
  recorded k t s'.
Proof.
  intros Hs Hr. revert s' Hs. refine (rtc_ind_r _ _ _ _); [done|].
  intros s1 s2 _ Hstep IH Hlt. pose proof (step_time _ _ _ Hstep).
  eapply recorded_step; [|exact Hstep|done]. apply IH. lia.
Qed.

Lemma outbound_recorded F packet ip4 local6 groups now secs T p F' :
  filter_inv F T -> T <= now -> bytes_ok (inner packet) -> has_header packet ->
  judged F packet = true -> extract_packet_info packet groups = Ret (Some p) ->
  process_packet_with_acl F packet false ip4 local6 groups now secs = Ret (F', true) ->
  recorded (new_from_outbound_packet p) now (F', now).
Proof.
  intros Hinv HT Hb Hh Hj Hex E. split; [done|]. exists now. split; [|done]. cbn.
  destruct (extract_total packet groups Hb Hh) as (r & Er & Hp). rewrite Hex in Er. injection Er as <-.
  apply andb_true_iff in Hj as [Hen Hty]. destruct (peer_manager_header packet) as [h|] eqn:Eh; [|done].
  apply Z.eqb_eq in Hty.
  destruct (filter_judges F packet false ip4 local6 groups now secs T h p) as (F2 & E2 & _ & _ & _ & Hrec); auto.
  rewrite E in E2. injection E2 as <- Hv. cbn [andb] in *. rewrite orb_false_r in Hv. rewrite <- Hv in Hrec.
  by rewrite Hrec, lookup_insert_eq.
Qed.

(** ** Properties *)

(** C20. The filter is total and decides by the rules: along every history of
    packets, reloads and background work, every well-formed packet is parsed
    and judged without a panic.  Packets that are not IP data, and all packets
    while the ACL is off, pass and change nothing; the others pass exactly when
    the rules allow them within their rate limits or, on the way in, when they
    answer recorded outbound traffic. *)
Theorem filter_decides F T packet is_in ip4 local6 groups now secs :
  filter_run (F, T) -> T <= now -> bytes_ok (inner packet) -> has_header packet ->
  exists F' v info, extract_packet_info packet groups = Ret info /\
    process_packet_with_acl F packet is_in ip4 local6 groups now secs = Ret (F', v) /\
    match info with
    | Some p =>
      if judged F packet then
        v = rules_allow F p (classify_chain_type is_in p ip4 local6) now || (is_in && answer_expected F p)
      else v = true /\ F' = F
    | None => v = true /\ F' = F
    end.
Proof.
  intros Hrun HT Hb Hh. destruct (filter_run_inv _ Hrun) as [Hinv _].
  destruct (process_total F packet is_in ip4 local6 groups now secs T Hinv HT Hb Hh)
    as (F' & v & info & Ei & _ & E & _ & _ & Hv). eauto 10.
Qed.

(** Answers to allowed traffic come back: once an outbound packet has been
    let through, every inbound packet with the mirrored addresses and ports
    passes, whatever the inbound rules say, after any packets and background
    work but no reload, within 30 seconds. *)
Theorem answers_pass F0 T0 out_pkt in_pkt ip4 local6 groups t0 secs0 p0 p F1 F T now secs :
  filter_run (F0, T0) -> T0 <= t0 -> bytes_ok (inner out_pkt) -> has_header out_pkt ->
  judged F0 out_pkt = true -> extract_packet_info out_pkt groups = Ret (Some p0) ->
  process_packet_with_acl F0 out_pkt false ip4 local6 groups t0 secs0 = Ret (F1, true) ->
  no_reload (F1, t0) (F, T) -> T < t0 + 30 * NANOS_PER_SECOND ->
  T <= now -> bytes_ok (inner in_pkt) -> has_header in_pkt ->
  extract_packet_info in_pkt groups = Ret (Some p) ->
  new_from_inbound_packet p = new_from_outbound_packet p0 ->
  exists F', process_packet_with_acl F in_pkt true ip4 local6 groups now secs = Ret (F', true).
Proof.
  intros Hrun HT0 Hb0 Hh0 Hj Hex0 E0 Hsteps Hlt HT Hb Hh Hex Hk.
  destruct (filter_run_inv _ Hrun) as [Hinv0 Hint0]. cbn in *.
  assert (Hrec : recorded (new_from_outbound_packet p0) t0 (F1, t0)).
  { eapply (outbound_recorded F0 out_pkt ip4 local6 groups t0 secs0 T0); done. }
  apply (recorded_steps _ _ _ _ Hsteps) in Hrec as (_ & ts & Hts & _); [|done]. cbn in Hts.
  assert (Hinv : run_inv (F, T)).
  { eapply (rtc_ind_r run_inv); [| |exact Hsteps].
    - eapply (filter_step_inv false (F0, T0)); [done|]. by apply (filter_packet F0 T0 out_pkt false ip4 local6 groups t0 secs0 F1 true).
    - intros s s' _ Hs IH. by eapply filter_step_inv. }
  destruct (process_total F in_pkt true ip4 local6 groups now secs T (proj1 Hinv) HT Hb Hh)
    as (F' & v & info & Ei & _ & E & _ & _ & Hv).
  exists F'. rewrite E. do 2 f_equal. rewrite Hex in Ei. injection Ei as <-.
  destruct (judged F in_pkt); [|by destruct Hv]. rewrite Hv. unfold answer_expected.
  rewrite Hk, Hts. by rewrite orb_true_r.
Qed.
End filter.

(** ** A concrete exchange *)

Module Exchange.
Import Example_net.

(** A UDP datagram of 4 bytes between two IPv4 endpoints. *)
Definition datagram (src dst sport dport : Z) : list Z :=
  [69; 0; 0; 32; 0; 0; 0; 0; 64; 17; 0; 0] ++ be_encode 4 src ++ be_encode 4 dst ++
  be_encode 2 sport ++ be_encode 2 dport ++ [0; 12; 0; 0; 1; 2; 3; 4].
Definition udp_packet (src dst sport dport : Z) : ZCPacket :=
  mk_packet TCP [0; 0; 0; 0]
    {| from_peer_id := 1; to_peer_id := 2; pm_packet_type := PacketType_as_u8 Data; flags := 0;
       forward_counter := 1; reserved := 0; pm_len := 32 |} (datagram src dst sport dport).
Definition query : ZCPacket := udp_packet 167772161 167772162 5000 53.
Definition answer : ZCPacket := udp_packet 167772162 167772161 53 5000.

Definition info (src dst sport dport : Z) : PacketInfo :=
  {| src_ip := V4 src; dst_ip := V4 dst; src_port := Some sport; dst_port := Some dport;
     pi_protocol := Udp; packet_size := 32; src_groups := []; dst_groups := [] |}.

(** The inbound chain of the example drops UDP; outbound traffic is free. *)
Definition F0 : AclFilter := reload_rules AclFilter_new (Some cfg).
Definition no_groups (_ : Z) : list text := [].
Definition not_local (_ : Z) : bool := false.

Definition after (r : comp (AclFilter * bool)) : AclFilter :=
  match r with Ret (F, _) => F | Panic => AclFilter_new end.
Definition passed (r : comp (AclFilter * bool)) : bool :=
  match r with Ret (_, v) => v | Panic => false end.
Lemma passed_after r : passed r = true -> r = Ret (after r, true).
Proof. destruct r as [[F v]|]; [|done]. by intros [= ->]. Qed.

Definition step (F : AclFilter) (packet : ZCPacket) (is_in : bool) (now : Z) : comp (AclFilter * bool) :=
  process_packet_with_acl F packet is_in (Some 167772161) not_local no_groups now 0.

Lemma F0_run : filter_run (F0, 0).
Proof. eapply filter_next; [apply filter_start|]. apply filter_reload. Qed.
Lemma query_ok : bytes_ok (inner query).
Proof. repeat constructor; done. Qed.
Lemma answer_ok : bytes_ok (inner answer).
Proof. repeat constructor; done. Qed.

(** Without the query the answer is dropped. *)
Example unsolicited_dropped : passed (step F0 answer true 5) = false.
Proof. vm_compute. reflexivity. Qed.
End Exchange.
Import Example_net Exchange.

Lemma filter_decides_witness :
  exists F' v info, extract_packet_info answer no_groups = Ret info /\
    step F0 answer true 5 = Ret (F', v) /\
    match info with
    | Some p =>
      if judged F0 answer then
        v = rules_allow F0 p (classify_chain_type true p (Some 167772161) not_local) 5 ||
            (true && answer_expected F0 p)
      else v = true /\ F' = F0
    | None => v = true /\ F' = F0
    end.
Proof. apply (filter_decides F0 0); [apply F0_run|lia|apply answer_ok|vm_compute; congruence]. Defined.

Lemma answers_pass_witness :
  exists F', step (after (step F0 query false 5)) answer true 7 = Ret (F', true).
Proof.
  apply (answers_pass F0 0 query answer _ _ _ 5 0 (info 167772161 167772162 5000 53)
    (info 167772162 167772161 53 5000) (after (step F0 query false 5)) _ 5);
    try (apply F0_run || apply query_ok || apply answer_ok || lia || done).
Defined.
