(* ===== verification/RouteGraph.v ===== *)
(** [peers/route/graph_algo.rs]: Dijkstra's algorithm that also reports, for
    every node, the first hop and the number of hops of the path it found.

    The graph enters through its [edges] (the [IntoEdges] trait of petgraph):
    targets and costs of the edges out of a node.  The standard library's
    [BinaryHeap] leaves the order of equal elements open, so it is the class
    [MinHeap]; everything is proved for every heap that satisfies its laws.
    Scores are [usize] and their additions wrap. *)

From S2P Require Import Prelude.
From stdpp Require Import list gmap sorting.
Local Open Scope Z_scope.
Local Set Warnings "-clear-no-such-hyp".

(** ** Walks *)

Definition path_cost (ws : list Z) : Z := foldr Z.add 0 ws.

Section walks.
Context {A : Type} (E : A -> A -> Z -> Prop) (s : A).

(** A walk from [s]: its end and the costs of its edges, the last one first. *)
Inductive walk : A -> list Z -> Prop :=
  | walk_start : walk s []
  | walk_edge u v w ws : walk u ws -> E u v w -> walk v (w :: ws).

(** A walk from [s] whose first edge goes to [h]. *)
Inductive walk_via (h : A) : A -> list Z -> Prop :=
  | via_first w : E s h w -> walk_via h h [w]
  | via_edge u v w ws : walk_via h u ws -> E u v w -> walk_via h v (w :: ws).

(** The least cost of a walk to [v]. *)
Definition distance (v : A) (d : Z) : Prop :=
  (exists ws, walk v ws /\ path_cost ws = d) /\ forall ws, walk v ws -> d <= path_cost ws.

Lemma via_walk h v ws : walk_via h v ws -> walk v ws.
Proof. induction 1; [by repeat econstructor|by econstructor]. Qed.
End walks.

(** Walks along a map of the nodes. *)
Lemma walk_map {A B} (E : A -> A -> Z -> Prop) (E' : B -> B -> Z -> Prop) (f : A -> B) s v ws :
  (forall u v w, E u v w -> E' (f u) (f v) w) -> walk E s v ws -> walk E' (f s) (f v) ws.
Proof. intros HE. induction 1; [constructor|]. econstructor; eauto. Qed.
Lemma walk_via_map {A B} (E : A -> A -> Z -> Prop) (E' : B -> B -> Z -> Prop) (f : A -> B) s h v ws :
  (forall u v w, E u v w -> E' (f u) (f v) w) -> walk_via E s h v ws -> walk_via E' (f s) (f h) (f v) ws.
Proof. intros HE. induction 1; [constructor; eauto|]. econstructor; eauto. Qed.

(** The edge relation of adjacency lists. *)
Definition edge_of (edges : nat -> list (nat * Z)) (u v : nat) (w : Z) : Prop := (v, w) ∈ edges u.

(** [Ord for MinScored]: reversed on the score.  The last two cases concern
    scores that are not equal to themselves. *)
Definition MinScored_cmp (a b : Z) : comparison :=
  if a =? b then Eq
  else if a <? b then Gt
  else if b <? a then Lt
  else if negb (a =? a) && negb (b =? b) then Eq
  else if negb (a =? a) then Lt
  else Gt.

(** [BinaryHeap<MinScored<usize, NodeId>>]. *)
Class MinHeap := {
  Heap : Type;
  heap_new : Heap;
  heap_push : Heap -> Z * nat -> Heap;
  heap_pop : Heap -> option ((Z * nat) * Heap) }.

(** What the standard library promises: the heap is a multiset and [pop]
    removes a greatest element. *)
Class MinHeapLaws (H : MinHeap) := {
  contents : Heap -> list (Z * nat);
  contents_new : contents heap_new = [];
  contents_push h x : contents (heap_push h x) ≡ₚ x :: contents h;
  pop_none h : heap_pop h = None -> contents h = [];
  pop_some h x h' : heap_pop h = Some (x, h') ->
    contents h ≡ₚ x :: contents h' /\
    forall y, y ∈ contents h -> MinScored_cmp y.1 x.1 <> Gt }.

Section dijkstra.
Context {T : Target} {H : MinHeap} (edges : nat -> list (nat * Z)) (start : nat).

Record DijkstraState := {
  scores : gmap nat Z; first_hop : gmap nat (nat * Z); visit_next : Heap; visited : gset nat }.

Definition dijkstra_init : DijkstraState :=
  {| scores := {[start := 0]}; first_hop := {[start := (start, 0)]};
     visit_next := heap_push heap_new (0, start); visited := ∅ |}.

(** The two branches of the entry: a better score or a first one. *)
Definition improve (st : DijkstraState) (node next : nat) (next_score : Z) : comp DijkstraState :=
  hop ← (if (node =? start)%nat then Ret (next, 0) else unwrap (first_hop st !! node));
  Ret {| scores := <[next := next_score]> (scores st);
         first_hop := <[next := (hop.1, wrap usize_bits (hop.2 + 1))]> (first_hop st);
         visit_next := heap_push (visit_next st) (next_score, next); visited := visited st |}.

Definition relax (node : nat) (node_score : Z) (st : DijkstraState) (edge : nat * Z)
    : comp DijkstraState :=
  let '(next, cost) := edge in
  if decide (next ∈ visited st) then Ret st else
  let next_score := wrap usize_bits (node_score + cost) in
  match scores st !! next with
  | Some old => if next_score <? old then improve st node next next_score else Ret st
  | None => improve st node next next_score
  end.

Fixpoint relax_all (node : nat) (node_score : Z) (st : DijkstraState) (l : list (nat * Z))
    : comp DijkstraState :=
  match l with
  | [] => Ret st
  | e :: l => st ← relax node node_score st e; relax_all node node_score st l
  end.

(** The loop, with a bound on its iterations; [Ret None] when the bound is
    reached. *)
Fixpoint dijkstra_loop (fuel : nat) (st : DijkstraState) : comp (option DijkstraState) :=
  match heap_pop (visit_next st) with
  | None => Ret (Some st)
  | Some ((node_score, node), h) =>
    match fuel with
    | O => Ret None
    | S fuel =>
      let st := {| scores := scores st; first_hop := first_hop st; visit_next := h;
                   visited := visited st |} in
      if decide (node ∈ visited st) then dijkstra_loop fuel st else
      st ← relax_all node node_score st (edges node);
      dijkstra_loop fuel {| scores := scores st; first_hop := first_hop st;
                            visit_next := visit_next st; visited := {[node]} ∪ visited st |}
    end
  end.

Definition dijkstra_with_first_hop (fuel : nat)
    : comp (option (gmap nat Z * gmap nat (nat * Z))) :=
  r ← dijkstra_loop fuel dijkstra_init;
  Ret (match r with Some st => Some (scores st, first_hop st) | None => None end).
End dijkstra.

(** ** Correctness *)

Section correctness.
Context {T : Target} {H : MinHeap} {HL : MinHeapLaws H} (edges : nat -> list (nat * Z)) (start : nat).
(** Nodes are below [n], costs between 0 and [M], and no path score or length
    leaves [usize]. *)
Context (n : nat) (M : Z) (Hbits : 0 <= usize_bits).
Context (Hedges : forall u v w, (u < n)%nat -> (v, w) ∈ edges u -> (v < n)%nat /\ 0 <= w <= M).
Context (Hstart : (start < n)%nat) (HM : 0 <= M) (Hfit : (M + 1) * Z.of_nat n < 2 ^ usize_bits).

Abbreviation relax := (relax start).
Abbreviation relax_all := (relax_all start).

(** What the recorded first hop and length of a node say. *)
Definition hop_ok (v : nat) (d : Z) (h : nat) (l : Z) : Prop :=
  (v = start /\ d = 0 /\ h = start /\ l = 0) \/
  (v <> start /\ exists ws, walk_via (edge_of edges) start h v ws /\ path_cost ws = d /\ len ws = l).

(** The invariant while [cur] (the node being expanded, if any) has the edges
    [done] behind it. *)
Record dinv (st : DijkstraState) (cur : gset nat) (done : list (nat * Z)) : Prop := {
  d_score : forall v d, scores st !! v = Some d ->
    exists h l, first_hop st !! v = Some (h, l) /\ hop_ok v d h l /\ (v < n)%nat /\
      0 <= d <= M * Z.of_nat (size (cur ∪ visited st)) /\ 0 <= l <= Z.of_nat (size (cur ∪ visited st));
  d_dom : forall v, is_Some (first_hop st !! v) -> is_Some (scores st !! v);
  d_start : scores st !! start = Some 0;
  d_visited : forall u, u ∈ cur ∪ visited st -> is_Some (scores st !! u);
  d_relaxed : forall u e, (u ∈ visited st /\ e ∈ edges u) \/ (u ∈ cur /\ e ∈ done) ->
    exists du dv, scores st !! u = Some du /\ scores st !! e.1 = Some dv /\ dv <= du + e.2;
  d_heap : forall v d, scores st !! v = Some d -> v ∉ cur ∪ visited st -> (d, v) ∈ contents (visit_next st);
  d_stale : forall v d, (d, v) ∈ contents (visit_next st) ->
    exists d0, scores st !! v = Some d0 /\ d0 <= d;
  d_mono : forall u du v d, u ∈ visited st -> scores st !! u = Some du ->
    (d, v) ∈ contents (visit_next st) -> du <= d }.

Lemma visited_lt st cur done u : dinv st cur done -> u ∈ cur ∪ visited st -> (u < n)%nat.
Proof.
  intros Hi Hu. destruct (d_visited _ _ _ Hi u Hu) as [d Hd].
  by destruct (d_score _ _ _ Hi u d Hd) as (? & ? & _ & _ & ? & _).
Qed.

Lemma size_lt (X : gset nat) : (forall u, u ∈ X -> (u < n)%nat) -> (size X <= n)%nat.
Proof using Type.
  intros HX. rewrite <- (size_set_seq (C:=gset nat) 0 n). apply subseteq_size.
  intros u Hu. apply elem_of_set_seq. specialize (HX u Hu). clear -HX. lia.
Qed.

Lemma wrap_score z : 0 <= z <= M * Z.of_nat n -> wrap usize_bits z = z.
Proof. intros Hz. apply wrap_small. unfold in_range. nia. Qed.
Lemma wrap_len z : 0 <= z <= Z.of_nat n -> wrap usize_bits z = z.
Proof. intros Hz. apply wrap_small. unfold in_range. nia. Qed.

(** The node being expanded. *)
Record expanding (st : DijkstraState) (node : nat) (ds : Z) : Prop := {
  x_fresh : node ∉ visited st;
  x_score : scores st !! node = Some ds;
  x_bound : 0 <= ds <= M * Z.of_nat (size (visited st));
  x_hop : exists h l, first_hop st !! node = Some (h, l) /\ hop_ok node ds h l /\
    0 <= l <= Z.of_nat (size (visited st));
  x_max : forall u du, u ∈ visited st -> scores st !! u = Some du -> du <= ds;
  x_min : forall v d, (d, v) ∈ contents (visit_next st) -> ds <= d }.

Lemma expanding_size st node ds done : dinv st {[node]} done -> expanding st node ds ->
  size ({[node]} ∪ visited st) = S (size (visited st)) /\ (S (size (visited st)) <= n)%nat.
Proof.
  intros Hi Hx. assert (E : size ({[node]} ∪ visited st) = S (size (visited st))).
  { rewrite size_union, size_singleton; [done|]. apply disjoint_singleton_l, (x_fresh _ _ _ Hx). }
  split; [done|]. rewrite <- E. apply size_lt. intros u Hu. by eapply visited_lt.
Qed.

Lemma improve_ok st node ds done v w :
  dinv st {[node]} done -> expanding st node ds -> (v, w) ∈ edges node -> v ∉ visited st ->
  (forall old, scores st !! v = Some old -> ds + w < old) ->
  exists st', improve start st node v (ds + w) = Ret st' /\ dinv st' {[node]} (done ++ [(v, w)]) /\
    visited st' = visited st /\ expanding st' node ds /\
    length (contents (visit_next st')) = S (length (contents (visit_next st))).
Proof.
  intros Hi Hx Hin Hv Hbetter. destruct (expanding_size _ _ _ _ Hi Hx) as [Esz Hsz].
  assert (Hnode : (node < n)%nat) by (eapply visited_lt; [exact Hi|by apply elem_of_union_l, elem_of_singleton]).
  destruct (Hedges node v w Hnode Hin) as [Hvn Hw].
  destruct Hx as [X1 X2 X3 (h & l & Eh & Hh & Hl) X5 X6].
  assert (v <> node) by (intros ->; specialize (Hbetter ds X2); lia).
  assert (v <> start) by (intros ->; specialize (Hbetter 0 (d_start _ _ _ Hi)); lia).
  unfold improve.
  set (hop := if (node =? start)%nat then Ret (v, 0) else unwrap (first_hop st !! node)).
  assert (Hhop : exists h' l', hop = Ret (h', l') /\ hop_ok v (ds + w) h' (l' + 1) /\
    0 <= l' <= Z.of_nat (size (visited st))).
  { unfold hop. destruct (Nat.eqb_spec node start) as [->|Hne].
    - exists v, 0. split; [done|]. split; [|lia]. right. split; [done|].
      assert (ds = 0) as -> by (pose proof (d_start _ _ _ Hi); congruence).
      exists [w]. split_and!; [by apply via_first|cbn; lia|done].
    - rewrite Eh. exists h, l. split; [done|]. split; [|done]. right. split; [done|].
      destruct Hh as [(? & _)|[_ (ws & Hvia & Et & El)]]; [done|].
      exists (w :: ws). split_and!; [by eapply via_edge|cbn; fold (path_cost ws); lia|rewrite len_cons; lia]. }
  destruct Hhop as (h' & l' & -> & Hok & Hl'). cbn [mbind comp_bind fst snd].
  rewrite wrap_len by lia.
  set (st' := {| scores := _; first_hop := _; visit_next := _; visited := _ |}).
  assert (Hc : contents (visit_next st') ≡ₚ (ds + w, v) :: contents (visit_next st)) by apply contents_push.
  exists st'. split; [done|]. split; [|split; [done|split]].
  2: { split; cbn [scores first_hop visited st']; rewrite ?lookup_insert_ne by done; eauto.
    - intros u du Hu. rewrite lookup_insert_ne by congruence. by apply X5.
    - intros x d. rewrite Hc. intros [[= -> ->]|Hd]%elem_of_cons; [lia|by eauto]. }
  2: { by rewrite Hc. }
  split; cbn [scores first_hop visited st'].
  - intros x d [[<- <-]|[Hne Hd]]%lookup_insert_Some.
    + exists h', (l' + 1). rewrite lookup_insert_eq. split_and!; try done; rewrite ?Esz; nia.
    + rewrite lookup_insert_ne by done. by apply (d_score _ _ _ Hi).
  - intros x. destruct (decide (x = v)) as [->|Hne]; [rewrite !lookup_insert_eq; by eauto|].
    rewrite !lookup_insert_ne by done. apply (d_dom _ _ _ Hi).
  - rewrite lookup_insert_ne by done. apply (d_start _ _ _ Hi).
  - intros x Hxs. destruct (decide (x = v)) as [->|Hne]; [rewrite lookup_insert_eq; by eauto|].
    rewrite lookup_insert_ne by done. by apply (d_visited _ _ _ Hi).
  - intros u [y wy] Hu.
    assert (Huv : u <> v) by (destruct Hu as [[? _]|[?%elem_of_singleton _]]; congruence).
    rewrite (lookup_insert_ne _ v u) by done.
    destruct Hu as [Hu|[Hu [Hdone|Hlast]%elem_of_app]].
    1, 2: destruct (d_relaxed _ _ _ Hi u (y, wy)) as (du & dv & Edu & Edv & Hle); [by eauto|];
      exists du; cbn in *; destruct (decide (y = v)) as [->|Hne];
      [exists (ds + w); rewrite lookup_insert_eq; specialize (Hbetter _ Edv); split_and!; try done; lia
      |exists dv; rewrite lookup_insert_ne by done; done].
    apply list_elem_of_singleton in Hlast as [= -> ->]. apply elem_of_singleton in Hu as ->.
    exists ds, (ds + w). cbn. rewrite lookup_insert_eq. split_and!; [done|done|lia].
  - intros x d [[<- <-]|[Hne Hd]]%lookup_insert_Some Hx; rewrite Hc; [by left|].
    right. by apply (d_heap _ _ _ Hi).
  - intros x d. rewrite Hc. intros [[= -> ->]|Hd]%elem_of_cons.
    + exists (ds + w). by rewrite lookup_insert_eq.
    + destruct (d_stale _ _ _ Hi x d Hd) as (d0 & Ed0 & Hle).
      destruct (decide (x = v)) as [->|Hne]; [|rewrite lookup_insert_ne by done; by eauto].
      exists (ds + w). rewrite lookup_insert_eq. specialize (Hbetter _ Ed0). split; [done|lia].
  - intros u du x d Hu. rewrite lookup_insert_ne by congruence. rewrite Hc.
    intros Edu [[= -> ->]|Hd]%elem_of_cons; [specialize (X5 u du Hu Edu); lia|by eapply (d_mono _ _ _ Hi)].
Qed.

Lemma relax_ok st node ds done e :
  dinv st {[node]} done -> expanding st node ds -> e ∈ edges node ->
  exists st', relax node ds st e = Ret st' /\ dinv st' {[node]} (done ++ [e]) /\
    visited st' = visited st /\ expanding st' node ds /\
    (length (contents (visit_next st')) <= S (length (contents (visit_next st))))%nat.
Proof.
  intros Hi Hx Hin. destruct e as [v w]. unfold RouteGraph.relax.
  destruct (expanding_size _ _ _ _ Hi Hx) as [Esz Hsz].
  assert (Hnode : (node < n)%nat) by (eapply visited_lt; [exact Hi|by apply elem_of_union_l, elem_of_singleton]).
  destruct (Hedges node v w Hnode Hin) as [Hvn Hw]. pose proof (x_bound _ _ _ Hx) as Hb.
  rewrite (wrap_score (ds + w)) by nia.
  (* keeping the state *)
  assert (Hkeep : (exists dv, scores st !! v = Some dv /\ dv <= ds + w) -> dinv st {[node]} (done ++ [(v, w)])).
  { intros (dv & Edv & Hle). destruct Hi as [I1 I2 I3 I4 I5 I6 I7 I8]. split; try done.
    intros u e [Hu|[Hu [Hd|He]%elem_of_app]]; [by eauto..|].
    apply elem_of_singleton in Hu as ->. apply list_elem_of_singleton in He as ->.
    exists ds, dv. split_and!; [apply Hx|done|done]. }
  destruct (decide (v ∈ visited st)) as [Hvis|Hvis].
  - exists st. split_and!; try done; [|lia]. apply Hkeep.
    destruct (d_visited _ _ _ Hi v) as [dv Edv]; [by apply elem_of_union_r|].
    exists dv. split; [done|]. pose proof (x_max _ _ _ Hx v dv Hvis Edv). lia.
  - destruct (scores st !! v) as [old|] eqn:Eold.
    + destruct (Z.ltb_spec (ds + w) old) as [Hlt|Hge].
      * destruct (improve_ok st node ds done v w Hi Hx Hin Hvis) as (st' & E & ? & ? & ? & El).
        { intros o Ho. congruence. }
        exists st'. rewrite El. by split_and!.
      * exists st. split_and!; try done; [|lia]. by eauto.
    + destruct (improve_ok st node ds done v w Hi Hx Hin Hvis) as (st' & E & ? & ? & ? & El).
      { intros o Ho. congruence. }
      exists st'. rewrite El. by split_and!.
Qed.

Lemma relax_all_ok node ds l : forall st done,
  dinv st {[node]} done -> expanding st node ds -> (forall e, e ∈ l -> e ∈ edges node) ->
  exists st', relax_all node ds st l = Ret st' /\ dinv st' {[node]} (done ++ l) /\
    visited st' = visited st /\ expanding st' node ds /\
    (length (contents (visit_next st')) <= length l + length (contents (visit_next st)))%nat.
Proof.
  induction l as [|e l IH]; intros st done Hi Hx Hl; cbn [RouteGraph.relax_all].
  { exists st. rewrite app_nil_r. by split_and!. }
  destruct (relax_ok st node ds done e Hi Hx) as (st1 & -> & Hi1 & Ev1 & Hx1 & Hc1); [by apply Hl; left|].
  cbn [mbind comp_bind]. destruct (IH st1 (done ++ [e]) Hi1 Hx1) as (st2 & -> & Hi2 & Ev2 & Hx2 & Hc2).
  { intros e' He'. apply Hl. by right. }
  exists st2. rewrite <- app_assoc in Hi2. cbn [app] in Hi2. split_and!; [done|done|congruence|done|cbn; lia].
Qed.

(** ** The loop *)

(** Edges out of nodes not yet visited. *)
Definition pending (X : gset nat) : nat :=
  sum_list_with (fun u => if decide (u ∈ X) then 0%nat else length (edges u)) (seq 0 n).

Lemma pending_visit X v : v ∉ X -> (v < n)%nat ->
  pending X = (length (edges v) + pending ({[v]} ∪ X))%nat.
Proof.
  intros Hv Hlt. unfold pending.
  assert (Hin : v ∈ seq 0 n) by (apply elem_of_seq; lia). pose proof (NoDup_seq 0 n) as Hnd.
  induction (seq 0 n) as [|u l IH]; [by apply elem_of_nil in Hin|].
  apply NoDup_cons in Hnd as [Hu Hnd]. cbn. destruct (decide (u = v)) as [->|Hne].
  - rewrite decide_False by done.
    rewrite (decide_True (P:=v ∈ {[v]} ∪ X)) by (by apply elem_of_union_l, elem_of_singleton).
    assert (E : forall l', v ∉ l' -> sum_list_with (fun u => if decide (u ∈ X) then 0%nat else length (edges u)) l' =
      sum_list_with (fun u => if decide (u ∈ {[v]} ∪ X) then 0%nat else length (edges u)) l').
    { clear. induction l' as [|y l' IH]; [done|]. intros [Hy Hl]%not_elem_of_cons. cbn. rewrite IH by done.
      destruct (decide (y ∈ X)), (decide (y ∈ {[v]} ∪ X)); try done; set_solver. }
    by rewrite E.
  - apply elem_of_cons in Hin as [?|Hin]; [by subst|]. rewrite (IH Hin Hnd).
    destruct (decide (u ∈ X)), (decide (u ∈ {[v]} ∪ X)); try lia; set_solver.
Qed.

Lemma dinv_pop st node_score node h :
  dinv st ∅ [] -> heap_pop (visit_next st) = Some ((node_score, node), h) ->
  let st1 := {| scores := scores st; first_hop := first_hop st; visit_next := h; visited := visited st |} in
  (node ∈ visited st -> dinv st1 ∅ []) /\
  (node ∉ visited st -> dinv st1 {[node]} [] /\ expanding st1 node node_score).
Proof.
  intros Hi Hpop st1. destruct (pop_some _ _ _ Hpop) as [Hc Hmax]. cbn in Hmax.
  assert (Hmin : forall d v, (d, v) ∈ contents (visit_next st) -> node_score <= d).
  { intros d v Hd. specialize (Hmax _ Hd). unfold MinScored_cmp in Hmax. cbn in Hmax.
    destruct (Z.eqb_spec d node_score); [lia|]. destruct (Z.ltb_spec d node_score); [done|lia]. }
  assert (Hsub : forall x, x ∈ contents h -> x ∈ contents (visit_next st)) by (intros x Hx; rewrite Hc; by right).
  assert (Hhead : (node_score, node) ∈ contents (visit_next st)) by (rewrite Hc; by left).
  destruct Hi as [I1 I2 I3 I4 I5 I6 I7 I8]. split.
  - intros Hvis. split; cbn; try done; eauto.
    intros v d Ed Hv. specialize (I6 v d Ed Hv). rewrite Hc in I6.
    apply elem_of_cons in I6 as [[= -> ->]|?]; [|done]. set_solver.
  - intros Hvis.
    destruct (I7 _ _ Hhead) as (d0 & Ed0 & Hle).
    assert (d0 = node_score) as ->.
    { assert (Hn0 : node ∉ ∅ ∪ visited st) by set_solver. pose proof (Hmin _ _ (I6 _ _ Ed0 Hn0)). lia. }
    destruct (I1 _ _ Ed0) as (h0 & l0 & Eh0 & Hok & Hlt & Hbd & Hbl).
    assert (Esz : forall X : gset nat, size (∅ ∪ X) = size X) by (intros X; by rewrite (left_id_L ∅ (∪))).
    rewrite Esz in *. split.
    + assert (Hs : (size (visited st) <= size ({[node]} ∪ visited st))%nat) by (apply subseteq_size; set_solver).
      split; cbn; try done.
      * intros v d Ed. destruct (I1 v d Ed) as (h' & l' & ? & ? & ? & ? & ?).
        exists h', l'. split_and!; try done; try lia. nia.
      * intros u [->%elem_of_singleton|Hu]%elem_of_union; [by eauto|]. apply I4. by apply elem_of_union_r.
      * intros u e [Hu|[_ []%elem_of_nil]]. by eauto.
      * intros v d Ed [Hv1 Hv2]%not_elem_of_union. specialize (I6 v d Ed). rewrite Hc in I6.
        assert (Hn0 : v ∉ ∅ ∪ visited st) by set_solver. apply I6 in Hn0.
        apply elem_of_cons in Hn0 as [[= -> ->]|?]; [|done]. set_solver.
      * intros v d Hd. by apply I7, Hsub.
      * intros u du v d Hu Edu Hd. by eapply I8, Hsub.
    + split; cbn; try done.
      * by exists h0, l0.
      * intros u du Hu Edu. by eapply I8.
      * intros v d Hd. by eapply Hmin, Hsub.
Qed.

Lemma dinv_visit st node ds : dinv st {[node]} (edges node) -> expanding st node ds ->
  dinv {| scores := scores st; first_hop := first_hop st; visit_next := visit_next st;
          visited := {[node]} ∪ visited st |} ∅ [].
Proof.
  intros [I1 I2 I3 I4 I5 I6 I7 I8] Hx.
  assert (E : ∅ ∪ ({[node]} ∪ visited st) = {[node]} ∪ visited st) by apply (left_id_L ∅ (∪)).
  split; cbn; rewrite ?E; try done.
  - intros u e [[[->%elem_of_singleton|Hu]%elem_of_union He]|[_ []%elem_of_nil]]; apply I5.
    + right. split; [by apply elem_of_singleton|done].
    + by left.
  - intros u du v d [->%elem_of_singleton|Hu]%elem_of_union Edu Hd.
    + pose proof (x_score _ _ _ Hx). pose proof (x_min _ _ _ Hx v d Hd). simplify_eq. lia.
    + by eapply I8.
Qed.

Lemma loop_ok fuel : forall st, dinv st ∅ [] ->
  (length (contents (visit_next st)) + pending (visited st) <= fuel)%nat ->
  exists st', dijkstra_loop edges start fuel st = Ret (Some st') /\ dinv st' ∅ [] /\
    contents (visit_next st') = [].
Proof.
  induction fuel as [|fuel IH]; intros st Hi Hf; cbn [dijkstra_loop];
    destruct (heap_pop (visit_next st)) as [[[ds node] h]|] eqn:Ep.
  - destruct (pop_some _ _ _ Ep) as [Hc _]. rewrite Hc in Hf. cbn in Hf. lia.
  - exists st. split_and!; [done|done|by apply pop_none].
  - destruct (pop_some _ _ _ Ep) as [Hc _]. rewrite Hc in Hf. cbn in Hf.
    destruct (dinv_pop _ _ _ _ Hi Ep) as [Hold Hnew]. cbn [visited] in *.
    destruct (decide (node ∈ visited st)) as [Hv|Hv].
    + apply IH; [by apply Hold|cbn; lia].
    + destruct (Hnew Hv) as [Hi1 Hx1].
      destruct (relax_all_ok node ds (edges node) _ [] Hi1 Hx1) as (st2 & -> & Hi2 & Ev2 & Hx2 & Hc2); [done|].
      cbn [mbind comp_bind]. cbn in Ev2, Hc2, Hi2. rewrite Ev2.
      pose proof (dinv_visit _ _ _ Hi2 Hx2) as Hi3. rewrite Ev2 in Hi3. apply IH; [done|]. cbn.
      assert (Hlt : (node < n)%nat) by (eapply visited_lt; [exact Hi1|by apply elem_of_union_l, elem_of_singleton]).
      rewrite (pending_visit _ _ Hv Hlt) in Hf. lia.
  - exists st. split_and!; [done|done|by apply pop_none].
Qed.

Lemma init_dinv : dinv (dijkstra_init start) ∅ [].
Proof.
  assert (Hc : contents (visit_next (dijkstra_init start)) ≡ₚ [(0, start)]).
  { cbn. by rewrite contents_push, contents_new. }
  split; cbn [dijkstra_init scores first_hop visited].
  - intros v d [<- <-]%lookup_singleton_Some. exists start, 0. rewrite lookup_singleton_eq.
    split_and!; try done; try lia. by left.
  - intros v. destruct (decide (v = start)) as [->|Hne]; [rewrite !lookup_singleton_eq; by eauto|].
    by rewrite !lookup_singleton_ne by done.
  - apply lookup_singleton_eq.
  - intros u. rewrite (left_id_L ∅ (∪)). by intros ?%elem_of_empty.
  - by intros u e [[?%elem_of_empty _]|[?%elem_of_empty _]].
  - intros v d [<- <-]%lookup_singleton_Some _. rewrite Hc. by left.
  - intros v d. rewrite Hc. intros [= -> ->]%list_elem_of_singleton. exists 0. by rewrite lookup_singleton_eq.
  - by intros u du v d ?%elem_of_empty.
Qed.

(** When the heap is empty every score is a distance. *)
Lemma final_scores st v ws : dinv st ∅ [] -> contents (visit_next st) = [] ->
  walk (edge_of edges) start v ws -> exists d, scores st !! v = Some d /\ d <= path_cost ws.
Proof.
  intros Hi Hc. induction 1 as [|u v w ws _ (d & Ed & Hle) Hin]; [exists 0; split; [apply Hi|done]|].
  assert (Hu : u ∈ visited st).
  { destruct (decide (u ∈ visited st)) as [|Hn]; [done|].
    assert (Hn' : u ∉ ∅ ∪ visited st) by (by rewrite (left_id_L ∅ (∪))).
    pose proof (d_heap _ _ _ Hi u d Ed Hn') as Hh. rewrite Hc in Hh. by apply elem_of_nil in Hh. }
  destruct (d_relaxed _ _ _ Hi u (v, w)) as (du & dv & Edu & Edv & Hle'); [by left|]. cbn in *.
  simplify_eq. exists dv. split; [done|]. fold (path_cost ws). lia.
Qed.

Lemma score_walk st v d : dinv st ∅ [] -> scores st !! v = Some d ->
  exists ws, walk (edge_of edges) start v ws /\ path_cost ws = d.
Proof.
  intros Hi Ed. destruct (d_score _ _ _ Hi v d Ed) as (h & l & _ & [(-> & -> & _)|[_ (ws & Hvia & Et & _)]] & _).
  - exists []. split; [constructor|done].
  - exists ws. split; [by eapply via_walk|done].
Qed.

Lemma final_distance st v d : dinv st ∅ [] -> contents (visit_next st) = [] ->
  scores st !! v = Some d <-> distance (edge_of edges) start v d.
Proof.
  intros Hi Hc. split.
  - intros Ed. split; [by apply (score_walk st)|].
    intros ws Hw. destruct (final_scores st v ws Hi Hc Hw) as (d' & Ed' & Hle). by simplify_eq.
  - intros [(ws & Hw & Et) Hmin]. destruct (final_scores st v ws Hi Hc Hw) as (d' & Ed' & Hle).
    destruct (score_walk st v d' Hi Ed') as (ws' & Hw' & Et'). specialize (Hmin ws' Hw').
    rewrite Ed'. f_equal. lia.
Qed.
End correctness.

(** All edges out of the nodes below [n]. *)
Definition edge_count (edges : nat -> list (nat * Z)) (n : nat) : nat :=
  sum_list_with (fun u => length (edges u)) (seq 0 n).

(** What a result of the algorithm means. *)
Record shortest_paths (edges : nat -> list (nat * Z)) (start : nat)
    (sc : gmap nat Z) (fh : gmap nat (nat * Z)) : Prop := {
  sp_scores : forall v d, sc !! v = Some d <-> distance (edge_of edges) start v d;
  sp_dom : forall v, is_Some (fh !! v) <-> is_Some (sc !! v);
  sp_reached : forall v, is_Some (sc !! v) <-> exists ws, walk (edge_of edges) start v ws;
  sp_start : fh !! start = Some (start, 0);
  sp_hops : forall v h l, fh !! v = Some (h, l) -> v <> start ->
    exists ws, walk_via (edge_of edges) start h v ws /\ len ws = l /\
      distance (edge_of edges) start v (path_cost ws) }.

(** The helper behind the property. *)
Lemma dijkstra_total `{HL : !MinHeapLaws H} {T : Target} (edges : nat -> list (nat * Z))
    (start n fuel : nat) (M : Z) :
  0 <= usize_bits ->
  (forall u v w, (u < n)%nat -> (v, w) ∈ edges u -> (v < n)%nat /\ 0 <= w <= M) ->
  (start < n)%nat -> 0 <= M -> (M + 1) * Z.of_nat n < 2 ^ usize_bits ->
  (S (edge_count edges n) <= fuel)%nat ->
  exists sc fh, dijkstra_with_first_hop edges start fuel = Ret (Some (sc, fh)) /\
    shortest_paths edges start sc fh /\
    (forall v d, sc !! v = Some d -> 0 <= d <= M * Z.of_nat n).
Proof.
  intros Hbits Hedges Hstart HM Hfit Hfuel.
  pose proof (init_dinv edges start n M Hbits Hstart HM) as Hi.
  destruct (loop_ok edges start n M Hbits Hedges Hstart HM Hfit fuel (dijkstra_init start) Hi) as (st & E & Hi' & Hc).
  { cbn [dijkstra_init visit_next visited]. rewrite contents_push, contents_new. cbn.
    change (pending edges n ∅) with (edge_count edges n). done. }
  exists (scores st), (first_hop st). unfold dijkstra_with_first_hop. rewrite E. cbn [mbind comp_bind].
  split; [done|]. split; [split|].
  - intros v d. by apply (final_distance edges start n M Hbits Hstart).
  - intros v. split; [apply (d_dom _ _ _ _ _ _ _ Hi')|]. intros [d Ed].
    destruct (d_score _ _ _ _ _ _ _ Hi' v d Ed) as (h & l & -> & _). by eexists.
  - intros v. split.
    + intros [d Ed]. destruct (score_walk edges start n M st v d Hi' Ed) as (ws & Hw & _). by eauto.
    + intros (ws & Hw).
      destruct (final_scores edges start n M Hbits Hstart st v ws Hi' Hc Hw) as (d & -> & _). by eexists.
  - destruct (d_score _ _ _ _ _ _ _ Hi' start 0 (d_start _ _ _ _ _ _ _ Hi'))
      as (h & l & Eh & [(_ & _ & -> & ->)|[? _]] & _); done.
  - intros v h l Eh Hv. destruct (d_dom _ _ _ _ _ _ _ Hi' v) as [d Ed]; [by eexists|].
    destruct (d_score _ _ _ _ _ _ _ Hi' v d Ed) as (h' & l' & Eh' & [(? & _)|[_ (ws & Hvia & Et & El)]] & _); [done|].
    simplify_eq. exists ws. split_and!; try done.
    by apply (final_distance edges start n M Hbits Hstart st v _ Hi' Hc).
  - intros v d Ed. destruct (d_score _ _ _ _ _ _ _ Hi' v d Ed) as (_ & _ & _ & _ & _ & Hd & _).
    assert (Hsz : (size (∅ ∪ visited st) <= n)%nat) by (apply (size_lt n); intros u; by eapply visited_lt).
    nia.
Qed.

(** ** A heap *)

(** An unordered list from which [pop] removes the first least score. *)
Fixpoint pop_least (x : Z * nat) (l : list (Z * nat)) : (Z * nat) * list (Z * nat) :=
  match l with
  | [] => (x, [])
  | y :: l =>
    let '(m, rest) := pop_least y l in
    if m.1 <? x.1 then (m, x :: rest) else (x, m :: rest)
  end.
#[export] Instance list_heap : MinHeap := {|
  Heap := list (Z * nat); heap_new := []; heap_push h x := h ++ [x];
  heap_pop h := match h with [] => None | x :: l => Some (pop_least x l) end |}.

Lemma pop_least_spec l x :
  x :: l ≡ₚ (pop_least x l).1 :: (pop_least x l).2 /\
  forall y, y ∈ x :: l -> (pop_least x l).1.1 <= y.1.
Proof.
  revert x. induction l as [|z l IH]; intros x; cbn [pop_least].
  { split; [done|]. by intros y ->%list_elem_of_singleton. }
  specialize (IH z). destruct (pop_least z l) as [m rest]. cbn [fst snd] in IH. destruct IH as [Hp Hm].
  destruct (Z.ltb_spec m.1 x.1) as [Hlt|Hge]; cbn [fst snd]; split.
  - rewrite Hp. apply Permutation_swap.
  - intros y [->|Hy]%elem_of_cons; [lia|by apply Hm].
  - by rewrite Hp.
  - intros y [->|Hy]%elem_of_cons; [lia|]. specialize (Hm y Hy). lia.
Qed.

#[export] Instance list_heap_laws : MinHeapLaws list_heap.
Proof.
  refine {| contents := fun h : Heap (MinHeap:=list_heap) => (h : list (Z * nat)) |}; cbn.
  - done.
  - intros h x. by rewrite Permutation_app_comm.
  - by intros [].
  - intros [|z l] x h' E; [done|]. injection E as E. pose proof (pop_least_spec l z) as [Hp Hm].
    rewrite E in Hp, Hm. cbn in *. split; [done|]. intros y Hy. specialize (Hm y Hy).
    unfold MinScored_cmp. destruct (Z.eqb_spec y.1 x.1); [done|]. rewrite (proj2 (Z.ltb_ge _ _)) by lia.
    by rewrite (proj2 (Z.ltb_lt _ _)) by lia.
Qed.

(** ** Properties *)

(** C36. Shortest paths with first hops: on every finite graph whose costs
    leave room in [usize], with any binary heap, the algorithm terminates
    within one iteration per edge plus one and does not panic; the scores are
    exactly the least walk costs, a node has a first hop iff it is reachable,
    and the first hop and hop count are those of a walk of least cost. *)
Theorem first_hop_shortest `{HL : !MinHeapLaws H} {T : Target} (edges : nat -> list (nat * Z))
    (start n : nat) (M : Z) :
  0 <= usize_bits ->
  (forall u v w, (u < n)%nat -> (v, w) ∈ edges u -> (v < n)%nat /\ 0 <= w <= M) ->
  (start < n)%nat -> 0 <= M -> (M + 1) * Z.of_nat n < 2 ^ usize_bits ->
  exists sc fh,
    dijkstra_with_first_hop edges start (S (edge_count edges n)) = Ret (Some (sc, fh)) /\
    (forall v d, sc !! v = Some d <-> distance (edge_of edges) start v d) /\
    (forall v, is_Some (fh !! v) <-> exists ws, walk (edge_of edges) start v ws) /\
    fh !! start = Some (start, 0) /\
    (forall v h l, fh !! v = Some (h, l) -> v <> start ->
       exists ws, walk_via (edge_of edges) start h v ws /\ len ws = l /\ sc !! v = Some (path_cost ws)).
Proof.
  intros Hbits Hedges Hstart HM Hfit.
  destruct (dijkstra_total edges start n (S (edge_count edges n)) M) as (sc & fh & E & [S1 S2 S3 S4 S5] & _); auto.
  exists sc, fh. split_and!; try done.
  - intros v. by rewrite S2, S3.
  - intros v h l Eh Hv. destruct (S5 v h l Eh Hv) as (ws & Hvia & El & Hd%S1). by eauto.
Qed.

(** The graph of the unit test: a -> b, a -> c, b -> d, c -> d, d -> e. *)
Definition test_edges (u : nat) : list (nat * Z) :=
  match u with
  | 0%nat => [(1%nat, 1); (2%nat, 2)]
  | 1%nat => [(3%nat, 1)]
  | 2%nat => [(3%nat, 3)]
  | 3%nat => [(4%nat, 1)]
  | _ => []
  end.

Example test_dijkstra_with_first_hop :
  match dijkstra_with_first_hop (T:=64) test_edges 0 6 with
  | Ret (Some (sc, fh)) =>
    ((sc !!.) <$> [1; 2; 3; 4]%nat) = [Some 1; Some 2; Some 2; Some 3] /\
    ((fh !!.) <$> [1; 2; 3; 4]%nat) =
      [Some (1%nat, 1); Some (2%nat, 1); Some (1%nat, 2); Some (1%nat, 3)]
  | _ => False
  end.
Proof. vm_compute. split; reflexivity. Qed.

Lemma first_hop_shortest_witness :
  exists sc fh,
    dijkstra_with_first_hop (T:=64) test_edges 0 (S (edge_count test_edges 5)) = Ret (Some (sc, fh)) /\
    (forall v d, sc !! v = Some d <-> distance (edge_of test_edges) 0%nat v d) /\
    (forall v, is_Some (fh !! v) <-> exists ws, walk (edge_of test_edges) 0%nat v ws) /\
    fh !! 0%nat = Some (0%nat, 0) /\
    (forall v h l, fh !! v = Some (h, l) -> v <> 0%nat ->
       exists ws, walk_via (edge_of test_edges) 0%nat h v ws /\ len ws = l /\ sc !! v = Some (path_cost ws)).
Proof.
  apply (first_hop_shortest (T:=64) test_edges 0 5 3); try (vm_compute; congruence).
  - intros u v w Hu. assert (Hc : Forall (fun u => Forall (fun e => (e.1 < 5)%nat /\ 0 <= e.2 <= 3) (test_edges u)) (seq 0 5)).
    { repeat constructor; cbn; lia. }
    intros He. rewrite Forall_forall in Hc. specialize (Hc u). rewrite Forall_forall in Hc.
    apply (Hc (proj2 (elem_of_seq _ _ _) (conj (Nat.le_0_l _) Hu)) (v, w) He).
  - lia.
Defined.
