(* ===== verification/RouteMessages.v ===== *)
(** The messages of route synchronisation ([easytier-proto/proto/peer_rpc.proto]
    and [common.proto]) as the records that the generated code declares.  Byte
    strings and strings are lists of bytes, times milliseconds since the epoch,
    a [UUID] one number. *)

From stdpp Require Import list gmap.
From S2P Require Import Prelude.
Local Open Scope Z_scope.

Record PeerFeatureFlag := {
  is_public_server : bool; avoid_relay_data : bool; kcp_input : bool; no_relay_kcp : bool;
  support_conn_list_sync : bool; quic_input : bool; no_relay_quic : bool;
  is_credential_peer_flag : bool; need_p2p : bool; disable_p2p : bool;
  ipv6_public_addr_provider : bool }.
Definition default_feature_flag : PeerFeatureFlag :=
  {| is_public_server := false; avoid_relay_data := false; kcp_input := false;
     no_relay_kcp := false; support_conn_list_sync := false; quic_input := false;
     no_relay_quic := false; is_credential_peer_flag := false; need_p2p := false;
     disable_p2p := false; ipv6_public_addr_provider := false |}.

Record TrustedCredentialPubkey := {
  tc_pubkey : list Z; tc_groups : list (list Z); tc_allow_relay : bool; tc_expiry_unix : Z;
  tc_allowed_proxy_cidrs : list (list Z); tc_reusable : option bool }.
Record TrustedCredentialPubkeyProof := {
  tp_credential : option TrustedCredentialPubkey; tp_credential_hmac : list Z }.
Record PeerGroupInfo := { group_name : list Z; group_proof : list Z }.
Record Ipv6Inet := { v6_address : option Z; v6_network_length : Z }.

Record RoutePeerInfo := {
  peer_id : Z; inst_id : option Z; cost : Z; ipv4_addr : option Z; proxy_cidrs : list (list Z);
  hostname : option (list Z); udp_nat_type : Z; tcp_nat_type : Z; last_update : option Z;
  version : Z; easytier_version : list Z; feature_flag : option PeerFeatureFlag;
  peer_route_id : Z; network_length : Z; quic_port : option Z; ipv6_addr : option Ipv6Inet;
  groups : list PeerGroupInfo; noise_static_pubkey : list Z;
  trusted_credential_pubkeys : list TrustedCredentialPubkeyProof;
  ipv6_public_addr_prefix : option Ipv6Inet; ipv6_public_addr_lease : option Ipv6Inet }.

#[export] Instance PeerFeatureFlag_eq_dec : EqDecision PeerFeatureFlag.
Proof. solve_decision. Defined.
#[export] Instance TrustedCredentialPubkey_eq_dec : EqDecision TrustedCredentialPubkey.
Proof. solve_decision. Defined.
#[export] Instance TrustedCredentialPubkeyProof_eq_dec : EqDecision TrustedCredentialPubkeyProof.
Proof. solve_decision. Defined.
#[export] Instance PeerGroupInfo_eq_dec : EqDecision PeerGroupInfo.
Proof. solve_decision. Defined.
#[export] Instance Ipv6Inet_eq_dec : EqDecision Ipv6Inet.
Proof. solve_decision. Defined.
#[export] Instance RoutePeerInfo_eq_dec : EqDecision RoutePeerInfo.
Proof. solve_decision. Defined.

(** Assignments to fields. *)
Definition set_stamp (i : RoutePeerInfo) (v : Z) (t : option Z) : RoutePeerInfo :=
  {| peer_id := peer_id i; inst_id := inst_id i; cost := cost i; ipv4_addr := ipv4_addr i;
     proxy_cidrs := proxy_cidrs i; hostname := hostname i; udp_nat_type := udp_nat_type i;
     tcp_nat_type := tcp_nat_type i; last_update := t; version := v;
     easytier_version := easytier_version i; feature_flag := feature_flag i;
     peer_route_id := peer_route_id i; network_length := network_length i;
     quic_port := quic_port i; ipv6_addr := ipv6_addr i; groups := groups i;
     noise_static_pubkey := noise_static_pubkey i;
     trusted_credential_pubkeys := trusted_credential_pubkeys i;
     ipv6_public_addr_prefix := ipv6_public_addr_prefix i;
     ipv6_public_addr_lease := ipv6_public_addr_lease i |}.
Definition set_feature_flag (i : RoutePeerInfo) (f : option PeerFeatureFlag) : RoutePeerInfo :=
  {| peer_id := peer_id i; inst_id := inst_id i; cost := cost i; ipv4_addr := ipv4_addr i;
     proxy_cidrs := proxy_cidrs i; hostname := hostname i; udp_nat_type := udp_nat_type i;
     tcp_nat_type := tcp_nat_type i; last_update := last_update i; version := version i;
     easytier_version := easytier_version i; feature_flag := f;
     peer_route_id := peer_route_id i; network_length := network_length i;
     quic_port := quic_port i; ipv6_addr := ipv6_addr i; groups := groups i;
     noise_static_pubkey := noise_static_pubkey i;
     trusted_credential_pubkeys := trusted_credential_pubkeys i;
     ipv6_public_addr_prefix := ipv6_public_addr_prefix i;
     ipv6_public_addr_lease := ipv6_public_addr_lease i |}.

Record PeerIdVersion := { pv_peer_id : Z; pv_version : Z }.
Record RouteConnBitmap := { bm_peer_ids : list PeerIdVersion; bm_bitmap : list Z }.
(** [RouteConnPeerList]: peer (optional message) and its connected peers. *)
Abbreviation RouteConnPeerList := (list (option PeerIdVersion * list Z)).
Inductive ConnInfo := ConnBitmap (b : RouteConnBitmap) | ConnPeerList (l : RouteConnPeerList).

Record ForeignNetworkRouteInfoEntry := {
  foreign_peer_ids : list Z; fe_last_update : option Z; fe_version : Z;
  network_secret_digest : list Z; my_peer_id_for_this_network : Z }.
(** [ForeignNetworkRouteInfoKey]: peer and network name. *)
Abbreviation ForeignKey := (Z * list Z)%type.
Abbreviation RouteForeignNetworkInfos :=
  (list (option ForeignKey * option ForeignNetworkRouteInfoEntry)).
Definition set_foreign (e : ForeignNetworkRouteInfoEntry) (ids : list Z) (t : option Z) (v : Z)
    : ForeignNetworkRouteInfoEntry :=
  {| foreign_peer_ids := ids; fe_last_update := t; fe_version := v;
     network_secret_digest := network_secret_digest e;
     my_peer_id_for_this_network := my_peer_id_for_this_network e |}.

Inductive SyncRouteInfoError := DuplicatePeerId | Stopped.

Record SyncRouteInfoRequest := {
  rq_my_peer_id : Z; rq_my_session_id : Z; rq_is_initiator : bool;
  rq_peer_infos : option (list RoutePeerInfo); rq_conn_info : option ConnInfo;
  rq_foreign_network_infos : option RouteForeignNetworkInfos }.
(** [error]: an [i32] of the enum, when there is one. *)
Record SyncRouteInfoResponse := {
  rs_is_initiator : bool; rs_session_id : Z; rs_error : option Z }.
Definition error_i32 (e : SyncRouteInfoError) : Z :=
  match e with DuplicatePeerId => 0 | Stopped => 1 end.
