(* ===== verification/RouteTable.v ===== *)
(** [OspfRouteTable] of [peers/route/peer_ospf_route.rs]: the table of next
    hops that a node computes from its snapshot of the network.

    The snapshot becomes a graph of peers, shortest paths in it become next
    hops, and the addresses and proxied networks that reachable peers announce
    become maps from addresses to peers.  The petgraph, cidr and prefix-trie
    crates are the classes [PetGraph] and [RouteNet]; the iteration order of
    the hash maps is [HashOrder]. *)

From stdpp Require Import list gmap.
From S2P Require Import Prelude RouteGraph RouteMessages.
Local Open Scope Z_scope.
Local Set Warnings "-clear-no-such-hyp".

(** [i32::MAX as usize]. *)
Definition AVOID_RELAY_COST : Z := 2147483647.

(** ** Libraries *)

(** [cidr] and [prefix_trie]: networks, their bounds, parsing, and the longest
    prefix match of a map keyed by networks. *)
Class RouteNet := {
  V4Net : Type; V4Net_eq :: EqDecision V4Net; V4Net_countable :: Countable V4Net;
  V6Net : Type; V6Net_eq :: EqDecision V6Net; V6Net_countable :: Countable V6Net;
  first_address4 : V4Net -> Z; last_address4 : V4Net -> Z;
  first_address6 : V6Net -> Z; last_address6 : V6Net -> Z;
  parse_cidr : list Z -> option (V4Net + V6Net);
  get_lpm4 : gmap V4Net PeerIdVersion -> Z -> option (V4Net * PeerIdVersion);
  get_lpm6 : gmap V6Net PeerIdVersion -> Z -> option (V6Net * PeerIdVersion) }.

(** [petgraph::Graph<PeerId, usize, Directed>] and [petgraph::algo::dijkstra]
    with a cost that depends on the weight of an edge. *)
Class PetGraph := {
  Graph : Type;
  graph_new : Graph;
  add_node : Graph -> Z -> Graph * nat;
  add_edge : Graph -> nat -> nat -> Z -> Graph;
  node_weight : Graph -> nat -> option Z;
  node_count : Graph -> nat;
  graph_edges : Graph -> nat -> list (nat * Z);
  node_references : Graph -> list (nat * Z);
  edge_references : Graph -> list (nat * nat * Z);
  pet_dijkstra : Graph -> nat -> (Z -> Z) -> gmap nat Z }.

(** The order in which [DashMap] and [HashMap] yield their entries. *)
Class HashOrder := {
  hash_iter {K V} `{Countable K} : gmap K V -> list (K * V);
  hash_iter_perm {K V} `{Countable K} (m : gmap K V) : hash_iter m ≡ₚ map_to_list m }.

Definition cidr_is_subset {N : RouteNet} (child parent : V4Net + V6Net) : bool :=
  match child, parent with
  | inl c, inl p => (first_address4 p <=? first_address4 c) && (last_address4 c <=? last_address4 p)
  | inr c, inr p => (first_address6 p <=? first_address6 c) && (last_address6 c <=? last_address6 p)
  | _, _ => false
  end.
Definition cidr_is_subset_str {N : RouteNet} (child parent : list Z) : bool :=
  match parse_cidr child, parse_cidr parent with
  | Some c, Some p => cidr_is_subset c p
  | _, _ => false
  end.

(** ** Snapshots *)

(** [connected_peers] in the order of the [BTreeSet]. *)
Record OspfRouteSnapshot := {
  sn_peer_infos : list (Z * RoutePeerInfo); sn_conn_map : list (Z * list Z);
  sn_suppressed_peer_ids : gset Z; sn_version : Z }.

(** [OspfRouteSnapshotLookup]: a later entry of the same peer wins. *)
Definition lookup_peer_info (sn : OspfRouteSnapshot) (p : Z) : option RoutePeerInfo :=
  (list_to_map (rev (sn_peer_infos sn)) : gmap Z RoutePeerInfo) !! p.
Definition lookup_connected_peers (sn : OspfRouteSnapshot) (p : Z) : option (list Z) :=
  (list_to_map (rev (sn_conn_map sn)) : gmap Z (list Z)) !! p.
Definition get_avoid_relay_data (sn : OspfRouteSnapshot) (p : Z) : bool :=
  match lookup_peer_info sn p with
  | Some i => match feature_flag i with Some f => avoid_relay_data f | None => false end
  | None => false
  end.

Inductive NextHopPolicy := LeastHop | LeastCost.

(** ** The table *)

Record OspfNextHopInfo := {
  next_hop_peer_id : Z; path_latency : Z; path_len : Z; nh_version : Z }.

Section table.
Context {T : Target} {H : MinHeap} {G : PetGraph} {N : RouteNet} {O : HashOrder}.

Record OspfRouteTable := {
  peer_infos : gmap Z RoutePeerInfo;
  next_hop_map : gmap Z OspfNextHopInfo;
  suppressed_peer_ids : gset Z;
  ipv4_peer_id_map : gmap Z PeerIdVersion;
  ipv6_peer_id_map : gmap Z PeerIdVersion;
  cidr_peer_id_map : gmap V4Net PeerIdVersion;
  cidr_v6_peer_id_map : gmap V6Net PeerIdVersion;
  next_hop_map_version : Z }.

Definition OspfRouteTable_new : OspfRouteTable :=
  {| peer_infos := ∅; next_hop_map := ∅; suppressed_peer_ids := ∅; ipv4_peer_id_map := ∅;
     ipv6_peer_id_map := ∅; cidr_peer_id_map := ∅; cidr_v6_peer_id_map := ∅;
     next_hop_map_version := 0 |}.

Definition with_next_hops (t : OspfRouteTable) (m : gmap Z OspfNextHopInfo) (v : Z) : OspfRouteTable :=
  {| peer_infos := peer_infos t; next_hop_map := m; suppressed_peer_ids := suppressed_peer_ids t;
     ipv4_peer_id_map := ipv4_peer_id_map t; ipv6_peer_id_map := ipv6_peer_id_map t;
     cidr_peer_id_map := cidr_peer_id_map t; cidr_v6_peer_id_map := cidr_v6_peer_id_map t;
     next_hop_map_version := v |}.
Definition with_suppressed (t : OspfRouteTable) (s : gset Z) : OspfRouteTable :=
  {| peer_infos := peer_infos t; next_hop_map := next_hop_map t; suppressed_peer_ids := s;
     ipv4_peer_id_map := ipv4_peer_id_map t; ipv6_peer_id_map := ipv6_peer_id_map t;
     cidr_peer_id_map := cidr_peer_id_map t; cidr_v6_peer_id_map := cidr_v6_peer_id_map t;
     next_hop_map_version := next_hop_map_version t |}.

(** [AtomicVersion::set_if_larger]. *)
Definition set_if_larger (t : OspfRouteTable) (version : Z) : OspfRouteTable :=
  with_next_hops t (next_hop_map t) (Z.max (next_hop_map_version t) version).

Definition get_topology_next_hop (t : OspfRouteTable) (dst : Z) : option OspfNextHopInfo :=
  match next_hop_map t !! dst with
  | Some x => if next_hop_map_version t <=? nh_version x then Some x else None
  | None => None
  end.
Definition get_next_hop (t : OspfRouteTable) (dst : Z) : option OspfNextHopInfo :=
  if decide (dst ∈ suppressed_peer_ids t) then None else get_topology_next_hop t dst.
Definition peer_reachable (t : OspfRouteTable) (p : Z) : bool :=
  match get_next_hop t p with Some _ => true | None => false end.
Definition topology_peer_reachable (t : OspfRouteTable) (p : Z) : bool :=
  match get_topology_next_hop t p with Some _ => true | None => false end.

Definition get_peer_info (t : OspfRouteTable) (p : Z) : option RoutePeerInfo := peer_infos t !! p.
(** A number that is no [NatType] counts as unknown, 0. *)
Definition get_udp_nat_type (t : OspfRouteTable) (p : Z) : option Z :=
  (fun i => if (0 <=? udp_nat_type i) && (udp_nat_type i <=? 9) then udp_nat_type i else 0)
    <$> peer_infos t !! p.
Definition get_peer_id_by_ipv4 (t : OspfRouteTable) (a : Z) : option Z :=
  pv_peer_id <$> ipv4_peer_id_map t !! a.
Definition get_peer_id_by_ipv6 (t : OspfRouteTable) (a : Z) : option Z :=
  pv_peer_id <$> ipv6_peer_id_map t !! a.
(** [get_peer_id_for_proxy] on IPv4 and IPv6 addresses. *)
Definition get_peer_id_for_proxy (t : OspfRouteTable) (ip : Z + Z) : option Z :=
  match ip with
  | inl a => (fun x => pv_peer_id x.2) <$> get_lpm4 (cidr_peer_id_map t) a
  | inr a => (fun x => pv_peer_id x.2) <$> get_lpm6 (cidr_v6_peer_id_map t) a
  end.

Definition sync_suppressed_peer_ids (t : OspfRouteTable) (sn : OspfRouteSnapshot) : OspfRouteTable :=
  with_suppressed t
    (filter (fun p => p ∈ sn_suppressed_peer_ids sn) (suppressed_peer_ids t) ∪ sn_suppressed_peer_ids sn).

(** ** The graph *)

(** The first loop: a node per peer whose information has a version. *)
Fixpoint add_nodes (my_peer_id : Z) (l : list (Z * RoutePeerInfo)) (g : Graph) (idx : gmap Z nat)
    (start : option nat) : Graph * gmap Z nat * option nat :=
  match l with
  | [] => (g, idx, start)
  | (peer_id, info) :: l =>
    if version info =? 0 then add_nodes my_peer_id l g idx start else
    let '(g, node_idx) := add_node g peer_id in
    add_nodes my_peer_id l g (<[peer_id := node_idx]> idx)
      (if peer_id =? my_peer_id then Some node_idx else start)
  end.

(** The cost of an edge, before the graph sees it. *)
Definition edge_cost (sn : OspfRouteSnapshot) (calculate_cost : Z -> Z -> Z) (src dst : Z) : Z :=
  let cost := wrap usize_bits (calculate_cost src dst) in
  if get_avoid_relay_data sn src then wrap usize_bits (cost + AVOID_RELAY_COST) else cost.

Fixpoint add_links (sn : OspfRouteSnapshot) (calculate_cost : Z -> Z -> Z) (idx : gmap Z nat)
    (src : Z) (src_node : nat) (l : list Z) (g : Graph) : Graph :=
  match l with
  | [] => g
  | dst :: l =>
    match idx !! dst with
    | None => add_links sn calculate_cost idx src src_node l g
    | Some dst_node =>
      add_links sn calculate_cost idx src src_node l
        (add_edge g src_node dst_node (edge_cost sn calculate_cost src dst))
    end
  end.

Fixpoint add_sources (my_peer_id : Z) (sn : OspfRouteSnapshot) (calculate_cost : Z -> Z -> Z)
    (idx : gmap Z nat) (l : list (Z * nat)) (g : Graph) : Graph :=
  match l with
  | [] => g
  | (src, src_node) :: l =>
    if negb (src =? my_peer_id) && bool_decide (src ∈ sn_suppressed_peer_ids sn)
    then add_sources my_peer_id sn calculate_cost idx l g
    else add_sources my_peer_id sn calculate_cost idx l
           (add_links sn calculate_cost idx src src_node
              (default [] (lookup_connected_peers sn src)) g)
  end.

(** The start node is [None] where the code returns [NodeIndex::end()]. *)
Definition build_peer_graph_from_snapshot (my_peer_id : Z) (sn : OspfRouteSnapshot)
    (calculate_cost : Z -> Z -> Z) : Graph * option nat :=
  let '(g, idx, start) := add_nodes my_peer_id (sn_peer_infos sn) graph_new ∅ None in
  match start with
  | None => (g, None)
  | Some s => (add_sources my_peer_id sn calculate_cost idx (hash_iter idx) g, Some s)
  end.

(** ** Next hops *)

Definition clean_expired_route_info (t : OspfRouteTable) : OspfRouteTable :=
  let cur_version := next_hop_map_version t in
  let t := with_next_hops t
    (filter (fun kv => (cur_version <=? nh_version kv.2) = true) (next_hop_map t)) cur_version in
  {| peer_infos := filter (fun kv => peer_reachable t kv.1 = true) (peer_infos t);
     next_hop_map := next_hop_map t; suppressed_peer_ids := suppressed_peer_ids t;
     ipv4_peer_id_map :=
       filter (fun kv => peer_reachable t (pv_peer_id kv.2) = true) (ipv4_peer_id_map t);
     ipv6_peer_id_map :=
       filter (fun kv => peer_reachable t (pv_peer_id kv.2) = true) (ipv6_peer_id_map t);
     cidr_peer_id_map := cidr_peer_id_map t; cidr_v6_peer_id_map := cidr_v6_peer_id_map t;
     next_hop_map_version := next_hop_map_version t |}.

(** The loop over the next hops; the [unwrap]s of the code are kept. *)
Fixpoint store_next_hops (g : Graph) (costs : gmap nat Z) (version : Z)
    (l : list (nat * (nat * Z))) (m : gmap Z OspfNextHopInfo) : comp (gmap Z OspfNextHopInfo) :=
  match l with
  | [] => Ret m
  | (dst, (next_hop, hops)) :: l =>
    next_hop_peer ← unwrap (node_weight g next_hop);
    cost ← unwrap (costs !! dst);
    let info := {| next_hop_peer_id := next_hop_peer; path_latency := cost mod AVOID_RELAY_COST;
                   path_len := hops; nh_version := version |} in
    dst_peer ← unwrap (node_weight g dst);
    let info' := match m !! dst_peer with
                 | Some x => if nh_version x <? version then info else x
                 | None => info
                 end in
    store_next_hops g costs version l (<[dst_peer := info']> m)
  end.

(** The fuel of the search is the number of edges plus one, which it never
    exceeds. *)
Definition gen_next_hop_map_with_least_cost (t : OspfRouteTable) (g : Graph) (start : nat)
    (version : Z) : comp OspfRouteTable :=
  match node_weight g start with
  | None => Ret t
  | Some _ =>
    r ← dijkstra_with_first_hop (graph_edges g) start (S (length (edge_references g)));
    '(costs, next_hops) ← unwrap r;
    m ← store_next_hops g costs version (hash_iter next_hops) (next_hop_map t);
    Ret (with_next_hops t m (Z.max (next_hop_map_version t) version))
  end.

Definition normalize_edge_cost (w : Z) : Z :=
  if AVOID_RELAY_COST <=? w then AVOID_RELAY_COST + 1 else 1.

Fixpoint copy_nodes (start : nat) (l : list (nat * Z)) (sub : Graph) (new_start : option nat)
    : Graph * option nat :=
  match l with
  | [] => (sub, new_start)
  | (node_idx, peer_id) :: l =>
    let '(sub, new_idx) := add_node sub peer_id in
    copy_nodes start l sub (if (node_idx =? start)%nat then Some new_idx else new_start)
  end.

Fixpoint copy_edges (path_len_map : gmap nat Z) (l : list (nat * nat * Z)) (sub : Graph) : Graph :=
  match l with
  | [] => sub
  | (src, tgt, w) :: l =>
    match path_len_map !! src, path_len_map !! tgt with
    | Some src_len, Some tgt_len =>
      if wrap usize_bits (src_len + normalize_edge_cost w) =? tgt_len
      then copy_edges path_len_map l (add_edge sub src tgt w)
      else copy_edges path_len_map l sub
    | _, _ => copy_edges path_len_map l sub
    end
  end.

Definition gen_next_hop_map_with_least_hop (t : OspfRouteTable) (g : Graph) (start : nat)
    (version : Z) : comp OspfRouteTable :=
  match node_weight g start with
  | None => Ret t
  | Some _ =>
    let path_len_map := pet_dijkstra g start normalize_edge_cost in
    let '(sub, new_start) := copy_nodes start (node_references g) graph_new None in
    let sub := copy_edges path_len_map (edge_references g) sub in
    s ← unwrap new_start;
    gen_next_hop_map_with_least_cost t sub s version
  end.

(** ** Addresses *)

(** [is_new_peer_better] for the peer of the entry being visited. *)
Definition is_new_peer_better (t : OspfRouteTable) (new : PeerIdVersion) (new_len : Z)
    (old : PeerIdVersion) : bool :=
  if pv_version old <? pv_version new then true else
  if pv_peer_id new =? pv_peer_id old then false else
  match get_next_hop t (pv_peer_id old) with
  | None => true
  | Some o => new_len <? path_len o
  end.

(** [entry(k).and_modify(if better v ..).or_insert(new)]. *)
Definition upsert {K} `{Countable K} (better : PeerIdVersion -> bool) (new : PeerIdVersion)
    (k : K) (m : gmap K PeerIdVersion) : gmap K PeerIdVersion :=
  <[k := match m !! k with Some old => if better old then new else old | None => new end]> m.

Fixpoint add_cidrs (my_peer_id peer_id : Z) (local : list (V4Net + V6Net))
    (better : PeerIdVersion -> bool) (new : PeerIdVersion) (l : list (list Z))
    (m : gmap V4Net PeerIdVersion * gmap V6Net PeerIdVersion)
    : gmap V4Net PeerIdVersion * gmap V6Net PeerIdVersion :=
  match l with
  | [] => m
  | s :: l =>
    let m :=
      match parse_cidr s with
      | None => m
      | Some cidr =>
        if negb (peer_id =? my_peer_id) && existsb (cidr_is_subset cidr) local then m else
        let better e := (peer_id =? my_peer_id) || better e in
        match cidr with
        | inl n => (upsert better new n m.1, m.2)
        | inr n => (m.1, upsert better new n m.2)
        end
      end in
    add_cidrs my_peer_id peer_id local better new l m
  end.

Definition opt_upsert (better : PeerIdVersion -> bool) (new : PeerIdVersion) (k : option Z)
    (m : gmap Z PeerIdVersion) : gmap Z PeerIdVersion :=
  match k with Some k => upsert better new k m | None => m end.

(** The loop over the next-hop map; [t] is the table during the loop, whose
    next hops do not change. *)
Fixpoint add_peers (my_peer_id : Z) (sn : OspfRouteSnapshot) (local : list (V4Net + V6Net))
    (l : list (Z * OspfNextHopInfo)) (t : OspfRouteTable)
    (m : gmap V4Net PeerIdVersion * gmap V6Net PeerIdVersion)
    : OspfRouteTable * (gmap V4Net PeerIdVersion * gmap V6Net PeerIdVersion) :=
  match l with
  | [] => (t, m)
  | (peer_id, item) :: l =>
    if nh_version item <? sn_version sn then add_peers my_peer_id sn local l t m else
    if negb (peer_reachable t peer_id) then add_peers my_peer_id sn local l t m else
    match lookup_peer_info sn peer_id with
    | None => add_peers my_peer_id sn local l t m
    | Some info =>
      let new := {| pv_peer_id := peer_id; pv_version := sn_version sn |} in
      let better := is_new_peer_better t new (path_len item) in
      let v6 := opt_upsert better new (ipv6_addr info ≫= v6_address) (ipv6_peer_id_map t) in
      let t' :=
        {| peer_infos := <[peer_id := info]> (peer_infos t);
           next_hop_map := next_hop_map t; suppressed_peer_ids := suppressed_peer_ids t;
           ipv4_peer_id_map := opt_upsert better new (ipv4_addr info) (ipv4_peer_id_map t);
           ipv6_peer_id_map := opt_upsert better new (ipv6_public_addr_lease info ≫= v6_address) v6;
           cidr_peer_id_map := cidr_peer_id_map t; cidr_v6_peer_id_map := cidr_v6_peer_id_map t;
           next_hop_map_version := next_hop_map_version t |} in
      add_peers my_peer_id sn local l t'
        (add_cidrs my_peer_id peer_id local better new (proxy_cidrs info) m)
    end
  end.

Definition build_from_snapshot (t : OspfRouteTable) (my_peer_id : Z) (sn : OspfRouteSnapshot)
    (policy : NextHopPolicy) (calculate_cost : Z -> Z -> Z) : comp OspfRouteTable :=
  let version := sn_version sn in
  let t := sync_suppressed_peer_ids t sn in
  let local_proxy_cidrs :=
    match lookup_peer_info sn my_peer_id with
    | Some info => omap parse_cidr (proxy_cidrs info)
    | None => []
    end in
  let '(graph, start_node) := build_peer_graph_from_snapshot my_peer_id sn calculate_cost in
  if (node_count graph =? 0)%nat then Ret (clean_expired_route_info (set_if_larger t version)) else
  match start_node with
  | None => Ret (clean_expired_route_info (set_if_larger t version))
  | Some start =>
    t ← match policy with
        | LeastHop => gen_next_hop_map_with_least_hop t graph start version
        | LeastCost => gen_next_hop_map_with_least_cost t graph start version
        end;
    let '(t, (c4, c6)) := add_peers my_peer_id sn local_proxy_cidrs (hash_iter (next_hop_map t)) t (∅, ∅) in
    Ret (clean_expired_route_info
      {| peer_infos := peer_infos t; next_hop_map := next_hop_map t;
         suppressed_peer_ids := suppressed_peer_ids t; ipv4_peer_id_map := ipv4_peer_id_map t;
         ipv6_peer_id_map := ipv6_peer_id_map t; cidr_peer_id_map := c4; cidr_v6_peer_id_map := c6;
         next_hop_map_version := next_hop_map_version t |})
  end.
End table.
