(* ===== verification/RouteTableProofs.v ===== *)
(** Properties of the route table: next hops lie on best paths, unreachable
    peers have none, and announced addresses resolve to the nearest peer that
    announces them. *)

From stdpp Require Import list gmap.
From S2P Require Import Prelude RouteGraph RouteMessages RouteTable.
Local Open Scope Z_scope.
Local Set Warnings "-clear-no-such-hyp".

(** ** What the graph library promises *)

(** Nodes are numbered in the order they were added, edges likewise. *)
Class PetGraphLaws {T : Target} (G : PetGraph) := {
  nodes : Graph -> list Z;
  elist : Graph -> list (nat * nat * Z);
  nodes_new : nodes graph_new = [];
  elist_new : elist graph_new = [];
  add_node_index g p : (add_node g p).2 = length (nodes g);
  add_node_nodes g p : nodes (add_node g p).1 = nodes g ++ [p];
  add_node_elist g p : elist (add_node g p).1 = elist g;
  add_edge_nodes g a b w : nodes (add_edge g a b w) = nodes g;
  add_edge_elist g a b w : (a < length (nodes g))%nat -> (b < length (nodes g))%nat ->
    elist (add_edge g a b w) = elist g ++ [(a, b, w)];
  node_weight_nodes g i : node_weight g i = nodes g !! i;
  node_count_nodes g : node_count g = length (nodes g);
  node_references_nodes g : node_references g = zip (seq 0 (length (nodes g))) (nodes g);
  edge_references_elist g : edge_references g = elist g;
  graph_edges_elist g u :
    graph_edges g u ≡ₚ omap (fun '(a, b, w) => if (a =? u)%nat then Some (b, w) else None) (elist g);
  pet_dijkstra_distance g start (cost : Z -> Z) M :
    0 <= usize_bits -> (start < length (nodes g))%nat -> 0 <= M ->
    (forall a b w, (a, b, w) ∈ elist g ->
       (a < length (nodes g))%nat /\ (b < length (nodes g))%nat /\ 0 <= cost w <= M) ->
    (M + 1) * Z.of_nat (length (nodes g)) < 2 ^ usize_bits ->
    forall v d, pet_dijkstra g start cost !! v = Some d <->
      distance (fun a b x => exists w, (a, b, w) ∈ elist g /\ x = cost w) start v d }.

(** ** Walks that are best in one measure and then in another *)

Section measures.
Context {A : Type} (E : A -> A -> Z -> Prop) (s : A) (f : Z -> Z).
Context (Hf : forall u v w, E u v w -> 0 <= f w).

Definition measured (u v : A) (x : Z) : Prop := exists w, E u v w /\ x = f w.

Lemma measured_walk v ws : walk E s v ws -> walk measured s v (map f ws).
Proof. induction 1; [constructor|]. cbn. econstructor; [done|]. by eexists. Qed.
Lemma walk_measured v xs : walk measured s v xs -> exists ws, walk E s v ws /\ xs = map f ws.
Proof.
  induction 1 as [|u v x xs _ (ws & Hw & ->) (w & HE & ->)]; [exists []; by split; [constructor|]|].
  exists (w :: ws). split; [by econstructor|done].
Qed.

Definition tight (u v : A) (w : Z) : Prop :=
  E u v w /\ exists a b, distance measured s u a /\ distance measured s v b /\ a + f w = b.

Lemma distance_unique {B} (R : B -> B -> Z -> Prop) r v a b :
  distance R r v a -> distance R r v b -> a = b.
Proof.
  intros [(w1 & H1 & <-) M1] [(w2 & H2 & <-) M2]. specialize (M1 _ H2). specialize (M2 _ H1). lia.
Qed.

Lemma total_nonneg v xs : walk measured s v xs -> 0 <= path_cost xs.
Proof.
  induction 1 as [|u v x xs _ IH (w & HE & ->)]; [done|]. cbn. specialize (Hf _ _ _ HE).
  fold (path_cost xs). lia.
Qed.

(** A walk of tight edges is a walk that is shortest in the measure. *)
Lemma tight_walk v ws :
  walk tight s v ws <-> walk E s v ws /\ distance measured s v (path_cost (map f ws)).
Proof.
  split.
  - induction 1 as [|u v w ws Hw0 [Hw Hd] [HE (a & b & Ha & Hb & Hab)]].
    + split; [constructor|]. split; [exists []; split; [constructor|done]|]. intros xs Hx. by eapply total_nonneg.
    + split; [by econstructor|]. rewrite (distance_unique _ _ _ _ _ Ha Hd) in Hab. cbn.
      fold (path_cost (map f ws)). by replace (f w + path_cost (map f ws)) with b by lia.
  - intros [Hw Hd0]. revert Hd0. induction Hw as [|u v w ws Hw IH HE]; intros Hd; [constructor|].
    assert (Hu : distance measured s u (path_cost (map f ws))).
    { split; [exists (map f ws); split; [by apply measured_walk|done]|]. intros xs Hx.
      destruct Hd as [_ Hmin]. specialize (Hmin (f w :: xs)). cbn in Hmin. fold (path_cost (map f ws)) (path_cost xs) in Hmin.
      assert (walk measured s v (f w :: xs)) as Hx' by (econstructor; [done|]; by eexists). specialize (Hmin Hx'). lia. }
    econstructor; [by apply IH|]. split; [done|]. exists (path_cost (map f ws)), (path_cost (map f (w :: ws))).
    split_and!; [done|done|]. cbn. fold (path_cost (map f ws)). lia.
Qed.

Lemma tight_via h v ws : walk_via tight s h v ws ->
  walk_via E s h v ws /\ distance measured s v (path_cost (map f ws)).
Proof.
  intros Hv. split.
  - apply (walk_via_map tight E id); [|done]. by intros ? ? ? [? _].
  - by apply tight_walk, (via_walk _ _ h).
Qed.
End measures.

(** ** Graphs *)

Section graphs.
Context {T : Target} {G : PetGraph} {GL : PetGraphLaws G}.

Definition gedge (g : Graph) (a b : nat) (w : Z) : Prop := (a, b, w) ∈ elist g.
Record graph_ok (g : Graph) (M : Z) : Prop := {
  g_src : forall a b w, gedge g a b w -> (a < length (nodes g))%nat;
  g_dst : forall a b w, gedge g a b w -> (b < length (nodes g))%nat;
  g_cost : forall a b w, gedge g a b w -> 0 <= w <= M }.

Lemma edge_of_gedge g u v w : edge_of (graph_edges g) u v w <-> gedge g u v w.
Proof.
  unfold edge_of, gedge. rewrite graph_edges_elist, list_elem_of_omap. split.
  - intros ([[a b] x] & Hin & E). case_match; [|done]. apply Nat.eqb_eq in H as ->. by simplify_eq.
  - intros Hin. exists (u, v, w). split; [done|]. by rewrite Nat.eqb_refl.
Qed.

Lemma sum_indicator (a : nat) (k : nat -> nat) l : NoDup l ->
  (sum_list_with (fun u => (if (a =? u)%nat then 1 else 0) + k u) l <= 1 + sum_list_with k l)%nat.
Proof.
  intros Hl. assert (Hn : forall l', a ∉ l' ->
    sum_list_with (fun u => (if (a =? u)%nat then 1 else 0) + k u)%nat l' = sum_list_with k l').
  { induction l' as [|x l' IH]; [done|]. intros [Hx Hl']%not_elem_of_cons. cbn.
    rewrite IH by done. by rewrite (proj2 (Nat.eqb_neq _ _)). }
  induction Hl as [|x l Hx Hl IH]; cbn; [lia|]. destruct (Nat.eqb_spec a x) as [->|Hne]; [|lia].
  rewrite Hn by done. lia.
Qed.

Lemma edge_count_le g n : (edge_count (graph_edges g) n <= length (elist g))%nat.
Proof.
  assert (E : edge_count (graph_edges g) n = sum_list_with (fun u => length
    (omap (fun '(a, b, w) => if (a =? u)%nat then Some (b, w : Z) else None) (elist g))) (seq 0 n)).
  { unfold edge_count. generalize (seq 0 n). induction l as [|u l IH]; [done|]. cbn.
    by rewrite IH, graph_edges_elist. }
  rewrite E. clear E. induction (elist g) as [|[[a b] w] l IH]; cbn [length].
  - generalize (seq 0 n). induction l as [|u l IHl]; [done|]. exact IHl.
  - etrans; [|apply le_n_S, IH]. etrans; [|apply (sum_indicator a), NoDup_seq]. apply Nat.eq_le_incl.
    generalize (seq 0 n). induction l0 as [|u l0 IHl]; [done|]. cbn [sum_list_with]. rewrite IHl. cbn [omap list_omap].
    by destruct (a =? u)%nat.
Qed.

(** Walks stay inside the graph. *)
Lemma walk_node g M s v ws : graph_ok g M -> (s < length (nodes g))%nat ->
  walk (gedge g) s v ws -> (v < length (nodes g))%nat.
Proof. intros Hg Hs. destruct 1; [done|]. by eapply (g_dst _ _ Hg). Qed.
Lemma via_node g M s h v ws : graph_ok g M -> walk_via (gedge g) s h v ws -> (h < length (nodes g))%nat.
Proof. intros Hg. induction 1; [|done]. by eapply (g_dst _ _ Hg). Qed.

Lemma walk_ext {A} (E E' : A -> A -> Z -> Prop) s v ws :
  (forall u v w, E u v w <-> E' u v w) -> walk E s v ws <-> walk E' s v ws.
Proof. intros HE. split; apply (walk_map _ _ id); intros ? ? ?; by rewrite HE. Qed.
Lemma distance_ext {A} (E E' : A -> A -> Z -> Prop) s v d :
  (forall u v w, E u v w <-> E' u v w) -> distance E s v d <-> distance E' s v d.
Proof. intros HE. unfold distance. by setoid_rewrite (walk_ext E E' s v _ HE). Qed.

(** The search on a graph. *)
Lemma graph_dijkstra `{HL : !MinHeapLaws H} g M start :
  0 <= usize_bits -> graph_ok g M -> (start < length (nodes g))%nat -> 0 <= M ->
  (M + 1) * Z.of_nat (length (nodes g)) < 2 ^ usize_bits ->
  exists costs hops,
    dijkstra_with_first_hop (graph_edges g) start (S (length (edge_references g))) =
      Ret (Some (costs, hops)) /\
    (forall v, is_Some (hops !! v) <-> exists ws, walk (gedge g) start v ws) /\
    hops !! start = Some (start, 0) /\ costs !! start = Some 0 /\
    (forall v h l, hops !! v = Some (h, l) -> v <> start ->
       exists ws, walk_via (gedge g) start h v ws /\ len ws = l /\ costs !! v = Some (path_cost ws) /\
         distance (gedge g) start v (path_cost ws)).
Proof.
  intros Hb Hg Hs HM Hfit.
  destruct (dijkstra_total (graph_edges g) start (length (nodes g)) (S (length (edge_references g))) M)
    as (costs & hops & E & [S1 S2 S3 S4 S5] & _); try done.
  { intros u v w Hu Hin. change (edge_of (graph_edges g) u v w) in Hin. apply edge_of_gedge in Hin.
    split; [by eapply (g_dst _ _ Hg)|by eapply (g_cost _ _ Hg)]. }
  { rewrite edge_references_elist. apply le_n_S, edge_count_le. }
  exists costs, hops. split; [done|].
  assert (HE : forall u v w, edge_of (graph_edges g) u v w <-> gedge g u v w) by apply edge_of_gedge.
  split_and!; [| |apply S1|].
  - intros v. rewrite S2, S3. by setoid_rewrite (walk_ext _ _ start v _ HE).
  - done.
  - split; [exists []; by split; [constructor|]|]. intros ws Hw. clear -Hw Hg HE.
    induction Hw as [|u v w ws _ IH Hin]; [done|]. apply HE, (g_cost _ _ Hg) in Hin. cbn. fold (path_cost ws). lia.
  - intros v h l Eh Hv. destruct (S5 v h l Eh Hv) as (ws & Hvia & El & Hd). exists ws.
    split_and!; [|done|by apply S1|by apply (distance_ext _ _ start v _ HE)].
    eapply (walk_via_map _ _ id); [|exact Hvia]. intros ? ? ?. by rewrite HE.
Qed.
End graphs.

(** ** Storing next hops *)

Section next_hops.
Context {T : Target} {H : MinHeap} {HL : MinHeapLaws H} {G : PetGraph} {GL : PetGraphLaws G}
  {N : RouteNet} {O : HashOrder}.

(** The table entry of a search result. *)
Definition stored (g : Graph) (costs : gmap nat Z) (version : Z) (p : Z) (e : nat * (nat * Z))
    (info : OspfNextHopInfo) : Prop :=
  exists hp c, nodes g !! e.1 = Some p /\ nodes g !! e.2.1 = Some hp /\ costs !! e.1 = Some c /\
    info = {| next_hop_peer_id := hp; path_latency := c mod AVOID_RELAY_COST; path_len := e.2.2;
              nh_version := version |}.

Lemma store_next_hops_spec g costs version l : forall m,
  (forall e, e ∈ l -> exists p info, stored g costs version p e info) ->
  exists m', store_next_hops g costs version l m = Ret m' /\
    (forall p info, m' !! p = Some info ->
       m !! p = Some info \/ exists e, e ∈ l /\ stored g costs version p e info) /\
    (forall p, (exists info, m !! p = Some info /\ version <= nh_version info) \/
               (exists e info, e ∈ l /\ stored g costs version p e info) ->
       exists info, m' !! p = Some info /\ version <= nh_version info).
Proof.
  induction l as [|[dst [h k]] l IH]; intros m Hl; cbn [store_next_hops].
  { exists m. split_and!; [done|by auto|]. by intros p [?|(? & ? & ?%elem_of_nil & _)]. }
  destruct (Hl (dst, (h, k))) as (p & info & hp & c & Ep & Eh & Ec & ->); [by left|]. cbn in *.
  rewrite !node_weight_nodes, Ep, Eh, Ec. cbn [unwrap mbind comp_bind].
  set (info := {| next_hop_peer_id := hp; path_latency := _; path_len := _; nh_version := _ |}).
  assert (Hst : stored g costs version p (dst, (h, k)) info) by (by exists hp, c).
  set (info' := match m !! p with Some x => _ | None => _ end).
  assert (Hinfo' : info' = info \/ m !! p = Some info').
  { unfold info'. destruct (m !! p) as [x|]; [|by left]. destruct (nh_version x <? version); auto. }
  assert (Hver : version <= nh_version info').
  { unfold info'. destruct (m !! p) as [x|]; [|done]. destruct (Z.ltb_spec (nh_version x) version); [done|lia]. }
  destruct (IH (<[p := info']> m)) as (m' & -> & H1 & H2).
  { intros e He. apply Hl. by right. }
  exists m'. split; [done|]. split.
  - intros q i Hq. destruct (H1 q i Hq) as [[[<- <-]|[_ Hm]]%lookup_insert_Some|(e & He & Hs)].
    + destruct Hinfo' as [->|?]; [|by left]. right. exists (dst, (h, k)). split; [by left|done].
    + by left.
    + right. exists e. split; [by right|done].
  - intros q Hq. apply H2. destruct (decide (q = p)) as [->|Hne].
    { left. exists info'. by rewrite lookup_insert_eq. }
    rewrite lookup_insert_ne by done. destruct Hq as [Hq|(e & i & [->|He]%elem_of_cons & Hs)]; [by left| |by right; eauto].
    destruct Hs as (? & ? & Ep' & _). cbn in Ep'. congruence.
Qed.

(** What the table says about the peer at a node. *)
Definition next_hop_of (E : nat -> nat -> Z -> Prop) (g : Graph) (start : nat) (version p : Z)
    (info : OspfNextHopInfo) : Prop :=
  nh_version info = version /\
  exists v, nodes g !! v = Some p /\
    (v <> start -> exists h ws, walk_via E start h v ws /\
       nodes g !! h = Some (next_hop_peer_id info) /\ path_len info = len ws /\
       path_latency info = path_cost ws mod AVOID_RELAY_COST /\ distance E start v (path_cost ws)).

(** A table all of whose entries are older than [version]. *)
Definition older_than (version : Z) (t : OspfRouteTable) : Prop :=
  next_hop_map_version t <= version /\
  forall p info, next_hop_map t !! p = Some info -> nh_version info < version.

Lemma least_cost_spec g M start version t :
  0 <= usize_bits -> graph_ok g M -> (start < length (nodes g))%nat -> 0 <= M ->
  (M + 1) * Z.of_nat (length (nodes g)) < 2 ^ usize_bits -> older_than version t ->
  exists m, gen_next_hop_map_with_least_cost t g start version = Ret (with_next_hops t m version) /\
    (forall p info, get_topology_next_hop (with_next_hops t m version) p = Some info ->
       next_hop_of (gedge g) g start version p info) /\
    (forall v p ws, walk (gedge g) start v ws -> nodes g !! v = Some p ->
       is_Some (get_topology_next_hop (with_next_hops t m version) p)).
Proof.
  intros Hb Hg Hs HM Hfit [Hold Hfresh]. unfold gen_next_hop_map_with_least_cost.
  rewrite node_weight_nodes. destruct (lookup_lt_is_Some_2 _ _ Hs) as [me Eme]. rewrite Eme.
  destruct (graph_dijkstra g M start Hb Hg Hs HM Hfit) as (costs & hops & -> & Hreach & Hst & Hcs & Hhops).
  cbn [unwrap mbind comp_bind].
  assert (Hord : forall e, e ∈ hash_iter hops <-> hops !! e.1 = Some e.2).
  { intros [v x]. by rewrite hash_iter_perm, elem_of_map_to_list. }
  assert (Hnode : forall v p ws, walk (gedge g) start v ws -> nodes g !! v = Some p ->
    exists h l info, hops !! v = Some (h, l) /\ stored g costs version p (v, (h, l)) info).
  { intros v p ws Hw Ep. destruct (proj2 (Hreach v)) as [[h l] Eh]; [by eauto|]. exists h, l.
    destruct (decide (v = start)) as [->|Hne].
    - rewrite Hst in Eh. injection Eh as <- <-. eexists. split; [done|]. by exists p, 0.
    - destruct (Hhops v h l Eh Hne) as (ws' & Hvia & El & Ec & _).
      destruct (lookup_lt_is_Some_2 (nodes g) h) as [hp Ehp]; [by eapply via_node|].
      eexists. split; [done|]. by exists hp, (path_cost ws'). }
  destruct (store_next_hops_spec g costs version (hash_iter hops) (next_hop_map t)) as (m & -> & Hm1 & Hm2).
  { intros [v [h l]] He. apply Hord in He. cbn in He. destruct (proj1 (Hreach v)) as [ws Hw]; [by eexists|].
    destruct (lookup_lt_is_Some_2 (nodes g) v) as [p Ep]; [by eapply walk_node|].
    destruct (Hnode v p ws Hw Ep) as (h' & l' & info & Eh & Hs'). simplify_eq. by eauto. }
  cbn [mbind comp_bind]. exists m. rewrite Z.max_r by done. split; [done|].
  unfold get_topology_next_hop. cbn [next_hop_map with_next_hops next_hop_map_version]. split.
  - intros p info. destruct (m !! p) as [x|] eqn:Ex; [|done].
    destruct (Z.leb_spec version (nh_version x)) as [Hle|]; [|done]. intros [= ->].
    destruct (Hm1 p info Ex) as [Hx|([v [h l]] & He & hp & c & Ep & Ehp & Ec & ->)]; [apply Hfresh in Hx; lia|].
    apply Hord in He. cbn in *. split; [done|]. exists v. split; [done|]. intros Hne.
    destruct (Hhops v h l He Hne) as (ws & Hvia & El & Ec' & Hd). exists h, ws.
    rewrite Ec in Ec'. injection Ec' as ->. by split_and!.
  - intros v p ws Hw Ep. destruct (Hnode v p ws Hw Ep) as (h & l & info & Eh & Hs').
    destruct (Hm2 p) as (i & -> & Hle).
    { right. exists (v, (h, l)), info. split; [by apply Hord|done]. }
    rewrite (proj2 (Z.leb_le _ _)) by done. by eexists.
Qed.
End next_hops.

(** ** The graph of shortest-hop edges *)

Section least_hop.
Context {T : Target} {H : MinHeap} {HL : MinHeapLaws H} {G : PetGraph} {GL : PetGraphLaws G}
  {N : RouteNet} {O : HashOrder}.

Lemma copy_nodes_spec start l : forall k sub ns, length (nodes sub) = k ->
  let '(sub', ns') := copy_nodes start (zip (seq k (length l)) l) sub ns in
  nodes sub' = nodes sub ++ l /\ elist sub' = elist sub /\
  ns' = if (k <=? start)%nat && (start <? k + length l)%nat then Some start else ns.
Proof.
  induction l as [|p l IH]; intros k sub ns Hk; cbn [copy_nodes length seq zip zip_with].
  { rewrite app_nil_r. split_and!; [done|done|]. destruct (Nat.leb_spec k start), (Nat.ltb_spec start (k + 0)); [lia|done..]. }
  pose proof (add_node_index sub p) as Ei. pose proof (add_node_nodes sub p) as En. pose proof (add_node_elist sub p) as Ee.
  destruct (add_node sub p) as [sub1 i]. cbn in Ei, En, Ee.
  specialize (IH (S k) sub1 (if (k =? start)%nat then Some i else ns)).
  destruct (copy_nodes start _ sub1 _) as [sub' ns']. destruct IH as (E1 & E2 & ->).
  { rewrite En, length_app, Hk. cbn. lia. }
  rewrite E1, E2, En, <- app_assoc. split_and!; [done|done|].
  destruct (Nat.eqb_spec k start) as [->|Hne].
  - rewrite (proj2 (Nat.leb_gt (S start) start)) by lia. cbn [andb].
    rewrite Nat.leb_refl, (proj2 (Nat.ltb_lt _ _)) by lia. cbn. by rewrite Ei, Hk.
  - destruct (Nat.leb_spec (S k) start), (Nat.leb_spec k start); try lia; cbn [andb]; [|done].
    by replace (S k + length l)%nat with (k + S (length l))%nat by lia.
Qed.

Lemma copy_edges_spec plm l : forall sub,
  (forall a b w, (a, b, w) ∈ l -> (a < length (nodes sub))%nat /\ (b < length (nodes sub))%nat) ->
  nodes (copy_edges plm l sub) = nodes sub /\
  forall a b w, (a, b, w) ∈ elist (copy_edges plm l sub) <-> (a, b, w) ∈ elist sub \/
    ((a, b, w) ∈ l /\ exists la lb, plm !! a = Some la /\ plm !! b = Some lb /\
       wrap usize_bits (la + normalize_edge_cost w) = lb).
Proof.
  induction l as [|[[x y] z] l IH]; intros sub Hl; cbn [copy_edges].
  { split; [done|]. intros a b w. split; [by left|]. by intros [?|[?%elem_of_nil _]]. }
  assert (Hl' : forall a b w, (a, b, w) ∈ l -> (a < length (nodes sub))%nat /\ (b < length (nodes sub))%nat).
  { intros a b w Hin. apply (Hl a b w). by right. }
  set (keeps := exists la lb, plm !! x = Some la /\ plm !! y = Some lb /\ wrap usize_bits (la + normalize_edge_cost z) = lb).
  assert (Hcase : (keeps /\ copy_edges plm ((x, y, z) :: l) sub = copy_edges plm l (add_edge sub x y z)) \/
    (~ keeps /\ copy_edges plm ((x, y, z) :: l) sub = copy_edges plm l sub)).
  { cbn [copy_edges]. unfold keeps. destruct (plm !! x) as [la|]; [destruct (plm !! y) as [lb|]|].
    - destruct (Z.eqb_spec (wrap usize_bits (la + normalize_edge_cost z)) lb) as [E|E]; [left|right]; split; eauto.
      intros (? & ? & [= <-] & [= <-] & ?). done.
    - right. split; [|done]. by intros (? & ? & _ & ? & _).
    - right. split; [|done]. by intros (? & ? & ? & _). }
  change (match plm !! x with Some _ => _ | None => _ end) with (copy_edges plm ((x, y, z) :: l) sub).
  destruct Hcase as [[Hk ->]|[Hk ->]].
  - destruct (Hl x y z) as [Hx Hy]; [by left|].
    destruct (IH (add_edge sub x y z)) as [E1 E2]; [by rewrite add_edge_nodes|].
    rewrite E1, add_edge_nodes. split; [done|]. intros a b w. rewrite E2, (add_edge_elist sub x y z Hx Hy).
    rewrite elem_of_app, list_elem_of_singleton, elem_of_cons. split.
    + intros [[?|[= -> -> ->]]|[? ?]]; auto.
    + intros [?|[[[= -> -> ->]|?] ?]]; auto.
  - destruct (IH sub Hl') as [E1 E2]. split; [done|]. intros a b w. rewrite E2, elem_of_cons. split.
    + intros [?|[? ?]]; auto.
    + intros [?|[[[= -> -> ->]|?] ?]]; auto. by destruct Hk.
Qed.

(** Reachable nodes have a distance in any bounded measure. *)
Lemma measured_distances g f M start v ws :
  0 <= usize_bits -> (start < length (nodes g))%nat -> 0 <= M ->
  (forall a b w, gedge g a b w ->
     (a < length (nodes g))%nat /\ (b < length (nodes g))%nat /\ 0 <= f w <= M) ->
  (M + 1) * Z.of_nat (length (nodes g)) < 2 ^ usize_bits -> walk (gedge g) start v ws ->
  exists d, distance (measured (gedge g) f) start v d /\ 0 <= d <= M * Z.of_nat (length (nodes g)).
Proof.
  intros Hb Hs HM Hbd Hfit Hw. set (edges := fun u => map (fun e => (e.1, f e.2)) (graph_edges g u)).
  assert (HE : forall a b x, edge_of edges a b x <-> measured (gedge g) f a b x).
  { intros a b x. unfold edge_of, edges, measured. setoid_rewrite <- edge_of_gedge. unfold edge_of.
    rewrite list_elem_of_In, in_map_iff. setoid_rewrite <- list_elem_of_In. split.
    - intros ([y w] & [= <- <-] & Hin). by eauto.
    - intros (w & Hin & ->). by exists (b, w). }
  destruct (dijkstra_total (H:=list_heap) edges start (length (nodes g)) (S (edge_count edges (length (nodes g)))) M)
    as (sc & fh & _ & [S1 _ S3 _ _] & Hd); try done.
  { intros u x w _ (w' & Hin & ->)%HE. by destruct (Hbd _ _ _ Hin) as (_ & ? & ?). }
  destruct (proj2 (S3 v)) as [d Ed].
  { exists (map f ws). apply (walk_ext _ _ _ _ _ HE). by apply measured_walk. }
  exists d. split; [|by apply (Hd v)]. apply (distance_ext _ _ _ _ _ HE). by apply S1.
Qed.

Lemma normalize_range M w : 0 <= w <= M -> 0 < normalize_edge_cost w <= M + 1.
Proof.
  unfold normalize_edge_cost. destruct (Z.leb_spec AVOID_RELAY_COST w); unfold AVOID_RELAY_COST in *; lia.
Qed.
Lemma normalize_pos w : 0 < normalize_edge_cost w.
Proof. unfold normalize_edge_cost, AVOID_RELAY_COST. destruct (_ <=? _); lia. Qed.

Lemma normalized_bounds g M : graph_ok g M ->
  forall a b w, gedge g a b w -> (a < length (nodes g))%nat /\ (b < length (nodes g))%nat /\
    0 <= normalize_edge_cost w <= M + 1.
Proof.
  intros Hg a b w Hin. pose proof (normalize_range M w (g_cost _ _ Hg _ _ _ Hin)).
  split_and!; [by eapply (g_src _ _ Hg)|by eapply (g_dst _ _ Hg)|lia|lia].
Qed.

(** The subgraph has the nodes of the graph and its tight edges. *)
Lemma subgraph_spec g M start :
  0 <= usize_bits -> graph_ok g M -> (start < length (nodes g))%nat -> 0 <= M ->
  (M + 2) * (Z.of_nat (length (nodes g)) + 1) < 2 ^ usize_bits ->
  let '(sub, ns) := copy_nodes start (node_references g) graph_new None in
  let sub := copy_edges (pet_dijkstra g start normalize_edge_cost) (edge_references g) sub in
  ns = Some start /\ nodes sub = nodes g /\
  forall a b w, gedge sub a b w <-> tight (gedge g) start normalize_edge_cost a b w.
Proof.
  intros Hb Hg Hs HM Hfit. rewrite node_references_nodes, edge_references_elist.
  pose proof (copy_nodes_spec start (nodes g) 0 graph_new None) as Hc. rewrite nodes_new in Hc.
  destruct (copy_nodes start _ graph_new None) as [sub ns]. destruct (Hc eq_refl) as (En & Ee & ->).
  cbn [Nat.leb andb Nat.add app] in *. rewrite (proj2 (Nat.ltb_lt _ _)) by done. split; [done|].
  pose proof (normalized_bounds g M Hg) as Hbd.
  assert (HK : (M + 1 + 1) * Z.of_nat (length (nodes g)) < 2 ^ usize_bits) by lia.
  assert (Hp : forall v d, pet_dijkstra g start normalize_edge_cost !! v = Some d <->
    distance (measured (gedge g) normalize_edge_cost) start v d).
  { intros v d. apply (pet_dijkstra_distance g start normalize_edge_cost (M + 1)); try done; lia. }
  assert (Hrange : forall v d, distance (measured (gedge g) normalize_edge_cost) start v d ->
    0 <= d <= (M + 1) * Z.of_nat (length (nodes g))).
  { intros v d Hd. destruct Hd as [(xs & Hw & Ed) Hmin]. destruct (walk_measured _ _ _ _ _ Hw) as (ws & Hws & ->).
    destruct (measured_distances g normalize_edge_cost (M + 1) start v ws) as (d' & Hd' & Hr); try done; try lia.
    by rewrite (distance_unique _ _ _ d d' (conj (ex_intro _ _ (conj Hw Ed)) Hmin) Hd'). }
  destruct (copy_edges_spec (pet_dijkstra g start normalize_edge_cost) (elist g) sub) as [E1 E2].
  { intros a b w Hin. rewrite En. split; [by eapply (g_src _ _ Hg)|by eapply (g_dst _ _ Hg)]. }
  split; [by rewrite E1, En|]. intros a b w. unfold gedge at 1. rewrite E2, Ee, elist_new.
  assert (Hwrap : forall la, gedge g a b w -> distance (measured (gedge g) normalize_edge_cost) start a la ->
    wrap usize_bits (la + normalize_edge_cost w) = la + normalize_edge_cost w).
  { intros la Hin Hla. apply Hrange in Hla. destruct (Hbd _ _ _ Hin) as (_ & _ & Hn). apply wrap_small.
    unfold in_range. lia. }
  unfold tight. split.
  - intros [[]%elem_of_nil|[Hin (la & lb & Ha%Hp & Hb'%Hp & Hab)]]. split; [done|]. exists la, lb.
    rewrite Hwrap in Hab by done. by split_and!.
  - intros [Hin (la & lb & Ha & Hb' & Hab)]. right. split; [done|]. exists la, lb.
    rewrite Hwrap by done. split_and!; [by apply Hp|by apply Hp|done].
Qed.

Lemma least_hop_spec g M start version t :
  0 <= usize_bits -> graph_ok g M -> (start < length (nodes g))%nat -> 0 <= M ->
  (M + 2) * (Z.of_nat (length (nodes g)) + 1) < 2 ^ usize_bits -> older_than version t ->
  exists m, gen_next_hop_map_with_least_hop t g start version = Ret (with_next_hops t m version) /\
    (forall p info, get_topology_next_hop (with_next_hops t m version) p = Some info ->
       next_hop_of (tight (gedge g) start normalize_edge_cost) g start version p info) /\
    (forall v p ws, walk (gedge g) start v ws -> nodes g !! v = Some p ->
       is_Some (get_topology_next_hop (with_next_hops t m version) p)).
Proof.
  intros Hb Hg Hs HM Hfit Hold. unfold gen_next_hop_map_with_least_hop.
  rewrite node_weight_nodes. destruct (lookup_lt_is_Some_2 _ _ Hs) as [me ->].
  pose proof (subgraph_spec g M start Hb Hg Hs HM Hfit) as Hsub.
  destruct (copy_nodes _ _ _ _) as [sub0 ns]. set (sub := copy_edges _ _ _) in *.
  destruct Hsub as (-> & En & HE). cbn [unwrap mbind comp_bind].
  assert (Hg' : graph_ok sub M).
  { split; intros a b w [Hin _]%HE; rewrite ?En; [by eapply (g_src _ _ Hg)|by eapply (g_dst _ _ Hg)|by eapply (g_cost _ _ Hg)]. }
  destruct (least_cost_spec sub M start version t) as (m & -> & Hm1 & Hm2); rewrite ?En; try done; try lia.
  exists m. split; [done|]. split.
  - intros p info Hi. destruct (Hm1 p info Hi) as (Hv & v & Ev & Hnext). rewrite En in Ev. split; [done|].
    exists v. split; [done|]. intros Hne. destruct (Hnext Hne) as (h & ws & Hvia & Eh & El & Ec & Hd).
    exists h, ws. rewrite En in Eh. split_and!; try done; [|by apply (distance_ext _ _ _ _ _ HE)].
    eapply (walk_via_map _ _ id); [|exact Hvia]. intros ? ? ?. by rewrite HE.
  - intros v p ws Hw Ev.
    destruct (measured_distances g normalize_edge_cost (M + 1) start v ws) as (d & Hd & _); try done; try lia.
    { by apply normalized_bounds. }
    destruct Hd as [(xs & Hx & Ed) Hmin]. destruct (walk_measured _ _ _ _ _ Hx) as (ws' & Hw' & ->).
    apply (Hm2 v p ws'); [|by rewrite En]. apply (walk_ext _ _ _ _ _ HE). apply tight_walk.
    { intros a b w _. pose proof (normalize_pos w). lia. }
    split; [done|]. rewrite Ed. split; [by eauto|done].
Qed.
End least_hop.

(** ** The graph of a snapshot *)

Section snapshot.
Context {T : Target} {H : MinHeap} {HL : MinHeapLaws H} {G : PetGraph} {GL : PetGraphLaws G}
  {N : RouteNet} {O : HashOrder}.
Context (me : Z) (sn : OspfRouteSnapshot) (calc : Z -> Z -> Z).

Definition has_node (p : Z) : Prop :=
  exists info, (p, info) ∈ sn_peer_infos sn /\ version info <> 0.

(** The network the table is meant to route in: one link per announced
    connection between known peers; suppressed peers do not relay. *)
Definition link (src dst : Z) (w : Z) : Prop :=
  has_node src /\ has_node dst /\ (src = me \/ src ∉ sn_suppressed_peer_ids sn) /\
  dst ∈ default [] (lookup_connected_peers sn src) /\ w = edge_cost sn calc src dst.

Lemma add_nodes_spec l : forall g idx start,
  (forall p i, idx !! p = Some i -> nodes g !! i = Some p) -> start = idx !! me ->
  let '(g', idx', start') := add_nodes me l g idx start in
  elist g' = elist g /\ (length (nodes g') <= length (nodes g) + length l)%nat /\
  (forall p i, idx' !! p = Some i -> nodes g' !! i = Some p) /\ start' = idx' !! me /\
  (forall p, is_Some (idx' !! p) <->
     is_Some (idx !! p) \/ exists info, (p, info) ∈ l /\ version info <> 0).
Proof.
  induction l as [|[p info] l IH]; intros g idx start Hidx Hst; cbn [add_nodes].
  { split_and!; try done; [cbn; lia|]. intros p. split; [by left|]. by intros [?|(? & ?%elem_of_nil & _)]. }
  destruct (Z.eqb_spec (version info) 0) as [Hz|Hz].
  - specialize (IH g idx start Hidx Hst). destruct (add_nodes me l g idx start) as [[g' idx'] start'].
    destruct IH as (E1 & E2 & E3 & E4 & E5). split_and!; try done; [cbn; lia|]. intros q. rewrite E5. split.
    + intros [?|(i & Hi & ?)]; [by left|]. right. exists i. split; [by right|done].
    + intros [?|(i & [[= -> ->]|Hi]%elem_of_cons & ?)]; [by left|done|]. right. by eauto.
  - pose proof (add_node_index g p) as Ei. pose proof (add_node_nodes g p) as En. pose proof (add_node_elist g p) as Ee.
    destruct (add_node g p) as [g1 i]. cbn in Ei, En, Ee.
    specialize (IH g1 (<[p := i]> idx) (if p =? me then Some i else start)).
    destruct (add_nodes me l g1 _ _) as [[g' idx'] start']. destruct IH as (E1 & E2 & E3 & E4 & E5).
    { intros q j [[<- <-]|[Hne Hq]]%lookup_insert_Some; rewrite En; [by rewrite Ei, list_lookup_middle|].
      apply lookup_app_l_Some. by apply Hidx. }
    { destruct (Z.eqb_spec p me) as [->|Hne]; [by rewrite lookup_insert_eq|by rewrite lookup_insert_ne]. }
    split_and!; try done; [by rewrite E1|rewrite En, length_app in E2; cbn in *; lia|].
    intros q. rewrite E5. split.
    + intros [Hq|(j & Hj & ?)]; [|right; exists j; split; [by right|done]].
      destruct (decide (q = p)) as [->|Hne]; [right; exists info; split; [by left|done]|].
      rewrite lookup_insert_ne in Hq by done. by left.
    + intros [Hq|(j & [[= -> ->]|Hj]%elem_of_cons & ?)]; [|left; rewrite lookup_insert_eq; by eexists|right; by eauto].
      left. destruct (decide (q = p)) as [->|Hne]; [rewrite lookup_insert_eq; by eexists|by rewrite lookup_insert_ne].
Qed.

Lemma add_links_spec idx src i l : forall g,
  (i < length (nodes g))%nat -> (forall p j, idx !! p = Some j -> (j < length (nodes g))%nat) ->
  nodes (add_links sn calc idx src i l g) = nodes g /\
  forall a b w, (a, b, w) ∈ elist (add_links sn calc idx src i l g) <-> (a, b, w) ∈ elist g \/
    (a = i /\ exists dst, dst ∈ l /\ idx !! dst = Some b /\ w = edge_cost sn calc src dst).
Proof.
  induction l as [|dst l IH]; intros g Hi Hidx; cbn [add_links].
  { split; [done|]. intros a b w. split; [by left|]. by intros [?|(_ & ? & ?%elem_of_nil & _)]. }
  destruct (idx !! dst) as [j|] eqn:Ej.
  - destruct (IH (add_edge g i j (edge_cost sn calc src dst))) as [E1 E2]; [by rewrite add_edge_nodes..|].
    rewrite E1, add_edge_nodes. split; [done|]. intros a b w.
    rewrite E2, add_edge_elist, elem_of_app, list_elem_of_singleton by eauto. split.
    + intros [[?|[= -> -> ->]]|(-> & d & Hd & ? & ?)]; [by left| |].
      * right. split; [done|]. exists dst. split; [by left|done].
      * right. split; [done|]. exists d. split; [by right|done].
    + intros [?|(-> & d & [->|Hd]%elem_of_cons & Eb & ->)]; [by auto| |right; by eauto 10].
      left. right. congruence.
  - destruct (IH g Hi Hidx) as [E1 E2]. split; [done|]. intros a b w. rewrite E2. split.
    + intros [?|(-> & d & Hd & ? & ?)]; [by left|]. right. split; [done|]. exists d. split; [by right|done].
    + intros [?|(-> & d & [->|Hd]%elem_of_cons & Eb & ->)]; [by auto|congruence|right; by eauto 10].
Qed.

Lemma add_sources_spec idx l : forall g,
  (forall p j, (p, j) ∈ l -> (j < length (nodes g))%nat) ->
  (forall p j, idx !! p = Some j -> (j < length (nodes g))%nat) ->
  nodes (add_sources me sn calc idx l g) = nodes g /\
  forall a b w, (a, b, w) ∈ elist (add_sources me sn calc idx l g) <-> (a, b, w) ∈ elist g \/
    exists src dst, (src, a) ∈ l /\ (src = me \/ src ∉ sn_suppressed_peer_ids sn) /\
      dst ∈ default [] (lookup_connected_peers sn src) /\ idx !! dst = Some b /\
      w = edge_cost sn calc src dst.
Proof.
  induction l as [|[src i] l IH]; intros g Hl Hidx; cbn [add_sources].
  { split; [done|]. intros a b w. split; [by left|]. by intros [?|(? & ? & ?%elem_of_nil & _)]. }
  assert (Hl' : forall p j, (p, j) ∈ l -> (j < length (nodes g))%nat) by (intros p j Hp; apply (Hl p j); by right).
  destruct (negb (src =? me) && bool_decide (src ∈ sn_suppressed_peer_ids sn)) eqn:Esk.
  - apply andb_true_iff in Esk as [Hne Hs]. apply negb_true_iff, Z.eqb_neq in Hne. apply bool_decide_eq_true in Hs.
    destruct (IH g Hl' Hidx) as [E1 E2]. split; [done|]. intros a b w. rewrite E2. split.
    + intros [?|(s & d & Hin & ?)]; [by left|]. right. exists s, d. split; [by right|done].
    + intros [?|(s & d & [[= -> ->]|Hin]%elem_of_cons & Hok & ?)]; [by left|by destruct Hok|right; by eauto 10].
  - assert (Hok : src = me \/ src ∉ sn_suppressed_peer_ids sn).
    { apply andb_false_iff in Esk as [Hq|Hq]; [left|right].
      - by apply negb_false_iff, Z.eqb_eq in Hq.
      - by apply bool_decide_eq_false in Hq. }
    destruct (add_links_spec idx src i (default [] (lookup_connected_peers sn src)) g) as [E1 E2]; [apply (Hl src); by left|done|].
    destruct (IH (add_links sn calc idx src i (default [] (lookup_connected_peers sn src)) g)) as [E3 E4]; [by rewrite E1..|].
    rewrite E3, E1. split; [done|]. intros a b w. rewrite E4, E2. split.
    + intros [[?|(-> & d & Hd & Eb & ->)]|(s & d & Hin & ?)]; [by left| |].
      * right. exists src, d. split_and!; [by left|done..].
      * right. exists s, d. split; [by right|done].
    + intros [?|(s & d & [[= -> ->]|Hin]%elem_of_cons & Hok' & Hd & Eb & ->)]; [by auto| |right; exists s, d; by auto].
      left. right. split; [done|]. exists d. by split_and!.
Qed.

(** The graph represents the network. *)
Record represents (g : Graph) (idx : gmap Z nat) : Prop := {
  r_node : forall p i, idx !! p = Some i -> nodes g !! i = Some p;
  r_known : forall p, is_Some (idx !! p) <-> has_node p;
  r_edge : forall a b w, gedge g a b w <->
    exists src dst, idx !! src = Some a /\ idx !! dst = Some b /\ link src dst w;
  r_size : (length (nodes g) <= length (sn_peer_infos sn))%nat }.

Lemma build_graph_spec : has_node me ->
  exists g s idx, build_peer_graph_from_snapshot me sn calc = (g, Some s) /\
    represents g idx /\ idx !! me = Some s.
Proof.
  intros Hme. unfold build_peer_graph_from_snapshot.
  pose proof (add_nodes_spec (sn_peer_infos sn) graph_new ∅ None) as Hn.
  destruct (add_nodes me _ graph_new ∅ None) as [[g idx] start].
  destruct Hn as (E1 & E2 & E3 & -> & E5); [by intros ? ? ?|done|].
  assert (Hk : forall p, is_Some (idx !! p) <-> has_node p).
  { intros p. rewrite E5, lookup_empty. split; [by intros [[? ?]|?]|by right]. }
  destruct (proj2 (Hk me) Hme) as [s Es]. rewrite Es.
  assert (Hlt : forall p j, idx !! p = Some j -> (j < length (nodes g))%nat).
  { intros p j Hp. by eapply lookup_lt_Some, E3. }
  destruct (add_sources_spec idx (hash_iter idx) g) as [E6 E7].
  { intros p j Hp. rewrite hash_iter_perm, elem_of_map_to_list in Hp. by eauto. }
  { done. }
  eexists _, s, idx. split; [done|]. split; [|done]. split.
  - by rewrite E6.
  - done.
  - intros a b w. unfold gedge. rewrite E7, E1, elist_new. split.
    + intros [[]%elem_of_nil|(src & dst & Hin & Hok & Hc & Eb & ->)]. exists src, dst.
      rewrite hash_iter_perm, elem_of_map_to_list in Hin. split_and!; try done.
      split_and!; try done; apply Hk; by eexists.
    + intros (src & dst & Ea & Eb & _ & _ & Hok & Hc & ->). right. exists src, dst.
      rewrite hash_iter_perm, elem_of_map_to_list. by split_and!.
  - rewrite E6, nodes_new in *. cbn in *. lia.
Qed.

(** *** Walks of peers and walks of nodes *)

Section translate.
Context (g : Graph) (idx : gmap Z nat) (s : nat) (Hrep : represents g idx) (Hs : idx !! me = Some s).

Lemma idx_inj p q v : idx !! p = Some v -> idx !! q = Some v -> p = q.
Proof. intros Hp%(r_node _ _ Hrep) Hq%(r_node _ _ Hrep). congruence. Qed.

Lemma node_walk v ws : walk (gedge g) s v ws -> exists p, idx !! p = Some v /\ walk link me p ws.
Proof.
  induction 1 as [|u v w ws _ (p & Hp & Hw) Hin]; [exists me; by split; [|constructor]|].
  apply (r_edge _ _ Hrep) in Hin as (src & dst & Esrc & Edst & Hl).
  rewrite (idx_inj _ _ _ Hp Esrc) in Hw. exists dst. split; [done|]. by econstructor.
Qed.
Lemma peer_walk p ws : walk link me p ws -> exists v, idx !! p = Some v /\ walk (gedge g) s v ws.
Proof.
  induction 1 as [|p q w ws _ (v & Ev & Hw) Hl]; [exists s; by split; [|constructor]|].
  destruct (proj2 (r_known _ _ Hrep q)) as [u Eu]; [by destruct Hl as (_ & ? & _)|].
  exists u. split; [done|]. econstructor; [done|]. apply (r_edge _ _ Hrep). by eauto.
Qed.
Lemma node_via h v ws : walk_via (gedge g) s h v ws ->
  exists hp p, idx !! hp = Some h /\ idx !! p = Some v /\ walk_via link me hp p ws.
Proof.
  induction 1 as [w Hin|u v w ws _ (hp & p & Eh & Ep & Hv) Hin].
  - apply (r_edge _ _ Hrep) in Hin as (src & dst & Esrc & Edst & Hl).
    rewrite (idx_inj _ _ _ Esrc Hs) in Hl. exists dst, dst. split_and!; [done..|]. by constructor.
  - apply (r_edge _ _ Hrep) in Hin as (src & dst & Esrc & Edst & Hl).
    rewrite (idx_inj _ _ _ Ep Esrc) in Hv. exists hp, dst. split_and!; [done..|]. by econstructor.
Qed.
End translate.

(** ** Best routes *)

(** [ws] is at least as good as [ws']: fewer relays that avoid relaying and
    then fewer hops come before lower cost when the policy is [LeastHop]. *)
Definition preferred (policy : NextHopPolicy) (ws ws' : list Z) : Prop :=
  match policy with
  | LeastCost => path_cost ws <= path_cost ws'
  | LeastHop =>
    let hops l := path_cost (map normalize_edge_cost l) in
    hops ws < hops ws' \/ (hops ws = hops ws' /\ path_cost ws <= path_cost ws')
  end.

(** The entry describes a best route to [p]. *)
Definition best_route (policy : NextHopPolicy) (p : Z) (info : OspfNextHopInfo) : Prop :=
  exists ws, walk_via link me (next_hop_peer_id info) p ws /\ path_len info = len ws /\
    path_latency info = path_cost ws mod AVOID_RELAY_COST /\
    forall ws', walk link me p ws' -> preferred policy ws ws'.

(** Nothing overflows: costs are not negative, no link costs more than [K],
    the surcharge of a reluctant relay included, and a path through all peers
    fits in a usize. *)
Definition costs_fit (K : Z) : Prop :=
  0 <= usize_bits /\ 0 <= K /\
  (forall a b, 0 <= calc a b /\
     calc a b + (if get_avoid_relay_data sn a then AVOID_RELAY_COST else 0) <= K) /\
  (K + 2) * (len (sn_peer_infos sn) + 1) < 2 ^ usize_bits.
Definition costs_ok : Prop := exists K, costs_fit K.

(** Always so where a usize has 64 bits. *)
Lemma costs_ok_64 : usize_bits = 64 -> len (sn_peer_infos sn) < 2 ^ 31 ->
  (forall a b, 0 <= calc a b < 2 ^ 31) -> costs_ok.
Proof.
  intros Hb Hl Hc. exists (2 ^ 32 - 2). unfold costs_fit, AVOID_RELAY_COST. rewrite Hb.
  pose proof (len_nonneg (sn_peer_infos sn)).
  split_and!; try lia. intros a b. specialize (Hc a b). destruct (get_avoid_relay_data sn a); lia.
Qed.

Lemma edge_cost_exact K a b : costs_fit K ->
  edge_cost sn calc a b = calc a b + (if get_avoid_relay_data sn a then AVOID_RELAY_COST else 0) /\
  0 <= edge_cost sn calc a b <= K.
Proof.
  intros (Hb & HK & Hc & Hfit). destruct (Hc a b) as [H0 H1].
  pose proof (len_nonneg (sn_peer_infos sn)). unfold edge_cost, AVOID_RELAY_COST in *.
  assert (K < 2 ^ usize_bits) by nia.
  destruct (get_avoid_relay_data sn a).
  - rewrite (wrap_small usize_bits (calc a b)) by (unfold in_range; lia).
    rewrite wrap_small by (unfold in_range; lia). lia.
  - rewrite wrap_small by (unfold in_range; lia). lia.
Qed.

Lemma represents_ok K g idx : costs_fit K -> represents g idx -> graph_ok g K.
Proof.
  intros Hc Hr. split; intros a b w (src & dst & Ea & Eb & Hl)%(r_edge _ _ Hr).
  - by eapply lookup_lt_Some, (r_node _ _ Hr).
  - by eapply lookup_lt_Some, (r_node _ _ Hr).
  - destruct Hl as (_ & _ & _ & _ & ->). by apply edge_cost_exact.
Qed.

(** The two generators, on the graph of the snapshot. *)
Lemma gen_spec policy g idx s t :
  costs_ok -> represents g idx -> idx !! me = Some s -> older_than (sn_version sn) t ->
  exists m, (match policy with
             | LeastHop => gen_next_hop_map_with_least_hop t g s (sn_version sn)
             | LeastCost => gen_next_hop_map_with_least_cost t g s (sn_version sn)
             end) = Ret (with_next_hops t m (sn_version sn)) /\
    (forall p info, p <> me -> get_topology_next_hop (with_next_hops t m (sn_version sn)) p = Some info ->
       nh_version info = sn_version sn /\ best_route policy p info) /\
    (forall p, is_Some (get_topology_next_hop (with_next_hops t m (sn_version sn)) p) <->
       exists ws, walk link me p ws).
Proof.
  intros [K Hc] Hr Hs Hold. pose proof (represents_ok K g idx Hc Hr) as Hg.
  destruct Hc as (Hb & HK & _ & Hfit).
  assert (Hfit2 : (K + 2) * (Z.of_nat (length (nodes g)) + 1) < 2 ^ usize_bits)
    by (pose proof (r_size _ _ Hr); unfold len in Hfit; nia).
  assert (Hlt : (s < length (nodes g))%nat) by (by eapply lookup_lt_Some, (r_node _ _ Hr)).
  assert (Hback : forall E p info, (forall a b w, E a b w -> gedge g a b w) -> p <> me ->
    next_hop_of E g s (sn_version sn) p info ->
    exists v h ws, idx !! p = Some v /\ walk_via E s h v ws /\ walk_via link me (next_hop_peer_id info) p ws /\
      path_len info = len ws /\ path_latency info = path_cost ws mod AVOID_RELAY_COST /\
      distance E s v (path_cost ws) /\ nh_version info = sn_version sn).
  { intros E p info HE Hp (Ev & v & Ep & Hnext).
    assert (Hne : v <> s) by (intros ->; apply (r_node _ _ Hr) in Hs; congruence).
    destruct (Hnext Hne) as (h & ws & Hvia & Eh & El & Ec & Hd). exists v, h, ws.
    assert (Hvia' : walk_via (gedge g) s h v ws) by (by apply (walk_via_map E (gedge g) id)).
    destruct (node_via g idx s Hr Hs h v ws Hvia') as (hp & q & Ehp & Eq & Hw).
    apply (r_node _ _ Hr) in Ehp. assert (q = p) as -> by (apply (r_node _ _ Hr) in Eq; congruence).
    assert (hp = next_hop_peer_id info) as -> by congruence. by split_and!. }
  assert (Hreach : forall E p info, (forall a b w, E a b w -> gedge g a b w) ->
    next_hop_of E g s (sn_version sn) p info -> exists ws, walk link me p ws).
  { intros E p info HE Hn. destruct (decide (p = me)) as [->|Hne]; [exists []; constructor|].
    destruct (Hback E p info) as (_ & _ & ws & _ & _ & Hw & _); [done..|]. exists ws. by eapply via_walk. }
  destruct policy.
  - destruct (least_hop_spec g K s (sn_version sn) t) as (m & -> & Hm1 & Hm2); try done.
    assert (Htg : forall a b w, tight (gedge g) s normalize_edge_cost a b w -> gedge g a b w) by (by intros ? ? ? [? _]).
    exists m. split; [done|]. split.
    + intros p info Hp Hi. destruct (Hback _ p info Htg Hp (Hm1 p info Hi))
        as (v & h & ws & Ev & Hvia & Hw & El & Ec & Hd & Hver).
      split; [done|]. exists ws. split_and!; [done..|]. intros ws' Hw'.
      destruct (peer_walk g idx s Hr Hs p ws' Hw') as (v' & Ev' & Hw2). simplify_eq.
      assert (Hpos : forall u v w, gedge g u v w -> 0 <= normalize_edge_cost w) by (intros ? ? w _; pose proof (normalize_pos w); lia).
      destruct (tight_via _ _ _ Hpos _ _ _ Hvia) as [_ Hdm].
      pose proof (proj2 Hdm _ (measured_walk _ _ _ _ _ Hw2)) as Hle. cbn.
      destruct (Z.eq_dec (path_cost (map normalize_edge_cost ws)) (path_cost (map normalize_edge_cost ws'))) as [Eq|Hne]; [right|left; lia].
      split; [done|]. apply Hd. apply tight_walk; [done|]. split; [done|]. by rewrite <- Eq.
    + intros p. split.
      * intros [info Hi]. by apply (Hreach _ p info Htg), Hm1.
      * intros [ws Hw]. destruct (peer_walk g idx s Hr Hs p ws Hw) as (v & Ev & Hw2).
        apply (Hm2 v p ws Hw2). by apply (r_node _ _ Hr).
  - destruct (least_cost_spec g K s (sn_version sn) t) as (m & -> & Hm1 & Hm2); try done; try lia.
    exists m. split; [done|]. split.
    + intros p info Hp Hi. destruct (Hback _ p info ltac:(done) Hp (Hm1 p info Hi))
        as (v & h & ws & Ev & Hvia & Hw & El & Ec & Hd & Hver).
      split; [done|]. exists ws. split_and!; [done..|]. intros ws' Hw'.
      destruct (peer_walk g idx s Hr Hs p ws' Hw') as (v' & Ev' & Hw2). simplify_eq. by apply Hd.
    + intros p. split.
      * intros [info Hi]. by apply (Hreach _ p info ltac:(done)), Hm1.
      * intros [ws Hw]. destruct (peer_walk g idx s Hr Hs p ws Hw) as (v & Ev & Hw2).
        apply (Hm2 v p ws Hw2). by apply (r_node _ _ Hr).
Qed.

(** ** Addresses *)

Definition announces (p a : Z) : Prop :=
  exists info, lookup_peer_info sn p = Some info /\ ipv4_addr info = Some a.

(** The entries of the loop that speak for the address [a]. *)
Definition candidate (t : OspfRouteTable) (done : list (Z * OspfNextHopInfo)) (a q : Z)
    (iq : OspfNextHopInfo) : Prop :=
  (q, iq) ∈ done /\ sn_version sn <= nh_version iq /\ peer_reachable t q = true /\ announces q a.

(** What the map holds for [a] after the entries [done]; [old] before them. *)
Definition resolved (t : OspfRouteTable) (done : list (Z * OspfNextHopInfo)) (a : Z)
    (old now : option PeerIdVersion) : Prop :=
  ((forall q iq, ~ candidate t done a q iq) /\ now = old) \/
  exists p item, now = Some {| pv_peer_id := p; pv_version := sn_version sn |} /\
    candidate t done a p item /\ forall q iq, candidate t done a q iq -> path_len item <= path_len iq.

Definition from_table (t : OspfRouteTable) (l : list (Z * OspfNextHopInfo)) : Prop :=
  forall q iq, (q, iq) ∈ l -> next_hop_map t !! q = Some iq.

Lemma reachable_next_hop t q iq : peer_reachable t q = true -> next_hop_map t !! q = Some iq ->
  get_next_hop t q = Some iq.
Proof.
  unfold peer_reachable, get_next_hop, get_topology_next_hop. intros Hr Eq. rewrite Eq in *. by repeat case_match.
Qed.

(** One announcement. *)
Lemma resolved_step t done a old now p item :
  (forall v, old = Some v -> pv_version v < sn_version sn) ->
  from_table t (done ++ [(p, item)]) -> resolved t done a old now ->
  candidate t [(p, item)] a p item ->
  let new := {| pv_peer_id := p; pv_version := sn_version sn |} in
  resolved t (done ++ [(p, item)]) a old
    (Some (match now with
           | Some v => if is_new_peer_better t new (path_len item) v then new else v
           | None => new
           end)).
Proof.
  intros Hold Htab Hres (_ & Hver & Hreach & Hann) new. right.
  assert (Hsplit : forall q iq, candidate t (done ++ [(p, item)]) a q iq ->
    candidate t done a q iq \/ (q = p /\ iq = item)).
  { intros q iq ([?|[= -> ->]%list_elem_of_singleton]%elem_of_app & ? & ? & ?); [by left|by right]. }
  assert (Hnew : candidate t (done ++ [(p, item)]) a p item).
  { split_and!; [by apply elem_of_app; right; left|done..]. }
  assert (Hmore : forall q iq, candidate t done a q iq -> candidate t (done ++ [(p, item)]) a q iq).
  { intros q iq (? & ? & ? & ?). split_and!; [by apply elem_of_app; left|done..]. }
  destruct Hres as [[Hno ->]|(q & iq & -> & Hq & Hmin)].
  - exists p, item. split; [|split; [done|]].
    + destruct old as [v|]; [|done]. unfold is_new_peer_better. cbn [pv_version new].
      by rewrite (proj2 (Z.ltb_lt _ _)) by (by apply Hold).
    + intros q iq [Hc|[-> ->]]%Hsplit; [by destruct (Hno q iq)|done].
  - unfold is_new_peer_better. cbn [pv_version pv_peer_id new]. rewrite Z.ltb_irrefl.
    destruct (Z.eqb_spec p q) as [->|Hne].
    { exists q, iq. split; [done|]. split; [by apply Hmore|]. intros r ir [Hc|[-> ->]]%Hsplit; [by apply (Hmin r)|].
      assert (iq = item) as ->; [|done].
      pose proof (Htab q iq) as E1. pose proof (Htab q item) as E2. destruct Hq as (Hin & _).
      rewrite E1 in E2 by (by apply elem_of_app; left). by specialize (E2 ltac:(apply elem_of_app; right; by left)); simplify_eq. }
    assert (Eq : get_next_hop t q = Some iq).
    { destruct Hq as (Hin & _ & Hr & _). apply reachable_next_hop; [done|]. apply Htab. by apply elem_of_app; left. }
    rewrite Eq. destruct (Z.ltb_spec (path_len item) (path_len iq)) as [Hlt|Hge].
    + exists p, item. split_and!; [done|done|]. intros r ir [Hc|[-> ->]]%Hsplit; [|done]. specialize (Hmin r ir Hc). lia.
    + exists q, iq. split_and!; [done|by apply Hmore|]. intros r ir [Hc|[-> ->]]%Hsplit; [by apply (Hmin r)|done].
Qed.

(** Entries that do not announce [a] do not matter. *)
Lemma resolved_skip t done a old now e : resolved t done a old now ->
  (forall q iq, ~ candidate t [e] a q iq) -> resolved t (done ++ [e]) a old now.
Proof.
  intros Hres Hno.
  assert (Hiff : forall q iq, candidate t (done ++ [e]) a q iq <-> candidate t done a q iq).
  { intros q iq. split.
    - intros ([?|He]%elem_of_app & ? & ? & ?); [by split_and!|]. by destruct (Hno q iq).
    - intros (? & ? & ? & ?). split_and!; [by apply elem_of_app; left|done..]. }
  destruct Hres as [[Hn ->]|(q & iq & -> & Hq & Hmin)]; [left|right].
  - split; [|done]. intros q iq. by rewrite Hiff.
  - exists q, iq. split_and!; [done|by apply Hiff|]. intros r ir Hr%Hiff. by apply (Hmin r).
Qed.

Definition same_hops (t t' : OspfRouteTable) : Prop :=
  next_hop_map t' = next_hop_map t /\ suppressed_peer_ids t' = suppressed_peer_ids t /\
  next_hop_map_version t' = next_hop_map_version t.
Lemma same_hops_next t t' p : same_hops t t' -> get_next_hop t' p = get_next_hop t p.
Proof. intros (E1 & E2 & E3). unfold get_next_hop, get_topology_next_hop. by rewrite E1, E2, E3. Qed.
Lemma same_hops_reach t t' p : same_hops t t' -> peer_reachable t' p = peer_reachable t p.
Proof. intros Hs. unfold peer_reachable. by rewrite (same_hops_next t t'). Qed.

Lemma same_hops_better t t' new k v : same_hops t t' ->
  is_new_peer_better t' new k v = is_new_peer_better t new k v.
Proof. intros Hs. unfold is_new_peer_better. by rewrite (same_hops_next t t'). Qed.

Lemma add_peers_same local l : forall t m, same_hops t (add_peers me sn local l t m).1.
Proof.
  induction l as [|[p item] l IH]; intros t m; cbn [add_peers]; [by split_and!|].
  repeat case_match; try apply IH. match goal with |- same_hops _ (add_peers _ _ _ _ ?x _).1 =>
    exact (IH x _) end.
Qed.

Lemma add_peers_spec local t0 l : forall t done m,
  same_hops t0 t -> from_table t0 (done ++ l) ->
  (forall a v, ipv4_peer_id_map t0 !! a = Some v -> pv_version v < sn_version sn) ->
  (forall a, resolved t0 done a (ipv4_peer_id_map t0 !! a) (ipv4_peer_id_map t !! a)) ->
  let t' := (add_peers me sn local l t m).1 in
  same_hops t0 t' /\
  forall a, resolved t0 (done ++ l) a (ipv4_peer_id_map t0 !! a) (ipv4_peer_id_map t' !! a).
Proof.
  induction l as [|[p item] l IH]; intros t done m Hsame Htab Hold Hres; cbn [add_peers].
  { rewrite app_nil_r. by split. }
  assert (Htab1 : from_table t0 (done ++ [(p, item)])).
  { intros q iq [?|Hx]%elem_of_app; apply Htab, elem_of_app; [by left|right]. apply list_elem_of_singleton in Hx as ->. by left. }
  replace (done ++ (p, item) :: l) with ((done ++ [(p, item)]) ++ l) in * by (by rewrite <- app_assoc).
  assert (Hskip : (forall a q iq, ~ candidate t0 [(p, item)] a q iq) ->
    let t' := (add_peers me sn local l t m).1 in
    same_hops t0 t' /\ forall a, resolved t0 ((done ++ [(p, item)]) ++ l) a (ipv4_peer_id_map t0 !! a) (ipv4_peer_id_map t' !! a)).
  { intros Hno. apply IH; try done. intros a. by apply resolved_skip. }
  destruct (Z.ltb_spec (nh_version item) (sn_version sn)) as [Hlt|Hge].
  { apply Hskip. intros a q iq ([= -> ->]%list_elem_of_singleton & Hv & _). lia. }
  destruct (peer_reachable t p) eqn:Ereach; cbn [negb].
  2: { apply Hskip. intros a q iq ([= -> ->]%list_elem_of_singleton & _ & Hr & _).
    rewrite (same_hops_reach t0 t) in Ereach by done. congruence. }
  rewrite (same_hops_reach t0 t) in Ereach by done.
  destruct (lookup_peer_info sn p) as [info|] eqn:Einfo.
  2: { apply Hskip. intros a q iq ([= -> ->]%list_elem_of_singleton & _ & _ & i & Ei & _). congruence. }
  apply IH; try done. intros a. cbn [ipv4_peer_id_map].
  destruct (ipv4_addr info) as [b|] eqn:Eb; cbn [opt_upsert].
  2: { apply resolved_skip; [done|]. intros q iq ([= -> ->]%list_elem_of_singleton & _ & _ & i & Ei & Ea). congruence. }
  unfold upsert. destruct (decide (a = b)) as [->|Hne].
  - rewrite lookup_insert_eq.
    pose proof (resolved_step t0 done b _ _ p item (Hold b) Htab1 (Hres b)) as Hstep.
    assert (Hc : candidate t0 [(p, item)] b p item) by (split_and!; [by left|lia|done|by exists info]).
    specialize (Hstep Hc). destruct (ipv4_peer_id_map t !! b) as [v|]; [|exact Hstep].
    by rewrite (same_hops_better t0 t).
  - rewrite lookup_insert_ne by done. apply resolved_skip; [done|].
    intros q iq ([= -> ->]%list_elem_of_singleton & _ & _ & i & Ei & Ea). congruence.
Qed.

Lemma clean_topology t p : get_topology_next_hop (clean_expired_route_info t) p = get_topology_next_hop t p.
Proof.
  unfold get_topology_next_hop. cbn. destruct (filter _ (next_hop_map t) !! p) as [x|] eqn:E.
  - apply map_lookup_filter_Some in E as [-> _]. done.
  - destruct (next_hop_map t !! p) as [x|] eqn:Ep; [|done].
    destruct (Z.leb_spec (next_hop_map_version t) (nh_version x)) as [Hle|]; [|done].
    apply map_lookup_filter_None in E as [E|E]; [congruence|]. by destruct (E x Ep); apply Z.leb_le.
Qed.

Lemma clean_next_hop t p : get_next_hop (clean_expired_route_info t) p = get_next_hop t p.
Proof. unfold get_next_hop. by rewrite clean_topology. Qed.

(** The addresses of a table are older than the snapshot. *)
Definition addresses_older (t : OspfRouteTable) : Prop :=
  forall a v, ipv4_peer_id_map t !! a = Some v -> pv_version v < sn_version sn.

(** The table resolves an announced address to its nearest announcer. *)
Definition resolves (t : OspfRouteTable) : Prop :=
  forall a q iq, announces q a -> get_next_hop t q = Some iq ->
  exists p info, get_peer_id_by_ipv4 t a = Some p /\ announces p a /\ get_next_hop t p = Some info /\
    forall r ir, announces r a -> get_next_hop t r = Some ir -> path_len info <= path_len ir.

Lemma build_spec policy t :
  has_node me -> costs_ok -> older_than (sn_version sn) t ->
  exists t', build_from_snapshot t me sn policy calc = Ret t' /\
    (forall p info, p <> me -> get_topology_next_hop t' p = Some info ->
       nh_version info = sn_version sn /\ best_route policy p info) /\
    (forall p, is_Some (get_topology_next_hop t' p) <-> exists ws, walk link me p ws) /\
    suppressed_peer_ids t' = sn_suppressed_peer_ids sn /\ (addresses_older t -> resolves t').
Proof.
  intros Hme Hc Hold. unfold build_from_snapshot.
  destruct (build_graph_spec Hme) as (g & s & idx & -> & Hrep & Hs).
  rewrite node_count_nodes.
  assert (Hlt : (s < length (nodes g))%nat) by (by eapply lookup_lt_Some, (r_node _ _ Hrep)).
  rewrite (proj2 (Nat.eqb_neq _ _)) by lia.
  set (t0 := sync_suppressed_peer_ids t sn).
  destruct (gen_spec policy g idx s t0 Hc Hrep Hs Hold) as (m & -> & Hbest & Hreach). cbn [mbind comp_bind].
  set (t1 := with_next_hops t0 m (sn_version sn)) in *. set (local := match lookup_peer_info sn me with Some _ => _ | None => _ end).
  pose proof (add_peers_spec local t1 (hash_iter m) t1 [] (∅, ∅)) as Hadd. cbn [app] in Hadd.
  change (next_hop_map t1) with m.
  pose proof (add_peers_same local (hash_iter m) t1 (∅, ∅)) as Hsame.
  destruct (add_peers me sn local (hash_iter m) t1 (∅, ∅)) as [t2 [c4 c6]]. cbn [fst] in Hadd, Hsame.
  set (t3 := {| peer_infos := peer_infos t2; next_hop_map := next_hop_map t2; suppressed_peer_ids := _;
    ipv4_peer_id_map := _; ipv6_peer_id_map := _; cidr_peer_id_map := _; cidr_v6_peer_id_map := _; next_hop_map_version := _ |}).
  assert (Hsame3 : same_hops t1 t3) by exact Hsame.
  exists (clean_expired_route_info t3). split; [done|].
  assert (Etop : forall p, get_topology_next_hop (clean_expired_route_info t3) p = get_topology_next_hop t1 p).
  { intros p. rewrite clean_topology. destruct Hsame3 as (E1 & _ & E3). unfold get_topology_next_hop. by rewrite E1, E3. }
  assert (Enext : forall p, get_next_hop (clean_expired_route_info t3) p = get_next_hop t1 p).
  { intros p. by rewrite clean_next_hop, (same_hops_next t1 t3). }
  split_and!.
  - intros p info. rewrite Etop. apply Hbest.
  - intros p. rewrite Etop. apply Hreach.
  - cbn. destruct Hsame as (_ & -> & _). cbn. set_solver.
  - intros Haddr a q iq Hq Eq. rewrite Enext in Eq. destruct Hadd as [_ Hres].
    { by split_and!. }
    { intros q' iq' Hin. by rewrite hash_iter_perm, elem_of_map_to_list in Hin. }
    { exact Haddr. }
    { intros b. left. split; [|done]. by intros q' iq' (?%elem_of_nil & _). }
    assert (Hcand : forall r ir, announces r a -> get_next_hop t1 r = Some ir -> candidate t1 (hash_iter m) a r ir).
    { intros r ir Hr Er. unfold candidate. split_and!; [| |by unfold peer_reachable; rewrite Er|done].
      all: unfold get_next_hop, get_topology_next_hop in Er; cbn in Er; destruct (decide _); try done.
      all: destruct (m !! r) as [x|] eqn:Ex; [|done]; destruct (Z.leb_spec (sn_version sn) (nh_version x)); simplify_eq.
      - by rewrite hash_iter_perm, elem_of_map_to_list.
      - done. }
    destruct (Hres a) as [[Hno _]|(p & item & Ea & (Hin & Hv & Hr & Hann) & Hmin)]; [by destruct (Hno q iq); apply Hcand|].
    assert (Ep : get_next_hop t1 p = Some item).
    { apply reachable_next_hop; [done|]. by rewrite hash_iter_perm, elem_of_map_to_list in Hin. }
    exists p, item. split_and!; [|done|by rewrite Enext|].
    + unfold get_peer_id_by_ipv4.
      assert (ipv4_peer_id_map (clean_expired_route_info t3) !! a =
        Some {| pv_peer_id := p; pv_version := sn_version sn |}) as ->; [|done].
      apply map_lookup_filter_Some. split; [exact Ea|].
      unfold peer_reachable. cbn [snd pv_peer_id].
      change (get_next_hop _ p) with (get_next_hop (clean_expired_route_info t3) p). by rewrite Enext, Ep.
    + intros r ir Hr' Er. rewrite Enext in Er. by apply (Hmin r), Hcand.
Qed.
End snapshot.

(** ** Properties *)

(** C5. Next hops are optimal: on a snapshot that knows this node and is newer
    than the table, with link costs that are not negative and path costs that
    fit in a usize ([costs_ok]; with 64 bits always, for costs below 2^31 and
    fewer than 2^31 peers; with 32 bits only in the absence of reluctant
    relays, see [narrow_word_misroutes]), the rebuild neither panics nor
    diverges; a peer has a next hop exactly when it can be reached over links of
    peers that may relay; and the next hop, length and latency recorded for it
    are those of a best route: of least cost under [LeastCost], and under
    [LeastHop] of least cost among those with the fewest reluctant relays and
    hops.  Suppressed peers are never destinations. *)
Theorem next_hops_optimal {T : Target} `{HL : !MinHeapLaws H} `{GL : !PetGraphLaws G} {N : RouteNet}
    {O : HashOrder} (me : Z) (sn : OspfRouteSnapshot) (calc : Z -> Z -> Z) (policy : NextHopPolicy)
    (t : OspfRouteTable) :
  has_node sn me -> costs_ok sn calc -> older_than (sn_version sn) t ->
  exists t', build_from_snapshot t me sn policy calc = Ret t' /\
    (forall p, is_Some (get_topology_next_hop t' p) <-> exists ws, walk (link me sn calc) me p ws) /\
    (forall p info, p <> me -> get_topology_next_hop t' p = Some info ->
       best_route me sn calc policy p info) /\
    (forall p, get_next_hop t' p =
       if decide (p ∈ sn_suppressed_peer_ids sn) then None else get_topology_next_hop t' p).
Proof.
  intros Hme Hc Hold. destruct (build_spec me sn calc policy t Hme Hc Hold) as (t' & E & Hbest & Hreach & Hsup & _).
  exists t'. split_and!; [done|done| |].
  - intros p info Hp Hi. by apply Hbest.
  - intros p. unfold get_next_hop. by rewrite Hsup.
Qed.

(** Addresses resolve to the nearest announcer: after a rebuild from a
    newer snapshot, an IPv4 address that some reachable peer announces resolves
    to a reachable peer that announces it, and to one with the fewest hops. *)
Theorem addresses_resolve {T : Target} `{HL : !MinHeapLaws H} `{GL : !PetGraphLaws G} {N : RouteNet}
    {O : HashOrder} (me : Z) (sn : OspfRouteSnapshot) (calc : Z -> Z -> Z) (policy : NextHopPolicy)
    (t : OspfRouteTable) :
  has_node sn me -> costs_ok sn calc -> older_than (sn_version sn) t -> addresses_older sn t ->
  exists t', build_from_snapshot t me sn policy calc = Ret t' /\
    forall a q iq, announces sn q a -> get_next_hop t' q = Some iq ->
    exists p info, get_peer_id_by_ipv4 t' a = Some p /\ announces sn p a /\
      get_next_hop t' p = Some info /\
      forall r ir, announces sn r a -> get_next_hop t' r = Some ir -> path_len info <= path_len ir.
Proof.
  intros Hme Hc Hold Ha. destruct (build_spec me sn calc policy t Hme Hc Hold) as (t' & E & _ & _ & _ & Hres).
  exists t'. split; [done|]. exact (Hres Ha).
Qed.

(** ** Concrete libraries and a small network *)

Module Example_routes.
Record graph := { g_nodes : list Z; g_elist : list (nat * nat * Z) }.
Definition out_edges (g : graph) (cost : Z -> Z) (u : nat) : list (nat * Z) :=
  omap (fun '(a, b, w) => if (a =? u)%nat then Some (b, cost w) else None) (g_elist g).

#[export] Instance target : Target := 64.
#[export] Instance pet : PetGraph := {|
  Graph := graph;
  graph_new := {| g_nodes := []; g_elist := [] |};
  add_node g p := ({| g_nodes := g_nodes g ++ [p]; g_elist := g_elist g |}, length (g_nodes g));
  add_edge g a b w := {| g_nodes := g_nodes g; g_elist := g_elist g ++ [(a, b, w)] |};
  node_weight g i := g_nodes g !! i;
  node_count g := length (g_nodes g);
  graph_edges g u := out_edges g id u;
  node_references g := zip (seq 0 (length (g_nodes g))) (g_nodes g);
  edge_references g := g_elist g;
  pet_dijkstra g start cost :=
    match dijkstra_with_first_hop (H:=list_heap) (out_edges g cost) start
            (S (edge_count (out_edges g cost) (length (g_nodes g)))) with
    | Ret (Some (sc, _)) => sc
    | _ => ∅
    end |}.

Lemma out_edges_spec g cost u v x :
  (v, x) ∈ out_edges g cost u <-> exists w, (u, v, w) ∈ g_elist g /\ x = cost w.
Proof.
  unfold out_edges. rewrite list_elem_of_omap. split.
  - intros ([[a b] w] & Hin & E). destruct (Nat.eqb_spec a u) as [->|]; [|done]. simplify_eq. by eauto.
  - intros (w & Hin & ->). exists (u, v, w). split; [done|]. by rewrite Nat.eqb_refl.
Qed.

#[export] Instance pet_laws : PetGraphLaws pet.
Proof.
  refine {| nodes := fun g : Graph (PetGraph:=pet) => g_nodes g; elist := fun g : Graph (PetGraph:=pet) => g_elist g |}; try done.
  intros g start cost M Hb Hs HM Hbd Hfit v d. cbn [pet_dijkstra pet].
  destruct (dijkstra_total (H:=list_heap) (out_edges g cost) start (length (g_nodes g))
    (S (edge_count (out_edges g cost) (length (g_nodes g)))) M) as (sc & fh & -> & [S1 _ _ _ _] & _); try done.
  { intros u x w _ (w' & Hin & ->)%out_edges_spec. by destruct (Hbd _ _ _ Hin) as (_ & ? & ?). }
  rewrite S1. apply distance_ext. intros a b x. apply out_edges_spec.
Qed.

#[export] Instance iteration : HashOrder := {|
  hash_iter _ _ _ _ := map_to_list; hash_iter_perm _ _ _ _ _ := reflexivity _ |}.

(** Host routes only. *)
#[export] Instance host_net : RouteNet := {|
  V4Net := Z; V6Net := Z; first_address4 n := n; last_address4 n := n;
  first_address6 n := n; last_address6 n := n; parse_cidr _ := None;
  get_lpm4 m a := (fun x => (a, x)) <$> m !! a; get_lpm6 m a := (fun x => (a, x)) <$> m !! a |}.

Definition peer (version ip : Z) : RoutePeerInfo :=
  {| peer_id := 0; inst_id := None; cost := 1; ipv4_addr := Some ip; proxy_cidrs := [];
     hostname := None; udp_nat_type := 0; tcp_nat_type := 0; last_update := None;
     version := version; easytier_version := []; feature_flag := None; peer_route_id := 0;
     network_length := 24; quic_port := None; ipv6_addr := None; groups := [];
     noise_static_pubkey := []; trusted_credential_pubkeys := []; ipv6_public_addr_prefix := None;
     ipv6_public_addr_lease := None |}.
Definition net_links : list (Z * list Z) := [(1, [2; 3]); (2, [1; 3]); (3, [1; 2; 4]); (4, [3])].
Definition snapshot (version ip2 : Z) : OspfRouteSnapshot :=
  {| sn_peer_infos := [(1, peer 1 101); (2, peer 1 ip2); (3, peer 1 103); (4, peer 1 103); (5, peer 1 105)];
     sn_conn_map := net_links; sn_suppressed_peer_ids := ∅; sn_version := version |}.
Definition latency (a b : Z) : Z := if (a =? 1) && (b =? 3) then 90 else 10.

Lemma snapshot_knows_me v ip : has_node (snapshot v ip) 1.
Proof. exists (peer 1 101). split; [by left|done]. Qed.
Lemma snapshot_costs v ip : costs_ok (snapshot v ip) latency.
Proof. apply costs_ok_64; [done|done|]. intros a b. unfold latency. case_match; lia. Qed.
Lemma new_table_older v : 0 < v -> older_than v OspfRouteTable_new.
Proof. intros Hv. split; [cbn; lia|]. by intros p info. Qed.

Definition route (policy : NextHopPolicy) (p : Z) : option (Z * Z * Z) :=
  match build_from_snapshot OspfRouteTable_new 1 (snapshot 7 102) policy latency with
  | Ret t => (fun i => (next_hop_peer_id i, path_len i, path_latency i)) <$> get_next_hop t p
  | Panic => None
  end.
End Example_routes.
Import Example_routes.

(** The two policies differ on the slow link. *)
Example routes_of_the_example :
  (route LeastHop <$> [2; 3; 4; 5]) = [Some (2, 1, 10); Some (3, 1, 90); Some (3, 2, 100); None] /\
  (route LeastCost <$> [2; 3; 4; 5]) = [Some (2, 1, 10); Some (2, 2, 20); Some (2, 3, 30); None].
Proof. vm_compute. split; reflexivity. Qed.

Lemma next_hops_optimal_witness :
  exists t', build_from_snapshot OspfRouteTable_new 1 (snapshot 7 102) LeastHop latency = Ret t' /\
    (forall p, is_Some (get_topology_next_hop t' p) <->
       exists ws, walk (link 1 (snapshot 7 102) latency) 1 p ws) /\
    (forall p info, p <> 1 -> get_topology_next_hop t' p = Some info ->
       best_route 1 (snapshot 7 102) latency LeastHop p info) /\
    (forall p, get_next_hop t' p =
       if decide (p ∈ sn_suppressed_peer_ids (snapshot 7 102)) then None else get_topology_next_hop t' p).
Proof.
  apply (next_hops_optimal 1 (snapshot 7 102) latency LeastHop OspfRouteTable_new);
    [apply snapshot_knows_me|apply snapshot_costs|by apply new_table_older].
Defined.

Lemma addresses_resolve_witness :
  exists t', build_from_snapshot OspfRouteTable_new 1 (snapshot 7 102) LeastCost latency = Ret t' /\
    forall a q iq, announces (snapshot 7 102) q a -> get_next_hop t' q = Some iq ->
    exists p info, get_peer_id_by_ipv4 t' a = Some p /\ announces (snapshot 7 102) p a /\
      get_next_hop t' p = Some info /\
      forall r ir, announces (snapshot 7 102) r a -> get_next_hop t' r = Some ir -> path_len info <= path_len ir.
Proof.
  apply (addresses_resolve 1 (snapshot 7 102) latency LeastCost OspfRouteTable_new);
    [apply snapshot_knows_me|apply snapshot_costs|by apply new_table_older|by intros ? ?].
Defined.

(** A peer that changes its address keeps the old one: after peer 2 moves from
    102 to 112 and the table is rebuilt from the newer snapshot, both addresses
    resolve to it, although nobody announces the first. *)
Theorem old_address_still_resolves :
  match build_from_snapshot OspfRouteTable_new 1 (snapshot 7 102) LeastHop latency with
  | Ret t =>
    match build_from_snapshot t 1 (snapshot 8 112) LeastHop latency with
    | Ret t => get_peer_id_by_ipv4 t 102 = Some 2 /\ get_peer_id_by_ipv4 t 112 = Some 2
    | Panic => False
    end
  | Panic => False
  end.
Proof. vm_compute. split; reflexivity. Qed.

(** Where a usize has 32 bits the surcharges of two reluctant relays cancel
    out: peers 2, 3 and 5 ask not to be used as relays, and peer 4 can be
    reached through 2 and 3 or through 5 alone.  The cost of the first way,
    10 + 2 * (10 + (2^31 - 1)), wraps to 28, so the table takes it; with 64 bits
    it takes the way with one reluctant relay. *)
Section narrow.
Definition reluctant (ip : Z) : RoutePeerInfo :=
  {| peer_id := 0; inst_id := None; cost := 1; ipv4_addr := Some ip; proxy_cidrs := [];
     hostname := None; udp_nat_type := 0; tcp_nat_type := 0; last_update := None;
     version := 1; easytier_version := [];
     feature_flag := Some {| is_public_server := false; avoid_relay_data := true; kcp_input := false;
       no_relay_kcp := false; support_conn_list_sync := false; quic_input := false;
       no_relay_quic := false; is_credential_peer_flag := false; need_p2p := false;
       disable_p2p := false; ipv6_public_addr_provider := false |};
     peer_route_id := 0;
     network_length := 24; quic_port := None; ipv6_addr := None; groups := [];
     noise_static_pubkey := []; trusted_credential_pubkeys := []; ipv6_public_addr_prefix := None;
     ipv6_public_addr_lease := None |}.
Definition detour : OspfRouteSnapshot :=
  {| sn_peer_infos := [(1, peer 1 101); (2, reluctant 102); (3, reluctant 103); (4, peer 1 104);
       (5, reluctant 105); (6, peer 1 106)];
     sn_conn_map := [(1, [2; 5]); (2, [1; 3]); (3, [2; 4]); (4, [3; 6]); (5, [1; 6]); (6, [4; 5])];
     sn_suppressed_peer_ids := ∅; sn_version := 7 |}.
Definition detour_latency (a b : Z) : Z := if (a =? 1) && (b =? 5) then 90 else 10.
Definition hop_to (bits : Z) (p : Z) : option Z :=
  match build_from_snapshot (T := bits) OspfRouteTable_new 1 detour LeastCost detour_latency with
  | Ret t => next_hop_peer_id <$> get_next_hop t p
  | Panic => None
  end.

Example narrow_word_misroutes : hop_to 32 4 = Some 2 /\ hop_to 64 4 = Some 5.
Proof. vm_compute. split; reflexivity. Qed.
End narrow.
