(* ===== verification/Rpc.v ===== *)
(** RPC packets: [rpc/packet.rs].  A message is compressed, cut into pieces
    that fit a UDP datagram, and merged again by a [PacketMerger].  The
    protobuf code [prost] generates is a class with its documented laws: it
    decodes what it encodes, and the length of an encoding. *)

From S2P Require Import Prelude Headers Packet Compressor.
From stdpp Require Import countable list.
Local Open Scope Z_scope.

(** ** Messages (easytier-proto/proto/common.proto) *)

Record RpcDescriptor := {
  domain_name : list Z; proto_name : list Z; service_name : list Z; method_index : Z }.

Definition algo_i32 (a : CompressionAlgoPb) : Z :=
  match a with PbInvalid => 0 | PbNone => 1 | PbZstd => 2 end.
(** [try_from(i32)] with [unwrap_or_default]. *)
Definition algo_of_i32 (z : Z) : CompressionAlgoPb :=
  if z =? 1 then PbNone else if z =? 2 then PbZstd else PbInvalid.

Record RpcCompressionInfo := { info_algo : Z; info_accepted_algo : Z }.
Definition default_compression_info : RpcCompressionInfo :=
  {| info_algo := 0; info_accepted_algo := 0 |}.

Record RpcPacket := {
  from_peer : Z; to_peer : Z; transaction_id : Z; descriptor : option RpcDescriptor;
  rpc_body : list Z; is_request : bool; total_pieces : Z; piece_idx : Z; trace_id : Z;
  compression_info : option RpcCompressionInfo }.

Definition default_rpc_packet : RpcPacket :=
  {| from_peer := 0; to_peer := 0; transaction_id := 0; descriptor := None; rpc_body := [];
     is_request := false; total_pieces := 0; piece_idx := 0; trace_id := 0;
     compression_info := None |}.

#[export] Instance RpcDescriptor_eq_dec : EqDecision RpcDescriptor.
Proof. solve_decision. Defined.
#[export] Instance CompressionAlgoPb_eq_dec : EqDecision CompressionAlgoPb.
Proof. solve_decision. Defined.
#[export] Instance RpcCompressionInfo_eq_dec : EqDecision RpcCompressionInfo.
Proof. solve_decision. Defined.
#[export] Instance RpcPacket_eq_dec : EqDecision RpcPacket.
Proof. solve_decision. Defined.

Definition set_pieces (p : RpcPacket) (total idx : Z) (body : list Z) : RpcPacket :=
  {| from_peer := from_peer p; to_peer := to_peer p; transaction_id := transaction_id p;
     descriptor := descriptor p; rpc_body := body; is_request := is_request p;
     total_pieces := total; piece_idx := idx; trace_id := trace_id p;
     compression_info := compression_info p |}.

(** ** The protobuf library *)

(** Length of the base-128 encoding of [n]. *)
Definition varint_len (n : Z) : Z := Z.log2 (Z.max 1 n) / 7 + 1.

(** Length of a [bytes] field: nothing when empty, else a key byte, the length
    and the bytes. *)
Definition body_field_len (b : list Z) : Z :=
  if len b =? 0 then 0 else 1 + varint_len (len b) + len b.

Class ProstRpc := {
  valid_utf8 : list Z -> bool;
  length_delimiter_len : Z -> Z;
  rpc_encode : RpcPacket -> list Z;
  rpc_decode : list Z -> option RpcPacket }.

(** What the Rust types of a message say of its fields. *)
Definition rpc_desc_wf {pr : ProstRpc} (d : RpcDescriptor) : Prop :=
  valid_utf8 (domain_name d) = true /\ valid_utf8 (proto_name d) = true /\
  valid_utf8 (service_name d) = true /\ u32 (method_index d).
Definition rpc_info_wf (i : RpcCompressionInfo) : Prop :=
  - 2 ^ 31 <= info_algo i < 2 ^ 31 /\ - 2 ^ 31 <= info_accepted_algo i < 2 ^ 31.
Definition rpc_wf {pr : ProstRpc} (p : RpcPacket) : Prop :=
  u32 (from_peer p) /\ u32 (to_peer p) /\ - 2 ^ 63 <= transaction_id p < 2 ^ 63 /\
  bytes_ok (rpc_body p) /\ u32 (total_pieces p) /\ u32 (piece_idx p) /\
  - 2 ^ 31 <= trace_id p < 2 ^ 31 /\
  match descriptor p with Some d => rpc_desc_wf d | None => True end /\
  match compression_info p with Some i => rpc_info_wf i | None => True end.

Class ProstRpcLaws (pr : ProstRpc) := {
  length_delimiter_law n : 0 <= n -> length_delimiter_len n = varint_len n;
  rpc_decode_law p : rpc_wf p -> rpc_decode (rpc_encode p) = Some p;
  rpc_decode_wf b p : bytes_ok b -> rpc_decode b = Some p ->
    u32 (total_pieces p) /\ u32 (piece_idx p);
  rpc_encode_bytes p : bytes_ok (rpc_body p) -> bytes_ok (rpc_encode p);
  rpc_encode_body p :
    len (rpc_encode p) = len (rpc_encode (set_pieces p (total_pieces p) (piece_idx p) [])) +
      body_field_len (rpc_body p);
  (** unsigned fields take no more room than larger ones *)
  rpc_encode_mono p t i : 0 <= total_pieces p <= t -> 0 <= piece_idx p <= i ->
    len (rpc_encode p) <= len (rpc_encode (set_pieces p t i (rpc_body p))) }.

(** ** Errors (easytier-proto/src/rpc_types/error.rs) *)

Inductive malformat :=
  | DescriptorMissing | TotalPiecesInvalid (n : Z) | PieceIdxOutOfRange | Malformat (msg : list Z).

(** [ExecutionError] carries the compressor's failures here, or a handler's
    message. *)
Inductive RpcError :=
  | ExecutionError (msg : list Z)
  | CompressionError (e : CompressError)
  | InvalidCompressionAlgo (a : CompressionAlgoPb)
  | RpcDecodeError
  | RpcEncodeError
  | InvalidMethodIndex (i : Z) (service : list Z)
  | InvalidServiceKey (service proto : list Z)
  | MalformatRpcPacket (m : malformat)
  | RpcTimeout
  | RpcTunnelError (msg : list Z)
  | RpcShutdown.

(** ** Compression of a message *)

Definition RPC_PACKET_UDP_PAYLOAD_BUDGET : Z := 1300.

(** [TryFrom<CompressionAlgoPb> for CompressorAlgo] and back. *)
Section compression.
Context {z : Zstd}.

Definition accepted_compression_algo : CompressionAlgoPb :=
  if CompressorAlgo_is_available zstd_available ZstdDefault then PbZstd else PbNone.

Definition compress_packet (accepted : CompressionAlgoPb) (content : list Z)
    : result RpcError (list Z * CompressionAlgoPb) :=
  let algo :=
    match CompressorAlgo_try_from accepted with
    | Ok a => if CompressorAlgo_is_available zstd_available a then a else CompressNone
    | Err _ => CompressNone
    end in
  match compress_raw content algo with
  | Err e => Err (CompressionError e)
  | Ok compressed =>
    if len content <=? len compressed then Ok (content, PbNone)
    else
      (** [expect]: the conversion has no failing case. *)
      match CompressionAlgoPb_try_from algo with Ok pb | Err pb => Ok (compressed, pb) end
  end.

Definition decompress_packet (a : CompressionAlgoPb) (content : list Z)
    : result RpcError (list Z) :=
  match CompressorAlgo_try_from a with
  | Err e => Err (InvalidCompressionAlgo e)
  | Ok algo =>
    match decompress_raw content algo with
    | Ok buf => Ok buf
    | Err e => Err (CompressionError e)
    end
  end.
End compression.

(** ** Merging pieces *)

Record PacketMerger := {
  first_piece : option RpcPacket; pieces : list RpcPacket; last_updated : Z }.

Definition PacketMerger_new (now : Z) : PacketMerger :=
  {| first_piece := None; pieces := []; last_updated := now |}.

Definition try_merge_pieces (m : PacketMerger) : option RpcPacket :=
  match first_piece m, pieces m with
  | Some _, p0 :: _ =>
    if existsb (fun p => total_pieces p =? 0) (pieces m) then None
    else Some (set_pieces p0 1 0 (concat (map rpc_body (pieces m))))
  | _, _ => None
  end.

(** [Vec::resize]. *)
Definition vec_resize {A} (n : nat) (d : A) (l : list A) : list A :=
  take n l ++ replicate (n - length l) d.

(** [pieces[piece_idx] = rpc_packet] panics out of range. *)
Definition index_set {A} (i : nat) (x : A) (l : list A) : comp (list A) :=
  if (i <? length l)%nat then Ret (<[i := x]> l) else Panic.

Definition feed (m : PacketMerger) (p : RpcPacket) (now : Z)
    : comp (PacketMerger * result RpcError (option RpcPacket)) :=
  let total := total_pieces p in
  let idx := piece_idx p in
  if (total =? 0) && (idx =? 0) then Ret (m, Ok (Some p)) else
  if (idx =? 0) && bool_decide (descriptor p = None) then
    Ret (m, Err (MalformatRpcPacket DescriptorMissing)) else
  if (32 * 1024 <? total) || (total =? 0) then
    Ret (m, Err (MalformatRpcPacket (TotalPiecesInvalid total))) else
  if total <=? idx then Ret (m, Err (MalformatRpcPacket PieceIdxOutOfRange)) else
  let restart :=
    match first_piece m with
    | None => true
    | Some f => negb (transaction_id f =? transaction_id p) || negb (from_peer f =? from_peer p)
    end in
  let m := if restart
    then {| first_piece := Some p; pieces := []; last_updated := last_updated m |} else m in
  ps ← index_set (Z.to_nat idx) p
    (vec_resize (Z.to_nat total) default_rpc_packet (pieces m));
  let m := {| first_piece := first_piece m; pieces := ps; last_updated := now |} in
  Ret (m, Ok (try_merge_pieces m)).

(** ** Splitting a message *)

Record BuildRpcPacketArgs := {
  a_from_peer : Z; a_to_peer : Z; a_rpc_desc : RpcDescriptor; a_transaction_id : Z;
  a_is_req : bool; a_content : list Z; a_trace_id : Z; a_compression_info : RpcCompressionInfo }.

Definition udp_rpc_tunnel_overhead : Z :=
  payload_offset (get_packet_offsets UDP) + TAIL_RESERVED_SIZE.

Definition max_rpc_packet_encoded_len_for_udp : Z :=
  sat_sub RPC_PACKET_UDP_PAYLOAD_BUDGET udp_rpc_tunnel_overhead.

Definition build_rpc_piece (args : BuildRpcPacketArgs) (total idx : Z) (body : list Z)
    : RpcPacket :=
  {| from_peer := a_from_peer args; to_peer := a_to_peer args;
     transaction_id := a_transaction_id args;
     descriptor :=
       if (idx =? 0) || (info_algo (a_compression_info args) =? algo_i32 PbNone)
       then Some (a_rpc_desc args) else None;
     rpc_body := body; is_request := a_is_req args; total_pieces := total; piece_idx := idx;
     trace_id := a_trace_id args;
     compression_info := if idx =? 0 then Some (a_compression_info args) else None |}.

Section split.
Context {pr : ProstRpc}.

Definition pick_piece_len_for_budget (base remaining max_encoded_len : Z) : Z :=
  if remaining =? 0 then 0 else
  if max_encoded_len <? base + 3 then 1 else
  let budget := max_encoded_len - base in
  let reserved_for_body_header := 1 + length_delimiter_len budget in
  Z.max (Z.min remaining (sat_sub budget reserved_for_body_header)) 1.

(** The loop [while offset < content.len()]; [first] is [pieces.is_empty()]. *)
Fixpoint split_loop (fuel : nat) (first : bool) (first_base other_base max_len n offset : Z)
    : option (list (Z * Z)) :=
  if n <=? offset then Some [] else
  match fuel with
  | O => None
  | S fuel =>
    let base := if first then first_base else other_base in
    let piece_len := pick_piece_len_for_budget base (n - offset) max_len in
    rest ← split_loop fuel false first_base other_base max_len n (offset + piece_len);
    Some ((offset, piece_len) :: rest)
  end.

Definition split_rpc_content_for_udp_budget (args : BuildRpcPacketArgs)
    : option (list (Z * Z)) :=
  match a_content args with
  | [] => Some [(0, 0)]
  | _ =>
    let max_len := Z.max max_rpc_packet_encoded_len_for_udp 1 in
    let first_base := len (rpc_encode (build_rpc_piece args (max_of 32) 0 [])) in
    let other_base := len (rpc_encode (build_rpc_piece args (max_of 32) (max_of 32) [])) in
    split_loop (length (a_content args)) true first_base other_base max_len
      (len (a_content args)) 0
  end.

(** The body of the loop of [build_rpc_packet], for piece [idx]. *)
Definition build_one (g : nat -> Z) (args : BuildRpcPacketArgs) (total idx : Z)
    (range : Z * Z) : comp ZCPacket :=
  let '(offset, n) := range in
  body ← slice offset (offset + n) (a_content args);
  let cur_packet := build_rpc_piece args total idx body in
  let packet_type := if a_is_req args then RpcReq else RpcResp in
  zc ← new_with_payload g (rpc_encode cur_packet);
  fill_peer_manager_hdr zc (a_from_peer args) (a_to_peer args) (PacketType_as_u8 packet_type).

Fixpoint build_all (g : nat -> Z) (args : BuildRpcPacketArgs) (total idx : Z)
    (ranges : list (Z * Z)) : comp (list ZCPacket) :=
  match ranges with
  | [] => Ret []
  | r :: rs =>
    zc ← build_one g args total (wrap 32 idx) r;
    zcs ← build_all g args total (idx + 1) rs;
    Ret (zc :: zcs)
  end.

(** [None] when the splitting loop runs out of fuel. *)
Definition build_rpc_packet (g : nat -> Z) (args : BuildRpcPacketArgs)
    : option (comp (list ZCPacket)) :=
  ranges ← split_rpc_content_for_udp_budget args;
  Some (build_all g args (wrap 32 (len ranges)) 0 ranges).
End split.

(** ** Merging: what the table of pieces holds *)

(** The pieces of one message. *)
Definition message (tid from : Z) (ps : list RpcPacket) : Prop :=
  1 <= len ps <= 32 * 1024 /\
  forall i p, ps !! i = Some p ->
    total_pieces p = len ps /\ piece_idx p = Z.of_nat i /\
    transaction_id p = tid /\ from_peer p = from /\ (i = O -> descriptor p <> None).

Definition merged (ps : list RpcPacket) : RpcPacket :=
  set_pieces (default default_rpc_packet (head ps)) 1 0 (concat (map rpc_body ps)).

(** A merger that holds nothing of the message yet, or exactly the pieces [ds]. *)
Definition fresh (tid from : Z) (m : PacketMerger) : Prop :=
  match first_piece m with
  | None => True
  | Some f => transaction_id f <> tid \/ from_peer f <> from
  end.
Definition holds (tid from : Z) (ps : list RpcPacket) (ds : list nat) (m : PacketMerger) : Prop :=
  (exists f, first_piece m = Some f /\ transaction_id f = tid /\ from_peer f = from) /\
  length (pieces m) = length ps /\
  forall i p, ps !! i = Some p ->
    pieces m !! i = Some (if decide (i ∈ ds) then p else default_rpc_packet).
Definition progress (tid from : Z) (ps : list RpcPacket) (ds : list nat) (m : PacketMerger) : Prop :=
  (ds = [] /\ fresh tid from m) \/ holds tid from ps ds m.

Definition covers (n : nat) (ds : list nat) : bool :=
  forallb (fun i => bool_decide (i ∈ ds)) (seq 0 n).

Lemma covers_spec n ds : covers n ds = true <-> forall i, (i < n)%nat -> i ∈ ds.
Proof.
  unfold covers. rewrite forallb_forall. setoid_rewrite in_seq.
  setoid_rewrite bool_decide_eq_true. split; intros H i Hi; apply H; lia.
Qed.

Lemma length_vec_resize {A} n (d : A) l : length (vec_resize n d l) = n.
Proof. unfold vec_resize. rewrite length_app, length_take, length_replicate. lia. Qed.

Lemma vec_resize_same {A} (d : A) l n : n = length l -> vec_resize n d l = l.
Proof.
  intros ->. unfold vec_resize. by rewrite take_ge, Nat.sub_diag, app_nil_r by lia.
Qed.

Lemma vec_resize_nil {A} (d : A) n : vec_resize n d [] = replicate n d.
Proof. unfold vec_resize. by rewrite take_nil, Nat.sub_0_r. Qed.

Section merging.
Context (tid from : Z) (ps : list RpcPacket) (Hm : message tid from ps).

Lemma message_some i p : ps !! i = Some p -> (i < length ps)%nat.
Proof using. apply lookup_lt_Some. Qed.

(** Every piece of the message and nothing else: the merge succeeds. *)
Lemma try_merge_holds ds m :
  holds tid from ps ds m ->
  try_merge_pieces m = if covers (length ps) ds then Some (merged ps) else None.
Proof using Hm.
  intros ((f & Hf & _) & Hl & Ht). destruct Hm as ((H1 & H2) & Hp).
  unfold try_merge_pieces. rewrite Hf.
  destruct (covers (length ps) ds) eqn:Ec.
  - assert (pieces m = ps) as ->.
    { apply list_eq. intros i. destruct (ps !! i) as [p|] eqn:E.
      - rewrite (Ht i p E). rewrite decide_True; [done|].
        apply (proj1 (covers_spec _ _) Ec). by apply message_some in E.
      - apply lookup_ge_None in E. apply lookup_ge_None. lia. }
    destruct ps as [|p0 qs] eqn:Eps; [unfold len in H1; simpl in H1; lia|].
    rewrite <- Eps in *.
    enough (existsb (fun p => total_pieces p =? 0) ps = false) as -> by (unfold merged; by rewrite Eps).
    apply not_true_iff_false. intros (p & Hin & H0)%existsb_exists. apply list_elem_of_In, list_elem_of_lookup in Hin.
    destruct Hin as [i Hi]. destruct (Hp i p Hi) as (Ht' & _). bools. lia.
  - assert (existsb (fun p => total_pieces p =? 0) (pieces m) = true) as ->.
    { apply not_true_iff_false in Ec. rewrite covers_spec in Ec.
      apply existsb_exists.
      assert (exists i, (i < length ps)%nat /\ i ∉ ds) as (i & Hi & Hni).
      { destruct (decide (Exists (fun i => i ∉ ds) (seq 0 (length ps)))) as [E|E].
        - apply Exists_exists in E as (i & Hi & ?). apply elem_of_seq in Hi. exists i. split; [lia|done].
        - exfalso. apply Ec. intros i Hi. apply dec_stable. intros Hn. apply E, Exists_exists.
          exists i. split; [apply elem_of_seq; lia|done]. }
      destruct (lookup_lt_is_Some_2 ps i Hi) as [p E].
      exists default_rpc_packet. split; [|done]. apply list_elem_of_In.
      rewrite list_elem_of_lookup. exists i. rewrite (Ht i p E). by rewrite decide_False. }
    by destruct (pieces m).
Qed.

Lemma feed_piece ds m i p now :
  progress tid from ps ds m -> ps !! i = Some p ->
  exists m', feed m p now =
      Ret (m', Ok (if covers (length ps) (i :: ds) then Some (merged ps) else None)) /\
    holds tid from ps (i :: ds) m' /\ last_updated m' = now.
Proof using Hm.
  intros Hpr Hi. pose proof (message_some i p Hi) as Hlt.
  destruct Hm as ((H1 & H2) & Hp). destruct (Hp i p Hi) as (Ht & Hx & Htid & Hfr & Hd).
  unfold feed. rewrite Ht, Hx. unfold len in *.
  rewrite (proj2 (Z.eqb_neq (Z.of_nat (length ps)) 0)) by lia. cbn [andb].
  destruct ((Z.of_nat i =? 0) && bool_decide (descriptor p = None)) eqn:E0.
  { bools. apply bool_decide_eq_true in H0. exfalso. apply Hd; [lia|done]. }
  rewrite (proj2 (Z.ltb_ge _ _)) by lia. cbn [orb].
  rewrite (proj2 (Z.leb_gt _ _)) by lia. rewrite !Nat2Z.id.
  set (restart := match first_piece m with None => true | Some f => _ end).
  set (m1 := if restart then _ else m).
  assert ((exists f, first_piece m1 = Some f /\ transaction_id f = tid /\ from_peer f = from) /\
    forall j q, ps !! j = Some q -> vec_resize (length ps) default_rpc_packet (pieces m1) !! j =
      Some (if decide (j ∈ ds) then q else default_rpc_packet)) as [Hf1 Hs].
  { destruct Hpr as [[-> Hfr0]|((f & Hf & Hft & Hff) & Hl & Hs)].
    - assert (restart = true) as Hr.
      { unfold restart, fresh in *. destruct (first_piece m) as [f|]; [|done].
        rewrite Htid, Hfr. destruct Hfr0 as [?|?]; [rewrite (proj2 (Z.eqb_neq _ _)) by done; done|].
        rewrite (proj2 (Z.eqb_neq (from_peer f) _)) by done. apply orb_true_r. }
      unfold m1. rewrite Hr. cbn. split; [by exists p|].
      intros j q Hj. rewrite vec_resize_nil, lookup_replicate_2 by (by eapply message_some).
      by rewrite decide_False by apply not_elem_of_nil.
    - assert (restart = false) as Hr.
      { unfold restart. by rewrite Hf, Htid, Hfr, Hft, Hff, !Z.eqb_refl. }
      unfold m1. rewrite Hr. split; [by exists f|].
      intros j q Hj. rewrite vec_resize_same by done. by apply Hs. }
  unfold index_set. rewrite length_vec_resize, (proj2 (Nat.ltb_lt _ _)) by done.
  cbn [mbind comp_bind].
  match goal with |- context [try_merge_pieces ?m2] => set (m' := m2) end.
  assert (holds tid from ps (i :: ds) m') as Hh.
  { split; [done|]. split.
    - unfold m'. cbn [pieces]. by rewrite length_insert, length_vec_resize.
    - intros j q Hj. unfold m'. cbn [pieces]. destruct (decide (j = i)) as [->|Hne].
      + rewrite list_lookup_insert_eq by (by rewrite length_vec_resize).
        rewrite decide_True by left. congruence.
      + rewrite list_lookup_insert_ne by done. rewrite (Hs j q Hj).
        f_equal. destruct (decide (j ∈ ds)); [by rewrite decide_True by (by right)|].
        rewrite decide_False; [done|]. by intros [?|?]%elem_of_cons. }
  exists m'. rewrite (try_merge_holds (i :: ds) m') by done. by split_and!.
Qed.
End merging.

(** ** Splitting: ranges that tile the content and fit the budget *)

Lemma varint_len_pos n : 1 <= varint_len n.
Proof.
  unfold varint_len. pose proof (Z.log2_nonneg (Z.max 1 n)).
  pose proof (Z.div_pos (Z.log2 (Z.max 1 n)) 7). lia.
Qed.

Lemma varint_len_mono a b : a <= b -> varint_len a <= varint_len b.
Proof.
  intros H. unfold varint_len. apply Zplus_le_compat_r, Z.div_le_mono; [lia|].
  apply Z.log2_le_mono. lia.
Qed.

(** A length prefix leaves room for at least one byte from three bytes on. *)
Lemma varint_len_room n : 3 <= n -> varint_len n + 2 <= n.
Proof.
  intros H. unfold varint_len. rewrite Z.max_r by lia.
  destruct (decide (n < 8)) as [Hs|Hs].
  - rewrite Z.div_small; [lia|]. split; [apply Z.log2_nonneg|].
    transitivity 3; [|lia]. apply Z.log2_lt_pow2; simpl; lia.
  - assert (Z.log2 n / 7 <= Z.log2 n) by (apply Z.div_le_upper_bound; pose proof (Z.log2_nonneg n); lia).
    assert (Z.log2 n < n - 3 + 1); [|lia].
    apply Z.log2_lt_pow2; [lia|].
    assert (forall k : nat, (6 <= k)%nat -> Z.of_nat k + 2 < 2 ^ Z.of_nat k) as Hpow.
    { intros k Hk. induction k as [|k IH]; [lia|]. destruct (decide (k = 5)%nat) as [->|]; [simpl; lia|].
      rewrite Nat2Z.inj_succ, Z.pow_succ_r by lia. specialize (IH ltac:(lia)). lia. }
    specialize (Hpow (Z.to_nat (n - 2)) ltac:(lia)). rewrite Z2Nat.id in Hpow by lia.
    replace (n - 3 + 1) with (n - 2) by lia. lia.
Qed.

Section splitting.
Context {pr : ProstRpc} {Hpr : ProstRpcLaws pr}.

(** The metadata and a body of [l] bytes stay within [max_len], if the
    metadata leaves any room. *)
Definition fits (base max_len l : Z) : Prop :=
  base + 3 <= max_len -> base + (1 + varint_len l + l) <= max_len.

Lemma pick_piece_len_ok base remaining max_len :
  0 <= base -> 1 <= remaining ->
  let l := pick_piece_len_for_budget base remaining max_len in
  1 <= l <= remaining /\ fits base max_len l.
Proof using Hpr.
  intros Hb Hr. unfold pick_piece_len_for_budget, fits.
  rewrite (proj2 (Z.eqb_neq _ _)) by lia.
  destruct (max_len <? base + 3) eqn:E; bools; [split; lia|].
  rewrite length_delimiter_law by lia. cbv zeta. unfold sat_sub.
  pose proof (varint_len_room (max_len - base) ltac:(lia)) as Hv.
  pose proof (varint_len_pos (max_len - base)) as Hp.
  set (l := Z.max _ 1).
  assert (1 <= l <= remaining /\ l <= max_len - base - (1 + varint_len (max_len - base))) as [Hl Hl']
    by (unfold l; lia).
  split; [done|]. intros _.
  pose proof (varint_len_mono l (max_len - base) ltac:(lia)). lia.
Qed.

(** The ranges from [off] on: adjacent, non-empty, ending at [n]. *)
Fixpoint tiles (first : bool) (fb ob max_len off n : Z) (rs : list (Z * Z)) : Prop :=
  match rs with
  | [] => off = n
  | (o, l) :: rs =>
    o = off /\ 1 <= l /\ off + l <= n /\ fits (if first then fb else ob) max_len l /\
    tiles false fb ob max_len (off + l) n rs
  end.

Lemma split_loop_tiles fb ob max_len n fuel : forall first off,
  0 <= fb -> 0 <= ob -> 0 <= off <= n -> n - off <= Z.of_nat fuel ->
  exists rs, split_loop fuel first fb ob max_len n off = Some rs /\
    tiles first fb ob max_len off n rs.
Proof using Hpr.
  induction fuel as [|fuel IH]; intros first off Hfb Hob Ho Hf; cbn [split_loop].
  - rewrite (proj2 (Z.leb_le _ _)) by lia. exists []. split; [done|]. simpl. lia.
  - destruct (n <=? off) eqn:E; bools; [exists []; split; [done|simpl; lia]|].
    destruct (pick_piece_len_ok (if first then fb else ob) (n - off) max_len)
      as [Hl Hfit]; [by destruct first|lia|].
    set (l := pick_piece_len_for_budget _ _ _) in *.
    destruct (IH false (off + l)) as (rs & Hrs & Ht); [lia..|].
    exists ((off, l) :: rs). rewrite Hrs. split; [done|]. cbn [tiles]. by split_and!; [|lia|lia|..].
Qed.
End splitting.

(** ** The packets of a message *)

Lemma new_with_payload_spec g pl :
  exists pre, len pre = 36 /\ new_with_payload g pl = Ret {| inner := pre ++ pl; packet_type := NIC |}.
Proof.
  unfold new_with_payload. cbn [packet_type new_nic_packet].
  change (payload_offset (get_packet_offsets NIC)) with 36.
  set (u := uninit g (36 + len pl)).
  assert (length u = (36 + length pl)%nat) as Hu
    by (subst u; rewrite length_uninit; unfold len; lia).
  rewrite <- (take_drop 36 u). set (pre := take 36 u). set (s := drop 36 u).
  assert (len pre = 36) as Hp by (subst pre; unfold len; rewrite length_take; lia).
  assert (length s = length pl) as Hs by (subst s; rewrite length_drop; lia).
  exists pre. split; [done|]. rewrite mut_payload_app by done. cbn [mbind comp_bind].
  rewrite copy_into_in by (unfold len; lia). cbn [mbind comp_bind].
  rewrite <- (app_nil_l s) at 1. rewrite <- (app_nil_r ([] ++ s)), <- app_assoc.
  rewrite (overwrite_app 0 [] s [] pl) by done. rewrite app_nil_l, app_nil_r.
  by rewrite overwrite_payload by done.
Qed.

(** [zc] carries [p]: a header for the message's peers and the encoding. *)
Definition carries {pr : ProstRpc} (from to : Z) (is_req : bool) (zc : ZCPacket) (p : RpcPacket)
    : Prop :=
  payload zc = Ret (rpc_encode p) /\ packet_type zc = NIC /\
  buf_len zc = payload_offset (get_packet_offsets NIC) + len (rpc_encode p) /\
  exists h, peer_manager_header zc = Some h /\ from_peer_id h = from /\ to_peer_id h = to /\
    pm_packet_type h = PacketType_as_u8 (if is_req then RpcReq else RpcResp).

Lemma fill_new_carries {pr : ProstRpc} g p from to (is_req : bool) :
  u32 from -> u32 to ->
  exists zc, (zc ← new_with_payload g (rpc_encode p);
      fill_peer_manager_hdr zc from to (PacketType_as_u8 (if is_req then RpcReq else RpcResp)))
    = Ret zc /\ carries from to is_req zc p.
Proof.
  intros Hf Ht. destruct (new_with_payload_spec g (rpc_encode p)) as (pre & Hpre & ->).
  cbn [mbind comp_bind]. set (zc0 := {| inner := _; packet_type := NIC |}).
  assert (has_header zc0) as Hh.
  { unfold has_header, zc0. cbn [inner]. rewrite len_app.
    pose proof (len_nonneg (rpc_encode p)). change (zc_payload_offset _) with 36. lia. }
  rewrite fill_hdr_spec by done. eexists. split; [done|]. split_and!.
  - rewrite put_pm_payload by done. by apply payload_app.
  - done.
  - unfold buf_len, len. rewrite put_pm_length by done. fold (len (inner zc0)).
    unfold zc0; cbn [inner]. rewrite len_app, Hpre. done.
  - eexists. split; [apply put_pm_get; [done|apply filled_hdr_wf; [done..|by destruct is_req]]|done].
Qed.

Definition sub_bytes (c : list Z) (off l : Z) : list Z :=
  take (Z.to_nat l) (drop (Z.to_nat off) c).

Fixpoint pieces_from (args : BuildRpcPacketArgs) (total idx : Z) (rs : list (Z * Z))
    : list RpcPacket :=
  match rs with
  | [] => []
  | (o, l) :: rs =>
    build_rpc_piece args total idx (sub_bytes (a_content args) o l)
      :: pieces_from args total (idx + 1) rs
  end.

Definition args_wf {pr : ProstRpc} (args : BuildRpcPacketArgs) : Prop :=
  u32 (a_from_peer args) /\ u32 (a_to_peer args) /\
  - 2 ^ 63 <= a_transaction_id args < 2 ^ 63 /\ bytes_ok (a_content args) /\
  - 2 ^ 31 <= a_trace_id args < 2 ^ 31 /\ rpc_desc_wf (a_rpc_desc args) /\
  rpc_info_wf (a_compression_info args).

Section packets.
Context {pr : ProstRpc} {Hpr : ProstRpcLaws pr}.
Context (args : BuildRpcPacketArgs) (Hwf : args_wf args).

Lemma build_rpc_piece_wf total idx o l :
  u32 total -> u32 idx -> rpc_wf (build_rpc_piece args total idx (sub_bytes (a_content args) o l)).
Proof using Hwf.
  intros Ht Hi. destruct Hwf as (? & ? & ? & ? & ? & ? & ?).
  unfold rpc_wf, build_rpc_piece; cbn. split_and!; try done; try lia.
  - by apply Forall_take, Forall_drop.
  - by destruct (_ || _).
  - by destruct (_ =? _).
Qed.

Lemma pieces_from_lookup total : forall rs idx i p,
  pieces_from args total idx rs !! i = Some p ->
  exists o l, rs !! i = Some (o, l) /\
    p = build_rpc_piece args total (idx + Z.of_nat i) (sub_bytes (a_content args) o l).
Proof using.
  induction rs as [|[o l] rs IH]; intros idx i p; [done|].
  destruct i as [|i]; cbn [pieces_from lookup list_lookup].
  - intros [= <-]. exists o, l. by rewrite Z.add_0_r.
  - intros Hi. destruct (IH _ _ _ Hi) as (o' & l' & ? & ->). exists o', l'.
    split; [done|]. f_equal. lia.
Qed.

Lemma length_pieces_from total : forall rs idx, length (pieces_from args total idx rs) = length rs.
Proof using. induction rs as [|[o l] rs IH]; intros; [done|]. cbn. by rewrite IH. Qed.

(** The bodies are the content, from [off] on. *)
Lemma pieces_bodies total fb ob max_len : forall rs first off idx,
  0 <= off <= len (a_content args) ->
  tiles first fb ob max_len off (len (a_content args)) rs ->
  concat (map rpc_body (pieces_from args total idx rs)) = drop (Z.to_nat off) (a_content args).
Proof using.
  induction rs as [|[o l] rs IH]; intros first off idx Ho; cbn [tiles pieces_from map concat].
  - intros ->. unfold len. rewrite Nat2Z.id. by rewrite drop_all.
  - intros (-> & Hl & Hb & _ & Ht). rewrite (IH false (off + l)) by (lia || done).
    cbn [rpc_body build_rpc_piece]. unfold sub_bytes.
    rewrite Z2Nat.inj_add by lia. rewrite <- drop_drop. apply take_drop.
Qed.

Lemma build_all_carries g total fb ob max_len : forall rs first off idx,
  0 <= off -> 0 <= idx -> idx + len rs < 2 ^ 32 ->
  tiles first fb ob max_len off (len (a_content args)) rs ->
  exists zcs, build_all g args total idx rs = Ret zcs /\
    Forall2 (carries (a_from_peer args) (a_to_peer args) (a_is_req args))
      zcs (pieces_from args total idx rs).
Proof using Hwf.
  induction rs as [|[o l] rs IH]; intros first off idx Ho Hi Hn; cbn [build_all pieces_from].
  - intros _. exists []. split; [done|constructor].
  - intros (-> & Hl & Hb & _ & Ht). rewrite len_cons in Hn. pose proof (len_nonneg rs).
    destruct (IH false (off + l) (idx + 1)) as (zcs & Hz & Hc); [lia..|done|].
    unfold build_one. rewrite slice_in by lia. cbn [mbind comp_bind].
    rewrite wrap_small by (unfold in_range; lia).
    destruct Hwf as (Hf & Hto & _).
    replace (off + l - off) with l by lia. fold (sub_bytes (a_content args) off l).
    destruct (fill_new_carries g (build_rpc_piece args total idx
      (sub_bytes (a_content args) off l)) _ _ (a_is_req args) Hf Hto) as (zc & Hzc & Hca).
    cbn [mbind comp_bind] in Hzc. rewrite Hzc. cbn. rewrite Hz. cbn.
    exists (zc :: zcs). split; [done|]. by constructor.
Qed.
End packets.

(** The whole message, as the receiver gets it. *)
Definition whole (args : BuildRpcPacketArgs) : RpcPacket :=
  {| from_peer := a_from_peer args; to_peer := a_to_peer args;
     transaction_id := a_transaction_id args; descriptor := Some (a_rpc_desc args);
     rpc_body := a_content args; is_request := a_is_req args; total_pieces := 1; piece_idx := 0;
     trace_id := a_trace_id args; compression_info := Some (a_compression_info args) |}.

Definition first_base `{pr : ProstRpc} (args : BuildRpcPacketArgs) : Z :=
  len (rpc_encode (build_rpc_piece args (max_of 32) 0 [])).
Definition other_base `{pr : ProstRpc} (args : BuildRpcPacketArgs) : Z :=
  len (rpc_encode (build_rpc_piece args (max_of 32) (max_of 32) [])).

(** A build that splits the content into [rs]: the ranges tile it, or it is
    empty and has one empty range. *)
Definition split_shape `{pr : ProstRpc} (args : BuildRpcPacketArgs) (rs : list (Z * Z)) : Prop :=
  (a_content args = [] /\ rs = [(0, 0)]) \/
  (rs <> [] /\ tiles true (first_base args) (other_base args)
     (Z.max max_rpc_packet_encoded_len_for_udp 1) 0 (len (a_content args)) rs).

Section whole_message.
Context {pr : ProstRpc} {Hpr : ProstRpcLaws pr}.
Context (args : BuildRpcPacketArgs) (Hwf : args_wf args).

Lemma split_total :
  exists rs, split_rpc_content_for_udp_budget args = Some rs /\ split_shape args rs.
Proof using Hpr.
  unfold split_rpc_content_for_udp_budget, split_shape.
  destruct (a_content args) as [|b c] eqn:Ec; [exists [(0, 0)]; split; [done|by left]|].
  rewrite <- Ec.
  destruct (split_loop_tiles (first_base args) (other_base args)
    (Z.max max_rpc_packet_encoded_len_for_udp 1) (len (a_content args))
    (length (a_content args)) true 0) as (rs & Hrs & Ht);
    [apply len_nonneg..|pose proof (len_nonneg (a_content args)); lia|unfold len; lia|].
  exists rs. split; [done|]. right. split; [|done].
  intros ->. simpl in Ht. rewrite Ec, len_cons in Ht. pose proof (len_nonneg c). lia.
Qed.

Lemma split_shape_pos rs : split_shape args rs -> 1 <= len rs.
Proof using. intros [(_ & ->)|[H _]]; [by vm_compute|]. destruct rs; [done|]. rewrite len_cons. pose proof (len_nonneg rs). lia. Qed.

Lemma build_shape g rs :
  split_shape args rs -> len rs < 2 ^ 32 ->
  exists zcs, build_all g args (len rs) 0 rs = Ret zcs /\
    Forall2 (carries (a_from_peer args) (a_to_peer args) (a_is_req args))
      zcs (pieces_from args (len rs) 0 rs).
Proof using Hwf.
  intros [(Ec & ->)|[_ Ht]] Hn; [|by eapply (build_all_carries args Hwf); eauto; lia].
  cbn [build_all build_one pieces_from]. rewrite Ec.
  change (slice 0 (0 + 0) []) with (Ret (A:=list Z) []). cbn [mbind comp_bind].
  destruct Hwf as (Hf & Hto & _).
  destruct (fill_new_carries g (build_rpc_piece args (len [(0, 0)]) 0 []) _ _
    (a_is_req args) Hf Hto) as (zc & Hzc & Hca).
  cbn [mbind comp_bind] in Hzc. change (wrap 32 0) with 0. rewrite Hzc. cbn.
  exists [zc]. split; [done|]. constructor; [exact Hca|constructor].
Qed.

Lemma shape_message rs :
  split_shape args rs -> len rs <= 32 * 1024 ->
  message (a_transaction_id args) (a_from_peer args) (pieces_from args (len rs) 0 rs).
Proof using.
  intros Hs Hn. pose proof (split_shape_pos rs Hs).
  assert (len (pieces_from args (len rs) 0 rs) = len rs) as El
    by (unfold len at 1; by rewrite length_pieces_from).
  split; rewrite El; [lia|].
  intros i p Hi. destruct (pieces_from_lookup _ _ _ _ _ _ Hi) as (o & l & _ & ->).
  split_and!; try done; by intros ->.
Qed.

Lemma shape_merged rs :
  split_shape args rs -> merged (pieces_from args (len rs) 0 rs) = whole args.
Proof using.
  intros Hs. unfold merged.
  assert (concat (map rpc_body (pieces_from args (len rs) 0 rs)) = a_content args) as ->.
  { destruct Hs as [(Ec & ->)|[_ Ht]]; [by cbn; rewrite Ec|].
    rewrite (pieces_bodies args (len rs) _ _ _ rs true 0) with (1:=conj (Z.le_refl 0) (len_nonneg _)) (2:=Ht).
    done. }
  pose proof (split_shape_pos rs Hs).
  destruct rs as [|[o l] rs]; [unfold len in *; simpl in *; lia|]. done.
Qed.

Lemma shape_wf rs :
  len rs < 2 ^ 32 -> Forall rpc_wf (pieces_from args (len rs) 0 rs).
Proof using Hwf.
  intros Hn. apply Forall_lookup. intros i p Hi.
  pose proof (lookup_lt_Some _ _ _ Hi) as Hlt. rewrite length_pieces_from in Hlt.
  destruct (pieces_from_lookup _ _ _ _ _ _ Hi) as (o & l & _ & ->).
  apply build_rpc_piece_wf; [done|..]; unfold in_range, len in *; lia.
Qed.

(** Splitting ends and building does not panic. *)
Lemma build_total g rs :
  split_rpc_content_for_udp_budget args = Some rs -> split_shape args rs -> len rs < 2 ^ 32 ->
  exists zcs, build_rpc_packet g args = Some (Ret zcs) /\
    Forall2 (carries (a_from_peer args) (a_to_peer args) (a_is_req args))
      zcs (pieces_from args (len rs) 0 rs).
Proof using Hwf.
  intros Hrs Hs Hn. destruct (build_shape g rs Hs Hn) as (zcs & Hz & Hca).
  exists zcs. split; [|done]. unfold build_rpc_packet. rewrite Hrs. cbn [mbind option_bind].
  rewrite wrap_small by (unfold in_range; pose proof (len_nonneg rs); lia). by rewrite Hz.
Qed.
End whole_message.

(** ** Theorems *)

(** Feeding a sequence of pieces, with their arrival times. *)
Fixpoint feed_all (m : PacketMerger) (l : list (RpcPacket * Z))
    : comp (PacketMerger * list (result RpcError (option RpcPacket))) :=
  match l with
  | [] => Ret (m, [])
  | (p, now) :: l =>
    '(m, r) ← feed m p now;
    '(m, rs) ← feed_all m l;
    Ret (m, r :: rs)
  end.

(** The answers to a delivery [ds] after the pieces [seen]. *)
Fixpoint answers (n : nat) (q : RpcPacket) (seen : list nat) (ds : list nat)
    : list (result RpcError (option RpcPacket)) :=
  match ds with
  | [] => []
  | i :: ds => Ok (if covers n (i :: seen) then Some q else None) :: answers n q (i :: seen) ds
  end.

Lemma feed_all_answers tid from ps (Hm : message tid from ps) : forall ds seen m,
  progress tid from ps seen m ->
  Forall2 (fun d i => ps !! i = Some d.1) ds.1 ds.2 ->
  exists m', feed_all m ds.1 = Ret (m', answers (length ps) (merged ps) seen ds.2) /\
    progress tid from ps (rev ds.2 ++ seen) m'.
Proof.
  intros [ds js]. cbn [fst snd]. revert js.
  induction ds as [|[p now] ds IH]; intros js seen m Hp Hf; inversion Hf as [|? i ? js2 Hi Hr]; subst.
  - by exists m.
  - cbn in Hi. destruct (feed_piece tid from ps Hm seen m i p now Hp Hi) as (m1 & He & Hh & _).
    cbn [feed_all answers]. rewrite He. cbn [mbind comp_bind].
    destruct (IH js2 (i :: seen) m1) as (m2 & H2 & Hp2); [by right|done|].
    rewrite H2. cbn. exists m2. split; [done|].
    by rewrite <- app_assoc.
Qed.

(** C27. A message of any content survives splitting and merging: the
    splitting loop ends, building the packets does not panic, and every packet
    decodes to its piece; a merger that holds nothing of the transaction, fed
    these pieces in any order and with any repetitions, answers nothing while a
    piece is missing, and from the moment every piece has arrived answers with
    the whole message: its peers, transaction, descriptor, compression and the
    original content.  (The receiver refuses more than 32768 pieces.) *)
Theorem split_merge_round_trip `{pr : ProstRpc, !ProstRpcLaws pr}
    (g : nat -> Z) (args : BuildRpcPacketArgs) :
  args_wf args ->
  (forall rs, split_rpc_content_for_udp_budget args = Some rs -> len rs <= 32 * 1024) ->
  exists zcs ps,
    build_rpc_packet g args = Some (Ret zcs) /\
    Forall2 (fun zc p => exists b, payload zc = Ret b /\ rpc_decode b = Some p) zcs ps /\
    forall m ds,
      fresh (a_transaction_id args) (a_from_peer args) m ->
      Forall2 (fun d i => ps !! i = Some d.1) ds.1 ds.2 ->
      exists m', feed_all m ds.1 = Ret (m', answers (length ps) (whole args) [] ds.2).
Proof.
  intros Hwf Hn. destruct (split_total args) as (rs & Hrs & Hs).
  specialize (Hn rs Hrs).
  destruct (build_total args Hwf g rs Hrs Hs ltac:(lia)) as (zcs & Hz & Hc).
  exists zcs, (pieces_from args (len rs) 0 rs). split; [done|]. split.
  - pose proof (shape_wf args Hwf rs ltac:(lia)) as Hw.
    apply Forall2_same_length_lookup. split; [by eapply Forall2_length|].
    intros i zc p H1 H2. destruct (Forall2_lookup_lr _ _ _ _ _ _ Hc H1 H2) as (Hpl & _).
    exists (rpc_encode p). split; [done|]. apply rpc_decode_law.
    by eapply Forall_lookup_1 in Hw.
  - intros m ds Hf Hd. rewrite <- (shape_merged args rs Hs).
    destruct (feed_all_answers _ _ _ (shape_message args rs Hs Hn) ds [] m) as (m' & ? & _);
      [by left|done|]. by exists m'.
Qed.

Lemma tiles_len {fb ob max_len n} : forall rs first off,
  tiles first fb ob max_len off n rs -> off + len rs <= n.
Proof.
  induction rs as [|[o l] rs IH]; intros first off; cbn [tiles]; [unfold len; simpl; lia|].
  intros (-> & ? & ? & _ & Ht). apply IH in Ht. rewrite len_cons. lia.
Qed.

Lemma tiles_lookup {fb ob max_len n} : forall rs first off i o l,
  tiles first fb ob max_len off n rs -> rs !! i = Some (o, l) ->
  off <= o /\ 1 <= l /\ o + l <= n /\
  fits (if first && (i =? 0)%nat then fb else ob) max_len l.
Proof.
  induction rs as [|[o' l'] rs IH]; intros first off i o l; [done|].
  intros (-> & ? & ? & Hf & Ht). destruct i as [|i]; cbn [lookup list_lookup].
  - intros [= <- <-]. rewrite andb_true_r. by split_and!; [lia..|].
  - intros Hi. destruct (IH _ _ _ _ _ Ht Hi) as (? & ? & ? & Hfit).
    rewrite andb_false_r. by split_and!; [lia..|].
Qed.

Lemma piece_encoded_len `{pr : ProstRpc, !ProstRpcLaws pr} args total idx body :
  u32 total -> u32 idx ->
  len (rpc_encode (build_rpc_piece args total idx body)) <=
  (if idx =? 0 then first_base args else other_base args) +
  body_field_len body.
Proof.
  unfold in_range. intros Ht Hi. rewrite rpc_encode_body.
  cbn [rpc_body build_rpc_piece total_pieces piece_idx].
  apply Zplus_le_compat_r.
  set (t' := max_of 32). set (i' := if idx =? 0 then 0 else max_of 32).
  etransitivity; [apply (rpc_encode_mono _ t' i')|].
  - subst t'. unfold max_of. cbn. lia.
  - subst i'. unfold max_of. cbn. destruct (idx =? 0) eqn:E; bools; lia.
  - apply Z.eq_le_incl. unfold first_base, other_base, set_pieces, build_rpc_piece, i', t'; cbn.
    by destruct (idx =? 0) eqn:E.
Qed.

Lemma sub_bytes_len c o l : 0 <= o -> 0 <= l -> o + l <= len c -> len (sub_bytes c o l) = l.
Proof.
  unfold sub_bytes, len. intros. rewrite length_take, length_drop. lia.
Qed.

(** Every packet built fits the UDP budget: when the metadata of the
    message leaves room for three more bytes, each packet's payload together
    with the headers of a UDP tunnel and the room reserved for a cipher's tail
    is at most [RPC_PACKET_UDP_PAYLOAD_BUDGET] bytes. *)
Theorem pieces_within_budget `{pr : ProstRpc, !ProstRpcLaws pr}
    (g : nat -> Z) (args : BuildRpcPacketArgs) (zcs : list ZCPacket) (zc : ZCPacket) (b : list Z) :
  args_wf args -> len (a_content args) < 2 ^ 32 - 1 ->
  first_base args + 3 <= max_rpc_packet_encoded_len_for_udp ->
  other_base args + 3 <= max_rpc_packet_encoded_len_for_udp ->
  build_rpc_packet g args = Some (Ret zcs) -> zc ∈ zcs -> payload zc = Ret b ->
  len b + payload_offset (get_packet_offsets UDP) + TAIL_RESERVED_SIZE
    <= RPC_PACKET_UDP_PAYLOAD_BUDGET.
Proof.
  intros Hwf Hc Hfb Hob Hb Hin Hp. destruct (split_total args) as (rs & Hrs & Hs).
  assert (len rs < 2 ^ 32) as Hn.
  { destruct Hs as [(_ & ->)|[_ Ht]]; [by vm_compute|]. apply tiles_len in Ht. lia. }
  destruct (build_total args Hwf g rs Hrs Hs Hn) as (zcs' & Hz & Hca).
  rewrite Hz in Hb. injection Hb as ->. apply list_elem_of_lookup in Hin as [i Hi].
  destruct (Forall2_lookup_l _ _ _ _ _ Hca Hi) as (p & Hpi & Hpl & _).
  rewrite Hp in Hpl. injection Hpl as ->.
  pose proof (lookup_lt_Some _ _ _ Hpi) as Hlt. rewrite length_pieces_from in Hlt.
  destruct (pieces_from_lookup _ _ _ _ _ _ Hpi) as (o & l & Hol & ->).
  set (body := sub_bytes (a_content args) o l). rewrite Z.add_0_l.
  set (e := rpc_encode _).
  assert (len e <= (if Z.of_nat i =? 0 then first_base args else other_base args) +
    body_field_len body) as Hl.
  { apply piece_encoded_len; unfold in_range, len in *; lia. }
  assert (len e <= max_rpc_packet_encoded_len_for_udp) as Hmax.
  { destruct Hs as [(Ec & ->)|[_ Ht]].
    - subst body. rewrite Ec in Hl. unfold sub_bytes in Hl. rewrite drop_nil, take_nil in Hl.
      change (body_field_len []) with 0 in Hl. destruct (_ =? 0); lia.
    - destruct (tiles_lookup _ _ _ _ _ _ Ht Hol) as (Ho & Hl1 & Hol2 & Hfit).
      unfold body_field_len in Hl. subst body. rewrite sub_bytes_len in Hl by lia.
      rewrite (proj2 (Z.eqb_neq l 0)) in Hl by lia.
      unfold fits in Hfit. rewrite Z.max_l in Hfit by (by vm_compute). cbn [andb] in Hfit.
      assert ((Z.of_nat i =? 0) = (i =? 0)%nat) as Ei by (by destruct i).
      rewrite Ei in Hl. destruct (i =? 0)%nat; specialize (Hfit ltac:(done)); lia. }
  assert (max_rpc_packet_encoded_len_for_udp = RPC_PACKET_UDP_PAYLOAD_BUDGET -
    payload_offset (get_packet_offsets UDP) - TAIL_RESERVED_SIZE) as E by (vm_compute; reflexivity).
  lia.
Qed.

(** ** Errors of the merger *)

(** What the table of a merger holds: placeholders, and pieces of the
    transaction and peer of its first piece, each in its own slot. *)
Definition slot_ok (f : RpcPacket) (i : nat) (q : RpcPacket) : Prop :=
  q = default_rpc_packet \/
  (transaction_id q = transaction_id f /\ from_peer q = from_peer f /\
   1 <= total_pieces q <= 32 * 1024 /\ (i = O -> descriptor q <> None)).
Definition merger_ok (m : PacketMerger) : Prop :=
  match first_piece m with
  | None => pieces m = []
  | Some f => len (pieces m) <= 32 * 1024 /\
      forall i q, pieces m !! i = Some q -> slot_ok f i q
  end.

Lemma PacketMerger_new_ok now : merger_ok (PacketMerger_new now).
Proof. done. Qed.

Lemma vec_resize_lookup {A} n (d : A) l i x :
  vec_resize n d l !! i = Some x -> x = d \/ l !! i = Some x.
Proof.
  unfold vec_resize. intros [H|[_ H]]%lookup_app_Some.
  - right. by apply lookup_take_Some in H as [? _].
  - left. by apply lookup_replicate in H as [? _].
Qed.

Lemma try_merge_ok m f q :
  merger_ok m -> first_piece m = Some f -> try_merge_pieces m = Some q ->
  transaction_id q = transaction_id f /\ from_peer q = from_peer f /\
  total_pieces q = 1 /\ descriptor q <> None.
Proof.
  intros Hm Hf. unfold merger_ok in Hm. unfold try_merge_pieces. rewrite Hf in *.
  destruct Hm as [_ Hs]. destruct (pieces m) as [|p0 ps] eqn:E; [done|]. cbn [existsb].
  destruct ((total_pieces p0 =? 0) || _) eqn:E0; [done|]. intros [= <-]. bools.
  destruct (Hs O p0 eq_refl) as [->|(? & ? & ? & Hd)]; [done|]. cbn. split_and!; auto.
Qed.

(** The condition under which [feed] takes a packet. *)
Definition acceptable (p : RpcPacket) : Prop :=
  (total_pieces p = 0 /\ piece_idx p = 0) \/
  (piece_idx p < total_pieces p <= 32 * 1024 /\ (piece_idx p = 0 -> descriptor p <> None)).

Lemma feed_total (m : PacketMerger) (p : RpcPacket) (now : Z) :
  merger_ok m -> u32 (total_pieces p) -> u32 (piece_idx p) ->
  exists m' r, feed m p now = Ret (m', r) /\ merger_ok m' /\
    (is_ok r = true <-> acceptable p) /\
    match r with
    | Err _ => m' = m
    | Ok None => first_piece m' <> None
    | Ok (Some q) =>
      transaction_id q = transaction_id p /\ from_peer q = from_peer p /\
      ((q = p /\ m' = m) \/ (total_pieces q = 1 /\ descriptor q <> None))
    end.
Proof.
  unfold in_range. intros Hm Ht Hi. unfold feed, acceptable.
  destruct ((total_pieces p =? 0) && (piece_idx p =? 0)) eqn:E0.
  { bools. exists m, (Ok (Some p)). split_and!; try done; [by split; [left|]|by left]. }
  destruct ((piece_idx p =? 0) && bool_decide (descriptor p = None)) eqn:E1.
  { bools. apply bool_decide_eq_true in H0. eexists m, (Err _). split_and!; try done. split; [done|].
    apply andb_false_iff in E0. intros [[? ?]|[? Hd]]; [destruct E0; bools; lia|]. by destruct Hd. }
  destruct ((32 * 1024 <? total_pieces p) || (total_pieces p =? 0)) eqn:E2.
  { eexists m, (Err _). split_and!; try done. split; [done|].
    apply orb_true_iff in E2. apply andb_false_iff in E0.
    intros [[? ?]|[? _]]; destruct E0, E2; bools; lia. }
  bools. destruct (total_pieces p <=? piece_idx p) eqn:E3; bools.
  { eexists m, (Err _). split_and!; try done. split; [done|]. intros [?|?]; lia. }
  set (restart := match first_piece m with None => true | Some f => _ end).
  set (m1 := if restart then _ else m).
  assert (exists f, first_piece m1 = Some f /\ transaction_id f = transaction_id p /\
    from_peer f = from_peer p /\ merger_ok m1) as (f & Hf & Hft & Hff & Hm1).
  { unfold m1, restart. destruct (first_piece m) as [f|] eqn:Ef.
    - destruct (_ || _) eqn:Er; [by exists p|]. bools. by exists f.
    - by exists p. }
  unfold index_set. rewrite length_vec_resize, (proj2 (Nat.ltb_lt _ _)) by lia. cbn [mbind comp_bind].
  match goal with |- context [try_merge_pieces ?m2] => set (m' := m2) end.
  assert (merger_ok m') as Hok.
  { unfold merger_ok in Hm1 |- *. unfold m'. cbn [first_piece pieces]. rewrite Hf in *.
    destruct Hm1 as [_ Hs]. split.
    - unfold len. rewrite length_insert, length_vec_resize. lia.
    - intros j q Hj. destruct (decide (j = Z.to_nat (piece_idx p))) as [->|Hne].
      + rewrite list_lookup_insert_eq in Hj by (rewrite length_vec_resize; lia). injection Hj as <-.
        right. split_and!; try done; [lia..|]. intros Hz Hn. apply andb_false_iff in E1.
        rewrite bool_decide_eq_false in E1. destruct E1; bools; [lia|done].
      + rewrite list_lookup_insert_ne in Hj by done.
        apply vec_resize_lookup in Hj as [->|Hj]; [by left|by apply Hs]. }
  exists m', (Ok (try_merge_pieces m')). split_and!; try done.
  - split; [|done]. intros _. right. split; [lia|]. intros Hz Hn. apply andb_false_iff in E1.
    rewrite bool_decide_eq_false in E1. destruct E1; bools; [lia|done].
  - destruct (try_merge_pieces m') as [q|] eqn:Eq; [|unfold m'; cbn; by rewrite Hf].
    destruct (try_merge_ok m' f q Hok Hf Eq) as (? & ? & ? & ?). split_and!; [congruence..|by right].
Qed.

(** C39. Feeding any packet whatever to a merger never panics and keeps its
    table within 32768 slots of one transaction and peer; it fails exactly on
    the packets it should refuse (an index out of range, no or too many
    pieces, a first piece without descriptor), and then changes nothing; and a
    message it answers with has the transaction and peer of the packet just
    fed, and a descriptor unless it is that packet itself, unsplit. *)
Theorem feed_errors (m : PacketMerger) (p : RpcPacket) (now : Z) :
  merger_ok m -> u32 (total_pieces p) -> u32 (piece_idx p) ->
  exists m' r, feed m p now = Ret (m', r) /\ merger_ok m' /\
    (is_ok r = true <-> acceptable p) /\
    match r with
    | Err _ => m' = m
    | Ok None => first_piece m' <> None
    | Ok (Some q) =>
      transaction_id q = transaction_id p /\ from_peer q = from_peer p /\
      ((q = p /\ m' = m) \/ (total_pieces q = 1 /\ descriptor q <> None))
    end.
Proof. exact (feed_total m p now). Qed.

Definition merge_sample : RpcPacket :=
  {| from_peer := 5; to_peer := 6; transaction_id := 9; descriptor := None; rpc_body := [1; 2];
     is_request := true; total_pieces := 3; piece_idx := 1; trace_id := 0;
     compression_info := None |}.

Lemma feed_errors_witness :
  exists m' r, feed (PacketMerger_new 0) merge_sample 4 = Ret (m', r) /\
    len (pieces m') = 3 /\ is_ok r = true /\ acceptable merge_sample.
Proof.
  destruct (feed_errors (PacketMerger_new 0) merge_sample 4) as (m' & r & He & _ & Hr & _).
  - apply PacketMerger_new_ok.
  - vm_compute. split; congruence.
  - vm_compute. split; congruence.
  - exists m', r. split; [exact He|].
    assert (acceptable merge_sample) as Ha by (right; vm_compute; done).
    split; [|split; [by apply Hr|exact Ha]].
    vm_compute in He. by injection He as <- _.
Defined.

(** ** Compression of messages *)

(** The attempts of the decompressor reach exactly this size. *)
Lemma zstd_attempts_exact `{z : Zstd, !ZstdLaws z} d c a :
  zstd_bulk_compress d = Some c -> Z.max (32 * len c) 65536 < len d ->
  zstd_attempts c a [1; 2; 3; 4; 5] = Err (TooManyAttempts a).
Proof.
  intros Hc Hd. cbn [zstd_attempts Z.eqb Pos.eqb andb].
  rewrite !(zstd_law _ _ _ Hc). cbv zeta. pose proof (len_nonneg c).
  do 4 (rewrite (proj2 (Z.leb_gt _ _)) by lia).
  by destruct (_ <? _) eqn:E; bools; rewrite (proj2 (Z.leb_gt _ _)) by lia.
Qed.

Lemma rpc_compress_cases `{z : Zstd} accepted content out a :
  compress_packet accepted content = Ok (out, a) ->
  (out = content /\ a = PbNone) \/
  (a = PbZstd /\ zstd_available = true /\ zstd_bulk_compress content = Some out /\
   len out < len content).
Proof.
  unfold compress_packet. destruct accepted; cbn [CompressorAlgo_try_from];
    try (cbn; rewrite (proj2 (Z.leb_le _ _)) by lia; intros; simplify_eq; by left).
  unfold CompressorAlgo_is_available. destruct zstd_available eqn:Ea.
  2:{ cbn. rewrite (proj2 (Z.leb_le _ _)) by lia. intros; simplify_eq. by left. }
  cbn [compress_raw]. unfold zstd_compress. rewrite Ea.
  destruct (zstd_bulk_compress content) as [c|] eqn:Ec; [|done].
  destruct (_ <=? _) eqn:E; cbn [CompressionAlgoPb_try_from]; intros; simplify_eq; bools; [by left|]. right. by split_and!.
Qed.

(** What [compress_packet] returns is never longer than the content, is
    marked with the algorithm that was really used, and decompresses to the
    content, byte for byte, exactly when the content was sent as it is or is
    at most 32 times its compressed form or 64 KiB; otherwise the receiver
    gives up with [TooManyAttempts] and the message is lost. *)
Theorem rpc_compression_exact `{z : Zstd, !ZstdLaws z} (accepted a : CompressionAlgoPb)
    (content out : list Z) :
  compress_packet accepted content = Ok (out, a) ->
  len out <= len content /\
  decompress_packet a out =
    if bool_decide (a = PbNone) || (len content <=? Z.max (32 * len out) 65536)
    then Ok content else Err (CompressionError (TooManyAttempts ZstdDefault)).
Proof.
  intros [(-> & ->)|(-> & Ha & Hc & Hl)]%rpc_compress_cases; [split; [lia|done]|].
  split; [lia|]. rewrite bool_decide_false by done. cbn [orb].
  unfold decompress_packet. cbn [CompressorAlgo_try_from decompress_raw].
  unfold zstd_decompress. rewrite Ha.
  destruct (_ <=? _) eqn:E; bools.
  - by rewrite (zstd_attempts_ok content).
  - by rewrite (zstd_attempts_exact content).
Qed.

Lemma rpc_compression_exact_witness :
  exists out, @compress_packet zeros_zstd PbZstd (repeat 0 40) = Ok (out, PbZstd) /\
    len out = 1 /\ @decompress_packet zeros_zstd PbZstd out = Ok (repeat 0 40).
Proof.
  exists [40]. split; [reflexivity|]. split; [reflexivity|].
  refine (eq_trans (proj2 (@rpc_compression_exact zeros_zstd zeros_zstd_laws PbZstd PbZstd
    (repeat 0 40) [40] eq_refl)) _).
  vm_compute. reflexivity.
Defined.

(** ** A codec with the laws, for the witnesses *)

Module Codec.
(** The fields other than body and piece numbers, as a list of lists. *)
Definition key (p : RpcPacket) : list (list Z) :=
  [from_peer p; to_peer p; transaction_id p; Z.b2z (is_request p); trace_id p]
  :: match compression_info p with
     | None => [] | Some i => [info_algo i; info_accepted_algo i] end
  :: match descriptor p with
     | None => []
     | Some d => [[method_index d]; domain_name d; proto_name d; service_name d] end.

Definition of_key (k : list (list Z)) (total idx : Z) (body : list Z) : option RpcPacket :=
  match k with
  | [f; t; tid; r; tr] :: ci :: d =>
    Some {| from_peer := f; to_peer := t; transaction_id := tid;
      descriptor := match d with
        | [[mi]; dn; pn; sn] => Some {| domain_name := dn; proto_name := pn;
            service_name := sn; method_index := mi |}
        | _ => None end;
      rpc_body := body; is_request := r =? 1; total_pieces := total; piece_idx := idx;
      trace_id := tr;
      compression_info := match ci with
        | [a; b] => Some {| info_algo := a; info_accepted_algo := b |} | _ => None end |}
  | _ => None
  end.

Fixpoint bits (p : positive) : list Z :=
  match p with xH => [2] | xO p => 0 :: bits p | xI p => 1 :: bits p end.
Fixpoint of_bits (l : list Z) : option (positive * list Z) :=
  match l with
  | [] => None
  | b :: l =>
    if b =? 2 then Some (1%positive, l) else
    '(p, r) ← of_bits l; Some (if b =? 0 then xO p else xI p, r)
  end.

Definition body_field (b : list Z) : list Z :=
  if len b =? 0 then [] else 42 :: repeat 128 (Z.to_nat (varint_len (len b) - 1)) ++ 0 :: b.
Fixpoint skip_varint (l : list Z) : list Z :=
  match l with [] => [] | b :: l => if b =? 0 then l else skip_varint l end.

Definition enc (p : RpcPacket) : list Z :=
  bits (encode (key p)) ++ le_encode 4 (total_pieces p) ++ le_encode 4 (piece_idx p)
  ++ body_field (rpc_body p).
Definition dec (l : list Z) : option RpcPacket :=
  '(p, r) ← of_bits l;
  k ← decode p;
  of_key k (le_decode (take 4 r)) (le_decode (take 4 (drop 4 r)))
    (match drop 8 r with [] => [] | _ :: v => skip_varint v end).

#[export] Instance prost : ProstRpc :=
  {| valid_utf8 := fun _ => true; length_delimiter_len := varint_len;
     rpc_encode := enc; rpc_decode := dec |}.

Lemma of_bits_app p r : of_bits (bits p ++ r) = Some (p, r).
Proof. induction p as [p IH|p IH|]; cbn; [by rewrite IH..|done]. Qed.

Lemma skip_varint_app n b : skip_varint (repeat 128 n ++ 0 :: b) = b.
Proof. induction n; [done|]. exact IHn. Qed.

Lemma of_key_key p : of_key (key p) (total_pieces p) (piece_idx p) (rpc_body p) = Some p.
Proof. by destruct p as [? ? ? [[]|] ? [] ? ? ? [[]|]]. Qed.

Lemma of_key_pieces k t i b p :
  of_key k t i b = Some p -> total_pieces p = t /\ piece_idx p = i.
Proof. unfold of_key. intros. by repeat case_match; simplify_eq. Qed.

Lemma of_bits_ok l : forall p r, bytes_ok l -> of_bits l = Some (p, r) -> bytes_ok r.
Proof.
  induction l as [|b l IH]; intros p r Hl; [done|]. cbn [of_bits].
  inversion Hl; subst. destruct (b =? 2); [by intros [= _ <-]|].
  destruct (of_bits l) as [[q r']|]; [|done]. cbn. intros [= _ <-]. by eapply IH.
Qed.

Lemma le_decode_u32 l : bytes_ok l -> (length l <= 4)%nat -> u32 (le_decode l).
Proof.
  intros Hl Hn. pose proof (le_decode_range l Hl) as [? Hr]. split; [done|].
  eapply Z.lt_le_trans; [exact Hr|]. change (2 ^ 32) with (256 ^ 4).
  apply Z.pow_le_mono_r; [lia|]. unfold len. lia.
Qed.

Lemma body_field_spec b : 
  match body_field b with [] => [] | _ :: v => skip_varint v end = b.
Proof.
  unfold body_field. destruct b as [|x b]; [done|].
  rewrite (proj2 (Z.eqb_neq _ _)) by (rewrite len_cons; pose proof (len_nonneg b); lia).
  apply skip_varint_app.
Qed.

Lemma len_body_field b : len (body_field b) = body_field_len b.
Proof.
  unfold body_field, body_field_len. destruct (_ =? 0) eqn:E; [done|]. 
  rewrite len_cons, len_app, len_cons. unfold len at 1. rewrite repeat_length.
  pose proof (varint_len_pos (len b)). lia.
Qed.

Lemma len_enc p : len (enc p) =
  len (bits (encode (key p))) + 8 + body_field_len (rpc_body p).
Proof.
  unfold enc. rewrite !len_app, len_body_field. unfold len at 2 3. rewrite !length_le_encode. lia.
Qed.

Lemma bits_ok p : bytes_ok (bits p).
Proof. induction p; cbn; repeat constructor; (done || lia || assumption). Qed.

#[export] Instance prost_laws : ProstRpcLaws prost.
Proof.
  constructor; cbn.
  - done.
  - intros p (_ & _ & _ & _ & Ht & Hi & _). unfold dec, enc. rewrite of_bits_app.
    cbn [mbind option_bind]. rewrite decode_encode. cbn [mbind option_bind].
    rewrite take_app_length' by (by rewrite length_le_encode).
    rewrite drop_app_length' by (by rewrite length_le_encode).
    rewrite take_app_length' by (by rewrite length_le_encode).
    replace 8%nat with (4 + 4)%nat by lia. rewrite <- drop_drop.
    rewrite drop_app_length' by (by rewrite length_le_encode).
    rewrite drop_app_length' by (by rewrite length_le_encode).
    rewrite body_field_spec, !le_decode_encode by done. apply of_key_key.
  - intros b p Hb. unfold dec. destruct (of_bits b) as [[q r]|] eqn:Eb; [|done].
    cbn [mbind option_bind]. destruct (decode q) as [k|]; [|done]. cbn [mbind option_bind].
    intros Hk. apply of_key_pieces in Hk as [-> ->]. pose proof (of_bits_ok b q r Hb Eb) as Hr.
    split; (apply le_decode_u32; [by repeat (apply Forall_take || apply Forall_drop)|
      rewrite length_take; lia]).
  - intros p Hb. unfold bytes_ok, enc. rewrite !Forall_app.
    split_and!; [apply bits_ok|apply le_encode_ok|apply le_encode_ok|].
    unfold body_field. destruct (len (rpc_body p) =? 0); [constructor|]. constructor; [done|].
    apply Forall_app_2; [|by constructor]. apply Forall_forall.
    by intros x ->%list_elem_of_In%repeat_spec.
  - intros p. rewrite !len_enc.
    change (key (set_pieces p _ _ [])) with (key p).
    change (body_field_len (rpc_body (set_pieces _ _ _ []))) with 0. lia.
  - intros p t i _ _. by rewrite !len_enc.
Qed.
End Codec.

Definition sample_args (content : list Z) : BuildRpcPacketArgs :=
  {| a_from_peer := 7; a_to_peer := 9;
     a_rpc_desc := {| domain_name := [110]; proto_name := [112]; service_name := [115];
                      method_index := 1 |};
     a_transaction_id := -3; a_is_req := true; a_content := content; a_trace_id := 0;
     a_compression_info := {| info_algo := 1; info_accepted_algo := 2 |} |}.

Lemma sample_args_wf content : bytes_ok content -> @args_wf Codec.prost (sample_args content).
Proof. intros. unfold args_wf, rpc_desc_wf, rpc_info_wf, in_range; cbn. split_and!; try done; lia. Qed.

Definition sample_content : list Z := repeat 77 2500.

Lemma sample_content_ok : bytes_ok sample_content.
Proof. apply Forall_forall. by intros x ->%list_elem_of_In%repeat_spec. Qed.

Definition sample_ranges : list (Z * Z) :=
  default [] (@split_rpc_content_for_udp_budget Codec.prost (sample_args sample_content)).

Lemma split_merge_round_trip_witness :
  length sample_ranges = 3%nat /\
  exists zcs ps, @build_rpc_packet Codec.prost (fun _ => 0) (sample_args sample_content)
      = Some (Ret zcs) /\
    exists m', forall ds, map fst ds.1 = ps -> ds.2 = [0; 1; 2]%nat ->
      length ps = 3%nat ->
      exists m2, feed_all m' ds.1 = Ret (m2, [Ok None; Ok None; Ok (Some (whole (sample_args sample_content)))]).
Proof.
  split; [vm_compute; reflexivity|].
  destruct (@split_merge_round_trip Codec.prost Codec.prost_laws (fun _ => 0)
    (sample_args sample_content) (sample_args_wf _ sample_content_ok)) as (zcs & ps & Hb & _ & Hf).
  { intros rs Hrs. apply (f_equal (default [])) in Hrs.
    change (sample_ranges = rs) in Hrs. rewrite <- Hrs. vm_compute. congruence. }
  exists zcs, ps. split; [exact Hb|]. exists (PacketMerger_new 0). intros ds Hd Hi Hl.
  destruct (Hf (PacketMerger_new 0) ds I) as [m2 Hm].
  - destruct ds as [l i]; cbn [fst snd] in Hi, Hd |- *. subst ps i. clear -Hl. rewrite length_map in Hl.
    destruct l as [|a [|b [|c [|]]]]; try discriminate. by repeat constructor.
  - exists m2. rewrite Hm, Hi, Hl. reflexivity.
Defined.

Lemma pieces_within_budget_witness :
  exists zcs, @build_rpc_packet Codec.prost (fun _ => 0) (sample_args sample_content)
      = Some (Ret zcs) /\
    forall zc b, zc ∈ zcs -> payload zc = Ret b -> len b + 24 + TAIL_RESERVED_SIZE <= 1300.
Proof.
  pose proof (sample_args_wf _ sample_content_ok) as Hwf.
  destruct (@split_total Codec.prost Codec.prost_laws (sample_args sample_content)) as (rs & Hrs & Hs).
  destruct (@build_total Codec.prost (sample_args sample_content) Hwf (fun _ => 0) rs Hrs Hs)
    as (zcs & E & _).
  { apply (f_equal (default [])) in Hrs. change (sample_ranges = rs) in Hrs. rewrite <- Hrs.
    vm_compute. reflexivity. }
  exists zcs. split; [exact E|]. intros zc b Hin Hp.
  refine (@pieces_within_budget Codec.prost Codec.prost_laws (fun _ => 0)
    (sample_args sample_content) zcs zc b Hwf _ _ _ E Hin Hp);
    vm_compute; congruence.
Defined.
