(* ===== verification/RpcRuntime.v ===== *)
(** The RPC client and server: [rpc/client.rs], [rpc/server.rs],
    [rpc/service_registry.rs], [rpc/dispatch.rs] and the routing of
    [rpc/bidirect.rs].  Each receive loop is a step on its state for one
    packet, each timer a step for one tick; a call is its start (what it sends)
    and its end (what it makes of the answer).  Services are records of
    operations; clock readings, in milliseconds, are arguments. *)

From S2P Require Import Prelude Headers Packet Compressor Rpc.
From stdpp Require Import gmap list.
Local Open Scope Z_scope.

(** ** Messages and errors on the wire *)

Inductive ErrorKind :=
  | PbOtherError (msg : list Z)
  | PbInvalidMethodIndex (service : list Z) (i : Z)
  | PbInvalidService (service : list Z)
  | PbProstDecodeError
  | PbProstEncodeError
  | PbExecuteError (msg : list Z)
  | PbMalformatRpcPacket (msg : list Z)
  | PbTimeout (msg : list Z).

Record RpcRequest := { req_request : list Z; req_timeout_ms : Z }.
(** [error] is a message with an optional kind. *)
Record RpcResponse := {
  resp_response : list Z; resp_error : option (option ErrorKind); resp_runtime_us : Z }.

(** The protobuf code of the two messages, and the [{:?}] text of strings and
    errors. *)
Class RpcMessages := {
  request_encode : RpcRequest -> list Z;
  request_decode : list Z -> option RpcRequest;
  response_encode : RpcResponse -> list Z;
  response_decode : list Z -> option RpcResponse;
  debug_str : list Z -> list Z;
  debug_err : RpcError -> list Z }.

Definition request_wf (r : RpcRequest) : Prop :=
  bytes_ok (req_request r) /\ - 2 ^ 31 <= req_timeout_ms r < 2 ^ 31.
Definition response_wf (r : RpcResponse) : Prop :=
  bytes_ok (resp_response r) /\ u64 (resp_runtime_us r).

(** A message decodes to what was encoded, and an encoding is bytes. *)
Class RpcMessagesLaws (rm : RpcMessages) := {
  request_decode_law r : request_wf r -> request_decode (request_encode r) = Some r;
  request_encode_bytes r : request_wf r -> bytes_ok (request_encode r);
  response_decode_law r : response_wf r -> response_decode (response_encode r) = Some r;
  response_encode_bytes r : response_wf r -> bytes_ok (response_encode r) }.

Section errors.
Context {rm : RpcMessages}.

(** [From<&rpc_types::error::Error> for Error]. *)
Definition error_to_pb (e : RpcError) : option ErrorKind :=
  Some match e with
  | ExecutionError _ | CompressionError _ | InvalidCompressionAlgo _ => PbExecuteError (debug_err e)
  | RpcDecodeError => PbProstDecodeError
  | RpcEncodeError => PbProstEncodeError
  | InvalidMethodIndex m s => PbInvalidMethodIndex (debug_str s) m
  | InvalidServiceKey s _ => PbInvalidService (debug_str s)
  | MalformatRpcPacket _ => PbMalformatRpcPacket (debug_err e)
  | RpcTimeout => PbTimeout (debug_err e)
  | _ => PbOtherError (debug_err e)
  end.

(** The text of an error message without a kind. *)
Context (unknown_error : list Z).

(** [From<&Error> for rpc_types::error::Error]. *)
Definition error_from_pb (e : option ErrorKind) : RpcError :=
  match e with
  | Some (PbExecuteError m) => ExecutionError m
  | Some PbProstDecodeError => RpcDecodeError
  | Some PbProstEncodeError => RpcEncodeError
  | Some (PbInvalidMethodIndex s i) => InvalidMethodIndex (wrap 8 i) s
  | Some (PbInvalidService s) => InvalidServiceKey s []
  | Some (PbMalformatRpcPacket m) => MalformatRpcPacket (Malformat m)
  | Some (PbTimeout m) => ExecutionError m
  | Some (PbOtherError m) => ExecutionError m
  | None => ExecutionError unknown_error
  end.
End errors.

(** ** The service registry *)

(** A registered service: [svc_handle] is the handler's future, [None] when it
    does not finish in the time it is given, and the raw output it left in the
    controller. *)
Record Service := {
  svc_name : list Z; svc_proto_name : list Z;
  svc_method_name : Z -> option (list Z);
  svc_handle : Z -> list Z -> option Z -> option (result RpcError (list Z)) * option (list Z) }.

(** [ServiceKey]: domain, service and proto name. *)
Abbreviation ServiceKey := (list Z * list Z * list Z)%type.
Definition ServiceKey_from (d : RpcDescriptor) : ServiceKey :=
  (domain_name d, service_name d, proto_name d).
Abbreviation ServiceRegistry := (gmap ServiceKey Service).

Definition replace_registry (self registry : ServiceRegistry) : ServiceRegistry :=
  map_fold (fun k v t => <[k := v]> t) ∅ registry.
Definition register (t : ServiceRegistry) (h : Service) (domain : list Z) : ServiceRegistry :=
  <[(domain, svc_name h, svc_proto_name h) := h]> t.
Definition unregister (t : ServiceRegistry) (h : Service) (domain : list Z)
    : ServiceRegistry * option unit :=
  let key := (domain, svc_name h, svc_proto_name h) in
  (delete key t, (fun _ => tt) <$> t !! key).
Definition unregister_by_domain (t : ServiceRegistry) (domain : list Z) : ServiceRegistry :=
  filter (fun kv => kv.1.1.1 <> domain) t.
Definition unregister_all (t : ServiceRegistry) : ServiceRegistry := ∅.

(** [Handler::get_method_from_index]. *)
Definition get_method_from_index (h : Service) (i : Z) : result RpcError (list Z) :=
  match svc_method_name h i with
  | Some n => Ok n
  | None => Err (InvalidMethodIndex i (svc_name h))
  end.

Definition get_method_name (t : ServiceRegistry) (d : RpcDescriptor) : option (list Z) :=
  h ← t !! ServiceKey_from d;
  match get_method_from_index h (wrap 8 (method_index d)) with Ok n => Some n | Err _ => None end.

(** [call_method], given the time the caller waits. *)
Definition call_method (t : ServiceRegistry) (d : RpcDescriptor) (input : list Z)
    (timeout : option Z) : option (result RpcError (list Z)) * option (list Z) :=
  match t !! ServiceKey_from d with
  | None => (Some (Err (InvalidServiceKey (service_name d) (proto_name d))), None)
  | Some h =>
    let i := wrap 8 (method_index d) in
    match get_method_from_index h i with
    | Err e => (Some (Err e), None)
    | Ok _ => svc_handle h i input timeout
    end
  end.

Definition dispatch_payload (t : ServiceRegistry) (d : RpcDescriptor) (raw_request : list Z)
    (timeout_duration : option Z) : result RpcError (list Z) :=
  match call_method t d raw_request timeout_duration with
  | (None, _) => Err RpcTimeout
  | (Some (Err e), _) => Err e
  | (Some (Ok response), raw_output) => Ok (default response raw_output)
  end.

(** [timeout_ms as u64]: negative values become huge. *)
Definition dispatch_request (t : ServiceRegistry) (d : RpcDescriptor) (r : RpcRequest)
    : result RpcError (list Z) :=
  dispatch_payload t d (req_request r) (Some (wrap 64 (req_timeout_ms r))).

(** ** Routing between client and server (bidirect.rs) *)

Inductive RpcRoute := ToServer | ToClient | NotRpc | NoHeader.

Definition route_rpc_packet (o : ZCPacket) : RpcRoute :=
  match peer_manager_header o with
  | None => NoHeader
  | Some h =>
    if pm_packet_type h =? PacketType_as_u8 RpcReq then ToServer
    else if pm_packet_type h =? PacketType_as_u8 RpcResp then ToClient
    else NotRpc
  end.

(** ** The server *)

Section server.
Context {pr : ProstRpc} {rm : RpcMessages} {z : Zstd}.

(** [PacketMergerKey]: peer and transaction. *)
Record Server := { packet_mergers : gmap (Z * Z) PacketMerger; srv_stopped : bool }.

(** What the receive loop does with a packet: ignore it, hand a request to
    [handle_rpc], or end. *)
Inductive SrvOutcome := SrvNothing | SrvHandle (q : RpcPacket) | SrvExit.

Definition server_on_packet (s : Server) (o : ZCPacket) (now : Z) : comp (Server * SrvOutcome) :=
  b ← payload o;
  match rpc_decode b with
  | None => Ret (s, SrvNothing)
  | Some packet =>
    if negb (is_request packet) then Ret (s, SrvNothing) else
    let key := (from_peer packet, transaction_id packet) in
    let m := default (PacketMerger_new now) (packet_mergers s !! key) in
    '(m, ret) ← feed m packet now;
    let s := {| packet_mergers := <[key := m]> (packet_mergers s); srv_stopped := srv_stopped s |} in
    match ret with
    | Ok (Some q) =>
      let s := {| packet_mergers := delete key (packet_mergers s); srv_stopped := srv_stopped s |} in
      if srv_stopped s then Ret (s, SrvExit) else Ret (s, SrvHandle q)
    | Ok None => Ret (s, SrvNothing)
    | Err _ => Ret (s, SrvNothing)
    end
  end.

(** The timer: mergers idle for ten seconds go. *)
Definition server_cleanup (s : Server) (now : Z) : Server :=
  {| packet_mergers :=
       filter (fun kv => (now - last_updated kv.2) / 1000 < 10) (packet_mergers s);
     srv_stopped := srv_stopped s |}.

Definition handle_rpc_request (reg : ServiceRegistry) (packet : RpcPacket) (d : RpcDescriptor)
    : result RpcError (list Z) :=
  let body :=
    match compression_info packet with
    | Some ci => decompress_packet (algo_of_i32 (info_algo ci)) (rpc_body packet)
    | None => Ok (rpc_body packet)
    end in
  match body with
  | Err e => Err e
  | Ok b =>
    match request_decode b with
    | None => Err RpcDecodeError
    | Some r => dispatch_request reg d r
    end
  end.

(** The arguments of [build_rpc_packet] for an answer. *)
Definition response_args (packet : RpcPacket) (desc : RpcDescriptor) (compressed : list Z)
    (algo : CompressionAlgoPb) : BuildRpcPacketArgs :=
  {| a_from_peer := to_peer packet; a_to_peer := from_peer packet; a_rpc_desc := desc;
     a_transaction_id := transaction_id packet; a_is_req := false;
     a_content := compressed; a_trace_id := trace_id packet;
     a_compression_info :=
       {| info_algo := algo_i32 algo;
          info_accepted_algo := algo_i32 accepted_compression_algo |} |}.

(** The answer to the result of a request. *)
Definition make_response (r : result RpcError (list Z)) (runtime : Z) : RpcResponse :=
  match r with
  | Ok r => {| resp_response := r; resp_error := None; resp_runtime_us := runtime |}
  | Err e => {| resp_response := []; resp_error := Some (error_to_pb e);
                resp_runtime_us := runtime |}
  end.

(** [handle_rpc]: the packets of the answer; [runtime] is its duration.  The
    result of [compress_packet] is unwrapped. *)
Definition handle_rpc (g : nat -> Z) (reg : ServiceRegistry) (packet : RpcPacket) (runtime : Z)
    : option (comp (list ZCPacket)) :=
  match descriptor packet with
  | None => Some (Ret [])
  | Some desc =>
    let resp := make_response (handle_rpc_request reg packet desc) runtime in
    let accepted := algo_of_i32 (info_accepted_algo
      (default default_compression_info (compression_info packet))) in
    match compress_packet accepted (response_encode resp) with
    | Err _ => Some Panic
    | Ok (compressed_resp, algo) =>
      build_rpc_packet g (response_args packet desc compressed_resp algo)
    end
  end.
End server.

(** ** The client *)

Section client.
Context {pr : ProstRpc} {rm : RpcMessages} {z : Zstd} (unknown_error : list Z).

(** An outstanding call: its merger and the channel to it, with what was sent
    and whether the receiver is still there. *)
Record InflightRequest := {
  inf_merger : PacketMerger; inf_sent : list RpcPacket; inf_open : bool }.

Record PeerInfo := { pi_compression_info : RpcCompressionInfo; pi_last_active : option Z }.
Definition default_peer_info : PeerInfo :=
  {| pi_compression_info := default_compression_info; pi_last_active := None |}.

(** [InflightRequestKey]: the caller, the callee and the transaction. *)
Record Client := {
  inflight_requests : gmap (Z * Z * Z) InflightRequest;
  peer_info : gmap Z PeerInfo;
  cur_tid : Z }.

Definition set_inflight (c : Client) (t : gmap (Z * Z * Z) InflightRequest) : Client :=
  {| inflight_requests := t; peer_info := peer_info c; cur_tid := cur_tid c |}.

Definition client_on_packet (c : Client) (o : ZCPacket) (now : Z) : comp Client :=
  b ← payload o;
  match rpc_decode b with
  | None => Ret c
  | Some packet =>
    if is_request packet then Ret c else
    let key := (to_peer packet, from_peer packet, transaction_id packet) in
    match inflight_requests c !! key with
    | None => Ret c
    | Some inf =>
      '(m, ret) ← feed (inf_merger inf) packet now;
      match ret with
      | Ok (Some q) =>
        if inf_open inf
        then Ret (set_inflight c (<[key := {| inf_merger := m; inf_sent := inf_sent inf ++ [q];
                                               inf_open := true |}]> (inflight_requests c)))
        else Ret (set_inflight c (delete key (inflight_requests c)))
      | _ => Ret (set_inflight c (<[key := {| inf_merger := m; inf_sent := inf_sent inf;
                                               inf_open := inf_open inf |}]> (inflight_requests c)))
      end
    end
  end.

(** The timer: peers unheard of for two minutes are forgotten. *)
Definition client_cleanup (c : Client) (now : Z) : Client :=
  {| inflight_requests := inflight_requests c;
     peer_info := filter (fun kv =>
       match pi_last_active kv.2 with Some t => now - t <? 120000 | None => true end = true)
       (peer_info c);
     cur_tid := cur_tid c |}.

(** The arguments of [build_rpc_packet] for a request. *)
Definition request_args (from to tid : Z) (rpc_desc : RpcDescriptor) (buf : list Z) (trace : Z)
    (c_algo : CompressionAlgoPb) : BuildRpcPacketArgs :=
  {| a_from_peer := from; a_to_peer := to; a_rpc_desc := rpc_desc; a_transaction_id := tid;
     a_is_req := true; a_content := buf; a_trace_id := trace;
     a_compression_info :=
       {| info_algo := algo_i32 c_algo;
          info_accepted_algo := algo_i32 accepted_compression_algo |} |}.

(** The first part of [call]: a transaction number, an entry in the table and
    the packets of the request ([raw_input] is what the controller holds). *)
Definition call_start (g : nat -> Z) (c : Client) (from to : Z) (rpc_desc : RpcDescriptor)
    (raw_input : option (list Z)) (input : list Z) (timeout_ms trace now : Z)
    : Client * Z * option (comp (list ZCPacket)) :=
  let tid := cur_tid c in
  let c := {| inflight_requests :=
                <[(from, to, tid) := {| inf_merger := PacketMerger_new now; inf_sent := [];
                                        inf_open := true |}]> (inflight_requests c);
              peer_info := peer_info c;
              cur_tid := wrap 64 (tid + 1 + 2 ^ 63) - 2 ^ 63 |} in
  let rpc_req := {| req_request := default input raw_input; req_timeout_ms := timeout_ms |} in
  let info := default default_peer_info (peer_info c !! to) in
  (c, tid,
   match compress_packet (algo_of_i32 (info_accepted_algo (pi_compression_info info)))
           (request_encode rpc_req) with
   | Err _ => Some Panic
   | Ok (buf, c_algo) =>
     build_rpc_packet g (request_args from to tid rpc_desc buf trace c_algo)
   end).

(** What the wait ends with: the channel's first packet, a failed send or a
    closed channel, or the timeout. *)
Inductive RpcWait := WaitPacket (q : RpcPacket) | WaitError (e : RpcError) | WaitTimeout.

(** The second part of [call], and the guard that takes the entry away. *)
Definition call_finish (c : Client) (from to tid : Z) (w : RpcWait) (now : Z)
    : comp (Client * result RpcError (list Z)) :=
  let cleanup (c : Client) := set_inflight c (delete (from, to, tid) (inflight_requests c)) in
  match w with
  | WaitError e => Ret (cleanup c, Err e)
  | WaitTimeout => Ret (cleanup c, Err RpcTimeout)
  | WaitPacket q =>
    let '(c, body) :=
      match compression_info q with
      | Some ci =>
        ({| inflight_requests := inflight_requests c;
            peer_info := <[to := {| pi_compression_info := ci; pi_last_active := Some now |}]>
              (peer_info c);
            cur_tid := cur_tid c |},
         decompress_packet (algo_of_i32 (info_algo ci)) (rpc_body q))
      | None => (c, Ok (rpc_body q))
      end in
    match body with
    | Err e => Ret (cleanup c, Err e)
    | Ok b =>
      if negb (transaction_id q =? tid) then Panic else
      match response_decode b with
      | None => Ret (cleanup c, Err RpcDecodeError)
      | Some resp =>
        match resp_error resp with
        | Some e => Ret (cleanup c, Err (error_from_pb unknown_error e))
        | None => Ret (cleanup c, Ok (resp_response resp))
        end
      end
    end
  end.
End client.
