(* ===== verification/RpcProofs.v ===== *)
(** Theorems about the RPC client and server: requests are handled exactly
    once whatever else arrives, and a call returns what the service
    answered. *)

From S2P Require Import Prelude Headers Packet Compressor Rpc RpcRuntime.
From stdpp Require Import gmap list.
Local Open Scope Z_scope.
Local Set Warnings "-clear-no-such-hyp".

(** ** Runs *)

Inductive SrvEvent := EvPacket (o : ZCPacket) (now : Z) | EvTick (now : Z).

Section runs.
Context {pr : ProstRpc} {Hpr : ProstRpcLaws pr}.

(** The receive loop and the timer, with the requests handed to [handle_rpc]. *)
Fixpoint server_run (s : Server) (evs : list SrvEvent) : comp (Server * list RpcPacket) :=
  match evs with
  | [] => Ret (s, [])
  | EvTick now :: evs => server_run (server_cleanup s now) evs
  | EvPacket o now :: evs =>
    '(s, out) ← server_on_packet s o now;
    match out with
    | SrvExit => Ret (s, [])
    | SrvNothing => server_run s evs
    | SrvHandle q => '(s, qs) ← server_run s evs; Ret (s, q :: qs)
    end
  end.

Fixpoint client_run (c : Client) (evs : list (ZCPacket * Z)) : comp Client :=
  match evs with
  | [] => Ret c
  | (o, now) :: evs => c ← client_on_packet c o now; client_run c evs
  end.

(** The message a packet carries, if it is of the kind the loop takes. *)
Definition carried (o : ZCPacket) : option RpcPacket :=
  match payload o with Ret b => rpc_decode b | Panic => None end.
Definition request_key (o : ZCPacket) : option (Z * Z) :=
  p ← carried o; if is_request p then Some (from_peer p, transaction_id p) else None.
Definition response_key (o : ZCPacket) : option (Z * Z * Z) :=
  p ← carried o;
  if is_request p then None else Some (to_peer p, from_peer p, transaction_id p).

(** A packet the routing task passed on: its header is readable. *)
Definition arrived (o : ZCPacket) : Prop :=
  bytes_ok (inner o) /\ route_rpc_packet o <> NoHeader.

Lemma arrived_payload o : arrived o -> exists b, payload o = Ret b /\ bytes_ok b.
Proof using.
  intros [Hb Hr]. unfold route_rpc_packet in Hr.
  destruct (peer_manager_header o) as [h|] eqn:Eh; [|done].
  apply header_has_header in Eh. rewrite payload_in by done. eexists. split; [done|].
  by apply Forall_drop.
Qed.

(** *** The server, one key at a time *)

Definition server_ok (s : Server) : Prop :=
  map_Forall (fun _ m => merger_ok m) (packet_mergers s).

Lemma server_merger_ok s k now :
  server_ok s -> merger_ok (default (PacketMerger_new now) (packet_mergers s !! k)).
Proof using.
  intros Hs. destruct (packet_mergers s !! k) as [m|] eqn:E; [|done]. by apply (Hs k).
Qed.

(** One packet: the loop does not panic, touches only the entry of the
    packet's key, and hands over only messages of that key. *)
Lemma server_step s o now :
  server_ok s -> arrived o ->
  exists s' out, server_on_packet s o now = Ret (s', out) /\ server_ok s' /\
    srv_stopped s' = srv_stopped s /\ (out = SrvExit -> srv_stopped s = true) /\
    (forall k, request_key o <> Some k -> packet_mergers s' !! k = packet_mergers s !! k) /\
    (forall q, out = SrvHandle q -> request_key o = Some (from_peer q, transaction_id q)).
Proof using Hpr.
  intros Hs Ha. destruct (arrived_payload o Ha) as (b & Hb & Hok).
  unfold server_on_packet, request_key, carried. rewrite Hb. cbn [mbind comp_bind].
  destruct (rpc_decode b) as [p|] eqn:Ed; cbn [mbind option_bind];
    [|exists s, SrvNothing; by split_and!].
  destruct (is_request p); cbn [negb]; [|exists s, SrvNothing; by split_and!].
  destruct (rpc_decode_wf b p Hok Ed) as [Ht Hi].
  destruct (feed_total _ p now (server_merger_ok s (from_peer p, transaction_id p) now Hs) Ht Hi)
    as (m' & r & He & Hm' & _ & Hr).
  rewrite He. cbn [mbind comp_bind].
  assert (forall k, Some (from_peer p, transaction_id p) <> Some k ->
    (from_peer p, transaction_id p) <> k) as Hne by congruence.
  destruct r as [[q|]|e].
  - destruct Hr as (Htid & Hfr & _).
    set (s2 := {| packet_mergers := delete _ _; srv_stopped := _ |}).
    assert (server_ok s2) as Hs2.
    { intros k m. subst s2. cbn. intros [? Hk]%lookup_delete_Some.
      rewrite lookup_insert_ne in Hk by done. by apply (Hs k). }
    exists s2, (if srv_stopped s then SrvExit else SrvHandle q).
    split; [by subst s2; destruct (srv_stopped s)|]. split_and!; try done.
    + by destruct (srv_stopped s).
    + intros k Hk%Hne. subst s2. cbn. by rewrite lookup_delete_ne, lookup_insert_ne.
    + destruct (srv_stopped s); [done|]. intros ? [= <-]. by rewrite Htid, Hfr.
  - eexists _, SrvNothing. split; [done|]. split_and!; try done.
    + by apply map_Forall_insert_2.
    + intros k Hk%Hne. cbn. by rewrite lookup_insert_ne.
  - eexists _, SrvNothing. split; [done|]. split_and!; try done.
    + by apply map_Forall_insert_2.
    + intros k Hk%Hne. cbn. by rewrite lookup_insert_ne.
Qed.

Lemma server_cleanup_ok s now : server_ok s -> server_ok (server_cleanup s now).
Proof using. intros Hs k m. cbn. intros [Hk _]%map_lookup_filter_Some. by apply (Hs k). Qed.

Definition key_packets (k : Z * Z) (evs : list SrvEvent) : list ZCPacket :=
  omap (fun ev => match ev with
    | EvPacket o _ => if decide (request_key o = Some k) then Some o else None
    | EvTick _ => None end) evs.
Definition handled_of (k : Z * Z) (hs : list RpcPacket) : list RpcPacket :=
  filter (fun q => (from_peer q, transaction_id q) = k) hs.

(** Events of the ten seconds from [t0] on. *)
Definition event_ok (t0 : Z) (ev : SrvEvent) : Prop :=
  match ev with
  | EvPacket o now => arrived o /\ t0 <= now
  | EvTick now => now < t0 + 10000
  end.

(** Without packets of a key nothing of it is handled. *)
Lemma server_run_idle t0 k evs : forall s,
  server_ok s -> srv_stopped s = false -> Forall (event_ok t0) evs ->
  key_packets k evs = [] -> packet_mergers s !! k = None ->
  exists s' hs, server_run s evs = Ret (s', hs) /\ handled_of k hs = [] /\
    packet_mergers s' !! k = None.
Proof using Hpr.
  induction evs as [|[o now|now] evs IH]; intros s Hs Hst Hev Hk Hn; cbn [server_run].
  - by exists s, [].
  - apply Forall_cons in Hev as [Hev0 Hev']. cbn in Hev0. destruct Hev0 as [Ha Ht]. cbn in Hk.
    destruct (decide (request_key o = Some k)) as [|Hne]; [done|].
    destruct (server_step s o now Hs Ha) as (s1 & out & -> & Hs1 & Hst1 & Hex & Hfr & Hq).
    cbn [mbind comp_bind]. rewrite Hst in *.
    destruct (IH s1 Hs1 Hst1 Hev' Hk) as (s2 & hs & Hr & Hh & Hn2); [by rewrite Hfr|].
    destruct out as [|q|]; [by exists s2, hs| |by specialize (Hex eq_refl)].
    rewrite Hr. exists s2, (q :: hs). split; [done|]. split; [|done].
    unfold handled_of. rewrite filter_cons_False; [done|]. intros E. apply Hne.
    rewrite (Hq q eq_refl). by rewrite E.
  - apply Forall_cons in Hev as [_ Hev']. apply IH; auto using server_cleanup_ok.
    cbn. apply map_lookup_filter_None. by left.
Qed.

Section one_request.
Context (tid from : Z) (ps : list RpcPacket) (Hm : message tid from ps).
Context (t0 : Z) (k := (from, tid)).

Definition key_state (s : Server) (seen : list nat) : Prop :=
  match packet_mergers s !! k with
  | None => seen = []
  | Some m => progress tid from ps seen m /\ t0 <= last_updated m
  end.

Lemma key_state_progress s seen now :
  key_state s seen ->
  progress tid from ps seen (default (PacketMerger_new now) (packet_mergers s !! k)).
Proof using.
  unfold key_state. destruct (packet_mergers s !! k); [by intros []|]. intros ->. by left.
Qed.

Lemma key_state_tick s seen now :
  now < t0 + 10000 -> key_state s seen -> key_state (server_cleanup s now) seen.
Proof using.
  intros Hn. unfold key_state. cbn. rewrite map_lookup_filter.
  destruct (packet_mergers s !! k) as [m|]; [|done]. intros [Hp Hl]. cbn.
  rewrite option_guard_True; [done|]. apply Z.div_lt_upper_bound; lia.
Qed.

(** The step on a piece of the request. *)
Lemma server_piece s seen o now j p :
  key_state s seen -> srv_stopped s = false -> t0 <= now ->
  carried o = Some p -> is_request p = true -> ps !! j = Some p ->
  exists s', server_on_packet s o now =
      Ret (s', if covers (length ps) (j :: seen) then SrvHandle (merged ps) else SrvNothing) /\
    if covers (length ps) (j :: seen) then packet_mergers s' !! k = None
    else key_state s' (j :: seen).
Proof using Hm.
  intros Hks Hst Ht Hc Hreq Hj. unfold carried in Hc. unfold server_on_packet.
  destruct (payload o) as [b|]; [|done]. cbn [mbind comp_bind]. rewrite Hc, Hreq. cbn [negb].
  destruct (proj2 Hm j p Hj) as (_ & _ & -> & -> & _). fold k.
  destruct (feed_piece tid from ps Hm seen _ j p now (key_state_progress s seen now Hks) Hj)
    as (m' & -> & Hh & Hl).
  cbn [mbind comp_bind]. destruct (covers (length ps) (j :: seen)); eexists.
  - cbn. rewrite Hst. split; [done|]. cbn. by rewrite lookup_delete_eq.
  - split; [done|]. unfold key_state. cbn. rewrite lookup_insert_eq. split; [by right|lia].
Qed.

Lemma server_run_key evs : forall s seen js,
  server_ok s -> srv_stopped s = false -> Forall (event_ok t0) evs -> key_state s seen ->
  Forall2 (fun o j => exists p, carried o = Some p /\ is_request p = true /\ ps !! j = Some p)
    (key_packets k evs) js ->
  NoDup (js ++ seen) -> covers (length ps) (js ++ seen) = true -> js <> [] ->
  exists s' hs, server_run s evs = Ret (s', hs) /\ handled_of k hs = [merged ps] /\
    packet_mergers s' !! k = None.
Proof using Hpr Hm.
  induction evs as [|[o now|now] evs IH]; intros s seen js Hs Hst Hev Hks Hf Hnd Hcov Hne;
    cbn [server_run]; [by inversion Hf; subst| |].
  2:{ apply Forall_cons in Hev as [Hev0 Hev']. cbn in Hev0.
      eapply IH; eauto using server_cleanup_ok, key_state_tick. }
  apply Forall_cons in Hev as [Hev0 Hev']. cbn in Hev0. destruct Hev0 as [Ha Ht].
  destruct (server_step s o now Hs Ha) as (s1 & out & He & Hs1 & Hst1 & Hex & Hfr & Hq).
  rewrite Hst in *. cbn in Hf. destruct (decide (request_key o = Some k)) as [Hk|Hk].
  - inversion Hf as [|? j ? js' (p & Hc & Hreq & Hj) Hf']; subst.
    destruct (server_piece s seen o now j p Hks Hst Ht Hc Hreq Hj) as (s1' & He' & Hks').
    rewrite He in He'. injection He' as <- ->. rewrite He. cbn [mbind comp_bind].
    destruct (covers (length ps) (j :: seen)) eqn:Ec.
    + assert (js' = []) as ->.
      { destruct js' as [|i js']; [done|]. exfalso. inversion Hf' as [|? ? ? ? (p' & _ & _ & Hi) _]; subst.
        apply lookup_lt_Some in Hi. apply (proj1 (covers_spec _ _) Ec) in Hi.
        cbn in Hnd. apply NoDup_cons in Hnd as [Hnj [Hni _]%NoDup_cons].
        apply elem_of_cons in Hi as [->|Hi]; [apply Hnj; left|apply Hni, elem_of_app; by right]. }
      inversion Hf'; subst.
      destruct (server_run_idle t0 k evs s1) as (s2 & hs & -> & Hh & Hn2); [done..|].
      exists s2, (merged ps :: hs). split; [done|]. split; [|done].
      specialize (Hq _ eq_refl). rewrite Hk in Hq.
      unfold handled_of. rewrite filter_cons_True; [by f_equal|]. clearbody k. congruence.
    + assert (js' <> []) as Hne' by (intros ->; cbn in Hcov; by rewrite Ec in Hcov).
      apply (IH s1 (j :: seen) js'); try done.
      * apply (NoDup_Permutation_proper _ (j :: js' ++ seen)); [|done].
        symmetry. apply Permutation_middle.
      * apply covers_spec. intros i' Hi'. apply (proj1 (covers_spec _ _) Hcov) in Hi'.
        set_solver.
  - rewrite He. cbn [mbind comp_bind].
    assert (key_state s1 seen) as Hks1 by (unfold key_state; by rewrite Hfr).
    destruct (IH s1 seen js Hs1 Hst1 Hev' Hks1 Hf Hnd Hcov Hne) as (s2 & hs & Hr & Hh & Hn2).
    destruct out as [|q|]; [by exists s2, hs| |by specialize (Hex eq_refl)].
    rewrite Hr. exists s2, (q :: hs). split; [done|]. split; [|done].
    unfold handled_of. rewrite filter_cons_False; [done|]. intros E. apply Hk.
    rewrite (Hq q eq_refl). by rewrite E.
Qed.
End one_request.
End runs.

(** ** Packets of a built message *)

(** [o] has the payload of packet [j] of [zcs]. *)
Definition copy_of (zcs : list ZCPacket) (o : ZCPacket) (j : nat) : Prop :=
  exists zc, zcs !! j = Some zc /\ payload o = payload zc.

Section built.
Context {pr : ProstRpc} {Hpr : ProstRpcLaws pr}.

(** At most as many pieces as bytes, and one for an empty message. *)
Lemma split_small args rs :
  split_shape args rs -> len (a_content args) <= 32 * 1024 -> len rs <= 32 * 1024.
Proof using. intros [(_ & ->)|[_ Ht]] Hl; [by vm_compute|]. apply tiles_len in Ht. lia. Qed.

Lemma built_message g args zcs :
  args_wf args -> len (a_content args) <= 32 * 1024 ->
  build_rpc_packet g args = Some (Ret zcs) ->
  exists ps, message (a_transaction_id args) (a_from_peer args) ps /\ merged ps = whole args /\
    length ps = length zcs /\
    forall o j, copy_of zcs o j -> exists p, carried o = Some p /\ ps !! j = Some p /\
      is_request p = a_is_req args /\ to_peer p = a_to_peer args.
Proof using Hpr.
  intros Hwf Hl Hb. destruct (split_total args) as (rs & Hrs & Hs).
  pose proof (split_small args rs Hs Hl) as Hn.
  destruct (build_total args Hwf g rs Hrs Hs ltac:(lia)) as (zcs' & Hz & Hc).
  rewrite Hb in Hz. injection Hz as <-.
  exists (pieces_from args (len rs) 0 rs).
  split; [by apply shape_message|]. split; [by apply shape_merged|].
  split; [symmetry; by eapply Forall2_length|].
  intros o j (zc & Hzc & Hp). destruct (Forall2_lookup_l _ _ _ _ _ Hc Hzc) as (p & Hpj & Hpl & _).
  pose proof (shape_wf args Hwf rs ltac:(lia)) as Hw. exists p.
  split; [|split; [done|]].
  - unfold carried. rewrite Hp, Hpl. apply rpc_decode_law. by eapply Forall_lookup_1 in Hw.
  - by destruct (pieces_from_lookup _ _ _ _ _ _ Hpj) as (? & ? & _ & ->).
Qed.

Lemma request_handled g args zcs s evs t0 js :
  args_wf args -> a_is_req args = true -> len (a_content args) <= 32 * 1024 ->
  build_rpc_packet g args = Some (Ret zcs) ->
  server_ok s -> srv_stopped s = false ->
  packet_mergers s !! (a_from_peer args, a_transaction_id args) = None ->
  Forall (event_ok t0) evs ->
  Forall2 (copy_of zcs) (key_packets (a_from_peer args, a_transaction_id args) evs) js ->
  js ≡ₚ seq 0 (length zcs) ->
  exists s' hs, server_run s evs = Ret (s', hs) /\
    handled_of (a_from_peer args, a_transaction_id args) hs = [whole args] /\
    packet_mergers s' !! (a_from_peer args, a_transaction_id args) = None.
Proof using Hpr.
  intros Hwf Hreq Hl Hb Hs Hst Hn Hev Hf Hjs.
  destruct (built_message g args zcs Hwf Hl Hb) as (ps & Hm & <- & Hlen & Hc).
  apply (server_run_key _ _ ps Hm t0 evs s [] js); try done.
  - unfold key_state. by rewrite Hn.
  - eapply Forall2_impl; [exact Hf|]. intros o j Ho.
    destruct (Hc o j Ho) as (p & ? & ? & ? & _). exists p. split_and!; congruence.
  - rewrite app_nil_r, Hjs. apply NoDup_seq.
  - rewrite app_nil_r. apply covers_spec. intros i Hi. rewrite Hjs. apply elem_of_seq. lia.
  - intros ->. apply Permutation_nil_l in Hjs. destruct Hm as ((? & _) & _).
    destruct zcs; [|done]. unfold len in *. simpl in *. lia.
Qed.
End built.

(** ** The client, one call at a time *)

Section client_side.
Context {pr : ProstRpc} {Hpr : ProstRpcLaws pr}.

Definition client_ok (c : Client) : Prop :=
  map_Forall (fun _ i => merger_ok (inf_merger i)) (inflight_requests c).

Lemma client_step c o now :
  client_ok c -> arrived o ->
  exists c', client_on_packet c o now = Ret c' /\ client_ok c' /\ peer_info c' = peer_info c /\
    forall k, response_key o <> Some k -> inflight_requests c' !! k = inflight_requests c !! k.
Proof using Hpr.
  intros Hc Ha. destruct (arrived_payload o Ha) as (b & Hb & Hok).
  unfold client_on_packet, response_key, carried. rewrite Hb. cbn [mbind comp_bind].
  destruct (rpc_decode b) as [p|] eqn:Ed; cbn [mbind option_bind]; [|by exists c].
  destruct (is_request p); [by exists c|].
  set (key := (to_peer p, from_peer p, transaction_id p)).
  destruct (inflight_requests c !! key) as [inf|] eqn:Ei; [|by exists c].
  destruct (rpc_decode_wf b p Hok Ed) as [Ht Hi].
  destruct (feed_total (inf_merger inf) p now (Hc key inf Ei) Ht Hi) as (m' & r & -> & Hm' & _ & _).
  cbn [mbind comp_bind].
  assert (forall i, inf_merger i = m' -> client_ok (set_inflight c (<[key := i]> (inflight_requests c))))
    as Hins by (intros i Hi'; apply map_Forall_insert_2; [by rewrite Hi'|done]).
  assert (forall i k, Some key <> Some k ->
    inflight_requests (set_inflight c (<[key := i]> (inflight_requests c))) !! k =
    inflight_requests c !! k) as Hfr by (intros i k Hk; cbn; rewrite lookup_insert_ne; congruence).
  destruct r as [[q|]|e]; [destruct (inf_open inf)|..]; (eexists; split; [done|split; [|split; [done|]]]);
    try (by apply Hins); try (by apply Hfr).
  - intros k i. cbn. intros [_ Hk]%lookup_delete_Some. by apply (Hc k).
  - intros k Hk. cbn. rewrite lookup_delete_ne; congruence.
Qed.

Section one_call.
Context (tid from to : Z) (ps : list RpcPacket) (Hm : message tid to ps).
Context (k := (from, to, tid)).

(** The state of the entry: open, with the pieces [seen], and with the whole
    message in the channel once they are all there. *)
Definition call_state (c : Client) (seen : list nat) : Prop :=
  exists inf, inflight_requests c !! k = Some inf /\ inf_open inf = true /\
    progress tid to ps seen (inf_merger inf) /\ Forall (eq (merged ps)) (inf_sent inf) /\
    (covers (length ps) seen = true -> inf_sent inf <> []).

Lemma client_piece c seen o now j p :
  call_state c seen -> carried o = Some p -> is_request p = false -> to_peer p = from ->
  ps !! j = Some p ->
  exists c', client_on_packet c o now = Ret c' /\ call_state c' (j :: seen).
Proof using Hm.
  intros (inf & Hi & Ho & Hp & Hse & Hco) Hc Hreq Hto Hj. unfold carried in Hc.
  unfold client_on_packet. destruct (payload o) as [b|]; [|done]. cbn [mbind comp_bind].
  rewrite Hc, Hreq, Hto. destruct (proj2 Hm j p Hj) as (_ & _ & -> & -> & _). fold k.
  rewrite Hi. destruct (feed_piece tid to ps Hm seen _ j p now Hp Hj) as (m' & -> & Hh & _).
  cbn [mbind comp_bind]. destruct (covers (length ps) (j :: seen)) eqn:Ec.
  - rewrite Ho. eexists. split; [done|]. eexists. split; [cbn; apply lookup_insert_eq|]. cbn.
    split_and!; [done|by right|by apply Forall_app_2; [|repeat constructor]|].
    intros _. by destruct (inf_sent inf).
  - eexists. split; [done|]. eexists. split; [cbn; apply lookup_insert_eq|]. cbn.
    split_and!; [done|by right|done|by rewrite Ec].
Qed.

Lemma client_run_key evs : forall c seen js,
  client_ok c -> Forall (fun e => arrived e.1) evs -> call_state c seen ->
  Forall2 (fun o j => exists p, carried o = Some p /\ is_request p = false /\
      to_peer p = from /\ ps !! j = Some p)
    (filter (fun o => response_key o = Some k) (map fst evs)) js ->
  exists c', client_run c evs = Ret c' /\ call_state c' (rev js ++ seen) /\
    peer_info c' = peer_info c.
Proof using Hpr Hm.
  induction evs as [|[o now] evs IH]; intros c seen js Hc Hev Hcs Hf; cbn [client_run].
  - inversion Hf; subst. by exists c.
  - apply Forall_cons in Hev as [Ha Hev]. cbn in Ha.
    destruct (client_step c o now Hc Ha) as (c1 & He & Hc1 & Hpi & Hfr). cbn [map fst] in Hf.
    destruct (decide (response_key o = Some k)) as [Hk|Hk].
    + rewrite filter_cons_True in Hf by done.
      inversion Hf as [|? j ? js' (p & ? & ? & ? & ?) Hf']; subst.
      destruct (client_piece c seen o now j p) as (c1' & He' & Hcs'); [done..|].
      rewrite He in He'. injection He' as <-. rewrite He. cbn [mbind comp_bind].
      destruct (IH c1 (j :: seen) js') as (c2 & Hr2 & Hcs2 & Hpi2); [done..|].
      exists c2. split; [done|]. split; [|congruence]. cbn. by rewrite <- app_assoc.
    + rewrite filter_cons_False in Hf by done. rewrite He. cbn [mbind comp_bind].
      destruct (IH c1 seen js) as (c2 & Hr2 & Hcs2 & Hpi2); [done..| |done|].
      * destruct Hcs as (inf & Hi & Hr). exists inf. split; [by rewrite Hfr|done].
      * exists c2. split; [done|]. split; [done|congruence].
Qed.
End one_call.
End client_side.

(** What the channel of a call delivers first. *)
Definition first_answer (c : Client) (k : Z * Z * Z) : option RpcPacket :=
  inf ← inflight_requests c !! k; head (inf_sent inf).

(** The library's output is bytes. *)
Class ZstdBytes (z : Zstd) := zstd_bytes : forall d c,
  zstd_bulk_compress d = Some c -> bytes_ok c.

(** Messages of at most 32 KiB are within reach of the decompressor. *)
Lemma small_decompresses `{z : Zstd, !ZstdLaws z, !ZstdBytes z} accepted content out a :
  compress_packet accepted content = Ok (out, a) -> len content <= 32 * 1024 -> bytes_ok content ->
  decompress_packet (algo_of_i32 (algo_i32 a)) out = Ok content /\ len out <= len content /\
  bytes_ok out.
Proof.
  intros [(-> & ->)|(-> & Ha & Hc & Hl)]%rpc_compress_cases Hs Hb; [split; [done|split; [lia|done]]|].
  split; [|split; [lia|by eapply zstd_bytes]].
  unfold decompress_packet. cbn. unfold zstd_decompress. rewrite Ha.
  by rewrite (zstd_attempts_ok content) by (done || lia).
Qed.

Lemma algo_i32_wf `{z : Zstd} a :
  rpc_info_wf {| info_algo := algo_i32 a; info_accepted_algo := algo_i32 accepted_compression_algo |}.
Proof. unfold rpc_info_wf, accepted_compression_algo. destruct a, (CompressorAlgo_is_available _ _); cbn; lia. Qed.

(** ** Theorems *)

(** A request is handled exactly once: when all its pieces reach the
    server within ten seconds, each once and in any order, mixed with any other
    packets whatever (garbage, pieces of other requests and peers, answers) and
    with the cleanup timer, the receive loop does not panic, hands the whole
    message to the handler once, and keeps nothing of it. *)
Theorem server_handles_once `{pr : ProstRpc, !ProstRpcLaws pr}
    (g : nat -> Z) (args : BuildRpcPacketArgs) (zcs : list ZCPacket) (s : Server)
    (evs : list SrvEvent) (t0 : Z) (js : list nat) :
  args_wf args -> a_is_req args = true -> len (a_content args) <= 32 * 1024 ->
  build_rpc_packet g args = Some (Ret zcs) ->
  server_ok s -> srv_stopped s = false ->
  packet_mergers s !! (a_from_peer args, a_transaction_id args) = None ->
  Forall (event_ok t0) evs ->
  Forall2 (copy_of zcs) (key_packets (a_from_peer args, a_transaction_id args) evs) js ->
  js ≡ₚ seq 0 (length zcs) ->
  exists s' hs, server_run s evs = Ret (s', hs) /\
    handled_of (a_from_peer args, a_transaction_id args) hs = [whole args] /\
    packet_mergers s' !! (a_from_peer args, a_transaction_id args) = None.
Proof. apply request_handled. Qed.

Section round_trip.
Context `{pr : ProstRpc, !ProstRpcLaws pr, rm : RpcMessages, !RpcMessagesLaws rm}.
Context `{z : Zstd, !ZstdLaws z, !ZstdBytes z}.

(** The request as it reaches [handle_rpc]. *)
Lemma handle_request reg from to tid desc buf trace c_algo req accepted :
  compress_packet accepted (request_encode req) = Ok (buf, c_algo) ->
  request_wf req -> len (request_encode req) <= 32 * 1024 ->
  handle_rpc_request reg (whole (request_args from to tid desc buf trace c_algo)) desc =
  dispatch_request reg desc req.
Proof using All.
  intros Hc Hwf Hl. unfold handle_rpc_request. cbn.
  destruct (small_decompresses _ _ _ _ Hc Hl (request_encode_bytes req Hwf)) as (-> & _).
  by rewrite request_decode_law.
Qed.

(** The answer as [call] takes it. *)
Lemma finish_answer unknown_error c from to tid q2 resp now desc buf algo accepted trace :
  compress_packet accepted (response_encode resp) = Ok (buf, algo) ->
  response_wf resp -> len (response_encode resp) <= 32 * 1024 ->
  q2 = whole (response_args {| from_peer := from; to_peer := to; transaction_id := tid;
    descriptor := Some desc; rpc_body := []; is_request := true; total_pieces := 1; piece_idx := 0;
    trace_id := trace; compression_info := None |} desc buf algo) ->
  exists c', call_finish unknown_error c from to tid (WaitPacket q2) now =
    Ret (c', match resp_error resp with
             | Some e => Err (error_from_pb unknown_error e) | None => Ok (resp_response resp) end) /\
    inflight_requests c' !! (from, to, tid) = None.
Proof using All.
  intros Hc Hwf Hl ->. unfold call_finish. cbn.
  destruct (small_decompresses _ _ _ _ Hc Hl (response_encode_bytes resp Hwf)) as (-> & _).
  rewrite Z.eqb_refl. cbn [negb]. rewrite response_decode_law by done.
  destruct (resp_error resp); eexists; (split; [done|]); cbn; apply lookup_delete_eq.
Qed.

Lemma compress_packet_ok accepted content :
  zstd_bulk_compress content <> None -> exists out a, compress_packet accepted content = Ok (out, a).
Proof using.
  intros Hn. unfold compress_packet.
  assert (forall a, a = CompressNone \/ zstd_available = true ->
    exists c, compress_raw content a = Ok c) as Hraw.
  { intros [|] Ha; [by exists content|]. destruct Ha as [?|Ha]; [done|]. cbn. unfold zstd_compress.
    rewrite Ha. destruct (zstd_bulk_compress content) as [c|]; [by exists c|done]. }
  set (algo := match CompressorAlgo_try_from accepted with Ok a => _ | Err _ => _ end).
  destruct (Hraw algo) as [c ->]; [|destruct (_ <=? _), (CompressionAlgoPb_try_from algo); eauto].
  subst algo. destruct accepted; cbn; auto. destruct zstd_available; auto.
Qed.

(** What [handle_rpc] sends back for a whole request. *)
Lemma handle_rpc_answers g reg from to tid desc buf trace c_algo req runtime accepted :
  let q := whole (request_args from to tid desc buf trace c_algo) in
  let resp := make_response (dispatch_request reg desc req) runtime in
  u32 from -> u32 to -> - 2 ^ 63 <= tid < 2 ^ 63 -> - 2 ^ 31 <= trace < 2 ^ 31 -> rpc_desc_wf desc ->
  compress_packet accepted (request_encode req) = Ok (buf, c_algo) ->
  request_wf req -> len (request_encode req) <= 32 * 1024 ->
  response_wf resp -> len (response_encode resp) <= 32 * 1024 ->
  zstd_bulk_compress (response_encode resp) <> None ->
  exists out a accepted2 zcs, compress_packet accepted2 (response_encode resp) = Ok (out, a) /\
    args_wf (response_args q desc out a) /\ len out <= 32 * 1024 /\
    build_rpc_packet g (response_args q desc out a) = Some (Ret zcs) /\
    handle_rpc g reg q runtime = Some (Ret zcs).
Proof using All.
  intros q resp Hf Ht Htid Htr Hd Hc Hrw Hrl Hw Hl Hz. unfold handle_rpc.
  change (descriptor q) with (Some desc). cbv iota beta.
  assert (handle_rpc_request reg q desc = dispatch_request reg desc req) as ->
    by (by eapply handle_request).
  fold resp. set (acc := algo_of_i32 _).
  destruct (compress_packet_ok acc _ Hz) as (out & a & Hca). rewrite Hca.
  destruct (small_decompresses _ _ _ _ Hca Hl (response_encode_bytes resp Hw)) as (_ & Hol & Hob).
  assert (args_wf (response_args q desc out a)) as Hwf
    by (unfold args_wf; cbn; split_and!; auto using algo_i32_wf; lia).
  destruct (split_total (response_args q desc out a)) as (rs & Hrs & Hs).
  pose proof (split_small _ rs Hs ltac:(cbn; lia)) as Hn.
  destruct (build_total _ Hwf g rs Hrs Hs ltac:(lia)) as (zcs & Hz2 & _).
  exists out, a, acc, zcs. split_and!; try done. lia.
Qed.
End round_trip.

(** C13. A call returns what the service answered, for requests and
    responses whose encodings have at most 32 KiB and that zstd can compress.
    The client starts a call and its packets reach the server, each exactly
    once, in any order and among any other traffic, within ten seconds; then the
    server hands over exactly one request with this transaction, its handler
    builds the answer's packets, and whenever these reach the client, in any
    order, repeated or not, among any other packets, the first message in the
    call's channel makes the call return the bytes the service returned, or its
    error as the conversion to protobuf and back gives it; nothing panics (the
    assertion on the transaction number holds) and the entry of the call is
    gone. *)
Theorem rpc_call_returns
    `{pr : ProstRpc, !ProstRpcLaws pr, rm : RpcMessages, !RpcMessagesLaws rm}
    `{z : Zstd, !ZstdLaws z, !ZstdBytes z} (unknown_error : list Z)
    (g g2 : nat -> Z) (c c1 : Client) (from to tid : Z) (desc : RpcDescriptor)
    (raw : option (list Z)) (input : list Z) (tmo trace now now2 : Z) (zcs : list ZCPacket)
    (reg : ServiceRegistry) (runtime : Z) (s : Server) (evs : list SrvEvent) (t0 : Z)
    (js : list nat) :
  let req := {| req_request := default input raw; req_timeout_ms := tmo |} in
  let resp := make_response (dispatch_request reg desc req) runtime in
  u32 from -> u32 to -> - 2 ^ 63 <= cur_tid c < 2 ^ 63 -> - 2 ^ 31 <= trace < 2 ^ 31 ->
  rpc_desc_wf desc -> request_wf req -> len (request_encode req) <= 32 * 1024 ->
  response_wf resp -> len (response_encode resp) <= 32 * 1024 ->
  zstd_bulk_compress (response_encode resp) <> None ->
  client_ok c -> call_start g c from to desc raw input tmo trace now = (c1, tid, Some (Ret zcs)) ->
  server_ok s -> srv_stopped s = false -> packet_mergers s !! (from, tid) = None ->
  Forall (event_ok t0) evs -> Forall2 (copy_of zcs) (key_packets (from, tid) evs) js ->
  js ≡ₚ seq 0 (length zcs) ->
  exists s' hs q zcs2, server_run s evs = Ret (s', hs) /\ handled_of (from, tid) hs = [q] /\
    handle_rpc g2 reg q runtime = Some (Ret zcs2) /\
    forall evs2 js2, Forall (fun e => arrived e.1) evs2 ->
      Forall2 (copy_of zcs2)
        (filter (fun o => response_key o = Some (from, to, tid)) (map fst evs2)) js2 ->
      covers (length zcs2) js2 = true ->
      exists c2 q2 c3, client_run c1 evs2 = Ret c2 /\
        first_answer c2 (from, to, tid) = Some q2 /\
        call_finish unknown_error c2 from to tid (WaitPacket q2) now2 =
          Ret (c3, match dispatch_request reg desc req with
                   | Ok out => Ok out
                   | Err e => Err (error_from_pb unknown_error (error_to_pb e)) end) /\
        inflight_requests c3 !! (from, to, tid) = None.
Proof.
  intros req resp Hf Ht Htid Htr Hd Hrw Hrl Hw Hl Hz Hco Hst Hs Hstop Hk Hev Hcp Hjs.
  unfold call_start in Hst. fold req in Hst.
  destruct (compress_packet _ (request_encode req)) as [[buf c_algo]|e] eqn:Hc; [|done].
  injection Hst as <- <- Hb.
  destruct (small_decompresses _ _ _ _ Hc Hrl (request_encode_bytes req Hrw)) as (_ & Hbl & Hbb).
  set (args := request_args from to (cur_tid c) desc buf trace c_algo) in *.
  assert (args_wf args) as Hwf by (unfold args_wf; cbn; split_and!; auto using algo_i32_wf; lia).
  destruct (request_handled g args zcs s evs t0 js Hwf eq_refl ltac:(cbn; lia) Hb Hs Hstop Hk Hev
    Hcp Hjs) as (s' & hs & Hrun & Hh & _).
  destruct (handle_rpc_answers g2 reg from to (cur_tid c) desc buf trace c_algo req runtime _
    Hf Ht Htid Htr Hd Hc Hrw Hrl Hw Hl Hz)
    as (out & a & acc2 & zcs2 & Hc2 & Hwf2 & Hl2 & Hb2 & Hrpc).
  eexists s', hs, _, zcs2. split; [done|]. split; [done|]. split; [done|].
  intros evs2 js2 Hev2 Hcp2 Hcov.
  destruct (built_message g2 _ zcs2 Hwf2 Hl2 Hb2) as (ps & Hm & Hmg & Hlen & Hcar). cbn in Hm.
  match goal with |- context [client_run ?cc evs2] => set (c1 := cc) end.
  destruct (client_run_key (cur_tid c) from to ps Hm evs2 c1 [] js2)
    as (c2 & Hr2 & (inf & Hi & _ & _ & Hall & Hne) & _); [|done|..].
  - apply map_Forall_insert_2; [done|exact Hco].
  - eexists. split; [cbn; apply lookup_insert_eq|]. cbn. split_and!; [done|by left|constructor|].
    intros Hcv. exfalso. destruct Hm as ((? & _) & _).
    by eapply not_elem_of_nil, (proj1 (covers_spec _ _) Hcv 0%nat); unfold len in *; lia.
  - eapply Forall2_impl; [exact Hcp2|]. intros o j Ho.
    destruct (Hcar o j Ho) as (p & ? & ? & ? & ?). by exists p.
  - assert (inf_sent inf <> []) as Hne'.
    { apply Hne. apply covers_spec. intros i Hi'. rewrite Hlen in Hi'.
      apply (proj1 (covers_spec _ _) Hcov) in Hi'. rewrite app_nil_r. rewrite rev_alt. by apply elem_of_reverse. }
    destruct (inf_sent inf) as [|q2 l] eqn:El; [done|]. apply Forall_cons in Hall as [Hq2 _].
    destruct (finish_answer unknown_error c2 from to (cur_tid c) q2 resp now2 desc out a acc2 trace)
      as (c3 & H3 & Hg3); [done..|by rewrite <- Hq2, Hmg|].
    exists c2, q2, c3. split; [exact Hr2|]. split; [unfold first_answer; rewrite Hi; cbn; by rewrite El|].
    split; [|done]. rewrite H3. unfold resp, make_response. by destruct (dispatch_request reg desc req).
Qed.

(** ** Concrete instances for the witnesses *)

Module Sample.
Definition error_key (e : ErrorKind) : Z * list Z * Z :=
  match e with
  | PbOtherError m => (1, m, 0) | PbInvalidMethodIndex s i => (2, s, i)
  | PbInvalidService s => (3, s, 0) | PbProstDecodeError => (4, [], 0)
  | PbProstEncodeError => (5, [], 0) | PbExecuteError m => (6, m, 0)
  | PbMalformatRpcPacket m => (7, m, 0) | PbTimeout m => (8, m, 0)
  end.
Definition error_of_key (t : Z) (s : list Z) (i : Z) : ErrorKind :=
  match t with
  | 1 => PbOtherError s | 2 => PbInvalidMethodIndex s i | 3 => PbInvalidService s
  | 4 => PbProstDecodeError | 5 => PbProstEncodeError | 6 => PbExecuteError s
  | 7 => PbMalformatRpcPacket s | _ => PbTimeout s
  end.

Definition response_key_of (r : RpcResponse) : list (list Z) :=
  resp_response r :: [resp_runtime_us r] ::
  match resp_error r with
  | None => []
  | Some None => [[]]
  | Some (Some e) => let '(t, s, i) := error_key e in [[t; i]; s]
  end.
Definition response_of_key (k : list (list Z)) : option RpcResponse :=
  match k with
  | r :: [u] :: e =>
    Some {| resp_response := r; resp_runtime_us := u;
      resp_error := match e with
        | [] => None | [[]] => Some None
        | [[t; i]; s] => Some (Some (error_of_key t s i)) | _ => Some None end |}
  | _ => None
  end.

Definition of_list {A} `{Countable A} (l : list Z) : option A :=
  '(p, _) ← Codec.of_bits l; decode p.

#[export] Instance messages : RpcMessages :=
  {| request_encode r := Codec.bits (encode [req_request r; [req_timeout_ms r]]);
     request_decode l := k ← of_list l; match k : list (list Z) with
       | [q; [t]] => Some {| req_request := q; req_timeout_ms := t |} | _ => None end;
     response_encode r := Codec.bits (encode (response_key_of r));
     response_decode l := k ← of_list l; response_of_key k;
     debug_str s := s; debug_err _ := [] |}.

Lemma of_list_bits {A} `{Countable A} (a : A) : of_list (Codec.bits (encode a)) = Some a.
Proof.
  unfold of_list. rewrite <- (app_nil_r (Codec.bits (encode a))), Codec.of_bits_app.
  cbn [mbind option_bind]. apply decode_encode.
Qed.

#[export] Instance messages_laws : RpcMessagesLaws messages.
Proof.
  constructor; intros r _.
  - unfold request_decode, request_encode, messages. rewrite of_list_bits. by destruct r.
  - apply Codec.bits_ok.
  - unfold response_decode, response_encode, messages. rewrite of_list_bits.
    by destruct r as [? [[[]|]|] ?].
  - apply Codec.bits_ok.
Qed.

(** A library that puts a byte in front: it never makes anything shorter. *)
Definition plain_zstd : Zstd := {|
  zstd_available := true;
  zstd_bulk_compress d := if forallb (fun b => (0 <=? b) && (b <? 256)) d then Some (0 :: d) else None;
  zstd_bulk_decompress c cap :=
    match c with
    | _ :: d => if len d <=? cap then ZOk d else ZBufferTooSmall
    | [] => ZError
    end |}.
Lemma plain_zstd_laws : ZstdLaws plain_zstd.
Proof. intros d c cap. cbn. destruct (forallb _ d); [|done]. by intros [= <-]. Qed.
Lemma plain_zstd_bytes : ZstdBytes plain_zstd.
Proof.
  intros d c. cbn. destruct (forallb _ d) eqn:E; [|done]. intros [= <-].
  constructor; [done|]. apply Forall_forall. intros x Hx%list_elem_of_In.
  rewrite forallb_forall in E. apply E in Hx. bools. done.
Qed.

Lemma copies_self zcs : Forall2 (copy_of zcs) zcs (seq 0 (length zcs)).
Proof.
  apply Forall2_same_length_lookup. rewrite length_seq. split; [done|].
  intros i zc j Hi [-> _]%lookup_seq. by exists zc.
Qed.

Definition desc : RpcDescriptor :=
  {| domain_name := [110]; proto_name := [112]; service_name := [115]; method_index := 1 |}.
(** A service that answers with its input reversed. *)
Definition service : Service :=
  {| svc_name := [115]; svc_proto_name := [112];
     svc_method_name i := if i =? 1 then Some [109] else None;
     svc_handle _ input _ := (Some (Ok (rev input)), None) |}.
Definition registry : ServiceRegistry := register ∅ service [110].
Definition client : Client := {| inflight_requests := ∅; peer_info := ∅; cur_tid := 41 |}.
Definition server : Server := {| packet_mergers := ∅; srv_stopped := false |}.
Definition started : Client * Z * option (comp (list ZCPacket)) :=
  @call_start Codec.prost messages plain_zstd (fun _ => 0) client 7 9 desc None [1; 2; 3] 5000 0 0.
Definition request_bytes : list Z :=
  request_encode {| req_request := [1; 2; 3]; req_timeout_ms := 5000 |}.
Definition packets : list ZCPacket :=
  match started with (_, _, Some (Ret zcs)) => zcs | _ => [] end.
Definition other_packet : ZCPacket := {| inner := repeat 3 60; packet_type := NIC |}.
Definition events : list SrvEvent :=
  EvPacket other_packet 5 :: EvTick 6 :: map (fun o => EvPacket o 7) packets.

Lemma packets_arrive : Forall (@event_ok 5) events.
Proof.
  assert (forall o, bool_decide (bytes_ok (inner o)) && bool_decide (peer_manager_header o <> None) = true
    -> arrived o) as Ha.
  { intros o [H1%bool_decide_eq_true H2%bool_decide_eq_true]%andb_prop. split; [done|].
    unfold route_rpc_packet. destruct (peer_manager_header o); [|done].
    by repeat destruct (_ =? _). }
  unfold events. constructor; [split; [|lia]; apply Ha; vm_compute; reflexivity|].
  constructor; [cbn; lia|]. apply Forall_forall. intros ev (o & -> & Ho)%list_elem_of_fmap.
  split; [|lia]. apply Ha. revert o Ho. apply (proj1 (Forall_forall _ _)).
  apply (bool_decide_unpack _). vm_compute. reflexivity.
Qed.
End Sample.

Lemma server_handles_once_witness :
  exists s' hs, @server_run Codec.prost Sample.server Sample.events = Ret (s', hs) /\
    map rpc_body (handled_of (7, 41) hs) =
      [Sample.request_bytes].
Proof.
  set (args := @request_args Sample.plain_zstd 7 9 41 Sample.desc
    Sample.request_bytes 0 PbNone).
  destruct (@server_handles_once Codec.prost Codec.prost_laws (fun _ => 0) args Sample.packets
    Sample.server Sample.events 5 (seq 0 (length Sample.packets))) as (s' & hs & Hr & Hh & _).
  - unfold args_wf, rpc_desc_wf, rpc_info_wf, in_range. cbn -[Z.pow Sample.request_bytes].
    split_and!; try done; try (vm_compute; congruence).
    apply (bool_decide_unpack _). vm_compute. reflexivity.
  - reflexivity.
  - vm_compute. congruence.
  - vm_compute. reflexivity.
  - intros k m. cbn. by rewrite lookup_empty.
  - reflexivity.
  - reflexivity.
  - apply Sample.packets_arrive.
  - assert (key_packets (a_from_peer args, a_transaction_id args) Sample.events = Sample.packets)
      as -> by (vm_compute; reflexivity).
    apply Sample.copies_self.
  - reflexivity.
  - exists s', hs. split; [exact Hr|]. change (7, 41) with (a_from_peer args, a_transaction_id args).
    by rewrite Hh.
Defined.

Lemma rpc_call_returns_witness :
  exists s' hs q zcs2,
    @server_run Codec.prost Sample.server Sample.events = Ret (s', hs) /\
    handled_of (7, 41) hs = [q] /\
    @handle_rpc Codec.prost Sample.messages Sample.plain_zstd (fun _ => 0) Sample.registry q 12
      = Some (Ret zcs2) /\
    dispatch_request Sample.registry Sample.desc
      {| req_request := [1; 2; 3]; req_timeout_ms := 5000 |} = Ok [3; 2; 1].
Proof.
  edestruct (@rpc_call_returns Codec.prost Codec.prost_laws Sample.messages Sample.messages_laws
    Sample.plain_zstd Sample.plain_zstd_laws Sample.plain_zstd_bytes [] (fun _ => 0) (fun _ => 0)
    Sample.client Sample.started.1.1 7 9 41 Sample.desc None [1; 2; 3] 5000 0 0 50 Sample.packets
    Sample.registry 12 Sample.server Sample.events 5 (seq 0 (length Sample.packets)))
    as (s' & hs & q & zcs2 & Hr & Hh & Hz & _).
  - vm_compute; split; congruence.
  - vm_compute; split; congruence.
  - cbn; lia.
  - lia.
  - vm_compute. split_and!; congruence.
  - split; [|cbn; lia]. apply (bool_decide_unpack _). vm_compute. reflexivity.
  - vm_compute. congruence.
  - split; [apply (bool_decide_unpack _); vm_compute; reflexivity|vm_compute; split; congruence].
  - vm_compute. congruence.
  - vm_compute. congruence.
  - intros k m. cbn. by rewrite lookup_empty.
  - vm_compute. reflexivity.
  - intros k m. cbn. by rewrite lookup_empty.
  - reflexivity.
  - reflexivity.
  - apply Sample.packets_arrive.
  - assert (key_packets (7, 41) Sample.events = Sample.packets) as -> by (vm_compute; reflexivity).
    apply Sample.copies_self.
  - reflexivity.
  - exists s', hs, q, zcs2. split_and!; [exact Hr|exact Hh|exact Hz|vm_compute; reflexivity].
Defined.
