(* ===== verification/RouteWire.v ===== *)
(** [peers/route/route_peer_wire.rs]: editing of protobuf messages in place.

    A node passes the information of other peers on as the bytes it received,
    so that fields it does not know and signatures over them survive; of a
    credential peer's information it replaces two fields.  prost's primitives
    (keys, varints, skipping a field, generated encoders) are the classes
    [ProstWire] and [ProstRoute]; what they promise is in [ProstWireLaws] and
    [ProstRouteLaws], and [Protobuf] is a concrete instance. *)

From stdpp Require Import list gmap.
From S2P Require Import Prelude RouteMessages.
Local Open Scope Z_scope.

Inductive WireType := Varint | SixtyFourBit | LengthDelimited | StartGroup | EndGroup | ThirtyTwoBit.
#[export] Instance WireType_eq_dec : EqDecision WireType.
Proof. solve_decision. Defined.

(** [prost::encoding]: a decoder returns what is left of the input, or fails
    with a [DecodeError]. *)
Class ProstWire := {
  decode_key : list Z -> option (Z * WireType * list Z);
  decode_varint : list Z -> option (Z * list Z);
  skip_field : WireType -> Z -> list Z -> option (list Z);
  encode_key : Z -> WireType -> list Z;
  encode_varint : Z -> list Z }.

(** A decoder reads a prefix and what follows it does not matter. *)
Definition reads_prefix {A} (d : list Z -> option (A * list Z)) : Prop :=
  forall b a r, d b = Some (a, r) -> exists p, b = p ++ r /\ forall r', d (p ++ r') = Some (a, r').

Definition valid_tag (tag : Z) : Prop := 1 <= tag < 2 ^ 29.

Class ProstWireLaws (pw : ProstWire) := {
  decode_key_prefix : reads_prefix decode_key;
  decode_key_nil : decode_key [] = None;
  decode_varint_prefix : reads_prefix decode_varint;
  skip_field_prefix wt tag :
    reads_prefix (fun b => (fun r => (tt, r)) <$> skip_field wt tag b);
  skip_varint tag v r : u64 v -> skip_field Varint tag (encode_varint v ++ r) = Some r;
  decode_encode_key tag wt r : valid_tag tag -> decode_key (encode_key tag wt ++ r) = Some (tag, wt, r);
  decode_encode_varint v r : u64 v -> decode_varint (encode_varint v ++ r) = Some (v, r);
  encode_key_len tag wt : valid_tag tag -> len (encode_key tag wt) <= 5;
  encode_varint_len v : u64 v -> len (encode_varint v) <= 10 }.

Definition SYNC_ROUTE_PEER_INFOS_TAG : Z := 4.
Definition ROUTE_PEER_INFOS_ITEM_TAG : Z := 1.
Definition ROUTE_PEER_INFO_PROXY_CIDRS_TAG : Z := 5.
Definition ROUTE_PEER_INFO_FEATURE_FLAG_TAG : Z := 11.
Definition ROUTE_PEER_INFO_CREDENTIAL_PROOF_TAG : Z := 19.
Definition FEATURE_FLAG_IS_CREDENTIAL_PEER_TAG : Z := 8.
Definition CREDENTIAL_PROOF_CREDENTIAL_TAG : Z := 1.

Inductive WireError :=
  | Decode
  | WrongWireType (tag : Z) (actual expected : WireType)
  | TruncatedLengthDelimited
  | PeerInfoCountMismatch.

Record WireField := {
  wf_tag : Z; wf_wire_type : WireType; wf_encoded : list Z; wf_length_delimited : option (list Z) }.

#[export] Instance result_bind {E} : MBind (result E) := fun A B f m =>
  match m with Ok a => f a | Err e => Err e end.
(** [?] on a library error. *)
Definition ok_or {E A} (e : E) (o : option A) : result E A :=
  match o with Some a => Ok a | None => Err e end.

Section wire.
Context {pw : ProstWire}.

(** One iteration of the loop of [parse_fields]: the field and what is left.  A
    length that does not fit [usize] exceeds the input, with the same error. *)
Definition parse_field (input : list Z) : result WireError (WireField * list Z) :=
  '(tag, wt, rest) ← ok_or Decode (decode_key input);
  '(payload, rest) ←
    match wt with
    | LengthDelimited =>
      '(n, rest) ← ok_or Decode (decode_varint rest);
      if len rest <? n then Err TruncatedLengthDelimited
      else Ok (Some (take (Z.to_nat n) rest), drop (Z.to_nat n) rest)
    | _ => rest ← ok_or Decode (skip_field wt tag rest); Ok (None, rest)
    end;
  Ok ({| wf_tag := tag; wf_wire_type := wt;
         wf_encoded := take (length input - length rest) input;
         wf_length_delimited := payload |}, rest).

(** Every iteration reads a byte, so the length of the message is enough fuel
    ([parse_fields_unfold] is the loop without it). *)
Fixpoint parse_loop (fuel : nat) (input : list Z) : result WireError (list WireField) :=
  match input, fuel with
  | [], _ => Ok []
  | _, O => Err Decode
  | _, S fuel => '(f, rest) ← parse_field input; fs ← parse_loop fuel rest; Ok (f :: fs)
  end.
Definition parse_fields (message : list Z) : result WireError (list WireField) :=
  parse_loop (length message) message.

(** The payloads of the fields with a tag; collecting stops at the first field
    of another wire type. *)
Fixpoint collect_payloads (tag : Z) (fs : list WireField) : result WireError (list (list Z)) :=
  match fs with
  | [] => Ok []
  | f :: fs =>
    if wf_tag f =? tag then
      p ← ok_or (WrongWireType tag (wf_wire_type f) LengthDelimited) (wf_length_delimited f);
      ps ← collect_payloads tag fs; Ok (p :: ps)
    else collect_payloads tag fs
  end.
Definition length_delimited_fields (message : list Z) (tag : Z) : result WireError (list (list Z)) :=
  fs ← parse_fields message; collect_payloads tag fs.

Fixpoint replace_loop (tag : Z) (expected : WireType) (fs : list WireField) (output : list Z)
    : result WireError (list Z) :=
  match fs with
  | [] => Ok output
  | f :: fs =>
    if negb (wf_tag f =? tag) then replace_loop tag expected fs (output ++ wf_encoded f) else
    if negb (bool_decide (wf_wire_type f = expected))
    then Err (WrongWireType tag (wf_wire_type f) expected)
    else replace_loop tag expected fs output
  end.
Definition replace_fields (message : list Z) (tag : Z) (expected : WireType) (replacement : list Z)
    : result WireError (list Z) :=
  fs ← parse_fields message; out ← replace_loop tag expected fs []; Ok (out ++ replacement).

(** The bytes appended to [output]. *)
Definition append_length_delimited_field (tag : Z) (payload : list Z) : list Z :=
  encode_key tag LengthDelimited ++ encode_varint (len payload) ++ payload.
Definition append_varint_field (tag value : Z) : list Z :=
  encode_key tag Varint ++ encode_varint value.

Definition merged_length_delimited_field (message : list Z) (tag : Z) : result WireError (list Z) :=
  values ← length_delimited_fields message tag; Ok (concat values).

Fixpoint extract_items (peer_infos : list (list Z)) : result WireError (list (list Z)) :=
  match peer_infos with
  | [] => Ok []
  | m :: l =>
    items ← length_delimited_fields m ROUTE_PEER_INFOS_ITEM_TAG;
    rest ← extract_items l; Ok (items ++ rest)
  end.
Definition extract_route_peer_infos (request : list Z) : result WireError (list (list Z)) :=
  l ← length_delimited_fields request SYNC_ROUTE_PEER_INFOS_TAG; extract_items l.

Definition patch_credential_route_peer_info (raw : list Z) (proxy_cidrs : list (list Z))
    : result WireError (list Z) :=
  let proxy_cidr_fields :=
    concat (map (append_length_delimited_field ROUTE_PEER_INFO_PROXY_CIDRS_TAG) proxy_cidrs) in
  route_info ← replace_fields raw ROUTE_PEER_INFO_PROXY_CIDRS_TAG LengthDelimited proxy_cidr_fields;
  feature_flag ← merged_length_delimited_field route_info ROUTE_PEER_INFO_FEATURE_FLAG_TAG;
  let credential_flag := append_varint_field FEATURE_FLAG_IS_CREDENTIAL_PEER_TAG 1 in
  feature_flag ← replace_fields feature_flag FEATURE_FLAG_IS_CREDENTIAL_PEER_TAG Varint credential_flag;
  replace_fields route_info ROUTE_PEER_INFO_FEATURE_FLAG_TAG LengthDelimited
    (append_length_delimited_field ROUTE_PEER_INFO_FEATURE_FLAG_TAG feature_flag).

Definition raw_credential_bytes (raw_route_info : list Z) (proof_idx : nat)
    : result WireError (option (list Z)) :=
  proofs ← length_delimited_fields raw_route_info ROUTE_PEER_INFO_CREDENTIAL_PROOF_TAG;
  match proofs !! proof_idx with
  | None => Ok None
  | Some proof =>
    credentials ← length_delimited_fields proof CREDENTIAL_PROOF_CREDENTIAL_TAG;
    match credentials with [] => Ok None | _ => Ok (Some (concat credentials)) end
  end.
End wire.

(** The generated encoders and decoders ([encode_to_vec], [decode]). *)
Class ProstRoute := {
  peer_info_encode : RoutePeerInfo -> list Z;
  peer_info_decode : list Z -> option RoutePeerInfo;
  request_encode : SyncRouteInfoRequest -> list Z }.

Section requests.
Context {pw : ProstWire} {pr : ProstRoute}.

Definition raw_route_peer_info (info : RoutePeerInfo) : list Z := peer_info_encode info.

Definition encode_sync_route_request (request : SyncRouteInfoRequest) (raws : list (list Z))
    : result WireError (list Z) :=
  let decoded_count := match rq_peer_infos request with Some l => length l | None => O end in
  if negb (Nat.eqb decoded_count (length raws)) then Err PeerInfoCountMismatch else
  let request_without_peer_infos :=
    {| rq_my_peer_id := rq_my_peer_id request; rq_my_session_id := rq_my_session_id request;
       rq_is_initiator := rq_is_initiator request; rq_peer_infos := None;
       rq_conn_info := rq_conn_info request;
       rq_foreign_network_infos := rq_foreign_network_infos request |} in
  let output := request_encode request_without_peer_infos in
  match rq_peer_infos request with
  | None => Ok output
  | Some _ =>
    let peer_infos := concat (map (append_length_delimited_field ROUTE_PEER_INFOS_ITEM_TAG) raws) in
    Ok (output ++ append_length_delimited_field SYNC_ROUTE_PEER_INFOS_TAG peer_infos)
  end.
End requests.

(** The encoder writes the fields that are set, each under its tag. *)
Class ProstRouteLaws (pw : ProstWire) (pr : ProstRoute) := {
  request_encode_fields r : rq_peer_infos r = None ->
    exists fs, parse_fields (request_encode r) = Ok fs /\
      Forall (fun f => wf_tag f <> SYNC_ROUTE_PEER_INFOS_TAG) fs }.

(** ** Lemmas: the loop *)

Section lemmas.
Context {pw : ProstWire} {Hpw : ProstWireLaws pw}.

Lemma ok_or_Ok {E A} (e : E) (o : option A) a : ok_or e o = Ok a <-> o = Some a.
Proof using. destruct o; cbn; split; congruence. Qed.

Lemma take_prefix (p r : list Z) : take (length (p ++ r) - length r) (p ++ r) = p.
Proof using. rewrite length_app. rewrite take_app_length'; [done|lia]. Qed.

(** A field is read from its own bytes, whatever follows them. *)
Lemma parse_field_local m f rest :
  parse_field m = Ok (f, rest) ->
  m = wf_encoded f ++ rest /\ wf_encoded f <> [] /\
  forall rest', parse_field (wf_encoded f ++ rest') = Ok (f, rest').
Proof using Hpw.
  unfold parse_field. destruct (decode_key m) as [[[tag wt] r1]|] eqn:Ek; [|done].
  pose proof (decode_key_prefix _ _ _ Ek) as (p & -> & Hp).
  assert (p <> []) as Hne by (intros ->; specialize (Hp []); by rewrite decode_key_nil in Hp).
  cbn [ok_or mbind result_bind]. intros H.
  assert (exists q, r1 = q ++ rest /\ wf_encoded f = p ++ q /\ forall rest',
    parse_field ((p ++ q) ++ rest') = Ok (f, rest')) as (q & -> & Hq & Hl).
  2:{ rewrite Hq. split_and!; [by rewrite app_assoc| |exact Hl]. by destruct p. }
  destruct (match wt with LengthDelimited => _ | _ => _ end) as [[payload r2]|] eqn:E; [|done].
  cbn [mbind result_bind] in H. injection H as <- <-. cbn [wf_encoded].
  assert (exists q, r1 = q ++ r2 /\ forall rest', (match wt with
    | LengthDelimited =>
      '(n, rest) ← ok_or Decode (decode_varint (q ++ rest'));
      if len rest <? n then Err TruncatedLengthDelimited
      else Ok (Some (take (Z.to_nat n) rest), drop (Z.to_nat n) rest)
    | _ => rest ← ok_or Decode (skip_field wt tag (q ++ rest')); Ok (None, rest)
    end) = Ok (payload, rest')) as (q & -> & Hq).
  { destruct (decide (wt = LengthDelimited)) as [->|Hwt].
    - destruct (decode_varint r1) as [[n r3]|] eqn:Ev; [|done].
      pose proof (decode_varint_prefix _ _ _ Ev) as (v & -> & Hv).
      cbn [ok_or mbind result_bind] in E. destruct (len r3 <? n) eqn:El; [done|]. bools.
      injection E as <- <-. exists (v ++ take (Z.to_nat n) r3). rewrite <- app_assoc, take_drop.
      split; [done|]. intros rest'. rewrite <- app_assoc, Hv. cbn [ok_or mbind result_bind].
      assert (length (take (Z.to_nat n) r3) = Z.to_nat n) as Hlt
        by (rewrite length_take; unfold len in El; lia).
      rewrite (proj2 (Z.ltb_ge _ _)) by (rewrite len_app; unfold len in *; lia).
      by rewrite take_app_length', drop_app_length' by lia.
    - assert (exists q, r1 = q ++ r2 /\ payload = None /\
        forall r', skip_field wt tag (q ++ r') = Some r') as (q & -> & -> & Hs).
      { destruct (skip_field wt tag r1) as [r3|] eqn:Es; [|by destruct wt].
        pose proof (skip_field_prefix wt tag r1 tt r3) as Hs. cbn in Hs. rewrite Es in Hs.
        destruct (Hs eq_refl) as (q & -> & Hs'). exists q.
        assert (Ok (None, r3) = Ok (payload, r2) :> result WireError _) as [= <- <-] by (by destruct wt).
        split_and!; try done. intros r'. specialize (Hs' r').
        destruct (skip_field wt tag (q ++ r')); [|done]. by injection Hs' as ->. }
      exists q. split; [done|]. intros rest'. rewrite Hs. by destruct wt. }
  rewrite app_assoc, take_prefix. exists q. split_and!; [done..|].
  intros rest'. unfold parse_field. rewrite <- app_assoc, Hp. cbn [ok_or mbind result_bind].
  rewrite Hq. cbn [mbind result_bind]. by rewrite app_assoc, take_prefix.
Qed.

Lemma parse_field_shorter m f rest : parse_field m = Ok (f, rest) -> (length rest < length m)%nat.
Proof using Hpw.
  intros (-> & Hne & _)%parse_field_local. rewrite length_app. destruct (wf_encoded f); [done|]. cbn. lia.
Qed.

Lemma parse_loop_fuel fuel : forall fuel' m,
  (length m <= fuel)%nat -> (length m <= fuel')%nat -> parse_loop fuel m = parse_loop fuel' m.
Proof using Hpw.
  induction fuel as [|fuel IH]; intros [|fuel'] [|b m]; cbn [length]; try lia; try done.
  intros H1 H2. cbn [parse_loop]. destruct (parse_field (b :: m)) as [[f rest]|e] eqn:E; [|done].
  cbn [mbind result_bind]. apply parse_field_shorter in E. cbn [length] in E.
  by rewrite (IH fuel') by lia.
Qed.

(** The loop of the source. *)
Lemma parse_fields_unfold m :
  parse_fields m = match m with
                   | [] => Ok []
                   | _ => '(f, rest) ← parse_field m; fs ← parse_fields rest; Ok (f :: fs)
                   end.
Proof using Hpw.
  unfold parse_fields. destruct m as [|b m]; [done|]. cbn [length parse_loop].
  destruct (parse_field (b :: m)) as [[f rest]|e] eqn:E; [|done]. cbn [mbind result_bind].
  apply parse_field_shorter in E. cbn [length] in E. by rewrite (parse_loop_fuel _ (length rest)) by lia.
Qed.

(** A field on its own. *)
Definition field_ok (f : WireField) : Prop :=
  wf_encoded f <> [] /\ forall rest, parse_field (wf_encoded f ++ rest) = Ok (f, rest).

Lemma parse_fields_cons f m :
  field_ok f -> parse_fields (wf_encoded f ++ m) = (fs ← parse_fields m; Ok (f :: fs)).
Proof using Hpw.
  intros [Hne Hf]. rewrite parse_fields_unfold. destruct (wf_encoded f ++ m) eqn:E.
  - apply app_eq_nil in E as [? _]. done.
  - by rewrite <- E, Hf.
Qed.

Definition encode_fields (fs : list WireField) : list Z := concat (map wf_encoded fs).

Lemma encode_fields_app fs gs : encode_fields (fs ++ gs) = encode_fields fs ++ encode_fields gs.
Proof using. unfold encode_fields. by rewrite map_app, concat_app. Qed.

Lemma parse_encode fs : Forall field_ok fs -> parse_fields (encode_fields fs) = Ok fs.
Proof using Hpw.
  induction 1 as [|f fs Hf _ IH]; [done|].
  cbn [encode_fields map concat]. rewrite parse_fields_cons by done. unfold encode_fields in IH.
  by rewrite IH.
Qed.

(** Parsing loses nothing: the message is its fields in order. *)
Lemma parse_fields_inv m fs : parse_fields m = Ok fs -> Forall field_ok fs /\ m = encode_fields fs.
Proof using Hpw.
  revert fs. induction m as [m IH] using (induction_ltof1 _ (@length Z)). intros fs.
  rewrite parse_fields_unfold. destruct m as [|b m]; [intros [= <-]; by split|].
  destruct (parse_field (b :: m)) as [[f rest]|] eqn:E; [|done]. cbn [mbind result_bind].
  destruct (parse_fields rest) as [gs|] eqn:Er; [|done]. intros [= <-].
  pose proof (parse_field_shorter _ _ _ E). apply IH in Er as [Hg ->]; [|done].
  apply parse_field_local in E as (-> & Hne & Hf). split; [by constructor|done].
Qed.

Lemma parse_fields_iff m fs : parse_fields m = Ok fs <-> Forall field_ok fs /\ m = encode_fields fs.
Proof using Hpw.
  split; [apply parse_fields_inv|]. intros [H ->]. by apply parse_encode.
Qed.

(** ** Lemmas: fields *)

Definition ld_field (tag : Z) (payload : list Z) : WireField :=
  {| wf_tag := tag; wf_wire_type := LengthDelimited;
     wf_encoded := append_length_delimited_field tag payload; wf_length_delimited := Some payload |}.
Definition varint_field (tag v : Z) : WireField :=
  {| wf_tag := tag; wf_wire_type := Varint; wf_encoded := append_varint_field tag v;
     wf_length_delimited := None |}.

Lemma encode_key_ne tag wt r : valid_tag tag -> encode_key tag wt ++ r <> [].
Proof using Hpw.
  intros Ht H. pose proof (decode_encode_key tag wt r Ht) as E. rewrite H, decode_key_nil in E. done.
Qed.

Lemma ld_field_ok tag p : valid_tag tag -> len p < 2 ^ 64 -> field_ok (ld_field tag p).
Proof using Hpw.
  intros Ht Hp. assert (u64 (len p)) as Hu by (split; [apply len_nonneg|done]).
  split; [by apply encode_key_ne|]. intros rest. cbn [wf_encoded ld_field].
  unfold append_length_delimited_field, parse_field. rewrite <- !app_assoc, decode_encode_key by done.
  cbn [ok_or mbind result_bind]. rewrite decode_encode_varint by done. cbn [ok_or mbind result_bind].
  rewrite (proj2 (Z.ltb_ge _ _)) by (rewrite len_app; pose proof (len_nonneg rest); lia).
  replace (Z.to_nat (len p)) with (length p) by (unfold len; lia).
  rewrite take_app_length, drop_app_length. cbn [mbind result_bind].
  do 3 f_equal. rewrite !app_assoc, take_prefix. by rewrite <- app_assoc.
Qed.

Lemma varint_field_ok tag v : valid_tag tag -> u64 v -> field_ok (varint_field tag v).
Proof using Hpw.
  intros Ht Hv. split; [by apply encode_key_ne|]. intros rest. cbn [wf_encoded varint_field].
  unfold append_varint_field, parse_field. rewrite <- !app_assoc, decode_encode_key by done.
  cbn [ok_or mbind result_bind]. rewrite skip_varint by done. cbn [ok_or mbind result_bind].
  by rewrite !app_assoc, take_prefix.
Qed.

Lemma ld_fields_encode tag ps :
  concat (map (append_length_delimited_field tag) ps) = encode_fields (map (ld_field tag) ps).
Proof using. unfold encode_fields. by rewrite map_map. Qed.

Lemma ld_fields_ok tag ps :
  valid_tag tag -> Forall (fun p => len p < 2 ^ 64) ps -> Forall field_ok (map (ld_field tag) ps).
Proof using Hpw. intros Ht H. apply Forall_fmap. eapply Forall_impl; [exact H|]. intros p Hp. by apply ld_field_ok. Qed.

Definition with_tag (tag : Z) (fs : list WireField) : list WireField := filter (fun f => wf_tag f = tag) fs.
Definition without_tag (tag : Z) (fs : list WireField) : list WireField :=
  filter (fun f => wf_tag f <> tag) fs.

Lemma with_tag_app tag fs gs : with_tag tag (fs ++ gs) = with_tag tag fs ++ with_tag tag gs.
Proof using. apply filter_app. Qed.
Lemma without_tag_app tag fs gs : without_tag tag (fs ++ gs) = without_tag tag fs ++ without_tag tag gs.
Proof using. apply filter_app. Qed.
Lemma with_tag_ld_self tag ps : with_tag tag (map (ld_field tag) ps) = map (ld_field tag) ps.
Proof using.
  unfold with_tag. induction ps as [|p ps IH]; [done|]. cbn [map]. rewrite filter_cons_True by done.
  by rewrite IH.
Qed.
Lemma without_tag_ld_self tag ps : without_tag tag (map (ld_field tag) ps) = [].
Proof using.
  unfold without_tag. induction ps as [|p ps IH]; [done|]. cbn [map]. by rewrite filter_cons_False by auto.
Qed.

Lemma collect_with_tag tag fs : collect_payloads tag fs = collect_payloads tag (with_tag tag fs).
Proof using.
  unfold with_tag. induction fs as [|f fs IH]; [done|]. cbn [collect_payloads].
  destruct (Z.eqb_spec (wf_tag f) tag) as [H|H].
  - rewrite filter_cons_True by done. cbn [collect_payloads]. by rewrite H, Z.eqb_refl, IH.
  - by rewrite filter_cons_False.
Qed.

Lemma collect_ld tag ps : collect_payloads tag (map (ld_field tag) ps) = Ok ps.
Proof using.
  induction ps as [|p ps IH]; [done|]. cbn [map collect_payloads wf_tag ld_field].
  by rewrite Z.eqb_refl, IH.
Qed.

Lemma replace_loop_spec tag expected fs : forall output out,
  replace_loop tag expected fs output = Ok out <->
  out = output ++ encode_fields (without_tag tag fs) /\
  Forall (fun f => wf_wire_type f = expected) (with_tag tag fs).
Proof using.
  unfold with_tag, without_tag. induction fs as [|f fs IH]; intros output out; cbn [replace_loop].
  - rewrite !filter_nil. cbn. rewrite app_nil_r. split; [intros [= <-]; by split|by intros [-> _]].
  - destruct (Z.eqb_spec (wf_tag f) tag) as [H|H]; cbn [negb].
    + rewrite (filter_cons_True (fun f => wf_tag f = tag)) by done.
      rewrite (filter_cons_False (fun f => wf_tag f <> tag)) by auto. rewrite Forall_cons. destruct (bool_decide_reflect (wf_wire_type f = expected)); cbn [negb].
      * rewrite IH. tauto.
      * split; [done|]. tauto.
    + rewrite (filter_cons_False (fun f => wf_tag f = tag)) by done.
      rewrite (filter_cons_True (fun f => wf_tag f <> tag)) by done. rewrite IH.
      cbn [encode_fields map concat]. by rewrite <- app_assoc.
Qed.

Lemma replace_fields_spec m tag expected rep out :
  replace_fields m tag expected rep = Ok out <->
  exists fs, parse_fields m = Ok fs /\ out = encode_fields (without_tag tag fs) ++ rep /\
    Forall (fun f => wf_wire_type f = expected) (with_tag tag fs).
Proof using.
  unfold replace_fields. destruct (parse_fields m) as [fs|e]; cbn [mbind result_bind].
  2:{ split; [done|]. by intros (? & ? & _). }
  destruct (replace_loop tag expected fs []) as [o|e] eqn:E; cbn [mbind result_bind].
  - apply replace_loop_spec in E as [-> Hf]. split.
    + intros [= <-]. by exists fs.
    + by intros (gs & [= <-] & -> & _).
  - split; [done|]. intros (gs & [= <-] & _ & Hf).
    assert (replace_loop tag expected fs [] = Ok (encode_fields (without_tag tag fs))) as E'
      by (by apply replace_loop_spec). congruence.
Qed.

Lemma parse_field_payload m f rest :
  parse_field m = Ok (f, rest) ->
  (is_Some (wf_length_delimited f) <-> wf_wire_type f = LengthDelimited) /\
  forall p, wf_length_delimited f = Some p -> len p <= len m.
Proof using Hpw.
  unfold parse_field. destruct (decode_key m) as [[[tag wt] r1]|] eqn:Ek; [|done].
  pose proof (decode_key_prefix _ _ _ Ek) as (p & -> & _). cbn [ok_or mbind result_bind].
  destruct (decide (wt = LengthDelimited)) as [->|Hwt].
  - destruct (decode_varint r1) as [[n r3]|] eqn:Ev; [|done].
    pose proof (decode_varint_prefix _ _ _ Ev) as (v & -> & _). cbn [ok_or mbind result_bind].
    destruct (len r3 <? n) eqn:El; [done|]. cbn [mbind result_bind]. intros [= <- <-]. cbn.
    split; [by split; eauto|]. intros q [= <-]. rewrite !len_app. unfold len.
    rewrite length_take. lia.
  - destruct (skip_field wt tag r1) as [r3|] eqn:Es; [|by destruct wt].
    intros H. assert (wf_length_delimited f = None /\ wf_wire_type f = wt) as [Hn Ht].
    { destruct wt; cbn [ok_or mbind result_bind] in H; try done; by injection H as <- <-. }
    rewrite Hn, Ht. split; [split; [by intros [? ?]|done]|done].
Qed.

Lemma field_ok_payload f :
  field_ok f -> (is_Some (wf_length_delimited f) <-> wf_wire_type f = LengthDelimited) /\
  forall p, wf_length_delimited f = Some p -> len p <= len (wf_encoded f).
Proof using Hpw.
  intros [_ H]. specialize (H []). rewrite app_nil_r in H. by apply parse_field_payload in H.
Qed.

Lemma collect_ok tag fs ps :
  Forall field_ok fs -> collect_payloads tag fs = Ok ps ->
  Forall (fun f => wf_wire_type f = LengthDelimited) (with_tag tag fs) /\
  len (concat ps) <= len (encode_fields fs).
Proof using Hpw.
  unfold with_tag, encode_fields. revert ps. induction fs as [|f fs IH]; intros ps Hok; cbn [collect_payloads].
  - intros [= <-]. by split; [constructor|].
  - apply Forall_cons in Hok as [Hf Hok]. destruct (field_ok_payload f Hf) as [Hw Hl].
    cbn [map concat]. rewrite len_app. destruct (Z.eqb_spec (wf_tag f) tag) as [Ht|Ht].
    + rewrite filter_cons_True by done. destruct (wf_length_delimited f) as [p|]; [|done].
      cbn [ok_or mbind result_bind]. destruct (collect_payloads tag fs) as [qs|]; [|done].
      intros [= <-]. destruct (IH _ Hok eq_refl) as [? ?]. split; [constructor; [by apply Hw|done]|].
      cbn [concat]. rewrite len_app. specialize (Hl p eq_refl). lia.
    + rewrite filter_cons_False by done. intros H. destruct (IH _ Hok H) as [? ?].
      split; [done|]. pose proof (len_nonneg (wf_encoded f)). lia.
Qed.

Lemma encode_filter_le P `{!forall f, Decision (P f)} fs :
  len (encode_fields (filter P fs)) <= len (encode_fields fs).
Proof using.
  unfold encode_fields. induction fs as [|f fs IH]; [done|]. cbn [map concat]. rewrite len_app.
  destruct (decide (P f)).
  - rewrite filter_cons_True by done. cbn [map concat]. rewrite len_app. lia.
  - rewrite filter_cons_False by done. pose proof (len_nonneg (wf_encoded f)). lia.
Qed.

(** Fields outside [P] survive a filter on another tag. *)
Lemma with_without tag tag' fs : tag <> tag' -> with_tag tag (without_tag tag' fs) = with_tag tag fs.
Proof using.
  intros Hne. unfold with_tag, without_tag. rewrite list_filter_filter. apply list_filter_iff.
  intros f. split; [tauto|]. intros H. split; [done|congruence].
Qed.
Lemma with_tag_ld tag tag' ps : tag <> tag' -> with_tag tag (map (ld_field tag') ps) = [].
Proof using.
  intros Hne. unfold with_tag. induction ps as [|p ps IH]; [done|]. cbn [map].
  by rewrite filter_cons_False by (cbn; congruence).
Qed.
Lemma without_tag_ld tag tag' ps :
  tag <> tag' -> without_tag tag (map (ld_field tag') ps) = map (ld_field tag') ps.
Proof using.
  intros Hne. unfold without_tag. induction ps as [|p ps IH]; [done|]. cbn [map].
  rewrite filter_cons_True by (cbn; congruence). by rewrite IH.
Qed.
Lemma filter_ok P `{!forall f, Decision (P f)} fs : Forall field_ok fs -> Forall field_ok (filter P fs).
Proof using.
  rewrite !Forall_forall. intros Hall f [_ Hf]%list_elem_of_filter. by apply Hall.
Qed.

(** The fields of a patched message. *)
Definition patched_fields (fs hs : list WireField) (cidrs : list (list Z)) : list WireField :=
  without_tag ROUTE_PEER_INFO_FEATURE_FLAG_TAG (without_tag ROUTE_PEER_INFO_PROXY_CIDRS_TAG fs) ++
  map (ld_field ROUTE_PEER_INFO_PROXY_CIDRS_TAG) cidrs ++
  [ld_field ROUTE_PEER_INFO_FEATURE_FLAG_TAG (encode_fields
     (without_tag FEATURE_FLAG_IS_CREDENTIAL_PEER_TAG hs ++
      [varint_field FEATURE_FLAG_IS_CREDENTIAL_PEER_TAG 1]))].

Lemma patch_spec raw cidrs out :
  Forall (fun c => len c < 2 ^ 64) cidrs ->
  patch_credential_route_peer_info raw cidrs = Ok out <->
  exists fs flags hs, parse_fields raw = Ok fs /\
    Forall (fun f => wf_wire_type f = LengthDelimited) (with_tag ROUTE_PEER_INFO_PROXY_CIDRS_TAG fs) /\
    collect_payloads ROUTE_PEER_INFO_FEATURE_FLAG_TAG fs = Ok flags /\
    parse_fields (concat flags) = Ok hs /\
    Forall (fun f => wf_wire_type f = Varint) (with_tag FEATURE_FLAG_IS_CREDENTIAL_PEER_TAG hs) /\
    out = encode_fields (patched_fields fs hs cidrs).
Proof using Hpw.
  intros Hc. unfold patch_credential_route_peer_info. rewrite ld_fields_encode.
  pose proof (ld_fields_ok ROUTE_PEER_INFO_PROXY_CIDRS_TAG cidrs ltac:(done) Hc) as Hcok.
  assert (forall fs, Forall field_ok fs ->
    let gs := without_tag ROUTE_PEER_INFO_PROXY_CIDRS_TAG fs ++
      map (ld_field ROUTE_PEER_INFO_PROXY_CIDRS_TAG) cidrs in
    parse_fields (encode_fields (without_tag ROUTE_PEER_INFO_PROXY_CIDRS_TAG fs) ++
      encode_fields (map (ld_field ROUTE_PEER_INFO_PROXY_CIDRS_TAG) cidrs)) = Ok gs /\
    with_tag ROUTE_PEER_INFO_FEATURE_FLAG_TAG gs = with_tag ROUTE_PEER_INFO_FEATURE_FLAG_TAG fs /\
    without_tag ROUTE_PEER_INFO_FEATURE_FLAG_TAG gs =
      without_tag ROUTE_PEER_INFO_FEATURE_FLAG_TAG (without_tag ROUTE_PEER_INFO_PROXY_CIDRS_TAG fs) ++
      map (ld_field ROUTE_PEER_INFO_PROXY_CIDRS_TAG) cidrs) as Hg.
  { intros fs Hfs. cbv zeta. rewrite <- encode_fields_app. split_and!.
    - apply parse_encode, Forall_app. split; [by apply filter_ok|done].
    - by rewrite with_tag_app, with_without, with_tag_ld, app_nil_r by done.
    - by rewrite without_tag_app, (without_tag_ld _ _ cidrs) by done. }
  split.
  - intros H. destruct (replace_fields raw _ _ _) as [ri|] eqn:E1; [|done].
    cbn [mbind result_bind] in H. apply replace_fields_spec in E1 as (fs & Hp & -> & H5).
    apply parse_fields_inv in Hp as Hok. destruct Hok as [Hok _].
    destruct (Hg fs Hok) as (Hgp & Hgw & Hgo).
    unfold merged_length_delimited_field, length_delimited_fields in H.
    rewrite Hgp in H. cbn [mbind result_bind] in H.
    rewrite collect_with_tag, Hgw, <- collect_with_tag in H.
    destruct (collect_payloads _ fs) as [flags|] eqn:Ef; [|done]. cbn [mbind result_bind] in H.
    destruct (replace_fields (concat flags) _ _ _) as [ff|] eqn:E2; [|done].
    cbn [mbind result_bind] in H.
    apply replace_fields_spec in E2 as (hs & Hhs & -> & H8).
    apply replace_fields_spec in H as (gs & Hgs & -> & _). rewrite Hgp in Hgs. injection Hgs as <-.
    exists fs, flags, hs. split_and!; try done. unfold patched_fields.
    rewrite Hgo, !encode_fields_app. cbn. by rewrite !app_nil_r, <- app_assoc.
  - intros (fs & flags & hs & Hp & H5 & Hf & Hhs & H8 & ->).
    apply parse_fields_inv in Hp as Hok. destruct Hok as [Hok _].
    destruct (Hg fs Hok) as (Hgp & Hgw & Hgo).
    rewrite (proj2 (replace_fields_spec raw _ _ _ _)) by (exists fs; split_and!; done).
    cbn [mbind result_bind]. unfold merged_length_delimited_field, length_delimited_fields.
    rewrite Hgp. cbn [mbind result_bind].
    rewrite collect_with_tag, Hgw, <- collect_with_tag, Hf. cbn [mbind result_bind].
    rewrite (proj2 (replace_fields_spec (concat flags) _ _ _ _)) by (exists hs; split_and!; done).
    cbn [mbind result_bind]. apply replace_fields_spec. exists (without_tag ROUTE_PEER_INFO_PROXY_CIDRS_TAG fs ++
      map (ld_field ROUTE_PEER_INFO_PROXY_CIDRS_TAG) cidrs). split_and!; [done| |].
    + unfold patched_fields. rewrite Hgo, !encode_fields_app. cbn. by rewrite !app_nil_r, <- app_assoc.
    + rewrite Hgw. by apply (collect_ok _ _ _ Hok Hf).
Qed.
End lemmas.

(** ** Theorems *)

Lemma patched_ok `{pw : ProstWire, !ProstWireLaws pw} raw fs flags hs cidrs :
  parse_fields raw = Ok fs -> collect_payloads ROUTE_PEER_INFO_FEATURE_FLAG_TAG fs = Ok flags ->
  parse_fields (concat flags) = Ok hs ->
  Forall (fun c => len c < 2 ^ 64) cidrs -> len raw < 2 ^ 63 ->
  Forall field_ok (patched_fields fs hs cidrs).
Proof.
  intros [Hok ->]%parse_fields_inv Hf [Hh Hcat]%parse_fields_inv Hc Hr.
  unfold patched_fields. rewrite !Forall_app. split_and!; [by do 2 apply filter_ok|by apply ld_fields_ok|].
  apply Forall_cons. split; [|by constructor]. apply ld_field_ok; [done|].
  destruct (collect_ok _ _ _ Hok Hf) as [_ Hl]. rewrite Hcat in Hl.
  rewrite encode_fields_app, len_app.
  pose proof (encode_filter_le (fun f => wf_tag f <> FEATURE_FLAG_IS_CREDENTIAL_PEER_TAG) hs) as Hw.
  change (filter _ hs) with (without_tag FEATURE_FLAG_IS_CREDENTIAL_PEER_TAG hs) in Hw.
  cbn [encode_fields map concat wf_encoded varint_field]. unfold append_varint_field.
  rewrite app_nil_r, len_app.
  pose proof (encode_key_len FEATURE_FLAG_IS_CREDENTIAL_PEER_TAG Varint ltac:(done)).
  pose proof (encode_varint_len 1 ltac:(done)). lia.
Qed.

(** Reflecting a credential peer changes two fields and nothing else.  When
    the patch succeeds, the fields of the result other than the proxy networks
    and the feature flag are the received ones byte for byte and in order; the
    proxy networks are exactly the ones given; there is one feature flag, whose
    fields are the received ones (merged, unknown ones included) except that
    "is credential peer" is set; and every credential proof reads back the very
    bytes its signature covers.  The patch fails only on a message that does not
    parse or has one of these fields in another wire type. *)
Theorem patch_edits_two_fields `{pw : ProstWire, !ProstWireLaws pw}
    (raw out : list Z) (cidrs : list (list Z)) :
  len raw < 2 ^ 63 -> Forall (fun c => len c < 2 ^ 64) cidrs ->
  patch_credential_route_peer_info raw cidrs = Ok out ->
  exists fs outs flags hs flag,
    parse_fields raw = Ok fs /\ parse_fields out = Ok outs /\
    filter (fun f => wf_tag f <> 5 /\ wf_tag f <> 11) outs =
      filter (fun f => wf_tag f <> 5 /\ wf_tag f <> 11) fs /\
    length_delimited_fields out ROUTE_PEER_INFO_PROXY_CIDRS_TAG = Ok cidrs /\
    length_delimited_fields raw ROUTE_PEER_INFO_FEATURE_FLAG_TAG = Ok flags /\
    length_delimited_fields out ROUTE_PEER_INFO_FEATURE_FLAG_TAG = Ok [flag] /\
    parse_fields (concat flags) = Ok hs /\
    parse_fields flag = Ok (without_tag FEATURE_FLAG_IS_CREDENTIAL_PEER_TAG hs ++
                            [varint_field FEATURE_FLAG_IS_CREDENTIAL_PEER_TAG 1]) /\
    forall i, raw_credential_bytes out i = raw_credential_bytes raw i.
Proof.
  intros Hr Hc (fs & flags & hs & Hp & H5 & Hf & Hhs & H8 & ->)%patch_spec; [|done].
  pose proof (parse_encode _ (patched_ok _ _ _ _ _ Hp Hf Hhs Hc Hr)) as Hout.
  apply parse_fields_inv in Hhs as Hok. destruct Hok as [Hok _].
  eexists fs, (patched_fields fs hs cidrs), flags, hs, _. split_and!; [done..| | | | |done| |].
  - unfold patched_fields. rewrite !filter_app. unfold without_tag at 1 2. rewrite !list_filter_filter.
    assert (filter (fun f => wf_tag f <> 5 /\ wf_tag f <> 11)
      (map (ld_field ROUTE_PEER_INFO_PROXY_CIDRS_TAG) cidrs) = []) as ->
      by (clear; induction cidrs; [done|]; cbn [map]; by rewrite filter_cons_False by (cbn; tauto)).
    rewrite filter_cons_False by (cbn; tauto). rewrite filter_nil, !app_nil_r.
    apply list_filter_iff. intros f.
    unfold ROUTE_PEER_INFO_PROXY_CIDRS_TAG, ROUTE_PEER_INFO_FEATURE_FLAG_TAG. tauto.
  - unfold length_delimited_fields. rewrite Hout. cbn [mbind result_bind]. rewrite collect_with_tag.
    unfold patched_fields. rewrite !with_tag_app, with_without by done.
    unfold with_tag at 1, without_tag. rewrite list_filter_filter.
    assert (filter (fun f => wf_tag f = ROUTE_PEER_INFO_PROXY_CIDRS_TAG /\
      wf_tag f <> ROUTE_PEER_INFO_PROXY_CIDRS_TAG) fs = []) as ->
      by (clear; induction fs; [done|]; by rewrite filter_cons_False by tauto).
    rewrite with_tag_ld_self. cbn [app]. unfold with_tag. rewrite filter_cons_False by done.
    by rewrite filter_nil, app_nil_r, collect_ld.
  - unfold length_delimited_fields. rewrite Hp. exact Hf.
  - unfold length_delimited_fields. rewrite Hout. cbn [mbind result_bind]. rewrite collect_with_tag.
    unfold patched_fields. rewrite !with_tag_app, (with_tag_ld _ _ cidrs) by done.
    unfold with_tag at 1, without_tag at 1. rewrite list_filter_filter.
    assert (filter (fun f => wf_tag f = ROUTE_PEER_INFO_FEATURE_FLAG_TAG /\
      wf_tag f <> ROUTE_PEER_INFO_FEATURE_FLAG_TAG) (without_tag ROUTE_PEER_INFO_PROXY_CIDRS_TAG fs) = []) as ->
      by (generalize (without_tag ROUTE_PEER_INFO_PROXY_CIDRS_TAG fs) as l; clear;
          induction l; [done|]; by rewrite filter_cons_False by tauto).
    cbn [app]. exact (collect_ld ROUTE_PEER_INFO_FEATURE_FLAG_TAG [_]).
  - apply parse_encode, Forall_app. split; [by apply filter_ok|].
    apply Forall_cons. split; [by apply varint_field_ok|by constructor].
  - intros i. unfold raw_credential_bytes, length_delimited_fields. rewrite Hout, Hp.
    cbn [mbind result_bind]. rewrite (collect_with_tag _ (patched_fields _ _ _)), (collect_with_tag _ fs).
    unfold patched_fields. rewrite !with_tag_app, !with_without, (with_tag_ld _ _ cidrs) by done.
    unfold with_tag at 2. rewrite filter_cons_False by done. by rewrite filter_nil, !app_nil_r.
Qed.

(** Peer information crosses a hop as the bytes received: a request
    encodes exactly when there is one byte string per peer information, and
    reading it back gives those byte strings in order, so that any number of
    hops keeps them. *)
Theorem raw_infos_round_trip `{pw : ProstWire, !ProstWireLaws pw, pr : ProstRoute, !ProstRouteLaws pw pr}
    (r : SyncRouteInfoRequest) (raws : list (list Z)) :
  Forall (fun b => len b < 2 ^ 64) raws ->
  len (concat (map (append_length_delimited_field ROUTE_PEER_INFOS_ITEM_TAG) raws)) < 2 ^ 64 ->
  (encode_sync_route_request r raws = Err PeerInfoCountMismatch <->
   length (default [] (rq_peer_infos r)) <> length raws) /\
  (length (default [] (rq_peer_infos r)) = length raws ->
   exists out, encode_sync_route_request r raws = Ok out /\ extract_route_peer_infos out = Ok raws).
Proof.
  intros Hb Hl. unfold encode_sync_route_request.
  assert (match rq_peer_infos r with Some l => length l | None => O end =
    length (default [] (rq_peer_infos r))) as -> by (by destruct (rq_peer_infos r)).
  destruct (Nat.eqb_spec (length (default [] (rq_peer_infos r))) (length raws)) as [E|E]; cbn [negb].
  2:{ split; [by split|done]. }
  set (r0 := {| rq_my_peer_id := _ |}).
  destruct (request_encode_fields r0 eq_refl) as (fs & Hp & Hno).
  assert (with_tag SYNC_ROUTE_PEER_INFOS_TAG fs = []) as Hnone.
  { clear -Hno. unfold with_tag. induction Hno as [|f fs Hf _ IH]; [done|].
    by rewrite filter_cons_False by done. }
  split; [split; [by destruct (rq_peer_infos r)|done]|]. intros _.
  unfold extract_route_peer_infos, length_delimited_fields.
  destruct (rq_peer_infos r) as [l|]; eexists; (split; [done|]).
  - apply parse_fields_inv in Hp as [Hok ->]. set (items := concat _) in *.
    pose proof (parse_encode (fs ++ [ld_field SYNC_ROUTE_PEER_INFOS_TAG items])) as Hpe.
    rewrite encode_fields_app in Hpe. cbn [encode_fields map concat wf_encoded ld_field] in Hpe.
    rewrite app_nil_r in Hpe. rewrite Hpe; clear Hpe.
    2:{ apply Forall_app. split; [done|]. apply Forall_cons. split; [by apply ld_field_ok|by constructor]. }
    cbn [mbind result_bind]. rewrite collect_with_tag, with_tag_app, Hnone. cbn [app].
    change [ld_field SYNC_ROUTE_PEER_INFOS_TAG items]
      with (map (ld_field SYNC_ROUTE_PEER_INFOS_TAG) [items]).
    rewrite with_tag_ld_self, collect_ld. cbn [mbind result_bind extract_items]. unfold length_delimited_fields. subst items.
    rewrite ld_fields_encode, parse_encode by (by apply ld_fields_ok).
    cbn [mbind result_bind]. rewrite collect_ld. cbn [mbind result_bind].
    by rewrite app_nil_r.
  - rewrite Hp. cbn [mbind result_bind]. rewrite collect_with_tag, Hnone. cbn in E |- *.
    by destruct raws.
Qed.

(** ** Protobuf, concretely

    Base-128 varints and the wire types in use (groups, which no message of the
    program has, are refused). *)
Module Protobuf.
Fixpoint enc (fuel : nat) (v : Z) : list Z :=
  match fuel with
  | O => [v]
  | S fuel => if v <? 128 then [v] else v mod 128 + 128 :: enc fuel (v / 128)
  end.
Fixpoint dec (fuel : nat) (b : list Z) : option (Z * list Z) :=
  match b with
  | [] => None
  | x :: r =>
    if x <? 128 then Some (x, r) else
    match fuel with
    | O => None
    | S fuel => '(v, r) ← dec fuel r; Some (x - 128 + 128 * v, r)
    end
  end.

Definition wt_code (w : WireType) : Z :=
  match w with
  | Varint => 0 | SixtyFourBit => 1 | LengthDelimited => 2 | StartGroup => 3 | EndGroup => 4
  | ThirtyTwoBit => 5
  end.
Definition wt_of (c : Z) : option WireType :=
  find (fun w => wt_code w =? c)
    [Varint; SixtyFourBit; LengthDelimited; StartGroup; EndGroup; ThirtyTwoBit].

Definition dec_key (b : list Z) : option (Z * WireType * list Z) :=
  '(k, r) ← dec 9 b;
  w ← wt_of (k mod 8);
  if (1 <=? k / 8) && (k <? 2 ^ 32) then Some (k / 8, w, r) else None.
Definition split_at (n : nat) (b : list Z) : option (list Z) :=
  if (n <=? length b)%nat then Some (drop n b) else None.
Definition skip (w : WireType) (tag : Z) (b : list Z) : option (list Z) :=
  match w with
  | Varint => snd <$> dec 9 b
  | SixtyFourBit => split_at 8 b
  | ThirtyTwoBit => split_at 4 b
  | LengthDelimited => '(n, r) ← dec 9 b; split_at (Z.to_nat n) r
  | StartGroup | EndGroup => None
  end.

#[export] Instance wire : ProstWire :=
  {| decode_key := dec_key; decode_varint := dec 9; skip_field := skip;
     encode_key := fun tag w => enc 9 (8 * tag + wt_code w); encode_varint := enc 9 |}.

Lemma dec_prefix fuel : reads_prefix (dec fuel).
Proof.
  induction fuel as [|fuel IH]; intros [|x b] a r; cbn [dec]; try done.
  - destruct (x <? 128) eqn:E; [|done]. intros [= <- <-]. exists [x]. split; [done|].
    intros r'. cbn. by rewrite E.
  - destruct (x <? 128) eqn:E.
    + intros [= <- <-]. exists [x]. split; [done|]. intros r'. cbn. by rewrite E.
    + destruct (dec fuel b) as [[v r1]|] eqn:Ed; [|done]. cbn. intros [= <- <-].
      destruct (IH _ _ _ Ed) as (p & -> & Hp). exists (x :: p). split; [done|].
      intros r'. cbn. by rewrite E, Hp.
Qed.

Lemma dec_enc fuel v r : 0 <= v < 128 ^ Z.of_nat (S fuel) -> dec fuel (enc fuel v ++ r) = Some (v, r).
Proof.
  revert v. induction fuel as [|fuel IH]; intros v Hv; cbn [enc].
  - cbn [app dec]. change (128 ^ Z.of_nat 1) with 128 in Hv. by rewrite (proj2 (Z.ltb_lt _ _)) by lia.
  - rewrite (Nat2Z.inj_succ (S fuel)), Z.pow_succ_r in Hv by lia.
    destruct (v <? 128) eqn:E; cbn [app dec]; [by rewrite E|].
    pose proof (Z.mod_pos_bound v 128 ltac:(lia)).
    rewrite (proj2 (Z.ltb_ge _ _)) by lia.
    rewrite IH by (split; [apply Z.div_pos|apply Z.div_lt_upper_bound]; lia). cbn.
    do 2 f_equal. pose proof (Z.div_mod v 128). lia.
Qed.

Lemma enc_len n : forall fuel v, 0 <= v < 128 ^ Z.of_nat (S n) -> len (enc fuel v) <= Z.of_nat (S n).
Proof.
  induction n as [|n IH]; intros [|fuel] v Hv; cbn [enc].
  - done.
  - change (128 ^ Z.of_nat 1) with 128 in Hv. by rewrite (proj2 (Z.ltb_lt _ _)) by lia.
  - unfold len. cbn [length]. lia.
  - rewrite (Nat2Z.inj_succ (S n)), Z.pow_succ_r in Hv by lia. destruct (v <? 128).
    + unfold len. cbn [length]. lia.
    + rewrite len_cons. assert (len (enc fuel (v / 128)) <= Z.of_nat (S n)); [|lia].
      apply IH. split; [apply Z.div_pos|apply Z.div_lt_upper_bound]; lia.
Qed.

Lemma split_prefix n : reads_prefix (fun b => (fun r => (tt, r)) <$> split_at n b).
Proof.
  intros b [] r. unfold split_at. destruct (n <=? length b)%nat eqn:E; [|done].
  apply Nat.leb_le in E. cbn. intros [= <-]. exists (take n b). rewrite take_drop. split; [done|].
  intros r'. rewrite (proj2 (Nat.leb_le _ _)) by (rewrite length_app, length_take; lia).
  cbn. by rewrite drop_app_length' by (rewrite length_take; lia).
Qed.

Lemma wt_of_code w tag : 0 <= tag -> wt_of ((8 * tag + wt_code w) mod 8) = Some w.
Proof.
  intros. rewrite (Z.mul_comm 8), Z.add_comm, Z.mod_add by lia. by destruct w.
Qed.

Lemma key_range w tag : valid_tag tag -> (8 * tag + wt_code w) / 8 = tag /\
  0 <= 8 * tag + wt_code w < 2 ^ 32.
Proof.
  unfold valid_tag. intros Ht. assert (0 <= wt_code w < 8) as Hw by (destruct w; cbn; lia).
  split; [|lia]. rewrite (Z.mul_comm 8), Z.div_add_l by lia. rewrite Z.div_small; lia.
Qed.

#[local] Arguments dec : simpl never.
#[local] Arguments wt_of : simpl never.

#[export] Instance wire_laws : ProstWireLaws wire.
Proof.
  constructor; cbn [decode_key decode_varint skip_field encode_key encode_varint wire].
  - intros b [tag w] r. unfold dec_key. destruct (dec 9 b) as [[k r1]|] eqn:E; [|done].
    destruct (dec_prefix _ _ _ _ E) as (p & -> & Hp). cbn [mbind option_bind]. destruct (wt_of (k mod 8)) as [w'|] eqn:Ew; [|done].
    cbn [mbind option_bind]. destruct (_ && _) eqn:Ek; [|done]. intros [= <- <- <-]. exists p. split; [done|].
    intros r'. rewrite Hp. cbn [mbind option_bind]. rewrite Ew. cbn [mbind option_bind]. by rewrite Ek.
  - done.
  - apply dec_prefix.
  - intros wt tag. destruct wt; cbn [skip]; try apply split_prefix; try (by intros b [] r).
    + intros b [] r. destruct (dec 9 b) as [[v r1]|] eqn:E; [|done]. cbn. intros [= <-].
      destruct (dec_prefix _ _ _ _ E) as (p & -> & Hp). exists p. split; [done|].
      intros r'. by rewrite Hp.
    + intros b [] r. destruct (dec 9 b) as [[v r1]|] eqn:E; [|done].
      destruct (dec_prefix _ _ _ _ E) as (p & -> & Hp). cbn. intros H.
      destruct (split_prefix _ _ _ _ H) as (q & -> & Hq). exists (p ++ q).
      split; [by rewrite <- app_assoc|]. intros r'. rewrite <- app_assoc, Hp. cbn. apply Hq.
  - intros tag v r Hv. cbn [skip]. rewrite dec_enc; [done|]. unfold in_range in Hv.
    change (128 ^ Z.of_nat 10) with (2 ^ 70). lia.
  - intros tag wt r Ht. destruct (key_range wt tag Ht) as [Hd Hr]. unfold dec_key.
    rewrite dec_enc by (change (128 ^ Z.of_nat 10) with (2 ^ 70); lia). cbn [mbind option_bind].
    unfold valid_tag in Ht. rewrite wt_of_code by lia. cbn [mbind option_bind]. rewrite Hd.
    by rewrite (proj2 (Z.leb_le _ _)), (proj2 (Z.ltb_lt _ _)) by lia.
  - intros v r Hv. apply dec_enc. unfold in_range in Hv. change (128 ^ Z.of_nat 10) with (2 ^ 70). lia.
  - intros tag wt Ht. destruct (key_range wt tag Ht) as [_ Hr]. apply (enc_len 4).
    change (128 ^ Z.of_nat 5) with (2 ^ 35). lia.
  - intros v Hv. unfold in_range in Hv. apply (enc_len 9). change (128 ^ Z.of_nat 10) with (2 ^ 70). lia.
Qed.

(** Peer information reduced to its id, and a request to the sender's. *)
#[export] Instance route : ProstRoute :=
  {| peer_info_encode := fun i => append_varint_field 1 (peer_id i);
     peer_info_decode := fun _ => None;
     request_encode := fun r => append_varint_field 1 (wrap 32 (rq_my_peer_id r)) |}.

#[export] Instance route_laws : ProstRouteLaws wire route.
Proof.
  constructor. intros r _. exists [varint_field 1 (wrap 32 (rq_my_peer_id r))]. split.
  - rewrite <- (parse_encode [varint_field 1 (wrap 32 (rq_my_peer_id r))]).
    + f_equal. cbn. by rewrite app_nil_r.
    + apply Forall_cons. split; [|by constructor]. apply varint_field_ok; [done|].
      destruct (wrap_range 32 (rq_my_peer_id r)); unfold in_range; lia.
  - by repeat constructor.
Qed.

Definition info_sample : RoutePeerInfo :=
  {| peer_id := 7; inst_id := None; cost := 0; ipv4_addr := None; proxy_cidrs := [];
     hostname := None; udp_nat_type := 0; tcp_nat_type := 0; last_update := None; version := 1;
     easytier_version := []; feature_flag := None; peer_route_id := 0; network_length := 24;
     quic_port := None; ipv6_addr := None; groups := []; noise_static_pubkey := [];
     trusted_credential_pubkeys := []; ipv6_public_addr_prefix := None;
     ipv6_public_addr_lease := None |}.
Definition request_sample : SyncRouteInfoRequest :=
  {| rq_my_peer_id := 1; rq_my_session_id := 2; rq_is_initiator := true;
     rq_peer_infos := Some [info_sample]; rq_conn_info := None; rq_foreign_network_infos := None |}.

(** A peer information: id, a proxy network, a feature flag with an unknown
    field, a credential proof and an unknown field. *)
Definition raw_sample : list Z :=
  append_varint_field 1 7 ++ append_length_delimited_field 5 [49; 48] ++
  append_length_delimited_field 11 (append_varint_field 2 1 ++ append_varint_field 101 42) ++
  append_length_delimited_field 19 (append_length_delimited_field 1 [1; 2; 3]) ++
  append_varint_field 100 99.
End Protobuf.

Lemma patch_edits_two_fields_witness :
  exists out, @patch_credential_route_peer_info Protobuf.wire Protobuf.raw_sample [[49]] = Ok out /\
    @raw_credential_bytes Protobuf.wire out 0 = Ok (Some [1; 2; 3]).
Proof.
  destruct (@patch_credential_route_peer_info Protobuf.wire Protobuf.raw_sample [[49]]) as [out|e] eqn:E.
  2:{ vm_compute in E. discriminate. }
  exists out. split; [done|].
  destruct (@patch_edits_two_fields Protobuf.wire Protobuf.wire_laws Protobuf.raw_sample out [[49]])
    as (fs & outs & flags & hs & flag & _ & _ & _ & _ & _ & _ & _ & _ & H);
    [vm_compute; done|by repeat constructor|done|].
  rewrite H. vm_compute. reflexivity.
Defined.

Lemma raw_infos_round_trip_witness :
  exists out, @encode_sync_route_request Protobuf.wire Protobuf.route Protobuf.request_sample
      [Protobuf.raw_sample] = Ok out /\
    @extract_route_peer_infos Protobuf.wire out = Ok [Protobuf.raw_sample].
Proof.
  apply (@raw_infos_round_trip Protobuf.wire Protobuf.wire_laws Protobuf.route
    Protobuf.route_laws Protobuf.request_sample [Protobuf.raw_sample]);
    [by repeat constructor|vm_compute; done|done].
Defined.
