(* ===== verification/SyncedRoute.v ===== *)
(** [SyncedRouteInfo] of [peers/route/peer_ospf_route.rs]: what a node knows of
    the network, merged from what its peers send it.

    Peer information, connections and foreign networks carry versions and a
    newer version replaces an older one; from them the node derives the groups
    it trusts, the credentials it accepts and the owner of each credential that
    only one peer may use.  The ordered hash map is the class [OrderedMap];
    HMAC-SHA256 and the protobuf encoding of a credential are the class
    [TrustLib].  Locks are atomic regions, and a method reads the clock once:
    times are milliseconds since the epoch. *)

From stdpp Require Import list gmap.
From S2P Require Import Prelude RouteMessages RouteWire.
Local Open Scope Z_scope.

(** ** Libraries *)

(** [ordered_hash_map::OrderedHashMap] keyed by peer ids. *)
Class OrderedMap := {
  OMap : Type -> Type;
  om_empty {V} : OMap V;
  om_get {V} : OMap V -> Z -> option V;
  om_insert {V} : Z -> V -> OMap V -> OMap V;
  om_remove {V} : Z -> OMap V -> OMap V;
  om_iter {V} : OMap V -> list (Z * V) }.

(** A map, whose iteration yields every entry once. *)
Class OrderedMapLaws (om : OrderedMap) := {
  om_get_empty {V} k : om_get (om_empty (V:=V)) k = None;
  om_get_insert {V} k (v : V) m k' :
    om_get (om_insert k v m) k' = if k =? k' then Some v else om_get m k';
  om_get_remove {V} k (m : OMap V) k' :
    om_get (om_remove k m) k' = if k =? k' then None else om_get m k';
  om_iter_nodup {V} (m : OMap V) : NoDup (om_iter m).*1;
  om_iter_get {V} (m : OMap V) k v : (k, v) ∈ om_iter m <-> om_get m k = Some v }.

(** [RouteConnBitmap::get_bit]; indexing panics past the end. *)
Definition get_bit (b : RouteConnBitmap) (idx : Z) : comp bool :=
  byte ← unwrap (bm_bitmap b !! Z.to_nat (idx / 8));
  Ret (Z.land (Z.shiftr byte (idx mod 8)) 1 =? 1).

Fixpoint connected_bits (b : RouteConnBitmap) (base idx : Z) (l : list PeerIdVersion)
    (acc : gset Z) : comp (gset Z) :=
  match l with
  | [] => Ret acc
  | p :: l =>
    bit ← get_bit b (base + idx);
    connected_bits b base (idx + 1) l (if bit : bool then {[pv_peer_id p]} ∪ acc else acc)
  end.
Definition bitmap_connected_peers (b : RouteConnBitmap) (peer_idx : Z) : comp (gset Z) :=
  connected_bits b (peer_idx * len (bm_peer_ids b)) 0 (bm_peer_ids b) ∅.

(** ** Trust *)

(** HMAC-SHA256 and [TrustedCredentialPubkey::encode_to_vec]. *)
Class TrustLib := {
  hmac_sha256 : list Z -> list Z -> list Z;
  credential_encode : TrustedCredentialPubkey -> list Z }.

(** "easytier credential proof". *)
Definition credential_proof_label : list Z :=
  [101; 97; 115; 121; 116; 105; 101; 114; 32; 99; 114; 101; 100; 101; 110; 116; 105; 97; 108; 32;
   112; 114; 111; 111; 102].

Section trust.
Context {tl : TrustLib}.

(** [PeerGroupInfo::verify]. *)
Definition group_verify (g : PeerGroupInfo) (group_secret : list Z) (pid : Z) : bool :=
  bool_decide (hmac_sha256 group_secret (group_name g ++ [0] ++ be_encode 4 pid) = group_proof g).

Definition verify_credential_hmac_with_bytes (p : TrustedCredentialPubkeyProof)
    (credential_bytes secret : list Z) : bool :=
  match tp_credential_hmac p with
  | [] => false
  | h => bool_decide (hmac_sha256 secret (credential_proof_label ++ credential_bytes) = h)
  end.
Definition verify_credential_hmac (p : TrustedCredentialPubkeyProof) (secret : list Z) : bool :=
  match tp_credential p with
  | None => false
  | Some c => verify_credential_hmac_with_bytes p (credential_encode c) secret
  end.
End trust.

(** ** The state *)

Record RouteConnInfo := { connected_peers : gset Z; conn_version : Z; conn_last_update : Z }.

Inductive TrustedKeySource := OspfNode | OspfCredential.
Record TrustedKeyMetadata := { tk_source : TrustedKeySource; tk_expiry_unix : option Z }.

Definition UPDATE_PEER_INFO_PERIOD : Z := 3600 * 1000.

Section state.
Context {om : OrderedMap}.

Record SyncedRouteInfo := {
  default_easytier_version : list Z;
  peer_infos : OMap RoutePeerInfo;
  raw_peer_infos : gmap Z (list Z);
  conn_map : OMap RouteConnInfo;
  foreign_network : gmap ForeignKey ForeignNetworkRouteInfoEntry;
  group_trust_map : gmap Z (gmap (list Z) (list Z));
  group_trust_map_cache : gmap Z (gset (list Z));
  trusted_credentials : gmap (list Z) TrustedCredentialPubkey;
  non_reusable_credential_owners : gmap (list Z) Z;
  suppressed_non_reusable_credential_peers : gset Z;
  s_version : Z }.

(** Updates of single fields. *)
Definition with_peers (s : SyncedRouteInfo) (pi : OMap RoutePeerInfo) (raw : gmap Z (list Z))
    : SyncedRouteInfo :=
  {| default_easytier_version := default_easytier_version s; peer_infos := pi;
     raw_peer_infos := raw; conn_map := conn_map s; foreign_network := foreign_network s;
     group_trust_map := group_trust_map s; group_trust_map_cache := group_trust_map_cache s;
     trusted_credentials := trusted_credentials s;
     non_reusable_credential_owners := non_reusable_credential_owners s;
     suppressed_non_reusable_credential_peers := suppressed_non_reusable_credential_peers s;
     s_version := s_version s |}.
Definition with_conns (s : SyncedRouteInfo) (cm : OMap RouteConnInfo) : SyncedRouteInfo :=
  {| default_easytier_version := default_easytier_version s; peer_infos := peer_infos s;
     raw_peer_infos := raw_peer_infos s; conn_map := cm; foreign_network := foreign_network s;
     group_trust_map := group_trust_map s; group_trust_map_cache := group_trust_map_cache s;
     trusted_credentials := trusted_credentials s;
     non_reusable_credential_owners := non_reusable_credential_owners s;
     suppressed_non_reusable_credential_peers := suppressed_non_reusable_credential_peers s;
     s_version := s_version s |}.
Definition with_foreign (s : SyncedRouteInfo) (f : gmap ForeignKey ForeignNetworkRouteInfoEntry)
    : SyncedRouteInfo :=
  {| default_easytier_version := default_easytier_version s; peer_infos := peer_infos s;
     raw_peer_infos := raw_peer_infos s; conn_map := conn_map s; foreign_network := f;
     group_trust_map := group_trust_map s; group_trust_map_cache := group_trust_map_cache s;
     trusted_credentials := trusted_credentials s;
     non_reusable_credential_owners := non_reusable_credential_owners s;
     suppressed_non_reusable_credential_peers := suppressed_non_reusable_credential_peers s;
     s_version := s_version s |}.
Definition with_groups (s : SyncedRouteInfo) (g : gmap Z (gmap (list Z) (list Z)))
    (c : gmap Z (gset (list Z))) : SyncedRouteInfo :=
  {| default_easytier_version := default_easytier_version s; peer_infos := peer_infos s;
     raw_peer_infos := raw_peer_infos s; conn_map := conn_map s;
     foreign_network := foreign_network s; group_trust_map := g; group_trust_map_cache := c;
     trusted_credentials := trusted_credentials s;
     non_reusable_credential_owners := non_reusable_credential_owners s;
     suppressed_non_reusable_credential_peers := suppressed_non_reusable_credential_peers s;
     s_version := s_version s |}.
Definition with_trust (s : SyncedRouteInfo) (tc : gmap (list Z) TrustedCredentialPubkey)
    (ow : gmap (list Z) Z) (sup : gset Z) : SyncedRouteInfo :=
  {| default_easytier_version := default_easytier_version s; peer_infos := peer_infos s;
     raw_peer_infos := raw_peer_infos s; conn_map := conn_map s;
     foreign_network := foreign_network s; group_trust_map := group_trust_map s;
     group_trust_map_cache := group_trust_map_cache s; trusted_credentials := tc;
     non_reusable_credential_owners := ow; suppressed_non_reusable_credential_peers := sup;
     s_version := s_version s |}.
(** [version.inc()]: an atomic 32-bit addition. *)
Definition inc_version (s : SyncedRouteInfo) : SyncedRouteInfo :=
  {| default_easytier_version := default_easytier_version s; peer_infos := peer_infos s;
     raw_peer_infos := raw_peer_infos s; conn_map := conn_map s;
     foreign_network := foreign_network s; group_trust_map := group_trust_map s;
     group_trust_map_cache := group_trust_map_cache s;
     trusted_credentials := trusted_credentials s;
     non_reusable_credential_owners := non_reusable_credential_owners s;
     suppressed_non_reusable_credential_peers := suppressed_non_reusable_credential_peers s;
     s_version := wrap 32 (s_version s + 1) |}.
Definition inc_if (b : bool) (s : SyncedRouteInfo) : SyncedRouteInfo :=
  if b then inc_version s else s.
End state.

(** ** Own information *)

(** What [PeerContext] tells of this node. *)
Record PeerContext := {
  cx_instance_id : Z; cx_ipv4 : option (Z * Z); cx_proxy_cidrs : list (list Z);
  cx_hostname : list Z; cx_udp_nat_type : Z; cx_tcp_nat_type : Z;
  cx_easytier_version : list Z; cx_feature_flags : PeerFeatureFlag; cx_ipv6 : option Ipv6Inet;
  cx_advertised_prefix : option Ipv6Inet; cx_peer_groups : list PeerGroupInfo;
  (** the public key of the secure mode, when there is one *)
  cx_public_key : option (list Z);
  cx_network_secret : option (list Z);
  cx_trusted_credential_pubkeys : list Z -> list TrustedCredentialPubkeyProof }.

Definition new_route_peer_info_with_version (ver : list Z) : RoutePeerInfo :=
  {| peer_id := 0; inst_id := Some 0; cost := 0; ipv4_addr := None; proxy_cidrs := [];
     hostname := None; udp_nat_type := 0; tcp_nat_type := 0; last_update := None; version := 0;
     easytier_version := ver; feature_flag := None; peer_route_id := 0; network_length := 24;
     quic_port := None; ipv6_addr := None; groups := []; noise_static_pubkey := [];
     trusted_credential_pubkeys := []; ipv6_public_addr_prefix := None;
     ipv6_public_addr_lease := None |}.

Definition new_updated_self_route_peer_info (my_peer_id route_id : Z) (cx : PeerContext)
    (public_ipv6_addr_lease : option Ipv6Inet) : RoutePeerInfo :=
  {| peer_id := my_peer_id; inst_id := Some (cx_instance_id cx); cost := 0;
     ipv4_addr := fst <$> cx_ipv4 cx; proxy_cidrs := cx_proxy_cidrs cx;
     hostname := Some (cx_hostname cx); udp_nat_type := cx_udp_nat_type cx;
     tcp_nat_type := cx_tcp_nat_type cx; last_update := None; version := 0;
     easytier_version := cx_easytier_version cx; feature_flag := Some (cx_feature_flags cx);
     peer_route_id := route_id;
     network_length := match cx_ipv4 cx with Some (_, n) => n | None => 24 end;
     quic_port := None; ipv6_addr := cx_ipv6 cx; groups := cx_peer_groups cx;
     noise_static_pubkey := default [] (cx_public_key cx);
     trusted_credential_pubkeys :=
       match cx_network_secret cx with
       | Some secret => cx_trusted_credential_pubkeys cx secret
       | None => []
       end;
     ipv6_public_addr_prefix := cx_advertised_prefix cx;
     ipv6_public_addr_lease := public_ipv6_addr_lease |}.

(** The returned information is [new] as the method leaves it. *)
Definition try_update_new_peer_info (old new : RoutePeerInfo) (now : Z) : RoutePeerInfo * bool :=
  let t := default 0 (last_update old) in
  let need_update_periodically :=
    if t <=? now then UPDATE_PEER_INFO_PERIOD <? now - t else true in
  let new := set_stamp new (version old) (last_update old) in
  if negb (bool_decide (new = old)) || need_update_periodically
  then (set_stamp new (wrap 32 (version new + 1)) (last_update new), true)
  else (new, false).

Definition mark_credential_peer (info : RoutePeerInfo) (b : bool) : RoutePeerInfo :=
  let f := default default_feature_flag (feature_flag info) in
  set_feature_flag info (Some
    {| is_public_server := is_public_server f; avoid_relay_data := avoid_relay_data f;
       kcp_input := kcp_input f; no_relay_kcp := no_relay_kcp f;
       support_conn_list_sync := support_conn_list_sync f; quic_input := quic_input f;
       no_relay_quic := no_relay_quic f; is_credential_peer_flag := b; need_p2p := need_p2p f;
       disable_p2p := disable_p2p f; ipv6_public_addr_provider := ipv6_public_addr_provider f |}).

Definition is_credential_peer_info (info : RoutePeerInfo) : bool :=
  match feature_flag info with Some f => is_credential_peer_flag f | None => false end.
Definition credential_is_reusable (c : TrustedCredentialPubkey) : bool :=
  default true (tc_reusable c).
Definition is_admin_peer (info : RoutePeerInfo) : bool :=
  if version info =? 0 then false else negb (is_credential_peer_info info).

(** ** Groups *)

Section groups.
Context {om : OrderedMap}.

Definition set_peer_groups_locked (s : SyncedRouteInfo) (pid : Z) (g : gmap (list Z) (list Z))
    : SyncedRouteInfo :=
  if bool_decide (g = ∅)
  then with_groups s (delete pid (group_trust_map s)) (delete pid (group_trust_map_cache s))
  else with_groups s (<[pid := g]> (group_trust_map s)) (<[pid := dom g]> (group_trust_map_cache s)).

Definition get_proof_groups_locked (s : SyncedRouteInfo) (pid : Z) : gmap (list Z) (list Z) :=
  match group_trust_map s !! pid with
  | Some g => filter (fun kv => kv.2 <> []) g
  | None => ∅
  end.

Definition update_my_group_trusts (s : SyncedRouteInfo) (my_peer_id : Z)
    (gs : list PeerGroupInfo) : SyncedRouteInfo :=
  set_peer_groups_locked s my_peer_id
    (foldl (fun m g => <[group_name g := group_proof g]> m) ∅ gs).

Context {tl : TrustLib}.

(** The closure [verify_groups]; [decls] are the local declarations, name and
    secret, a later one of the same name counting. *)
Definition verify_groups (decls : gmap (list Z) (list Z)) (trust_admin : bool)
    (info : RoutePeerInfo) : gmap (list Z) (list Z) :=
  let m := foldl (fun m g =>
    match decls !! group_name g with
    | Some secret =>
      if group_verify g secret (peer_id info) then <[group_name g := group_proof g]> m else m
    | None => m
    end) ∅ (groups info) in
  if trust_admin && is_admin_peer info
  then foldl (fun m g =>
         match m !! group_name g with Some _ => m | None => <[group_name g := []]> m end)
         m (groups info)
  else m.

Definition verify_and_update_group_trusts (s : SyncedRouteInfo) (infos : list RoutePeerInfo)
    (local_group_declarations : list (list Z * list Z)) (trust_admin : bool) : SyncedRouteInfo :=
  let decls := foldl (fun m d => <[d.1 := d.2]> m) ∅ local_group_declarations in
  foldl (fun s info =>
    let g := verify_groups decls trust_admin info in
    match group_trust_map s !! peer_id info with
    | Some _ =>
      if bool_decide (g = ∅)
      then with_groups s (delete (peer_id info) (group_trust_map s))
             (delete (peer_id info) (group_trust_map_cache s))
      else with_groups s (<[peer_id info := g]> (group_trust_map s))
             (<[peer_id info := dom g]> (group_trust_map_cache s))
    | None =>
      if bool_decide (g = ∅) then s
      else with_groups s (<[peer_id info := g]> (group_trust_map s))
             (<[peer_id info := dom g]> (group_trust_map_cache s))
    end) s infos.

(** The hash set of received ids is visited in some order: [order] lists it. *)
Definition verify_and_update_current_group_trusts (s : SyncedRouteInfo) (order : list Z)
    (decls : list (list Z * list Z)) (trust_admin : bool) : SyncedRouteInfo :=
  verify_and_update_group_trusts s (omap (om_get (peer_infos s)) order) decls trust_admin.
Definition verify_and_update_all_current_group_trusts (s : SyncedRouteInfo)
    (decls : list (list Z * list Z)) (trust_admin : bool) : SyncedRouteInfo :=
  verify_and_update_group_trusts s (om_iter (peer_infos s)).*2 decls trust_admin.
End groups.

(** ** Peers and connections *)

Section peers.
Context {om : OrderedMap}.

Definition remove_peers (s : SyncedRouteInfo) (ids : gset Z) : SyncedRouteInfo :=
  if bool_decide (ids = ∅) then s else
  let l := elements ids in
  inc_version
    (with_foreign
      (with_groups
        (with_conns
          (with_peers s (foldl (fun m p => om_remove p m) (peer_infos s) l)
             (filter (fun kv => kv.1 ∉ ids) (raw_peer_infos s)))
          (foldl (fun m p => om_remove p m) (conn_map s) l))
        (filter (fun kv => kv.1 ∉ ids) (group_trust_map s))
        (filter (fun kv => kv.1 ∉ ids) (group_trust_map_cache s)))
      (filter (fun kv => kv.1.1 ∉ ids) (foreign_network s))).
Definition remove_peer (s : SyncedRouteInfo) (pid : Z) : SyncedRouteInfo := remove_peers s {[pid]}.

Definition get_peer_info_version_with_default (s : SyncedRouteInfo) (pid : Z) : Z :=
  match om_get (peer_infos s) pid with Some i => version i | None => 0 end.
Definition get_avoid_relay_data (s : SyncedRouteInfo) (pid : Z) : bool :=
  match om_get (peer_infos s) pid with
  | Some i => match feature_flag i with Some f => avoid_relay_data f | None => false end
  | None => false
  end.
Definition get_connected_peers (s : SyncedRouteInfo) (pid : Z) : option (gset Z) :=
  connected_peers <$> om_get (conn_map s) pid.
Definition is_credential_peer (s : SyncedRouteInfo) (pid : Z) : bool :=
  match om_get (peer_infos s) pid with Some i => is_credential_peer_info i | None => false end.
Definition get_credential_info_by_pubkey (s : SyncedRouteInfo) (k : list Z)
    : option TrustedCredentialPubkey :=
  match k with [] => None | _ => trusted_credentials s !! k end.

(** One iteration of [fill_empty_peer_info]. *)
Definition fill_one (now : Z) (st : SyncedRouteInfo * bool) (pid : Z) : SyncedRouteInfo * bool :=
  let '(s, need) := st in
  let '(s, need) :=
    match om_get (peer_infos s) pid with
    | Some _ => (s, need)
    | None =>
      let info := new_route_peer_info_with_version (default_easytier_version s) in
      (with_peers s (om_insert pid (set_stamp info (version info) (Some now)) (peer_infos s))
         (raw_peer_infos s), true)
    end in
  match om_get (conn_map s) pid with
  | Some _ => (s, need)
  | None =>
    (with_conns s (om_insert pid {| connected_peers := ∅; conn_version := 0;
                                    conn_last_update := now |} (conn_map s)), true)
  end.
Definition fill_empty_peer_info (s : SyncedRouteInfo) (ids : gset Z) (now : Z) : SyncedRouteInfo :=
  let '(s, need) := foldl (fill_one now) (s, false) (elements ids) in inc_if need s.

Definition check_duplicate_peer_id (s : SyncedRouteInfo) (my_peer_id my_route_id dst_peer_id : Z)
    (dst_route_id : option Z) (info : RoutePeerInfo) : comp (result SyncRouteInfoError unit) :=
  if peer_id info =? my_peer_id then
    if negb (peer_route_id info =? my_route_id) &&
       (get_peer_info_version_with_default s (peer_id info) <? version info)
    then Panic else Ret (Ok tt)
  else if peer_id info =? dst_peer_id then
    match dst_route_id with
    | None => Ret (Ok tt)
    | Some r =>
      if negb (r =? peer_route_id info) &&
         (version info <? get_peer_info_version_with_default s (peer_id info))
      then Ret (Err DuplicatePeerId) else Ret (Ok tt)
    end
  else Ret (Ok tt).

(** The loop of [update_peer_infos]; an error returns before the version is
    incremented. *)
Fixpoint update_peer_infos_loop (my_peer_id my_route_id dst_peer_id now : Z)
    (l : list RoutePeerInfo) (raws : list (list Z)) (idx : nat) (s : SyncedRouteInfo) (need : bool)
    : comp (SyncedRouteInfo * result SyncRouteInfoError unit) :=
  match l with
  | [] => Ret (inc_if need s, Ok tt)
  | route_info :: l =>
    raw ← unwrap (raws !! idx);
    let dst_route_id :=
      if peer_id route_info =? dst_peer_id
      then peer_route_id <$> om_get (peer_infos s) dst_peer_id else None in
    chk ← check_duplicate_peer_id s my_peer_id my_route_id dst_peer_id dst_route_id route_info;
    match chk with
    | Err e => Ret (s, Err e)
    | Ok _ =>
      let route_info := set_stamp route_info (version route_info) (Some now) in
      let newer :=
        match om_get (peer_infos s) (peer_id route_info) with
        | None => true
        | Some old => version old <? version route_info
        end in
      if newer
      then update_peer_infos_loop my_peer_id my_route_id dst_peer_id now l raws (S idx)
             (with_peers s (om_insert (peer_id route_info) route_info (peer_infos s))
                (<[peer_id route_info := raw]> (raw_peer_infos s))) true
      else update_peer_infos_loop my_peer_id my_route_id dst_peer_id now l raws (S idx) s need
    end
  end.
Definition update_peer_infos (s : SyncedRouteInfo) (my_peer_id my_route_id dst_peer_id : Z)
    (infos : list RoutePeerInfo) (raws : list (list Z)) (now : Z)
    : comp (SyncedRouteInfo * result SyncRouteInfoError unit) :=
  update_peer_infos_loop my_peer_id my_route_id dst_peer_id now infos raws 0 s false.

Definition update_conn_info_one_peer (s : SyncedRouteInfo) (pv : PeerIdVersion) (cp : gset Z)
    (now : Z) : SyncedRouteInfo * bool :=
  let newer :=
    match om_get (conn_map s) (pv_peer_id pv) with
    | None => true
    | Some old => conn_version old <? pv_version pv
    end in
  if newer
  then (with_conns s (om_insert (pv_peer_id pv)
          {| connected_peers := cp; conn_version := pv_version pv; conn_last_update := now |}
          (conn_map s)), true)
  else (s, false).

Fixpoint bitmap_loop (b : RouteConnBitmap) (now : Z) (l : list PeerIdVersion) (idx : Z)
    (s : SyncedRouteInfo) (need : bool) : comp SyncedRouteInfo :=
  match l with
  | [] => Ret (inc_if need s)
  | pv :: l =>
    cp ← bitmap_connected_peers b idx;
    let s := fill_empty_peer_info s cp now in
    let '(s, ch) := update_conn_info_one_peer s pv cp now in
    bitmap_loop b now l (idx + 1) s (need || ch)
  end.
Definition update_conn_info_with_bitmap (s : SyncedRouteInfo) (b : RouteConnBitmap) (now : Z)
    : comp SyncedRouteInfo :=
  let s := fill_empty_peer_info s (list_to_set (map pv_peer_id (bm_peer_ids b))) now in
  bitmap_loop b now (bm_peer_ids b) 0 s false.

Definition list_step (now : Z) (st : SyncedRouteInfo * bool) (x : option PeerIdVersion * list Z)
    : SyncedRouteInfo * bool :=
  let '(s, need) := st in
  match x.1 with
  | None => (s, need)
  | Some pv =>
    let cp : gset Z := list_to_set x.2 in
    let s := fill_empty_peer_info s cp now in
    let '(s, ch) := update_conn_info_one_peer s pv cp now in
    (s, need || ch)
  end.
Definition update_conn_info_with_list (s : SyncedRouteInfo) (l : RouteConnPeerList) (now : Z)
    : SyncedRouteInfo :=
  let '(s, need) := foldl (list_step now) (s, false) l in inc_if need s.

Definition update_conn_info (s : SyncedRouteInfo) (c : ConnInfo) (now : Z) : comp SyncedRouteInfo :=
  match c with
  | ConnBitmap b => update_conn_info_with_bitmap s b now
  | ConnPeerList l => Ret (update_conn_info_with_list s l now)
  end.

Definition foreign_step (now : Z)
    (st : gmap ForeignKey ForeignNetworkRouteInfoEntry * bool)
    (x : option ForeignKey * option ForeignNetworkRouteInfoEntry)
    : gmap ForeignKey ForeignNetworkRouteInfoEntry * bool :=
  let '(m, changed) := st in
  match x with
  | (Some key, Some entry) =>
    let entry := set_foreign entry (foreign_peer_ids entry) (Some now) (fe_version entry) in
    match m !! key with
    | Some old => if fe_version old <? fe_version entry then (<[key := entry]> m, true) else (m, changed)
    | None => (<[key := entry]> m, true)
    end
  | _ => (m, changed)
  end.
Definition update_foreign_network (s : SyncedRouteInfo) (l : RouteForeignNetworkInfos) (now : Z)
    : SyncedRouteInfo * bool :=
  let '(m, changed) := foldl (foreign_step now) (foreign_network s, false) l in
  (with_foreign s m, changed).

Definition update_my_peer_info (s : SyncedRouteInfo) (my_peer_id my_route_id : Z)
    (cx : PeerContext) (lease : option Ipv6Inet) (now : Z) : SyncedRouteInfo * bool :=
  let new := new_updated_self_route_peer_info my_peer_id my_route_id cx lease in
  let old := om_get (peer_infos s) my_peer_id in
  let new_version := wrap 32 (match old with Some o => version o | None => 0 end + 1) in
  let '(new, need_insert_new) :=
    match old with
    | Some o => try_update_new_peer_info o new now
    | None => (new, true)
    end in
  if need_insert_new then
    let acl_groups :=
      match old with
      | Some o => if bool_decide (groups o = groups new) then None else Some (groups new)
      | None => Some (groups new)
      end in
    let s := with_peers s
      (om_insert my_peer_id (set_stamp new new_version (Some now)) (peer_infos s)) (raw_peer_infos s) in
    let s := match acl_groups with
             | Some g => update_my_group_trusts s my_peer_id g
             | None => s
             end in
    (inc_version s, true)
  else (s, false).

Definition update_my_conn_info (s : SyncedRouteInfo) (my_peer_id : Z) (cp : gset Z) (now : Z)
    : SyncedRouteInfo * bool :=
  let s := fill_empty_peer_info s cp now in
  let mine := om_get (conn_map s) my_peer_id in
  let new_version := wrap 32 (match mine with Some c => conn_version c | None => 0 end + 1) in
  let differs := match mine with
                 | None => true | Some old => negb (bool_decide (connected_peers old = cp)) end in
  if differs
  then (inc_version (with_conns s (om_insert my_peer_id
          {| connected_peers := cp; conn_version := new_version; conn_last_update := now |}
          (conn_map s))), true)
  else (s, false).

(** [None] when a time is missing. *)
Definition is_foreign_network_info_newer (next prev : ForeignNetworkRouteInfoEntry) : option bool :=
  n ← fe_last_update next; p ← fe_last_update prev; Some (p <? n).

(** The loop over the entries of this node: the stored networks, the given
    ones and the flag.  The assertions are the code's. *)
Fixpoint my_foreign_loop (now : Z) (l : list (ForeignKey * ForeignNetworkRouteInfoEntry))
    (m given : gmap ForeignKey ForeignNetworkRouteInfoEntry) (updated : bool)
    : comp (gmap ForeignKey ForeignNetworkRouteInfoEntry *
            gmap ForeignKey ForeignNetworkRouteInfoEntry * bool) :=
  let now_version := wrap 32 (now / 1000) in
  match l with
  | [] => Ret (m, given, updated)
  | (key, entry) :: l =>
    match given !! key with
    | Some new_entry =>
      if bool_decide (foreign_peer_ids new_entry = []) then Panic else
      let renew :=
        match is_foreign_network_info_newer new_entry entry with
        | None => false
        | Some is_newer =>
          is_newer || (UPDATE_PEER_INFO_PERIOD <? now - default 0 (fe_last_update entry))
        end in
      let given := delete key given in
      if renew
      then my_foreign_loop now l
             (<[key := set_foreign new_entry (foreign_peer_ids new_entry) (fe_last_update new_entry)
                         (Z.max (wrap 32 (fe_version new_entry + 1)) now_version)]> m) given true
      else my_foreign_loop now l m given updated
    | None =>
      if bool_decide (foreign_peer_ids entry = []) then my_foreign_loop now l m given updated
      else my_foreign_loop now l
             (<[key := set_foreign entry [] (Some now)
                         (Z.max (wrap 32 (fe_version entry + 1)) now_version)]> m) given true
    end
  end.

Fixpoint my_foreign_new (now_version : Z) (l : list (ForeignKey * ForeignNetworkRouteInfoEntry))
    (m : gmap ForeignKey ForeignNetworkRouteInfoEntry)
    : comp (gmap ForeignKey ForeignNetworkRouteInfoEntry) :=
  match l with
  | [] => Ret m
  | (key, v) :: l =>
    if bool_decide (foreign_peer_ids v = []) then Panic else
    my_foreign_new now_version l
      match m !! key with
      | Some old => if fe_version old <? fe_version v then <[key := v]> m else m
      | None => <[key := set_foreign v (foreign_peer_ids v) (fe_last_update v) now_version]> m
      end
  end.

Definition update_my_foreign_network (s : SyncedRouteInfo) (my_peer_id : Z)
    (given : gmap ForeignKey ForeignNetworkRouteInfoEntry) (now : Z)
    : comp (SyncedRouteInfo * bool) :=
  let mine := filter (fun kv => kv.1.1 = my_peer_id) (foreign_network s) in
  '(m, given, updated) ← my_foreign_loop now (map_to_list mine) (foreign_network s) given false;
  m ← my_foreign_new (wrap 32 (now / 1000)) (map_to_list given) m;
  let updated := updated || negb (bool_decide (given = ∅)) in
  Ret (inc_if updated (with_foreign s m), updated).
End peers.

(** ** Credentials *)

Section credentials.
Context {om : OrderedMap} {tl : TrustLib} {pw : ProstWire}.

Definition credential_proof_is_valid (raw : option (list Z)) (proof_idx : nat)
    (proof : TrustedCredentialPubkeyProof) (network_secret : option (list Z)) : bool :=
  match network_secret with
  | None => true
  | Some secret =>
    match raw with
    | None => verify_credential_hmac proof secret
    | Some r =>
      match raw_credential_bytes r proof_idx with
      | Ok (Some b) => verify_credential_hmac_with_bytes proof b secret
      | Ok None | Err _ => false
      end
    end
  end.

Abbreviation Trusted := (gmap (list Z) TrustedCredentialPubkey).
Abbreviation TrustedKeys := (gmap (list Z) TrustedKeyMetadata).

(** The inner loop, over the proofs of an admin. *)
Fixpoint collect_proofs (raw : option (list Z)) (secret : option (list Z)) (now : Z) (idx : nat)
    (l : list TrustedCredentialPubkeyProof) (all : Trusted) (keys : TrustedKeys)
    : Trusted * TrustedKeys :=
  match l with
  | [] => (all, keys)
  | proof :: l =>
    if negb (credential_proof_is_valid raw idx proof secret)
    then collect_proofs raw secret now (S idx) l all keys else
    match tp_credential proof with
    | None => collect_proofs raw secret now (S idx) l all keys
    | Some c =>
      if tc_expiry_unix c <=? now then collect_proofs raw secret now (S idx) l all keys else
      collect_proofs raw secret now (S idx) l
        (match all !! tc_pubkey c with Some _ => all | None => <[tc_pubkey c := c]> all end)
        (<[tc_pubkey c := {| tk_source := OspfCredential;
                             tk_expiry_unix := Some (tc_expiry_unix c) |}]> keys)
    end
  end.

Fixpoint collect_admins (raws : gmap Z (list Z)) (secret : option (list Z)) (now : Z)
    (l : list (Z * RoutePeerInfo)) (all : Trusted) (keys : TrustedKeys) : Trusted * TrustedKeys :=
  match l with
  | [] => (all, keys)
  | (pid, info) :: l =>
    if negb (is_admin_peer info) then collect_admins raws secret now l all keys else
    let keys :=
      match noise_static_pubkey info with
      | [] => keys
      | k => <[k := {| tk_source := OspfNode; tk_expiry_unix := None |}]> keys
      end in
    let '(all, keys) :=
      collect_proofs (raws !! pid) secret now 0 (trusted_credential_pubkeys info) all keys in
    collect_admins raws secret now l all keys
  end.
Definition collect_trusted_credentials (s : SyncedRouteInfo) (secret : option (list Z)) (now : Z)
    : Trusted * TrustedKeys :=
  collect_admins (raw_peer_infos s) secret now (om_iter (peer_infos s)) ∅ ∅.

(** The returned set is the keys trusted before. *)
Definition replace_trusted_credential_pubkeys (s : SyncedRouteInfo) (all : Trusted)
    : SyncedRouteInfo * gset (list Z) :=
  (with_trust s all (non_reusable_credential_owners s) (suppressed_non_reusable_credential_peers s),
   dom (trusted_credentials s)).

(** A peer that counts for the credential [k]. *)
Definition owner_candidate (all : Trusted) (is_peer_active : Z -> bool) (pid : Z)
    (info : RoutePeerInfo) : option (list Z) :=
  match noise_static_pubkey info with
  | [] => None
  | k =>
    match all !! k with
    | None => None
    | Some c =>
      if credential_is_reusable c then None else
      if is_peer_active pid then Some k else None
    end
  end.

Definition collect_candidates (all : Trusted) (is_peer_active : Z -> bool)
    (l : list (Z * RoutePeerInfo)) : gmap (list Z) (gset Z) :=
  foldl (fun m kv =>
    match owner_candidate all is_peer_active kv.1 kv.2 with
    | None => m
    | Some k => <[k := {[kv.1]} ∪ default ∅ (m !! k)]> m
    end) ∅ l.

(** The first element of a [BTreeSet]. *)
Definition first_peer (X : gset Z) : option Z :=
  match elements X with [] => None | x :: l => Some (foldr Z.min x l) end.

Definition collect_non_reusable_credential_owners (infos : OMap RoutePeerInfo) (all : Trusted)
    (is_peer_active : Z -> bool) : gmap (list Z) Z * gset Z :=
  let candidates := collect_candidates all is_peer_active (om_iter infos) in
  (omap first_peer candidates,
   ⋃ ((fun kv => match first_peer kv.2 with
                 | None => ∅ | Some o => kv.2 ∖ {[o]} end) <$> map_to_list candidates)).

Definition replace_non_reusable_credential_owners (s : SyncedRouteInfo) (owners : gmap (list Z) Z)
    : SyncedRouteInfo :=
  with_trust s (trusted_credentials s)
    (owners ∪ filter (fun kv => is_Some (owners !! kv.1)) (non_reusable_credential_owners s))
    (suppressed_non_reusable_credential_peers s).

Definition replace_suppressed_non_reusable_credential_peers (s : SyncedRouteInfo) (sup : gset Z)
    : SyncedRouteInfo * bool :=
  let current := suppressed_non_reusable_credential_peers s in
  if bool_decide (current = sup) then (s, false) else
  (inc_version (with_trust s (trusted_credentials s) (non_reusable_credential_owners s)
     (filter (fun p => p ∈ sup) current ∪ sup)), true).

Definition update_credential_groups (s : SyncedRouteInfo) (all : Trusted) : SyncedRouteInfo :=
  foldl (fun s kv =>
    let info : RoutePeerInfo := kv.2 in
    match noise_static_pubkey info with
    | [] => s
    | k =>
      match all !! k with
      | None => s
      | Some c =>
        set_peer_groups_locked s (peer_id info)
          (foldl (fun m g => match m !! g with Some _ => m | None => <[g := []]> m end)
             (get_proof_groups_locked s (peer_id info)) (tc_groups c))
      end
    end) s (om_iter (peer_infos s)).

Definition is_revoked (prev : gset (list Z)) (all : Trusted) (info : RoutePeerInfo) : bool :=
  negb (bool_decide (noise_static_pubkey info = [])) && negb (version info =? 0) &&
  bool_decide (noise_static_pubkey info ∈ prev) &&
  bool_decide (all !! noise_static_pubkey info = None).
Definition collect_revoked_credential_peers (infos : OMap RoutePeerInfo) (prev : gset (list Z))
    (all : Trusted) : gset Z :=
  list_to_set (omap (fun kv => if is_revoked prev all kv.2 then Some kv.1 else None)
    (om_iter infos)).

(** [verify_and_update_credential_trusts_with_active_peers_protecting]: the new
    state, the peers removed, the trusted keys and whether the suppressed peers
    changed. *)
Definition verify_and_update_credential_trusts_protecting (s : SyncedRouteInfo)
    (secret : option (list Z)) (is_peer_active : Z -> bool) (protected : option Z) (now : Z)
    : SyncedRouteInfo * gset Z * TrustedKeys * bool :=
  let '(all, keys) := collect_trusted_credentials s secret (now / 1000) in
  let '(s, prev) := replace_trusted_credential_pubkeys s all in
  let '(owners, dups) := collect_non_reusable_credential_owners (peer_infos s) all is_peer_active in
  let dups := match protected with Some p => dups ∖ {[p]} | None => dups end in
  let s := replace_non_reusable_credential_owners s owners in
  let '(s, sup_changed) := replace_suppressed_non_reusable_credential_peers s dups in
  let s := update_credential_groups s all in
  let revoked := collect_revoked_credential_peers (peer_infos s) prev all in
  let revoked := match protected with Some p => revoked ∖ {[p]} | None => revoked end in
  let s := if bool_decide (revoked = ∅) then s else remove_peers s revoked in
  (s, revoked, keys, sup_changed).

Definition verify_and_update_credential_trusts_with_active_peers (s : SyncedRouteInfo)
    (secret : option (list Z)) (is_peer_active : Z -> bool) (now : Z)
    : SyncedRouteInfo * gset Z * TrustedKeys :=
  fst (verify_and_update_credential_trusts_protecting s secret is_peer_active None now).
Definition verify_and_update_credential_trusts (s : SyncedRouteInfo) (secret : option (list Z))
    (now : Z) : SyncedRouteInfo * gset Z * TrustedKeys :=
  verify_and_update_credential_trusts_with_active_peers s secret (fun _ => true) now.
End credentials.

(** ** Concrete libraries *)

Module Concrete.
#[export] Instance omap : OrderedMap :=
  {| OMap V := gmap Z V; om_empty V := ∅; om_get V m k := m !! k; om_insert V k v m := <[k := v]> m;
     om_remove V k m := delete k m; om_iter V m := map_to_list m |}.

#[export] Instance omap_laws : OrderedMapLaws omap.
Proof.
  constructor; cbn; intros.
  - apply lookup_empty.
  - destruct (Z.eqb_spec k k') as [->|]; [apply lookup_insert_eq|by apply lookup_insert_ne].
  - destruct (Z.eqb_spec k k') as [->|]; [apply lookup_delete_eq|by apply lookup_delete_ne].
  - apply NoDup_fst_map_to_list.
  - apply elem_of_map_to_list.
Qed.

(** A MAC that adds up its input, and an encoding that is the key. *)
#[export] Instance trust : TrustLib :=
  {| hmac_sha256 k m := [foldr Z.add 0 k; foldr Z.add 0 m]; credential_encode c := tc_pubkey c |}.

Definition nothing : @SyncedRouteInfo omap :=
  {| default_easytier_version := []; peer_infos := ∅; raw_peer_infos := ∅; conn_map := ∅;
     foreign_network := ∅; group_trust_map := ∅; group_trust_map_cache := ∅;
     trusted_credentials := ∅; non_reusable_credential_owners := ∅;
     suppressed_non_reusable_credential_peers := ∅; s_version := 0 |}.

(** The information of a peer: its id, version and key, and the credentials it
    vouches for. *)
Definition info (pid v : Z) (key : list Z) (proofs : list TrustedCredentialPubkeyProof) : RoutePeerInfo :=
  {| peer_id := pid; inst_id := None; cost := 1; ipv4_addr := None; proxy_cidrs := [];
     hostname := None; udp_nat_type := 0; tcp_nat_type := 0; last_update := None; version := v;
     easytier_version := []; feature_flag := None; peer_route_id := 9; network_length := 24;
     quic_port := None; ipv6_addr := None; groups := []; noise_static_pubkey := key;
     trusted_credential_pubkeys := proofs; ipv6_public_addr_prefix := None;
     ipv6_public_addr_lease := None |}.

(** A credential for the key [7], not reusable, until time 100. *)
Definition credential : TrustedCredentialPubkey :=
  {| tc_pubkey := [7]; tc_groups := [[103]]; tc_allow_relay := true; tc_expiry_unix := 100;
     tc_allowed_proxy_cidrs := []; tc_reusable := Some false |}.
Definition proof (secret : list Z) : TrustedCredentialPubkeyProof :=
  {| tp_credential := Some credential;
     tp_credential_hmac := hmac_sha256 secret (credential_proof_label ++ credential_encode credential) |}.

(** Admin 1 vouches for the credential that the peers 2 and 3 both use. *)
Definition network : @SyncedRouteInfo omap :=
  with_peers nothing
    (<[1 := info 1 1 [5] [proof [3]]]> (<[2 := info 2 1 [7] []]> {[3 := info 3 1 [7] []]})) ∅.
End Concrete.
