(* ===== verification/SyncedRouteProofs.v ===== *)
(** Theorems about [SyncedRouteInfo]: nodes that receive the same information
    agree whatever the order, every change of what the route table reads moves
    the version, and group caches stay in step. *)

From stdpp Require Import list gmap.
From S2P Require Import Prelude RouteMessages RouteWire SyncedRoute.
Local Open Scope Z_scope.
Local Set Warnings "-clear-no-such-hyp".

(** ** Lemmas: the ordered map *)

Section omap_lemmas.
Context {om : OrderedMap} {Hom : OrderedMapLaws om}.

Lemma om_get_insert_eq {V} k (v : V) m : om_get (om_insert k v m) k = Some v.
Proof using Hom. by rewrite om_get_insert, Z.eqb_refl. Qed.
Lemma om_get_insert_ne {V} k (v : V) m k' :
  k <> k' -> om_get (om_insert k v m) k' = om_get m k'.
Proof using Hom. intros. by rewrite om_get_insert, (proj2 (Z.eqb_neq _ _)). Qed.

Lemma om_get_remove_list {V} l (m : OMap V) k :
  om_get (foldl (fun m p => om_remove p m) m l) k = if decide (k ∈ l) then None else om_get m k.
Proof using Hom.
  revert m. induction l as [|p l IH]; intros m; cbn [foldl].
  - by rewrite decide_False by apply not_elem_of_nil.
  - rewrite IH, om_get_remove. destruct (Z.eqb_spec p k) as [->|Hne].
    + rewrite (decide_True (P:=k ∈ k :: l)) by left. by destruct (decide _).
    + destruct (decide (k ∈ l)); [by rewrite decide_True by (by right)|].
      by rewrite decide_False by (intros [?|?]%elem_of_cons; done).
Qed.
End omap_lemmas.

(** ** The newest information wins *)

(** Information without the local arrival time. *)
Definition strip (i : RoutePeerInfo) : RoutePeerInfo := set_stamp i (version i) None.

(** What one received item does to the entry of [pid]. *)
Definition newest (now pid : Z) (o : option RoutePeerInfo) (i : RoutePeerInfo)
    : option RoutePeerInfo :=
  if peer_id i =? pid then
    match o with
    | None => Some (set_stamp i (version i) (Some now))
    | Some old => if version old <? version i then Some (set_stamp i (version i) (Some now)) else o
    end
  else o.

Section updates.
Context {om : OrderedMap} {Hom : OrderedMapLaws om}.

Lemma update_peer_infos_newest me route dst now raws pid l : forall idx s need s',
  update_peer_infos_loop me route dst now l raws idx s need = Ret (s', Ok tt) ->
  om_get (peer_infos s') pid = foldl (newest now pid) (om_get (peer_infos s) pid) l.
Proof using Hom.
  induction l as [|i l IH]; intros idx s need s'; cbn [update_peer_infos_loop foldl].
  - intros [= <-]. by destruct need.
  - destruct (raws !! idx) as [raw|]; [|done]. cbn [unwrap mbind comp_bind].
    destruct (check_duplicate_peer_id _ _ _ _ _ i) as [[[]|e]|]; [|done..].
    cbn [mbind comp_bind]. cbn [peer_id set_stamp].
    destruct (match om_get (peer_infos s) (peer_id i) with None => true | Some old => _ end) eqn:En;
      intros H; rewrite (IH _ _ _ _ H); f_equal; unfold newest; cbn [with_peers peer_infos].
    + rewrite om_get_insert. destruct (Z.eqb_spec (peer_id i) pid) as [Hp|]; [|done].
      rewrite Hp in En. destruct (om_get (peer_infos s) pid); [|done]. cbn in En |- *. by rewrite En.
    + destruct (Z.eqb_spec (peer_id i) pid) as [Hp|]; [|done].
      rewrite Hp in En. destruct (om_get (peer_infos s) pid); [|done]. cbn in En |- *. by rewrite En.
Qed.

(** [fill_empty_peer_info] and the connection updates add placeholders only. *)
Definition placeholder (i : RoutePeerInfo) : Prop := version i = 0.

Definition keeps_or_fills (s s' : SyncedRouteInfo) : Prop :=
  forall pid, om_get (peer_infos s') pid = om_get (peer_infos s) pid \/
    (om_get (peer_infos s) pid = None /\
     exists i, om_get (peer_infos s') pid = Some i /\ placeholder i).

Lemma keeps_refl s : keeps_or_fills s s.
Proof using. intros pid. by left. Qed.
Lemma keeps_trans s1 s2 s3 : keeps_or_fills s1 s2 -> keeps_or_fills s2 s3 -> keeps_or_fills s1 s3.
Proof using.
  intros H1 H2 pid. destruct (H1 pid) as [E1|(N1 & i & E1 & P1)], (H2 pid) as [E2|(N2 & j & E2 & P2)].
  - left. congruence.
  - right. split; [congruence|by exists j].
  - right. split; [done|]. exists i. split; [congruence|done].
  - congruence.
Qed.

Lemma fill_one_keeps now s need pid s' need' :
  fill_one now (s, need) pid = (s', need') -> keeps_or_fills s s'.
Proof using Hom.
  unfold fill_one. destruct (om_get (peer_infos s) pid) as [i|] eqn:E; cbn.
  - destruct (om_get (conn_map s) pid); intros [= <- <-] p; by left.
  - intros H.
    assert (peer_infos s' = om_insert pid (set_stamp (new_route_peer_info_with_version
      (default_easytier_version s)) 0 (Some now)) (peer_infos s)) as Ep
      by (by destruct (om_get (conn_map s) pid); injection H as <- <-).
    intros p. rewrite Ep. destruct (decide (pid = p)) as [->|].
    + right. rewrite om_get_insert_eq. split; [done|]. by eexists.
    + left. by apply om_get_insert_ne.
Qed.

Lemma fill_keeps now l : forall s need s' need',
  foldl (fill_one now) (s, need) l = (s', need') -> keeps_or_fills s s'.
Proof using Hom.
  induction l as [|p l IH]; intros s need s' need'; cbn [foldl].
  - intros [= <- <-]. apply keeps_refl.
  - destruct (fill_one now (s, need) p) as [s1 need1] eqn:E. intros H.
    eapply keeps_trans; [by eapply fill_one_keeps|by eapply IH].
Qed.

Lemma fill_empty_keeps s ids now : keeps_or_fills s (fill_empty_peer_info s ids now).
Proof using Hom.
  unfold fill_empty_peer_info. destruct (foldl _ _ _) as [s' need] eqn:E.
  apply fill_keeps in E. by destruct need.
Qed.

Lemma conn_one_keeps s pv cp now : keeps_or_fills s (update_conn_info_one_peer s pv cp now).1.
Proof using. unfold update_conn_info_one_peer. intros p. left. by destruct (match om_get _ _ with None => _ | _ => _ end). Qed.

Lemma list_keeps now l : forall s need, keeps_or_fills s (foldl (list_step now) (s, need) l).1.
Proof using Hom.
  induction l as [|x l IH]; intros s need; cbn [foldl]; [apply keeps_refl|].
  unfold list_step at 2. destruct x.1 as [pv|]; [|apply IH].
  destruct (update_conn_info_one_peer _ _ _ _) as [s1 ch] eqn:E.
  eapply keeps_trans; [apply (fill_empty_keeps s (list_to_set x.2) now)|].
  eapply keeps_trans; [|apply IH]. pose proof (conn_one_keeps (fill_empty_peer_info s (list_to_set x.2) now)
    pv (list_to_set x.2) now) as Hk. by rewrite E in Hk.
Qed.

Lemma bitmap_keeps b now l : forall idx s need s',
  bitmap_loop b now l idx s need = Ret s' -> keeps_or_fills s s'.
Proof using Hom.
  induction l as [|pv l IH]; intros idx s need s'; cbn [bitmap_loop].
  - intros [= <-] p. left. by destruct need.
  - destruct (bitmap_connected_peers b idx) as [cp|]; [|done]. cbn [mbind comp_bind].
    destruct (update_conn_info_one_peer _ _ _ _) as [s1 ch] eqn:E. intros H.
    eapply keeps_trans; [apply (fill_empty_keeps s cp now)|].
    eapply keeps_trans; [|by eapply IH].
    pose proof (conn_one_keeps (fill_empty_peer_info s cp now) pv cp now) as Hk. by rewrite E in Hk.
Qed.

Lemma conn_info_keeps s c now s' : update_conn_info s c now = Ret s' -> keeps_or_fills s s'.
Proof using Hom.
  destruct c as [b|l]; cbn [update_conn_info].
  - unfold update_conn_info_with_bitmap. intros H.
    eapply keeps_trans; [apply fill_empty_keeps|by eapply bitmap_keeps].
  - unfold update_conn_info_with_list. intros [= <-].
    pose proof (list_keeps now l s false) as Hk. destruct (foldl _ _ l) as [s1 need].
    by destruct need.
Qed.

(** *** A replica *)

(** A node receives batches of peer information and connection updates; the
    list is all the peer information received, in order. *)
Inductive receives (me route : Z) : SyncedRouteInfo -> list RoutePeerInfo -> SyncedRouteInfo -> Prop :=
  | rcv_nothing s : receives me route s [] s
  | rcv_infos s s1 s2 dst infos raws now rest :
    update_peer_infos s me route dst infos raws now = Ret (s1, Ok tt) ->
    receives me route s1 rest s2 -> receives me route s (infos ++ rest) s2
  | rcv_conns s s1 s2 c now rest :
    update_conn_info s c now = Ret s1 ->
    receives me route s1 rest s2 -> receives me route s rest s2.

(** The entry [o] of [pid] is the newest of [l], or there is none yet. *)
Definition is_newest (pid : Z) (l : list RoutePeerInfo) (o : option RoutePeerInfo) : Prop :=
  (forall i, i ∈ l -> peer_id i = pid -> exists r, o = Some r /\ version i <= version r) /\
  match o with
  | Some r => placeholder r \/ exists i, i ∈ l /\ peer_id i = pid /\ strip r = strip i
  | None => True
  end.

Lemma newest_step now pid l o i :
  1 <= version i -> is_newest pid l o -> is_newest pid (l ++ [i]) (newest now pid o i).
Proof using.
  intros Hv [Hmax Hin]. unfold newest.
  destruct (Z.eqb_spec (peer_id i) pid) as [Hp|Hp].
  - set (st := set_stamp i (version i) (Some now)).
    assert (exists j, j ∈ l ++ [i] /\ peer_id j = pid /\ strip st = strip j) as Hst
      by (exists i; split; [apply elem_of_app; right; by left|done]).
    destruct o as [old|]; [destruct (version old <? version i) eqn:E; bools|].
    + split; [|by right]. intros j [Hj| ->%list_elem_of_singleton]%elem_of_app Hpj.
      * destruct (Hmax j Hj Hpj) as (r & [= <-] & ?). exists st. split; [done|]. cbn. lia.
      * exists st. split; [done|]. cbn. lia.
    + split.
      * intros j [Hj| ->%list_elem_of_singleton]%elem_of_app Hpj; [by apply Hmax|]. by exists old.
      * destruct Hin as [?|(j & Hj & ? & ?)]; [by left|]. right. exists j.
        split; [apply elem_of_app; by left|done].
    + split; [|by right]. intros j [Hj| ->%list_elem_of_singleton]%elem_of_app Hpj.
      * by destruct (Hmax j Hj Hpj) as (r & ? & _).
      * exists st. split; [done|]. cbn. lia.
  - split.
    + intros j [Hj| ->%list_elem_of_singleton]%elem_of_app Hpj; [by apply Hmax|done].
    + destruct o as [r|]; [|done]. destruct Hin as [?|(j & Hj & ? & ?)]; [by left|]. right.
      exists j. split; [apply elem_of_app; by left|done].
Qed.

Lemma newest_fold now pid infos : forall l o,
  Forall (fun i => 1 <= version i) infos -> is_newest pid l o ->
  is_newest pid (l ++ infos) (foldl (newest now pid) o infos).
Proof using.
  induction infos as [|i infos IH]; intros l o Hv Hn; [by rewrite app_nil_r|].
  apply Forall_cons in Hv as [Hi Hv]. cbn [foldl].
  replace (l ++ i :: infos) with ((l ++ [i]) ++ infos) by (by rewrite <- app_assoc).
  apply IH; [done|]. by apply newest_step.
Qed.

Lemma is_newest_keeps pid l s s' :
  keeps_or_fills s s' -> is_newest pid l (om_get (peer_infos s) pid) ->
  is_newest pid l (om_get (peer_infos s') pid).
Proof using.
  intros Hk [Hmax Hin]. destruct (Hk pid) as [->|(Hn & i & -> & Hpl)]; [by split|].
  split; [|by left]. intros j Hj Hpj. destruct (Hmax j Hj Hpj) as (r & Hr & _). congruence.
Qed.

Lemma receives_newest me route s all s' :
  receives me route s all s' -> forall pid l,
  Forall (fun i => 1 <= version i) all -> is_newest pid l (om_get (peer_infos s) pid) ->
  is_newest pid (l ++ all) (om_get (peer_infos s') pid).
Proof using Hom.
  induction 1 as [s|s s1 s2 dst infos raws now rest Hu Hr IH|s s1 s2 c now rest Hu Hr IH];
    intros pid l Hv Hn.
  - by rewrite app_nil_r.
  - apply Forall_app in Hv as [Hv1 Hv2]. rewrite app_assoc. apply IH; [done|].
    rewrite (update_peer_infos_newest _ _ _ _ _ _ _ _ _ _ _ Hu). by apply newest_fold.
  - apply IH; [done|]. eapply is_newest_keeps; [by eapply conn_info_keeps|done].
Qed.
End updates.

(** ** Theorems: convergence *)

(** What a replica that knew nothing of [pid] holds of it: the newest it
    received. *)
Lemma receives_latest `{om : OrderedMap, !OrderedMapLaws om} me route s all s' pid i :
  receives me route s all s' -> om_get (peer_infos s) pid = None ->
  Forall (fun i => 1 <= version i) all -> i ∈ all -> peer_id i = pid ->
  exists r j, om_get (peer_infos s') pid = Some r /\ j ∈ all /\ peer_id j = pid /\
    strip r = strip j /\ forall k, k ∈ all -> peer_id k = pid -> version k <= version r.
Proof.
  intros Hr Hn Hv Hi Hp.
  destruct (receives_newest me route s all s' Hr pid [] Hv) as [Hmax Hin];
    [rewrite Hn; split; [by intros ? ?%not_elem_of_nil|done]|]. rewrite app_nil_l in *.
  destruct (Hmax i Hi Hp) as (r & Er & Hle). rewrite Er in *.
  destruct Hin as [Hpl|(j & Hj & Hpj & Hs)].
  - unfold placeholder in Hpl. rewrite Forall_forall in Hv. specialize (Hv i Hi). lia.
  - exists r, j. split_and!; try done. intros k Hk Hpk.
    destruct (Hmax k Hk Hpk) as (r' & [= <-] & ?). done.
Qed.

(** C8. Replicas converge: two nodes that have received the same peer
    information - in messages accepted without error, in any order, in any
    batches, from any neighbours, mixed with any connection updates, one of them
    perhaps more often - hold the same
    information about every peer they had heard of from elsewhere, up to the
    local time of arrival, provided a peer does not issue two different
    contents under one version.  What they hold is the newest version received. *)
Theorem replicas_converge `{om : OrderedMap, !OrderedMapLaws om}
    (me1 me2 route1 route2 pid : Z) (s1 s2 s1' s2' : SyncedRouteInfo)
    (all1 all2 : list RoutePeerInfo) :
  receives me1 route1 s1 all1 s1' -> receives me2 route2 s2 all2 s2' ->
  om_get (peer_infos s1) pid = None -> om_get (peer_infos s2) pid = None ->
  (forall i, i ∈ map strip all1 <-> i ∈ map strip all2) ->
  Forall (fun i => 1 <= version i) all1 ->
  (forall i j, i ∈ all1 -> j ∈ all1 -> peer_id i = pid -> peer_id j = pid ->
     version i = version j -> strip i = strip j) ->
  (exists i, i ∈ all1 /\ peer_id i = pid) ->
  exists r1 r2, om_get (peer_infos s1') pid = Some r1 /\ om_get (peer_infos s2') pid = Some r2 /\
    strip r1 = strip r2 /\
    (forall i, i ∈ all1 -> peer_id i = pid -> version i <= version r1).
Proof.
  intros Hr1 Hr2 Hn1 Hn2 Hsame Hv1 Hcons (i & Hi & Hp).
  assert (forall a b, (forall x, x ∈ map strip a <-> x ∈ map strip b) -> forall x, x ∈ a ->
    exists y, y ∈ b /\ strip x = strip y) as Hmap.
  { intros a b Hab x Hx. assert (strip x ∈ map strip b) as Hy
      by (apply Hab; apply list_elem_of_fmap; by exists x).
    apply list_elem_of_fmap in Hy as (y & ? & ?). by exists y. }
  assert (forall x y, strip x = strip y -> peer_id x = peer_id y /\ version x = version y) as Hst
    by (intros [] []; unfold strip, set_stamp; cbn; intros [=]; by subst).
  assert (Forall (fun i => 1 <= version i) all2) as Hv2.
  { apply Forall_forall. intros x Hx.
    destruct (Hmap all2 all1 (fun y => iff_sym (Hsame y)) x Hx) as (y & Hy & Hs).
    rewrite Forall_forall in Hv1. specialize (Hv1 y Hy). apply Hst in Hs as [_ ->]. done. }
  destruct (Hmap all1 all2 Hsame i Hi) as (i2 & Hi2 & Hs2). apply Hst in Hs2 as [Hp2 _].
  destruct (receives_latest _ _ _ _ _ pid i Hr1 Hn1 Hv1 Hi Hp) as (r1 & j1 & E1 & Hj1 & Hpj1 & Hs1 & Hm1).
  destruct (receives_latest _ _ _ _ _ pid i2 Hr2 Hn2 Hv2 Hi2) as (r2 & j2 & E2 & Hj2 & Hpj2 & Hs2 & Hm2);
    [congruence|].
  exists r1, r2. split_and!; try done.
  destruct (Hmap all1 all2 Hsame j1 Hj1) as (k1 & Hk1 & Hks1).
  destruct (Hmap all2 all1 (fun y => iff_sym (Hsame y)) j2 Hj2) as (k2 & Hk2 & Hks2).
  destruct (Hst _ _ Hs1) as [_ V1]. destruct (Hst _ _ Hs2) as [_ V2].
  destruct (Hst _ _ Hks1) as [P1 W1]. destruct (Hst _ _ Hks2) as [P2 W2].
  pose proof (Hm2 k1 Hk1 ltac:(congruence)). pose proof (Hm1 k2 Hk2 ltac:(congruence)).
  rewrite Hs1, Hs2, Hks2. apply Hcons; try congruence. lia.
Qed.

(** Two nodes hear of peer 5 in opposite order, one of them with a connection
    update in between. *)
Lemma replicas_converge_witness :
  exists s1 s2 r1 r2,
    @receives Concrete.omap 1 0 Concrete.nothing [Concrete.info 5 1 [] []; Concrete.info 5 2 [8] []] s1 /\
    @receives Concrete.omap 2 0 Concrete.nothing [Concrete.info 5 2 [8] []; Concrete.info 5 1 [] []] s2 /\
    @om_get Concrete.omap _ (peer_infos s1) 5 = Some r1 /\
    @om_get Concrete.omap _ (peer_infos s2) 5 = Some r2 /\ strip r1 = strip r2.
Proof.
  set (a := Concrete.info 5 1 [] []). set (b := Concrete.info 5 2 [8] []).
  assert (exists s1, @receives Concrete.omap 1 0 Concrete.nothing [a; b] s1) as [s1 H1].
  { eexists. eapply (@rcv_infos Concrete.omap 1 0 _ _ _ 3 [a] [[0]] 10 [b]); [vm_compute; reflexivity|].
    eapply (@rcv_conns Concrete.omap 1 0 _ _ _ (ConnPeerList [(Some {| pv_peer_id := 5; pv_version := 1 |}, [6])]) 11);
      [vm_compute; reflexivity|].
    eapply (@rcv_infos Concrete.omap 1 0 _ _ _ 3 [b] [[0]] 12 []); [vm_compute; reflexivity|apply rcv_nothing]. }
  assert (exists s2, @receives Concrete.omap 2 0 Concrete.nothing [b; a] s2) as [s2 H2].
  { eexists. eapply (@rcv_infos Concrete.omap 2 0 _ _ _ 4 [b; a] [[0]; [1]] 20 []);
      [vm_compute; reflexivity|apply rcv_nothing]. }
  destruct (@replicas_converge Concrete.omap Concrete.omap_laws 1 2 0 0 5 Concrete.nothing
    Concrete.nothing s1 s2 [a; b] [b; a] H1 H2) as (r1 & r2 & E1 & E2 & Hs & _).
  - vm_compute. reflexivity.
  - vm_compute. reflexivity.
  - intros i. cbn [map]. rewrite !elem_of_cons. tauto.
  - by repeat constructor.
  - intros i j. rewrite !elem_of_cons, !elem_of_nil.
    intros [->|[->|[]]] [->|[->|[]]] _ _ Hv; done.
  - exists a. split; [by left|done].
  - exists s1, s2, r1, r2. by split_and!.
Defined.

(** ** The version counts every change of what the route table reads *)

Section version_moves.
Context {om : OrderedMap} {Hom : OrderedMapLaws om} {tl : TrustLib} {pw : ProstWire}.

Definition same_view (s s' : SyncedRouteInfo) : Prop :=
  (forall pid, om_get (peer_infos s') pid = om_get (peer_infos s) pid) /\
  (forall pid, om_get (conn_map s') pid = om_get (conn_map s) pid) /\
  suppressed_non_reusable_credential_peers s' = suppressed_non_reusable_credential_peers s.

(** From [s] to [s'] the version was incremented [n] times, and at least once
    if the view changed; [pending] says an increment is still due. *)
Definition moves (pending : bool) (s s' : SyncedRouteInfo) : Prop :=
  exists n, 0 <= n /\ s_version s' = wrap 32 (s_version s + n) /\
    (n = 0 -> pending = false -> same_view s s').

Definition version_ok (s : SyncedRouteInfo) : Prop := u32 (s_version s).

Lemma same_view_trans s1 s2 s3 : same_view s1 s2 -> same_view s2 s3 -> same_view s1 s3.
Proof using. intros (A1 & B1 & C1) (A2 & B2 & C2). split_and!; intros; congruence. Qed.

Lemma moves_view s s' :
  version_ok s -> s_version s' = s_version s -> same_view s s' -> moves false s s'.
Proof using.
  intros Hv He Hs. exists 0. rewrite Z.add_0_r, wrap_small by done. by split_and!; [lia|..].
Qed.
Lemma moves_pending s s' : version_ok s -> s_version s' = s_version s -> moves true s s'.
Proof using. intros Hv He. exists 0. rewrite Z.add_0_r, wrap_small by done. by split_and!; [lia|..]. Qed.
Lemma moves_refl s : version_ok s -> moves false s s.
Proof using. intros. by apply moves_view. Qed.

Lemma wrap_add a n k : wrap 32 (wrap 32 (a + n) + k) = wrap 32 (a + (n + k)).
Proof. unfold wrap. rewrite Z.add_mod_idemp_l by lia. f_equal. lia. Qed.

Lemma moves_trans b1 b2 s1 s2 s3 : moves b1 s1 s2 -> moves b2 s2 s3 -> moves (b1 || b2) s1 s3.
Proof using.
  intros (n1 & H1 & E1 & V1) (n2 & H2 & E2 & V2). exists (n1 + n2). split; [lia|].
  rewrite E2, E1, wrap_add. split; [done|]. intros Hn [-> ->]%orb_false_elim.
  eapply same_view_trans; [apply V1|apply V2]; lia || done.
Qed.

Lemma moves_inc b s s' : moves b s s' -> moves false s (inc_version s').
Proof using.
  intros (n & H & E & _). exists (n + 1). cbn. rewrite E, wrap_add.
  split_and!; [lia|done|lia].
Qed.
Lemma moves_inc_if b s s' : moves b s s' -> moves false s (inc_if b s').
Proof using. intros H. destruct b; [by eapply moves_inc|done]. Qed.

Lemma moves_ok b s s' : moves b s s' -> version_ok s'.
Proof using. intros (n & _ & E & _). unfold version_ok. rewrite E. by apply wrap_range. Qed.

(** *** Each operation *)

Lemma fill_one_moves now s need pid :
  version_ok s -> let '(s', need') := fill_one now (s, need) pid in
  exists b, need' = need || b /\ moves b s s'.
Proof using.
  intros Hv. unfold fill_one. destruct (om_get (peer_infos s) pid).
  - destruct (om_get (conn_map s) pid).
    + exists false. rewrite orb_false_r. split; [done|by apply moves_refl].
    + exists true. rewrite orb_true_r. split; [done|by apply moves_pending].
  - cbn. destruct (om_get (conn_map s) pid); exists true; rewrite orb_true_r;
      (split; [done|by apply moves_pending]).
Qed.

Lemma fill_moves now l : forall s need, version_ok s ->
  let '(s', need') := foldl (fill_one now) (s, need) l in
  exists b, need' = need || b /\ moves b s s'.
Proof using.
  induction l as [|p l IH]; intros s need Hv; cbn [foldl].
  - exists false. rewrite orb_false_r. split; [done|by apply moves_refl].
  - pose proof (fill_one_moves now s need p Hv) as H1.
    destruct (fill_one now (s, need) p) as [s1 need1]. destruct H1 as (b1 & -> & H1).
    specialize (IH s1 (need || b1) (moves_ok _ _ _ H1)).
    destruct (foldl _ _ l) as [s2 need2]. destruct IH as (b2 & -> & H2).
    exists (b1 || b2). split; [by rewrite orb_assoc|by eapply moves_trans].
Qed.

Lemma fill_empty_moves s ids now : version_ok s -> moves false s (fill_empty_peer_info s ids now).
Proof using.
  intros Hv. unfold fill_empty_peer_info. pose proof (fill_moves now (elements ids) s false Hv) as H.
  destruct (foldl _ _ _) as [s' need]. destruct H as (b & -> & H). by apply moves_inc_if.
Qed.

Lemma conn_one_moves s pv cp now :
  version_ok s -> let '(s', ch) := update_conn_info_one_peer s pv cp now in moves ch s s'.
Proof using.
  intros Hv. unfold update_conn_info_one_peer.
  destruct (match om_get _ _ with None => _ | _ => _ end); [by apply moves_pending|by apply moves_refl].
Qed.

(** Placeholders for the peers mentioned, then the entry. *)
Lemma fill_conn_moves s pv cp now :
  version_ok s ->
  let '(s', ch) := update_conn_info_one_peer (fill_empty_peer_info s cp now) pv cp now in
  moves ch s s'.
Proof using.
  intros Hv. pose proof (fill_empty_moves s cp now Hv) as H1.
  pose proof (conn_one_moves (fill_empty_peer_info s cp now) pv cp now (moves_ok _ _ _ H1)) as H2.
  destruct (update_conn_info_one_peer _ _ _ _) as [s' ch]. exact (moves_trans _ _ _ _ _ H1 H2).
Qed.

Lemma conn_info_moves s c now s' :
  version_ok s -> update_conn_info s c now = Ret s' -> moves false s s'.
Proof using.
  intros Hv. destruct c as [bm|l]; cbn [update_conn_info].
  - unfold update_conn_info_with_bitmap.
    set (s0 := fill_empty_peer_info s _ now).
    assert (moves false s s0) as H0 by (by apply fill_empty_moves).
    assert (forall l idx s1 need, moves need s s1 -> forall s2,
      bitmap_loop bm now l idx s1 need = Ret s2 -> moves false s s2) as Hloop.
    { induction l as [|pv l IH]; intros idx s1 need H1 s2; cbn [bitmap_loop].
      - intros [= <-]. by apply moves_inc_if.
      - destruct (bitmap_connected_peers bm idx) as [cp|]; [|done]. cbn [mbind comp_bind].
        pose proof (fill_conn_moves s1 pv cp now (moves_ok _ _ _ H1)) as H2.
        destruct (update_conn_info_one_peer _ _ _ _) as [s3 ch].
        apply IH. exact (moves_trans _ _ _ _ _ H1 H2). }
    by apply Hloop.
  - unfold update_conn_info_with_list. intros [= <-].
    assert (forall l s1 need, moves need s s1 ->
      moves false s (let '(s2, n) := foldl (list_step now) (s1, need) l in inc_if n s2)) as Hloop.
    { clear l. induction l as [|x l IH]; intros s1 need H1; cbn [foldl]; [by apply moves_inc_if|].
      unfold list_step at 2. destruct x.1 as [pv|]; [|by apply IH].
      pose proof (fill_conn_moves s1 pv (list_to_set x.2) now (moves_ok _ _ _ H1)) as H2.
      destruct (update_conn_info_one_peer _ _ _ _) as [s3 ch].
      apply IH. exact (moves_trans _ _ _ _ _ H1 H2). }
    apply Hloop. by apply moves_refl.
Qed.

Lemma infos_moves me route dst now raws l : forall idx s0 s need s',
  moves need s0 s -> update_peer_infos_loop me route dst now l raws idx s need = Ret (s', Ok tt) ->
  moves false s0 s'.
Proof using.
  induction l as [|i l IH]; intros idx s0 s need s' Hm; cbn [update_peer_infos_loop].
  - intros [= <-]. by apply moves_inc_if.
  - destruct (raws !! idx) as [raw|]; [|done]. cbn [unwrap mbind comp_bind].
    destruct (check_duplicate_peer_id _ _ _ _ _ i) as [[[]|e]|]; [|done..]. cbn [mbind comp_bind].
    destruct (match om_get (peer_infos s) _ with None => true | Some old => _ end).
    + apply IH. rewrite <- (orb_true_r need). eapply moves_trans; [done|].
      apply moves_pending; [by eapply moves_ok|done].
    + by apply IH.
Qed.

(** Operations that leave the view and the version alone. *)
Definition quiet (s s' : SyncedRouteInfo) : Prop :=
  peer_infos s' = peer_infos s /\ conn_map s' = conn_map s /\
  suppressed_non_reusable_credential_peers s' = suppressed_non_reusable_credential_peers s /\
  s_version s' = s_version s.

Lemma quiet_refl s : quiet s s.
Proof using. done. Qed.
Lemma quiet_trans s1 s2 s3 : quiet s1 s2 -> quiet s2 s3 -> quiet s1 s3.
Proof using. intros (? & ? & ? & ?) (? & ? & ? & ?). split_and!; congruence. Qed.
Lemma quiet_moves s s' : version_ok s -> quiet s s' -> moves false s s'.
Proof using.
  intros Hv (E1 & E2 & E3 & E4). apply moves_view; [done..|]. split_and!; intros; congruence.
Qed.
Lemma quiet_fold {A} (f : SyncedRouteInfo -> A -> SyncedRouteInfo) l :
  (forall s a, quiet s (f s a)) -> forall s, quiet s (foldl f s l).
Proof using.
  intros Hf. induction l as [|a l IH]; intros s; [apply quiet_refl|].
  eapply quiet_trans; [apply Hf|apply IH].
Qed.

Lemma set_groups_quiet s pid g : quiet s (set_peer_groups_locked s pid g).
Proof using. unfold set_peer_groups_locked. by destruct (bool_decide _). Qed.
Lemma group_trusts_quiet s infos decls b :
  quiet s (verify_and_update_group_trusts s infos decls b).
Proof using.
  apply quiet_fold. intros s1 info. cbv zeta.
  destruct (group_trust_map s1 !! _), (bool_decide _); done.
Qed.
Lemma credential_groups_quiet s all : quiet s (update_credential_groups s all).
Proof using.
  apply quiet_fold. intros s1 kv. cbv zeta. destruct (noise_static_pubkey kv.2); [done|].
  destruct (all !! _); [|done]. apply set_groups_quiet.
Qed.

Lemma remove_peers_moves s ids : version_ok s -> moves false s (remove_peers s ids).
Proof using.
  intros Hv. unfold remove_peers. destruct (bool_decide _); [by apply moves_refl|].
  eapply moves_inc. by apply moves_pending.
Qed.

Lemma my_insert_moves s pi me g :
  version_ok s -> let s1 := with_peers s pi (raw_peer_infos s) in
  moves false s (inc_version match g with
    | Some g => update_my_group_trusts s1 me g | None => s1 end).
Proof using.
  intros Hv s1. assert (moves true s s1) as H1 by (by apply moves_pending).
  eapply (moves_inc true). destruct g as [g|]; [|done].
  eapply (moves_trans true false); [done|]. apply quiet_moves; [by eapply moves_ok|].
  apply set_groups_quiet.
Qed.

Lemma my_info_moves s me route cx lease now :
  version_ok s -> moves false s (update_my_peer_info s me route cx lease now).1.
Proof using.
  intros Hv. unfold update_my_peer_info. destruct (om_get (peer_infos s) me) as [o|].
  - destruct (try_update_new_peer_info o _ now) as [new []]; [|by apply moves_refl].
    by apply my_insert_moves.
  - by apply (my_insert_moves _ _ _ (Some _)).
Qed.

Lemma my_conn_moves s me cp now : version_ok s -> moves false s (update_my_conn_info s me cp now).1.
Proof using.
  intros Hv. unfold update_my_conn_info. pose proof (fill_empty_moves s cp now Hv) as H0.
  set (s0 := fill_empty_peer_info s cp now) in *. pose proof (moves_ok _ _ _ H0).
  destruct (match om_get (conn_map s0) me with None => true | Some old => _ end); [|done].
  cbn [fst]. eapply (moves_inc true). eapply (moves_trans false true); [done|].
  by apply moves_pending.
Qed.

Lemma credential_moves s secret active prot now :
  version_ok s -> let '(s', _, _, _) :=
    verify_and_update_credential_trusts_protecting s secret active prot now in moves false s s'.
Proof using.
  intros Hv. unfold verify_and_update_credential_trusts_protecting.
  destruct (collect_trusted_credentials s secret _) as [all keys].
  cbn [replace_trusted_credential_pubkeys].
  destruct (collect_non_reusable_credential_owners _ all active) as [owners dups].
  set (dups' := match prot with Some p => _ | None => _ end).
  set (s1 := replace_non_reusable_credential_owners _ owners).
  assert (moves false s s1) as H1 by (by apply quiet_moves).
  pose proof (moves_ok _ _ _ H1) as Hv1.
  unfold replace_suppressed_non_reusable_credential_peers.
  set (r := if bool_decide _ then _ else _).
  assert (moves false s1 r.1) as H2.
  { subst r. destruct (bool_decide _); [by apply moves_refl|]. cbn [fst]. eapply (moves_inc true).
    by apply moves_pending. }
  destruct r as [s2 ch]. cbn [fst] in H2. pose proof (moves_ok _ _ _ H2) as Hv2.
  pose proof (quiet_moves s2 _ Hv2 (credential_groups_quiet s2 all)) as H3.
  pose proof (moves_ok _ _ _ H3) as Hv3.
  pose proof (moves_trans _ _ _ _ _ (moves_trans _ _ _ _ _ H1 H2) H3) as H13. cbn in H13.
  destruct (bool_decide _); [done|].
  exact (moves_trans _ _ _ _ _ H13 (remove_peers_moves _ _ Hv3)).
Qed.

(** *** Every operation *)

Inductive synced_step : SyncedRouteInfo -> SyncedRouteInfo -> Prop :=
  | step_infos s me route dst infos raws now s' :
    update_peer_infos s me route dst infos raws now = Ret (s', Ok tt) -> synced_step s s'
  | step_conns s c now s' : update_conn_info s c now = Ret s' -> synced_step s s'
  | step_foreign s l now : synced_step s (update_foreign_network s l now).1
  | step_fill s ids now : synced_step s (fill_empty_peer_info s ids now)
  | step_remove s ids : synced_step s (remove_peers s ids)
  | step_my_info s me route cx lease now :
    synced_step s (update_my_peer_info s me route cx lease now).1
  | step_my_conns s me cp now : synced_step s (update_my_conn_info s me cp now).1
  | step_my_foreign s me given now s' ch :
    update_my_foreign_network s me given now = Ret (s', ch) -> synced_step s s'
  | step_groups s order decls b :
    synced_step s (verify_and_update_current_group_trusts s order decls b)
  | step_all_groups s decls b :
    synced_step s (verify_and_update_all_current_group_trusts s decls b)
  | step_credentials s secret active prot now :
    synced_step s (verify_and_update_credential_trusts_protecting s secret active prot now).1.1.1.

Lemma step_moves s s' : synced_step s s' -> version_ok s -> moves false s s'.
Proof using.
  destruct 1 as [s me route dst infos raws now s' H|s c now s' H|s l now|s ids now|s ids
    |s me route cx lease now|s me cp now|s me given now s' ch H|s order decls b|s decls b
    |s secret active prot now]; intros Hv.
  - eapply infos_moves; [|exact H]. by apply moves_refl.
  - by eapply conn_info_moves.
  - unfold update_foreign_network. destruct (foldl _ _ l). by apply quiet_moves.
  - by apply fill_empty_moves.
  - by apply remove_peers_moves.
  - by apply my_info_moves.
  - by apply my_conn_moves.
  - unfold update_my_foreign_network in H.
    destruct (my_foreign_loop _ _ _ _ _) as [[[m given'] up]|]; [|done]. cbn [mbind comp_bind] in H.
    destruct (my_foreign_new _ _ _) as [m'|]; [|done]. cbn [mbind comp_bind] in H.
    injection H as <- <-.
    assert (moves false s (with_foreign s m')) as H1 by (by apply quiet_moves).
    destruct (up || _); [by eapply moves_inc|done].
  - apply quiet_moves; [done|apply group_trusts_quiet].
  - apply quiet_moves; [done|apply group_trusts_quiet].
  - pose proof (credential_moves s secret active prot now Hv) as H.
    by destruct (verify_and_update_credential_trusts_protecting _ _ _ _ _) as [[[s1 a] b] c].
Qed.

(** *** Group caches *)

Definition groups_ok (s : SyncedRouteInfo) : Prop :=
  forall pid, group_trust_map_cache s !! pid = dom <$> group_trust_map s !! pid /\
    group_trust_map s !! pid <> Some ∅.

Definition same_groups (s s' : SyncedRouteInfo) : Prop :=
  group_trust_map s' = group_trust_map s /\ group_trust_map_cache s' = group_trust_map_cache s.

Lemma same_groups_ok s s' : same_groups s s' -> groups_ok s -> groups_ok s'.
Proof using. intros [E1 E2] H pid. rewrite E1, E2. apply H. Qed.

Lemma groups_insert_ok s pid g :
  groups_ok s -> g <> ∅ ->
  groups_ok (with_groups s (<[pid := g]> (group_trust_map s)) (<[pid := dom g]> (group_trust_map_cache s))).
Proof using.
  intros H Hg p. cbn. destruct (decide (pid = p)) as [->|].
  - rewrite !lookup_insert_eq. split; [done|congruence].
  - rewrite !lookup_insert_ne by done. apply H.
Qed.
Lemma groups_delete_ok s pid :
  groups_ok s ->
  groups_ok (with_groups s (delete pid (group_trust_map s)) (delete pid (group_trust_map_cache s))).
Proof using.
  intros H p. cbn. destruct (decide (pid = p)) as [->|].
  - rewrite !lookup_delete_eq. done.
  - rewrite !lookup_delete_ne by done. apply H.
Qed.

Lemma set_groups_ok s pid g : groups_ok s -> groups_ok (set_peer_groups_locked s pid g).
Proof using.
  intros H. unfold set_peer_groups_locked. destruct (bool_decide _) eqn:E;
    [by apply groups_delete_ok|]. apply bool_decide_eq_false in E. by apply groups_insert_ok.
Qed.

Lemma fold_ok {A} (P : SyncedRouteInfo -> Prop) (f : SyncedRouteInfo -> A -> SyncedRouteInfo) l :
  (forall s a, P s -> P (f s a)) -> forall s, P s -> P (foldl f s l).
Proof using. intros Hf. induction l as [|a l IH]; intros s Hs; [done|]. apply IH. by apply Hf. Qed.

Lemma group_trusts_ok s infos decls b :
  groups_ok s -> groups_ok (verify_and_update_group_trusts s infos decls b).
Proof using.
  apply fold_ok. intros s1 info H1. cbv zeta.
  destruct (group_trust_map s1 !! _), (bool_decide _) eqn:E; auto using groups_delete_ok;
    apply bool_decide_eq_false in E; by apply groups_insert_ok.
Qed.

Lemma remove_peers_groups s ids : groups_ok s -> groups_ok (remove_peers s ids).
Proof using.
  intros H. unfold remove_peers. destruct (bool_decide _); [done|]. intros p. cbn.
  rewrite !map_lookup_filter. destruct (H p) as [-> Hne].
  destruct (group_trust_map s !! p) as [g|]; [|done]. cbn.
  destruct (decide (p ∈ ids)).
  - rewrite !option_guard_False by (intros Hn; by apply Hn). done.
  - rewrite !option_guard_True by done. done.
Qed.

Lemma same_groups_trans s1 s2 s3 : same_groups s1 s2 -> same_groups s2 s3 -> same_groups s1 s3.
Proof using. intros [] []. split; congruence. Qed.
Lemma same_groups_inc b s s' : same_groups s s' -> same_groups s (inc_if b s').
Proof using. by destruct b. Qed.

Lemma fill_empty_groups s ids now : same_groups s (fill_empty_peer_info s ids now).
Proof using.
  unfold fill_empty_peer_info.
  assert (forall l s1 need, same_groups s s1 ->
    same_groups s (let '(s2, n) := foldl (fill_one now) (s1, need) l in inc_if n s2)) as Hl;
    [|by apply Hl].
  induction l as [|p l IH]; intros s1 need H1; cbn [foldl]; [by apply same_groups_inc|].
  destruct (fill_one now (s1, need) p) as [s2 need2] eqn:E. apply IH.
  apply (same_groups_trans s s1 s2 H1). revert E. unfold fill_one.
  destruct (om_get (peer_infos s1) p); cbn; destruct (om_get (conn_map s1) p); by intros [= <- _].
Qed.

Lemma fill_conn_groups s pv cp now :
  same_groups s (update_conn_info_one_peer (fill_empty_peer_info s cp now) pv cp now).1.
Proof using.
  eapply same_groups_trans; [apply (fill_empty_groups s cp now)|].
  unfold update_conn_info_one_peer. by destruct (match om_get _ _ with None => _ | _ => _ end).
Qed.

Lemma conn_info_groups s c now s' : update_conn_info s c now = Ret s' -> same_groups s s'.
Proof using.
  destruct c as [bm|l]; cbn [update_conn_info].
  - unfold update_conn_info_with_bitmap. set (s0 := fill_empty_peer_info s _ now).
    assert (same_groups s s0) as H0 by apply fill_empty_groups.
    assert (forall l idx s1 need, same_groups s s1 -> forall s2,
      bitmap_loop bm now l idx s1 need = Ret s2 -> same_groups s s2) as Hl; [|by apply Hl].
    induction l as [|pv l IH]; intros idx s1 need H1 s2; cbn [bitmap_loop].
    + intros [= <-]. by apply same_groups_inc.
    + destruct (bitmap_connected_peers bm idx) as [cp|]; [|done]. cbn [mbind comp_bind].
      pose proof (fill_conn_groups s1 pv cp now) as H2.
      destruct (update_conn_info_one_peer _ _ _ _) as [s3 ch].
      apply IH. by eapply same_groups_trans.
  - unfold update_conn_info_with_list. intros [= <-].
    assert (forall l s1 need, same_groups s s1 ->
      same_groups s (let '(s2, n) := foldl (list_step now) (s1, need) l in inc_if n s2)) as Hl;
      [|by apply Hl].
    clear l. induction l as [|x l IH]; intros s1 need H1; cbn [foldl]; [by apply same_groups_inc|].
    unfold list_step at 2. destruct x.1 as [pv|]; [|by apply IH].
    pose proof (fill_conn_groups s1 pv (list_to_set x.2) now) as H2.
    destruct (update_conn_info_one_peer _ _ _ _) as [s3 ch]. apply IH. by eapply same_groups_trans.
Qed.

Lemma infos_groups me route dst now raws l : forall idx s0 s need s',
  same_groups s0 s -> update_peer_infos_loop me route dst now l raws idx s need = Ret (s', Ok tt) ->
  same_groups s0 s'.
Proof using.
  induction l as [|i l IH]; intros idx s0 s need s' Hm; cbn [update_peer_infos_loop].
  - intros [= <-]. by apply same_groups_inc.
  - destruct (raws !! idx) as [raw|]; [|done]. cbn [unwrap mbind comp_bind].
    destruct (check_duplicate_peer_id _ _ _ _ _ i) as [[[]|e]|]; [|done..]. cbn [mbind comp_bind].
    destruct (match om_get (peer_infos s) _ with None => true | Some old => _ end);
      by apply IH.
Qed.

Lemma my_info_groups s me route cx lease now :
  groups_ok s -> groups_ok (update_my_peer_info s me route cx lease now).1.
Proof using.
  intros H. unfold update_my_peer_info.
  assert (forall pi g, groups_ok (inc_version match g with
    | Some g => update_my_group_trusts (with_peers s pi (raw_peer_infos s)) me g
    | None => with_peers s pi (raw_peer_infos s) end)) as Hi
    by (intros pi [g|]; [apply (set_groups_ok (with_peers s pi _)); exact H|exact H]).
  destruct (om_get (peer_infos s) me) as [o|].
  - destruct (try_update_new_peer_info o _ now) as [new []]; [apply Hi|exact H].
  - apply (Hi _ (Some _)).
Qed.

Lemma credential_groups_ok s all : groups_ok s -> groups_ok (update_credential_groups s all).
Proof using.
  apply fold_ok. intros s1 kv H1. cbv zeta. destruct (noise_static_pubkey kv.2); [done|].
  destruct (all !! _); [|done]. by apply set_groups_ok.
Qed.

Lemma step_groups_ok s s' : synced_step s s' -> groups_ok s -> groups_ok s'.
Proof using.
  destruct 1 as [s me route dst infos raws now s' H|s c now s' H|s l now|s ids now|s ids
    |s me route cx lease now|s me cp now|s me given now s' ch H|s order decls b|s decls b
    |s secret active prot now]; intros Hg.
  - eapply same_groups_ok; [|exact Hg]. by eapply infos_groups; [|exact H].
  - eapply same_groups_ok; [by eapply conn_info_groups|done].
  - unfold update_foreign_network. by destruct (foldl _ _ l).
  - eapply same_groups_ok; [apply fill_empty_groups|done].
  - by apply remove_peers_groups.
  - by apply my_info_groups.
  - unfold update_my_conn_info. assert (groups_ok (fill_empty_peer_info s cp now)) as H0
      by (eapply same_groups_ok; [apply fill_empty_groups|done]).
    by destruct (match om_get (conn_map _) me with None => true | Some old => _ end).
  - unfold update_my_foreign_network in H.
    destruct (my_foreign_loop _ _ _ _ _) as [[[m given'] up]|]; [|done]. cbn [mbind comp_bind] in H.
    destruct (my_foreign_new _ _ _) as [m'|]; [|done]. cbn [mbind comp_bind] in H.
    injection H as <- <-. by destruct (up || _).
  - by apply group_trusts_ok.
  - by apply group_trusts_ok.
  - unfold verify_and_update_credential_trusts_protecting.
    destruct (collect_trusted_credentials s secret _) as [all keys].
    cbn [replace_trusted_credential_pubkeys].
    destruct (collect_non_reusable_credential_owners _ all active) as [owners dups].
    unfold replace_suppressed_non_reusable_credential_peers.
    destruct (bool_decide (suppressed_non_reusable_credential_peers _ = _)); cbn [fst];
      (destruct (bool_decide (_ = ∅)); [|apply remove_peers_groups]; by apply credential_groups_ok).
Qed.

(** An update with a duplicate peer id fails; what came before the duplicate
    stays, and the version does not move. *)
Definition failed_update (s s' : SyncedRouteInfo) : Prop :=
  exists me route dst infos raws now e, update_peer_infos s me route dst infos raws now = Ret (s', Err e).

Lemma failed_keeps me route dst now raws l : forall idx s need s' e,
  update_peer_infos_loop me route dst now l raws idx s need = Ret (s', Err e) ->
  same_groups s s' /\ s_version s' = s_version s.
Proof using.
  induction l as [|i l IH]; intros idx s need s' e; cbn [update_peer_infos_loop]; [done|].
  destruct (raws !! idx) as [raw|]; [|done]. cbn [unwrap mbind comp_bind].
  destruct (check_duplicate_peer_id _ _ _ _ _ i) as [[[]|e']|]; [| |done]; cbn [mbind comp_bind];
    [|by intros [= <- _]].
  destruct (match om_get (peer_infos s) _ with None => true | Some old => _ end); intros E; apply IH in E; [|done].
  destruct E as [Hg Hv]. split; [|exact Hv]. exact Hg.
Qed.

Lemma operation_sound s s' : synced_step s s' \/ failed_update s s' ->
  groups_ok s -> version_ok s -> groups_ok s' /\ version_ok s'.
Proof using.
  intros [Hs|(me & route & dst & infos & raws & now & e & Hf)] Hg Hv.
  - pose proof (step_moves _ _ Hs Hv) as Hm. split; [by eapply step_groups_ok|by eapply moves_ok].
  - destruct (failed_keeps _ _ _ _ _ _ _ _ _ _ _ Hf) as [Hsame Ev]. split; [by eapply same_groups_ok|].
    unfold version_ok. by rewrite Ev.
Qed.
End version_moves.

(** C40. Whatever sequence of operations a node performs (receiving peer
    information, connections and foreign networks, announcing its own,
    verifying groups and credentials, removing peers), updates that fail on a
    duplicate peer id included, the cache of group names stays exactly the names
    of the groups trusted and no peer keeps an empty group, and the version
    stays a u32.  If no update failed, everything that changes what the route
    table reads - a peer's information, its connections, the suppressed peers -
    has incremented the version, so that the table is rebuilt.  (A failed update
    keeps what came before the duplicate without an increment.) *)
Theorem synced_operations_sound `{om : OrderedMap, !OrderedMapLaws om, tl : TrustLib, pw : ProstWire}
    (s s' : SyncedRouteInfo) :
  rtc (fun a b => synced_step a b \/ failed_update a b) s s' -> groups_ok s -> version_ok s ->
  groups_ok s' /\ version_ok s' /\
  (rtc synced_step s s' ->
   same_view s s' \/ exists n, 1 <= n /\ s_version s' = wrap 32 (s_version s + n)).
Proof.
  intros Ha Hg Hv. assert (groups_ok s' /\ version_ok s') as [Hg2 Hv2].
  { induction Ha as [s|s1 s2 s3 Hs _ IH]; [done|]. destruct (operation_sound _ _ Hs Hg Hv). by apply IH. }
  clear Ha. split_and!; [done|done|]. clear Hg2 Hv2. intros Hr.
  assert (groups_ok s' /\ moves false s s') as [Hg' (n & Hn & Hver & Hview)].
  { induction Hr as [s|s1 s2 s3 Hs Hr IH]; [split; [done|by apply moves_refl]|].
    pose proof (step_moves _ _ Hs Hv) as Hm. destruct IH as [Hg3 Hm3].
    - by eapply step_groups_ok.
    - by eapply moves_ok.
    - split; [done|]. exact (moves_trans _ _ _ _ _ Hm Hm3). }
  destruct (decide (n = 0)) as [->|]; [left; by apply Hview|right; exists n; split; [lia|done]].
Qed.

Lemma synced_operations_sound_witness :
  exists s', rtc (@synced_step Concrete.omap Concrete.trust Protobuf.wire) Concrete.nothing s' /\
    groups_ok s' /\ version_ok s' /\ exists n, 1 <= n /\ s_version s' = wrap 32 n.
Proof.
  set (s' := (@fill_empty_peer_info Concrete.omap Concrete.nothing {[4; 5]} 7)).
  assert (rtc (@synced_step Concrete.omap Concrete.trust Protobuf.wire) Concrete.nothing s') as Hr
    by (apply rtc_once, step_fill).
  exists s'. split; [exact Hr|].
  destruct (@synced_operations_sound Concrete.omap Concrete.omap_laws Concrete.trust Protobuf.wire
    Concrete.nothing s') as (Hg & Hv & Hs).
  - apply rtc_once. left. apply step_fill.
  - intros pid. cbn. by rewrite !lookup_empty.
  - done.
  - split; [exact Hg|]. split; [exact Hv|]. destruct (Hs Hr) as [(Hs' & _)|Hs']; [|exact Hs']. clear Hs. rename Hs' into Hs.
    specialize (Hs 4). vm_compute in Hs. discriminate.
Defined.
