(* ===== verification/CredentialProofs.v ===== *)
(** Theorems about the credentials of [SyncedRouteInfo]: they are trusted only on
    an admin's word, those that are not reusable have one owner, and revoked
    peers leave no trace. *)

From stdpp Require Import list gmap.
From S2P Require Import Prelude RouteMessages RouteWire SyncedRoute SyncedRouteProofs.
Local Open Scope Z_scope.
Local Set Warnings "-clear-no-such-hyp".

(** ** Owners *)

Lemma foldr_min_spec x l : foldr Z.min x l ∈ x :: l /\ forall y, y ∈ x :: l -> foldr Z.min x l <= y.
Proof.
  induction l as [|a l [IH1 IH2]]; cbn [foldr].
  - split; [by left|]. intros y ->%list_elem_of_singleton. lia.
  - split.
    + destruct (Z.min_spec a (foldr Z.min x l)) as [[_ ->]|[_ ->]]; set_solver.
    + intros y Hy. assert (y = a \/ y ∈ x :: l) as [->|H] by set_solver; [lia|].
      specialize (IH2 y H). lia.
Qed.

Lemma first_peer_spec (X : gset Z) o :
  first_peer X = Some o <-> o ∈ X /\ forall p, p ∈ X -> o <= p.
Proof.
  unfold first_peer. setoid_rewrite <- elem_of_elements.
  destruct (elements X) as [|x l]; [split; [done|]; by intros [?%not_elem_of_nil _]|].
  destruct (foldr_min_spec x l) as [H1 H2]. split; [by intros [= <-]|].
  intros [Ho Hmin]. f_equal. apply Z.le_antisymm; [by apply H2|by apply Hmin].
Qed.

Lemma first_peer_Some (X : gset Z) p : p ∈ X -> exists o, first_peer X = Some o.
Proof.
  unfold first_peer. rewrite <- elem_of_elements. destruct (elements X); [by intros ?%not_elem_of_nil|].
  eauto.
Qed.

Section credential_lemmas.
Context {om : OrderedMap} {Hom : OrderedMapLaws om} {tl : TrustLib} {pw : ProstWire}.

(** A peer that competes for the credential [k]. *)
Definition competes (infos : OMap RoutePeerInfo) (all : gmap (list Z) TrustedCredentialPubkey)
    (active : Z -> bool) (k : list Z) (pid : Z) : Prop :=
  exists info, om_get infos pid = Some info /\ owner_candidate all active pid info = Some k.

Lemma collect_candidates_spec all active l : forall k pid,
  pid ∈ default ∅ (collect_candidates all active l !! k) <->
  exists info, (pid, info) ∈ l /\ owner_candidate all active pid info = Some k.
Proof using Hom.
  unfold collect_candidates. induction l as [|[p i] l IH] using rev_ind; intros k pid.
  - cbn [foldl]. rewrite lookup_empty. set_solver.
  - rewrite foldl_app. cbn [foldl fst snd]. set (m := foldl _ ∅ l) in *.
    setoid_rewrite elem_of_app. setoid_rewrite list_elem_of_singleton.
    destruct (owner_candidate all active p i) as [k'|] eqn:E.
    + destruct (decide (k' = k)) as [->|Hne].
      * rewrite lookup_insert_eq. cbn. rewrite elem_of_union, elem_of_singleton, IH.
        split; [intros [->|(info & ? & ?)]; eauto|].
        intros (info & [?|[= -> ->]] & ?); eauto.
      * rewrite lookup_insert_ne by done. rewrite IH. split; [intros (info & ? & ?); eauto|].
        intros (info & [?|[= -> ->]] & ?); [eauto|congruence].
    + rewrite IH. split; [intros (info & ? & ?); eauto|].
      intros (info & [?|[= -> ->]] & ?); [eauto|congruence].
Qed.

Lemma candidates_competes infos all active k pid :
  pid ∈ default ∅ (collect_candidates all active (om_iter infos) !! k) <->
  competes infos all active k pid.
Proof using Hom. rewrite collect_candidates_spec. unfold competes. by setoid_rewrite om_iter_get. Qed.

Lemma owners_spec infos all active k o :
  (collect_non_reusable_credential_owners infos all active).1 !! k = Some o <->
  competes infos all active k o /\ forall p, competes infos all active k p -> o <= p.
Proof using Hom.
  unfold collect_non_reusable_credential_owners. cbn [fst]. rewrite lookup_omap.
  setoid_rewrite <- candidates_competes.
  destruct (collect_candidates _ _ _ !! k) as [X|]; cbn; [apply first_peer_spec|]. set_solver.
Qed.

Lemma duplicates_spec infos all active p :
  p ∈ (collect_non_reusable_credential_owners infos all active).2 <->
  exists k o, competes infos all active k p /\ competes infos all active k o /\ o < p /\
    forall q, competes infos all active k q -> o <= q.
Proof using Hom.
  unfold collect_non_reusable_credential_owners. cbn [snd].
  rewrite elem_of_union_list. setoid_rewrite list_elem_of_fmap. split.
  - intros (Y & ([k X] & -> & Hk%elem_of_map_to_list) & Hp). cbn [snd] in Hp.
    destruct (first_peer X) as [o|] eqn:Eo; [|set_solver].
    apply first_peer_spec in Eo as [Ho Hmin]. apply elem_of_difference in Hp as [Hp Hne].
    assert (forall q, competes infos all active k q <-> q ∈ X) as Hc
      by (intros q; rewrite <- candidates_competes, Hk; done).
    exists k, o. rewrite !Hc. split_and!; try done; [|intros q; by rewrite Hc; apply Hmin].
    specialize (Hmin p Hp). rewrite elem_of_singleton in Hne. lia.
  - intros (k & o & Hp & Ho & Hlt & Hmin).
    destruct (collect_candidates all active (om_iter infos) !! k) as [X|] eqn:Ek.
    2:{ apply candidates_competes in Hp. rewrite Ek in Hp. set_solver. }
    assert (forall q, competes infos all active k q <-> q ∈ X) as Hc
      by (intros q; rewrite <- candidates_competes, Ek; done).
    exists (X ∖ {[o]}). split; [|apply elem_of_difference; rewrite <- Hc, elem_of_singleton; split; [done|lia]].
    exists (k, X). split; [|by apply elem_of_map_to_list]. cbn.
    assert (first_peer X = Some o) as ->; [|done].
    apply first_peer_spec. rewrite <- Hc. split; [done|]. intros q. rewrite <- Hc. apply Hmin.
Qed.

(** *** Trusted keys *)

(** An admin vouches for [c] with a valid proof that has not expired. *)
Definition vouched (infos : OMap RoutePeerInfo) (raws : gmap Z (list Z)) (secret : option (list Z))
    (now : Z) (c : TrustedCredentialPubkey) : Prop :=
  exists pid info idx proof, om_get infos pid = Some info /\ is_admin_peer info = true /\
    trusted_credential_pubkeys info !! idx = Some proof /\
    credential_proof_is_valid (raws !! pid) idx proof secret = true /\
    tp_credential proof = Some c /\ now < tc_expiry_unix c.

(** The credentials of an admin that pass, and what the two loops see in
    order: keys of admins and credentials. *)
Fixpoint passing (raw : option (list Z)) (secret : option (list Z)) (now : Z) (idx : nat)
    (l : list TrustedCredentialPubkeyProof) : list TrustedCredentialPubkey :=
  match l with
  | [] => []
  | proof :: l =>
    match tp_credential proof with
    | Some c => if credential_proof_is_valid raw idx proof secret && (now <? tc_expiry_unix c)
                then [c] else []
    | None => []
    end ++ passing raw secret now (S idx) l
  end.
Definition trust_events (raws : gmap Z (list Z)) (secret : option (list Z)) (now : Z)
    (kv : Z * RoutePeerInfo) : list (list Z + TrustedCredentialPubkey) :=
  if is_admin_peer kv.2 then
    match noise_static_pubkey kv.2 with [] => [] | k => [inl k] end ++
    map inr (passing (raws !! kv.1) secret now 0 (trusted_credential_pubkeys kv.2))
  else [].

Definition add_trusted (m : gmap (list Z) TrustedCredentialPubkey)
    (e : list Z + TrustedCredentialPubkey) : gmap (list Z) TrustedCredentialPubkey :=
  match e with
  | inr c => match m !! tc_pubkey c with Some _ => m | None => <[tc_pubkey c := c]> m end
  | inl _ => m
  end.
Definition event_key (e : list Z + TrustedCredentialPubkey) : list Z * TrustedKeyMetadata :=
  match e with
  | inl k => (k, {| tk_source := OspfNode; tk_expiry_unix := None |})
  | inr c => (tc_pubkey c, {| tk_source := OspfCredential; tk_expiry_unix := Some (tc_expiry_unix c) |})
  end.
Definition add_key (m : gmap (list Z) TrustedKeyMetadata) (e : list Z + TrustedCredentialPubkey)
    : gmap (list Z) TrustedKeyMetadata := <[(event_key e).1 := (event_key e).2]> m.

Lemma collect_proofs_events raw secret now l : forall idx all keys,
  collect_proofs raw secret now idx l all keys =
  (foldl add_trusted all (map inr (passing raw secret now idx l)),
   foldl add_key keys (map inr (passing raw secret now idx l))).
Proof using.
  induction l as [|proof l IH]; intros idx all keys; cbn [collect_proofs passing]; [done|].
  destruct (credential_proof_is_valid raw idx proof secret); cbn [negb andb];
    destruct (tp_credential proof) as [c|]; try apply IH.
  rewrite Z.leb_antisym. destruct (now <? tc_expiry_unix c); cbn [negb app map foldl]; apply IH.
Qed.

Lemma collect_admins_events raws secret now l : forall all keys,
  collect_admins raws secret now l all keys =
  (foldl add_trusted all (l ≫= trust_events raws secret now),
   foldl add_key keys (l ≫= trust_events raws secret now)).
Proof using.
  induction l as [|[pid info] l IH]; intros all keys; [done|]. cbn [collect_admins].
  rewrite bind_cons, !foldl_app.
  assert (trust_events raws secret now (pid, info) = if is_admin_peer info then
    match noise_static_pubkey info with [] => [] | k => [inl k] end ++
    map inr (passing (raws !! pid) secret now 0 (trusted_credential_pubkeys info)) else []) as -> by done.
  destruct (is_admin_peer info); cbn [negb]; [|apply IH].
  rewrite collect_proofs_events, IH, !foldl_app. by destruct (noise_static_pubkey info).
Qed.

Lemma add_trusted_spec evs : forall m k c,
  foldl add_trusted m evs !! k = Some c ->
  m !! k = Some c \/ (inr c ∈ evs /\ tc_pubkey c = k).
Proof using.
  induction evs as [|[k'|c'] evs IH]; intros m k c; cbn [foldl]; [by left|..];
    intros [H|[H ->]]%IH; try (right; split; [by right|done]).
  - by left.
  - cbn [add_trusted] in H. destruct (m !! tc_pubkey c') eqn:E; [by left|].
    apply lookup_insert_Some in H as [[<- <-]|[_ H]]; [right; split; [by left|done]|by left].
Qed.
Lemma add_trusted_mono evs : forall m k, is_Some (m !! k) -> is_Some (foldl add_trusted m evs !! k).
Proof using.
  induction evs as [|[k'|c'] evs IH]; intros m k H; cbn [foldl]; [done|by apply IH|].
  apply IH. cbn. destruct (m !! tc_pubkey c'); [done|].
  destruct (decide (tc_pubkey c' = k)) as [->|]; [rewrite lookup_insert_eq; eauto|].
  by rewrite lookup_insert_ne.
Qed.
Lemma add_trusted_complete evs : forall m c,
  inr c ∈ evs -> is_Some (foldl add_trusted m evs !! tc_pubkey c).
Proof using.
  induction evs as [|e evs IH]; intros m c; [by intros ?%not_elem_of_nil|].
  intros [<-|H]%elem_of_cons; cbn [foldl]; [|by apply IH].
  apply add_trusted_mono. cbn. destruct (m !! tc_pubkey c) eqn:E; [rewrite E; eauto|].
  rewrite lookup_insert_eq. eauto.
Qed.
Lemma add_key_spec evs : forall m k t,
  foldl add_key m evs !! k = Some t -> m !! k = Some t \/ exists e, e ∈ evs /\ event_key e = (k, t).
Proof using.
  induction evs as [|e evs IH]; intros m k t; cbn [foldl]; [by left|].
  intros [H|(e' & He & Hk)]%IH; [|right; exists e'; split; [by right|done]].
  unfold add_key in H. apply lookup_insert_Some in H as [[<- <-]|[_ H]]; [|by left].
  right. exists e. split; [by left|by destruct (event_key e)].
Qed.

Lemma passing_spec raw secret now l c : forall idx,
  c ∈ passing raw secret now idx l <-> exists j proof, l !! j = Some proof /\
    credential_proof_is_valid raw (idx + j) proof secret = true /\
    tp_credential proof = Some c /\ now < tc_expiry_unix c.
Proof using.
  induction l as [|proof l IH]; intros idx; cbn [passing].
  - split; [by intros ?%not_elem_of_nil|]. by intros (j & p & ? & _).
  - rewrite elem_of_app, IH. split.
    + intros [H|(j & p & Hj & Hv & Hr)].
      * exists O, proof. rewrite Nat.add_0_r. destruct (tp_credential proof) as [c'|];
          [|by apply not_elem_of_nil in H].
        destruct (credential_proof_is_valid raw idx proof secret) eqn:Ev; cbn [andb] in H;
          [|by apply not_elem_of_nil in H].
        destruct (now <? tc_expiry_unix c') eqn:Et; [|by apply not_elem_of_nil in H].
        apply list_elem_of_singleton in H as ->. bools. done.
      * exists (S j), p. by rewrite <- plus_n_Sm.
    + intros ([|j] & p & Hj & Hv & Hc & Ht); cbn in Hj.
      * injection Hj as ->. rewrite Nat.add_0_r in Hv. left. rewrite Hc, Hv, (proj2 (Z.ltb_lt _ _)) by done.
        by left.
      * right. exists j, p. by rewrite <- plus_n_Sm in Hv.
Qed.

Lemma events_vouched infos raws secret now c :
  inr c ∈ om_iter infos ≫= trust_events raws secret now <-> vouched infos raws secret now c.
Proof using Hom.
  rewrite list_elem_of_bind. unfold vouched. split.
  - intros ([pid info] & He & Hin%om_iter_get). unfold trust_events in He. cbn [fst snd] in He.
    destruct (is_admin_peer info) eqn:Ea; [|by apply not_elem_of_nil in He].
    apply elem_of_app in He as [He|He]; [by destruct (noise_static_pubkey info); set_solver|].
    apply list_elem_of_fmap in He as (c' & [= <-] & Hc).
    apply passing_spec in Hc as (j & p & ? & ? & ? & ?). exists pid, info, j, p. by split_and!.
  - intros (pid & info & j & p & Hin & Ha & Hj & Hv & Hc & Ht). exists (pid, info).
    split; [|by apply om_iter_get]. unfold trust_events. cbn [fst snd]. rewrite Ha.
    apply elem_of_app. right. apply list_elem_of_fmap. exists c. split; [done|].
    apply passing_spec. exists j, p. by split_and!.
Qed.

Lemma events_node infos raws secret now k :
  inl k ∈ om_iter infos ≫= trust_events raws secret now ->
  exists pid info, om_get infos pid = Some info /\ is_admin_peer info = true /\
    noise_static_pubkey info = k.
Proof using Hom.
  rewrite list_elem_of_bind. intros ([pid info] & He & Hin%om_iter_get).
  unfold trust_events in He. cbn [fst snd] in He.
  destruct (is_admin_peer info) eqn:Ea; [|by apply not_elem_of_nil in He].
  apply elem_of_app in He as [He|He].
  - exists pid, info. destruct (noise_static_pubkey info) eqn:En; [by apply not_elem_of_nil in He|].
    apply list_elem_of_singleton in He. injection He as ->. by split_and!.
  - apply list_elem_of_fmap in He as (? & ? & _). done.
Qed.
End credential_lemmas.

Section credential_operation.
Context {om : OrderedMap} {Hom : OrderedMapLaws om} {tl : TrustLib} {pw : ProstWire}.

Lemma credential_groups_frame s all :
  let s' := update_credential_groups s all in
  trusted_credentials s' = trusted_credentials s /\
  non_reusable_credential_owners s' = non_reusable_credential_owners s /\
  raw_peer_infos s' = raw_peer_infos s /\ foreign_network s' = foreign_network s.
Proof using.
  unfold update_credential_groups.
  apply (fold_ok (fun s' => trusted_credentials s' = trusted_credentials s /\
    non_reusable_credential_owners s' = non_reusable_credential_owners s /\
    raw_peer_infos s' = raw_peer_infos s /\ foreign_network s' = foreign_network s)); [|done].
  intros s1 kv H. cbv zeta. destruct (noise_static_pubkey kv.2); [done|].
  destruct (all !! _); [|done]. unfold set_peer_groups_locked. by destruct (bool_decide _).
Qed.

(** No trace of a peer. *)
Definition forgotten (s : SyncedRouteInfo) (pid : Z) : Prop :=
  om_get (peer_infos s) pid = None /\ om_get (conn_map s) pid = None /\
  raw_peer_infos s !! pid = None /\ group_trust_map s !! pid = None /\
  group_trust_map_cache s !! pid = None /\ forall name, foreign_network s !! (pid, name) = None.

Lemma remove_peers_spec s ids pid :
  (pid ∈ ids -> forgotten (remove_peers s ids) pid) /\
  (pid ∉ ids -> om_get (peer_infos (remove_peers s ids)) pid = om_get (peer_infos s) pid /\
     om_get (conn_map (remove_peers s ids)) pid = om_get (conn_map s) pid).
Proof using Hom.
  unfold remove_peers. destruct (bool_decide (ids = ∅)) eqn:E.
  - apply bool_decide_eq_true in E as ->. set_solver.
  - cbn. split; intros Hp.
    + unfold forgotten. cbn. rewrite !om_get_remove_list.
      rewrite !decide_True by (by apply elem_of_elements).
      split_and!; try done; intros; apply map_lookup_filter_None; right; cbn; intros ? _ Hn; by apply Hn.
    + rewrite !om_get_remove_list. by rewrite !decide_False by (by rewrite elem_of_elements).
Qed.

Lemma remove_peers_trust s X :
  trusted_credentials (remove_peers s X) = trusted_credentials s /\
  non_reusable_credential_owners (remove_peers s X) = non_reusable_credential_owners s /\
  suppressed_non_reusable_credential_peers (remove_peers s X) =
  suppressed_non_reusable_credential_peers s.
Proof using. unfold remove_peers. by destruct (bool_decide _). Qed.

Lemma filter_union_self {K A} `{Countable K} (m m' : gmap K A) :
  m ∪ filter (fun kv => is_Some (m !! kv.1)) m' = m.
Proof using.
  apply map_eq. intros k. destruct (m !! k) as [v|] eqn:E; [by apply lookup_union_Some_l|].
  apply lookup_union_None. split; [done|]. apply map_lookup_filter_None. right. cbn.
  intros v _ [? ?]. congruence.
Qed.

Lemma credential_op_spec s secret active prot now :
  let '(all, keys) := collect_trusted_credentials s secret (now / 1000) in
  let '(owners, dups) := collect_non_reusable_credential_owners (peer_infos s) all active in
  let unprotected (X : gset Z) := match prot with Some p => X ∖ {[p]} | None => X end in
  let '(s', revoked, keys', _) :=
    verify_and_update_credential_trusts_protecting s secret active prot now in
  keys' = keys /\ trusted_credentials s' = all /\ non_reusable_credential_owners s' = owners /\
  suppressed_non_reusable_credential_peers s' = unprotected dups /\
  revoked = unprotected
    (collect_revoked_credential_peers (peer_infos s) (dom (trusted_credentials s)) all) /\
  (forall pid, pid ∈ revoked -> forgotten s' pid) /\
  (forall pid, pid ∉ revoked -> om_get (peer_infos s') pid = om_get (peer_infos s) pid).
Proof using Hom.
  unfold verify_and_update_credential_trusts_protecting.
  destruct (collect_trusted_credentials s secret _) as [all keys].
  cbn [replace_trusted_credential_pubkeys].
  set (s1 := with_trust s all _ _).
  change (peer_infos s1) with (peer_infos s).
  destruct (collect_non_reusable_credential_owners (peer_infos s) all active) as [owners dups].
  cbv zeta. set (dups' := match prot with Some p => dups ∖ _ | None => dups end).
  set (s2 := replace_non_reusable_credential_owners s1 owners).
  unfold replace_suppressed_non_reusable_credential_peers. set (r := if bool_decide _ then _ else _).
  assert (trusted_credentials r.1 = all /\ non_reusable_credential_owners r.1 = owners /\
    suppressed_non_reusable_credential_peers r.1 = dups' /\ peer_infos r.1 = peer_infos s) as Hr.
  { assert (non_reusable_credential_owners s2 = owners) as Ho by apply filter_union_self.
    subst r. destruct (bool_decide _) eqn:E; cbn [fst].
    - apply bool_decide_eq_true in E. by split_and!.
    - split_and!; [done|exact Ho| |done]. cbn. set_solver. }
  destruct r as [s3 ch]. cbn [fst] in Hr. destruct Hr as (R1 & R2 & R3 & R4).
  destruct (credential_groups_frame s3 all) as (G1 & G2 & _).
  destruct (credential_groups_quiet s3 all) as (Q1 & _ & Q3 & _).
  set (s4 := update_credential_groups s3 all) in *. rewrite Q1, R4.
  set (rev := match prot with Some p => collect_revoked_credential_peers _ _ _ ∖ _ | None => _ end).
  destruct (bool_decide (rev = ∅)) eqn:E.
  - apply bool_decide_eq_true in E. rewrite E.
    split_and!; try (intros; congruence). set_solver.
  - destruct (remove_peers_trust s4 rev) as (-> & -> & ->).
    split_and!; try congruence.
    + intros pid. apply remove_peers_spec.
    + intros pid Hp. destruct (remove_peers_spec s4 rev pid) as [_ H]. destruct (H Hp) as [-> _].
      congruence.
Qed.
Lemma vouched_trusted s secret active prot now c :
  vouched (peer_infos s) (raw_peer_infos s) secret (now / 1000) c ->
  is_Some (trusted_credentials (verify_and_update_credential_trusts_protecting s secret active prot now).1.1.1
           !! tc_pubkey c).
Proof using Hom.
  intros Hc. pose proof (credential_op_spec s secret active prot now) as H.
  unfold collect_trusted_credentials in H. rewrite collect_admins_events in H. cbv zeta in H.
  destruct (collect_non_reusable_credential_owners _ _ active) as [owners dups].
  destruct (verify_and_update_credential_trusts_protecting _ _ _ _ _) as [[[s' rv] ks] ch].
  destruct H as (_ & Htr & _). cbn [fst]. rewrite Htr. apply add_trusted_complete. by apply events_vouched.
Qed.
End credential_operation.

(** C28. Only admins create trust.  After the node has verified credentials, a
    credential is trusted only if some peer that is not itself a credential
    peer carries a valid and unexpired proof of it, and every key so vouched for
    is trusted; each key handed on as trusted is an admin's own key or such a
    credential, with its expiry; and a peer whose key was trusted before and no
    longer is has gone from every table, except the protected one, while the
    information of all other peers is as it was. *)
Theorem credential_trust_sound `{om : OrderedMap, !OrderedMapLaws om, tl : TrustLib, pw : ProstWire}
    (s s' : SyncedRouteInfo) (secret : option (list Z)) (active : Z -> bool) (prot : option Z)
    (now : Z) (revoked : gset Z) (keys : gmap (list Z) TrustedKeyMetadata) (ch : bool) :
  verify_and_update_credential_trusts_protecting s secret active prot now = (s', revoked, keys, ch) ->
  let vouched_for := vouched (peer_infos s) (raw_peer_infos s) secret (now / 1000) in
  (forall k c, trusted_credentials s' !! k = Some c -> tc_pubkey c = k /\ vouched_for c) /\
  (forall c, vouched_for c -> is_Some (trusted_credentials s' !! tc_pubkey c)) /\
  (forall k t, keys !! k = Some t ->
     match tk_source t with
     | OspfNode => exists pid info, om_get (peer_infos s) pid = Some info /\
         is_admin_peer info = true /\ noise_static_pubkey info = k
     | OspfCredential => exists c, vouched_for c /\ tc_pubkey c = k /\
         tk_expiry_unix t = Some (tc_expiry_unix c)
     end) /\
  (forall pid, pid ∈ revoked <-> prot <> Some pid /\ exists info,
     om_get (peer_infos s) pid = Some info /\ noise_static_pubkey info <> [] /\ version info <> 0 /\
     is_Some (trusted_credentials s !! noise_static_pubkey info) /\
     trusted_credentials s' !! noise_static_pubkey info = None) /\
  (forall pid, pid ∈ revoked -> forgotten s' pid) /\
  (forall pid, pid ∉ revoked -> om_get (peer_infos s') pid = om_get (peer_infos s) pid).
Proof.
  intros E vouched_for. pose proof (credential_op_spec s secret active prot now) as H.
  unfold collect_trusted_credentials in H. rewrite collect_admins_events in H. cbv zeta in H.
  set (evs := om_iter (peer_infos s) ≫= _) in H.
  destruct (collect_non_reusable_credential_owners _ _ active) as [owners dups].
  rewrite E in H. destruct H as (-> & Htr & _ & _ & Hrev & Hgone & Hkeep).
  assert (forall c, inr c ∈ evs <-> vouched_for c) as Hev by (intros c; apply events_vouched).
  split_and!; try done.
  - intros k c Hk. rewrite Htr in Hk. apply add_trusted_spec in Hk as [Hk|[Hk ->]];
      [by rewrite lookup_empty in Hk|]. split; [done|by apply Hev].
  - intros c Hc. pose proof (vouched_trusted s secret active prot now c Hc) as Ht. by rewrite E in Ht.
  - intros k t Hk. apply add_key_spec in Hk as [Hk|([k'|c] & He & Hk)];
      [by rewrite lookup_empty in Hk|..]; injection Hk as <- <-; cbn.
    + by eapply events_node.
    + exists c. split; [by apply Hev|done].
  - intros pid. rewrite Hrev, Htr.
    assert (forall X : gset Z, pid ∈ match prot with Some p => X ∖ {[p]} | None => X end <->
      prot <> Some pid /\ pid ∈ X) as -> by (intros X; destruct prot; set_solver).
    apply and_iff_compat_l. unfold collect_revoked_credential_peers.
    rewrite elem_of_list_to_set, list_elem_of_omap. split.
    + intros ([p info] & Hin%om_iter_get & Hx). cbn [fst snd] in Hx.
      destruct (is_revoked _ _ info) eqn:Er; [|done]. injection Hx as ->. exists info.
      unfold is_revoked in Er. bools. apply bool_decide_eq_true in H0, H1.
      apply bool_decide_eq_false in H. apply elem_of_dom in H1. by split_and!.
    + intros (info & Hin & Hne & Hv & Hp & Hn). exists (pid, info).
      split; [by apply om_iter_get|]. cbn [fst snd]. unfold is_revoked.
      rewrite bool_decide_false, (proj2 (Z.eqb_neq _ _)), !bool_decide_true; try done.
      by apply elem_of_dom.
Qed.

Lemma surjective_pairings {A B C D} (x : A * B * C * D) : x = (x.1.1.1, x.1.1.2, x.1.2, x.2).
Proof. by destruct x as [[[? ?] ?] ?]. Qed.

Definition verified (active : Z -> bool) :=
  @verify_and_update_credential_trusts_protecting Concrete.omap Concrete.trust Protobuf.wire
    Concrete.network (Some [3]) active None 50000.

Lemma credential_trust_sound_witness :
  trusted_credentials (verified (fun _ => true)).1.1.1 !! [7] = Some Concrete.credential /\
  vouched (om:=Concrete.omap) (tl:=Concrete.trust) (pw:=Protobuf.wire)
    (peer_infos Concrete.network) (raw_peer_infos Concrete.network) (Some [3]) 50 Concrete.credential.
Proof.
  assert (trusted_credentials (verified (fun _ => true)).1.1.1 !! [7] = Some Concrete.credential) as H
    by (vm_compute; reflexivity).
  split; [exact H|].
  destruct (@credential_trust_sound Concrete.omap Concrete.omap_laws Concrete.trust Protobuf.wire
    Concrete.network _ (Some [3]) (fun _ => true) None 50000 _ _ _
    (surjective_pairings (verified (fun _ => true)))) as [Hs _].
  apply (Hs [7] Concrete.credential H).
Defined.

(** One owner per credential.  After the verification, the owner of a
    credential that is not reusable is the active peer of least id among those
    that use it; and the peers kept out of forwarding are exactly the other
    active users of such credentials, the protected peer apart - so that of the
    users of one credential exactly one forwards. *)
Theorem credential_single_owner `{om : OrderedMap, !OrderedMapLaws om, tl : TrustLib, pw : ProstWire}
    (s s' : SyncedRouteInfo) (secret : option (list Z)) (active : Z -> bool) (prot : option Z)
    (now : Z) (revoked : gset Z) (keys : gmap (list Z) TrustedKeyMetadata) (ch : bool) :
  verify_and_update_credential_trusts_protecting s secret active prot now = (s', revoked, keys, ch) ->
  let uses := competes (peer_infos s) (trusted_credentials s') active in
  (forall k o, non_reusable_credential_owners s' !! k = Some o <->
     uses k o /\ forall p, uses k p -> o <= p) /\
  (forall p, p ∈ suppressed_non_reusable_credential_peers s' <->
     prot <> Some p /\ exists k o, uses k p /\
       non_reusable_credential_owners s' !! k = Some o /\ o <> p).
Proof.
  intros E uses. pose proof (credential_op_spec s secret active prot now) as H.
  destruct (collect_trusted_credentials s secret _) as [all keys0].
  pose proof (owners_spec (peer_infos s) all active) as Ho.
  pose proof (duplicates_spec (peer_infos s) all active) as Hd.
  destruct (collect_non_reusable_credential_owners _ all active) as [owners dups]. cbv zeta in H.
  rewrite E in H. destruct H as (_ & Htr & How & Hsu & _). cbn [fst snd] in Ho, Hd.
  unfold uses. rewrite Htr, How, Hsu. split; [exact Ho|].
  intros p. assert (forall X : gset Z, p ∈ match prot with Some q => X ∖ {[q]} | None => X end <->
    prot <> Some p /\ p ∈ X) as -> by (intros X; destruct prot; set_solver).
  apply and_iff_compat_l. rewrite Hd. split.
  - intros (k & o & Hp & Hko & Hlt & Hmin). exists k, o. split_and!; [done| |lia]. by apply Ho.
  - intros (k & o & Hp & [Hko Hmin]%Ho & Hne). exists k, o. split_and!; try done.
    specialize (Hmin p Hp). lia.
Qed.

(** Peer 2 owns the credential and peer 3 does not forward; with peer 2 gone it
    does. *)
Lemma credential_single_owner_witness :
  non_reusable_credential_owners (verified (fun _ => true)).1.1.1 !! [7] = Some 2 /\
  3 ∈ suppressed_non_reusable_credential_peers (verified (fun _ => true)).1.1.1 /\
  non_reusable_credential_owners (verified (Z.eqb 3)).1.1.1 !! [7] = Some 3.
Proof.
  split; [vm_compute; reflexivity|]. split; [|vm_compute; reflexivity].
  destruct (@credential_single_owner Concrete.omap Concrete.omap_laws Concrete.trust Protobuf.wire
    Concrete.network _ (Some [3]) (fun _ => true) None 50000 _ _ _
    (surjective_pairings (verified (fun _ => true)))) as [_ Hs].
  apply Hs. split; [discriminate|]. exists [7], 2. split; [|split; [vm_compute; reflexivity|lia]].
  eexists. split; [vm_compute; reflexivity|vm_compute; reflexivity].
Defined.
