(* ===== verification/CredentialStore.v ===== *)
(** Credentials that a node issues: [peers/credential_manager.rs].

    [CredentialManager] keeps the credentials of the file ([base]), those of the
    configuration ([managed], with a replacement that waits to be installed) and
    those of attached peers ([ephemeral]).  Strings are their UTF-8 bytes.  Each
    method takes the clock readings, the random keys and identifiers it draws and
    whether the storage accepts the write as arguments; a method that fails
    returns before it changes anything, so the new manager comes with [Ok].
    base64, X25519, SHA-256, the CIDR parser and JSON are the class [CredLib]. *)

From stdpp Require Import list gmap sorting.
From S2P Require Import Prelude RouteMessages RouteWire SyncedRoute.
Local Open Scope Z_scope.

#[local] Instance result_bind {E} : MBind (result E) := fun A B f m =>
  match m with Ok a => f a | Err e => Err e end.

(** ** [str::trim]: the characters with the property White_Space *)

Fixpoint utf8_trim_start (s : list Z) : list Z :=
  match s with
  | b :: s1 =>
    if ((9 <=? b) && (b <=? 13)) || (b =? 32) then utf8_trim_start s1 else
    match s1 with
    | b1 :: s2 =>
      if (b =? 194) && ((b1 =? 133) || (b1 =? 160)) then utf8_trim_start s2 else
      match s2 with
      | b2 :: s3 =>
        if (b =? 225) && (b1 =? 154) && (b2 =? 128) ||
           (b =? 226) && (b1 =? 128) &&
             ((128 <=? b2) && (b2 <=? 138) || (b2 =? 168) || (b2 =? 169) || (b2 =? 175)) ||
           (b =? 226) && (b1 =? 129) && (b2 =? 159) ||
           (b =? 227) && (b1 =? 128) && (b2 =? 128)
        then utf8_trim_start s3 else s
      | [] => s
      end
    | [] => s
    end
  | [] => []
  end.

(** The same from the end, on the reversed string. *)
Fixpoint trim_rev (s : list Z) : list Z :=
  match s with
  | b :: s1 =>
    if ((9 <=? b) && (b <=? 13)) || (b =? 32) then trim_rev s1 else
    match s1 with
    | b1 :: s2 =>
      if (b1 =? 194) && ((b =? 133) || (b =? 160)) then trim_rev s2 else
      match s2 with
      | b2 :: s3 =>
        if (b2 =? 225) && (b1 =? 154) && (b =? 128) ||
           (b2 =? 226) && (b1 =? 128) &&
             ((128 <=? b) && (b <=? 138) || (b =? 168) || (b =? 169) || (b =? 175)) ||
           (b2 =? 226) && (b1 =? 129) && (b =? 159) ||
           (b2 =? 227) && (b1 =? 128) && (b =? 128)
        then trim_rev s3 else s
      | [] => s
      end
    | [] => s
    end
  | [] => []
  end.

Definition utf8_trim (s : list Z) : list Z := rev (trim_rev (rev (utf8_trim_start s))).

(** [as i64] and the addition of an [i64] in a release build. *)
Definition to_i64 (z : Z) : Z := let z := wrap 64 z in if z <? 2 ^ 63 then z else z - 2 ^ 64.
Definition I64_MAX : Z := 2 ^ 63 - 1.

(** ** Entries *)

Record CredentialGrant := {
  g_groups : list (list Z); g_allow_relay : bool; g_allowed_proxy_cidrs : list (list Z);
  g_reusable : bool }.
Record CredentialEntry := {
  ce_pubkey : list Z; ce_secret : list Z; ce_grant : CredentialGrant; ce_expiry_unix : Z;
  ce_created_at_unix : Z }.
#[export] Instance CredentialGrant_eq_dec : EqDecision CredentialGrant.
Proof. solve_decision. Defined.
#[export] Instance CredentialEntry_eq_dec : EqDecision CredentialEntry.
Proof. solve_decision. Defined.

Abbreviation Entries := (gmap (list Z) CredentialEntry).

Class CredLib := {
  b64_encode : list Z -> list Z;
  b64_decode : list Z -> option (list Z);
  x25519_public : list Z -> list Z;
  sha256 : list Z -> list Z;
  ip_cidr_ok : list Z -> bool;
  json_print : Entries -> list Z;
  json_parse : list Z -> option Entries }.

(** The standard alphabet with canonical padding, so that a key has one text;
    JSON is read back as it was written. *)
Class CredLaws (cl : CredLib) := {
  b64_decode_encode b : b64_decode (b64_encode b) = Some b;
  b64_encode_decode s b : b64_decode s = Some b -> s = b64_encode b;
  json_round_trip m : json_parse (json_print m) = Some m }.

Record CredentialCreateOptions := {
  co_groups : list (list Z); co_allow_relay : bool; co_allowed_proxy_cidrs : list (list Z);
  co_ttl : Z; co_credential_id : option (list Z); co_reusable : bool }.
Record CredentialUpsertOptions := {
  uo_credential_id : list Z; uo_credential_secret : list Z; uo_groups : list (list Z);
  uo_allow_relay : bool; uo_allowed_proxy_cidrs : list (list Z); uo_expiry_unix : Z;
  uo_reusable : bool }.
Record ManagedCredentialConfig := {
  mc_credential_id : list Z; mc_credential_secret : list Z; mc_groups : list (list Z);
  mc_allow_relay : bool; mc_allowed_proxy_cidrs : list (list Z); mc_expiry_unix : Z;
  mc_reusable : bool }.
Record CredentialInfo := {
  ci_credential_id : list Z; ci_groups : list (list Z); ci_allow_relay : bool; ci_expiry_unix : Z;
  ci_allowed_proxy_cidrs : list (list Z); ci_reusable : option bool;
  ci_public_key_fingerprint : list Z }.
Record GeneratedCredential := {
  gc_credential_id : list Z; gc_secret : list Z; gc_expiry_unix : Z; gc_changed : bool }.

Inductive CredentialError :=
  | StorageUnavailable | StoreFailed
  | ManagedByConfiguration (id : list Z) | OwnedByFile
  | InvalidAllowedProxyCidr (cidr : list Z)
  | PublicKeyRegistered | EmptyId | ExpiryNotInFuture | SecretNotBase64 | SecretNot32Bytes
  | SecretUsed | SecretAssignedTwice | DuplicateManagedId (id : list Z) | ReplacementPending.

Record CredentialState := {
  base : Entries; managed : Entries; pending_managed : option Entries;
  ephemeral : gmap Z CredentialEntry }.
Definition CredentialState_default : CredentialState :=
  {| base := ∅; managed := ∅; pending_managed := None; ephemeral := ∅ |}.

(** [storage] is the snapshot the host keeps, if there is a storage at all. *)
Inductive LoadError := LoadFailed | LoadedNotJson | LoadedInvalid.
Record CredentialManager := {
  cm_state : CredentialState; cm_storage : option (option (list Z));
  cm_storage_load_error : option LoadError }.

Definition with_state (m : CredentialManager) (s : CredentialState) : CredentialManager :=
  {| cm_state := s; cm_storage := cm_storage m; cm_storage_load_error := cm_storage_load_error m |}.
Definition with_base (s : CredentialState) (b : Entries) : CredentialState :=
  {| base := b; managed := managed s; pending_managed := pending_managed s; ephemeral := ephemeral s |}.
Definition with_managed (s : CredentialState) (b : Entries) (p : option Entries) : CredentialState :=
  {| base := base s; managed := b; pending_managed := p; ephemeral := ephemeral s |}.
Definition with_ephemeral (s : CredentialState) (e : gmap Z CredentialEntry) : CredentialState :=
  {| base := base s; managed := managed s; pending_managed := pending_managed s; ephemeral := e |}.

Section manager.
Context {cl : CredLib} {tl : TrustLib}.

(** ** Grants and entries *)

Fixpoint normalize_cidrs (l : list (list Z)) : result CredentialError (list (list Z)) :=
  match l with
  | [] => Ok []
  | cidr :: l =>
    let normalized := utf8_trim cidr in
    if negb (ip_cidr_ok normalized) then Err (InvalidAllowedProxyCidr normalized) else
    l ← normalize_cidrs l; Ok (normalized :: l)
  end.
Definition grant_normalize (g : CredentialGrant) : result CredentialError CredentialGrant :=
  cidrs ← normalize_cidrs (g_allowed_proxy_cidrs g);
  Ok {| g_groups := g_groups g; g_allow_relay := g_allow_relay g; g_allowed_proxy_cidrs := cidrs;
        g_reusable := g_reusable g |}.
Definition CredentialGrant_new (groups : list (list Z)) (allow_relay : bool) (cidrs : list (list Z))
    (reusable : bool) : result CredentialError CredentialGrant :=
  grant_normalize {| g_groups := groups; g_allow_relay := allow_relay; g_allowed_proxy_cidrs := cidrs;
                     g_reusable := reusable |}.
Definition for_attached_peer (groups : list (list Z)) : CredentialGrant :=
  {| g_groups := groups; g_allow_relay := false; g_allowed_proxy_cidrs := []; g_reusable := false |}.

Definition is_active_at (e : CredentialEntry) (now : Z) : bool := now <? ce_expiry_unix e.

Definition decode_pubkey_b64 (s : list Z) : option (list Z) :=
  decoded ← b64_decode s; if len decoded =? 32 then Some decoded else None.
Definition to_trusted_credential (e : CredentialEntry) : option TrustedCredentialPubkey :=
  pubkey ← decode_pubkey_b64 (ce_pubkey e);
  Some {| tc_pubkey := pubkey; tc_groups := g_groups (ce_grant e);
          tc_allow_relay := g_allow_relay (ce_grant e); tc_expiry_unix := ce_expiry_unix e;
          tc_allowed_proxy_cidrs := g_allowed_proxy_cidrs (ce_grant e);
          tc_reusable := Some (g_reusable (ce_grant e)) |}.

(** [format!("{byte:02x}")]. *)
Definition hex_digit (d : Z) : Z := if d <? 10 then 48 + d else 87 + d.
Definition hex_byte (b : Z) : list Z := [hex_digit (b / 16); hex_digit (b mod 16)].
Definition public_key_fingerprint (pubkey : list Z) : option (list Z) :=
  decoded ← decode_pubkey_b64 pubkey; Some (concat (map hex_byte (sha256 decoded))).
Definition to_credential_info (e : CredentialEntry) (credential_id : list Z) : CredentialInfo :=
  {| ci_credential_id := credential_id; ci_groups := g_groups (ce_grant e);
     ci_allow_relay := g_allow_relay (ce_grant e); ci_expiry_unix := ce_expiry_unix e;
     ci_allowed_proxy_cidrs := g_allowed_proxy_cidrs (ce_grant e);
     ci_reusable := Some (g_reusable (ce_grant e));
     ci_public_key_fingerprint := default [] (public_key_fingerprint (ce_pubkey e)) |}.

(** The private key in a [credential_secret]. *)
Definition decode_secret (s : list Z) : result CredentialError (list Z) :=
  match b64_decode (utf8_trim s) with
  | None => Err SecretNotBase64
  | Some b => if len b =? 32 then Ok b else Err SecretNot32Bytes
  end.
Definition entry_of_key (private : list Z) (grant : CredentialGrant) (expiry created : Z) : CredentialEntry :=
  {| ce_pubkey := b64_encode (x25519_public private); ce_secret := b64_encode private;
     ce_grant := grant; ce_expiry_unix := expiry; ce_created_at_unix := created |}.
Definition from_managed (c : ManagedCredentialConfig) : result CredentialError CredentialEntry :=
  private ← decode_secret (mc_credential_secret c);
  grant ← CredentialGrant_new (mc_groups c) (mc_allow_relay c) (mc_allowed_proxy_cidrs c) (mc_reusable c);
  Ok (entry_of_key private grant (mc_expiry_unix c) 0).
Definition build_entry (grant : CredentialGrant) (ttl : Z) (private : list Z) (now : Z) : CredentialEntry :=
  entry_of_key private grant (to_i64 (now + to_i64 ttl)) now.

(** ** Loading and storing *)

Definition CredentialManager_new : CredentialManager :=
  {| cm_state := CredentialState_default; cm_storage := None; cm_storage_load_error := None |}.

Fixpoint normalize_list (l : list (list Z * CredentialEntry))
    : result CredentialError (list (list Z * CredentialEntry)) :=
  match l with
  | [] => Ok []
  | (id, e) :: l =>
    grant ← grant_normalize (ce_grant e);
    l ← normalize_list l;
    Ok ((id, {| ce_pubkey := ce_pubkey e; ce_secret := ce_secret e; ce_grant := grant;
                ce_expiry_unix := ce_expiry_unix e; ce_created_at_unix := ce_created_at_unix e |}) :: l)
  end.
Definition normalize_loaded_entries (m : Entries) : result CredentialError Entries :=
  l ← normalize_list (map_to_list m); Ok (list_to_map l).

(** [readable] is whether the host can read the snapshot. *)
Definition load_entries (snapshot : option (list Z)) (readable : bool) : result LoadError Entries :=
  if negb readable then Err LoadFailed else
  match snapshot with
  | None => Ok ∅
  | Some serialized =>
    match json_parse serialized with
    | None => Err LoadedNotJson
    | Some m => match normalize_loaded_entries m with Ok m => Ok m | Err _ => Err LoadedInvalid end
    end
  end.
Definition from_storage (snapshot : option (list Z)) (readable : bool) : CredentialManager :=
  let '(b, e) := match load_entries snapshot readable with
                 | Ok b => (b, None)
                 | Err e => (∅, Some e)
                 end in
  {| cm_state := with_base CredentialState_default b; cm_storage := Some snapshot;
     cm_storage_load_error := e |}.

Definition ensure_storage_available (m : CredentialManager) : result CredentialError unit :=
  match cm_storage_load_error m with Some _ => Err StorageUnavailable | None => Ok tt end.

(** [store_base] and the assignment to [base] that follows its success. *)
Definition store_base (m : CredentialManager) (b : Entries) (writable : bool)
    : result CredentialError CredentialManager :=
  _ ← ensure_storage_available m;
  match cm_storage m with
  | None => Ok m
  | Some _ =>
    if writable
    then Ok {| cm_state := cm_state m; cm_storage := Some (Some (json_print b));
               cm_storage_load_error := cm_storage_load_error m |}
    else Err StoreFailed
  end.
Definition commit_base (m : CredentialManager) (b : Entries) (writable : bool)
    : result CredentialError CredentialManager :=
  m ← store_base m b writable; Ok (with_state m (with_base (cm_state m) b)).

(** ** Look-ups in the state *)

Definition managed_contains_id (s : CredentialState) (id : list Z) : bool :=
  bool_decide (is_Some (managed s !! id)) ||
  match pending_managed s with Some p => bool_decide (is_Some (p !! id)) | None => false end.
Definition managed_entries (s : CredentialState) : list (list Z * CredentialEntry) :=
  map_to_list (managed s) ++ match pending_managed s with Some p => map_to_list p | None => [] end.
Definition managed_values (s : CredentialState) : list CredentialEntry := (managed_entries s).*2.
Definition map_values {K} `{Countable K} (m : gmap K CredentialEntry) : list CredentialEntry :=
  (map_to_list m).*2.
Definition key_used (k : list Z) (l : list CredentialEntry) : bool :=
  existsb (fun e => bool_decide (ce_pubkey e = k)) l.

(** ** Issuing and revoking *)

(** The loop that draws an identifier: [ids] are the random ones. *)
Fixpoint draw_id (s : CredentialState) (updated : Entries) (ids : list (list Z)) : option (list Z) :=
  match ids with
  | [] => None
  | id :: ids =>
    if negb (bool_decide (is_Some (updated !! id))) && negb (managed_contains_id s id)
    then Some id else draw_id s updated ids
  end.
(** The loop that draws a key pair; [keys] are private keys with the time of each draw. *)
Fixpoint draw_key (s : CredentialState) (updated : Entries) (grant : CredentialGrant) (ttl : Z)
    (keys : list (list Z * Z)) : option CredentialEntry :=
  match keys with
  | [] => None
  | (private, now) :: keys =>
    let generated := build_entry grant ttl private now in
    if key_used (ce_pubkey generated)
         (map_values updated ++ managed_values s ++ map_values (ephemeral s))
    then draw_key s updated grant ttl keys else Some generated
  end.

Definition retain_active (b : Entries) (now : Z) : Entries :=
  filter (fun kv => is_active_at kv.2 now = true) b.

(** The second half of [generate_credential_with_options], once the identifier is
    known.  [None]: the random numbers did not suffice. *)
Definition issue_credential (m : CredentialManager) (updated : Entries) (o : CredentialCreateOptions)
    (id : list Z) (keys : list (list Z * Z)) (writable : bool)
    : option (result CredentialError (CredentialManager * GeneratedCredential)) :=
  match CredentialGrant_new (co_groups o) (co_allow_relay o) (co_allowed_proxy_cidrs o) (co_reusable o) with
  | Err e => Some (Err e)
  | Ok grant =>
    entry ← draw_key (cm_state m) updated grant (co_ttl o) keys;
    Some (m ← commit_base m (<[id := entry]> updated) writable;
          Ok (m, {| gc_credential_id := id; gc_secret := ce_secret entry;
                    gc_expiry_unix := ce_expiry_unix entry; gc_changed := true |}))
  end.
Definition generate_credential_with_options (m : CredentialManager) (o : CredentialCreateOptions)
    (now : Z) (ids : list (list Z)) (keys : list (list Z * Z)) (writable : bool)
    : option (result CredentialError (CredentialManager * GeneratedCredential)) :=
  match ensure_storage_available m with
  | Err e => Some (Err e)
  | Ok _ =>
    let s := cm_state m in
    let updated := retain_active (base s) now in
    match utf8_trim <$> co_credential_id o with
    | Some ((_ :: _) as id) =>
      if managed_contains_id s id then Some (Err (ManagedByConfiguration id)) else
      match updated !! id with
      | Some existing =>
        if negb (bool_decide (ce_secret existing = []))
        then Some (Ok (m, {| gc_credential_id := id; gc_secret := ce_secret existing;
                             gc_expiry_unix := ce_expiry_unix existing; gc_changed := false |}))
        else issue_credential m updated o id keys writable
      | None => issue_credential m updated o id keys writable
      end
    | _ => id ← draw_id s updated ids; issue_credential m updated o id keys writable
    end
  end.

Definition revoke_credential (m : CredentialManager) (id : list Z) (writable : bool)
    : result CredentialError (CredentialManager * bool) :=
  _ ← ensure_storage_available m;
  if negb (bool_decide (is_Some (base (cm_state m) !! id))) then Ok (m, false) else
  m ← commit_base m (delete id (base (cm_state m))) writable; Ok (m, true).

Definition upsert_credential (m : CredentialManager) (o : CredentialUpsertOptions) (now1 now2 : Z)
    (writable : bool) : result CredentialError (CredentialManager * bool) :=
  let id := utf8_trim (uo_credential_id o) in
  if bool_decide (id = []) then Err EmptyId else
  if uo_expiry_unix o <=? now1 then Err ExpiryNotInFuture else
  private ← decode_secret (uo_credential_secret o);
  grant ← CredentialGrant_new (uo_groups o) (uo_allow_relay o) (uo_allowed_proxy_cidrs o) (uo_reusable o);
  let entry := entry_of_key private grant (uo_expiry_unix o) now2 in
  _ ← ensure_storage_available m;
  let s := cm_state m in
  if managed_contains_id s id then Err (ManagedByConfiguration id) else
  if existsb (fun '(existing_id, existing) => negb (bool_decide (existing_id = id)) &&
                bool_decide (ce_pubkey existing = ce_pubkey entry))
       (map_to_list (base s) ++ managed_entries s) then Err SecretUsed else
  if key_used (ce_pubkey entry) (map_values (ephemeral s)) then Err PublicKeyRegistered else
  let changed := match base s !! id with
    | None => true
    | Some existing =>
      negb (bool_decide (ce_secret existing = ce_secret entry)) ||
      negb (bool_decide (ce_pubkey existing = ce_pubkey entry)) ||
      negb (bool_decide (ce_grant existing = ce_grant entry)) ||
      negb (ce_expiry_unix existing =? ce_expiry_unix entry)
    end in
  if negb changed then Ok (m, false) else
  m ← commit_base m (<[id := entry]> (base s)) writable; Ok (m, true).

Definition remove_expired_credentials_at (m : CredentialManager) (now : Z) (writable : bool)
    : CredentialManager * bool :=
  let updated := retain_active (base (cm_state m)) now in
  if bool_decide (updated = base (cm_state m)) then (m, false) else
  match commit_base m updated writable with
  | Err _ => (m, false)
  | Ok m => (m, true)
  end.

(** ** Attached peers *)

(** [id] is the random identifier of the entry. *)
Definition register_ephemeral_credential (m : CredentialManager) (public_key : list Z)
    (groups : list (list Z)) (now id : Z) : result CredentialError (CredentialManager * Z) :=
  let entry := {| ce_pubkey := b64_encode public_key; ce_secret := [];
                  ce_grant := for_attached_peer groups; ce_expiry_unix := I64_MAX;
                  ce_created_at_unix := now |} in
  let s := cm_state m in
  if key_used (ce_pubkey entry) (map_values (base s) ++ managed_values s) ||
     key_used (ce_pubkey entry) (map_values (ephemeral s))
  then Err PublicKeyRegistered
  else Ok (with_state m (with_ephemeral s (<[id := entry]> (ephemeral s))), id).

Definition set_groups (e : CredentialEntry) (groups : list (list Z)) : CredentialEntry :=
  {| ce_pubkey := ce_pubkey e; ce_secret := ce_secret e;
     ce_grant := {| g_groups := groups; g_allow_relay := g_allow_relay (ce_grant e);
                    g_allowed_proxy_cidrs := g_allowed_proxy_cidrs (ce_grant e);
                    g_reusable := g_reusable (ce_grant e) |};
     ce_expiry_unix := ce_expiry_unix e; ce_created_at_unix := ce_created_at_unix e |}.
Definition update_ephemeral_credential_groups (m : CredentialManager) (id : Z) (groups : list (list Z))
    : CredentialManager * option bool :=
  match ephemeral (cm_state m) !! id with
  | None => (m, None)
  | Some credential =>
    if bool_decide (g_groups (ce_grant credential) = groups) then (m, Some false) else
    (with_state m (with_ephemeral (cm_state m)
       (<[id := set_groups credential groups]> (ephemeral (cm_state m)))), Some true)
  end.
Definition revoke_ephemeral_credential (m : CredentialManager) (id : Z) : CredentialManager * bool :=
  (with_state m (with_ephemeral (cm_state m) (delete id (ephemeral (cm_state m)))),
   bool_decide (is_Some (ephemeral (cm_state m) !! id))).

(** ** Credentials of the configuration *)

Fixpoint build_managed_loop (l : list ManagedCredentialConfig) (entries : Entries)
    (public_keys : list (list Z)) : result CredentialError Entries :=
  match l with
  | [] => Ok entries
  | credential :: l =>
    let id := utf8_trim (mc_credential_id credential) in
    if bool_decide (id = []) then Err EmptyId else
    entry ← from_managed credential;
    if bool_decide (ce_pubkey entry ∈ public_keys) then Err SecretAssignedTwice else
    if bool_decide (is_Some (entries !! id)) then Err (DuplicateManagedId id) else
    build_managed_loop l (<[id := entry]> entries) (ce_pubkey entry :: public_keys)
  end.
Definition build_managed_entries (l : list ManagedCredentialConfig) : result CredentialError Entries :=
  build_managed_loop l ∅ [].

Definition validate_managed_conflicts (s : CredentialState) (replacement : Entries)
    : result CredentialError unit :=
  if existsb (fun kv => bool_decide (is_Some (base s !! kv.1))) (map_to_list replacement)
  then Err OwnedByFile else
  if existsb (fun e => key_used (ce_pubkey e) (map_values (base s) ++ map_values (ephemeral s)))
       (map_values replacement)
  then Err PublicKeyRegistered else Ok tt.

Definition install_initial_managed_credentials (m : CredentialManager) (l : list ManagedCredentialConfig)
    : result CredentialError CredentialManager :=
  _ ← ensure_storage_available m;
  replacement ← build_managed_entries l;
  _ ← validate_managed_conflicts (cm_state m) replacement;
  Ok (with_state m (with_managed (cm_state m) replacement (pending_managed (cm_state m)))).

(** The guard that [validate_managed_credentials] returns is its flag [changed]. *)
Definition validate_managed_credentials (m : CredentialManager) (l : list ManagedCredentialConfig)
    : result CredentialError (CredentialManager * bool) :=
  replacement ← build_managed_entries l;
  let s := cm_state m in
  match pending_managed s with
  | Some _ => Err ReplacementPending
  | None =>
    _ ← validate_managed_conflicts s replacement;
    let changed := negb (bool_decide (managed s = replacement)) in
    Ok (if changed then with_state m (with_managed s (managed s) (Some replacement)) else m, changed)
  end.
Definition install_managed_credentials (m : CredentialManager) (changed : bool)
    : comp (CredentialManager * bool) :=
  if negb changed then Ret (m, false) else
  p ← unwrap (pending_managed (cm_state m));
  Ret (with_state m (with_managed (cm_state m) p None), true).
(** [Drop] of a guard that was not installed. *)
Definition drop_replacement (m : CredentialManager) (changed : bool) : CredentialManager :=
  if changed
  then with_state m (with_managed (cm_state m) (managed (cm_state m)) None) else m.

(** ** What is trusted *)

Definition new_signed (c : TrustedCredentialPubkey) (network_secret : list Z) : TrustedCredentialPubkeyProof :=
  {| tp_credential := Some c;
     tp_credential_hmac := hmac_sha256 network_secret (credential_proof_label ++ credential_encode c) |}.
Definition to_proof (network_secret : list Z) (e : CredentialEntry) : option TrustedCredentialPubkeyProof :=
  c ← to_trusted_credential e; Some (new_signed c network_secret).
Definition get_trusted_pubkeys (m : CredentialManager) (network_secret : list Z) (now : Z)
    : list TrustedCredentialPubkeyProof :=
  let s := cm_state m in
  omap (to_proof network_secret)
    (filter (fun e => is_active_at e now = true) (map_values (base s) ++ map_values (managed s))) ++
  omap (to_proof network_secret) (map_values (ephemeral s)).

Definition is_pubkey_trusted (m : CredentialManager) (pubkey : list Z) (now : Z) : bool :=
  let encoded := b64_encode pubkey in
  let s := cm_state m in
  existsb (fun e => bool_decide (ce_pubkey e = encoded) && is_active_at e now)
    (map_values (base s) ++ map_values (managed s)) ||
  key_used encoded (map_values (ephemeral s)).

(** [sort_unstable_by] on identifiers, which differ: [String::cmp] is bytewise. *)
Fixpoint str_leb (a b : list Z) : bool :=
  match a, b with
  | [], _ => true
  | _, [] => false
  | x :: a, y :: b => (x <? y) || (x =? y) && str_leb a b
  end.
Fixpoint insert_info (i : CredentialInfo) (l : list CredentialInfo) : list CredentialInfo :=
  match l with
  | [] => [i]
  | j :: l => if str_leb (ci_credential_id i) (ci_credential_id j) then i :: j :: l else j :: insert_info i l
  end.
Definition list_credentials (m : CredentialManager) (now : Z) : list CredentialInfo :=
  let s := cm_state m in
  foldr insert_info []
    (map (fun kv => to_credential_info kv.2 kv.1)
       (filter (fun kv => is_active_at kv.2 now = true)
          (map_to_list (base s) ++ map_to_list (managed s)))).
End manager.
