(* ===== verification/CredentialStoreProofs.v ===== *)
(** The credential store: its invariant along every history, what a restart
    finds, what is trusted and what other nodes accept. *)

From stdpp Require Import list gmap sorting.
From S2P Require Import Prelude RouteMessages RouteWire SyncedRoute CredentialProofs CredentialStore.
Local Open Scope Z_scope.

(** ** [utf8_trim] *)

Lemma trim_start_suffix s : exists p, s = p ++ utf8_trim_start s.
Proof.
  induction s as [s IH] using (induction_ltof1 _ (@length Z)). unfold ltof in IH.
  destruct s as [|b s1]; [by exists []|]. cbn.
  destruct (_ || (b =? 32)).
  { destruct (IH s1) as [p E]; [cbn; lia|]. exists (b :: p). cbn. by rewrite <- E. }
  destruct s1 as [|b1 s2]; [by exists []|]. destruct (_ && (_ || _)).
  { destruct (IH s2) as [p E]; [cbn; lia|]. exists (b :: b1 :: p). cbn. by rewrite <- E. }
  destruct s2 as [|b2 s3]; [by exists []|]. destruct (_ || _); [|by exists []].
  destruct (IH s3) as [p E]; [cbn; lia|]. exists (b :: b1 :: b2 :: p). cbn. by rewrite <- E.
Qed.

(** Nothing is left to utf8_trim, also from a prefix. *)
Lemma trim_start_idem s : utf8_trim_start (utf8_trim_start s) = utf8_trim_start s.
Proof.
  induction s as [s IH] using (induction_ltof1 _ (@length Z)). unfold ltof in IH.
  destruct s as [|b s1]; [done|]. cbn.
  destruct (_ || (b =? 32)) eqn:E1; [apply IH; cbn; lia|].
  destruct s1 as [|b1 s2]; [cbn; by rewrite E1|]. destruct (_ && (_ || _)) eqn:E2; [apply IH; cbn; lia|].
  destruct s2 as [|b2 s3]; [cbn; by rewrite E1, E2|].
  match goal with |- context [if ?c then utf8_trim_start s3 else _] => destruct c eqn:E3 end; [apply IH; cbn; lia|].
  cbn. by rewrite E1, E2, E3.
Qed.

(** A white-space character at the front. *)
Definition starts_ws (s : list Z) : bool :=
  match s with
  | b :: s1 =>
    (((9 <=? b) && (b <=? 13)) || (b =? 32)) ||
    match s1 with
    | b1 :: s2 =>
      ((b =? 194) && ((b1 =? 133) || (b1 =? 160))) ||
      match s2 with
      | b2 :: s3 =>
        (b =? 225) && (b1 =? 154) && (b2 =? 128) ||
        (b =? 226) && (b1 =? 128) &&
          ((128 <=? b2) && (b2 <=? 138) || (b2 =? 168) || (b2 =? 169) || (b2 =? 175)) ||
        (b =? 226) && (b1 =? 129) && (b2 =? 159) ||
        (b =? 227) && (b1 =? 128) && (b2 =? 128)
      | [] => false
      end
    | [] => false
    end
  | [] => false
  end.

Lemma trim_start_fix s : starts_ws s = false <-> utf8_trim_start s = s.
Proof.
  assert (forall q t, utf8_trim_start t = q ++ t -> q = []) as Hshort.
  { intros q t H. destruct (trim_start_suffix t) as [x E]. destruct q as [|b q]; [done|].
    apply (f_equal length) in E, H. rewrite length_app in E. cbn in H. rewrite length_app in H. lia. }
  destruct s as [|b s1]; [done|]. cbn -[app].
  destruct (_ || (b =? 32)).
  { split; [done|]. intros H. by apply (Hshort [b] s1) in H. }
  destruct s1 as [|b1 s2]; [done|]. destruct ((b =? 194) && _).
  { split; [done|]. intros H. by apply (Hshort [b; b1] s2) in H. }
  destruct s2 as [|b2 s3]; [done|].
  match goal with |- context [if ?c then utf8_trim_start s3 else _] => destruct c end; [|done].
  split; [done|]. intros H. by apply (Hshort [b; b1; b2] s3) in H.
Qed.

Lemma starts_ws_app p s : starts_ws p = true -> starts_ws (p ++ s) = true.
Proof.
  destruct p as [|b [|b1 [|b2 p]]]; cbn; [done|..].
  - by destruct (_ || (b =? 32)).
  - destruct (_ || (b =? 32)); [done|]. by destruct ((b =? 194) && _).
  - done.
Qed.
Lemma trim_start_prefix p s : utf8_trim_start (p ++ s) = p ++ s -> utf8_trim_start p = p.
Proof.
  rewrite <- !trim_start_fix. intros H. destruct (starts_ws p) eqn:E; [|done].
  apply (starts_ws_app _ s) in E. congruence.
Qed.

(** The same from the end. *)
Lemma trim_rev_suffix s : exists p, s = p ++ trim_rev s.
Proof.
  induction s as [s IH] using (induction_ltof1 _ (@length Z)). unfold ltof in IH.
  destruct s as [|b s1]; [by exists []|]. cbn.
  destruct (_ || (b =? 32)).
  { destruct (IH s1) as [p E]; [cbn; lia|]. exists (b :: p). cbn. by rewrite <- E. }
  destruct s1 as [|b1 s2]; [by exists []|]. destruct (_ && (_ || _)).
  { destruct (IH s2) as [p E]; [cbn; lia|]. exists (b :: b1 :: p). cbn. by rewrite <- E. }
  destruct s2 as [|b2 s3]; [by exists []|]. destruct (_ || _); [|by exists []].
  destruct (IH s3) as [p E]; [cbn; lia|]. exists (b :: b1 :: b2 :: p). cbn. by rewrite <- E.
Qed.
Lemma trim_rev_idem s : trim_rev (trim_rev s) = trim_rev s.
Proof.
  induction s as [s IH] using (induction_ltof1 _ (@length Z)). unfold ltof in IH.
  destruct s as [|b s1]; [done|]. cbn.
  destruct (_ || (b =? 32)) eqn:E1; [apply IH; cbn; lia|].
  destruct s1 as [|b1 s2]; [cbn; by rewrite E1|]. destruct (_ && (_ || _)) eqn:E2; [apply IH; cbn; lia|].
  destruct s2 as [|b2 s3]; [cbn; by rewrite E1, E2|].
  match goal with |- context [if ?c then trim_rev s3 else _] => destruct c eqn:E3 end; [apply IH; cbn; lia|].
  cbn. by rewrite E1, E2, E3.
Qed.

Lemma trim_idem s : utf8_trim (utf8_trim s) = utf8_trim s.
Proof.
  unfold utf8_trim at 2 3. set (t := utf8_trim_start s). assert (utf8_trim_start t = t) as Ht by apply trim_start_idem.
  destruct (trim_rev_suffix (rev t)) as [p E].
  assert (t = rev (trim_rev (rev t)) ++ rev p) as Et.
  { rewrite <- rev_app_distr, <- E. by rewrite rev_involutive. }
  set (u := rev (trim_rev (rev t))) in *.
  assert (utf8_trim_start u = u) as Hu by (apply (trim_start_prefix _ (rev p)); by rewrite <- Et).
  unfold utf8_trim. rewrite Hu. unfold u. rewrite rev_involutive, trim_rev_idem. done.
Qed.

(** ** Grants *)

Section grants.
Context {cl : CredLib}.

Definition grant_ok (g : CredentialGrant) : Prop :=
  Forall (fun c => utf8_trim c = c /\ ip_cidr_ok c = true) (g_allowed_proxy_cidrs g).

Lemma normalize_cidrs_ok l l' : normalize_cidrs l = Ok l' ->
  l' = map utf8_trim l /\ Forall (fun c => utf8_trim c = c /\ ip_cidr_ok c = true) l'.
Proof.
  revert l'. induction l as [|c l IH]; intros l'; cbn; [by intros [= <-]|].
  destruct (ip_cidr_ok (utf8_trim c)) eqn:Ec; [|done]. cbn [negb].
  destruct (normalize_cidrs l) as [l1|]; [|done]. cbn. intros [= <-].
  destruct (IH l1 eq_refl) as [-> Hl]. split; [done|]. constructor; [|done]. by rewrite trim_idem.
Qed.
Lemma normalize_cidrs_fix l : Forall (fun c => utf8_trim c = c /\ ip_cidr_ok c = true) l -> normalize_cidrs l = Ok l.
Proof. induction 1 as [|c l [Ht Hc] _ IH]; cbn; [done|]. rewrite Ht, Hc. cbn. by rewrite IH. Qed.

Lemma grant_normalize_ok g g' : grant_normalize g = Ok g' -> grant_ok g'.
Proof.
  unfold grant_normalize. destruct (normalize_cidrs _) as [l|] eqn:E; [|done]. cbn. intros [= <-].
  by apply normalize_cidrs_ok in E as [_ ?].
Qed.
Lemma grant_normalize_fix g : grant_ok g -> grant_normalize g = Ok g.
Proof. intros H. unfold grant_normalize. rewrite normalize_cidrs_fix by done. by destruct g. Qed.

(** The key of an entry belongs to its secret. *)
Definition key_ok (e : CredentialEntry) : Prop :=
  ce_secret e <> [] ->
  exists private, length private = 32%nat /\ ce_secret e = b64_encode private /\
    ce_pubkey e = b64_encode (x25519_public private).
Definition entry_ok (e : CredentialEntry) : Prop := grant_ok (ce_grant e) /\ key_ok e.

Lemma entry_of_key_ok private g exp created :
  length private = 32%nat -> grant_ok g -> entry_ok (entry_of_key private g exp created).
Proof. intros Hl Hg. split; [done|]. intros _. by exists private. Qed.

Lemma decode_secret_len s k : decode_secret s = Ok k -> length k = 32%nat.
Proof.
  unfold decode_secret. destruct (b64_decode _) as [b|]; [|done]. destruct (len b =? 32) eqn:E; [|done].
  intros [= <-]. bools. unfold len in *. lia.
Qed.

(** Normalising entries that are in order changes nothing. *)
Lemma normalize_list_fix l : Forall (fun kv => grant_ok (ce_grant kv.2)) l -> normalize_list l = Ok l.
Proof.
  induction 1 as [|[id e] l Hg _ IH]; cbn [normalize_list]; [done|].
  rewrite grant_normalize_fix by done. cbn. rewrite IH. cbn. by destruct e.
Qed.
Lemma normalize_loaded_fix (m : Entries) : map_Forall (fun _ e => grant_ok (ce_grant e)) m ->
  normalize_loaded_entries m = Ok m.
Proof.
  intros H. unfold normalize_loaded_entries. rewrite normalize_list_fix.
  - cbn. by rewrite list_to_map_to_list.
  - apply Forall_forall. intros [id e] He%elem_of_map_to_list. by apply (H id e).
Qed.
End grants.

(** ** The invariant *)

(** Where an entry is kept. *)
Inductive place := PBase (id : list Z) | PManaged (id : list Z) | PPending (id : list Z) | PEphemeral (id : Z).
Definition entry_at (s : CredentialState) (p : place) : option CredentialEntry :=
  match p with
  | PBase id => base s !! id
  | PManaged id => managed s !! id
  | PPending id => m ← pending_managed s; m !! id
  | PEphemeral id => ephemeral s !! id
  end.
(** A replacement may take over keys of the credentials it replaces. *)
Definition may_share (p q : place) : Prop :=
  match p, q with PManaged _, PPending _ | PPending _, PManaged _ => True | _, _ => False end.

Record state_ok {cl : CredLib} (s : CredentialState) : Prop := {
  so_keys p q e f : entry_at s p = Some e -> entry_at s q = Some f -> ce_pubkey e = ce_pubkey f ->
    p = q \/ may_share p q;
  so_ids id : is_Some (base s !! id) -> managed s !! id = None /\ entry_at s (PPending id) = None;
  so_entries p e : entry_at s p = Some e -> entry_ok e }.

(** What a restart finds is what the manager holds, unless it could not read it. *)
Definition snapshot_ok {cl : CredLib} (snapshot : option (list Z)) : Prop :=
  forall b, load_entries snapshot true = Ok b -> state_ok (with_base CredentialState_default b).
Record manager_ok {cl : CredLib} (m : CredentialManager) : Prop := {
  mo_state : state_ok (cm_state m);
  mo_failed : cm_storage_load_error m <> None -> base (cm_state m) = ∅;
  mo_stored snapshot : cm_storage m = Some snapshot -> snapshot_ok snapshot /\
    (cm_storage_load_error m = None -> load_entries snapshot true = Ok (base (cm_state m))) }.

Section invariant.
Context {cl : CredLib} {Hcl : CredLaws cl}.

(** Entries stay, change other fields, or go. *)
Lemma state_ok_sub s s' : state_ok s ->
  (forall p e, entry_at s' p = Some e -> entry_ok e /\ exists e', entry_at s p = Some e' /\ ce_pubkey e = ce_pubkey e') ->
  state_ok s'.
Proof using.
  intros [Hk Hi He] Hsub. split.
  - intros p q e f Hp Hq Hef. destruct (Hsub p e Hp) as (_ & e' & Hp' & Ee).
    destruct (Hsub q f Hq) as (_ & f' & Hq' & Ef). eapply Hk; [done|done|congruence].
  - intros id [e Hb]. destruct (Hsub (PBase id) e Hb) as (_ & e' & Hb' & _).
    destruct (Hi id (mk_is_Some _ _ Hb')) as [Hm Hp]. split.
    + destruct (managed s' !! id) as [f|] eqn:E; [|done].
      destruct (Hsub (PManaged id) f E) as (_ & f' & Hf & _). cbn in Hf. congruence.
    + destruct (entry_at s' (PPending id)) as [f|] eqn:E; [|done].
      destruct (Hsub (PPending id) f E) as (_ & f' & Hf & _). congruence.
  - intros p e Hp. by destruct (Hsub p e Hp).
Qed.

(** One entry is added or replaced. *)
Lemma state_ok_add s s' p0 e0 : state_ok s -> entry_ok e0 ->
  (forall p e, entry_at s' p = Some e -> (p = p0 /\ e = e0) \/ (p <> p0 /\ entry_at s p = Some e)) ->
  (forall p e, p <> p0 -> entry_at s p = Some e -> ce_pubkey e <> ce_pubkey e0) ->
  (forall id, p0 = PBase id -> managed s !! id = None /\ entry_at s (PPending id) = None) ->
  (forall id, p0 <> PManaged id /\ p0 <> PPending id) ->
  state_ok s'.
Proof using.
  intros [Hk Hi He] He0 Hadd Hfresh Hid Hplace. split.
  - intros p q e f Hp Hq Hef.
    destruct (Hadd p e Hp) as [[-> ->]|[Hnp Hp']], (Hadd q f Hq) as [[-> ->]|[Hnq Hq']].
    + by left.
    + by destruct (Hfresh q f Hnq Hq').
    + by destruct (Hfresh p e Hnp Hp').
    + by eapply Hk.
  - intros id [e Hb].
    assert (managed s !! id = None /\ entry_at s (PPending id) = None) as [Hm Hp].
    { destruct (Hadd (PBase id) e Hb) as [[E _]|[_ Hb']]; [by apply Hid|]. apply Hi. by exists e. }
    destruct (Hplace id) as [Hp1 Hp2]. split.
    + destruct (managed s' !! id) as [f|] eqn:E; [|done].
      destruct (Hadd (PManaged id) f E) as [[? _]|[_ Hf]]; [congruence|]. cbn in Hf. congruence.
    + destruct (entry_at s' (PPending id)) as [f|] eqn:E; [|done].
      destruct (Hadd (PPending id) f E) as [[? _]|[_ Hf]]; congruence.
  - intros p e Hp. destruct (Hadd p e Hp) as [[-> ->]|[_ ?]]; [done|by eapply He].
Qed.

Lemma elem_map_values {K} `{Countable K} (m : gmap K CredentialEntry) e :
  e ∈ map_values m <-> exists k, m !! k = Some e.
Proof using.
  unfold map_values. rewrite list_elem_of_fmap. split.
  - intros ([k e'] & -> & Hk%elem_of_map_to_list). by exists k.
  - intros [k Hk]. exists (k, e). split; [done|]. by apply elem_of_map_to_list.
Qed.
Lemma key_used_false k l : key_used k l = false <-> forall e, e ∈ l -> ce_pubkey e <> k.
Proof using.
  unfold key_used. rewrite <- not_true_iff_false, existsb_exists. split.
  - intros H e He E. apply H. exists e. split; [by apply list_elem_of_In|]. by apply bool_decide_eq_true.
  - intros H (e & He & E%bool_decide_eq_true). apply (H e); [by apply list_elem_of_In|done].
Qed.
Lemma key_used_true k l : key_used k l = true <-> exists e, e ∈ l /\ ce_pubkey e = k.
Proof using.
  unfold key_used. rewrite existsb_exists. split; intros (e & He & E); exists e;
    (split; [by apply list_elem_of_In|]); [by apply bool_decide_eq_true in E|by apply bool_decide_eq_true].
Qed.
Lemma elem_managed_entries s id e : (id, e) ∈ managed_entries s <->
  entry_at s (PManaged id) = Some e \/ entry_at s (PPending id) = Some e.
Proof using.
  unfold managed_entries. rewrite elem_of_app, elem_of_map_to_list. cbn.
  destruct (pending_managed s) as [p|]; cbn; [by rewrite elem_of_map_to_list|].
  rewrite elem_of_nil. split; (intros [?|?]; [by left|done]).
Qed.
Lemma elem_managed_values s e : e ∈ managed_values s <->
  exists id, entry_at s (PManaged id) = Some e \/ entry_at s (PPending id) = Some e.
Proof using.
  unfold managed_values. rewrite list_elem_of_fmap. split.
  - intros ([id e'] & -> & H%elem_managed_entries). by exists id.
  - intros [id H]. exists (id, e). split; [done|]. by apply elem_managed_entries.
Qed.
Lemma managed_contains_false s id : managed_contains_id s id = false <->
  managed s !! id = None /\ entry_at s (PPending id) = None.
Proof using.
  unfold managed_contains_id. cbn. rewrite orb_false_iff, bool_decide_eq_false, <- eq_None_not_Some.
  destruct (pending_managed s) as [p|]; cbn; [|by split; intros [? _]].
  by rewrite bool_decide_eq_false, <- eq_None_not_Some.
Qed.

(** ** Every operation keeps it *)

Lemma state_ok_base_only s : state_ok s -> state_ok (with_base CredentialState_default (base s)).
Proof using.
  intros H. apply (state_ok_sub s); [done|]. intros [id|id|id|id] e; cbn; try (by rewrite lookup_empty); try done.
  intros Hb. split; [by apply (so_entries s H (PBase id))|]. by exists e.
Qed.

Lemma load_printed b : state_ok (with_base CredentialState_default b) -> load_entries (Some (json_print b)) true = Ok b.
Proof using Hcl.
  intros H. unfold load_entries. cbn [negb]. rewrite json_round_trip, normalize_loaded_fix; [done|].
  intros id e He. by apply (so_entries _ H (PBase id) e).
Qed.

Lemma commit_base_ok m b w m' : commit_base m b w = Ok m' -> manager_ok m ->
  state_ok (with_base (cm_state m) b) -> manager_ok m'.
Proof using Hcl.
  unfold commit_base, store_base, ensure_storage_available. intros Hc [Hs Hf Hst] Hb.
  destruct (cm_storage_load_error m) eqn:El; [done|]. cbn in Hc.
  pose proof (state_ok_base_only _ Hb) as Hb0. cbn in Hb0.
  destruct (cm_storage m) as [snap|] eqn:Es; [destruct w; [|done]|]; cbn in Hc; injection Hc as <-;
    (split; [done|cbn; congruence|]); cbn [cm_storage cm_storage_load_error cm_state with_state with_base base].
  - intros snapshot [= <-]. rewrite load_printed by done. split; [|done].
    intros b' Hl. rewrite load_printed in Hl by done. by injection Hl as <-.
  - congruence.
Qed.

Lemma commit_base_state m b w m' : commit_base m b w = Ok m' -> cm_state m' = with_base (cm_state m) b.
Proof using.
  unfold commit_base, store_base. destruct (ensure_storage_available m); [|done]. cbn.
  destruct (cm_storage m); [destruct w; [|done]|]; cbn; intros [= <-]; done.
Qed.

(** The base keeps some of its entries. *)
Lemma base_sub_ok s b : state_ok s -> b ⊆ base s -> state_ok (with_base s b).
Proof using.
  intros H Hsub. apply (state_ok_sub s); [done|]. intros [id|id|id|id] e; cbn; intros He.
  - assert (base s !! id = Some e) as He' by (by eapply lookup_weaken).
    split; [by apply (so_entries s H (PBase id))|]. by exists e.
  - split; [by apply (so_entries s H (PManaged id))|]. by exists e.
  - split; [by apply (so_entries s H (PPending id))|]. by exists e.
  - split; [by apply (so_entries s H (PEphemeral id))|]. by exists e.
Qed.

(** Some entries of the base stay and one is set. *)
Lemma base_insert_ok s b id e0 : state_ok s -> b ⊆ base s -> entry_ok e0 ->
  managed_contains_id s id = false ->
  (forall p e, p <> PBase id -> entry_at (with_base s b) p = Some e -> ce_pubkey e <> ce_pubkey e0) ->
  state_ok (with_base s (<[id := e0]> b)).
Proof using.
  intros H Hsub He0 Hid Hfresh. apply managed_contains_false in Hid.
  apply (state_ok_add (with_base s b) _ (PBase id) e0); [by apply base_sub_ok|done| |done| |done].
  - intros [id'|id'|id'|id'] e; cbn; intros He; try (right; by split).
    apply lookup_insert_Some in He as [[<- <-]|[Hne He]]; [by left|]. right. split; [congruence|done].
  - intros id' [= <-]. exact Hid.
Qed.

Lemma retain_active_sub b now : retain_active b now ⊆ b.
Proof using. apply map_filter_subseteq. Qed.

Lemma draw_key_ok s updated grant ttl keys e : grant_ok grant -> Forall (fun k => length k.1 = 32%nat) keys ->
  draw_key s updated grant ttl keys = Some e -> entry_ok e /\
  key_used (ce_pubkey e) (map_values updated ++ managed_values s ++ map_values (ephemeral s)) = false.
Proof using.
  intros Hg. induction 1 as [|[k t] keys Hk _ IH]; cbn [draw_key]; [done|].
  destruct (key_used (ce_pubkey (build_entry _ _ _ _)) _) eqn:E; [exact IH|]. intros [= <-]. split; [|done]. by apply entry_of_key_ok.
Qed.

Lemma issue_ok m o b id keys w m' g :
  Forall (fun k => length k.1 = 32%nat) keys -> managed_contains_id (cm_state m) id = false ->
  b ⊆ base (cm_state m) ->
  issue_credential m b o id keys w = Some (Ok (m', g)) -> manager_ok m -> manager_ok m'.
Proof using Hcl.
  intros Hkeys Hid Hb Hgen Hm. unfold issue_credential in Hgen.
  destruct (CredentialGrant_new _ _ _ _) as [grant|] eqn:Eg; [|done].
  apply grant_normalize_ok in Eg. destruct (draw_key _ _ _ _ _) as [e|] eqn:Ek; [|done]. cbn in Hgen.
  destruct (draw_key_ok _ _ _ _ _ _ Eg Hkeys Ek) as [He Hfresh].
  destruct (commit_base _ _ _) as [m1|] eqn:Ec; [|done]. cbn in Hgen. injection Hgen as -> _.
  eapply commit_base_ok; [done|done|]. rewrite key_used_false in Hfresh.
  apply base_insert_ok; [apply Hm|done|done|done|].
  intros p f _ Hp. apply Hfresh. rewrite !elem_of_app, !elem_map_values, elem_managed_values.
  destruct p as [i|i|i|i]; cbn in Hp;
    [left; eauto|right; left; exists i; by left|right; left; exists i; by right|right; right; eauto].
Qed.

Lemma draw_id_fresh s b ids id : draw_id s b ids = Some id -> b !! id = None /\ managed_contains_id s id = false.
Proof using.
  induction ids as [|i ids IH]; cbn [draw_id]; [done|].
  destruct (negb _ && negb _) eqn:E; [|exact IH]. intros [= <-]. apply andb_true_iff in E as [E1 E2].
  apply negb_true_iff in E1, E2. split; [|done]. by apply bool_decide_eq_false, eq_None_not_Some in E1.
Qed.

Lemma generate_ok m o now ids keys w m' g :
  Forall (fun k => length k.1 = 32%nat) keys ->
  generate_credential_with_options m o now ids keys w = Some (Ok (m', g)) -> manager_ok m -> manager_ok m'.
Proof using Hcl.
  intros Hkeys Hgen Hm. unfold generate_credential_with_options in Hgen.
  destruct (ensure_storage_available m); [|done]. cbn zeta in Hgen.
  pose proof (retain_active_sub (base (cm_state m)) now) as Hsub.
  set (b := retain_active _ _) in *.
  assert ((id ← draw_id (cm_state m) b ids; issue_credential m b o id keys w) = Some (Ok (m', g)) ->
          manager_ok m') as Hdraw.
  { destruct (draw_id _ _ _) as [id|] eqn:Ed; [|done]. cbn. apply draw_id_fresh in Ed as [_ Ed].
    intros Hi. by eapply issue_ok. }
  destruct (utf8_trim <$> co_credential_id o) as [[|c id]|]; [by apply Hdraw| |by apply Hdraw].
  destruct (managed_contains_id _ _) eqn:Eid; [done|].
  destruct (b !! (c :: id)) as [e|]; [destruct (negb _)|].
  - by injection Hgen as -> _.
  - by eapply issue_ok.
  - by eapply issue_ok.
Qed.

Lemma revoke_ok m id w m' r : revoke_credential m id w = Ok (m', r) -> manager_ok m -> manager_ok m'.
Proof using Hcl.
  unfold revoke_credential. destruct (ensure_storage_available m); [|done]. cbn.
  destruct (negb _); [by intros [= -> _]|]. destruct (commit_base _ _ _) as [m1|] eqn:Ec; [|done]. cbn.
  intros [= -> _] Hm. eapply commit_base_ok; [done|done|]. apply base_sub_ok; [apply Hm|apply delete_subseteq].
Qed.

Lemma expire_ok m now w : manager_ok m -> manager_ok (remove_expired_credentials_at m now w).1.
Proof using Hcl.
  intros Hm. unfold remove_expired_credentials_at. destruct (bool_decide _); [done|].
  destruct (commit_base _ _ _) as [m1|] eqn:Ec; [|done]. cbn.
  eapply commit_base_ok; [done|done|]. apply base_sub_ok; [apply Hm|apply retain_active_sub].
Qed.

Lemma upsert_ok m o n1 n2 w m' r : upsert_credential m o n1 n2 w = Ok (m', r) -> manager_ok m -> manager_ok m'.
Proof using Hcl.
  unfold upsert_credential. intros H Hm. destruct (bool_decide (_ = [])); [done|].
  destruct (_ <=? _); [done|]. destruct (decode_secret _) as [k|] eqn:Ek; [|done]. cbn [mbind result_bind] in H.
  destruct (CredentialGrant_new _ _ _ _) as [grant|] eqn:Eg; [|done]. cbn [mbind result_bind] in H.
  apply grant_normalize_ok in Eg. apply decode_secret_len in Ek.
  destruct (ensure_storage_available m); [|done]. cbn [mbind result_bind] in H.
  destruct (managed_contains_id _ _) eqn:Eid; [done|].
  destruct (existsb _ _) eqn:Eu; [done|]. destruct (key_used _ _) eqn:Ee; [done|].
  destruct (negb _); [by injection H as -> _|].
  destruct (commit_base _ _ _) as [m1|] eqn:Ec; [|done]. cbn [mbind result_bind] in H. injection H as -> _.
  eapply commit_base_ok; [done|done|]. set (id := utf8_trim _) in *. set (e0 := entry_of_key _ _ _ _) in *.
  apply base_insert_ok; [apply Hm|done|by apply entry_of_key_ok|done|].
  assert (forall i f, i <> id -> (i, f) ∈ map_to_list (base (cm_state m)) ++ managed_entries (cm_state m) ->
          ce_pubkey f <> ce_pubkey e0) as Hother.
  { intros i f Hi Hf E. apply not_true_iff_false in Eu. apply Eu, existsb_exists. exists (i, f).
    split; [by apply list_elem_of_In|]. cbn. rewrite bool_decide_eq_false_2 by done. by apply bool_decide_eq_true. }
  apply managed_contains_false in Eid as [Em Ep].
  intros [i|i|i|i] f Hne Hf; cbn [entry_at with_base base] in Hf.
  - apply (Hother i); [congruence|]. apply elem_of_app. left. by apply elem_of_map_to_list.
  - apply (Hother i); [intros ->; cbn in Hf; congruence|]. apply elem_of_app. right. apply elem_managed_entries. by left.
  - apply (Hother i); [intros ->; cbn in Hf, Ep; congruence|]. apply elem_of_app. right. apply elem_managed_entries. by right.
  - rewrite key_used_false in Ee. apply Ee, elem_map_values. by exists i.
Qed.

(** *** Attached peers *)

Lemma register_ok m pk groups now id m' r :
  register_ephemeral_credential m pk groups now id = Ok (m', r) -> manager_ok m -> manager_ok m'.
Proof using.
  unfold register_ephemeral_credential. set (e0 := {| ce_pubkey := _ |}). intros H [Hs Hf Hst].
  destruct (_ || _) eqn:E; [done|]. injection H as <- _. apply orb_false_iff in E as [E1 E2].
  rewrite key_used_false in E1, E2. split; [|done|done]. cbn [cm_state with_state].
  apply (state_ok_add (cm_state m) _ (PEphemeral id) e0); [done|split; [by constructor|intros Hne; by destruct Hne]| | |done|done].
  - intros [i|i|i|i] f; cbn; intros Hi; try (right; by split).
    apply lookup_insert_Some in Hi as [[<- <-]|[Hne Hi]]; [by left|]. right. split; [congruence|done].
  - intros [i|i|i|i] f _ Hp; cbn [entry_at] in Hp.
    + apply E1, elem_of_app. left. apply elem_map_values. by exists i.
    + apply E1, elem_of_app. right. apply elem_managed_values. exists i. by left.
    + apply E1, elem_of_app. right. apply elem_managed_values. exists i. by right.
    + apply E2, elem_map_values. by exists i.
Qed.

Lemma ephemeral_sub_ok m eph : manager_ok m ->
  (forall id e, eph !! id = Some e -> entry_ok e /\
     exists e', ephemeral (cm_state m) !! id = Some e' /\ ce_pubkey e = ce_pubkey e') ->
  manager_ok (with_state m (with_ephemeral (cm_state m) eph)).
Proof using.
  intros [Hs Hf Hst] Heph. split; [|done|done]. cbn [cm_state with_state].
  apply (state_ok_sub (cm_state m)); [done|]. intros [i|i|i|i] e He; cbn in He.
  - split; [by apply (so_entries _ Hs (PBase i))|]. by exists e.
  - split; [by apply (so_entries _ Hs (PManaged i))|]. by exists e.
  - split; [by apply (so_entries _ Hs (PPending i))|]. by exists e.
  - by apply Heph.
Qed.
Lemma update_groups_ok m id groups : manager_ok m -> manager_ok (update_ephemeral_credential_groups m id groups).1.
Proof using.
  intros Hm. unfold update_ephemeral_credential_groups. destruct (_ !! id) as [c|] eqn:E; [|done].
  destruct (bool_decide _); [done|]. apply ephemeral_sub_ok; [done|]. intros i e Hi.
  apply lookup_insert_Some in Hi as [[<- <-]|[_ Hi]].
  - split; [|by exists c]. apply (so_entries _ (mo_state _ Hm) (PEphemeral id) c E).
  - split; [by apply (so_entries _ (mo_state _ Hm) (PEphemeral i))|]. by exists e.
Qed.
Lemma revoke_ephemeral_ok m id : manager_ok m -> manager_ok (revoke_ephemeral_credential m id).1.
Proof using.
  intros Hm. apply ephemeral_sub_ok; [done|]. intros i e [_ Hi]%lookup_delete_Some.
  split; [by apply (so_entries _ (mo_state _ Hm) (PEphemeral i))|]. by exists e.
Qed.

(** *** Credentials of the configuration *)

Definition replacement_ok (r : Entries) : Prop :=
  (forall id e, r !! id = Some e -> entry_ok e) /\
  (forall i j e f, r !! i = Some e -> r !! j = Some f -> ce_pubkey e = ce_pubkey f -> i = j).

Lemma build_managed_loop_ok l : forall m keys r, build_managed_loop l m keys = Ok r ->
  replacement_ok m -> (forall id e, m !! id = Some e -> ce_pubkey e ∈ keys) -> replacement_ok r.
Proof using.
  induction l as [|c l IH]; intros m keys r; cbn [build_managed_loop]; [by intros [= <-]|].
  destruct (bool_decide (_ = [])); [done|].
  destruct (from_managed c) as [e|] eqn:Ee; [|done]. cbn [mbind result_bind].
  case_bool_decide as Hk; [done|]. case_bool_decide as Hid; [done|]. intros Hr [Hm1 Hm2] Hkeys.
  assert (entry_ok e) as He.
  { unfold from_managed in Ee. destruct (decode_secret _) as [k|] eqn:Ek; [|done]. cbn [mbind result_bind] in Ee.
    destruct (CredentialGrant_new _ _ _ _) as [g|] eqn:Eg; [|done]. injection Ee as <-.
    apply entry_of_key_ok; [by eapply decode_secret_len|by eapply grant_normalize_ok]. }
  apply (IH _ _ _ Hr).
  - split.
    + intros i f [[_ <-]|[_ Hf]]%lookup_insert_Some; [done|by eapply Hm1].
    + intros i j f g [[<- <-]|[Hi Hf]]%lookup_insert_Some [[<- <-]|[Hj Hg]]%lookup_insert_Some E; [done|..].
      * destruct Hk. rewrite E. by eapply Hkeys.
      * destruct Hk. rewrite <- E. by eapply Hkeys.
      * by eapply Hm2.
  - intros i f [[<- <-]|[_ Hf]]%lookup_insert_Some; apply elem_of_cons; [by left|right; by eapply Hkeys].
Qed.
Lemma build_managed_ok l r : build_managed_entries l = Ok r -> replacement_ok r.
Proof using.
  intros H. apply (build_managed_loop_ok _ _ _ _ H); [split|]; intros *; by rewrite lookup_empty.
Qed.

Definition no_conflict (s : CredentialState) (r : Entries) : Prop :=
  forall id e, r !! id = Some e -> base s !! id = None /\
    (forall i f, base s !! i = Some f -> ce_pubkey f <> ce_pubkey e) /\
    (forall i f, ephemeral s !! i = Some f -> ce_pubkey f <> ce_pubkey e).
Lemma validate_conflicts_ok s r : validate_managed_conflicts s r = Ok tt -> no_conflict s r.
Proof using.
  unfold validate_managed_conflicts. destruct (existsb _ _) eqn:E1; [done|]. destruct (existsb _ (map_values r)) eqn:E2; [done|].
  intros _ id e He. apply not_true_iff_false in E1, E2. rewrite existsb_exists in E1, E2.
  assert (key_used (ce_pubkey e) (map_values (base s) ++ map_values (ephemeral s)) = false) as Hk.
  { apply not_true_iff_false. intros Hk. apply E2. exists e. split; [|done].
    apply list_elem_of_In, elem_map_values. by exists id. }
  rewrite key_used_false in Hk. split_and!.
  - apply eq_None_not_Some. intros Hb. apply E1. exists (id, e). split; [|by apply bool_decide_eq_true].
    by apply list_elem_of_In, elem_of_map_to_list.
  - intros i f Hf. apply Hk, elem_of_app. left. apply elem_map_values. by exists i.
  - intros i f Hf. apply Hk, elem_of_app. right. apply elem_map_values. by exists i.
Qed.

(** A replacement becomes the configured or the waiting entries. *)
Lemma replaced_ok s s' r (place_of : list Z -> place) :
  (forall id, place_of id = PManaged id) \/ (forall id, place_of id = PPending id) ->
  state_ok s -> replacement_ok r -> no_conflict s r ->
  (forall p e, entry_at s' p = Some e ->
     (exists id, p = place_of id /\ r !! id = Some e) \/ ((forall id, p <> place_of id) /\ entry_at s p = Some e)) ->
  state_ok s'.
Proof using.
  intros Hkind [Hk Hi He] [Hr1 Hr2] Hno Hnew.
  assert (forall id e q f, r !! id = Some e -> (forall i, q <> place_of i) -> entry_at s q = Some f ->
          ce_pubkey e = ce_pubkey f -> may_share (place_of id) q /\ may_share q (place_of id)) as Hmix.
  { intros id e q f Hid Hq Hf E. destruct (Hno id e Hid) as (_ & Hb & Hp).
    destruct q as [i|i|i|i]; cbn in Hf.
    - by destruct (Hb i f Hf).
    - destruct Hkind as [Hkd|Hkd]; rewrite Hkd; [by destruct (Hq i)|done].
    - destruct Hkind as [Hkd|Hkd]; rewrite Hkd; [done|by destruct (Hq i)].
    - by destruct (Hp i f Hf). }
  split.
  - intros p q e f Hp Hq E.
    destruct (Hnew p e Hp) as [(i & -> & Hie)|[Hnp Hpe]], (Hnew q f Hq) as [(j & -> & Hjf)|[Hnq Hqf]].
    + left. f_equal. by eapply Hr2.
    + right. by eapply Hmix.
    + right. eapply Hmix; [exact Hjf|done|exact Hpe|by symmetry].
    + by eapply Hk.
  - intros id [e Hb]. destruct (Hnew (PBase id) e Hb) as [(i & E & _)|[_ Hbe]].
    { destruct Hkind as [Hkd|Hkd]; rewrite Hkd in E; done. }
    destruct (Hi id (mk_is_Some _ _ Hbe)) as [Hm Hp].
    assert (forall p f, p = PManaged id \/ p = PPending id -> entry_at s' p <> Some f) as Hnone.
    { intros p f Hpp Hf. destruct (Hnew p f Hf) as [(i & -> & Hif)|[_ Hpf]].
      - assert (i = id) as -> by (destruct Hkind as [Hkd|Hkd], Hpp as [Hpp|Hpp]; rewrite Hkd in Hpp; congruence).
        destruct (Hno id f Hif) as [Hbn _]. cbn in Hbe. congruence.
      - destruct Hpp as [->| ->]; [cbn in Hpf|]; congruence. }
    split.
    + destruct (managed s' !! id) as [f|] eqn:E; [|done]. by destruct (Hnone (PManaged id) f (or_introl eq_refl)).
    + destruct (entry_at s' (PPending id)) as [f|] eqn:E; [|done]. by destruct (Hnone (PPending id) f (or_intror eq_refl)).
  - intros p e Hp. destruct (Hnew p e Hp) as [(i & _ & Hie)|[_ Hpe]]; [by eapply Hr1|by eapply He].
Qed.

Lemma install_initial_ok m l m' : install_initial_managed_credentials m l = Ok m' -> manager_ok m -> manager_ok m'.
Proof using.
  unfold install_initial_managed_credentials. destruct (ensure_storage_available m); [|done]. cbn [mbind result_bind].
  destruct (build_managed_entries l) as [r|] eqn:Er; [|done]. cbn [mbind result_bind].
  destruct (validate_managed_conflicts _ _) as [[]|] eqn:Ev; [|done]. cbn [mbind result_bind]. intros [= <-] [Hs Hf Hst].
  split; [|done|done]. apply (replaced_ok (cm_state m) _ r PManaged); [by left|done|by eapply build_managed_ok|by apply validate_conflicts_ok|].
  intros [i|i|i|i] e; cbn; intros He; [by right|left; by exists i|by right|by right].
Qed.

Lemma validate_ok m l m' c : validate_managed_credentials m l = Ok (m', c) -> manager_ok m -> manager_ok m'.
Proof using.
  unfold validate_managed_credentials. destruct (build_managed_entries l) as [r|] eqn:Er; [|done]. cbn [mbind result_bind].
  destruct (pending_managed _) eqn:Ep; [done|].
  destruct (validate_managed_conflicts _ _) as [[]|] eqn:Ev; [|done]. cbn [mbind result_bind].
  destruct (negb _); intros [= <- _]; [|done]. intros [Hs Hf Hst].
  split; [|done|done]. apply (replaced_ok (cm_state m) _ r PPending); [by right|done|by eapply build_managed_ok|by apply validate_conflicts_ok|].
  intros [i|i|i|i] e; cbn; intros He; [by right|by right|left; by exists i|by right].
Qed.

Lemma pending_moves_ok m p : manager_ok m -> pending_managed (cm_state m) = Some p ->
  manager_ok (with_state m (with_managed (cm_state m) p None)).
Proof using.
  intros [[Hk Hi He] Hf Hst] Hp. split; [|done|done]. cbn [cm_state with_state].
  set (s := cm_state m) in *. set (s' := with_managed s p None).
  set (g := fun q => match q with PManaged id => PPending id | _ => q end).
  assert (forall q e, entry_at s' q = Some e -> entry_at s (g q) = Some e /\ forall id, q <> PPending id) as Hg.
  { intros [i|i|i|i] e; cbn; try done. by rewrite Hp. }
  split.
  - intros q q' e f [Hq Hnq]%Hg [Hq' Hnq']%Hg E. destruct (Hk _ _ _ _ Hq Hq' E) as [Hgg|Hsh].
    + left. destruct q, q'; cbn in Hgg; (congruence || by destruct (Hnq id) || by destruct (Hnq' id)).
    + destruct q, q'; cbn in Hsh; try done; (by destruct (Hnq id)) || (by destruct (Hnq' id0)).
  - intros id Hb. cbn in Hb. destruct (Hi id Hb) as [_ Hpn]. cbn in Hpn. rewrite Hp in Hpn. by split.
  - intros q e [Hq _]%Hg. by eapply He.
Qed.
Lemma drop_ok m c : manager_ok m -> manager_ok (drop_replacement m c).
Proof using.
  intros [Hs Hf Hst]. destruct c; [|by split]. split; [|done|done]. cbn [cm_state with_state].
  apply (state_ok_sub (cm_state m)); [done|]. intros [i|i|i|i] e He; cbn in He; [..|done|].
  - split; [by apply (so_entries _ Hs (PBase i))|]. by exists e.
  - split; [by apply (so_entries _ Hs (PManaged i))|]. by exists e.
  - split; [by apply (so_entries _ Hs (PEphemeral i))|]. by exists e.
Qed.

(** *** Restarts *)

Lemma empty_state_ok : state_ok CredentialState_default.
Proof using.
  split.
  - intros [i|i|i|i] q e f; cbn; try done; by rewrite lookup_empty.
  - intros id [e He]. cbn in He. by rewrite lookup_empty in He.
  - intros [i|i|i|i] e; cbn; try done; by rewrite lookup_empty.
Qed.
Lemma from_storage_ok snapshot readable : snapshot_ok snapshot -> manager_ok (from_storage snapshot readable).
Proof using.
  intros Hs. unfold from_storage. destruct (load_entries snapshot readable) as [b|e] eqn:E.
  - assert (load_entries snapshot true = Ok b) as E' by (destruct readable; [done|discriminate]).
    split; cbn [cm_state cm_storage cm_storage_load_error base with_base]; [by apply Hs|done|].
    intros snap [= <-]. split; [done|]. intros _. exact E'.
  - split; cbn [cm_state cm_storage cm_storage_load_error base with_base]; [exact empty_state_ok|done|].
    intros snap [= <-]. by split.
Qed.
Lemma new_ok : manager_ok CredentialManager_new.
Proof using. split; [exact empty_state_ok|done|done]. Qed.
End invariant.

(** ** Histories *)

(** The manager, and the guards of replacements that were validated and not yet
    installed or dropped. *)
Record World := { w_mgr : CredentialManager; w_guards : list bool }.

Inductive StoreOp :=
  | Generate (o : CredentialCreateOptions) (now : Z) (ids : list (list Z)) (keys : list (list Z * Z)) (writable : bool)
  | Revoke (id : list Z) (writable : bool)
  | Upsert (o : CredentialUpsertOptions) (now1 now2 : Z) (writable : bool)
  | Expire (now : Z) (writable : bool)
  | Register (public_key : list Z) (groups : list (list Z)) (now id : Z)
  | UpdateGroups (id : Z) (groups : list (list Z))
  | RevokeEphemeral (id : Z)
  | InstallInitial (l : list ManagedCredentialConfig)
  | Validate (l : list ManagedCredentialConfig)
  | Install (guard : nat)
  | DropGuard (guard : nat)
  | Reopen (readable : bool).

Definition ok_or {A} (m : CredentialManager) (r : result CredentialError (CredentialManager * A)) : CredentialManager :=
  match r with Ok (m, _) => m | Err _ => m end.

Section histories.
Context {cl : CredLib}.

Definition manager_op (m : CredentialManager) (op : StoreOp) : CredentialManager :=
  match op with
  | Generate o now ids keys w =>
    match generate_credential_with_options m o now ids keys w with Some r => ok_or m r | None => m end
  | Revoke id w => ok_or m (revoke_credential m id w)
  | Upsert o n1 n2 w => ok_or m (upsert_credential m o n1 n2 w)
  | Expire now w => (remove_expired_credentials_at m now w).1
  | Register pk groups now id => ok_or m (register_ephemeral_credential m pk groups now id)
  | UpdateGroups id groups => (update_ephemeral_credential_groups m id groups).1
  | RevokeEphemeral id => (revoke_ephemeral_credential m id).1
  | InstallInitial l => match install_initial_managed_credentials m l with Ok m => m | Err _ => m end
  | _ => m
  end.

Definition reopen (m : CredentialManager) (readable : bool) : CredentialManager :=
  match cm_storage m with
  | Some snapshot => from_storage snapshot readable
  | None => CredentialManager_new
  end.

Definition store_op (w : World) (op : StoreOp) : comp World :=
  match op with
  | Validate l =>
    match validate_managed_credentials (w_mgr w) l with
    | Ok (m, changed) => Ret {| w_mgr := m; w_guards := w_guards w ++ [changed] |}
    | Err _ => Ret w
    end
  | Install i =>
    match w_guards w !! i with
    | None => Ret w
    | Some changed =>
      '(m, _) ← install_managed_credentials (w_mgr w) changed;
      Ret {| w_mgr := m; w_guards := delete i (w_guards w) |}
    end
  | DropGuard i =>
    match w_guards w !! i with
    | None => Ret w
    | Some changed => Ret {| w_mgr := drop_replacement (w_mgr w) changed; w_guards := delete i (w_guards w) |}
    end
  | Reopen readable => Ret {| w_mgr := reopen (w_mgr w) readable; w_guards := [] |}
  | op => Ret {| w_mgr := manager_op (w_mgr w) op; w_guards := w_guards w |}
  end.
Fixpoint store_run (w : World) (ops : list StoreOp) : comp World :=
  match ops with [] => Ret w | op :: ops => w ← store_op w op; store_run w ops end.

(** Keys are drawn as 32 bytes. *)
Definition op_ok (op : StoreOp) : Prop :=
  match op with Generate _ _ _ keys _ => Forall (fun k => length k.1 = 32%nat) keys | _ => True end.

(** A replacement waits exactly as long as its guard lives. *)
Definition world_ok (w : World) : Prop :=
  manager_ok (w_mgr w) /\
  length (filter (fun c => c = true) (w_guards w)) =
    match pending_managed (cm_state (w_mgr w)) with Some _ => 1%nat | None => 0%nat end.

Definition start (snapshot : option (option (list Z))) (readable : bool) : World :=
  {| w_mgr := match snapshot with Some s => from_storage s readable | None => CredentialManager_new end;
     w_guards := [] |}.

Context {Hcl : CredLaws cl}.

Lemma manager_op_ok m op : op_ok op -> manager_ok m -> manager_ok (manager_op m op).
Proof using Hcl.
  intros Hop Hm. destruct op; cbn [manager_op]; try done.
  - destruct (generate_credential_with_options _ _ _ _ _ _) as [[[m' g]|]|] eqn:E; [|done|done]. cbn. by eapply generate_ok.
  - destruct (revoke_credential _ _ _) as [[m' r]|] eqn:E; [|done]. cbn. by eapply revoke_ok.
  - destruct (upsert_credential _ _ _ _ _) as [[m' r]|] eqn:E; [|done]. cbn. by eapply upsert_ok.
  - by apply expire_ok.
  - destruct (register_ephemeral_credential _ _ _ _ _) as [[m' r]|] eqn:E; [|done]. cbn. by eapply register_ok.
  - by apply update_groups_ok.
  - by apply revoke_ephemeral_ok.
  - destruct (install_initial_managed_credentials _ _) as [m'|] eqn:E; [|done]. by eapply install_initial_ok.
Qed.

(** What no operation on the manager touches. *)
Definition framed (m m' : CredentialManager) : Prop :=
  pending_managed (cm_state m') = pending_managed (cm_state m) /\
  cm_storage_load_error m' = cm_storage_load_error m /\
  (cm_storage_load_error m <> None -> cm_storage m' = cm_storage m).
Lemma framed_refl m : framed m m.
Proof using. done. Qed.
Lemma commit_framed m b w m' : commit_base m b w = Ok m' -> framed m m'.
Proof using.
  unfold commit_base, store_base, ensure_storage_available.
  destruct (cm_storage_load_error m) eqn:El; [done|]. cbn.
  destruct (cm_storage m) eqn:Es; [destruct w; [|done]|]; cbn; intros [= <-]; split_and!; cbn; congruence.
Qed.
Lemma issue_framed m b o id keys w r : issue_credential m b o id keys w = Some r -> framed m (ok_or m r).
Proof using.
  unfold issue_credential. destruct (CredentialGrant_new _ _ _ _) as [g|]; [|by intros [= <-]].
  destruct (draw_key _ _ _ _ _) as [e|]; [|done]. cbn.
  destruct (commit_base _ _ _) as [m1|] eqn:Ec; cbn; intros [= <-]; [|done]. cbn. by eapply commit_framed.
Qed.
Lemma manager_op_framed m op : framed m (manager_op m op).
Proof using.
  destruct op; cbn [manager_op]; try done.
  - destruct (generate_credential_with_options _ _ _ _ _ _) as [r|] eqn:E; [|done].
    unfold generate_credential_with_options in E.
    destruct (ensure_storage_available m); [|by injection E as <-]. cbn zeta in E.
    assert (forall b, (id ← draw_id (cm_state m) b ids; issue_credential m b o id keys writable) = Some r ->
              framed m (ok_or m r)) as Hd.
    { clear E. intros b. destruct (draw_id _ b _); [|done]. cbn. apply issue_framed. }
    destruct (utf8_trim <$> co_credential_id o) as [[|c id]|]; [by eapply Hd| |by eapply Hd].
    destruct (managed_contains_id _ _); [by injection E as <-|].
    destruct (_ !! (c :: id)) as [e|]; [destruct (negb _)|]; [by injection E as <-|by eapply issue_framed..].
  - unfold revoke_credential. destruct (ensure_storage_available m); [|done]. cbn [mbind result_bind].
    destruct (negb _); [done|]. destruct (commit_base _ _ _) eqn:Ec; [|done]. by eapply commit_framed.
  - unfold upsert_credential. destruct (bool_decide (_ = [])); [done|]. destruct (_ <=? _); [done|].
    destruct (decode_secret _); [|done]. cbn [mbind result_bind]. destruct (CredentialGrant_new _ _ _ _); [|done].
    cbn [mbind result_bind]. destruct (ensure_storage_available m); [|done]. cbn [mbind result_bind].
    destruct (managed_contains_id _ _); [done|]. destruct (existsb _ _); [done|]. destruct (key_used _ _); [done|].
    destruct (negb _); [done|]. destruct (commit_base _ _ _) eqn:Ec; [|done]. by eapply commit_framed.
  - unfold remove_expired_credentials_at. destruct (bool_decide _); [done|].
    destruct (commit_base _ _ _) eqn:Ec; [|done]. by eapply commit_framed.
  - unfold register_ephemeral_credential. by destruct (_ || _).
  - unfold update_ephemeral_credential_groups. destruct (_ !! id); [|done]. by destruct (bool_decide _).
  - unfold install_initial_managed_credentials. destruct (ensure_storage_available m); [|done]. cbn [mbind result_bind].
    destruct (build_managed_entries l); [|done]. cbn [mbind result_bind]. by destruct (validate_managed_conflicts _ _).
Qed.

Lemma guards_delete (l : list bool) (i : nat) (c : bool) : l !! i = Some c ->
  length (filter (fun c => c = true) l) =
  ((if c then 1 else 0) + length (filter (fun c => c = true) (delete i l)))%nat.
Proof using.
  intros H. rewrite (delete_Permutation l i c H) at 1. rewrite filter_cons.
  destruct c; [by rewrite decide_True|by rewrite decide_False].
Qed.

Lemma store_op_ok w op : op_ok op -> world_ok w -> exists w', store_op w op = Ret w' /\ world_ok w'.
Proof using Hcl.
  intros Hop [Hm Hg].
  assert (forall op', op_ok op' -> world_ok {| w_mgr := manager_op (w_mgr w) op'; w_guards := w_guards w |}) as Hmop.
  { intros op' Hop'. split; cbn [w_mgr w_guards]; [by apply manager_op_ok|].
    destruct (manager_op_framed (w_mgr w) op') as [-> _]. done. }
  destruct op; cbn [store_op]; try (eexists; split; [reflexivity|by apply Hmop]).
  - destruct (validate_managed_credentials (w_mgr w) l) as [[m' c]|] eqn:E; [|by exists w].
    eexists. split; [reflexivity|]. split; cbn [w_mgr w_guards]; [by eapply validate_ok|].
    rewrite filter_app, length_app, Hg. unfold validate_managed_credentials in E.
    destruct (build_managed_entries l); [|done]. cbn [mbind result_bind] in E.
    destruct (pending_managed (cm_state (w_mgr w))) eqn:Ep; [done|].
    destruct (validate_managed_conflicts _ _); [|done]. cbn [mbind result_bind] in E.
    destruct (negb _) eqn:En; injection E as <- <-; cbn; [done|]. by rewrite Ep.
  - destruct (w_guards w !! guard) as [c|] eqn:Ei; [|by exists w].
    pose proof (guards_delete _ _ _ Ei) as Hd. unfold install_managed_credentials.
    destruct c; cbn [negb].
    + destruct (pending_managed (cm_state (w_mgr w))) as [p|] eqn:Ep; [|lia]. cbn.
      eexists. split; [reflexivity|]. split; cbn [w_mgr w_guards]; [by apply pending_moves_ok|]. cbn. lia.
    + cbn. eexists. split; [reflexivity|]. split; cbn [w_mgr w_guards]; [done|]. lia.
  - destruct (w_guards w !! guard) as [c|] eqn:Ei; [|by exists w].
    pose proof (guards_delete _ _ _ Ei) as Hd.
    eexists. split; [reflexivity|]. split; cbn [w_mgr w_guards]; [by apply drop_ok|].
    destruct c; cbn in *; [|lia]. destruct (pending_managed (cm_state (w_mgr w))); lia.
  - eexists. split; [reflexivity|]. unfold reopen. split; cbn [w_mgr w_guards].
    + destruct (cm_storage (w_mgr w)) as [snap|] eqn:Es; [|apply new_ok].
      apply from_storage_ok. by apply (mo_stored _ Hm).
    + destruct (cm_storage (w_mgr w)) as [snap|]; [|done]. unfold from_storage.
      by destruct (load_entries _ _).
Qed.

Lemma store_run_ok ops : forall w, Forall op_ok ops -> world_ok w ->
  exists w', store_run w ops = Ret w' /\ world_ok w'.
Proof using Hcl.
  induction ops as [|op ops IH]; intros w Hops Hw; cbn; [by exists w|].
  apply Forall_cons in Hops as [Hop Hops]. destruct (store_op_ok w op Hop Hw) as (w1 & -> & Hw1). cbn.
  by apply IH.
Qed.

Lemma start_ok snapshot readable : (forall s, snapshot = Some s -> snapshot_ok s) -> world_ok (start snapshot readable).
Proof using.
  intros Hs. unfold start. split; cbn [w_mgr w_guards].
  - destruct snapshot as [s|]; [by apply from_storage_ok, Hs|apply new_ok].
  - destruct snapshot as [s|]; [|done]. unfold from_storage. by destruct (load_entries _ _).
Qed.

(** ** What is trusted *)

Lemma trusted_spec m pk now : is_pubkey_trusted m pk now = true <->
  exists p e, entry_at (cm_state m) p = Some e /\ ce_pubkey e = b64_encode pk /\
    match p with
    | PBase _ | PManaged _ => is_active_at e now = true
    | PPending _ => False
    | PEphemeral _ => True
    end.
Proof using.
  unfold is_pubkey_trusted. rewrite orb_true_iff, existsb_exists, key_used_true. split.
  - intros [(e & He%list_elem_of_In & [E%bool_decide_eq_true Ha]%andb_true_iff)|(e & He & E)].
    + apply elem_of_app in He as [[i Hi]%elem_map_values|[i Hi]%elem_map_values];
        [exists (PBase i), e|exists (PManaged i), e]; done.
    + apply elem_map_values in He as [i Hi]. by exists (PEphemeral i), e.
  - intros ([i|i|i|i] & e & He & E & Ha); cbn in He; [left|left|done|right].
    + exists e. rewrite bool_decide_eq_true_2, Ha by done. split; [|done].
      apply list_elem_of_In, elem_of_app. left. apply elem_map_values. by exists i.
    + exists e. rewrite bool_decide_eq_true_2, Ha by done. split; [|done].
      apply list_elem_of_In, elem_of_app. right. apply elem_map_values. by exists i.
    + exists e. split; [|done]. apply elem_map_values. by exists i.
Qed.

(** A key held in the file is trusted exactly until it expires. *)
Lemma trusted_base m id e pk now : state_ok (cm_state m) -> base (cm_state m) !! id = Some e ->
  ce_pubkey e = b64_encode pk -> is_pubkey_trusted m pk now = is_active_at e now.
Proof using.
  intros Hs He Ek. apply eq_true_iff_eq. rewrite trusted_spec. split.
  - intros (p & f & Hf & Ef & Ha). destruct (so_keys _ Hs (PBase id) p e f He Hf) as [<-|[]]; [congruence|].
    cbn in Hf. congruence.
  - intros Ha. by exists (PBase id), e.
Qed.
(** A key that no entry holds is not. *)
Lemma untrusted m pk now : (forall p e, entry_at (cm_state m) p = Some e -> ce_pubkey e <> b64_encode pk) ->
  is_pubkey_trusted m pk now = false.
Proof using.
  intros H. apply not_true_iff_false. rewrite trusted_spec. intros (p & e & He & E & _). by apply (H p e).
Qed.

Lemma elem_trusted_pubkeys {tl : TrustLib} m secret now pr : pr ∈ get_trusted_pubkeys m secret now <->
  exists p e, entry_at (cm_state m) p = Some e /\ to_proof secret e = Some pr /\
    match p with
    | PBase _ | PManaged _ => is_active_at e now = true
    | PPending _ => False
    | PEphemeral _ => True
    end.
Proof using.
  unfold get_trusted_pubkeys. rewrite elem_of_app, !list_elem_of_omap. split.
  - intros [(e & [Ha He]%list_elem_of_filter & E)|(e & [i Hi]%elem_map_values & E)].
    + apply elem_of_app in He as [[i Hi]%elem_map_values|[i Hi]%elem_map_values];
        [exists (PBase i), e|exists (PManaged i), e]; done.
    + by exists (PEphemeral i), e.
  - intros ([i|i|i|i] & e & He & E & Ha); cbn in He; [left|left|done|right]; exists e; (split; [|done]).
    + apply list_elem_of_filter. split; [done|]. apply elem_of_app. left. apply elem_map_values. by exists i.
    + apply list_elem_of_filter. split; [done|]. apply elem_of_app. right. apply elem_map_values. by exists i.
    + apply elem_map_values. by exists i.
Qed.

Lemma to_proof_key {tl : TrustLib} secret e pr : to_proof secret e = Some pr ->
  exists c, tp_credential pr = Some c /\ pr = new_signed c secret /\
    ce_pubkey e = b64_encode (tc_pubkey c) /\ tc_expiry_unix c = ce_expiry_unix e.
Proof using Hcl.
  unfold to_proof, to_trusted_credential, decode_pubkey_b64.
  destruct (b64_decode (ce_pubkey e)) as [k|] eqn:Ek; [|done]. cbn [mbind option_bind].
  destruct (len k =? 32); [|done]. cbn. intros [= <-]. eexists. split_and!; [done|done| |done].
  cbn. by apply b64_encode_decode.
Qed.
Lemma to_proof_some {tl : TrustLib} secret e pk : ce_pubkey e = b64_encode pk -> length pk = 32%nat ->
  exists c, to_proof secret e = Some (new_signed c secret) /\ tc_pubkey c = pk /\ tc_expiry_unix c = ce_expiry_unix e.
Proof using Hcl.
  intros E Hl. unfold to_proof, to_trusted_credential, decode_pubkey_b64. rewrite E, b64_decode_encode.
  cbn [mbind option_bind]. rewrite (proj2 (Z.eqb_eq _ _)) by (unfold len; lia). cbn. by eexists.
Qed.
End histories.

(** ** Theorems *)

(** Along every history of issuing, importing, revoking and expiring, of attached
    peers, of replacements of the configured credentials with their guards, of
    failing writes and of restarts that may find the storage unreadable: no
    identifier is used by the file and the configuration at once and no public
    key by two credentials; every secret belongs to its public key and every
    grant is normalised; installing a validated replacement never panics; a
    restart finds exactly the credentials of the file as they are, and a manager
    that could not read the file holds none of it and never overwrites it. *)
Theorem store_invariant `{cl : CredLib, !CredLaws cl} snapshot readable ops :
  (forall s, snapshot = Some s -> snapshot_ok s) -> Forall op_ok ops ->
  exists w, store_run (start snapshot readable) ops = Ret w /\ world_ok w /\
    forall op, op_ok op -> exists w', store_op w op = Ret w' /\
      (cm_storage_load_error (w_mgr w) <> None -> cm_storage (w_mgr w') = cm_storage (w_mgr w)).
Proof.
  intros Hs Hops. destruct (store_run_ok ops _ Hops (start_ok snapshot readable Hs)) as (w & E & Hw).
  exists w. split_and!; [done|done|]. intros op Hop.
  destruct (store_op_ok w op Hop Hw) as (w' & E' & _). exists w'. split; [done|]. intros Hle.
  pose proof (manager_op_framed (w_mgr w) op) as (_ & _ & Hst). specialize (Hst Hle).
  destruct op; cbn [store_op] in E'; try (injection E' as <-; exact Hst).
  - unfold validate_managed_credentials in E'. destruct (build_managed_entries l); [|by injection E' as <-].
    cbn [mbind result_bind] in E'. destruct (pending_managed _); [by injection E' as <-|].
    destruct (validate_managed_conflicts _ _); [|by injection E' as <-]. cbn [mbind result_bind] in E'.
    destruct (negb _); by injection E' as <-.
  - destruct (w_guards w !! guard) as [[|]|]; [|by injection E' as <-..]. cbn in E'.
    destruct (pending_managed _); [|done]. by injection E' as <-.
  - destruct (w_guards w !! guard) as [[|]|]; by injection E' as <-.
  - injection E' as <-. cbn [w_mgr]. unfold reopen. destruct (cm_storage (w_mgr w)) as [snap|]; [|done].
    unfold from_storage. by destruct (load_entries _ _).
Qed.

(** C31. A revocation takes effect at once and for good.  When a manager that has gone
    through any such history revokes a credential of the file without an error,
    the key of the credential is trusted at no time any more, is not among the
    keys announced to other nodes, and is not trusted after a restart either. *)
Theorem revocation_durable `{cl : CredLib, !CredLaws cl, tl : TrustLib} snapshot readable ops w id e pk writable m' r :
  (forall s, snapshot = Some s -> snapshot_ok s) -> Forall op_ok ops ->
  store_run (start snapshot readable) ops = Ret w ->
  base (cm_state (w_mgr w)) !! id = Some e -> ce_pubkey e = b64_encode pk ->
  revoke_credential (w_mgr w) id writable = Ok (m', r) ->
  r = true /\ forall now secret,
    is_pubkey_trusted m' pk now = false /\
    (forall proof c, proof ∈ get_trusted_pubkeys m' secret now -> tp_credential proof = Some c -> tc_pubkey c <> pk) /\
    forall again, is_pubkey_trusted (reopen m' again) pk now = false.
Proof.
  intros Hs Hops E He Ek Hr.
  destruct (store_run_ok ops _ Hops (start_ok snapshot readable Hs)) as (w1 & E1 & [Hm _]).
  rewrite E in E1. injection E1 as <-. set (m := w_mgr w) in *.
  pose proof (revoke_ok _ _ _ _ _ Hr Hm) as Hm'.
  unfold revoke_credential in Hr. destruct (ensure_storage_available m) eqn:Ea; [|done]. cbn [mbind result_bind] in Hr.
  rewrite bool_decide_eq_true_2 in Hr by eauto. cbn [negb] in Hr.
  destruct (commit_base _ _ _) as [m1|] eqn:Ec; [|done]. injection Hr as -> <-.
  pose proof (commit_base_state _ _ _ _ Ec) as Est.
  assert (forall p f, entry_at (cm_state m') p = Some f -> ce_pubkey f <> b64_encode pk) as Hnone.
  { intros p f Hf Ef. rewrite Est in Hf.
    assert (p <> PBase id /\ entry_at (cm_state m) p = Some f) as [Hp Hf'].
    { destruct p as [i|i|i|i]; cbn in Hf; try (by split). apply lookup_delete_Some in Hf as [Hne Hf].
      split; [congruence|done]. }
    destruct (so_keys _ (mo_state _ Hm) (PBase id) p e f He Hf') as [Hp'|[]]; congruence. }
  assert (reopen_base := mo_stored m' Hm').
  split; [done|]. intros now secret. split_and!.
  - by apply untrusted.
  - intros proof c Hp Hc Epk. apply elem_trusted_pubkeys in Hp as (p & f & Hf & Hpr & _).
    apply to_proof_key in Hpr as (c' & Hc' & _ & Ef & _). apply (Hnone p f Hf). congruence.
  - intros again. apply untrusted. intros p f Hf. unfold reopen in Hf.
    destruct (cm_storage m') as [snap|] eqn:Es.
    + destruct (reopen_base snap eq_refl) as [_ Hload].
      assert (cm_storage_load_error m' = None) as Hle.
      { destruct (commit_framed _ _ _ _ Ec) as (_ & -> & _). unfold ensure_storage_available in Ea.
        by destruct (cm_storage_load_error m). }
      specialize (Hload Hle). unfold from_storage in Hf. destruct again.
      * rewrite Hload in Hf. destruct p as [i|i|i|i]; cbn in Hf; try done; try (by rewrite lookup_empty in Hf).
        by apply (Hnone (PBase i)).
      * cbn in Hf. destruct p as [i|i|i|i]; cbn in Hf; try done; by rewrite lookup_empty in Hf.
    + destruct p as [i|i|i|i]; cbn in Hf; try done; by rewrite lookup_empty in Hf.
Qed.

Section issuing.
Context {cl : CredLib} {Hcl : CredLaws cl}.

(** Some draw gives an identifier and a key that are not in use. *)
Definition fresh_id (s : CredentialState) (ids : list (list Z)) : Prop :=
  Exists (fun id => base s !! id = None /\ managed_contains_id s id = false) ids.
Definition fresh_key (s : CredentialState) (keys : list (list Z * Z)) : Prop :=
  Exists (fun k => forall p e, entry_at s p = Some e -> ce_pubkey e <> b64_encode (x25519_public k.1)) keys.

Lemma draw_id_returns s b ids : b ⊆ base s -> fresh_id s ids -> is_Some (draw_id s b ids).
Proof using.
  intros Hb. induction 1 as [id ids [Hi Hm]|id ids _ IH]; cbn [draw_id].
  - assert (b !! id = None) as Hbi by (by eapply lookup_weaken_None).
    rewrite Hm, bool_decide_eq_false_2 by (by rewrite Hbi; intros []). cbn. eauto.
  - destruct (negb _ && negb _); eauto.
Qed.
Lemma draw_key_returns s b grant ttl keys : b ⊆ base s -> fresh_key s keys ->
  is_Some (draw_key s b grant ttl keys).
Proof using.
  intros Hb. induction 1 as [[k t] keys Hk|[k t] keys _ IH]; cbn [draw_key].
  - rewrite (proj2 (key_used_false _ _)); [eauto|]. intros e.
    rewrite !elem_of_app, !elem_map_values, elem_managed_values. cbn [ce_pubkey build_entry entry_of_key].
    intros [[i Hi]|[[i [Hi|Hi]]|[i Hi]]].
    + apply (Hk (PBase i)). cbn. by eapply lookup_weaken.
    + by apply (Hk (PManaged i)).
    + by apply (Hk (PPending i)).
    + by apply (Hk (PEphemeral i)).
  - destruct (key_used _ _); eauto.
Qed.
Lemma draw_key_from s b grant ttl keys e : draw_key s b grant ttl keys = Some e ->
  exists k t, (k, t) ∈ keys /\ e = build_entry grant ttl k t.
Proof using.
  induction keys as [|[k t] keys IH]; cbn [draw_key]; [done|]. destruct (key_used _ _).
  - intros (k' & t' & Hin & ->)%IH. exists k', t'. split; [by right|done].
  - intros [= <-]. exists k, t. split; [by left|done].
Qed.

(** The entry behind an answer. *)
Definition issued_as (m m' : CredentialManager) (o : CredentialCreateOptions) (now : Z)
    (keys : list (list Z * Z)) (g : GeneratedCredential) : Prop :=
  exists e private, base (cm_state m') !! gc_credential_id g = Some e /\ length private = 32%nat /\
    gc_secret g = b64_encode private /\ ce_pubkey e = b64_encode (x25519_public private) /\
    ce_expiry_unix e = gc_expiry_unix g /\
    if gc_changed g
    then exists t, (private, t) ∈ keys /\ gc_expiry_unix g = to_i64 (t + to_i64 (co_ttl o))
    else m' = m /\ now < gc_expiry_unix g.

Lemma issue_as m b o id keys w r now : Forall (fun k => length k.1 = 32%nat) keys ->
  issue_credential m b o id keys w = Some r ->
  match r with Ok (m', g) => issued_as m m' o now keys g | Err _ => True end.
Proof using.
  intros Hkeys. unfold issue_credential. destruct (CredentialGrant_new _ _ _ _) as [grant|]; [|by intros [= <-]].
  destruct (draw_key _ _ _ _ _) as [e|] eqn:Ek; [|done]. cbn.
  destruct (commit_base _ _ _) as [m1|] eqn:Ec; cbn; intros [= <-]; [|done].
  apply draw_key_from in Ek as (k & t & Hin & ->). rewrite Forall_forall in Hkeys.
  unfold issued_as. cbn [gc_credential_id gc_secret gc_expiry_unix gc_changed].
  rewrite (commit_base_state _ _ _ _ Ec). cbn [base with_base]. rewrite lookup_insert_eq.
  eexists _, k. split_and!; [done|by apply (Hkeys (k, t))|done..|]. by exists t.
Qed.

Lemma generate_as m o now ids keys w : manager_ok m -> Forall (fun k => length k.1 = 32%nat) keys ->
  fresh_id (cm_state m) ids -> fresh_key (cm_state m) keys ->
  exists r, generate_credential_with_options m o now ids keys w = Some r /\
    match r with Ok (m', g) => issued_as m m' o now keys g | Err _ => True end.
Proof using.
  intros Hm Hkeys Hids Hfk. unfold generate_credential_with_options.
  destruct (ensure_storage_available m); [|by eexists]. cbv zeta.
  pose proof (retain_active_sub (base (cm_state m)) now) as Hsub.
  set (b := retain_active _ _) in *.
  assert (forall id, exists r, issue_credential m b o id keys w = Some r /\
      match r with Ok (m', g) => issued_as m m' o now keys g | Err _ => True end) as Hissue.
  { intros id. destruct (issue_credential m b o id keys w) as [r|] eqn:E.
    - exists r. split; [done|]. by eapply issue_as.
    - unfold issue_credential in E. destruct (CredentialGrant_new _ _ _ _) as [grant|]; [|done].
      destruct (draw_key_returns (cm_state m) b grant (co_ttl o) keys Hsub Hfk) as [e Ek]. by rewrite Ek in E. }
  assert (exists r, (id ← draw_id (cm_state m) b ids; issue_credential m b o id keys w) = Some r /\
      match r with Ok (m', g) => issued_as m m' o now keys g | Err _ => True end) as Hdraw.
  { destruct (draw_id_returns (cm_state m) b ids Hsub Hids) as [id ->]. cbn. apply Hissue. }
  destruct (utf8_trim <$> co_credential_id o) as [[|c id]|]; [done| |done].
  destruct (managed_contains_id _ _); [by eexists|].
  destruct (b !! (c :: id)) as [e|] eqn:Eb; [|apply Hissue].
  case_bool_decide as Hsec; cbn [negb]; [apply Hissue|]. eexists. split; [done|].
  apply map_lookup_filter_Some in Eb as [Eb Ha]. cbn in Ha. unfold is_active_at in Ha. bools.
  destruct (so_entries _ (mo_state _ Hm) (PBase (c :: id)) e Eb) as [_ Hk].
  destruct (Hk Hsec) as (private & Hl & Es & Ep). exists e, private.
  cbn [gc_credential_id gc_secret gc_expiry_unix gc_changed]. split_and!; done.
Qed.
End issuing.

(** Whoever is handed an issued credential is admitted with it, until it expires.
    With a fresh identifier and a fresh key among the random draws the call
    returns; an answer contains a secret of 32 bytes whose public key the manager
    trusts at exactly the times before the announced expiry, and so does the
    manager after a restart from a readable storage; a new credential was drawn in
    the call and expires after its time to live, an existing one was unexpired
    and nothing changed. *)
Theorem issued_credential_admits `{cl : CredLib, !CredLaws cl} m o now ids keys writable :
  manager_ok m -> Forall (fun k => length k.1 = 32%nat) keys ->
  fresh_id (cm_state m) ids -> fresh_key (cm_state m) keys ->
  exists r, generate_credential_with_options m o now ids keys writable = Some r /\
    match r with
    | Err _ => True
    | Ok (m', g) => exists private, b64_decode (gc_secret g) = Some private /\ length private = 32%nat /\
        (forall t, is_pubkey_trusted m' (x25519_public private) t = (t <? gc_expiry_unix g)) /\
        (cm_storage m' <> None ->
         forall t, is_pubkey_trusted (reopen m' true) (x25519_public private) t = (t <? gc_expiry_unix g)) /\
        if gc_changed g
        then exists t, (private, t) ∈ keys /\ gc_expiry_unix g = to_i64 (t + to_i64 (co_ttl o))
        else m' = m /\ now < gc_expiry_unix g
    end.
Proof.
  intros Hm Hkeys Hids Hfk. destruct (generate_as m o now ids keys writable Hm Hkeys Hids Hfk) as (r & E & Hr).
  exists r. split; [done|]. destruct r as [[m' g]|]; [|done].
  pose proof (generate_ok m o now ids keys writable m' g Hkeys E Hm) as Hm'.
  destruct Hr as (e & private & Hb & Hl & Es & Ep & Eexp & Hch). exists private.
  split_and!; [by rewrite Es, b64_decode_encode|done| | |done].
  - intros t. rewrite (trusted_base m' (gc_credential_id g) e); [|apply Hm'|done|done]. unfold is_active_at. by rewrite Eexp.
  - intros Hst t. unfold reopen. destruct (cm_storage m') as [snap|] eqn:Esn; [|done].
    assert (cm_storage_load_error m' = None) as Hle.
    { destruct (cm_storage_load_error m') eqn:El; [|done]. exfalso.
      assert (base (cm_state m') = ∅) as Hb0 by (apply (mo_failed _ Hm'); congruence).
      by rewrite Hb0, lookup_empty in Hb. }
    destruct (mo_stored _ Hm' snap Esn) as [Hsn Hload]. specialize (Hload Hle).
    rewrite (trusted_base _ (gc_credential_id g) e).
    + unfold is_active_at. by rewrite Eexp.
    + apply (mo_state _ (from_storage_ok snap true Hsn)).
    + unfold from_storage. rewrite Hload. exact Hb.
    + done.
Qed.

(** What an admin holds, other nodes trust.  When the information of an admin in
    another node carries the credentials that the admin's manager announced, with
    the bytes the admin signed, and both know the network secret, then after the
    next verification that node trusts every key that the manager itself would
    still admit at that time. *)
Theorem issued_credentials_trusted_elsewhere
    `{cl : CredLib, !CredLaws cl, om : OrderedMap, !OrderedMapLaws om, tl : TrustLib, pw : ProstWire}
    (m : CredentialManager) (secret : list Z) (t : Z) (s s' : SyncedRouteInfo) (pid : Z) (info : RoutePeerInfo)
    (active : Z -> bool) (prot : option Z) (now : Z) (revoked : gset Z)
    (keys : gmap (list Z) TrustedKeyMetadata) (ch : bool) (pk : list Z) :
  (forall k x, hmac_sha256 k x <> []) ->
  om_get (peer_infos s) pid = Some info -> is_admin_peer info = true ->
  trusted_credential_pubkeys info = get_trusted_pubkeys m secret t ->
  (forall raw idx proof c, raw_peer_infos s !! pid = Some raw -> trusted_credential_pubkeys info !! idx = Some proof ->
     tp_credential proof = Some c -> raw_credential_bytes raw idx = Ok (Some (credential_encode c))) ->
  verify_and_update_credential_trusts_protecting s (Some secret) active prot now = (s', revoked, keys, ch) ->
  t <= now / 1000 ->
  (forall id e, ephemeral (cm_state m) !! id = Some e -> now / 1000 < ce_expiry_unix e) ->
  length pk = 32%nat -> is_pubkey_trusted m pk (now / 1000) = true ->
  is_Some (trusted_credentials s' !! pk).
Proof.
  intros Hmac Hinfo Hadmin Hlist Hraw E Ht Heph Hl Htr.
  apply trusted_spec in Htr as (p & e & He & Ek & Hact).
  destruct (to_proof_some secret e pk Ek Hl) as (c & Hc & <- & Hexp).
  assert (new_signed c secret ∈ trusted_credential_pubkeys info) as (idx & Hidx)%list_elem_of_lookup.
  { rewrite Hlist. apply elem_trusted_pubkeys. exists p, e. split_and!; [done|done|].
    unfold is_active_at in *. destruct p; try done; bools; apply Z.ltb_lt; lia. }
  pose proof (vouched_trusted s (Some secret) active prot now c) as Hv. rewrite E in Hv. apply Hv.
  exists pid, info, idx, (new_signed c secret). split_and!; try done.
  - assert (verify_credential_hmac_with_bytes (new_signed c secret) (credential_encode c) secret = true) as Hver.
    { unfold verify_credential_hmac_with_bytes. cbn [tp_credential_hmac new_signed].
      destruct (hmac_sha256 secret _) eqn:Eh; [by apply Hmac in Eh|]. by apply bool_decide_eq_true. }
    unfold credential_proof_is_valid. destruct (raw_peer_infos s !! pid) as [raw|] eqn:Er; [|exact Hver].
    by rewrite (Hraw raw idx (new_signed c secret) c eq_refl Hidx eq_refl).
  - rewrite Hexp. unfold is_active_at in Hact. destruct p; [bools; lia|bools; lia|done|by eapply Heph].
Qed.

(** ** A concrete store *)

Module ConcreteCredentials.
(** A snapshot is a sequence of numbers: counts before strings and lists. *)
Definition put (s : list Z) : list Z := len s :: s.
Definition get (l : list Z) : list Z * list Z :=
  match l with [] => ([], []) | n :: l => (take (Z.to_nat n) l, drop (Z.to_nat n) l) end.
Definition put_many {A} (p : A -> list Z) (l : list A) : list Z := len l :: concat (map p l).
Fixpoint get_n {A} (g : list Z -> A * list Z) (n : nat) (l : list Z) : list A * list Z :=
  match n with O => ([], l) | S n => let '(a, l) := g l in let '(r, l) := get_n g n l in (a :: r, l) end.
Definition get_many {A} (g : list Z -> A * list Z) (l : list Z) : list A * list Z :=
  match l with [] => ([], []) | n :: l => get_n g (Z.to_nat n) l end.
Definition hd_tl (l : list Z) : Z * list Z := (default 0 (head l), tail l).

Lemma get_put s rest : get (put s ++ rest) = (s, rest).
Proof. cbn. unfold len. rewrite Nat2Z.id, take_app_length, drop_app_length. done. Qed.
Lemma get_put_many {A} (p : A -> list Z) g l rest : (forall a rest, g (p a ++ rest) = (a, rest)) ->
  get_many g (put_many p l ++ rest) = (l, rest).
Proof.
  intros Hg. cbn. unfold len. rewrite Nat2Z.id. induction l as [|a l IH]; [done|]. cbn.
  rewrite <- app_assoc, Hg, IH. done.
Qed.

Definition put_entry (kv : list Z * CredentialEntry) : list Z :=
  let '(id, e) := kv in
  put id ++ put (ce_pubkey e) ++ put (ce_secret e) ++ put_many put (g_groups (ce_grant e)) ++
  put_many put (g_allowed_proxy_cidrs (ce_grant e)) ++
  [Z.b2z (g_allow_relay (ce_grant e)); Z.b2z (g_reusable (ce_grant e)); ce_expiry_unix e; ce_created_at_unix e].
Definition get_entry (l : list Z) : (list Z * CredentialEntry) * list Z :=
  let '(id, l) := get l in let '(pk, l) := get l in let '(sk, l) := get l in
  let '(gs, l) := get_many get l in let '(cs, l) := get_many get l in
  let '(ar, l) := hd_tl l in let '(re, l) := hd_tl l in let '(ex, l) := hd_tl l in let '(cr, l) := hd_tl l in
  ((id, {| ce_pubkey := pk; ce_secret := sk;
           ce_grant := {| g_groups := gs; g_allow_relay := ar =? 1; g_allowed_proxy_cidrs := cs; g_reusable := re =? 1 |};
           ce_expiry_unix := ex; ce_created_at_unix := cr |}), l).
Lemma get_put_entry kv rest : get_entry (put_entry kv ++ rest) = (kv, rest).
Proof.
  destruct kv as [id [pk sk [gs ar cs re] ex cr]]. unfold get_entry, put_entry.
  cbn [ce_pubkey ce_secret ce_grant g_groups g_allow_relay g_allowed_proxy_cidrs g_reusable ce_expiry_unix ce_created_at_unix].
  rewrite <- !app_assoc. rewrite !get_put, !(get_put_many put get) by exact get_put. cbn. by destruct ar, re.
Qed.

(** Text that is the bytes themselves and a public key that is the private one
    counted up. *)
#[export] Instance lib : CredLib := {
  b64_encode b := b; b64_decode s := Some s; x25519_public k := map (Z.add 1) k; sha256 b := b;
  ip_cidr_ok s := negb (bool_decide (s = []));
  json_print m := put_many put_entry (map_to_list m);
  json_parse s := Some (list_to_map (get_many get_entry s).1) }.
#[export] Instance laws : CredLaws lib.
Proof.
  split; cbn [b64_encode b64_decode json_print json_parse lib].
  - done.
  - by intros s b [= ->].
  - intros m. pose proof (get_put_many put_entry get_entry (map_to_list m) [] get_put_entry) as H.
    rewrite app_nil_r in H. rewrite H. cbn [fst]. by rewrite list_to_map_to_list.
Qed.

Definition options (id : option (list Z)) : CredentialCreateOptions :=
  {| co_groups := [[103]]; co_allow_relay := false; co_allowed_proxy_cidrs := [[32; 49; 10]]; co_ttl := 60;
     co_credential_id := id; co_reusable := true |}.
Definition key (b : Z) : list Z := replicate 32 b.
Definition history : list StoreOp :=
  [Generate (options (Some [97])) 100 [] [(key 7, 100)] true;
   Generate (options None) 100 [[97]; [98]] [(key 7, 100); (key 8, 101)] true;
   Register (map (Z.add 1) (key 9)) [[104]] 100 55;
   Validate [{| mc_credential_id := [99]; mc_credential_secret := key 5; mc_groups := []; mc_allow_relay := true;
                mc_allowed_proxy_cidrs := []; mc_expiry_unix := 1000; mc_reusable := false |}];
   Install 0].
Lemma history_ok : Forall op_ok history.
Proof. repeat constructor. Qed.
Definition world : World :=
  match store_run (start (Some None) true) history with Ret w => w | Panic => start None true end.

Example history_runs :
  store_run (start (Some None) true) history = Ret world /\
  map (fun b => map (is_pubkey_trusted (w_mgr world) (map (Z.add 1) (key b))) [100; 160; 161; 1000]) [7; 8; 9; 5; 6] =
    [[true; false; false; false]; [true; true; false; false]; [true; true; true; true];
     [true; true; true; false]; [false; false; false; false]] /\
  map ci_credential_id (list_credentials (w_mgr world) 100) = [[97]; [98]; [99]].
Proof. vm_compute. done. Qed.

Lemma empty_snapshot_ok : snapshot_ok None.
Proof. intros b [= <-]. exact empty_state_ok. Qed.

Lemma snapshots_ok s : Some None = Some s -> snapshot_ok s.
Proof. intros [= <-]. exact empty_snapshot_ok. Qed.

Definition revoked : CredentialManager := ok_or (w_mgr world) (revoke_credential (w_mgr world) [97] true).

(** Another node that has the announcement of this one. *)
Definition neighbour : @SyncedRouteInfo Concrete.omap :=
  with_peers Concrete.nothing
    {[1 := Concrete.info 1 1 [5] (get_trusted_pubkeys (tl:=Concrete.trust) (w_mgr world) [3] 100)]} ∅.
Definition neighbour_verified :=
  @verify_and_update_credential_trusts_protecting Concrete.omap Concrete.trust Protobuf.wire
    neighbour (Some [3]) (fun _ => true) None 150000.
End ConcreteCredentials.
Import ConcreteCredentials.

Lemma store_invariant_witness :
  exists w, store_run (start (Some None) true) (history ++ [Reopen true]) = Ret w /\ world_ok w.
Proof.
  destruct (store_invariant (cl:=lib) (Some None) true (history ++ [Reopen true]))
    as (w & E & Hw & _).
  - exact snapshots_ok.
  - apply Forall_app. split; [exact history_ok|]. constructor; [exact I|constructor].
  - exists w. split; [exact E|exact Hw].
Defined.

Lemma revocation_durable_witness :
  is_pubkey_trusted (w_mgr world) (map (Z.add 1) (key 7)) 110 = true /\
  is_pubkey_trusted (reopen revoked true) (map (Z.add 1) (key 7)) 110 = false.
Proof.
  split; [vm_compute; reflexivity|].
  destruct (revocation_durable (cl:=lib) (tl:=Concrete.trust) (Some None) true
    history world [97]
    (default (set_groups (entry_of_key [] (for_attached_peer []) 0 0) [])
       (base (cm_state (w_mgr world)) !! [97]))
    (map (Z.add 1) (key 7)) true revoked true) as [_ H].
  - exact snapshots_ok.
  - exact history_ok.
  - vm_compute. reflexivity.
  - vm_compute. reflexivity.
  - vm_compute. reflexivity.
  - vm_compute. reflexivity.
  - apply (H 110 []).
Defined.

Lemma issued_credential_admits_witness :
  exists m' g, generate_credential_with_options (from_storage None true) (options None) 100
      [[98]] [(key 8, 101)] true = Some (Ok (m', g)) /\
    exists private, b64_decode (gc_secret g) = Some private /\
      forall t, is_pubkey_trusted m' (x25519_public private) t = (t <? gc_expiry_unix g).
Proof.
  destruct (issued_credential_admits (cl:=lib) (from_storage None true)
    (options None) 100 [[98]] [(key 8, 101)] true) as (r & E & H).
  - apply from_storage_ok. exact empty_snapshot_ok.
  - constructor; [reflexivity|constructor].
  - constructor. split; reflexivity.
  - constructor. intros [i|i|i|i] e; cbn; intros He; try discriminate He.
    all: exfalso; revert He; vm_compute; discriminate.
  - destruct r as [[m' g]|e]; [|exfalso; revert E; vm_compute; discriminate].
    exists m', g. split; [exact E|]. destruct H as (private & Hd & _ & Ht & _). exists private. split; [exact Hd|exact Ht].
Defined.

Lemma issued_credentials_trusted_elsewhere_witness :
  is_Some (trusted_credentials neighbour_verified.1.1.1
           !! map (Z.add 1) (key 8)).
Proof.
  eapply (@issued_credentials_trusted_elsewhere lib laws Concrete.omap
    Concrete.omap_laws Concrete.trust Protobuf.wire (w_mgr world) [3] 100
    neighbour _ 1 _ (fun _ => true) None 150000).
  - discriminate.
  - reflexivity.
  - reflexivity.
  - reflexivity.
  - intros raw idx proof c Hr. exfalso. revert Hr. vm_compute. discriminate.
  - exact (surjective_pairings neighbour_verified).
  - vm_compute. discriminate.
  - change (map_Forall (fun _ e => 150 < ce_expiry_unix e) (ephemeral (cm_state (w_mgr world)))).
    apply (bool_decide_unpack _). vm_compute. exact I.
  - reflexivity.
  - vm_compute. reflexivity.
Defined.
