(* ===== verification/SyncSession.v ===== *)
(** [SyncRouteSession] of [peers/route/peer_ospf_route.rs]: what a node keeps for
    each peer with which it exchanges routes.

    Each side of an exchange has a session id; the node remembers which versions
    the other side has, who initiates, and a revision that tells a response
    whether the session is still the one its request was made in.  Methods
    marked "locked" run under the session lock and are single steps; the saved
    maps are locked per entry.  Instants and times are milliseconds. *)

From stdpp Require Import list gmap.
From S2P Require Import Prelude RouteMessages.
Local Open Scope Z_scope.

Record VersionAndTouchTime := { vt_version : Z; vt_touch_time : Z }.
Definition vt_touch (v : VersionAndTouchTime) (now : Z) : VersionAndTouchTime :=
  {| vt_version := vt_version v; vt_touch_time := now |}.
Definition vt_set_if_larger (v : VersionAndTouchTime) (version : Z) : VersionAndTouchTime :=
  {| vt_version := Z.max (vt_version v) version; vt_touch_time := vt_touch_time v |}.
Definition vt_is_expired (v : VersionAndTouchTime) (now : Z) : bool :=
  60 * 1000 <? now - vt_touch_time v.
Definition vt_default (now : Z) : VersionAndTouchTime := {| vt_version := 0; vt_touch_time := now |}.

Definition INITIATOR_SESSION_LIVENESS_TIMEOUT : Z := 45 * 1000.

(** The task handle is [ss_task_running]. *)
Record SyncRouteSession := {
  ss_my_peer_id : Z; ss_dst_peer_id : Z;
  dst_saved_peer_info_versions : gmap Z VersionAndTouchTime;
  dst_saved_conn_info_version : gmap Z VersionAndTouchTime;
  dst_saved_foreign_network_versions : gmap ForeignKey VersionAndTouchTime;
  unreachable_peers_for_peer_info : gmap Z Z;
  unreachable_peers_for_conn_info : gmap Z Z;
  last_sync_succ_timestamp : option Z;
  last_contact_instant : Z;
  my_session_id : Z; dst_session_id : Z;
  we_are_initiator : bool; dst_is_initiator : bool;
  state_revision : Z;
  need_sync_initiator_info : bool;
  rpc_tx_count : Z; rpc_rx_count : Z;
  ss_task_running : bool }.

(** [SyncRouteSession::new]; [id] is the random session id. *)
Definition SyncRouteSession_new (my_peer_id dst_peer_id id now : Z) : SyncRouteSession :=
  {| ss_my_peer_id := my_peer_id; ss_dst_peer_id := dst_peer_id;
     dst_saved_peer_info_versions := ∅; dst_saved_conn_info_version := ∅;
     dst_saved_foreign_network_versions := ∅; unreachable_peers_for_peer_info := ∅;
     unreachable_peers_for_conn_info := ∅; last_sync_succ_timestamp := None;
     last_contact_instant := now; my_session_id := id; dst_session_id := 0;
     we_are_initiator := false; dst_is_initiator := false; state_revision := 0;
     need_sync_initiator_info := false; rpc_tx_count := 0; rpc_rx_count := 0;
     ss_task_running := false |}.

(** Updates of groups of fields. *)
Definition with_saved (s : SyncRouteSession) (pi ci : gmap Z VersionAndTouchTime)
    (fn : gmap ForeignKey VersionAndTouchTime) : SyncRouteSession :=
  {| ss_my_peer_id := ss_my_peer_id s; ss_dst_peer_id := ss_dst_peer_id s;
     dst_saved_peer_info_versions := pi; dst_saved_conn_info_version := ci;
     dst_saved_foreign_network_versions := fn; unreachable_peers_for_peer_info :=
     unreachable_peers_for_peer_info s; unreachable_peers_for_conn_info :=
     unreachable_peers_for_conn_info s; last_sync_succ_timestamp := last_sync_succ_timestamp s;
     last_contact_instant := last_contact_instant s; my_session_id := my_session_id s;
     dst_session_id := dst_session_id s; we_are_initiator := we_are_initiator s;
     dst_is_initiator := dst_is_initiator s; state_revision := state_revision s;
     need_sync_initiator_info := need_sync_initiator_info s; rpc_tx_count := rpc_tx_count s;
     rpc_rx_count := rpc_rx_count s; ss_task_running := ss_task_running s |}.
Definition with_unreachable (s : SyncRouteSession) (pi ci : gmap Z Z) : SyncRouteSession :=
  {| ss_my_peer_id := ss_my_peer_id s; ss_dst_peer_id := ss_dst_peer_id s;
     dst_saved_peer_info_versions := dst_saved_peer_info_versions s; dst_saved_conn_info_version
     := dst_saved_conn_info_version s; dst_saved_foreign_network_versions :=
     dst_saved_foreign_network_versions s; unreachable_peers_for_peer_info := pi;
     unreachable_peers_for_conn_info := ci; last_sync_succ_timestamp := last_sync_succ_timestamp
     s; last_contact_instant := last_contact_instant s; my_session_id := my_session_id s;
     dst_session_id := dst_session_id s; we_are_initiator := we_are_initiator s;
     dst_is_initiator := dst_is_initiator s; state_revision := state_revision s;
     need_sync_initiator_info := need_sync_initiator_info s; rpc_tx_count := rpc_tx_count s;
     rpc_rx_count := rpc_rx_count s; ss_task_running := ss_task_running s |}.
Definition with_last_sync (s : SyncRouteSession) (t : option Z) : SyncRouteSession :=
  {| ss_my_peer_id := ss_my_peer_id s; ss_dst_peer_id := ss_dst_peer_id s;
     dst_saved_peer_info_versions := dst_saved_peer_info_versions s; dst_saved_conn_info_version
     := dst_saved_conn_info_version s; dst_saved_foreign_network_versions :=
     dst_saved_foreign_network_versions s; unreachable_peers_for_peer_info :=
     unreachable_peers_for_peer_info s; unreachable_peers_for_conn_info :=
     unreachable_peers_for_conn_info s; last_sync_succ_timestamp := t; last_contact_instant :=
     last_contact_instant s; my_session_id := my_session_id s; dst_session_id := dst_session_id
     s; we_are_initiator := we_are_initiator s; dst_is_initiator := dst_is_initiator s;
     state_revision := state_revision s; need_sync_initiator_info := need_sync_initiator_info s;
     rpc_tx_count := rpc_tx_count s; rpc_rx_count := rpc_rx_count s; ss_task_running :=
     ss_task_running s |}.
Definition with_roles (s : SyncRouteSession) (dst : Z) (we them : bool) (rev : Z) : SyncRouteSession :=
  {| ss_my_peer_id := ss_my_peer_id s; ss_dst_peer_id := ss_dst_peer_id s;
     dst_saved_peer_info_versions := dst_saved_peer_info_versions s; dst_saved_conn_info_version
     := dst_saved_conn_info_version s; dst_saved_foreign_network_versions :=
     dst_saved_foreign_network_versions s; unreachable_peers_for_peer_info :=
     unreachable_peers_for_peer_info s; unreachable_peers_for_conn_info :=
     unreachable_peers_for_conn_info s; last_sync_succ_timestamp := last_sync_succ_timestamp s;
     last_contact_instant := last_contact_instant s; my_session_id := my_session_id s;
     dst_session_id := dst; we_are_initiator := we; dst_is_initiator := them; state_revision :=
     rev; need_sync_initiator_info := need_sync_initiator_info s; rpc_tx_count := rpc_tx_count
     s; rpc_rx_count := rpc_rx_count s; ss_task_running := ss_task_running s |}.
Definition with_need (s : SyncRouteSession) (b : bool) : SyncRouteSession :=
  {| ss_my_peer_id := ss_my_peer_id s; ss_dst_peer_id := ss_dst_peer_id s;
     dst_saved_peer_info_versions := dst_saved_peer_info_versions s; dst_saved_conn_info_version
     := dst_saved_conn_info_version s; dst_saved_foreign_network_versions :=
     dst_saved_foreign_network_versions s; unreachable_peers_for_peer_info :=
     unreachable_peers_for_peer_info s; unreachable_peers_for_conn_info :=
     unreachable_peers_for_conn_info s; last_sync_succ_timestamp := last_sync_succ_timestamp s;
     last_contact_instant := last_contact_instant s; my_session_id := my_session_id s;
     dst_session_id := dst_session_id s; we_are_initiator := we_are_initiator s;
     dst_is_initiator := dst_is_initiator s; state_revision := state_revision s;
     need_sync_initiator_info := b; rpc_tx_count := rpc_tx_count s; rpc_rx_count := rpc_rx_count
     s; ss_task_running := ss_task_running s |}.
Definition with_contact (s : SyncRouteSession) (tx rx now : Z) : SyncRouteSession :=
  {| ss_my_peer_id := ss_my_peer_id s; ss_dst_peer_id := ss_dst_peer_id s;
     dst_saved_peer_info_versions := dst_saved_peer_info_versions s; dst_saved_conn_info_version
     := dst_saved_conn_info_version s; dst_saved_foreign_network_versions :=
     dst_saved_foreign_network_versions s; unreachable_peers_for_peer_info :=
     unreachable_peers_for_peer_info s; unreachable_peers_for_conn_info :=
     unreachable_peers_for_conn_info s; last_sync_succ_timestamp := last_sync_succ_timestamp s;
     last_contact_instant := now; my_session_id := my_session_id s; dst_session_id :=
     dst_session_id s; we_are_initiator := we_are_initiator s; dst_is_initiator :=
     dst_is_initiator s; state_revision := state_revision s; need_sync_initiator_info :=
     need_sync_initiator_info s; rpc_tx_count := tx; rpc_rx_count := rx; ss_task_running :=
     ss_task_running s |}.
Definition with_task (s : SyncRouteSession) (b : bool) : SyncRouteSession :=
  {| ss_my_peer_id := ss_my_peer_id s; ss_dst_peer_id := ss_dst_peer_id s;
     dst_saved_peer_info_versions := dst_saved_peer_info_versions s; dst_saved_conn_info_version
     := dst_saved_conn_info_version s; dst_saved_foreign_network_versions :=
     dst_saved_foreign_network_versions s; unreachable_peers_for_peer_info :=
     unreachable_peers_for_peer_info s; unreachable_peers_for_conn_info :=
     unreachable_peers_for_conn_info s; last_sync_succ_timestamp := last_sync_succ_timestamp s;
     last_contact_instant := last_contact_instant s; my_session_id := my_session_id s;
     dst_session_id := dst_session_id s; we_are_initiator := we_are_initiator s;
     dst_is_initiator := dst_is_initiator s; state_revision := state_revision s;
     need_sync_initiator_info := need_sync_initiator_info s; rpc_tx_count := rpc_tx_count s;
     rpc_rx_count := rpc_rx_count s; ss_task_running := b |}.

(** ** Saved versions *)

(** [map.get(k).map(|v| { v.touch(); v.get() >= version }).unwrap_or(false)]. *)
Definition check_saved {K} `{Countable K} (m : gmap K VersionAndTouchTime) (k : K) (version now : Z)
    : bool * gmap K VersionAndTouchTime :=
  match m !! k with
  | Some v => (version <=? vt_version v, <[k := vt_touch v now]> m)
  | None => (false, m)
  end.
(** [map.entry(k).or_default().set_if_larger(version)]. *)
Definition save_version {K} `{Countable K} (m : gmap K VersionAndTouchTime) (k : K) (version now : Z)
    : gmap K VersionAndTouchTime :=
  <[k := vt_set_if_larger (default (vt_default now) (m !! k)) version]> m.

Definition check_saved_peer_info_update_to_date (s : SyncRouteSession) (pid version now : Z)
    : bool * SyncRouteSession :=
  if (version =? 0) || (pid =? ss_dst_peer_id s) then (true, s) else
  let '(b, m) := check_saved (dst_saved_peer_info_versions s) pid version now in
  (b, with_saved s m (dst_saved_conn_info_version s) (dst_saved_foreign_network_versions s)).
Definition check_saved_conn_version_update_to_date (s : SyncRouteSession) (pid version now : Z)
    : bool * SyncRouteSession :=
  if (version =? 0) || (pid =? ss_dst_peer_id s) then (true, s) else
  let '(b, m) := check_saved (dst_saved_conn_info_version s) pid version now in
  (b, with_saved s (dst_saved_peer_info_versions s) m (dst_saved_foreign_network_versions s)).
Definition check_saved_foreign_network_version_update_to_date (s : SyncRouteSession)
    (key : ForeignKey) (version now : Z) : bool * SyncRouteSession :=
  if (version =? 0) || (key.1 =? ss_dst_peer_id s) then (true, s) else
  let '(b, m) := check_saved (dst_saved_foreign_network_versions s) key version now in
  (b, with_saved s (dst_saved_peer_info_versions s) (dst_saved_conn_info_version s) m).

Definition update_dst_saved_peer_info_version (s : SyncRouteSession) (infos : list RoutePeerInfo)
    (dst_peer_id now : Z) : SyncRouteSession :=
  with_saved s
    (foldl (fun m i => if peer_id i =? dst_peer_id then m
                       else save_version m (peer_id i) (version i) now)
       (dst_saved_peer_info_versions s) infos)
    (dst_saved_conn_info_version s) (dst_saved_foreign_network_versions s).

Definition save_conn_versions (m : gmap Z VersionAndTouchTime) (l : list PeerIdVersion)
    (dst_peer_id now : Z) : gmap Z VersionAndTouchTime :=
  foldl (fun m pv => if pv_peer_id pv =? dst_peer_id then m
                     else save_version m (pv_peer_id pv) (pv_version pv) now) m l.
Definition update_dst_saved_conn_bitmap_version (s : SyncRouteSession) (b : RouteConnBitmap)
    (dst_peer_id now : Z) : SyncRouteSession :=
  with_saved s (dst_saved_peer_info_versions s)
    (save_conn_versions (dst_saved_conn_info_version s) (bm_peer_ids b) dst_peer_id now)
    (dst_saved_foreign_network_versions s).
Definition update_dst_saved_conn_peer_list_version (s : SyncRouteSession) (l : RouteConnPeerList)
    (dst_peer_id now : Z) : SyncRouteSession :=
  with_saved s (dst_saved_peer_info_versions s)
    (save_conn_versions (dst_saved_conn_info_version s) (omap fst l) dst_peer_id now)
    (dst_saved_foreign_network_versions s).
Definition update_dst_saved_conn_info_version (s : SyncRouteSession) (c : ConnInfo)
    (dst_peer_id now : Z) : SyncRouteSession :=
  match c with
  | ConnBitmap b => update_dst_saved_conn_bitmap_version s b dst_peer_id now
  | ConnPeerList l => update_dst_saved_conn_peer_list_version s l dst_peer_id now
  end.

(** The [unwrap]s of the key and of the value. *)
Fixpoint save_foreign_versions (m : gmap ForeignKey VersionAndTouchTime) (l : RouteForeignNetworkInfos)
    (dst_peer_id now : Z) : comp (gmap ForeignKey VersionAndTouchTime) :=
  match l with
  | [] => Ret m
  | (key, value) :: l =>
    key ← unwrap key;
    if key.1 =? dst_peer_id then save_foreign_versions m l dst_peer_id now else
    value ← unwrap value;
    save_foreign_versions (save_version m key (fe_version value) now) l dst_peer_id now
  end.
Definition update_dst_saved_foreign_network_version (s : SyncRouteSession)
    (l : RouteForeignNetworkInfos) (dst_peer_id now : Z) : comp SyncRouteSession :=
  m ← save_foreign_versions (dst_saved_foreign_network_versions s) l dst_peer_id now;
  Ret (with_saved s (dst_saved_peer_info_versions s) (dst_saved_conn_info_version s) m).

Definition clean_dst_saved_map (s : SyncRouteSession) (now : Z) : SyncRouteSession :=
  with_saved s
    (filter (fun kv => vt_is_expired kv.2 now = false) (dst_saved_peer_info_versions s))
    (filter (fun kv => vt_is_expired kv.2 now = false) (dst_saved_conn_info_version s))
    (filter (fun kv => vt_is_expired kv.2 now = false) (dst_saved_foreign_network_versions s)).

Definition update_last_sync_succ_timestamp (s : SyncRouteSession) (next : Z) : SyncRouteSession :=
  match last_sync_succ_timestamp s with
  | None => with_last_sync s (Some next)
  | Some old => if old <? next then with_last_sync s (Some next) else s
  end.

(** ** Roles and generations *)

Definition update_initiator_flag (s : SyncRouteSession) (is_initiator : bool) : SyncRouteSession :=
  let s := if negb (eqb (we_are_initiator s) is_initiator)
           then with_roles s (dst_session_id s) is_initiator (dst_is_initiator s)
                  (wrap 64 (state_revision s + 1))
           else s in
  with_need s true.

Definition update_remote_state_locked (s : SyncRouteSession) (session_id : Z) (is_initiator : bool)
    : SyncRouteSession :=
  let session_id_changed := negb (session_id =? dst_session_id s) in
  let initiator_changed := negb (eqb is_initiator (dst_is_initiator s)) in
  let s := if session_id_changed
           then with_unreachable (with_last_sync (with_saved
                  (with_roles s session_id (we_are_initiator s) (dst_is_initiator s) (state_revision s))
                  ∅ ∅ ∅) None) ∅ ∅
           else s in
  let s := if initiator_changed
           then with_roles s (dst_session_id s) (we_are_initiator s) is_initiator (state_revision s)
           else s in
  if session_id_changed || initiator_changed
  then with_roles s (dst_session_id s) (we_are_initiator s) (dst_is_initiator s)
         (wrap 64 (state_revision s + 1))
  else s.

Definition admit_inbound_locked (s : SyncRouteSession) (session_id : Z) (is_initiator : bool)
    : bool * SyncRouteSession :=
  let current_session_id := dst_session_id s in
  if session_id =? current_session_id then (true, update_remote_state_locked s session_id is_initiator) else
  if (current_session_id =? 0) && negb is_initiator && we_are_initiator s
  then (true, update_remote_state_locked s session_id false) else
  if negb is_initiator || dst_is_initiator s then (false, s) else
  (true, update_remote_state_locked s session_id true).

Record SyncRequestSnapshot := {
  sn_my_session_id : Z; sn_state_revision : Z; sn_is_initiator : bool }.
Definition request_snapshot_locked (s : SyncRouteSession) : SyncRequestSnapshot :=
  {| sn_my_session_id := my_session_id s; sn_state_revision := state_revision s;
     sn_is_initiator := we_are_initiator s |}.
Definition request_is_current_locked (s : SyncRouteSession) (sn : SyncRequestSnapshot) : bool :=
  (sn_my_session_id sn =? my_session_id s) && (sn_state_revision sn =? state_revision s) &&
  eqb (sn_is_initiator sn) (we_are_initiator s).

Definition clear_dst_initiator_if_session_unchanged_locked (s : SyncRouteSession)
    (expected_dst_session_id : Z) : bool * SyncRouteSession :=
  if negb (dst_session_id s =? expected_dst_session_id) then (false, s) else
  (true, update_remote_state_locked s expected_dst_session_id false).

Definition clear_stale_dst_initiator (s : SyncRouteSession) (now : Z) : bool * SyncRouteSession :=
  if negb (dst_is_initiator s) || we_are_initiator s then (false, s) else
  if now - last_contact_instant s <? INITIATOR_SESSION_LIVENESS_TIMEOUT then (false, s) else
  (true, update_remote_state_locked s (dst_session_id s) false).

(** ** Executions *)

(** What the other side is known to hold. *)
Inductive SavedKey := SPeer (pid : Z) | SConn (pid : Z) | SForeign (key : ForeignKey).

Definition info_keys (l : list RoutePeerInfo) : list (SavedKey * Z) :=
  map (fun i => (SPeer (peer_id i), version i)) l.
Definition conn_keys (c : ConnInfo) : list (SavedKey * Z) :=
  map (fun pv => (SConn (pv_peer_id pv), pv_version pv))
    match c with ConnBitmap b => bm_peer_ids b | ConnPeerList l => omap fst l end.
Definition foreign_keys (l : RouteForeignNetworkInfos) : list (SavedKey * Z) :=
  omap (fun x => match x with (Some k, Some e) => Some (SForeign k, fe_version e) | _ => None end) l.

(** One operation on a session, with the versions it records for the other side. *)
Inductive session_step : SyncRouteSession -> list (SavedKey * Z) -> SyncRouteSession -> Prop :=
  | st_flag s b : session_step s [] (update_initiator_flag s b)
  | st_remote s id b : session_step s [] (update_remote_state_locked s id b)
  | st_admit s id b : session_step s [] (admit_inbound_locked s id b).2
  | st_clear s id : session_step s [] (clear_dst_initiator_if_session_unchanged_locked s id).2
  | st_stale s now : session_step s [] (clear_stale_dst_initiator s now).2
  | st_check_info s pid v now : session_step s [] (check_saved_peer_info_update_to_date s pid v now).2
  | st_check_conn s pid v now : session_step s [] (check_saved_conn_version_update_to_date s pid v now).2
  | st_check_foreign s k v now :
    session_step s [] (check_saved_foreign_network_version_update_to_date s k v now).2
  | st_save_infos s l d now :
    session_step s (info_keys l) (update_dst_saved_peer_info_version s l d now)
  | st_save_conns s c d now :
    session_step s (conn_keys c) (update_dst_saved_conn_info_version s c d now)
  | st_save_foreign s l d now s' :
    update_dst_saved_foreign_network_version s l d now = Ret s' ->
    session_step s (foreign_keys l) s'
  | st_clean s now : session_step s [] (clean_dst_saved_map s now)
  | st_last_sync s t : session_step s [] (update_last_sync_succ_timestamp s t)
  | st_unreachable s pi ci : session_step s [] (with_unreachable s pi ci)
  | st_need s b : session_step s [] (with_need s b)
  | st_contact s tx rx now : session_step s [] (with_contact s tx rx now)
  | st_task s b : session_step s [] (with_task s b).

(** [n] steps, with the log of what was recorded, each entry under the session
    id that the other side had when it was recorded. *)
Inductive session_run : nat -> SyncRouteSession -> list (Z * SavedKey * Z) -> SyncRouteSession -> Prop :=
  | run_nil s : session_run 0 s [] s
  | run_step n s l s1 log s2 :
    session_run n s log s1 -> session_step s1 l s2 ->
    session_run (S n) s (map (fun x => (dst_session_id s2, x.1, x.2)) l ++ log) s2.

(** ** Lemmas *)

Definition roles (s : SyncRouteSession) : Z * bool * bool * Z :=
  (dst_session_id s, we_are_initiator s, dst_is_initiator s, my_session_id s).

(** A step moves the revision by at most one, and by one when a role or the
    generation changes. *)
Definition revises (s s' : SyncRouteSession) : Prop :=
  exists d, 0 <= d <= 1 /\ state_revision s' = wrap 64 (state_revision s + d) /\
    (d = 0 -> roles s' = roles s) /\ my_session_id s' = my_session_id s.

Definition revision_ok (s : SyncRouteSession) : Prop := u64 (state_revision s).

Lemma revises_same s s' :
  revision_ok s -> state_revision s' = state_revision s -> roles s' = roles s -> revises s s'.
Proof.
  intros Hr He Hro. exists 0. rewrite Z.add_0_r, wrap_small by done.
  split_and!; [lia|lia|done|done|]. by injection Hro.
Qed.

Lemma remote_revises s id b : revision_ok s -> revises s (update_remote_state_locked s id b).
Proof.
  intros Hr. unfold update_remote_state_locked.
  destruct (Z.eqb_spec id (dst_session_id s)) as [->|Hid]; cbn [negb orb].
  - destruct (eqb b (dst_is_initiator s)) eqn:Eb; cbn [negb]; [by apply revises_same|].
    exists 1. split_and!; [lia..|done|lia|done].
  - exists 1. destruct (eqb b (dst_is_initiator s)); cbn [negb]; split_and!; try done; lia.
Qed.

Lemma check_saved_fields s pid v now :
  state_revision (check_saved_peer_info_update_to_date s pid v now).2 = state_revision s /\
  roles (check_saved_peer_info_update_to_date s pid v now).2 = roles s.
Proof. unfold check_saved_peer_info_update_to_date. destruct (_ || _); [done|]. by destruct (check_saved _ _ _ _). Qed.
Lemma check_conn_fields s pid v now :
  state_revision (check_saved_conn_version_update_to_date s pid v now).2 = state_revision s /\
  roles (check_saved_conn_version_update_to_date s pid v now).2 = roles s.
Proof. unfold check_saved_conn_version_update_to_date. destruct (_ || _); [done|]. by destruct (check_saved _ _ _ _). Qed.
Lemma check_foreign_fields s k v now :
  state_revision (check_saved_foreign_network_version_update_to_date s k v now).2 = state_revision s /\
  roles (check_saved_foreign_network_version_update_to_date s k v now).2 = roles s.
Proof.
  unfold check_saved_foreign_network_version_update_to_date. destruct (_ || _); [done|].
  by destruct (check_saved _ _ _ _).
Qed.

Lemma step_revises s l s' : session_step s l s' -> revision_ok s -> revises s s'.
Proof.
  destruct 1 as [s b|s id b|s id b|s id|s now|s pid v now|s pid v now|s k v now|s l d now|s c d now
    |s l d now s' H|s now|s t|s pi ci|s b|s tx rx now|s b]; intros Hr;
    try (by apply revises_same); try (by apply remote_revises).
  - unfold update_initiator_flag. destruct (eqb (we_are_initiator s) b) eqn:E; cbn [negb];
      [by apply revises_same|]. exists 1. split_and!; try done; lia.
  - unfold admit_inbound_locked. repeat case_match; cbn [snd]; try (by apply remote_revises); by apply revises_same.
  - unfold clear_dst_initiator_if_session_unchanged_locked.
    case_match; cbn [snd]; [by apply revises_same|by apply remote_revises].
  - unfold clear_stale_dst_initiator. repeat case_match; cbn [snd];
      try (by apply revises_same); by apply remote_revises.
  - apply revises_same; [done|apply check_saved_fields..].
  - apply revises_same; [done|apply check_conn_fields..].
  - apply revises_same; [done|apply check_foreign_fields..].
  - destruct c; by apply revises_same.
  - unfold update_dst_saved_foreign_network_version in H.
    destruct (save_foreign_versions _ _ _ _); [|done]. injection H as <-. by apply revises_same.
  - unfold update_last_sync_succ_timestamp. destruct (last_sync_succ_timestamp s); [case_match|];
      by apply revises_same.
Qed.

Lemma revises_ok s s' : revises s s' -> revision_ok s'.
Proof. intros (d & _ & E & _). unfold revision_ok. rewrite E. by apply wrap_range. Qed.

Lemma run_revises n s log s' :
  session_run n s log s' -> revision_ok s ->
  exists d, 0 <= d <= Z.of_nat n /\ state_revision s' = wrap 64 (state_revision s + d) /\
    (d = 0 -> roles s' = roles s) /\ revision_ok s'.
Proof.
  induction 1 as [s|n s l s1 log s2 Hrun IH Hst]; intros Hr.
  - exists 0. rewrite Z.add_0_r, wrap_small by done. by split_and!; [lia..| | |].
  - destruct (IH Hr) as (d & Hd & He & Hz & Hr1).
    pose proof (step_revises _ _ _ Hst Hr1) as Hrev. pose proof (revises_ok _ _ Hrev) as Hr2.
    destruct Hrev as (d' & Hd' & He' & Hz' & _). exists (d + d'). split; [lia|]. split_and!; try done.
    + rewrite He', He. unfold wrap. rewrite Z.add_mod_idemp_l by lia. f_equal. lia.
    + intros H0. rewrite Hz' by lia. apply Hz. lia.
Qed.

(** Every positive version of a map is in the log under the session id. *)
Definition map_logged {K} `{Countable K} (f : K -> SavedKey) (m : gmap K VersionAndTouchTime) (id : Z)
    (log : list (Z * SavedKey * Z)) : Prop :=
  forall k vt, m !! k = Some vt -> 0 < vt_version vt -> (id, f k, vt_version vt) ∈ log.

Definition saved_logged (s : SyncRouteSession) (log : list (Z * SavedKey * Z)) : Prop :=
  map_logged SPeer (dst_saved_peer_info_versions s) (dst_session_id s) log /\
  map_logged SConn (dst_saved_conn_info_version s) (dst_session_id s) log /\
  map_logged SForeign (dst_saved_foreign_network_versions s) (dst_session_id s) log.

Section logged.
Context {K : Type} `{Countable K} (f : K -> SavedKey).
Implicit Types (m : gmap K VersionAndTouchTime) (log : list (Z * SavedKey * Z)).

Lemma logged_empty id log : map_logged f ∅ id log.
Proof. intros k vt Hk. by rewrite lookup_empty in Hk. Qed.

Lemma logged_more m id log log' : (forall x, x ∈ log -> x ∈ log') -> map_logged f m id log -> map_logged f m id log'.
Proof. intros Hi Hm k vt Hk Hv. apply Hi. by apply Hm. Qed.

Lemma logged_save m id log k v now :
  map_logged f m id log -> (id, f k, v) ∈ log -> map_logged f (save_version m k v now) id log.
Proof.
  intros Hm Hin k' vt. unfold save_version. destruct (decide (k = k')) as [<-|Hne].
  - rewrite lookup_insert_eq. intros [= <-].
    destruct (m !! k) as [old|] eqn:E; cbn.
    + intros Hv. destruct (Z.max_spec (vt_version old) v) as [[? ->]|[? Hx]]; [done|].
      rewrite Hx in *. by apply Hm.
    + intros Hv. by rewrite Z.max_r by lia.
  - rewrite lookup_insert_ne by done. apply Hm.
Qed.

Lemma logged_check m id log k v now : map_logged f m id log -> map_logged f (check_saved m k v now).2 id log.
Proof.
  intros Hm. unfold check_saved. destruct (m !! k) as [old|] eqn:E; [|done]. intros k' vt. cbn [snd].
  destruct (decide (k = k')) as [<-|Hne].
  - rewrite lookup_insert_eq. intros [= <-]. cbn. by apply Hm.
  - rewrite lookup_insert_ne by done. apply Hm.
Qed.

Lemma logged_filter P `{!forall x : K * VersionAndTouchTime, Decision (P x)} m id log :
  map_logged f m id log -> map_logged f (filter P m) id log.
Proof. intros Hm k vt [Hk _]%map_lookup_filter_Some. by apply Hm. Qed.
End logged.

Lemma logged_infos d now l : forall m id log,
  map_logged SPeer m id log -> (forall x, x ∈ info_keys l -> (id, x.1, x.2) ∈ log) ->
  map_logged SPeer (foldl (fun m i => if peer_id i =? d then m
                       else save_version m (peer_id i) (version i) now) m l) id log.
Proof.
  induction l as [|i l IH]; intros m id log Hm Hin; cbn [foldl]; [done|].
  apply IH; [|intros x Hx; apply Hin; by right]. destruct (peer_id i =? d); [done|].
  apply logged_save; [done|]. apply (Hin (SPeer (peer_id i), version i)). by left.
Qed.

Lemma logged_conns d now l : forall m id log,
  map_logged SConn m id log ->
  (forall pv, pv ∈ l -> (id, SConn (pv_peer_id pv), pv_version pv) ∈ log) ->
  map_logged SConn (save_conn_versions m l d now) id log.
Proof.
  unfold save_conn_versions. induction l as [|pv l IH]; intros m id log Hm Hin; cbn [foldl]; [done|].
  apply IH; [|intros x Hx; apply Hin; by right]. destruct (pv_peer_id pv =? d); [done|].
  apply logged_save; [done|]. apply Hin. by left.
Qed.

Lemma logged_foreign d now l : forall m m' id log,
  save_foreign_versions m l d now = Ret m' -> map_logged SForeign m id log ->
  (forall x, x ∈ foreign_keys l -> (id, x.1, x.2) ∈ log) -> map_logged SForeign m' id log.
Proof.
  induction l as [|[[k|] e] l IH]; intros m m' id log; cbn [save_foreign_versions]; [by intros [= <-]| |done].
  cbn [unwrap mbind comp_bind]. destruct (k.1 =? d).
  - intros Hs Hm Hin. eapply IH; [done..|]. intros x Hx. apply Hin. destruct e; [by right|done].
  - destruct e as [e|]; [|done]. cbn [unwrap mbind comp_bind]. intros Hs Hm Hin.
    eapply IH; [done| |intros x Hx; apply Hin; by right].
    apply logged_save; [done|]. apply (Hin (SForeign k, fe_version e)). by left.
Qed.

Lemma logged_same s s' log log' :
  (forall x, x ∈ log -> x ∈ log') -> dst_session_id s' = dst_session_id s ->
  dst_saved_peer_info_versions s' = dst_saved_peer_info_versions s ->
  dst_saved_conn_info_version s' = dst_saved_conn_info_version s ->
  dst_saved_foreign_network_versions s' = dst_saved_foreign_network_versions s ->
  saved_logged s log -> saved_logged s' log'.
Proof.
  intros Hi E0 E1 E2 E3 (H1 & H2 & H3). unfold saved_logged. rewrite E0, E1, E2, E3.
  split_and!; by eapply logged_more.
Qed.

Lemma remote_logged s id b log : saved_logged s log -> saved_logged (update_remote_state_locked s id b) log.
Proof.
  intros H. unfold update_remote_state_locked.
  destruct (Z.eqb_spec id (dst_session_id s)) as [->|Hid]; cbn [negb orb].
  - destruct (eqb b (dst_is_initiator s)); cbn [negb]; [done|]. by apply (logged_same s _ log).
  - destruct (eqb b (dst_is_initiator s)); cbn [negb]; split_and!; apply logged_empty.
Qed.

Lemma step_logged s l s' log :
  session_step s l s' -> saved_logged s log ->
  saved_logged s' (map (fun x => (dst_session_id s', x.1, x.2)) l ++ log).
Proof.
  destruct 1 as [s b|s id b|s id b|s id|s now|s pid v now|s pid v now|s k v now|s l d now|s c d now
    |s l d now s' Hs|s now|s t|s pi ci|s b|s tx rx now|s b]; intros H; cbn [map app];
    try (by apply (logged_same s _ log)); try (by apply remote_logged).
  - unfold update_initiator_flag. case_match; by apply (logged_same s _ log).
  - unfold admit_inbound_locked. repeat case_match; cbn [snd]; try done; by apply remote_logged.
  - unfold clear_dst_initiator_if_session_unchanged_locked.
    case_match; cbn [snd]; [done|by apply remote_logged].
  - unfold clear_stale_dst_initiator. repeat case_match; cbn [snd]; try done; by apply remote_logged.
  - unfold check_saved_peer_info_update_to_date. destruct (_ || _); [done|]. destruct H as (H1 & H2 & H3).
    pose proof (logged_check SPeer _ _ _ pid v now H1). destruct (check_saved _ _ _ _). done.
  - unfold check_saved_conn_version_update_to_date. destruct (_ || _); [done|]. destruct H as (H1 & H2 & H3).
    pose proof (logged_check SConn _ _ _ pid v now H2). destruct (check_saved _ _ _ _). done.
  - unfold check_saved_foreign_network_version_update_to_date. destruct (_ || _); [done|].
    destruct H as (H1 & H2 & H3).
    pose proof (logged_check SForeign _ _ _ k v now H3). destruct (check_saved _ _ _ _). done.
  - destruct H as (H1 & H2 & H3). cbn.
    split_and!; cbn; [|eapply logged_more; [|done]; intros; apply elem_of_app; by right..].
    apply logged_infos; [eapply logged_more; [|done]; intros; apply elem_of_app; by right|].
    intros x Hx. apply elem_of_app. left. apply list_elem_of_fmap. by exists x.
  - assert (dst_session_id (update_dst_saved_conn_info_version s c d now) = dst_session_id s) as E
      by (by destruct c).
    assert (forall l, conn_keys c = map (fun pv => (SConn (pv_peer_id pv), pv_version pv)) l ->
      forall pv, pv ∈ l -> (dst_session_id s, SConn (pv_peer_id pv), pv_version pv) ∈
        map (fun x => (dst_session_id s, x.1, x.2)) (conn_keys c) ++ log) as Hin.
    { intros l -> pv Hpv. apply elem_of_app. left. rewrite map_map. apply list_elem_of_fmap. by exists pv. }
    rewrite E. destruct H as (H1 & H2 & H3).
    destruct c as [b|l]; (split_and!; cbn; [eapply logged_more; [|done]; intros; apply elem_of_app; by right| |
      eapply logged_more; [|done]; intros; apply elem_of_app; by right]);
      (apply logged_conns; [eapply logged_more; [|done]; intros; apply elem_of_app; by right|by apply Hin]).
  - unfold update_dst_saved_foreign_network_version in Hs.
    destruct (save_foreign_versions _ _ _ _) as [m|] eqn:E; [|done]. injection Hs as <-.
    destruct H as (H1 & H2 & H3). cbn.
    split_and!; cbn; [eapply logged_more; [|done]; intros; apply elem_of_app; by right..|].
    eapply logged_foreign; [done| |].
    + eapply logged_more; [|done]. intros. apply elem_of_app. by right.
    + intros x Hx. apply elem_of_app. left. apply list_elem_of_fmap. by exists x.
  - destruct H as (H1 & H2 & H3). split_and!; by apply logged_filter.
  - unfold update_last_sync_succ_timestamp. destruct (last_sync_succ_timestamp s); [case_match|];
      by apply (logged_same s _ log).
Qed.

(** ** Theorems *)

(** A response is committed only to the session its request was made in:
    if the snapshot taken with the request is still current after any sequence
    of (fewer than 2^64) operations, then neither the generation of the other
    side nor either side's role changed at any point in between - not even to
    something else and back. *)
Theorem stale_responses_discarded (n m : nat) (s s1 s2 : SyncRouteSession)
    (log1 log2 : list (Z * SavedKey * Z)) :
  session_run n s log1 s1 -> session_run m s1 log2 s2 -> revision_ok s ->
  Z.of_nat (n + m) < 2 ^ 64 ->
  request_is_current_locked s2 (request_snapshot_locked s) = true ->
  roles s1 = roles s /\ roles s2 = roles s.
Proof.
  intros H1 H2 Hr Hn Hc.
  destruct (run_revises _ _ _ _ H1 Hr) as (d1 & Hd1 & E1 & Z1 & Hr1).
  destruct (run_revises _ _ _ _ H2 Hr1) as (d2 & Hd2 & E2 & Z2 & _).
  unfold request_is_current_locked in Hc. cbn in Hc.
  apply andb_prop in Hc as [[_ Hc]%andb_prop _]. apply Z.eqb_eq in Hc.
  assert (d1 + d2 = 0) as Hd.
  { rewrite E2, E1 in Hc. unfold wrap in Hc. rewrite Z.add_mod_idemp_l in Hc by lia.
    unfold revision_ok, in_range in Hr.
    assert (state_revision s + d1 + d2 < 2 ^ 64 \/ 2 ^ 64 <= state_revision s + d1 + d2) as [?|?] by lia.
    - rewrite Z.mod_small in Hc by lia. lia.
    - rewrite <- (Z_mod_plus_full _ (-1) (2 ^ 64)), Z.mod_small in Hc by lia. lia. }
  rewrite Z2, Z1 by lia. done.
Qed.

Lemma stale_responses_discarded_witness :
  let s := SyncRouteSession_new 1 2 77 0 in
  let s1 := with_contact s 0 1 5 in
  let s2 := update_last_sync_succ_timestamp s1 6 in
  request_is_current_locked s2 (request_snapshot_locked s) = true /\ roles s1 = roles s.
Proof.
  intros s s1 s2. split; [reflexivity|].
  refine (proj1 (stale_responses_discarded 1 1 s s1 s2 _ _ _ _ _ _ _)).
  - exact (run_step 0 s [] s [] s1 (run_nil s) (st_contact s 0 1 5)).
  - exact (run_step 0 s1 [] s1 [] s2 (run_nil s1) (st_last_sync s1 6)).
  - unfold revision_ok, in_range. cbn. lia.
  - vm_compute. reflexivity.
  - reflexivity.
Defined.

(** What counts as known to the other side was recorded in this generation
    of it: in a session that started empty, information, connections or a
    foreign network are skipped as up to date only if a version at least as new
    was recorded while the other side had its present session id; a restart of
    the other side therefore forgets everything. *)
Theorem skips_only_what_this_generation_has (n : nat) (me dst id now0 : Z)
    (s : SyncRouteSession) (log : list (Z * SavedKey * Z)) :
  session_run n (SyncRouteSession_new me dst id now0) log s ->
  (forall pid v now, 0 < v -> pid <> ss_dst_peer_id s ->
     (check_saved_peer_info_update_to_date s pid v now).1 = true ->
     exists w, v <= w /\ (dst_session_id s, SPeer pid, w) ∈ log) /\
  (forall pid v now, 0 < v -> pid <> ss_dst_peer_id s ->
     (check_saved_conn_version_update_to_date s pid v now).1 = true ->
     exists w, v <= w /\ (dst_session_id s, SConn pid, w) ∈ log) /\
  (forall key v now, 0 < v -> key.1 <> ss_dst_peer_id s ->
     (check_saved_foreign_network_version_update_to_date s key v now).1 = true ->
     exists w, v <= w /\ (dst_session_id s, SForeign key, w) ∈ log).
Proof.
  intros Hrun. assert (saved_logged s log) as (H1 & H2 & H3).
  { remember (SyncRouteSession_new me dst id now0) as s0 eqn:E0.
    induction Hrun as [s|k s l s1 log s2 Hrun IH Hst].
    - subst s. split_and!; apply logged_empty.
    - by eapply step_logged; [|apply IH]. }
  assert (forall {K} `{Countable K} (f : K -> SavedKey) m k v now, map_logged f m (dst_session_id s) log ->
    0 < v -> (check_saved m k v now).1 = true ->
    exists w, v <= w /\ (dst_session_id s, f k, w) ∈ log) as Hgen.
  { intros K ?? f m k v now Hm Hv. unfold check_saved. destruct (m !! k) as [vt|] eqn:E; [|done].
    cbn [fst]. intros Hle. bools. exists (vt_version vt). split; [done|]. apply Hm; [done|lia]. }
  split_and!; intros k v now Hv Hne.
  - unfold check_saved_peer_info_update_to_date.
    rewrite (proj2 (Z.eqb_neq v 0)), (proj2 (Z.eqb_neq _ _)) by (done || lia). cbn [orb].
    intros H. apply (Hgen _ _ _ SPeer _ k v now H1 Hv). by destruct (check_saved _ _ _ _).
  - unfold check_saved_conn_version_update_to_date.
    rewrite (proj2 (Z.eqb_neq v 0)), (proj2 (Z.eqb_neq _ _)) by (done || lia). cbn [orb].
    intros H. apply (Hgen _ _ _ SConn _ k v now H2 Hv). by destruct (check_saved _ _ _ _).
  - unfold check_saved_foreign_network_version_update_to_date.
    rewrite (proj2 (Z.eqb_neq v 0)), (proj2 (Z.eqb_neq _ _)) by (done || lia). cbn [orb].
    intros H. apply (Hgen _ _ _ SForeign _ k v now H3 Hv). by destruct (check_saved _ _ _ _).
Qed.

Lemma skips_only_what_this_generation_has_witness :
  let s := (admit_inbound_locked (SyncRouteSession_new 1 2 77 0) 9 true).2 in
  let s2 := update_dst_saved_conn_info_version s
    (ConnPeerList [(Some {| pv_peer_id := 5; pv_version := 3 |}, [])]) 2 10 in
  (check_saved_conn_version_update_to_date s2 5 3 11).1 = true /\
  exists w, 3 <= w /\ (9, SConn 5, w) ∈ [(9, SConn 5, 3)].
Proof.
  intros s s2. split; [reflexivity|].
  set (c := ConnPeerList [(Some {| pv_peer_id := 5; pv_version := 3 |}, [])]).
  refine (proj1 (proj2 (skips_only_what_this_generation_has 2 1 2 77 0 s2 _
    (run_step 1 _ (conn_keys c) s [] s2
      (run_step 0 _ [] _ [] s (run_nil (SyncRouteSession_new 1 2 77 0)) (st_admit _ 9 true))
      (st_save_conns s c 2 10)))) 5 3 11 _ _ _); [lia|vm_compute; discriminate|reflexivity].
Defined.
