(* ===== verification/RouteSync.v ===== *)
(** Route synchronisation: [PeerRouteServiceImpl] and [RouteSessionManager] of
    [peers/route/peer_ospf_route.rs].

    A service owns the synced information, the route tables built from it, the
    connection bitmap it sends, and a session per peer.  An outbound exchange is
    two steps, the request ([sync_start]) and the commit of its response
    ([sync_finish]), with the session lock released in between; an inbound one
    is [do_sync_route_info].  The interface of the peer manager and the peer
    context are parameters: the snapshot of direct peers and [ServiceContext]. *)

From stdpp Require Import list gmap sorting.
From S2P Require Import Prelude RouteGraph RouteMessages RouteWire RouteTable SyncedRoute SyncSession.
Local Open Scope Z_scope.

Inductive PeerIdentityType := Admin | Credential | SharedNode.
#[export] Instance PeerIdentityType_eq_dec : EqDecision PeerIdentityType.
Proof. solve_decision. Defined.

Record InterfacePeerSnapshot := {
  is_peers : gset Z; is_identity_types : gmap Z (option PeerIdentityType);
  is_public_keys : gmap Z (option (list Z)) }.

(** What the service reads of the peer context. *)
Record ServiceContext := {
  sx_peer : PeerContext; sx_secure_mode : bool; sx_prefer_peer_relay : bool;
  sx_acl_group_declarations : list (list Z * list Z); sx_force_use_conn_list : bool;
  sx_calculate_cost : Z -> Z -> Z }.

Definition REMOVE_DEAD_PEER_INFO_AFTER : Z := 3660 * 1000.
Definition REMOVE_UNREACHABLE_PEER_INFO_AFTER : Z := 90 * 1000.

(** The entries of a [BTreeMap] and the elements of a [BTreeSet]. *)
Definition key_le {V} (a b : Z * V) : Prop := a.1 <= b.1.
#[export] Instance key_le_dec {V} (a b : Z * V) : Decision (key_le a b) := Z.le_dec a.1 b.1.
Definition btree_list {V} (m : gmap Z V) : list (Z * V) := merge_sort key_le (map_to_list m).
Definition btree_set (X : gset Z) : list Z := merge_sort Z.le (elements X).

Section service.
Context {T : Target} {H : MinHeap} {G : PetGraph} {N : RouteNet} {O : HashOrder}.
Context {om : OrderedMap} {tl : TrustLib} {pw : ProstWire} {pr : ProstRoute}.

Record PeerRouteServiceImpl := {
  sv_my_peer_id : Z; sv_my_peer_route_id : Z;
  (** a session with the number that stands for its [Arc] *)
  sessions : gmap Z (nat * SyncRouteSession);
  next_session : nat;
  stopped : bool;
  route_table : OspfRouteTable;
  route_table_with_cost : OspfRouteTable;
  (** keyed by network name and secret digest *)
  foreign_network_owner_map : gmap (list Z * list Z) (list Z);
  foreign_network_my_peer_id_map : gmap (list Z * Z) Z;
  synced_route_info : SyncedRouteInfo;
  self_public_ipv6_addr_lease : option Ipv6Inet;
  cached_local_conn_map : RouteConnBitmap;
  cached_local_conn_map_version : Z;
  cached_interface_peer_snapshot : InterfacePeerSnapshot;
  self_conn_info_withdrawn : bool;
  peer_info_last_update : Z;
  (** the keys last given to [PeerContext::update_trusted_keys] *)
  published_trusted_keys : gmap (list Z) TrustedKeyMetadata }.

(** Updates of groups of fields. *)
Definition with_synced (sv : PeerRouteServiceImpl) (s : SyncedRouteInfo) : PeerRouteServiceImpl :=
  {| sv_my_peer_id := sv_my_peer_id sv; sv_my_peer_route_id := sv_my_peer_route_id sv; sessions
     := sessions sv; next_session := next_session sv; stopped := stopped sv; route_table :=
     route_table sv; route_table_with_cost := route_table_with_cost sv;
     foreign_network_owner_map := foreign_network_owner_map sv; foreign_network_my_peer_id_map
     := foreign_network_my_peer_id_map sv; synced_route_info := s; self_public_ipv6_addr_lease
     := self_public_ipv6_addr_lease sv; cached_local_conn_map := cached_local_conn_map sv;
     cached_local_conn_map_version := cached_local_conn_map_version sv;
     cached_interface_peer_snapshot := cached_interface_peer_snapshot sv;
     self_conn_info_withdrawn := self_conn_info_withdrawn sv; peer_info_last_update :=
     peer_info_last_update sv; published_trusted_keys := published_trusted_keys sv |}.
Definition with_sessions (sv : PeerRouteServiceImpl) (m : gmap Z (nat * SyncRouteSession)) (n : nat) : PeerRouteServiceImpl :=
  {| sv_my_peer_id := sv_my_peer_id sv; sv_my_peer_route_id := sv_my_peer_route_id sv; sessions
     := m; next_session := n; stopped := stopped sv; route_table := route_table sv;
     route_table_with_cost := route_table_with_cost sv; foreign_network_owner_map :=
     foreign_network_owner_map sv; foreign_network_my_peer_id_map :=
     foreign_network_my_peer_id_map sv; synced_route_info := synced_route_info sv;
     self_public_ipv6_addr_lease := self_public_ipv6_addr_lease sv; cached_local_conn_map :=
     cached_local_conn_map sv; cached_local_conn_map_version := cached_local_conn_map_version
     sv; cached_interface_peer_snapshot := cached_interface_peer_snapshot sv;
     self_conn_info_withdrawn := self_conn_info_withdrawn sv; peer_info_last_update :=
     peer_info_last_update sv; published_trusted_keys := published_trusted_keys sv |}.
Definition with_tables (sv : PeerRouteServiceImpl) (t tc : OspfRouteTable) : PeerRouteServiceImpl :=
  {| sv_my_peer_id := sv_my_peer_id sv; sv_my_peer_route_id := sv_my_peer_route_id sv; sessions
     := sessions sv; next_session := next_session sv; stopped := stopped sv; route_table := t;
     route_table_with_cost := tc; foreign_network_owner_map := foreign_network_owner_map sv;
     foreign_network_my_peer_id_map := foreign_network_my_peer_id_map sv; synced_route_info :=
     synced_route_info sv; self_public_ipv6_addr_lease := self_public_ipv6_addr_lease sv;
     cached_local_conn_map := cached_local_conn_map sv; cached_local_conn_map_version :=
     cached_local_conn_map_version sv; cached_interface_peer_snapshot :=
     cached_interface_peer_snapshot sv; self_conn_info_withdrawn := self_conn_info_withdrawn sv;
     peer_info_last_update := peer_info_last_update sv; published_trusted_keys :=
     published_trusted_keys sv |}.
Definition with_owners (sv : PeerRouteServiceImpl) (o : gmap (list Z * list Z) (list Z)) (m : gmap (list Z * Z) Z) : PeerRouteServiceImpl :=
  {| sv_my_peer_id := sv_my_peer_id sv; sv_my_peer_route_id := sv_my_peer_route_id sv; sessions
     := sessions sv; next_session := next_session sv; stopped := stopped sv; route_table :=
     route_table sv; route_table_with_cost := route_table_with_cost sv;
     foreign_network_owner_map := o; foreign_network_my_peer_id_map := m; synced_route_info :=
     synced_route_info sv; self_public_ipv6_addr_lease := self_public_ipv6_addr_lease sv;
     cached_local_conn_map := cached_local_conn_map sv; cached_local_conn_map_version :=
     cached_local_conn_map_version sv; cached_interface_peer_snapshot :=
     cached_interface_peer_snapshot sv; self_conn_info_withdrawn := self_conn_info_withdrawn sv;
     peer_info_last_update := peer_info_last_update sv; published_trusted_keys :=
     published_trusted_keys sv |}.
Definition with_bitmap (sv : PeerRouteServiceImpl) (b : RouteConnBitmap) (v : Z) : PeerRouteServiceImpl :=
  {| sv_my_peer_id := sv_my_peer_id sv; sv_my_peer_route_id := sv_my_peer_route_id sv; sessions
     := sessions sv; next_session := next_session sv; stopped := stopped sv; route_table :=
     route_table sv; route_table_with_cost := route_table_with_cost sv;
     foreign_network_owner_map := foreign_network_owner_map sv; foreign_network_my_peer_id_map
     := foreign_network_my_peer_id_map sv; synced_route_info := synced_route_info sv;
     self_public_ipv6_addr_lease := self_public_ipv6_addr_lease sv; cached_local_conn_map := b;
     cached_local_conn_map_version := v; cached_interface_peer_snapshot :=
     cached_interface_peer_snapshot sv; self_conn_info_withdrawn := self_conn_info_withdrawn sv;
     peer_info_last_update := peer_info_last_update sv; published_trusted_keys :=
     published_trusted_keys sv |}.
Definition with_last_update (sv : PeerRouteServiceImpl) (t : Z) : PeerRouteServiceImpl :=
  {| sv_my_peer_id := sv_my_peer_id sv; sv_my_peer_route_id := sv_my_peer_route_id sv; sessions
     := sessions sv; next_session := next_session sv; stopped := stopped sv; route_table :=
     route_table sv; route_table_with_cost := route_table_with_cost sv;
     foreign_network_owner_map := foreign_network_owner_map sv; foreign_network_my_peer_id_map
     := foreign_network_my_peer_id_map sv; synced_route_info := synced_route_info sv;
     self_public_ipv6_addr_lease := self_public_ipv6_addr_lease sv; cached_local_conn_map :=
     cached_local_conn_map sv; cached_local_conn_map_version := cached_local_conn_map_version
     sv; cached_interface_peer_snapshot := cached_interface_peer_snapshot sv;
     self_conn_info_withdrawn := self_conn_info_withdrawn sv; peer_info_last_update := t;
     published_trusted_keys := published_trusted_keys sv |}.
Definition with_trusted_keys (sv : PeerRouteServiceImpl) (k : gmap (list Z) TrustedKeyMetadata) : PeerRouteServiceImpl :=
  {| sv_my_peer_id := sv_my_peer_id sv; sv_my_peer_route_id := sv_my_peer_route_id sv; sessions
     := sessions sv; next_session := next_session sv; stopped := stopped sv; route_table :=
     route_table sv; route_table_with_cost := route_table_with_cost sv;
     foreign_network_owner_map := foreign_network_owner_map sv; foreign_network_my_peer_id_map
     := foreign_network_my_peer_id_map sv; synced_route_info := synced_route_info sv;
     self_public_ipv6_addr_lease := self_public_ipv6_addr_lease sv; cached_local_conn_map :=
     cached_local_conn_map sv; cached_local_conn_map_version := cached_local_conn_map_version
     sv; cached_interface_peer_snapshot := cached_interface_peer_snapshot sv;
     self_conn_info_withdrawn := self_conn_info_withdrawn sv; peer_info_last_update :=
     peer_info_last_update sv; published_trusted_keys := k |}.
Implicit Types sv : PeerRouteServiceImpl.

(** ** Own connections *)

Definition is_credential_node (cx : ServiceContext) : bool :=
  match cx_network_secret (sx_peer cx) with None => sx_secure_mode cx | Some _ => false end.
Definition peer_relay_projection_enabled (cx : ServiceContext) : bool :=
  sx_prefer_peer_relay cx && negb (is_credential_node cx).

Definition snapshot_is_credential (sn : InterfacePeerSnapshot) (pid : Z) : bool :=
  bool_decide (is_identity_types sn !! pid = Some (Some Credential)).

(** A credential peer that may relay. *)
Definition eligible_relay (s : SyncedRouteInfo) (sn : InterfacePeerSnapshot) (pid : Z) : bool :=
  snapshot_is_credential sn pid &&
  negb (bool_decide (pid ∈ suppressed_non_reusable_credential_peers s)) &&
  match is_public_keys sn !! pid with
  | Some (Some public_key) =>
    if SyncedRoute.get_avoid_relay_data s pid then false else
    match get_credential_info_by_pubkey s public_key with
    | Some credential => tc_allow_relay credential
    | None => false
    end
  | _ => false
  end.

Definition derive_advertised_connected_peers sv (cx : ServiceContext) (sn : InterfacePeerSnapshot)
    : gset Z :=
  let s := synced_route_info sv in
  if self_conn_info_withdrawn sv then ∅ else
  if negb (peer_relay_projection_enabled cx) then is_peers sn else
  let eligible_relays := filter (fun p => eligible_relay s sn p = true) (is_peers sn) in
  if bool_decide (eligible_relays = ∅) then is_peers sn else
  let covered_targets : gset Z := union_list (map (fun relay =>
    match om_get (conn_map s) relay with
    | None => ∅
    | Some c => filter (fun t => t ∈ is_peers sn ∖ eligible_relays /\ snapshot_is_credential sn t = true /\
                  ~ t ∈ suppressed_non_reusable_credential_peers s)
                  (connected_peers c)
    end) (elements eligible_relays)) in
  is_peers sn ∖ covered_targets.

Definition reconcile_my_conn_info sv (cx : ServiceContext) (sn : InterfacePeerSnapshot)
    (interface_snapshot_changed : bool) (now : Z) : PeerRouteServiceImpl * bool :=
  let advertised := derive_advertised_connected_peers sv cx sn in
  let '(s, changed) := update_my_conn_info (synced_route_info sv) (sv_my_peer_id sv) advertised now in
  let sv := with_synced sv s in
  if changed then (sv, true) else
  if interface_snapshot_changed && peer_relay_projection_enabled cx
  then (with_synced sv (inc_version (synced_route_info sv)), true) else (sv, false).

Definition service_update_my_peer_info sv (cx : ServiceContext) (now : Z) : PeerRouteServiceImpl * bool :=
  let '(s, changed) := update_my_peer_info (synced_route_info sv) (sv_my_peer_id sv)
    (sv_my_peer_route_id sv) (sx_peer cx) (self_public_ipv6_addr_lease sv) now in
  (with_synced sv s, changed).

(** ** Route tables *)

Definition route_snapshot (s : SyncedRouteInfo) : OspfRouteSnapshot :=
  {| sn_peer_infos := om_iter (SyncedRoute.peer_infos s);
     sn_conn_map := map (fun kv => (kv.1, btree_set (connected_peers kv.2))) (om_iter (conn_map s));
     sn_suppressed_peer_ids := suppressed_non_reusable_credential_peers s;
     sn_version := s_version s |}.

(** The first row of this node is replaced. *)
Fixpoint replace_self_row (me : Z) (peers : list Z) (l : list (Z * list Z)) : list (Z * list Z) :=
  match l with
  | [] => []
  | (p, c) :: l => if p =? me then (p, peers) :: l else (p, c) :: replace_self_row me peers l
  end.
Definition local_route_snapshot sv (cx : ServiceContext) : OspfRouteSnapshot :=
  let sn := route_snapshot (synced_route_info sv) in
  if negb (peer_relay_projection_enabled cx) && negb (self_conn_info_withdrawn sv) then sn else
  {| sn_peer_infos := sn_peer_infos sn;
     sn_conn_map := replace_self_row (sv_my_peer_id sv)
       (btree_set (is_peers (cached_interface_peer_snapshot sv))) (sn_conn_map sn);
     sn_suppressed_peer_ids := sn_suppressed_peer_ids sn; sn_version := sn_version sn |}.

Definition update_route_table sv (cx : ServiceContext) : comp PeerRouteServiceImpl :=
  let sn := local_route_snapshot sv cx in
  t ← build_from_snapshot (route_table sv) (sv_my_peer_id sv) sn LeastHop (sx_calculate_cost cx);
  tc ← build_from_snapshot (route_table_with_cost sv) (sv_my_peer_id sv) sn LeastCost (sx_calculate_cost cx);
  Ret (with_tables sv t tc).

Definition update_foreign_network_owner_map sv : PeerRouteServiceImpl :=
  let '(owners, mine) := foldl (fun st kv =>
    let '(owners, mine) := st in
    let key : ForeignKey := kv.1 in let entry : ForeignNetworkRouteInfoEntry := kv.2 in
    if (key.1 =? sv_my_peer_id sv) || negb (peer_reachable (route_table sv) key.1) ||
       bool_decide (foreign_peer_ids entry = [])
    then (owners, mine) else
    let digest := if Nat.eqb (length (network_secret_digest entry)) 32
                  then network_secret_digest entry else repeat 0 32 in
    (<[(key.2, digest) := default [] (owners !! (key.2, digest)) ++ [my_peer_id_for_this_network entry]]> owners,
     <[(key.2, my_peer_id_for_this_network entry) := key.1]> mine))
    (∅, ∅) (hash_iter (foreign_network (synced_route_info sv))) in
  with_owners sv owners mine.

(** *** The connection bitmap *)

Definition add_to_all_peer_ids (m : gmap Z Z) (pid version : Z) : gmap Z Z :=
  <[pid := match m !! pid with Some x => if x <? version then version else x | None => version end]> m.
Definition all_peer_ids (s : SyncedRouteInfo) (reachable : Z -> bool) : gmap Z Z :=
  foldl (fun m kv =>
    if negb (reachable kv.1) then m else
    foldl (fun m dst => add_to_all_peer_ids m dst 0)
      (add_to_all_peer_ids m kv.1 (conn_version kv.2)) (btree_set (connected_peers kv.2)))
    ∅ (om_iter (conn_map s)).

(** [bitmap[i / 8] |= 1 << (i % 8)]; indexing panics past the end. *)
Definition set_bit (bitmap : list Z) (i : Z) : comp (list Z) :=
  byte ← unwrap (bitmap !! Z.to_nat (i / 8));
  Ret (<[Z.to_nat (i / 8) := Z.lor byte (Z.shiftl 1 (i mod 8))]> bitmap).

Fixpoint set_row (connected : gset Z) (base idx : Z) (l : list PeerIdVersion) (bitmap : list Z)
    : comp (list Z) :=
  match l with
  | [] => Ret bitmap
  | other :: l =>
    bitmap ← if bool_decide (pv_peer_id other ∈ connected) then set_bit bitmap (base + idx)
             else Ret bitmap;
    set_row connected base (idx + 1) l bitmap
  end.
Fixpoint set_rows (s : SyncedRouteInfo) (all : list PeerIdVersion) (peer_idx : Z)
    (l : list PeerIdVersion) (bitmap : list Z) : comp (list Z) :=
  match l with
  | [] => Ret bitmap
  | pv :: l =>
    bitmap ← match om_get (conn_map s) (pv_peer_id pv) with
             | None => Ret bitmap
             | Some c => set_row (connected_peers c) (peer_idx * len all) 0 all bitmap
             end;
    set_rows s all (peer_idx + 1) l bitmap
  end.
Definition make_conn_bitmap (s : SyncedRouteInfo) (reachable : Z -> bool) : comp RouteConnBitmap :=
  let ids := map (fun kv => {| pv_peer_id := kv.1; pv_version := kv.2 |})
               (btree_list (all_peer_ids s reachable)) in
  bitmap ← set_rows s ids 0 ids (repeat 0 (Z.to_nat ((len ids * len ids + 7) / 8)));
  Ret {| bm_peer_ids := ids; bm_bitmap := bitmap |}.

Definition update_route_table_and_cached_local_conn_bitmap sv (cx : ServiceContext) (now : Z)
    : comp PeerRouteServiceImpl :=
  let sv := with_last_update sv now in
  sv ← update_route_table sv cx;
  let synced_version := s_version (synced_route_info sv) in
  b ← make_conn_bitmap (synced_route_info sv) (topology_peer_reachable (route_table sv));
  (** [set_if_larger] *)
  if cached_local_conn_map_version sv <? synced_version
  then Ret (with_bitmap sv b synced_version) else Ret sv.

(** ** Building a request *)

(** Stop at an entry older than the last successful exchange. *)
Definition older_than_sync (last_update last_sync : option Z) : bool :=
  match last_update, last_sync with Some u, Some t => u <? t | _, _ => false end.

Fixpoint route_info_loop (reachable : Z -> bool) (now : Z) (last_sync : option Z)
    (l : list (Z * RoutePeerInfo)) (s : SyncRouteSession) (acc : list RoutePeerInfo)
    : SyncRouteSession * list RoutePeerInfo :=
  match l with
  | [] => (s, acc)
  | (pid, info) :: l =>
    if older_than_sync (last_update info) last_sync then (s, acc) else
    let '(up_to_date, s) := check_saved_peer_info_update_to_date s (peer_id info) (version info) now in
    if up_to_date : bool then route_info_loop reachable now last_sync l s acc else
    if negb (reachable pid)
    then route_info_loop reachable now last_sync l
           (with_unreachable s (<[pid := version info]> (unreachable_peers_for_peer_info s))
              (unreachable_peers_for_conn_info s)) acc
    else route_info_loop reachable now last_sync l s (acc ++ [info])
  end.

(** [unreachable_peers_for_peer_info.retain(..)]. *)
Fixpoint route_info_retain (infos : OMap RoutePeerInfo) (reachable : Z -> bool) (now : Z)
    (l : list (Z * Z)) (s : SyncRouteSession) (acc : list RoutePeerInfo)
    : SyncRouteSession * list RoutePeerInfo :=
  match l with
  | [] => (s, acc)
  | (pid, ver) :: l =>
    let '(up_to_date, s) := check_saved_peer_info_update_to_date s pid ver now in
    let forget := with_unreachable s (delete pid (unreachable_peers_for_peer_info s))
                    (unreachable_peers_for_conn_info s) in
    if up_to_date : bool then route_info_retain infos reachable now l forget acc else
    match om_get infos pid with
    | None => route_info_retain infos reachable now l forget acc
    | Some info =>
      route_info_retain infos reachable now l s (if reachable pid then acc ++ [info] else acc)
    end
  end.

Definition build_route_info sv (s : SyncRouteSession) (now : Z)
    : SyncRouteSession * option (list RoutePeerInfo) :=
  let infos := SyncedRoute.peer_infos (synced_route_info sv) in
  let reachable := topology_peer_reachable (route_table sv) in
  let '(s, acc) := route_info_loop reachable now (last_sync_succ_timestamp s)
    (rev (om_iter infos)) s [] in
  let '(s, acc) := route_info_retain infos reachable now
    (btree_list (unreachable_peers_for_peer_info s)) s acc in
  (s, match acc with [] => None | _ => Some acc end).

(** [size_of::<PeerIdVersion>() + n * size_of::<PeerId>()]. *)
Definition conn_entry_size (c : RouteConnInfo) : Z := 8 + Z.of_nat (size (connected_peers c)) * 4.
Definition conn_entry (pid : Z) (c : RouteConnInfo) : option PeerIdVersion * list Z :=
  (Some {| pv_peer_id := pid; pv_version := conn_version c |}, btree_set (connected_peers c)).

Fixpoint conn_list_loop (reachable : Z -> bool) (now : Z) (last_sync : option Z)
    (l : list (Z * RouteConnInfo)) (s : SyncRouteSession) (acc : RouteConnPeerList) (sz : Z)
    : SyncRouteSession * RouteConnPeerList * Z :=
  match l with
  | [] => (s, acc, sz)
  | (pid, c) :: l =>
    if older_than_sync (Some (conn_last_update c)) last_sync then (s, acc, sz) else
    let '(up_to_date, s) := check_saved_conn_version_update_to_date s pid (conn_version c) now in
    if up_to_date : bool then conn_list_loop reachable now last_sync l s acc sz else
    if negb (reachable pid)
    then conn_list_loop reachable now last_sync l
           (with_unreachable s (unreachable_peers_for_peer_info s)
              (<[pid := conn_version c]> (unreachable_peers_for_conn_info s))) acc sz
    else conn_list_loop reachable now last_sync l s (acc ++ [conn_entry pid c]) (sz + conn_entry_size c)
  end.
Fixpoint conn_list_retain (conns : OMap RouteConnInfo) (reachable : Z -> bool) (now : Z)
    (l : list (Z * Z)) (s : SyncRouteSession) (acc : RouteConnPeerList) (sz : Z)
    : SyncRouteSession * RouteConnPeerList * Z :=
  match l with
  | [] => (s, acc, sz)
  | (pid, ver) :: l =>
    let '(up_to_date, s) := check_saved_conn_version_update_to_date s pid ver now in
    let forget := with_unreachable s (unreachable_peers_for_peer_info s)
                    (delete pid (unreachable_peers_for_conn_info s)) in
    if up_to_date : bool then conn_list_retain conns reachable now l forget acc sz else
    match om_get conns pid with
    | None => conn_list_retain conns reachable now l forget acc sz
    | Some c =>
      if reachable pid
      then conn_list_retain conns reachable now l s (acc ++ [conn_entry pid c]) (sz + conn_entry_size c)
      else conn_list_retain conns reachable now l s acc sz
    end
  end.
Definition build_conn_peer_list sv (s : SyncRouteSession) (now : Z)
    : SyncRouteSession * option RouteConnPeerList * Z :=
  let conns := conn_map (synced_route_info sv) in
  let reachable := topology_peer_reachable (route_table sv) in
  let '(s, acc, sz) := conn_list_loop reachable now (last_sync_succ_timestamp s)
    (rev (om_iter conns)) s [] 0 in
  let '(s, acc, sz) := conn_list_retain conns reachable now
    (btree_list (unreachable_peers_for_conn_info s)) s acc sz in
  (s, match acc with [] => None | _ => Some acc end, sz).

Definition build_conn_bitmap sv : RouteConnBitmap := cached_local_conn_map sv.
Definition estimate_conn_bitmap_size sv : Z :=
  len (bm_bitmap (cached_local_conn_map sv)) + len (bm_peer_ids (cached_local_conn_map sv)) * 8.

Definition build_conn_info sv (cx : ServiceContext) (s : SyncRouteSession) (dst_peer_id now : Z)
    : SyncRouteSession * option ConnInfo :=
  let dst_supports_peer_list :=
    match om_get (SyncedRoute.peer_infos (synced_route_info sv)) dst_peer_id with
    | Some i => match feature_flag i with Some f => support_conn_list_sync f | None => false end
    | None => false
    end || sx_force_use_conn_list cx in
  let '(s, peer_list, estimated_size) := build_conn_peer_list sv s now in
  match peer_list with
  | None => (s, None)
  | Some l =>
    if (estimated_size <? estimate_conn_bitmap_size sv) && dst_supports_peer_list
    then (s, Some (ConnPeerList l)) else (s, Some (ConnBitmap (build_conn_bitmap sv)))
  end.

Fixpoint foreign_loop (now : Z) (l : list (ForeignKey * ForeignNetworkRouteInfoEntry))
    (s : SyncRouteSession) (acc : RouteForeignNetworkInfos) : SyncRouteSession * RouteForeignNetworkInfos :=
  match l with
  | [] => (s, acc)
  | (key, e) :: l =>
    let '(up_to_date, s) := check_saved_foreign_network_version_update_to_date s key (fe_version e) now in
    foreign_loop now l s (if up_to_date : bool then acc else acc ++ [(Some key, Some e)])
  end.
Definition build_foreign_network_info sv (s : SyncRouteSession) (now : Z)
    : SyncRouteSession * option RouteForeignNetworkInfos :=
  let '(s, acc) := foreign_loop now (hash_iter (foreign_network (synced_route_info sv))) s [] in
  (s, match acc with [] => None | _ => Some acc end).

Definition build_sync_route_raw_req (req : SyncRouteInfoRequest) (raws : gmap Z (list Z))
    : result WireError (list Z) :=
  let infos :=
    match rq_peer_infos req with
    | Some items => map (fun i => match raws !! peer_id i with
                                  | Some raw => raw | None => raw_route_peer_info i end) items
    | None => []
    end in
  encode_sync_route_request req infos.

(** ** Sessions *)

Definition set_session sv (dst : Z) (ptr : nat) (s : SyncRouteSession) : PeerRouteServiceImpl :=
  with_sessions sv (<[dst := (ptr, s)]> (sessions sv)) (next_session sv).
Definition get_session sv (dst : Z) : option (nat * SyncRouteSession) := sessions sv !! dst.
(** [remove_session]: the session in the map is the one just read. *)
Definition remove_session sv (dst : Z) : PeerRouteServiceImpl :=
  with_sessions sv (delete dst (sessions sv)) (next_session sv).
(** [get_or_start_session]; [new_id] is the random id of a new session. *)
Definition get_or_start_session sv (dst new_id now : Z)
    : result SyncRouteInfoError (PeerRouteServiceImpl * (nat * SyncRouteSession)) :=
  if stopped sv then Err Stopped else
  let '(ptr, s, next) :=
    match sessions sv !! dst with
    | Some (ptr, s) => (ptr, s, next_session sv)
    | None => (next_session sv, SyncRouteSession_new (sv_my_peer_id sv) dst new_id now, S (next_session sv))
    end in
  let s := with_task s true in
  Ok (with_sessions sv (<[dst := (ptr, s)]> (sessions sv)) next, (ptr, s)).

(** ** An outbound exchange *)

Record PendingSync := {
  ps_dst_peer_id : Z; ps_session : nat; ps_snapshot : SyncRequestSnapshot;
  ps_expected_dst_session_id : Z; ps_next_last_sync_succ_timestamp : Z;
  ps_request : SyncRouteInfoRequest }.
Inductive SyncOutcome := SyncDone (b : bool) | SyncSent (raw : list Z) (p : PendingSync).

(** [sync_route_with_peer] up to the call. *)
Definition sync_start sv (cx : ServiceContext) (dst_peer_id : Z) (sync_as_initiator : bool) (now : Z)
    : PeerRouteServiceImpl * SyncOutcome :=
  match get_session sv dst_peer_id with
  | None => (sv, SyncDone true)
  | Some (ptr, s) =>
    let snapshot := request_snapshot_locked s in
    let expected := dst_session_id s in
    let '(s, peer_infos) := build_route_info sv s now in
    let '(s, conn_info) := build_conn_info sv cx s dst_peer_id now in
    let '(s, foreign_network) := build_foreign_network_info sv s now in
    if bool_decide (peer_infos = None) && match conn_info with None => true | Some _ => false end &&
       match foreign_network with None => true | Some _ => false end &&
       negb (need_sync_initiator_info s) && negb (sync_as_initiator && we_are_initiator s)
    then (set_session sv dst_peer_id ptr s, SyncDone true) else
    let s := with_need s false in
    let req := {| rq_my_peer_id := sv_my_peer_id sv; rq_my_session_id := sn_my_session_id snapshot;
                  rq_is_initiator := sn_is_initiator snapshot; rq_peer_infos := peer_infos;
                  rq_conn_info := conn_info; rq_foreign_network_infos := foreign_network |} in
    let sv' := set_session sv dst_peer_id ptr s in
    match build_sync_route_raw_req req (raw_peer_infos (synced_route_info sv)) with
    | Err _ => (sv', SyncDone false)
    | Ok raw =>
      (sv', SyncSent raw {| ps_dst_peer_id := dst_peer_id; ps_session := ptr; ps_snapshot := snapshot;
              ps_expected_dst_session_id := expected; ps_next_last_sync_succ_timestamp := now;
              ps_request := req |})
    end
  end.

Definition sync_request_is_current_locked sv (p : PendingSync) : option SyncRouteSession :=
  match sessions sv !! ps_dst_peer_id p with
  | Some (ptr, s) =>
    if Nat.eqb ptr (ps_session p) && request_is_current_locked s (ps_snapshot p) then Some s else None
  | None => None
  end.

(** The commit of a response without error. *)
Definition commit_response (s : SyncRouteSession) (p : PendingSync) (resp : SyncRouteInfoResponse)
    (now : Z) : comp SyncRouteSession :=
  let dst := ps_dst_peer_id p in
  let req := ps_request p in
  let s := with_contact s (wrap 32 (rpc_tx_count s + 1)) (rpc_rx_count s) now in
  let s := update_remote_state_locked s (rs_session_id resp) (rs_is_initiator resp) in
  let s := match rq_peer_infos req with
           | Some l => update_dst_saved_peer_info_version s l dst now | None => s end in
  let s := match rq_conn_info req with
           | Some c => update_dst_saved_conn_info_version s c dst now | None => s end in
  s ← match rq_foreign_network_infos req with
      | Some f => update_dst_saved_foreign_network_version s f dst now | None => Ret s end;
  Ret (update_last_sync_succ_timestamp s (ps_next_last_sync_succ_timestamp p)).

(** [sync_route_with_peer] after the call; [None] is a failed call.  It returns
    false. *)
Definition sync_finish sv (cx : ServiceContext) (p : PendingSync) (ret : option SyncRouteInfoResponse)
    (now : Z) : comp PeerRouteServiceImpl :=
  match sync_request_is_current_locked sv p with
  | None => Ret sv
  | Some s =>
    s ← match ret with
        | None => Ret (with_need s true)
        | Some resp =>
          match rs_error resp with
          | Some err =>
            if (err =? error_i32 Stopped) && negb (rq_is_initiator (ps_request p))
            then Ret (clear_dst_initiator_if_session_unchanged_locked s (ps_expected_dst_session_id p)).2
            else if err =? error_i32 DuplicatePeerId
            then if negb (is_public_server (cx_feature_flags (sx_peer cx))) then Panic else Ret s
            else Ret (with_need s true)
          | None => commit_response s p resp now
          end
        end;
    Ret (set_session sv (ps_dst_peer_id p) (ps_session p) s)
  end.

(** ** Credentials *)

Definition refresh_credential_trusts_with_current_topology sv (cx : ServiceContext) (now : Z)
    : comp (PeerRouteServiceImpl * gset Z) :=
  sv ← update_route_table_and_cached_local_conn_bitmap sv cx now;
  let '(s, untrusted, keys, suppressed_changed) :=
    verify_and_update_credential_trusts_protecting (synced_route_info sv)
      (cx_network_secret (sx_peer cx))
      (fun p => (p =? sv_my_peer_id sv) || topology_peer_reachable (route_table sv) p)
      (Some (sv_my_peer_id sv)) now in
  let sv := with_trusted_keys (with_synced sv s) keys in
  sv ← if negb (bool_decide (untrusted = ∅)) || suppressed_changed
       then update_route_table_and_cached_local_conn_bitmap sv cx now else Ret sv;
  Ret (sv, untrusted).

Definition refresh_credential_trusts sv (cx : ServiceContext) (now : Z) : PeerRouteServiceImpl * gset Z :=
  let '(s, untrusted, keys, _) :=
    verify_and_update_credential_trusts_protecting (synced_route_info sv)
      (cx_network_secret (sx_peer cx)) (fun _ => true) (Some (sv_my_peer_id sv)) now in
  (with_trusted_keys (with_synced sv s) keys, untrusted).

(** Information of a credential peer, restricted to what its credential allows. *)
Definition extract_credential_peer_info (from_peer_id : Z) (infos : list RoutePeerInfo)
    (raws : list (list Z)) (credential : TrustedCredentialPubkey)
    : comp (option (RoutePeerInfo * list Z)) :=
  match list_find (fun p => peer_id p = from_peer_id) infos with
  | None => Ret None
  | Some (info_idx, info) =>
    raw_info ← unwrap (raws !! info_idx);
    let allowed_cidrs := tc_allowed_proxy_cidrs credential in
    let cidrs := match allowed_cidrs with
                 | [] => []
                 | _ => List.filter (fun cidr => existsb (cidr_is_subset_str cidr) allowed_cidrs)
                          (proxy_cidrs info)
                 end in
    let info := mark_credential_peer
      {| peer_id := peer_id info; inst_id := inst_id info; cost := cost info;
         ipv4_addr := ipv4_addr info; proxy_cidrs := cidrs; hostname := hostname info;
         udp_nat_type := udp_nat_type info; tcp_nat_type := tcp_nat_type info;
         last_update := last_update info; version := version info;
         easytier_version := easytier_version info; feature_flag := feature_flag info;
         peer_route_id := peer_route_id info; network_length := network_length info;
         quic_port := quic_port info; ipv6_addr := ipv6_addr info; groups := groups info;
         noise_static_pubkey := noise_static_pubkey info;
         trusted_credential_pubkeys := trusted_credential_pubkeys info;
         ipv6_public_addr_prefix := ipv6_public_addr_prefix info;
         ipv6_public_addr_lease := ipv6_public_addr_lease info |} true in
    match patch_credential_route_peer_info raw_info cidrs with
    | Ok raw_info => Ret (Some (info, raw_info))
    | Err _ => Ret None
    end
  end.

(** ** An inbound exchange *)

(** [get_peer_identity_type_from_interface] and
    [get_peer_public_key_from_interface]: the snapshot, else the interface. *)
Definition identity_of (sn : InterfacePeerSnapshot) (iface : Z -> option PeerIdentityType) (pid : Z)
    : option PeerIdentityType :=
  match is_identity_types sn !! pid with Some t => t | None => iface pid end.
Definition public_key_of (sn : InterfacePeerSnapshot) (iface : Z -> option (list Z)) (pid : Z)
    : option (list Z) :=
  match is_public_keys sn !! pid with Some k => k | None => iface pid end.

(** Who sent a request, and whether we may listen: [None] is an admin, [Some]
    a credential peer with its credential. *)
Definition sender_credential sv (sn : InterfacePeerSnapshot)
    (iface_type : Z -> option PeerIdentityType) (iface_key : Z -> option (list Z)) (from : Z)
    : result SyncRouteInfoError (option TrustedCredentialPubkey) :=
  if bool_decide (default Admin (identity_of sn iface_type from) = Credential) then
    match public_key_of sn iface_key from with
    | None => Err Stopped
    | Some k => match get_credential_info_by_pubkey (synced_route_info sv) k with
                | None => Err Stopped | Some c => Ok (Some c) end
    end
  else Ok None.

(** The peer information of a request: the service, or the error that ends
    the handler; [true] when something was taken over. *)
Definition accept_peer_infos sv (cx : ServiceContext) (from : Z) (ptr : nat)
    (credential : option TrustedCredentialPubkey) (infos : list RoutePeerInfo) (raws : list (list Z))
    (now : Z) : comp (PeerRouteServiceImpl * result SyncRouteInfoError bool) :=
  '(pi, rpi) ← match credential with
               | Some c =>
                 r ← extract_credential_peer_info from infos raws c;
                 Ret match r with Some (i, raw) => ([i], [raw]) | None => ([], []) end
               | None => Ret (infos, raws)
               end;
  match pi with
  | [] => Ret (sv, Ok false)
  | _ =>
    '(s, r) ← update_peer_infos (synced_route_info sv) (sv_my_peer_id sv) (sv_my_peer_route_id sv)
                from pi rpi now;
    match r with
    | Err e => Ret (with_synced sv s, Err e)
    | Ok _ =>
      let s := verify_and_update_current_group_trusts s
        (elements (list_to_set (map peer_id pi) : gset Z)) (sx_acl_group_declarations cx)
        match cx_network_secret (sx_peer cx) with None => true | Some _ => false end in
      let sv := with_synced sv s in
      Ret (match sessions sv !! from with
           | Some (_, ss) => set_session sv from ptr (update_dst_saved_peer_info_version ss pi from now)
           | None => sv
           end, Ok true)
    end
  end.

Definition accept_conn_info sv (from : Z) (ptr : nat) (credential : option TrustedCredentialPubkey)
    (c : ConnInfo) (now : Z) : comp (PeerRouteServiceImpl * bool) :=
  if match credential with Some tc => tc_allow_relay tc | None => true end then
    s ← update_conn_info (synced_route_info sv) c now;
    let sv := with_synced sv s in
    Ret (match sessions sv !! from with
         | Some (_, ss) => set_session sv from ptr (update_dst_saved_conn_info_version ss c from now)
         | None => sv
         end, true)
  else Ret (sv, false).

Definition accept_foreign_network sv (from : Z) (ptr : nat) (credential : option TrustedCredentialPubkey)
    (f : RouteForeignNetworkInfos) (now : Z) : comp (PeerRouteServiceImpl * bool) :=
  match credential with
  | Some _ => Ret (sv, false)
  | None =>
    let '(s, changed) := update_foreign_network (synced_route_info sv) f now in
    let sv := with_synced sv s in
    match sessions sv !! from with
    | Some (_, ss) =>
      ss ← update_dst_saved_foreign_network_version ss f from now;
      Ret (set_session sv from ptr ss, changed)
    | None => Ret (sv, changed)
    end
  end.

(** What the handler leaves: the service, the peers to disconnect, whether to
    sync now, and the response. *)
Record SyncHandled := {
  sh_service : PeerRouteServiceImpl; sh_untrusted : gset Z; sh_sync_now : bool;
  sh_response : result SyncRouteInfoError SyncRouteInfoResponse }.

(** [do_sync_route_info].  The session is taken and used under its lock, so
    that it is current.  [public_ipv6_service.handle_route_change] is not part
    of the model. *)
Definition do_sync_route_info sv (cx : ServiceContext) (sn : InterfacePeerSnapshot)
    (iface_type : Z -> option PeerIdentityType) (iface_key : Z -> option (list Z))
    (from_peer_id from_session_id : Z) (is_initiator : bool)
    (peer_infos : option (list RoutePeerInfo)) (raws : list (list Z)) (conn_info : option ConnInfo)
    (foreign : option RouteForeignNetworkInfos) (new_id now : Z) : comp SyncHandled :=
  let refuse sv e := Ret {| sh_service := sv; sh_untrusted := ∅; sh_sync_now := false;
                            sh_response := Err e |} in
  if stopped sv then refuse sv Stopped else
  let found :=
    match get_session sv from_peer_id with
    | Some ps => Ok (sv, ps)
    | None => if is_initiator then get_or_start_session sv from_peer_id new_id now else Err Stopped
    end in
  match found with
  | Err e => refuse sv e
  | Ok (sv, (ptr, session)) =>
    match sender_credential sv sn iface_type iface_key from_peer_id with
    | Err e => refuse sv e
    | Ok credential =>
      let '(admitted, session) := admit_inbound_locked session from_session_id is_initiator in
      if negb admitted then refuse sv Stopped else
      let session := with_contact session (rpc_tx_count session) (wrap 32 (rpc_rx_count session + 1)) now in
      let sv := set_session sv from_peer_id ptr session in
      '(sv, r) ← match peer_infos with
                 | Some infos => accept_peer_infos sv cx from_peer_id ptr credential infos raws now
                 | None => Ret (sv, Ok false)
                 end;
      match r with
      | Err e => refuse sv e
      | Ok got_infos =>
        '(sv, got_conns) ← match conn_info with
                           | Some c => accept_conn_info sv from_peer_id ptr credential c now
                           | None => Ret (sv, false)
                           end;
        let need_update_route_table := got_infos || got_conns in
        '(sv, untrusted) ← if need_update_route_table
                           then refresh_credential_trusts_with_current_topology sv cx now
                           else Ret (sv, ∅);
        '(sv, foreign_changed) ← match foreign with
                                 | Some f => accept_foreign_network sv from_peer_id ptr credential f now
                                 | None => Ret (sv, false)
                                 end;
        sv ← if need_update_route_table || foreign_changed
             then sv ← update_route_table_and_cached_local_conn_bitmap sv cx now;
                  Ret (update_foreign_network_owner_map sv)
             else Ret sv;
        Ret {| sh_service := sv; sh_untrusted := untrusted;
               sh_sync_now := need_update_route_table || foreign_changed;
               sh_response := Ok {| rs_is_initiator := we_are_initiator session;
                                    rs_session_id := my_session_id session; rs_error := None |} |}
      end
    end
  end.

(** The RPC handler around it: the raw bytes must match the decoded infos. *)
Inductive SyncRpcError := MissingRawInput | RawWire (e : WireError) | RawMismatch.
Definition raw_matches_decoded (raws : list (list Z)) (infos : list RoutePeerInfo) : bool :=
  Nat.eqb (length raws) (length infos) &&
  forallb (fun x => match peer_info_decode x.1 with
                    | Some d => peer_id d =? peer_id x.2 | None => false end) (combine raws infos).
Definition extract_raw_infos (req : SyncRouteInfoRequest) (raw_input : option (list Z))
    : result SyncRpcError (list (list Z)) :=
  match rq_peer_infos req with
  | None => Ok []
  | Some infos =>
    match raw_input with
    | None => Err MissingRawInput
    | Some input =>
      match extract_route_peer_infos input with
      | Err e => Err (RawWire e)
      | Ok r => if raw_matches_decoded r infos then Ok r else Err RawMismatch
      end
    end
  end.
Definition sync_route_info sv (cx : ServiceContext) (sn : InterfacePeerSnapshot)
    (iface_type : Z -> option PeerIdentityType) (iface_key : Z -> option (list Z))
    (raw_input : option (list Z)) (req : SyncRouteInfoRequest) (new_id now : Z)
    : comp (result SyncRpcError (SyncHandled * SyncRouteInfoResponse)) :=
  match extract_raw_infos req raw_input with
  | Err e => Ret (Err e)
  | Ok raws =>
    h ← do_sync_route_info sv cx sn iface_type iface_key (rq_my_peer_id req) (rq_my_session_id req)
          (rq_is_initiator req) (rq_peer_infos req) raws (rq_conn_info req)
          (rq_foreign_network_infos req) new_id now;
    Ret (Ok (h, match sh_response h with
                | Ok v => v
                | Err e => {| rs_is_initiator := false; rs_session_id := 0; rs_error := Some (error_i32 e) |}
                end))
  end.

(** ** Periodic work *)

(** [clear_expired_peer]; a missing time of a peer panics. *)
Fixpoint expired_peers (reachable : Z -> bool) (now : Z) (l : list (Z * RoutePeerInfo))
    : comp (list Z) :=
  match l with
  | [] => Ret []
  | (pid, info) :: l =>
    t ← unwrap (last_update info);
    rest ← expired_peers reachable now l;
    let d := now - t in
    Ret (if (0 <=? d) && ((REMOVE_DEAD_PEER_INFO_AFTER <? d) ||
            ((REMOVE_UNREACHABLE_PEER_INFO_AFTER <? d) && negb (reachable pid)))
         then pid :: rest else rest)
  end.
Definition foreign_expired (now : Z) (e : ForeignNetworkRouteInfoEntry) : bool :=
  match fe_last_update e with
  | None => true
  | Some t => if t <=? now then REMOVE_DEAD_PEER_INFO_AFTER <? now - t else true
  end.
Definition clear_expired_peer sv (cx : ServiceContext) (now : Z) : comp (PeerRouteServiceImpl * gset Z) :=
  let s := synced_route_info sv in
  to_remove ← expired_peers (topology_peer_reachable (route_table sv)) now (om_iter (SyncedRoute.peer_infos s));
  let s := remove_peers s (list_to_set to_remove) in
  let s := with_foreign s (filter (fun kv => foreign_expired now kv.2 = false) (foreign_network s)) in
  '(sv, untrusted) ← refresh_credential_trusts_with_current_topology (with_synced sv s) cx now;
  Ret (with_tables sv (clean_expired_route_info (route_table sv))
         (clean_expired_route_info (route_table_with_cost sv)), untrusted).

(** One round of [maintain_sessions].  [cur] is the peer this node initiates to. *)
Definition stop_vanished (peers : gset Z) (l : list Z) (st : PeerRouteServiceImpl * option Z)
    : PeerRouteServiceImpl * option Z :=
  foldl (fun st p =>
    if bool_decide (p ∈ peers) then st else
    (remove_session st.1 p, if bool_decide (st.2 = Some p) then None else st.2)) st l.
Definition clear_stale_sessions (now : Z) (l : list Z) sv : PeerRouteServiceImpl :=
  foldl (fun sv p =>
    match get_session sv p with
    | Some (ptr, s) => set_session sv p ptr (clear_stale_dst_initiator s now).2
    | None => sv
    end) sv l.
Definition initiator_candidates sv (sn : InterfacePeerSnapshot) : list Z :=
  List.filter (fun p =>
    negb (bool_decide (default Admin (mjoin (is_identity_types sn !! p)) = Credential)) &&
    match get_session sv p with
    | None => true
    | Some (_, s) => negb (dst_is_initiator s)
    end) (btree_set (is_peers sn)).
(** NoPAT (2) or OpenInternet (1) first, else the first candidate. *)
Definition choose_initiator_dst sv (candidates : list Z) : option Z :=
  match List.find (fun p => match get_udp_nat_type (route_table sv) p with
                            | Some n => (n =? 2) || (n =? 1) | None => false end) candidates with
  | Some p => Some p
  | None => head candidates
  end.
Definition stop_unused (l : list Z) sv : PeerRouteServiceImpl :=
  foldl (fun sv p =>
    match get_session sv p with
    | Some (_, s) =>
      if (dst_is_initiator s || we_are_initiator s || need_sync_initiator_info s) && ss_task_running s
      then sv else remove_session sv p
    | None => sv
    end) sv l.
Definition maintain_sessions_round sv (sn : InterfacePeerSnapshot) (cur : option Z) (new_id now : Z)
    : PeerRouteServiceImpl * option Z :=
  let session_peers := btree_set (dom (sessions sv)) in
  let '(sv, cur) := stop_vanished (is_peers sn) session_peers (sv, cur) in
  let sv := clear_stale_sessions now session_peers sv in
  match initiator_candidates sv sn with
  | [] => (sv, cur)
  | candidates =>
    match choose_initiator_dst sv candidates with
    | None => (sv, cur)
    | Some new =>
      if bool_decide (cur = Some new) then (stop_unused session_peers sv, cur) else
      let sv := match cur with
                | Some c => match get_session sv c with
                            | Some (ptr, s) => set_session sv c ptr (update_initiator_flag s false)
                            | None => sv
                            end
                | None => sv
                end in
      match get_or_start_session sv new new_id now with
      | Err _ => (sv, Some new)
      | Ok (sv, (ptr, s)) =>
        (stop_unused session_peers (set_session sv new ptr (update_initiator_flag s true)), Some new)
      end
    end
  end.
End service.
