(* ===== verification/RouteSyncProofs.v ===== *)
(** Theorems about route synchronisation: a credential peer can change nothing
    but its own entry (and connections if it may relay), an exchange delivers
    what it sends, nothing a peer has not got is left out of the requests made
    to it, and the connection bitmap says what the connection map says. *)

From stdpp Require Import list gmap sorting.
From S2P Require Import Prelude RouteGraph RouteMessages RouteWire RouteTable SyncedRoute SyncedRouteProofs CredentialProofs SyncSession RouteSync.
Local Open Scope Z_scope.
Local Set Warnings "-clear-no-such-hyp".

Section frames.
Context {T : Target} {H : MinHeap} {G : PetGraph} {N : RouteNet} {O : HashOrder}.
Context {om : OrderedMap} {Hom : OrderedMapLaws om} {tl : TrustLib} {pw : ProstWire} {pr : ProstRoute}.
Implicit Types sv : PeerRouteServiceImpl.

(** Rebuilding tables leaves the synced information and the sessions alone. *)
Lemma rebuild_frame sv cx now sv' :
  update_route_table_and_cached_local_conn_bitmap sv cx now = Ret sv' ->
  synced_route_info sv' = synced_route_info sv /\ sessions sv' = sessions sv /\
  sv_my_peer_id sv' = sv_my_peer_id sv /\ published_trusted_keys sv' = published_trusted_keys sv.
Proof using.
  unfold update_route_table_and_cached_local_conn_bitmap, update_route_table.
  destruct (build_from_snapshot _ _ _ LeastHop _) as [t|]; [|done]. cbn [mbind comp_bind].
  destruct (build_from_snapshot _ _ _ LeastCost _) as [tc|]; [|done]. cbn [mbind comp_bind].
  destruct (make_conn_bitmap _ _) as [b|]; [|done]. cbn [mbind comp_bind].
  case_match; by intros [= <-].
Qed.

Lemma owner_map_frame sv :
  synced_route_info (update_foreign_network_owner_map sv) = synced_route_info sv /\
  sessions (update_foreign_network_owner_map sv) = sessions sv.
Proof using. unfold update_foreign_network_owner_map. by destruct (foldl _ _ _). Qed.

(** [pid]'s entries of all tables are the same. *)
Definition same_peer (s s' : SyncedRouteInfo) (pid : Z) : Prop :=
  om_get (SyncedRoute.peer_infos s') pid = om_get (SyncedRoute.peer_infos s) pid /\
  om_get (conn_map s') pid = om_get (conn_map s) pid /\
  forall name, foreign_network s' !! (pid, name) = foreign_network s !! (pid, name).

Lemma same_peer_refl s pid : same_peer s s pid.
Proof using. done. Qed.
Lemma same_peer_trans s1 s2 s3 pid : same_peer s1 s2 pid -> same_peer s2 s3 pid -> same_peer s1 s3 pid.
Proof using. intros (A & B & C) (A' & B' & C'). split_and!; [congruence..|]. intros n. by rewrite C', C. Qed.

Lemma remove_same_peer s X pid : pid ∉ X -> same_peer s (remove_peers s X) pid.
Proof using Hom.
  intros Hp. destruct (remove_peers_spec s X pid) as [_ Hk]. destruct (Hk Hp) as [E1 E2].
  split_and!; [done..|]. intros n. unfold remove_peers. destruct (bool_decide _); [done|]. cbn.
  destruct (foreign_network s !! (pid, n)) as [e|] eqn:E.
  - apply map_lookup_filter_Some. by split.
  - apply map_lookup_filter_None. by left.
Qed.

Lemma credential_frame s secret active prot now s' revoked keys ch :
  verify_and_update_credential_trusts_protecting s secret active prot now = (s', revoked, keys, ch) ->
  forall pid, (pid ∈ revoked -> forgotten s' pid) /\ (pid ∉ revoked -> same_peer s s' pid).
Proof using Hom.
  unfold verify_and_update_credential_trusts_protecting.
  destruct (collect_trusted_credentials s secret _) as [all keys0].
  cbn [replace_trusted_credential_pubkeys]. set (s1 := with_trust s all _ _).
  destruct (collect_non_reusable_credential_owners (SyncedRoute.peer_infos s1) all active) as [owners dups].
  cbv zeta. set (s2 := replace_non_reusable_credential_owners s1 owners).
  unfold replace_suppressed_non_reusable_credential_peers. set (r := if bool_decide _ then _ else _).
  assert (SyncedRoute.peer_infos r.1 = SyncedRoute.peer_infos s /\ conn_map r.1 = conn_map s /\
    foreign_network r.1 = foreign_network s) as (R1 & R2 & R3) by (subst r; by destruct (bool_decide _)).
  destruct r as [s3 ch0]. cbn [fst] in R1, R2, R3.
  destruct (credential_groups_quiet s3 all) as (Q1 & Q2 & _).
  destruct (credential_groups_frame s3 all) as (_ & _ & _ & Q3).
  set (s4 := update_credential_groups s3 all) in *.
  assert (forall pid, same_peer s s4 pid) as H4 by (intros pid; split_and!; congruence).
  set (rev := match prot with Some p => _ | None => _ end).
  destruct (bool_decide (rev = ∅)) eqn:E; intros [= <- <- _ _] pid.
  - apply bool_decide_eq_true in E. rewrite E. split; [set_solver|]. intros _. apply H4.
  - split; [apply remove_peers_spec|]. intros Hp. eapply same_peer_trans; [apply H4|].
    by apply remove_same_peer.
Qed.

Lemma refresh_frame sv cx now sv' untrusted :
  refresh_credential_trusts_with_current_topology sv cx now = Ret (sv', untrusted) ->
  sessions sv' = sessions sv /\
  forall pid, (pid ∈ untrusted -> forgotten (synced_route_info sv') pid) /\
    (pid ∉ untrusted -> same_peer (synced_route_info sv) (synced_route_info sv') pid).
Proof using Hom.
  unfold refresh_credential_trusts_with_current_topology.
  destruct (update_route_table_and_cached_local_conn_bitmap sv cx now) as [sv1|] eqn:E1; [|done].
  apply rebuild_frame in E1 as (S1 & S2 & _). cbn [mbind comp_bind].
  destruct (verify_and_update_credential_trusts_protecting _ _ _ _ _) as [[[s u] keys] sup] eqn:Ev.
  pose proof (credential_frame _ _ _ _ _ _ _ _ _ Ev) as Hf. rewrite S1 in Hf.
  destruct (negb _ || sup).
  - destruct (update_route_table_and_cached_local_conn_bitmap _ cx now) as [sv2|] eqn:E2; [|done].
    apply rebuild_frame in E2 as (T1 & T2 & _). cbn [mbind comp_bind]. intros [= <- <-].
    rewrite T1, T2. cbn. split; [done|exact Hf].
  - cbn [mbind comp_bind]. intros [= <- <-]. cbn. split; [done|exact Hf].
Qed.

(** Group verification touches only groups. *)
Lemma group_trusts_same s order decls b pid :
  same_peer s (verify_and_update_current_group_trusts s order decls b) pid.
Proof using.
  unfold verify_and_update_current_group_trusts, verify_and_update_group_trusts.
  apply (fold_ok (fun s' => same_peer s s' pid)); [|done]. intros s1 i Hs. cbv zeta.
  destruct (group_trust_map s1 !! peer_id i); destruct (bool_decide _); exact Hs.
Qed.
End frames.

(** ** What a request may change *)

Section accepted.
Context {T : Target} {H : MinHeap} {G : PetGraph} {N : RouteNet} {O : HashOrder}.
Context {om : OrderedMap} {Hom : OrderedMapLaws om} {tl : TrustLib} {pw : ProstWire} {pr : ProstRoute}.
Implicit Types sv : PeerRouteServiceImpl.

Lemma infos_frame me route dst now raws l : forall idx s need s' r,
  update_peer_infos_loop me route dst now l raws idx s need = Ret (s', r) ->
  conn_map s' = conn_map s /\ foreign_network s' = foreign_network s /\
  forall pid, om_get (SyncedRoute.peer_infos s') pid = om_get (SyncedRoute.peer_infos s) pid \/
    exists i, i ∈ l /\ peer_id i = pid /\
      om_get (SyncedRoute.peer_infos s') pid = Some (set_stamp i (version i) (Some now)).
Proof using Hom.
  induction l as [|i l IH]; intros idx s need s' r; cbn [update_peer_infos_loop].
  - intros [= <- <-]. destruct need; split_and!; try done; by left.
  - destruct (raws !! idx) as [raw|]; [|done]. cbn [unwrap mbind comp_bind].
    destruct (check_duplicate_peer_id _ _ _ _ _ i) as [[[]|e]|]; [| |done]; cbn [mbind comp_bind].
    2:{ intros [= <- <-]. split_and!; try done. by left. }
    cbn [peer_id set_stamp]. destruct (match om_get _ _ with None => true | Some old => _ end).
    + intros (-> & -> & Hp)%IH. split_and!; try done. intros pid. cbn [with_peers SyncedRoute.peer_infos] in Hp.
      destruct (Hp pid) as [E|(j & Hj & ? & ?)]; [|right; exists j; split; [by right|done]].
      rewrite om_get_insert in E. destruct (Z.eqb_spec (peer_id i) pid); [|by left].
      right. exists i. split; [by left|done].
    + intros (-> & -> & Hp)%IH. split_and!; try done. intros pid.
      destruct (Hp pid) as [E|(j & Hj & ? & ?)]; [by left|right; exists j; split; [by right|done]].
Qed.

Lemma fill_foreign now l : forall st, foreign_network (foldl (fill_one now) st l).1 = foreign_network st.1.
Proof using.
  induction l as [|p l IH]; intros st; cbn [foldl]; [done|]. rewrite IH. destruct st as [s need].
  unfold fill_one. by destruct (om_get (SyncedRoute.peer_infos s) p); cbn; destruct (om_get (conn_map _) p).
Qed.
Lemma fill_empty_foreign s ids now : foreign_network (fill_empty_peer_info s ids now) = foreign_network s.
Proof using.
  unfold fill_empty_peer_info. pose proof (fill_foreign now (elements ids) (s, false)) as Hf.
  destruct (foldl _ _ _) as [s' need]. by destruct need.
Qed.
Lemma conn_one_foreign s pv cp now : foreign_network (update_conn_info_one_peer s pv cp now).1 = foreign_network s.
Proof using. unfold update_conn_info_one_peer. by case_match. Qed.

Lemma conn_info_foreign s c now s' : update_conn_info s c now = Ret s' -> foreign_network s' = foreign_network s.
Proof using.
  destruct c as [b|l]; cbn [update_conn_info].
  - unfold update_conn_info_with_bitmap. rewrite <- (fill_empty_foreign s (list_to_set (map pv_peer_id (bm_peer_ids b))) now).
    generalize (fill_empty_peer_info s (list_to_set (map pv_peer_id (bm_peer_ids b))) now) as s0.
    generalize 0 as idx. generalize false as need. generalize (bm_peer_ids b) as l.
    induction l as [|pv l IH]; intros need idx s0; cbn [bitmap_loop]; [intros [= <-]; by destruct need|].
    destruct (bitmap_connected_peers b idx) as [cp|]; [|done]. cbn [mbind comp_bind].
    pose proof (conn_one_foreign (fill_empty_peer_info s0 cp now) pv cp now) as Hc.
    destruct (update_conn_info_one_peer _ pv cp now) as [s1 ch]. intros ->%IH. cbn [fst] in Hc.
    by rewrite Hc, fill_empty_foreign.
  - intros [= <-]. unfold update_conn_info_with_list.
    assert (forall st, foreign_network (foldl (list_step now) st l).1 = foreign_network st.1) as Hl.
    { induction l as [|[[pv|] cs] l IH]; intros [s0 need]; cbn [foldl]; [done| |by rewrite IH].
      rewrite IH. unfold list_step. cbn [fst snd].
      pose proof (conn_one_foreign (fill_empty_peer_info s0 (list_to_set cs) now) pv (list_to_set cs) now) as Hc.
      destruct (update_conn_info_one_peer _ pv _ now). cbn [fst] in *. by rewrite Hc, fill_empty_foreign. }
    specialize (Hl (s, false)). destruct (foldl _ _ l) as [s1 need]. by destruct need.
Qed.

(** A cidr that a credential allows. *)
Definition cidr_allowed (c : TrustedCredentialPubkey) (cidr : list Z) : Prop :=
  exists a, a ∈ tc_allowed_proxy_cidrs c /\ cidr_is_subset_str cidr a = true.
Definition restricted (c : TrustedCredentialPubkey) (i : RoutePeerInfo) : Prop :=
  is_credential_peer_info i = true /\ Forall (cidr_allowed c) (proxy_cidrs i).

Lemma extract_restricted from infos raws c i raw :
  extract_credential_peer_info from infos raws c = Ret (Some (i, raw)) ->
  peer_id i = from /\ restricted c i.
Proof using.
  unfold extract_credential_peer_info. destruct (list_find _ infos) as [[idx info]|] eqn:Ef; [|done].
  apply list_find_Some in Ef as (_ & Hp & _). destruct (raws !! idx) as [r0|]; [|done].
  cbn [unwrap mbind comp_bind]. set (cidrs := match tc_allowed_proxy_cidrs c with [] => [] | _ => _ end).
  destruct (patch_credential_route_peer_info r0 cidrs); [|done]. intros [= <- <-]. cbn.
  split; [done|]. split; [done|]. cbn. subst cidrs. apply Forall_forall. intros cidr Hc.
  destruct (tc_allowed_proxy_cidrs c) as [|a0 l0] eqn:Ea; [by apply not_elem_of_nil in Hc|].
  apply list_elem_of_In, filter_In in Hc as [_ Hx].
  apply existsb_exists in Hx as (x & Hin%list_elem_of_In & Hx). exists x. by rewrite Ea.
Qed.

(** The effect of a request of a credential peer, removals apart. *)
Definition confined (c : TrustedCredentialPubkey) (from : Z) (s s' : SyncedRouteInfo) (pid : Z) : Prop :=
  (om_get (SyncedRoute.peer_infos s') pid = om_get (SyncedRoute.peer_infos s) pid \/
   exists i, om_get (SyncedRoute.peer_infos s') pid = Some i /\
     (om_get (SyncedRoute.peer_infos s) pid = None /\ placeholder i /\ tc_allow_relay c = true \/
      pid = from /\ restricted c i)) /\
  (tc_allow_relay c = false -> om_get (conn_map s') pid = om_get (conn_map s) pid) /\
  forall name, foreign_network s' !! (pid, name) = foreign_network s !! (pid, name).

Lemma same_confined c from s s' pid : same_peer s s' pid -> confined c from s s' pid.
Proof using. intros (A & B & C). split_and!; [by left|done|done]. Qed.

Lemma confined_same c from s1 s2 s3 pid :
  confined c from s1 s2 pid -> same_peer s2 s3 pid -> confined c from s1 s3 pid.
Proof using.
  intros (A & B & C) (A' & B' & C'). unfold confined. rewrite A', B'.
  split_and!; [done..|]. intros n. by rewrite C', C.
Qed.

Lemma accept_infos_confined sv cx from ptr c infos raws now sv' r pid :
  accept_peer_infos sv cx from ptr (Some c) infos raws now = Ret (sv', r) ->
  confined c from (synced_route_info sv) (synced_route_info sv') pid /\
  om_get (conn_map (synced_route_info sv')) pid = om_get (conn_map (synced_route_info sv)) pid.
Proof using Hom.
  unfold accept_peer_infos.
  destruct (extract_credential_peer_info from infos raws c) as [[[i raw]|]|] eqn:Ex; [| |done];
    cbn [mbind comp_bind].
  2:{ intros [= <- <-]. split; [apply same_confined|]; done. }
  apply extract_restricted in Ex as [Hf Hres].
  destruct (update_peer_infos _ _ _ _ _ _ _) as [[s r']|] eqn:Eu; [|done]. cbn [mbind comp_bind].
  apply infos_frame in Eu as (Ec & Ef & Hp).
  assert (confined c from (synced_route_info sv) s pid) as Hs.
  { split_and!; [|by rewrite Ec|by rewrite Ef]. destruct (Hp pid) as [E|(j & Hj & Hpj & E)]; [by left|].
    right. apply list_elem_of_singleton in Hj as ->. eexists. split; [exact E|]. right.
    split; [congruence|exact Hres]. }
  destruct r' as [u|e].
  - set (s2 := verify_and_update_current_group_trusts _ _ _ _).
    assert (same_peer s s2 pid) as Hg by apply group_trusts_same.
    assert (conn_map s2 = conn_map s) as Hc2 by apply group_trusts_quiet.
    assert (confined c from (synced_route_info sv) s2 pid) as H2 by (by eapply confined_same).
    cbn [sessions with_synced]. destruct (sessions sv !! from) as [[? ?]|]; intros [= <- <-]; cbn;
      (split; [exact H2|by rewrite Hc2, Ec]).
  - intros [= <- <-]. cbn. split; [exact Hs|by rewrite Ec].
Qed.

Lemma accept_conns_confined sv from ptr c ci now sv' b pid s0 :
  accept_conn_info sv from ptr (Some c) ci now = Ret (sv', b) ->
  confined c from s0 (synced_route_info sv) pid -> confined c from s0 (synced_route_info sv') pid.
Proof using Hom.
  unfold accept_conn_info. destruct (tc_allow_relay c) eqn:Er; [|by intros [= <- _]].
  destruct (update_conn_info _ ci now) as [s|] eqn:Eu; [|done]. cbn [mbind comp_bind]. intros E Hc.
  assert (synced_route_info sv' = s) as ->.
  { cbn [sessions with_synced] in E. destruct (sessions sv !! from) as [[? ?]|]; by injection E as <- _. }
  pose proof (conn_info_keeps _ _ _ _ Eu) as Hk. pose proof (conn_info_foreign _ _ _ _ Eu) as Hf.
  destruct Hc as (A & _ & C). split_and!; [|congruence|by rewrite Hf].
  destruct (Hk pid) as [->|(Hn & i & -> & Hpl)]; [done|]. right. exists i. split; [done|].
  destruct A as [A|(j & Hj & _)]; [|congruence]. left. split_and!; [congruence|done|done].
Qed.
End accepted.

(** C9. A credential peer is confined to its own entry.  Whatever it sends, of
    the peers that remain the handler changes at most the sender's own
    information, which is then marked as a credential peer's and announces only
    networks its credential allows; other peers' information is untouched
    (unknown peers may get an empty entry, if the credential may relay);
    connections change only if the credential may relay; foreign networks never
    do. *)
Theorem credential_peer_confined `{T : Target, H : MinHeap, G : PetGraph, N : RouteNet, O : HashOrder,
    om : OrderedMap, !OrderedMapLaws om, tl : TrustLib, pw : ProstWire, pr : ProstRoute}
    (sv : PeerRouteServiceImpl) (cx : ServiceContext) (sn : InterfacePeerSnapshot)
    (iface_type : Z -> option PeerIdentityType) (iface_key : Z -> option (list Z))
    (from session_id new_id now : Z) (is_initiator : bool) (infos : option (list RoutePeerInfo))
    (raws : list (list Z)) (conns : option ConnInfo) (foreign : option RouteForeignNetworkInfos)
    (h : SyncHandled) (c : TrustedCredentialPubkey) :
  do_sync_route_info sv cx sn iface_type iface_key from session_id is_initiator infos raws conns
    foreign new_id now = Ret h ->
  sender_credential sv sn iface_type iface_key from = Ok (Some c) ->
  let s := synced_route_info sv in
  let s' := synced_route_info (sh_service h) in
  forall pid, pid ∉ sh_untrusted h ->
    (om_get (SyncedRoute.peer_infos s') pid = om_get (SyncedRoute.peer_infos s) pid \/
     exists i, om_get (SyncedRoute.peer_infos s') pid = Some i /\
       (om_get (SyncedRoute.peer_infos s) pid = None /\ version i = 0 /\ tc_allow_relay c = true \/
        pid = from /\ is_credential_peer_info i = true /\ Forall (cidr_allowed c) (proxy_cidrs i))) /\
    (tc_allow_relay c = false -> om_get (conn_map s') pid = om_get (conn_map s) pid) /\
    (forall name, foreign_network s' !! (pid, name) = foreign_network s !! (pid, name)).
Proof.
  intros Hdo Hsend s s' pid Hun. change (confined c from s s' pid). subst s s'.
  unfold do_sync_route_info in Hdo. cbv zeta in Hdo.
  destruct (stopped sv); [injection Hdo as <-; by apply same_confined|].
  set (found := match get_session sv from with Some ps => _ | None => _ end) in Hdo.
  assert (forall sv1 ps, found = Ok (sv1, ps) -> synced_route_info sv1 = synced_route_info sv) as Hfound.
  { intros sv1 ps. subst found. destruct (get_session sv from); [by intros [= <- _]|].
    destruct is_initiator; [|done]. unfold get_or_start_session. destruct (stopped sv); [done|].
    destruct (sessions sv !! from) as [[? ?]|]; by intros [= <- _]. }
  destruct found as [[sv1 [ptr ss]]|e]; [|injection Hdo as <-; by apply same_confined].
  specialize (Hfound _ _ eq_refl).
  assert (sender_credential sv1 sn iface_type iface_key from = Ok (Some c)) as Hs1
    by (rewrite <- Hsend; unfold sender_credential; by rewrite Hfound).
  rewrite Hs1 in Hdo. destruct (admit_inbound_locked ss session_id is_initiator) as [adm ss1].
  destruct adm; cbn [negb] in Hdo.
  2:{ injection Hdo as <-. cbn. rewrite Hfound. by apply same_confined. }
  set (ss2 := with_contact ss1 _ _ now) in Hdo. set (sv2 := set_session sv1 from ptr ss2) in Hdo.
  destruct (match infos with Some l => accept_peer_infos sv2 cx from ptr (Some c) l raws now
    | None => Ret (sv2, Ok false) end) as [[sv3 r]|] eqn:E3; [|done]. cbn [mbind comp_bind] in Hdo.
  assert (confined c from (synced_route_info sv) (synced_route_info sv3) pid) as H3.
  { rewrite <- Hfound. change (synced_route_info sv1) with (synced_route_info sv2).
    destruct infos; [by eapply accept_infos_confined|]. injection E3 as <- _. by apply same_confined. }
  destruct r as [got|e]; [|injection Hdo as <-; exact H3].
  destruct (match conns with Some ci => accept_conn_info sv3 from ptr (Some c) ci now
    | None => Ret (sv3, false) end) as [[sv4 gotc]|] eqn:E4; [|done]. cbn [mbind comp_bind] in Hdo.
  assert (confined c from (synced_route_info sv) (synced_route_info sv4) pid) as H4
    by (destruct conns; [by eapply accept_conns_confined|by injection E4 as <- _]).
  destruct (if got || gotc then refresh_credential_trusts_with_current_topology sv4 cx now
    else Ret (sv4, ∅)) as [[sv5 untrusted]|] eqn:E5; [|done]. cbn [mbind comp_bind] in Hdo.
  assert (pid ∉ untrusted -> confined c from (synced_route_info sv) (synced_route_info sv5) pid) as H5.
  { intros Hp. destruct (got || gotc); [|by injection E5 as <- _].
    apply refresh_frame in E5 as [_ Hf]. eapply confined_same; [exact H4|]. by apply Hf. }
  assert (match foreign with Some f => accept_foreign_network sv5 from ptr (Some c) f now
    | None => Ret (sv5, false) end = Ret (sv5, false)) as E6 by (by destruct foreign).
  rewrite E6 in Hdo. cbn [mbind comp_bind] in Hdo. rewrite orb_false_r in Hdo.
  destruct (got || gotc).
  - destruct (update_route_table_and_cached_local_conn_bitmap sv5 cx now) as [sv6|] eqn:E7; [|done].
    cbn [mbind comp_bind] in Hdo. apply rebuild_frame in E7 as (S6 & _).
    destruct (owner_map_frame sv6) as [S7 _]. injection Hdo as <-. cbn in Hun |- *.
    rewrite S7, S6. by apply H5.
  - cbn [mbind comp_bind] in Hdo. injection Hdo as <-. cbn in Hun |- *. by apply H5.
Qed.
