(* ===== verification/DeliveryProofs.v ===== *)
(** Delivery of peer information.  A node skips what it has sent and stops its
    scan at what is older than its last successful exchange; a peer that it
    cannot reach is put aside.  These files show that nothing is lost by that:
    whatever the other side has not got in its present generation, and this node
    can reach, is in the next request. *)

From stdpp Require Import list gmap sorting.
From S2P Require Import Prelude RouteGraph RouteMessages RouteWire RouteTable SyncedRoute SyncedRouteProofs CredentialProofs SyncSession RouteSync RouteSyncProofs.
Local Open Scope Z_scope.
Local Set Warnings "-clear-no-such-hyp".

(** Iteration is in the order of insertion, a key inserted again going last: what
    the scans of [build_route_info] and [build_conn_peer_list] rely on. *)
Class OrderedMapOrder (om : OrderedMap) := {
  om_iter_empty {V} : om_iter (om_empty (V:=V)) = [];
  om_iter_insert {V} k (v : V) m :
    om_iter (om_insert k v m) = filter (fun kv => kv.1 <> k) (om_iter m) ++ [(k, v)];
  om_iter_remove {V} k (m : OMap V) :
    om_iter (om_remove k m) = filter (fun kv => kv.1 <> k) (om_iter m) }.

Lemma merge_sort_elem {A} (R : relation A) `{!RelDecision R} (l : list A) x : x ∈ merge_sort R l <-> x ∈ l.
Proof. by rewrite (merge_sort_Permutation R l). Qed.

Lemma btree_list_elem {V} (m : gmap Z V) k v : (k, v) ∈ btree_list m <-> m !! k = Some v.
Proof. unfold btree_list. rewrite (merge_sort_Permutation key_le (map_to_list m)). apply elem_of_map_to_list. Qed.
Lemma btree_list_nodup {V} (m : gmap Z V) : NoDup (btree_list m).*1.
Proof. unfold btree_list. rewrite (merge_sort_Permutation key_le (map_to_list m)). apply NoDup_fst_map_to_list. Qed.
Lemma btree_set_elem (X : gset Z) k : k ∈ btree_set X <-> k ∈ X.
Proof. unfold btree_set. by rewrite (merge_sort_Permutation Z.le (elements X)), elem_of_elements. Qed.

(** ** One scan *)

Section scan.
Context {om : OrderedMap} {Hom : OrderedMapLaws om}.

(** Touching saved versions, at most. *)
Definition touched (s s' : SyncRouteSession) : Prop :=
  (forall pid, vt_version <$> dst_saved_peer_info_versions s' !! pid =
               vt_version <$> dst_saved_peer_info_versions s !! pid) /\
  dst_saved_conn_info_version s' = dst_saved_conn_info_version s /\
  dst_saved_foreign_network_versions s' = dst_saved_foreign_network_versions s /\
  unreachable_peers_for_conn_info s' = unreachable_peers_for_conn_info s /\
  ss_dst_peer_id s' = ss_dst_peer_id s /\ last_sync_succ_timestamp s' = last_sync_succ_timestamp s /\
  state_revision s' = state_revision s /\ roles s' = roles s.

Lemma touched_refl s : touched s s.
Proof using. by split_and!. Qed.
Lemma touched_trans s1 s2 s3 : touched s1 s2 -> touched s2 s3 -> touched s1 s3.
Proof using.
  intros (A1 & A2 & A3 & A4 & A5 & A6 & A7 & A8) (B1 & B2 & B3 & B4 & B5 & B6 & B7 & B8).
  split_and!; congruence.
Qed.
Lemma touched_unreachable s pi : touched s (with_unreachable s pi (unreachable_peers_for_conn_info s)).
Proof using. by split_and!. Qed.

(** The other side has [pid] at version [v] as far as this node remembers. *)
Definition known (s : SyncRouteSession) (pid v : Z) : Prop :=
  exists vt, dst_saved_peer_info_versions s !! pid = Some vt /\ v <= vt_version vt.

Lemma touched_known s s' pid v : touched s s' -> known s' pid v <-> known s pid v.
Proof using.
  intros (A1 & _). specialize (A1 pid). unfold known.
  destruct (dst_saved_peer_info_versions s' !! pid) as [a|], (dst_saved_peer_info_versions s !! pid) as [b|];
    cbn in A1; try done.
  injection A1 as E. split; intros (vt & [= <-] & Hv); eexists; (split; [done|]); lia.
Qed.

Lemma classic_known s pid v : known s pid v \/ ~ known s pid v.
Proof using.
  unfold known. destruct (dst_saved_peer_info_versions s !! pid) as [vt|]; [|right; by intros (? & ? & _)].
  destruct (decide (v <= vt_version vt)); [left; eauto|right]. by intros (? & [= <-] & ?).
Qed.

Definition skipped (s : SyncRouteSession) (pid v : Z) : Prop :=
  v = 0 \/ pid = ss_dst_peer_id s \/ known s pid v.

Lemma touched_skipped s s' pid v : touched s s' -> skipped s' pid v <-> skipped s pid v.
Proof using.
  intros Ht. unfold skipped. rewrite (touched_known _ _ _ _ Ht). by destruct Ht as (_ & _ & _ & _ & -> & _).
Qed.

Lemma check_spec s pid v now b s' :
  check_saved_peer_info_update_to_date s pid v now = (b, s') ->
  touched s s' /\ unreachable_peers_for_peer_info s' = unreachable_peers_for_peer_info s /\
  (b = true <-> skipped s pid v).
Proof using.
  unfold check_saved_peer_info_update_to_date, skipped.
  destruct (Z.eqb_spec v 0) as [->|Hv]; cbn [orb]; [intros [= <- <-]; split_and!; try done; tauto|].
  destruct (Z.eqb_spec pid (ss_dst_peer_id s)) as [->|Hp]; [intros [= <- <-]; split_and!; try done; tauto|].
  unfold check_saved, known. destruct (dst_saved_peer_info_versions s !! pid) as [vt|] eqn:E;
    intros [= <- <-]; (split_and!; try done).
  - split_and!; try done. intros k. cbn. destruct (decide (pid = k)) as [<-|].
    + by rewrite lookup_insert_eq, E.
    + by rewrite lookup_insert_ne.
  - rewrite Z.leb_le. split; [eauto 10|]. intros [?|[?|(? & [= <-] & ?)]]; done.
  - split; [done|]. intros [?|[?|(? & ? & _)]]; done.
Qed.

Lemma route_info_loop_spec reach now ls l : forall s acc s' acc',
  NoDup l.*1 -> route_info_loop reach now ls l s acc = (s', acc') ->
  touched s s' /\ (forall i, i ∈ acc -> i ∈ acc') /\
  (forall k v, unreachable_peers_for_peer_info s !! k = Some v ->
     unreachable_peers_for_peer_info s' !! k = Some v \/
     exists i, (k, i) ∈ l /\ unreachable_peers_for_peer_info s' !! k = Some (version i)) /\
  (forall k, k ∉ l.*1 -> unreachable_peers_for_peer_info s' !! k = unreachable_peers_for_peer_info s !! k) /\
  (forall l1 pid i l2, l = l1 ++ (pid, i) :: l2 ->
     Forall (fun kv => older_than_sync (last_update kv.2) ls = false) (l1 ++ [(pid, i)]) ->
     ~ skipped s (peer_id i) (version i) ->
     if reach pid then i ∈ acc' else unreachable_peers_for_peer_info s' !! pid = Some (version i)).
Proof using.
  induction l as [|[pid i] l IH]; intros s acc s' acc' Hnd; cbn [route_info_loop].
  - intros [= <- <-]. split_and!; try done; [by left|]. intros [|] ????; done.
  - rewrite fmap_cons in Hnd. apply NoDup_cons in Hnd as [Hni Hnd].
    destruct (older_than_sync (last_update i) ls) eqn:Eo.
    { intros [= <- <-]. split_and!; try done; [by left|].
      intros [|kv l1] p j l2 Heq Hall; cbn in Heq; simplify_eq; apply Forall_cons in Hall as [Hh _];
        cbn in Hh; congruence. }
    destruct (check_saved_peer_info_update_to_date s (peer_id i) (version i) now) as [b s1] eqn:Ec.
    apply check_spec in Ec as (Ht & Hu & Hb).
    set (s2 := if b : bool then s1 else if reach pid then s1 else
      with_unreachable s1 (<[pid := version i]> (unreachable_peers_for_peer_info s1))
        (unreachable_peers_for_conn_info s1)).
    set (acc2 := if b : bool then acc else if reach pid then acc ++ [i] else acc).
    intros Hloop. assert (route_info_loop reach now ls l s2 acc2 = (s', acc')) as Hl2.
    { subst s2 acc2. destruct b; [done|]. destruct (reach pid); done. }
    clear Hloop. apply IH in Hl2 as (Ht' & Hacc & Hun & Hout & Hin); [|done].
    assert (touched s s2) as Ht2.
    { subst s2. destruct b; [done|]. destruct (reach pid); [done|].
      eapply touched_trans; [done|apply touched_unreachable]. }
    assert (forall k, k <> pid -> unreachable_peers_for_peer_info s2 !! k = unreachable_peers_for_peer_info s !! k) as Hu2.
    { intros k Hk. subst s2. rewrite <- Hu. destruct b; [done|]. destruct (reach pid); [done|].
      cbn. by rewrite lookup_insert_ne. }
    split_and!.
    + by eapply touched_trans.
    + intros j Hj. apply Hacc. subst acc2. destruct b; [done|]. destruct (reach pid); [|done].
      apply elem_of_app. by left.
    + intros k v Hk. destruct (decide (k = pid)) as [->|Hne].
      * rewrite (Hout pid) by done. subst s2.
        destruct b; [left; by rewrite Hu|]. destruct (reach pid); [left; by rewrite Hu|].
        right. exists i. split; [by left|]. cbn. apply lookup_insert_eq.
      * rewrite <- (Hu2 k Hne) in Hk. destruct (Hun k v Hk) as [?|(j & Hj & ?)]; [by left|].
        right. exists j. split; [by right|done].
    + intros k Hk. rewrite fmap_cons in Hk. apply not_elem_of_cons in Hk as [Hne Hk].
      rewrite (Hout k Hk). by apply Hu2.
    + intros [|kv l1] p j l2 Heq Hall Hsk; cbn in Heq; injection Heq as <- Hl.
      * subst j l2. assert (b = false) as -> by (destruct b; [by exfalso; apply Hsk, Hb|done]).
        subst s2 acc2. cbn [fst snd] in *. destruct (reach pid).
        -- apply Hacc, elem_of_app. right. by left.
        -- rewrite Hout by done. cbn. apply lookup_insert_eq.
      * apply Forall_cons in Hall as [_ Hall]. apply (Hin l1 p j l2 Hl Hall).
        by rewrite (touched_skipped _ _ _ _ Ht2).
Qed.

Lemma route_info_retain_spec infos reach now l : forall s acc s' acc',
  NoDup l.*1 -> route_info_retain infos reach now l s acc = (s', acc') ->
  touched s s' /\ (forall i, i ∈ acc -> i ∈ acc') /\
  (forall k, k ∉ l.*1 -> unreachable_peers_for_peer_info s' !! k = unreachable_peers_for_peer_info s !! k) /\
  (forall k v, (k, v) ∈ l -> ~ skipped s k v -> forall i, om_get infos k = Some i ->
     unreachable_peers_for_peer_info s' !! k = unreachable_peers_for_peer_info s !! k /\
     (reach k = true -> i ∈ acc')).
Proof using.
  induction l as [|[k0 v0] l IH]; intros s acc s' acc' Hnd; cbn [route_info_retain].
  - intros [= <- <-]. split_and!; try done. by intros ?? ?%not_elem_of_nil.
  - rewrite fmap_cons in Hnd. apply NoDup_cons in Hnd as [Hni Hnd]. cbn [fst] in Hni.
    destruct (check_saved_peer_info_update_to_date s k0 v0 now) as [b s1] eqn:Ec.
    apply check_spec in Ec as (Ht & Hu & Hb).
    set (forget := with_unreachable s1 _ _).
    set (s2 := if b : bool then forget else match om_get infos k0 with None => forget | Some _ => s1 end).
    set (acc2 := if b : bool then acc else match om_get infos k0 with
      | Some i => if reach k0 then acc ++ [i] else acc | None => acc end).
    intros Hloop. assert (route_info_retain infos reach now l s2 acc2 = (s', acc')) as Hl2.
    { subst s2 acc2. destruct b; [done|]. destruct (om_get infos k0); done. }
    clear Hloop. apply IH in Hl2 as (Ht' & Hacc & Hout & Hin); [|done].
    assert (touched s s2) as Ht2.
    { eapply touched_trans; [exact Ht|]. subst s2 forget. destruct b; [apply touched_unreachable|].
      destruct (om_get infos k0); [done|apply touched_unreachable]. }
    assert (forall k, k <> k0 -> unreachable_peers_for_peer_info s2 !! k = unreachable_peers_for_peer_info s !! k) as Hu2.
    { intros k Hk. rewrite <- Hu. subst s2 forget. destruct b; [|destruct (om_get infos k0)]; cbn;
        by rewrite ?lookup_delete_ne. }
    assert (forall i, i ∈ acc -> i ∈ acc2) as Hacc2.
    { intros i Hi. subst acc2. destruct b; [done|]. destruct (om_get infos k0); [|done].
      destruct (reach k0); [apply elem_of_app; by left|done]. }
    split_and!.
    + by eapply touched_trans.
    + intros i Hi. by apply Hacc, Hacc2.
    + intros k Hk. rewrite fmap_cons in Hk. apply not_elem_of_cons in Hk as [Hne Hk].
      rewrite (Hout k Hk). by apply Hu2.
    + intros k v [Heq|Hkv]%elem_of_cons Hsk i Hi.
      * injection Heq as -> ->. assert (b = false) as -> by (destruct b; [by exfalso; apply Hsk, Hb|done]).
        rewrite (Hout k0) by done. subst s2 acc2. rewrite Hi in *. split; [by rewrite Hu|].
        intros Hr. rewrite Hr in *. apply Hacc, elem_of_app. right. by left.
      * assert (k <> k0) as Hne by (intros ->; apply Hni; by apply (list_elem_of_fmap_2 fst) in Hkv).
        rewrite <- (Hu2 k Hne). apply (Hin k v Hkv); [by rewrite (touched_skipped _ _ _ _ Ht2)|done].
Qed.
End scan.

(** ** A request *)

(** The last update of an entry. *)
Definition updated_at (i : RoutePeerInfo) : Z := default 0 (last_update i).

(** Entries in the order of their last updates, each under its own id. *)
Definition infos_ordered `{OrderedMap} (infos : OMap RoutePeerInfo) (clock : Z) : Prop :=
  StronglySorted (fun a b : Z * RoutePeerInfo => updated_at a.2 <= updated_at b.2) (om_iter infos) /\
  Forall (fun kv => is_Some (last_update kv.2) /\ updated_at kv.2 <= clock /\
    (version kv.2 <> 0 -> peer_id kv.2 = kv.1)) (om_iter infos).

(** What a node must see to: information with a version, not of the peer itself. *)
Definition due (s : SyncRouteSession) (pid : Z) (i : RoutePeerInfo) : Prop :=
  0 < version i /\ pid <> ss_dst_peer_id s.

Definition put_aside (s : SyncRouteSession) (pid v : Z) : Prop :=
  exists w, unreachable_peers_for_peer_info s !! pid = Some w /\ v <= w.

(** The scan reaches an entry that is not older than the last exchange. *)
Lemma scan_prefix `{OrderedMap, !OrderedMapLaws _} infos clock ls pid i :
  infos_ordered infos clock -> om_get infos pid = Some i ->
  older_than_sync (last_update i) ls = false ->
  exists l1 l2, rev (om_iter infos) = l1 ++ (pid, i) :: l2 /\
    Forall (fun kv => older_than_sync (last_update kv.2) ls = false) (l1 ++ [(pid, i)]).
Proof.
  intros [Hs Hf] Hi%om_iter_get Ho. apply list_elem_of_split in Hi as (a & b & E).
  exists (rev b), (rev a). rewrite E, rev_app_distr. cbn. rewrite <- app_assoc. split; [done|].
  apply Forall_app. split; [|by constructor]. apply Forall_rev.
  rewrite E in Hs, Hf. apply Forall_app in Hf as [_ Hf]. apply Forall_cons in Hf as [(Hsome & _) Hf].
  assert (Forall (fun kv => updated_at i <= updated_at kv.2) b) as Hb.
  { clear -Hs. induction a as [|x a IH]; cbn in Hs; inversion Hs; subst; [done|]. by apply IH. }
  rewrite Forall_forall in Hb, Hf |- *. intros kv Hkv. specialize (Hb kv Hkv).
  destruct (Hf kv Hkv) as ((u & Hu) & _). destruct Hsome as (u0 & Hu0).
  unfold older_than_sync, updated_at in *.
  cbn [snd] in Hu0. rewrite Hu. rewrite Hu, Hu0 in Hb. rewrite Hu0 in Ho. destruct ls as [t|]; [|done]. cbn in Hb. bools.
  apply Z.ltb_ge. lia.
Qed.

(** What a request contains. *)
Lemma build_route_info_spec `{T : Target, H : MinHeap, G : PetGraph, N : RouteNet, O : HashOrder,
    om : OrderedMap, !OrderedMapLaws om} sv s now s' r clock :
  build_route_info sv s now = (s', r) ->
  let infos := SyncedRoute.peer_infos (synced_route_info sv) in
  let reachable := topology_peer_reachable (route_table sv) in
  infos_ordered infos clock ->
  touched s s' /\
  forall pid i, om_get infos pid = Some i -> due s pid i -> ~ known s pid (version i) ->
    older_than_sync (last_update i) (last_sync_succ_timestamp s) = false \/ put_aside s pid (version i) ->
    (put_aside s' pid (version i) \/ i ∈ default [] r) /\ (reachable pid = true -> i ∈ default [] r) /\
    (put_aside s pid (version i) -> put_aside s' pid (version i)).
Proof.
  intros Hb infos reachable Hord. unfold build_route_info in Hb. fold infos reachable in Hb.
  assert (NoDup (rev (om_iter infos)).*1) as Hnd
    by (rewrite <- (Permutation_rev (om_iter infos)); apply om_iter_nodup).
  destruct (route_info_loop _ _ _ _ s []) as [s1 acc1] eqn:E1.
  apply route_info_loop_spec in E1 as (Ht1 & _ & Hun1 & _ & Hin1); [|exact Hnd].
  destruct (route_info_retain _ _ _ _ s1 acc1) as [s2 acc2] eqn:E2.
  apply route_info_retain_spec in E2 as (Ht2 & Hacc2 & Hout2 & Hin2); [|apply btree_list_nodup].
  injection Hb as <- <-. split; [by eapply touched_trans|].
  assert (default [] (match acc2 with [] => None | _ => Some acc2 end) = acc2) as -> by (by destruct acc2).
  intros pid i Hi [Hv Hne] Hnk Hcase.
  assert (~ skipped s pid (version i)) as Hsk by (intros [?|[?|?]]; [lia|done|done]).
  assert (peer_id i = pid) as Hpid.
  { apply om_iter_get in Hi. destruct Hord as [_ Hf]. rewrite Forall_forall in Hf.
    apply (Hf (pid, i) Hi). cbn. lia. }
  assert ((put_aside s1 pid (version i) \/ i ∈ acc1) /\
    (older_than_sync (last_update i) (last_sync_succ_timestamp s) = false -> reachable pid = true -> i ∈ acc1) /\
    (put_aside s pid (version i) -> put_aside s1 pid (version i))) as (H1 & H2 & H3).
  { split_and!.
    - destruct Hcase as [Ho|(w & Hw & Hle)].
      + destruct (scan_prefix infos clock _ pid i Hord Hi Ho) as (l1 & l2 & E & Hall).
        specialize (Hin1 l1 pid i l2 E Hall). rewrite Hpid in Hin1. specialize (Hin1 Hsk).
        destruct (reachable pid); [by right|]. left. exists (version i). split; [done|lia].
      + left. destruct (Hun1 pid w Hw) as [Hu|(j & Hj%list_elem_of_In & Hu)]; [by exists w|].
        apply in_rev, list_elem_of_In, om_iter_get in Hj. rewrite Hi in Hj. injection Hj as <-.
        exists (version i). split; [done|lia].
    - intros Ho Hr. destruct (scan_prefix infos clock _ pid i Hord Hi Ho) as (l1 & l2 & E & Hall).
      specialize (Hin1 l1 pid i l2 E Hall). rewrite Hpid in Hin1. specialize (Hin1 Hsk).
      by rewrite Hr in Hin1.
    - intros (w & Hw & Hle). destruct (Hun1 pid w Hw) as [Hu|(j & Hj%list_elem_of_In & Hu)]; [by exists w|].
      apply in_rev, list_elem_of_In, om_iter_get in Hj. rewrite Hi in Hj. injection Hj as <-.
      exists (version i). split; [done|lia]. }
  assert (forall w, unreachable_peers_for_peer_info s1 !! pid = Some w -> version i <= w ->
    unreachable_peers_for_peer_info s2 !! pid = Some w /\ (reachable pid = true -> i ∈ acc2)) as Hret.
  { intros w Hw Hle. assert (~ skipped s1 pid w) as Hsk1.
    { rewrite (touched_skipped _ _ _ _ Ht1). intros [?|[?|(vt & ? & ?)]]; [lia|done|].
      apply Hnk. exists vt. split; [done|lia]. }
    destruct (Hin2 pid w (proj2 (btree_list_elem _ _ _) Hw) Hsk1 i Hi) as [-> Hr]. by split. }
  split_and!.
  - destruct H1 as [(w & Hw & Hle)|H1]; [|right; by apply Hacc2]. left. exists w.
    split; [by apply Hret|done].
  - intros Hr. destruct Hcase as [Ho|Hp]; [by apply Hacc2, H2|].
    destruct (H3 Hp) as (w & Hw & Hle). by apply (Hret w).
  - intros (w & Hw & Hle)%H3. exists w. split; [by apply Hret|done].
Qed.

(** ** Executions *)

Section executions.
Context {T : Target} {H : MinHeap} {G : PetGraph} {N : RouteNet} {O : HashOrder}.
Context {om : OrderedMap} {Hom : OrderedMapLaws om} {Hord : OrderedMapOrder om}.

(** The information a node holds changes by entries stamped with the present
    time and by removals. *)
Inductive infos_edit (clock : Z) : OMap RoutePeerInfo -> OMap RoutePeerInfo -> Prop :=
  | edit_insert infos pid i :
    last_update i = Some clock -> (version i <> 0 -> peer_id i = pid) ->
    infos_edit clock infos (om_insert pid i infos)
  | edit_remove infos pid : infos_edit clock infos (om_remove pid infos).

(** What a commit records. *)
Definition commit_keys (p : PendingSync) : list (SavedKey * Z) :=
  default [] (foreign_keys <$> rq_foreign_network_infos (ps_request p)) ++
  default [] (conn_keys <$> rq_conn_info (ps_request p)) ++
  info_keys (default [] (rq_peer_infos (ps_request p))).

(** A node and one of its sessions: the information it holds, the session, the
    versions recorded for the other side, the time and the requests made. *)
Inductive exchange : nat -> OMap RoutePeerInfo -> SyncRouteSession -> list (Z * SavedKey * Z) -> Z ->
    list PendingSync -> Prop :=
  | x_start infos me dst id clock :
    infos_ordered infos clock -> exchange 0 infos (SyncRouteSession_new me dst id clock) [] clock []
  | x_tick n infos s log clock pend clock' :
    exchange n infos s log clock pend -> clock <= clock' -> exchange (S n) infos s log clock' pend
  | x_edit n infos s log clock pend infos' :
    exchange n infos s log clock pend -> infos_edit clock infos infos' ->
    exchange (S n) infos' s log clock pend
  (** any other operation: what was put aside and the time of the last exchange
      stay, or a new generation clears them *)
  | x_session n infos s log clock pend l s' :
    exchange n infos s log clock pend -> session_step s l s' ->
    unreachable_peers_for_peer_info s' = unreachable_peers_for_peer_info s /\
      last_sync_succ_timestamp s' = last_sync_succ_timestamp s \/
    last_sync_succ_timestamp s' = None /\ state_revision s' <> state_revision s ->
    exchange (S n) infos s' (map (fun x => (dst_session_id s', x.1, x.2)) l ++ log) clock pend
  | x_request n infos s log clock pend sv s' r p :
    exchange n infos s log clock pend ->
    SyncedRoute.peer_infos (synced_route_info sv) = infos ->
    build_route_info sv s clock = (s', r) ->
    ps_snapshot p = request_snapshot_locked s -> ps_next_last_sync_succ_timestamp p = clock ->
    rq_peer_infos (ps_request p) = r ->
    exchange (S n) infos s' log clock (p :: pend)
  (** a response of the generation that the session has recorded, or of a new
      one (the first response is) when no peer information was recorded for the
      old one and no peer was put aside as unreachable *)
  | x_commit n infos s log clock pend p resp s' :
    exchange n infos s log clock pend -> p ∈ pend ->
    request_is_current_locked s (ps_snapshot p) = true ->
    rs_session_id resp = dst_session_id s \/
      unreachable_peers_for_peer_info s = ∅ /\ (forall pid w, (dst_session_id s, SPeer pid, w) ∉ log) ->
    commit_response s p resp clock = Ret s' ->
    exchange (S n) infos s' (map (fun x => (rs_session_id resp, x.1, x.2)) (commit_keys p) ++ log) clock pend.

(** ** Lemmas *)

Definition logged (s : SyncRouteSession) (log : list (Z * SavedKey * Z)) (pid v : Z) : Prop :=
  exists w, v <= w /\ (dst_session_id s, SPeer pid, w) ∈ log.

Lemma logged_mono s s' log log' pid v :
  dst_session_id s' = dst_session_id s -> (forall x, x ∈ log -> x ∈ log') ->
  logged s log pid v -> logged s' log' pid v.
Proof using. intros E Hl (w & Hw & Hin). exists w. rewrite E. split; [done|by apply Hl]. Qed.

Lemma known_logged s log pid v : 0 < v -> saved_logged s log -> known s pid v -> logged s log pid v.
Proof using.
  intros Hv (Hs & _) (vt & Hk & Hle). exists (vt_version vt). split; [done|]. apply Hs; [done|lia].
Qed.

(** Nothing due is forgotten. *)
Definition covers (infos : OMap RoutePeerInfo) (s : SyncRouteSession) (log : list (Z * SavedKey * Z)) : Prop :=
  forall pid i, om_get infos pid = Some i -> due s pid i ->
    logged s log pid (version i) \/ put_aside s pid (version i) \/
    older_than_sync (last_update i) (last_sync_succ_timestamp s) = false.

(** Nor will it be when the response to [p] is committed. *)
Definition covers_request (infos : OMap RoutePeerInfo) (s : SyncRouteSession)
    (log : list (Z * SavedKey * Z)) (p : PendingSync) : Prop :=
  forall pid i, om_get infos pid = Some i -> due s pid i ->
    updated_at i < ps_next_last_sync_succ_timestamp p ->
    logged s log pid (version i) \/ put_aside s pid (version i) \/
    exists j, j ∈ default [] (rq_peer_infos (ps_request p)) /\ peer_id j = pid /\ version i <= version j.

Definition sync_before (s : SyncRouteSession) (clock : Z) : Prop :=
  match last_sync_succ_timestamp s with Some t => t <= clock | None => True end.

Definition exchange_inv (n : nat) (infos : OMap RoutePeerInfo) (s : SyncRouteSession)
    (log : list (Z * SavedKey * Z)) (clock : Z) (pend : list PendingSync) : Prop :=
  infos_ordered infos clock /\ saved_logged s log /\ sync_before s clock /\ covers infos s log /\
  exists g, 0 <= g <= Z.of_nat n /\ state_revision s = wrap 64 g /\
    forall p, p ∈ pend -> ps_next_last_sync_succ_timestamp p <= clock /\
      exists gp, 0 <= gp <= g /\ sn_state_revision (ps_snapshot p) = wrap 64 gp /\
        (gp = g -> covers_request infos s log p).

Lemma ordered_tick infos clock clock' : clock <= clock' -> infos_ordered infos clock -> infos_ordered infos clock'.
Proof using.
  intros Hc [Hs Hf]. split; [done|]. eapply Forall_impl; [exact Hf|]. intros kv (? & ? & ?). split_and!; [done|lia|done].
Qed.

Lemma sorted_filter {A} (R : A -> A -> Prop) P `{!forall x, Decision (P x)} (l : list A) :
  StronglySorted R l -> StronglySorted R (filter P l).
Proof using.
  induction 1 as [|a l Hs IH Ha]; [constructor|]. rewrite filter_cons. case_match; [|done].
  constructor; [done|]. rewrite Forall_forall in Ha |- *. intros x [_ Hx]%list_elem_of_filter. by apply Ha.
Qed.
Lemma sorted_snoc {A} (R : A -> A -> Prop) (l : list A) x :
  StronglySorted R l -> Forall (fun a => R a x) l -> StronglySorted R (l ++ [x]).
Proof using.
  induction 1 as [|a l Hs IH Ha]; intros Hx; cbn; [by repeat constructor|].
  apply Forall_cons in Hx as [Hax Hx]. constructor; [by apply IH|]. apply Forall_app. split; [done|by repeat constructor].
Qed.

Lemma ordered_edit infos infos' clock :
  infos_edit clock infos infos' -> infos_ordered infos clock -> infos_ordered infos' clock.
Proof using Hord.
  destruct 1 as [infos pid i Hu Hp|infos pid]; intros [Hs Hf]; unfold infos_ordered;
    rewrite ?om_iter_insert, ?om_iter_remove.
  - assert (Forall (fun kv : Z * RoutePeerInfo => is_Some (last_update kv.2) /\ updated_at kv.2 <= clock /\
      (version kv.2 <> 0 -> peer_id kv.2 = kv.1)) (filter (fun kv => kv.1 <> pid) (om_iter infos))) as Hff.
    { rewrite Forall_forall in Hf |- *. intros x [_ Hx]%list_elem_of_filter. by apply Hf. }
    split.
    + apply sorted_snoc; [by apply sorted_filter|]. eapply Forall_impl; [exact Hff|]. intros kv (_ & Hc & _).
      unfold updated_at at 2. cbn. by rewrite Hu.
    + apply Forall_app. split; [done|]. apply Forall_cons. split; [|constructor]. cbn. unfold updated_at.
      rewrite Hu. split_and!; [eauto|cbn; lia|done].
  - split; [by apply sorted_filter|]. rewrite Forall_forall in Hf |- *.
    intros x [_ Hx]%list_elem_of_filter. by apply Hf.
Qed.

(** An entry after an edit is an old one or new as of now. *)
Lemma edit_entry infos infos' clock pid i :
  infos_edit clock infos infos' -> om_get infos' pid = Some i ->
  om_get infos pid = Some i \/ last_update i = Some clock.
Proof using Hom.
  destruct 1 as [infos k j Hu _|infos k]; rewrite ?om_get_insert, ?om_get_remove;
    destruct (Z.eqb_spec k pid); try done; [|by left|by left]. intros [= <-]. by right.
Qed.

Lemma step_dst s l s' :
  session_step s l s' -> ss_dst_peer_id s' = ss_dst_peer_id s /\
  (dst_session_id s' = dst_session_id s \/ last_sync_succ_timestamp s' = None).
Proof using.
  assert (forall s id b, ss_dst_peer_id (update_remote_state_locked s id b) = ss_dst_peer_id s /\
    (dst_session_id (update_remote_state_locked s id b) = dst_session_id s \/
     last_sync_succ_timestamp (update_remote_state_locked s id b) = None)) as Hr.
  { intros s0 id b. unfold update_remote_state_locked.
    destruct (Z.eqb_spec id (dst_session_id s0)) as [->|]; cbn [negb orb];
      destruct (eqb b (dst_is_initiator s0)); cbn; split; (done || (by left) || by right). }
  destruct 1 as [s b|s id b|s id b|s id|s now|s pid v now|s pid v now|s k v now|s l d now|s c d now
    |s l d now s' Hs|s now|s t|s pi ci|s b|s tx rx now|s b]; try (split; [done|by left]); try apply Hr.
  - unfold update_initiator_flag. case_match; split; (done || by left).
  - unfold admit_inbound_locked. repeat case_match; cbn [snd]; try apply Hr; split; (done || by left).
  - unfold clear_dst_initiator_if_session_unchanged_locked.
    case_match; cbn [snd]; [split; (done || by left)|apply Hr].
  - unfold clear_stale_dst_initiator. repeat case_match; cbn [snd]; try apply Hr; split; (done || by left).
  - unfold check_saved_peer_info_update_to_date. destruct (_ || _); [|destruct (check_saved _ _ _ _)];
      split; (done || by left).
  - unfold check_saved_conn_version_update_to_date. destruct (_ || _); [|destruct (check_saved _ _ _ _)];
      split; (done || by left).
  - unfold check_saved_foreign_network_version_update_to_date.
    destruct (_ || _); [|destruct (check_saved _ _ _ _)]; split; (done || by left).
  - destruct c; split; (done || by left).
  - unfold update_dst_saved_foreign_network_version in Hs.
    destruct (save_foreign_versions _ _ _ _); [|done]. injection Hs as <-. split; (done || by left).
  - unfold update_last_sync_succ_timestamp. destruct (last_sync_succ_timestamp s); [case_match|];
      split; (done || by left).
Qed.

Lemma touched_logged s s' log : touched s s' -> saved_logged s log -> saved_logged s' log.
Proof using.
  intros (A1 & A2 & A3 & _ & _ & _ & _ & A8) (H1 & H2 & H3). injection A8 as E _ _ _.
  unfold saved_logged. rewrite E, A2, A3. split_and!; try done. intros pid vt Hk Hv.
  specialize (A1 pid). rewrite Hk in A1. destruct (dst_saved_peer_info_versions s !! pid) as [vt0|] eqn:E0; [|done].
  cbn in A1. injection A1 as E1. rewrite E1 in *. by apply H1.
Qed.

Lemma last_sync_frame s t :
  let s' := update_last_sync_succ_timestamp s t in
  roles s' = roles s /\ ss_dst_peer_id s' = ss_dst_peer_id s /\
  unreachable_peers_for_peer_info s' = unreachable_peers_for_peer_info s /\
  state_revision s' = state_revision s /\
  (last_sync_succ_timestamp s' = last_sync_succ_timestamp s \/ last_sync_succ_timestamp s' = Some t).
Proof using.
  unfold update_last_sync_succ_timestamp. destruct (last_sync_succ_timestamp s) as [old|] eqn:E.
  - destruct (old <? t); cbn; split_and!; auto.
  - cbn. split_and!; auto.
Qed.

(** The commit, field by field; a new generation clears what was put aside and
    the time of the last exchange first. *)
Lemma commit_frame s p resp now s' log :
  commit_response s p resp now = Ret s' -> saved_logged s log ->
  saved_logged s' (map (fun x => (rs_session_id resp, x.1, x.2)) (commit_keys p) ++ log) /\
  dst_session_id s' = rs_session_id resp /\ ss_dst_peer_id s' = ss_dst_peer_id s /\
  (rs_session_id resp = dst_session_id s ->
     unreachable_peers_for_peer_info s' = unreachable_peers_for_peer_info s) /\
  (last_sync_succ_timestamp s' = last_sync_succ_timestamp s \/
   last_sync_succ_timestamp s' = Some (ps_next_last_sync_succ_timestamp p)) /\
  (rs_session_id resp <> dst_session_id s ->
     last_sync_succ_timestamp s' = Some (ps_next_last_sync_succ_timestamp p)) /\
  (revision_ok s -> revises s s').
Proof using.
  unfold commit_response. set (s1 := with_contact s _ _ now).
  set (s2 := update_remote_state_locked s1 _ _).
  assert (revision_ok s -> revises s s2) as R2 by (intros Hr; apply (remote_revises s1); exact Hr).
  assert (dst_session_id s2 = rs_session_id resp /\ ss_dst_peer_id s2 = ss_dst_peer_id s /\
    (rs_session_id resp = dst_session_id s ->
       unreachable_peers_for_peer_info s2 = unreachable_peers_for_peer_info s /\
       last_sync_succ_timestamp s2 = last_sync_succ_timestamp s) /\
    (rs_session_id resp <> dst_session_id s -> last_sync_succ_timestamp s2 = None)) as F2.
  { subst s2. unfold update_remote_state_locked. change (dst_session_id s1) with (dst_session_id s).
    destruct (Z.eqb_spec (rs_session_id resp) (dst_session_id s)) as [E|E]; cbn [negb orb];
      destruct (eqb _ _); cbn; split_and!; try done. }
  assert (forall lg, saved_logged s lg -> saved_logged s2 lg) as L2.
  { intros lg Hs. apply (step_logged s1 [] s2 lg); [apply st_remote|].
    by apply (step_logged s [] s1 lg); [apply st_contact|]. }
  clearbody s2.
  set (s3 := match rq_peer_infos (ps_request p) with Some l => _ | None => s2 end).
  set (k3 := info_keys (default [] (rq_peer_infos (ps_request p)))).
  assert (session_step s2 k3 s3 \/ s3 = s2 /\ k3 = []) as S3
    by (subst s3 k3; destruct (rq_peer_infos (ps_request p)); [left; apply st_save_infos|by right]).
  assert (roles s3 = roles s2 /\ ss_dst_peer_id s3 = ss_dst_peer_id s2 /\
    unreachable_peers_for_peer_info s3 = unreachable_peers_for_peer_info s2 /\
    last_sync_succ_timestamp s3 = last_sync_succ_timestamp s2 /\ state_revision s3 = state_revision s2) as F3
    by (subst s3; by destruct (rq_peer_infos (ps_request p))).
  clearbody s3.
  set (s4 := match rq_conn_info (ps_request p) with Some c => _ | None => s3 end).
  set (k4 := default [] (conn_keys <$> rq_conn_info (ps_request p))).
  assert (session_step s3 k4 s4 \/ s4 = s3 /\ k4 = []) as S4
    by (subst s4 k4; destruct (rq_conn_info (ps_request p)); [left; apply st_save_conns|by right]).
  assert (roles s4 = roles s3 /\ ss_dst_peer_id s4 = ss_dst_peer_id s3 /\
    unreachable_peers_for_peer_info s4 = unreachable_peers_for_peer_info s3 /\
    last_sync_succ_timestamp s4 = last_sync_succ_timestamp s3 /\ state_revision s4 = state_revision s3) as F4
    by (subst s4; destruct (rq_conn_info (ps_request p)) as [[]|]; done).
  clearbody s4.
  destruct (match rq_foreign_network_infos (ps_request p) with Some f => _ | None => Ret s4 end)
    as [s5|] eqn:E5; [|done]. cbn [mbind comp_bind].
  set (k5 := default [] (foreign_keys <$> rq_foreign_network_infos (ps_request p))).
  assert (session_step s4 k5 s5 \/ s5 = s4 /\ k5 = []) as S5.
  { subst k5. destruct (rq_foreign_network_infos (ps_request p)); [left; by eapply st_save_foreign|].
    injection E5 as <-. by right. }
  assert (roles s5 = roles s4 /\ ss_dst_peer_id s5 = ss_dst_peer_id s4 /\
    unreachable_peers_for_peer_info s5 = unreachable_peers_for_peer_info s4 /\
    last_sync_succ_timestamp s5 = last_sync_succ_timestamp s4 /\ state_revision s5 = state_revision s4) as F5.
  { destruct (rq_foreign_network_infos (ps_request p)); [|by injection E5 as <-].
    unfold update_dst_saved_foreign_network_version in E5.
    destruct (save_foreign_versions _ _ _ _); [|done]. by injection E5 as <-. }
  intros [= <-] Hlog. set (s6 := update_last_sync_succ_timestamp s5 _).
  pose proof (last_sync_frame s5 (ps_next_last_sync_succ_timestamp p)) as F6. fold s6 in F6.
  destruct F2 as (A2 & B2 & C2 & D2), F3 as (A3 & B3 & C3 & D3 & V3), F4 as (A4 & B4 & C4 & D4 & V4),
    F5 as (A5 & B5 & C5 & D5 & V5), F6 as (A6 & B6 & C6 & V6 & D6).
  assert (roles s6 = roles s2) as A62 by congruence.
  assert (forall a b, roles a = roles b -> dst_session_id a = dst_session_id b) as Hro
    by (intros a b E; by injection E).
  assert (last_sync_succ_timestamp s5 = last_sync_succ_timestamp s2) as L52 by congruence.
  assert (forall sa k sb lg, session_step sa k sb \/ sb = sa /\ k = [] -> dst_session_id sb = rs_session_id resp ->
    saved_logged sa lg -> saved_logged sb (map (fun x => (rs_session_id resp, x.1, x.2)) k ++ lg)) as Hstep.
  { intros sa k sb lg [Hst|[-> ->]] Hd Hl; [|done]. rewrite <- Hd. by apply step_logged with (s := sa). }
  split_and!; [| |congruence| | | |].
  - unfold commit_keys. rewrite !map_app, <- !app_assoc.
    apply (step_logged s5 [] s6); [apply st_last_sync|].
    apply (Hstep s4); [exact S5|rewrite (Hro _ _ A5), (Hro _ _ A4), (Hro _ _ A3); done|].
    apply (Hstep s3); [exact S4|rewrite (Hro _ _ A4), (Hro _ _ A3); done|].
    apply (Hstep s2); [exact S3|by rewrite (Hro _ _ A3)|]. by apply L2.
  - rewrite (Hro _ _ A62). done.
  - intros E. destruct (C2 E). congruence.
  - destruct (decide (rs_session_id resp = dst_session_id s)) as [E|E].
    + destruct (C2 E) as [_ E2]. rewrite L52, E2 in D6. exact D6.
    + right. subst s6. unfold update_last_sync_succ_timestamp. rewrite L52, (D2 E). done.
  - intros E. subst s6. unfold update_last_sync_succ_timestamp. rewrite L52, (D2 E). done.
  - intros Hr. destruct (R2 Hr) as (d & Hd & He & Hz & Hm). exists d. split_and!; try lia.
    + intros H0. rewrite A62. by apply Hz.
    + injection A62. congruence.
Qed.

Lemma due_same s s' pid i : ss_dst_peer_id s' = ss_dst_peer_id s -> due s' pid i <-> due s pid i.
Proof using. intros E. unfold due. by rewrite E. Qed.

Lemma put_aside_same s s' pid v :
  unreachable_peers_for_peer_info s' = unreachable_peers_for_peer_info s -> put_aside s pid v -> put_aside s' pid v.
Proof using. intros E. unfold put_aside. by rewrite E. Qed.

(** The same generation with a longer log and the same entries. *)
Lemma covers_request_mono infos s s' log log' p :
  dst_session_id s' = dst_session_id s -> ss_dst_peer_id s' = ss_dst_peer_id s ->
  (forall pid i, om_get infos pid = Some i -> due s pid i -> put_aside s pid (version i) ->
     put_aside s' pid (version i) \/ logged s log pid (version i)) ->
  (forall x, x ∈ log -> x ∈ log') -> covers_request infos s log p -> covers_request infos s' log' p.
Proof using.
  intros Ed Ep Hput Hl Hc pid i Hi Hd Hu. rewrite (due_same _ _ _ _ Ep) in Hd.
  destruct (Hc pid i Hi Hd Hu) as [Hlog|[Hpa|Hj]]; [left; by eapply logged_mono| |by right; right].
  destruct (Hput pid i Hi Hd Hpa) as [?|?]; [by right; left|left; by eapply logged_mono].
Qed.

Lemma inv_edit n infos s log clock pend infos' :
  exchange_inv n infos s log clock pend -> infos_edit clock infos infos' ->
  exchange_inv (S n) infos' s log clock pend.
Proof using Hom Hord.
  intros (Ho & Hs & Hb & Hc & g & Hg & Hrev & Hp) He.
  assert (forall pid i, om_get infos' pid = Some i -> om_get infos pid = Some i \/ last_update i = Some clock) as Hent
    by (intros; by eapply edit_entry).
  split_and!; [by eapply ordered_edit|done|done| |].
  - intros pid i Hi Hd. destruct (Hent pid i Hi) as [Hi0|Hu]; [by apply Hc|]. right; right.
    rewrite Hu. unfold older_than_sync, sync_before in *. destruct (last_sync_succ_timestamp s); [|done].
    by apply Z.ltb_ge.
  - exists g. split_and!; [lia..|done|]. intros p Hin. destruct (Hp p Hin) as (Ht & gp & Hgp & Hr & Hcov).
    split; [done|]. exists gp. split_and!; [lia..|done|]. intros E pid i Hi Hd Hu.
    destruct (Hent pid i Hi) as [Hi0|Hu0]; [by apply Hcov|]. unfold updated_at in Hu. rewrite Hu0 in Hu. cbn in Hu. lia.
Qed.

Lemma inv_session n infos s log clock pend l s' :
  exchange_inv n infos s log clock pend -> session_step s l s' ->
  unreachable_peers_for_peer_info s' = unreachable_peers_for_peer_info s /\
    last_sync_succ_timestamp s' = last_sync_succ_timestamp s \/
  last_sync_succ_timestamp s' = None /\ state_revision s' <> state_revision s ->
  exchange_inv (S n) infos s' (map (fun x => (dst_session_id s', x.1, x.2)) l ++ log) clock pend.
Proof using.
  intros (Ho & Hs & Hb & Hc & g & Hg & Hrev & Hp) Hst Hkeep.
  assert (revision_ok s) as Hrok by (unfold revision_ok; rewrite Hrev; by apply wrap_range).
  destruct (step_revises _ _ _ Hst Hrok) as (d & Hd & He & Hz & _).
  destruct (step_dst _ _ _ Hst) as [Ep Edst].
  assert (forall x, x ∈ log -> x ∈ map (fun x => (dst_session_id s', x.1, x.2)) l ++ log) as Hl
    by (intros; apply elem_of_app; by right).
  split_and!; [done|by apply step_logged with (s := s)| | |].
  - unfold sync_before in *. destruct Hkeep as [[_ ->]|[-> _]]; done.
  - intros pid i Hi Hdue. rewrite (due_same _ _ _ _ Ep) in Hdue.
    destruct (decide (last_sync_succ_timestamp s' = None)) as [E|Hne].
    { right; right. rewrite E. by destruct (last_update i). }
    destruct Hkeep as [[Eu El]|[El _]]; [|done]. destruct Edst as [Edst|]; [|done]. rewrite El.
    destruct (Hc pid i Hi Hdue) as [Hlog|[Hpa|Hold]]; [left; by eapply logged_mono| |by right; right].
    right; left. by eapply put_aside_same.
  - exists (g + d). split_and!; [lia..| |].
    + rewrite He, Hrev. unfold wrap. by rewrite Z.add_mod_idemp_l by lia.
    + intros p Hin. destruct (Hp p Hin) as (Ht & gp & Hgp & Hr & Hcov). split; [done|]. exists gp.
      split_and!; [lia..|done|]. intros E. assert (d = 0) as Hd0 by lia. specialize (Hz Hd0).
      destruct Hkeep as [[Eu El]|[_ Hne]].
      * apply (covers_request_mono infos s _ log); [by injection Hz|done| |done|apply Hcov; lia].
        intros ?? _ _ Hpa. left. by eapply put_aside_same.
      * exfalso. apply Hne. rewrite He, Hd0, Z.add_0_r. by apply wrap_small.
Qed.

Lemma inv_request n infos s log clock pend sv s' r p :
  exchange_inv n infos s log clock pend -> SyncedRoute.peer_infos (synced_route_info sv) = infos ->
  build_route_info sv s clock = (s', r) ->
  ps_snapshot p = request_snapshot_locked s -> ps_next_last_sync_succ_timestamp p = clock ->
  rq_peer_infos (ps_request p) = r -> exchange_inv (S n) infos s' log clock (p :: pend).
Proof using T H G N O Hom.
  intros (Ho & Hs & Hb & Hc & g & Hg & Hrev & Hp) Einf Hbuild Esn Ets Erq. subst infos.
  destruct (build_route_info_spec sv s clock s' r clock Hbuild Ho) as [Ht Hspec].
  pose proof (touched_logged _ _ log Ht Hs) as Hs'. pose proof Ht as (_ & _ & _ & _ & Ep & El & Er & Ero).
  assert (dst_session_id s' = dst_session_id s) as Ed by (by injection Ero).
  assert (forall pid i, om_get (SyncedRoute.peer_infos (synced_route_info sv)) pid = Some i -> due s pid i ->
    put_aside s pid (version i) -> put_aside s' pid (version i) \/ logged s log pid (version i)) as Hput.
  { intros pid i Hi Hd Hpa. destruct (classic_known s pid (version i)) as [Hk|Hk].
    - right. apply known_logged; [apply Hd|done|done].
    - left. by apply (Hspec pid i Hi Hd Hk (or_intror Hpa)). }
  split_and!; [done|done|by unfold sync_before in *; rewrite El| |].
  - intros pid i Hi Hd. rewrite (due_same _ _ _ _ Ep) in Hd. rewrite El.
    destruct (Hc pid i Hi Hd) as [Hlog|[Hpa|Hold]]; [left; by eapply logged_mono| |by right; right].
    destruct (Hput pid i Hi Hd Hpa) as [?|?]; [by right; left|left; by eapply logged_mono].
  - exists g. split_and!; [lia..|congruence|]. intros q [->|Hin]%elem_of_cons.
    + split; [lia|]. exists g. split_and!; [lia..|by rewrite Esn|]. intros _ pid i Hi Hd _.
      rewrite (due_same _ _ _ _ Ep) in Hd. rewrite Erq.
      destruct (classic_known s pid (version i)) as [Hk|Hk].
      { left. eapply logged_mono; [done| |apply known_logged; [apply Hd|done|done]]. done. }
      destruct (Hc pid i Hi Hd) as [Hlog|Hcase]; [left; by eapply logged_mono|].
      destruct (Hspec pid i Hi Hd Hk) as [[?|Hin] _]; [by destruct Hcase; [right|left]|by right; left|].
      right; right. exists i. split_and!; [done| |lia].
      destruct Ho as [_ Hf]. rewrite Forall_forall in Hf. apply om_iter_get in Hi.
      apply (Hf _ Hi). cbn. destruct Hd. lia.
    + destruct (Hp q Hin) as (Hq & gp & Hgp & Hr & Hcov). split; [done|]. exists gp.
      split_and!; [lia..|done|]. intros E. apply (covers_request_mono _ s _ log); [done|done|exact Hput|done|by apply Hcov].
Qed.

Lemma wrap_inj a b : 0 <= a < 2 ^ 64 -> 0 <= b < 2 ^ 64 -> wrap 64 a = wrap 64 b -> a = b.
Proof using. intros Ha Hb. unfold wrap. by rewrite !Z.mod_small. Qed.

Lemma inv_commit n infos s log clock pend p resp s' :
  exchange_inv n infos s log clock pend -> Z.of_nat n < 2 ^ 64 -> p ∈ pend ->
  request_is_current_locked s (ps_snapshot p) = true ->
  rs_session_id resp = dst_session_id s \/
    unreachable_peers_for_peer_info s = ∅ /\ (forall pid w, (dst_session_id s, SPeer pid, w) ∉ log) ->
  commit_response s p resp clock = Ret s' ->
  exchange_inv (S n) infos s' (map (fun x => (rs_session_id resp, x.1, x.2)) (commit_keys p) ++ log) clock pend.
Proof using.
  intros (Ho & Hs & Hb & Hc & g & Hg & Hrev & Hp) Hn Hin Hcur Hid Hcommit.
  destruct (commit_frame _ _ _ _ _ _ Hcommit Hs) as (Hs' & Ed & Ep & Eu & El & Enew & Hrevs).
  assert (revision_ok s) as Hrok by (unfold revision_ok; rewrite Hrev; by apply wrap_range).
  destruct (Hrevs Hrok) as (d & Hd & He & Hz & _).
  set (log' := map _ (commit_keys p) ++ log) in *.
  assert (forall x, x ∈ log -> x ∈ log') as Hl by (intros; apply elem_of_app; by right).
  destruct (Hp p Hin) as (Htp & gp & Hgp & Hr & Hcov).
  assert (gp = g) as Eg.
  { unfold request_is_current_locked in Hcur. apply andb_prop in Hcur as [[_ Hcur]%andb_prop _].
    apply Z.eqb_eq in Hcur. apply wrap_inj; [lia|lia|congruence]. }
  specialize (Hcov Eg).
  (* what is older than the request is recorded now, or was covered before *)
  assert (forall pid i, om_get infos pid = Some i -> due s pid i ->
    updated_at i < ps_next_last_sync_succ_timestamp p ->
    logged s' log' pid (version i) \/ put_aside s' pid (version i)) as Hnow.
  { intros pid i Hi Hdue Hu. destruct (Hcov pid i Hi Hdue Hu) as [(w & Hw & Hlog)|[Hpa|(j & Hj & Hpj & Hv)]].
    - destruct Hid as [Hid|[_ Hno]]; [|by destruct (Hno pid w)]. left. exists w. rewrite Ed, Hid. auto.
    - destruct Hid as [Hid|[Hno _]].
      + right. by apply (put_aside_same s); [apply Eu|].
      + destruct Hpa as (w & Hw & _). by rewrite Hno, lookup_empty in Hw.
    - left. exists (version j). split; [done|]. rewrite Ed. apply elem_of_app. left.
      apply list_elem_of_fmap. exists (SPeer (peer_id j), version j). rewrite <- Hpj. split; [done|].
      unfold commit_keys. apply elem_of_app. right. apply elem_of_app. right.
      apply list_elem_of_fmap. by exists j. }
  assert (forall pid i, om_get infos pid = Some i -> due s pid i ->
    last_sync_succ_timestamp s' = Some (ps_next_last_sync_succ_timestamp p) ->
    logged s' log' pid (version i) \/ put_aside s' pid (version i) \/
    older_than_sync (last_update i) (last_sync_succ_timestamp s') = false) as Hsync.
  { intros pid i Hi Hdue E. rewrite E. destruct (older_than_sync _ _) eqn:Eo; [|by right; right].
    assert (updated_at i < ps_next_last_sync_succ_timestamp p) as Hu.
    { unfold older_than_sync, updated_at in *. destruct (last_update i); [|done]. cbn. by bools. }
    destruct (Hnow pid i Hi Hdue Hu); [by left|by right; left]. }
  split_and!; [done|done| | |].
  - unfold sync_before in *. destruct El as [->| ->]; done.
  - intros pid i Hi Hdue. rewrite (due_same _ _ _ _ Ep) in Hdue.
    destruct (decide (rs_session_id resp = dst_session_id s)) as [Esame|Enews]; [|by apply Hsync, Enew].
    destruct El as [El|El]; [rewrite El|by apply Hsync].
    destruct (Hc pid i Hi Hdue) as [Hlog|[Hpa|Hold]]; [left; apply (logged_mono s _ log); [congruence|done|done]| |by right; right].
    right; left. by apply (put_aside_same s); [apply Eu|].
  - exists (g + d). split_and!; [lia..| |].
    + rewrite He, Hrev. unfold wrap. by rewrite Z.add_mod_idemp_l by lia.
    + intros q Hq. destruct (Hp q Hq) as (Htq & gq & Hgq & Hrq & Hcq). split; [done|]. exists gq.
      split_and!; [lia..|done|]. intros E. assert (d = 0) as Hd0 by lia. specialize (Hz Hd0).
      assert (dst_session_id s' = dst_session_id s) as Esame by (by injection Hz).
      apply (covers_request_mono infos s _ log); [done|done| |done|apply Hcq; lia].
      intros ?? _ _ Hpa. left. apply (put_aside_same s); [apply Eu; congruence|done].
Qed.

Lemma exchange_holds n infos s log clock pend :
  exchange n infos s log clock pend -> Z.of_nat n < 2 ^ 64 -> exchange_inv n infos s log clock pend.
Proof using T H G N O Hom Hord.
  induction 1 as [infos me dst id clock Ho|n infos s log clock pend clock' Hx IH Hc
    |n infos s log clock pend infos' Hx IH He|n infos s log clock pend l s' Hx IH Hst Hk
    |n infos s log clock pend sv s' r p Hx IH Ei Hb Es Et Er
    |n infos s log clock pend p resp s' Hx IH Hin Hcur Hid Hcm]; intros Hn.
  - split_and!; [done|split_and!; apply logged_empty|done| |].
    + intros pid i _ _. right; right. by destruct (last_update i).
    + exists 0. split_and!; [lia..|done|]. by intros p ?%not_elem_of_nil.
  - destruct (IH ltac:(lia)) as (Ho & Hs & Hb & Hcv & g & Hg & Hrev & Hp).
    split_and!; [by eapply ordered_tick|done| |done|].
    + unfold sync_before in *. destruct (last_sync_succ_timestamp s); [lia|done].
    + exists g. split_and!; [lia..|done|]. intros p Hin. destruct (Hp p Hin) as (Ht & Hrest). split; [lia|done].
  - eapply inv_edit; [apply IH; lia|done].
  - eapply inv_session; [apply IH; lia|done|done].
  - eapply inv_request; [apply IH; lia|done..].
  - eapply inv_commit; [apply IH; lia|lia|done..].
Qed.
End executions.

(** C6. Nothing is left out.  Take an execution of a node and one of its
    sessions of fewer than 2^64 steps: information changing, other operations on
    the session, requests made and responses committed in any order, the
    responses being of the generation recorded for the other side, or of a new
    one when no peer information was recorded for the old one and no peer was
    put aside as unreachable (other responses of a new generation silence the
    sender, see [new_generation_response_silences]).  Whenever a request is then
    built, the information of every peer that can be reached and is not the
    other side is in it, unless the other side was recorded, in its present
    generation, as having this version or a newer one - although the scan skips
    what was recorded and stops at the first entry older than the last
    successful exchange. *)
Theorem nothing_left_out `{T : Target, H : MinHeap, G : PetGraph, N : RouteNet, O : HashOrder,
    om : OrderedMap, !OrderedMapLaws om, !OrderedMapOrder om}
    (n : nat) (infos : OMap RoutePeerInfo) (s s' : SyncRouteSession) (log : list (Z * SavedKey * Z))
    (clock : Z) (pend : list PendingSync) (sv : PeerRouteServiceImpl) (r : option (list RoutePeerInfo)) :
  exchange n infos s log clock pend -> Z.of_nat n < 2 ^ 64 ->
  SyncedRoute.peer_infos (synced_route_info sv) = infos ->
  build_route_info sv s clock = (s', r) ->
  forall pid i, om_get infos pid = Some i -> 0 < version i -> pid <> ss_dst_peer_id s ->
    topology_peer_reachable (route_table sv) pid = true ->
    i ∈ default [] r \/ exists w, version i <= w /\ (dst_session_id s, SPeer pid, w) ∈ log.
Proof.
  intros Hx Hn Einf Hb pid i Hi Hv Hne Hreach. subst infos.
  destruct (exchange_holds _ _ _ _ _ _ Hx Hn) as (Ho & Hs & _ & Hc & _).
  assert (due s pid i) as Hd by (by split).
  destruct (classic_known s pid (version i)) as [Hk|Hk]; [right; by apply known_logged|].
  destruct (Hc pid i Hi Hd) as [Hlog|Hcase]; [by right|]. left.
  destruct (build_route_info_spec sv s clock s' r clock Hb Ho) as [_ Hspec].
  apply (Hspec pid i Hi Hd Hk); [by destruct Hcase; [right|left]|done].
Qed.

(** The operations of [SyncedRouteInfo] change the information by such edits. *)
Section edits.
Context {om : OrderedMap}.

Lemma update_peer_infos_edits me route dst now raws l : forall idx s need s' r,
  update_peer_infos_loop me route dst now l raws idx s need = Ret (s', r) ->
  rtc (infos_edit now) (SyncedRoute.peer_infos s) (SyncedRoute.peer_infos s').
Proof using.
  induction l as [|i l IH]; intros idx s need s' r; cbn [update_peer_infos_loop].
  - intros [= <- <-]. by destruct need.
  - destruct (raws !! idx) as [raw|]; [|done]. cbn [unwrap mbind comp_bind].
    destruct (check_duplicate_peer_id _ _ _ _ _ i) as [[[]|e]|]; [| |done]; cbn [mbind comp_bind];
      [|by intros [= <- <-]].
    destruct (match om_get _ _ with None => true | Some old => _ end); intros E; apply IH in E; [|done].
    eapply rtc_l; [|exact E]. cbn. by apply edit_insert.
Qed.

Lemma fill_edits now ids : forall st,
  rtc (infos_edit now) (SyncedRoute.peer_infos st.1) (SyncedRoute.peer_infos (foldl (fill_one now) st ids).1).
Proof using.
  induction ids as [|p ids IH]; intros [s need]; cbn [foldl]; [done|].
  etransitivity; [|apply IH]. unfold fill_one.
  destruct (om_get (SyncedRoute.peer_infos s) p) eqn:E; cbn.
  - by destruct (om_get (conn_map s) p).
  - destruct (om_get (conn_map s) p); apply rtc_once; by apply edit_insert.
Qed.

Lemma remove_edits now s X :
  rtc (infos_edit now) (SyncedRoute.peer_infos s) (SyncedRoute.peer_infos (remove_peers s X)).
Proof using.
  unfold remove_peers. destruct (bool_decide _); [done|]. cbn. generalize (SyncedRoute.peer_infos s) as m.
  induction (elements X) as [|p l IH]; intros m; cbn [foldl]; [done|].
  eapply rtc_l; [apply edit_remove|apply IH].
Qed.

Lemma my_info_edits s me route cx lease now :
  rtc (infos_edit now) (SyncedRoute.peer_infos s)
    (SyncedRoute.peer_infos (update_my_peer_info s me route cx lease now).1).
Proof using.
  unfold update_my_peer_info.
  set (r := match om_get (SyncedRoute.peer_infos s) me with Some o => _ | None => _ end) in |- *.
  assert (peer_id r.1 = me) as Hp.
  { subst r. destruct (om_get (SyncedRoute.peer_infos s) me); [|done].
    unfold try_update_new_peer_info. cbv zeta. by destruct (negb _ || _). }
  clearbody r. destruct r as [new need]. cbn [fst] in Hp. destruct need; [|done].
  assert (forall s1 v, SyncedRoute.peer_infos s1 = om_insert me (set_stamp new v (Some now)) (SyncedRoute.peer_infos s) ->
    rtc (infos_edit now) (SyncedRoute.peer_infos s) (SyncedRoute.peer_infos s1)) as Hs1.
  { intros s1 v ->. apply rtc_once. by apply edit_insert. }
  destruct (match om_get _ me with Some o => _ | None => Some (groups new) end); cbn.
  - unfold update_my_group_trusts, set_peer_groups_locked. destruct (bool_decide _); by eapply Hs1.
  - apply rtc_once. by apply edit_insert.
Qed.
End edits.

(** ** Both ends of an exchange *)

Lemma newest_info_ge now pid l : forall o,
  (forall r, o = Some r -> exists r', foldl (newest now pid) o l = Some r' /\ version r <= version r') /\
  (forall i, i ∈ l -> peer_id i = pid -> exists r', foldl (newest now pid) o l = Some r' /\ version i <= version r').
Proof.
  induction l as [|j l IH]; intros o; cbn [foldl].
  - split; [intros r ->; exists r; split; [done|lia]|by intros ? ?%not_elem_of_nil].
  - destruct (IH (newest now pid o j)) as [H1 H2].
    assert (forall r, o = Some r -> exists r1, newest now pid o j = Some r1 /\ version r <= version r1) as Hm.
    { intros r ->. unfold newest. destruct (peer_id j =? pid); [|exists r; split; [done|lia]].
      destruct (version r <? version j) eqn:E; bools; eexists; (split; [done|]); cbn; lia. }
    split.
    + intros r Hr. destruct (Hm r Hr) as (r1 & E1 & Hle). destruct (H1 r1 E1) as (r' & E' & Hle').
      exists r'. split; [done|lia].
    + intros i [->|Hin]%elem_of_cons Hp; [|by apply H2].
      assert (exists r1, newest now pid o j = Some r1 /\ version j <= version r1) as (r1 & E1 & Hle).
      { unfold newest. rewrite Hp, Z.eqb_refl. destruct o as [old|]; [|eexists; split; [done|]; cbn; lia].
        destruct (version old <? version j) eqn:E; bools; eexists; (split; [done|]); cbn; lia. }
      destruct (H1 r1 E1) as (r' & E' & Hle'). exists r'. split; [done|lia].
Qed.

(** Saved versions only grow, and those of a batch are saved. *)
Lemma save_infos_known d now l : forall m,
  let m' := foldl (fun m i => if peer_id i =? d then m
                              else save_version m (peer_id i) (version i) now) m l in
  (forall pid vt, m !! pid = Some vt -> exists vt', m' !! pid = Some vt' /\ vt_version vt <= vt_version vt') /\
  (forall i, i ∈ l -> peer_id i <> d -> exists vt, m' !! peer_id i = Some vt /\ version i <= vt_version vt).
Proof.
  induction l as [|j l IH]; intros m; cbn [foldl].
  - split; [intros ? vt ?; exists vt; split; [done|lia]|by intros ? ?%not_elem_of_nil].
  - set (m1 := if peer_id j =? d then m else _). destruct (IH m1) as [H1 H2].
    assert (forall pid vt, m !! pid = Some vt -> exists vt', m1 !! pid = Some vt' /\ vt_version vt <= vt_version vt') as Hm.
    { intros pid vt Hk. subst m1. destruct (peer_id j =? d); [exists vt; split; [done|lia]|].
      unfold save_version. destruct (decide (peer_id j = pid)) as [->|].
      - rewrite lookup_insert_eq, Hk. eexists. split; [done|]. cbn. lia.
      - rewrite lookup_insert_ne by done. exists vt. split; [done|lia]. }
    split.
    + intros pid vt Hk. destruct (Hm pid vt Hk) as (v1 & E1 & Hle). destruct (H1 pid v1 E1) as (v2 & E2 & Hle2).
      exists v2. split; [done|lia].
    + intros i [->|Hin]%elem_of_cons Hne; [|by apply H2].
      assert (exists vt, m1 !! peer_id j = Some vt /\ version j <= vt_version vt) as (vt & E1 & Hle).
      { subst m1. rewrite (proj2 (Z.eqb_neq _ _)) by done. unfold save_version. rewrite lookup_insert_eq.
        eexists. split; [done|]. cbn. lia. }
      destruct (H1 _ vt E1) as (v2 & E2 & Hle2). exists v2. split; [done|lia].
Qed.

Lemma commit_known s p resp now s' infos i :
  commit_response s p resp now = Ret s' -> rq_peer_infos (ps_request p) = Some infos -> i ∈ infos ->
  peer_id i <> ps_dst_peer_id p ->
  known s' (peer_id i) (version i) /\ dst_session_id s' = rs_session_id resp.
Proof.
  intros Hc Er Hin Hne. unfold commit_response in Hc. rewrite Er in Hc.
  set (s2 := update_remote_state_locked _ _ _) in Hc.
  assert (dst_session_id s2 = rs_session_id resp) as E2.
  { subst s2. unfold update_remote_state_locked. destruct (Z.eqb_spec (rs_session_id resp) (dst_session_id
      (with_contact s (wrap 32 (rpc_tx_count s + 1)) (rpc_rx_count s) now))) as [->|]; cbn [negb orb];
      by destruct (eqb _ _). }
  clearbody s2. set (s3 := update_dst_saved_peer_info_version s2 infos _ now) in Hc.
  assert (known s3 (peer_id i) (version i)) as K3.
  { destruct (save_infos_known (ps_dst_peer_id p) now infos (dst_saved_peer_info_versions s2)) as [_ Hk].
    destruct (Hk i Hin Hne) as (vt & ? & ?). by exists vt. }
  assert (dst_session_id s3 = rs_session_id resp) as E3 by exact E2. clearbody s3.
  set (s4 := match rq_conn_info (ps_request p) with Some c => _ | None => s3 end) in Hc.
  assert (dst_saved_peer_info_versions s4 = dst_saved_peer_info_versions s3 /\ dst_session_id s4 = dst_session_id s3)
    as [K4 E4] by (subst s4; destruct (rq_conn_info (ps_request p)) as [[]|]; done).
  clearbody s4.
  destruct (match rq_foreign_network_infos (ps_request p) with Some f => _ | None => Ret s4 end)
    as [s5|] eqn:E5; [|done]. cbn [mbind comp_bind] in Hc.
  assert (dst_saved_peer_info_versions s5 = dst_saved_peer_info_versions s4 /\ dst_session_id s5 = dst_session_id s4)
    as [K5 E6].
  { destruct (rq_foreign_network_infos (ps_request p)); [|by injection E5 as <-].
    unfold update_dst_saved_foreign_network_version in E5.
    destruct (save_foreign_versions _ _ _ _); [|done]. by injection E5 as <-. }
  assert (dst_saved_peer_info_versions s' = dst_saved_peer_info_versions s5 /\ dst_session_id s' = dst_session_id s5)
    as [K6 E7].
  { injection Hc as <-. unfold update_last_sync_succ_timestamp.
    destruct (last_sync_succ_timestamp s5) as [t|]; [destruct (t <? _)|]; done. }
  split; [|congruence]. unfold known in *. by rewrite K6, K5, K4.
Qed.

Section receiving.
Context {T : Target} {H : MinHeap} {G : PetGraph} {N : RouteNet} {O : HashOrder}.
Context {om : OrderedMap} {Hom : OrderedMapLaws om} {tl : TrustLib} {pw : ProstWire} {pr : ProstRoute}.
Implicit Types sv : PeerRouteServiceImpl.

Definition has (s : SyncedRouteInfo) (pid v : Z) : Prop :=
  exists r, om_get (SyncedRoute.peer_infos s) pid = Some r /\ v <= version r.
Definition session_id_of sv (from : Z) : option Z := my_session_id ∘ snd <$> sessions sv !! from.

Lemma same_has s s' pid v : same_peer s s' pid -> has s pid v -> has s' pid v.
Proof using. intros (E & _). unfold has. by rewrite E. Qed.

Lemma accept_infos_admin sv cx from ptr infos raws now sv' b :
  accept_peer_infos sv cx from ptr None infos raws now = Ret (sv', Ok b) ->
  session_id_of sv' from = session_id_of sv from /\
  forall i, i ∈ infos -> has (synced_route_info sv') (peer_id i) (version i).
Proof using Hom.
  unfold accept_peer_infos. cbn [mbind comp_bind]. destruct infos as [|i0 l]; [intros [= <- _]|].
  { split; [done|]. by intros ? ?%not_elem_of_nil. }
  set (infos := i0 :: l). destruct (update_peer_infos _ _ _ _ infos _ _) as [[s1 r]|] eqn:Eu; [|done].
  cbn [mbind comp_bind]. destruct r as [[]|e]; [|done].
  set (s2 := verify_and_update_current_group_trusts _ _ _ _).
  assert (forall i, i ∈ infos -> has s2 (peer_id i) (version i)) as Hh.
  { intros i Hi. eapply same_has; [apply group_trusts_same|].
    destruct (newest_info_ge now (peer_id i) infos (om_get (SyncedRoute.peer_infos (synced_route_info sv)) (peer_id i)))
      as [_ Hn]. destruct (Hn i Hi eq_refl) as (r & Er & Hle). exists r. split; [|done].
    rewrite <- Er. by eapply update_peer_infos_newest. }
  cbn [sessions with_synced]. destruct (sessions sv !! from) as [[q ss]|] eqn:Es; intros [= <- _]; cbn.
  - split; [|exact Hh]. unfold session_id_of. cbn. by rewrite lookup_insert_eq, Es.
  - split; [done|exact Hh].
Qed.

Lemma accept_conns_admin sv from ptr c now sv' b pid v :
  accept_conn_info sv from ptr None c now = Ret (sv', b) ->
  session_id_of sv' from = session_id_of sv from /\
  (has (synced_route_info sv) pid v -> has (synced_route_info sv') pid v).
Proof using Hom.
  unfold accept_conn_info. destruct (update_conn_info _ c now) as [s1|] eqn:Eu; [|done]. cbn [mbind comp_bind].
  assert (has (synced_route_info sv) pid v -> has s1 pid v) as Hh.
  { intros (r & Er & Hle). destruct (conn_info_keeps _ _ _ _ Eu pid) as [E|(E & _)]; [|congruence].
    exists r. by rewrite E. }
  cbn [sessions with_synced]. destruct (sessions sv !! from) as [[q ss]|] eqn:Es; intros [= <- _]; cbn.
  - split; [|exact Hh]. unfold session_id_of. cbn. rewrite lookup_insert_eq, Es. by destruct c.
  - split; [done|exact Hh].
Qed.

Lemma accept_foreign_admin sv from ptr f now sv' b :
  accept_foreign_network sv from ptr None f now = Ret (sv', b) ->
  session_id_of sv' from = session_id_of sv from /\
  SyncedRoute.peer_infos (synced_route_info sv') = SyncedRoute.peer_infos (synced_route_info sv).
Proof using.
  unfold accept_foreign_network, update_foreign_network. destruct (foldl _ _ f) as [m changed].
  cbn [sessions with_synced]. destruct (sessions sv !! from) as [[q ss]|] eqn:Es.
  - unfold update_dst_saved_foreign_network_version.
    destruct (save_foreign_versions _ _ _ _) as [m'|]; [|done]. cbn [mbind comp_bind]. intros [= <- _].
    split; [|done]. unfold session_id_of. cbn. by rewrite lookup_insert_eq, Es.
  - intros [= <- _]. done.
Qed.

Lemma refresh_keeps sv cx now sv' untrusted pid v :
  refresh_credential_trusts_with_current_topology sv cx now = Ret (sv', untrusted) ->
  sessions sv' = sessions sv /\
  (pid ∉ untrusted -> has (synced_route_info sv) pid v -> has (synced_route_info sv') pid v).
Proof using Hom.
  intros [Es Hf]%refresh_frame. split; [done|]. intros Hp. apply same_has. by apply Hf.
Qed.

(** A handler that answers without error has what it was sent. *)
Lemma handler_delivers sv cx sn iface_type iface_key from session_id is_initiator infos raws conns
    foreign new_id now h resp i :
  do_sync_route_info sv cx sn iface_type iface_key from session_id is_initiator (Some infos) raws conns
    foreign new_id now = Ret h ->
  sender_credential sv sn iface_type iface_key from = Ok None -> sh_response h = Ok resp ->
  i ∈ infos ->
  session_id_of (sh_service h) from = Some (rs_session_id resp) /\
  (peer_id i ∉ sh_untrusted h -> has (synced_route_info (sh_service h)) (peer_id i) (version i)).
Proof using Hom.
  intros Hdo Hsend Hresp Hi. unfold do_sync_route_info in Hdo. cbv zeta in Hdo.
  destruct (stopped sv); [by injection Hdo as <-|].
  set (found := match get_session sv from with Some ps => _ | None => _ end) in Hdo.
  assert (forall sv1 ps, found = Ok (sv1, ps) -> synced_route_info sv1 = synced_route_info sv) as Hfound.
  { intros sv1 ps. subst found. destruct (get_session sv from); [by intros [= <- _]|].
    destruct is_initiator; [|done]. unfold get_or_start_session. destruct (stopped sv); [done|].
    destruct (sessions sv !! from) as [[? ?]|]; by intros [= <- _]. }
  destruct found as [[sv1 [ptr ss]]|e]; [|by injection Hdo as <-]. specialize (Hfound _ _ eq_refl).
  assert (sender_credential sv1 sn iface_type iface_key from = Ok None) as Hs1
    by (rewrite <- Hsend; unfold sender_credential; by rewrite Hfound).
  rewrite Hs1 in Hdo. destruct (admit_inbound_locked ss session_id is_initiator) as [adm ss1].
  destruct adm; cbn [negb] in Hdo; [|by injection Hdo as <-].
  set (ss2 := with_contact ss1 _ _ now) in Hdo. set (sv2 := set_session sv1 from ptr ss2) in Hdo.
  assert (session_id_of sv2 from = Some (my_session_id ss2)) as I2
    by (unfold session_id_of; cbn; by rewrite lookup_insert_eq).
  destruct (accept_peer_infos sv2 cx from ptr None infos raws now) as [[sv3 r]|] eqn:E3; [|done].
  cbn [mbind comp_bind] in Hdo. destruct r as [got|e]; [|by injection Hdo as <-].
  apply accept_infos_admin in E3 as [I3 H3]. specialize (H3 i Hi).
  destruct (match conns with Some ci => accept_conn_info sv3 from ptr None ci now
    | None => Ret (sv3, false) end) as [[sv4 gotc]|] eqn:E4; [|done]. cbn [mbind comp_bind] in Hdo.
  assert (session_id_of sv4 from = session_id_of sv3 from /\
    has (synced_route_info sv4) (peer_id i) (version i)) as [I4 H4].
  { destruct conns as [ci|]; [|by injection E4 as <- _].
    destruct (accept_conns_admin _ _ _ _ _ _ _ (peer_id i) (version i) E4) as [? Hk]. split; [done|by apply Hk]. }
  destruct (if got || gotc then refresh_credential_trusts_with_current_topology sv4 cx now
    else Ret (sv4, ∅)) as [[sv5 untrusted]|] eqn:E5; [|done]. cbn [mbind comp_bind] in Hdo.
  assert (session_id_of sv5 from = session_id_of sv4 from /\
    (peer_id i ∉ untrusted -> has (synced_route_info sv5) (peer_id i) (version i))) as [I5 H5].
  { destruct (got || gotc); [|by injection E5 as <- _].
    destruct (refresh_keeps _ _ _ _ _ (peer_id i) (version i) E5) as [Es Hk].
    split; [unfold session_id_of; by rewrite Es|]. intros Hp. by apply Hk. }
  destruct (match foreign with Some f => accept_foreign_network sv5 from ptr None f now
    | None => Ret (sv5, false) end) as [[sv6 fch]|] eqn:E6; [|done]. cbn [mbind comp_bind] in Hdo.
  assert (session_id_of sv6 from = session_id_of sv5 from /\
    SyncedRoute.peer_infos (synced_route_info sv6) = SyncedRoute.peer_infos (synced_route_info sv5)) as [I6 H6].
  { destruct foreign; [by eapply accept_foreign_admin|by injection E6 as <- _]. }
  assert (exists sv7, (if got || gotc || fch then
      sv ← update_route_table_and_cached_local_conn_bitmap sv6 cx now;
      Ret (update_foreign_network_owner_map sv) else Ret sv6) = Ret sv7 /\
    sessions sv7 = sessions sv6 /\ synced_route_info sv7 = synced_route_info sv6) as (sv7 & E7 & S7 & Y7).
  { destruct (got || gotc || fch); [|by exists sv6].
    destruct (update_route_table_and_cached_local_conn_bitmap sv6 cx now) as [sv7|] eqn:E; [|done].
    apply rebuild_frame in E as (Y & S & _). destruct (owner_map_frame sv7) as [Y' S'].
    eexists. split; [done|]. split; congruence. }
  rewrite E7 in Hdo. cbn [mbind comp_bind] in Hdo. injection Hdo as <-. cbn in Hresp |- *. injection Hresp as <-. cbn.
  split.
  - transitivity (session_id_of sv6 from); [unfold session_id_of; by rewrite S7|].
    by rewrite I6, I5, I4, I3, I2.
  - intros Hp. unfold has in *. rewrite Y7, H6. by apply H5.
Qed.
End receiving.

(** C29. An exchange delivers.  When a node that is trusted accepts a request
    and answers without error, it holds each peer information of the request
    at the version sent or a newer one, for every peer that it did not remove
    as revoked; and when the sender commits this answer, it has recorded the
    same versions under the session id of the receiver, so that it will not
    send them again. *)
Theorem exchange_delivers `{T : Target, H : MinHeap, G : PetGraph, N : RouteNet, O : HashOrder,
    om : OrderedMap, !OrderedMapLaws om, tl : TrustLib, pw : ProstWire, pr : ProstRoute}
    (sv : PeerRouteServiceImpl) (cx : ServiceContext) (sn : InterfacePeerSnapshot)
    (iface_type : Z -> option PeerIdentityType) (iface_key : Z -> option (list Z))
    (from session_id new_id now : Z) (is_initiator : bool) (infos : list RoutePeerInfo)
    (raws : list (list Z)) (conns : option ConnInfo) (foreign : option RouteForeignNetworkInfos)
    (h : SyncHandled) (resp : SyncRouteInfoResponse) (s s' : SyncRouteSession) (p : PendingSync) (then_ : Z) :
  do_sync_route_info sv cx sn iface_type iface_key from session_id is_initiator (Some infos) raws conns
    foreign new_id now = Ret h ->
  sender_credential sv sn iface_type iface_key from = Ok None ->
  sh_response h = Ok resp ->
  rq_peer_infos (ps_request p) = Some infos -> commit_response s p resp then_ = Ret s' ->
  forall i, i ∈ infos ->
    (peer_id i ∉ sh_untrusted h ->
     exists r, om_get (SyncedRoute.peer_infos (synced_route_info (sh_service h))) (peer_id i) = Some r /\
       version i <= version r) /\
    (peer_id i <> ps_dst_peer_id p ->
     known s' (peer_id i) (version i) /\
     exists ptr ss, sessions (sh_service h) !! from = Some (ptr, ss) /\
       dst_session_id s' = my_session_id ss).
Proof.
  intros Hdo Hsend Hresp Hreq Hcommit i Hi.
  destruct (handler_delivers _ _ _ _ _ _ _ _ _ _ _ _ _ _ _ _ i Hdo Hsend Hresp Hi) as [Hid Hhas].
  split; [exact Hhas|]. intros Hne. destruct (commit_known _ _ _ _ _ _ i Hcommit Hreq Hi Hne) as [Hk Hd].
  split; [done|]. unfold session_id_of in Hid.
  destruct (sessions (sh_service h) !! from) as [[ptr ss]|]; [|done]. cbn in Hid. injection Hid as Hid.
  exists ptr, ss. split; [done|congruence].
Qed.

(** The response of a new generation silences the sender.  If the other
    side answers a request without peer information from a new session - it
    lost the old one and with it what it had - the sender forgets what it had
    recorded but takes the time of this request as the last successful
    exchange; the next request then contains no information older than that,
    although the new session was sent none of it. *)
Theorem new_generation_response_silences `{T : Target, H : MinHeap, G : PetGraph, N : RouteNet,
    O : HashOrder, om : OrderedMap, !OrderedMapLaws om}
    (sv : PeerRouteServiceImpl) (s s' : SyncRouteSession) (p : PendingSync) (resp : SyncRouteInfoResponse)
    (now later : Z) :
  commit_response s p resp now = Ret s' -> rs_session_id resp <> dst_session_id s ->
  rq_peer_infos (ps_request p) = None ->
  (forall pid i, om_get (SyncedRoute.peer_infos (synced_route_info sv)) pid = Some i ->
     exists t, last_update i = Some t /\ t < ps_next_last_sync_succ_timestamp p) ->
  dst_session_id s' = rs_session_id resp /\ dst_saved_peer_info_versions s' = ∅ /\
  (build_route_info sv s' later).2 = None.
Proof.
  intros Hc Hid Hreq Hold. unfold commit_response in Hc. rewrite Hreq in Hc.
  set (s2 := update_remote_state_locked _ _ _) in Hc.
  assert (dst_session_id s2 = rs_session_id resp /\ dst_saved_peer_info_versions s2 = ∅ /\
    unreachable_peers_for_peer_info s2 = ∅ /\ last_sync_succ_timestamp s2 = None) as F2.
  { subst s2. unfold update_remote_state_locked. cbn [dst_session_id with_contact].
    rewrite (proj2 (Z.eqb_neq _ _) Hid). cbn [negb orb]. by destruct (eqb _ _). }
  clearbody s2.
  set (s4 := match rq_conn_info (ps_request p) with Some c => _ | None => s2 end) in Hc.
  assert (dst_session_id s4 = rs_session_id resp /\ dst_saved_peer_info_versions s4 = ∅ /\
    unreachable_peers_for_peer_info s4 = ∅ /\ last_sync_succ_timestamp s4 = None) as F4
    by (subst s4; destruct (rq_conn_info (ps_request p)) as [[]|]; exact F2).
  clearbody s4.
  destruct (match rq_foreign_network_infos (ps_request p) with Some f => _ | None => Ret s4 end)
    as [s5|] eqn:E5; [|done]. cbn [mbind comp_bind] in Hc.
  assert (dst_session_id s5 = rs_session_id resp /\ dst_saved_peer_info_versions s5 = ∅ /\
    unreachable_peers_for_peer_info s5 = ∅ /\ last_sync_succ_timestamp s5 = None) as (D5 & P5 & U5 & L5).
  { destruct (rq_foreign_network_infos (ps_request p)); [|injection E5 as <-; exact F4].
    unfold update_dst_saved_foreign_network_version in E5.
    destruct (save_foreign_versions _ _ _ _); [|done]. injection E5 as <-. exact F4. }
  injection Hc as <-. unfold update_last_sync_succ_timestamp. rewrite L5. cbn.
  split_and!; [done|done|]. unfold build_route_info. cbn.
  assert (route_info_loop (topology_peer_reachable (route_table sv)) later
    (Some (ps_next_last_sync_succ_timestamp p)) (rev (om_iter (SyncedRoute.peer_infos (synced_route_info sv))))
    (with_last_sync s5 (Some (ps_next_last_sync_succ_timestamp p))) [] =
    (with_last_sync s5 (Some (ps_next_last_sync_succ_timestamp p)), [])) as ->.
  { destruct (rev _) as [|[pid i] l] eqn:E; [done|]. cbn [route_info_loop].
    destruct (Hold pid i) as (t & Et & Hlt).
    - apply om_iter_get, list_elem_of_In, in_rev. rewrite E. by left.
    - rewrite Et. cbn. by rewrite (proj2 (Z.ltb_lt _ _)). }
  cbn. rewrite U5. reflexivity.
Qed.
