(* ===== verification/BitmapProofs.v ===== *)
(** The connection bitmap: what a node encodes of its connection map is what
    another node decodes. *)

From stdpp Require Import list gmap sorting.
From S2P Require Import Prelude RouteGraph RouteMessages RouteWire RouteTable SyncedRoute SyncedRouteProofs SyncSession RouteSync DeliveryProofs.
Local Open Scope Z_scope.
Local Set Warnings "-clear-no-such-hyp".

(** ** Bits *)

(** Bit [i] of a bitmap; false past the end. *)
Definition bit (bm : list Z) (i : Z) : bool :=
  match bm !! Z.to_nat (i / 8) with Some byte => Z.testbit byte (i mod 8) | None => false end.

Lemma index_in (bm : list Z) i : 0 <= i < 8 * len bm -> is_Some (bm !! Z.to_nat (i / 8)).
Proof.
  intros Hi. apply lookup_lt_is_Some. unfold len in Hi.
  assert (0 <= i / 8 < Z.of_nat (length bm)); [|lia].
  split; [apply Z.div_pos; lia|apply Z.div_lt_upper_bound; lia].
Qed.

Lemma get_bit_spec b i : 0 <= i < 8 * len (bm_bitmap b) -> get_bit b i = Ret (bit (bm_bitmap b) i).
Proof.
  intros Hi. unfold get_bit, bit. destruct (index_in _ _ Hi) as [byte ->]. cbn. f_equal.
  change 1 with (Z.ones 1) at 1. rewrite Z.land_ones by lia. change (2 ^ 1) with 2.
  assert (Z.testbit byte (i mod 8) = Z.odd (Z.shiftr byte (i mod 8))) as ->.
  { by rewrite <- Z.bit0_odd, Z.shiftr_spec by lia. }
  rewrite Zmod_odd. by destruct (Z.odd _).
Qed.

Lemma set_bit_spec bm i :
  0 <= i < 8 * len bm ->
  exists bm', set_bit bm i = Ret bm' /\ len bm' = len bm /\
    forall j, 0 <= j -> bit bm' j = (i =? j) || bit bm j.
Proof.
  intros Hi. unfold set_bit. destruct (index_in _ _ Hi) as [byte Hb]. rewrite Hb. cbn.
  eexists. split; [done|]. split; [unfold len; by rewrite length_insert|]. intros j Hj. unfold bit.
  assert (Z.to_nat (i / 8) < length bm)%nat as Hlt by (by apply lookup_lt_is_Some; eexists).
  pose proof (Z.div_mod i 8 ltac:(lia)) as Di. pose proof (Z.div_mod j 8 ltac:(lia)) as Dj.
  pose proof (Z.mod_pos_bound i 8 ltac:(lia)). pose proof (Z.mod_pos_bound j 8 ltac:(lia)).
  pose proof (Z.div_pos i 8 ltac:(lia) ltac:(lia)). pose proof (Z.div_pos j 8 ltac:(lia) ltac:(lia)).
  destruct (decide (i / 8 = j / 8)) as [E|E].
  - rewrite <- E, list_lookup_insert_eq by done. rewrite Hb, Z.lor_spec, Z.shiftl_spec by lia.
    rewrite orb_comm. f_equal. destruct (Z.eqb_spec i j) as [->|Hne].
    + by rewrite Z.sub_diag.
    + assert (j mod 8 - i mod 8 <> 0) by lia. destruct (decide (j mod 8 - i mod 8 < 0)).
      * by rewrite Z.testbit_neg_r by lia.
      * by rewrite (Z.bits_above_log2 1) by (cbn; lia).
  - rewrite list_lookup_insert_ne by (intros En; apply E; lia).
    destruct (Z.eqb_spec i j) as [->|]; [done|]. done.
Qed.

(** ** Rows *)

Lemma set_row_spec connected base l : forall idx bm,
  0 <= base + idx -> base + idx + len l <= 8 * len bm ->
  exists bm', set_row connected base idx l bm = Ret bm' /\ len bm' = len bm /\
    forall j, 0 <= j -> bit bm' j = true <-> bit bm j = true \/
      exists k pv, l !! k = Some pv /\ pv_peer_id pv ∈ connected /\ j = base + idx + Z.of_nat k.
Proof.
  induction l as [|pv l IH]; intros idx bm H0 Hl; cbn [set_row].
  - exists bm. split_and!; [done..|]. intros j _. split; [by left|]. by intros [?|(k & ? & ? & _)].
  - rewrite len_cons in Hl. pose proof (len_nonneg l).
    assert (exists bm1, (if bool_decide (pv_peer_id pv ∈ connected) then set_bit bm (base + idx) else Ret bm) = Ret bm1 /\
      len bm1 = len bm /\ forall j, 0 <= j -> bit bm1 j = true <-> bit bm j = true \/
        (pv_peer_id pv ∈ connected /\ j = base + idx)) as (bm1 & E1 & L1 & B1).
    { destruct (bool_decide_reflect (pv_peer_id pv ∈ connected)) as [Hin|Hin].
      - destruct (set_bit_spec bm (base + idx)) as (bm1 & E & L & B); [lia|]. exists bm1. split_and!; [done..|].
        intros j Hj. rewrite (B j Hj), orb_true_iff, Z.eqb_eq. split; [intros [<-|?]; eauto|].
        intros [?|[_ ->]]; eauto.
      - exists bm. split_and!; [done..|]. intros j _. split; [by left|]. by intros [?|[? _]]. }
    rewrite E1. cbn [mbind comp_bind].
    destruct (IH (idx + 1) bm1) as (bm' & E' & L' & B'); [lia|lia|]. exists bm'.
    split_and!; [done|lia|]. intros j Hj. rewrite (B' j Hj), (B1 j Hj). split.
    + intros [[?|[Hin ->]]|(k & q & Hk & Hq & ->)]; [by left| |].
      * right. exists O, pv. split_and!; [done..|lia].
      * right. exists (S k), q. split_and!; [done..|lia].
    + intros [?|([|k] & q & Hk & Hq & ->)]; [by left; left| |].
      * injection Hk as ->. left; right. split; [done|lia].
      * right. exists k, q. split_and!; [done..|lia].
Qed.

Section bitmap.
Context {om : OrderedMap} {Hom : OrderedMapLaws om}.

Lemma set_rows_spec s all l : forall peer_idx bm,
  0 <= peer_idx -> (peer_idx + len l) * len all <= 8 * len bm ->
  exists bm', set_rows s all peer_idx l bm = Ret bm' /\ len bm' = len bm /\
    forall j, 0 <= j -> bit bm' j = true <-> bit bm j = true \/
      exists k pv c m other, l !! k = Some pv /\ om_get (conn_map s) (pv_peer_id pv) = Some c /\
        all !! m = Some other /\ pv_peer_id other ∈ connected_peers c /\
        j = (peer_idx + Z.of_nat k) * len all + Z.of_nat m.
Proof using.
  induction l as [|pv l IH]; intros peer_idx bm H0 Hl; cbn [set_rows].
  - exists bm. split_and!; [done..|]. intros j _. split; [by left|]. by intros [?|(k & ? & ? & ? & ? & ? & _)].
  - rewrite len_cons in Hl. pose proof (len_nonneg l). pose proof (len_nonneg all).
    assert (peer_idx * len all + len all <= 8 * len bm) as Hb by nia.
    assert (exists bm1, match om_get (conn_map s) (pv_peer_id pv) with
        | None => Ret bm | Some c => set_row (connected_peers c) (peer_idx * len all) 0 all bm end = Ret bm1 /\
      len bm1 = len bm /\ forall j, 0 <= j -> bit bm1 j = true <-> bit bm j = true \/
        exists c m other, om_get (conn_map s) (pv_peer_id pv) = Some c /\ all !! m = Some other /\
          pv_peer_id other ∈ connected_peers c /\ j = peer_idx * len all + Z.of_nat m) as (bm1 & E1 & L1 & B1).
    { destruct (om_get (conn_map s) (pv_peer_id pv)) as [c|].
      - destruct (set_row_spec (connected_peers c) (peer_idx * len all) all 0 bm) as (bm1 & E & L & B); [nia|lia|].
        exists bm1. split_and!; [done..|]. intros j Hj. rewrite (B j Hj). split.
        + intros [?|(m & other & ? & ? & ->)]; [by left|]. right. exists c, m, other. split_and!; [done..|lia].
        + intros [?|(? & m & other & [= <-] & ? & ? & ->)]; [by left|]. right. exists m, other. split_and!; [done..|lia].
      - exists bm. split_and!; [done..|]. intros j _. split; [by left|]. by intros [?|(? & ? & ? & ? & _)]. }
    rewrite E1. cbn [mbind comp_bind].
    destruct (IH (peer_idx + 1) bm1) as (bm' & E' & L' & B'); [lia|rewrite L1; nia|]. exists bm'.
    split_and!; [done|lia|]. intros j Hj. rewrite (B' j Hj), (B1 j Hj). split.
    + intros [[?|(c & m & other & ? & ? & ? & ->)]|(k & q & c & m & other & Hk & ? & ? & ? & ->)]; [by left| |].
      * right. exists O, pv, c, m, other. split_and!; [done..|lia].
      * right. exists (S k), q, c, m, other. split_and!; [done..|lia].
    + intros [?|([|k] & q & c & m & other & Hk & ? & ? & ? & ->)]; [by left; left| |].
      * injection Hk as ->. left; right. exists c, m, other. split_and!; [done..|lia].
      * right. exists k, q, c, m, other. split_and!; [done..|lia].
Qed.

Lemma connected_bits_spec b base l : forall idx acc,
  0 <= base + idx -> base + idx + len l <= 8 * len (bm_bitmap b) ->
  exists X, connected_bits b base idx l acc = Ret X /\
    forall p, p ∈ X <-> p ∈ acc \/ exists k pv, l !! k = Some pv /\ pv_peer_id pv = p /\
      bit (bm_bitmap b) (base + idx + Z.of_nat k) = true.
Proof using.
  induction l as [|pv l IH]; intros idx acc H0 Hl; cbn [connected_bits].
  - exists acc. split; [done|]. intros p. split; [by left|]. by intros [?|(k & ? & ? & _)].
  - rewrite len_cons in Hl. pose proof (len_nonneg l). rewrite get_bit_spec by lia. cbn [mbind comp_bind].
    destruct (IH (idx + 1) (if bit (bm_bitmap b) (base + idx) then {[pv_peer_id pv]} ∪ acc else acc))
      as (X & EX & HX); [lia|lia|]. exists X. split; [done|]. intros p. rewrite HX. split.
    + intros [Hp|(k & q & ? & ? & Hb)].
      * destruct (bit _ _) eqn:E; [|by left]. apply elem_of_union in Hp as [->%elem_of_singleton|?]; [|by left].
        right. exists O, pv. rewrite Z.add_0_r. done.
      * right. exists (S k), q. split_and!; [done..|]. rewrite <- Hb. f_equal. lia.
    + intros [Hp|([|k] & q & Hk & <- & Hb)].
      * left. destruct (bit _ _); [apply elem_of_union; by right|done].
      * injection Hk as ->. rewrite Z.add_0_r in Hb. rewrite Hb. left. apply elem_of_union. left. by apply elem_of_singleton.
      * right. exists k, q. split_and!; [done..|]. rewrite <- Hb. f_equal. lia.
Qed.

(** The bitmap of a connection map, read row by row. *)
Lemma make_bitmap_rows s reach :
  exists b, make_conn_bitmap s reach = Ret b /\
    bm_peer_ids b = map (fun kv => {| pv_peer_id := kv.1; pv_version := kv.2 |}) (btree_list (all_peer_ids s reach)) /\
    forall r pv, bm_peer_ids b !! r = Some pv -> exists X,
      bitmap_connected_peers b (Z.of_nat r) = Ret X /\
      forall p, p ∈ X <-> p ∈ map pv_peer_id (bm_peer_ids b) /\
        exists c, om_get (conn_map s) (pv_peer_id pv) = Some c /\ p ∈ connected_peers c.
Proof using.
  unfold make_conn_bitmap. set (ids := map _ (btree_list _)).
  set (bm0 := repeat 0 _).
  assert (len ids * len ids <= 8 * len bm0) as Hsz.
  { subst bm0. unfold len at 3. rewrite repeat_length. pose proof (len_nonneg ids).
    pose proof (Z.div_mod (len ids * len ids + 7) 8 ltac:(lia)).
    pose proof (Z.mod_pos_bound (len ids * len ids + 7) 8 ltac:(lia)). nia. }
  assert (forall j, bit bm0 j = false) as Hz.
  { intros j. unfold bit. destruct (bm0 !! _) as [x|] eqn:E; [|done].
    apply list_elem_of_lookup_2, list_elem_of_In, repeat_spec in E as ->. apply Z.bits_0. }
  destruct (set_rows_spec s ids ids 0 bm0) as (bm & E & L & B); [lia|lia|]. rewrite E. cbn [mbind comp_bind].
  eexists. split; [done|]. split; [done|]. cbn [bm_peer_ids]. intros r pv Hr.
  assert (0 <= Z.of_nat r < len ids) as Hrl by (apply lookup_lt_Some in Hr; unfold len; lia).
  destruct (connected_bits_spec {| bm_peer_ids := ids; bm_bitmap := bm |} (Z.of_nat r * len ids) ids 0 ∅)
    as (X & EX & HX); [nia|cbn [bm_bitmap]; rewrite L; nia|].
  exists X. split; [exact EX|]. intros p. rewrite HX. cbn [bm_bitmap]. split.
  - intros [?%not_elem_of_empty|(m & other & Hm & <- & Hb)]; [done|].
    apply B in Hb; [|nia]. rewrite Hz in Hb.
    destruct Hb as [?|(k & q & c & m' & o' & Hk & Hc & Hm' & Hin & Hj)]; [done|].
    assert (0 <= Z.of_nat m < len ids) by (apply lookup_lt_Some in Hm; unfold len; lia).
    assert (0 <= Z.of_nat m' < len ids) by (apply lookup_lt_Some in Hm'; unfold len; lia).
    assert (Z.of_nat r = Z.of_nat k) as Er by nia. assert (m' = m) as -> by nia.
    apply Nat2Z.inj in Er as <-. rewrite Hr in Hk. injection Hk as <-. rewrite Hm in Hm'. injection Hm' as <-.
    split; [apply list_elem_of_fmap; exists other; split; [done|by eapply list_elem_of_lookup_2]|by exists c].
  - intros [Hp (c & Hc & Hin)]. right. apply list_elem_of_fmap in Hp as (other & -> & Ho).
    apply list_elem_of_lookup in Ho as [m Hm]. exists m, other. split_and!; [done..|].
    apply B; [nia|]. right. exists r, pv, c, m, other. split_and!; [done..|lia].
Qed.

(** ** Versions *)

Definition grows (m m' : gmap Z Z) : Prop :=
  forall pid v, m !! pid = Some v -> exists v', m' !! pid = Some v' /\ v <= v'.
Lemma grows_trans m1 m2 m3 : grows m1 m2 -> grows m2 m3 -> grows m1 m3.
Proof using.
  intros H1 H2 pid v Hv. destruct (H1 pid v Hv) as (v1 & E1 & ?). destruct (H2 pid v1 E1) as (v2 & E2 & ?).
  exists v2. split; [done|lia].
Qed.

Lemma add_spec m pid v :
  grows m (add_to_all_peer_ids m pid v) /\
  (exists w, add_to_all_peer_ids m pid v !! pid = Some w /\ v <= w) /\
  (forall q w, add_to_all_peer_ids m pid v !! q = Some w -> m !! q = Some w \/ q = pid /\ w = v).
Proof using.
  unfold add_to_all_peer_ids. split_and!.
  - intros q w Hq. destruct (decide (pid = q)) as [->|].
    + rewrite lookup_insert_eq, Hq. eexists. split; [done|]. destruct (w <? v) eqn:E; bools; lia.
    + rewrite lookup_insert_ne by done. exists w. split; [done|lia].
  - rewrite lookup_insert_eq. eexists. split; [done|]. destruct (m !! pid) as [x|]; [|lia].
    destruct (x <? v) eqn:E; bools; lia.
  - intros q w. destruct (decide (pid = q)) as [->|]; [|rewrite lookup_insert_ne by done; by left].
    rewrite lookup_insert_eq. destruct (m !! q) as [x|]; [|intros [= <-]; by right].
    destruct (x <? v); intros [= <-]; [by right|by left].
Qed.

Lemma add_list_spec l : forall m,
  let m' := foldl (fun m dst => add_to_all_peer_ids m dst 0) m l in
  grows m m' /\ (forall q, q ∈ l -> is_Some (m' !! q)) /\
  (forall q w, m' !! q = Some w -> m !! q = Some w \/ w = 0).
Proof using.
  induction l as [|p l IH]; intros m; cbn [foldl].
  - split_and!; [intros q v ?; exists v; split; [done|lia]|by intros ? ?%not_elem_of_nil|by left].
  - destruct (IH (add_to_all_peer_ids m p 0)) as (G1 & I1 & U1). destruct (add_spec m p 0) as (G0 & (w0 & E0 & _) & U0).
    split_and!.
    + by eapply grows_trans.
    + intros q [->|Hq]%elem_of_cons; [|by apply I1]. destruct (G1 p w0 E0) as (w1 & E1 & _). by exists w1.
    + intros q w Hq. destruct (U1 q w Hq) as [Hq0|]; [|by right]. destruct (U0 q w Hq0) as [?|[_ ?]]; [by left|by right].
Qed.

Lemma all_peer_ids_spec s reach :
  (forall pid c, om_get (conn_map s) pid = Some c -> 0 <= conn_version c) ->
  forall pid c, om_get (conn_map s) pid = Some c -> reach pid = true ->
  all_peer_ids s reach !! pid = Some (conn_version c) /\
  forall q, q ∈ connected_peers c -> is_Some (all_peer_ids s reach !! q).
Proof using Hom.
  intros Hpos pid c Hc Hr. unfold all_peer_ids.
  set (f := fun (m : gmap Z Z) (kv : Z * RouteConnInfo) => if negb (reach kv.1) then m else _).
  assert (forall l m, grows m (foldl f m l) /\
    (forall pid c, (pid, c) ∈ l -> reach pid = true ->
       (exists w, foldl f m l !! pid = Some w /\ conn_version c <= w) /\
       forall q, q ∈ connected_peers c -> is_Some (foldl f m l !! q)) /\
    (forall q w, foldl f m l !! q = Some w -> m !! q = Some w \/ w = 0 \/ exists c, (q, c) ∈ l /\ w = conn_version c)) as Hl.
  { clear pid c Hc Hr. induction l as [|[p c] l IH]; intros m; cbn [foldl].
    - split_and!; [intros q v ?; exists v; split; [done|lia]|by intros ?? ?%not_elem_of_nil|by left].
    - destruct (IH (f m (p, c))) as (G1 & I1 & U1).
      assert (grows m (f m (p, c)) /\ (reach p = true -> (exists w, f m (p, c) !! p = Some w /\ conn_version c <= w) /\
        forall q, q ∈ connected_peers c -> is_Some (f m (p, c) !! q)) /\
        (forall q w, f m (p, c) !! q = Some w -> m !! q = Some w \/ w = 0 \/ q = p /\ w = conn_version c)) as (G0 & I0 & U0).
      { subst f. cbn [fst snd]. destruct (reach p); cbn [negb].
        - destruct (add_spec m p (conn_version c)) as (Ga & (wa & Ea & Hwa) & Ua).
          destruct (add_list_spec (btree_set (connected_peers c)) (add_to_all_peer_ids m p (conn_version c))) as (Gb & Ib & Ub).
          split_and!.
          + by eapply grows_trans.
          + intros _. split; [destruct (Gb p wa Ea) as (wb & Eb & ?); exists wb; split; [done|lia]|].
            intros q Hq. apply Ib. by apply btree_set_elem.
          + intros q w Hq. destruct (Ub q w Hq) as [Hq0|]; [|by right; left].
            destruct (Ua q w Hq0) as [?|[? ?]]; [by left|by right; right].
        - split_and!; [intros q v ?; exists v; split; [done|lia]|done|by left]. }
      split_and!.
      + by eapply grows_trans.
      + intros q d [[= -> ->]|Hin]%elem_of_cons Hq; [|by apply I1].
        destruct (I0 Hq) as [(w & Ew & Hw) Hall]. split.
        * destruct (G1 p w Ew) as (w1 & E1 & ?). exists w1. split; [done|lia].
        * intros x Hx. destruct (Hall x Hx) as [y Ey]. destruct (G1 x y Ey) as (y1 & E1 & _). by exists y1.
      + intros q w Hq. destruct (U1 q w Hq) as [Hq0|[?|(d & Hd & ?)]]; [|by right; left|].
        * destruct (U0 q w Hq0) as [?|[?|[-> ->]]]; [by left|by right; left|]. right; right. exists c. split; [by left|done].
        * right; right. exists d. split; [by right|done]. }
  destruct (Hl (om_iter (conn_map s)) ∅) as (_ & I & U).
  destruct (I pid c (proj2 (om_iter_get _ _ _) Hc) Hr) as [(w & Ew & Hw) Hall]. split; [|exact Hall].
  rewrite Ew. f_equal. specialize (Hpos pid c Hc).
  destruct (U pid w Ew) as [?|[->|(d & Hd%om_iter_get & ->)]]; [by rewrite lookup_empty in *|lia|].
  rewrite Hc in Hd. by injection Hd as <-.
Qed.

(** ** The receiver *)

(** A row that stays, or appears empty. *)
Definition row_kept (s s' : SyncedRouteInfo) (pid : Z) : Prop :=
  om_get (conn_map s') pid = om_get (conn_map s) pid \/
  om_get (conn_map s) pid = None /\ exists c, om_get (conn_map s') pid = Some c /\ conn_version c = 0.

Lemma row_kept_trans s1 s2 s3 pid : row_kept s1 s2 pid -> row_kept s2 s3 pid -> row_kept s1 s3 pid.
Proof using.
  intros [E|(E & c & Ec & Hc)] [E'|(E' & c' & Ec' & Hc')].
  - left. congruence.
  - right. split; [congruence|eauto].
  - right. split; [done|]. exists c. split; [congruence|done].
  - congruence.
Qed.

Lemma fill_empty_rows s ids now pid : row_kept s (fill_empty_peer_info s ids now) pid.
Proof using Hom.
  unfold fill_empty_peer_info.
  assert (forall l st, row_kept st.1 (foldl (fill_one now) st l).1 pid) as Hl.
  { induction l as [|p l IH]; intros [s0 need]; cbn [foldl]; [by left|].
    eapply row_kept_trans; [|apply IH]. unfold fill_one, row_kept.
    destruct (om_get (SyncedRoute.peer_infos s0) p); cbn; destruct (om_get (conn_map s0) p) eqn:Ep; cbn;
      try (by left); rewrite om_get_insert; destruct (Z.eqb_spec p pid) as [->|]; try (by left);
      right; (split; [done|]); eexists; by split. }
  specialize (Hl (elements ids) (s, false)). destruct (foldl _ _ _) as [s' need]. by destruct need.
Qed.

Lemma one_peer_rows s pv cp now pid :
  om_get (conn_map (update_conn_info_one_peer s pv cp now).1) pid =
  if (pv_peer_id pv =? pid) && match om_get (conn_map s) pid with
                               | None => true | Some old => conn_version old <? pv_version pv end
  then Some {| connected_peers := cp; conn_version := pv_version pv; conn_last_update := now |}
  else om_get (conn_map s) pid.
Proof using Hom.
  unfold update_conn_info_one_peer. destruct (Z.eqb_spec (pv_peer_id pv) pid) as [<-|Hne]; cbn [andb].
  - destruct (om_get (conn_map s) (pv_peer_id pv)) as [old|] eqn:E.
    + destruct (conn_version old <? pv_version pv); cbn [fst with_conns conn_map]; [|done].
      by rewrite om_get_insert, Z.eqb_refl.
    + cbn [fst with_conns conn_map]. by rewrite om_get_insert, Z.eqb_refl.
  - case_match; cbn [fst with_conns conn_map]; [|done]. by rewrite om_get_insert, (proj2 (Z.eqb_neq _ _)).
Qed.

(** The loop runs through when every row can be read, and row [pid] becomes
    the newer of what it was and what was sent. *)
Lemma bitmap_loop_rows b now pid l : forall idx s need,
  NoDup (map pv_peer_id l) ->
  (forall k pv, l !! k = Some pv -> exists X, bitmap_connected_peers b (idx + Z.of_nat k) = Ret X) ->
  exists s', bitmap_loop b now l idx s need = Ret s' /\
  ((pid ∉ map pv_peer_id l -> row_kept s s' pid) /\
   forall k pv X, l !! k = Some pv -> pv_peer_id pv = pid -> 0 < pv_version pv ->
     bitmap_connected_peers b (idx + Z.of_nat k) = Ret X ->
     match om_get (conn_map s) pid with
     | Some old => if conn_version old <? pv_version pv
                   then om_get (conn_map s') pid = Some {| connected_peers := X;
                          conn_version := pv_version pv; conn_last_update := now |}
                   else om_get (conn_map s') pid = Some old
     | None => om_get (conn_map s') pid = Some {| connected_peers := X;
                 conn_version := pv_version pv; conn_last_update := now |}
     end).
Proof using Hom.
  induction l as [|pv l IH]; intros idx s need Hnd Hrd; cbn [bitmap_loop].
  - exists (inc_if need s). split; [done|]. split; [intros _; destruct need; by left|]. done.
  - cbn [map] in Hnd. apply NoDup_cons in Hnd as [Hni Hnd].
    destruct (Hrd O pv eq_refl) as [X0 HX0]. rewrite Z.add_0_r in HX0. rewrite HX0. cbn [mbind comp_bind].
    pose proof (fill_empty_rows s X0 now pid) as Hfill.
    pose proof (one_peer_rows (fill_empty_peer_info s X0 now) pv X0 now pid) as Hone.
    destruct (update_conn_info_one_peer _ pv X0 now) as [s1 ch]. cbn [fst] in Hone.
    destruct (IH (idx + 1) s1 (need || ch) Hnd) as (s' & E & Hout & Hin).
    { intros k q Hk. destruct (Hrd (S k) q Hk) as [X HX]. exists X. rewrite <- HX. f_equal. lia. }
    exists s'. split; [done|]. split.
    + intros Hp. apply not_elem_of_cons in Hp as [Hne Hp].
      rewrite (proj2 (Z.eqb_neq (pv_peer_id pv) pid)) in Hone by congruence. cbn [andb] in Hone.
      eapply row_kept_trans; [exact Hfill|]. eapply row_kept_trans; [by left|by apply Hout].
    + intros [|k] q X Hk Hq Hv HX; cbn in Hk.
      * injection Hk as ->. rewrite Z.add_0_r, HX0 in HX. injection HX as <-. subst pid.
        rewrite Z.eqb_refl in Hone. cbn [andb] in Hone.
        assert (forall c, om_get (conn_map s1) (pv_peer_id q) = Some c -> om_get (conn_map s') (pv_peer_id q) = Some c) as Hstay.
        { intros c Hc. destruct (Hout Hni) as [->|(? & _)]; congruence. }
        destruct Hfill as [Ef|(En & c0 & Ec & Hc0)].
        -- rewrite Ef in Hone. destruct (om_get (conn_map s) (pv_peer_id q)) as [old|]; [|by apply Hstay].
           destruct (conn_version old <? pv_version q); by apply Hstay.
        -- rewrite En. rewrite Ec, Hc0, (proj2 (Z.ltb_lt 0 (pv_version q)) Hv) in Hone. by apply Hstay.
      * assert (pid <> pv_peer_id pv) as Hne.
        { intros ->. apply Hni. rewrite <- Hq. apply list_elem_of_fmap. exists q. split; [done|by eapply list_elem_of_lookup_2]. }
        rewrite (proj2 (Z.eqb_neq (pv_peer_id pv) pid)) in Hone by congruence. cbn [andb] in Hone.
        specialize (Hin k q X Hk Hq Hv). rewrite Hone in Hin.
        assert (bitmap_connected_peers b (idx + 1 + Z.of_nat k) = Ret X) as HX' by (rewrite <- HX; f_equal; lia).
        specialize (Hin HX'). destruct Hfill as [->|(En & c0 & Ec & Hc0)] in Hin; [exact Hin|].
        rewrite En. rewrite Ec, Hc0, (proj2 (Z.ltb_lt 0 (pv_version q)) Hv) in Hin. exact Hin.
Qed.
End bitmap.

(** C30. The bitmap carries the connections.  A node can always build the
    bitmap of its connection map and another node can always take it over
    (no index is out of range), and afterwards the receiver's row of every peer
    that the sender reaches is the sender's - version and connected peers -
    unless it already had this version or a newer one, which it then keeps. *)
Theorem conn_bitmap_round_trip `{om : OrderedMap, !OrderedMapLaws om}
    (s s0 : SyncedRouteInfo) (reach : Z -> bool) (now : Z) :
  (forall pid c, om_get (conn_map s) pid = Some c -> 0 <= conn_version c) ->
  exists b s1, make_conn_bitmap s reach = Ret b /\ update_conn_info s0 (ConnBitmap b) now = Ret s1 /\
  forall pid c, om_get (conn_map s) pid = Some c -> reach pid = true -> 0 < conn_version c ->
    exists c1, om_get (conn_map s1) pid = Some c1 /\
      match om_get (conn_map s0) pid with
      | Some c0 => if conn_version c0 <? conn_version c
                   then connected_peers c1 = connected_peers c /\ conn_version c1 = conn_version c
                   else c1 = c0
      | None => connected_peers c1 = connected_peers c /\ conn_version c1 = conn_version c
      end.
Proof.
  intros Hpos. destruct (make_bitmap_rows s reach) as (b & Eb & Eids & Hrows).
  assert (NoDup (map pv_peer_id (bm_peer_ids b))) as Hnd.
  { rewrite Eids, map_map. cbn. apply btree_list_nodup. }
  set (s2 := fill_empty_peer_info s0 (list_to_set (map pv_peer_id (bm_peer_ids b))) now).
  assert (forall k pv, bm_peer_ids b !! k = Some pv -> exists X, bitmap_connected_peers b (0 + Z.of_nat k) = Ret X) as Hrd
    by (intros k pv Hk; destruct (Hrows k pv Hk) as (X & HX & _); by exists X).
  destruct (bitmap_loop_rows b now 0 (bm_peer_ids b) 0 s2 false Hnd Hrd) as (s1 & E1 & _).
  exists b, s1. split; [done|]. split; [exact E1|]. intros pid c Hc Hr Hv.
  destruct (all_peer_ids_spec s reach Hpos pid c Hc Hr) as [Eall Hconn].
  assert ({| pv_peer_id := pid; pv_version := conn_version c |} ∈ bm_peer_ids b) as Hin.
  { rewrite Eids. apply list_elem_of_fmap. exists (pid, conn_version c). split; [done|]. by apply btree_list_elem. }
  apply list_elem_of_lookup in Hin as [k Hk]. destruct (Hrows k _ Hk) as (X & HX & HXspec).
  assert (X = connected_peers c) as ->.
  { apply set_eq. intros p. rewrite HXspec. cbn [pv_peer_id]. split.
    - intros [_ (c' & Hc' & Hp)]. congruence.
    - intros Hp. split; [|by exists c]. destruct (Hconn p Hp) as [v Hpv]. rewrite Eids, map_map.
      apply list_elem_of_fmap. exists (p, v). split; [done|]. by apply btree_list_elem. }
  destruct (bitmap_loop_rows b now pid (bm_peer_ids b) 0 s2 false Hnd Hrd) as (s1' & E1' & _ & Hrow).
  rewrite E1 in E1'. injection E1' as <-. specialize (Hrow k _ _ Hk eq_refl Hv HX). cbn [pv_version] in Hrow.
  destruct (fill_empty_rows s0 (list_to_set (map pv_peer_id (bm_peer_ids b))) now pid) as [Ef|(En & c0 & Ec & Hc0)];
    fold s2 in Ef || fold s2 in Ec.
  - rewrite Ef in Hrow. destruct (om_get (conn_map s0) pid) as [old|]; [|by eexists].
    destruct (conn_version old <? conn_version c); by eexists.
  - rewrite En. rewrite Ec, Hc0, (proj2 (Z.ltb_lt _ _) Hv) in Hrow. by eexists.
Qed.
