(* ===== verification/RouteSyncExamples.v ===== *)
(** A concrete network on which the theorems about route synchronisation apply:
    an ordered map kept as a list, and services of three nodes. *)

From stdpp Require Import list gmap sorting.
From S2P Require Import Prelude RouteGraph RouteMessages RouteWire RouteTable RouteTableProofs SyncedRoute SyncedRouteProofs CredentialProofs SyncSession RouteSync RouteSyncProofs DeliveryProofs BitmapProofs.
Local Open Scope Z_scope.

(** ** An ordered map *)

Module ListMap.
Fixpoint get {V} (m : list (Z * V)) (k : Z) : option V :=
  match m with [] => None | (k', v) :: m => if k' =? k then Some v else get m k end.
Definition without {V} (k : Z) (m : list (Z * V)) : list (Z * V) := filter (fun x => x.1 <> k) m.
(** The first entry of a key counts. *)
Fixpoint iter {V} (m : list (Z * V)) : list (Z * V) :=
  match m with [] => [] | kv :: m => kv :: without kv.1 (iter m) end.

#[export] Instance olist : OrderedMap :=
  {| OMap V := list (Z * V); om_empty V := []; om_get V := get;
     om_insert V k v m := without k m ++ [(k, v)]; om_remove V := without; om_iter V := iter |}.

Lemma get_app {V} (m m' : list (Z * V)) k :
  get (m ++ m') k = match get m k with Some v => Some v | None => get m' k end.
Proof. induction m as [|[k0 v] m IH]; cbn; [done|]. by destruct (k0 =? k). Qed.
Lemma get_without {V} k (m : list (Z * V)) k' :
  get (without k m) k' = if k =? k' then None else get m k'.
Proof.
  unfold without. induction m as [|[k0 v] m IH]; [by destruct (k =? k')|].
  destruct (decide (k0 = k)) as [->|Hne].
  - rewrite filter_cons_False by auto. rewrite IH. cbn. by destruct (k =? k').
  - rewrite filter_cons_True by done. cbn. rewrite IH. destruct (Z.eqb_spec k0 k') as [->|]; [|done].
    by rewrite (proj2 (Z.eqb_neq _ _)).
Qed.

Lemma without_cons {V} k (x : Z * V) m :
  without k (x :: m) = if decide (x.1 = k) then without k m else x :: without k m.
Proof. unfold without. rewrite filter_cons. by repeat case_decide. Qed.
Lemma without_app {V} k (m m' : list (Z * V)) : without k (m ++ m') = without k m ++ without k m'.
Proof. apply filter_app. Qed.
Lemma without_idem {V} k (m : list (Z * V)) : without k (without k m) = without k m.
Proof. unfold without. rewrite list_filter_filter. apply list_filter_iff. intros x. tauto. Qed.
Lemma without_comm {V} a b (m : list (Z * V)) : without a (without b m) = without b (without a m).
Proof. unfold without. rewrite !list_filter_filter. apply list_filter_iff. intros x. tauto. Qed.
Lemma iter_without {V} k (m : list (Z * V)) : iter (without k m) = without k (iter m).
Proof.
  induction m as [|[k0 v] m IH]; [done|]. cbn [iter fst]. rewrite !without_cons. cbn [fst].
  destruct (decide (k0 = k)) as [->|Hne]; [by rewrite IH, without_idem|].
  cbn [iter fst]. by rewrite IH, without_comm.
Qed.
Lemma iter_snoc {V} k (v : V) m : iter (without k m ++ [(k, v)]) = without k (iter m) ++ [(k, v)].
Proof.
  induction m as [|[k0 v0] m IH]; [done|]. cbn [iter fst]. rewrite !without_cons. cbn [fst].
  destruct (decide (k0 = k)) as [->|Hne]; [by rewrite IH, without_idem|].
  cbn [iter fst app]. rewrite IH, without_app, (without_cons k0 (k, v)). cbn [fst].
  rewrite decide_False by done. by rewrite without_comm.
Qed.
Lemma iter_get {V} (m : list (Z * V)) k v : (k, v) ∈ iter m <-> get m k = Some v.
Proof.
  induction m as [|[k0 v0] m IH]; cbn [iter get]; [by rewrite elem_of_nil|].
  unfold without.
  rewrite elem_of_cons, list_elem_of_filter, IH. cbn.
  destruct (Z.eqb_spec k0 k) as [->|Hne].
  - split; [intros [[= <-]|[[] _]]; done|]. intros [= <-]. by left.
  - split; [intros [[= <- <-]|[_ ?]]; done|]. intros Hg. right. split; [congruence|done].
Qed.
Lemma iter_nodup {V} (m : list (Z * V)) : NoDup (iter m).*1.
Proof.
  induction m as [|[k v] m IH]; cbn [iter]; [constructor|]. rewrite fmap_cons. constructor.
  - cbn. unfold without. intros ([k' v'] & Hk & [Hne _]%list_elem_of_filter)%list_elem_of_fmap. cbn in *. congruence.
  - clear -IH. unfold without. cbn. induction (iter m) as [|[k' v'] l IHl]; [constructor|].
    rewrite fmap_cons in IH. apply NoDup_cons in IH as [Hni Hnd]. rewrite filter_cons. case_match; [|by apply IHl].
    rewrite fmap_cons. constructor; [|by apply IHl].
    intros (x & Hx & [_ Hin]%list_elem_of_filter)%list_elem_of_fmap. apply Hni. rewrite Hx.
    apply list_elem_of_fmap. by exists x.
Qed.

#[export] Instance olist_laws : OrderedMapLaws olist.
Proof.
  constructor; cbn; intros.
  - done.
  - rewrite get_app, get_without. cbn. destruct (k =? k'); [done|]. by destruct (get m k').
  - apply get_without.
  - apply iter_nodup.
  - apply iter_get.
Qed.
#[export] Instance olist_order : OrderedMapOrder olist.
Proof. constructor; cbn; intros; [done|apply iter_snoc|apply iter_without]. Qed.
End ListMap.

(** ** Three nodes *)

Module Net.
Export Example_routes ListMap.
#[export] Existing Instance list_heap.
#[export] Existing Instance Concrete.trust.
#[export] Existing Instance Protobuf.wire.
#[export] Existing Instance Protobuf.route.

Definition info (pid v t : Z) (key : list Z) (proofs : list TrustedCredentialPubkeyProof) : RoutePeerInfo :=
  set_stamp (Concrete.info pid v key proofs) v (Some t).
Definition row (l : list Z) : RouteConnInfo :=
  {| connected_peers := list_to_set l; conn_version := 1; conn_last_update := 10 |}.

(** Node 1, an admin that vouches for the credential of key 7, is linked to 2
    and 3. *)
Definition synced : @SyncedRouteInfo olist :=
  {| default_easytier_version := [];
     SyncedRoute.peer_infos := [(1, info 1 1 10 [5] [Concrete.proof [3]]); (2, info 2 1 10 [] []); (3, info 3 1 10 [] [])];
     raw_peer_infos := ∅; conn_map := [(1, row [2; 3]); (2, row [1]); (3, row [1])];
     foreign_network := ∅; group_trust_map := ∅; group_trust_map_cache := ∅;
     trusted_credentials := {[ [7] := Concrete.credential ]}; non_reusable_credential_owners := ∅;
     suppressed_non_reusable_credential_peers := ∅; s_version := 1 |}.

Definition context : ServiceContext :=
  {| sx_peer := {| cx_instance_id := 0; cx_ipv4 := None; cx_proxy_cidrs := []; cx_hostname := [];
       cx_udp_nat_type := 0; cx_tcp_nat_type := 0; cx_easytier_version := [];
       cx_feature_flags := default_feature_flag; cx_ipv6 := None; cx_advertised_prefix := None;
       cx_peer_groups := []; cx_public_key := None; cx_network_secret := Some [3];
       cx_trusted_credential_pubkeys := fun _ => [] |};
     sx_secure_mode := true; sx_prefer_peer_relay := false; sx_acl_group_declarations := [];
     sx_force_use_conn_list := true; sx_calculate_cost := fun _ _ => 1 |}.

Definition service_with (me : Z) (t : OspfRouteTable) : PeerRouteServiceImpl :=
  {| sv_my_peer_id := me; sv_my_peer_route_id := 9; sessions := ∅; next_session := 0; stopped := false;
     route_table := t; route_table_with_cost := OspfRouteTable_new;
     foreign_network_owner_map := ∅; foreign_network_my_peer_id_map := ∅; synced_route_info := synced;
     self_public_ipv6_addr_lease := None;
     cached_local_conn_map := {| bm_peer_ids := []; bm_bitmap := [] |};
     cached_local_conn_map_version := 0;
     cached_interface_peer_snapshot := {| is_peers := ∅; is_identity_types := ∅; is_public_keys := ∅ |};
     self_conn_info_withdrawn := false; peer_info_last_update := 0; published_trusted_keys := ∅ |}.
Definition service (me : Z) : PeerRouteServiceImpl :=
  match build_from_snapshot OspfRouteTable_new me (route_snapshot synced) LeastHop (fun _ _ => 1) with
  | Ret t => service_with me t
  | Panic => service_with me OspfRouteTable_new
  end.

(** Peer 7 authenticated with the credential. *)
Definition interface : InterfacePeerSnapshot :=
  {| is_peers := {[1; 7]}; is_identity_types := {[7 := Some Credential]};
     is_public_keys := {[7 := Some [7]]} |}.
End Net.
Import Net.

(** Peer 7 sends its own information and a newer version of peer 3's, which
    stays as it was. *)
Lemma credential_peer_confined_witness :
  exists h, do_sync_route_info (service 2) context interface (fun _ => None) (fun _ => None) 7 70 true
      (Some [info 7 1 0 [7] []; info 3 9 0 [] []]) [Protobuf.raw_sample; Protobuf.raw_sample] None None 77 50000
    = Ret h /\
    is_Some (om_get (SyncedRoute.peer_infos (synced_route_info (sh_service h))) 7) /\
    om_get (SyncedRoute.peer_infos (synced_route_info (sh_service h))) 3 = Some (info 3 1 10 [] []).
Proof.
  set (call := do_sync_route_info _ _ _ _ _ _ _ _ _ _ _ _ _ _).
  assert (match call with
          | Ret h => bool_decide (3 ∉ sh_untrusted h) &&
              bool_decide (is_Some (om_get (SyncedRoute.peer_infos (synced_route_info (sh_service h))) 7))
          | Panic => false end = true) as Hc by (vm_compute; reflexivity).
  destruct call as [h|] eqn:E; [|done]. apply andb_prop in Hc as [Hu H7].
  apply bool_decide_eq_true in Hu, H7. exists h. split; [done|]. split; [exact H7|].
  destruct (credential_peer_confined _ _ _ _ _ _ _ _ _ _ _ _ _ _ h Concrete.credential E
    ltac:(vm_compute; reflexivity) 3 Hu) as [[Hs|(i & _ & [(Hn & _)|(Hf & _)])] _].
  - rewrite Hs. vm_compute. reflexivity.
  - vm_compute in Hn. discriminate.
  - discriminate.
Defined.

Definition pending (infos : option (list RoutePeerInfo)) (t : Z) : PendingSync :=
  {| ps_dst_peer_id := 2; ps_session := 0;
     ps_snapshot := request_snapshot_locked (SyncRouteSession_new 1 2 70 0);
     ps_expected_dst_session_id := 0; ps_next_last_sync_succ_timestamp := t;
     ps_request := {| rq_my_peer_id := 1; rq_my_session_id := 70; rq_is_initiator := true;
       rq_peer_infos := infos; rq_conn_info := None; rq_foreign_network_infos := None |} |}.

(** Node 1 tells node 2 of peer 5. *)
Lemma exchange_delivers_witness :
  exists h s', do_sync_route_info (service 2) context interface (fun _ => None) (fun _ => None) 1 70 true
      (Some [info 5 4 0 [] []]) [Protobuf.raw_sample] None None 77 50000 = Ret h /\
    commit_response (SyncRouteSession_new 1 2 70 0) (pending (Some [info 5 4 0 [] []]) 40000)
      {| rs_is_initiator := false; rs_session_id := 77; rs_error := None |} 51000 = Ret s' /\
    (exists r, om_get (SyncedRoute.peer_infos (synced_route_info (sh_service h))) 5 = Some r /\ 4 <= version r) /\
    known s' 5 4.
Proof.
  set (call := do_sync_route_info _ _ _ _ _ _ _ _ _ _ _ _ _ _).
  set (commit := commit_response _ _ _ _).
  assert (match call with
          | Ret h => bool_decide (5 ∉ sh_untrusted h) &&
              match sh_response h with Ok r => (rs_session_id r =? 77) && negb (rs_is_initiator r) &&
                match rs_error r with None => true | _ => false end | Err _ => false end
          | Panic => false end = true) as Hc by (vm_compute; reflexivity).
  destruct call as [h|] eqn:E; [|done]. apply andb_prop in Hc as [Hu Hr]. apply bool_decide_eq_true in Hu.
  destruct (sh_response h) as [[ri rid re]|] eqn:Er; [|done]. cbn in Hr.
  apply andb_prop in Hr as [[Hid Hi]%andb_prop He]. apply Z.eqb_eq in Hid as ->.
  destruct ri; [done|]. destruct re; [done|].
  destruct commit as [s'|] eqn:Ec; [|vm_compute in Ec; discriminate].
  exists h, s'. split; [done|]. split; [done|].
  destruct (exchange_delivers _ _ _ _ _ _ _ _ _ _ _ _ _ _ h _ (SyncRouteSession_new 1 2 70 0) s'
    (pending (Some [info 5 4 0 [] []]) 40000) 51000 E ltac:(vm_compute; reflexivity) Er
    eq_refl Ec (info 5 4 0 [] []) ltac:(left)) as [H1 H2].
  split; [exact (H1 Hu)|]. apply H2. discriminate.
Defined.

(** Node 1 makes its first request to node 2, whose first response is
    committed; then peer 3 announces version 2, and the next request has it. *)
Definition first_session : SyncRouteSession := SyncRouteSession_new 1 2 70 20.
Definition first_built : SyncRouteSession * option (list RoutePeerInfo) :=
  build_route_info (service 1) first_session 20.
Definition response : SyncRouteInfoResponse :=
  {| rs_is_initiator := false; rs_session_id := 77; rs_error := None |}.
Definition answered : SyncRouteSession :=
  match commit_response first_built.1 (pending first_built.2 20) response 30 with
  | Ret s => s
  | Panic => first_built.1
  end.
Definition newer_infos : OMap RoutePeerInfo :=
  om_insert 3 (info 3 2 30 [] []) (SyncedRoute.peer_infos synced).
Definition newer_service : PeerRouteServiceImpl :=
  with_synced (service 1)
    {| default_easytier_version := []; SyncedRoute.peer_infos := newer_infos; raw_peer_infos := ∅;
       conn_map := conn_map synced; foreign_network := ∅; group_trust_map := ∅; group_trust_map_cache := ∅;
       trusted_credentials := trusted_credentials synced; non_reusable_credential_owners := ∅;
       suppressed_non_reusable_credential_peers := ∅; s_version := 2 |}.
Definition recorded : list (Z * SavedKey * Z) :=
  map (fun x => (77, x.1, x.2)) (commit_keys (pending first_built.2 20)) ++ [].

Lemma first_exchange :
  exchange 5 newer_infos answered recorded 40 [pending first_built.2 20].
Proof.
  apply x_tick with 30; [|lia].
  eapply x_edit; [|by apply edit_insert].
  apply (x_commit 2 _ first_built.1 [] 30 _ (pending first_built.2 20) response).
  - apply x_tick with 20; [|lia].
    apply (x_request 0 _ first_session [] 20 [] (service 1) _ first_built.2).
    + apply x_start. split; [repeat constructor; cbn; lia|]. repeat constructor; cbn; eauto; lia.
    + vm_compute. reflexivity.
    + unfold first_built. by destruct (build_route_info _ _ _).
    + vm_compute. reflexivity.
    + reflexivity.
    + reflexivity.
  - by left.
  - vm_compute. reflexivity.
  - right. split; [vm_compute; reflexivity|]. by intros pid w ?%not_elem_of_nil.
  - vm_compute. reflexivity.
Qed.

Lemma nothing_left_out_witness :
  exists s' r, build_route_info newer_service answered 40 = (s', r) /\
    info 3 2 30 [] [] ∈ default [] r.
Proof.
  destruct (build_route_info newer_service answered 40) as [s' r] eqn:E. exists s', r. split; [done|].
  destruct (nothing_left_out 5 newer_infos answered s' recorded 40 [pending first_built.2 20] newer_service r)
    with (pid := 3) (i := info 3 2 30 [] []) as [Hin|(w & Hle & Hw)].
  - exact first_exchange.
  - lia.
  - reflexivity.
  - exact E.
  - vm_compute. reflexivity.
  - cbn. lia.
  - vm_compute. discriminate.
  - vm_compute. reflexivity.
  - exact Hin.
  - exfalso. assert (Hall : Forall (fun x => x.2 < 2) recorded) by (vm_compute; repeat constructor).
    rewrite Forall_forall in Hall. specialize (Hall _ Hw). cbn in Hall, Hle. lia.
Defined.

(** A first response forgets who was put aside: the first request is built when
    peer 3 cannot be reached, so it is left out; the response brings the other
    side's session id, which clears the list of those to be sent later, and
    then the time of the exchange is recorded.  When peer 3 can be reached
    the request to node 2 still has nothing about it. *)
Example first_response_forgets_unreachable :
  let '(s1, r) := build_route_info (service_with 1 OspfRouteTable_new) first_session 20 in
  match commit_response s1 (pending r 20) response 30 with
  | Ret s2 => topology_peer_reachable (route_table (service 1)) 3 = true /\
      (build_route_info (service 1) s1 40).2 <> None /\ (build_route_info (service 1) s2 40).2 = None
  | Panic => False
  end.
Proof. vm_compute. split_and!; [reflexivity|discriminate|reflexivity]. Qed.

Lemma new_generation_response_silences_witness :
  exists s', commit_response (admit_inbound_locked (SyncRouteSession_new 1 2 70 0) 9 true).2 (pending None 100)
      {| rs_is_initiator := true; rs_session_id := 10; rs_error := None |} 110 = Ret s' /\
    dst_session_id s' = 10 /\ (build_route_info (service 1) s' 200).2 = None.
Proof.
  set (commit := commit_response _ _ _ _). destruct commit as [s'|] eqn:E; [|vm_compute in E; discriminate].
  exists s'. split; [done|].
  destruct (new_generation_response_silences (service 1) _ s' _ _ _ 200 E) as (H1 & _ & H2).
  - vm_compute. discriminate.
  - reflexivity.
  - intros pid i. change (synced_route_info (service 1)) with synced || idtac.
    replace (synced_route_info (service 1)) with synced by (vm_compute; reflexivity). cbn -[Z.eqb].
    repeat (case_match; [intros [= <-]; exists 10; split; [reflexivity|lia]|]). discriminate.
  - done.
Defined.

(** A node that knows nothing learns the links of node 1. *)
Lemma conn_bitmap_round_trip_witness :
  exists b s1 c1, make_conn_bitmap synced (fun _ => true) = Ret b /\
    update_conn_info (with_conns synced []) (ConnBitmap b) 60 = Ret s1 /\
    om_get (conn_map s1) 1 = Some c1 /\ connected_peers c1 = list_to_set [2; 3].
Proof.
  destruct (conn_bitmap_round_trip synced (with_conns synced []) (fun _ => true) 60) as (b & s1 & Eb & Eu & Hr).
  - intros pid c. cbn -[Z.eqb]. repeat (case_match; [intros [= <-]; cbn; lia|]). discriminate.
  - destruct (Hr 1 (row [2; 3]) eq_refl eq_refl ltac:(cbn; lia)) as (c1 & E1 & Hc & _).
    exists b, s1, c1. by split_and!.
Defined.
