(* ===== verification/Framing.v ===== *)
(** The framing of packets on a byte stream: [tunnel/framed.rs].

    A frame is a packet of type [TCP]: the length of what follows in four bytes,
    then the packet from its peer-manager header on.  [FramedWriter] queues
    frames and writes as many bytes as the transport takes; [FramedReader]
    fills a buffer with what the transport has and cuts frames off it.  A poll
    is a function of the transport's answers, one per call; the capacity of the
    reader's buffer, which bounds a read, follows the class [BytesMutLib]. *)

From stdpp Require Import list.
From S2P Require Import Prelude Headers Packet.
Local Open Scope Z_scope.

(** ** Libraries *)

(** Capacities of a [bytes::BytesMut]: of a new buffer, after [reserve], and of
    the rest after [split_to]; arguments are capacity, length and amount. *)
Class BytesMutLib := {
  bm_with_capacity : Z -> Z;
  bm_reserve : Z -> Z -> Z -> Z;
  bm_split_to : Z -> Z -> Z -> Z }.

(** What the crate documents: room for at least what was asked for, and a
    capacity never below the length. *)
Class BytesMutLaws (bm : BytesMutLib) := {
  bm_with_capacity_ge n : n <= bm_with_capacity n;
  bm_reserve_ge cap n add : n + add <= bm_reserve cap n add;
  bm_split_to_ge cap n at_ : n <= cap -> n - at_ <= bm_split_to cap n at_ }.

(** The errors of [TunnelError] that framing gives. *)
Inductive FrameError := BodyTooLong | BodyTooShort | PacketTooShort.
Inductive TunnelError := InvalidPacket (e : FrameError) | IOError.

Definition TCP_MTU_BYTES : Z := 2000.

(** ** Reading *)

Definition extract_one_packet (buf : list Z) (max_packet_size : Z)
    : comp (list Z * option (result TunnelError ZCPacket)) :=
  if len buf <? TCP_TUNNEL_HEADER_SIZE then Ret (buf, None) else
  header ← unwrap (ref_from_prefix (T:=TCPTunnelHeader) buf);
  let body_len := tcp_len header in
  if max_packet_size <? body_len then Ret (buf, Some (Err (InvalidPacket BodyTooLong))) else
  if body_len <? PEER_MANAGER_HEADER_SIZE
  then Ret (buf, Some (Err (InvalidPacket BodyTooShort))) else
  if len buf <? TCP_TUNNEL_HEADER_SIZE + body_len then Ret (buf, None) else
  let n := Z.to_nat (TCP_TUNNEL_HEADER_SIZE + body_len) in
  Ret (drop n buf, Some (Ok (new_from_buf (take n buf) TCP))).

(** What [poll_read] does with the free part of the buffer: nothing yet, at
    most [n] bytes of the stream, its end, or an error. *)
Inductive ReadEv := ReadPending | ReadChunk (n : positive) | ReadEof | ReadFail.

Record FramedReader := {
  fr_stream : list Z;          (* what the transport has not yet delivered *)
  fr_buf : list Z; fr_capacity : Z; fr_max_packet_size : Z; fr_error : bool }.

Inductive Poll (A : Type) := Pending | Ready (a : A).
Arguments Pending {A}.
Arguments Ready {A} a.

Section reader.
Context {bm : BytesMutLib}.

Definition FramedReader_new (stream : list Z) (max_packet_size : Z) : FramedReader :=
  {| fr_stream := stream; fr_buf := []; fr_capacity := bm_with_capacity max_packet_size;
     fr_max_packet_size := max_packet_size; fr_error := false |}.

Definition reserve_buf (buf : list Z) (capacity min_size max_size : Z) : Z :=
  if capacity <? min_size then bm_reserve capacity (len buf) max_size else capacity.

Definition with_read (r : FramedReader) (stream buf : list Z) (capacity : Z) (error : bool)
    : FramedReader :=
  {| fr_stream := stream; fr_buf := buf; fr_capacity := capacity;
     fr_max_packet_size := fr_max_packet_size r; fr_error := error |}.

(** One round of the loop of [poll_next] before the read. *)
Definition next_packet (r : FramedReader)
    : comp (FramedReader * option (option (result TunnelError ZCPacket))) :=
  if fr_error r then Ret (r, Some None) else
  '(buf, packet) ← extract_one_packet (fr_buf r) (fr_max_packet_size r);
  match packet with
  | None => Ret (r, None)
  | Some (Err (InvalidPacket e)) =>
    Ret (with_read r (fr_stream r) buf (fr_capacity r) true,
         Some (Some (Err (InvalidPacket e))))
  | Some p =>
    let at_ := len (fr_buf r) - len buf in
    Ret (with_read r (fr_stream r) buf (bm_split_to (fr_capacity r) (len (fr_buf r)) at_) false,
         Some (Some p))
  end.

(** [poll_next], with the transport's answers to its reads; the answers it did
    not need are returned. *)
Fixpoint poll_next (r : FramedReader) (evs : list ReadEv)
    : comp (FramedReader * list ReadEv * Poll (option (result TunnelError ZCPacket))) :=
  '(r, done_) ← next_packet r;
  match done_ with
  | Some item => Ret (r, evs, Ready item)
  | None =>
    let capacity := reserve_buf (fr_buf r) (fr_capacity r) (fr_max_packet_size r)
                      (fr_max_packet_size r * 2) in
    let r := with_read r (fr_stream r) (fr_buf r) capacity false in
    let cap := capacity - len (fr_buf r) in
    match evs with
    | [] => Ret (r, [], Pending)
    | ReadPending :: evs => Ret (r, evs, Pending)
    | ReadEof :: evs => Ret (r, evs, Ready None)
    | ReadFail :: evs => Ret (r, evs, Ready (Some (Err IOError)))
    | ReadChunk n :: evs =>
      match fr_stream r with
      | [] => Ret (r, evs, Pending)
      | _ =>
        let k := Z.to_nat (Z.min (Z.pos n) cap) in
        let r := with_read r (drop k (fr_stream r)) (fr_buf r ++ take k (fr_stream r)) capacity false in
        if cap =? 0 then Ret (r, evs, Ready None) else poll_next r evs
      end
    end
  end.
End reader.

(** ** Writing *)

Definition zcpacket_into_bytes (g : nat -> Z) (item : ZCPacket)
    : comp (result TunnelError (list Z)) :=
  item ← convert_type g item TCP;
  let tcp_len := wrap 64 (PEER_MANAGER_HEADER_SIZE + payload_len item) in
  match mut_tcp_tunnel_header item with
  | None => Ret (Err (InvalidPacket PacketTooShort))
  | Some (_, put) =>
    if 2 ^ 32 <=? tcp_len then Panic
    else Ret (Ok (inner (put {| tcp_len := tcp_len |})))
  end.

(** [SendBufs]: the queue of frames not yet written. *)
Abbreviation SendBufs := (list (list Z)).
Definition send_remaining (bufs : SendBufs) : Z := len (concat bufs).
Definition send_chunk (bufs : SendBufs) : list Z := default [] (head bufs).
Fixpoint send_advance (bufs : SendBufs) (cnt : Z) : SendBufs :=
  if cnt <=? 0 then bufs else
  match bufs with
  | [] => []
  | front :: rest =>
    if cnt <? len front then drop (Z.to_nat cnt) front :: rest
    else send_advance rest (cnt - len front)
  end.

(** [chunks_vectored] with [n] slots: one slice per frame. *)
Definition chunks_vectored (bufs : SendBufs) (n : nat) : list (list Z) := take n bufs.

(** The answers of the transport: not ready, it took [n] bytes of what it was
    offered, or an error. *)
Inductive WriteEv := WritePending | WriteSome (n : Z) | WriteFail.

(** [tokio_util::io::poll_write_buf] offers the first 64 slices, or the first
    chunk to a writer that is not vectored. *)
Definition offered (vectored : bool) (bufs : SendBufs) : list Z :=
  if vectored then concat (chunks_vectored bufs 64) else send_chunk bufs.

Record FramedWriter := { fw_written : list Z; sending_bufs : SendBufs }.

(** [poll_flush] writes until the queue is empty and then flushes the
    transport, whose answer is [flushed]. *)
Fixpoint poll_flush (vectored : bool) (flushed : Poll (result TunnelError unit)) (w : FramedWriter)
    (evs : list WriteEv) : FramedWriter * list WriteEv * Poll (result TunnelError unit) :=
  if send_remaining (sending_bufs w) =? 0 then (w, evs, flushed) else
  match evs with
  | [] => (w, [], Pending)
  | WritePending :: evs => (w, evs, Pending)
  | WriteFail :: evs => (w, evs, Ready (Err IOError))
  | WriteSome n :: evs =>
    let o := offered vectored (sending_bufs w) in
    let n := Z.min n (len o) in
    if n <=? 0 then (w, evs, Ready (Err IOError)) else
    poll_flush vectored flushed
      {| fw_written := fw_written w ++ take (Z.to_nat n) o;
         sending_bufs := send_advance (sending_bufs w) n |} evs
  end.

Definition max_buffer_count : nat := 64.
Definition poll_ready (vectored : bool) (flushed : Poll (result TunnelError unit))
    (w : FramedWriter) (evs : list WriteEv)
    : FramedWriter * list WriteEv * Poll (result TunnelError unit) :=
  if (max_buffer_count <=? length (sending_bufs w))%nat
  then poll_flush vectored flushed w evs else (w, evs, Ready (Ok tt)).

Definition start_send (g : nat -> Z) (w : FramedWriter) (item : ZCPacket)
    : comp (FramedWriter * result TunnelError unit) :=
  b ← zcpacket_into_bytes g item;
  match b with
  | Err e => Ret (w, Err e)
  | Ok b => Ret ({| fw_written := fw_written w; sending_bufs := sending_bufs w ++ [b] |}, Ok tt)
  end.

Definition poll_close (vectored : bool) (flushed shut : Poll (result TunnelError unit))
    (w : FramedWriter) (evs : list WriteEv)
    : FramedWriter * list WriteEv * Poll (result TunnelError unit) :=
  match poll_flush vectored flushed w evs with
  | (w, evs, Ready (Ok _)) => (w, evs, shut)
  | r => r
  end.

(** ** Executions *)

(** A frame: the length of a tunnel payload and the payload. *)
Definition frame (t : list Z) : list Z := le_encode 4 (len t) ++ t.
Definition framed_packet (t : list Z) : ZCPacket := new_from_buf (frame t) TCP.

(** What the user of a writer does, with the answers of the transport. *)
Inductive WriterOp :=
  | OpSend (p : ZCPacket)
  | OpFlush (flushed : Poll (result TunnelError unit)) (evs : list WriteEv)
  | OpReady (flushed : Poll (result TunnelError unit)) (evs : list WriteEv).

Definition writer_op (g : nat -> Z) (vectored : bool) (w : FramedWriter) (op : WriterOp)
    : comp FramedWriter :=
  match op with
  | OpSend p => fst <$> start_send g w p
  | OpFlush f evs => Ret (poll_flush vectored f w evs).1.1
  | OpReady f evs => Ret (poll_ready vectored f w evs).1.1
  end.
Fixpoint writer_run (g : nat -> Z) (vectored : bool) (w : FramedWriter) (ops : list WriterOp)
    : comp FramedWriter :=
  match ops with
  | [] => Ret w
  | op :: ops => w ← writer_op g vectored w op; writer_run g vectored w ops
  end.
Definition sent (ops : list WriterOp) : list ZCPacket :=
  omap (fun op => match op with OpSend p => Some p | _ => None end) ops.

(** Polls of a reader until the transport has no more answers. *)
Fixpoint reader_run `{BytesMutLib} (fuel : nat) (r : FramedReader) (evs : list ReadEv)
    : comp (list (result TunnelError ZCPacket) * FramedReader) :=
  match fuel with
  | O => Ret ([], r)
  | S fuel =>
    '(r, evs, out) ← poll_next r evs;
    match out with
    | Ready (Some item) =>
      '(items, r) ← reader_run fuel r evs;
      Ret (item :: items, r)
    | Ready None => Ret ([], r)
    | Pending => match evs with [] => Ret ([], r) | _ => reader_run fuel r evs end
    end
  end.
Definition is_chunk (e : ReadEv) : bool := match e with ReadChunk _ => true | _ => false end.
Definition chunks (evs : list ReadEv) : nat := length (filter (fun e => is_chunk e = true) evs).
(** The transport stays open and does not fail. *)
Definition open_ev (e : ReadEv) : Prop := e <> ReadEof /\ e <> ReadFail.

(** ** Lemmas: writing *)

Lemma length_frame t : len (frame t) = 4 + len t.
Proof. unfold frame. rewrite len_app. unfold len at 1. rewrite length_le_encode. lia. Qed.

Lemma into_bytes_frame g p t :
  has_header p -> tunnel_payload p = Ret t -> len t < 2 ^ 32 ->
  zcpacket_into_bytes g p = Ret (Ok (frame t)).
Proof.
  intros Hh Ht Hl. unfold zcpacket_into_bytes. pose proof (convert_type_spec g p TCP Hh) as Hc.
  destruct (convert_type g p TCP) as [p'|]; [|by destruct Hc]. cbn [mbind comp_bind].
  destruct Hc as (Hty & Hp & Hh'). rewrite Ht in Hp.
  unfold has_header, zc_payload_offset in Hh'. rewrite Hty in Hh'. change (payload_offset _) with 20 in Hh'.
  unfold tunnel_payload in Hp. rewrite Hty in Hp.
  change (peer_manager_header_offset _) with 4 in Hp. rewrite slice_from_in in Hp by lia.
  injection Hp as Ht'. assert (len t = len (inner p') - 4) as El by (rewrite <- Ht', len_drop by lia; lia).
  unfold mut_tcp_tunnel_header, mut_header, mut_bytes_from_offset. rewrite Hty.
  change (tcp_tunnel_header_offset _) with 0. rewrite get_from_in by lia. cbn [mbind option_bind].
  unfold ref_from_prefix. change (Z.of_nat (wire_size TCPTunnelHeader)) with 4.
  change (drop (Z.to_nat 0) (inner p')) with (inner p').
  rewrite (proj2 (Z.leb_le 4 (len (inner p')))) by lia. cbn [mbind option_bind].
  assert (wrap 64 (PEER_MANAGER_HEADER_SIZE + payload_len p') = len t) as ->.
  { unfold payload_len, zc_payload_offset. rewrite Hty. change (payload_offset _) with 20.
    change PEER_MANAGER_HEADER_SIZE with 16. rewrite (wrap_small 64 (_ - _)) by (unfold in_range; lia).
    rewrite wrap_small by (unfold in_range; lia). lia. }
  rewrite (proj2 (Z.leb_gt _ _)) by lia. unfold frame. do 2 f_equal.
  change (inner _) with (le_encode 4 (len t) ++ drop (Z.to_nat 4) (inner p')). by rewrite Ht'.
Qed.

Lemma send_advance_concat bufs : forall cnt, 0 <= cnt ->
  concat (send_advance bufs cnt) = drop (Z.to_nat cnt) (concat bufs).
Proof.
  induction bufs as [|b bufs IH]; intros cnt Hc; cbn [send_advance].
  - destruct (cnt <=? 0); cbn [concat]; by rewrite drop_nil.
  - destruct (cnt <=? 0) eqn:E0; bools; [by replace cnt with 0 by lia|].
    destruct (cnt <? len b) eqn:E1; bools; unfold_len; cbn [concat].
    + by rewrite drop_app_le by lia.
    + rewrite IH, drop_app_ge by lia. f_equal. lia.
Qed.

Lemma offered_prefix vectored bufs : exists rest, concat bufs = offered vectored bufs ++ rest.
Proof.
  unfold offered, chunks_vectored. destruct vectored.
  - exists (concat (drop 64 bufs)). by rewrite <- concat_app, take_drop.
  - destruct bufs as [|b bufs]; [by exists []|]. by exists (concat bufs).
Qed.

(** Flushing moves bytes from the queue to the transport, in order. *)
Lemma poll_flush_moves vectored flushed evs : forall w,
  let r := poll_flush vectored flushed w evs in
  fw_written r.1.1 ++ concat (sending_bufs r.1.1) = fw_written w ++ concat (sending_bufs w).
Proof.
  induction evs as [|[|n|] evs IH]; intros w r; subst r; cbn [poll_flush]; destruct (_ =? 0); try done.
  cbv zeta. destruct (_ <=? 0) eqn:E; [done|]. bools. rewrite IH. cbn [fw_written sending_bufs].
  rewrite send_advance_concat by lia. rewrite <- (app_assoc (fw_written w)). f_equal.
  destruct (offered_prefix vectored (sending_bufs w)) as [rest Hr]. rewrite Hr.
  rewrite <- (take_drop (Z.to_nat (Z.min n (len (offered vectored (sending_bufs w))))) (offered _ _ ++ rest)) at 2.
  f_equal. rewrite take_app_le; [done|]. unfold_len. lia.
Qed.

Lemma writer_run_moves g vectored ts ops : forall w,
  Forall2 (fun p t => has_header p /\ tunnel_payload p = Ret t /\ len t < 2 ^ 32) (sent ops) ts ->
  exists w', writer_run g vectored w ops = Ret w' /\
    fw_written w' ++ concat (sending_bufs w') =
    fw_written w ++ concat (sending_bufs w) ++ concat (map frame ts).
Proof.
  revert ts. induction ops as [|op ops IH]; intros ts w Hs; cbn [writer_run].
  - inversion Hs. exists w. split; [done|]. cbn. by rewrite app_nil_r.
  - assert (forall w1, fw_written w1 ++ concat (sending_bufs w1) = fw_written w ++ concat (sending_bufs w) ->
      Forall2 (fun p t => has_header p /\ tunnel_payload p = Ret t /\ len t < 2 ^ 32) (sent ops) ts ->
      exists w', writer_run g vectored w1 ops = Ret w' /\ fw_written w' ++ concat (sending_bufs w') =
        fw_written w ++ concat (sending_bufs w) ++ concat (map frame ts)) as Hmove.
    { intros w1 E H1. destruct (IH ts w1 H1) as (w' & Hr & Hw). exists w'. split; [done|].
      by rewrite Hw, !app_assoc, E. }
    destruct op as [p|f evs|f evs].
    + change (sent (OpSend p :: ops)) with (p :: sent ops) in Hs.
      inversion Hs as [|? t ? ts' (Hh & Ht & Hl) Hs' Hp Hts]; subst.
      cbn [writer_op]. unfold start_send. rewrite (into_bytes_frame g p t) by done. cbn [mbind comp_bind fmap comp_fmap fst].
      destruct (IH ts' {| fw_written := fw_written w; sending_bufs := sending_bufs w ++ [frame t] |} Hs')
        as (w' & Hr & Hw). exists w'. split; [exact Hr|]. rewrite Hw. cbn [fw_written sending_bufs map concat].
      rewrite concat_app. cbn [concat]. by rewrite app_nil_r, <- !app_assoc.
    + apply Hmove; [apply poll_flush_moves|exact Hs].
    + apply Hmove; [|exact Hs]. unfold poll_ready. destruct (_ <=? _)%nat; [apply poll_flush_moves|done].
Qed.

(** ** Lemmas: reading *)

(** The tunnel payloads that fit a reader whose limit is [max]. *)
Definition fits (max : Z) (t : list Z) : Prop := 16 <= len t /\ 4 + len t <= max /\ len t < 2 ^ 32.

Section reading.
Context {bm : BytesMutLib} {Hbm : BytesMutLaws bm}.

(** The buffer and what is still to come, [rest] of it not yet written, are
    the frames [ts]. *)
Definition reads (max : Z) (rest : list Z) (ts : list (list Z)) (r : FramedReader) : Prop :=
  fr_buf r ++ fr_stream r ++ rest = concat (map frame ts) /\ Forall (fits max) ts /\
  0 <= max /\ fr_max_packet_size r = max /\ fr_error r = false /\ len (fr_buf r) <= fr_capacity r.

(** Something is missing of the first frame. *)
Definition short (ts : list (list Z)) (r : FramedReader) : Prop :=
  match ts with [] => fr_buf r = [] | t :: _ => len (fr_buf r) < 4 + len t end.

Lemma frame_prefix t rest buf tail :
  buf ++ rest = frame t ++ tail -> 4 + len t <= len buf ->
  take (Z.to_nat (4 + len t)) buf = frame t /\ drop (Z.to_nat (4 + len t)) buf ++ rest = tail.
Proof using.
  intros E Hl. pose proof (length_frame t) as Hf. unfold_len.
  assert (length (frame t) = Z.to_nat (4 + Z.of_nat (length t))) as Hn by lia.
  assert (Z.to_nat (4 + Z.of_nat (length t)) <= length buf)%nat as Hle by lia.
  rewrite <- Hn in *. split.
  - rewrite <- (take_app_le buf rest) by lia. by rewrite E, take_app_length.
  - rewrite <- drop_app_le by lia. by rewrite E, drop_app_length.
Qed.

Lemma frame_header t buf rest tail :
  buf ++ rest = frame t ++ tail -> len t < 2 ^ 32 -> 4 <= len buf ->
  ref_from_prefix (T:=TCPTunnelHeader) buf = Some {| tcp_len := len t |}.
Proof using.
  intros E Hl H4. unfold ref_from_prefix. change (Z.of_nat (wire_size TCPTunnelHeader)) with 4.
  rewrite (proj2 (Z.leb_le _ _) H4). f_equal.
  assert (take 4 buf = le_encode 4 (len t)) as Ht.
  { unfold_len. rewrite <- (take_app_le buf rest) by lia. rewrite E. unfold frame.
    rewrite <- app_assoc. rewrite take_app_le by (rewrite length_le_encode; lia).
    apply take_ge. by rewrite length_le_encode. }
  change (wire_size TCPTunnelHeader) with 4%nat. rewrite Ht. cbn -[le_encode le_decode].
  unfold TCPTunnelHeader_from_bytes, fld. f_equal. rewrite arr_all by (by rewrite length_le_encode).
  apply le_decode_encode. pose proof (len_nonneg t). lia.
Qed.

(** One look at the buffer: a whole frame is cut off, and otherwise something
    is missing of the first one. *)
Lemma next_packet_reads max rest ts r :
  reads max rest ts r ->
  (next_packet r = Ret (r, None) /\ short ts r) \/
  exists t ts' r', ts = t :: ts' /\ next_packet r = Ret (r', Some (Some (Ok (framed_packet t)))) /\
    reads max rest ts' r' /\ fr_stream r' = fr_stream r.
Proof using Hbm.
  intros (E & Hts & H0 & Hmax & Herr & Hcap). unfold next_packet. rewrite Herr. unfold extract_one_packet.
  change TCP_TUNNEL_HEADER_SIZE with 4. change PEER_MANAGER_HEADER_SIZE with 16.
  destruct ts as [|t ts]; cbn [map concat] in E.
  { left. apply app_eq_nil in E as [E _]. rewrite E. by split. }
  inversion Hts as [|? ? (H16 & Hfit & Hlen) Hts']; subst.
  destruct (len (fr_buf r) <? 4) eqn:E4; bools.
  { left. split; [done|]. pose proof (len_nonneg t). cbn. lia. }
  rewrite (frame_header t _ _ _ E) by lia. cbn [unwrap mbind comp_bind tcp_len].
  rewrite (proj2 (Z.ltb_ge (fr_max_packet_size r) (len t))) by lia. rewrite (proj2 (Z.ltb_ge (len t) 16)) by lia.
  destruct (len (fr_buf r) <? 4 + len t) eqn:Ef; bools; [left; by split|]. cbn [mbind comp_bind].
  destruct (frame_prefix t _ _ _ E) as [Htake Hdrop]; [lia|]. right. rewrite Htake.
  exists t, ts. eexists. split_and!; [done|done| |done]. split_and!; [exact Hdrop|done|done|done|done|].
  cbn [with_read fr_buf fr_capacity].
  pose proof (bm_split_to_ge (fr_capacity r) (len (fr_buf r))
    (len (fr_buf r) - len (drop (Z.to_nat (4 + len t)) (fr_buf r))) Hcap). lia.
Qed.

Lemma reserve_room max rest ts r :
  reads max rest ts r -> short ts r -> ts <> [] ->
  len (fr_buf r) < reserve_buf (fr_buf r) (fr_capacity r) (fr_max_packet_size r) (fr_max_packet_size r * 2).
Proof using Hbm.
  intros (_ & Hts & _ & Hmax & _ & Hcap) Hlt Hne. destruct ts as [|t ts]; [done|].
  inversion Hts as [|? ? (H16 & Hfit & Hlen) Hts']; subst. unfold reserve_buf.
  cbn in Hlt. destruct (_ <? _) eqn:E; bools; [|lia].
  pose proof (bm_reserve_ge (fr_capacity r) (len (fr_buf r)) (fr_max_packet_size r * 2)). lia.
Qed.

Lemma reserve_keeps max rest ts r :
  reads max rest ts r ->
  let c := reserve_buf (fr_buf r) (fr_capacity r) (fr_max_packet_size r) (fr_max_packet_size r * 2) in
  reads max rest ts (with_read r (fr_stream r) (fr_buf r) c false).
Proof using Hbm.
  intros (? & ? & ? & ? & ? & ?) c. split_and!; try done. cbn. subst c. unfold reserve_buf.
  destruct (_ <? _); [|done].
  pose proof (bm_reserve_ge (fr_capacity r) (len (fr_buf r)) (fr_max_packet_size r * 2)). lia.
Qed.

Lemma read_keeps max rest ts r k c :
  reads max rest ts r -> len (fr_buf r) + Z.of_nat k <= c ->
  reads max rest ts (with_read r (drop k (fr_stream r)) (fr_buf r ++ take k (fr_stream r)) c false).
Proof using.
  intros (E & ? & ? & ? & ? & ?) Hk. split_and!; try done; cbn.
  - rewrite <- app_assoc, (app_assoc (take k _)), take_drop. exact E.
  - rewrite len_app. unfold_len. rewrite length_take. lia.
Qed.

Lemma poll_next_reads max rest ts evs : forall r,
  Forall open_ev evs -> reads max rest ts r ->
  exists r' evs' out, poll_next r evs = Ret (r', evs', out) /\
    (length evs' <= length evs)%nat /\ Forall open_ev evs' /\
    (length (fr_stream r') + chunks evs <= length (fr_stream r) + chunks evs' \/ fr_stream r' = [])%nat /\
    ((out = Pending /\ reads max rest ts r' /\ short ts r' /\ (evs <> [] -> length evs' < length evs)%nat) \/
     exists t ts', ts = t :: ts' /\ out = Ready (Some (Ok (framed_packet t))) /\ reads max rest ts' r').
Proof using Hbm.
  induction evs as [|e evs IH]; intros r Hev Hr; cbn [poll_next];
    (destruct (next_packet_reads max rest ts r Hr) as [[-> Hs]|(t & ts' & r' & -> & -> & Hr' & Hst)];
     cbn [mbind comp_bind]; [|eexists _, _, _; split; [done|]; split_and!; [done|done|left; rewrite Hst; lia|];
       right; by eexists _, _]);
    pose proof (reserve_keeps max rest ts r Hr) as Hk; cbv zeta in Hk |- *;
    set (r1 := with_read r _ _ _ _) in Hk |- *.
  - eexists _, _, _. split; [done|]. split_and!; [done|done|left; cbn; lia|]. left. by split_and!.
  - apply Forall_cons in Hev as [He Hev].
    assert (forall ev, chunks (ev :: evs) = ((if is_chunk ev then 1 else 0) + chunks evs)%nat) as Hch.
    { intros ev. unfold chunks. rewrite filter_cons. by destruct ev; case_decide. }
    destruct e as [|n| |]; [|..|by destruct He|by destruct He].
    + eexists _, _, _. split; [done|]. split_and!; [cbn; lia|done|left; rewrite Hch; cbn; lia|].
      left. split_and!; [done..|]. cbn. lia.
    + change (fr_stream r1) with (fr_stream r). destruct (fr_stream r) as [|b st] eqn:Est.
      { eexists _, _, _. split; [done|]. split_and!; [cbn; lia|done|right; done|].
        left. split_and!; [done..|]. cbn. lia. }
      assert (ts <> []) as Hne.
      { intros ->. destruct Hr as (E & _). cbn in E. apply app_eq_nil in E as [_ E]. by rewrite Est in E. }
      pose proof (reserve_room max rest ts r Hr Hs Hne) as Hroom.
      change (fr_buf r1) with (fr_buf r). set (c := reserve_buf _ _ _ _) in *.
      rewrite (proj2 (Z.eqb_neq (c - len (fr_buf r)) 0)) by lia.
      set (k := Z.to_nat (Z.min (Z.pos n) (c - len (fr_buf r)))).
      assert (reads max rest ts (with_read r1 (drop k (b :: st)) (fr_buf r ++ take k (b :: st)) c false)) as Hr2.
      { apply (read_keeps max rest ts r1 k c Hk). change (fr_buf r1) with (fr_buf r). lia. }
      destruct (IH _ Hev Hr2) as (r' & evs' & out & -> & Hle & Hop & Hst & Hout).
      exists r', evs', out. split; [done|]. split_and!; [cbn; lia|done| |].
      * destruct Hst as [Hst|Hst]; [left|by right]. rewrite Hch. cbn [is_chunk]. cbn [fr_stream with_read] in Hst.
        rewrite length_drop in Hst. cbn [length] in *. lia.
      * destruct Hout as [(-> & ? & ? & ?)|Hout]; [left|by right]. split_and!; [done..|]. cbn. lia.
Qed.

Lemma short_empty max ts r : reads max [] ts r -> short ts r -> fr_stream r = [] -> ts = [].
Proof using.
  intros (E & _) Hs Hst. rewrite Hst, !app_nil_r in E. destruct ts as [|t ts]; [done|]. cbn [map concat] in E.
  unfold short in Hs. rewrite E, len_app, length_frame in Hs. pose proof (len_nonneg (concat (map frame ts))). lia.
Qed.

Lemma reader_run_reads max rest fuel : forall ts evs r,
  Forall open_ev evs -> reads max rest ts r -> (length evs + length ts < fuel)%nat ->
  exists k r', reader_run fuel r evs = Ret (map (Ok ∘ framed_packet) (take k ts), r') /\
    (k <= length ts)%nat /\
    (rest = [] -> (length (fr_stream r) <= chunks evs)%nat -> k = length ts).
Proof using Hbm.
  induction fuel as [|fuel IH]; intros ts evs r Hev Hr Hf; [lia|]. cbn [reader_run].
  destruct (poll_next_reads max rest ts evs r Hev Hr) as (r1 & evs1 & out & -> & Hle & Hop & Hst & Hout).
  cbn [mbind comp_bind]. destruct Hout as [(-> & Hr1 & Hs1 & Hlt)|(t & ts' & -> & -> & Hr1)].
  - destruct evs1 as [|e1 evs1].
    + exists O, r1. split; [done|]. split; [lia|]. intros -> Hc.
      assert (fr_stream r1 = []) as E1.
      { destruct Hst as [Hst|Hst]; [|done]. cbn in Hst. apply length_zero_iff_nil. lia. }
      by rewrite (short_empty max ts r1 Hr1 Hs1 E1).
    + destruct evs as [|e evs]; [cbn in Hle; lia|].
      destruct (IH ts (e1 :: evs1) r1 Hop Hr1) as (k & r' & -> & Hk & Hall);
        [specialize (Hlt ltac:(done)); lia|].
      exists k, r'. split_and!; [done|done|]. intros -> Hc. apply Hall; [done|].
      destruct Hst as [Hst|Hst]; [lia|]. rewrite Hst. cbn. lia.
  - destruct (IH ts' evs1 r1 Hop Hr1) as (k & r' & -> & Hk & Hall); [cbn in Hf; lia|].
    exists (S k), r'. cbn. split_and!; [done|lia|]. intros -> Hc. f_equal. apply Hall; [done|].
    destruct Hst as [Hst|Hst]; [lia|]. rewrite Hst. cbn. lia.
Qed.
End reading.

(** ** Theorem *)

(** C17. What is written is read.  However the user of a writer mixes sending,
    flushing and waiting, and whatever parts of the queue the transport takes,
    sending never fails on packets that hold their headers; and a reader of the
    written bytes, however they are cut into reads, returns the first packets
    sent, in order and byte for byte from the peer-manager header on, none
    twice - all of them, once the queue is empty and the bytes are read.  The
    packets must be four bytes shorter than the reader's limit. *)
Theorem framed_stream_delivers `{bm : BytesMutLib, !BytesMutLaws bm} (g : nat -> Z) (vectored : bool)
    (max : Z) (ops : list WriterOp) (ts : list (list Z)) :
  0 <= max -> Forall (fits max) ts ->
  Forall2 (fun p t => has_header p /\ tunnel_payload p = Ret t) (sent ops) ts ->
  exists w, writer_run g vectored {| fw_written := []; sending_bufs := [] |} ops = Ret w /\
    forall evs fuel, Forall open_ev evs -> (length evs + length ts < fuel)%nat ->
    exists k ps r, reader_run fuel (FramedReader_new (fw_written w) max) evs = Ret (map Ok ps, r) /\
      Forall2 (fun p t => packet_type p = TCP /\ tunnel_payload p = Ret t) ps (take k ts) /\
      (send_remaining (sending_bufs w) = 0 -> (length (fw_written w) <= chunks evs)%nat ->
       k = length ts).
Proof.
  intros Hmax Hfit Hsent.
  destruct (writer_run_moves g vectored ts ops {| fw_written := []; sending_bufs := [] |})
    as (w & Hw & Hbytes).
  { clear -Hfit Hsent. induction Hsent as [|p t ps ts [Hh Ht] _ IH]; [constructor|].
    apply Forall_cons in Hfit as [(_ & _ & ?) Hfit]. constructor; [done|by apply IH]. }
  exists w. split; [done|]. intros evs fuel Hev Hf. cbn in Hbytes.
  destruct (reader_run_reads max (concat (sending_bufs w)) fuel ts evs (FramedReader_new (fw_written w) max))
    as (k & r & Hrun & Hk & Hall); [done| |done|].
  { split_and!; [exact Hbytes|done|done|done|done|]. change (0 <= bm_with_capacity max). pose proof (bm_with_capacity_ge max). lia. }
  exists k, (map framed_packet (take k ts)), r. split_and!.
  - by rewrite Hrun, map_map.
  - clear. induction (take k ts) as [|t l IH]; cbn [map]; constructor; [|done]. split; [done|].
    unfold tunnel_payload, framed_packet, new_from_buf. cbn [inner packet_type].
    change (peer_manager_header_offset _) with 4. pose proof (length_frame t). pose proof (len_nonneg t).
    by rewrite slice_from_in by lia.
  - intros Hrem Hc. apply Hall; [|done]. unfold send_remaining in Hrem. apply length_zero_iff_nil. unfold_len. lia.
Qed.

(** A buffer that gets exactly the room it asks for. *)
Definition exact_bytes : BytesMutLib :=
  {| bm_with_capacity n := n; bm_reserve _ n add := n + add; bm_split_to cap _ at_ := cap - at_ |}.
Definition exact_bytes_laws : BytesMutLaws exact_bytes.
Proof. constructor; cbn; intros; lia. Qed.

Definition two_sends : list WriterOp :=
  [OpSend sample_packet; OpFlush (Ready (Ok tt)) [WriteSome 7; WritePending];
   OpSend sample_packet; OpFlush (Ready (Ok tt)) [WriteSome 9; WriteSome 1000]].

(** Two packets, written in three parts and read byte by byte. *)
Lemma framed_stream_delivers_witness :
  exists w ps r, writer_run (fun _ => 0) true {| fw_written := []; sending_bufs := [] |} two_sends = Ret w /\
    @reader_run exact_bytes 200 (@FramedReader_new exact_bytes (fw_written w) 100)
      (replicate 60 (ReadChunk 1)) = Ret (map Ok ps, r) /\ length ps = 2%nat.
Proof.
  destruct (tunnel_payload sample_packet) as [t|] eqn:Et; [|discriminate].
  destruct (@framed_stream_delivers exact_bytes exact_bytes_laws (fun _ => 0) true 100 two_sends [t; t])
    as (w & Hw & Hread).
  - lia.
  - vm_compute in Et. injection Et as <-. repeat constructor; vm_compute; congruence.
  - repeat constructor; try done; vm_compute; congruence.
  - exists w. destruct (Hread (replicate 60 (ReadChunk 1)) 200%nat) as (k & ps & r & Hr & Hps & Hk).
    + apply Forall_replicate. by split.
    + cbn. lia.
    + exists ps, r. split_and!; [done|done|].
      rewrite (Forall2_length _ _ _ Hps), Hk; [done| |]; vm_compute in Hw; injection Hw as <-; vm_compute; [done|lia].
Defined.

(** A packet that is exactly as long as the reader's limit allows ends the
    stream: when the read has filled the buffer, whose capacity is the limit,
    the next read has no room and its zero bytes count as the end. *)
Lemma longest_packet_ends_stream :
  exists r, @poll_next exact_bytes (@FramedReader_new exact_bytes (frame (repeat 0 40)) 40)
    [ReadChunk 100; ReadChunk 100] = Ret (r, [], Ready None).
Proof. eexists. vm_compute. reflexivity. Qed.
