(* ===== verification/IpReassembler.v ===== *)
(** IPv4 fragments: [gateway/proxy/ip_reassembler.rs].

    [compose_ipv4_packet] cuts a payload into packets, writing each header in
    place over the payload bytes already sent; [IpReassembler] collects the
    fragments of a packet by addresses and identification.  The accessors of
    [smoltcp::wire::Ipv4Packet] are the class [Ipv4Lib].  Sixteen-bit additions
    wrap, as they do in a release build. *)

From stdpp Require Import list gmap sorting.
From S2P Require Import Prelude.
Local Open Scope Z_scope.

(** ** The header accessors *)

Inductive ip_field :=
  | Version | HeaderLen | Dscp | Ecn | TotalLen | Ident | DontFrag | MoreFrags | FragOffset
  | HopLimit | NextHeader | SrcAddr | DstAddr.
#[export] Instance ip_field_eq_dec : EqDecision ip_field.
Proof. solve_decision. Defined.

(** Getters and setters on the bytes of a packet; flags are 0 or 1. *)
Class Ipv4Lib := {
  ip_get : ip_field -> list Z -> Z;
  ip_set : ip_field -> Z -> list Z -> list Z;
  ip_clear_flags : list Z -> list Z;
  ip_fill_checksum : list Z -> list Z }.

Definition IPV4_HEADER_LEN : Z := 20.

(** The value a getter returns after the setter: the header length is kept in
    words, the offset in units of eight bytes. *)
Definition field_width (f : ip_field) : Z :=
  match f with
  | Version => 4 | HeaderLen => 6 | Dscp => 6 | Ecn => 2 | TotalLen => 16 | Ident => 16
  | DontFrag => 1 | MoreFrags => 1 | FragOffset => 16 | HopLimit => 8 | NextHeader => 8
  | SrcAddr => 32 | DstAddr => 32
  end.
Definition field_unit (f : ip_field) : Z :=
  match f with HeaderLen => 4 | FragOffset => 8 | _ => 1 end.
Definition is_flag (f : ip_field) : bool :=
  match f with DontFrag | MoreFrags => true | _ => false end.

Class Ipv4Laws (ip : Ipv4Lib) := {
  ip_set_len f v b : IPV4_HEADER_LEN <= len b -> length (ip_set f v b) = length b;
  ip_set_payload f v b : IPV4_HEADER_LEN <= len b -> drop 20 (ip_set f v b) = drop 20 b;
  ip_get_set f v b : IPV4_HEADER_LEN <= len b -> in_range (field_width f) v ->
    ip_get f (ip_set f v b) = v / field_unit f * field_unit f;
  ip_get_set_ne f g v b : IPV4_HEADER_LEN <= len b -> f <> g -> ip_get g (ip_set f v b) = ip_get g b;
  ip_clear_len b : IPV4_HEADER_LEN <= len b -> length (ip_clear_flags b) = length b;
  ip_clear_payload b : IPV4_HEADER_LEN <= len b -> drop 20 (ip_clear_flags b) = drop 20 b;
  ip_get_clear f b : IPV4_HEADER_LEN <= len b ->
    ip_get f (ip_clear_flags b) = if is_flag f then 0 else ip_get f b;
  ip_fill_len b : IPV4_HEADER_LEN <= len b -> length (ip_fill_checksum b) = length b;
  ip_fill_payload b : IPV4_HEADER_LEN <= len b -> drop 20 (ip_fill_checksum b) = drop 20 b;
  ip_get_fill f b : IPV4_HEADER_LEN <= len b -> ip_get f (ip_fill_checksum b) = ip_get f b }.

(** [payload()]: the bytes between the header and the total length. *)
Definition ip_payload `{Ipv4Lib} (b : list Z) : comp (list Z) :=
  slice (ip_get HeaderLen b) (ip_get TotalLen b) b.

(** ** One packet *)

Record IpFragment := { frag_offset : Z; frag_data : list Z }.
Record IpPacket := { total_length : option Z; fragments : list IpFragment }.
Definition IpPacket_new : IpPacket := {| total_length := None; fragments := [] |}.

Definition frag_end (f : IpFragment) : Z := wrap 16 (frag_offset f + wrap 16 (len (frag_data f))).
Definition overlaps (existing fragment : IpFragment) : bool :=
  (frag_offset existing <=? frag_offset fragment) && (frag_offset fragment <? frag_end existing) ||
  (frag_offset fragment <=? frag_offset existing) && (frag_offset existing <? frag_end fragment).

Definition packet_add_fragment (p : IpPacket) (f : IpFragment) : IpPacket :=
  if existsb (fun e => overlaps e f) (fragments p) then p
  else {| total_length := total_length p; fragments := fragments p ++ [f] |}.

Definition set_total_length (p : IpPacket) (n : Z) : IpPacket :=
  {| total_length := Some n; fragments := fragments p |}.

(** [sort_by_key], which is stable. *)
Fixpoint insert_fragment (f : IpFragment) (l : list IpFragment) : list IpFragment :=
  match l with
  | [] => [f]
  | e :: l => if frag_offset f <=? frag_offset e then f :: e :: l else e :: insert_fragment f l
  end.
Definition sort_fragments (l : list IpFragment) : list IpFragment := foldr insert_fragment [] l.

Fixpoint assemble_loop (l : list IpFragment) (offset : Z) (ret : list Z) : option (Z * list Z) :=
  match l with
  | [] => Some (offset, ret)
  | f :: l =>
    if negb (frag_offset f =? offset) then None
    else assemble_loop l (wrap 16 (offset + wrap 16 (len (frag_data f)))) (ret ++ frag_data f)
  end.

Definition assemble (p : IpPacket) : IpPacket * option (list Z) :=
  match total_length p with
  | None => (p, None)
  | Some n =>
    let p := {| total_length := Some n; fragments := sort_fragments (fragments p) |} in
    (p, '(offset, ret) ← assemble_loop (fragments p) 0 []; if offset =? n then Some ret else None)
  end.

(** ** All packets *)

Record IpReassemblerValue := { rv_packet : IpPacket; rv_timestamp : Z }.
Record IpReassembler := {
  ip_packets : gmap (Z * Z * Z) IpReassemblerValue; ip_timeout : Z }.
Definition IpReassembler_new (timeout : Z) : IpReassembler :=
  {| ip_packets := ∅; ip_timeout := timeout |}.

Section reassembler.
Context {ip : Ipv4Lib}.

Definition is_packet_fragmented (b : list Z) : bool :=
  negb (ip_get FragOffset b =? 0) || negb (ip_get MoreFrags b =? 0).
Definition is_last_fragment (b : list Z) : bool := ip_get MoreFrags b =? 0.
Definition reassembler_key (b : list Z) : Z * Z * Z :=
  (ip_get SrcAddr b, ip_get DstAddr b, ip_get Ident b).

Definition add_fragment (r : IpReassembler) (b : list Z) (now : Z)
    : comp (IpReassembler * option (list Z)) :=
  let total := wrap 16 (ip_get TotalLen b - ip_get HeaderLen b) in
  pl ← ip_payload b;
  if negb (total =? wrap 16 (len pl)) then Ret (r, None) else
  let key := reassembler_key b in
  let fragment := {| frag_offset := ip_get FragOffset b; frag_data := pl |} in
  let packet := match ip_packets r !! key with Some v => rv_packet v | None => IpPacket_new end in
  let packet := if is_last_fragment b
                then set_total_length packet (wrap 16 (total + frag_offset fragment)) else packet in
  match assemble (packet_add_fragment packet fragment) with
  | (_, Some data) =>
    Ret ({| ip_packets := delete key (ip_packets r); ip_timeout := ip_timeout r |}, Some data)
  | (packet, None) =>
    Ret ({| ip_packets := <[key := {| rv_packet := packet; rv_timestamp := now |}]> (ip_packets r);
            ip_timeout := ip_timeout r |}, None)
  end.

Definition remove_expired_packets (r : IpReassembler) (now : Z) : IpReassembler :=
  {| ip_packets := filter (fun kv => (now - rv_timestamp kv.2 <=? ip_timeout r) = true) (ip_packets r);
     ip_timeout := ip_timeout r |}.

(** A run of the proxy: packets that arrive and sweeps of the expiry task; the
    datagrams handed on, each with its key. *)
Inductive ReassemblyEv := Arrive (b : list Z) (now : Z) | Sweep (now : Z).
Definition ev_time (e : ReassemblyEv) : Z := match e with Arrive _ now | Sweep now => now end.
Definition arrivals (evs : list ReassemblyEv) : list (list Z) :=
  omap (fun e => match e with Arrive b _ => Some b | Sweep _ => None end) evs.

Fixpoint run_feed (r : IpReassembler) (evs : list ReassemblyEv)
    : comp (IpReassembler * list (Z * Z * Z * list Z)) :=
  match evs with
  | [] => Ret (r, [])
  | Sweep now :: evs => run_feed (remove_expired_packets r now) evs
  | Arrive b now :: evs =>
    '(r, o) ← add_fragment r b now;
    '(r, outs) ← run_feed r evs;
    Ret (r, match o with Some data => (reassembler_key b, data) :: outs | None => outs end)
  end.

(** ** Composing *)

Record ComposeIpv4PacketArgs := {
  src_v4 : Z; dst_v4 : Z; next_protocol : Z; c_payload_len : Z; c_payload_mtu : Z; ip_id : Z }.

(** The header written into the slice of one fragment. *)
Definition compose_header (a : ComposeIpv4PacketArgs)
    (packet_len total_pieces cur_piece fragment_offset : Z) (b : list Z) : list Z :=
  let b := ip_set Version 4 b in
  let b := ip_set HeaderLen IPV4_HEADER_LEN b in
  let b := ip_set TotalLen (wrap 16 packet_len) b in
  let b := ip_set Ident (ip_id a) b in
  let b := ip_clear_flags b in
  let b := if 1 <? total_pieces
           then ip_set FragOffset (wrap 16 fragment_offset)
                  (ip_set MoreFrags (if cur_piece =? total_pieces - 1 then 0 else 1) b)
           else ip_set FragOffset 0 (ip_set DontFrag 1 b) in
  let b := ip_set Dscp 0 b in
  let b := ip_set Ecn 0 b in
  let b := ip_set HopLimit 32 b in
  let b := ip_set SrcAddr (src_v4 a) b in
  let b := ip_set DstAddr (dst_v4 a) b in
  let b := ip_set NextHeader (next_protocol a) b in
  ip_fill_checksum b.

(** The loop; [cb] is the callback, [out] what it has been given. *)
Fixpoint compose_loop {E} (cb : list Z -> result E unit) (a : ComposeIpv4PacketArgs) (total_pieces : Z)
    (fuel : nat) (buf : list Z) (buf_offset fragment_offset cur_piece : Z) (out : list (list Z))
    : option (comp (list Z * list (list Z) * result E unit)) :=
  if c_payload_len a <=? fragment_offset then Some (Ret (buf, out, Ok tt)) else
  match fuel with
  | O => None
  | S fuel =>
    let next := Z.min (fragment_offset + c_payload_mtu a) (c_payload_len a) in
    let packet_len := next - fragment_offset + IPV4_HEADER_LEN in
    match slice buf_offset (buf_offset + packet_len) buf with
    | Panic => Some Panic
    | Ret b =>
      let b := compose_header a packet_len total_pieces cur_piece fragment_offset b in
      let buf := overwrite buf_offset b buf in
      match cb b with
      | Err e => Some (Ret (buf, out ++ [b], Err e))
      | Ok _ => compose_loop cb a total_pieces fuel buf (buf_offset + (next - fragment_offset)) next
                  (cur_piece + 1) (out ++ [b])
      end
    end
  end.

(** [div_ceil] panics on a zero divisor; each round advances at least one byte. *)
Definition compose_ipv4_packet {E} (cb : list Z -> result E unit) (a : ComposeIpv4PacketArgs)
    (buf : list Z) : option (comp (list Z * list (list Z) * result E unit)) :=
  if c_payload_mtu a =? 0 then Some Panic else
  let total_pieces := (c_payload_len a + c_payload_mtu a - 1) / c_payload_mtu a in
  compose_loop cb a total_pieces (Z.to_nat (c_payload_len a)) buf 0 0 0 [].
End reassembler.

(** ** Lemmas: one packet in pieces *)

Lemma insert_fragment_perm f l : insert_fragment f l ≡ₚ f :: l.
Proof.
  induction l as [|e l IH]; cbn; [done|]. destruct (_ <=? _); [done|].
  rewrite IH. apply Permutation_swap.
Qed.
Lemma sort_fragments_perm l : sort_fragments l ≡ₚ l.
Proof. induction l as [|f l IH]; cbn; [done|]. by rewrite insert_fragment_perm, IH. Qed.

Definition before (a b : IpFragment) : Prop := frag_offset a <= frag_offset b.
Lemma insert_fragment_sorted f l : StronglySorted before l -> StronglySorted before (insert_fragment f l).
Proof.
  induction 1 as [|e l Hs IH Hf]; cbn; [repeat constructor|].
  destruct (_ <=? _) eqn:E; bools.
  - constructor; [by constructor|]. constructor; [done|].
    eapply Forall_impl; [exact Hf|]. unfold before. intros x Hx. lia.
  - constructor; [done|]. rewrite insert_fragment_perm. constructor; [unfold before; lia|done].
Qed.
Lemma sort_fragments_sorted l : StronglySorted before (sort_fragments l).
Proof. induction l; cbn; [constructor|by apply insert_fragment_sorted]. Qed.

Lemma seq_sorted n : forall k, StronglySorted lt (seq k n).
Proof.
  induction n as [|n IH]; intros k; cbn; constructor; [done|].
  apply Forall_forall. intros j Hj. apply elem_of_seq in Hj. lia.
Qed.

Section pieces.
Context (P : list Z) (mtu : Z).
Hypothesis (Hmtu : 0 < mtu) (HP : 0 < len P < 65536).

Definition pieces : nat := Z.to_nat ((len P + mtu - 1) / mtu).
Definition off (i : nat) : Z := Z.min (Z.of_nat i * mtu) (len P).
Definition piece (i : nat) : IpFragment :=
  {| frag_offset := off i;
     frag_data := take (Z.to_nat (off (S i) - off i)) (drop (Z.to_nat (off i)) P) |}.

Lemma pieces_spec : (0 < pieces)%nat /\ (Z.of_nat pieces - 1) * mtu < len P <= Z.of_nat pieces * mtu.
Proof using Hmtu HP.
  unfold pieces. assert (0 < (len P + mtu - 1) / mtu) by (apply Z.div_str_pos; lia).
  rewrite Z2Nat.id by lia. split; [lia|].
  pose proof (Z.div_mod (len P + mtu - 1) mtu ltac:(lia)).
  pose proof (Z.mod_pos_bound (len P + mtu - 1) mtu ltac:(lia)). nia.
Qed.

Lemma off_lt i j : (i < j)%nat -> (i < pieces)%nat -> off i < off j.
Proof using Hmtu HP. pose proof pieces_spec. unfold off. intros. nia. Qed.
Lemma off_range i : 0 <= off i <= len P.
Proof using Hmtu HP. unfold off. nia. Qed.
Lemma off_end : off pieces = len P.
Proof using Hmtu HP. pose proof pieces_spec. unfold off. lia. Qed.
Lemma off_inj i j : (i <= pieces)%nat -> (j <= pieces)%nat -> off i = off j -> i = j.
Proof using Hmtu HP.
  intros Hi Hj E. destruct (decide (i < j)%nat) as [Hlt|]; [pose proof (off_lt i j Hlt ltac:(lia)); lia|].
  destruct (decide (j < i)%nat) as [Hlt|]; [pose proof (off_lt j i Hlt ltac:(lia)); lia|lia].
Qed.

Lemma piece_len i : (i < pieces)%nat -> len (frag_data (piece i)) = off (S i) - off i.
Proof using Hmtu HP.
  intros Hi. cbn. unfold len. rewrite length_take, length_drop. pose proof (off_lt i (S i) ltac:(lia) Hi).
  pose proof (off_range i). pose proof (off_range (S i)). unfold_len. lia.
Qed.
Lemma piece_end i : (i < pieces)%nat -> frag_end (piece i) = off (S i).
Proof using Hmtu HP.
  intros Hi. unfold frag_end. rewrite piece_len by done. cbn [frag_offset piece].
  pose proof (off_range i). pose proof (off_range (S i)). pose proof (off_lt i (S i) ltac:(lia) Hi).
  rewrite (wrap_small 16 (off (S i) - off i)) by (unfold in_range; lia).
  rewrite wrap_small by (unfold in_range; lia). lia.
Qed.
Lemma piece_overlaps i j : (i < pieces)%nat -> (j < pieces)%nat ->
  overlaps (piece i) (piece j) = bool_decide (i = j).
Proof using Hmtu HP.
  intros Hi Hj. unfold overlaps. rewrite !piece_end by done. cbn [frag_offset piece].
  case_bool_decide as E.
  - subst j. pose proof (off_lt i (S i) ltac:(lia) Hi). apply orb_true_iff. left.
    apply andb_true_iff. split; [apply Z.leb_le|apply Z.ltb_lt]; lia.
  - apply orb_false_iff. destruct (decide (i < j)%nat) as [Hlt|Hge].
    + assert (off (S i) <= off j).
      { destruct (decide (S i = j)) as [<-|]; [lia|]. pose proof (off_lt (S i) j ltac:(lia) ltac:(lia)). lia. }
      pose proof (off_lt i j Hlt Hi).
      split; apply andb_false_iff; [right; apply Z.ltb_ge|left; apply Z.leb_gt]; lia.
    + assert (off (S j) <= off i).
      { destruct (decide (S j = i)) as [<-|]; [lia|]. pose proof (off_lt (S j) i ltac:(lia) ltac:(lia)). lia. }
      pose proof (off_lt j i ltac:(lia) Hj).
      split; apply andb_false_iff; [left; apply Z.leb_gt|right; apply Z.ltb_ge]; lia.
Qed.

(** The fragments received so far are the pieces [ks], each once. *)
Lemma add_piece t ks i : Forall (fun j => j < pieces)%nat ks -> (i < pieces)%nat ->
  packet_add_fragment {| total_length := t; fragments := map piece ks |} (piece i) =
  {| total_length := t; fragments := map piece (if bool_decide (i ∈ ks) then ks else ks ++ [i]) |}.
Proof using Hmtu HP.
  intros His Hi. unfold packet_add_fragment. cbn [fragments total_length].
  assert (existsb (fun e => overlaps e (piece i)) (map piece ks) = bool_decide (i ∈ ks)) as ->.
  { induction His as [|j ks Hj _ IH]; cbn [map existsb].
    { symmetry. apply bool_decide_eq_false_2, not_elem_of_nil. }
    rewrite IH, piece_overlaps by done. apply eq_true_iff_eq.
    rewrite orb_true_iff, !bool_decide_eq_true, elem_of_cons.
    split; intros [E|E]; [by left|by right|by left|by right]. }
  destruct (bool_decide (i ∈ ks)); [done|]. by rewrite map_app.
Qed.

Lemma loop_pieces ks : forall k acc, Forall (fun j => j < pieces)%nat ks -> (k <= pieces)%nat ->
  assemble_loop (map piece ks) (off k) acc =
  if bool_decide (ks = seq k (length ks))
  then Some (off (k + length ks), acc ++ concat (map (fun i => frag_data (piece i)) ks)) else None.
Proof using Hmtu HP.
  induction ks as [|j ks IH]; intros k acc Hks Hk; cbn [map assemble_loop].
  - rewrite bool_decide_eq_true_2 by done. cbn. by rewrite app_nil_r, Nat.add_0_r.
  - apply Forall_cons in Hks as [Hj Hks]. rewrite piece_len by done. cbn [frag_offset piece].
    destruct (decide (j = k)) as [->|Hne].
    + rewrite Z.eqb_refl. cbn [negb].
      pose proof (off_range k). pose proof (off_range (S k)). pose proof (off_lt k (S k) ltac:(lia) Hj).
      rewrite (wrap_small 16 (off (S k) - off k)) by (unfold in_range; lia).
      rewrite wrap_small by (unfold in_range; lia).
      replace (off k + (off (S k) - off k)) with (off (S k)) by lia.
      rewrite IH by (done || lia).
      cbn [length seq map concat]. rewrite <- Nat.add_succ_comm, <- app_assoc.
      replace (bool_decide (k :: ks = k :: seq (S k) (length ks))) with (bool_decide (ks = seq (S k) (length ks)))
        by (apply bool_decide_ext; split; congruence). done.
    + rewrite (proj2 (Z.eqb_neq _ _)) by (intros E; apply Hne, off_inj; [lia|lia|exact E]). cbn [negb].
      rewrite bool_decide_eq_false_2; [done|]. cbn. congruence.
Qed.

Lemma concat_pieces m : (m <= pieces)%nat ->
  concat (map (fun i => frag_data (piece i)) (seq 0 m)) = take (Z.to_nat (off m)) P.
Proof using Hmtu HP.
  induction m as [|m IH]; intros Hm; [by replace (off 0) with 0 by (unfold off; lia)|].
  rewrite seq_S, map_app, concat_app, IH by lia. cbn [map concat frag_data piece]. rewrite app_nil_r.
  pose proof (off_range m). pose proof (off_lt m (S m) ltac:(lia) ltac:(lia)).
  rewrite <- (take_drop (Z.to_nat (off m)) P) at 3.
  rewrite take_app. rewrite take_take. f_equal; [f_equal; lia|]. f_equal.
  rewrite length_take, Nat.add_0_l. pose proof (off_range (S m)). unfold_len. lia.
Qed.

(** Assembling yields the payload exactly when every piece is there. *)
Lemma assemble_pieces ks :
  NoDup ks -> Forall (fun j => j < pieces)%nat ks ->
  exists ks', ks' ≡ₚ ks /\ assemble {| total_length := Some (len P); fragments := map piece ks |} =
    ({| total_length := Some (len P); fragments := map piece ks' |},
     if decide (ks ≡ₚ seq 0 pieces) then Some P else None).
Proof using Hmtu HP.
  intros Hnd Hks. unfold assemble. cbn [total_length fragments].
  destruct (Permutation_map_inv _ _ (sort_fragments_perm (map piece ks))) as (ks' & Es & Hp).
  exists ks'. split; [by symmetry|]. rewrite Es.
  assert (Forall (fun j => j < pieces)%nat ks') as Hks' by (by rewrite <- Hp).
  assert (StronglySorted lt ks') as Hsorted.
  { pose proof (sort_fragments_sorted (map piece ks)) as Hs. rewrite Es in Hs.
    assert (NoDup ks') as Hnd' by (by rewrite <- Hp). clear -Hmtu HP Hs Hnd' Hks'.
    induction ks' as [|k ks' IH]; [constructor|]. cbn in Hs. inversion Hs as [|? ? Hs' Hf]; subst.
    apply NoDup_cons in Hnd' as [Hni Hnd']. apply Forall_cons in Hks' as [Hk Hks'].
    constructor; [by apply IH|]. apply Forall_forall. intros j Hj.
    rewrite Forall_map in Hf. rewrite Forall_forall in Hf. specialize (Hf j Hj). unfold before in Hf. cbn in Hf.
    destruct (decide (j = k)) as [->|]; [done|]. destruct (decide (j < k)%nat) as [Hlt|]; [|lia].
    rewrite Forall_forall in Hks'. pose proof (off_lt j k Hlt (Hks' j Hj)). lia. }
  replace 0 with (off 0) at 1 by (unfold off; lia).
  rewrite loop_pieces by (done || lia). cbn [app]. rewrite Nat.add_0_l.
  case_bool_decide as E.
  - cbn [mbind option_bind]. f_equal. case_decide as D.
    + assert (length ks' = pieces) as El by (by rewrite <- Hp, D, length_seq).
      rewrite El, off_end, Z.eqb_refl. f_equal. rewrite E, El, concat_pieces, off_end by done.
      apply take_ge. unfold_len. lia.
    + destruct (_ =? _) eqn:Eo; [|done]. bools. exfalso. apply D. rewrite Hp, E.
      assert (length ks' <= pieces)%nat as Hle.
      { clear -E Hks'. destruct (decide (length ks' <= pieces)%nat); [done|].
        assert (pieces ∈ ks') by (rewrite E; apply elem_of_seq; lia).
        rewrite Forall_forall in Hks'. specialize (Hks' pieces ltac:(done)). lia. }
      rewrite <- off_end in Eo. by rewrite (off_inj (length ks') pieces Hle (le_n _) Eo).
  - cbn [mbind option_bind]. f_equal. case_decide as D; [|done]. exfalso. apply E.
    rewrite Hp in D.
    assert (length ks' = pieces) as El by (by rewrite D, length_seq). rewrite El.
    apply (StronglySorted_unique_strong lt); [intros; lia|done|apply seq_sorted|done].
Qed.
End pieces.

(** ** Lemmas: composing *)

Section composing.
Context {ip : Ipv4Lib} {Hip : Ipv4Laws ip}.

Definition set_all (l : list (ip_field * Z)) (b : list Z) : list Z :=
  foldl (fun b fv => ip_set fv.1 fv.2 b) b l.
Definition field_eqb (f g : ip_field) : bool :=
  match f, g with
  | Version, Version | HeaderLen, HeaderLen | Dscp, Dscp | Ecn, Ecn | TotalLen, TotalLen
  | Ident, Ident | DontFrag, DontFrag | MoreFrags, MoreFrags | FragOffset, FragOffset
  | HopLimit, HopLimit | NextHeader, NextHeader | SrcAddr, SrcAddr | DstAddr, DstAddr => true
  | _, _ => false
  end.
Fixpoint last_value (g : ip_field) (l : list (ip_field * Z)) : option Z :=
  match l with
  | [] => None
  | (f, v) :: l =>
    match last_value g l with Some x => Some x | None => if field_eqb f g then Some v else None end
  end.

Lemma set_all_spec l : forall b, IPV4_HEADER_LEN <= len b ->
  length (set_all l b) = length b /\ drop 20 (set_all l b) = drop 20 b /\
  forall g, Forall (fun fv => in_range (field_width fv.1) fv.2) l ->
    ip_get g (set_all l b) =
    match last_value g l with Some v => v / field_unit g * field_unit g | None => ip_get g b end.
Proof using Hip.
  induction l as [|[f v] l IH]; intros b Hb; [done|]. cbn [set_all foldl last_value fst snd].
  assert (length (ip_set f v b) = length b) as El by (by apply ip_set_len).
  destruct (IH (ip_set f v b)) as (Hl & Hp & Hg); [unfold_len; by rewrite El|].
  split; [by rewrite <- El, <- Hl|]. split; [rewrite <- (ip_set_payload f v b) by done; exact Hp|].
  intros g Hr. apply Forall_cons in Hr as [Hv Hr]. etransitivity; [exact (Hg g Hr)|].
  destruct (last_value g l); [done|].
  destruct (field_eqb f g) eqn:E; [|apply ip_get_set_ne; [done|]; intros ->; by destruct g].
  assert (f = g) as -> by (by destruct f, g). by apply ip_get_set.
Qed.

(** The setters of [compose_header] in order. *)
Definition header_flags (total_pieces cur_piece fragment_offset : Z) : list (ip_field * Z) :=
  if 1 <? total_pieces
  then [(MoreFrags, if cur_piece =? total_pieces - 1 then 0 else 1); (FragOffset, wrap 16 fragment_offset)]
  else [(DontFrag, 1); (FragOffset, 0)].

Lemma compose_header_sets a n total cur o b :
  compose_header a n total cur o b =
  ip_fill_checksum (set_all (header_flags total cur o ++
    [(Dscp, 0); (Ecn, 0); (HopLimit, 32); (SrcAddr, src_v4 a); (DstAddr, dst_v4 a);
     (NextHeader, next_protocol a)])
    (ip_clear_flags (set_all [(Version, 4); (HeaderLen, IPV4_HEADER_LEN); (TotalLen, wrap 16 n);
                              (Ident, ip_id a)] b))).
Proof using. unfold compose_header, header_flags. by destruct (1 <? total). Qed.

Definition args_ok (a : ComposeIpv4PacketArgs) : Prop :=
  u32 (src_v4 a) /\ u32 (dst_v4 a) /\ u8 (next_protocol a) /\ u16 (ip_id a).

Lemma compose_header_spec a n total cur o b :
  args_ok a -> IPV4_HEADER_LEN <= len b ->
  let b' := compose_header a n total cur o b in
  length b' = length b /\ drop 20 b' = drop 20 b /\
  reassembler_key b' = (src_v4 a, dst_v4 a, ip_id a) /\ ip_get HeaderLen b' = 20 /\
  ip_get TotalLen b' = wrap 16 n /\
  ip_get FragOffset b' = (if 1 <? total then wrap 16 o / 8 * 8 else 0) /\
  ip_get MoreFrags b' = (if 1 <? total then if cur =? total - 1 then 0 else 1 else 0).
Proof using Hip.
  intros (Hs & Hd & Hn & Hi) Hb b'. subst b'. rewrite compose_header_sets.
  set (l1 := [(Version, 4); _; _; _]). set (l2 := header_flags total cur o ++ _).
  destruct (set_all_spec l1 b Hb) as (El1 & Ep1 & Eg1).
  assert (IPV4_HEADER_LEN <= len (set_all l1 b)) as Hb1 by (unfold_len; by rewrite El1).
  assert (IPV4_HEADER_LEN <= len (ip_clear_flags (set_all l1 b))) as Hbc
    by (unfold_len; by rewrite ip_clear_len by done).
  destruct (set_all_spec l2 (ip_clear_flags (set_all l1 b)) Hbc) as (El2 & Ep2 & Eg2).
  set (b2 := set_all l2 _) in *.
  assert (IPV4_HEADER_LEN <= len b2) as Hb2 by (unfold_len; by rewrite El2).
  assert (Forall (fun fv => in_range (field_width fv.1) fv.2) l1) as Hr1.
  { subst l1. repeat constructor; cbn; try done; try lia; try apply wrap_range; try apply Hi; lia. }
  assert (Forall (fun fv => in_range (field_width fv.1) fv.2) l2) as Hr2.
  { subst l2. apply Forall_app_2.
    - unfold header_flags. pose proof (wrap_range 16 o ltac:(lia)). destruct (1 <? total), (cur =? total - 1);
        repeat constructor; cbn [fst snd field_width]; try apply H; unfold in_range; lia.
    - repeat constructor; cbn [fst snd field_width]; try apply Hs; try apply Hd; try apply Hn; unfold in_range; lia. }
  split_and!.
  - rewrite ip_fill_len by done. rewrite El2, ip_clear_len by done. exact El1.
  - rewrite ip_fill_payload by done. rewrite Ep2, ip_clear_payload by done. exact Ep1.
  - unfold reassembler_key. rewrite !ip_get_fill, !Eg2, !ip_get_clear, !Eg1 by done.
    subst l1 l2. unfold header_flags. by destruct (1 <? total); cbn -[Z.div Z.mul wrap]; rewrite !Z.div_1_r, !Z.mul_1_r.
  - rewrite ip_get_fill, Eg2, ip_get_clear, Eg1 by done. subst l1 l2. unfold header_flags. by destruct (1 <? total).
  - rewrite ip_get_fill, Eg2, ip_get_clear, Eg1 by done. subst l1 l2. unfold header_flags.
    by destruct (1 <? total); cbn -[Z.div Z.mul wrap]; rewrite Z.div_1_r, Z.mul_1_r.
  - rewrite ip_get_fill, Eg2, ip_get_clear, Eg1 by done. subst l1 l2. unfold header_flags. by destruct (1 <? total).
  - rewrite ip_get_fill, Eg2, ip_get_clear, Eg1 by done. subst l1 l2. unfold header_flags.
    destruct (1 <? total); cbn; [|done]. by destruct (cur =? total - 1).
Qed.

Section payload.
Context (P : list Z) (a : ComposeIpv4PacketArgs).
Hypothesis (Ha : args_ok a) (HP : 0 < len P < 65536) (Hlen : c_payload_len a = len P).
Hypothesis (Hmtu : 0 < c_payload_mtu a < 65516) (H8 : c_payload_mtu a mod 8 = 0).
Let mtu := c_payload_mtu a.
Let n := pieces P mtu.
Let off := off P mtu.
Let piece := piece P mtu.
Let key := (src_v4 a, dst_v4 a, ip_id a).

Lemma mtu_range : 0 < mtu < 65516.
Proof using Hmtu. exact Hmtu. Qed.

(** The packet is the one that carries piece [i]. *)
Definition carries (b : list Z) (i : nat) : Prop :=
  reassembler_key b = key /\ ip_get FragOffset b = off i /\
  is_last_fragment b = bool_decide (S i = n) /\ ip_payload b = Ret (frag_data (piece i)) /\
  wrap 16 (ip_get TotalLen b - ip_get HeaderLen b) = len (frag_data (piece i)).

Lemma off_mul i : (i < n)%nat -> off i = Z.of_nat i * mtu /\ off (S i) = Z.min (off i + mtu) (len P).
Proof using HP Hmtu.
  intros Hi. pose proof (pieces_spec P mtu (proj1 mtu_range) HP). unfold off, IpReassembler.off.
  subst n. split; nia.
Qed.

Lemma header_carries i b :
  (i < n)%nat -> len b = off (S i) - off i + 20 -> drop 20 b = frag_data (piece i) ->
  carries (compose_header a (off (S i) - off i + IPV4_HEADER_LEN) (Z.of_nat n) (Z.of_nat i) (off i) b) i.
Proof using All.
  intros Hi Hb Hd. destruct (off_mul i Hi) as [Eo _].
  pose proof (off_lt P mtu (proj1 mtu_range) HP i (S i) ltac:(lia) Hi) as Hlt. fold off in Hlt.
  pose proof (off_range P mtu (proj1 mtu_range) HP i) as Hr. fold off in Hr.
  pose proof (off_range P mtu (proj1 mtu_range) HP (S i)) as Hr'. fold off in Hr'.
  assert (off (S i) - off i <= mtu) as Hle by (destruct (off_mul i Hi); lia).
  destruct (compose_header_spec a (off (S i) - off i + IPV4_HEADER_LEN) (Z.of_nat n) (Z.of_nat i) (off i) b Ha)
    as (El & Ep & Ek & Eh & Et & Ef & Em); [unfold IPV4_HEADER_LEN; lia|].
  set (b' := compose_header _ _ _ _ _ _) in *. unfold IPV4_HEADER_LEN in *.
  rewrite (wrap_small 16 (off (S i) - off i + 20)) in Et by (pose proof mtu_range; unfold in_range; lia).
  pose proof (piece_len P mtu (proj1 mtu_range) HP i Hi) as Hpl. fold piece off in Hpl.
  split_and!.
  - exact Ek.
  - rewrite Ef. destruct (1 <? Z.of_nat n) eqn:E; bools.
    + rewrite wrap_small by (unfold in_range; lia).
      assert (off i mod 8 = 0) as Hm.
      { rewrite Eo. change mtu with (c_payload_mtu a). rewrite Z.mul_mod, H8 by lia. by rewrite Z.mul_0_r. }
      pose proof (Z.div_mod (off i) 8 ltac:(lia)). lia.
    + replace i with O in * by lia. rewrite Eo. lia.
  - unfold is_last_fragment. rewrite Em. case_bool_decide as E.
    + rewrite (proj2 (Z.eqb_eq (Z.of_nat i) _)) by lia. by destruct (1 <? _).
    + rewrite (proj2 (Z.eqb_neq (Z.of_nat i) _)) by lia.
      destruct (1 <? Z.of_nat n) eqn:E1; bools; [done|lia].
  - unfold ip_payload. rewrite Eh, Et. rewrite slice_in by (unfold_len; lia).
    f_equal. change (Z.to_nat 20) with 20%nat. rewrite Ep, Hd. apply take_ge. unfold_len. lia.
  - rewrite Eh, Et, Hpl. rewrite wrap_small by (unfold in_range; lia). lia.
Qed.

Lemma loop_composes {E} (cb : list Z -> result E unit) (Hcb : forall b, cb b = Ok tt) fuel : forall i buf out,
  (i <= n)%nat -> (n - i <= fuel)%nat -> 20 + len P <= len buf ->
  take (Z.to_nat (len P - off i)) (drop (Z.to_nat (20 + off i)) buf) = drop (Z.to_nat (off i)) P ->
  exists buf' pkts, compose_loop cb a (Z.of_nat n) fuel buf (off i) (off i) (Z.of_nat i) out
      = Some (Ret (buf', out ++ pkts, Ok tt)) /\
    length pkts = (n - i)%nat /\ forall j b, pkts !! j = Some b -> carries b (i + j).
Proof using All.
  induction fuel as [|fuel IH]; intros i buf out Hi Hf Hbuf Hdrop; cbn [compose_loop]; rewrite Hlen.
  - replace i with n by lia. unfold off, n. rewrite (off_end P mtu (proj1 mtu_range) HP).
    rewrite Z.leb_refl. exists buf, []. rewrite app_nil_r, Nat.sub_diag. split_and!; [done|done|].
    intros j b. by rewrite lookup_nil.
  - destruct (decide (i = n)) as [->|Hne].
    { unfold off, n. rewrite (off_end P mtu (proj1 mtu_range) HP). rewrite Z.leb_refl.
      exists buf, []. rewrite app_nil_r, Nat.sub_diag. split_and!; [done|done|]. intros j b. by rewrite lookup_nil. }
    assert (i < n)%nat as Hin by lia. destruct (off_mul i Hin) as [Eo En]. fold mtu. rewrite <- En.
    pose proof (off_lt P mtu (proj1 mtu_range) HP i (S i) ltac:(lia) Hin) as Hlt. fold off in Hlt.
    pose proof (off_range P mtu (proj1 mtu_range) HP i) as Hr. fold off in Hr.
    pose proof (off_range P mtu (proj1 mtu_range) HP (S i)) as Hr'. fold off in Hr'.
    rewrite (proj2 (Z.leb_gt (len P) (off i))) by lia.
    set (L := off (S i) - off i + IPV4_HEADER_LEN).
    assert (L = off (S i) - off i + 20) as EL by done.
    rewrite slice_in by lia. set (b := take _ _).
    assert (len b = off (S i) - off i + 20) as Hb.
    { subst b. unfold_len. rewrite length_take, length_drop. lia. }
    assert (drop 20 b = frag_data (piece i)) as Hd.
    { subst b. change (frag_data (piece i)) with (take (Z.to_nat (off (S i) - off i)) (drop (Z.to_nat (off i)) P)).
      rewrite <- Hdrop. rewrite skipn_firstn_comm, drop_drop, take_take. f_equal; [lia|]. f_equal. lia. }
    pose proof (header_carries i b Hin Hb Hd) as Hc. fold L in Hc.
    destruct (compose_header_spec a L (Z.of_nat n) (Z.of_nat i) (off i) b Ha) as (El & _);
      [unfold IPV4_HEADER_LEN; lia|].
    set (b' := compose_header _ _ _ _ _ _) in *. rewrite Hcb.
    assert (len b' = L) as Hb' by (unfold_len; lia).
    destruct (IH (S i) (overwrite (off i) b' buf) (out ++ [b'])) as (buf' & pkts & Hrun & Hn & Hall).
    + lia.
    + lia.
    + unfold len. rewrite length_overwrite by lia. exact Hbuf.
    + rewrite overwrite_after by (unfold_len; lia).
      replace (Z.to_nat (20 + off (S i))) with (Z.to_nat (20 + off i) + Z.to_nat (off (S i) - off i))%nat by lia.
      replace (Z.to_nat (off (S i))) with (Z.to_nat (off i) + Z.to_nat (off (S i) - off i))%nat by lia.
      rewrite <- !drop_drop, <- Hdrop, skipn_firstn_comm. f_equal. lia.
    + exists buf', (b' :: pkts). replace (Z.of_nat i + 1) with (Z.of_nat (S i)) by lia.
      replace (off i + (off (S i) - off i)) with (off (S i)) by lia. rewrite Hrun, <- app_assoc.
      split_and!; [done|cbn; lia|]. intros [|j] x Hx; [injection Hx as <-; by rewrite Nat.add_0_r|].
      rewrite Nat.add_succ_r. by apply (Hall j).
Qed.

(** ** Lemmas: collecting *)

(** The pieces [js] have arrived, perhaps more than once. *)
Definition holds (r : IpReassembler) (js : list nat) : Prop :=
  exists ks, NoDup ks /\ (forall i, i ∈ ks <-> i ∈ js) /\
    match ip_packets r !! key with Some v => rv_packet v | None => IpPacket_new end =
    {| total_length := if decide (pred n ∈ js) then Some (len P) else None; fragments := map piece ks |}.

Definition complete (js : list nat) : Prop := Forall (fun i => i ∈ js) (seq 0 n).
#[local] Instance complete_dec js : Decision (complete js).
Proof using. unfold complete. apply _. Defined.

Lemma complete_spec js : complete js <-> forall i, (i < n)%nat -> i ∈ js.
Proof using. unfold complete. rewrite Forall_forall. split; intros H i Hi; apply H; [apply elem_of_seq; lia|].
  apply elem_of_seq in Hi. lia. Qed.

Lemma complete_perm ks js : NoDup ks -> Forall (fun j => j < n)%nat ks -> (forall i, i ∈ ks <-> i ∈ js) ->
  ks ≡ₚ seq 0 n <-> complete js.
Proof using.
  intros Hnd Hlt Hks. rewrite complete_spec. split.
  - intros Hp i Hi. apply Hks. rewrite Hp. apply elem_of_seq. lia.
  - intros Hc. apply NoDup_Permutation; [done|apply NoDup_seq|]. intros i. rewrite elem_of_seq. split.
    + intros Hi. rewrite Forall_forall in Hlt. specialize (Hlt i Hi). lia.
    + intros Hi. apply Hks, Hc. lia.
Qed.

Lemma add_once_spec ks js (i : nat) : NoDup ks -> (forall j, j ∈ ks <-> j ∈ js) ->
  let ks1 := if bool_decide (i ∈ ks) then ks else ks ++ [i] in
  NoDup ks1 /\ forall j, j ∈ ks1 <-> j ∈ js ++ [i].
Proof using.
  intros Hnd Hks ks1. unfold ks1. destruct (decide (i ∈ ks)) as [Hin|Hin].
  - rewrite bool_decide_eq_true_2 by done. split; [done|]. intros j.
    rewrite elem_of_app, list_elem_of_singleton, <- Hks. split; [by left|intros [?| ->]; done].
  - rewrite bool_decide_eq_false_2 by done. split.
    + apply NoDup_app. split_and!; [done| |apply NoDup_singleton].
      intros x Hx Hx'. apply list_elem_of_singleton in Hx' as ->. done.
    + intros j. by rewrite !elem_of_app, list_elem_of_singleton, <- Hks.
Qed.

(** Adding a packet with piece [i] yields the payload exactly when no piece is
    missing any more. *)
Lemma add_carried r js i b now :
  holds r js -> Forall (fun j => j < n)%nat js -> (i < n)%nat -> carries b i ->
  exists r', add_fragment r b now = Ret (r', if decide (complete (js ++ [i])) then Some P else None) /\
    (if decide (complete (js ++ [i])) then ip_packets r' !! key = None else holds r' (js ++ [i])).
Proof using All.
  intros (ks & Hnd & Hks & Hentry) Hjs Hi (Hkey & Hoff & Hlast & Hpl & Htot).
  pose proof (proj1 mtu_range) as Hm0. pose proof (piece_len P mtu Hm0 HP i Hi) as Hlen_i.
  pose proof (off_range P mtu Hm0 HP i) as Hri. pose proof (off_range P mtu Hm0 HP (S i)) as Hri'.
  fold off piece in Hlen_i, Hri, Hri'.
  unfold add_fragment. rewrite Hpl, Htot, Hkey, Hoff. cbn [mbind comp_bind].
  rewrite (wrap_small 16 (len (frag_data (piece i)))) by (unfold in_range; pose proof (len_nonneg (frag_data (piece i))); lia).
  rewrite Z.eqb_refl. cbn [negb]. rewrite Hentry, Hlast. cbn [frag_offset frag_data].
  change {| frag_offset := off i; frag_data := frag_data (piece i) |} with (piece i).
  assert (Forall (fun j => j < n)%nat ks) as Hksn.
  { apply Forall_forall. intros j Hj. rewrite Forall_forall in Hjs. by apply Hjs, Hks. }
  destruct (add_once_spec ks js i Hnd Hks) as [Hnd1 Hks1].
  set (ks1 := if bool_decide (i ∈ ks) then ks else ks ++ [i]) in *.
  assert (Forall (fun j => j < n)%nat ks1) as Hks1n.
  { apply Forall_forall. intros j Hj%Hks1. rewrite Forall_forall in Hjs.
    apply elem_of_app in Hj as [?| ->%list_elem_of_singleton]; [by apply Hjs|done]. }
  set (tl := if decide (pred n ∈ js ++ [i]) then Some (len P) else None).
  assert (packet_add_fragment
      (if bool_decide (S i = n) then set_total_length
         {| total_length := if decide (pred n ∈ js) then Some (len P) else None; fragments := map piece ks |}
         (wrap 16 (len (frag_data (piece i)) + off i))
       else {| total_length := if decide (pred n ∈ js) then Some (len P) else None; fragments := map piece ks |})
      (piece i) = {| total_length := tl; fragments := map piece ks1 |}) as ->.
  { assert (forall t, packet_add_fragment {| total_length := t; fragments := map piece ks |} (piece i) =
      {| total_length := t; fragments := map piece ks1 |}) as Hadd by (intros t; by apply add_piece).
    case_bool_decide as E.
    - unfold set_total_length. cbn [fragments]. rewrite Hadd. f_equal. subst tl.
      rewrite decide_True by (apply elem_of_app; right; apply list_elem_of_singleton; lia). f_equal.
      rewrite Hlen_i, E. unfold off at 1, n. rewrite (off_end P mtu Hm0 HP). rewrite wrap_small by (unfold in_range; lia). lia.
    - rewrite Hadd. f_equal. subst tl. apply decide_ext.
      rewrite elem_of_app, list_elem_of_singleton. split; [by left|intros [?|?]; [done|lia]]. }
  clear Hentry Hlast. subst tl. case_decide as Hd.
  - destruct (assemble_pieces P mtu Hm0 HP ks1 Hnd1 Hks1n) as (ks2 & Hp2 & Hasm). fold piece in Hasm. rewrite Hasm.
    case_decide as Hc; case_decide as Hc'.
    + eexists. split; [done|]. apply lookup_delete_eq.
    + exfalso. apply Hc'. by apply (complete_perm ks1).
    + exfalso. apply Hc. by apply (complete_perm ks1 (js ++ [i])).
    + eexists. split; [done|]. exists ks2. cbn [ip_packets]. rewrite lookup_insert_eq. cbn [rv_packet].
      split_and!; [by rewrite Hp2|intros j; rewrite Hp2; apply Hks1|]. by rewrite decide_True by done.
  - cbn [assemble total_length].
    rewrite (decide_False (P:=complete (js ++ [i]))) by (rewrite complete_spec; intros Hc; apply Hd, Hc; lia).
    eexists. split; [done|].
    rewrite (decide_False (P:=complete (js ++ [i]))) by (rewrite complete_spec; intros Hc; apply Hd, Hc; lia).
    exists ks1. cbn [ip_packets]. rewrite lookup_insert_eq. cbn [rv_packet].
    split_and!; [done..|]. by rewrite decide_False by done.
Qed.

(** ** Lemmas: a run *)

Lemma add_fragment_frame r b now r' o : add_fragment r b now = Ret (r', o) ->
  ip_timeout r' = ip_timeout r /\
  (forall k, k <> reassembler_key b -> ip_packets r' !! k = ip_packets r !! k) /\
  (forall v, ip_packets r' !! reassembler_key b = Some v ->
     rv_timestamp v = now \/ ip_packets r !! reassembler_key b = Some v).
Proof using.
  unfold add_fragment. destruct (ip_payload b) as [pl|]; [|done]. cbn [mbind comp_bind].
  destruct (negb _); [intros [= <- <-]; split_and!; try done; by right|].
  destruct (assemble _) as [p [data|]]; intros [= <- <-]; cbn [ip_timeout ip_packets]; split_and!; try done.
  - intros k Hk. by rewrite lookup_delete_ne by done.
  - intros v. by rewrite lookup_delete_eq.
  - intros k Hk. by rewrite lookup_insert_ne by done.
  - intros v. rewrite lookup_insert_eq. intros [= <-]. by left.
Qed.

Lemma add_fragment_total r b now : (exists pl, ip_payload b = Ret pl) ->
  exists r' o, add_fragment r b now = Ret (r', o).
Proof using.
  intros [pl E]. unfold add_fragment. rewrite E. cbn [mbind comp_bind].
  destruct (negb _); [eauto|]. destruct (assemble _) as [p [data|]]; eauto.
Qed.

Lemma sweep_keeps r now v : ip_packets r !! key = Some v -> now <= rv_timestamp v + ip_timeout r ->
  ip_packets (remove_expired_packets r now) !! key = Some v.
Proof using.
  intros Hv Hn. cbn [remove_expired_packets ip_packets]. apply map_lookup_filter_Some. split; [done|].
  cbn. apply Z.leb_le. clear -Hn. lia.
Qed.
Lemma sweep_none r now : ip_packets r !! key = None -> ip_packets (remove_expired_packets r now) !! key = None.
Proof using. intros Hv. cbn. apply map_lookup_filter_None. by left. Qed.

Context (pkts : list (list Z)) (t0 timeout : Z).
Hypothesis (Hcount : length pkts = n) (Hpkts : forall i b, pkts !! i = Some b -> carries b i).

(** Our packets and those of other datagrams, in a window of [timeout]. *)
Definition ev_ok (e : ReassemblyEv) : Prop :=
  t0 <= ev_time e <= t0 + timeout /\
  match e with
  | Arrive b _ => b ∈ pkts \/ (reassembler_key b <> key /\ exists pl, ip_payload b = Ret pl)
  | Sweep _ => True
  end.

Definition collected (r : IpReassembler) (js : list nat) : Prop :=
  holds r js /\ Forall (fun j => j < n)%nat js /\ ip_timeout r = timeout /\
  forall v, ip_packets r !! key = Some v -> t0 <= rv_timestamp v.

Lemma collected_sweep r js now : collected r js -> t0 <= now <= t0 + timeout ->
  collected (remove_expired_packets r now) js.
Proof using.
  intros (Hh & Hj & Ht & Hv) Hnow. unfold collected, holds in *.
  assert (ip_packets (remove_expired_packets r now) !! key = ip_packets r !! key) as ->.
  { destruct (ip_packets r !! key) as [v|] eqn:E; [|by apply sweep_none].
    apply sweep_keeps; [done|]. specialize (Hv v eq_refl). clear -Hv Hnow Ht. lia. }
  by split_and!.
Qed.

Lemma collected_other r js b now : collected r js -> reassembler_key b <> key ->
  (exists pl, ip_payload b = Ret pl) ->
  exists r' o, add_fragment r b now = Ret (r', o) /\ collected r' js.
Proof using.
  intros (Hh & Hj & Ht & Hv) Hk Hpl. destruct (add_fragment_total r b now Hpl) as (r' & o & E).
  destruct (add_fragment_frame r b now r' o E) as (Et & Ek & _). exists r', o. split; [done|].
  unfold collected, holds in *. rewrite Ek by congruence. split_and!; [done|done|congruence|done].
Qed.

Lemma collected_piece r js i b now : collected r js -> pkts !! i = Some b -> t0 <= now ->
  exists r', add_fragment r b now = Ret (r', if decide (complete (js ++ [i])) then Some P else None) /\
    if decide (complete (js ++ [i])) then ip_packets r' !! key = None else collected r' (js ++ [i]).
Proof using All.
  intros (Hh & Hj & Ht & Hv) Hb Hnow. pose proof (Hpkts i b Hb) as Hc.
  assert (i < n)%nat as Hi by (rewrite <- Hcount; by eapply lookup_lt_Some).
  destruct (add_carried r js i b now Hh Hj Hi Hc) as (r' & E & Hr'). exists r'. split; [done|].
  case_decide; [done|]. destruct (add_fragment_frame r b now r' _ E) as (Et & _ & Ets).
  destruct Hc as [Ekey _]. rewrite Ekey in Ets. fold key in Ets. unfold collected. split_and!; [done| |congruence|].
  - apply Forall_app_2; [done|]. by constructor.
  - intros v Hr. destruct (Ets v Hr) as [->|Hr0]; [done|by apply Hv].
Qed.

(** The pieces among the packets that arrived. *)
Definition indices (js : list nat) (bs : list (list Z)) : Prop :=
  forall i b, pkts !! i = Some b -> i ∈ js <-> b ∈ bs.

Lemma pkts_inj i j b : pkts !! i = Some b -> pkts !! j = Some b -> i = j.
Proof using All.
  intros Hi Hj. assert (i < n)%nat by (rewrite <- Hcount; by eapply lookup_lt_Some).
  assert (j < n)%nat by (rewrite <- Hcount; by eapply lookup_lt_Some).
  destruct (Hpkts i b Hi) as (_ & Ei & _). destruct (Hpkts j b Hj) as (_ & Ej & _).
  apply (off_inj P mtu (proj1 mtu_range) HP); fold n; [lia|lia|]. fold off. congruence.
Qed.

Lemma indices_snoc js bs i b : indices js bs -> pkts !! i = Some b -> indices (js ++ [i]) (bs ++ [b]).
Proof using All.
  intros H Hb j c Hc. rewrite !elem_of_app, !list_elem_of_singleton, (H j c Hc).
  split; (intros [?|E]; [by left|right]); [subst; congruence|subst; by eapply pkts_inj].
Qed.
Lemma indices_other js bs b : indices js bs -> reassembler_key b <> key -> indices js (bs ++ [b]).
Proof using Hpkts.
  intros H Hb j c Hc. rewrite elem_of_app, list_elem_of_singleton, (H j c Hc).
  split; [by left|]. intros [?| ->]; [done|]. exfalso. apply Hb. by apply (Hpkts j).
Qed.
Lemma indices_complete js bs : indices js bs -> complete js <-> Forall (fun b => b ∈ bs) pkts.
Proof using Hcount.
  intros H. rewrite complete_spec, Forall_forall. split.
  - intros Hc b (i & Hi)%list_elem_of_lookup. apply (H i b Hi), Hc. rewrite <- Hcount. by eapply lookup_lt_Some.
  - intros Hc i Hi. rewrite <- Hcount in Hi. destruct (lookup_lt_is_Some_2 pkts i Hi) as [b Hb].
    apply (H i b Hb), Hc. by eapply list_elem_of_lookup_2.
Qed.

Lemma run_collects evs : forall r js bs,
  collected r js -> indices js bs -> Forall ev_ok evs ->
  ~ Forall (fun b => b ∈ bs ++ arrivals evs) pkts ->
  exists r' outs js', run_feed r evs = Ret (r', outs) /\ Forall (fun o => o.1 <> key) outs /\
    collected r' js' /\ indices js' (bs ++ arrivals evs).
Proof using All.
  induction evs as [|[b now|now] evs IH]; intros r js bs Hr Hi Hev Hmiss.
  - exists r, [], js. cbn. rewrite app_nil_r. by split_and!.
  - apply Forall_cons in Hev as [[Hnow Hb] Hev]. cbn [ev_time] in Hnow. cbn [arrivals omap list_omap] in *.
    fold (arrivals evs) in *. change (b :: arrivals evs) with ([b] ++ arrivals evs) in *.
    rewrite app_assoc in *. cbn [run_feed].
    destruct Hb as [(i & Hib)%list_elem_of_lookup|[Hk Hpl]].
    + destruct (collected_piece r js i b now Hr Hib ltac:(lia)) as (r1 & E & Hr1).
      pose proof (indices_snoc js bs i b Hi Hib) as Hi1.
      assert (~ complete (js ++ [i])) as Hnc.
      { rewrite (indices_complete _ _ Hi1). intros Hc. apply Hmiss. eapply Forall_impl; [exact Hc|].
        intros x Hx. cbn. apply elem_of_app. by left. }
      rewrite decide_False in E by done. rewrite decide_False in Hr1 by done. rewrite E. cbn [mbind comp_bind].
      destruct (IH r1 _ _ Hr1 Hi1 Hev Hmiss) as (r' & outs & js' & -> & Ho & Hr' & Hi'). by exists r', outs, js'.
    + destruct (collected_other r js b now Hr Hk Hpl) as (r1 & o & E & Hr1). rewrite E. cbn [mbind comp_bind].
      destruct (IH r1 _ _ Hr1 (indices_other _ _ _ Hi Hk) Hev Hmiss) as (r' & outs & js' & -> & Ho & Hr' & Hi').
      cbn [mbind comp_bind]. destruct o; eexists _, _, js'; split_and!; try done. by constructor.
  - apply Forall_cons in Hev as [[Hnow _] Hev]. cbn [run_feed].
    by apply (IH _ js bs (collected_sweep r js now Hr Hnow) Hi Hev).
Qed.

Lemma run_app evs evs' : forall r,
  run_feed r (evs ++ evs') = '(r, outs) ← run_feed r evs; '(r, outs') ← run_feed r evs'; Ret (r, outs ++ outs').
Proof using.
  induction evs as [|[b now|now] evs IH]; intros r; cbn [app run_feed].
  - cbn [mbind comp_bind]. by destruct (run_feed r evs') as [[? ?]|].
  - destruct (add_fragment r b now) as [[r1 o]|]; [|done]. cbn [mbind comp_bind]. rewrite IH.
    destruct (run_feed r1 evs) as [[r2 outs]|]; [|done]. cbn [mbind comp_bind].
    destruct (run_feed r2 evs') as [[r3 outs']|]; [|done]. cbn [mbind comp_bind]. by destruct o.
  - apply IH.
Qed.

Lemma run_completes r evs b now :
  ip_packets r !! key = None -> ip_timeout r = timeout -> Forall ev_ok evs -> b ∈ pkts -> t0 <= now ->
  ~ Forall (fun b => b ∈ arrivals evs) pkts -> Forall (fun x => x ∈ arrivals evs ++ [b]) pkts ->
  exists r' outs, run_feed r (evs ++ [Arrive b now]) = Ret (r', outs ++ [(key, P)]) /\
    Forall (fun o => o.1 <> key) outs /\ ip_packets r' !! key = None.
Proof using All.
  intros Hk Ht Hev (i & Hb)%list_elem_of_lookup Hnow Hmiss Hall.
  assert (collected r []) as Hc.
  { unfold collected, holds. rewrite Hk. split_and!; [|done|done|done].
    exists []. split_and!; [constructor|done|]. rewrite decide_False by (apply not_elem_of_nil). done. }
  destruct (run_collects evs r [] [] Hc) as (r1 & outs & js & E & Ho & Hc1 & Hi); [|done|done|].
  { intros j c _. split; intros []%not_elem_of_nil. }
  destruct (collected_piece r1 js i b now Hc1 Hb Hnow) as (r2 & E2 & Hr2).
  assert (complete (js ++ [i])) as Hcm by (by rewrite (indices_complete _ _ (indices_snoc _ _ _ _ Hi Hb))).
  rewrite decide_True in E2 by done. rewrite decide_True in Hr2 by done.
  exists r2, outs. rewrite run_app, E. cbn [mbind comp_bind run_feed]. rewrite E2. cbn [mbind comp_bind].
  destruct (Hpkts i b Hb) as [-> _]. done.
Qed.
End payload.
End composing.

(** ** A packet in pieces, put together again *)

Definition all_received {E} (_ : list Z) : result E unit := Ok tt.

Lemma fragments_spec {ip : Ipv4Lib} (Hip : Ipv4Laws ip) {E} P a hdr rest :
  args_ok a -> 0 < len P < 65536 -> c_payload_len a = len P ->
  0 < c_payload_mtu a < 65516 -> c_payload_mtu a mod 8 = 0 -> length hdr = 20%nat ->
  exists buf pkts,
    compose_ipv4_packet (E:=E) all_received a (hdr ++ P ++ rest) = Some (Ret (buf, pkts, Ok tt)) /\
    length pkts = pieces P (c_payload_mtu a) /\
    forall r t0 evs b now,
      let key := (src_v4 a, dst_v4 a, ip_id a) in
      ip_packets r !! key = None ->
      Forall (ev_ok a pkts t0 (ip_timeout r)) evs -> b ∈ pkts -> t0 <= now ->
      ~ Forall (fun x => x ∈ arrivals evs) pkts -> Forall (fun x => x ∈ arrivals evs ++ [b]) pkts ->
      exists r' outs, run_feed r (evs ++ [Arrive b now]) = Ret (r', outs ++ [(key, P)]) /\
        Forall (fun o => o.1 <> key) outs /\ ip_packets r' !! key = None.
Proof.
  intros Ha HP Hlen Hmtu H8 Hh. pose proof (pieces_spec P (c_payload_mtu a) ltac:(lia) HP) as [Hn Hn'].
  set (n := pieces P (c_payload_mtu a)) in *.
  assert (off P (c_payload_mtu a) 0 = 0) as E0 by (unfold off; lia).
  destruct (loop_composes P a Ha HP Hlen Hmtu H8 (E:=E) all_received ltac:(done)
      (Z.to_nat (len P)) 0 (hdr ++ P ++ rest) []) as (buf & pkts & Hrun & Hcnt & Hcar).
  - lia.
  - fold n. nia.
  - unfold_len. rewrite !length_app. lia.
  - rewrite E0, drop_0. change (Z.to_nat (20 + 0)) with 20%nat. rewrite <- Hh, drop_app_length.
    apply take_app_length'. unfold_len. lia.
  - exists buf, pkts. rewrite Nat.sub_0_r in Hcnt. split_and!; [|done|].
    + unfold compose_ipv4_packet. rewrite (proj2 (Z.eqb_neq (c_payload_mtu a) 0)) by lia. rewrite Hlen.
      rewrite E0 in Hrun. unfold pieces in Hrun. rewrite Z2Nat.id in Hrun by (apply Z.div_pos; lia). exact Hrun.
    + intros r t0 evs b now key Hk Hev Hb Hnow Hmiss Hall.
      by apply (run_completes P a Ha HP Hlen Hmtu H8 pkts t0 (ip_timeout r) Hcnt Hcar).
Qed.

(** C18. A payload composed into IPv4 packets with a piece size that is a multiple
    of eight comes out of the reassembler again: the callback is given one packet
    per piece, and whatever packets of other datagrams and sweeps come in between,
    in any order and with any repetitions, within the timeout, the reassembler stays silent about this
    datagram while a piece is missing, hands over exactly the payload with the
    packet that completes it, and then keeps nothing of it. *)
Theorem fragments_reassemble {ip : Ipv4Lib} (Hip : Ipv4Laws ip) {E} P a hdr :
  args_ok a -> 0 < len P < 65536 -> c_payload_len a = len P ->
  0 < c_payload_mtu a < 65516 -> c_payload_mtu a mod 8 = 0 -> length hdr = 20%nat ->
  exists buf pkts,
    compose_ipv4_packet (E:=E) all_received a (hdr ++ P) = Some (Ret (buf, pkts, Ok tt)) /\
    length pkts = pieces P (c_payload_mtu a) /\
    forall r t0 evs b now,
      let key := (src_v4 a, dst_v4 a, ip_id a) in
      ip_packets r !! key = None ->
      Forall (ev_ok a pkts t0 (ip_timeout r)) evs -> b ∈ pkts -> t0 <= now ->
      ~ Forall (fun x => x ∈ arrivals evs) pkts -> Forall (fun x => x ∈ arrivals evs ++ [b]) pkts ->
      exists r' outs, run_feed r (evs ++ [Arrive b now]) = Ret (r', outs ++ [(key, P)]) /\
        Forall (fun o => o.1 <> key) outs /\ ip_packets r' !! key = None.
Proof.
  intros Ha HP Hl Hm H8 Hh. destruct (fragments_spec Hip (E:=E) P a hdr [] Ha HP Hl Hm H8 Hh) as (buf & pkts & H).
  rewrite app_nil_r in H. by exists buf, pkts.
Qed.

(** ** The IPv4 header *)

(** A bit field of a number: [w] bits from bit [o]. *)
Definition getf (o w n : Z) : Z := n / 2 ^ o mod 2 ^ w.
Definition setf (o w v n : Z) : Z := n + (v mod 2 ^ w - getf o w n) * 2 ^ o.

Section bit_fields.
Context (o w : Z) (Ho : 0 <= o) (Hw : 0 <= w).

Lemma getf_split n : n = (n / 2 ^ (o + w) * 2 ^ w + getf o w n) * 2 ^ o + n mod 2 ^ o.
Proof using Ho Hw.
  unfold getf. rewrite Z.pow_add_r, <- Z.div_div by lia.
  pose proof (Z.div_mod (n / 2 ^ o) (2 ^ w) ltac:(lia)). pose proof (Z.div_mod n (2 ^ o) ltac:(lia)). lia.
Qed.

Lemma setf_split v n : setf o w v n = (n / 2 ^ (o + w) * 2 ^ w + v mod 2 ^ w) * 2 ^ o + n mod 2 ^ o.
Proof using Ho Hw. unfold setf. pose proof (getf_split n). lia. Qed.

Lemma setf_div v n : setf o w v n / 2 ^ o = n / 2 ^ (o + w) * 2 ^ w + v mod 2 ^ w.
Proof using Ho Hw.
  rewrite setf_split, Z.div_add_l by lia. pose proof (Z.mod_pos_bound n (2 ^ o) ltac:(lia)).
  rewrite (Z.div_small (n mod _)) by lia. lia.
Qed.

Lemma getf_setf v n : getf o w (setf o w v n) = v mod 2 ^ w.
Proof using Ho Hw.
  unfold getf at 1. rewrite setf_div, Z.add_comm, Z.mod_add, Z.mod_mod by lia. done.
Qed.

Lemma getf_setf_below o' w' v n : 0 <= o' -> 0 <= w' -> o' + w' <= o ->
  getf o' w' (setf o w v n) = getf o' w' n.
Proof using Ho Hw.
  intros Ho' Hw' Hle. unfold getf at 1, setf.
  replace (2 ^ o) with (2 ^ (o - o' - w') * 2 ^ w' * 2 ^ o') by (rewrite <- !Z.pow_add_r by lia; f_equal; lia).
  rewrite !Z.mul_assoc, Z.div_add, Z.mod_add by lia. done.
Qed.

Lemma getf_setf_above o' w' v n : o + w <= o' -> getf o' w' (setf o w v n) = getf o' w' n.
Proof using Ho Hw.
  intros Hle. unfold getf. f_equal. replace o' with ((o + w) + (o' - o - w)) by lia.
  rewrite Z.pow_add_r, <- !Z.div_div by lia. f_equal.
  rewrite Z.pow_add_r, <- Z.div_div, setf_div, Z.div_add_l by lia.
  pose proof (Z.mod_pos_bound v (2 ^ w) ltac:(lia)). rewrite (Z.div_small (v mod _)) by lia.
  rewrite Z.add_0_r, Z.pow_add_r; lia.
Qed.

Lemma setf_range m v n : o + w <= m -> in_range m n -> in_range m (setf o w v n).
Proof using Ho Hw.
  unfold in_range. intros Hm Hn. rewrite setf_split.
  pose proof (Z.mod_pos_bound n (2 ^ o) ltac:(lia)). pose proof (Z.mod_pos_bound v (2 ^ w) ltac:(lia)).
  assert (2 ^ m = 2 ^ (m - o - w) * 2 ^ w * 2 ^ o) as E by (rewrite <- !Z.pow_add_r by lia; f_equal; lia).
  assert (0 <= n / 2 ^ (o + w) < 2 ^ (m - o - w)) as Hq.
  { split; [apply Z.div_pos; lia|]. apply Z.div_lt_upper_bound; [lia|].
    rewrite <- Z.pow_add_r by lia. replace (o + w + (m - o - w)) with m by lia. lia. }
  rewrite E. set (q := n / _) in *. set (x := v mod _) in *. set (y := n mod _) in *. clearbody q x y.
  assert (0 <= q * 2 ^ w + x < 2 ^ (m - o - w) * 2 ^ w) as Hqx by nia.
  set (z := q * 2 ^ w + x) in *. clearbody z. clear -Hqx H. nia.
Qed.
End bit_fields.

(** Where each field lies in the twenty bytes, read as one big-endian number. *)
Definition field_bits (f : ip_field) : Z * Z :=
  match f with
  | Version => (156, 4) | HeaderLen => (152, 4) | Dscp => (146, 6) | Ecn => (144, 2)
  | TotalLen => (128, 16) | Ident => (112, 16) | DontFrag => (110, 1) | MoreFrags => (109, 1)
  | FragOffset => (96, 13) | HopLimit => (88, 8) | NextHeader => (80, 8)
  | SrcAddr => (32, 32) | DstAddr => (0, 32)
  end.

Definition header_word (b : list Z) : Z := be_decode (take 20 b) mod 2 ^ 160.
Definition put_header (n : Z) (b : list Z) : list Z := overwrite 0 (be_encode 20 n) b.

(** The checksum lies at bit 64: the complement of the sum of the other words. *)
Definition ones_sum (n : Z) : Z :=
  let s := foldr (fun i s => getf (16 * Z.of_nat i) 16 n + s) 0 (seq 0 10) in
  let s := s mod 65536 + s / 65536 in s mod 65536 + s / 65536.

#[local] Instance ipv4_bits : Ipv4Lib := {
  ip_get f b := getf (field_bits f).1 (field_bits f).2 (header_word b) * field_unit f;
  ip_set f v b := put_header (setf (field_bits f).1 (field_bits f).2 (v / field_unit f) (header_word b)) b;
  ip_clear_flags b := put_header (setf 109 3 0 (header_word b)) b;
  ip_fill_checksum b :=
    put_header (setf 64 16 (65535 - ones_sum (setf 64 16 0 (header_word b))) (header_word b)) b }.

Lemma header_word_range b : in_range 160 (header_word b).
Proof. apply Z.mod_pos_bound. lia. Qed.
Lemma put_header_len n b : IPV4_HEADER_LEN <= len b -> length (put_header n b) = length b.
Proof.
  intros Hb. apply length_overwrite; [lia|]. unfold_len. rewrite length_be_encode. unfold IPV4_HEADER_LEN in Hb. lia.
Qed.
Lemma put_header_payload n b : IPV4_HEADER_LEN <= len b -> drop 20 (put_header n b) = drop 20 b.
Proof.
  unfold IPV4_HEADER_LEN. intros Hb. apply overwrite_after; [lia|..]; unfold_len; rewrite length_be_encode; lia.
Qed.
Lemma put_header_word n b : IPV4_HEADER_LEN <= len b -> in_range 160 n -> header_word (put_header n b) = n.
Proof.
  unfold IPV4_HEADER_LEN. intros Hb Hn. unfold header_word, put_header, overwrite.
  change (take (Z.to_nat 0) b) with (@nil Z). cbn [app].
  rewrite take_app_le, take_ge by (rewrite length_be_encode; lia).
  rewrite be_decode_encode; [|exact Hn]. apply Z.mod_small. exact Hn.
Qed.

Lemma field_bits_ok f : 0 <= (field_bits f).1 /\ 0 < (field_bits f).2 /\
  (field_bits f).1 + (field_bits f).2 <= 160.
Proof. destruct f; cbn; lia. Qed.

Lemma fields_apart f g : f <> g ->
  (field_bits f).1 + (field_bits f).2 <= (field_bits g).1 \/
  (field_bits g).1 + (field_bits g).2 <= (field_bits f).1.
Proof. destruct f, g; cbn; intros; (lia || congruence). Qed.

Lemma getf_setf_apart o w o' w' v n : 0 <= o -> 0 <= w -> 0 <= o' -> 0 <= w' ->
  o + w <= o' \/ o' + w' <= o -> getf o' w' (setf o w v n) = getf o' w' n.
Proof. intros Ho Hw Ho' Hw' [H|H]; [by apply getf_setf_above|by apply getf_setf_below]. Qed.

(** A field is read back from the bytes that were written. *)
Lemma get_put_header f n b : IPV4_HEADER_LEN <= len b -> in_range 160 n ->
  ip_get f (put_header n b) = getf (field_bits f).1 (field_bits f).2 n * field_unit f.
Proof. intros Hb Hn. cbn [ip_get ipv4_bits]. by rewrite put_header_word. Qed.

(** Clearing three bits clears each of them. *)
Lemma flag_cleared o w o' n : 0 <= o -> 0 <= w -> o <= o' < o + w -> getf o' 1 (setf o w 0 n) = 0.
Proof.
  intros Ho Hw Hlt. unfold getf. replace o' with (o + (o' - o)) by lia.
  rewrite Z.pow_add_r, <- Z.div_div, setf_div by lia. rewrite Z.mod_0_l, Z.add_0_r by lia.
  replace w with ((w - (o' - o) - 1) + 1 + (o' - o)) at 2 by lia. rewrite !(Z.pow_add_r 2 (_ + _)) by lia.
  rewrite Z.mul_assoc, Z.div_mul by lia.
  rewrite (Z.pow_add_r 2 (w - (o' - o) - 1)) by lia. rewrite Z.mul_assoc. apply Z.mod_mul. lia.
Qed.

#[local] Instance ipv4_bits_laws : Ipv4Laws ipv4_bits.
Proof.
  pose proof header_word_range as Hw.
  split.
  - intros. cbn [ip_set ip_clear_flags ip_fill_checksum ipv4_bits]. by rewrite put_header_len.
  - intros. cbn [ip_set ip_clear_flags ip_fill_checksum ipv4_bits]. by rewrite put_header_payload.
  - intros f v b Hb Hv. destruct (field_bits_ok f) as (H1 & H2 & H3). cbn [ip_set ipv4_bits].
    rewrite get_put_header by (done || (apply setf_range; [lia..|done])).
    rewrite getf_setf by lia. rewrite Z.mod_small; [done|].
    unfold in_range in Hv. split; [apply Z.div_pos; [lia|destruct f; cbn; lia]|].
    apply Z.div_lt_upper_bound; destruct f; cbn in *; lia.
  - intros f g v b Hb Hne.
    destruct (field_bits_ok f) as (H1 & H2 & H3), (field_bits_ok g) as (H4 & H5 & H6). cbn [ip_set ipv4_bits].
    rewrite get_put_header by (done || (apply setf_range; [lia..|done])).
    rewrite getf_setf_apart; [done|lia..|by apply fields_apart].
  - intros. cbn [ip_set ip_clear_flags ip_fill_checksum ipv4_bits]. by rewrite put_header_len.
  - intros. cbn [ip_set ip_clear_flags ip_fill_checksum ipv4_bits]. by rewrite put_header_payload.
  - intros f b Hb. cbn [ip_clear_flags ipv4_bits].
    rewrite get_put_header by (done || (apply setf_range; [lia..|done])).
    destruct (is_flag f) eqn:Ef.
    + destruct f; try done; cbn [field_bits fst snd field_unit]; rewrite Z.mul_1_r; apply flag_cleared; lia.
    + destruct (field_bits_ok f) as (H1 & H2 & H3). rewrite getf_setf_apart; [done|lia..|].
      destruct f; cbn in *; (lia || done).
  - intros. cbn [ip_set ip_clear_flags ip_fill_checksum ipv4_bits]. by rewrite put_header_len.
  - intros. cbn [ip_set ip_clear_flags ip_fill_checksum ipv4_bits]. by rewrite put_header_payload.
  - intros f b Hb. cbn [ip_fill_checksum ipv4_bits].
    rewrite get_put_header by (done || (apply setf_range; [lia..|done])).
    destruct (field_bits_ok f) as (H1 & H2 & H3). rewrite getf_setf_apart; [done|lia..|]. destruct f; cbn in *; lia.
Qed.

(** ** Runs *)

(** Four packets: the second and third pieces of a datagram, its first, and a
    piece of another one.  The third completes the datagram; a sweep removes
    what is left once it is older than the timeout. *)
Definition raw_packet (id flags off : Z) (d : list Z) : list Z :=
  [69; 0; 0; 28; 28; id; flags; off; 64; 6; 177; 230; 192; 168; 0; 1; 192; 168; 0; 2] ++ d ++ [4; 5; 6; 7].
Definition raw_packets : list (list Z) :=
  [raw_packet 70 32 1 [4; 5; 6; 7]; raw_packet 70 0 2 [8; 9; 10; 11];
   raw_packet 70 32 0 [0; 1; 2; 3]; raw_packet 71 32 0 [0; 1; 2; 3]].

Example reassembler_run :
  match run_feed (IpReassembler_new 1) (map (fun b => Arrive b 0) raw_packets) with
  | Ret (r, outs) => Some (outs, map (fun t => size (ip_packets (remove_expired_packets r t))) [0; 2])
  | Panic => None
  end = Some ([((3232235521, 3232235522, 7238),
                [0; 1; 2; 3; 4; 5; 6; 7; 4; 5; 6; 7; 4; 5; 6; 7; 8; 9; 10; 11; 4; 5; 6; 7])], [1; 0]%nat).
Proof. vm_compute. reflexivity. Qed.

Definition test_args : ComposeIpv4PacketArgs :=
  {| src_v4 := 167838211; dst_v4 := 167838212; next_protocol := 17;
     c_payload_len := 1932; c_payload_mtu := 1256; ip_id := 42 |}.
Definition test_payload : list Z := replicate 1932 255.

Definition composed {E} (o : option (comp (list Z * list (list Z) * result E unit))) : list (list Z) :=
  match o with Some (Ret (_, pkts, _)) => pkts | _ => [] end.
Definition test_pkts : list (list Z) :=
  composed (compose_ipv4_packet (E:=unit) all_received test_args (replicate 20 255 ++ test_payload)).

Example compose_two :
  map (fun b => (ip_get MoreFrags b, ip_get FragOffset b, ip_get TotalLen b)) test_pkts =
  [(1, 0, 1276); (0, 1256, 696)].
Proof. vm_compute. done. Qed.

(** A smaller datagram, its last piece twice and a foreign packet in between. *)
Definition small_args : ComposeIpv4PacketArgs :=
  {| src_v4 := 167838211; dst_v4 := 167838212; next_protocol := 17;
     c_payload_len := 20; c_payload_mtu := 16; ip_id := 42 |}.
Definition small_payload : list Z := map Z.of_nat (seq 0 20).
Definition small_pkts : list (list Z) :=
  composed (compose_ipv4_packet (E:=unit) all_received small_args (replicate 20 255 ++ small_payload)).
Definition small_evs : list ReassemblyEv :=
  [Arrive (nth 1 small_pkts []) 3; Sweep 4; Arrive (raw_packet 71 32 0 [0; 1; 2; 3]) 5;
   Arrive (nth 1 small_pkts []) 6].

Lemma small_evs_ok : Forall (ev_ok small_args small_pkts 0 10) small_evs.
Proof.
  assert (nth 1 small_pkts [] ∈ small_pkts) as H1 by (apply (bool_decide_unpack _); vm_compute; exact I).
  unfold small_evs. repeat (apply Forall_cons; split); [..|by apply Forall_nil]; (split; [cbn; lia|]); cbn.
  - by left.
  - exact I.
  - right. split; [by vm_compute|]. eexists. by vm_compute.
  - by left.
Qed.

Lemma fragments_reassemble_witness :
  exists r' outs, run_feed (IpReassembler_new 10) (small_evs ++ [Arrive (nth 0 small_pkts []) 7]) =
    Ret (r', outs ++ [((167838211, 167838212, 42), small_payload)]).
Proof.
  destruct (fragments_reassemble ipv4_bits_laws (E:=unit) small_payload small_args (replicate 20 255))
    as (buf & pkts & Hrun & _ & Hfeed).
  - vm_compute. repeat split; discriminate.
  - vm_compute. by split.
  - reflexivity.
  - vm_compute. by split.
  - reflexivity.
  - reflexivity.
  - assert (small_pkts = pkts) as Epk by (unfold small_pkts; rewrite Hrun; reflexivity). subst pkts. clear Hrun.
    destruct (Hfeed (IpReassembler_new 10) 0 small_evs (nth 0 small_pkts []) 7) as (r' & outs & Hr & _).
    + reflexivity.
    + exact small_evs_ok.
    + apply (bool_decide_unpack _). vm_compute. exact I.
    + lia.
    + apply (bool_decide_unpack _). vm_compute. exact I.
    + apply (bool_decide_unpack _). vm_compute. exact I.
    + by exists r', outs.
Defined.
