(* ===== verification/CidrTable.v ===== *)
(** Proxied networks: [gateway/proxy/cidr_table.rs].

    A proxied network may be announced under another prefix; the table turns an
    announced address into the real one.  Addresses are the numbers that
    [to_bits] gives.  The types of the [cidr] crate are the class [NetLib]. *)

From stdpp Require Import list gmap.
From S2P Require Import Prelude.
Local Open Scope Z_scope.

(** ** Networks *)

Class NetLib := {
  Ipv4Cidr : Type;
  cidr_new : Z -> Z -> option Ipv4Cidr;
  cidr_eqb : Ipv4Cidr -> Ipv4Cidr -> bool;
  cidr_length : Ipv4Cidr -> Z;
  cidr_first : Ipv4Cidr -> Z;
  cidr_mask : Ipv4Cidr -> Z;
  cidr_contains : Ipv4Cidr -> Z -> bool;
  Ipv4Inet : Type;
  inet_address : Ipv4Inet -> Z;
  inet_first_address : Ipv4Inet -> Z }.

(** The addresses of a network are those that agree with its first address on
    the [cidr_length] leading bits. *)
Class NetLaws (nl : NetLib) := {
  cidr_eqb_spec c d : cidr_eqb c d = true <-> c = d;
  cidr_length_range c : 0 <= cidr_length c <= 32;
  cidr_first_range c : u32 (cidr_first c);
  cidr_first_aligned c : cidr_first c mod 2 ^ (32 - cidr_length c) = 0;
  cidr_mask_spec c : cidr_mask c = 2 ^ 32 - 2 ^ (32 - cidr_length c);
  cidr_contains_spec c ip : u32 ip ->
    cidr_contains c ip = true <-> ip / 2 ^ (32 - cidr_length c) = cidr_first c / 2 ^ (32 - cidr_length c);
  cidr_new_some a n c : cidr_new a n = Some c -> cidr_first c = a /\ cidr_length c = n }.

(** ** Configuration *)

Inductive IpAddr := IpV4 (bits : Z) | IpV6 (bits : Z).
Record IpPrefix := { prefix_address : IpAddr; prefix_len : Z }.
Record ProxyNetworkConfig := { pn_real : IpPrefix; pn_mapped : option IpPrefix }.

Section table.
Context {nl : NetLib}.

Record ProxyCidrRule := { rule_cidr : Ipv4Cidr; rule_mapped_cidr : option Ipv4Cidr }.
Record ProxyCidrEntry := { real_cidr : Ipv4Cidr; mapped_cidr : Ipv4Cidr }.
Abbreviation ProxyCidrTable := (list ProxyCidrEntry).

Definition ipv4_cidr (p : IpPrefix) : option Ipv4Cidr :=
  match prefix_address p with IpV4 a => cidr_new a (prefix_len p) | IpV6 _ => None end.
Definition proxy_cidr_rule (c : ProxyNetworkConfig) : option ProxyCidrRule :=
  cidr ← ipv4_cidr (pn_real c);
  Some {| rule_cidr := cidr; rule_mapped_cidr := pn_mapped c ≫= ipv4_cidr |}.
Definition from_proxy_networks (l : list ProxyNetworkConfig) : list ProxyCidrRule := omap proxy_cidr_rule l.

Definition update_snapshot (rules : list ProxyCidrRule) : ProxyCidrTable :=
  map (fun r => {| real_cidr := rule_cidr r; mapped_cidr := default (rule_cidr r) (rule_mapped_cidr r) |}) rules.
Definition table_is_empty (t : ProxyCidrTable) : bool := match t with [] => true | _ => false end.

Definition entry_lookup_v4 (e : ProxyCidrEntry) (ipv4 : Z) : option Z :=
  if negb (cidr_contains (mapped_cidr e) ipv4) then None else
  if cidr_eqb (mapped_cidr e) (real_cidr e) then Some ipv4 else
  let origin_network_bits := cidr_first (real_cidr e) in
  let network_mask := cidr_mask (mapped_cidr e) in
  Some (Z.lor (Z.land ipv4 (Z.lxor network_mask (max_of 32))) origin_network_bits).
Fixpoint lookup_v4 (t : ProxyCidrTable) (ipv4 : Z) : option Z :=
  match t with
  | [] => None
  | e :: t => match entry_lookup_v4 e ipv4 with Some r => Some r | None => lookup_v4 t ipv4 end
  end.
End table.

(** ** An address is mapped with its place in the network *)

Section mapping.
Context {nl : NetLib} {Hnl : NetLaws nl}.

(** As [add_proxy_cidr] of the configuration demands. *)
Definition entry_aligned (e : ProxyCidrEntry) : Prop := cidr_length (mapped_cidr e) = cidr_length (real_cidr e).

(** A number without the bits above [k], next to one without those below. *)
Lemma lor_disjoint a b k : 0 <= k -> 0 <= a < 2 ^ k -> b mod 2 ^ k = 0 -> Z.lor a b = a + b.
Proof using.
  intros Hk Ha Hb. rewrite <- Z.lxor_lor, <- Z.add_nocarry_lxor; [done|..];
    apply Z.bits_inj'; intros n Hn; rewrite Z.land_spec, Z.bits_0;
    (destruct (decide (n < k)); [|by rewrite (Prelude.range_high_bit k a n) by (unfold in_range; lia)]);
    rewrite <- (Z.mod_pow2_bits_low b k n), Hb, Z.bits_0, andb_false_r by lia; done.
Qed.

Lemma host_bits ip n : 0 <= n <= 32 -> u32 ip ->
  Z.land ip (Z.lxor (2 ^ 32 - 2 ^ n) (max_of 32)) = ip mod 2 ^ n.
Proof using.
  intros Hn Hip. assert (Z.lxor (2 ^ 32 - 2 ^ n) (max_of 32) = Z.ones n) as ->.
  { assert (2 ^ 32 - 2 ^ n = Z.shiftl (Z.ones (32 - n)) n) as ->.
    { rewrite Z.shiftl_mul_pow2, Z.ones_equiv by lia. unfold Z.pred.
      replace (2 ^ 32) with (2 ^ (32 - n) * 2 ^ n) by (rewrite <- Z.pow_add_r by lia; f_equal; lia). lia. }
    assert (max_of 32 = Z.ones 32) as -> by done.
    apply Z.bits_inj'. intros i Hi. rewrite Z.lxor_spec.
    destruct (decide (i < n)).
    - rewrite Z.shiftl_spec_low, !Z.ones_spec_low by lia. done.
    - rewrite Z.shiftl_spec_high, (Z.ones_spec_high n) by lia.
      destruct (decide (i < 32)); [rewrite !Z.ones_spec_low by lia; done|].
      rewrite !Z.ones_spec_high by lia. done. }
  by rewrite Z.land_ones by lia.
Qed.

Lemma entry_lookup_spec e ip : u32 ip -> entry_aligned e ->
  entry_lookup_v4 e ip =
  if cidr_contains (mapped_cidr e) ip then Some (cidr_first (real_cidr e) + (ip - cidr_first (mapped_cidr e)))
  else None.
Proof using Hnl.
  intros Hip He. unfold entry_lookup_v4. destruct (cidr_contains _ ip) eqn:Ec; cbn [negb]; [|done].
  destruct (cidr_eqb _ _) eqn:Eq.
  { apply cidr_eqb_spec in Eq as ->. f_equal. lia. }
  pose proof (cidr_length_range (mapped_cidr e)) as Hl.
  apply cidr_contains_spec in Ec; [|done]. set (k := 32 - cidr_length (mapped_cidr e)) in *.
  pose proof (cidr_first_aligned (mapped_cidr e)) as Hm. fold k in Hm.
  pose proof (cidr_first_aligned (real_cidr e)) as Hr. rewrite <- He in Hr. fold k in Hr.
  rewrite cidr_mask_spec. fold k. rewrite host_bits by (done || lia).
  pose proof (Z.mod_pos_bound ip (2 ^ k) ltac:(lia)).
  rewrite (lor_disjoint _ _ k) by (lia || done). f_equal.
  pose proof (Z.div_mod ip (2 ^ k) ltac:(lia)).
  pose proof (Z.div_mod (cidr_first (mapped_cidr e)) (2 ^ k) ltac:(lia)). lia.
Qed.

Lemma entry_lookup_inside e ip r : u32 ip -> entry_aligned e -> entry_lookup_v4 e ip = Some r ->
  u32 r /\ cidr_contains (real_cidr e) r = true.
Proof using Hnl.
  intros Hip He Hr. rewrite entry_lookup_spec in Hr by done.
  destruct (cidr_contains _ ip) eqn:Ec; [|done]. injection Hr as <-.
  apply cidr_contains_spec in Ec; [|done].
  pose proof (cidr_length_range (mapped_cidr e)) as Hl. unfold entry_aligned in He.
  set (k := 32 - cidr_length (mapped_cidr e)) in *.
  pose proof (cidr_first_aligned (mapped_cidr e)) as Hm. fold k in Hm.
  pose proof (cidr_first_aligned (real_cidr e)) as Hr. rewrite <- He in Hr. fold k in Hr.
  pose proof (cidr_first_range (real_cidr e)) as Hfr.
  pose proof (Z.mod_pos_bound ip (2 ^ k) ltac:(lia)) as Hb.
  pose proof (Z.div_mod ip (2 ^ k) ltac:(lia)).
  pose proof (Z.div_mod (cidr_first (mapped_cidr e)) (2 ^ k) ltac:(lia)).
  pose proof (Z.div_mod (cidr_first (real_cidr e)) (2 ^ k) ltac:(lia)) as Hd.
  set (f := cidr_first (real_cidr e)) in *.
  assert (f + (ip - cidr_first (mapped_cidr e)) = f / 2 ^ k * 2 ^ k + ip mod 2 ^ k) as -> by lia.
  assert (f / 2 ^ k < 2 ^ (32 - k)) as Hq.
  { apply Z.div_lt_upper_bound; [lia|]. rewrite <- Z.pow_add_r by lia. replace (k + (32 - k)) with 32 by lia.
    unfold in_range in Hfr. lia. }
  assert (0 <= f / 2 ^ k) by (apply Z.div_pos; unfold in_range in Hfr; lia).
  assert (2 ^ 32 = 2 ^ (32 - k) * 2 ^ k) as E32 by (rewrite <- Z.pow_add_r by lia; f_equal; lia).
  assert (u32 (f / 2 ^ k * 2 ^ k + ip mod 2 ^ k)) as Hu by (unfold in_range; nia).
  split; [done|]. apply cidr_contains_spec; [done|]. rewrite <- He. fold k f.
  rewrite Z.div_add_l, (Z.div_small (ip mod _)) by lia. lia.
Qed.
End mapping.

(** ** Networks as pairs of an address and a length *)

Module ConcreteNet.
Definition valid (p : Z * Z) : Prop :=
  0 <= p.2 <= 32 /\ 0 <= p.1 < 2 ^ 32 /\ p.1 mod 2 ^ (32 - p.2) = 0.
#[export] Instance valid_dec p : Decision (valid p).
Proof. unfold valid. apply _. Defined.
Definition net : Type := dsig valid.

#[export] Instance lib : NetLib := {
  Ipv4Cidr := net;
  cidr_new a n := match decide (valid (a, n)) with left H => Some (dexist (a, n) H) | right _ => None end;
  cidr_eqb c d := bool_decide (`c = `d);
  cidr_length c := (`c).2;
  cidr_first c := (`c).1;
  cidr_mask c := 2 ^ 32 - 2 ^ (32 - (`c).2);
  cidr_contains c ip := ip / 2 ^ (32 - (`c).2) =? (`c).1 / 2 ^ (32 - (`c).2);
  Ipv4Inet := Z * Z;
  inet_address i := i.1;
  inet_first_address i := i.1 / 2 ^ (32 - i.2) * 2 ^ (32 - i.2) }.

#[export] Instance laws : NetLaws lib.
Proof.
  assert (forall c : net, valid (`c)) as Hv by (intros c; apply (proj2_dsig c)).
  split; cbn [cidr_new cidr_eqb cidr_length cidr_first cidr_mask cidr_contains lib Ipv4Cidr].
  - intros c d. rewrite bool_decide_eq_true. split; [apply dsig_eq|by intros ->].
  - intros c. apply Hv.
  - intros c. apply Hv.
  - intros c. apply Hv.
  - done.
  - intros c x _. apply Z.eqb_eq.
  - intros a n c. destruct (decide (valid (a, n))); [|done]. by intros [= <-].
Qed.

(** Mapping 10.10.10.0/24 to 127.0.0.0/24. *)
Definition rules : list ProxyCidrRule :=
  from_proxy_networks [{| pn_real := {| prefix_address := IpV4 2130706432; prefix_len := 24 |};
                          pn_mapped := Some {| prefix_address := IpV4 168430080; prefix_len := 24 |} |}].
Example lookup_mapped : lookup_v4 (update_snapshot rules) 168430122 = Some 2130706474 /\
  lookup_v4 (update_snapshot rules) 2130706474 = None.
Proof. vm_compute. done. Qed.
End ConcreteNet.
