(* ===== verification/TransportWire.v ===== *)
(** Transport headers inside IPv4 packets, as the proxies rewrite them.

    [smoltcp]'s [TcpPacket] and [UdpPacket], and the length checks of
    [new_checked], are the class [TransportLib]; the accessors of the IPv4 header
    are those of [IpReassembler].  The packets that the proxies send to peers are
    built here too. *)

From stdpp Require Import list gmap.
From S2P Require Import Prelude Headers Packet IpReassembler.
Local Open Scope Z_scope.

Inductive SocketAddr := V4 (ip port : Z) | V6 (ip port : Z).
#[export] Instance SocketAddr_eq_dec : EqDecision SocketAddr.
Proof. solve_decision. Defined.
#[export] Instance SocketAddr_countable : Countable SocketAddr.
Proof.
  refine (inj_countable' (fun a => match a with V4 i p => (true, i, p) | V6 i p => (false, i, p) end)
    (fun '(b, i, p) => if (b : bool) then V4 i p else V6 i p) _).
  by intros [].
Defined.

Definition IP_TCP : Z := 6.
Definition IP_UDP : Z := 17.

Inductive tcp_field := TcpSrcPort | TcpDstPort | TcpSyn | TcpAck.
Inductive udp_field := UdpSrcPort | UdpDstPort | UdpLen.
#[export] Instance tcp_field_eq_dec : EqDecision tcp_field.
Proof. solve_decision. Defined.
#[export] Instance udp_field_eq_dec : EqDecision udp_field.
Proof. solve_decision. Defined.

Definition tcp_width (f : tcp_field) : Z := match f with TcpSrcPort | TcpDstPort => 16 | _ => 1 end.

Class TransportLib := {
  ip_checked : list Z -> bool;
  tcp_checked : list Z -> bool;
  tcp_get : tcp_field -> list Z -> Z;
  tcp_set : tcp_field -> Z -> list Z -> list Z;
  tcp_fill_checksum : Z -> Z -> list Z -> list Z;
  udp_checked : list Z -> bool;
  udp_get : udp_field -> list Z -> Z;
  udp_set : udp_field -> Z -> list Z -> list Z;
  udp_fill_checksum : Z -> Z -> list Z -> list Z }.

Definition UDP_HEADER_LEN : Z := 8.

(** The IPv4 fields lie in the first twenty bytes, and the check looks at the
    lengths alone; a checked segment has its header, which setters keep. *)
Class TransportLaws (ip : Ipv4Lib) (tw : TransportLib) := {
  ip_get_local f b b' : take 20 b = take 20 b' -> ip_get f b = ip_get f b';
  ip_checked_spec b : ip_checked b = true ->
    IPV4_HEADER_LEN <= len b /\ 0 <= ip_get HeaderLen b <= ip_get TotalLen b /\ ip_get TotalLen b <= len b;
  ip_checked_ext b b' : length b = length b' -> ip_get HeaderLen b = ip_get HeaderLen b' ->
    ip_get TotalLen b = ip_get TotalLen b' -> ip_checked b = ip_checked b';
  ip_addr_range b : u32 (ip_get SrcAddr b) /\ u32 (ip_get DstAddr b);
  tcp_port_range b : u16 (tcp_get TcpSrcPort b) /\ u16 (tcp_get TcpDstPort b);
  tcp_set_len f v b : tcp_checked b = true -> length (tcp_set f v b) = length b;
  tcp_set_checked f v b : tcp_checked b = true -> tcp_checked (tcp_set f v b) = true;
  tcp_get_set f v b : tcp_checked b = true -> in_range (tcp_width f) v -> tcp_get f (tcp_set f v b) = v;
  tcp_get_set_ne f g v b : tcp_checked b = true -> f <> g -> tcp_get g (tcp_set f v b) = tcp_get g b;
  tcp_set_payload f v b : tcp_checked b = true -> drop 20 (tcp_set f v b) = drop 20 b;
  tcp_fill_len s d b : tcp_checked b = true -> length (tcp_fill_checksum s d b) = length b;
  tcp_fill_checked s d b : tcp_checked b = true -> tcp_checked (tcp_fill_checksum s d b) = true;
  tcp_get_fill f s d b : tcp_checked b = true -> tcp_get f (tcp_fill_checksum s d b) = tcp_get f b;
  tcp_fill_payload s d b : tcp_checked b = true -> drop 20 (tcp_fill_checksum s d b) = drop 20 b }.

Class UdpLaws (tw : TransportLib) := {
  udp_checked_spec b : udp_checked b = true <->
    UDP_HEADER_LEN <= len b /\ UDP_HEADER_LEN <= udp_get UdpLen b <= len b;
  udp_port_range b : u16 (udp_get UdpSrcPort b) /\ u16 (udp_get UdpDstPort b);
  udp_set_len f v b : UDP_HEADER_LEN <= len b -> length (udp_set f v b) = length b;
  udp_get_set f v b : UDP_HEADER_LEN <= len b -> u16 v -> udp_get f (udp_set f v b) = v;
  udp_get_set_ne f g v b : UDP_HEADER_LEN <= len b -> f <> g -> udp_get g (udp_set f v b) = udp_get g b;
  udp_get_local f b b' : take 8 b = take 8 b' -> udp_get f b = udp_get f b';
  udp_fill_len s d b : UDP_HEADER_LEN <= len b -> length (udp_fill_checksum s d b) = length b;
  udp_get_fill f s d b : UDP_HEADER_LEN <= len b -> udp_get f (udp_fill_checksum s d b) = udp_get f b;
  udp_fill_data s d b : UDP_HEADER_LEN <= len b -> drop 8 (udp_fill_checksum s d b) = drop 8 b }.

Section edit.
Context {ip : Ipv4Lib} {tw : TransportLib}.

(** [ip_packet.payload_mut()], edited by [f]. *)
Definition edit_payload (f : list Z -> list Z) (b : list Z) : comp (list Z) :=
  pl ← ip_payload b; Ret (overwrite (ip_get HeaderLen b) (f pl) b).

(** A checked packet whose header is a whole one. *)
Definition ip_wf (b : list Z) : Prop := ip_checked b = true /\ IPV4_HEADER_LEN <= ip_get HeaderLen b.

Context {Hip : Ipv4Laws ip} {Htw : TransportLaws ip tw}.

Lemma ip_wf_bounds b : ip_wf b -> IPV4_HEADER_LEN <= len b /\
  20 <= ip_get HeaderLen b <= ip_get TotalLen b /\ ip_get TotalLen b <= len b.
Proof using Htw. intros [Hc Hh]. destruct (ip_checked_spec b Hc) as (? & ? & ?). unfold IPV4_HEADER_LEN in *. lia. Qed.

Lemma ip_payload_wf b : ip_wf b -> exists pl, ip_payload b = Ret pl /\
  len pl = ip_get TotalLen b - ip_get HeaderLen b.
Proof using Htw.
  intros Hb. destruct (ip_wf_bounds b Hb) as (H1 & H2 & H3). unfold ip_payload.
  rewrite slice_in by lia. eexists. split; [done|]. unfold_len. rewrite length_take, length_drop. lia.
Qed.

(** The bytes after the header decide the payload. *)
Lemma ip_payload_ext b b' : ip_wf b -> length b = length b' -> drop 20 b = drop 20 b' ->
  ip_get HeaderLen b' = ip_get HeaderLen b -> ip_get TotalLen b' = ip_get TotalLen b ->
  ip_wf b' /\ ip_payload b' = ip_payload b.
Proof using Htw.
  intros Hb Hl Hd Eh Et. destruct (ip_wf_bounds b Hb) as (H1 & H2 & H3). split.
  - destruct Hb as [Hc Hh]. split; [by rewrite <- (ip_checked_ext b b')|lia].
  - unfold ip_payload. rewrite Eh, Et. assert (len b' = len b) by (unfold len; congruence).
    rewrite !slice_in by lia. f_equal. f_equal.
    replace (Z.to_nat (ip_get HeaderLen b)) with (20 + Z.to_nat (ip_get HeaderLen b - 20))%nat by lia.
    by rewrite <- !drop_drop, Hd.
Qed.

Lemma ip_set_wf f v b : ip_wf b -> f <> HeaderLen -> f <> TotalLen ->
  ip_wf (ip_set f v b) /\ ip_payload (ip_set f v b) = ip_payload b /\ length (ip_set f v b) = length b.
Proof using Hip Htw.
  intros Hb Hf1 Hf2. destruct (ip_wf_bounds b Hb) as (H1 & _).
  destruct (ip_payload_ext b (ip_set f v b) Hb) as [? ?];
    [by rewrite ip_set_len|by rewrite ip_set_payload|by rewrite ip_get_set_ne..|].
  split_and!; [done|done|by apply ip_set_len].
Qed.
Lemma ip_fill_wf b : ip_wf b ->
  ip_wf (ip_fill_checksum b) /\ ip_payload (ip_fill_checksum b) = ip_payload b /\
  length (ip_fill_checksum b) = length b.
Proof using Hip Htw.
  intros Hb. destruct (ip_wf_bounds b Hb) as (H1 & _).
  destruct (ip_payload_ext b (ip_fill_checksum b) Hb) as [? ?];
    [by rewrite ip_fill_len|by rewrite ip_fill_payload|by rewrite ip_get_fill..|].
  split_and!; [done|done|by apply ip_fill_len].
Qed.

Lemma edit_payload_wf f b pl : ip_wf b -> ip_payload b = Ret pl -> length (f pl) = length pl ->
  exists b', edit_payload f b = Ret b' /\ ip_wf b' /\ ip_payload b' = Ret (f pl) /\ length b' = length b /\
    forall g, ip_get g b' = ip_get g b.
Proof using Htw.
  intros Hb Hpl Hf. destruct (ip_wf_bounds b Hb) as (H1 & H2 & H3).
  destruct (ip_payload_wf b Hb) as (pl' & Hpl' & Hlen). rewrite Hpl in Hpl'. injection Hpl' as <-.
  unfold edit_payload. rewrite Hpl. cbn [mbind comp_bind]. eexists. split; [done|].
  set (b' := overwrite _ _ _).
  assert (len (f pl) = len pl) as Hfl by (unfold len; congruence).
  assert (length b' = length b) as Hl by (apply length_overwrite; lia).
  assert (take 20 b' = take 20 b) as Ht.
  { apply overwrite_before; [unfold IPV4_HEADER_LEN, len in *; lia|lia|lia]. }
  assert (forall g, ip_get g b' = ip_get g b) as Hg by (intros g; by apply ip_get_local).
  split_and!.
  - destruct Hb as [Hc Hh]. split; [|by rewrite Hg]. rewrite <- Hc. apply ip_checked_ext; congruence.
  - unfold ip_payload. rewrite !Hg. assert (len b' = len b) by (unfold len; congruence).
    rewrite slice_in by lia. f_equal.
    replace (Z.to_nat (ip_get TotalLen b - ip_get HeaderLen b)) with (length (f pl)) by (unfold len in *; lia).
    apply overwrite_at; lia.
  - exact Hl.
  - exact Hg.
Qed.
Lemma checked_payload b : ip_checked b = true -> exists pl, ip_payload b = Ret pl.
Proof using Htw.
  intros Hc. destruct (ip_checked_spec b Hc) as (_ & H1 & H2). unfold ip_payload. rewrite slice_in by lia. eauto.
Qed.
Lemma add_fragment_returns r b now : ip_checked b = true -> exists r' o, add_fragment r b now = Ret (r', o).
Proof using Htw.
  intros Hc. destruct (checked_payload b Hc) as [pl Hpl]. unfold add_fragment. rewrite Hpl. cbn [mbind comp_bind].
  destruct (negb _); [eauto|]. destruct (assemble _) as [? [?|]]; eauto.
Qed.
End edit.

(** ** Packets for a peer *)

Lemma header_wf_payload p h : bytes_ok (inner p) -> peer_manager_header p = Some h ->
  PeerManagerHeader_wf h /\ exists b, payload p = Ret b.
Proof.
  intros Hb Hh. pose proof (header_has_header p h Hh) as Hl. destruct (pm_header_is_Some p Hb Hl) as (h' & Hh' & Hw & _).
  rewrite Hh in Hh'. injection Hh' as <-. split; [done|]. rewrite payload_in by done. eauto.
Qed.

(** An IPv4 packet in a data packet for a peer; [u] is what the fresh buffer holds. *)
Definition new_peer_packet (u : nat -> Z) (from to : Z) (b : list Z) : comp ZCPacket :=
  p ← new_with_payload u b; fill_peer_manager_hdr p from to (PacketType_as_u8 Data).
Definition new_no_proxy_packet (u : nat -> Z) (from to : Z) (b : list Z) : comp ZCPacket :=
  p ← new_peer_packet u from to b;
  '(h, put) ← unwrap (mut_peer_manager_header p);
  Ret (put (set_no_proxy h true)).
(** The callback of [compose_ipv4_packet], on the packets it is given. *)
Fixpoint collect_packets (f : list Z -> comp ZCPacket) (l : list (list Z)) : comp (list ZCPacket) :=
  match l with
  | [] => Ret []
  | b :: l => p ← f b; l ← collect_packets f l; Ret (p :: l)
  end.

Definition data_packet (from to : Z) (no_proxy : bool) (b : list Z) (p : ZCPacket) : Prop :=
  payload p = Ret b /\ exists h, peer_manager_header p = Some h /\ from_peer_id h = from /\
    to_peer_id h = to /\ pm_packet_type h = PacketType_as_u8 Data /\ is_no_proxy h = no_proxy.

Lemma new_peer_packet_spec u from to b : u32 from -> u32 to ->
  exists p0 h, new_peer_packet u from to b = Ret (put_pm_header p0 h) /\ has_header p0 /\ payload p0 = Ret b /\
    PeerManagerHeader_wf h /\ from_peer_id h = from /\ to_peer_id h = to /\
    pm_packet_type h = PacketType_as_u8 Data /\ is_no_proxy h = false.
Proof.
  intros Hm Hs. unfold new_peer_packet, new_with_payload. cbn [packet_type new_nic_packet].
  set (off := payload_offset (get_packet_offsets NIC)).
  pose proof (len_nonneg b) as Hb.
  assert (0 <= off) as Hoff by (by vm_compute).
  set (pre := take (Z.to_nat off) (uninit u (off + len b))).
  set (suf := drop (Z.to_nat off) (uninit u (off + len b))).
  assert (len pre = off) as Hpre by (unfold pre, len; rewrite length_take, length_uninit; lia).
  assert (length suf = length b) as Hsuf by (unfold suf; rewrite length_drop, length_uninit; unfold len; lia).
  rewrite <- (take_drop (Z.to_nat off) (uninit u (off + len b))). fold pre suf.
  rewrite (mut_payload_app pre suf NIC Hpre). cbn [mbind comp_bind].
  rewrite copy_into_in by (unfold len in *; lia). cbn [mbind comp_bind].
  assert (overwrite 0 b suf = b) as ->.
  { unfold overwrite. change (take (Z.to_nat 0) suf) with (@nil Z). cbn [app]. rewrite drop_ge by (cbn; lia). apply app_nil_r. }
  rewrite (overwrite_payload pre suf b) by done.
  set (p0 := {| inner := pre ++ b; packet_type := NIC |}).
  assert (has_header p0) as Hh.
  { unfold has_header, zc_payload_offset. cbn [packet_type inner p0]. fold off. rewrite len_app. lia. }
  rewrite fill_hdr_spec by done. set (h0 := {| from_peer_id := _ |}).
  assert (PeerManagerHeader_wf h0) as Hw.
  { unfold PeerManagerHeader_wf, h0. cbn. split_and!; try done; try (by apply wrap_range; lia). }
  exists p0, h0. split_and!; try done. by apply payload_app.
Qed.

Lemma peer_packet_carries u from to b : u32 from -> u32 to ->
  exists p, new_peer_packet u from to b = Ret p /\ data_packet from to false b p.
Proof.
  intros Hm Hs. destruct (new_peer_packet_spec u from to b Hm Hs) as (p0 & h & -> & Hh & Hpl & Hw & H).
  eexists. split; [done|]. split; [by rewrite put_pm_payload|]. exists h. by rewrite put_pm_get.
Qed.
Lemma no_proxy_packet_carries u from to b : u32 from -> u32 to ->
  exists p, new_no_proxy_packet u from to b = Ret p /\ data_packet from to true b p.
Proof.
  intros Hm Hs. destruct (new_peer_packet_spec u from to b Hm Hs) as (p0 & h & E & Hh & Hpl & Hw & H1 & H2 & H3 & _).
  unfold new_no_proxy_packet. rewrite E. cbn [mbind comp_bind].
  assert (has_header (put_pm_header p0 h)) as Hh0 by (by apply put_pm_has_header).
  rewrite mut_pm_header, put_pm_get by done. cbn [option_map unwrap mbind comp_bind].
  eexists. split; [reflexivity|]. split; [by rewrite !put_pm_payload|].
  assert (NO_PROXY ∈ all_flags) as Hf by (unfold all_flags; repeat constructor).
  exists (set_no_proxy h true). rewrite put_pm_get; [|done|by apply set_flag_wf].
  split_and!; try done. by apply contains_set_flag.
Qed.
Lemma collect_packets_spec f (R : list Z -> ZCPacket -> Prop) l :
  (forall b, exists p, f b = Ret p /\ R b p) -> exists ps, collect_packets f l = Ret ps /\ Forall2 R l ps.
Proof.
  intros Hf. induction l as [|b l (ps & E & Hps)]; cbn [collect_packets]; [by exists []|].
  destruct (Hf b) as (p & -> & Hp). cbn [mbind comp_bind]. rewrite E. cbn [mbind comp_bind].
  exists (p :: ps). split; [done|]. by constructor.
Qed.

(** The packets [bs] are the fragments of [seg]: whatever else arrives in between,
    the one that completes it hands [seg] over, and nothing does before. *)
Definition delivers {ip : Ipv4Lib} (a : ComposeIpv4PacketArgs) (bs : list (list Z)) (seg : list Z) : Prop :=
  forall r t0 evs b now,
    let key := (src_v4 a, dst_v4 a, ip_id a) in
    ip_packets r !! key = None -> Forall (ev_ok a bs t0 (ip_timeout r)) evs -> b ∈ bs -> t0 <= now ->
    ~ Forall (fun x => x ∈ arrivals evs) bs -> Forall (fun x => x ∈ arrivals evs ++ [b]) bs ->
    exists r' outs, run_feed r (evs ++ [Arrive b now]) = Ret (r', outs ++ [(key, seg)]) /\
      Forall (fun o => o.1 <> key) outs /\ ip_packets r' !! key = None.

(** ** The headers as bit fields *)

Module ConcreteTransport.
Definition tcp_bits (f : tcp_field) : Z * Z :=
  match f with TcpSrcPort => (144, 16) | TcpDstPort => (128, 16) | TcpSyn => (49, 1) | TcpAck => (52, 1) end.
Definition data_offset (b : list Z) : Z := getf 60 4 (header_word b) * 4.
Definition udp_word (b : list Z) : Z := be_decode (take 8 b) mod 2 ^ 64.
Definition udp_bits (f : udp_field) : Z * Z :=
  match f with UdpSrcPort => (48, 16) | UdpDstPort => (32, 16) | UdpLen => (16, 16) end.
Definition put_udp (n : Z) (b : list Z) : list Z := overwrite 0 (be_encode 8 n) b.

#[export] Instance ip_lib : Ipv4Lib := ipv4_bits.
#[export] Instance ip_laws : Ipv4Laws ip_lib := ipv4_bits_laws.

(** The checksum of a segment is left to a number that tells the addresses. *)
#[export] Instance lib : TransportLib := {
  ip_checked b := (20 <=? len b) && (ip_get HeaderLen b <=? len b) &&
                  (ip_get HeaderLen b <=? ip_get TotalLen b) && (ip_get TotalLen b <=? len b);
  tcp_checked b := (20 <=? len b) && (20 <=? data_offset b) && (data_offset b <=? len b);
  tcp_get f b := getf (tcp_bits f).1 (tcp_bits f).2 (header_word b);
  tcp_set f v b := put_header (setf (tcp_bits f).1 (tcp_bits f).2 v (header_word b)) b;
  tcp_fill_checksum s d b := put_header (setf 16 16 (s + d) (header_word b)) b;
  udp_checked b := (8 <=? len b) && (8 <=? getf 16 16 (udp_word b)) && (getf 16 16 (udp_word b) <=? len b);
  udp_get f b := getf (udp_bits f).1 (udp_bits f).2 (udp_word b);
  udp_set f v b := put_udp (setf (udp_bits f).1 (udp_bits f).2 v (udp_word b)) b;
  udp_fill_checksum s d b := put_udp (setf 0 16 (s + d) (udp_word b)) b }.

Lemma tcp_bits_ok f : 0 <= (tcp_bits f).1 /\ 0 < (tcp_bits f).2 /\ (tcp_bits f).1 + (tcp_bits f).2 <= 160.
Proof. destruct f; cbn; lia. Qed.
Lemma tcp_apart f g : f <> g -> (tcp_bits f).1 + (tcp_bits f).2 <= (tcp_bits g).1 \/
  (tcp_bits g).1 + (tcp_bits g).2 <= (tcp_bits f).1.
Proof. destruct f, g; cbn; intros; (lia || congruence). Qed.

(** A field outside the data offset is written. *)
Lemma put_tcp o w v b : 0 <= o -> 0 <= w -> o + w <= 160 -> o + w <= 60 \/ 64 <= o -> tcp_checked b = true ->
  let b' := put_header (setf o w v (header_word b)) b in
  length b' = length b /\ tcp_checked b' = true /\ drop 20 b' = drop 20 b /\
  header_word b' = setf o w v (header_word b).
Proof.
  intros Ho Hw Hle Hoff Hc b'. cbn [tcp_checked lib] in Hc. rewrite !andb_true_iff, !Z.leb_le in Hc.
  destruct Hc as [[H1 H2] H3].
  assert (in_range 160 (setf o w v (header_word b))) as Hr by (apply setf_range; (lia || apply header_word_range)).
  assert (header_word b' = setf o w v (header_word b)) as Ew by (by apply put_header_word).
  assert (length b' = length b) as El by (by apply put_header_len).
  assert (data_offset b' = data_offset b) as Ed.
  { unfold data_offset. rewrite Ew, getf_setf_apart; [done|lia..|lia]. }
  split_and!; [done| |by apply put_header_payload|done].
  cbn [tcp_checked lib]. rewrite Ed. assert (len b' = len b) as -> by (unfold len; congruence).
  rewrite !andb_true_iff, !Z.leb_le. lia.
Qed.

#[export] Instance laws : TransportLaws ip_lib lib.
Proof.
  split.
  - intros f b b' E. cbn [ip_get ip_lib ipv4_bits]. unfold header_word. by rewrite E.
  - intros b. cbn [ip_checked lib]. rewrite !andb_true_iff, !Z.leb_le. intros [[[H1 H2] H3] H4].
    unfold IPV4_HEADER_LEN. split_and!; [done| |done|done].
    cbn [ip_get ip_lib ipv4_bits]. cbn [field_bits field_unit fst snd]. unfold getf.
    pose proof (Z.mod_pos_bound (header_word b / 2 ^ 152) (2 ^ 4) ltac:(lia)). lia.
  - intros b b' El Eh Et. cbn [ip_checked lib]. assert (len b = len b') as -> by (unfold len; congruence). by rewrite Eh, Et.
  - intros b. cbn [ip_get ip_lib ipv4_bits]. cbn [field_bits field_unit fst snd]. rewrite !Z.mul_1_r.
    split; apply Z.mod_pos_bound; lia.
  - intros b. cbn [tcp_get lib tcp_bits fst snd]. split; apply Z.mod_pos_bound; lia.
  - intros f v b Hc. destruct (tcp_bits_ok f) as (? & ? & ?). apply put_tcp; [lia..| |done]. destruct f; cbn; lia.
  - intros f v b Hc. destruct (tcp_bits_ok f) as (? & ? & ?). apply put_tcp; [lia..| |done]. destruct f; cbn; lia.
  - intros f v b Hc Hv. destruct (tcp_bits_ok f) as (? & ? & ?). cbn [tcp_get tcp_set lib].
    destruct (put_tcp (tcp_bits f).1 (tcp_bits f).2 v b) as (_ & _ & _ & ->); [lia..| |done|]; [destruct f; cbn; lia|].
    rewrite getf_setf by lia. apply Z.mod_small. destruct f; exact Hv.
  - intros f g v b Hc Hne. destruct (tcp_bits_ok f) as (? & ? & ?), (tcp_bits_ok g) as (? & ? & ?). cbn [tcp_get tcp_set lib].
    destruct (put_tcp (tcp_bits f).1 (tcp_bits f).2 v b) as (_ & _ & _ & ->); [lia..| |done|]; [destruct f; cbn; lia|].
    rewrite getf_setf_apart; [done|lia..|by apply tcp_apart].
  - intros f v b Hc. destruct (tcp_bits_ok f) as (? & ? & ?). apply put_tcp; [lia..| |done]. destruct f; cbn; lia.
  - intros s d b Hc. by apply put_tcp; [lia..|].
  - intros s d b Hc. by apply put_tcp; [lia..|].
  - intros f s d b Hc. destruct (tcp_bits_ok f) as (? & ? & ?). cbn [tcp_get tcp_fill_checksum lib].
    destruct (put_tcp 16 16 (s + d) b) as (_ & _ & _ & ->); [lia..|done|].
    rewrite getf_setf_apart; [done|lia..|]. destruct f; cbn; lia.
  - intros s d b Hc. by apply put_tcp; [lia..|].
Qed.

Lemma udp_bits_ok f : 0 <= (udp_bits f).1 /\ 0 < (udp_bits f).2 /\ (udp_bits f).1 + (udp_bits f).2 <= 64.
Proof. destruct f; cbn; lia. Qed.
Lemma udp_apart f g : f <> g -> (udp_bits f).1 + (udp_bits f).2 <= (udp_bits g).1 \/
  (udp_bits g).1 + (udp_bits g).2 <= (udp_bits f).1.
Proof. destruct f, g; cbn; intros; (lia || congruence). Qed.
Lemma put_udp_spec o w v b : 0 <= o -> 0 <= w -> o + w <= 64 -> 8 <= len b ->
  let b' := put_udp (setf o w v (udp_word b)) b in
  length b' = length b /\ drop 8 b' = drop 8 b /\ udp_word b' = setf o w v (udp_word b).
Proof.
  intros Ho Hw Hle Hb b'.
  assert (in_range 64 (setf o w v (udp_word b))) as Hr.
  { apply setf_range; [lia..|]. apply Z.mod_pos_bound. lia. }
  assert (len (be_encode 8 (setf o w v (udp_word b))) = 8) as Hl by (unfold len; by rewrite length_be_encode).
  split_and!.
  - apply length_overwrite; lia.
  - apply overwrite_after; [lia..|]. by rewrite length_be_encode.
  - unfold udp_word at 1, b', put_udp, overwrite. change (take (Z.to_nat 0) b) with (@nil Z). cbn [app].
    rewrite take_app_le, take_ge by (rewrite length_be_encode; lia).
    rewrite be_decode_encode; [|exact Hr]. apply Z.mod_small. exact Hr.
Qed.

#[export] Instance udp_laws : UdpLaws lib.
Proof.
  split; unfold UDP_HEADER_LEN.
  - intros b. cbn [udp_checked udp_get lib udp_bits fst snd]. rewrite !andb_true_iff, !Z.leb_le. lia.
  - intros b. cbn [udp_get lib udp_bits fst snd]. split; apply Z.mod_pos_bound; lia.
  - intros f v b Hb. destruct (udp_bits_ok f) as (? & ? & ?). apply put_udp_spec; lia.
  - intros f v b Hb Hv. destruct (udp_bits_ok f) as (? & ? & ?). cbn [udp_get udp_set lib].
    destruct (put_udp_spec (udp_bits f).1 (udp_bits f).2 v b) as (_ & _ & ->); [lia..|].
    rewrite getf_setf by lia. apply Z.mod_small. destruct f; exact Hv.
  - intros f g v b Hb Hne. destruct (udp_bits_ok f) as (? & ? & ?), (udp_bits_ok g) as (? & ? & ?). cbn [udp_get udp_set lib].
    destruct (put_udp_spec (udp_bits f).1 (udp_bits f).2 v b) as (_ & _ & ->); [lia..|].
    rewrite getf_setf_apart; [done|lia..|by apply udp_apart].
  - intros f b b' E. cbn [udp_get lib]. unfold udp_word. by rewrite E.
  - intros s d b Hb. by apply put_udp_spec.
  - intros f s d b Hb. destruct (udp_bits_ok f) as (? & ? & ?). cbn [udp_get udp_fill_checksum lib].
    destruct (put_udp_spec 0 16 (s + d) b) as (_ & _ & ->); [lia..|].
    rewrite getf_setf_apart; [done|lia..|]. destruct f; cbn; lia.
  - intros s d b Hb. by apply put_udp_spec.
Qed.
End ConcreteTransport.
