(* ===== verification/TcpProxy.v ===== *)
(** The TCP proxy: [gateway/proxy/tcp_proxy_engine.rs].

    Packets from peers to a proxied network are redirected to the local TCP stack,
    and its answers are rewritten to come from the address the peer spoke to.  The
    entries are shared through [Arc] by three maps and by the tasks that serve
    them: they are objects of a heap, and the maps hold their identifiers.  Each
    method is atomic; the clock, the identifier of a new entry and the host's
    context are arguments. *)

From stdpp Require Import list gmap.
From S2P Require Import Prelude Headers Packet IpReassembler CidrTable TransportWire.
Local Open Scope Z_scope.

Inductive TcpProxyMode := ModeTcp | ModeKcpSrc | ModeQuicSrc.
Inductive TcpNatEntryState := SynReceived | ConnectingDst | Connected | ClosingSrc | ClosingDst | Closed.
#[export] Instance TcpNatEntryState_eq_dec : EqDecision TcpNatEntryState.
Proof. solve_decision. Defined.

Record TcpNatEntry := {
  te_id : Z; te_src : SocketAddr; te_real_dst : SocketAddr; te_mapped_dst : SocketAddr;
  te_start_time : Z; te_start_time_unix_secs : Z; te_state : TcpNatEntryState }.
Record TcpNatEntrySnapshot := {
  ts_src : SocketAddr; ts_dst : SocketAddr; ts_mapped_dst : SocketAddr; ts_start_time : Z;
  ts_state : TcpNatEntryState }.

Definition TcpNatEntry_new (id now unix : Z) (src real_dst mapped_dst : SocketAddr) : TcpNatEntry :=
  {| te_id := id; te_src := src; te_real_dst := real_dst; te_mapped_dst := mapped_dst;
     te_start_time := now; te_start_time_unix_secs := unix; te_state := SynReceived |}.
Definition entry_set_state (e : TcpNatEntry) (st : TcpNatEntryState) : TcpNatEntry :=
  {| te_id := te_id e; te_src := te_src e; te_real_dst := te_real_dst e; te_mapped_dst := te_mapped_dst e;
     te_start_time := te_start_time e; te_start_time_unix_secs := te_start_time_unix_secs e; te_state := st |}.
Definition entry_snapshot (e : TcpNatEntry) : TcpNatEntrySnapshot :=
  {| ts_src := te_src e; ts_dst := te_real_dst e; ts_mapped_dst := te_mapped_dst e;
     ts_start_time := te_start_time_unix_secs e; ts_state := te_state e |}.
Definition addr_port (a : SocketAddr) : Z := match a with V4 _ p | V6 _ p => p end.

Inductive TcpProxyPacketAction := Handled (new_syn : bool) | Pass.

Section engine.
Context {nl : NetLib} {ip : Ipv4Lib} {tw : TransportLib}.

Record TcpProxyPeerContext := {
  pc_local_inet : option Ipv4Inet; pc_virtual_ipv4 : option Z; pc_local_port : Z;
  pc_enable_exit_node : bool; pc_no_tun : bool; pc_smoltcp_enabled : bool }.
Record TcpProxyNicContext := {
  nc_local_inet : option Ipv4Inet; nc_local_port : Z; nc_my_peer_id : Z; nc_smoltcp_enabled : bool }.

Record TcpProxyEngine := {
  cidr_table : list ProxyCidrEntry; tcp_local_port : Z;
  nat_heap : gmap Z TcpNatEntry;
  syn_map : gmap SocketAddr Z; conn_map : gmap Z Z; addr_conn_map : gmap SocketAddr Z }.
Definition TcpProxyEngine_new (t : list ProxyCidrEntry) : TcpProxyEngine :=
  {| cidr_table := t; tcp_local_port := 0; nat_heap := ∅; syn_map := ∅; conn_map := ∅; addr_conn_map := ∅ |}.
Definition with_maps (g : TcpProxyEngine) (h : gmap Z TcpNatEntry) (s : gmap SocketAddr Z) (c : gmap Z Z)
    (a : gmap SocketAddr Z) : TcpProxyEngine :=
  {| cidr_table := cidr_table g; tcp_local_port := tcp_local_port g; nat_heap := h; syn_map := s;
     conn_map := c; addr_conn_map := a |}.
Definition set_local_port (g : TcpProxyEngine) (port : Z) : TcpProxyEngine :=
  {| cidr_table := cidr_table g; tcp_local_port := port; nat_heap := nat_heap g; syn_map := syn_map g;
     conn_map := conn_map g; addr_conn_map := addr_conn_map g |}.

Definition check_packet_from_peer_fast (g : TcpProxyEngine) (mode : TcpProxyMode) (ctx : TcpProxyPeerContext) : bool :=
  match mode with
  | ModeTcp => negb (table_is_empty (cidr_table g)) || pc_enable_exit_node ctx || pc_no_tun ctx
  | ModeKcpSrc | ModeQuicSrc => true
  end.

Definition real_dst_ip_for_mode (g : TcpProxyEngine) (mode : TcpProxyMode) (origin_ip : Z) (exit_node : bool)
    (ctx : TcpProxyPeerContext) : option Z :=
  match mode with
  | ModeTcp =>
    match lookup_v4 (cidr_table g) origin_ip with
    | Some r => Some r
    | None =>
      let no_tun_local_virtual_ip := pc_no_tun ctx && bool_decide (Some origin_ip = pc_virtual_ipv4 ctx) in
      if exit_node || no_tun_local_virtual_ip then Some origin_ip else None
    end
  | ModeKcpSrc | ModeQuicSrc => Some origin_ip
  end.

Definition fake_local_ipv4 (i : Ipv4Inet) : Z := inet_first_address i.

Definition allowed_packet_type (mode : TcpProxyMode) (h : PeerManagerHeader) : bool :=
  match mode with
  | ModeTcp => pm_packet_type h =? PacketType_as_u8 Data
  | ModeKcpSrc => (pm_packet_type h =? PacketType_as_u8 DataWithKcpSrcModified) && (from_peer_id h =? to_peer_id h)
  | ModeQuicSrc => (pm_packet_type h =? PacketType_as_u8 DataWithQuicSrcModified) && (from_peer_id h =? to_peer_id h)
  end.

(** [expect] on the result of [new_checked]. *)
Definition expect_checked (ok : bool) : comp unit := if ok then Ret tt else Panic.

(** The rewriting at the end of [try_handle_peer_packet]. *)
Definition rewrite_to_local (ctx : TcpProxyPeerContext) (inet : Ipv4Inet) (b : list Z) : comp (list Z) :=
  let local_ip := inet_address inet in
  _ ← expect_checked (ip_checked b);
  let b := if negb (pc_smoltcp_enabled ctx) && (ip_get SrcAddr b =? local_ip)
           then ip_set SrcAddr (fake_local_ipv4 inet) b else b in
  let b := ip_set DstAddr local_ip b in
  let source := ip_get SrcAddr b in
  pl ← ip_payload b;
  _ ← expect_checked (tcp_checked pl);
  b ← edit_payload (fun t => tcp_fill_checksum source local_ip (tcp_set TcpDstPort (pc_local_port ctx) t)) b;
  Ret (ip_fill_checksum b).

Definition try_handle_peer_packet (g : TcpProxyEngine) (mode : TcpProxyMode) (packet : ZCPacket)
    (ctx : TcpProxyPeerContext) (id now unix : Z) : comp (TcpProxyEngine * ZCPacket * TcpProxyPacketAction) :=
  if negb (check_packet_from_peer_fast g mode ctx) then Ret (g, packet, Pass) else
  match pc_local_inet ctx with
  | None => Ret (g, packet, Pass)
  | Some inet =>
    match peer_manager_header packet with
    | None => Ret (g, packet, Pass)
    | Some hdr =>
      if is_no_proxy hdr then Ret (g, packet, Pass) else
      if negb (allowed_packet_type mode hdr) then Ret (g, packet, Pass) else
      b ← payload packet;
      if negb (ip_checked b) then Ret (g, packet, Pass) else
      if negb (ip_get Version b =? 4) || negb (ip_get NextHeader b =? IP_TCP) then Ret (g, packet, Pass) else
      match real_dst_ip_for_mode g mode (ip_get DstAddr b) (is_exit_node hdr) ctx with
      | None => Ret (g, packet, Pass)
      | Some real_dst_ip =>
        '(hdr, put) ← unwrap (mut_peer_manager_header packet);
        let packet := put (with_packet_type hdr (PacketType_as_u8 Data)) in
        '(b, put) ← mut_payload packet;
        _ ← expect_checked (ip_checked b);
        pl ← ip_payload b;
        _ ← expect_checked (tcp_checked pl);
        let src := V4 (ip_get SrcAddr b) (tcp_get TcpSrcPort pl) in
        let syn := negb (tcp_get TcpSyn pl =? 0) && (tcp_get TcpAck pl =? 0) in
        let dest_port := tcp_get TcpDstPort pl in
        if negb syn && bool_decide (addr_conn_map g !! src = None) && bool_decide (syn_map g !! src = None)
        then Ret (g, packet, Pass) else
        let g :=
          if syn then
            let e := TcpNatEntry_new id now unix src (V4 real_dst_ip dest_port) (V4 (ip_get DstAddr b) dest_port) in
            with_maps g (<[id := e]> (nat_heap g)) (<[src := id]> (syn_map g)) (conn_map g) (addr_conn_map g)
          else g in
        b ← rewrite_to_local ctx inet b;
        Ret (g, put b, Handled syn)
      end
    end
  end.

(** The entry of a peer's address, if it has one. *)
Definition find_entry (g : TcpProxyEngine) (a : SocketAddr) : option TcpNatEntry :=
  id ← match addr_conn_map g !! a with Some id => Some id | None => syn_map g !! a end;
  nat_heap g !! id.

(** The rewriting at the end of [try_process_packet_from_nic]. *)
Definition rewrite_from_local (mapped_dst_ip port : Z) (to_local : option Z) (b : list Z) : comp (list Z) :=
  _ ← expect_checked (ip_checked b);
  let b := ip_set SrcAddr mapped_dst_ip b in
  let b := match to_local with Some local_ip => ip_set DstAddr local_ip b | None => b end in
  let dst := ip_get DstAddr b in
  pl ← ip_payload b;
  _ ← expect_checked (tcp_checked pl);
  b ← edit_payload (fun t => tcp_fill_checksum mapped_dst_ip dst (tcp_set TcpSrcPort port t)) b;
  Ret (ip_fill_checksum b).

Definition with_to_peer_id (h : PeerManagerHeader) (p : Z) : PeerManagerHeader :=
  {| from_peer_id := from_peer_id h; to_peer_id := p; pm_packet_type := pm_packet_type h; flags := flags h;
     forward_counter := forward_counter h; reserved := reserved h; pm_len := pm_len h |}.

Definition try_process_packet_from_nic (g : TcpProxyEngine) (packet : ZCPacket) (ctx : TcpProxyNicContext)
    : comp (ZCPacket * bool) :=
  match nc_local_inet ctx with
  | None => Ret (packet, false)
  | Some inet =>
    let local_ip := inet_address inet in
    b ← payload packet;
    if negb (ip_checked b) then Ret (packet, false) else
    if negb (ip_get Version b =? 4) || negb (ip_get SrcAddr b =? local_ip) || negb (ip_get NextHeader b =? IP_TCP)
    then Ret (packet, false) else
    pl ← ip_payload b;
    if negb (tcp_checked pl) then Ret (packet, false) else
    if negb (tcp_get TcpSrcPort pl =? nc_local_port ctx) then Ret (packet, false) else
    let need_transform_dst := negb (nc_smoltcp_enabled ctx) && (ip_get DstAddr b =? fake_local_ipv4 inet) in
    let dst_addr := V4 (if need_transform_dst then local_ip else ip_get DstAddr b) (tcp_get TcpDstPort pl) in
    match find_entry g dst_addr with
    | None => Ret (packet, false)
    | Some entry =>
      if negb (bool_decide (te_src entry = dst_addr)) then Panic else
      match te_mapped_dst entry with
      | V6 _ _ => Panic
      | V4 mapped_dst_ip _ =>
        '(hdr, put) ← unwrap (mut_peer_manager_header packet);
        let hdr := set_no_proxy hdr true in
        let hdr := if need_transform_dst then with_to_peer_id hdr (nc_my_peer_id ctx) else hdr in
        let packet := put hdr in
        '(b, put) ← mut_payload packet;
        b ← rewrite_from_local mapped_dst_ip (addr_port (te_real_dst entry))
              (if need_transform_dst then Some local_ip else None) b;
        Ret (put b, true)
      end
    end
  end.

(** ** Connections *)

Definition accept_connection (g : TcpProxyEngine) (socket_addr : SocketAddr) (virtual_inet : option Ipv4Inet)
    : comp (TcpProxyEngine * option TcpNatEntry) :=
  let socket_addr :=
    match virtual_inet, socket_addr with
    | Some inet, V4 a p => if a =? fake_local_ipv4 inet then V4 (inet_address inet) p else socket_addr
    | _, _ => socket_addr
    end in
  match syn_map g !! socket_addr with
  | None => Ret (g, None)
  | Some id =>
    let g := with_maps g (nat_heap g) (delete socket_addr (syn_map g)) (conn_map g) (addr_conn_map g) in
    match nat_heap g !! id with
    | None => Ret (g, None)
    | Some entry =>
      if negb (bool_decide (te_state entry = SynReceived)) then Ret (g, None) else
      let entry := entry_set_state entry ConnectingDst in
      if bool_decide (conn_map g !! id = None)
      then Ret (with_maps g (<[id := entry]> (nat_heap g)) (syn_map g) (<[id := id]> (conn_map g))
                  (<[te_src entry := id]> (addr_conn_map g)), Some entry)
      else Panic
    end
  end.

Definition tcp_remove_entry (g : TcpProxyEngine) (id : Z) : TcpProxyEngine :=
  match conn_map g !! id with
  | None => g
  | Some _ =>
    match nat_heap g !! id with
    | None => g
    | Some entry =>
      with_maps g (nat_heap g) (syn_map g) (delete id (conn_map g))
        (if bool_decide (addr_conn_map g !! te_src entry = Some id)
         then delete (te_src entry) (addr_conn_map g) else addr_conn_map g)
    end
  end.

Definition syn_expired (h : gmap Z TcpNatEntry) (timeout now id : Z) : bool :=
  match h !! id with Some e => timeout <? now - te_start_time e | None => false end.
Definition cleanup_expired_syn (g : TcpProxyEngine) (timeout now : Z) : TcpProxyEngine :=
  let expired id := syn_expired (nat_heap g) timeout now id in
  let gone := filter (fun id => expired id = true) (map snd (map_to_list (syn_map g))) in
  with_maps g (foldr (fun id h => alter (fun e => entry_set_state e Closed) id h) (nat_heap g) gone)
    (filter (fun kv => expired kv.2 = false) (syn_map g)) (conn_map g) (addr_conn_map g).

(** A task that serves a connection moves it along. *)
Definition set_state (g : TcpProxyEngine) (id : Z) (st : TcpNatEntryState) : TcpProxyEngine :=
  with_maps g (alter (fun e => entry_set_state e st) id (nat_heap g)) (syn_map g) (conn_map g) (addr_conn_map g).

Definition is_tcp_proxy_connection (g : TcpProxyEngine) (src : SocketAddr) : bool :=
  bool_decide (is_Some (syn_map g !! src)) || bool_decide (is_Some (addr_conn_map g !! src)).
Definition tcp_list_entries (g : TcpProxyEngine) : list TcpNatEntrySnapshot :=
  let shown ids := map entry_snapshot (omap (fun id => nat_heap g !! id) ids) in
  shown (map snd (map_to_list (syn_map g))) ++ shown (map fst (map_to_list (conn_map g))).
End engine.
