(* ===== verification/TcpProxyProofs.v ===== *)
(** The TCP proxy: the invariant of its maps and the transparency of its address
    translation. *)

From stdpp Require Import list gmap.
From S2P Require Import Prelude Headers Packet IpReassembler CidrTable TransportWire TcpProxy.
Local Open Scope Z_scope.

Section rewriting.
Context {nl : NetLib} {ip : Ipv4Lib} {tw : TransportLib} {Hip : Ipv4Laws ip} {Htw : TransportLaws ip tw}.

(** A whole TCP segment in a whole IPv4 packet. *)
Definition tcp_packet (b : list Z) (seg : list Z) : Prop :=
  ip_wf b /\ ip_get Version b = 4 /\ ip_get NextHeader b = IP_TCP /\
  ip_payload b = Ret seg /\ tcp_checked seg = true.

(** The addresses that a packet carries. *)
Definition from_to (b seg : list Z) (src dst : Z * Z) : Prop :=
  ip_get SrcAddr b = src.1 /\ tcp_get TcpSrcPort seg = src.2 /\
  ip_get DstAddr b = dst.1 /\ tcp_get TcpDstPort seg = dst.2.

Lemma set_addr_packet f v b seg : tcp_packet b seg -> f = SrcAddr \/ f = DstAddr -> u32 v ->
  tcp_packet (ip_set f v b) seg /\ length (ip_set f v b) = length b /\ ip_get f (ip_set f v b) = v /\
  forall g, f <> g -> ip_get g (ip_set f v b) = ip_get g b.
Proof using Hip Htw.
  intros (Hb & Hv & Hn & Hp & Hc) Hf Hu. destruct (ip_wf_bounds b Hb) as (Hl & _).
  destruct (ip_set_wf f v b Hb) as (Hb' & Hp' & Hl'); [by destruct Hf; subst..|].
  assert (ip_get f (ip_set f v b) = v) as Hget.
  { rewrite ip_get_set; [destruct Hf; subst f; cbn; by rewrite Z.div_1_r, Z.mul_1_r|done|destruct Hf; subst f; exact Hu]. }
  split_and!; [|done|done|by intros; apply ip_get_set_ne].
  split_and!; [done| | |by rewrite Hp'|done]; rewrite ip_get_set_ne by (done || destruct Hf; subst; done); done.
Qed.

Lemma edit_packet f b seg : tcp_packet b seg -> length (f seg) = length seg -> tcp_checked (f seg) = true ->
  exists b', edit_payload f b = Ret b' /\ tcp_packet (ip_fill_checksum b') (f seg) /\
    length (ip_fill_checksum b') = length b /\ forall g, ip_get g (ip_fill_checksum b') = ip_get g b.
Proof using Hip Htw.
  intros (Hb & Hv & Hn & Hp & Hc) Hl Hc'.
  destruct (edit_payload_wf f b seg Hb Hp Hl) as (b' & E & Hb' & Hp' & Hl' & Hg).
  destruct (ip_fill_wf b' Hb') as (Hb2 & Hp2 & Hl2). exists b'.
  destruct (ip_wf_bounds b' Hb') as (Hlb & _).
  assert (forall g, ip_get g (ip_fill_checksum b') = ip_get g b) as Hg2 by (intros g; by rewrite ip_get_fill, Hg).
  split_and!; [done| |congruence|done]. split_and!; [done|by rewrite Hg2|by rewrite Hg2|by rewrite Hp2|done].
Qed.

(** A port is set and the checksum filled; nothing else of the segment changes
    but the checksum. *)
Definition same_data (seg seg' : list Z) : Prop := length seg' = length seg /\ drop 20 seg' = drop 20 seg.
Lemma set_port f v s d seg : tcp_checked seg = true -> f = TcpSrcPort \/ f = TcpDstPort -> u16 v ->
  let seg' := tcp_fill_checksum s d (tcp_set f v seg) in
  tcp_checked seg' = true /\ same_data seg seg' /\ tcp_get f seg' = v /\
  forall g, f <> g -> tcp_get g seg' = tcp_get g seg.
Proof using Htw.
  intros Hc Hf Hv seg'. unfold seg'. pose proof (tcp_set_checked f v seg Hc) as Hs. split_and!.
  - by apply tcp_fill_checked.
  - split; [rewrite tcp_fill_len by done; by apply tcp_set_len|rewrite tcp_fill_payload by done; by apply tcp_set_payload].
  - rewrite tcp_get_fill by done. apply tcp_get_set; [done|]. by destruct Hf; subst.
  - intros g Hg. rewrite tcp_get_fill by done. by apply tcp_get_set_ne.
Qed.

Definition seen_source (ctx : TcpProxyPeerContext) (inet : Ipv4Inet) (sip : Z) : Z :=
  if negb (pc_smoltcp_enabled ctx) && (sip =? inet_address inet) then fake_local_ipv4 inet else sip.

Lemma rewrite_to_local_spec ctx inet b seg src dst :
  tcp_packet b seg -> from_to b seg src dst -> u16 (pc_local_port ctx) ->
  u32 (inet_address inet) -> u32 (fake_local_ipv4 inet) ->
  exists b' seg', rewrite_to_local ctx inet b = Ret b' /\ tcp_packet b' seg' /\ length b' = length b /\
    same_data seg seg' /\
    from_to b' seg' (seen_source ctx inet src.1, src.2) (inet_address inet, pc_local_port ctx).
Proof using Hip Htw.
  intros Hb (E1 & E2 & E3 & E4) Hp Hi Hf. unfold rewrite_to_local, seen_source. rewrite E1.
  destruct Hb as (Hwf & Hrest). pose proof Hwf as [Hck _]. rewrite Hck. cbn [expect_checked mbind comp_bind].
  set (b1 := if negb _ && _ then ip_set SrcAddr _ b else b).
  assert (tcp_packet b1 seg /\ length b1 = length b /\
    ip_get SrcAddr b1 = (if negb (pc_smoltcp_enabled ctx) && (src.1 =? inet_address inet) then fake_local_ipv4 inet else src.1))
    as (H1 & Hl1 & Hs1).
  { subst b1. destruct (negb _ && _); [|by split_and!].
    destruct (set_addr_packet SrcAddr (fake_local_ipv4 inet) b seg) as (? & ? & ? & _); [by split|by left|done|]. by split_and!. }
  destruct (set_addr_packet DstAddr (inet_address inet) b1 seg H1 (or_intror eq_refl) Hi) as (H2 & Hl2 & Hd2 & Hg2).
  set (b2 := ip_set DstAddr _ b1) in *.
  pose proof H2 as (_ & _ & _ & Hpl & Hc). rewrite Hpl. cbn [mbind comp_bind]. rewrite Hc. cbn [expect_checked mbind comp_bind].
  destruct (set_port TcpDstPort (pc_local_port ctx) (ip_get SrcAddr b2) (inet_address inet) seg Hc (or_intror eq_refl) Hp)
    as (Hc' & Hsame & Hport & Hother).
  destruct (edit_packet (fun t => tcp_fill_checksum (ip_get SrcAddr b2) (inet_address inet)
      (tcp_set TcpDstPort (pc_local_port ctx) t)) b2 seg H2 (proj1 Hsame) Hc') as (b3 & E & H3 & Hl3 & Hg3).
  rewrite E. cbn [mbind comp_bind]. eexists _, _. split; [done|]. split_and!; [exact H3|congruence|exact Hsame|].
  split_and!; cbn [fst snd].
  - by rewrite Hg3, Hg2 by done.
  - by rewrite Hother.
  - by rewrite Hg3.
  - exact Hport.
Qed.

Lemma rewrite_from_local_spec mip port to_local b seg src dst :
  tcp_packet b seg -> from_to b seg src dst -> u32 mip -> u16 port -> (forall l, to_local = Some l -> u32 l) ->
  exists b' seg', rewrite_from_local mip port to_local b = Ret b' /\ tcp_packet b' seg' /\ length b' = length b /\
    same_data seg seg' /\ from_to b' seg' (mip, port) (default dst.1 to_local, dst.2).
Proof using Hip Htw.
  intros Hb (E1 & E2 & E3 & E4) Hm Hp Hto. unfold rewrite_from_local.
  pose proof Hb as [[Hck _] _]. rewrite Hck. cbn [expect_checked mbind comp_bind].
  destruct (set_addr_packet SrcAddr mip b seg Hb (or_introl eq_refl) Hm) as (H1 & Hl1 & Hs1 & Hg1).
  set (b1 := ip_set SrcAddr mip b) in *.
  set (b2 := match to_local with Some l => ip_set DstAddr l b1 | None => b1 end).
  assert (tcp_packet b2 seg /\ length b2 = length b /\ ip_get SrcAddr b2 = mip /\
    ip_get DstAddr b2 = default dst.1 to_local) as (H2 & Hl2 & Hs2 & Hd2).
  { subst b2. destruct to_local as [l|]; cbn.
    - destruct (set_addr_packet DstAddr l b1 seg H1 (or_intror eq_refl) (Hto l eq_refl)) as (H2 & Hl2 & Hd2 & Hg2).
      split_and!; [done|congruence|by rewrite Hg2|done].
    - split_and!; [done|done|done|]. by rewrite Hg1. }
  pose proof H2 as (_ & _ & _ & Hpl & Hc). rewrite Hpl. cbn [mbind comp_bind]. rewrite Hc. cbn [expect_checked mbind comp_bind].
  destruct (set_port TcpSrcPort port mip (ip_get DstAddr b2) seg Hc (or_introl eq_refl) Hp) as (Hc' & Hsame & Hport & Hother).
  destruct (edit_packet (fun t => tcp_fill_checksum mip (ip_get DstAddr b2) (tcp_set TcpSrcPort port t)) b2 seg H2
    (proj1 Hsame) Hc') as (b3 & E & H3 & Hl3 & Hg3).
  rewrite E. cbn [mbind comp_bind]. eexists _, _. split; [done|]. split_and!; [exact H3|congruence|exact Hsame|].
  split_and!; cbn [fst snd]; [by rewrite Hg3|exact Hport|by rewrite Hg3|by rewrite Hother].
Qed.
End rewriting.

(** ** The invariant *)

Section invariant.
Context {nl : NetLib} {ip : Ipv4Lib} {tw : TransportLib} {Hip : Ipv4Laws ip} {Htw : TransportLaws ip tw}.

(** An entry of an IPv4 connection; both destinations have the port the peer used. *)
Definition entry_ok (e : TcpNatEntry) : Prop :=
  exists sip sp rip mip dp, te_src e = V4 sip sp /\ te_real_dst e = V4 rip dp /\ te_mapped_dst e = V4 mip dp /\
    u32 mip /\ u16 dp.

Record nat_ok (g : TcpProxyEngine) : Prop := {
  no_heap id e : nat_heap g !! id = Some e -> entry_ok e;
  no_id id e : nat_heap g !! id = Some e -> te_id e = id;
  no_syn a id : syn_map g !! a = Some id ->
    conn_map g !! id = None /\ exists e, nat_heap g !! id = Some e /\ te_src e = a;
  no_addr a id : addr_conn_map g !! a = Some id ->
    is_Some (conn_map g !! id) /\ exists e, nat_heap g !! id = Some e /\ te_src e = a;
  no_conn id j : conn_map g !! id = Some j -> j = id /\ is_Some (nat_heap g !! id) }.

Lemma new_nat_ok t : nat_ok (TcpProxyEngine_new t).
Proof using. split; cbn; intros *; by rewrite lookup_empty. Qed.

(** The heap changes in the state of entries alone. *)
Definition heap_same (h h' : gmap Z TcpNatEntry) : Prop :=
  forall id e, h !! id = Some e -> exists st, h' !! id = Some (entry_set_state e st).
Definition heap_from (h h' : gmap Z TcpNatEntry) : Prop :=
  forall id e', h' !! id = Some e' -> exists e st, h !! id = Some e /\ e' = entry_set_state e st.
Lemma entry_set_state_id e : entry_set_state e (te_state e) = e.
Proof using. by destruct e. Qed.
Lemma heap_same_refl h : heap_same h h.
Proof using. intros id e H. exists (te_state e). by rewrite entry_set_state_id. Qed.
Lemma heap_same_trans h1 h2 h3 : heap_same h1 h2 -> heap_same h2 h3 -> heap_same h1 h3.
Proof using. intros H1 H2 id e (st & He)%H1. by destruct (H2 _ _ He) as [st' Hst]; exists st'. Qed.
Lemma alter_same id st h : heap_same h (alter (fun e => entry_set_state e st) id h).
Proof using.
  intros i e Hi. destruct (decide (i = id)) as [->|Hne].
  - exists st. by rewrite lookup_alter_eq, Hi.
  - exists (te_state e). by rewrite lookup_alter_ne, entry_set_state_id.
Qed.
Lemma alter_from id st h : heap_from h (alter (fun e => entry_set_state e st) id h).
Proof using.
  intros i e'. destruct (decide (i = id)) as [->|Hne].
  - rewrite lookup_alter_eq. destruct (h !! id) as [e|]; [|done]. intros [= <-]. by exists e, st.
  - rewrite lookup_alter_ne by done. intros H. exists e', (te_state e'). by rewrite entry_set_state_id.
Qed.
Lemma close_all_same ids h :
  heap_same h (foldr (fun id h => alter (fun e => entry_set_state e Closed) id h) h ids) /\
  heap_from h (foldr (fun id h => alter (fun e => entry_set_state e Closed) id h) h ids).
Proof using.
  induction ids as [|id ids [IH1 IH2]]; cbn.
  - split; [apply heap_same_refl|]. intros i e H. exists e, (te_state e). by rewrite entry_set_state_id.
  - split; [eapply heap_same_trans; [exact IH1|apply alter_same]|].
    intros i e' (e1 & st1 & H1 & ->)%alter_from. destruct (IH2 _ _ H1) as (e & st & H & ->). by exists e, st1.
Qed.

Lemma entry_ok_state e st : entry_ok e -> entry_ok (entry_set_state e st).
Proof using. done. Qed.

(** Fewer waiting entries and other states keep the invariant. *)
Lemma nat_ok_states g h s : nat_ok g -> heap_same (nat_heap g) h -> heap_from (nat_heap g) h -> s ⊆ syn_map g ->
  nat_ok (with_maps g h s (conn_map g) (addr_conn_map g)).
Proof using.
  intros [H1 H0 H2 H3 H4] Hs Hf Hsub. split; cbn.
  - intros id e' (e & st & He & ->)%Hf. apply entry_ok_state. by eapply H1.
  - intros id e' (e & st & He & ->)%Hf. by apply (H0 id e).
  - intros a id Ha. destruct (H2 a id) as (Hc & e & He & Hsrc); [by eapply lookup_weaken|].
    split; [done|]. destruct (Hs id e He) as [st Hst]. by eexists.
  - intros a id Ha. destruct (H3 a id Ha) as (Hc & e & He & Hsrc). split; [done|].
    destruct (Hs id e He) as [st Hst]. by eexists.
  - intros id j Hj. destruct (H4 id j Hj) as (-> & e & He). split; [done|]. destruct (Hs id e He) as [st Hst]. eauto.
Qed.

Lemma cleanup_ok g timeout now : nat_ok g -> nat_ok (cleanup_expired_syn g timeout now).
Proof using.
  intros Hg. destruct (close_all_same (filter (fun id => syn_expired (nat_heap g) timeout now id = true)
    (map snd (map_to_list (syn_map g)))) (nat_heap g)) as [Hs Hf].
  apply nat_ok_states; [done|exact Hs|exact Hf|apply map_filter_subseteq].
Qed.
Lemma set_state_ok g id st : nat_ok g -> nat_ok (set_state g id st).
Proof using. intros Hg. apply nat_ok_states; [done|apply alter_same|apply alter_from|done]. Qed.

Lemma tcp_remove_ok g id : nat_ok g -> nat_ok (tcp_remove_entry g id).
Proof using.
  intros [H1 H0 H2 H3 H4]. unfold tcp_remove_entry. destruct (conn_map g !! id) as [j|] eqn:Ec; [|done].
  destruct (nat_heap g !! id) as [e|] eqn:Eh; [|done]. split; cbn.
  - exact H1.
  - exact H0.
  - intros a i Ha. destruct (H2 a i Ha) as [Hc He]. split; [|done]. apply lookup_delete_None. by right.
  - intros a i Ha.
    assert (addr_conn_map g !! a = Some i /\ i <> id) as [Ha' Hne].
    { case_bool_decide as Hd.
      - apply lookup_delete_Some in Ha as [Hna Ha]. split; [done|]. intros ->.
        destruct (H3 a id Ha) as (_ & e' & He' & Hsrc). congruence.
      - split; [done|]. intros ->. destruct (H3 a id Ha) as (_ & e' & He' & Hsrc). congruence. }
    destruct (H3 a i Ha') as [Hc He]. split; [|done]. by rewrite lookup_delete_ne.
  - intros i k [_ Hk]%lookup_delete_Some. by apply H4.
Qed.

Lemma accept_ok g a inet : nat_ok g -> exists g' r, accept_connection g a inet = Ret (g', r) /\ nat_ok g'.
Proof using.
  intros Hg. unfold accept_connection. set (a' := match inet with Some i => _ | None => _ end).
  destruct (syn_map g !! a') as [id|] eqn:Es; [|by eexists _, _].
  assert (nat_ok (with_maps g (nat_heap g) (delete a' (syn_map g)) (conn_map g) (addr_conn_map g))) as Hg1.
  { apply nat_ok_states; [done|apply heap_same_refl| |apply delete_subseteq].
    intros i e H. exists e, (te_state e). by rewrite entry_set_state_id. }
  cbn [nat_heap with_maps]. destruct (nat_heap g !! id) as [e|] eqn:Eh; [|by eexists _, _].
  case_bool_decide as Est; cbn [negb]; [|by eexists _, _].
  destruct (no_syn g Hg a' id Es) as (Hc & e' & He' & Hsrc). rewrite Eh in He'. injection He' as <-.
  cbn [conn_map with_maps]. rewrite bool_decide_eq_true_2 by done. eexists _, _. split; [done|].
  destruct Hg as [H1 H0 H2 H3 H4]. split; cbn.
  - intros i f [[<- <-]|[_ Hf]]%lookup_insert_Some; [apply entry_ok_state; by eapply H1|by eapply H1].
  - intros i f [[<- <-]|[_ Hf]]%lookup_insert_Some; [by apply (H0 id e)|by apply H0].
  - intros x i [Hx Hi]%lookup_delete_Some. destruct (H2 x i Hi) as (Hci & f & Hf & Hsf).
    assert (i <> id) by (intros ->; congruence).
    split; [by rewrite lookup_insert_ne|]. exists f. by rewrite lookup_insert_ne.
  - intros x i [[<- <-]|[Hx Hi]]%lookup_insert_Some.
    + rewrite !lookup_insert_eq. split; [eauto|]. by eexists.
    + destruct (H3 x i Hi) as (Hci & f & Hf & Hsf). assert (i <> id) by (intros ->; destruct Hci; congruence).
      rewrite !lookup_insert_ne by done. eauto.
  - intros i j [[<- <-]|[Hi Hj]]%lookup_insert_Some; [rewrite lookup_insert_eq; eauto|].
    rewrite lookup_insert_ne by done. by apply H4.
Qed.

(** ** The handlers on whole packets *)

Definition data_header (h : PeerManagerHeader) : PeerManagerHeader := with_packet_type h (PacketType_as_u8 Data).

(** The conditions under which a packet to [dip] is taken by the proxy. *)
Definition proxied (g : TcpProxyEngine) (mode : TcpProxyMode) (ctx : TcpProxyPeerContext) (inet : Ipv4Inet)
    (h : PeerManagerHeader) (dip rip : Z) : Prop :=
  check_packet_from_peer_fast g mode ctx = true /\ pc_local_inet ctx = Some inet /\
  is_no_proxy h = false /\ allowed_packet_type mode h = true /\
  real_dst_ip_for_mode g mode dip (is_exit_node h) ctx = Some rip.
(** The ranges of what the host configures. *)
Definition inet_ok (inet : Ipv4Inet) (port : Z) : Prop :=
  u32 (inet_address inet) /\ u32 (fake_local_ipv4 inet) /\ u16 port.

Definition is_syn (seg : list Z) : bool := negb (tcp_get TcpSyn seg =? 0) && (tcp_get TcpAck seg =? 0).
Definition with_syn (g : TcpProxyEngine) (id : Z) (e : TcpNatEntry) : TcpProxyEngine :=
  with_maps g (<[id := e]> (nat_heap g)) (<[te_src e := id]> (syn_map g)) (conn_map g) (addr_conn_map g).

Lemma data_header_ok t tun h : parts_ok t tun h -> parts_ok t tun (data_header h).
Proof using. intros [Ht (H1 & H2 & H3 & H4 & H5 & H6 & H7)]. split; [done|]. unfold PeerManagerHeader_wf. by split_and!. Qed.

Lemma peer_packet_spec g mode ctx inet t tun h b seg src dst rip id now unix :
  parts_ok t tun h -> tcp_packet b seg -> from_to b seg src dst -> proxied g mode ctx inet h dst.1 rip ->
  inet_ok inet (pc_local_port ctx) ->
  let s := V4 src.1 src.2 in
  let e := TcpNatEntry_new id now unix s (V4 rip dst.2) (V4 dst.1 dst.2) in
  if negb (is_syn seg) && bool_decide (addr_conn_map g !! s = None) && bool_decide (syn_map g !! s = None)
  then try_handle_peer_packet g mode (mk_packet t tun h b) ctx id now unix =
       Ret (g, mk_packet t tun (data_header h) b, Pass)
  else exists b' seg',
    try_handle_peer_packet g mode (mk_packet t tun h b) ctx id now unix =
      Ret (if is_syn seg then with_syn g id e else g, mk_packet t tun (data_header h) b', Handled (is_syn seg)) /\
    tcp_packet b' seg' /\ same_data seg seg' /\
    from_to b' seg' (seen_source ctx inet src.1, src.2) (inet_address inet, pc_local_port ctx).
Proof using Hip Htw.
  intros Hparts Hb Hft (P1 & P2 & P3 & P4 & P5) (Hi1 & Hi2 & Hi3) s e.
  pose proof (data_header_ok t tun h Hparts) as Hparts'.
  pose proof Hb as ([Hck Hhl] & Hver & Hnh & Hpl & Hc). pose proof Hft as (E1 & E2 & E3 & E4).
  destruct (rewrite_to_local_spec ctx inet b seg src dst Hb Hft Hi3 Hi1 Hi2) as (b' & seg' & Hrw & Hb' & Hl' & Hsame & Hft').
  unfold try_handle_peer_packet. rewrite P1, P2. cbn [negb].
  rewrite (parts_header t tun h b Hparts), P3, P4. cbn [negb].
  rewrite (parts_payload t tun h b Hparts). cbn [mbind comp_bind]. rewrite Hck, Hver, Hnh, E3, P5. cbn [negb orb Z.eqb Pos.eqb IP_TCP].
  rewrite (parts_mut_header t tun h b Hparts). cbn [unwrap mbind comp_bind].
  rewrite (parts_put_header t tun h b Hparts). fold (data_header h).
  rewrite (parts_mut_payload t tun (data_header h) b Hparts'). cbn [mbind comp_bind].
  rewrite Hck. cbn [expect_checked mbind comp_bind]. rewrite Hpl. cbn [mbind comp_bind]. rewrite Hc. cbn [expect_checked mbind comp_bind].
  rewrite E1, E2, E3, E4. fold s. fold (is_syn seg). fold e.
  destruct (negb (is_syn seg) && _ && _); [done|].
  exists b', seg'. rewrite Hrw. cbn [mbind comp_bind].
  rewrite (parts_put_payload t tun (data_header h) b Hparts' b' Hl'). split_and!; [|done..]. by destruct (is_syn seg).
Qed.

Lemma no_proxy_header_ok t tun h : parts_ok t tun h -> parts_ok t tun (set_no_proxy h true).
Proof using.
  intros [Ht (H1 & H2 & H3 & H4 & H5 & H6 & H7)]. split; [done|]. split_and!; try done.
  cbn. apply lor_range; [lia|done|unfold NO_PROXY; split; by vm_compute].
Qed.

(** What the local stack sends to a peer comes from where the peer spoke to. *)
Definition answer_header (ctx : TcpProxyNicContext) (inet : Ipv4Inet) (dip : Z) (h : PeerManagerHeader) : PeerManagerHeader :=
  if negb (nc_smoltcp_enabled ctx) && (dip =? fake_local_ipv4 inet)
  then with_to_peer_id (set_no_proxy h true) (nc_my_peer_id ctx) else set_no_proxy h true.
Definition true_destination (ctx : TcpProxyNicContext) (inet : Ipv4Inet) (dip : Z) : Z :=
  if negb (nc_smoltcp_enabled ctx) && (dip =? fake_local_ipv4 inet) then inet_address inet else dip.

Lemma nic_packet_spec g ctx inet t tun h b seg dst :
  nat_ok g -> parts_ok t tun h -> tcp_packet b seg -> u32 (nc_my_peer_id ctx) ->
  nc_local_inet ctx = Some inet -> inet_ok inet (nc_local_port ctx) ->
  from_to b seg (inet_address inet, nc_local_port ctx) dst ->
  let s := V4 (true_destination ctx inet dst.1) dst.2 in
  match find_entry g s with
  | None => try_process_packet_from_nic g (mk_packet t tun h b) ctx = Ret (mk_packet t tun h b, false)
  | Some e => exists mip rip dp b' seg', te_mapped_dst e = V4 mip dp /\ te_real_dst e = V4 rip dp /\ te_src e = s /\
      try_process_packet_from_nic g (mk_packet t tun h b) ctx =
        Ret (mk_packet t tun (answer_header ctx inet dst.1 h) b', true) /\
      tcp_packet b' seg' /\ same_data seg seg' /\
      from_to b' seg' (mip, dp) (true_destination ctx inet dst.1, dst.2)
  end.
Proof using Hip Htw.
  intros Hg Hparts Hb Hme Hinet (Hi1 & Hi2 & Hi3) Hft s.
  pose proof Hb as ([Hck Hhl] & Hver & Hnh & Hpl & Hc). pose proof Hft as (E1 & E2 & E3 & E4).
  unfold try_process_packet_from_nic. rewrite Hinet. rewrite (parts_payload t tun h b Hparts). cbn [mbind comp_bind].
  rewrite Hck, Hver, Hnh, E1, Z.eqb_refl. cbn [negb orb Z.eqb Pos.eqb IP_TCP fst]. rewrite Hpl. cbn [mbind comp_bind].
  rewrite Hc, E2, Z.eqb_refl. cbn [negb snd]. rewrite Z.eqb_refl. cbn [negb]. rewrite E3, E4.
  fold (true_destination ctx inet dst.1). fold s.
  destruct (find_entry g s) as [e|] eqn:Ef; [|done].
  assert (te_src e = s /\ entry_ok e) as [Hsrc He].
  { unfold find_entry in Ef. destruct (addr_conn_map g !! s) as [id|] eqn:Ea.
    - cbn in Ef. destruct (no_addr g Hg s id Ea) as (_ & e' & He' & Hs'). split; [congruence|]. by eapply (no_heap g Hg).
    - destruct (syn_map g !! s) as [id|] eqn:Es; [|done]. cbn in Ef.
      destruct (no_syn g Hg s id Es) as (_ & e' & He' & Hs'). split; [congruence|]. by eapply (no_heap g Hg). }
  destruct He as (sip & sp & rip & mip & dp & _ & Hr & Hm & Hmr & Hdp).
  rewrite Hsrc, bool_decide_eq_true_2 by done. cbn [negb]. rewrite Hm, Hr. cbn [addr_port].
  rewrite (parts_mut_header t tun h b Hparts). cbn [unwrap mbind comp_bind].
  fold (answer_header ctx inet dst.1 h).
  assert (parts_ok t tun (answer_header ctx inet dst.1 h)) as Hparts'.
  { unfold answer_header. destruct (no_proxy_header_ok t tun h Hparts) as [Ht (H1 & H2 & H3 & H4 & H5 & H6 & H7)].
    destruct (negb _ && _); (split; [done|by split_and!]). }
  rewrite (parts_put_header t tun h b Hparts). rewrite (parts_mut_payload _ _ _ b Hparts'). cbn [mbind comp_bind].
  set (to_local := if negb (nc_smoltcp_enabled ctx) && (dst.1 =? fake_local_ipv4 inet) then Some (inet_address inet) else None).
  destruct (rewrite_from_local_spec mip dp to_local b seg _ dst Hb Hft Hmr Hdp) as (b' & seg' & Hrw & Hb' & Hl' & Hsame & Hft').
  { subst to_local. intros l. destruct (negb _ && _); [by intros [= <-]|done]. }
  exists mip, rip, dp, b', seg'. rewrite Hrw. cbn [mbind comp_bind]. rewrite (parts_put_payload _ _ _ b Hparts' b' Hl').
  split_and!; try done.
  assert (true_destination ctx inet dst.1 = default dst.1 to_local) as ->; [|exact Hft'].
  unfold true_destination. subst to_local. by destruct (negb _ && _).
Qed.

Lemma with_syn_ok g id e : nat_ok g -> nat_heap g !! id = None -> entry_ok e -> te_id e = id ->
  nat_ok (with_syn g id e).
Proof using.
  intros [H1 H0 H2 H3 H4] Hid He Hide.
  assert (conn_map g !! id = None) as Hc.
  { destruct (conn_map g !! id) as [j|] eqn:E; [|done]. destruct (H4 id j E) as (_ & f & Hf). congruence. }
  split; cbn.
  - intros i f [[<- <-]|[_ Hf]]%lookup_insert_Some; [done|by eapply H1].
  - intros i f [[<- <-]|[_ Hf]]%lookup_insert_Some; [done|by apply H0].
  - intros a i [[<- <-]|[Ha Hi]]%lookup_insert_Some; [rewrite lookup_insert_eq; eauto|].
    destruct (H2 a i Hi) as (Hci & f & Hf & Hs). split; [done|]. exists f. rewrite lookup_insert_ne; [done|congruence].
  - intros a i Hi. destruct (H3 a i Hi) as (Hci & f & Hf & Hs). split; [done|]. exists f.
    rewrite lookup_insert_ne; [done|congruence].
  - intros i j Hj. destruct (H4 i j Hj) as (-> & f & Hf). split; [done|]. rewrite lookup_insert_ne; [eauto|congruence].
Qed.

(** Whatever the packet, the engine gains at most one entry. *)
Lemma peer_packet_effect g mode p ctx id now unix g' p' act :
  try_handle_peer_packet g mode p ctx id now unix = Ret (g', p', act) ->
  g' = g \/ exists e, entry_ok e /\ te_id e = id /\ g' = with_syn g id e.
Proof using Htw.
  unfold try_handle_peer_packet. intros H.
  destruct (negb (check_packet_from_peer_fast g mode ctx)); [injection H as <- _ _; by left|].
  destruct (pc_local_inet ctx) as [inet|]; [|injection H as <- _ _; by left].
  destruct (peer_manager_header p) as [h|]; [|injection H as <- _ _; by left].
  destruct (is_no_proxy h); [injection H as <- _ _; by left|].
  destruct (negb (allowed_packet_type mode h)); [injection H as <- _ _; by left|].
  destruct (payload p) as [b|]; [|done]. cbn [mbind comp_bind] in H.
  destruct (negb (ip_checked b)); [injection H as <- _ _; by left|].
  destruct (_ || _); [injection H as <- _ _; by left|].
  destruct (real_dst_ip_for_mode _ _ _ _ _) as [rip|]; [|injection H as <- _ _; by left].
  destruct (unwrap (mut_peer_manager_header p)) as [[h1 put]|]; [|done]. cbn [mbind comp_bind] in H.
  destruct (mut_payload _) as [[b1 put1]|]; [|done]. cbn [mbind comp_bind] in H.
  destruct (expect_checked (ip_checked b1)); [|done]. cbn [mbind comp_bind] in H.
  destruct (ip_payload b1) as [seg|]; [|done]. cbn [mbind comp_bind] in H.
  destruct (expect_checked (tcp_checked seg)); [|done]. cbn [mbind comp_bind] in H. fold (is_syn seg) in H.
  destruct (negb (is_syn seg) && _ && _); [injection H as <- _ _; by left|].
  destruct (rewrite_to_local ctx inet b1) as [b2|]; [|done]. cbn [mbind comp_bind] in H. injection H as <- _ _.
  destruct (is_syn seg); [|by left]. right.
  exists (TcpNatEntry_new id now unix (V4 (ip_get SrcAddr b1) (tcp_get TcpSrcPort seg))
    (V4 rip (tcp_get TcpDstPort seg)) (V4 (ip_get DstAddr b1) (tcp_get TcpDstPort seg))). split_and!; [|done|done].
  eexists _, _, _, _, _. split_and!; [done|done|done|apply ip_addr_range|apply tcp_port_range].
Qed.

(** ** Histories *)

(** What happens to the engine: packets of peers (which may be malformed, as long
    as the handler returns), connections accepted by the local stack, tasks that
    move an accepted entry along or end it, and the clean-up timer.  Identifiers
    are not drawn twice. *)
Inductive tcp_step : TcpProxyEngine -> TcpProxyEngine -> Prop :=
  | StepPeer g mode p ctx id now unix g' p' act :
      nat_heap g !! id = None ->
      try_handle_peer_packet g mode p ctx id now unix = Ret (g', p', act) -> tcp_step g g'
  | StepAccept g a inet g' r : accept_connection g a inet = Ret (g', r) -> tcp_step g g'
  | StepState g id st : (forall a, syn_map g !! a <> Some id) -> tcp_step g (set_state g id st)
  | StepRemove g id : tcp_step g (tcp_remove_entry g id)
  | StepCleanup g timeout now : tcp_step g (cleanup_expired_syn g timeout now)
  | StepPort g port : tcp_step g (set_local_port g port).

Lemma step_ok g g' : tcp_step g g' -> nat_ok g -> nat_ok g' /\ heap_same (nat_heap g) (nat_heap g').
Proof using Htw.
  intros Hs Hg. destruct Hs as [g mode p ctx id now unix g' p' act Hid H|g a inet g' r H|g id st _|g id|g timeout now|g port].
  - destruct (peer_packet_effect _ _ _ _ _ _ _ _ _ _ H) as [->|(e & He & Hide & ->)]; [split; [done|apply heap_same_refl]|].
    split; [by apply with_syn_ok|]. intros i f Hf. exists (te_state f). cbn. rewrite entry_set_state_id.
    rewrite lookup_insert_ne; [done|congruence].
  - destruct (accept_ok g a inet Hg) as (g1 & r1 & E & H1). rewrite E in H. injection H as <- <-. split; [done|].
    revert E. unfold accept_connection. set (a' := match inet with Some i => _ | None => _ end).
    destruct (syn_map g !! a') as [id|]; [|intros [= <- _]; apply heap_same_refl]. cbn [nat_heap with_maps].
    destruct (nat_heap g !! id) as [e|] eqn:Eh; [|intros [= <- _]; apply heap_same_refl].
    destruct (negb _); [intros [= <- _]; apply heap_same_refl|]. destruct (bool_decide _); [|done]. intros [= <- _]. cbn.
    intros i f Hf. destruct (decide (i = id)) as [->|Hne].
    + exists ConnectingDst. rewrite lookup_insert_eq. congruence.
    + exists (te_state f). by rewrite lookup_insert_ne, entry_set_state_id.
  - split; [by apply set_state_ok|apply alter_same].
  - split; [by apply tcp_remove_ok|]. unfold tcp_remove_entry.
    destruct (conn_map g !! id); [|apply heap_same_refl]. destruct (nat_heap g !! id); apply heap_same_refl.
  - split; [by apply cleanup_ok|]. apply close_all_same.
  - split; [|apply heap_same_refl]. by destruct Hg.
Qed.

Lemma steps_ok g g' : rtc tcp_step g g' -> nat_ok g -> nat_ok g' /\ heap_same (nat_heap g) (nat_heap g').
Proof using Htw.
  induction 1 as [g|g1 g2 g3 H12 _ IH]; intros Hg; [split; [done|apply heap_same_refl]|].
  destruct (step_ok _ _ H12 Hg) as [Hg2 Hh]. destruct (IH Hg2) as [Hg3 Hh']. split; [done|by eapply heap_same_trans].
Qed.
(** The local stack accepts what was redirected to it. *)
Lemma accept_new g id e inet :
  nat_ok g -> nat_heap g !! id = None -> te_state e = SynReceived -> te_id e = id ->
  forall ctx sip sp rip dp, te_src e = V4 sip sp -> te_real_dst e = V4 rip dp -> sip <> fake_local_ipv4 inet ->
  exists g2 e2, accept_connection (with_syn g id e) (V4 (seen_source ctx inet sip) sp) (Some inet) = Ret (g2, Some e2) /\
    te_id e2 = id /\ te_real_dst e2 = V4 rip dp /\ te_state e2 = ConnectingDst.
Proof using.
  intros Hg Hid Hst Hide ctx sip sp rip dp Hsrc Hreal Hf. unfold accept_connection.
  set (a := if seen_source ctx inet sip =? fake_local_ipv4 inet then _ else _).
  assert (a = te_src e) as ->.
  { rewrite Hsrc. subst a. unfold seen_source. destruct (negb _); cbn [andb].
    - destruct (sip =? inet_address inet) eqn:Es; bools; [rewrite Z.eqb_refl; congruence|].
      by rewrite (proj2 (Z.eqb_neq _ _)).
    - by rewrite (proj2 (Z.eqb_neq _ _)). }
  cbn [syn_map nat_heap conn_map with_syn with_maps]. rewrite !lookup_insert_eq, Hst. cbn [negb].
  rewrite bool_decide_eq_true_2 by done. cbn [negb].
  rewrite bool_decide_eq_true_2; [eexists _, _; split; [reflexivity|]; by split_and!|].
  destruct (conn_map g !! id) as [j|] eqn:Ej; [|done]. destruct (no_conn g Hg id j Ej) as (_ & f & Hfh). congruence.
Qed.

Lemma find_by_id g a e e' id : nat_ok g -> find_entry g a = Some e -> te_id e = id -> nat_heap g !! id = Some e' -> e = e'.
Proof using.
  intros Hg Hf Hid He'. unfold find_entry in Hf. destruct (match addr_conn_map g !! a with Some _ => _ | None => _ end) as [i|]; [|done].
  cbn in Hf. pose proof (no_id g Hg i e Hf). congruence.
Qed.
End invariant.

(** ** Theorems *)

(** In every state the engine can reach, whatever packets peers have sent: the
    maps agree with the entries, accepting a connection never panics, and neither
    does a packet of the local stack, which is passed on unchanged unless it
    belongs to a recorded connection; a well-formed packet of a peer to a proxied
    network does not panic either, and a segment that is no connection request is
    redirected exactly when its sender is recorded. *)
Theorem tcp_nat_safe `{nl : NetLib, ip : Ipv4Lib, tw : TransportLib, !Ipv4Laws ip, !TransportLaws ip tw} table g :
  rtc tcp_step (TcpProxyEngine_new table) g ->
  nat_ok g /\
  (forall a inet, exists g' r, accept_connection g a inet = Ret (g', r)) /\
  (forall t tun h b seg ctx inet dst, parts_ok t tun h -> tcp_packet b seg -> u32 (nc_my_peer_id ctx) ->
     nc_local_inet ctx = Some inet -> inet_ok inet (nc_local_port ctx) ->
     from_to b seg (inet_address inet, nc_local_port ctx) dst ->
     let s := V4 (true_destination ctx inet dst.1) dst.2 in
     exists p', try_process_packet_from_nic g (mk_packet t tun h b) ctx = Ret (p', is_tcp_proxy_connection g s) /\
       (is_tcp_proxy_connection g s = false -> p' = mk_packet t tun h b)) /\
  (forall t tun h b seg src dst mode ctx inet rip id now unix, parts_ok t tun h -> tcp_packet b seg ->
     from_to b seg src dst -> proxied g mode ctx inet h dst.1 rip -> inet_ok inet (pc_local_port ctx) ->
     exists g' p', try_handle_peer_packet g mode (mk_packet t tun h b) ctx id now unix =
       Ret (g', p', if is_syn seg || is_tcp_proxy_connection g (V4 src.1 src.2) then Handled (is_syn seg) else Pass)).
Proof.
  intros Hr. destruct (steps_ok _ _ Hr (new_nat_ok table)) as [Hg _]. split_and!; [done|..].
  - intros a inet. destruct (accept_ok g a inet Hg) as (g' & r & E & _). eauto.
  - intros t tun h b seg ctx inet dst Hp Hb Hme Hin Hok Hft s.
    pose proof (nic_packet_spec g ctx inet t tun h b seg dst Hg Hp Hb Hme Hin Hok Hft) as H. cbv zeta in H. fold s in H.
    assert (is_tcp_proxy_connection g s = match find_entry g s with Some _ => true | None => false end) as ->.
    { unfold is_tcp_proxy_connection, find_entry. destruct (addr_conn_map g !! s) as [id|] eqn:Ea; cbn.
      - destruct (no_addr g Hg s id Ea) as (_ & e & -> & _). by rewrite orb_true_r.
      - destruct (syn_map g !! s) as [id|] eqn:Es; cbn; [|done].
        destruct (no_syn g Hg s id Es) as (_ & e & -> & _). done. }
    destruct (find_entry g s) as [e|]; [|by eexists].
    destruct H as (? & ? & ? & b' & ? & _ & _ & _ & E & _). by eexists.
  - intros t tun h b seg src dst mode ctx inet rip id now unix Hp Hb Hft Hpr Hok.
    pose proof (peer_packet_spec g mode ctx inet t tun h b seg src dst rip id now unix Hp Hb Hft Hpr Hok) as H. cbv zeta in H.
    set (s := V4 src.1 src.2) in *. destruct (is_syn seg); cbn [negb andb orb] in *.
    + destruct H as (b' & ? & E & _). by eexists _, _.
    + unfold is_tcp_proxy_connection.
      destruct (addr_conn_map g !! s) as [i|] eqn:Ea, (syn_map g !! s) as [j|] eqn:Es; cbn in *;
        try (destruct H as (b' & ? & E & _); by eexists _, _). by eexists _, _.
Qed.

(** C32. The translation is transparent.  A connection request of a peer from [src] to
    [dst], an address of a proxied network, is redirected to the local stack with
    its data unchanged; the connection that the stack then accepts is recorded
    with the real destination; and in every state reached from there in which
    this entry is the one recorded for [src], what the local stack answers to the
    address it saw is sent to [src] as coming from [dst], with its data unchanged. *)
Theorem tcp_nat_transparent `{nl : NetLib, ip : Ipv4Lib, tw : TransportLib, !Ipv4Laws ip, !TransportLaws ip tw}
    table g mode ctx inet t tun h b seg src dst rip id now unix :
  rtc tcp_step (TcpProxyEngine_new table) g -> nat_heap g !! id = None ->
  parts_ok t tun h -> tcp_packet b seg -> from_to b seg src dst -> is_syn seg = true ->
  proxied g mode ctx inet h dst.1 rip -> inet_ok inet (pc_local_port ctx) ->
  src.1 <> fake_local_ipv4 inet ->
  let seen := (seen_source ctx inet src.1, src.2) in
  exists g1 b1 seg1,
    try_handle_peer_packet g mode (mk_packet t tun h b) ctx id now unix =
      Ret (g1, mk_packet t tun (data_header h) b1, Handled true) /\
    tcp_packet b1 seg1 /\ same_data seg seg1 /\
    from_to b1 seg1 seen (inet_address inet, pc_local_port ctx) /\
    (exists g2 e, accept_connection g1 (V4 seen.1 seen.2) (Some inet) = Ret (g2, Some e) /\
       te_id e = id /\ te_real_dst e = V4 rip dst.2 /\ te_state e = ConnectingDst) /\
    forall g2 e nctx t2 tun2 h2 c cseg,
      rtc tcp_step g1 g2 -> find_entry g2 (V4 src.1 src.2) = Some e -> te_id e = id ->
      nc_local_inet nctx = Some inet -> nc_local_port nctx = pc_local_port ctx ->
      nc_smoltcp_enabled nctx = pc_smoltcp_enabled ctx -> u32 (nc_my_peer_id nctx) ->
      parts_ok t2 tun2 h2 -> tcp_packet c cseg ->
      from_to c cseg (inet_address inet, pc_local_port ctx) seen ->
      exists h2' c' cseg', try_process_packet_from_nic g2 (mk_packet t2 tun2 h2 c) nctx =
          Ret (mk_packet t2 tun2 h2' c', true) /\
        tcp_packet c' cseg' /\ same_data cseg cseg' /\ from_to c' cseg' dst src.
Proof.
  intros Hr Hid Hp Hb Hft Hsyn Hpr Hok Hfake seen.
  destruct (steps_ok _ _ Hr (new_nat_ok table)) as [Hg _].
  pose proof (peer_packet_spec g mode ctx inet t tun h b seg src dst rip id now unix Hp Hb Hft Hpr Hok) as H. cbv zeta in H.
  rewrite Hsyn in H. cbn [negb andb] in H. destruct H as (b1 & seg1 & E & Hb1 & Hs1 & Hft1).
  set (e0 := TcpNatEntry_new id now unix _ _ _) in *. exists (with_syn g id e0), b1, seg1.
  split_and!; [exact E|done|done|done|by eapply (accept_new g id e0 inet)|].
  assert (tcp_step g (with_syn g id e0)) as Hstep by (by eapply StepPeer).
  destruct (step_ok _ _ Hstep Hg) as [Hg1 _].
  intros g2 e nctx t2 tun2 h2 c cseg Hr2 Hfe Hide Hin Hport Hsmol Hme Hp2 Hc Hcft.
  destruct (steps_ok _ _ Hr2 Hg1) as [Hg2 Hh].
  rewrite <- Hport in Hcft, Hok.
  pose proof (nic_packet_spec g2 nctx inet t2 tun2 h2 c cseg seen Hg2 Hp2 Hc Hme Hin Hok Hcft) as H. cbv zeta in H.
  assert (true_destination nctx inet seen.1 = src.1) as Et.
  { unfold true_destination, seen, seen_source. cbn [fst]. rewrite Hsmol. destruct (negb (pc_smoltcp_enabled ctx)); cbn [andb]; [|done].
    destruct (src.1 =? inet_address inet) eqn:Es; bools; [by rewrite Z.eqb_refl|].
    rewrite (proj2 (Z.eqb_neq _ _)) by done. done. }
  rewrite Et in H. change seen.2 with src.2 in H. rewrite Hfe in H.
  destruct H as (mip & rip' & dp & c' & cseg' & Hm & _ & _ & En & Hc' & Hs' & Hft').
  destruct (Hh id e0) as [st Hst]; [apply lookup_insert_eq|].
  rewrite (find_by_id g2 _ e (entry_set_state e0 st) id Hg2 Hfe Hide Hst) in Hm. injection Hm as <- <-.
  exists (answer_header nctx inet seen.1 h2), c', cseg'. split_and!; [exact En|done|done|].
  by destruct src, dst.
Qed.

(** ** A concrete proxy *)

Module ProxyExample.
Import ConcreteNet ConcreteTransport.
#[export] Existing Instance ConcreteNet.lib.
#[export] Existing Instance ConcreteTransport.ip_lib.
#[export] Existing Instance ConcreteTransport.lib.
#[export] Existing Instance ConcreteTransport.ip_laws.
#[export] Existing Instance ConcreteTransport.laws.

(** A segment of twenty bytes, behind an IPv4 header of twenty. *)
Definition segment (sport dport : Z) (syn ack : bool) : list Z :=
  tcp_set TcpSrcPort sport (tcp_set TcpDstPort dport (tcp_set TcpSyn (Z.b2z syn) (tcp_set TcpAck (Z.b2z ack)
    (replicate 12 0 ++ [80] ++ replicate 7 0)))).
Definition ip_packet (sip dip : Z) (seg : list Z) : list Z :=
  ip_set Version 4 (ip_set HeaderLen 20 (ip_set TotalLen (20 + len seg) (ip_set NextHeader IP_TCP
    (ip_set SrcAddr sip (ip_set DstAddr dip (replicate 20 0 ++ seg)))))).
Definition header : PeerManagerHeader :=
  {| from_peer_id := 1; to_peer_id := 2; pm_packet_type := PacketType_as_u8 Data; flags := 0;
     forward_counter := 1; reserved := 0; pm_len := 40 |}.
Definition packet (sip sport dip dport : Z) (syn ack : bool) : ZCPacket :=
  mk_packet DummyTunnel [] header (ip_packet sip dip (segment sport dport syn ack)).

(** 10.144.144.204/24 on port 8899; a peer 10.144.144.206:50000 that connects to
    10.10.10.42:80, which stands for 127.0.0.42. *)
Definition inet : Z * Z := (177246412, 24).
Definition peer_ctx : TcpProxyPeerContext :=
  {| pc_local_inet := Some inet; pc_virtual_ipv4 := Some 177246412; pc_local_port := 8899;
     pc_enable_exit_node := false; pc_no_tun := false; pc_smoltcp_enabled := false |}.
Definition nic_ctx : TcpProxyNicContext :=
  {| nc_local_inet := Some inet; nc_local_port := 8899; nc_my_peer_id := 2; nc_smoltcp_enabled := false |}.
Definition engine : TcpProxyEngine := TcpProxyEngine_new (update_snapshot rules).
Definition syn_seg : list Z := segment 50000 80 true false.
Definition syn_ip : list Z := ip_packet 177246414 168430122 syn_seg.
Definition answer_seg : list Z := segment 8899 50000 false true.
Definition answer_ip : list Z := ip_packet 177246412 177246414 answer_seg.

Lemma header_ok : parts_ok DummyTunnel [] header.
Proof. split; [done|]. by vm_compute. Qed.
Lemma tcp_packet_by_check b seg :
  ip_checked b && (20 <=? ip_get HeaderLen b) && (ip_get Version b =? 4) && (ip_get NextHeader b =? IP_TCP) &&
  match ip_payload b with Ret s => bool_decide (s = seg) | Panic => false end && tcp_checked seg = true ->
  tcp_packet b seg.
Proof.
  rewrite !andb_true_iff, Z.leb_le, !Z.eqb_eq. intros [[[[[H1 H2] H3] H4] H5] H6].
  destruct (ip_payload b) as [s|] eqn:E; [|done]. apply bool_decide_eq_true in H5 as ->.
  unfold tcp_packet, ip_wf. by split_and!.
Qed.
Lemma syn_packet : tcp_packet syn_ip syn_seg.
Proof. apply tcp_packet_by_check. vm_compute. reflexivity. Qed.
Lemma answer_packet : tcp_packet answer_ip answer_seg.
Proof. apply tcp_packet_by_check. vm_compute. reflexivity. Qed.
Lemma inet_fine : inet_ok inet 8899.
Proof. by vm_compute. Qed.
Lemma syn_proxied : proxied engine ModeTcp peer_ctx inet header 168430122 2130706474.
Proof. by vm_compute. Qed.

(** A packet whose TCP header is cut short ends the process. *)
Example short_segment_panics :
  match try_handle_peer_packet engine ModeTcp
    (mk_packet DummyTunnel [] header (ip_packet 177246414 168430122 (replicate 8 0))) peer_ctx 7 0 0 with
  | Panic => true
  | Ret _ => false
  end = true.
Proof. vm_compute. reflexivity. Qed.

(** The identifier of the entry recorded for the peer. *)
Definition recorded (r : comp (TcpProxyEngine * ZCPacket * TcpProxyPacketAction)) : option Z :=
  match r with Ret (g, _, _) => te_id <$> find_entry g (V4 177246414 50000) | Panic => None end.
End ProxyExample.
Import ProxyExample.

Lemma tcp_nat_safe_witness :
  rtc tcp_step engine (cleanup_expired_syn (set_local_port engine 8899) 10 20) /\
  nat_ok (cleanup_expired_syn (set_local_port engine 8899) 10 20).
Proof.
  assert (rtc tcp_step engine (cleanup_expired_syn (set_local_port engine 8899) 10 20)) as Hr.
  { eapply rtc_l; [apply StepPort|]. apply rtc_once. apply StepCleanup. }
  split; [exact Hr|].
  destruct (tcp_nat_safe (ip:=ConcreteTransport.ip_lib) (tw:=ConcreteTransport.lib) (update_snapshot ConcreteNet.rules)
    (cleanup_expired_syn (set_local_port engine 8899) 10 20) Hr) as [Hok _]. exact Hok.
Defined.

Lemma tcp_nat_transparent_witness :
  exists g1 p1, try_handle_peer_packet engine ModeTcp (packet 177246414 50000 168430122 80 true false) peer_ctx 7 0 0 =
      Ret (g1, p1, Handled true) /\
    exists h2 c' cseg', try_process_packet_from_nic g1 (packet 177246412 8899 177246414 50000 false true) nic_ctx =
        Ret (mk_packet DummyTunnel [] h2 c', true) /\
      from_to c' cseg' (168430122, 80) (177246414, 50000).
Proof.
  destruct (tcp_nat_transparent (ip:=ConcreteTransport.ip_lib) (update_snapshot ConcreteNet.rules) engine ModeTcp peer_ctx inet
    DummyTunnel [] header syn_ip syn_seg (177246414, 50000) (168430122, 80) 2130706474 7 0 0)
    as (g1 & b1 & seg1 & E & _ & _ & _ & _ & H).
  - apply rtc_refl.
  - reflexivity.
  - exact header_ok.
  - exact syn_packet.
  - vm_compute. repeat split.
  - vm_compute. reflexivity.
  - exact syn_proxied.
  - exact inet_fine.
  - vm_compute. discriminate.
  - exists g1, (mk_packet DummyTunnel [] (data_header header) b1). split; [exact E|].
    assert (te_id <$> find_entry g1 (V4 177246414 50000) = Some 7) as Ef.
    { apply (f_equal recorded) in E. cbn [recorded] in E. rewrite <- E. vm_compute. reflexivity. }
    destruct (find_entry g1 (V4 177246414 50000)) as [e|] eqn:Ee; [|discriminate Ef]. injection Ef as Ef.
    destruct (H g1 e nic_ctx DummyTunnel [] header answer_ip answer_seg) as (h2 & c' & cseg' & En & _ & _ & Hft).
    + apply rtc_refl.
    + exact Ee.
    + exact Ef.
    + reflexivity.
    + reflexivity.
    + reflexivity.
    + vm_compute. split; [discriminate|reflexivity].
    + exact header_ok.
    + exact answer_packet.
    + vm_compute. repeat split.
    + exists h2, c', cseg'. split; [exact En|exact Hft].
Defined.
