(* ===== verification/UdpProxy.v ===== *)
(** The UDP proxy: [gateway/proxy/udp_proxy_engine.rs].

    A datagram of a peer to a proxied network, perhaps in fragments, is handed to
    a socket of its NAT entry; what the socket receives goes back to the peer in
    IPv4 packets that come from the address the peer spoke to.  Each method is
    atomic; clock readings, the identifier of a new entry and what the runtime
    answers are arguments. *)

From stdpp Require Import list gmap.
From S2P Require Import Prelude Headers Packet IpReassembler CidrTable TransportWire.
Local Open Scope Z_scope.

(** [UdpNatKey]: the sockets of the peer and of the announced destination. *)
Abbreviation UdpNatKey := (SocketAddr * SocketAddr)%type.

Record UdpNatEntry := {
  ue_id : Z; ue_src_peer_id : Z; ue_my_peer_id : Z; ue_src_socket : SocketAddr; ue_real_dst_ip : Z;
  ue_mapped_dst_ip : Z; ue_virtual_ipv4 : Z; ue_last_active_time : Z; ue_stopped : bool; ue_denied : bool }.
Definition mark_active (e : UdpNatEntry) (now : Z) : UdpNatEntry :=
  {| ue_id := ue_id e; ue_src_peer_id := ue_src_peer_id e; ue_my_peer_id := ue_my_peer_id e;
     ue_src_socket := ue_src_socket e; ue_real_dst_ip := ue_real_dst_ip e; ue_mapped_dst_ip := ue_mapped_dst_ip e;
     ue_virtual_ipv4 := ue_virtual_ipv4 e; ue_last_active_time := now; ue_stopped := ue_stopped e;
     ue_denied := ue_denied e |}.
Definition udp_is_active (e : UdpNatEntry) (ttl now : Z) : bool :=
  (now - ue_last_active_time e <? ttl) && negb (ue_stopped e).

Record UdpProxyPeerContext := { uc_virtual_ipv4 : option Z; uc_enable_exit_node : bool; uc_no_tun : bool }.
(** [UdpProxyRuntime], as far as the engine asks it. *)
Record UdpRuntime := { is_ip_local_virtual_ip : Z -> bool; should_deny_udp_proxy : SocketAddr -> bool }.

Inductive UdpProxyAction :=
  | ForwardToSocket (entry_id : Z) (dst : SocketAddr) (payload : list Z) | UdpDrop | UdpPass.

Definition LOCALHOST : Z := 2130706433.
Definition is_loopback (a : Z) : bool := a / 2 ^ 24 =? 127.

Section engine.
Context {nl : NetLib} {ip : Ipv4Lib} {tw : TransportLib}.

Record UdpProxyEngine := {
  udp_cidr_table : list ProxyCidrEntry;
  nat_table : gmap UdpNatKey UdpNatEntry; nat_ids : gmap Z UdpNatKey;
  ip_reassembler : IpReassembler; entry_ttl : Z; next_ip_id : Z }.

(** Times are in milliseconds. *)
Definition UdpProxyEngine_new (t : list ProxyCidrEntry) (fragment_timeout : Z) : UdpProxyEngine :=
  {| udp_cidr_table := t; nat_table := ∅; nat_ids := ∅; ip_reassembler := IpReassembler_new fragment_timeout;
     entry_ttl := 180000; next_ip_id := 1 |}.
Definition with_nat (g : UdpProxyEngine) (t : gmap UdpNatKey UdpNatEntry) (i : gmap Z UdpNatKey) : UdpProxyEngine :=
  {| udp_cidr_table := udp_cidr_table g; nat_table := t; nat_ids := i; ip_reassembler := ip_reassembler g;
     entry_ttl := entry_ttl g; next_ip_id := next_ip_id g |}.
Definition with_reassembler (g : UdpProxyEngine) (r : IpReassembler) : UdpProxyEngine :=
  {| udp_cidr_table := udp_cidr_table g; nat_table := nat_table g; nat_ids := nat_ids g; ip_reassembler := r;
     entry_ttl := entry_ttl g; next_ip_id := next_ip_id g |}.

Definition udp_entry_ids (g : UdpProxyEngine) : list Z := map fst (map_to_list (nat_ids g)).

Definition remove_expired_entries (g : UdpProxyEngine) (now : Z) : UdpProxyEngine * list Z :=
  let removed := map (fun kv => ue_id kv.2)
    (filter (fun kv => udp_is_active kv.2 (entry_ttl g) now = false) (map_to_list (nat_table g))) in
  (with_nat g (filter (fun kv => udp_is_active kv.2 (entry_ttl g) now = true) (nat_table g))
     (foldr delete (nat_ids g) removed), removed).

(** The entry is also marked as stopped, which nobody sees once it is removed. *)
Definition udp_remove_entry (g : UdpProxyEngine) (id : Z) : UdpProxyEngine :=
  match nat_ids g !! id with
  | None => g
  | Some key => with_nat g (delete key (nat_table g)) (delete id (nat_ids g))
  end.

Definition remove_expired_fragments (g : UdpProxyEngine) (now : Z) : UdpProxyEngine :=
  with_reassembler g (remove_expired_packets (ip_reassembler g) now).

(** [udp_packet.payload()]. *)
Definition udp_data (b : list Z) : comp (list Z) := slice UDP_HEADER_LEN (udp_get UdpLen b) b.

(** The second half of [handle_peer_packet], once the datagram is known. *)
Definition handle_datagram (g : UdpProxyEngine) (hdr : PeerManagerHeader) (src_ip origin_dst_ip real_dst_ip virtual_ipv4 : Z)
    (rt : UdpRuntime) (seg : list Z) (id now : Z) : comp (UdpProxyEngine * UdpProxyAction) :=
  let dst_port := udp_get UdpDstPort seg in
  let dst_socket := if is_ip_local_virtual_ip rt real_dst_ip then V4 LOCALHOST dst_port else V4 real_dst_ip dst_port in
  let nat_key := (V4 src_ip (udp_get UdpSrcPort seg), V4 origin_dst_ip dst_port) in
  let '(entry, ids) :=
    match nat_table g !! nat_key with
    | Some e => (e, nat_ids g)
    | None =>
      ({| ue_id := id; ue_src_peer_id := from_peer_id hdr; ue_my_peer_id := to_peer_id hdr;
          ue_src_socket := nat_key.1; ue_real_dst_ip := real_dst_ip; ue_mapped_dst_ip := origin_dst_ip;
          ue_virtual_ipv4 := virtual_ipv4; ue_last_active_time := now; ue_stopped := false;
          ue_denied := should_deny_udp_proxy rt (V4 real_dst_ip dst_port) |}, <[id := nat_key]> (nat_ids g))
    end in
  if ue_denied entry then Ret (with_nat g (<[nat_key := entry]> (nat_table g)) ids, UdpDrop) else
  data ← udp_data seg;
  Ret (with_nat g (<[nat_key := mark_active entry now]> (nat_table g)) ids,
       ForwardToSocket (ue_id entry) dst_socket data).

Definition udp_handle_peer_packet (g : UdpProxyEngine) (packet : ZCPacket) (ctx : UdpProxyPeerContext) (rt : UdpRuntime)
    (id now : Z) : comp (UdpProxyEngine * UdpProxyAction) :=
  if table_is_empty (udp_cidr_table g) && negb (uc_enable_exit_node ctx) && negb (uc_no_tun ctx)
  then Ret (g, UdpPass) else
  match uc_virtual_ipv4 ctx with
  | None => Ret (g, UdpPass)
  | Some virtual_ipv4 =>
    match peer_manager_header packet with
    | None => Ret (g, UdpPass)
    | Some hdr =>
      if negb (pm_packet_type hdr =? PacketType_as_u8 Data) || is_no_proxy hdr then Ret (g, UdpPass) else
      b ← payload packet;
      if negb (ip_checked b) then Ret (g, UdpPass) else
      if negb (ip_get Version b =? 4) || negb (ip_get NextHeader b =? IP_UDP) then Ret (g, UdpPass) else
      let origin_dst_ip := ip_get DstAddr b in
      let no_tun_local_virtual_ip := uc_no_tun ctx && bool_decide (Some origin_dst_ip = uc_virtual_ipv4 ctx) in
      let mapped := lookup_v4 (udp_cidr_table g) origin_dst_ip in
      if match mapped with Some _ => false | None => negb (is_exit_node hdr) && negb no_tun_local_virtual_ip end
      then Ret (g, UdpPass) else
      let real_dst_ip := default origin_dst_ip mapped in
      if is_packet_fragmented b then
        '(r, o) ← add_fragment (ip_reassembler g) b now;
        let g := with_reassembler g r in
        match o with
        | None => Ret (g, UdpDrop)
        | Some seg =>
          if negb (udp_checked seg) then Ret (g, UdpPass) else
          handle_datagram g hdr (ip_get SrcAddr b) origin_dst_ip real_dst_ip virtual_ipv4 rt seg id now
        end
      else
        seg ← ip_payload b;
        if negb (udp_checked seg) then Ret (g, UdpPass) else
        handle_datagram g hdr (ip_get SrcAddr b) origin_dst_ip real_dst_ip virtual_ipv4 rt seg id now
    end
  end.

(** ** Answers *)

(** The datagram behind room for an IPv4 header. *)
Definition response_buf (src_ip src_port dst_ip dst_port : Z) (data : list Z) : comp (list Z) :=
  let udp_len := UDP_HEADER_LEN + len data in
  let seg := replicate (Z.to_nat udp_len) 0 in
  let seg := udp_set UdpLen (wrap 16 udp_len) (udp_set UdpDstPort dst_port (udp_set UdpSrcPort src_port seg)) in
  seg ← copy_into UDP_HEADER_LEN (udp_get UdpLen seg) data seg;
  Ret (replicate (Z.to_nat IPV4_HEADER_LEN) 0 ++ udp_fill_checksum src_ip dst_ip seg).

(** The callback of [compose_ipv4_packet]: the packet for the peer; [u] is what the
    fresh buffer holds. *)
Definition response_packet (u : nat -> Z) (e : UdpNatEntry) (b : list Z) : comp ZCPacket :=
  new_no_proxy_packet u (ue_my_peer_id e) (ue_src_peer_id e) b.

Definition compose_udp_ipv4_response (u : nat -> Z) (e : UdpNatEntry) (src_ip src_port dst_ip dst_port : Z) (data : list Z)
    (payload_mtu ip_id : Z) : comp (list ZCPacket) :=
  if negb (payload_mtu mod 8 =? 0) then Panic else
  buf ← response_buf src_ip src_port dst_ip dst_port data;
  match compose_ipv4_packet (E:=unit) all_received
    {| src_v4 := src_ip; dst_v4 := dst_ip; next_protocol := IP_UDP; c_payload_len := UDP_HEADER_LEN + len data;
       c_payload_mtu := payload_mtu; ip_id := ip_id |} buf with
  | Some (Ret (_, pkts, _)) => collect_packets (response_packet u e) pkts
  | _ => Panic
  end.

Definition reply_src_ip (e : UdpNatEntry) (from : Z) : Z :=
  let has_mapped_dst := negb (ue_real_dst_ip e =? ue_mapped_dst_ip e) in
  let reply := if has_mapped_dst && (from =? ue_real_dst_ip e) then ue_mapped_dst_ip e
               else if is_loopback from then ue_virtual_ipv4 e else from in
  if has_mapped_dst && (reply =? ue_real_dst_ip e) then ue_mapped_dst_ip e else reply.

Definition payload_mtu_of (ipv4_mtu : Z) : Z :=
  let m := Z.max (sat_sub ipv4_mtu IPV4_HEADER_LEN) 8 in m - m mod 8.

Definition handle_socket_response (u : nat -> Z) (g : UdpProxyEngine) (id : Z) (src_socket : SocketAddr) (data : list Z)
    (ipv4_mtu now : Z) : comp (UdpProxyEngine * list ZCPacket) :=
  match nat_ids g !! id with
  | None => Ret (g, [])
  | Some key =>
    match nat_table g !! key with
    | None => Ret (g, [])
    | Some e =>
      let g := with_nat g (<[key := mark_active e now]> (nat_table g)) (nat_ids g) in
      match src_socket, ue_src_socket e with
      | V4 from port, V4 nat_ip nat_port =>
        let ipid := next_ip_id g in
        let g := {| udp_cidr_table := udp_cidr_table g; nat_table := nat_table g; nat_ids := nat_ids g;
                    ip_reassembler := ip_reassembler g; entry_ttl := entry_ttl g; next_ip_id := wrap 16 (ipid + 1) |} in
        pkts ← compose_udp_ipv4_response u e (reply_src_ip e from) port nat_ip nat_port data (payload_mtu_of ipv4_mtu) ipid;
        Ret (g, pkts)
      | _, _ => Ret (g, [])
      end
    end
  end.
End engine.
