(* ===== verification/UdpProxyProofs.v ===== *)
(** The UDP proxy: the invariant of its tables, and requests and answers end to
    end. *)

From stdpp Require Import list gmap.
From S2P Require Import Prelude Headers Packet IpReassembler CidrTable TransportWire UdpProxy.
Local Open Scope Z_scope.

Section answers.
Context {nl : NetLib} {ip : Ipv4Lib} {tw : TransportLib} {Hip : Ipv4Laws ip} {Hud : UdpLaws tw}.

(** A datagram with its ports and data. *)
Definition udp_datagram (seg : list Z) (sport dport : Z) (data : list Z) : Prop :=
  udp_checked seg = true /\ udp_get UdpSrcPort seg = sport /\ udp_get UdpDstPort seg = dport /\
  udp_data seg = Ret data.

Lemma response_buf_spec sip sport dip dport data : u16 sport -> u16 dport -> len data < 65528 ->
  exists seg, response_buf sip sport dip dport data = Ret (replicate 20 0 ++ seg) /\
    len seg = UDP_HEADER_LEN + len data /\ udp_datagram seg sport dport data.
Proof using Hud.
  intros Hs Hd Hl. pose proof (len_nonneg data) as H0. unfold response_buf, UDP_HEADER_LEN.
  set (n := 8 + len data). set (z := replicate (Z.to_nat n) 0).
  assert (len z = n) as Hz by (unfold len, z; rewrite length_replicate; lia).
  set (s1 := udp_set UdpSrcPort sport z). assert (len s1 = n) as H1.
  { unfold s1, len. rewrite udp_set_len by (unfold UDP_HEADER_LEN; lia). exact Hz. }
  set (s2 := udp_set UdpDstPort dport s1). assert (len s2 = n) as H2.
  { unfold s2, len. rewrite udp_set_len by (unfold UDP_HEADER_LEN; lia). exact H1. }
  rewrite (wrap_small 16 n) by (unfold in_range; lia).
  set (s3 := udp_set UdpLen n s2). assert (len s3 = n) as H3.
  { unfold s3, len. rewrite udp_set_len by (unfold UDP_HEADER_LEN; lia). exact H2. }
  assert (udp_get UdpLen s3 = n /\ udp_get UdpSrcPort s3 = sport /\ udp_get UdpDstPort s3 = dport) as (G1 & G2 & G3).
  { unfold s3, s2, s1. unfold UDP_HEADER_LEN in *. split_and!.
    - apply udp_get_set; [unfold UDP_HEADER_LEN; fold s1 s2; lia|unfold in_range; lia].
    - rewrite !udp_get_set_ne by (unfold UDP_HEADER_LEN; fold s1 s2; (lia || done)).
      apply udp_get_set; [unfold UDP_HEADER_LEN; lia|done].
    - rewrite udp_get_set_ne by (unfold UDP_HEADER_LEN; fold s1 s2; (lia || done)).
      apply udp_get_set; [unfold UDP_HEADER_LEN; fold s1; lia|done]. }
  rewrite G1, copy_into_in by lia. cbn [mbind comp_bind].
  set (s4 := overwrite 8 data s3).
  assert (length s4 = length s3) as H4 by (apply length_overwrite; lia).
  assert (len s4 = n) as H4' by (unfold len in *; lia).
  assert (forall f, udp_get f s4 = udp_get f s3) as G4.
  { intros f. apply udp_get_local. apply overwrite_before; lia. }
  assert (drop 8 s4 = data) as D4.
  { pose proof (overwrite_at 8 data s3 ltac:(lia) ltac:(lia)) as E. fold s4 in E. change (Z.to_nat 8) with 8%nat in E.
    rewrite take_ge in E; [exact E|]. rewrite length_drop. unfold len in *. lia. }
  exists (udp_fill_checksum sip dip s4). split; [done|].
  assert (length (udp_fill_checksum sip dip s4) = length s4) as H5 by (apply udp_fill_len; unfold UDP_HEADER_LEN; lia).
  assert (len (udp_fill_checksum sip dip s4) = n) as H5' by (unfold len in *; lia).
  assert (forall f, udp_get f (udp_fill_checksum sip dip s4) = udp_get f s3) as G5.
  { intros f. rewrite udp_get_fill by (unfold UDP_HEADER_LEN; lia). apply G4. }
  split; [done|]. split_and!.
  - apply udp_checked_spec. rewrite G5, G1. unfold UDP_HEADER_LEN. lia.
  - by rewrite G5.
  - by rewrite G5.
  - unfold udp_data. rewrite G5, G1. unfold UDP_HEADER_LEN. rewrite slice_in by lia. change (Z.to_nat 8) with 8%nat.
    rewrite udp_fill_data, D4 by (unfold UDP_HEADER_LEN; lia). f_equal. apply take_ge. unfold len in *. lia.
Qed.

(** The packet that carries an answer: its header and its payload. *)
Definition answers_to (e : UdpNatEntry) : list Z -> ZCPacket -> Prop := data_packet (ue_my_peer_id e) (ue_src_peer_id e) true.
Lemma response_packets_spec u e l : u32 (ue_my_peer_id e) -> u32 (ue_src_peer_id e) ->
  exists ps, collect_packets (response_packet u e) l = Ret ps /\ Forall2 (answers_to e) l ps.
Proof using. intros Hm Hs. apply collect_packets_spec. intros b. by apply no_proxy_packet_carries. Qed.

Lemma payload_mtu_spec m : 0 <= m < 65536 -> 0 < payload_mtu_of m < 65516 /\ payload_mtu_of m mod 8 = 0.
Proof using.
  intros Hm. unfold payload_mtu_of, sat_sub, IPV4_HEADER_LEN. set (k := Z.max (Z.max 0 (m - 20)) 8).
  assert (8 <= k <= 65515) as Hk by lia.
  pose proof (Z.div_mod k 8 ltac:(lia)) as Hd. pose proof (Z.mod_pos_bound k 8 ltac:(lia)).
  assert (1 <= k / 8) by (apply Z.div_le_lower_bound; lia). split; [lia|].
  replace (k - k mod 8) with (k / 8 * 8) by lia. by rewrite Z.mod_mul.
Qed.
End answers.

(** ** The invariant *)

Section invariant.
Context {nl : NetLib} {ip : Ipv4Lib} {tw : TransportLib} {Hip : Ipv4Laws ip} {Htw : TransportLaws ip tw} {Hud : UdpLaws tw}.

(** What the key of an entry says about it. *)
Definition udp_entry_ok (key : UdpNatKey) (e : UdpNatEntry) : Prop :=
  exists sip sp dp, key = (V4 sip sp, V4 (ue_mapped_dst_ip e) dp) /\ ue_src_socket e = V4 sip sp /\
    u32 sip /\ u16 sp /\ u32 (ue_mapped_dst_ip e) /\ u32 (ue_virtual_ipv4 e) /\
    u32 (ue_my_peer_id e) /\ u32 (ue_src_peer_id e).

(** [used] are the identifiers drawn so far. *)
Record udp_ok (used : gset Z) (g : UdpProxyEngine) : Prop := {
  uo_ids id key : nat_ids g !! id = Some key -> id ∈ used /\ exists e, nat_table g !! key = Some e /\ ue_id e = id;
  uo_table key e : nat_table g !! key = Some e -> nat_ids g !! ue_id e = Some key /\ udp_entry_ok key e;
  uo_next : u16 (next_ip_id g) }.

Lemma udp_new_ok t timeout : udp_ok ∅ (UdpProxyEngine_new t timeout).
Proof using. split; cbn; [intros *; by rewrite lookup_empty..|by vm_compute]. Qed.

(** An entry stays as it is, the time of its last use apart, until it goes. *)
Definition keeps (g g' : UdpProxyEngine) : Prop := forall id key e,
  nat_ids g !! id = Some key -> nat_table g !! key = Some e ->
  nat_ids g' !! id = None \/
  (nat_ids g' !! id = Some key /\ exists t, nat_table g' !! key = Some (mark_active e t)).
Lemma mark_active_id e : mark_active e (ue_last_active_time e) = e.
Proof using. by destruct e. Qed.
Lemma keeps_same g g' : nat_ids g' = nat_ids g -> nat_table g' = nat_table g -> keeps g g'.
Proof using.
  intros Ei Et id key e Hi He. right. rewrite Ei, Et. split; [done|]. exists (ue_last_active_time e).
  by rewrite mark_active_id.
Qed.

(** An entry is touched, or a new one is made. *)
Lemma touch_ok used g key e t : udp_ok used g -> nat_table g !! key = Some e ->
  let g' := with_nat g (<[key := mark_active e t]> (nat_table g)) (nat_ids g) in udp_ok used g' /\ keeps g g'.
Proof using.
  intros [H1 H2 H3] He g'. split.
  - split; cbn; [| |done].
    + intros id k Hk. destruct (H1 id k Hk) as (Hu & f & Hf & Hid). split; [done|].
      destruct (decide (k = key)) as [->|Hne].
      * exists (mark_active e t). rewrite lookup_insert_eq. split; [done|]. cbn. congruence.
      * exists f. by rewrite lookup_insert_ne.
    + intros k f [[<- <-]|[_ Hf]]%lookup_insert_Some; [|by apply H2]. cbn. by apply (H2 key e).
  - intros id k f Hi Hf. right. split; [done|]. cbn. destruct (decide (k = key)) as [->|Hne].
    + exists t. rewrite lookup_insert_eq. congruence.
    + exists (ue_last_active_time f). rewrite lookup_insert_ne by done. by rewrite mark_active_id.
Qed.
Lemma create_ok used g key e : udp_ok used g -> nat_table g !! key = None -> udp_entry_ok key e -> ue_id e ∉ used ->
  let g' := with_nat g (<[key := e]> (nat_table g)) (<[ue_id e := key]> (nat_ids g)) in
  udp_ok ({[ue_id e]} ∪ used) g' /\ keeps g g'.
Proof using.
  intros [H1 H2 H3] Hk He Hid g'.
  assert (forall id k, nat_ids g !! id = Some k -> id <> ue_id e /\ k <> key) as Hne.
  { intros id k Hi. destruct (H1 id k Hi) as (Hu & f & Hf & _). split; [|congruence]. intros ->. done. }
  split.
  - split; cbn; [| |done].
    + intros id k [[<- <-]|[Hn Hi]]%lookup_insert_Some.
      * split; [apply elem_of_union_l, elem_of_singleton; done|]. exists e. by rewrite lookup_insert_eq.
      * destruct (H1 id k Hi) as (Hu & f & Hf & Hfid). split; [by apply elem_of_union_r|]. exists f.
        destruct (Hne id k Hi). by rewrite lookup_insert_ne.
    + intros k f [[<- <-]|[Hn Hf]]%lookup_insert_Some; [by rewrite lookup_insert_eq|].
      destruct (H2 k f Hf) as [Hi Hok]. destruct (Hne _ _ Hi) as [Hn2 _]. by rewrite lookup_insert_ne.
  - intros id k f Hi Hf. destruct (Hne id k Hi) as [Hn1 Hn2]. right. cbn. rewrite !lookup_insert_ne by done.
    split; [done|]. exists (ue_last_active_time f). by rewrite mark_active_id.
Qed.

Lemma udp_remove_ok used g id : udp_ok used g -> udp_ok used (udp_remove_entry g id) /\ keeps g (udp_remove_entry g id).
Proof using.
  intros [H1 H2 H3]. unfold udp_remove_entry. destruct (nat_ids g !! id) as [key|] eqn:Ei; [|split; [by split|by apply keeps_same]].
  destruct (H1 id key Ei) as (_ & e & He & Hid). split.
  - split; cbn; [| |done].
    + intros i k [Hne Hi]%lookup_delete_Some. destruct (H1 i k Hi) as (Hu & f & Hf & Hfid). split; [done|].
      exists f. rewrite lookup_delete_ne; [done|]. intros ->. congruence.
    + intros k f [Hne Hf]%lookup_delete_Some. destruct (H2 k f Hf) as [Hi Hok]. split; [|done].
      rewrite lookup_delete_ne; [done|]. intros Hfi. congruence.
  - intros i k f Hi Hf. cbn. destruct (decide (i = id)) as [->|Hne]; [left; by rewrite lookup_delete_eq|right].
    rewrite lookup_delete_ne by done. split; [done|]. exists (ue_last_active_time f).
    rewrite lookup_delete_ne, mark_active_id; [done|]. intros ->.
    destruct (H1 i k Hi) as (_ & f' & Hf' & Hid'). congruence.
Qed.

Lemma lookup_foldr_delete {V} (l : list Z) (m : gmap Z V) i :
  foldr delete m l !! i = if decide (i ∈ l) then None else m !! i.
Proof using.
  induction l as [|j l IH]; cbn; [by rewrite decide_False by (apply not_elem_of_nil)|].
  destruct (decide (i = j)) as [->|Hne].
  - rewrite lookup_delete_eq, decide_True; [done|]. apply elem_of_cons. by left.
  - rewrite lookup_delete_ne, IH by done. apply decide_ext. rewrite elem_of_cons. split; [by right|]. by intros [?|?].
Qed.

Lemma udp_expire_ok used g now : udp_ok used g ->
  udp_ok used (remove_expired_entries g now).1 /\ keeps g (remove_expired_entries g now).1.
Proof using.
  intros [H1 H2 H3]. unfold remove_expired_entries. cbn [fst].
  set (removed := map _ _).
  assert (forall i key e, nat_ids g !! i = Some key -> nat_table g !! key = Some e ->
    i ∈ removed <-> udp_is_active e (entry_ttl g) now = false) as Hrem.
  { intros i key e Hi He. destruct (H1 i key Hi) as (_ & e' & He' & Hid). rewrite He in He'. injection He' as <-.
    unfold removed. change (map (fun kv : UdpNatKey * UdpNatEntry => ue_id kv.2)) with (fmap (M:=list) (fun kv : UdpNatKey * UdpNatEntry => ue_id kv.2)).
    rewrite list_elem_of_fmap. split.
    - intros ([k f] & -> & [Ha Hf%elem_of_map_to_list]%list_elem_of_filter). cbn in *.
      destruct (H2 k f Hf) as [Hki _]. assert (k = key) as -> by congruence. congruence.
    - intros Ha. exists (key, e). split; [done|]. apply list_elem_of_filter. split; [done|]. by apply elem_of_map_to_list. }
  split.
  - split; cbn; [| |done].
    + intros i key Hi. rewrite lookup_foldr_delete in Hi. case_decide as Hn; [done|].
      destruct (H1 i key Hi) as (Hu & e & He & Hid). split; [done|]. exists e. split; [|done].
      apply map_lookup_filter_Some. split; [done|]. cbn. apply not_false_iff_true. intros Ha. apply Hn. by eapply Hrem.
    + intros key e [He Ha]%map_lookup_filter_Some. cbn in Ha. destruct (H2 key e He) as [Hi Hok]. split; [|done].
      rewrite lookup_foldr_delete, decide_False; [done|]. intros Hn. apply (Hrem _ key e Hi He) in Hn. congruence.
  - intros i key e Hi He. cbn. rewrite lookup_foldr_delete. destruct (decide (i ∈ removed)) as [Hn|Hn]; [by left|right].
    split; [done|]. exists (ue_last_active_time e). rewrite mark_active_id. apply map_lookup_filter_Some. split; [done|].
    cbn. apply not_false_iff_true. intros Ha. apply Hn. by eapply Hrem.
Qed.

(** ** Packets of peers *)

Lemma udp_ok_more used used' g : udp_ok used g -> used ⊆ used' -> udp_ok used' g.
Proof using.
  intros [H1 H2 H3] Hs. split; [|done|done]. intros id key Hi. destruct (H1 id key Hi) as [Hu He].
  split; [by apply Hs|done].
Qed.
Lemma udp_ok_reassembler used g r : udp_ok used g -> udp_ok used (with_reassembler g r).
Proof using. by intros [H1 H2 H3]. Qed.

(** What a packet can do to the tables. *)
Inductive nat_effect (g : UdpProxyEngine) (id : Z) : UdpProxyEngine -> Prop :=
  | NatSame r : nat_effect g id (with_reassembler g r)
  | NatTouch r key e t : nat_table g !! key = Some e ->
      nat_effect g id (with_nat (with_reassembler g r) (<[key := mark_active e t]> (nat_table g)) (nat_ids g))
  | NatCreate r key e : nat_table g !! key = None -> udp_entry_ok key e -> ue_id e = id ->
      nat_effect g id (with_nat (with_reassembler g r) (<[key := e]> (nat_table g)) (<[id := key]> (nat_ids g))).

Lemma effect_ok used g id g' : udp_ok used g -> id ∉ used -> nat_effect g id g' ->
  udp_ok ({[id]} ∪ used) g' /\ keeps g g'.
Proof using.
  intros Hg Hid He. assert (used ⊆ {[id]} ∪ used) as Hs by (apply union_subseteq_r).
  destruct He as [r|r key e t Hk|r key e Hk Hok <-].
  - split; [|by apply keeps_same]. apply (udp_ok_more used); [by apply udp_ok_reassembler|done].
  - destruct (touch_ok used (with_reassembler g r) key e t) as [H1 H2]; [by apply udp_ok_reassembler|done|].
    split; [by apply (udp_ok_more used)|exact H2].
  - apply (create_ok used (with_reassembler g r)); [by apply udp_ok_reassembler|done..].
Qed.

Lemma checked_data seg : udp_checked seg = true -> exists data, udp_data seg = Ret data.
Proof using Hud.
  intros Hc. apply udp_checked_spec in Hc as [_ H]. unfold UDP_HEADER_LEN in H.
  unfold udp_data, UDP_HEADER_LEN. rewrite slice_in by lia. eauto.
Qed.

Lemma datagram_effect g h sip dip rip v rt seg id now :
  PeerManagerHeader_wf h -> u32 sip -> u32 dip -> u32 v -> udp_checked seg = true ->
  exists g' act, handle_datagram g h sip dip rip v rt seg id now = Ret (g', act) /\ nat_effect g id g'.
Proof using Hud.
  intros Hh Hs Hd Hv Hc. destruct (checked_data seg Hc) as [data Hdata]. destruct (udp_port_range seg) as [Hsp Hdp].
  unfold handle_datagram. set (key := (V4 sip (udp_get UdpSrcPort seg), V4 dip (udp_get UdpDstPort seg))).
  assert (g = with_reassembler g (ip_reassembler g)) as Eg by (by destruct g).
  destruct (nat_table g !! key) as [e|] eqn:Ek.
  - destruct (ue_denied e).
    + eexists _, _. split; [done|]. rewrite Eg at 2. rewrite <- (mark_active_id e) at 1. by apply NatTouch.
    + rewrite Hdata. eexists _, _. split; [done|]. rewrite Eg at 2. by apply NatTouch.
  - set (e := {| ue_id := id |}). assert (udp_entry_ok key e /\ udp_entry_ok key (mark_active e now)) as [Ho1 Ho2].
    { destruct Hh as (W1 & W2 & _). split; exists sip, (udp_get UdpSrcPort seg), (udp_get UdpDstPort seg); by split_and!. }
    destruct (ue_denied e).
    + eexists _, _. split; [done|]. rewrite Eg at 2. by apply NatCreate.
    + rewrite Hdata. eexists _, _. split; [done|]. rewrite Eg at 2. by apply NatCreate.
Qed.

(** Every packet is handled: what does not fit is passed on. *)
Lemma peer_effect g p ctx rt id now : bytes_ok (inner p) -> (forall v, uc_virtual_ipv4 ctx = Some v -> u32 v) ->
  exists g' act, udp_handle_peer_packet g p ctx rt id now = Ret (g', act) /\ nat_effect g id g'.
Proof using Htw Hud.
  intros Hp Hv. assert (g = with_reassembler g (ip_reassembler g)) as Eg by (by destruct g).
  assert (nat_effect g id g) as Hsame by (rewrite Eg at 2; apply NatSame).
  unfold udp_handle_peer_packet. destruct (_ && _); [eauto|].
  destruct (uc_virtual_ipv4 ctx) as [v|]; [|eauto]. specialize (Hv v eq_refl).
  destruct (peer_manager_header p) as [h|] eqn:Eh; [|eauto]. destruct (_ || _); [eauto|].
  destruct (header_wf_payload p h Hp Eh) as (Hw & b & ->). cbn [mbind comp_bind].
  destruct (ip_checked b) eqn:Ec; cbn [negb]; [|eauto]. destruct (_ || _); [eauto|].
  destruct (match lookup_v4 _ _ with Some _ => _ | None => _ end); [eauto|].
  destruct (ip_addr_range b) as [Hs Hd]. destruct (is_packet_fragmented b).
  - destruct (add_fragment_returns (ip_reassembler g) b now Ec) as (r & o & ->). cbn [mbind comp_bind].
    destruct o as [seg|]; [|eexists _, _; split; [done|apply NatSame]].
    destruct (udp_checked seg) eqn:Eu; cbn [negb]; [|eexists _, _; split; [done|apply NatSame]].
    destruct (datagram_effect (with_reassembler g r) h (ip_get SrcAddr b) (ip_get DstAddr b)
      (default (ip_get DstAddr b) (lookup_v4 (udp_cidr_table g) (ip_get DstAddr b))) v rt seg id now Hw Hs Hd Hv Eu)
      as (g' & act & E & Hf).
    exists g', act. split; [exact E|]. destruct Hf as [r'|r' key e t Hk|r' key e Hk Hok Hid].
    + exact (NatSame g id r').
    + exact (NatTouch g id r' key e t Hk).
    + exact (NatCreate g id r' key e Hk Hok Hid).
  - destruct (checked_payload b Ec) as [seg ->]. cbn [mbind comp_bind].
    destruct (udp_checked seg) eqn:Eu; cbn [negb]; [|eauto]. by apply datagram_effect.
Qed.

(** ** Answers of a socket *)

Lemma reply_spec u e sip sport dip dport data mtu ipid :
  u32 sip -> u16 sport -> u32 dip -> u16 dport -> u16 ipid -> u32 (ue_my_peer_id e) -> u32 (ue_src_peer_id e) ->
  len data < 65528 -> 0 <= mtu < 65536 ->
  let a := {| src_v4 := sip; dst_v4 := dip; next_protocol := IP_UDP; c_payload_len := UDP_HEADER_LEN + len data;
              c_payload_mtu := payload_mtu_of mtu; ip_id := ipid |} in
  exists seg bs pkts, compose_udp_ipv4_response u e sip sport dip dport data (payload_mtu_of mtu) ipid = Ret pkts /\
    Forall2 (answers_to e) bs pkts /\ udp_datagram seg sport dport data /\ delivers a bs seg.
Proof using Hip Hud.
  intros Hs Hsp Hd Hdp Hi Hm Hp Hl Hmtu a. destruct (payload_mtu_spec mtu Hmtu) as [Hr H8].
  unfold compose_udp_ipv4_response. rewrite H8. cbn [Z.eqb negb].
  destruct (response_buf_spec sip sport dip dport data Hsp Hdp Hl) as (seg & -> & Hlen & Hseg). cbn [mbind comp_bind].
  pose proof (len_nonneg data). unfold UDP_HEADER_LEN in Hlen.
  destruct (fragments_spec Hip (E:=unit) seg a (replicate 20 0) []) as (buf & bs & E & _ & Hdel).
  - by split_and!.
  - lia.
  - symmetry. exact Hlen.
  - exact Hr.
  - exact H8.
  - done.
  - fold a. rewrite app_nil_r in E. rewrite E. destruct (response_packets_spec u e bs Hm Hp) as (pkts & -> & Hf).
    exists seg, bs, pkts. by split_and!.
Qed.

Lemma reply_effect used u g id from port data mtu now : udp_ok used g -> u32 from -> u16 port ->
  len data < 65528 -> 0 <= mtu < 65536 ->
  exists g' pkts, handle_socket_response u g id (V4 from port) data mtu now = Ret (g', pkts) /\
    udp_ok used g' /\ keeps g g' /\ nat_ids g' = nat_ids g.
Proof using Hip Hud.
  intros Hg Hf Hp Hl Hm. unfold handle_socket_response.
  destruct (nat_ids g !! id) as [key|] eqn:Ei; [|eexists _, _; split; [done|split_and!; [done|by apply keeps_same|done]]].
  destruct (nat_table g !! key) as [e|] eqn:Ee; [|eexists _, _; split; [done|split_and!; [done|by apply keeps_same|done]]].
  destruct (touch_ok used g key e now Hg Ee) as [[H1 H2 H3] Hk].
  destruct (uo_table used g Hg key e Ee) as (_ & sip & sp & dp & _ & -> & Hs & Hsp & Hmd & Hv & Hmy & Hsrc).
  destruct (reply_spec u e (reply_src_ip e from) port sip sp data mtu (next_ip_id g)) as (_ & _ & pkts & E & _);
    [|done..|exact (uo_next used g Hg)|done|done|done|done|].
  { unfold reply_src_ip. repeat case_match; done. }
  cbn [next_ip_id with_nat]. rewrite E. cbn [mbind comp_bind]. eexists _, _. split; [done|]. split_and!; [|exact Hk|done].
  split; [exact H1|exact H2|]. cbn. apply wrap_range. lia.
Qed.

(** ** Histories *)

(** What happens to the engine, with the identifiers drawn so far; peers send what
    they like. *)
Inductive udp_step : gset Z * UdpProxyEngine -> gset Z * UdpProxyEngine -> Prop :=
  | UdpPeer used g p ctx rt id now g' act :
      id ∉ used -> bytes_ok (inner p) -> (forall v, uc_virtual_ipv4 ctx = Some v -> u32 v) ->
      udp_handle_peer_packet g p ctx rt id now = Ret (g', act) -> udp_step (used, g) ({[id]} ∪ used, g')
  | UdpReply used g u id from port data mtu now g' pkts :
      u32 from -> u16 port -> len data < 65528 -> 0 <= mtu < 65536 ->
      handle_socket_response u g id (V4 from port) data mtu now = Ret (g', pkts) -> udp_step (used, g) (used, g')
  | UdpRemove used g id : udp_step (used, g) (used, udp_remove_entry g id)
  | UdpExpire used g now : udp_step (used, g) (used, (remove_expired_entries g now).1)
  | UdpSweep used g now : udp_step (used, g) (used, remove_expired_fragments g now).

(** No identifier comes back. *)
Definition gone (used : gset Z) (g g' : UdpProxyEngine) : Prop :=
  forall id, id ∈ used -> nat_ids g !! id = None -> nat_ids g' !! id = None.
Lemma effect_gone used g id g' : id ∉ used -> nat_effect g id g' -> gone used g g'.
Proof using.
  intros Hid [r|r key e t Hk|r key e Hk Hok He] i Hi Hn; [exact Hn|exact Hn|]. cbn.
  rewrite lookup_insert_ne; [done|]. by intros ->.
Qed.

Lemma udp_step_ok x y : udp_step x y -> udp_ok x.1 x.2 ->
  udp_ok y.1 y.2 /\ keeps x.2 y.2 /\ x.1 ⊆ y.1 /\ gone x.1 x.2 y.2.
Proof using Hip Htw Hud.
  intros Hs Hg. destruct Hs as [used g p ctx rt id now g' act Hid Hp Hv H|used g u id from port data mtu now g' pkts Hf Hp Hl Hm H|
    used g id|used g now|used g now]; cbn [fst snd] in *.
  - destruct (peer_effect g p ctx rt id now Hp Hv) as (g2 & act2 & E & He). rewrite E in H. injection H as <- <-.
    destruct (effect_ok used g id g2 Hg Hid He). split_and!; [done|done|apply union_subseteq_r|by apply (effect_gone used g id)].
  - destruct (reply_effect used u g id from port data mtu now Hg Hf Hp Hl Hm) as (g2 & pk & E & Ho & Hk & Hi).
    rewrite E in H. injection H as <- <-. split_and!; [done|done|done|]. intros i _ Hn. congruence.
  - destruct (udp_remove_ok used g id Hg). split_and!; [done|done|done|]. intros i _ Hn. unfold udp_remove_entry.
    destruct (nat_ids g !! id); [|done]. cbn. apply lookup_delete_None. by right.
  - destruct (udp_expire_ok used g now Hg). split_and!; [done|done|done|]. intros i _ Hn. cbn.
    rewrite lookup_foldr_delete. by case_decide.
  - split_and!; [by apply udp_ok_reassembler|by apply keeps_same|done|by intros i].
Qed.

Lemma udp_steps_ok x y : rtc udp_step x y -> udp_ok x.1 x.2 ->
  udp_ok y.1 y.2 /\ keeps x.2 y.2 /\ gone x.1 x.2 y.2.
Proof using Hip Htw Hud.
  induction 1 as [x|x y z Hxy _ IH]; intros Hx; [split_and!; [done|by apply keeps_same|by intros i]|].
  destruct (udp_step_ok _ _ Hxy Hx) as (Hy & Hk1 & Hs & Hg1). destruct (IH Hy) as (Hz & Hk2 & Hg2). split_and!; [done|..].
  - intros id key e Hi He. pose proof (proj1 (uo_ids _ _ Hx id key Hi)) as Hu.
    destruct (Hk1 id key e Hi He) as [Hn|(Hi2 & t & He2)]; [left; apply Hg2; [by apply Hs|done]|].
    destruct (Hk2 id key _ Hi2 He2) as [Hn|(Hi3 & t' & He3)]; [by left|]. right. split; [done|]. by exists t'.
  - intros id Hu Hn. apply Hg2; [by apply Hs|by apply Hg1].
Qed.

(** ** A flow *)

(** A datagram in one packet. *)
Definition udp_request (b : list Z) (src dst : Z * Z) (data : list Z) : Prop :=
  ip_checked b = true /\ ip_get Version b = 4 /\ ip_get NextHeader b = IP_UDP /\ is_packet_fragmented b = false /\
  ip_get SrcAddr b = src.1 /\ ip_get DstAddr b = dst.1 /\
  exists seg, ip_payload b = Ret seg /\ udp_datagram seg src.2 dst.2 data.

(** A data packet to [dip] is for the proxy, which takes [rip] for its destination. *)
Definition udp_proxied (g : UdpProxyEngine) (ctx : UdpProxyPeerContext) (h : PeerManagerHeader) (v dip rip : Z) : Prop :=
  table_is_empty (udp_cidr_table g) && negb (uc_enable_exit_node ctx) && negb (uc_no_tun ctx) = false /\
  uc_virtual_ipv4 ctx = Some v /\ pm_packet_type h = PacketType_as_u8 Data /\ is_no_proxy h = false /\
  match lookup_v4 (udp_cidr_table g) dip with
  | Some r => rip = r
  | None => rip = dip /\ is_exit_node h || uc_no_tun ctx && (dip =? v) = true
  end.

Definition new_udp_entry (h : PeerManagerHeader) (rt : UdpRuntime) (v rip id now : Z) (src dst : Z * Z) : UdpNatEntry :=
  {| ue_id := id; ue_src_peer_id := from_peer_id h; ue_my_peer_id := to_peer_id h; ue_src_socket := V4 src.1 src.2;
     ue_real_dst_ip := rip; ue_mapped_dst_ip := dst.1; ue_virtual_ipv4 := v; ue_last_active_time := now;
     ue_stopped := false; ue_denied := should_deny_udp_proxy rt (V4 rip dst.2) |}.
Definition flow_key (src dst : Z * Z) : UdpNatKey := (V4 src.1 src.2, V4 dst.1 dst.2).
Definition socket_ip (rt : UdpRuntime) (rip : Z) : Z := if is_ip_local_virtual_ip rt rip then LOCALHOST else rip.

Lemma request_spec g t tun h b ctx rt v src dst data rip id now :
  parts_ok t tun h -> udp_request b src dst data -> udp_proxied g ctx h v dst.1 rip ->
  let key := flow_key src dst in
  let '(e, ids) := match nat_table g !! key with
                   | Some e => (e, nat_ids g)
                   | None => (new_udp_entry h rt v rip id now src dst, <[id := key]> (nat_ids g))
                   end in
  udp_handle_peer_packet g (mk_packet t tun h b) ctx rt id now =
  if ue_denied e then Ret (with_nat g (<[key := e]> (nat_table g)) ids, UdpDrop)
  else Ret (with_nat g (<[key := mark_active e now]> (nat_table g)) ids,
            ForwardToSocket (ue_id e) (V4 (socket_ip rt rip) dst.2) data).
Proof using.
  intros Hp (Hc & Hv & Hn & Hf & Hs & Hd & seg & Hseg & Hu & Hsp & Hdp & Hdata) (H1 & H2 & H3 & H4 & H5) key.
  assert (handle_datagram g h src.1 dst.1 rip v rt seg id now =
    (let '(e, ids) := match nat_table g !! key with
                      | Some e => (e, nat_ids g)
                      | None => (new_udp_entry h rt v rip id now src dst, <[id := key]> (nat_ids g))
                      end in
     if ue_denied e then Ret (with_nat g (<[key := e]> (nat_table g)) ids, UdpDrop)
     else Ret (with_nat g (<[key := mark_active e now]> (nat_table g)) ids,
               ForwardToSocket (ue_id e) (V4 (socket_ip rt rip) dst.2) data))) as E.
  { unfold handle_datagram, socket_ip. rewrite Hsp, Hdp, Hdata. cbn [mbind comp_bind].
    destruct (is_ip_local_virtual_ip rt rip); reflexivity. }
  destruct (match nat_table g !! key with Some e => _ | None => _ end) as [e ids].
  rewrite <- E. unfold udp_handle_peer_packet. rewrite H1, H2, parts_header, H3, H4, Z.eqb_refl by done. cbn [negb orb].
  rewrite parts_payload by done. cbn [mbind comp_bind]. rewrite Hc, Hv, Hn, !Z.eqb_refl, Hd, Hf, Hs, Hseg. cbn [negb orb mbind comp_bind].
  rewrite Hu. cbn [negb]. destruct (lookup_v4 _ _) as [r|]; [by subst|]. destruct H5 as [-> H5].
  assert (negb (is_exit_node h) && negb (uc_no_tun ctx && bool_decide (Some dst.1 = Some v)) = false) as ->; [|done].
  destruct (is_exit_node h); [done|]. cbn [orb negb andb] in *. apply andb_true_iff in H5 as [-> H5%Z.eqb_eq].
  rewrite H5. by rewrite bool_decide_eq_true_2.
Qed.

(** The host answers from the address the peer spoke to. *)
Lemma reply_src_spec rt rip v dip e : ue_real_dst_ip e = rip -> ue_mapped_dst_ip e = dip -> ue_virtual_ipv4 e = v ->
  (if is_ip_local_virtual_ip rt rip then rip = v else is_loopback rip = false \/ rip <> dip) ->
  reply_src_ip e (socket_ip rt rip) = dip.
Proof using.
  intros Er Em Ev H. unfold reply_src_ip, socket_ip. rewrite Er, Em, Ev.
  destruct (is_ip_local_virtual_ip rt rip).
  - rewrite <- H. clear. change (is_loopback LOCALHOST) with true. destruct (rip =? dip) eqn:E; bools; cbn [negb andb]; [done|].
    destruct (LOCALHOST =? rip); [by destruct (dip =? rip)|by rewrite Z.eqb_refl].
  - destruct (rip =? dip) eqn:E; bools; cbn [negb andb].
    + destruct H as [H|H]; [|done]. by rewrite H.
    + rewrite Z.eqb_refl. by destruct (dip =? rip).
Qed.
End invariant.

(** ** Theorems *)

(** In every state the engine can reach, whatever bytes peers have sent: the two
    tables are inverse to each other; no packet of a peer makes it panic, and no
    datagram of a socket does either. *)
Theorem udp_nat_safe `{nl : NetLib, ip : Ipv4Lib, tw : TransportLib, !Ipv4Laws ip, !TransportLaws ip tw, !UdpLaws tw}
    table timeout used g :
  rtc udp_step (∅, UdpProxyEngine_new table timeout) (used, g) ->
  (forall key id, (exists e, nat_table g !! key = Some e /\ ue_id e = id) <-> nat_ids g !! id = Some key) /\
  (forall p ctx rt id now, bytes_ok (inner p) -> (forall v, uc_virtual_ipv4 ctx = Some v -> u32 v) ->
     exists g' act, udp_handle_peer_packet g p ctx rt id now = Ret (g', act)) /\
  (forall u id from port data mtu now, u32 from -> u16 port -> len data < 65528 -> 0 <= mtu < 65536 ->
     exists g' pkts, handle_socket_response u g id (V4 from port) data mtu now = Ret (g', pkts)).
Proof.
  intros Hr. destruct (udp_steps_ok _ _ Hr (udp_new_ok table timeout)) as (Hg & _ & _). cbn [fst snd] in Hg. split_and!.
  - intros key id. split; [intros (e & He & <-); by apply (uo_table used g Hg)|]. intros Hi. by apply (uo_ids used g Hg).
  - intros p ctx rt id now Hp Hv. destruct (peer_effect g p ctx rt id now Hp Hv) as (g' & act & E & _). eauto.
  - intros u id from port data mtu now Hf Hp Hl Hm.
    destruct (reply_effect used u g id from port data mtu now Hg Hf Hp Hl Hm) as (g' & pkts & E & _). eauto.
Qed.

(** C33. The proxy is transparent.  The first datagram of a flow from [src] to [dst], an
    address of a proxied network, goes with its data to a socket of a new entry, for
    the real destination or, when that is this host, for the loopback address.  As
    long as the entry is there, later datagrams of the flow go to the same socket,
    and what the socket receives from that destination is sent to the peer that
    asked in packets that are put together to a datagram from [dst] to [src] with
    the received data. *)
Theorem udp_nat_transparent `{nl : NetLib, ip : Ipv4Lib, tw : TransportLib, !Ipv4Laws ip, !TransportLaws ip tw, !UdpLaws tw}
    table timeout used g t tun h b ctx rt v src dst data rip id now :
  rtc udp_step (∅, UdpProxyEngine_new table timeout) (used, g) -> id ∉ used ->
  parts_ok t tun h -> udp_request b src dst data -> u32 v -> udp_proxied g ctx h v dst.1 rip ->
  nat_table g !! flow_key src dst = None -> should_deny_udp_proxy rt (V4 rip dst.2) = false ->
  (if is_ip_local_virtual_ip rt rip then rip = v else is_loopback rip = false \/ rip <> dst.1) ->
  exists g1, udp_handle_peer_packet g (mk_packet t tun h b) ctx rt id now =
      Ret (g1, ForwardToSocket id (V4 (socket_ip rt rip) dst.2) data) /\
    forall used2 g2, rtc udp_step ({[id]} ∪ used, g1) (used2, g2) -> is_Some (nat_ids g2 !! id) ->
      (forall t2 tun2 h2 b2 ctx2 rt2 v2 data2 rip2 id2 now2,
         parts_ok t2 tun2 h2 -> udp_request b2 src dst data2 -> udp_proxied g2 ctx2 h2 v2 dst.1 rip2 ->
         exists g3, udp_handle_peer_packet g2 (mk_packet t2 tun2 h2 b2) ctx2 rt2 id2 now2 =
           Ret (g3, ForwardToSocket id (V4 (socket_ip rt2 rip2) dst.2) data2)) /\
      (forall u answer mtu now2, len answer < 65528 -> 0 <= mtu < 65536 ->
         exists g3 pkts a seg bs e, handle_socket_response u g2 id (V4 (socket_ip rt rip) dst.2) answer mtu now2 = Ret (g3, pkts) /\
           src_v4 a = dst.1 /\ dst_v4 a = src.1 /\ next_protocol a = IP_UDP /\ udp_datagram seg dst.2 src.2 answer /\
           delivers a bs seg /\ Forall2 (answers_to e) bs pkts /\
           ue_src_peer_id e = from_peer_id h /\ ue_my_peer_id e = to_peer_id h).
Proof.
  intros Hr Hid Hp Hb Hv Hpr Hnone Hdeny Hsock.
  destruct (udp_steps_ok _ _ Hr (udp_new_ok table timeout)) as (Hg & _ & _). cbn [fst snd] in Hg.
  pose proof (request_spec g t tun h b ctx rt v src dst data rip id now Hp Hb Hpr) as E. cbv zeta in E. rewrite Hnone in E.
  set (e := new_udp_entry h rt v rip id now src dst) in *. change (ue_denied e) with (should_deny_udp_proxy rt (V4 rip dst.2)) in E.
  rewrite Hdeny in E. eexists. split; [exact E|]. change (mark_active e now) with e.
  assert (u32 src.1 /\ u32 dst.1 /\ u16 src.2 /\ u16 dst.2) as (R1 & R2 & R3 & R4).
  { destruct Hb as (_ & _ & _ & _ & <- & <- & seg & _ & _ & <- & <- & _). split_and!; apply ip_addr_range || apply udp_port_range. }
  assert (udp_entry_ok (flow_key src dst) e) as He.
  { destruct Hp as [_ (W1 & W2 & _)]. by exists src.1, src.2, dst.2. }
  destruct (create_ok used g (flow_key src dst) e Hg Hnone He Hid) as [Hg1 _].
  set (g1 := with_nat g _ _) in *. intros used2 g2 Hr2 [key Hkey].
  destruct (udp_steps_ok _ _ Hr2 Hg1) as (Hg2 & Hk & _). cbn [fst snd] in Hg2, Hk.
  destruct (Hk id (flow_key src dst) e) as [Hn|(Hi2 & t' & He2)]; [apply lookup_insert_eq..|congruence|].
  split.
  - intros t2 tun2 h2 b2 ctx2 rt2 v2 data2 rip2 id2 now2 Hp2 Hb2 Hpr2.
    pose proof (request_spec g2 t2 tun2 h2 b2 ctx2 rt2 v2 src dst data2 rip2 id2 now2 Hp2 Hb2 Hpr2) as E2. cbv zeta in E2.
    rewrite He2 in E2. change (ue_denied (mark_active e t')) with (should_deny_udp_proxy rt (V4 rip dst.2)) in E2.
    rewrite Hdeny in E2. eexists. exact E2.
  - intros u answer mtu now2 Hl Hm. unfold handle_socket_response. rewrite Hi2, He2.
    change (ue_src_socket (mark_active e t')) with (V4 src.1 src.2). cbn [next_ip_id with_nat].
    rewrite (reply_src_spec rt rip v dst.1 (mark_active e t')) by done.
    destruct (reply_spec u (mark_active e t') dst.1 dst.2 src.1 src.2 answer mtu (next_ip_id g2)) as (seg & bs & pkts & Ec & Hf & Hs & Hd);
      [done|done|done|done|exact (uo_next used2 g2 Hg2)|by destruct Hp as [_ (W1 & W2 & _)]..|done|done|].
    rewrite Ec. cbn [mbind comp_bind]. eexists _, pkts, _, seg, bs, _. split; [done|].
    split_and!; [| | |exact Hs|exact Hd|exact Hf|done|done]; done.
Qed.

(** ** A concrete proxy *)

Module UdpExample.
#[export] Existing Instance ConcreteNet.lib.
#[export] Existing Instance ConcreteTransport.ip_lib.
#[export] Existing Instance ConcreteTransport.lib.
#[export] Existing Instance ConcreteTransport.ip_laws.
#[export] Existing Instance ConcreteTransport.laws.
#[export] Existing Instance ConcreteTransport.udp_laws.

(** 10.144.144.206:50000 asks 10.10.10.42:53, which stands for 127.0.0.42. *)
Definition query_seg : list Z :=
  udp_set UdpSrcPort 50000 (udp_set UdpDstPort 53 (udp_set UdpLen 11 (replicate 8 0 ++ [1; 2; 3]))).
Definition query_ip : list Z :=
  ip_set Version 4 (ip_set HeaderLen 20 (ip_set TotalLen 31 (ip_set NextHeader IP_UDP
    (ip_set SrcAddr 177246414 (ip_set DstAddr 168430122 (replicate 20 0 ++ query_seg)))))).
Definition query_header : PeerManagerHeader :=
  {| from_peer_id := 1; to_peer_id := 2; pm_packet_type := PacketType_as_u8 Data; flags := 0;
     forward_counter := 1; reserved := 0; pm_len := 31 |}.
Definition query_ctx : UdpProxyPeerContext :=
  {| uc_virtual_ipv4 := Some 177246412; uc_enable_exit_node := false; uc_no_tun := false |}.
Definition runtime : UdpRuntime :=
  {| is_ip_local_virtual_ip a := a =? 177246412; should_deny_udp_proxy _ := false |}.
Definition udp_engine : UdpProxyEngine := UdpProxyEngine_new (update_snapshot ConcreteNet.rules) 10.

Lemma udp_query_ok : udp_request query_ip (177246414, 50000) (168430122, 53) [1; 2; 3].
Proof.
  unfold udp_request. split_and!; [vm_compute; reflexivity..|]. exists query_seg.
  unfold udp_datagram. split_and!; vm_compute; reflexivity.
Qed.
Lemma udp_query_proxied : udp_proxied udp_engine query_ctx query_header 177246412 168430122 2130706474.
Proof. by vm_compute. Qed.
Lemma udp_query_header_ok : parts_ok DummyTunnel [] query_header.
Proof. split; [done|]. by vm_compute. Qed.
(** Whether the entry is there. *)
Definition recorded_id (r : comp (UdpProxyEngine * UdpProxyAction)) (id : Z) : bool :=
  match r with Ret (g, _) => bool_decide (is_Some (nat_ids g !! id)) | Panic => false end.
End UdpExample.
Import UdpExample.

Lemma udp_nat_safe_witness :
  exists g' act, udp_handle_peer_packet (udp_remove_entry udp_engine 3)
    {| inner := replicate 90 255; packet_type := DummyTunnel |} query_ctx runtime 7 0 = Ret (g', act).
Proof.
  destruct (udp_nat_safe (ip:=ConcreteTransport.ip_lib) (tw:=ConcreteTransport.lib) (update_snapshot ConcreteNet.rules) 10 ∅
    (udp_remove_entry udp_engine 3)) as (_ & H & _).
  - apply rtc_once. apply UdpRemove.
  - apply H; [apply Forall_replicate; by vm_compute|]. intros v [= <-]. by vm_compute.
Defined.

Lemma udp_nat_transparent_witness :
  exists g1, udp_handle_peer_packet udp_engine (mk_packet DummyTunnel [] query_header query_ip) query_ctx runtime 7 0 =
      Ret (g1, ForwardToSocket 7 (V4 2130706474 53) [1; 2; 3]) /\
    exists g3 pkts seg, handle_socket_response (fun _ => 0) g1 7 (V4 2130706474 53) [9; 8] 1300 5 = Ret (g3, pkts) /\
      udp_datagram seg 53 50000 [9; 8].
Proof.
  destruct (udp_nat_transparent (ip:=ConcreteTransport.ip_lib) (tw:=ConcreteTransport.lib) (update_snapshot ConcreteNet.rules) 10 ∅
    udp_engine DummyTunnel [] query_header query_ip query_ctx runtime 177246412 (177246414, 50000) (168430122, 53) [1; 2; 3]
    2130706474 7 0) as (g1 & E & H).
  - apply rtc_refl.
  - apply not_elem_of_empty.
  - exact udp_query_header_ok.
  - exact udp_query_ok.
  - by vm_compute.
  - exact udp_query_proxied.
  - reflexivity.
  - reflexivity.
  - right. discriminate.
  - exists g1. split; [exact E|].
    destruct (H ({[7]} ∪ ∅) g1) as [_ Ha].
    + apply rtc_refl.
    + apply (f_equal (fun r => recorded_id r 7)) in E. cbn [recorded_id] in E.
      apply (bool_decide_eq_true_1 (is_Some (nat_ids g1 !! 7))). rewrite <- E. vm_compute. reflexivity.
    + destruct (Ha (fun _ => 0) [9; 8] 1300 5) as (g3 & pkts & a & seg & bs & e & Er & _ & _ & _ & Hs & _); [reflexivity|lia|].
      exists g3, pkts, seg. split; [exact Er|exact Hs].
Defined.
