(* ===== verification/IcmpProxy.v ===== *)
(** The ICMP proxy: [gateway/proxy/icmp_proxy_engine.rs].

    An echo request of a peer to a proxied network is sent from a raw socket, and
    the reply goes back to the peer; requests to this host's own address are
    answered by the engine when there is no TUN device.  [smoltcp]'s [Icmpv4Packet]
    is the class [IcmpLib]. *)

From stdpp Require Import list gmap.
From S2P Require Import Prelude Headers Packet IpReassembler CidrTable TransportWire.
Local Open Scope Z_scope.

(** ** The ICMP header *)

Inductive icmp_field := IcmpType | IcmpCode | EchoIdent | EchoSeqNo.
#[export] Instance icmp_field_eq_dec : EqDecision icmp_field.
Proof. solve_decision. Defined.
Definition icmp_width (f : icmp_field) : Z := match f with IcmpType | IcmpCode => 8 | _ => 16 end.
Definition IP_ICMP : Z := 1.
Definition EchoReply : Z := 0.
Definition EchoRequest : Z := 8.

Class IcmpLib := {
  icmp_get : icmp_field -> list Z -> Z;
  icmp_set : icmp_field -> Z -> list Z -> list Z;
  icmp_header_len : list Z -> Z;
  icmp_fill_checksum : list Z -> list Z }.

Definition ICMP_ECHO_HEADER_LEN : Z := 8.

(** The fields lie in the first eight bytes, which are the header of the echo
    messages. *)
Class IcmpLaws (ic : IcmpLib) := {
  icmp_echo_range b : u16 (icmp_get EchoIdent b) /\ u16 (icmp_get EchoSeqNo b);
  icmp_get_local f b b' : take 8 b = take 8 b' -> icmp_get f b = icmp_get f b';
  icmp_set_len f v b : ICMP_ECHO_HEADER_LEN <= len b -> length (icmp_set f v b) = length b;
  icmp_get_set f v b : ICMP_ECHO_HEADER_LEN <= len b -> in_range (icmp_width f) v -> icmp_get f (icmp_set f v b) = v;
  icmp_get_set_ne f g v b : ICMP_ECHO_HEADER_LEN <= len b -> f <> g -> icmp_get g (icmp_set f v b) = icmp_get g b;
  icmp_echo_header b : icmp_get IcmpType b = EchoRequest \/ icmp_get IcmpType b = EchoReply ->
    icmp_header_len b = ICMP_ECHO_HEADER_LEN;
  icmp_fill_len b : ICMP_ECHO_HEADER_LEN <= len b -> length (icmp_fill_checksum b) = length b;
  icmp_get_fill f b : ICMP_ECHO_HEADER_LEN <= len b -> icmp_get f (icmp_fill_checksum b) = icmp_get f b;
  icmp_fill_data b : ICMP_ECHO_HEADER_LEN <= len b -> drop 8 (icmp_fill_checksum b) = drop 8 b }.

(** ** The engine *)

Record IcmpProxyContext := { ic_virtual_ipv4 : option Z; ic_enable_exit_node : bool; ic_no_tun : bool }.
Inductive IcmpProxyAction :=
  | IcmpPass | SendToSocket (destination : Z) (packet : list Z) | SendToPeer (packets : list ZCPacket).
(** [IcmpNatKey]: real destination, identifier, sequence number. *)
Abbreviation IcmpNatKey := (Z * Z * Z)%type.
Record IcmpNatEntry := {
  ie_source_peer_id : Z; ie_local_peer_id : Z; ie_source_ip : Z; ie_mapped_destination : Z; ie_started_at : Z }.

Section engine.
Context {nl : NetLib} {ip : Ipv4Lib} {tw : TransportLib} {ic : IcmpLib}.

Record IcmpProxyEngine := {
  icmp_cidr_table : list ProxyCidrEntry; icmp_nat : gmap IcmpNatKey IcmpNatEntry; reassembler : IpReassembler }.
Definition IcmpProxyEngine_new (t : list ProxyCidrEntry) (fragment_timeout : Z) : IcmpProxyEngine :=
  {| icmp_cidr_table := t; icmp_nat := ∅; reassembler := IpReassembler_new fragment_timeout |}.
Definition with_icmp_nat (g : IcmpProxyEngine) (n : gmap IcmpNatKey IcmpNatEntry) : IcmpProxyEngine :=
  {| icmp_cidr_table := icmp_cidr_table g; icmp_nat := n; reassembler := reassembler g |}.
Definition with_icmp_reassembler (g : IcmpProxyEngine) (r : IpReassembler) : IcmpProxyEngine :=
  {| icmp_cidr_table := icmp_cidr_table g; icmp_nat := icmp_nat g; reassembler := r |}.

(** [request.data()]. *)
Definition icmp_data (b : list Z) : comp (list Z) := slice_from (icmp_header_len b) b.

(** The packets that [compose_ipv4_packet] gives its callback, each made a packet
    for a peer by [f]. *)
Definition compose_packets (f : list Z -> comp ZCPacket) (a : ComposeIpv4PacketArgs) (buf : list Z) : comp (list ZCPacket) :=
  match compose_ipv4_packet (E:=unit) all_received a buf with
  | Some (Ret (_, pkts, _)) => collect_packets f pkts
  | _ => Panic
  end.

Definition echo_reply (request : list Z) : comp (list Z) :=
  let reply := replicate (length request) 0 in
  let reply := icmp_set IcmpType EchoReply reply in
  let reply := icmp_set IcmpCode 0 reply in
  let reply := icmp_set EchoIdent (icmp_get EchoIdent request) reply in
  let reply := icmp_set EchoSeqNo (icmp_get EchoSeqNo request) reply in
  data ← icmp_data request;
  reply ← copy_into (icmp_header_len reply) (len reply) data reply;
  Ret (icmp_fill_checksum reply).

(** [ip_id] is drawn at random. *)
Definition local_reply (u : nat -> Z) (source destination source_peer_id destination_peer_id : Z) (request : list Z)
    (ip_id : Z) : comp IcmpProxyAction :=
  reply ← echo_reply request;
  responses ← compose_packets (new_peer_packet u source_peer_id destination_peer_id)
    {| src_v4 := source; dst_v4 := destination; next_protocol := IP_ICMP; c_payload_len := len request;
       c_payload_mtu := 1200; ip_id := ip_id |} (replicate 20 0 ++ reply);
  Ret (SendToPeer responses).

(** The second half of [handle_peer_packet], on the bytes of the message. *)
Definition handle_request (u : nat -> Z) (g : IcmpProxyEngine) (header : PeerManagerHeader) (source_ip mapped_destination : Z)
    (real_destination : option Z) (is_local_no_tun : bool) (request : list Z) (ip_id now : Z)
    : comp (IcmpProxyEngine * IcmpProxyAction) :=
  if len request <? ICMP_ECHO_HEADER_LEN then Ret (g, IcmpPass) else
  if negb (icmp_get IcmpType request =? EchoRequest) then Ret (g, IcmpPass) else
  if is_local_no_tun then
    a ← local_reply u mapped_destination source_ip (to_peer_id header) (from_peer_id header) request ip_id;
    Ret (g, a)
  else
    let real_destination := default mapped_destination real_destination in
    let key := (real_destination, icmp_get EchoIdent request, icmp_get EchoSeqNo request) in
    Ret (with_icmp_nat g (<[key := {| ie_source_peer_id := from_peer_id header; ie_local_peer_id := to_peer_id header;
           ie_source_ip := source_ip; ie_mapped_destination := mapped_destination; ie_started_at := now |}]> (icmp_nat g)),
         SendToSocket real_destination request).

Definition icmp_handle_peer_packet (u : nat -> Z) (g : IcmpProxyEngine) (packet : ZCPacket) (ctx : IcmpProxyContext)
    (ip_id now : Z) : comp (IcmpProxyEngine * IcmpProxyAction) :=
  if table_is_empty (icmp_cidr_table g) && negb (ic_enable_exit_node ctx) && negb (ic_no_tun ctx)
  then Ret (g, IcmpPass) else
  match ic_virtual_ipv4 ctx, peer_manager_header packet with
  | Some virtual_ipv4, Some header =>
    if negb (pm_packet_type header =? PacketType_as_u8 Data) || is_no_proxy header then Ret (g, IcmpPass) else
    b ← payload packet;
    if negb (ip_checked b) then Ret (g, IcmpPass) else
    if negb (ip_get Version b =? 4) || (ip_get HeaderLen b <? IPV4_HEADER_LEN) || negb (ip_get NextHeader b =? IP_ICMP)
    then Ret (g, IcmpPass) else
    let mapped_destination := ip_get DstAddr b in
    let real_destination := lookup_v4 (icmp_cidr_table g) mapped_destination in
    let is_local_no_tun := ic_no_tun ctx && (mapped_destination =? virtual_ipv4) in
    if match real_destination with Some _ => false | None => negb (is_exit_node header) && negb is_local_no_tun end
    then Ret (g, IcmpPass) else
    if is_packet_fragmented b then
      '(r, o) ← add_fragment (reassembler g) b now;
      let g := with_icmp_reassembler g r in
      match o with
      | None => Ret (g, IcmpPass)
      | Some request =>
        handle_request u g header (ip_get SrcAddr b) mapped_destination real_destination is_local_no_tun request ip_id now
      end
    else
      request ← ip_payload b;
      handle_request u g header (ip_get SrcAddr b) mapped_destination real_destination is_local_no_tun request ip_id now
  | _, _ => Ret (g, IcmpPass)
  end.

(** A packet that the raw socket received from [peer_ip]. *)
Definition icmp_handle_socket_response (u : nat -> Z) (g : IcmpProxyEngine) (peer_ip : Z) (packet : list Z)
    : comp (IcmpProxyEngine * list ZCPacket) :=
  if negb (ip_checked packet) then Ret (g, []) else
  if ip_get HeaderLen packet <? IPV4_HEADER_LEN then Ret (g, []) else
  reply ← ip_payload packet;
  if len reply <? ICMP_ECHO_HEADER_LEN then Ret (g, []) else
  if negb (icmp_get IcmpType reply =? EchoReply) then Ret (g, []) else
  let key := (peer_ip, icmp_get EchoIdent reply, icmp_get EchoSeqNo reply) in
  match icmp_nat g !! key with
  | None => Ret (g, [])
  | Some entry =>
    let g := with_icmp_nat g (delete key (icmp_nat g)) in
    if len packet <? ip_get HeaderLen packet then Ret (g, []) else
    responses ← compose_packets (new_no_proxy_packet u (ie_local_peer_id entry) (ie_source_peer_id entry))
      {| src_v4 := ie_mapped_destination entry; dst_v4 := ie_source_ip entry; next_protocol := IP_ICMP;
         c_payload_len := len packet - ip_get HeaderLen packet; c_payload_mtu := 1200; ip_id := ip_get Ident packet |} packet;
    Ret (g, responses)
  end.

Definition icmp_remove_expired_entries (g : IcmpProxyEngine) (max_age now : Z) : IcmpProxyEngine :=
  with_icmp_nat g (filter (fun kv => (now - ie_started_at kv.2 <? max_age) = true) (icmp_nat g)).
Definition icmp_remove_expired_fragments (g : IcmpProxyEngine) (now : Z) : IcmpProxyEngine :=
  with_icmp_reassembler g (remove_expired_packets (reassembler g) now).
End engine.

(** ** Composing always returns *)

Section composing.
Context {ip : Ipv4Lib} {Hip : Ipv4Laws ip}.

Lemma compose_header_len a n total cur o b : IPV4_HEADER_LEN <= len b ->
  length (compose_header a n total cur o b) = length b.
Proof using Hip.
  intros Hb. unfold compose_header.
  assert (forall f v c, length c = length b -> length (ip_set f v c) = length b) as Hs.
  { intros f v c Hc. rewrite ip_set_len; [done|]. unfold len in *. lia. }
  rewrite ip_fill_len; destruct (1 <? total); unfold len; repeat (rewrite ?Hs; try apply Hs);
    try (rewrite ip_clear_len; [by repeat apply Hs|]); unfold len; repeat (rewrite ?Hs; try apply Hs); (done || exact Hb).
Qed.

Lemma compose_loop_returns {E} a total fuel : 0 < c_payload_mtu a -> forall buf fo cur out,
  0 <= fo -> 20 + c_payload_len a <= len buf -> c_payload_len a - fo <= Z.of_nat fuel ->
  exists buf' out', compose_loop (E:=E) all_received a total fuel buf fo fo cur out = Some (Ret (buf', out', Ok tt)).
Proof using Hip.
  intros Hm. induction fuel as [|fuel IH]; intros buf fo cur out Hfo Hbuf Hfuel; cbn [compose_loop].
  - rewrite (proj2 (Z.leb_le _ _)) by lia. eauto.
  - destruct (c_payload_len a <=? fo) eqn:El; bools; [eauto|]. unfold IPV4_HEADER_LEN.
    set (next := Z.min _ _). assert (fo < next <= c_payload_len a) as Hn by lia.
    rewrite slice_in by lia. set (b := take _ _). cbn [all_received].
    assert (len b = next - fo + 20) as Hb by (subst b; unfold_len; rewrite length_take, length_drop; lia).
    set (b' := compose_header _ _ _ _ _ _).
    assert (length b' = length b) as Hb' by (apply compose_header_len; unfold IPV4_HEADER_LEN; lia).
    replace (fo + (next - fo)) with next by lia. apply IH; [lia| |lia].
    unfold len at 1. rewrite length_overwrite by (unfold len in *; lia). fold (len buf). lia.
Qed.

Lemma compose_packets_return f (R : list Z -> ZCPacket -> Prop) a buf :
  0 < c_payload_mtu a -> 20 + c_payload_len a <= len buf -> (forall b, exists p, f b = Ret p /\ R b p) ->
  exists ps, compose_packets f a buf = Ret ps.
Proof using Hip.
  intros Hm Hbuf Hf. unfold compose_packets, compose_ipv4_packet. rewrite (proj2 (Z.eqb_neq _ _)) by lia.
  destruct (compose_loop_returns (E:=unit) a ((c_payload_len a + c_payload_mtu a - 1) / c_payload_mtu a) (Z.to_nat (c_payload_len a)) Hm buf 0 0 [])
    as (buf' & out & ->); [lia..|]. destruct (collect_packets_spec f R out Hf) as (ps & -> & _). eauto.
Qed.

(** The packets of a payload behind room for a header. *)
Lemma compose_packets_deliver f (R : list Z -> ZCPacket -> Prop) P a hdr rest :
  args_ok a -> 0 < len P < 65536 -> c_payload_len a = len P ->
  0 < c_payload_mtu a < 65516 -> c_payload_mtu a mod 8 = 0 -> length hdr = 20%nat ->
  (forall b, exists p, f b = Ret p /\ R b p) ->
  exists bs ps, compose_packets f a (hdr ++ P ++ rest) = Ret ps /\ Forall2 R bs ps /\ delivers a bs P.
Proof using Hip.
  intros Ha HP Hl Hm H8 Hh Hf. destruct (fragments_spec Hip (E:=unit) P a hdr rest Ha HP Hl Hm H8 Hh) as (buf & bs & E & _ & Hd).
  unfold compose_packets. rewrite E. destruct (collect_packets_spec f R bs Hf) as (ps & -> & Hps). by exists bs, ps.
Qed.
End composing.

(** ** Requests and replies *)

Section replies.
Context {nl : NetLib} {ip : Ipv4Lib} {tw : TransportLib} {ic : IcmpLib}.
Context {Hip : Ipv4Laws ip} {Htw : TransportLaws ip tw} {Hic : IcmpLaws ic}.

(** An echo message of type [ty]. *)
Definition echo_message (b : list Z) (ty ident seq : Z) (data : list Z) : Prop :=
  ICMP_ECHO_HEADER_LEN <= len b /\ icmp_get IcmpType b = ty /\ icmp_get EchoIdent b = ident /\
  icmp_get EchoSeqNo b = seq /\ icmp_data b = Ret data.

Lemma echo_data b : ICMP_ECHO_HEADER_LEN <= len b -> icmp_get IcmpType b = EchoRequest \/ icmp_get IcmpType b = EchoReply ->
  icmp_data b = Ret (drop 8 b).
Proof using Hic.
  intros Hl Ht. unfold icmp_data. rewrite icmp_echo_header by done. unfold ICMP_ECHO_HEADER_LEN in *.
  rewrite slice_from_in by lia. done.
Qed.

Lemma echo_reply_spec req ident seq data : echo_message req EchoRequest ident seq data ->
  exists b, echo_reply req = Ret b /\ length b = length req /\ echo_message b EchoReply ident seq data.
Proof using Hic.
  intros (Hl & Ht & Hi & Hs & Hd). rewrite echo_data in Hd by auto. injection Hd as <-.
  destruct (icmp_echo_range req) as [Ri Rs]. rewrite Hi in Ri. rewrite Hs in Rs.
  unfold echo_reply. rewrite Hi, Hs, echo_data by auto. cbn [mbind comp_bind].
  set (r0 := replicate (length req) 0). assert (length r0 = length req) as L0 by apply length_replicate.
  assert (forall c : list Z, length c = length req -> ICMP_ECHO_HEADER_LEN <= len c) as Hlen.
  { intros c Hc. unfold len in *. by rewrite Hc. }
  set (r1 := icmp_set IcmpType EchoReply r0). assert (length r1 = length req) as L1 by (unfold r1; by rewrite icmp_set_len by auto).
  set (r2 := icmp_set IcmpCode 0 r1). assert (length r2 = length req) as L2 by (unfold r2; by rewrite icmp_set_len by auto).
  set (r3 := icmp_set EchoIdent ident r2). assert (length r3 = length req) as L3 by (unfold r3; by rewrite icmp_set_len by auto).
  set (r4 := icmp_set EchoSeqNo seq r3). assert (length r4 = length req) as L4 by (unfold r4; by rewrite icmp_set_len by auto).
  assert (icmp_get IcmpType r4 = EchoReply) as G1.
  { unfold r4, r3, r2. rewrite !icmp_get_set_ne by (done || by apply Hlen). by apply icmp_get_set; [apply Hlen|]. }
  assert (icmp_get EchoIdent r4 = ident) as G2.
  { unfold r4. rewrite icmp_get_set_ne by (done || by apply Hlen). by apply icmp_get_set; [apply Hlen|]. }
  assert (icmp_get EchoSeqNo r4 = seq) as G3 by (by apply icmp_get_set; [apply Hlen|]).
  rewrite icmp_echo_header by auto. unfold ICMP_ECHO_HEADER_LEN in *.
  assert (len r4 = len req) as L4' by (unfold len; congruence).
  rewrite copy_into_in by (unfold len in *; rewrite ?length_drop; lia). cbn [mbind comp_bind].
  set (r5 := overwrite 8 (drop 8 req) r4).
  assert (len (drop 8 req) = len req - 8) as Ld by (unfold len in *; rewrite length_drop; lia).
  assert (length r5 = length req) as L5 by (unfold r5; rewrite length_overwrite by lia; done).
  assert (take 8 r5 = take 8 r4) as T5 by (apply overwrite_before; unfold len in *; lia).
  assert (drop 8 r5 = drop 8 req) as D5.
  { pose proof (overwrite_at 8 (drop 8 req) r4 ltac:(lia) ltac:(lia)) as E. fold r5 in E. change (Z.to_nat 8) with 8%nat in E.
    rewrite take_ge in E; [exact E|]. rewrite !length_drop. lia. }
  assert (8 <= len r5) as H5 by (unfold len in *; lia).
  assert (forall f, icmp_get f (icmp_fill_checksum r5) = icmp_get f r4) as G5.
  { intros f. rewrite icmp_get_fill by done. by apply icmp_get_local. }
  assert (length (icmp_fill_checksum r5) = length req) as L6 by (by rewrite icmp_fill_len by done).
  eexists. split; [done|]. split; [done|]. split_and!; [by apply Hlen|by rewrite G5..|].
  rewrite echo_data; [by rewrite icmp_fill_data, D5 by done|by apply Hlen|]. right. by rewrite G5.
Qed.

Lemma local_reply_spec u src dst from to req ident seq data ip_id :
  u32 src -> u32 dst -> u32 from -> u32 to -> u16 ip_id -> echo_message req EchoRequest ident seq data -> len req < 65536 ->
  exists b bs ps, local_reply u src dst from to req ip_id = Ret (SendToPeer ps) /\
    Forall2 (data_packet from to false) bs ps /\ echo_message b EchoReply ident seq data /\
    delivers {| src_v4 := src; dst_v4 := dst; next_protocol := IP_ICMP; c_payload_len := len req; c_payload_mtu := 1200;
                ip_id := ip_id |} bs b.
Proof using Hip Hic.
  intros Hs Hd Hf Ht Hi Hm Hl. destruct (echo_reply_spec req ident seq data Hm) as (b & E & Hlb & Hb).
  unfold local_reply. rewrite E. cbn [mbind comp_bind]. assert (len b = len req) as Hlb' by (unfold len; congruence).
  pose proof (proj1 Hm) as H8. unfold ICMP_ECHO_HEADER_LEN in H8.
  destruct (compose_packets_deliver (new_peer_packet u from to) (data_packet from to false) b
    {| src_v4 := src; dst_v4 := dst; next_protocol := IP_ICMP; c_payload_len := len req; c_payload_mtu := 1200; ip_id := ip_id |}
    (replicate 20 0) []) as (bs & ps & Ec & Hps & Hdel); cbn [c_payload_len c_payload_mtu].
  - by split_and!.
  - lia.
  - done.
  - lia.
  - done.
  - done.
  - intros c. by apply peer_packet_carries.
  - rewrite app_nil_r in Ec. rewrite Ec. cbn [mbind comp_bind]. by exists b, bs, ps.
Qed.
End replies.

(** ** Histories *)

Section histories.
Context {nl : NetLib} {ip : Ipv4Lib} {tw : TransportLib} {ic : IcmpLib}.
Context {Hip : Ipv4Laws ip} {Htw : TransportLaws ip tw} {Hic : IcmpLaws ic}.

Definition icmp_entry_ok (e : IcmpNatEntry) : Prop :=
  u32 (ie_source_peer_id e) /\ u32 (ie_local_peer_id e) /\ u32 (ie_source_ip e) /\ u32 (ie_mapped_destination e).
Definition icmp_ok (g : IcmpProxyEngine) : Prop := map_Forall (fun _ e => icmp_entry_ok e) (icmp_nat g).

Inductive icmp_step : IcmpProxyEngine -> IcmpProxyEngine -> Prop :=
  | IcmpPeer u g p ctx ip_id now g' act :
      bytes_ok (inner p) -> icmp_handle_peer_packet u g p ctx ip_id now = Ret (g', act) -> icmp_step g g'
  | IcmpSocket u g peer_ip packet g' pkts :
      icmp_handle_socket_response u g peer_ip packet = Ret (g', pkts) -> icmp_step g g'
  | IcmpExpire g max_age now : icmp_step g (icmp_remove_expired_entries g max_age now)
  | IcmpSweep g now : icmp_step g (icmp_remove_expired_fragments g now).

Lemma request_returns u g h sip dip rip local req ip_id now :
  PeerManagerHeader_wf h -> u32 sip -> u32 dip -> icmp_ok g ->
  exists g' act, handle_request u g h sip dip rip local req ip_id now = Ret (g', act) /\ icmp_ok g'.
Proof using Hip Hic.
  intros (W1 & W2 & _) Hs Hd Hg. unfold handle_request.
  destruct (len req <? ICMP_ECHO_HEADER_LEN) eqn:El; bools; [eauto|].
  destruct (icmp_get IcmpType req =? EchoRequest) eqn:Et; bools; cbn [negb]; [|eauto].
  destruct local; [|eexists _, _; split; [done|]; by apply map_Forall_insert_2].
  destruct (echo_reply_spec req (icmp_get EchoIdent req) (icmp_get EchoSeqNo req) (drop 8 req)) as (b & E & Hb & _).
  { split_and!; [done..|]. apply echo_data; [done|by left]. }
  unfold local_reply. rewrite E. cbn [mbind comp_bind].
  edestruct (compose_packets_return (new_peer_packet u (to_peer_id h) (from_peer_id h))) as (ps & ->).
  - done.
  - cbn [c_payload_len]. unfold len. rewrite length_app, length_replicate. lia.
  - intros c. by apply peer_packet_carries.
  - cbn [mbind comp_bind]. eauto.
Qed.

Lemma icmp_peer_returns u g p ctx ip_id now : bytes_ok (inner p) -> icmp_ok g ->
  exists g' act, icmp_handle_peer_packet u g p ctx ip_id now = Ret (g', act) /\ icmp_ok g'.
Proof using Hip Htw Hic.
  intros Hp Hg. unfold icmp_handle_peer_packet. destruct (_ && _); [eauto|].
  destruct (ic_virtual_ipv4 ctx) as [v|]; [|eauto]. destruct (peer_manager_header p) as [h|] eqn:Eh; [|eauto].
  destruct (_ || _); [eauto|]. destruct (header_wf_payload p h Hp Eh) as (Hw & b & ->). cbn [mbind comp_bind].
  destruct (ip_checked b) eqn:Ec; cbn [negb]; [|eauto]. destruct (_ || _); [eauto|].
  destruct (match lookup_v4 _ _ with Some _ => _ | None => _ end); [eauto|].
  destruct (ip_addr_range b) as [Hs Hd]. destruct (is_packet_fragmented b).
  - destruct (add_fragment_returns (reassembler g) b now Ec) as (r & o & ->). cbn [mbind comp_bind].
    destruct o as [req|]; [|eauto]. by apply request_returns.
  - destruct (checked_payload b Ec) as [req ->]. cbn [mbind comp_bind]. by apply request_returns.
Qed.

Lemma icmp_socket_returns u g peer_ip pk : icmp_ok g ->
  exists g' pkts, icmp_handle_socket_response u g peer_ip pk = Ret (g', pkts) /\ icmp_ok g'.
Proof using Hip Htw.
  intros Hg. unfold icmp_handle_socket_response. destruct (ip_checked pk) eqn:Ec; cbn [negb]; [|eauto].
  destruct (ip_get HeaderLen pk <? IPV4_HEADER_LEN) eqn:Eh; bools; [eauto|].
  destruct (checked_payload pk Ec) as [reply ->]. cbn [mbind comp_bind].
  destruct (_ <? _); [eauto|]. destruct (negb _); [eauto|].
  set (key := (peer_ip, _, _)). destruct (icmp_nat g !! key) as [e|] eqn:Ee; [|eauto].
  assert (icmp_ok (with_icmp_nat g (delete key (icmp_nat g)))) as Hg' by (by apply map_Forall_delete).
  destruct (len pk <? _); [eauto|]. destruct (Hg key e Ee) as (H1 & H2 & H3 & H4).
  edestruct (compose_packets_return (new_no_proxy_packet u (ie_local_peer_id e) (ie_source_peer_id e))) as (ps & ->).
  - done.
  - cbn [c_payload_len]. unfold IPV4_HEADER_LEN in Eh. lia.
  - intros c. by apply no_proxy_packet_carries.
  - cbn [mbind comp_bind]. eauto.
Qed.

Lemma icmp_step_ok g g' : icmp_step g g' -> icmp_ok g -> icmp_ok g'.
Proof using Hip Htw Hic.
  intros [u g1 p ctx ip_id now g2 act Hp H|u g1 peer_ip pk g2 pkts H|g1 max_age now|g1 now] Hg.
  - destruct (icmp_peer_returns u g1 p ctx ip_id now Hp Hg) as (g3 & a3 & E & H3). rewrite E in H. by injection H as <- _.
  - destruct (icmp_socket_returns u g1 peer_ip pk Hg) as (g3 & a3 & E & H3). rewrite E in H. by injection H as <- _.
  - intros key e [He _]%map_lookup_filter_Some. by apply (Hg key).
  - exact Hg.
Qed.
Lemma icmp_steps_ok g g' : rtc icmp_step g g' -> icmp_ok g -> icmp_ok g'.
Proof using Hip Htw Hic. induction 1; [done|]. eauto using icmp_step_ok. Qed.
End histories.

(** ** Theorems *)

Section theorems.
Context {nl : NetLib} {ip : Ipv4Lib} {tw : TransportLib} {ic : IcmpLib}.

(** An echo request in one packet. *)
Definition icmp_request (b : list Z) (src dst : Z) (req : list Z) (ident seq : Z) (data : list Z) : Prop :=
  ip_checked b = true /\ ip_get Version b = 4 /\ IPV4_HEADER_LEN <= ip_get HeaderLen b /\ ip_get NextHeader b = IP_ICMP /\
  is_packet_fragmented b = false /\ ip_get SrcAddr b = src /\ ip_get DstAddr b = dst /\
  ip_payload b = Ret req /\ len req < 65536 /\ echo_message req EchoRequest ident seq data.

(** A data packet to [dip] is for the proxy: [rip] is the real destination, [local]
    tells that the engine answers itself. *)
Definition icmp_proxied (g : IcmpProxyEngine) (ctx : IcmpProxyContext) (h : PeerManagerHeader) (dip rip : Z) (local : bool) : Prop :=
  exists v, ic_virtual_ipv4 ctx = Some v /\
  table_is_empty (icmp_cidr_table g) && negb (ic_enable_exit_node ctx) && negb (ic_no_tun ctx) = false /\
  pm_packet_type h = PacketType_as_u8 Data /\ is_no_proxy h = false /\ local = ic_no_tun ctx && (dip =? v) /\
  match lookup_v4 (icmp_cidr_table g) dip with
  | Some r => rip = r
  | None => rip = dip /\ is_exit_node h || local = true
  end.

(** What the raw socket receives: a packet without options that holds a reply. *)
Definition icmp_reply (pk reply : list Z) (ident seq : Z) (data : list Z) : Prop :=
  ip_checked pk = true /\ ip_get HeaderLen pk = 20 /\ ip_get TotalLen pk = len pk /\ len pk < 65536 /\
  u16 (ip_get Ident pk) /\ ip_payload pk = Ret reply /\ echo_message reply EchoReply ident seq data.

Context {Hip : Ipv4Laws ip} {Htw : TransportLaws ip tw} {Hic : IcmpLaws ic}.

Lemma request_dispatch u g t tun h b ctx src dst req ident seq data rip local ip_id now :
  parts_ok t tun h -> icmp_request b src dst req ident seq data -> icmp_proxied g ctx h dst rip local ->
  icmp_handle_peer_packet u g (mk_packet t tun h b) ctx ip_id now =
  if local then a ← local_reply u dst src (to_peer_id h) (from_peer_id h) req ip_id; Ret (g, a)
  else Ret (with_icmp_nat g (<[(rip, ident, seq) := {| ie_source_peer_id := from_peer_id h; ie_local_peer_id := to_peer_id h;
              ie_source_ip := src; ie_mapped_destination := dst; ie_started_at := now |}]> (icmp_nat g)), SendToSocket rip req).
Proof using.
  intros Hp (Hc & Hv & Hh & Hn & Hf & Hs & Hd & Hreq & _ & Hl & Ht & Hi & Hq & _) (v & H1 & H2 & H3 & H4 & -> & H5).
  unfold icmp_handle_peer_packet. rewrite H1, H2, parts_header, H3, H4, Z.eqb_refl by done. cbn [negb orb].
  rewrite parts_payload by done. cbn [mbind comp_bind]. rewrite Hc, Hv, Hn, !Z.eqb_refl, Hd, Hf, Hs. cbn [negb orb].
  rewrite (proj2 (Z.ltb_ge _ _)) by done. cbn [negb orb].
  assert (match lookup_v4 (icmp_cidr_table g) dst with Some _ => false
          | None => negb (is_exit_node h) && negb (ic_no_tun ctx && (dst =? v)) end = false /\
          default dst (lookup_v4 (icmp_cidr_table g) dst) = rip) as [-> E].
  { destruct (lookup_v4 _ _) as [r|]; [by subst|]. destruct H5 as [-> H5]. split; [|done].
    by rewrite <- negb_orb, H5. }
  rewrite Hreq. cbn [mbind comp_bind]. unfold handle_request. rewrite (proj2 (Z.ltb_ge _ _)) by done.
  rewrite Ht, Z.eqb_refl, E, Hi, Hq. done.
Qed.

Lemma response_dispatch u g pk reply rip ident seq data e :
  icmp_reply pk reply ident seq data -> icmp_nat g !! (rip, ident, seq) = Some e -> icmp_entry_ok e ->
  exists bs ps, icmp_handle_socket_response u g rip pk = Ret (with_icmp_nat g (delete (rip, ident, seq) (icmp_nat g)), ps) /\
    Forall2 (data_packet (ie_local_peer_id e) (ie_source_peer_id e) true) bs ps /\
    delivers {| src_v4 := ie_mapped_destination e; dst_v4 := ie_source_ip e; next_protocol := IP_ICMP;
                c_payload_len := len reply; c_payload_mtu := 1200; ip_id := ip_get Ident pk |} bs reply.
Proof using Hip Htw.
  intros (Hc & Hh & Ht & Hl & Hid & Hpl & Hm) He (E1 & E2 & E3 & E4).
  destruct Hm as (Hlr & Hty & Hi & Hs & _). unfold ICMP_ECHO_HEADER_LEN in Hlr.
  destruct (ip_checked_spec pk Hc) as (_ & Hb & _).
  assert (reply = drop 20 pk) as Er.
  { unfold ip_payload in Hpl. rewrite Hh, Ht in Hpl. rewrite slice_in in Hpl by lia. injection Hpl as <-.
    change (Z.to_nat 20) with 20%nat. apply take_ge. rewrite length_drop. unfold len. lia. }
  assert (len reply = len pk - 20) as El by (subst reply; unfold_len; rewrite length_drop; lia).
  unfold icmp_handle_socket_response. rewrite Hc, Hh. change (20 <? IPV4_HEADER_LEN) with false. cbn [negb].
  rewrite Hpl. cbn [mbind comp_bind]. rewrite (proj2 (Z.ltb_ge _ _)) by (unfold ICMP_ECHO_HEADER_LEN; lia).
  rewrite Hty, Z.eqb_refl, Hi, Hs, He. cbn [negb]. rewrite (proj2 (Z.ltb_ge _ _)) by lia. rewrite <- El.
  destruct (compose_packets_deliver (new_no_proxy_packet u (ie_local_peer_id e) (ie_source_peer_id e))
    (data_packet (ie_local_peer_id e) (ie_source_peer_id e) true) reply
    {| src_v4 := ie_mapped_destination e; dst_v4 := ie_source_ip e; next_protocol := IP_ICMP;
       c_payload_len := len reply; c_payload_mtu := 1200; ip_id := ip_get Ident pk |} (take 20 pk) [])
    as (bs & ps & Ec & Hps & Hd); cbn [c_payload_len c_payload_mtu].
  - by split_and!.
  - lia.
  - done.
  - lia.
  - done.
  - rewrite length_take. unfold len in *. lia.
  - intros c. by apply no_proxy_packet_carries.
  - rewrite app_nil_r, Er, take_drop in Ec. rewrite Er, Ec. cbn [mbind comp_bind]. rewrite <- Er. by exists bs, ps.
Qed.
End theorems.

(** In every state the engine can reach neither a packet of a peer, whatever its
    bytes, nor a packet of the raw socket makes it panic. *)
Theorem icmp_safe `{nl : NetLib, ip : Ipv4Lib, tw : TransportLib, ic : IcmpLib, !Ipv4Laws ip, !TransportLaws ip tw, !IcmpLaws ic}
    table timeout g : rtc icmp_step (IcmpProxyEngine_new table timeout) g ->
  (forall u p ctx ip_id now, bytes_ok (inner p) ->
     exists g' act, icmp_handle_peer_packet u g p ctx ip_id now = Ret (g', act)) /\
  (forall u peer_ip pk, exists g' pkts, icmp_handle_socket_response u g peer_ip pk = Ret (g', pkts)).
Proof.
  intros Hr. assert (icmp_ok g) as Hg by (apply (icmp_steps_ok _ _ Hr); apply map_Forall_empty). split.
  - intros u p ctx ip_id now Hp. destruct (icmp_peer_returns u g p ctx ip_id now Hp Hg) as (g' & act & E & _). eauto.
  - intros u peer_ip pk. destruct (icmp_socket_returns u g peer_ip pk Hg) as (g' & pkts & E & _). eauto.
Qed.

(** C34. An echo request of a peer, in an unfragmented packet, is answered (a
    reply from outside being an IPv4 packet without options, see
    [options_shift_reply]).  One to this host, when it has no TUN
    device, by packets that are put together to a reply with the same identifier,
    sequence number and data.  One to a proxied network goes unchanged to the real
    destination, and as long as its entry stands, the reply that comes from there
    is sent to the requesting peer in packets that are put together to that reply,
    from the address the peer spoke to; the entry is used up. *)
Theorem icmp_echo_transparent
    `{nl : NetLib, ip : Ipv4Lib, tw : TransportLib, ic : IcmpLib, !Ipv4Laws ip, !TransportLaws ip tw, !IcmpLaws ic}
    u g t tun h b ctx src dst req ident seq data rip local ip_id now :
  parts_ok t tun h -> icmp_request b src dst req ident seq data -> icmp_proxied g ctx h dst rip local -> u16 ip_id ->
  if (local : bool) then
    exists a reply bs ps, icmp_handle_peer_packet u g (mk_packet t tun h b) ctx ip_id now = Ret (g, SendToPeer ps) /\
      Forall2 (data_packet (to_peer_id h) (from_peer_id h) false) bs ps /\ echo_message reply EchoReply ident seq data /\
      delivers a bs reply /\ src_v4 a = dst /\ dst_v4 a = src /\ next_protocol a = IP_ICMP
  else
    exists g1 e, icmp_handle_peer_packet u g (mk_packet t tun h b) ctx ip_id now = Ret (g1, SendToSocket rip req) /\
      icmp_nat g1 = <[(rip, ident, seq) := e]> (icmp_nat g) /\
      forall g2 pk reply data', icmp_nat g2 !! (rip, ident, seq) = Some e -> icmp_reply pk reply ident seq data' ->
        exists g3 a bs ps, icmp_handle_socket_response u g2 rip pk = Ret (g3, ps) /\
          Forall2 (data_packet (to_peer_id h) (from_peer_id h) true) bs ps /\ delivers a bs reply /\
          src_v4 a = dst /\ dst_v4 a = src /\ next_protocol a = IP_ICMP /\
          icmp_nat g3 = delete (rip, ident, seq) (icmp_nat g2).
Proof.
  intros Hp Hb Hpr Hid. rewrite (request_dispatch u g t tun h b ctx src dst req ident seq data rip local ip_id now Hp Hb Hpr).
  destruct Hp as [_ (W1 & W2 & _)]. destruct Hb as (_ & _ & _ & _ & _ & <- & <- & _ & Hl & Hm).
  destruct (ip_addr_range b) as [Hs Hd]. destruct local.
  - destruct (local_reply_spec u (ip_get DstAddr b) (ip_get SrcAddr b) (to_peer_id h) (from_peer_id h) req ident seq data ip_id)
      as (reply & bs & ps & -> & Hps & Hr & Hdel); [done..|].
    cbn [mbind comp_bind]. eexists _, reply, bs, ps. split; [done|]. split_and!; [done|done|exact Hdel|done..].
  - eexists _, _. split; [done|]. split; [done|]. intros g2 pk reply data' He Hpk.
    destruct (response_dispatch u g2 pk reply rip ident seq data' _ Hpk He) as (bs & ps & E & Hps & Hdel); [by split_and!|].
    eexists _, _, bs, ps. split; [exact E|]. split_and!; [done|exact Hdel|done..].
Qed.

(** ** A concrete proxy *)

Module IcmpExample.
Import ConcreteTransport.
#[export] Existing Instance ConcreteNet.lib.
#[export] Existing Instance ConcreteTransport.ip_lib.
#[export] Existing Instance ConcreteTransport.lib.
#[export] Existing Instance ConcreteTransport.ip_laws.
#[export] Existing Instance ConcreteTransport.laws.

Definition icmp_bits (f : icmp_field) : Z * Z :=
  match f with IcmpType => (56, 8) | IcmpCode => (48, 8) | EchoIdent => (16, 16) | EchoSeqNo => (0, 16) end.
#[export] Instance icmp_lib : IcmpLib := {
  icmp_get f b := getf (icmp_bits f).1 (icmp_bits f).2 (udp_word b);
  icmp_set f v b := put_udp (setf (icmp_bits f).1 (icmp_bits f).2 v (udp_word b)) b;
  icmp_header_len b := let ty := getf 56 8 (udp_word b) in if (ty =? 0) || (ty =? 8) then 8 else 4;
  icmp_fill_checksum b := put_udp (setf 32 16 0 (udp_word b)) b }.
Lemma icmp_bits_ok f : 0 <= (icmp_bits f).1 /\ 0 < (icmp_bits f).2 /\ (icmp_bits f).1 + (icmp_bits f).2 <= 64.
Proof. destruct f; cbn; lia. Qed.
Lemma icmp_apart f g : f <> g -> (icmp_bits f).1 + (icmp_bits f).2 <= (icmp_bits g).1 \/
  (icmp_bits g).1 + (icmp_bits g).2 <= (icmp_bits f).1.
Proof. destruct f, g; cbn; intros; (lia || congruence). Qed.

#[export] Instance icmp_laws : IcmpLaws icmp_lib.
Proof.
  split; unfold ICMP_ECHO_HEADER_LEN.
  - intros b. cbn [icmp_get icmp_lib icmp_bits fst snd]. split; apply Z.mod_pos_bound; lia.
  - intros f b b' E. cbn [icmp_get icmp_lib]. unfold udp_word. by rewrite E.
  - intros f v b Hb. destruct (icmp_bits_ok f) as (? & ? & ?). apply put_udp_spec; lia.
  - intros f v b Hb Hv. destruct (icmp_bits_ok f) as (? & ? & ?). cbn [icmp_get icmp_set icmp_lib].
    destruct (put_udp_spec (icmp_bits f).1 (icmp_bits f).2 v b) as (_ & _ & ->); [lia..|].
    rewrite getf_setf by lia. apply Z.mod_small. destruct f; exact Hv.
  - intros f g v b Hb Hne. destruct (icmp_bits_ok f) as (? & ? & ?), (icmp_bits_ok g) as (? & ? & ?). cbn [icmp_get icmp_set icmp_lib].
    destruct (put_udp_spec (icmp_bits f).1 (icmp_bits f).2 v b) as (_ & _ & ->); [lia..|].
    rewrite getf_setf_apart; [done|lia..|by apply icmp_apart].
  - intros b. cbn [icmp_get icmp_header_len icmp_lib icmp_bits fst snd]. by intros [->| ->].
  - intros b Hb. apply (put_udp_spec 32 16 0 b); lia.
  - intros f b Hb. destruct (icmp_bits_ok f) as (? & ? & ?). cbn [icmp_get icmp_fill_checksum icmp_lib].
    destruct (put_udp_spec 32 16 0 b) as (_ & _ & ->); [lia..|].
    rewrite getf_setf_apart; [done|lia..|]. destruct f; cbn; lia.
  - intros b Hb. apply (put_udp_spec 32 16 0 b); lia.
Qed.

(** 10.144.144.206 pings 10.10.10.42, which stands for 127.0.0.42. *)
Definition message (ty : Z) : list Z :=
  icmp_set IcmpType ty (icmp_set EchoIdent 7 (icmp_set EchoSeqNo 11 (replicate 8 0 ++ [112; 105; 110; 103]))).
Definition ip_message (hlen src dst : Z) (options msg : list Z) : list Z :=
  ip_set Version 4 (ip_set HeaderLen hlen (ip_set TotalLen (hlen + len msg) (ip_set NextHeader IP_ICMP
    (ip_set SrcAddr src (ip_set DstAddr dst (replicate 20 0 ++ options ++ msg)))))).
Definition ping : list Z := ip_message 20 177246414 168430122 [] (message EchoRequest).
Definition pong : list Z := ip_message 20 2130706474 177246412 [] (message EchoReply).
Definition ping_header : PeerManagerHeader :=
  {| from_peer_id := 1; to_peer_id := 2; pm_packet_type := PacketType_as_u8 Data; flags := 0;
     forward_counter := 1; reserved := 0; pm_len := 32 |}.
Definition ping_ctx : IcmpProxyContext :=
  {| ic_virtual_ipv4 := Some 177246412; ic_enable_exit_node := false; ic_no_tun := false |}.
Definition icmp_engine : IcmpProxyEngine := IcmpProxyEngine_new (update_snapshot ConcreteNet.rules) 10.

Lemma echo_by_check ty b : (8 <=? len b) && (icmp_get IcmpType b =? ty) && (icmp_get EchoIdent b =? 7) &&
  (icmp_get EchoSeqNo b =? 11) && match icmp_data b with Ret d => bool_decide (d = [112; 105; 110; 103]) | Panic => false end = true ->
  echo_message b ty 7 11 [112; 105; 110; 103].
Proof.
  rewrite !andb_true_iff, Z.leb_le, !Z.eqb_eq. intros [[[[H1 H2] H3] H4] H5].
  destruct (icmp_data b) as [d|] eqn:E; [|done]. apply bool_decide_eq_true in H5 as ->. by split_and!.
Qed.
Lemma ping_ok : icmp_request ping 177246414 168430122 (message EchoRequest) 7 11 [112; 105; 110; 103].
Proof.
  unfold icmp_request. split_and!; [vm_compute; (reflexivity || discriminate)..|]. apply echo_by_check. vm_compute. reflexivity.
Qed.
Lemma ping_proxied : icmp_proxied icmp_engine ping_ctx ping_header 168430122 2130706474 false.
Proof. exists 177246412. by vm_compute. Qed.
Lemma pong_ok : icmp_reply pong (message EchoReply) 7 11 [112; 105; 110; 103].
Proof.
  unfold icmp_reply. split_and!; [vm_compute; (reflexivity || by split)..|]. apply echo_by_check. vm_compute. reflexivity.
Qed.
Lemma ping_header_ok : parts_ok DummyTunnel [] ping_header.
Proof. split; [done|]. by vm_compute. Qed.

(** The type of the message in the first packet sent to the peer. *)
Definition first_type (r : comp (IcmpProxyEngine * list ZCPacket)) : option Z :=
  match r with
  | Ret (_, p :: _) => match payload p with
                       | Ret b => match ip_payload b with Ret m => Some (icmp_get IcmpType m) | Panic => None end
                       | Panic => None
                       end
  | _ => None
  end.
Definition after_ping : IcmpProxyEngine :=
  match icmp_handle_peer_packet (fun _ => 0) icmp_engine (mk_packet DummyTunnel [] ping_header ping) ping_ctx 5 0 with
  | Ret (g, _) => g
  | Panic => icmp_engine
  end.

(** A reply whose IPv4 header has options is composed from the byte after the
    first twenty: the peer is sent the options where the message should start. *)
Example options_shift_reply :
  first_type (icmp_handle_socket_response (fun _ => 0) after_ping 2130706474 pong) = Some EchoReply /\
  first_type (icmp_handle_socket_response (fun _ => 0) after_ping 2130706474
    (ip_message 24 2130706474 177246412 [1; 1; 1; 1] (message EchoReply))) = Some 1.
Proof. vm_compute. done. Qed.
End IcmpExample.
Import IcmpExample.

Lemma icmp_safe_witness :
  exists g' pkts, icmp_handle_socket_response (fun _ => 0) (icmp_remove_expired_entries icmp_engine 10 20) 3 [1; 2; 3] = Ret (g', pkts).
Proof.
  destruct (icmp_safe (ip:=ConcreteTransport.ip_lib) (tw:=ConcreteTransport.lib) (ic:=icmp_lib) (update_snapshot ConcreteNet.rules) 10
    (icmp_remove_expired_entries icmp_engine 10 20)) as [_ H].
  - apply rtc_once. apply IcmpExpire.
  - apply H.
Defined.

Lemma icmp_echo_transparent_witness :
  exists g1, icmp_handle_peer_packet (fun _ => 0) icmp_engine (mk_packet DummyTunnel [] ping_header ping) ping_ctx 5 0 =
      Ret (g1, SendToSocket 2130706474 (message EchoRequest)) /\
    exists g3 ps bs, icmp_handle_socket_response (fun _ => 0) g1 2130706474 pong = Ret (g3, ps) /\
      Forall2 (data_packet 2 1 true) bs ps.
Proof.
  destruct (icmp_echo_transparent (ip:=ConcreteTransport.ip_lib) (tw:=ConcreteTransport.lib) (ic:=icmp_lib) (fun _ => 0) icmp_engine
    DummyTunnel [] ping_header ping ping_ctx 177246414 168430122 (message EchoRequest) 7 11 [112; 105; 110; 103] 2130706474 false 5 0
    ping_header_ok ping_ok ping_proxied) as (g1 & e & E & Hn & H).
  - by vm_compute.
  - exists g1. split; [exact E|].
    destruct (H g1 pong (message EchoReply) [112; 105; 110; 103]) as (g3 & a & bs & ps & Er & Hps & _).
    + rewrite Hn. apply lookup_insert_eq.
    + exact pong_ok.
    + exists g3, ps, bs. split; [exact Er|exact Hps].
Defined.
