(* ===== verification/PublicIpv6.v ===== *)
(** Public IPv6 addresses: [peers/public_ipv6/service.rs] and the state of
    [peers/public_ipv6/mod.rs].

    A node with a public IPv6 prefix leases addresses of it to other nodes; all
    nodes take the provider of least instance id.  Addresses and instance ids are
    128-bit numbers, times are milliseconds.  Networks of the [cidr] crate are the
    class [Net6Lib]; what the service asks of the route layer is the class
    [RouteControl]. *)

From stdpp Require Import list gmap.
From S2P Require Import Prelude.
Local Open Scope Z_scope.

Class Net6Lib := {
  Ipv6Cidr : Type;
  cidr6_eq_dec : EqDecision Ipv6Cidr;
  cidr6_first : Ipv6Cidr -> Z;
  cidr6_length : Ipv6Cidr -> Z;
  cidr6_contains : Ipv6Cidr -> Z -> bool }.
#[export] Existing Instance cidr6_eq_dec.
Class Net6Laws (n6 : Net6Lib) := {
  cidr6_length_range c : 0 <= cidr6_length c <= 128;
  cidr6_first_range c : 0 <= cidr6_first c /\ cidr6_first c + 2 ^ (128 - cidr6_length c) <= 2 ^ 128;
  cidr6_contains_spec c a :
    cidr6_contains c a = true <-> cidr6_first c <= a < cidr6_first c + 2 ^ (128 - cidr6_length c) }.

(** [Ipv6Inet]. *)
Record Inet6 := { i6_address : Z; i6_length : Z }.
#[export] Instance Inet6_eq_dec : EqDecision Inet6.
Proof. solve_decision. Defined.
#[export] Instance Inet6_countable : Countable Inet6.
Proof.
  refine (inj_countable' (fun a => (i6_address a, i6_length a)) (fun '(x, y) => {| i6_address := x; i6_length := y |}) _).
  by intros [].
Defined.

(** The texts of the error messages. *)
Inductive LeaseError :=
  | NoProvider | NotSelected | AllocationMismatch | LeaseNotFound | OwnerMismatch | NoFreeAddress.

Definition PUBLIC_IPV6_LEASE_TTL : Z := 120000.
Definition PUBLIC_IPV6_RENEW_INTERVAL : Z := 40000.

Section service.
Context {n6 : Net6Lib}.

Record PublicIpv6PeerRouteInfo := {
  pi_peer_id : Z; pi_inst_id : option Z; pi_is_provider : bool; pi_prefix : option Ipv6Cidr; pi_lease : option Inet6;
  pi_reachable : bool }.
Record PublicIpv6Provider := { pv_peer_id : Z; pv_inst_id : Z; pv_prefix : Ipv6Cidr }.
Record PublicIpv6ProviderLease := {
  ls_peer_id : Z; ls_inst_id : Z; ls_addr : Inet6; ls_valid_until : Z; ls_reused : bool }.
Record PublicIpv6ProviderState := { ps_provider : PublicIpv6Provider; ps_leases : gmap Z PublicIpv6ProviderLease }.
Record PublicIpv6ClientState := {
  cs_provider : PublicIpv6Provider; cs_lease : PublicIpv6ProviderLease; cs_last_error : option LeaseError }.
#[export] Instance PublicIpv6Provider_eq_dec : EqDecision PublicIpv6Provider.
Proof. solve_decision. Defined.
#[export] Instance PublicIpv6ProviderLease_eq_dec : EqDecision PublicIpv6ProviderLease.
Proof. solve_decision. Defined.
#[export] Instance PublicIpv6ProviderState_eq_dec : EqDecision PublicIpv6ProviderState.
Proof. solve_decision. Defined.
#[export] Instance LeaseError_eq_dec : EqDecision LeaseError.
Proof. solve_decision. Defined.
#[export] Instance PublicIpv6ClientState_eq_dec : EqDecision PublicIpv6ClientState.
Proof. solve_decision. Defined.

Record PublicIpv6Service := {
  provider_state : option PublicIpv6ProviderState; client_state : option PublicIpv6ClientState;
  route_cache : gset Inet6; my_addr_cache : option Inet6 }.
Definition PublicIpv6Service_new : PublicIpv6Service :=
  {| provider_state := None; client_state := None; route_cache := ∅; my_addr_cache := None |}.

Definition set_provider_state (s : PublicIpv6Service) (next : option PublicIpv6ProviderState) : PublicIpv6Service * bool :=
  if bool_decide (provider_state s = next) then (s, false) else
  ({| provider_state := next; client_state := client_state s; route_cache := route_cache s;
      my_addr_cache := my_addr_cache s |}, true).
Definition set_client_state (s : PublicIpv6Service) (next : option PublicIpv6ClientState) : PublicIpv6Service * bool :=
  if bool_decide (client_state s = next) then (s, false) else
  ({| provider_state := provider_state s; client_state := next; route_cache := route_cache s;
      my_addr_cache := my_addr_cache s |}, true).

Definition info_provider (i : PublicIpv6PeerRouteInfo) : option PublicIpv6Provider :=
  if pi_is_provider i && pi_reachable i then
    inst ← pi_inst_id i; prefix ← pi_prefix i;
    Some {| pv_peer_id := pi_peer_id i; pv_inst_id := inst; pv_prefix := prefix |}
  else None.
(** [min_by_key] gives the first of equal elements. *)
Definition min_provider (a b : PublicIpv6Provider) : PublicIpv6Provider :=
  if pv_inst_id b <? pv_inst_id a then b else a.
Definition selected_provider_from_snapshot (peers : list PublicIpv6PeerRouteInfo) : option PublicIpv6Provider :=
  match omap info_provider peers with
  | [] => None
  | p :: l => Some (foldl min_provider p l)
  end.

Definition clear_provider_state_if_provider_changed (s : PublicIpv6Service) (provider : option PublicIpv6Provider)
    : PublicIpv6Service * bool :=
  match provider_state s with
  | Some st => if bool_decide (provider <> Some (ps_provider st)) then set_provider_state s None else (s, false)
  | None => (s, false)
  end.
Definition clear_client_state_if_provider_changed (s : PublicIpv6Service) (provider : option PublicIpv6Provider)
    : PublicIpv6Service * bool :=
  match client_state s with
  | Some st => if bool_decide (provider <> Some (cs_provider st)) then set_client_state s None else (s, false)
  | None => (s, false)
  end.

(** ** The allocator *)

(** The search of a free offset; each round that goes on has met another element
    of [used]. *)
Fixpoint find_offset (fuel : nat) (used : gset Z) (usable_slots start_offset step : Z) : option Z :=
  if usable_slots <=? step then None else
  let offset := (start_offset - 1 + step) mod usable_slots + 1 in
  if bool_decide (offset ∈ used) then
    match fuel with O => None | S fuel => find_offset fuel used usable_slots start_offset (step + 1) end
  else Some offset.

Definition free_offset (used : gset Z) (max_offsets inst_id : Z) : option Z :=
  let usable_slots := sat_sub max_offsets 1 in
  if usable_slots =? 0 then if bool_decide (0 ∈ used) then None else Some 0
  else find_offset (size used) used usable_slots (inst_id mod usable_slots + 1) 0.

Definition alloc_lease (old_map : gmap Z Inet6) (inst_id : Z) (addr : Inet6) : PublicIpv6ProviderLease :=
  {| ls_peer_id := 0; ls_inst_id := inst_id; ls_addr := addr; ls_valid_until := 0;
     ls_reused := bool_decide (old_map !! inst_id = Some addr) |}.

Fixpoint allocate_loop (prefix : Ipv6Cidr) (max_offsets : option Z) (old_map : gmap Z Inet6) (ids : list Z)
    (used : gset Z) : list PublicIpv6ProviderLease :=
  match ids with
  | [] => []
  | inst_id :: ids =>
    let network := cidr6_first prefix in
    let existing :=
      old ← old_map !! inst_id;
      if cidr6_contains prefix (i6_address old) && bool_decide (sat_sub (i6_address old) network ∉ used)
      then Some old else None in
    match existing with
    | Some old => alloc_lease old_map inst_id old ::
        allocate_loop prefix max_offsets old_map ids ({[sat_sub (i6_address old) network]} ∪ used)
    | None =>
      match max_offsets with
      | None => allocate_loop prefix max_offsets old_map ids used
      | Some m =>
        match free_offset used m inst_id with
        | None => []
        | Some offset => alloc_lease old_map inst_id {| i6_address := network + offset; i6_length := 128 |} ::
            allocate_loop prefix max_offsets old_map ids ({[offset]} ∪ used)
        end
      end
    end
  end.

Definition allocate_public_ipv6_leases (prefix : Ipv6Cidr) (ids : list Z) (reserved : gset Z) (old_map : gmap Z Inet6)
    : list PublicIpv6ProviderLease :=
  let host_bits := sat_sub 128 (cidr6_length prefix) in
  let max_offsets := if host_bits =? 128 then None else Some (2 ^ host_bits) in
  let used := set_map (fun a => sat_sub a (cidr6_first prefix)) (filter (fun a => cidr6_contains prefix a = true) reserved) in
  allocate_loop prefix max_offsets old_map ids used.

(** ** The provider *)

Definition prune_expired_leases (provider : PublicIpv6Provider) (current : option PublicIpv6ProviderState) (now : Z)
    : PublicIpv6ProviderState :=
  let leases := match current with Some st => ps_leases st | None => ∅ end in
  {| ps_provider := provider; ps_leases := filter (fun kv => (now <? ls_valid_until kv.2) = true) leases |}.

Definition renewed (l : PublicIpv6ProviderLease) (peer now : Z) : PublicIpv6ProviderLease :=
  {| ls_peer_id := peer; ls_inst_id := ls_inst_id l; ls_addr := ls_addr l;
     ls_valid_until := now + PUBLIC_IPV6_LEASE_TTL; ls_reused := true |}.

Inductive acquire_progress :=
  | Answered (s : PublicIpv6Service) (r : result LeaseError PublicIpv6ProviderLease)
  | Collecting (st : PublicIpv6ProviderState).

(** [acquire_lease] up to the point where it waits for the reserved addresses; [me]
    is the own peer id, [peers] the snapshot of the routes. *)
Definition acquire_begin (me : Z) (peers : list PublicIpv6PeerRouteInfo) (s : PublicIpv6Service)
    (peer inst : Z) (renew_only : bool) (requested : option Inet6) (now : Z) : acquire_progress :=
  match selected_provider_from_snapshot peers with
  | None => Answered s (Err NoProvider)
  | Some provider =>
    if negb (pv_peer_id provider =? me) then Answered s (Err NotSelected) else
    let st := prune_expired_leases provider (provider_state s) now in
    match ps_leases st !! inst with
    | Some existing =>
      if bool_decide (is_Some requested) && bool_decide (requested <> Some (ls_addr existing))
      then Answered s (Err AllocationMismatch) else
      let lease := renewed existing peer now in
      Answered (set_provider_state s (Some {| ps_provider := ps_provider st; ps_leases := <[inst := lease]> (ps_leases st) |})).1
        (Ok lease)
    | None => if renew_only then Answered s (Err LeaseNotFound) else Collecting st
    end
  end.

(** The rest: the state read before the wait is extended and stored. *)
Definition acquire_end (s : PublicIpv6Service) (st : PublicIpv6ProviderState) (peer inst : Z) (reserved : gset Z) (now : Z)
    : PublicIpv6Service * result LeaseError PublicIpv6ProviderLease :=
  let old_map := ls_addr <$> ps_leases st in
  let reserved := reserved ∪ list_to_set (map (fun kv => i6_address (ls_addr kv.2)) (map_to_list (ps_leases st))) in
  match last (allocate_public_ipv6_leases (pv_prefix (ps_provider st)) [inst] reserved old_map) with
  | None => (s, Err NoFreeAddress)
  | Some l =>
    let lease := {| ls_peer_id := peer; ls_inst_id := ls_inst_id l; ls_addr := ls_addr l;
                    ls_valid_until := now + PUBLIC_IPV6_LEASE_TTL; ls_reused := ls_reused l |} in
    ((set_provider_state s (Some {| ps_provider := ps_provider st; ps_leases := <[inst := lease]> (ps_leases st) |})).1, Ok lease)
  end.

(** Without an interruption. *)
Definition acquire_lease (me : Z) (peers : list PublicIpv6PeerRouteInfo) (s : PublicIpv6Service)
    (peer inst : Z) (renew_only : bool) (requested : option Inet6) (reserved : gset Z) (now now2 : Z)
    : PublicIpv6Service * result LeaseError PublicIpv6ProviderLease :=
  match acquire_begin me peers s peer inst renew_only requested now with
  | Answered s r => (s, r)
  | Collecting st => acquire_end s st peer inst reserved now2
  end.

Definition release_lease (me : Z) (peers : list PublicIpv6PeerRouteInfo) (s : PublicIpv6Service) (peer inst now : Z)
    : PublicIpv6Service * bool :=
  match selected_provider_from_snapshot peers with
  | None => (s, false)
  | Some provider =>
    if negb (pv_peer_id provider =? me) then (s, false) else
    let st := prune_expired_leases provider (provider_state s) now in
    match ps_leases st !! inst with
    | Some l =>
      if ls_peer_id l =? peer
      then set_provider_state s (Some {| ps_provider := ps_provider st; ps_leases := delete inst (ps_leases st) |})
      else (s, false)
    | None => (s, false)
    end
  end.

Definition get_lease (me : Z) (peers : list PublicIpv6PeerRouteInfo) (s : PublicIpv6Service) (peer inst : Z)
    (requested : option Inet6) (now : Z) : result LeaseError (PublicIpv6Provider * PublicIpv6ProviderLease) :=
  match selected_provider_from_snapshot peers with
  | None => Err NoProvider
  | Some provider =>
    if negb (pv_peer_id provider =? me) then Err NotSelected else
    match ps_leases (prune_expired_leases provider (provider_state s) now) !! inst with
    | None => Err LeaseNotFound
    | Some l =>
      if negb (ls_peer_id l =? peer) then Err OwnerMismatch else
      if bool_decide (is_Some requested) && bool_decide (requested <> Some (ls_addr l)) then Err AllocationMismatch
      else Ok (provider, l)
    end
  end.

Definition gc_provider_leases (me : Z) (peers : list PublicIpv6PeerRouteInfo) (s : PublicIpv6Service) (now : Z)
    : PublicIpv6Service :=
  let provider := selected_provider_from_snapshot peers in
  let s := (clear_provider_state_if_provider_changed s provider).1 in
  match provider with
  | None => s
  | Some p => if negb (pv_peer_id p =? me) then s
              else (set_provider_state s (Some (prune_expired_leases p (provider_state s) now))).1
  end.
End service.

(** ** The client *)

(** What the route layer gives the service: the own peer id, the snapshot of all
    peers, and the announcement of the own lease. *)
Class RouteControl {n6 : Net6Lib} := {
  rc_state : Type;
  rc_my_peer_id : rc_state -> Z;
  rc_snapshot : rc_state -> list PublicIpv6PeerRouteInfo;
  rc_self_lease : rc_state -> option Inet6;
  rc_publish : rc_state -> option Inet6 -> rc_state * bool }.
(** The announced lease is the one the snapshot has for this node. *)
Class RouteControlLaws {n6 : Net6Lib} (rc : RouteControl) := {
  rc_wf : rc_state -> Prop;
  rc_publish_wf s l : rc_wf s -> rc_wf (rc_publish s l).1;
  rc_publish_lease s l : rc_wf s -> rc_self_lease (rc_publish s l).1 = l;
  rc_publish_id s l : rc_my_peer_id (rc_publish s l).1 = rc_my_peer_id s;
  rc_snapshot_self s : rc_wf s -> Forall (fun i => pi_peer_id i = rc_my_peer_id s -> pi_lease i = rc_self_lease s) (rc_snapshot s) }.

(** [CoreEvent]s of this service; the sets are sent in ascending order. *)
Inductive RuntimeEvent :=
  | PublicIpv6LeaseChanged (old new : option Inet6) | PublicIpv6RoutesChanged (added removed : gset Inet6).

(** [Ipv6PublicAddrLeaseReply]. *)
Record Ipv6PublicAddrLeaseReply := {
  rp_provider_peer_id : Z; rp_provider_inst_id : option Z; rp_provider_prefix : option Inet6;
  rp_leased_addr : option Inet6; rp_valid_until : option Z; rp_reused : bool; rp_error_msg : option LeaseError }.
(** The requests of a client: its peer id, instance id and, to renew, its address. *)
Inductive lease_request := RenewRequest (peer inst : Z) (addr : Inet6) | AcquireRequest (peer inst : Z).

Section client.
Context {n6 : Net6Lib} {rc : RouteControl}.

(** The service with what it calls: the route layer, the lease kept by the runtime
    and the events emitted. *)
Record World := {
  w_service : PublicIpv6Service; w_routes : rc_state; w_lease : option Inet6; w_events : list RuntimeEvent }.
Definition with_service (w : World) (s : PublicIpv6Service) : World :=
  {| w_service := s; w_routes := w_routes w; w_lease := w_lease w; w_events := w_events w |}.
Definition me_of (w : World) : Z := rc_my_peer_id (w_routes w).

Definition client_addr (s : PublicIpv6Service) : option Inet6 := (fun st => ls_addr (cs_lease st)) <$> client_state s.

Definition collect_step (me : Z) (acc : option Inet6 * gset Inet6) (info : PublicIpv6PeerRouteInfo) : option Inet6 * gset Inet6 :=
  match pi_lease info with
  | None => acc
  | Some lease =>
    if pi_peer_id info =? me then (Some lease, acc.2)
    else if pi_reachable info then (acc.1, {[lease]} ∪ acc.2) else acc
  end.
Definition collect_runtime_from_snapshot (s : PublicIpv6Service) (me : Z) (peers : list PublicIpv6PeerRouteInfo)
    : option Inet6 * gset Inet6 := foldl (collect_step me) (client_addr s, ∅) peers.

(** [public_ipv6_lease_changed] of the runtime stores the lease and emits. *)
Definition public_ipv6_lease_changed (w : World) (old new : option Inet6) : World :=
  {| w_service := w_service w; w_routes := w_routes w; w_lease := new; w_events := w_events w ++ [PublicIpv6LeaseChanged old new] |}.
Definition public_ipv6_routes_changed (w : World) (added removed : gset Inet6) : World :=
  {| w_service := w_service w; w_routes := w_routes w; w_lease := w_lease w;
     w_events := w_events w ++ [PublicIpv6RoutesChanged added removed] |}.
Definition with_caches (s : PublicIpv6Service) (routes : gset Inet6) (addr : option Inet6) : PublicIpv6Service :=
  {| provider_state := provider_state s; client_state := client_state s; route_cache := routes; my_addr_cache := addr |}.

(** [auto] is the configuration at the time. *)
Definition reconcile_runtime_from_snapshot (w : World) (auto : bool) (peers : list PublicIpv6PeerRouteInfo) : World :=
  let '(my_addr, routes) := collect_runtime_from_snapshot (w_service w) (me_of w) peers in
  let my_addr := if auto then my_addr else None in
  let cached := my_addr_cache (w_service w) in
  let w := if bool_decide (cached = my_addr) then w else
    public_ipv6_lease_changed (with_service w (with_caches (w_service w) (route_cache (w_service w)) my_addr)) cached my_addr in
  let cached := route_cache (w_service w) in
  if bool_decide (cached = routes) then w else
  public_ipv6_routes_changed (with_service w (with_caches (w_service w) routes (my_addr_cache (w_service w))))
    (routes ∖ cached) (cached ∖ routes).
Definition reconcile_runtime (w : World) (auto : bool) : World :=
  reconcile_runtime_from_snapshot w auto (rc_snapshot (w_routes w)).

Definition publish (w : World) (lease : option Inet6) : World * bool :=
  let '(r, changed) := rc_publish (w_routes w) lease in
  ({| w_service := w_service w; w_routes := r; w_lease := w_lease w; w_events := w_events w |}, changed).
Definition publish_current_client_lease (w : World) : World * bool := publish w (client_addr (w_service w)).

Definition handle_route_change (w : World) (auto : bool) : World * bool :=
  let peers := rc_snapshot (w_routes w) in
  let provider := selected_provider_from_snapshot peers in
  let s := (clear_provider_state_if_provider_changed (w_service w) provider).1 in
  let '(s, client_changed) := clear_client_state_if_provider_changed s provider in
  let w := with_service w s in
  if client_changed then
    let '(w, peer_info_changed) := publish_current_client_lease w in (reconcile_runtime w auto, peer_info_changed)
  else (reconcile_runtime_from_snapshot w auto peers, false).

Definition clear_client_lease_state (w : World) (auto : bool) (state_changed : bool) : World * bool :=
  let '(s, ch) := set_client_state (w_service w) None in
  let w := with_service w s in
  if state_changed || ch then
    let '(w, peer_info_changed) := publish w None in (reconcile_runtime w auto, peer_info_changed)
  else (w, false).

(** [sync_client_state] calls the provider; [SyncCall] is where it waits, with the
    state it read, the provider it chose and whether it has cleared the state. *)
Inductive sync_progress :=
  | SyncDone (w : World) (peer_info_changed : bool)
  | SyncCall (w : World) (current : option PublicIpv6ClientState) (provider : PublicIpv6Provider) (state_changed : bool).

(** [has_rpc]: the RPC manager is still there. *)
Definition sync_begin (w : World) (auto has_rpc : bool) (now : Z) : sync_progress :=
  if negb auto then
    let '(s, ch) := clear_client_state_if_provider_changed (w_service w) None in
    let '(w, r) := clear_client_lease_state (with_service w s) auto ch in SyncDone w r
  else
  let provider := selected_provider_from_snapshot (rc_snapshot (w_routes w)) in
  let s := (clear_provider_state_if_provider_changed (w_service w) provider).1 in
  let '(s, state_changed) := clear_client_state_if_provider_changed s provider in
  let w := with_service w s in
  match provider with
  | None => let '(w, r) := clear_client_lease_state w auto state_changed in SyncDone w r
  | Some provider =>
    if pv_peer_id provider =? me_of w then let '(w, r) := clear_client_lease_state w auto state_changed in SyncDone w r else
    let current := client_state (w_service w) in
    let need_rpc := match current with
                    | None => true
                    | Some st => bool_decide (cs_provider st <> provider) ||
                                 (ls_valid_until (cs_lease st) <=? now + PUBLIC_IPV6_RENEW_INTERVAL)
                    end in
    if negb need_rpc then SyncDone (if state_changed then reconcile_runtime w auto else w) false else
    if negb has_rpc then SyncDone (if state_changed then reconcile_runtime w auto else w) false else
    SyncCall w current provider state_changed
  end.

(** The call: a renewal if there is a lease of this provider, and an acquisition if
    there is none or the renewal fails; [None] is a failed call. *)
Definition sync_call (rpc : lease_request -> option Ipv6PublicAddrLeaseReply) (me inst : Z)
    (current : option PublicIpv6ClientState) (provider : PublicIpv6Provider) : option Ipv6PublicAddrLeaseReply :=
  match current with
  | Some st =>
    if bool_decide (cs_provider st = provider) then
      match rpc (RenewRequest me inst (ls_addr (cs_lease st))) with
      | Some reply => match rp_error_msg reply with None => Some reply | Some _ => rpc (AcquireRequest me inst) end
      | None => rpc (AcquireRequest me inst)
      end
    else rpc (AcquireRequest me inst)
  | None => rpc (AcquireRequest me inst)
  end.

Definition sync_end (w : World) (auto : bool) (inst : Z) (current : option PublicIpv6ClientState) (provider : PublicIpv6Provider)
    (state_changed : bool) (reply : option Ipv6PublicAddrLeaseReply) (now : Z) : World * bool :=
  let finish (s : PublicIpv6Service) (state_changed : bool) :=
    let w := with_service w s in
    if state_changed then
      let '(w, peer_info_changed) := publish_current_client_lease w in (reconcile_runtime w auto, peer_info_changed)
    else (w, false) in
  let failed :=
    let should_clear := match current with Some st => ls_valid_until (cs_lease st) <=? now | None => true end in
    if should_clear then let '(s, ch) := set_client_state (w_service w) None in finish s (state_changed || ch)
    else finish (w_service w) state_changed in
  match reply with
  | Some r =>
    match rp_error_msg r with
    | None =>
      match rp_leased_addr r with
      | None => (w, false)
      | Some addr =>
        let valid_until := default (now + PUBLIC_IPV6_LEASE_TTL) (rp_valid_until r) in
        let '(s, ch) := set_client_state (w_service w)
          (Some {| cs_provider := provider;
                   cs_lease := {| ls_peer_id := me_of w; ls_inst_id := inst; ls_addr := addr; ls_valid_until := valid_until;
                                  ls_reused := rp_reused r |};
                   cs_last_error := None |}) in
        finish s (state_changed || ch)
      end
    | Some _ => failed
    end
  | None => failed
  end.
End client.

(** ** The server *)

Section server.
Context {n6 : Net6Lib}.

Definition build_lease_reply (provider : PublicIpv6Provider) (lease : option PublicIpv6ProviderLease) (error : option LeaseError)
    : Ipv6PublicAddrLeaseReply :=
  {| rp_provider_peer_id := pv_peer_id provider; rp_provider_inst_id := Some (pv_inst_id provider);
     rp_provider_prefix := Some {| i6_address := cidr6_first (pv_prefix provider); i6_length := cidr6_length (pv_prefix provider) |};
     rp_leased_addr := ls_addr <$> lease; rp_valid_until := ls_valid_until <$> lease;
     rp_reused := match lease with Some l => ls_reused l | None => false end; rp_error_msg := error |}.

(** [acquire_lease] and [renew_lease] of the RPC server; [None] is an error of the
    call.  The provider in the answer is looked up again, in [peers2]. *)
Definition server_acquire (me : Z) (peers peers2 : list PublicIpv6PeerRouteInfo) (s : PublicIpv6Service) (rq : lease_request)
    (reserved : gset Z) (now now2 : Z) : PublicIpv6Service * option Ipv6PublicAddrLeaseReply :=
  let '(peer, inst, renew_only, requested) := match rq with
    | AcquireRequest peer inst => (peer, inst, false, None)
    | RenewRequest peer inst addr => (peer, inst, true, Some addr)
    end in
  let '(s, r) := acquire_lease me peers s peer inst renew_only requested reserved now now2 in
  (s, (fun p => match r with Ok l => build_lease_reply p (Some l) None | Err e => build_lease_reply p None (Some e) end)
        <$> selected_provider_from_snapshot peers2).
Definition server_get (me : Z) (peers peers2 : list PublicIpv6PeerRouteInfo) (s : PublicIpv6Service) (peer inst now : Z)
    : option Ipv6PublicAddrLeaseReply :=
  match get_lease me peers s peer inst None now with
  | Ok (p, l) => Some (build_lease_reply p (Some l) None)
  | Err e => (fun p => build_lease_reply p None (Some e)) <$> selected_provider_from_snapshot peers2
  end.
End server.
