(* ===== verification/PublicIpv6Proofs.v ===== *)
(** Public IPv6 leases: the allocator finds a free address when there is one, and a
    lease is exclusive while it is valid. *)

From stdpp Require Import list gmap.
From S2P Require Import Prelude PublicIpv6.
Local Open Scope Z_scope.

(** ** The search *)

Section search.
Context (used : gset Z) (usable start : Z) (Hu : 0 < usable).

Definition slot (k : Z) : Z := (start - 1 + k) mod usable + 1.
Lemma slot_range k : 1 <= slot k <= usable.
Proof using Hu. unfold slot. pose proof (Z.mod_pos_bound (start - 1 + k) usable Hu). lia. Qed.
Lemma slot_inj i j : 0 <= i < usable -> 0 <= j < usable -> slot i = slot j -> i = j.
Proof using Hu.
  unfold slot. intros Hi Hj E. assert ((start - 1 + i) mod usable = (start - 1 + j) mod usable) as E' by lia.
  pose proof (Z.div_mod (start - 1 + i) usable ltac:(lia)). pose proof (Z.div_mod (start - 1 + j) usable ltac:(lia)).
  set (a := (start - 1 + i) / usable) in *. set (b := (start - 1 + j) / usable) in *.
  assert (usable * (a - b) = i - j) as Hd by lia. assert (a - b = 0) by nia. lia.
Qed.
Lemma slot_onto o : 1 <= o <= usable -> slot ((o - start) mod usable) = o.
Proof using Hu.
  intros Ho. unfold slot. rewrite Z.add_mod_idemp_r by lia. replace (start - 1 + (o - start)) with (o - 1) by lia.
  rewrite Z.mod_small by lia. lia.
Qed.

(** Different slots in use are counted by the set. *)
Lemma slots_counted (n : nat) : Z.of_nat n <= usable -> (forall j, 0 <= j < Z.of_nat n -> slot j ∈ used) -> (n <= size used)%nat.
Proof using Hu.
  intros Hn Hall. set (l := map (fun i => slot (Z.of_nat i)) (seq 0 n)).
  assert (NoDup l) as Hnd.
  { apply NoDup_fmap_2_strong; [|apply NoDup_seq]. intros x y Hx%elem_of_seq Hy%elem_of_seq E.
    apply slot_inj in E; lia. }
  assert (size (list_to_set l : gset Z) = n) as Hsz.
  { rewrite size_list_to_set by done. unfold l. by rewrite length_map, length_seq. }
  rewrite <- Hsz. apply subseteq_size. intros x Hx. apply elem_of_list_to_set, list_elem_of_fmap in Hx as (i & -> & Hi%elem_of_seq).
  apply Hall. lia.
Qed.

Lemma find_offset_some fuel : forall step o, find_offset fuel used usable start step = Some o -> 1 <= o <= usable /\ o ∉ used.
Proof using Hu.
  induction fuel as [|fuel IH]; intros step o; cbn [find_offset]; fold (slot step);
    (destruct (usable <=? step); [done|]); case_bool_decide as Hin; try done; [|by apply IH|];
    intros [= <-]; (split; [apply slot_range|done]).
Qed.
Lemma find_offset_none fuel : forall step, 0 <= step -> (size used <= fuel + Z.to_nat step)%nat ->
  (forall j, 0 <= j < step -> slot j ∈ used) -> find_offset fuel used usable start step = None ->
  forall j, 0 <= j < usable -> slot j ∈ used.
Proof using Hu.
  induction fuel as [|fuel IH]; intros step Hst Hsz Hall; cbn [find_offset]; fold (slot step);
    (destruct (usable <=? step) eqn:El; bools; [intros _ j Hj; apply Hall; lia|]); case_bool_decide as Hin; try done;
    (assert (forall j, 0 <= j < step + 1 -> slot j ∈ used) as Hall'
      by (intros j Hj; destruct (decide (j = step)) as [->|]; [done|apply Hall; lia])).
  - exfalso. assert (S (Z.to_nat step) <= size used)%nat; [|lia]. apply slots_counted; [lia|].
    intros j Hj. apply Hall'. lia.
  - apply IH; [lia|lia|done].
Qed.
End search.

(** ** The allocator *)

Section allocator.
Context {n6 : Net6Lib} {H6 : Net6Laws n6}.

(** The offsets that [free_offset] hands out of [m]. *)
Definition usable_offset (m o : Z) : Prop := if m =? 1 then o = 0 else 1 <= o < m.

Lemma free_offset_some used m inst o : 0 < m -> free_offset used m inst = Some o -> usable_offset m o /\ 0 <= o < m /\ o ∉ used.
Proof using.
  intros Hm. unfold free_offset, usable_offset, sat_sub. destruct (Z.eqb_spec m 1) as [->|Hne].
  - cbn [Z.eqb]. change (Z.max 0 (1 - 1) =? 0) with true. cbv iota. case_bool_decide; [done|]. intros [= <-]. done.
  - rewrite (proj2 (Z.eqb_neq _ _)) by lia. intros [Hr Hn]%find_offset_some; [|lia]. split; [lia|]. split; [lia|done].
Qed.
Lemma free_offset_none used m inst : 0 < m -> free_offset used m inst = None -> forall o, usable_offset m o -> o ∈ used.
Proof using.
  intros Hm. unfold free_offset, usable_offset, sat_sub. destruct (Z.eqb_spec m 1) as [->|Hne].
  - change (Z.max 0 (1 - 1) =? 0) with true. cbv iota. case_bool_decide as H0; [|done]. by intros _ o ->.
  - rewrite (proj2 (Z.eqb_neq _ _)) by lia. set (u := Z.max 0 (m - 1)). assert (0 < u) as Hu by lia. intros H o Ho.
    set (st := inst mod u + 1) in *.
    assert (0 <= inst mod u < u) as Hb by (apply Z.mod_pos_bound; lia).
    assert (1 <= st <= u) as Hst by (subst st; lia).
    rewrite <- (slot_onto u st Hu o) by lia.
    refine (find_offset_none used u st Hu (size used) 0 _ _ _ H _ _); [lia|lia|intros; lia|]. apply Z.mod_pos_bound. lia.
Qed.

Definition address (l : PublicIpv6ProviderLease) : Z := i6_address (ls_addr l).

(** What the loop hands out lies in the prefix, is not in use, and is handed out
    once. *)
Lemma allocate_loop_sound prefix old ids : forall used,
  Forall (fun l => cidr6_contains prefix (address l) = true /\ address l - cidr6_first prefix ∉ used)
    (allocate_loop prefix (if sat_sub 128 (cidr6_length prefix) =? 128 then None
      else Some (2 ^ sat_sub 128 (cidr6_length prefix))) old ids used) /\
  NoDup (map address (allocate_loop prefix (if sat_sub 128 (cidr6_length prefix) =? 128 then None
      else Some (2 ^ sat_sub 128 (cidr6_length prefix))) old ids used)).
Proof using H6.
  set (m := if _ =? _ then None else _). pose proof (cidr6_length_range prefix) as Hl.
  assert (forall k l (used : gset Z), Forall (fun l => cidr6_contains prefix (address l) = true /\ address l - cidr6_first prefix ∉ {[k]} ∪ used) l ->
    Forall (fun l => cidr6_contains prefix (address l) = true /\ address l - cidr6_first prefix ∉ used) l /\
    cidr6_first prefix + k ∉ map address l) as Hcons.
  { intros k l used HF. split.
    - eapply Forall_impl; [exact HF|]. intros x [? Hx]. split; [done|]. intros Hi. apply Hx. by apply elem_of_union_r.
    - intros (x & E & Hx)%list_elem_of_fmap. rewrite Forall_forall in HF. destruct (HF x Hx) as [_ Hn]. apply Hn.
      apply elem_of_union_l, elem_of_singleton. lia. }
  induction ids as [|inst ids IH]; intros used; cbn [allocate_loop]; [by split; constructor|].
  set (existing := mbind _ (old !! inst)). destruct existing as [o|] eqn:Ee.
  - subst existing. destruct (old !! inst) as [o'|]; [|done]. cbn in Ee.
    destruct (cidr6_contains prefix (i6_address o')) eqn:Ec; [|done]. case_bool_decide as Hn; [|done]. injection Ee as <-.
    assert (sat_sub (i6_address o') (cidr6_first prefix) = i6_address o' - cidr6_first prefix) as Es.
    { unfold sat_sub. apply cidr6_contains_spec in Ec. lia. }
    rewrite Es in *. destruct (IH ({[i6_address o' - cidr6_first prefix]} ∪ used)) as [H1 H2].
    destruct (Hcons _ _ _ H1) as [H3 H4]. split; [by constructor|]. cbn [map]. constructor; [|done].
    unfold address at 1. cbn [ls_addr alloc_lease]. by replace (cidr6_first prefix + (i6_address o' - cidr6_first prefix)) with (i6_address o') in H4 by lia.
  - clear Ee existing. destruct m as [m'|] eqn:Em; [|apply IH]. destruct (free_offset used m' inst) as [o|] eqn:Ef; [|by split; constructor].
    assert (m' = 2 ^ (128 - cidr6_length prefix)) as Em'.
    { subst m. destruct (_ =? _); [done|]. injection Em as <-. unfold sat_sub. by rewrite Z.max_r by lia. }
    apply free_offset_some in Ef as (_ & Hr & Hn); [|subst m'; lia].
    destruct (IH ({[o]} ∪ used)) as [H1 H2]. destruct (Hcons _ _ _ H1) as [H3 H4]. split.
    + constructor; [|done]. unfold address. cbn [ls_addr alloc_lease i6_address]. split; [apply cidr6_contains_spec; lia|].
      by replace (cidr6_first prefix + o - cidr6_first prefix) with o by lia.
    + cbn [map]. constructor; [|done]. exact H4.
Qed.

Lemma allocate_sound prefix ids reserved old :
  let ls := allocate_public_ipv6_leases prefix ids reserved old in
  Forall (fun l => cidr6_contains prefix (address l) = true /\ address l ∉ reserved) ls /\ NoDup (map address ls).
Proof using H6.
  intros ls. unfold ls, allocate_public_ipv6_leases. set (used := set_map _ _).
  destruct (allocate_loop_sound prefix old ids used) as [HF Hn]. split; [|exact Hn].
  eapply Forall_impl; [exact HF|]. intros l [Hc Hu]. split; [done|]. intros Hr. apply Hu. apply elem_of_map.
  exists (address l). split; [|by apply elem_of_filter]. unfold sat_sub. apply cidr6_contains_spec in Hc. lia.
Qed.

(** For one new client, nothing is found only when every usable address is taken;
    of a prefix with more than one address the first is not used. *)
Lemma allocate_one prefix inst reserved old : old !! inst = None -> 0 < cidr6_length prefix ->
  (exists a, allocate_public_ipv6_leases prefix [inst] reserved old = [alloc_lease old inst a] /\ i6_length a = 128) \/
  (allocate_public_ipv6_leases prefix [inst] reserved old = [] /\
   forall a, cidr6_contains prefix a = true -> cidr6_length prefix = 128 \/ a <> cidr6_first prefix -> a ∈ reserved).
Proof using H6.
  intros Ho Hl. pose proof (cidr6_length_range prefix) as Hr. unfold allocate_public_ipv6_leases.
  assert (sat_sub 128 (cidr6_length prefix) = 128 - cidr6_length prefix) as -> by (unfold sat_sub; lia).
  rewrite (proj2 (Z.eqb_neq _ _)) by lia. set (used := set_map _ _). cbn [allocate_loop]. rewrite Ho. cbn [mbind option_bind].
  set (m := 2 ^ (128 - cidr6_length prefix)). assert (0 < m) as Hm by (subst m; lia).
  destruct (free_offset used m inst) as [o|] eqn:Ef; [left; by eexists|right; split; [done|]].
  intros a Ha Hne. pose proof (free_offset_none used m inst Hm Ef (a - cidr6_first prefix)) as Hu.
  pose proof Ha as Ha'. apply cidr6_contains_spec in Ha'. fold m in Ha'.
  assert (a - cidr6_first prefix ∈ used) as Hin.
  { apply Hu. unfold usable_offset. destruct (Z.eqb_spec m 1) as [E|E]; [lia|].
    destruct Hne as [Hne|Hne]; [|lia]. subst m. rewrite Hne in E. done. }
  apply elem_of_map in Hin as (b & Eb & [Hb Hb']%elem_of_filter). apply cidr6_contains_spec in Hb. unfold sat_sub in Eb.
  by replace a with b by lia.
Qed.
End allocator.

(** ** The leases of a provider *)

Section provider.
Context {n6 : Net6Lib} {H6 : Net6Laws n6}.

Definition leases_of (s : PublicIpv6Service) : gmap Z PublicIpv6ProviderLease :=
  match provider_state s with Some st => ps_leases st | None => ∅ end.
(** Two clients do not have the same address. *)
Definition distinct (m : gmap Z PublicIpv6ProviderLease) : Prop :=
  forall i j li lj, m !! i = Some li -> m !! j = Some lj -> address li = address lj -> i = j.
Lemma distinct_sub m m' : m' ⊆ m -> distinct m -> distinct m'.
Proof using. intros Hs Hd i j li lj Hi Hj. apply Hd; by eapply lookup_weaken. Qed.

Lemma set_provider_leases s next :
  leases_of (set_provider_state s next).1 = match next with Some st => ps_leases st | None => ∅ end.
Proof using. unfold set_provider_state, leases_of. case_bool_decide as E; [|done]. cbn. by rewrite E. Qed.
Lemma set_provider_state_eq s next : provider_state (set_provider_state s next).1 = next.
Proof using. unfold set_provider_state. by case_bool_decide. Qed.

Lemma prune_leases p s now : ps_leases (prune_expired_leases p (provider_state s) now) =
  filter (fun kv => (now <? ls_valid_until kv.2) = true) (leases_of s).
Proof using. unfold prune_expired_leases, leases_of. cbn. by destruct (provider_state s). Qed.
Lemma prune_sub p s now : ps_leases (prune_expired_leases p (provider_state s) now) ⊆ leases_of s.
Proof using. rewrite prune_leases. apply map_filter_subseteq. Qed.
Lemma prune_keeps p s now i l : leases_of s !! i = Some l -> now < ls_valid_until l ->
  ps_leases (prune_expired_leases p (provider_state s) now) !! i = Some l.
Proof using. intros Hi Hv. rewrite prune_leases. apply map_lookup_filter_Some. split; [done|]. by apply Z.ltb_lt. Qed.

(** A new lease is none of the old ones. *)
Lemma acquire_end_spec s st peer inst reserved now : ps_leases st !! inst = None ->
  let '(s', r) := acquire_end s st peer inst reserved now in
  match r with
  | Ok l => leases_of s' = <[inst := l]> (ps_leases st) /\ ls_valid_until l = now + PUBLIC_IPV6_LEASE_TTL /\
      ls_peer_id l = peer /\ cidr6_contains (pv_prefix (ps_provider st)) (address l) = true /\ (address l ∉ reserved) /\
      (forall j lj, ps_leases st !! j = Some lj -> address lj <> address l)
  | Err _ => s' = s
  end.
Proof using H6.
  intros Hn. unfold acquire_end. set (res := reserved ∪ _). set (old := ls_addr <$> ps_leases st).
  destruct (allocate_sound (pv_prefix (ps_provider st)) [inst] res old) as [HF _].
  destruct (last (allocate_public_ipv6_leases _ _ _ _)) as [l|] eqn:El; [|done].
  apply last_Some in El as [ls E]. rewrite E in HF. apply Forall_app in HF as [_ HF]. apply Forall_singleton in HF as [Hc Hr].
  rewrite set_provider_leases. split_and!; [done|done|done|exact Hc|..].
  - intros Hi. apply Hr. by apply elem_of_union_l.
  - intros j lj Hj Ha. apply Hr. apply elem_of_union_r, elem_of_list_to_set, list_elem_of_fmap.
    exists (j, lj). split; [symmetry; exact Ha|]. by apply elem_of_map_to_list.
Qed.

(** ** Histories *)

Inductive prov_ev :=
  | EvAcquire (peer inst : Z) (renew_only : bool) (requested : option Inet6) (reserved : gset Z) (now now2 : Z)
  | EvRelease (peer inst now : Z)
  | EvGc (now : Z)
  | EvRoute.
(** Each event with the snapshot of the routes at its time. *)
Definition prov_exec (me : Z) (s : PublicIpv6Service) (e : prov_ev * list PublicIpv6PeerRouteInfo) : PublicIpv6Service :=
  match e.1 with
  | EvAcquire peer inst renew_only requested reserved now now2 =>
    (acquire_lease me e.2 s peer inst renew_only requested reserved now now2).1
  | EvRelease peer inst now => (release_lease me e.2 s peer inst now).1
  | EvGc now => gc_provider_leases me e.2 s now
  | EvRoute => (clear_provider_state_if_provider_changed s (selected_provider_from_snapshot e.2)).1
  end.
Definition prov_run (me : Z) : PublicIpv6Service -> list (prov_ev * list PublicIpv6PeerRouteInfo) -> PublicIpv6Service :=
  foldl (prov_exec me).

Lemma clear_leases s p : leases_of (clear_provider_state_if_provider_changed s p).1 ⊆ leases_of s.
Proof using.
  unfold clear_provider_state_if_provider_changed. destruct (provider_state s) eqn:E; [|done].
  case_bool_decide; [|done]. rewrite set_provider_leases. apply map_empty_subseteq.
Qed.
Lemma gc_leases me peers s now : leases_of (gc_provider_leases me peers s now) ⊆ leases_of s.
Proof using.
  unfold gc_provider_leases. set (s1 := (clear_provider_state_if_provider_changed s _).1).
  assert (leases_of s1 ⊆ leases_of s) as H1 by apply clear_leases.
  destruct (selected_provider_from_snapshot peers) as [p|]; [|done]. destruct (negb _); [done|].
  rewrite set_provider_leases. etrans; [apply prune_sub|exact H1].
Qed.
Lemma release_leases me peers s peer inst now : leases_of (release_lease me peers s peer inst now).1 ⊆ leases_of s.
Proof using.
  unfold release_lease. destruct (selected_provider_from_snapshot peers) as [p|]; [|done]. destruct (negb _); [done|].
  destruct (ps_leases _ !! inst); [|done]. destruct (_ =? _); [|done]. rewrite set_provider_leases.
  etrans; [apply delete_subseteq|apply prune_sub].
Qed.

(** What [acquire_lease] answers and leaves behind. *)
Lemma acquire_spec me peers s peer inst renew_only requested reserved now now2 : distinct (leases_of s) ->
  let '(s', r) := acquire_lease me peers s peer inst renew_only requested reserved now now2 in
  distinct (leases_of s') /\
  match r with
  | Ok l => leases_of s' !! inst = Some l /\ ls_peer_id l = peer /\
      (ls_valid_until l = now + PUBLIC_IPV6_LEASE_TTL \/ ls_valid_until l = now2 + PUBLIC_IPV6_LEASE_TTL) /\
      (forall j lj, j <> inst -> leases_of s !! j = Some lj -> now < ls_valid_until lj ->
         leases_of s' !! j = Some lj /\ address lj <> address l) /\
      (forall l0, leases_of s !! inst = Some l0 -> now < ls_valid_until l0 -> ls_addr l = ls_addr l0)
  | Err _ => s' = s
  end.
Proof using H6.
  intros Hd. unfold acquire_lease, acquire_begin.
  destruct (selected_provider_from_snapshot peers) as [p|]; [|done]. destruct (negb _); [done|].
  set (st := prune_expired_leases p (provider_state s) now).
  assert (distinct (ps_leases st)) as Hds by (eapply distinct_sub; [apply prune_sub|done]).
  assert (forall j lj, ps_leases st !! j = Some lj <-> leases_of s !! j = Some lj /\ now < ls_valid_until lj) as Hst.
  { intros j lj. unfold st. rewrite prune_leases, map_lookup_filter_Some, Z.ltb_lt. done. }
  destruct (ps_leases st !! inst) as [l0|] eqn:Ei.
  - destruct (_ && _); [done|]. rewrite set_provider_leases. cbn [ps_leases]. set (l := renewed l0 peer now).
    apply Hst in Ei as [Ei Hv]. split.
    + intros i j li lj Hi Hj E. assert (forall k lk, <[inst:=l]> (ps_leases st) !! k = Some lk ->
        exists lk', ps_leases st !! k = Some lk' /\ address lk' = address lk) as Hk.
      { intros k lk [[<- <-]|[_ Hk]]%lookup_insert_Some; [exists l0; split; [by apply Hst|done]|eauto]. }
      destruct (Hk _ _ Hi) as (li' & Hi' & Ei'), (Hk _ _ Hj) as (lj' & Hj' & Ej'). apply (Hds i j li' lj'); [done|done|congruence].
    + split_and!; [apply lookup_insert_eq|done|by left|..].
      * intros j lj Hne Hj Hvj. rewrite lookup_insert_ne by done. split; [by apply Hst|]. intros E. apply Hne.
        by apply (Hd j inst lj l0).
      * intros l1 Hl1 _. by replace l1 with l0 by congruence.
  - destruct renew_only; [done|].
    pose proof (acquire_end_spec s st peer inst reserved now2 Ei) as He. destruct (acquire_end s st peer inst reserved now2) as [s' r].
    destruct r as [l|e]; [|by subst]. destruct He as (El & Ev & Ep & _ & _ & Hne). rewrite El. split.
    + intros i j li lj [[<- <-]|[Hi Hli]]%lookup_insert_Some [[<- <-]|[Hj Hlj]]%lookup_insert_Some E; [done|..].
      * by destruct (Hne _ _ Hlj).
      * by destruct (Hne _ _ Hli).
      * by apply (Hds i j li lj).
    + split_and!; [apply lookup_insert_eq|done|by right|..].
      * intros j lj Hj Hlj Hv. rewrite lookup_insert_ne by done. assert (ps_leases st !! j = Some lj) as Hs by (by apply Hst).
        split; [done|by apply (Hne j)].
      * intros l0 Hl0 Hv. assert (ps_leases st !! inst = Some l0) by (by apply Hst). congruence.
Qed.

Lemma acquire_provider me peers s peer inst renew_only requested reserved now now2 s' l p :
  selected_provider_from_snapshot peers = Some p ->
  acquire_lease me peers s peer inst renew_only requested reserved now now2 = (s', Ok l) ->
  exists st, provider_state s' = Some st /\ ps_provider st = p.
Proof using.
  intros Hp. unfold acquire_lease, acquire_begin. rewrite Hp. destruct (negb _); [done|].
  destruct (ps_leases _ !! inst) as [l0|].
  - destruct (_ && _); [done|]. intros [= <- _]. rewrite set_provider_state_eq. by eexists.
  - destruct renew_only; [done|]. unfold acquire_end. destruct (last _); [|done]. intros [= <- _].
    rewrite set_provider_state_eq. by eexists.
Qed.

Lemma exec_distinct me s e : distinct (leases_of s) -> distinct (leases_of (prov_exec me s e)).
Proof using H6.
  intros Hd. destruct e as [[peer inst renew requested reserved now now2|peer inst now|now|] peers]; unfold prov_exec; cbn [fst snd].
  - pose proof (acquire_spec me peers s peer inst renew requested reserved now now2 Hd) as H.
    destruct (acquire_lease _ _ _ _ _ _ _ _ _ _). apply H.
  - eapply distinct_sub; [apply release_leases|done].
  - eapply distinct_sub; [apply gc_leases|done].
  - eapply distinct_sub; [apply clear_leases|done].
Qed.
Lemma run_distinct me evs : forall s, distinct (leases_of s) -> distinct (leases_of (prov_run me s evs)).
Proof using H6. induction evs as [|e evs IH]; intros s Hd; [done|]. by apply IH, exec_distinct. Qed.

(** While the node stays the provider with its prefix, and before [v], nobody
    gives up the lease of [inst]. *)
Definition still (p : PublicIpv6Provider) (inst v : Z) (e : prov_ev * list PublicIpv6PeerRouteInfo) : Prop :=
  selected_provider_from_snapshot e.2 = Some p /\
  match e.1 with
  | EvAcquire _ _ _ _ _ now now2 => v - PUBLIC_IPV6_LEASE_TTL <= now < v /\ now <= now2
  | EvRelease _ i now => i <> inst /\ now < v
  | EvGc now => now < v
  | EvRoute => True
  end.

Definition holds_lease (p : PublicIpv6Provider) (inst : Z) (a : Inet6) (v : Z) (s : PublicIpv6Service) : Prop :=
  exists st l, provider_state s = Some st /\ ps_provider st = p /\ ps_leases st !! inst = Some l /\ ls_addr l = a /\
    v <= ls_valid_until l.

Lemma clear_same p s inst a v : holds_lease p inst a v s -> (clear_provider_state_if_provider_changed s (Some p)).1 = s.
Proof using.
  intros (st & l & Hs & Hp & _). unfold clear_provider_state_if_provider_changed. rewrite Hs, Hp.
  by rewrite bool_decide_eq_false_2 by (intros H; by apply H).
Qed.

Lemma exec_holds me p inst a v s e : distinct (leases_of s) -> still p inst v e -> holds_lease p inst a v s ->
  holds_lease p inst a v (prov_exec me s e).
Proof using H6.
  intros Hd [Hp He] Hh. pose proof Hh as (st & l & Hs & Hpr & Hl & Ha & Hv).
  assert (leases_of s !! inst = Some l) as Hl' by (unfold leases_of; by rewrite Hs).
  destruct e as [[peer i renew requested reserved now now2|peer i now|now|] peers]; unfold prov_exec; cbn [fst snd] in *.
  - pose proof (acquire_spec me peers s peer i renew requested reserved now now2 Hd) as H.
    destruct (acquire_lease me peers s peer i renew requested reserved now now2) as [s' r] eqn:E. cbn [fst].
    destruct r as [l'|]; [|by destruct H as [_ ->]]. destruct H as (_ & Hi & _ & Hvl & Hoth & Hsame).
    destruct (acquire_provider _ _ _ _ _ _ _ _ _ _ _ _ p Hp E) as (st' & Hs' & Hp').
    unfold leases_of in Hi, Hoth. rewrite Hs' in Hi, Hoth. destruct (decide (i = inst)) as [->|Hne].
    + exists st', l'. split_and!; [done|done|done|rewrite (Hsame l Hl' ltac:(lia)); done|lia].
    + exists st', l. destruct (Hoth inst l) as [Hlk _]; [congruence|exact Hl'|lia|]. by split_and!.
  - destruct He as [Hne Ht]. unfold release_lease. rewrite Hp. destruct (negb _); [done|].
    destruct (ps_leases _ !! i) as [li|]; [|done]. destruct (_ =? _); [|done].
    eexists _, l. rewrite set_provider_state_eq. split_and!; [done|done| |done|done]. cbn [ps_leases].
    rewrite lookup_delete_ne by done. apply prune_keeps; [done|lia].
  - unfold gc_provider_leases. rewrite Hp, (clear_same p s inst a v Hh). destruct (negb _); [done|].
    eexists _, l. rewrite set_provider_state_eq. split_and!; [done|done| |done|done]. apply prune_keeps; [done|lia].
  - by rewrite Hp, (clear_same p s inst a v Hh).
Qed.
Lemma run_holds me p inst a v evs : forall s, distinct (leases_of s) -> Forall (still p inst v) evs ->
  holds_lease p inst a v s -> holds_lease p inst a v (prov_run me s evs).
Proof using H6.
  induction evs as [|e evs IH]; intros s Hd HF Hh; [done|]. apply Forall_cons in HF as [He HF].
  apply IH; [by apply exec_distinct|done|by apply exec_holds].
Qed.
End provider.

(** ** Theorems *)

(** C35. A lease is exclusive, for a provider that answers its requests one at
    a time (each [acquire_lease] runs to its end before the next operation;
    requests that overlap at the await in the middle can be granted the same
    address, see [concurrent_grants_collide]).  Whatever such a provider did
    before, when it grants a lease, then until the lease ends, as long as the
    node stays the selected provider and the client does not give the lease up,
    the client's address stays the same on every renewal and no other client is
    granted it. *)
Theorem lease_exclusive `{n6 : Net6Lib, !Net6Laws n6} me evs p peers peer inst renew requested reserved now now2 s1 l :
  selected_provider_from_snapshot peers = Some p ->
  acquire_lease me peers (prov_run me PublicIpv6Service_new evs) peer inst renew requested reserved now now2 = (s1, Ok l) ->
  forall evs2, Forall (still p inst (ls_valid_until l)) evs2 ->
    distinct (leases_of (prov_run me s1 evs2)) /\
    (exists l2, leases_of (prov_run me s1 evs2) !! inst = Some l2 /\ ls_addr l2 = ls_addr l) /\
    forall peers' peer' inst' renew' requested' reserved' t t' s3 l3, t < ls_valid_until l ->
      acquire_lease me peers' (prov_run me s1 evs2) peer' inst' renew' requested' reserved' t t' = (s3, Ok l3) ->
      if decide (inst' = inst) then ls_addr l3 = ls_addr l else address l3 <> address l.
Proof.
  intros Hp E evs2 HF.
  assert (distinct (leases_of (prov_run me PublicIpv6Service_new evs))) as Hd by (apply run_distinct; intros ? ? ? ? H; done).
  pose proof (acquire_spec me peers _ peer inst renew requested reserved now now2 Hd) as H. rewrite E in H.
  destruct H as (Hd1 & Hi & _). destruct (acquire_provider _ _ _ _ _ _ _ _ _ _ _ _ p Hp E) as (st & Hs & Hpr).
  assert (holds_lease p inst (ls_addr l) (ls_valid_until l) s1) as Hh.
  { exists st, l. unfold leases_of in Hi. rewrite Hs in Hi. split_and!; [done..|lia]. }
  pose proof (run_distinct me evs2 s1 Hd1) as Hd2.
  pose proof (run_holds me p inst (ls_addr l) (ls_valid_until l) evs2 s1 Hd1 HF Hh) as (st2 & l2 & Hs2 & _ & Hl2 & Ha & Hv).
  assert (leases_of (prov_run me s1 evs2) !! inst = Some l2) as Hl2' by (unfold leases_of; by rewrite Hs2).
  split_and!; [done|by exists l2|]. intros peers' peer' inst' renew' requested' reserved' t t' s3 l3 Ht E3.
  pose proof (acquire_spec me peers' _ peer' inst' renew' requested' reserved' t t' Hd2) as H3. rewrite E3 in H3.
  destruct H3 as (_ & _ & _ & _ & Hoth & Hsame). case_decide as Hne.
  - subst inst'. rewrite (Hsame l2 Hl2' ltac:(lia)). done.
  - destruct (Hoth inst l2) as [_ Hn]; [congruence|done|lia|]. unfold address in *. by rewrite <- Ha.
Qed.

(** The selected provider serves a client that has no lease: it grants an address
    of its prefix that is not reserved, and refuses only when every usable address
    is reserved or leased (of a prefix with more than one address the first is not
    used). *)
Theorem provider_serves `{n6 : Net6Lib, !Net6Laws n6} me peers p s peer inst reserved now now2 :
  selected_provider_from_snapshot peers = Some p -> pv_peer_id p = me -> 0 < cidr6_length (pv_prefix p) ->
  (forall l, leases_of s !! inst = Some l -> ls_valid_until l <= now) ->
  let '(s', r) := acquire_lease me peers s peer inst false None reserved now now2 in
  match r with
  | Ok l => cidr6_contains (pv_prefix p) (address l) = true /\ (address l ∉ reserved) /\ ls_peer_id l = peer /\
      ls_valid_until l = now2 + PUBLIC_IPV6_LEASE_TTL /\ leases_of s' !! inst = Some l
  | Err e => e = NoFreeAddress /\ s' = s /\
      forall a, cidr6_contains (pv_prefix p) a = true -> cidr6_length (pv_prefix p) = 128 \/ a <> cidr6_first (pv_prefix p) ->
        a ∈ reserved \/ exists j lj, leases_of s !! j = Some lj /\ now < ls_valid_until lj /\ address lj = a
  end.
Proof.
  intros Hp Hme Hlen Hnone. unfold acquire_lease, acquire_begin. rewrite Hp, Hme, Z.eqb_refl. cbn [negb].
  set (st := prune_expired_leases p (provider_state s) now).
  assert (forall j lj, ps_leases st !! j = Some lj <-> leases_of s !! j = Some lj /\ now < ls_valid_until lj) as Hst.
  { intros j lj. unfold st. rewrite prune_leases, map_lookup_filter_Some, Z.ltb_lt. done. }
  assert (ps_leases st !! inst = None) as Hi.
  { destruct (ps_leases st !! inst) as [l|] eqn:E; [|done]. apply Hst in E as [E Hv]. specialize (Hnone l E). lia. }
  rewrite Hi. pose proof (acquire_end_spec s st peer inst reserved now2 Hi) as He.
  destruct (acquire_end s st peer inst reserved now2) as [s' r] eqn:E. destruct r as [l|e].
  - destruct He as (El & Ev & Ep & Hc & Hr & _). split_and!; [exact Hc|done|done|done|]. rewrite El. apply lookup_insert_eq.
  - subst s'. unfold acquire_end in E. set (res := reserved ∪ _) in E.
    destruct (allocate_one (pv_prefix (ps_provider st)) inst res (ls_addr <$> ps_leases st)) as [(a & Ea & _)|[Ea Hall]];
      [by rewrite lookup_fmap, Hi|done|rewrite Ea in E; done|]. rewrite Ea in E. injection E as <-. split_and!; [done..|].
    intros a Ha Hu. specialize (Hall a Ha Hu). apply elem_of_union in Hall as [Hr|Hl]; [by left|right].
    apply elem_of_list_to_set, list_elem_of_fmap in Hl as ([j lj] & -> & Hj%elem_of_map_to_list). apply Hst in Hj as [Hj Hv]. eauto.
Qed.

(** ** The client *)

Section client.
Context {n6 : Net6Lib} {rc : RouteControl} {Hrc : RouteControlLaws rc}.

Lemma collect_addr me peers self : Forall (fun i => pi_peer_id i = me -> pi_lease i = self) peers ->
  forall acc, (foldl (collect_step me) acc peers).1 = acc.1 \/ (foldl (collect_step me) acc peers).1 = self.
Proof using.
  induction 1 as [|i l Hi _ IH]; intros acc; [by left|]. cbn [foldl]. unfold collect_step at 2 4.
  destruct (pi_lease i) as [x|] eqn:Ex; [|apply IH]. destruct (Z.eqb_spec (pi_peer_id i) me) as [E|E].
  - destruct (IH (Some x, acc.2)) as [->| ->]; right; [by apply Hi|done].
  - destruct (pi_reachable i); [apply (IH (acc.1, {[x]} ∪ acc.2))|apply IH].
Qed.

(** The caches after a reconciliation; nothing else of the service changes. *)
Lemma reconcile_spec w auto peers : let w' := reconcile_runtime_from_snapshot w auto peers in
  w_routes w' = w_routes w /\ client_state (w_service w') = client_state (w_service w) /\
  provider_state (w_service w') = provider_state (w_service w) /\
  (w_lease w = my_addr_cache (w_service w) -> w_lease w' = my_addr_cache (w_service w')) /\
  my_addr_cache (w_service w') = (if auto then (collect_runtime_from_snapshot (w_service w) (me_of w) peers).1 else None).
Proof using.
  unfold reconcile_runtime_from_snapshot. destruct (collect_runtime_from_snapshot _ _ _) as [a r]. cbn [fst].
  set (a' := if auto then a else None).
  destruct (decide (my_addr_cache (w_service w) = a')) as [Ea|Ea].
  - rewrite (bool_decide_eq_true_2 _ Ea). destruct (decide (route_cache (w_service w) = r)) as [Er|Er].
    + by rewrite (bool_decide_eq_true_2 _ Er).
    + rewrite (bool_decide_eq_false_2 _ Er). by split_and!.
  - rewrite (bool_decide_eq_false_2 _ Ea). case_bool_decide; by split_and!.
Qed.

(** [cleared]: a call is on its way that has cleared the state without announcing
    it yet. *)
Record client_ok (w : World) (cleared : bool) : Prop := {
  co_wf : rc_wf (w_routes w);
  co_lease : w_lease w = my_addr_cache (w_service w);
  co_state : if cleared then client_state (w_service w) = None else rc_self_lease (w_routes w) = client_addr (w_service w);
  co_addr : my_addr_cache (w_service w) = None \/ my_addr_cache (w_service w) = rc_self_lease (w_routes w) }.

(** All that an operation leaves to be done is done by a reconciliation. *)
Lemma reconcile_ok w auto (cleared : bool) : rc_wf (w_routes w) -> w_lease w = my_addr_cache (w_service w) ->
  (if cleared then client_state (w_service w) = None else rc_self_lease (w_routes w) = client_addr (w_service w)) ->
  client_ok (reconcile_runtime w auto) cleared.
Proof using Hrc.
  intros Hwf Hl Hs. unfold reconcile_runtime. destruct (reconcile_spec w auto (rc_snapshot (w_routes w))) as (Er & Ec & _ & El & Ea).
  split.
  - by rewrite Er.
  - by apply El.
  - rewrite Er, Ec. unfold client_addr in *. rewrite Ec. done.
  - rewrite Er, Ea. destruct auto; [|by left]. unfold collect_runtime_from_snapshot.
    destruct (collect_addr (me_of w) (rc_snapshot (w_routes w)) (rc_self_lease (w_routes w)) (rc_snapshot_self _ Hwf) (client_addr (w_service w), ∅))
      as [->|Hs']; [|by right]. cbn [fst]. destruct cleared; [left; unfold client_addr; by rewrite Hs|by right].
Qed.

Lemma publish_reconcile_ok w auto lease : rc_wf (w_routes w) -> w_lease w = my_addr_cache (w_service w) ->
  lease = client_addr (w_service w) ->
  client_ok (reconcile_runtime (publish w lease).1 auto) false.
Proof using Hrc.
  intros Hwf Hl ->. unfold publish. pose proof (rc_publish_wf (w_routes w) (client_addr (w_service w)) Hwf) as H1.
  pose proof (rc_publish_lease (w_routes w) (client_addr (w_service w)) Hwf) as H2.
  destruct (rc_publish _ _) as [r ch]. by apply reconcile_ok.
Qed.

Lemma clear_provider_same s p : client_state (clear_provider_state_if_provider_changed s p).1 = client_state s /\
  my_addr_cache (clear_provider_state_if_provider_changed s p).1 = my_addr_cache s.
Proof using.
  unfold clear_provider_state_if_provider_changed, set_provider_state. repeat case_match; cbn; (done || by case_bool_decide).
Qed.
Lemma set_client_spec s next : let '(s', ch) := set_client_state s next in
  client_state s' = next /\ my_addr_cache s' = my_addr_cache s /\ (ch = false -> s' = s).
Proof using. unfold set_client_state. by case_bool_decide. Qed.
Lemma clear_client_spec s p : let '(s', ch) := clear_client_state_if_provider_changed s p in
  my_addr_cache s' = my_addr_cache s /\ (if ch then client_state s' = None /\ is_Some (client_state s) else s' = s).
Proof using.
  unfold clear_client_state_if_provider_changed, set_client_state. destruct (client_state s) eqn:E; [|done].
  case_bool_decide; [|done]. rewrite bool_decide_eq_false_2 by done. by split_and!.
Qed.

(** ** Histories of a client *)

(** A call to the provider that is on its way. *)
Abbreviation call := (option PublicIpv6ClientState * PublicIpv6Provider * bool)%type.
Definition call_cleared (c : option call) : bool := match c with Some (_, _, ch) => ch | None => false end.
Definition with_routes (w : World) (r : rc_state) : World :=
  {| w_service := w_service w; w_routes := r; w_lease := w_lease w; w_events := w_events w |}.
(** An answer without an error has an address. *)
Definition reply_ok (r : option Ipv6PublicAddrLeaseReply) : Prop :=
  match r with Some r => rp_error_msg r = None -> is_Some (rp_leased_addr r) | None => True end.

(** The route layer learns something, and tells the service; the client's loop
    calls the provider and handles its answer, whatever happens in between; the
    node may be a provider itself. *)
Inductive client_step : World * option call -> World * option call -> Prop :=
  | RoutesMove w c r : rc_wf r -> rc_self_lease r = rc_self_lease (w_routes w) -> client_step (w, c) (with_routes w r, c)
  | RoutesTell w c auto : client_step (w, c) ((handle_route_change w auto).1, c)
  | SyncEnds w auto now w' b : sync_begin w auto true now = SyncDone w' b -> client_step (w, None) (w', None)
  | SyncCalls w auto now w' cur p ch :
      sync_begin w auto true now = SyncCall w' cur p ch -> client_step (w, None) (w', Some (cur, p, ch))
  | SyncAnswered w cur p ch auto inst reply now : reply_ok reply ->
      client_step (w, Some (cur, p, ch)) ((sync_end w auto inst cur p ch reply now).1, None)
  | Provides w c me e : client_step (w, c) (with_service w (prov_exec me (w_service w) e), c).

Lemma route_change_ok w auto cleared : client_ok w cleared -> client_ok (handle_route_change w auto).1 cleared.
Proof using Hrc.
  intros [H1 H2 H3 H4]. unfold handle_route_change. set (provider := selected_provider_from_snapshot _).
  destruct (clear_provider_same (w_service w) provider) as [E1 E2]. set (s1 := (clear_provider_state_if_provider_changed _ _).1) in *.
  pose proof (clear_client_spec s1 provider) as Hc. destruct (clear_client_state_if_provider_changed s1 provider) as [s2 ch].
  destruct Hc as [Ea Hc]. unfold client_addr in H3. rewrite <- E1 in H3. destruct ch.
  - destruct Hc as [Hc [st Hst]]. destruct cleared; [congruence|]. unfold publish_current_client_lease.
    pose proof (publish_reconcile_ok (with_service w s2) auto _ H1 ltac:(cbn; congruence) eq_refl) as Hok. by destruct (publish _ _).
  - subst s2. apply (reconcile_ok (with_service w s1) auto cleared); [done|cbn; congruence|done].
Qed.

Lemma with_service_id w : with_service w (w_service w) = w.
Proof using. by destruct w. Qed.
(** A state that has been cleared is announced. *)
Lemma finish_ok w auto s changed : rc_wf (w_routes w) -> w_lease w = my_addr_cache s ->
  (changed = false -> client_ok (with_service w s) false) ->
  client_ok (if (changed : bool) then reconcile_runtime (publish (with_service w s) (client_addr s)).1 auto else with_service w s) false.
Proof using Hrc. intros H1 H2 H3. destruct changed; [by apply publish_reconcile_ok|by apply H3]. Qed.

Lemma clear_lease_ok w auto changed : rc_wf (w_routes w) -> w_lease w = my_addr_cache (w_service w) ->
  (changed = false -> client_ok w false) -> client_ok (clear_client_lease_state w auto changed).1 false.
Proof using Hrc.
  intros H1 H2 H3. unfold clear_client_lease_state. pose proof (set_client_spec (w_service w) None) as Hs.
  destruct (set_client_state (w_service w) None) as [s ch]. destruct Hs as (Ec & Ea & Esame).
  pose proof (finish_ok w auto s (changed || ch) H1 ltac:(congruence)) as Hf.
  assert (client_addr s = None) as Ea' by (unfold client_addr; by rewrite Ec). rewrite Ea' in Hf.
  destruct (changed || ch) eqn:E; [destruct (publish _ _); by apply Hf|]. apply orb_false_iff in E as [-> ->].
  apply Hf. intros _. rewrite (Esame eq_refl), with_service_id. by apply H3.
Qed.

Lemma sync_begin_ok w auto now : client_ok w false ->
  match sync_begin w auto true now with
  | SyncDone w' _ => client_ok w' false
  | SyncCall w' _ _ ch => client_ok w' ch
  end.
Proof using Hrc.
  intros Hok. pose proof Hok as [H1 H2 H3 H4]. unfold sync_begin. destruct auto; cbn [negb].
  - set (provider := selected_provider_from_snapshot _).
    destruct (clear_provider_same (w_service w) provider) as [E1 E2]. set (s1 := (clear_provider_state_if_provider_changed _ _).1) in *.
    pose proof (clear_client_spec s1 provider) as Hc. destruct (clear_client_state_if_provider_changed s1 provider) as [s2 ch].
    destruct Hc as [Ea Hc].
    assert (ch = false -> client_ok (with_service w s2) false) as Hsame.
    { intros ->. subst s2. split; cbn; [done|congruence|unfold client_addr in *; congruence|by rewrite E2]. }
    assert (client_ok (with_service w s2) ch) as Hch.
    { destruct ch; [|by apply Hsame]. split; cbn; [done|congruence|by destruct Hc|by rewrite Ea, E2]. }
    pose proof (clear_lease_ok (with_service w s2) true ch H1 ltac:(cbn; congruence) Hsame) as Hcl.
    destruct provider as [p|]; [|by destruct (clear_client_lease_state _ _ _)].
    destruct (_ =? _); [by destruct (clear_client_lease_state _ _ _)|].
    destruct (negb _) eqn:En; [|exact Hch]. destruct ch; [|by apply Hsame]. exfalso.
    cbn [w_service with_service] in En. destruct Hc as [Hc _]. by rewrite Hc in En.
  - pose proof (clear_client_spec (w_service w) None) as Hc. destruct (clear_client_state_if_provider_changed (w_service w) None) as [s ch].
    destruct Hc as [Ea Hc]. pose proof (clear_lease_ok (with_service w s) false ch H1 ltac:(cbn; congruence)) as Hcl.
    destruct (clear_client_lease_state _ _ _). apply Hcl. intros ->. by rewrite Hc, with_service_id.
Qed.

Lemma sync_end_ok w auto inst cur p ch reply now : client_ok w ch -> reply_ok reply ->
  client_ok (sync_end w auto inst cur p ch reply now).1 false.
Proof using Hrc.
  intros Hok Hr. pose proof Hok as [H1 H2 H3 H4].
  assert (forall s ch2, my_addr_cache s = my_addr_cache (w_service w) -> (ch2 = false -> s = w_service w) ->
    client_ok (if ch || ch2 then let '(w', b) := publish_current_client_lease (with_service w s) in (reconcile_runtime w' auto, b)
               else (with_service w s, false)).1 false) as Hfin.
  { intros s ch2 Ea Es. pose proof (finish_ok w auto s (ch || ch2) H1 ltac:(congruence)) as Hf. unfold publish_current_client_lease.
    destruct (ch || ch2) eqn:E; [cbn [w_service with_service]; destruct (publish _ _); by apply Hf|]. apply Hf. intros _.
    apply orb_false_iff in E as [-> ->]. by rewrite (Es eq_refl), with_service_id. }
  assert (client_ok (sync_end w auto inst cur p ch None now).1 false) as Hfail.
  { unfold sync_end. destruct (match cur with Some st => _ | None => true end).
    - pose proof (set_client_spec (w_service w) None) as Hs. destruct (set_client_state (w_service w) None) as [s ch2].
      destruct Hs as (_ & Ea & Es). by apply Hfin.
    - pose proof (Hfin (w_service w) false eq_refl (fun _ => eq_refl)) as Hf. by rewrite orb_false_r in Hf. }
  destruct reply as [r|]; [|exact Hfail]. unfold sync_end at 1. cbn [reply_ok] in Hr.
  destruct (rp_error_msg r) as [e|]; [exact Hfail|]. destruct (Hr eq_refl) as [addr ->].
  set (next := Some _). pose proof (set_client_spec (w_service w) next) as Hs. destruct (set_client_state (w_service w) next) as [s ch2].
  destruct Hs as (_ & Ea & Es). by apply Hfin.
Qed.

Lemma prov_exec_client me s e : client_state (prov_exec me s e) = client_state s /\ my_addr_cache (prov_exec me s e) = my_addr_cache s.
Proof using.
  assert (forall n, client_state (set_provider_state s n).1 = client_state s /\ my_addr_cache (set_provider_state s n).1 = my_addr_cache s) as Hset.
  { intros n. unfold set_provider_state. by case_bool_decide. }
  destruct e as [[peer inst renew requested reserved now now2|peer inst now|now|] peers]; unfold prov_exec; cbn [fst snd].
  - unfold acquire_lease, acquire_begin, acquire_end. repeat case_match; simplify_eq; try done; apply Hset.
  - unfold release_lease. repeat case_match; try done; apply Hset.
  - unfold gc_provider_leases. set (pr := selected_provider_from_snapshot peers). destruct (clear_provider_same s pr) as [E1 E2].
    set (s1 := (clear_provider_state_if_provider_changed s pr).1) in *. destruct pr as [p|]; [|done]. destruct (negb _); [done|].
    rewrite <- E1, <- E2. unfold set_provider_state. by case_bool_decide.
  - apply clear_provider_same.
Qed.

Lemma client_step_ok x y : client_step x y -> client_ok x.1 (call_cleared x.2) -> client_ok y.1 (call_cleared y.2).
Proof using Hrc.
  intros [w c r Hwf Hl|w c auto|w auto now w' b E|w auto now w' cur p ch E|w cur p ch auto inst reply now Hr|w c me e] Hok; cbn [fst snd] in *.
  - destruct Hok as [H1 H2 H3 H4]. split; cbn; [done|done|by rewrite Hl|by rewrite Hl].
  - by apply route_change_ok.
  - pose proof (sync_begin_ok w auto now Hok) as H. by rewrite E in H.
  - pose proof (sync_begin_ok w auto now Hok) as H. by rewrite E in H.
  - by apply sync_end_ok.
  - destruct Hok as [H1 H2 H3 H4]. destruct (prov_exec_client me (w_service w) e) as [E1 E2].
    split; cbn; [done|congruence| |by rewrite E2]. unfold client_addr in *. by rewrite E1.
Qed.
Lemma client_steps_ok x y : rtc client_step x y -> client_ok x.1 (call_cleared x.2) -> client_ok y.1 (call_cleared y.2).
Proof using Hrc. induction 1; [done|]. eauto using client_step_ok. Qed.
End client.

(** Starting without a lease, in every state that the routes, the client's loop and
    the answers of providers lead to: the runtime uses no address or the one that
    is announced to the network, and what is announced is the lease the client
    holds, unless it has just given one up and waits for an answer. *)
Theorem client_announces_its_lease {n6 : Net6Lib} {rc : RouteControl} {Hrc : RouteControlLaws rc} r w c :
  rc_wf r -> rc_self_lease r = None ->
  rtc client_step ({| w_service := PublicIpv6Service_new; w_routes := r; w_lease := None; w_events := [] |}, None) (w, c) ->
  (w_lease w = None \/ w_lease w = rc_self_lease (w_routes w)) /\ w_lease w = my_addr_cache (w_service w) /\
  (if call_cleared c then client_state (w_service w) = None else rc_self_lease (w_routes w) = client_addr (w_service w)).
Proof.
  intros Hwf Hr Hs. destruct (client_steps_ok _ _ Hs) as [H1 H2 H3 H4].
  - split; cbn; [done|done|done|by left].
  - cbn [fst snd] in *. rewrite H2. by split_and!.
Qed.

(** ** A concrete network *)

Module LeaseExample.
Definition valid6 (p : Z * Z) : Prop := 0 <= p.2 <= 128 /\ 0 <= p.1 /\ p.1 + 2 ^ (128 - p.2) <= 2 ^ 128.
#[export] Instance valid6_dec p : Decision (valid6 p).
Proof. unfold valid6. apply _. Defined.
#[export] Instance net6_lib : Net6Lib := {
  Ipv6Cidr := dsig valid6;
  cidr6_eq_dec := _;
  cidr6_first c := (`c).1;
  cidr6_length c := (`c).2;
  cidr6_contains c a := ((`c).1 <=? a) && (a <? (`c).1 + 2 ^ (128 - (`c).2)) }.
#[export] Instance net6_laws : Net6Laws net6_lib.
Proof.
  assert (forall c : dsig valid6, valid6 (`c)) as Hv by (intros c; apply (proj2_dsig c)).
  split; cbn [cidr6_length cidr6_first cidr6_contains net6_lib Ipv6Cidr].
  - intros c. apply Hv.
  - intros c. destruct (Hv c) as (_ & H1 & H2). done.
  - intros c a. rewrite andb_true_iff, Z.leb_le, Z.ltb_lt. done.
Qed.

(** 2001:db8::/124, with node 1 as the provider and node 2 as another peer. *)
Definition base : Z := 42540766411282592856903984951653826560.
Definition prefix : Ipv6Cidr := dexist (base, 124) (bool_decide_unpack (valid6 (base, 124)) I).
Definition provider : PublicIpv6Provider := {| pv_peer_id := 1; pv_inst_id := 5; pv_prefix := prefix |}.
Definition peers : list PublicIpv6PeerRouteInfo :=
  [{| pi_peer_id := 2; pi_inst_id := Some 9; pi_is_provider := false; pi_prefix := None; pi_lease := None; pi_reachable := true |};
   {| pi_peer_id := 1; pi_inst_id := Some 5; pi_is_provider := true; pi_prefix := Some prefix; pi_lease := None; pi_reachable := true |}].
Lemma provider_selected : selected_provider_from_snapshot peers = Some provider.
Proof. reflexivity. Qed.

Definition granted (r : result LeaseError PublicIpv6ProviderLease) : option Z :=
  match r with Ok l => Some (address l - base) | Err _ => None end.
(** Two instances whose search starts at the same offset. *)
Example one_after_the_other :
  let '(s, r) := acquire_lease 1 peers PublicIpv6Service_new 2 1 false None ∅ 0 0 in
  let '(s, r') := acquire_lease 1 peers s 3 16 false None ∅ 1 1 in
  (granted r, granted r', size (leases_of s)) = (Some 2, Some 3, 2%nat).
Proof. vm_compute. reflexivity. Qed.

(** While the provider waits for the reserved addresses it holds a copy of its
    state: when two clients ask at once, the second answer is computed without
    the first and overwrites it, and both may be given the same address. *)
Example concurrent_grants_collide :
  match acquire_begin 1 peers PublicIpv6Service_new 2 1 false None 0, acquire_begin 1 peers PublicIpv6Service_new 3 16 false None 0 with
  | Collecting st, Collecting st' =>
    let '(s, r) := acquire_end PublicIpv6Service_new st 2 1 ∅ 1 in
    let '(s, r') := acquire_end s st' 3 16 ∅ 1 in
    (granted r, granted r', size (leases_of s)) = (Some 2, Some 2, 1%nat)
  | _, _ => False
  end.
Proof. vm_compute. reflexivity. Qed.

(** A route layer that knows the own entry and those of other peers. *)
#[export] Instance simple_control : RouteControl := {
  rc_state := option Inet6 * list PublicIpv6PeerRouteInfo;
  rc_my_peer_id _ := 2;
  rc_snapshot s := {| pi_peer_id := 2; pi_inst_id := Some 9; pi_is_provider := false; pi_prefix := None; pi_lease := s.1;
                      pi_reachable := true |} :: filter (fun i => pi_peer_id i <> 2) s.2;
  rc_self_lease s := s.1;
  rc_publish s l := ((l, s.2), negb (bool_decide (s.1 = l))) }.
#[export] Program Instance simple_control_laws : RouteControlLaws simple_control := { rc_wf _ := True }.
Next Obligation. done. Qed.
Next Obligation. done. Qed.
Next Obligation. done. Qed.
Next Obligation.
  intros s _. constructor; [done|]. apply Forall_forall. intros i [Hi _]%list_elem_of_filter E. done.
Qed.
Definition client_world : World :=
  {| w_service := PublicIpv6Service_new; w_routes := (None, peers); w_lease := None; w_events := [] |}.
Definition answer : Ipv6PublicAddrLeaseReply :=
  build_lease_reply provider (Some (renewed (alloc_lease ∅ 9 {| i6_address := base + 10; i6_length := 128 |}) 2 0)) None.
(** The world after a call and its answer. *)
Definition synced : World :=
  match sync_begin client_world true true 0 with
  | SyncCall w cur p ch => (sync_end w true 9 cur p ch (Some answer) 1).1
  | SyncDone w _ => w
  end.
Example client_has_address : ((fun a => i6_address a - base) <$> w_lease synced, (fun a => i6_address a - base) <$> (w_routes synced).1) =
  (Some 10, Some 10).
Proof. vm_compute. reflexivity. Qed.
End LeaseExample.
Import LeaseExample.

Lemma lease_exclusive_witness :
  exists s1 l, acquire_lease 1 peers PublicIpv6Service_new 2 1 false None ∅ 0 0 = (s1, Ok l) /\
    forall s3 l3, acquire_lease 1 peers (prov_run 1 s1 [(EvGc 5, peers)]) 3 16 false None ∅ 10 10 = (s3, Ok l3) -> address l3 <> address l.
Proof.
  destruct (acquire_lease 1 peers PublicIpv6Service_new 2 1 false None ∅ 0 0) as [s1 r] eqn:E.
  assert (granted r = Some 2) as Hg by (apply (f_equal (fun x => granted x.2)) in E; cbn [snd] in E; rewrite <- E; vm_compute; reflexivity).
  destruct r as [l|]; [|discriminate Hg]. exists s1, l. split; [reflexivity|].
  assert (ls_valid_until l = 120000) as Hv.
  { apply (f_equal (fun x => match x.2 with Ok l => ls_valid_until l | Err _ => 0 end)) in E. cbn [snd] in E. rewrite <- E. vm_compute. reflexivity. }
  intros s3 l3 E3.
  destruct (lease_exclusive 1 [] provider peers 2 1 false None ∅ 0 0 s1 l provider_selected E [(EvGc 5, peers)]) as (_ & _ & H).
  - constructor; [|constructor]. split; [exact provider_selected|]. cbn. lia.
  - exact (H peers 3 16 false None ∅ 10 10 s3 l3 ltac:(lia) E3).
Defined.

Lemma provider_serves_witness :
  match (acquire_lease 1 peers PublicIpv6Service_new 2 1 false None ∅ 0 0).2 with
  | Ok l => cidr6_contains prefix (address l) = true
  | Err e => e = NoFreeAddress
  end.
Proof.
  pose proof (provider_serves 1 peers provider PublicIpv6Service_new 2 1 ∅ 0 0 provider_selected eq_refl ltac:(reflexivity)
    ltac:(intros l H; discriminate H)) as H.
  destruct (acquire_lease 1 peers PublicIpv6Service_new 2 1 false None ∅ 0 0) as [s' [l|e]]; cbn [snd].
  - apply H.
  - apply H.
Defined.

Lemma client_announces_its_lease_witness :
  rtc client_step (client_world, None) (synced, None) /\ w_lease synced = my_addr_cache (w_service synced).
Proof.
  assert (rtc client_step (client_world, None) (synced, None)) as Hr.
  { unfold synced. destruct (sync_begin client_world true true 0) as [w b|w cur p ch] eqn:E.
    - apply rtc_once. by eapply SyncEnds.
    - eapply rtc_l; [by eapply SyncCalls|]. apply rtc_once. apply SyncAnswered. intros _. by eexists. }
  split; [exact Hr|].
  destruct (client_announces_its_lease (rc:=simple_control) (Hrc:=simple_control_laws) (None, peers) synced None I eq_refl Hr) as (_ & H & _). exact H.
Defined.
