(* ===== verification/Dhcp.v ===== *)
(** Automatic IPv4 addresses: [gateway/dhcp.rs].

    A node without a configured address takes a free one of the subnet its peers
    use.  The types of the [cidr] crate are the class [InetLib]; which element a
    hash set gives first is [set_first]. *)

From stdpp Require Import list gmap.
From S2P Require Import Prelude.
Local Open Scope Z_scope.

(** [Ipv4Inet] and [Ipv4Cidr]; iterating a network gives [net_at] of the addresses
    from the first to the last. *)
Class InetLib := {
  Inet : Type; Net : Type;
  inet_eq_dec : EqDecision Inet; inet_countable : Countable Inet; net_eq_dec : EqDecision Net;
  in_address : Inet -> Z; in_network : Inet -> Net; in_network_length : Inet -> Z;
  net_first : Net -> Z; net_last : Net -> Z; net_at : Net -> Z -> Inet;
  default_subnet_inet : Inet;
  set_first : gset Inet -> option Inet }.
#[export] Existing Instance inet_eq_dec.
#[export] Existing Instance inet_countable.
#[export] Existing Instance net_eq_dec.
Class InetLaws (il : InetLib) := {
  net_at_address n a : net_first n <= a <= net_last n -> in_address (net_at n a) = a;
  net_at_network n a : net_first n <= a <= net_last n -> in_network (net_at n a) = n;
  set_first_some s x : set_first s = Some x -> x ∈ s;
  set_first_none s : set_first s = None -> s = ∅ }.

Section dhcp.
Context {il : InetLib}.

Inductive DhcpIpv4Decision := WaitForPeers | Unchanged | Change (previous next : option Inet).
Record DhcpIpv4Allocator := { default_subnet : Inet; dhcp_current : option Inet }.
(** 10.126.126.0/24 by default. *)
Definition DhcpIpv4Allocator_default : DhcpIpv4Allocator :=
  {| default_subnet := default_subnet_inet; dhcp_current := None |}.
Definition dhcp_reset (a : DhcpIpv4Allocator) : DhcpIpv4Allocator :=
  {| default_subnet := default_subnet a; dhcp_current := None |}.
Definition dhcp_commit (a : DhcpIpv4Allocator) (next : option Inet) : DhcpIpv4Allocator :=
  {| default_subnet := default_subnet a; dhcp_current := next |}.

(** The search goes on past the two ends of the network and the used addresses. *)
Definition candidate_ok (n : Net) (used : gset Inet) (a : Z) : bool :=
  negb (a =? net_first n) && negb (a =? net_last n) && bool_decide (net_at n a ∉ used).
Fixpoint find_candidate (fuel : nat) (n : Net) (used : gset Inet) (a : Z) : option Inet :=
  if net_last n <? a then None else
  if candidate_ok n used a then Some (net_at n a) else
  match fuel with O => None | S fuel => find_candidate fuel n used (a + 1) end.

Definition subnet_of (a : DhcpIpv4Allocator) (used : gset Inet) : Net :=
  in_network (default (default_subnet a) (set_first used)).
Definition evaluate (a : DhcpIpv4Allocator) (has_routes : bool) (used : gset Inet) : DhcpIpv4Decision :=
  if negb has_routes then WaitForPeers else
  let n := subnet_of a used in
  if match dhcp_current a with
     | Some c => bool_decide (in_network c = n) && bool_decide (c ∉ used)
     | None => false
     end then Unchanged else
  let next := find_candidate (S (S (size used))) n used (net_first n) in
  if bool_decide (dhcp_current a = next) then Unchanged else Change (dhcp_current a) next.

(** ** The service *)

Record DhcpIpv4RouteSnapshot := { has_routes : bool; used_ipv4 : gset Inet }.
(** What the host did: the address it has now, and whether it succeeded. *)
Record DhcpIpv4ApplyOutcome := { apply_actual : option Inet; apply_ok : bool }.
(** The allocator, the address in the configuration of the peer (with its length),
    and what was published. *)
Record DhcpIpv4Service := {
  allocator : DhcpIpv4Allocator; config_ipv4 : option (Z * Z);
  published : list (option Inet * option Inet * option Inet) }.

(** [closed], [snapshot] and [apply] are what the host and the routes answer. *)
Definition reconcile_once (s : DhcpIpv4Service) (closed : bool) (snapshot : DhcpIpv4RouteSnapshot)
    (apply : option Inet -> option Inet -> DhcpIpv4ApplyOutcome) : DhcpIpv4Service * bool :=
  let alloc := if closed then dhcp_reset (allocator s) else allocator s in
  match evaluate alloc (has_routes snapshot) (used_ipv4 snapshot) with
  | Change previous next =>
    let o := apply previous next in
    let config := (fun i => (in_address i, in_network_length i)) <$> apply_actual o in
    if apply_ok o then
      ({| allocator := dhcp_commit alloc (apply_actual o); config_ipv4 := config;
          published := published s ++ [(previous, next, apply_actual o)] |}, has_routes snapshot)
    else ({| allocator := alloc; config_ipv4 := config; published := published s |}, has_routes snapshot)
  | _ => ({| allocator := alloc; config_ipv4 := config_ipv4 s; published := published s |}, has_routes snapshot)
  end.
End dhcp.

(** ** The search *)

Section search.
Context {il : InetLib} {Hil : InetLaws il} (n : Net) (used : gset Inet).

(** An address that a host may have. *)
Definition host_address (x : Z) : Prop := net_first n < x < net_last n.

Lemma candidate_spec a : net_first n <= a <= net_last n -> candidate_ok n used a = true <-> host_address a /\ net_at n a ∉ used.
Proof using.
  intros Ha. unfold candidate_ok, host_address. rewrite !andb_true_iff, !negb_true_iff, !Z.eqb_neq, bool_decide_eq_true.
  split; [intros [[H1 H2] H3]; split; [lia|done]|intros [H1 H2]; split_and!; [lia|lia|done]].
Qed.

Lemma find_some fuel : forall a c, net_first n <= a -> find_candidate fuel n used a = Some c ->
  exists x, c = net_at n x /\ host_address x /\ c ∉ used.
Proof using.
  induction fuel as [|fuel IH]; intros a c Ha; cbn [find_candidate];
    (destruct (net_last n <? a) eqn:El; bools; [done|]); (destruct (candidate_ok n used a) eqn:Ec).
  1, 3: intros [= <-]; apply candidate_spec in Ec as [H1 H2]; [by exists a|lia].
  - done.
  - apply IH. lia.
Qed.

(** The addresses passed over, and how many they can be. *)
Lemma passed_counted a : net_first n <= a <= net_last n + 1 ->
  (forall x, net_first n <= x < a -> candidate_ok n used x = false) -> a - net_first n <= Z.of_nat (size used) + 2.
Proof using Hil.
  intros Ha Hall. set (k := Z.to_nat (a - net_first n)).
  set (l := map (fun i => net_at n (net_first n + Z.of_nat i)) (seq 0 k)).
  assert (NoDup l) as Hnd.
  { apply NoDup_fmap_2_strong; [|apply NoDup_seq]. intros x y Hx%elem_of_seq Hy%elem_of_seq E.
    apply (f_equal in_address) in E. rewrite !net_at_address in E by lia. lia. }
  assert (size (list_to_set l : gset Inet) = k) as Hk.
  { rewrite size_list_to_set by done. unfold l. by rewrite length_map, length_seq. }
  assert ((list_to_set l : gset Inet) ⊆ {[net_at n (net_first n); net_at n (net_last n)]} ∪ used) as Hsub.
  { intros i Hi. apply elem_of_list_to_set, list_elem_of_fmap in Hi as (j & -> & Hj%elem_of_seq).
    specialize (Hall (net_first n + Z.of_nat j) ltac:(lia)). set (x := net_first n + Z.of_nat j) in *.
    destruct (decide (x = net_first n)) as [->|H1]; [apply elem_of_union_l, elem_of_union_l, elem_of_singleton; done|].
    destruct (decide (x = net_last n)) as [->|H2]; [apply elem_of_union_l, elem_of_union_r, elem_of_singleton; done|].
    destruct (decide (net_at n x ∈ used)) as [H3|H3]; [by apply elem_of_union_r|].
    exfalso. apply not_true_iff_false in Hall. apply Hall, candidate_spec; [lia|]. split; [unfold host_address; lia|done]. }
  apply subseteq_size in Hsub. rewrite Hk in Hsub.
  pose proof (size_union_alt {[net_at n (net_first n); net_at n (net_last n)]} used) as Hu.
  assert (size (used ∖ {[net_at n (net_first n); net_at n (net_last n)]}) <= size used)%nat by (apply subseteq_size; intros x Hx; by apply elem_of_difference in Hx as [? _]).
  assert (size ({[net_at n (net_first n); net_at n (net_last n)]} : gset Inet) <= 2)%nat.
  { pose proof (size_union_alt ({[net_at n (net_first n)]} : gset Inet) {[net_at n (net_last n)]}) as H1. rewrite size_singleton in H1.
    assert (size ({[net_at n (net_last n)]} ∖ {[net_at n (net_first n)]} : gset Inet) <= 1)%nat; [|lia].
    rewrite <- (size_singleton (C:=gset Inet) (net_at n (net_last n))). apply subseteq_size. intros x Hx. by apply elem_of_difference in Hx as [? _]. }
  lia.
Qed.

Lemma find_none fuel : forall a, net_first n <= a <= net_last n + 1 ->
  (forall x, net_first n <= x < a -> candidate_ok n used x = false) ->
  Z.of_nat (size used) + 2 <= Z.of_nat fuel + (a - net_first n) -> find_candidate fuel n used a = None ->
  forall x, net_first n <= x <= net_last n -> candidate_ok n used x = false.
Proof using Hil.
  induction fuel as [|fuel IH]; intros a Ha Hall Hf; cbn [find_candidate];
    (destruct (net_last n <? a) eqn:El; bools; [intros _ x Hx; apply Hall; lia|]); (destruct (candidate_ok n used a) eqn:Ec; [done|]);
    (assert (forall x, net_first n <= x < a + 1 -> candidate_ok n used x = false) as Hall'
      by (intros x Hx; destruct (decide (x = a)) as [->|]; [done|apply Hall; lia])).
  - pose proof (passed_counted (a + 1) ltac:(lia) Hall'). lia.
  - apply IH; [lia|done|lia].
Qed.
End search.

(** ** Theorems *)

Section theorems.
Context {il : InetLib} {Hil : InetLaws il}.

(** An address of the subnet in use that no peer has, or none when all are taken. *)
Definition proper_choice (a : DhcpIpv4Allocator) (used : gset Inet) (c : option Inet) : Prop :=
  match c with
  | Some c => in_network c = subnet_of a used /\ c ∉ used
  | None => forall x, host_address (subnet_of a used) x -> net_at (subnet_of a used) x ∈ used
  end.

Lemma find_proper a used : proper_choice a used (find_candidate (S (S (size used))) (subnet_of a used) used (net_first (subnet_of a used))).
Proof using Hil.
  set (n := subnet_of a used). destruct (find_candidate _ n used (net_first n)) as [c|] eqn:E; cbn.
  - apply find_some in E as (x & -> & Hx & Hn); [|lia]. unfold host_address in Hx. fold n. split; [|done]. apply (net_at_network n x). lia.
  - fold n. intros x Hx. destruct (decide (net_at n x ∈ used)) as [|Hn]; [done|exfalso]. unfold host_address in Hx.
    assert (candidate_ok n used x = false) as H.
    { eapply (find_none n used); [| | |exact E|]; [lia|intros y Hy; lia|lia|lia]. }
    apply not_true_iff_false in H. apply H, candidate_spec; [lia|done].
Qed.

Lemma evaluate_spec a used : match evaluate a true used with
  | WaitForPeers => False
  | Unchanged => proper_choice a used (dhcp_current a)
  | Change previous next => previous = dhcp_current a /\ proper_choice a used next /\
      evaluate (dhcp_commit a next) true used = Unchanged
  end.
Proof using Hil.
  unfold evaluate. cbn [negb]. pose proof (find_proper a used) as Hp.
  set (n := subnet_of a used) in *. set (next := find_candidate _ n used _) in *.
  assert (match (if bool_decide (dhcp_current a = next) then Unchanged else Change (dhcp_current a) next) with
    | WaitForPeers => False
    | Unchanged => proper_choice a used (dhcp_current a)
    | Change previous nxt => previous = dhcp_current a /\ proper_choice a used nxt /\
        evaluate (dhcp_commit a nxt) true used = Unchanged end) as Hrest.
  { case_bool_decide as E; [by rewrite E|]. split_and!; [done|done|]. unfold evaluate. cbn [negb].
    change (subnet_of (dhcp_commit a next) used) with n. cbn [dhcp_current dhcp_commit].
    destruct next as [c|] eqn:En.
    - destruct Hp as [Hn Hu]. fold n in Hn. by rewrite !bool_decide_eq_true_2.
    - fold next in En. subst next. rewrite En. by rewrite bool_decide_eq_true_2. }
  destruct (dhcp_current a) as [c|] eqn:Ec; [|exact Hrest].
  destruct (bool_decide (in_network c = n)) eqn:E1; [|exact Hrest]. destruct (bool_decide (c ∉ used)) eqn:E2; [|exact Hrest].
  cbn [andb]. split; [by apply bool_decide_eq_true in E1|by apply bool_decide_eq_true in E2].
Qed.

Definition config_of (c : option Inet) : option (Z * Z) := (fun i => (in_address i, in_network_length i)) <$> c.
End theorems.

(** One round settles the address.  When there are routes and the host applies what
    it is asked to, the node then has an address of the subnet in use that no peer
    has, or none if all are taken; the configuration shows it; and another round
    with the same routes changes nothing.  When the host fails, the configuration
    shows what the host reports, nothing is published, and the next round asks for
    the same change. *)
Theorem dhcp_settles `{il : InetLib, !InetLaws il} s closed snapshot apply :
  has_routes snapshot = true ->
  let alloc := if (closed : bool) then dhcp_reset (allocator s) else allocator s in
  let s' := (reconcile_once s closed snapshot apply).1 in
  ((forall p n, apply p n = {| apply_actual := n; apply_ok := true |}) ->
     proper_choice (allocator s') (used_ipv4 snapshot) (dhcp_current (allocator s')) /\
     (config_ipv4 s = config_of (dhcp_current alloc) -> config_ipv4 s' = config_of (dhcp_current (allocator s'))) /\
     forall apply', reconcile_once s' false snapshot apply' = (s', true)) /\
  (forall p n, evaluate alloc true (used_ipv4 snapshot) = Change p n -> apply_ok (apply p n) = false ->
     config_ipv4 s' = config_of (apply_actual (apply p n)) /\ published s' = published s /\
     evaluate (allocator s') true (used_ipv4 snapshot) = Change p n).
Proof.
  intros Hr alloc. unfold reconcile_once. fold alloc. rewrite Hr. pose proof (evaluate_spec alloc (used_ipv4 snapshot)) as He.
  destruct (evaluate alloc true (used_ipv4 snapshot)) as [| |previous next] eqn:Ev; cbn [fst].
  - done.
  - split; [|intros p n [=]]. intros Hap. cbn [allocator config_ipv4 published]. split_and!; [done|done|]. intros apply'. by rewrite Ev.
  - destruct He as (-> & Hp & Hu). split.
    + intros Hap. rewrite Hap. cbn [apply_ok apply_actual fst allocator config_ipv4 published].
      split_and!; [done|done|]. intros apply'. by rewrite Hu.
    + intros p n [= <- <-] Hok. rewrite Hok. cbn [fst allocator config_ipv4 published]. by split_and!.
Qed.

(** ** Addresses as pairs *)

Module ConcreteInet.
Definition len_ok (i : Z * Z) : Prop := 0 <= i.2 <= 32.
#[export] Instance len_ok_dec i : Decision (len_ok i).
Proof. unfold len_ok. apply _. Defined.
Definition inet : Type := dsig len_ok.
(** A network by its number among those of its length. *)
Definition block (l : Z) : Z := 2 ^ (32 - l).
Definition inet_of (a l : Z) : inet :=
  match decide (len_ok (a, l)) with left H => dexist (a, l) H | right _ => dexist (a, 0) (bool_decide_unpack (len_ok (a, 0)) I) end.

#[export] Instance lib : InetLib := {
  Inet := inet; Net := inet;
  inet_eq_dec := _; inet_countable := _; net_eq_dec := _;
  in_address i := (`i).1;
  in_network i := inet_of ((`i).1 / block (`i).2) (`i).2;
  in_network_length i := (`i).2;
  net_first n := (`n).1 * block (`n).2;
  net_last n := ((`n).1 + 1) * block (`n).2 - 1;
  net_at n a := inet_of a (`n).2;
  default_subnet_inet := inet_of 176095232 24;
  set_first s := head (elements s) }.

Lemma inet_of_eq a l : len_ok (a, l) -> proj1_sig (inet_of a l) = (a, l).
Proof. intros H. unfold inet_of. destruct (decide (len_ok (a, l))); [done|]. by destruct n. Qed.
#[export] Instance laws : InetLaws lib.
Proof.
  assert (forall i : inet, len_ok (`i)) as Hv by (intros i; apply (proj2_dsig i)).
  assert (forall (i : inet) a, proj1_sig (inet_of a (`i).2) = (a, (`i).2)) as Hi.
  { intros i a. apply inet_of_eq. unfold len_ok. cbn. apply (Hv i). }
  split; cbn [in_address in_network net_first net_last net_at set_first lib Inet Net].
  - intros n a _. by rewrite Hi.
  - intros n a Ha. rewrite !Hi. cbn [fst snd]. apply dsig_eq. rewrite Hi.
    assert (0 < block (`n).2) as Hb by (unfold block; apply Z.pow_pos_nonneg; [lia|]; destruct (Hv n); lia).
    assert (a / block (`n).2 = (`n).1) as ->; [|by destruct (`n)].
    symmetry. apply (Z.div_unique a (block (`n).2) (`n).1 (a - (`n).1 * block (`n).2)); [left; lia|lia].
  - intros s x H. apply elem_of_elements. assert (head (elements s) = Some x) as H' by exact H. clear H.
    destruct (elements s) as [|y l]; [done|]. injection H' as ->. apply elem_of_cons. by left.
  - intros s H. assert (head (elements s) = None) as H' by exact H. clear H.
    destruct (elements s) as [|y l] eqn:E; [|done]. apply elements_empty_inv in E. by apply leibniz_equiv.
Qed.

(** 10.126.126.1/24 and 10.126.126.2/16 are in use. *)
Definition used : gset Inet := {[inet_of 176095233 24; inet_of 176095234 16]}.
Definition found : option (Z * Z) := (fun i : inet => `i) <$> find_candidate 4 (in_network (inet_of 176095233 24)) used 176095232.
(** The used addresses are compared with their prefix lengths: an address that a
    peer has with another length counts as free. *)
Example address_with_other_length_granted : found = Some (176095234, 24).
Proof. vm_compute. reflexivity. Qed.
Definition idle : DhcpIpv4Service := {| allocator := DhcpIpv4Allocator_default; config_ipv4 := None; published := [] |}.
End ConcreteInet.
Import ConcreteInet.

Lemma dhcp_settles_witness :
  let s' := (reconcile_once ConcreteInet.idle false {| has_routes := true; used_ipv4 := ConcreteInet.used |}
    (fun _ n => {| apply_actual := n; apply_ok := true |})).1 in
  proper_choice (allocator s') ConcreteInet.used (dhcp_current (allocator s')).
Proof.
  destruct (dhcp_settles ConcreteInet.idle false {| has_routes := true; used_ipv4 := ConcreteInet.used |}
    (fun _ n => {| apply_actual := n; apply_ok := true |}) eq_refl) as [H _].
  destruct (H (fun p n => eq_refl)) as [H' _]. exact H'.
Defined.
