(* ===== verification/PeerConns.v ===== *)
(** Connections of a peer and the map of peers: [peers/conn/peer.rs] and
    [peers/conn/peer_map.rs], with the ingress of packets from [peers/mod.rs].

    A [Peer] holds the connections to one remote node, one of which is the
    cached default for sending; a [PeerMap] holds the peers, the routes that
    it asks for next hops, and the urls of its client connections.  The [Arc]
    of a connection is identified by its connection id; latency, liveness and
    the sink of a connection change outside of this component and are the
    class [ConnEnv].  What a send puts on a connection, or back into the node's
    own receive channel, is a value of [Sent]. *)
From stdpp Require Import list gmap sorting.
From S2P Require Import Prelude Headers Packet RouteMessages RouteTable RouteSync.
Local Open Scope Z_scope.

(** ** Where a packet comes from *)

Inductive PeerConnectionOrigin := Network | Attached.
#[export] Instance PeerConnectionOrigin_eq_dec : EqDecision PeerConnectionOrigin.
Proof. solve_decision. Defined.

Inductive PeerPacketIngress :=
  | Local
  | FromPeer (peer_id conn_id : Z) (origin : PeerConnectionOrigin).

Definition ingress_is_attached (i : PeerPacketIngress) : bool :=
  match i with FromPeer _ _ Attached => true | _ => false end.
Definition ingress_peer_connection (i : PeerPacketIngress) : option (Z * Z) :=
  match i with Local => None | FromPeer p c _ => Some (p, c) end.

(** ** Errors *)

Inductive PeerError :=
  | WaitRespError | SecretKeyError | PeerNoConnectionError (peer_id : Z) | RouteError | NotFound
  | TunnelFailed | Other.

(** ** Connections *)

(** What [Peer] and [PeerMap] read of a [PeerConn] and its [PeerConnInfo];
    [pc_remote_url] is [tunnel?.remote_addr?]. *)
Record PeerConn := {
  pc_conn_id : Z; pc_peer_id : Z; pc_identity_type : PeerIdentityType;
  pc_noise_remote_static_pubkey : list Z;
  pc_is_hole_punched : bool; pc_origin : PeerConnectionOrigin;
  pc_is_client : bool; pc_remote_url : option (list Z) }.
#[export] Instance PeerConn_eq_dec : EqDecision PeerConn.
Proof. solve_decision. Defined.

Definition pc_is_attached (c : PeerConn) : bool := bool_decide (pc_origin c = Attached).

Class ConnEnv := {
  latency_us : Z -> Z;
  conn_is_closed : Z -> bool;
  sink_ok : Z -> ZCPacket -> bool }.

(** What leaves the node on a connection, and what is sent to itself. *)
Inductive Sent :=
  | OnConn (peer_id conn_id : Z) (p : ZCPacket)
  | ToSelf (p : ZCPacket).

(** ** A peer *)

(** [close_events] is the content of the channel to the close listener. *)
Record Peer := {
  peer_node_id : Z; peer_conns : gmap Z PeerConn; default_conn : option PeerConn;
  peer_identity_type : option PeerIdentityType; peer_public_key : option (list Z);
  close_events : list Z }.

Definition with_default (P : Peer) (d : option PeerConn) : Peer :=
  {| peer_node_id := peer_node_id P; peer_conns := peer_conns P; default_conn := d;
     peer_identity_type := peer_identity_type P; peer_public_key := peer_public_key P;
     close_events := close_events P |}.
Definition with_conns (P : Peer) (m : gmap Z PeerConn) : Peer :=
  {| peer_node_id := peer_node_id P; peer_conns := m; default_conn := default_conn P;
     peer_identity_type := peer_identity_type P; peer_public_key := peer_public_key P;
     close_events := close_events P |}.
Definition with_identity (P : Peer) (t : option PeerIdentityType) (k : option (list Z)) : Peer :=
  {| peer_node_id := peer_node_id P; peer_conns := peer_conns P; default_conn := default_conn P;
     peer_identity_type := t; peer_public_key := k; close_events := close_events P |}.
Definition with_close_events (P : Peer) (l : list Z) : Peer :=
  {| peer_node_id := peer_node_id P; peer_conns := peer_conns P; default_conn := default_conn P;
     peer_identity_type := peer_identity_type P; peer_public_key := peer_public_key P;
     close_events := l |}.

Definition Peer_new (id : Z) : Peer :=
  {| peer_node_id := id; peer_conns := ∅; default_conn := None; peer_identity_type := None;
     peer_public_key := None; close_events := [] |}.

(** A zero latency on a hole-punched connection sorts after everything else. *)
Definition conn_latency_sort_key (latency : Z) (is_hole_punched : bool) : bool * Z :=
  (is_hole_punched && (latency =? 0), latency).
(** [Ord] of [(bool, u64)]. *)
Definition key_lt (a b : bool * Z) : bool :=
  match a.1, b.1 with
  | false, true => true
  | true, false => false
  | _, _ => a.2 <? b.2
  end.

(** The checks of [add_peer_conn], up to the first await. *)
Definition add_check (P : Peer) (c : PeerConn) : Peer * result PeerError unit :=
  let store_key (P : Peer) :=
    match peer_public_key P with
    | Some k => if negb (bool_decide (k = pc_noise_remote_static_pubkey c))
                then (P, Err SecretKeyError) else (P, Ok tt)
    | None => (with_identity P (peer_identity_type P) (Some (pc_noise_remote_static_pubkey c)), Ok tt)
    end in
  match peer_identity_type P with
  | Some t => if negb (bool_decide (t = pc_identity_type c)) then (P, Err SecretKeyError)
              else store_key P
  | None => store_key (with_identity P (Some (pc_identity_type c)) (peer_public_key P))
  end.
(** The rest of it, after the receive loop was started. *)
Definition add_insert (P : Peer) (c : PeerConn) : Peer :=
  with_conns P (<[pc_conn_id c := c]> (peer_conns P)).
Definition add_peer_conn (P : Peer) (c : PeerConn) : Peer * result PeerError unit :=
  match add_check P c with
  | (P, Err e) => (P, Err e)
  | (P, Ok _) => (add_insert P c, Ok tt)
  end.

(** The close listener on one event: the removed connection is announced. *)
Definition handle_close_event (P : Peer) (id : Z) : Peer * option PeerConn :=
  match peer_conns P !! id with
  | None => (P, None)
  | Some c =>
    let P := with_conns P (delete id (peer_conns P)) in
    let P := match default_conn P with
             | Some d => if bool_decide (pc_conn_id d = pc_conn_id c) then with_default P None else P
             | None => P
             end in
    let P := if bool_decide (peer_conns P = ∅) then with_identity P None None else P in
    (P, Some c)
  end.
Definition close_listener (P : Peer) : Peer * option PeerConn :=
  match close_events P with
  | [] => (P, None)
  | id :: l => handle_close_event (with_close_events P l) id
  end.
(** The task that forgets the default every 5 s. *)
Definition default_conn_clear (P : Peer) : Peer :=
  if (1 <? size (peer_conns P))%nat then with_default P None else P.

Definition close_peer_conn (P : Peer) (id : Z) : Peer * result PeerError unit :=
  match peer_conns P !! id with
  | None => (P, Err NotFound)
  | Some _ => (with_close_events P (close_events P ++ [id]), Ok tt)
  end.

Definition get_default_conn_id (P : Peer) : Z :=
  match default_conn P with Some c => pc_conn_id c | None => 0 end.

Section peer.
Context {O : HashOrder} {E : ConnEnv}.

Definition conn_values (P : Peer) : list PeerConn := (hash_iter (peer_conns P)).*2.

Definition conn_key (c : PeerConn) : bool * Z :=
  conn_latency_sort_key (latency_us (pc_conn_id c)) (pc_is_hole_punched c).
(** [Iterator::min_by_key]: the first of the least. *)
Definition min_conn (l : list PeerConn) : option PeerConn :=
  foldl (fun best c =>
    match best with
    | None => Some c
    | Some b => if key_lt (conn_key c) (conn_key b) then Some c else Some b
    end) None l.

Definition select_conn (P : Peer) : Peer * option PeerConn :=
  match default_conn P with
  | Some c => (P, Some c)
  | None =>
    match min_conn (conn_values P) with
    | Some c => (with_default P (Some c), Some c)
    | None => (P, None)
    end
  end.

(** [PeerConn::send_msg]. *)
Definition conn_send (P : Peer) (c : PeerConn) (msg : ZCPacket) : list Sent * result PeerError unit :=
  if sink_ok (pc_conn_id c) msg then ([OnConn (peer_node_id P) (pc_conn_id c) msg], Ok tt)
  else ([], Err TunnelFailed).

Definition Peer_send_msg (P : Peer) (msg : ZCPacket) : Peer * (list Sent * result PeerError unit) :=
  match default_conn P with
  | Some c => (P, conn_send P c msg)
  | None =>
    match select_conn P with
    | (P, None) => (P, ([], Err (PeerNoConnectionError (peer_node_id P))))
    | (P, Some c) => (P, conn_send P c msg)
    end
  end.

Definition has_live_conns (P : Peer) : bool :=
  existsb (fun c => negb (conn_is_closed (pc_conn_id c))) (conn_values P).
Definition has_directly_connected_conn (P : Peer) : bool :=
  existsb (fun c => negb (conn_is_closed (pc_conn_id c)) && negb (pc_is_hole_punched c)) (conn_values P).
Definition has_direct_attached_conn (P : Peer) : bool :=
  existsb (fun c => negb (conn_is_closed (pc_conn_id c)) && negb (pc_is_hole_punched c)
                      && pc_is_attached c) (conn_values P).
Definition get_directly_connections (P : Peer) : gset Z :=
  list_to_set (pc_conn_id <$> filter (fun c => pc_is_hole_punched c = false) (conn_values P)).

(** The connections that are open; the closed ones are handed to the listener. *)
Fixpoint list_conns_from (P : Peer) (l : list PeerConn) : Peer * list PeerConn :=
  match l with
  | [] => (P, [])
  | c :: l =>
    if negb (conn_is_closed (pc_conn_id c))
    then let '(P, r) := list_conns_from P l in (P, c :: r)
    else list_conns_from (close_peer_conn P (pc_conn_id c)).1 l
  end.
Definition list_peer_conns (P : Peer) : Peer * list PeerConn := list_conns_from P (conn_values P).
End peer.

(** ** Routes, as the peer map asks them *)

Record CoreRoute := { cr_peer_id : Z; cr_next_hop_peer_id : Z; cr_ipv4_addr : option Z }.

(** The trait [Route]: what the answers are at the moment of a call. *)
Record Route := {
  r_get_next_hop_with_policy : Z -> NextHopPolicy -> option Z;
  r_list_routes : list CoreRoute;
  r_get_peer_id_by_ipv4 : Z -> option Z;
  r_get_peer_id_by_ipv6 : Z -> option Z;
  r_get_peer_info : Z -> option RoutePeerInfo;
  r_get_origin_my_peer_id : list Z -> Z -> option Z;
  r_get_public_ipv6_gateway_peer_id : option Z;
  r_get_peer_groups : Z -> list (list Z) }.

Definition r_get_peer_id_by_ip (r : Route) (ip : Z + Z) : option Z :=
  match ip with
  | inl a => r_get_peer_id_by_ipv4 r a
  | inr a => r_get_peer_id_by_ipv6 r a
  end.

(** ** The map of peers *)

Record PeerMap := {
  pm_my_peer_id : Z; pm_peers : gmap Z Peer; pm_routes : list Route;
  alive_client_urls : gmap (list Z) (gset Z) }.

Definition with_peers (M : PeerMap) (m : gmap Z Peer) : PeerMap :=
  {| pm_my_peer_id := pm_my_peer_id M; pm_peers := m; pm_routes := pm_routes M;
     alive_client_urls := alive_client_urls M |}.
Definition with_routes (M : PeerMap) (l : list Route) : PeerMap :=
  {| pm_my_peer_id := pm_my_peer_id M; pm_peers := pm_peers M; pm_routes := l;
     alive_client_urls := alive_client_urls M |}.
Definition with_urls (M : PeerMap) (u : gmap (list Z) (gset Z)) : PeerMap :=
  {| pm_my_peer_id := pm_my_peer_id M; pm_peers := pm_peers M; pm_routes := pm_routes M;
     alive_client_urls := u |}.
Definition put_peer (M : PeerMap) (P : Peer) (id : Z) : PeerMap :=
  with_peers M (<[id := P]> (pm_peers M)).

Definition PeerMap_new (me : Z) : PeerMap :=
  {| pm_my_peer_id := me; pm_peers := ∅; pm_routes := []; alive_client_urls := ∅ |}.

Definition maintain_alive_client_urls (M : PeerMap) (c : PeerConn) : PeerMap :=
  if negb (pc_is_client c) then M else
  match pc_remote_url c with
  | None => M
  | Some u =>
    with_urls M (<[u := {[pc_conn_id c]} ∪ default ∅ (alive_client_urls M !! u)]> (alive_client_urls M))
  end.
(** The task that it spawns, once the connection is closed. *)
Definition client_conn_closed (M : PeerMap) (u : list Z) (conn_id : Z) : PeerMap :=
  match alive_client_urls M !! u with
  | None => M
  | Some ids =>
    let ids := ids ∖ {[conn_id]} in
    with_urls M (if bool_decide (ids = ∅) then delete u (alive_client_urls M)
                 else <[u := ids]> (alive_client_urls M))
  end.
Definition is_client_url_alive (M : PeerMap) (u : list Z) : bool :=
  bool_decide (is_Some (alive_client_urls M !! u)).

Definition add_new_peer_conn (M : PeerMap) (c : PeerConn) : PeerMap * result PeerError unit :=
  let M := maintain_alive_client_urls M c in
  let id := pc_peer_id c in
  match pm_peers M !! id with
  | None =>
    match add_peer_conn (Peer_new id) c with
    | (_, Err e) => (M, Err e)
    | (P, Ok _) => (put_peer M P id, Ok tt)
    end
  | Some P => let '(P, r) := add_peer_conn P c in (put_peer M P id, r)
  end.

Definition get_peer_by_id (M : PeerMap) (id : Z) : option Peer := pm_peers M !! id.
Definition has_peer (M : PeerMap) (id : Z) : bool :=
  (id =? pm_my_peer_id M) || bool_decide (is_Some (pm_peers M !! id)).
Definition is_self (M : PeerMap) (id : Z) : bool := id =? pm_my_peer_id M.

(** The first of the routes that answers. *)
Fixpoint first_route {A} (l : list Route) (f : Route -> option A) : option A :=
  match l with
  | [] => None
  | r :: l => match f r with Some a => Some a | None => first_route l f end
  end.

Definition get_gateway_peer_id (M : PeerMap) (dst : Z) (policy : NextHopPolicy) : option Z :=
  if dst =? pm_my_peer_id M then Some dst else
  if has_peer M dst && match policy with LeastHop => true | LeastCost => false end then Some dst else
  first_route (pm_routes M) (fun r => r_get_next_hop_with_policy r dst policy).

Definition PeerMap_get_peer_id_by_ipv4 (M : PeerMap) (a : Z) : option Z :=
  first_route (pm_routes M) (fun r => r_get_peer_id_by_ipv4 r a).
Definition PeerMap_get_peer_id_by_ipv6 (M : PeerMap) (a : Z) : option Z :=
  first_route (pm_routes M) (fun r => r_get_peer_id_by_ipv6 r a).
Definition get_route_peer_info (M : PeerMap) (id : Z) : option RoutePeerInfo :=
  first_route (pm_routes M) (fun r => r_get_peer_info r id).
Definition get_origin_my_peer_id (M : PeerMap) (name : list Z) (id : Z) : option Z :=
  first_route (pm_routes M) (fun r => r_get_origin_my_peer_id r name id).

Definition PeerMap_close_peer_conn (M : PeerMap) (id conn_id : Z) : PeerMap * result PeerError unit :=
  match get_peer_by_id M id with
  | None => (M, Err NotFound)
  | Some P => let '(P, r) := close_peer_conn P conn_id in (put_peer M P id, r)
  end.
Definition close_peer (M : PeerMap) (id : Z) : PeerMap := with_peers M (delete id (pm_peers M)).
Definition add_route (M : PeerMap) (r : Route) : PeerMap := with_routes M (r :: pm_routes M).

(** A later route overrides an earlier one. *)
Definition PeerMap_list_routes (M : PeerMap) : gmap Z Z :=
  foldl (fun acc r => foldl (fun acc i => <[cr_peer_id i := cr_next_hop_peer_id i]> acc) acc
                        (r_list_routes r)) ∅ (pm_routes M).
Definition list_route_infos (M : PeerMap) : list CoreRoute :=
  match pm_routes M with r :: _ => r_list_routes r | [] => [] end.

Definition need_relay_by_foreign_network (M : PeerMap) (dst : Z) : result PeerError bool :=
  match get_gateway_peer_id M dst LeastHop with
  | None => Err RouteError
  | Some g => Ok (negb (has_peer M g))
  end.

Section peer_map.
Context {O : HashOrder} {E : ConnEnv}.

Definition list_peers (M : PeerMap) : list Z := (hash_iter (pm_peers M)).*1.
Definition list_peers_with_conn (M : PeerMap) : list Z :=
  (filter (fun i => has_live_conns i.2 = true) (hash_iter (pm_peers M))).*1.

Definition has_direct_attached_peer (M : PeerMap) (id : Z) : bool :=
  match get_peer_by_id M id with Some P => has_direct_attached_conn P | None => false end.

Definition PeerMap_send_msg_directly (M : PeerMap) (msg : ZCPacket) (dst : Z)
    : PeerMap * (list Sent * result PeerError unit) :=
  if dst =? pm_my_peer_id M then (M, ([ToSelf msg], Ok tt)) else
  match get_peer_by_id M dst with
  | Some P => let '(P, r) := Peer_send_msg P msg in (put_peer M P dst, r)
  | None => (M, ([], Err RouteError))
  end.

Definition PeerMap_send_msg (M : PeerMap) (msg : ZCPacket) (dst : Z) (policy : NextHopPolicy)
    : PeerMap * (list Sent * result PeerError unit) :=
  match get_gateway_peer_id M dst policy with
  | None => (M, ([], Err RouteError))
  | Some g => PeerMap_send_msg_directly M msg g
  end.

Definition PeerMap_list_peer_conns (M : PeerMap) (id : Z) : PeerMap * option (list PeerConn) :=
  match get_peer_by_id M id with
  | None => (M, None)
  | Some P => let '(P, l) := list_peer_conns P in (put_peer M P id, Some l)
  end.

Definition clear_resources (M : PeerMap) : PeerMap :=
  let M := foldl close_peer M (list_peers M) in
  with_urls (with_routes M []) ∅.

(** The first pass lists the peers without an open connection. *)
Fixpoint peers_without_conn (M : PeerMap) (l : list Z) : PeerMap * list Z :=
  match l with
  | [] => (M, [])
  | id :: l =>
    let '(M, conns) := PeerMap_list_peer_conns M id in
    let '(M, r) := peers_without_conn M l in
    (M, match conns with Some (_ :: _) => r | _ => id :: r end)
  end.
Definition clean_peer_without_conn (M : PeerMap) : PeerMap :=
  let '(M, to_remove) := peers_without_conn M (list_peers M) in
  foldl close_peer M to_remove.

(** [direct_peer_info]: the lowest latency per peer of several maps, in
    milliseconds and at least one.  [latency as u32] truncates. *)
Definition least_latency (l : list PeerConn) : option Z :=
  foldr (fun c acc => let x := latency_us (pc_conn_id c) in
    Some (match acc with Some y => Z.min x y | None => x end)) None l.
Fixpoint first_conns (Ms : list PeerMap) (id : Z) : list PeerMap * option (list PeerConn) :=
  match Ms with
  | [] => ([], None)
  | M :: Ms =>
    match PeerMap_list_peer_conns M id with
    | (M, Some l) => (M :: Ms, Some l)
    | (M, None) => let '(Ms, r) := first_conns Ms id in (M :: Ms, r)
    end
  end.
Fixpoint direct_peer_info_from (Ms : list PeerMap) (ids : list Z) (acc : gmap Z Z)
    : list PeerMap * gmap Z Z :=
  match ids with
  | [] => (Ms, acc)
  | id :: ids =>
    let '(Ms, conns) := first_conns Ms id in
    match least_latency (default [] conns) with
    | None => direct_peer_info_from Ms ids acc
    | Some x => direct_peer_info_from Ms ids (<[id := Z.max 1 (wrap 32 x / 1000)]> acc)
    end
  end.
Definition direct_peer_info (Ms : list PeerMap) : list PeerMap * gmap Z Z :=
  direct_peer_info_from Ms (merge_sort Z.le (elements (list_to_set (concat (list_peers <$> Ms)) : gset Z))) ∅.
End peer_map.
