(* ===== verification/PeerConnsProofs.v ===== *)
(** Theorems on the connections of a peer: along every interleaving of adding,
    closing, selecting and clearing, the cached default connection is one of
    the peer's connections, a send uses the connection of least latency, and
    connections added one at a time share one identity and one key; and a race
    of an addition with the last close that breaks the latter. *)
From stdpp Require Import list gmap relations.
From S2P Require Import Prelude Headers Packet RouteMessages RouteTable RouteSync PeerConns.
Local Open Scope Z_scope.

(** ** What happens to a peer *)

(** A peer and the connections that passed [add_check] and are not inserted. *)
Record PeerRun := { run_peer : Peer; run_adding : list PeerConn }.

Definition known_ids (s : PeerRun) : list Z :=
  (map_to_list (peer_conns (run_peer s))).*1 ++ (pc_conn_id <$> run_adding s).

(** [split] allows an addition to be interrupted after its checks. *)
Inductive peer_step (split : bool) : PeerRun -> PeerRun -> Prop :=
  | step_check P l c P' : split = true -> pc_conn_id c ∉ known_ids {| run_peer := P; run_adding := l |} ->
      add_check P c = (P', Ok tt) ->
      peer_step split {| run_peer := P; run_adding := l |} {| run_peer := P'; run_adding := c :: l |}
  | step_insert P l1 c l2 :
      peer_step split {| run_peer := P; run_adding := l1 ++ c :: l2 |}
        {| run_peer := add_insert P c; run_adding := l1 ++ l2 |}
  | step_add P l c P' r : pc_conn_id c ∉ known_ids {| run_peer := P; run_adding := l |} ->
      add_peer_conn P c = (P', r) ->
      peer_step split {| run_peer := P; run_adding := l |} {| run_peer := P'; run_adding := l |}
  | step_watcher P l id :
      peer_step split {| run_peer := P; run_adding := l |}
        {| run_peer := with_close_events P (close_events P ++ [id]); run_adding := l |}
  | step_close P l id :
      peer_step split {| run_peer := P; run_adding := l |}
        {| run_peer := (close_peer_conn P id).1; run_adding := l |}
  | step_listener P l :
      peer_step split {| run_peer := P; run_adding := l |}
        {| run_peer := (close_listener P).1; run_adding := l |}
  | step_clear P l :
      peer_step split {| run_peer := P; run_adding := l |}
        {| run_peer := default_conn_clear P; run_adding := l |}
  | step_send (O : HashOrder) (E : ConnEnv) P l msg :
      peer_step split {| run_peer := P; run_adding := l |}
        {| run_peer := (Peer_send_msg P msg).1; run_adding := l |}
  | step_list (O : HashOrder) (E : ConnEnv) P l :
      peer_step split {| run_peer := P; run_adding := l |}
        {| run_peer := (list_peer_conns P).1; run_adding := l |}.

Definition peer_history (split : bool) (id : Z) : PeerRun -> Prop :=
  rtc (peer_step split) {| run_peer := Peer_new id; run_adding := [] |}.

(** ** The invariants *)

Record conns_ok (P : Peer) : Prop := {
  ok_keyed : forall i c, peer_conns P !! i = Some c -> pc_conn_id c = i;
  ok_default : forall c, default_conn P = Some c -> peer_conns P !! pc_conn_id c = Some c }.

Definition same_identity (P : Peer) : Prop := forall i c, peer_conns P !! i = Some c ->
  peer_identity_type P = Some (pc_identity_type c) /\
  peer_public_key P = Some (pc_noise_remote_static_pubkey c).

(** ** Selection *)

Section selection.
Context {O : HashOrder} {E : ConnEnv}.

Lemma conn_values_elem P c : conns_ok P ->
  c ∈ conn_values P <-> peer_conns P !! pc_conn_id c = Some c.
Proof.
  intros [Hk _]. unfold conn_values. rewrite hash_iter_perm. split.
  - intros [[i c'] [-> Hin]]%list_elem_of_fmap. apply elem_of_map_to_list in Hin.
    cbn. by rewrite (Hk _ _ Hin).
  - intros Hl. apply list_elem_of_fmap. exists (pc_conn_id c, c).
    split; [done|by apply elem_of_map_to_list].
Qed.

Lemma key_lt_irrefl a : key_lt a a = false.
Proof. destruct a as [[] x]; unfold key_lt; cbn; apply Z.ltb_irrefl. Qed.
Lemma key_lt_trans a b c : key_lt a b = true -> key_lt b c = true -> key_lt a c = true.
Proof.
  destruct a as [[] x], b as [[] y], c as [[] z]; unfold key_lt; cbn; try done;
    rewrite !Z.ltb_lt; lia.
Qed.
Lemma key_lt_total a b : key_lt a b = false -> key_lt b a = false -> a = b.
Proof.
  destruct a as [[] x], b as [[] y]; unfold key_lt; cbn; try done; rewrite !Z.ltb_ge;
    intros; f_equal; lia.
Qed.
Lemma key_le_trans a b c : key_lt b a = false -> key_lt c b = false -> key_lt c a = false.
Proof.
  intros H1 H2. apply not_true_is_false. intros H3.
  destruct (key_lt a b) eqn:E1; [rewrite (key_lt_trans _ _ _ H3 E1) in H2; done|].
  rewrite (key_lt_total _ _ E1 H1) in H3. congruence.
Qed.

Lemma min_conn_from l best : let fold := foldl (fun best c =>
    match best with
    | None => Some c
    | Some b => if key_lt (conn_key c) (conn_key b) then Some c else Some b
    end) in
  exists m, fold (Some best) l = Some m /\ (m = best \/ m ∈ l) /\
    key_lt (conn_key best) (conn_key m) = false /\
    forall c, c ∈ l -> key_lt (conn_key c) (conn_key m) = false.
Proof.
  intros fold. subst fold. revert best. induction l as [|x l IH]; intros best.
  - exists best. split_and!; [done|by left|apply key_lt_irrefl|by intros c ?%elem_of_nil].
  - cbn [foldl]. destruct (key_lt (conn_key x) (conn_key best)) eqn:Ex.
    + destruct (IH x) as (m & Hm & Hin & Hle & Hall). exists m. split_and!; [done| | |].
      * right. destruct Hin as [->|?]; [apply list_elem_of_here|by apply list_elem_of_further].
      * eapply key_le_trans; [exact Hle|]. apply not_true_is_false. intros Hc.
        pose proof (key_lt_trans _ _ _ Hc Ex) as Hbb. by rewrite key_lt_irrefl in Hbb.
      * intros c [->|Hc]%elem_of_cons; [done|by apply Hall].
    + destruct (IH best) as (m & Hm & Hin & Hle & Hall). exists m. split_and!; [done| |done|].
      * destruct Hin as [->|?]; [by left|right; by apply list_elem_of_further].
      * intros c [->|Hc]%elem_of_cons; [|by apply Hall].
        eapply key_le_trans; [exact Hle|exact Ex].
Qed.

Lemma min_conn_spec l :
  match min_conn l with
  | None => l = []
  | Some m => m ∈ l /\ forall c, c ∈ l -> key_lt (conn_key c) (conn_key m) = false
  end.
Proof.
  destruct l as [|x l]; [done|]. unfold min_conn. cbn [foldl].
  destruct (min_conn_from l x) as (m & -> & Hin & Hle & Hall). split.
  - destruct Hin as [->|?]; [apply list_elem_of_here|by apply list_elem_of_further].
  - intros c [->|Hc]%elem_of_cons; [done|by apply Hall].
Qed.
End selection.

(** ** Every step keeps the invariants *)

Section steps.
Context {O : HashOrder} {E : ConnEnv}.

Lemma add_check_same P c P' r : add_check P c = (P', r) ->
  peer_conns P' = peer_conns P /\ default_conn P' = default_conn P /\ close_events P' = close_events P.
Proof. unfold add_check. intros. repeat case_match; simplify_eq/=; done. Qed.

(** After the checks the peer has the identity and the key of the connection,
    and it had no others before. *)
Lemma add_check_identity P c P' : add_check P c = (P', Ok tt) ->
  peer_identity_type P' = Some (pc_identity_type c) /\
  peer_public_key P' = Some (pc_noise_remote_static_pubkey c) /\
  (forall t, peer_identity_type P = Some t -> t = pc_identity_type c) /\
  (forall k, peer_public_key P = Some k -> k = pc_noise_remote_static_pubkey c).
Proof.
  unfold add_check. intros. repeat case_match; simplify_eq/=; bools;
    repeat match goal with H : bool_decide _ = true |- _ => apply bool_decide_eq_true in H end;
    subst; split_and!; intros; congruence.
Qed.

Lemma add_check_ok P c P' r : conns_ok P -> add_check P c = (P', r) -> conns_ok P'.
Proof.
  intros [Hk Hd] (E1 & E2 & _)%add_check_same. split; [by rewrite E1|by rewrite E1, E2].
Qed.

(** A failed check leaves an identity that was there, or takes one of a peer
    without connections. *)
Lemma add_check_keeps_identity P c P' r : same_identity P -> add_check P c = (P', r) -> same_identity P'.
Proof.
  intros Hs Hc i c0 Hi. destruct (add_check_same _ _ _ _ Hc) as (E1 & _ & _). rewrite E1 in Hi.
  destruct (Hs i c0 Hi) as [Ht Hk]. unfold add_check in Hc. rewrite Ht, Hk in Hc.
  repeat case_match; simplify_eq/=; done.
Qed.

Lemma add_insert_ok P c : conns_ok P -> peer_conns P !! pc_conn_id c = None -> conns_ok (add_insert P c).
Proof.
  intros [Hk Hd] Hn. split; cbn.
  - intros i c0. rewrite lookup_insert_Some. intros [[<- <-]|[_ Hi]]; [done|by apply Hk].
  - intros d Hdef. apply Hd in Hdef. rewrite lookup_insert_ne; [done|].
    intros Heq. rewrite Heq, Hdef in Hn. done.
Qed.

Lemma close_event_ok P id : conns_ok P -> conns_ok (handle_close_event P id).1.
Proof.
  intros [Hk Hd]. unfold handle_close_event. destruct (peer_conns P !! id) as [c|] eqn:Ec; [|by split].
  pose proof (Hk _ _ Ec) as <-.
  assert (Hkd : forall i x, delete (pc_conn_id c) (peer_conns P) !! i = Some x -> pc_conn_id x = i)
    by (intros i x [_ Hi]%lookup_delete_Some; by apply Hk).
  assert (Hdd : forall x, default_conn P = Some x -> pc_conn_id x <> pc_conn_id c ->
    delete (pc_conn_id c) (peer_conns P) !! pc_conn_id x = Some x)
    by (intros x Hx Hne; rewrite lookup_delete_ne by congruence; by apply Hd).
  destruct (default_conn P) as [d|] eqn:Edef; cbn; rewrite ?Edef.
  - case_bool_decide; cbn; case_bool_decide; split; cbn; try done; rewrite ?Edef;
      intros; simplify_eq; by apply Hdd.
  - case_bool_decide; split; cbn; try done; rewrite ?Edef; done.
Qed.

Lemma close_event_conns P id : peer_conns (handle_close_event P id).1 = delete id (peer_conns P).
Proof.
  unfold handle_close_event. destruct (peer_conns P !! id) as [c|] eqn:Ec;
    [|cbn; by rewrite delete_id].
  cbn. destruct (default_conn P); cbn; repeat case_bool_decide; done.
Qed.

Lemma close_event_identity P id : same_identity P -> same_identity (handle_close_event P id).1.
Proof.
  intros Hs i x. rewrite close_event_conns. intros [Hne Hi]%lookup_delete_Some.
  destruct (Hs i x Hi) as [Ht Hk]. unfold handle_close_event.
  destruct (peer_conns P !! id) as [c|] eqn:Ec; [|done].
  assert (Hnonempty : delete id (peer_conns P) <> ∅).
  { intros He. assert (Hl : delete id (peer_conns P) !! i = Some x) by by rewrite lookup_delete_ne.
    by rewrite He, lookup_empty in Hl. }
  cbn. destruct (default_conn P); cbn; repeat case_bool_decide; cbn; try done.
Qed.

Lemma select_ok P : conns_ok P -> conns_ok (select_conn P).1.
Proof.
  intros HP. unfold select_conn. destruct (default_conn P) eqn:Ed; [done|].
  pose proof (min_conn_spec (conn_values P)) as Hm. destruct (min_conn _) as [m|]; [|done].
  destruct Hm as [Hin _]. rewrite conn_values_elem in Hin by done.
  split; cbn; [apply HP|]. intros c Hc. by simplify_eq.
Qed.

Lemma send_state P msg : (Peer_send_msg P msg).1 = (select_conn P).1.
Proof.
  unfold Peer_send_msg. destruct (default_conn P) eqn:Ed.
  - unfold select_conn. by rewrite Ed.
  - by destruct (select_conn P) as [P' [c|]].
Qed.

Lemma select_same P : peer_conns (select_conn P).1 = peer_conns P /\
  peer_identity_type (select_conn P).1 = peer_identity_type P /\
  peer_public_key (select_conn P).1 = peer_public_key P.
Proof. unfold select_conn. repeat case_match; done. Qed.

Lemma close_conn_same P id : exists l, (close_peer_conn P id).1 = with_close_events P l.
Proof.
  unfold close_peer_conn. destruct (peer_conns P !! id); [by eexists|].
  exists (close_events P). by destruct P.
Qed.

Lemma list_conns_same l : forall P, exists q, (list_conns_from P l).1 = with_close_events P q.
Proof.
  induction l as [|c l IH]; intros P; cbn.
  - exists (close_events P). by destruct P.
  - destruct (conn_is_closed _); cbn.
    + destruct (close_conn_same P (pc_conn_id c)) as [q ->].
      destruct (IH (with_close_events P q)) as [q' ->]. by exists q'.
    + destruct (IH P) as [q Hq]. destruct (list_conns_from P l). by exists q.
Qed.
End steps.

(** ** Along every history *)

Record run_ok (s : PeerRun) : Prop := {
  ro_conns : conns_ok (run_peer s);
  ro_nodup : NoDup (pc_conn_id <$> run_adding s);
  ro_fresh : forall c, c ∈ run_adding s -> peer_conns (run_peer s) !! pc_conn_id c = None }.

Lemma fresh_lookup P l c : pc_conn_id c ∉ known_ids {| run_peer := P; run_adding := l |} ->
  peer_conns P !! pc_conn_id c = None /\ pc_conn_id c ∉ pc_conn_id <$> l.
Proof.
  unfold known_ids; cbn. rewrite not_elem_of_app. intros [H1 H2]. split; [|done].
  destruct (peer_conns P !! pc_conn_id c) as [x|] eqn:Ex; [|done]. destruct H1.
  apply list_elem_of_fmap. exists (pc_conn_id c, x). split; [done|by apply elem_of_map_to_list].
Qed.

(** Only the two ways of adding bring in connections. *)
Lemma run_ok_shrink P P' l : run_ok {| run_peer := P; run_adding := l |} -> conns_ok P' ->
  peer_conns P' ⊆ peer_conns P -> run_ok {| run_peer := P'; run_adding := l |}.
Proof.
  intros [_ Hn Hf] Hok Hsub. split; [done|done|]. intros c Hc. cbn in *.
  destruct (peer_conns P' !! pc_conn_id c) eqn:Ex; [|done].
  pose proof (lookup_weaken _ _ _ _ Ex Hsub) as Hw. by rewrite (Hf c Hc) in Hw.
Qed.

Lemma conns_ok_events P l : conns_ok P -> conns_ok (with_close_events P l).
Proof. intros [? ?]. by split. Qed.

Lemma peer_step_ok split s s' : peer_step split s s' -> run_ok s -> run_ok s'.
Proof.
  intros Hstep Hok. pose proof (ro_conns _ Hok) as HP.
  destruct Hstep as [P l c P' _ Hnew Hc|P l1 c l2|P l c P' r Hnew Ha|P l id|P l id|P l|P l|O E P l msg|O E P l];
    cbn in HP.
  - destruct (fresh_lookup _ _ _ Hnew) as [Hn Hl]. destruct Hok as [_ Hnd Hf]. cbn in *.
    destruct (add_check_same _ _ _ _ Hc) as (E1 & _ & _).
    split; cbn; [by eapply add_check_ok| |].
    + by apply NoDup_cons.
    + rewrite E1. intros c0 [->|H0]%elem_of_cons; [done|by apply Hf].
  - destruct Hok as [_ Hnd Hf]. cbn in *. rewrite fmap_app, fmap_cons in Hnd.
    assert (Hc0 : peer_conns P !! pc_conn_id c = None)
      by (apply Hf, elem_of_app; right; apply list_elem_of_here).
    apply NoDup_app in Hnd as (N1 & N2 & [N3 N4]%NoDup_cons). split; cbn.
    + by apply add_insert_ok.
    + rewrite fmap_app. apply NoDup_app. split_and!; [done| |done].
      intros x Hx Hx2. apply (N2 x Hx). by apply list_elem_of_further.
    + intros c0 H0. rewrite lookup_insert_ne.
      { apply Hf. apply elem_of_app in H0 as [?|?]; apply elem_of_app; [by left|right].
        by apply list_elem_of_further. }
      intros Heq. apply elem_of_app in H0 as [H1|H1]; apply (list_elem_of_fmap_2 pc_conn_id) in H1.
      * apply (N2 _ H1). rewrite <- Heq. apply list_elem_of_here.
      * by rewrite <- Heq in H1.
  - destruct (fresh_lookup _ _ _ Hnew) as [Hn Hl]. unfold add_peer_conn in Ha.
    destruct (add_check P c) as [P1 [[]|e]] eqn:Ec; simplify_eq;
      destruct (add_check_same _ _ _ _ Ec) as (E1 & _ & _).
    + split; cbn; [apply add_insert_ok; [by eapply add_check_ok|by rewrite E1]|apply Hok|].
      intros c0 H0. rewrite lookup_insert_ne, E1; [by apply (ro_fresh _ Hok)|].
      intros Heq. apply Hl. rewrite Heq. by apply list_elem_of_fmap_2.
    + eapply run_ok_shrink; [exact Hok|by eapply add_check_ok|by rewrite E1].
  - eapply run_ok_shrink; [exact Hok|by apply conns_ok_events|done].
  - destruct (close_conn_same P id) as [q ->].
    eapply run_ok_shrink; [exact Hok|by apply conns_ok_events|done].
  - unfold close_listener. destruct (close_events P) as [|id q]; [done|].
    eapply run_ok_shrink; [exact Hok|by apply close_event_ok, conns_ok_events|].
    rewrite close_event_conns. apply delete_subseteq.
  - unfold default_conn_clear. destruct (_ <? _)%nat; [|done].
    eapply run_ok_shrink; [exact Hok|split; [apply HP|done]|done].
  - rewrite send_state. eapply run_ok_shrink; [exact Hok|by apply select_ok|].
    by rewrite (proj1 (select_same P)).
  - unfold list_peer_conns. destruct (list_conns_same (conn_values P) P) as [q ->].
    eapply run_ok_shrink; [exact Hok|by apply conns_ok_events|done].
Qed.

Lemma run_ok_new id : run_ok {| run_peer := Peer_new id; run_adding := [] |}.
Proof.
  split; cbn; [split; cbn; [by intros i c ?%lookup_empty_Some|done]|constructor|by intros c ?%elem_of_nil].
Qed.

Lemma peer_history_ok split id s : peer_history split id s -> run_ok s.
Proof.
  intros Hr. apply (rtc_ind_r (fun s => run_ok s) _ (run_ok_new id)) in Hr; [done|].
  intros y z _ Hyz Hy. by eapply peer_step_ok.
Qed.

Lemma peer_step_identity s s' : peer_step false s s' ->
  run_adding s = [] /\ same_identity (run_peer s) -> run_adding s' = [] /\ same_identity (run_peer s').
Proof.
  intros Hstep [Hl HP].
  destruct Hstep as [|P l1 c l2|P l c P' r Hnew Ha|P l id|P l id|P l|P l|O E P l msg|O E P l];
    cbn in *; try done.
  - by destruct l1.
  - split; [done|]. unfold add_peer_conn in Ha.
    destruct (add_check P c) as [P1 [[]|e]] eqn:Ec; simplify_eq;
      pose proof (add_check_keeps_identity _ _ _ _ HP Ec) as H1; [|done].
    destruct (add_check_identity _ _ _ Ec) as (Ht & Hk & _ & _).
    intros i x. cbn. rewrite lookup_insert_Some. intros [[_ <-]|[_ Hi]]; [done|by apply (H1 i)].
  - split; [done|]. by destruct (close_conn_same P id) as [q ->].
  - split; [done|]. unfold close_listener. destruct (close_events P); [done|].
    by apply close_event_identity.
  - split; [done|]. unfold default_conn_clear. by destruct (_ <? _)%nat.
  - split; [done|]. rewrite send_state. destruct (select_same P) as (E1 & E2 & E3).
    intros i x. rewrite E1, E2, E3. apply HP.
  - split; [done|]. unfold list_peer_conns.
    by destruct (list_conns_same (conn_values P) P) as [q ->].
Qed.

Lemma history_identity id s : peer_history false id s -> same_identity (run_peer s).
Proof.
  intros Hr. assert (H : run_adding s = [] /\ same_identity (run_peer s)); [|apply H].
  apply (rtc_ind_r (R := peer_step false) (fun s => run_adding s = [] /\ same_identity (run_peer s))
    {| run_peer := Peer_new id; run_adding := [] |}); [|intros y z _ Hyz Hy; by eapply peer_step_identity|exact Hr].
  split; [done|]. intros i c Hi. cbn in Hi. by apply lookup_empty_Some in Hi.
Qed.

(** What a send does to a peer whose cache is sound. *)
Lemma send_spec {O : HashOrder} {E : ConnEnv} P msg P' out r : conns_ok P ->
  Peer_send_msg P msg = (P', (out, r)) ->
  match default_conn P' with
  | None => peer_conns P = ∅ /\ out = [] /\ r = Err (PeerNoConnectionError (peer_node_id P))
  | Some c => peer_conns P !! pc_conn_id c = Some c /\ (out, r) = conn_send P c msg /\
      (default_conn P = None -> forall c', peer_conns P !! pc_conn_id c' = Some c' ->
        key_lt (conn_key c') (conn_key c) = false)
  end.
Proof.
  intros HP Hs. unfold Peer_send_msg in Hs. destruct (default_conn P) as [d|] eqn:Ed.
  - injection Hs as <- Hout. rewrite Ed. split_and!; [by apply HP|done|done].
  - unfold select_conn in Hs. rewrite Ed in Hs.
    pose proof (min_conn_spec (conn_values P)) as Hm. destruct (min_conn (conn_values P)) as [m|].
    + injection Hs as <- Hout. cbn. destruct Hm as [Hin Hall]. rewrite conn_values_elem in Hin by done.
      split_and!; [done|done|]. intros _ c' Hc'. apply Hall. by apply conn_values_elem.
    + injection Hs as <- <- <-. rewrite Ed. split_and!; [|done|done].
      apply map_empty. intros i. destruct (peer_conns P !! i) as [c|] eqn:Ec; [|done].
      pose proof (ok_keyed _ HP _ _ Ec) as Hi. rewrite <- Hi in Ec.
      apply conn_values_elem in Ec; [|done]. rewrite Hm in Ec. by apply elem_of_nil in Ec.
Qed.

(** ** The property, with a concrete peer *)

(** C24. In every interleaving of additions (interrupted after their checks or
    not), closes, timer ticks, sends and listings, the cached default of a
    peer is one of its connections, so that a send either uses a connection
    that is there or reports that there is none; without a cached default it
    uses one of least latency, an unverified hole-punched path only when there
    is nothing else.  When additions are not interrupted, all connections of a
    peer have the identity type and the public key that the peer reports. *)
Theorem peer_connections_sound {O : HashOrder} {E : ConnEnv} (split : bool) (id : Z) (s : PeerRun)
    (msg : ZCPacket) (P' : Peer) (out : list Sent) (r : result PeerError unit) :
  peer_history split id s -> Peer_send_msg (run_peer s) msg = (P', (out, r)) ->
  match default_conn P' with
  | None => peer_conns (run_peer s) = ∅ /\ out = [] /\
      r = Err (PeerNoConnectionError (peer_node_id (run_peer s)))
  | Some c => peer_conns (run_peer s) !! pc_conn_id c = Some c /\
      (out, r) = conn_send (run_peer s) c msg /\
      (default_conn (run_peer s) = None ->
       forall c', peer_conns (run_peer s) !! pc_conn_id c' = Some c' ->
         key_lt (conn_key c') (conn_key c) = false)
  end /\
  (split = false -> forall i c, peer_conns (run_peer s) !! i = Some c ->
     peer_identity_type (run_peer s) = Some (pc_identity_type c) /\
     peer_public_key (run_peer s) = Some (pc_noise_remote_static_pubkey c)).
Proof.
  intros Hh Hs. split.
  - eapply send_spec; [by eapply ro_conns, peer_history_ok|exact Hs].
  - intros ->. by apply history_identity in Hh.
Qed.

Module TwoConns.
#[local] Instance order : HashOrder :=
  {| hash_iter := fun K V _ _ m => map_to_list m;
     hash_iter_perm := fun K V _ _ m => Permutation_refl (map_to_list m) |}.
(** Connection 1 was punched and has no measured latency, 2 has 20 ms. *)
#[local] Instance env : ConnEnv :=
  {| latency_us := fun c => if c =? 1 then 0 else 20000; conn_is_closed := fun _ => false;
     sink_ok := fun _ _ => true |}.
Definition conn (id : Z) (key : list Z) (punched : bool) : PeerConn :=
  {| pc_conn_id := id; pc_peer_id := 7; pc_identity_type := Admin;
     pc_noise_remote_static_pubkey := key; pc_is_hole_punched := punched; pc_origin := Network;
     pc_is_client := false; pc_remote_url := None |}.
Definition two : Peer := (add_peer_conn (add_peer_conn (Peer_new 7) (conn 1 [5] true)).1 (conn 2 [5] false)).1.

Lemma two_history : peer_history false 7 {| run_peer := two; run_adding := [] |}.
Proof.
  eapply rtc_l; [refine (step_add _ (Peer_new 7) [] (conn 1 [5] true) _ (Ok tt) _ _);
    [apply (bool_decide_unpack _); vm_compute; reflexivity|vm_compute; reflexivity]|].
  eapply rtc_l; [|apply rtc_refl].
  refine (step_add _ _ [] (conn 2 [5] false) _ (Ok tt) _ _);
    [apply (bool_decide_unpack _); vm_compute; reflexivity|vm_compute; reflexivity].
Defined.

Lemma peer_connections_sound_witness : exists c,
  default_conn (Peer_send_msg two new_nic_packet).1 = Some c /\ pc_conn_id c = 2 /\
  peer_conns two !! pc_conn_id c = Some c.
Proof.
  exists (conn 2 [5] false). split; [vm_compute; reflexivity|]. split; [reflexivity|].
  pose proof (@peer_connections_sound order env false 7 _ new_nic_packet (with_default two (Some (conn 2 [5] false)))
    [OnConn 7 2 new_nic_packet] (Ok tt) two_history ltac:(vm_compute; reflexivity)) as [H _].
  exact (proj1 H).
Defined.

(** An addition that passed its checks against connection 1 while 1, the last
    connection, is closed: the peer forgets its key and takes a connection
    with another one. *)
Definition raced : Peer :=
  let P := (add_peer_conn (Peer_new 7) (conn 1 [5] false)).1 in
  let P := (add_check P (conn 2 [5] false)).1 in
  let P := (handle_close_event P 1).1 in
  let P := add_insert P (conn 2 [5] false) in
  (add_peer_conn P (conn 3 [6] false)).1.
Example two_keys_for_one_peer :
  (pc_noise_remote_static_pubkey <$> peer_conns raced !! 2) = Some [5] /\
  (pc_noise_remote_static_pubkey <$> peer_conns raced !! 3) = Some [6] /\
  peer_public_key raced = Some [6].
Proof. vm_compute. done. Qed.
Lemma raced_history : exists s, peer_history true 7 s /\ run_peer s = raced.
Proof.
  exists {| run_peer := raced; run_adding := [] |}. split; [|done].
  eapply rtc_l; [refine (step_add _ (Peer_new 7) [] (conn 1 [5] false) _ (Ok tt) _ _);
    [apply (bool_decide_unpack _); vm_compute; reflexivity|vm_compute; reflexivity]|].
  eapply rtc_l; [refine (step_check _ _ [] (conn 2 [5] false) _ eq_refl _ _);
    [apply (bool_decide_unpack _); vm_compute; reflexivity|vm_compute; reflexivity]|].
  eapply rtc_l; [apply (step_watcher _ _ _ 1)|]. eapply rtc_l; [apply step_listener|].
  eapply rtc_l; [apply (step_insert _ _ [] (conn 2 [5] false) [])|].
  eapply rtc_l; [|apply rtc_refl].
  refine (step_add _ _ _ (conn 3 [6] false) _ (Ok tt) _ _);
    [apply (bool_decide_unpack _); vm_compute; reflexivity|vm_compute; reflexivity].
Qed.
End TwoConns.
