(* ===== verification/RelayPeerMap.v ===== *)
(** Sessions with peers that are reached through others:
    [peers/relay_peer_map.rs] and [peers/foreign_network/client.rs].

    In secure mode a packet for a peer without a connection is sealed with the
    session of that peer; while there is none it is buffered and a handshake of
    two messages is run through the relays.  The awaits of a handshake cut it
    into functions: what the task does before it waits for the answer
    ([handshake_begin], [attempt_send]), what the answer does
    ([attempt_receive]) and what follows ([attempt_failed],
    [attempt_succeeded]); [handle_relay_msg1] is the responder.  The noise and
    protobuf crates are the classes [NoiseLib] and [RelayPb]. *)
From stdpp Require Import list gmap strings.
From S2P Require Import Prelude Headers Packet Encrypt ReplayWindow SecureDatagram PeerSession.
From S2P Require Import RouteMessages RouteTable RouteSync PeerConns.
Local Open Scope Z_scope.

(** ** A state monad over computations that can panic *)

Definition act (S A : Type) : Type := S -> comp (S * A).
#[export] Instance act_ret S : MRet (act S) := fun A a s => Ret (s, a).
#[export] Instance act_bind S : MBind (act S) := fun A B f m s =>
  match m s with Ret (s, a) => f a s | Panic => Panic end.
Definition gets {S A} (f : S -> A) : act S A := fun s => Ret (s, f s).
Definition modify {S} (f : S -> S) : act S unit := fun s => Ret (f s, tt).
Definition lift {S A} (m : comp A) : act S A := fun s => a ← m; Ret (s, a).

Lemma act_bind_Ret {S A B} (m : act S A) (f : A -> act S B) s s1 a :
  m s = Ret (s1, a) -> (m ≫= f) s = f a s1.
Proof. intros E. unfold mbind, act_bind. by rewrite E. Qed.

(** ** Constants, state *)

Definition RELAY_NOISE_VERSION : Z := 1.
Definition HANDSHAKE_RETRY_BASE_MS : Z := 200.
Definition HANDSHAKE_MAX_ATTEMPTS : Z := 3.
Definition MAX_PENDING_PACKETS_PER_PEER : nat := 32.

Record RelayPeerState := {
  last_active_at : Z; failure_count : Z; next_retry_at : option Z }.
Definition RelayPeerState_default (now : Z) : RelayPeerState :=
  {| last_active_at := now; failure_count := 0; next_retry_at := None |}.

(** [rp_pending_handshakes] has the connection id that the waiting attempt
    drew in place of its one-shot sender; a lock is a number, [rp_held] are the
    ones that some task holds. *)
Record RelayPeerMap := {
  rp_my_peer_id : Z; rp_network_name : string; rp_is_secure_mode_enabled : bool;
  rp_states : gmap Z RelayPeerState; rp_pending_handshakes : gmap Z Z;
  rp_handshake_locks : gmap Z nat; rp_held : gset nat; rp_next_lock : nat;
  rp_pending_packets : gmap Z (list (ZCPacket * NextHopPolicy)) }.

Definition with_states (R : RelayPeerMap) (m : gmap Z RelayPeerState) : RelayPeerMap :=
  {| rp_my_peer_id := rp_my_peer_id R; rp_network_name := rp_network_name R;
     rp_is_secure_mode_enabled := rp_is_secure_mode_enabled R; rp_states := m;
     rp_pending_handshakes := rp_pending_handshakes R; rp_handshake_locks := rp_handshake_locks R;
     rp_held := rp_held R; rp_next_lock := rp_next_lock R;
     rp_pending_packets := rp_pending_packets R |}.
Definition with_pending_handshakes (R : RelayPeerMap) (m : gmap Z Z) : RelayPeerMap :=
  {| rp_my_peer_id := rp_my_peer_id R; rp_network_name := rp_network_name R;
     rp_is_secure_mode_enabled := rp_is_secure_mode_enabled R; rp_states := rp_states R;
     rp_pending_handshakes := m; rp_handshake_locks := rp_handshake_locks R;
     rp_held := rp_held R; rp_next_lock := rp_next_lock R;
     rp_pending_packets := rp_pending_packets R |}.
Definition with_locks (R : RelayPeerMap) (m : gmap Z nat) (held : gset nat) (next : nat) : RelayPeerMap :=
  {| rp_my_peer_id := rp_my_peer_id R; rp_network_name := rp_network_name R;
     rp_is_secure_mode_enabled := rp_is_secure_mode_enabled R; rp_states := rp_states R;
     rp_pending_handshakes := rp_pending_handshakes R; rp_handshake_locks := m; rp_held := held;
     rp_next_lock := next;
     rp_pending_packets := rp_pending_packets R |}.
Definition with_pending_packets (R : RelayPeerMap) (m : gmap Z (list (ZCPacket * NextHopPolicy)))
    : RelayPeerMap :=
  {| rp_my_peer_id := rp_my_peer_id R; rp_network_name := rp_network_name R;
     rp_is_secure_mode_enabled := rp_is_secure_mode_enabled R; rp_states := rp_states R;
     rp_pending_handshakes := rp_pending_handshakes R; rp_handshake_locks := rp_handshake_locks R;
     rp_held := rp_held R; rp_next_lock := rp_next_lock R;
     rp_pending_packets := m |}.

Definition RelayPeerMap_new (me : Z) (network : string) (secure : bool) : RelayPeerMap :=
  {| rp_my_peer_id := me; rp_network_name := network; rp_is_secure_mode_enabled := secure;
     rp_states := ∅; rp_pending_handshakes := ∅; rp_handshake_locks := ∅; rp_held := ∅;
     rp_next_lock := 0%nat; rp_pending_packets := ∅ |}.

Definition update_state (R : RelayPeerMap) (id now : Z) (f : RelayPeerState -> RelayPeerState)
    : RelayPeerMap :=
  with_states R (<[id := f (default (RelayPeerState_default now) (rp_states R !! id))]> (rp_states R)).
Definition touch_state (R : RelayPeerMap) (id now : Z) : RelayPeerMap :=
  update_state R id now (fun s => {| last_active_at := now; failure_count := failure_count s;
                                     next_retry_at := next_retry_at s |}).
Definition register_handshake_success (R : RelayPeerMap) (id now : Z) : RelayPeerMap :=
  update_state R id now (fun s => {| last_active_at := last_active_at s; failure_count := 0;
                                     next_retry_at := None |}).
(** [1 << attempt] on [u64], [attempt < 3]; times are in milliseconds. *)
Definition handshake_backoff (attempt : Z) : Z := sat_mul 64 HANDSHAKE_RETRY_BASE_MS (2 ^ attempt).
Definition register_handshake_failure (R : RelayPeerMap) (id attempt now : Z) : RelayPeerMap :=
  update_state R id now (fun s =>
    {| last_active_at := last_active_at s; failure_count := sat_add 32 (failure_count s) 1;
       next_retry_at := Some (now + handshake_backoff attempt) |}).

Definition buffer_pending_packet (R : RelayPeerMap) (id : Z) (pkt : ZCPacket) (policy : NextHopPolicy)
    : RelayPeerMap :=
  let q := default [] (rp_pending_packets R !! id) in
  with_pending_packets R (<[id := if (length q <? MAX_PENDING_PACKETS_PER_PEER)%nat
                                  then q ++ [(pkt, policy)] else q]> (rp_pending_packets R)).
Definition drop_pending_packets (R : RelayPeerMap) (id : Z) : RelayPeerMap :=
  with_pending_packets R (delete id (rp_pending_packets R)).
Definition drop_pending_handshake (R : RelayPeerMap) (id : Z) : RelayPeerMap :=
  with_pending_handshakes R (delete id (rp_pending_handshakes R)).

Definition get_handshake_lock (R : RelayPeerMap) (id : Z) : RelayPeerMap * nat :=
  match rp_handshake_locks R !! id with
  | Some l => (R, l)
  | None => (with_locks R (<[id := rp_next_lock R]> (rp_handshake_locks R)) (rp_held R)
               (S (rp_next_lock R)), rp_next_lock R)
  end.
(** [try_lock_owned], and the drop of the guard. *)
Definition try_lock (R : RelayPeerMap) (l : nat) : RelayPeerMap * bool :=
  if bool_decide (l ∈ rp_held R) then (R, false)
  else (with_locks R (rp_handshake_locks R) ({[l]} ∪ rp_held R) (rp_next_lock R), true).
Definition unlock (R : RelayPeerMap) (l : nat) : RelayPeerMap :=
  with_locks R (rp_handshake_locks R) (rp_held R ∖ {[l]}) (rp_next_lock R).

Definition relay_remove_peer (R : RelayPeerMap) (id : Z) : RelayPeerMap :=
  with_pending_packets (with_locks (with_pending_handshakes (with_states R
    (delete id (rp_states R))) (delete id (rp_pending_handshakes R)))
    (delete id (rp_handshake_locks R)) (rp_held R) (rp_next_lock R)) (delete id (rp_pending_packets R)).
Definition evict_idle_sessions (R : RelayPeerMap) (idle now : Z) : RelayPeerMap :=
  foldl relay_remove_peer R (map_to_list (filter (fun i => idle < sat_sub now (last_active_at i.2))
                                      (rp_states R))).*1.
Definition has_state (R : RelayPeerMap) (id : Z) : bool := bool_decide (is_Some (rp_states R !! id)).

(** ** The libraries and the environment *)

(** [snow] with the pattern IK: an initiator that knows the responder's static
    key writes the first message; the responder reads it, learns the
    initiator's static key and answers. *)
Class NoiseLib := {
  NoiseInitiator : Type; NoiseResponder : Type;
  noise_public : list Z -> list Z;
  noise_initiate : list Z -> list Z -> list Z -> option (NoiseInitiator * list Z);
  noise_respond : list Z -> list Z -> option (NoiseResponder * list Z * list Z);
  noise_reply : NoiseResponder -> list Z -> option (list Z);
  noise_complete : NoiseInitiator -> list Z -> option (list Z) }.

(** Texts that leave room for the keys and tags in the buffers of 4096 bytes. *)
Definition noise_fits (pl : list Z) : Prop := len pl <= 4000.

(** With keys of 32 bytes, texts that fit are written, and a message is read by
    the owner of the key that it was written for. *)
Class NoiseLaws (N : NoiseLib) := {
  noise_completes : forall pa pb pl, length pa = 32%nat -> length pb = 32%nat -> noise_fits pl ->
    exists i m r, noise_initiate pa (noise_public pb) pl = Some (i, m) /\
      noise_respond pb m = Some (r, noise_public pa, pl) /\
      forall pl2, noise_fits pl2 -> exists m2, noise_reply r pl2 = Some m2 /\ noise_complete i m2 = Some pl2 }.

Record RelayNoiseMsg1Pb := {
  m1_version : Z; m1_a_session_generation : option Z; m1_a_conn_id : option Z;
  m1_client_encryption_algorithm : string }.
(** [m2_action] is the number of the enum. *)
Record RelayNoiseMsg2Pb := {
  m2_action : Z; m2_b_session_generation : Z; m2_root_key_32 : option (list Z);
  m2_initial_epoch : Z; m2_b_conn_id : option Z; m2_a_conn_id_echo : option Z;
  m2_server_encryption_algorithm : string }.

Class RelayPb := {
  encode_msg1 : RelayNoiseMsg1Pb -> list Z; decode_msg1 : list Z -> option RelayNoiseMsg1Pb;
  encode_msg2 : RelayNoiseMsg2Pb -> list Z; decode_msg2 : list Z -> option RelayNoiseMsg2Pb }.
Class RelayPbLaws (P : RelayPb) := {
  decode_encode_msg1 : forall m, decode_msg1 (encode_msg1 m) = Some m;
  decode_encode_msg2 : forall m, decode_msg2 (encode_msg2 m) = Some m }.

Definition action_i32 (a : PeerSessionAction) : Z :=
  match a with Join => 0 | Sync => 1 | Create => 2 end.
Definition action_try_from (n : Z) : option PeerSessionAction :=
  match n with 0 => Some Join | 1 => Some Sync | 2 => Some Create | _ => None end.

(** What an operation reads besides the state: the clocks, fresh randomness,
    uninitialised memory and the configuration. *)
Record RelayEnv := {
  re_now : Z; re_now_ms : Z; re_uninit : nat -> Z; re_rng : list Z; re_fresh_key : list Z;
  re_uuid : Z; re_private_key : option (list Z); re_encryption_algorithm : string }.

(** ** The parts that the relay map acts on *)

(** [PeerMapRelayRouteTransport], the session store and what was sent. *)
Record RelayWorld := {
  w_relay : RelayPeerMap; w_store : PeerSessionStore; w_peers : PeerMap;
  w_foreign : option PeerMap; w_out : list Sent }.
Definition set_relay (W : RelayWorld) (R : RelayPeerMap) : RelayWorld :=
  {| w_relay := R; w_store := w_store W; w_peers := w_peers W; w_foreign := w_foreign W;
     w_out := w_out W |}.
Definition set_store (W : RelayWorld) (st : PeerSessionStore) : RelayWorld :=
  {| w_relay := w_relay W; w_store := st; w_peers := w_peers W; w_foreign := w_foreign W;
     w_out := w_out W |}.
Definition set_peers (W : RelayWorld) (M : PeerMap) (l : list Sent) : RelayWorld :=
  {| w_relay := w_relay W; w_store := w_store W; w_peers := M; w_foreign := w_foreign W;
     w_out := w_out W ++ l |}.
Definition set_foreign (W : RelayWorld) (M : PeerMap) (l : list Sent) : RelayWorld :=
  {| w_relay := w_relay W; w_store := w_store W; w_peers := w_peers W; w_foreign := Some M;
     w_out := w_out W ++ l |}.
Abbreviation relay := (act RelayWorld).
Definition on_relay (f : RelayPeerMap -> RelayPeerMap) : relay unit :=
  modify (fun W => set_relay W (f (w_relay W))).
Definition on_store {A} (f : PeerSessionStore -> comp (PeerSessionStore * A)) : relay A := fun W =>
  '(st, a) ← f (w_store W); Ret (set_store W st, a).

Section operations.
Context {T : Target} {H : HmacLib} {L : CryptoLib} (f : Features).
Context {O : HashOrder} {E : ConnEnv} {N : NoiseLib} {Pb : RelayPb}.
Implicit Types (env : RelayEnv).

(** ** Sending through the next hop *)

Definition foreign_get_next_hop (F : PeerMap) (id : Z) : option Z :=
  if has_peer F id then Some id else None.
Definition foreign_has_next_hop (F : PeerMap) (id : Z) : bool :=
  match foreign_get_next_hop F id with Some _ => true | None => false end.
Definition foreign_send_msg (F : PeerMap) (msg : ZCPacket) (id : Z)
    : PeerMap * (list Sent * result PeerError unit) :=
  match foreign_get_next_hop F id with
  | Some next => PeerMap_send_msg_directly F msg next
  | None => (F, ([], Err RouteError))
  end.

(** [PeerMapRelayRouteTransport::send_msg_to_next_hop]. *)
Definition send_via_next_hop (msg : ZCPacket) (dst : Z) (policy : NextHopPolicy)
    : relay (result PeerError unit) := fun W =>
  match get_gateway_peer_id (w_peers W) dst policy with
  | None => Ret (W, Err RouteError)
  | Some next =>
    if has_peer (w_peers W) next then
      let '(M, (l, r)) := PeerMap_send_msg_directly (w_peers W) msg next in
      Ret (set_peers W M l, r)
    else
      match w_foreign W with
      | Some F => let '(F, (l, r)) := foreign_send_msg F msg next in Ret (set_foreign W F l, r)
      | None => Ret (W, Err RouteError)
      end
  end.

Definition session_key (id : Z) : relay SessionKey :=
  gets (fun W => (rp_network_name (w_relay W), id)).

(** [session.encrypt_payload] on the session behind an [Arc]. *)
Definition seal_with (env : RelayEnv) (a : nat) (dst : Z) (pkt : ZCPacket)
    : relay (ZCPacket * result SessionError unit) := fun W =>
  s ← deref (w_store W) a;
  '(s, pkt, r) ← PeerSession_encrypt_payload f s (rp_my_peer_id (w_relay W)) dst (re_rng env) pkt
    (re_now_ms env);
  Ret (set_store W (put_session (w_store W) a s), (pkt, r)).

Fixpoint flush_packets (env : RelayEnv) (dst : Z) (a : nat) (l : list (ZCPacket * NextHopPolicy))
    : relay unit :=
  match l with
  | [] => mret tt
  | (pkt, policy) :: l =>
    '(pkt, r) ← seal_with env a dst pkt;
    match r with
    | Err _ => flush_packets env dst a l
    | Ok _ => send_via_next_hop pkt dst policy ;; flush_packets env dst a l
    end
  end.
Definition flush_pending_packets (env : RelayEnv) (dst : Z) (a : nat) : relay unit :=
  q ← gets (fun W => rp_pending_packets (w_relay W) !! dst);
  on_relay (fun R => drop_pending_packets R dst) ;;
  match q with None => mret tt | Some l => flush_packets env dst a l end.

Definition has_session (env : RelayEnv) (dst : Z) : relay bool :=
  k ← session_key dst;
  s ← on_store (fun st => store_get st k (re_now env));
  mret (bool_decide (is_Some s)).

(** The session, or the guard of a handshake task to be spawned. *)
Inductive EnsureOutcome := HaveSession (a : nat) | Spawn (guard : nat) | InProgress.
Definition ensure_session (env : RelayEnv) (dst : Z) : relay EnsureOutcome :=
  k ← session_key dst;
  s ← on_store (fun st => store_get st k (re_now env));
  match s with
  | Some a => mret (HaveSession a)
  | None => fun W =>
    let '(R, l) := get_handshake_lock (w_relay W) dst in
    let '(R, got) := try_lock R l in
    Ret (set_relay W R, if got : bool then Spawn l else InProgress)
  end.

(** A task that the call spawns: the handshake with [dst] under a guard. *)
Abbreviation spawned := (list (Z * NextHopPolicy * nat)).

Definition relay_send_msg (env : RelayEnv) (msg : ZCPacket) (dst : Z) (policy : NextHopPolicy)
    : relay (spawned * result PeerError unit) :=
  on_relay (fun R => touch_state R dst (re_now env)) ;;
  secure ← gets (fun W => rp_is_secure_mode_enabled (w_relay W));
  if negb secure then
    r ← send_via_next_hop msg dst policy; mret ([], r)
  else
    o ← ensure_session env dst;
    match o with
    | HaveSession a =>
      '(msg, r) ← seal_with env a dst msg;
      match r with
      | Err _ => mret ([], Err RouteError)
      | Ok _ => r ← send_via_next_hop msg dst policy; mret ([], r)
      end
    | Spawn g =>
      on_relay (fun R => buffer_pending_packet R dst msg policy) ;; mret ([(dst, policy, g)], Ok tt)
    | InProgress =>
      on_relay (fun R => buffer_pending_packet R dst msg policy) ;; mret ([], Ok tt)
    end.

(** ** The initiator *)

Definition get_remote_static_pubkey (id : Z) : relay (option (list Z)) :=
  gets (fun W => match get_route_peer_info (w_peers W) id with
                 | None => None
                 | Some i => match noise_static_pubkey i with [] => None | k => Some k end
                 end).

Definition send_handshake_packet (env : RelayEnv) (pl : list Z) (t : PacketType) (dst : Z)
    (policy : NextHopPolicy) : relay (result PeerError unit) :=
  me ← gets (fun W => rp_my_peer_id (w_relay W));
  pkt ← lift (p ← new_with_payload (re_uninit env) pl;
              p ← fill_peer_manager_hdr p me dst (PacketType_as_u8 t);
              '(h, put) ← unwrap (mut_peer_manager_header p);
              Ret (put (set_latency_first h match policy with LeastCost => true | LeastHop => false end)));
  send_via_next_hop pkt dst policy.

Inductive BeginOutcome := BeginFlushed | BeginBackoff | BeginAttempt.
Definition handshake_begin (env : RelayEnv) (dst : Z) : relay BeginOutcome :=
  k ← session_key dst;
  s ← on_store (fun st => store_get st k (re_now env));
  match s with
  | Some a => flush_pending_packets env dst a ;; mret BeginFlushed
  | None =>
    retry ← gets (fun W => s ← rp_states (w_relay W) !! dst; next_retry_at s);
    match retry with
    | Some t => if re_now env <? t
                then on_relay (fun R => drop_pending_packets R dst) ;; mret BeginBackoff
                else mret BeginAttempt
    | None => mret BeginAttempt
    end
  end.

(** What an attempt keeps while it waits for the answer. *)
Record Waiting := { wt_init : NoiseInitiator; wt_conn_id : Z; wt_remote_static : list Z }.

Definition attempt_send (env : RelayEnv) (dst : Z) (policy : NextHopPolicy)
    : relay (result PeerError Waiting) :=
  k ← session_key dst;
  remote ← get_remote_static_pubkey dst;
  match re_private_key env, remote with
  | Some priv, Some remote =>
    s ← on_store (fun st => store_get st k (re_now env));
    gen ← gets (fun W => a ← s; ps_generation <$> heap (w_store W) !! a);
    let msg1 := {| m1_version := RELAY_NOISE_VERSION; m1_a_session_generation := gen;
                   m1_a_conn_id := Some (re_uuid env);
                   m1_client_encryption_algorithm := re_encryption_algorithm env |} in
    match noise_initiate priv remote (encode_msg1 msg1) with
    | None => mret (Err RouteError)
    | Some (i, out) =>
      on_relay (fun R => with_pending_handshakes R (<[dst := re_uuid env]> (rp_pending_handshakes R))) ;;
      r ← send_handshake_packet env out RelayHandshake dst policy;
      match r with
      | Err e => on_relay (fun R => drop_pending_handshake R dst) ;; mret (Err e)
      | Ok _ => mret (Ok {| wt_init := i; wt_conn_id := re_uuid env; wt_remote_static := remote |})
      end
    end
  | _, _ => mret (Err RouteError)
  end.

(** [decode_handshake_message] up to the payload. *)
Definition handshake_payload (t : PacketType) (pkt : ZCPacket) : comp (option (list Z)) :=
  match peer_manager_header pkt with
  | None => Ret None
  | Some h => if negb (pm_packet_type h =? PacketType_as_u8 t) then Ret None
              else s ← payload pkt; Ret (Some s)
  end.

Definition key32 (k : list Z) : option (list Z) :=
  if (length k =? 32)%nat then Some k else None.

(** The answer arrived ([Some]), or the wait timed out or was cancelled. *)
Definition attempt_receive (env : RelayEnv) (dst : Z) (w : Waiting) (answer : option ZCPacket)
    : relay (result PeerError nat) :=
  match answer with
  | None => on_relay (fun R => drop_pending_handshake R dst) ;; mret (Err RouteError)
  | Some pkt =>
    k ← session_key dst;
    pl ← lift (handshake_payload RelayHandshakeAck pkt);
    match (m ← pl; m ← noise_complete (wt_init w) m; decode_msg2 m) with
    | None => mret (Err RouteError)
    | Some m2 =>
      if negb (bool_decide (m2_a_conn_id_echo m2 = Some (wt_conn_id w))) then mret (Err RouteError) else
      match action_try_from (m2_action m2) with
      | None => mret (Err RouteError)
      | Some action =>
        r ← on_store (fun st => apply_initiator_action st k action (m2_b_session_generation m2)
              (k ← m2_root_key_32 m2; key32 k) (m2_initial_epoch m2) (re_encryption_algorithm env)
              (m2_server_encryption_algorithm m2) (key32 (wt_remote_static w))
              (re_now env) (re_now_ms env));
        match r with
        | Err _ => mret (Err RouteError)
        | Ok a => mret (Ok a)
        end
      end
    end
  end.

Definition attempt_succeeded (env : RelayEnv) (dst : Z) (a : nat) : relay unit :=
  on_relay (fun R => register_handshake_success R dst (re_now env)) ;;
  flush_pending_packets env dst a.

(** Whether the task goes on, after a sleep of [handshake_backoff]. *)
Definition attempt_failed (env : RelayEnv) (dst attempt : Z) : relay bool :=
  on_relay (fun R => register_handshake_failure R dst attempt (re_now env)) ;;
  if attempt + 1 <? HANDSHAKE_MAX_ATTEMPTS then mret true
  else on_relay (fun R => drop_pending_packets R dst) ;; mret false.

(** ** The responder *)

(** The smaller peer id stays the initiator when both have started. *)
Definition handle_relay_msg1 (env : RelayEnv) (msg1 : ZCPacket) (remote : Z)
    : relay (result PeerError unit) :=
  match peer_manager_header msg1 with
  | None => mret (Err RouteError)
  | Some h =>
    let ack_policy := if is_latency_first h || (0 <? forward_counter h) then LeastCost else LeastHop in
    R ← gets w_relay;
    let started := bool_decide (is_Some (rp_pending_handshakes R !! remote)) in
    if started && negb (remote <? rp_my_peer_id R) then mret (Err RouteError) else
    (if started then on_relay (fun R => drop_pending_handshake R remote) else mret tt) ;;
    pl ← lift (handshake_payload RelayHandshake msg1);
    match re_private_key env with
    | None => mret (Err RouteError)
    | Some priv =>
      match (m ← pl; '(r, k, m) ← noise_respond priv m; m ← decode_msg1 m; Some (r, k, m)) with
      | None => mret (Err RouteError)
      | Some (r, remote_static, m1) =>
        expected ← get_remote_static_pubkey remote;
        if negb (bool_decide (expected = Some remote_static)) then mret (Err RouteError) else
        k ← session_key remote;
        u ← on_store (fun st => upsert_responder_session st k (m1_a_session_generation m1)
              (re_encryption_algorithm env) (m1_client_encryption_algorithm m1) (key32 remote_static)
              (re_fresh_key env) (re_now env) (re_now_ms env));
        match u with
        | Err _ => mret (Err RouteError)
        | Ok u =>
          let msg2 := {| m2_action := action_i32 (u_action u);
                         m2_b_session_generation := u_generation u; m2_root_key_32 := u_root_key u;
                         m2_initial_epoch := u_initial_epoch u; m2_b_conn_id := Some (re_uuid env);
                         m2_a_conn_id_echo := m1_a_conn_id m1;
                         m2_server_encryption_algorithm := re_encryption_algorithm env |} in
          match noise_reply r (encode_msg2 msg2) with
          | None => mret (Err RouteError)
          | Some out =>
            on_relay (fun R => register_handshake_success R remote (re_now env)) ;;
            sent ← send_handshake_packet env out RelayHandshakeAck remote ack_policy;
            match sent with
            | Err e => mret (Err e)
            | Ok _ => flush_pending_packets env remote (u_session u) ;; mret (Ok tt)
            end
          end
        end
      end
    end
  end.

(** An answer is handed to the attempt that waits, named by its connection id. *)
Definition handle_handshake_packet (env : RelayEnv) (pkt : ZCPacket)
    : relay (option (Z * ZCPacket) * result PeerError unit) :=
  match peer_manager_header pkt with
  | None => mret (None, Err RouteError)
  | Some h =>
    let src := from_peer_id h in
    if pm_packet_type h =? PacketType_as_u8 RelayHandshake then
      r ← handle_relay_msg1 env pkt src; mret (None, r)
    else if pm_packet_type h =? PacketType_as_u8 RelayHandshakeAck then
      waiting ← gets (fun W => rp_pending_handshakes (w_relay W) !! src);
      on_relay (fun R => drop_pending_handshake R src) ;;
      mret ((fun c => (c, pkt)) <$> waiting, Ok tt)
    else mret (None, Ok tt)
  end.

(** ** Opening what arrives *)

Definition open_with (env : RelayEnv) (a : nat) (from : Z) (pkt : ZCPacket)
    : relay (ZCPacket * result SessionError unit) := fun W =>
  s ← deref (w_store W) a;
  '(s, pkt, r) ← PeerSession_decrypt_payload f s from (rp_my_peer_id (w_relay W)) pkt (re_now_ms env);
  Ret (set_store W (put_session (w_store W) a s), (pkt, r)).

Definition decrypt_if_needed (env : RelayEnv) (pkt : ZCPacket)
    : relay (spawned * ZCPacket * result PeerError bool) :=
  secure ← gets (fun W => rp_is_secure_mode_enabled (w_relay W));
  if negb secure then mret ([], pkt, Ok false) else
  match peer_manager_header pkt with
  | None => mret ([], pkt, Err RouteError)
  | Some h =>
    let from := from_peer_id h in
    let policy := if is_latency_first h || (0 <? forward_counter h) then LeastCost else LeastHop in
    k ← session_key from;
    s ← on_store (fun st => store_get st k (re_now env));
    match s with
    | None =>
      o ← ensure_session env from;
      mret match o with
           | HaveSession _ => ([], pkt, Ok false)
           | Spawn g => ([(from, policy, g)], pkt, Err RouteError)
           | InProgress => ([], pkt, Err RouteError)
           end
    | Some a =>
      on_relay (fun R => touch_state R from (re_now env)) ;;
      '(pkt, r) ← open_with env a from pkt;
      mret ([], pkt, match r with Ok _ => Ok true | Err _ => Err Other end)
    end
  end.
End operations.
