(* ===== verification/PacketRouter.v ===== *)
(** The data path of a node: [peers/peer_manager.rs] and the packet policy of
    [peers/context.rs].

    Packets of the host leave through [send_msg_by_ip]: ACL and NIC filters,
    choice of the destination peers, compression and encryption, one copy per
    peer.  Packets of the network arrive at [router_step], the body of the
    receive loop: foreign-network packets are unwrapped or redirected, packets
    for others are forwarded with a counter of hops, packets for this node are
    decrypted, decompressed, checked against the ACL and handed to the
    pipeline of filters, whose last members are the RPC channel and the NIC.

    [Core] is the state that a packet can change, [CoreConfig] what it cannot.
    Statistics are left out.  Networks of the cidr crate are [AddrLib]. *)
From stdpp Require Import list gmap strings.
From S2P Require Import Prelude Headers Packet Encrypt Compressor ReplayWindow SecureDatagram PeerSession.
From S2P Require Import TokenBucket Acl AclFilter RouteMessages RouteTable RouteSync PeerConns RelayPeerMap.
Local Open Scope Z_scope.

(** ** Policies *)

Definition get_next_hop_policy (is_latency_first : bool) : NextHopPolicy :=
  if is_latency_first then LeastCost else LeastHop.

Record FlagsInConfig := {
  fl_disable_relay_data : bool; fl_p2p_only : bool; fl_latency_first : bool;
  fl_disable_p2p : bool; fl_lazy_p2p : bool }.
Record PeerPacketPolicy := {
  pp_disable_relay_data : bool; pp_p2p_only : bool; pp_latency_first : bool;
  pp_disable_p2p : bool; pp_lazy_p2p : bool }.
Definition PeerPacketPolicy_from_flags (fl : FlagsInConfig) : PeerPacketPolicy :=
  {| pp_disable_relay_data := fl_disable_relay_data fl; pp_p2p_only := fl_p2p_only fl;
     pp_latency_first := fl_latency_first fl && negb (fl_p2p_only fl);
     pp_disable_p2p := fl_disable_p2p fl; pp_lazy_p2p := fl_lazy_p2p fl |}.

Definition u8_of (t : PacketType) : Z := PacketType_as_u8 t.
Definition one_of (x : Z) (l : list PacketType) : bool := existsb (fun t => x =? u8_of t) l.

Inductive TrafficKind := DataTraffic | ControlTraffic.
#[export] Instance TrafficKind_eq_dec : EqDecision TrafficKind.
Proof. solve_decision. Defined.
Definition traffic_kind (t : Z) : TrafficKind :=
  if one_of t [Data; KcpSrc; KcpDst; QuicSrc; QuicDst; DataWithKcpSrcModified; DataWithQuicSrcModified]
  then DataTraffic else ControlTraffic.
Definition is_relay_data_packet (t : Z) : bool :=
  bool_decide (traffic_kind t = DataTraffic) || (t =? u8_of ForeignNetworkPacket).

Definition is_relay_data_zc_packet (p : ZCPacket) : comp bool :=
  match peer_manager_header p with
  | None => Ret false
  | Some h =>
    if pm_packet_type h =? u8_of ForeignNetworkPacket then
      t ← foreign_network_inner_packet_type p;
      Ret (match t with None => true | Some t => is_relay_data_packet t end)
    else Ret (is_relay_data_packet (pm_packet_type h))
  end.

Definition should_drop_relay_data (disable_relay_data : bool) (p : ZCPacket) (my_peer_id : Z)
    (ingress : PeerPacketIngress) (destination_is_attached : bool) : comp bool :=
  if negb disable_relay_data then Ret false else
  data ← is_relay_data_zc_packet p;
  if negb data then Ret false else
  let is_forwarded := match peer_manager_header p with
                      | Some h => negb (to_peer_id h =? my_peer_id)
                      | None => false
                      end in
  Ret (is_forwarded && negb (ingress_is_attached ingress) && negb destination_is_attached).

(** ** Recent traffic: demand for direct connections *)

(** Milliseconds. *)
Definition RECENT_HAVE_TRAFFIC_TTL : Z := 30000.

Definition should_mark_recent_traffic_for_fanout (total_dst_peers : nat) : bool :=
  (total_dst_peers <=? 1)%nat.

(** [rt_notified] counts the calls of [p2p_demand_notify.notify]. *)
Record RecentTraffic := { rt_my_peer_id : Z; recent_have_traffic : gmap Z Z; rt_notified : nat }.
Definition RecentTraffic_new (me : Z) : RecentTraffic :=
  {| rt_my_peer_id := me; recent_have_traffic := ∅; rt_notified := 0 |}.
Definition set_recent (r : RecentTraffic) (m : gmap Z Z) (n : nat) : RecentTraffic :=
  {| rt_my_peer_id := rt_my_peer_id r; recent_have_traffic := m; rt_notified := n |}.

Definition recent_mark (r : RecentTraffic) (dst : Z) (disable_p2p lazy_p2p : bool) (connected : Z -> bool)
    (now : Z) : RecentTraffic :=
  if dst =? rt_my_peer_id r then r else
  if disable_p2p || negb lazy_p2p || connected dst then r else
  match recent_have_traffic r !! dst with
  | Some last_seen =>
    let should_notify := RECENT_HAVE_TRAFFIC_TTL <? sat_sub now last_seen in
    set_recent r (<[dst := now]> (recent_have_traffic r))
      (if should_notify then S (rt_notified r) else rt_notified r)
  | None => set_recent r (<[dst := now]> (recent_have_traffic r)) (S (rt_notified r))
  end.
Definition recent_has (r : RecentTraffic) (id : Z) (now : Z) (connected : Z -> bool) : bool :=
  if connected id then false else
  match recent_have_traffic r !! id with
  | Some last_seen => sat_sub now last_seen <=? RECENT_HAVE_TRAFFIC_TTL
  | None => false
  end.
Definition recent_clear (r : RecentTraffic) (id : Z) : RecentTraffic :=
  set_recent r (delete id (recent_have_traffic r)) (rt_notified r).
Definition recent_gc (r : RecentTraffic) (now : Z) (connected : Z -> bool) : RecentTraffic :=
  let to_remove := (map_to_list (filter (fun i =>
    (RECENT_HAVE_TRAFFIC_TTL <? sat_sub now i.2) || connected i.1 = true) (recent_have_traffic r))).*1 in
  set_recent r (foldl (fun m id => delete id m) (recent_have_traffic r) to_remove) (rt_notified r).

(** ** Addresses *)

(** [Ipv4Inet::last_address], [Ipv6Inet::last_address] and [contains], given
    the address and the length of the network. *)
Class AddrLib := {
  last_address_v4 : Z -> Z -> Z; last_address_v6 : Z -> Z -> Z;
  inet_contains_v4 : Z * Z -> Z -> bool; inet_contains_v6 : Z * Z -> Z -> bool }.

(** [core::net]: limited broadcast, multicast (224/4, ff00::/8) and unicast
    link-local (fe80::/10). *)
Definition is_broadcast_v4 (a : Z) : bool := a =? 2 ^ 32 - 1.
Definition is_multicast_v4 (a : Z) : bool := Z.shiftr a 28 =? 14.
Definition is_multicast_v6 (a : Z) : bool := Z.shiftr a 120 =? 255.
Definition is_unicast_link_local (a : Z) : bool := Z.shiftr a 118 =? 1018.

(** ** The state of a node *)

(** A foreign network: this node's peer id in it and its peers. *)
Record ForeignNetworkEntry := { fe_my_peer_id : Z; fe_peer_map : PeerMap }.

Section core.
Context {GS : Type} {C : CidrLib}.

(** [c_nic] is the bounded channel to the host; [c_rpc] the channel to the RPC
    manager; [c_gateway] the state of the proxies' filters; [c_spawned] the
    handshake tasks started, [c_answers] what they were sent. *)
Record Core := {
  c_world : RelayWorld; c_foreign_networks : gmap (list Z) ForeignNetworkEntry;
  c_acl : AclFilter; c_recent : RecentTraffic; c_nic : list ZCPacket; c_rpc : list ZCPacket;
  c_gateway : GS; c_spawned : list (Z * NextHopPolicy * nat); c_answers : list (Z * ZCPacket) }.

Definition set_world (c : Core) (w : RelayWorld) : Core :=
  {| c_world := w; c_foreign_networks := c_foreign_networks c; c_acl := c_acl c;
     c_recent := c_recent c; c_nic := c_nic c; c_rpc := c_rpc c; c_gateway := c_gateway c;
     c_spawned := c_spawned c; c_answers := c_answers c |}.
Definition set_foreign_networks (c : Core) (m : gmap (list Z) ForeignNetworkEntry) : Core :=
  {| c_world := c_world c; c_foreign_networks := m; c_acl := c_acl c;
     c_recent := c_recent c; c_nic := c_nic c; c_rpc := c_rpc c; c_gateway := c_gateway c;
     c_spawned := c_spawned c; c_answers := c_answers c |}.
Definition set_acl (c : Core) (F : AclFilter) : Core :=
  {| c_world := c_world c; c_foreign_networks := c_foreign_networks c; c_acl := F;
     c_recent := c_recent c; c_nic := c_nic c; c_rpc := c_rpc c; c_gateway := c_gateway c;
     c_spawned := c_spawned c; c_answers := c_answers c |}.
Definition set_recent_traffic (c : Core) (r : RecentTraffic) : Core :=
  {| c_world := c_world c; c_foreign_networks := c_foreign_networks c; c_acl := c_acl c;
     c_recent := r; c_nic := c_nic c; c_rpc := c_rpc c; c_gateway := c_gateway c;
     c_spawned := c_spawned c; c_answers := c_answers c |}.
Definition set_channels (c : Core) (nic rpc : list ZCPacket) : Core :=
  {| c_world := c_world c; c_foreign_networks := c_foreign_networks c; c_acl := c_acl c;
     c_recent := c_recent c; c_nic := nic; c_rpc := rpc; c_gateway := c_gateway c;
     c_spawned := c_spawned c; c_answers := c_answers c |}.
Definition set_gateway (c : Core) (g : GS) : Core :=
  {| c_world := c_world c; c_foreign_networks := c_foreign_networks c; c_acl := c_acl c;
     c_recent := c_recent c; c_nic := c_nic c; c_rpc := c_rpc c; c_gateway := g;
     c_spawned := c_spawned c; c_answers := c_answers c |}.
Definition add_tasks (c : Core) (l : list (Z * NextHopPolicy * nat)) (a : list (Z * ZCPacket)) : Core :=
  {| c_world := c_world c; c_foreign_networks := c_foreign_networks c; c_acl := c_acl c;
     c_recent := c_recent c; c_nic := c_nic c; c_rpc := c_rpc c; c_gateway := c_gateway c;
     c_spawned := c_spawned c ++ l; c_answers := c_answers c ++ a |}.

Definition c_peers (c : Core) : PeerMap := w_peers (c_world c).
Definition c_sent (c : Core) : list Sent := w_out (c_world c).

Definition on_world {A} (m : relay A) : act Core A := fun c =>
  '(w, a) ← m (c_world c); Ret (set_world c w, a).

(** A filter returns the packet that it does not take. *)
Definition PeerFilter : Type := ZCPacket -> act Core (option ZCPacket).
Definition NicFilter : Type := ZCPacket -> act Core ZCPacket.
(** An entry of a pipeline: whether its registration is active, and the filter. *)
Record PeerPipelineEntry := { pe_active : option bool; pe_filter : PeerFilter }.
Record NicPipelineEntry := { ne_active : option bool; ne_filter : NicFilter }.
Definition active_entry (a : option bool) : bool := match a with Some false => false | _ => true end.
Definition filter_if_active (e : PeerPipelineEntry) : option PeerFilter :=
  if active_entry (pe_active e) then Some (pe_filter e) else None.
Definition nic_filter_if_active (e : NicPipelineEntry) : option NicFilter :=
  if active_entry (ne_active e) then Some (ne_filter e) else None.

Record CoreConfig := {
  g_my_peer_id : Z; g_flags : FlagsInConfig; g_local_exit_node_fallback : bool;
  g_ipv4 : option (Z * Z); g_ipv6 : option (Z * Z); g_public_lease_contains : Z -> bool;
  g_exit_nodes : list (Z + Z); g_route : Route; g_encryptor : Encryptor;
  g_compress_algo : CompressorAlgo; g_secure_mode_enabled : bool; g_is_credential_node : bool;
  g_peer_pipeline : list PeerPipelineEntry;
  g_nic_pipeline : list NicPipelineEntry }.

(** The clocks and the randomness of a call. *)
Record Env := { ev_relay : RelayEnv; ev_acl_now : Z; ev_acl_secs : Z; ev_rng : list Z }.

Section operations.
Context {T : Target} {H : HmacLib} {L : CryptoLib} (f : Features).
Context {O : HashOrder} {CE : ConnEnv} {N : NoiseLib} {Pb : RelayPb} {z : Zstd} {Ad : AddrLib}.
Context (cfg : CoreConfig).

Definition packet_policy : PeerPacketPolicy := PeerPacketPolicy_from_flags (g_flags cfg).
Definition is_ip_in_same_network (ip : Z + Z) : bool :=
  match ip with
  | inl a => match g_ipv4 cfg with Some n => inet_contains_v4 n a | None => false end
  | inr a => match g_ipv6 cfg with Some n => inet_contains_v6 n a | None => false end
  end.
Definition is_ip_local_ipv6 (a : Z) : bool :=
  match g_ipv6 cfg with Some n => n.1 =? a | None => false end || g_public_lease_contains cfg a.
Definition is_ip_local_virtual_ip (ip : Z + Z) : bool :=
  match ip with
  | inl a => match g_ipv4 cfg with Some n => n.1 =? a | None => false end
  | inr a => is_ip_local_ipv6 a
  end.

(** The encryptor of a node, with the keys derived from the network secret. *)
Definition node_encryptor (enable_encryption : bool) (algorithm : string) (key_128 key_256 : list Z)
    : Encryptor :=
  if enable_encryption then create_encryptor f algorithm key_128 key_256 else NullCipher.

(** ** The last two filters of the pipeline *)

(** [try_send]: a full channel drops the packet. *)
Definition nic_try_send (capacity : nat) (p : ZCPacket) : act Core unit :=
  modify (fun c => if (length (c_nic c) <? capacity)%nat
                   then set_channels c (c_nic c ++ [p]) (c_rpc c) else c).
Definition NicPacketProcessor (capacity : nat) : PeerFilter := fun p =>
  h ← lift (unwrap (peer_manager_header p));
  if (pm_packet_type h =? u8_of Data) && negb (is_not_send_to_tun h) then
    if is_encrypted h || is_compressed h then mret None
    else nic_try_send capacity p ;; mret None
  else mret (Some p).
Definition PeerRpcPacketProcessor : PeerFilter := fun p =>
  h ← lift (unwrap (peer_manager_header p));
  if one_of (pm_packet_type h) [TaRpc; RpcReq; RpcResp] then
    modify (fun c => set_channels c (c_nic c) (c_rpc c ++ [p])) ;; mret None
  else mret (Some p).

(** Permanent entries; a later one is asked earlier. *)
Definition permanent_peer_pipeline_entry (g : PeerFilter) : PeerPipelineEntry :=
  {| pe_active := None; pe_filter := g |}.
Definition append_peer_pipeline (l : list PeerPipelineEntry) (e : PeerPipelineEntry)
    : list PeerPipelineEntry := l ++ [e].
Definition init_packet_process_pipeline (nic_capacity : nat) (l : list PeerPipelineEntry)
    : list PeerPipelineEntry :=
  let l := append_peer_pipeline l (permanent_peer_pipeline_entry (NicPacketProcessor nic_capacity)) in
  append_peer_pipeline l (permanent_peer_pipeline_entry PeerRpcPacketProcessor).

(** ** Sending to a peer *)

Definition on_peers {A} (g : PeerMap -> PeerMap * (list Sent * A)) : act Core A := fun c =>
  let '(M, (l, a)) := g (c_peers c) in Ret (set_world c (set_peers (c_world c) M l), a).
Definition foreign_client (c : Core) : PeerMap :=
  default (PeerMap_new (g_my_peer_id cfg)) (w_foreign (c_world c)).
Definition on_foreign_client {A} (g : PeerMap -> PeerMap * (list Sent * A)) : act Core A := fun c =>
  let '(M, (l, a)) := g (foreign_client c) in Ret (set_world c (set_foreign (c_world c) M l), a).
Definition via_relay (env : Env) (msg : ZCPacket) (dst : Z) (policy : NextHopPolicy)
    : act Core (result PeerError unit) :=
  '(tasks, r) ← on_world (relay_send_msg f (ev_relay env) msg dst policy);
  modify (fun c => add_tasks c tasks []) ;; mret r.

Definition send_msg_internal (env : Env) (msg : ZCPacket) (dst : Z) : act Core (result PeerError unit) :=
  h ← lift (unwrap (peer_manager_header msg));
  let policy := get_next_hop_policy (is_latency_first h) in
  M ← gets c_peers;
  F ← gets foreign_client;
  let reachable g := has_peer M g || foreign_has_next_hop F g in
  let latency_first_gateway :=
    if is_latency_first h
    then match get_gateway_peer_id M dst policy with
         | Some g => if g =? dst then None else Some g
         | None => None
         end
    else None in
  if match latency_first_gateway with Some g => reachable g | None => false end
  then via_relay env msg dst policy
  else match get_peer_by_id M dst with
  | Some P => on_peers (fun M => let '(P, r) := Peer_send_msg P msg in (put_peer M P dst, r))
  | None =>
    if is_self M dst then on_peers (fun M => PeerMap_send_msg_directly M msg dst)
    else if foreign_has_next_hop F dst then on_foreign_client (fun F => foreign_send_msg F msg dst)
    else match get_gateway_peer_id M dst policy with
    | Some g => if reachable g then via_relay env msg dst policy else mret (Err RouteError)
    | None =>
      if foreign_has_next_hop F dst then on_foreign_client (fun F => foreign_send_msg F msg dst)
      else mret (Err RouteError)
    end
  end.

(** [RpcTransport::send]: encrypted unless the destination is a public server;
    the packet goes through this node's own receive loop. *)
Definition rpc_transport_send (env : Env) (msg : ZCPacket) (dst : Z) : act Core (result PeerError unit) :=
  M ← gets c_peers;
  let is_dst_peer_public_server :=
    default (negb (has_peer M dst))
      (i ← get_route_peer_info M dst; is_public_server <$> feature_flag i) in
  '(msg, r) ← (if negb is_dst_peer_public_server && negb (g_secure_mode_enabled cfg)
               then lift (e_encrypt (g_encryptor cfg) (ev_rng env) msg) else mret (msg, Ok tt));
  match r with
  | Err _ => mret (Err Other)
  | Ok _ => on_peers (fun M => PeerMap_send_msg_directly M msg (g_my_peer_id cfg))
  end.

(** ** From the host to the network *)

Definition try_compress_and_encrypt (env : Env) (msg : ZCPacket) : comp (ZCPacket * result PeerError unit) :=
  '(msg, r) ← compress msg (g_compress_algo cfg);
  match r with
  | Err _ => Ret (msg, Err Other)
  | Ok _ =>
    if negb (g_secure_mode_enabled cfg) then
      '(msg, r) ← e_encrypt (g_encryptor cfg) (ev_rng env) msg;
      Ret (msg, match r with Ok _ => Ok tt | Err _ => Err Other end)
    else Ret (msg, Ok tt)
  end.

Definition router_has_direct_conn (c : Core) (id : Z) : bool :=
  match get_peer_by_id (c_peers c) id with
  | Some P => has_directly_connected_conn P
  | None => has_peer (foreign_client c) id
  end.
Definition mark_recent_traffic (env : Env) (dst : Z) : act Core unit :=
  modify (fun c => set_recent_traffic c
    (recent_mark (c_recent c) dst (pp_disable_p2p packet_policy) (pp_lazy_p2p packet_policy)
       (router_has_direct_conn c) (re_now (ev_relay env)))).

Definition run_acl (env : Env) (p : ZCPacket) (is_in : bool) (my_ipv4 : option Z)
    (local6 : Z -> bool) : act Core bool := fun c =>
  '(F, ok) ← process_packet_with_acl (c_acl c) p is_in my_ipv4 local6 (r_get_peer_groups (g_route cfg))
     (ev_acl_now env) (ev_acl_secs env);
  Ret (set_acl c F, ok).

Fixpoint run_nic_filters (l : list NicPipelineEntry) (p : ZCPacket) : act Core ZCPacket :=
  match l with
  | [] => mret p
  | e :: l => p ← match nic_filter_if_active e with Some g => g p | None => mret p end;
              run_nic_filters l p
  end.
Definition run_nic_packet_process_pipeline (env : Env) (p : ZCPacket) : act Core (ZCPacket * bool) :=
  ok ← run_acl env p false None (fun _ => false);
  if negb ok then mret (p, false) else
  p ← run_nic_filters (rev (g_nic_pipeline cfg)) p; mret (p, true).

Definition check_p2p_only_before_send (c : Core) (dst : Z) : result PeerError unit :=
  if pp_p2p_only packet_policy && negb (has_peer (c_peers c) dst) then Err RouteError else Ok tt.

Definition check_allow_wrapped_proxy_to_dst (dst_ip : Z + Z)
    (dst_allows_input next_hop_disables_relay : PeerFeatureFlag -> bool) : bool :=
  match r_get_peer_id_by_ip (g_route cfg) dst_ip with
  | None => false
  | Some dst =>
    match r_get_peer_info (g_route cfg) dst with
    | None => false
    | Some i =>
      if negb (default false (dst_allows_input <$> feature_flag i)) then false else
      match r_get_next_hop_with_policy (g_route cfg) dst
              (get_next_hop_policy (fl_latency_first (g_flags cfg))) with
      | None => false
      | Some next =>
        if next =? dst then true else
        match r_get_peer_info (g_route cfg) next with
        | None => false
        | Some i => negb (default false (next_hop_disables_relay <$> feature_flag i))
        end
      end
    end
  end.
Definition check_allow_kcp_to_dst (ip : Z + Z) : bool :=
  check_allow_wrapped_proxy_to_dst ip kcp_input no_relay_kcp.
Definition check_allow_quic_to_dst (ip : Z + Z) : bool :=
  check_allow_wrapped_proxy_to_dst ip quic_input no_relay_quic.

Definition send_msg_for_proxy (env : Env) (msg : ZCPacket) (dst : Z) : act Core (result PeerError unit) :=
  mark_recent_traffic env dst ;;
  p2p ← gets (fun c => check_p2p_only_before_send c dst);
  match p2p with
  | Err e => mret (Err e)
  | Ok _ =>
    '(msg, r) ← lift (try_compress_and_encrypt env msg);
    match r with
    | Err e => mret (Err e)
    | Ok _ => send_msg_internal env msg dst
    end
  end.

(** *** Which peers *)

Definition is_all_peers_broadcast_ipv4 (a : Z) : bool :=
  let n := match g_ipv4 cfg with Some n => n.2 | None => 24 end in
  is_broadcast_v4 a || is_multicast_v4 a || (a =? last_address_v4 a n).
Definition is_all_peers_broadcast_ipv6 (a : Z) : bool :=
  let n := match g_ipv6 cfg with Some n => n.2 | None => 64 end in
  is_multicast_v6 a || (a =? last_address_v6 a n).
Definition select_ipv4_broadcast_peers (l : list CoreRoute) (me : Z) : list Z :=
  omap (fun r => if negb (cr_peer_id r =? me) && bool_decide (is_Some (cr_ipv4_addr r))
                 then Some (cr_peer_id r) else None) l.

(** The first exit node that a peer has. *)
Fixpoint find_exit_node (find : Z + Z -> option Z) (l : list (Z + Z)) : option Z :=
  match l with
  | [] => None
  | n :: l => match find n with Some p => Some p | None => find_exit_node find l end
  end.

Definition get_msg_dst_peer_ipv4 (M : PeerMap) (a : Z) : list Z * bool :=
  let '(dst, exit) :=
    if is_all_peers_broadcast_ipv4 a
    then (select_ipv4_broadcast_peers (list_route_infos M) (g_my_peer_id cfg), false)
    else match PeerMap_get_peer_id_by_ipv4 M a with
    | Some p => ([p], false)
    | None =>
      if negb (is_ip_in_same_network (inl a)) then
        match find_exit_node (fun n => match n with
                                       | inl e => PeerMap_get_peer_id_by_ipv4 M e
                                       | inr _ => None
                                       end) (g_exit_nodes cfg) with
        | Some p => ([p], true)
        | None => ([], false)
        end
      else ([], false)
    end in
  if g_local_exit_node_fallback cfg && bool_decide (dst = []) && negb (is_ip_in_same_network (inl a))
  then ([g_my_peer_id cfg], true) else (dst, exit).

(** The keys of a hash map come in its order. *)
Definition get_msg_dst_peer_ipv6 (M : PeerMap) (a : Z) : list Z * bool :=
  if is_all_peers_broadcast_ipv6 a then ((hash_iter (PeerMap_list_routes M)).*1, false)
  else match PeerMap_get_peer_id_by_ipv6 M a with
  | Some p => ([p], false)
  | None =>
    if is_unicast_link_local a then ([], false)
    else match r_get_public_ipv6_gateway_peer_id (g_route cfg) with
    | Some p => ([p], false)
    | None =>
      match find_exit_node (fun n => match n with
                                     | inr e => PeerMap_get_peer_id_by_ipv6 M e
                                     | inl _ => None
                                     end) (g_exit_nodes cfg) with
      | Some p => ([p], true)
      | None => ([], false)
      end
    end
  end.
Definition get_msg_dst_peer (M : PeerMap) (ip : Z + Z) : list Z * bool :=
  match ip with
  | inl a => get_msg_dst_peer_ipv4 M a
  | inr a => get_msg_dst_peer_ipv6 M a
  end.

(** *** One copy per peer *)

Definition edit_header (p : ZCPacket) (g : PeerManagerHeader -> PeerManagerHeader) : comp ZCPacket :=
  '(h, put) ← unwrap (mut_peer_manager_header p); Ret (put (g h)).
Definition with_to_peer (h : PeerManagerHeader) (id : Z) : PeerManagerHeader :=
  {| from_peer_id := from_peer_id h; to_peer_id := id; pm_packet_type := pm_packet_type h;
     flags := flags h; forward_counter := forward_counter h; reserved := reserved h;
     pm_len := pm_len h |}.

(** The header of the copy for [id]. *)
Definition address_copy (not_send_to_self : bool) (ip : Z + Z) (id : Z) (h : PeerManagerHeader)
    : PeerManagerHeader :=
  let h := with_to_peer h id in
  if negb (g_local_exit_node_fallback cfg) && not_send_to_self && (id =? g_my_peer_id cfg)
     && negb (is_ip_local_virtual_ip ip)
  then set_no_proxy (set_not_send_to_tun h true) true else h.

Fixpoint send_copies (env : Env) (msg : ZCPacket) (ip : Z + Z) (not_send_to_self mark : bool)
    (dst : list Z) : act Core (list PeerError) :=
  match dst with
  | [] => mret []
  | id :: dst =>
    (if mark then mark_recent_traffic env id else mret tt) ;;
    p2p ← gets (fun c => check_p2p_only_before_send c id);
    match p2p with
    | Err e => l ← send_copies env msg ip not_send_to_self mark dst; mret (e :: l)
    | Ok _ =>
      copy ← lift (edit_header msg (address_copy not_send_to_self ip id));
      r ← send_msg_internal env copy id;
      l ← send_copies env msg ip not_send_to_self mark dst;
      mret (match r with Ok _ => l | Err e => e :: l end)
    end
  end.

Definition send_msg_by_ip (env : Env) (msg : ZCPacket) (ip : Z + Z) (not_send_to_self : bool)
    : act Core (result PeerError unit) :=
  msg ← lift (fill_peer_manager_hdr msg (g_my_peer_id cfg) 0 (u8_of Data));
  '(msg, ok) ← run_nic_packet_process_pipeline env msg;
  if negb ok then mret (Ok tt) else
  h ← lift (unwrap (peer_manager_header msg));
  if negb (to_peer_id h =? 0) then
    mark_recent_traffic env (to_peer_id h) ;; send_msg_internal env msg (to_peer_id h)
  else
    '(dst, is_exit) ← gets (fun c => get_msg_dst_peer (c_peers c) ip);
    match dst with
    | [] => mret (Ok tt)
    | _ =>
      '(msg, r) ← lift (try_compress_and_encrypt env msg);
      match r with
      | Err e => mret (Err e)
      | Ok _ =>
        msg ← lift (edit_header msg (fun h =>
                set_exit_node (set_latency_first h (pp_latency_first packet_policy)) is_exit));
        errs ← send_copies env msg ip not_send_to_self
                 (should_mark_recent_traffic_for_fanout (length dst)) dst;
        mret (match errs with [] => Ok tt | _ => Err Other end)
      end
    end.

(** ** From the network *)

Definition forward_foreign_network_packet (name : list Z) (dst : Z) (msg : ZCPacket)
    : act Core (result PeerError unit) := fun c =>
  match c_foreign_networks c !! name with
  | None => Ret (c, Err RouteError)
  | Some e =>
    let '(M, (l, r)) := PeerMap_send_msg (fe_peer_map e) msg dst LeastHop in
    let c := set_foreign_networks c
      (<[name := {| fe_my_peer_id := fe_my_peer_id e; fe_peer_map := M |}]> (c_foreign_networks c)) in
    Ret (set_world c (set_peers (c_world c) (c_peers c) l), r)
  end.

(** [None] when the packet is taken. *)
Definition try_handle_foreign_network_packet (p : ZCPacket) (drop_relay_data : bool)
    : act Core (option ZCPacket) :=
  h ← lift (unwrap (peer_manager_header p));
  if negb (pm_packet_type h =? u8_of ForeignNetworkPacket) then mret (Some p) else
  if drop_relay_data then mret None else
  fh ← lift (o ← foreign_network_hdr p; unwrap o);
  name ← lift (s ← payload p; get_network_name fh s);
  let foreign_peer_id := fn_get_dst_peer_id fh in
  my_id ← gets (fun c => fe_my_peer_id <$> c_foreign_networks c !! name);
  if to_peer_id h =? g_my_peer_id cfg then
    inner ← lift (foreign_network_packet p);
    forward_foreign_network_packet name foreign_peer_id inner ;; mret None
  else if bool_decide (my_id = Some (from_peer_id h)) then
    origin ← gets (fun c => get_origin_my_peer_id (c_peers c) name (to_peer_id h));
    match origin with
    | None => mret (Some p)
    | Some to =>
      p ← lift (edit_header p (fun h => with_to_peer h to));
      on_peers (fun M => PeerMap_send_msg M p to LeastHop) ;; mret None
    end
  else mret (Some p).

Fixpoint run_peer_filters (l : list PeerPipelineEntry) (p : ZCPacket) : act Core bool :=
  match l with
  | [] => mret false
  | e :: l =>
    o ← match filter_if_active e with Some g => g p | None => mret (Some p) end;
    match o with None => mret true | Some p => run_peer_filters l p end
  end.

Definition with_forward (h : PeerManagerHeader) (n : Z) : PeerManagerHeader :=
  {| from_peer_id := from_peer_id h; to_peer_id := to_peer_id h; pm_packet_type := pm_packet_type h;
     flags := flags h; forward_counter := n; reserved := reserved h; pm_len := pm_len h |}.

(** A packet for another node. *)
Definition forward_packet (env : Env) (p : ZCPacket) (h : PeerManagerHeader) (drop : bool)
    : act Core unit :=
  if drop then mret tt else
  if 7 <? forward_counter h then mret tt else
  if g_is_credential_node cfg
     && one_of (pm_packet_type h) [HandShake; NoiseHandshakeMsg1; NoiseHandshakeMsg2; NoiseHandshakeMsg3]
  then mret tt else
  p ← lift (edit_header p (fun h =>
        let h := if (2 <? forward_counter h) && is_latency_first h then set_latency_first h false else h in
        with_forward h (forward_counter h + 1)));
  p ← (if (from_peer_id h =? g_my_peer_id cfg) && one_of (pm_packet_type h) [Data; KcpSrc; KcpDst]
       then lift (fst <$> try_compress_and_encrypt env p) else mret p);
  send_msg_internal env p (to_peer_id h) ;; mret tt.

(** The inbound transformations of a packet for this node: [None] when it is
    dropped. *)
Definition open_packet (env : Env) (p : ZCPacket) (h : PeerManagerHeader) : act Core (option ZCPacket) :=
  o ← (if negb (g_secure_mode_enabled cfg) then
         '(p, r) ← lift (e_decrypt (g_encryptor cfg) p);
         mret (match r with Ok _ => Some p | Err _ => None end)
       else if is_encrypted h then
         '(tasks, p, r) ← on_world (decrypt_if_needed f (ev_relay env) p);
         modify (fun c => add_tasks c tasks []) ;;
         mret (match r with Ok true => Some p | _ => None end)
       else mret (Some p));
  match o with
  | None => mret None
  | Some p =>
    '(p, r) ← lift (decompress p);
    mret (match r with Ok _ => Some p | Err _ => None end)
  end.

(** A packet for this node. *)
Definition receive_packet (env : Env) (p : ZCPacket) (h : PeerManagerHeader) : act Core unit :=
  if one_of (pm_packet_type h) [RelayHandshake; RelayHandshakeAck] then
    '(answer, _) ← on_world (handle_handshake_packet f (ev_relay env) p);
    modify (fun c => add_tasks c [] (match answer with Some a => [a] | None => [] end))
  else
    o ← open_packet env p h;
    match o with
    | None => mret tt
    | Some p =>
      ok ← run_acl env p true (fst <$> g_ipv4 cfg) is_ip_local_ipv6;
      if negb ok then mret tt else
      run_peer_filters (rev (g_peer_pipeline cfg)) p ;; mret tt
    end.

Definition handle_packet (env : Env) (p : ZCPacket) (disable_relay_data : bool)
    (ingress : PeerPacketIngress) : act Core unit :=
  attached ← gets (fun c => match peer_manager_header p with
                            | Some h => has_direct_attached_peer (c_peers c) (to_peer_id h)
                            | None => false
                            end);
  drop ← lift (should_drop_relay_data disable_relay_data p (g_my_peer_id cfg) ingress attached);
  match peer_manager_header p with
  | None => mret tt
  | Some h =>
    if negb (to_peer_id h =? g_my_peer_id cfg) then forward_packet env p h drop
    else receive_packet env p h
  end.

(** The body of the loop of [run]. *)
Definition router_step (env : Env) (p : ZCPacket) (ingress : PeerPacketIngress) : act Core unit :=
  let disable_relay_data := pp_disable_relay_data packet_policy in
  attached ← gets (fun c => match peer_manager_header p with
                            | Some h => has_direct_attached_peer (c_peers c) (to_peer_id h)
                            | None => false
                            end);
  data ← lift (if disable_relay_data then is_relay_data_zc_packet p else Ret false);
  let drop := disable_relay_data && data && negb (ingress_is_attached ingress) && negb attached in
  o ← try_handle_foreign_network_packet p drop;
  match o with
  | None => mret tt
  | Some p => handle_packet env p disable_relay_data ingress
  end.
End operations.
End core.
