(* ===== verification/PacketPath.v ===== *)
(** What happens to a packet on its way, by parts: ciphers and compressors
    change the payload and one flag of the header, and undo this under every
    other header and every tunnel that the packet arrives with, so that relays
    may edit the header and tunnels may wrap the packet anew. *)
From stdpp Require Import list.
From S2P Require Import Prelude Headers Packet Encrypt Compressor.
Local Open Scope Z_scope.

(** ** Flags *)

Lemma contains_set_other g b h i : g ∈ all_flags -> i ∈ all_flags -> g <> i ->
  contains (flags (set_flag g b h)) i = contains (flags h) i.
Proof.
  intros Hg Hi Hne. destruct (all_flags_bit g Hg) as (m & Hm & ->), (all_flags_bit i Hi) as (n & Hn & ->).
  rewrite !contains_testbit, set_flag_testbit by lia.
  destruct (Z.eqb_spec m n) as [->|]; done.
Qed.

(** Writing a flag twice, the second time as it was. *)
Lemma set_flag_again g b h : g ∈ all_flags -> contains (flags h) g = b ->
  set_flag g b (set_flag g false h) = h.
Proof.
  intros Hg. destruct (all_flags_bit g Hg) as (i & Hi & ->).
  rewrite contains_testbit by lia. intros Hb.
  destruct h as [a1 b1 c fl d e g0]. cbn [flags] in Hb.
  enough (E : flags (set_flag (2 ^ i) b (set_flag (2 ^ i) false (Build_PeerManagerHeader a1 b1 c fl d e g0))) = fl).
  { unfold set_flag, with_flags in *. cbn in *. by rewrite E. }
  apply Z.bits_inj'. intros n Hn. rewrite !set_flag_testbit by lia. cbn [flags].
  destruct (Z.eqb_spec i n) as [<-|]; done.
Qed.

Lemma set_flag_id g b h : g ∈ all_flags -> contains (flags h) g = b -> set_flag g b h = h.
Proof.
  intros Hg Hc. rewrite <- (set_flag_again g b h Hg Hc) at 2.
  destruct (all_flags_bit g Hg) as (i & Hi & ->). destruct h as [a1 b1 c fl d e g0].
  unfold set_flag, with_flags. cbn [flags]. f_equal. apply Z.bits_inj'. intros n Hn.
  destruct b; rewrite ?Z.lor_spec, ?Z.ldiff_spec, ?Z.pow2_bits_eqb by lia;
    destruct (i =? n), (Z.testbit fl n); done.
Qed.

Lemma flag_in (g : Z) : bool_decide (g ∈ all_flags) = true -> g ∈ all_flags.
Proof. by rewrite bool_decide_eq_true. Qed.

(** ** Ciphers *)

(** What the node's encryptor promises for packets that travel. *)
Class PathCipher (E : Encryptor) := path_cipher : forall rng t tun h pl p',
  parts_ok t tun h -> is_encrypted h = false -> nonce_ok rng ->
  e_encrypt E rng (mk_packet t tun h pl) = Ret (p', Ok tt) ->
  exists b pl', p' = mk_packet t tun (set_encrypted h b) pl' /\
    forall t2 tun2 x, parts_ok t2 tun2 x -> is_encrypted x = b ->
      e_decrypt E (mk_packet t2 tun2 x pl') = Ret (mk_packet t2 tun2 (set_encrypted x false) pl, Ok tt).

Lemma set_encrypted_false h : is_encrypted h = false -> set_encrypted h false = h.
Proof. apply (set_flag_id ENCRYPTED), encrypted_flag. Qed.

Lemma as_encrypted x b : is_encrypted x = b ->
  x = set_encrypted (set_encrypted x false) b /\ is_encrypted (set_encrypted x false) = false.
Proof.
  intros Hx. split; [|apply is_encrypted_set].
  symmetry. by apply (set_flag_again ENCRYPTED); [exact encrypted_flag|].
Qed.

#[export] Instance Null_path : PathCipher NullCipher.
Proof.
  intros rng t tun h pl p' Hok Hh _ Hs. cbn in Hs. unfold NullCipher_encrypt in Hs. simplify_eq.
  exists false, pl. rewrite set_encrypted_false by done. split; [done|].
  intros t2 tun2 x Hx Hb. cbn. unfold NullCipher_decrypt.
  rewrite parts_header by done. cbn [unwrap mbind comp_bind]. by rewrite Hb, set_encrypted_false.
Qed.

#[export] Instance Xor_path key : PathCipher (XorCipher_encryptor key).
Proof.
  intros rng t tun h pl p' Hok Hh _ Hs. cbn [e_encrypt XorCipher_encryptor] in Hs.
  rewrite xor_encrypt_parts in Hs by done. simplify_eq.
  exists true, (xor_data key pl). split; [done|]. intros t2 tun2 x Hx Hb.
  cbn [e_decrypt XorCipher_encryptor]. by rewrite xor_decrypt_parts, xor_data_involutive.
Qed.

#[export] Instance Unsupported_path c : PathCipher (UnsupportedCipher_encryptor c).
Proof. by intros rng t tun h pl p' Hok Hh _ Hs. Qed.

(** From the seal and open lemmas of a backend. *)
Ltac path_backend seal_lemma open_lemma k :=
  intros rng t tun h pl p' Hok Hh Hn Hs;
  destruct (seal_lemma t tun pl rng None h Hok Hh k p' Hs) as (ct & tg & Heq & ->);
  exists true, (ct ++ StandardAeadTail_as_bytes {| tag := tg; nonce := rng |});
  split; [done|]; intros t2 tun2 x Hx Hb;
  destruct (as_encrypted x true Hb) as [Hx1 Hx2];
  assert (Hok2 : parts_ok t2 tun2 (set_encrypted x false)) by (by apply parts_ok_encrypted);
  rewrite Hx1 at 1; by apply open_lemma.

Section aead.
Context {L : CryptoLib} {HL : CryptoLaws L}.
#[export] Instance AesGcm_path c : PathCipher (AesGcmCipher_encryptor c).
Proof using HL. path_backend (aes_gcm_seal) (aes_gcm_open) c. Qed.
#[export] Instance ChaCha20_path key : PathCipher (ChaCha20Cipher_encryptor key).
Proof using HL. path_backend (chacha20_seal) (chacha20_open) key. Qed.
#[export] Instance Ring_path c : PathCipher (RingCipher_encryptor c).
Proof using HL. path_backend (ring_cipher_seal) (ring_cipher_open) c. Qed.
#[export] Instance OpenSsl_path c : PathCipher (OpenSslCipher_encryptor c).
Proof using HL. path_backend (openssl_seal) (openssl_open) c. Qed.

#[export] Instance create_encryptor_path f alg k1 k2 : PathCipher (create_encryptor f alg k1 k2).
Proof using HL.
  destruct (create_encryptor_cases f alg k1 k2)
    as [(e & _ & c & -> & _)|(_ & [-> | [(c & ->) | [(c & ->) | [(c & ->) | (c & ->)]]]])];
    apply _.
Qed.
End aead.

(** ** Compression *)

Section compression.
Context {z : Zstd} {Hz : ZstdLaws z}.

Lemma set_compressed_false h : is_compressed h = false -> set_compressed h false = h.
Proof. apply (set_flag_id COMPRESSED), compressed_flag. Qed.

Lemma compress_path a t tun h pl p' :
  parts_ok t tun h -> is_compressed h = false ->
  (forall c, zstd_bulk_compress pl = Some c -> len pl <= Z.max (32 * len c) 65536) ->
  compress (mk_packet t tun h pl) a = Ret (p', Ok tt) ->
  exists b pl', p' = mk_packet t tun (set_compressed h b) pl' /\
    forall t2 tun2 x, parts_ok t2 tun2 x -> is_compressed x = b -> pm_len x = len pl ->
      decompress (mk_packet t2 tun2 x pl') = Ret (mk_packet t2 tun2 (set_compressed x false) pl, Ok tt).
Proof using Hz.
  intros Hok Hnc Hc Hrun.
  assert (Hplain : exists b pl', mk_packet t tun h pl = mk_packet t tun (set_compressed h b) pl' /\
    forall t2 tun2 x, parts_ok t2 tun2 x -> is_compressed x = b -> pm_len x = len pl ->
      decompress (mk_packet t2 tun2 x pl') = Ret (mk_packet t2 tun2 (set_compressed x false) pl, Ok tt)).
  { exists false, pl. rewrite set_compressed_false by done. split; [done|].
    intros t2 tun2 x Hx Hb _. unfold decompress. rewrite parts_header by done. cbn [unwrap mbind comp_bind].
    by rewrite Hb, set_compressed_false. }
  destruct a; [cbn in Hrun; by simplify_eq|].
  destruct (compress_parts _ _ _ _ Hok Hnc _ Hrun) as [->|(buf & Ez & Eb & Hlen & ->)]; [done|].
  exists true, (buf ++ CompressorTail_as_bytes (CompressorTail_new ZstdDefault)). split; [done|].
  intros t2 tun2 x Hx Hb Hl.
  assert (Hx1 : x = set_compressed (set_compressed x false) true)
    by (symmetry; by apply (set_flag_again COMPRESSED); [exact compressed_flag|]).
  rewrite Hx1 at 1. apply decompress_packed; try done; [by apply parts_ok_compressed| |by apply Hc].
  apply (contains_set_flag COMPRESSED), compressed_flag.
Qed.
End compression.
