(* ===== verification/PacketRouterProofs.v ===== *)
(** Theorems on the data path: a packet of the host that is sent by address
    reaches the NIC of the node that has the address, unchanged, along the next
    hops of the nodes on the way; every packet is forwarded a bounded number of
    times; only what was meant for it reaches the NIC. *)
From stdpp Require Import list gmap strings relations.
From S2P Require Import Prelude Headers Packet Encrypt Compressor ReplayWindow SecureDatagram PeerSession.
From S2P Require Import TokenBucket Acl AclFilter RouteMessages RouteTable RouteSync PeerConns.
From S2P Require Import PeerConnsProofs RelayPeerMap PacketRouter PacketPath.
Local Open Scope Z_scope.

(** Unfolds the state monad of the goal, or of a hypothesis. *)
Ltac run_act := cbv [mbind act_bind comp_bind gets modify lift mret act_ret comp_ret unwrap].
Ltac run_act_in H := cbv [mbind act_bind comp_bind gets modify lift mret act_ret comp_ret unwrap] in H.

(** ** Peers that can be reached *)

Section links.
Context {O : HashOrder} {CE : ConnEnv}.

(** A peer with a connection, whose connections take packets. *)
Definition usable (M : PeerMap) (v : Z) : Prop := exists P,
  pm_peers M !! v = Some P /\ conns_ok P /\ peer_conns P <> ∅ /\ peer_node_id P = v /\
  forall i c p, peer_conns P !! i = Some c -> sink_ok i p = true.

(** Sending changes only which connection is the default. *)
Record links_kept (M M' : PeerMap) : Prop := {
  lk_me : pm_my_peer_id M' = pm_my_peer_id M;
  lk_routes : pm_routes M' = pm_routes M;
  lk_dom : forall u, is_Some (pm_peers M' !! u) <-> is_Some (pm_peers M !! u);
  lk_usable : forall u, usable M u -> usable M' u }.

Lemma links_refl M : links_kept M M.
Proof. by split. Qed.

Lemma links_has_peer M M' v : links_kept M M' -> has_peer M' v = has_peer M v.
Proof.
  intros [Hm _ Hd _]. unfold has_peer. rewrite Hm. f_equal. apply bool_decide_ext, Hd.
Qed.
Lemma links_gateway M M' B pol : links_kept M M' ->
  get_gateway_peer_id M' B pol = get_gateway_peer_id M B pol.
Proof.
  intros Hl. unfold get_gateway_peer_id.
  by rewrite (links_has_peer _ _ _ Hl), (lk_me _ _ Hl), (lk_routes _ _ Hl).
Qed.

Lemma usable_has_peer M v : usable M v -> has_peer M v = true.
Proof.
  intros (P & HP & _). unfold has_peer. rewrite HP. rewrite bool_decide_eq_true_2 by done.
  apply orb_true_r.
Qed.

Lemma peer_send_usable M v P msg : usable M v -> pm_peers M !! v = Some P ->
  exists P' cid, Peer_send_msg P msg = (P', ([OnConn v cid msg], Ok tt)) /\
    links_kept M (put_peer M P' v).
Proof.
  intros (P0 & HP0 & Hok & Hne & Hid & Hsink) HP. rewrite HP in HP0. injection HP0 as <-.
  destruct (Peer_send_msg P msg) as [P' [out r]] eqn:Es.
  pose proof (send_spec _ _ _ _ _ Hok Es) as Hs.
  assert (E1 : P' = (select_conn P).1) by (rewrite <- send_state with (msg := msg), Es; done).
  destruct (select_same P) as (E2 & _ & _). rewrite <- E1 in E2.
  destruct (default_conn P') as [c|] eqn:Ed; [|by destruct Hs].
  destruct Hs as (Hc & Hout & _). unfold conn_send in Hout. rewrite (Hsink _ _ msg Hc), Hid in Hout.
  simplify_eq. eexists _, _. split; [done|]. split; cbn; try done.
  - intros u. destruct (decide (u = peer_node_id P)) as [->|Hu].
    + rewrite lookup_insert_eq, HP. split; intros _; by eexists.
    + by rewrite lookup_insert_ne.
  - intros u Hu. destruct (decide (u = peer_node_id P)) as [->|Hne2].
    + exists (select_conn P).1. cbn. rewrite lookup_insert_eq. split_and!; [done|by apply select_ok| | |].
      * by rewrite E2.
      * unfold select_conn. repeat case_match; done.
      * rewrite E2. apply Hsink.
    + destruct Hu as (Q & HQ & Hrest). exists Q. cbn. by rewrite lookup_insert_ne.
Qed.

Lemma direct_send_usable M v msg : usable M v -> v <> pm_my_peer_id M ->
  exists M' cid, PeerMap_send_msg_directly M msg v = (M', ([OnConn v cid msg], Ok tt)) /\
    links_kept M M'.
Proof.
  intros Hu Hv. assert (Hu' := Hu). destruct Hu' as (P & HP & _).
  destruct (peer_send_usable M v P msg Hu HP) as (P' & cid & Es & Hl).
  exists (put_peer M P' v), cid. split; [|done]. unfold PeerMap_send_msg_directly, get_peer_by_id.
  by rewrite (proj2 (Z.eqb_neq _ _) Hv), HP, Es.
Qed.
End links.

(** ** Nodes on the way *)

Section delivery.
Context {GS : Type} {C : CidrLib} {T : Target} {H : HmacLib} {L : CryptoLib} (f : Features).
Context {O : HashOrder} {CE : ConnEnv} {N : NoiseLib} {Pb : RelayPb} {z : Zstd} {Ad : AddrLib}.
Abbreviation NodeConfig := (@CoreConfig GS C).
Abbreviation NodeCore := (@Core GS C).

(** What is not touched by sending. *)
Record quiet (c c' : NodeCore) : Prop := {
  q_foreign : c_foreign_networks c' = c_foreign_networks c; q_acl : c_acl c' = c_acl c;
  q_nic : c_nic c' = c_nic c; q_rpc : c_rpc c' = c_rpc c; q_gateway : c_gateway c' = c_gateway c }.

(** Node [id], which sends packets for [B] to the usable peer [hop policy]. *)
Record node_ok (cfg : NodeConfig) (id B : Z) (hop : NextHopPolicy -> option Z) (c : NodeCore) : Prop := {
  no_id : g_my_peer_id cfg = id /\ pm_my_peer_id (c_peers c) = id;
  no_clear : g_secure_mode_enabled cfg = false /\
             rp_is_secure_mode_enabled (w_relay (c_world c)) = false;
  no_foreign : exists F, w_foreign (c_world c) = Some F /\ pm_peers F = ∅ /\ pm_my_peer_id F = id;
  no_hop : forall pol v, hop pol = Some v -> get_gateway_peer_id (c_peers c) B pol = Some v /\
             v <> id /\ usable (c_peers c) v }.

Lemma node_ok_links cfg id B hop c w : node_ok cfg id B hop c ->
  links_kept (c_peers c) (w_peers w) -> w_foreign w = w_foreign (c_world c) ->
  rp_is_secure_mode_enabled (w_relay w) = rp_is_secure_mode_enabled (w_relay (c_world c)) ->
  node_ok cfg id B hop (set_world c w).
Proof.
  intros [[H1 H2] [H3 H4] HF Hh] Hl Ef Es. split; cbn.
  - split; [done|]. unfold c_peers; cbn. by rewrite (lk_me _ _ Hl).
  - by rewrite Es.
  - by rewrite Ef.
  - intros pol v Hv. unfold c_peers; cbn. destruct (Hh pol v Hv) as (E & Hne & Hu).
    rewrite (links_gateway _ _ _ _ Hl). split_and!; [done|done|by apply (lk_usable _ _ Hl)].
Qed.

Lemma next_hop_send W msg B pol v : get_gateway_peer_id (w_peers W) B pol = Some v ->
  v <> pm_my_peer_id (w_peers W) -> usable (w_peers W) v ->
  exists M' cid, send_via_next_hop msg B pol W = Ret (set_peers W M' [OnConn v cid msg], Ok tt) /\
    links_kept (w_peers W) M'.
Proof.
  intros Eg Hne Hu. destruct (direct_send_usable (w_peers W) v msg Hu Hne) as (M' & cid & Es & Hl).
  exists M', cid. split; [|done]. unfold send_via_next_hop.
  by rewrite Eg, (usable_has_peer _ _ Hu), Es.
Qed.

(** Through the relay map of a node that is not in secure mode. *)
Lemma via_relay_spec env cfg id B hop c msg pol v : node_ok cfg id B hop c -> hop pol = Some v ->
  exists c' cid, via_relay f env msg B pol c = Ret (c', Ok tt) /\
    c_sent c' = c_sent c ++ [OnConn v cid msg] /\ quiet c c' /\ node_ok cfg id B hop c'.
Proof.
  intros Hok Hv. destruct (no_hop _ _ _ _ _ Hok pol v Hv) as (Eg & Hne & Hu).
  destruct (no_clear _ _ _ _ _ Hok) as [_ Hsec]. destruct (no_id _ _ _ _ _ Hok) as [_ Hid].
  set (W1 := set_relay (c_world c) (touch_state (w_relay (c_world c)) B (re_now (ev_relay env)))).
  destruct (next_hop_send W1 msg B pol v) as (M' & cid & Es & Hl); [done|by rewrite <- Hid in Hne|done|].
  exists (add_tasks (set_world c (set_peers W1 M' [OnConn v cid msg])) [] []), cid. split_and!.
  - unfold via_relay, on_world, relay_send_msg, on_relay. run_act. fold W1.
    replace (rp_is_secure_mode_enabled (w_relay W1)) with false by (symmetry; exact Hsec). cbn [negb].
    by rewrite Es.
  - done.
  - by split.
  - destruct (node_ok_links cfg id B hop c (set_peers W1 M' [OnConn v cid msg]) Hok Hl) as [? ? ? ?];
      [done|done|]. by split.
Qed.

Lemma send_internal_spec env cfg id B hop c msg h v :
  node_ok cfg id B hop c -> B <> id -> peer_manager_header msg = Some h ->
  hop (get_next_hop_policy (is_latency_first h)) = Some v ->
  exists c' cid, send_msg_internal f cfg env msg B c = Ret (c', Ok tt) /\
    c_sent c' = c_sent c ++ [OnConn v cid msg] /\ quiet c c' /\ node_ok cfg id B hop c'.
Proof.
  intros Hok HB Hh Hv. destruct (no_hop _ _ _ _ _ Hok _ v Hv) as (Eg & Hne & Hu).
  destruct (no_id _ _ _ _ _ Hok) as [Hg Hid].
  pose proof (via_relay_spec env cfg id B hop c msg _ v Hok Hv) as Hrelay.
  assert (HF : forall u, u <> id -> foreign_has_next_hop (foreign_client cfg c) u = false).
  { intros u Hu'. destruct (no_foreign _ _ _ _ _ Hok) as (F & EF & Ep & Em).
    unfold foreign_client, foreign_has_next_hop, foreign_get_next_hop, has_peer. rewrite EF. cbn.
    by rewrite Em, (proj2 (Z.eqb_neq _ _) Hu'), Ep. }
  assert (Hdirect : forall P, v = B -> get_peer_by_id (c_peers c) B = Some P ->
    exists c' cid, on_peers (fun M => let '(P, r) := Peer_send_msg P msg in (put_peer M P B, r)) c =
      Ret (c', Ok tt) /\ c_sent c' = c_sent c ++ [OnConn v cid msg] /\ quiet c c' /\ node_ok cfg id B hop c').
  { intros P -> HP. destruct (peer_send_usable (c_peers c) B P msg Hu HP) as (P' & cid & Es & Hl).
    exists (set_world c (set_peers (c_world c) (put_peer (c_peers c) P' B) [OnConn B cid msg])), cid.
    split_and!; [unfold on_peers; by rewrite Es|done|by split|by apply node_ok_links]. }
  unfold send_msg_internal. run_act. rewrite Hh.
  destruct (is_latency_first h) eqn:El; cbn [get_next_hop_policy] in *.
  - rewrite Eg. destruct (Z.eqb_spec v B) as [EvB|EvB].
    + destruct Hu as (P & HP & ?). rewrite EvB in HP. unfold get_peer_by_id. rewrite HP.
      apply Hdirect; done.
    + rewrite (usable_has_peer _ _ Hu). apply Hrelay.
  - destruct (get_peer_by_id (c_peers c) B) as [P|] eqn:EP.
    + apply Hdirect; [|done]. unfold get_gateway_peer_id in Eg.
      rewrite Hid, (proj2 (Z.eqb_neq _ _) HB) in Eg. unfold has_peer in Eg.
      unfold get_peer_by_id in EP. rewrite EP, bool_decide_eq_true_2, orb_true_r in Eg by done.
      cbn in Eg. congruence.
    + unfold is_self. rewrite Hid, (proj2 (Z.eqb_neq _ _) HB), (HF B HB), Eg, (usable_has_peer _ _ Hu).
      apply Hrelay.
Qed.

(** *** Forwarding *)

Lemma edit_parts t tun h pl g : parts_ok t tun h ->
  edit_header (mk_packet t tun h pl) g = Ret (mk_packet t tun (g h) pl).
Proof.
  intros Hok. unfold edit_header. rewrite parts_mut_header by done. cbn [unwrap mbind comp_bind].
  by rewrite parts_put_header.
Qed.

(** The header that a relay sends on. *)
Definition forwarded (h : PeerManagerHeader) : PeerManagerHeader :=
  let h := if (2 <? forward_counter h) && is_latency_first h then set_latency_first h false else h in
  with_forward h (forward_counter h + 1).

Lemma latency_flag : LATENCY_FIRST ∈ all_flags.
Proof. by apply (bool_decide_unpack _). Qed.

Lemma with_forward_wf h n : PeerManagerHeader_wf h -> u8 n -> PeerManagerHeader_wf (with_forward h n).
Proof.
  intros (?&?&?&?&?&?&?) Hn. unfold PeerManagerHeader_wf, with_forward.
  cbn [from_peer_id to_peer_id pm_packet_type flags forward_counter reserved pm_len]. by split_and!.
Qed.

Lemma forwarded_same h : from_peer_id (forwarded h) = from_peer_id h /\
  to_peer_id (forwarded h) = to_peer_id h /\ pm_packet_type (forwarded h) = pm_packet_type h /\
  pm_len (forwarded h) = pm_len h /\ forward_counter (forwarded h) = forward_counter h + 1 /\
  forall g, g ∈ all_flags -> g <> LATENCY_FIRST -> contains (flags (forwarded h)) g = contains (flags h) g.
Proof.
  unfold forwarded. destruct (_ && _); split_and!; try done.
  intros g Hg Hne. cbn [flags with_forward]. by apply contains_set_other; [exact latency_flag|..].
Qed.

Lemma forwarded_latency h : is_latency_first (forwarded h) =
  is_latency_first h && negb (2 <? forward_counter h).
Proof.
  unfold forwarded. destruct (2 <? forward_counter h) eqn:E2, (is_latency_first h) eqn:El;
    cbn [andb negb]; try exact El.
  apply (contains_set_flag LATENCY_FIRST false h). exact latency_flag.
Qed.

Lemma forwarded_wf h : PeerManagerHeader_wf h -> forward_counter h <= 7 ->
  PeerManagerHeader_wf (forwarded h).
Proof.
  intros Hw Hc. unfold forwarded. apply with_forward_wf.
  - destruct (_ && _); [apply set_flag_wf; [exact latency_flag|done]|done].
  - assert (u8 (forward_counter h)) by apply Hw. unfold in_range in *.
    destruct (_ && _); cbn [forward_counter set_latency_first set_flag with_flags]; lia.
Qed.

Lemma pass_foreign cfg (p : ZCPacket) h drop (c : NodeCore) : peer_manager_header p = Some h ->
  pm_packet_type h <> u8_of ForeignNetworkPacket ->
  try_handle_foreign_network_packet cfg p drop c = Ret (c, Some p).
Proof.
  intros Hh Ht. unfold try_handle_foreign_network_packet. run_act. rewrite Hh.
  by rewrite (proj2 (Z.eqb_neq _ _) Ht).
Qed.

(** A node that relays data hands every other packet to [handle_packet]. *)
Lemma router_step_handles env cfg p h ingress (c : NodeCore) : peer_manager_header p = Some h ->
  pm_packet_type h <> u8_of ForeignNetworkPacket -> fl_disable_relay_data (g_flags cfg) = false ->
  router_step f cfg env p ingress c =
  if negb (to_peer_id h =? g_my_peer_id cfg) then forward_packet f cfg env p h false c
  else receive_packet f cfg env p h c.
Proof.
  intros Hh Ht Hd. unfold router_step, packet_policy, PeerPacketPolicy_from_flags. cbn [pp_disable_relay_data].
  rewrite Hd. cbn [andb]. run_act. rewrite (pass_foreign cfg p h _ c Hh Ht).
  unfold handle_packet, should_drop_relay_data. cbn [negb]. run_act. rewrite Hh. by destruct (negb _).
Qed.

Lemma forward_spec env cfg id B hop (c : NodeCore) t tun h pl ingress v :
  node_ok cfg id B hop c -> fl_disable_relay_data (g_flags cfg) = false ->
  parts_ok t tun h -> to_peer_id h = B -> B <> id -> from_peer_id h <> id ->
  pm_packet_type h = u8_of Data -> forward_counter h <= 7 ->
  hop (get_next_hop_policy (is_latency_first (forwarded h))) = Some v ->
  exists c' cid, router_step f cfg env (mk_packet t tun h pl) ingress c = Ret (c', tt) /\
    c_sent c' = c_sent c ++ [OnConn v cid (mk_packet t tun (forwarded h) pl)] /\
    quiet c c' /\ node_ok cfg id B hop c'.
Proof.
  intros Hok Hd Hp Hto HB Hfrom Ht Hc Hv. destruct (no_id _ _ _ _ _ Hok) as [Hg _].
  assert (Hp' : parts_ok t tun (forwarded h)) by (split; [apply Hp|apply forwarded_wf; [apply Hp|done]]).
  destruct (send_internal_spec env cfg id B hop c (mk_packet t tun (forwarded h) pl) (forwarded h) v)
    as (c' & cid & Es & Hs & Hq & Hn); [done|done|by apply parts_header|done|].
  exists c', cid. split_and!; [|done..].
  rewrite (router_step_handles env cfg _ h); [|by apply parts_header|by rewrite Ht|done].
  rewrite Hto, Hg, (proj2 (Z.eqb_neq _ _) HB). cbn [negb]. unfold forward_packet.
  rewrite (proj2 (Z.ltb_ge _ _) Hc). 
  replace (one_of (pm_packet_type h) [HandShake; NoiseHandshakeMsg1; NoiseHandshakeMsg2; NoiseHandshakeMsg3])
    with false by (by rewrite Ht). rewrite andb_false_r.
  run_act. rewrite edit_parts by done. fold (forwarded h).
  rewrite Hg, (proj2 (Z.eqb_neq _ _) Hfrom). cbn [andb]. by rewrite Hto, Es.
Qed.

(** *** Arriving *)

(** A filter that has no interest in a packet. *)
Definition passes (p : ZCPacket) (e : PeerPipelineEntry) : Prop :=
  active_entry (pe_active e) = true -> forall c : NodeCore, pe_filter e p c = Ret (c, Some p).

Lemma run_passing p l k (c : NodeCore) : Forall (passes p) l ->
  run_peer_filters (l ++ k) p c = run_peer_filters k p c.
Proof.
  induction 1 as [|e l He _ IH]; [done|]. cbn [app run_peer_filters].
  unfold filter_if_active. destruct (active_entry (pe_active e)) eqn:Ea.
  - cbv [mbind act_bind]. rewrite (He Ea c). exact IH.
  - exact IH.
Qed.

(** The header of an opened packet. *)
Definition opened (x : PeerManagerHeader) : PeerManagerHeader :=
  set_compressed (set_encrypted x false) false.
Lemma opened_same x : from_peer_id (opened x) = from_peer_id x /\ to_peer_id (opened x) = to_peer_id x /\
  pm_packet_type (opened x) = pm_packet_type x /\ pm_len (opened x) = pm_len x /\
  is_encrypted (opened x) = false /\ is_compressed (opened x) = false /\
  is_not_send_to_tun (opened x) = is_not_send_to_tun x.
Proof.
  split_and!; try done.
  - unfold opened, is_encrypted, set_compressed. rewrite contains_set_other; [apply is_encrypted_set|..];
      (done || by apply (bool_decide_unpack _)).
  - unfold is_compressed, opened, set_compressed. apply contains_set_flag. exact compressed_flag.
  - unfold is_not_send_to_tun, opened, set_compressed, set_encrypted.
    by rewrite !contains_set_other by (done || by apply (bool_decide_unpack _)).
Qed.
Lemma opened_ok t tun x : parts_ok t tun x -> parts_ok t tun (opened x).
Proof. intros. by apply parts_ok_compressed, parts_ok_encrypted. Qed.

(** The destination takes the packets of [A] with payload [pl]: its ACL lets
    them pass, the filters of the gateways do not want them, and the NIC
    channel has room. *)
Record accepts (cfg : NodeConfig) (A B : Z) (pl : list Z) (cap : nat) (c : NodeCore) : Prop := {
  ac_pipeline : exists gws, g_peer_pipeline cfg = init_packet_process_pipeline cap [] ++ gws /\
    forall p h, peer_manager_header p = Some h -> payload p = Ret pl -> from_peer_id h = A ->
      to_peer_id h = B -> pm_packet_type h = u8_of Data -> Forall (passes p) gws;
  ac_acl : forall p h now secs, peer_manager_header p = Some h -> payload p = Ret pl ->
    from_peer_id h = A -> to_peer_id h = B -> pm_packet_type h = u8_of Data ->
    exists F, process_packet_with_acl (c_acl c) p true (fst <$> g_ipv4 cfg) (is_ip_local_ipv6 cfg)
      (r_get_peer_groups (g_route cfg)) now secs = Ret (F, true);
  ac_room : (length (c_nic c) < cap)%nat }.

Lemma nic_takes cap p h (c : NodeCore) : peer_manager_header p = Some h ->
  pm_packet_type h = u8_of Data -> is_not_send_to_tun h = false -> is_encrypted h = false ->
  is_compressed h = false -> (length (c_nic c) < cap)%nat ->
  run_peer_filters [permanent_peer_pipeline_entry PeerRpcPacketProcessor;
                    permanent_peer_pipeline_entry (NicPacketProcessor cap)] p c =
  Ret (set_channels c (c_nic c ++ [p]) (c_rpc c), true).
Proof.
  intros Hh Ht Hn He Hc Hr. cbn [run_peer_filters filter_if_active permanent_peer_pipeline_entry
    pe_active pe_filter active_entry]. unfold PeerRpcPacketProcessor, NicPacketProcessor, nic_try_send.
  run_act. rewrite Hh. 
  replace (one_of (pm_packet_type h) [TaRpc; RpcReq; RpcResp]) with false by (by rewrite Ht).
  rewrite Hh, Ht, Hn, He, Hc. rewrite Z.eqb_refl. cbn [andb orb negb].
  by rewrite (proj2 (Nat.ltb_lt _ _) Hr).
Qed.

Lemma receive_spec env cfg A B cap (c : NodeCore) t tun x pl pl' ingress :
  g_my_peer_id cfg = B -> g_secure_mode_enabled cfg = false ->
  fl_disable_relay_data (g_flags cfg) = false -> accepts cfg A B pl cap c ->
  parts_ok t tun x -> from_peer_id x = A -> to_peer_id x = B -> pm_packet_type x = u8_of Data ->
  is_not_send_to_tun x = false ->
  (exists p1, e_decrypt (g_encryptor cfg) (mk_packet t tun x pl') = Ret (p1, Ok tt) /\
     decompress p1 = Ret (mk_packet t tun (opened x) pl, Ok tt)) ->
  exists c', router_step f cfg env (mk_packet t tun x pl') ingress c = Ret (c', tt) /\
    c_sent c' = c_sent c /\ c_nic c' = c_nic c ++ [mk_packet t tun (opened x) pl].
Proof.
  intros Hg Hsec Hd [(gws & Hpipe & Hgw) Hacl Hroom] Hok Hf Ht Hty Htun (p1 & Hdec & Hdcp).
  destruct (opened_same x) as (O1 & O2 & O3 & _ & O5 & O6 & O7).
  assert (Hok' := opened_ok t tun x Hok).
  set (q := mk_packet t tun (opened x) pl) in *.
  assert (Hqh : peer_manager_header q = Some (opened x)) by by apply parts_header.
  assert (Hqp : payload q = Ret pl) by by apply parts_payload.
  destruct (Hacl q (opened x) (ev_acl_now env) (ev_acl_secs env) Hqh Hqp) as (F & HF); [congruence..|].
  exists (set_channels (set_acl c F) (c_nic c ++ [q]) (c_rpc c)). split_and!; [|done|done].
  rewrite (router_step_handles env cfg _ x); [|by apply parts_header|by rewrite Hty|done].
  rewrite Ht, Hg, Z.eqb_refl. cbn [negb]. unfold receive_packet.
  replace (one_of (pm_packet_type x) [RelayHandshake; RelayHandshakeAck]) with false by (by rewrite Hty).
  unfold open_packet, run_acl. run_act. rewrite Hsec. cbn [negb]. rewrite Hdec, Hdcp, HF. cbn [negb].
  rewrite Hpipe, rev_app_distr. rewrite run_passing.
  - cbn [init_packet_process_pipeline append_peer_pipeline app rev].
    rewrite (nic_takes cap q (opened x)); try done; congruence.
  - apply Forall_rev. apply (Hgw q (opened x)); congruence.
Qed.

(** *** Leaving *)

(** The flags that the sender sets do not concern the ones that are read. *)
Lemma flag_facts : EXIT_NODE ∈ all_flags /\ LATENCY_FIRST ∈ all_flags /\ ENCRYPTED ∈ all_flags /\
  COMPRESSED ∈ all_flags /\ NOT_SEND_TO_TUN ∈ all_flags.
Proof. split_and!; by apply (bool_decide_unpack _). Qed.

(** What the wire carries of payload [pl]: whoever receives [pl'] under a header
    with the same two flags and the same length gets it back. *)
Definition carries (E : Encryptor) (x : PeerManagerHeader) (pl pl' : list Z) : Prop :=
  forall t tun y, parts_ok t tun y -> is_encrypted y = is_encrypted x ->
    is_compressed y = is_compressed x -> pm_len y = pm_len x ->
    exists p1, e_decrypt E (mk_packet t tun y pl') = Ret (p1, Ok tt) /\
      decompress p1 = Ret (mk_packet t tun (opened y) pl, Ok tt).

Context {Hz : ZstdLaws z}.

Lemma prepare_spec env (cfg : NodeConfig) t tun h pl p' :
  PathCipher (g_encryptor cfg) -> nonce_ok (ev_rng env) -> g_secure_mode_enabled cfg = false ->
  parts_ok t tun h -> is_encrypted h = false -> is_compressed h = false -> pm_len h = len pl ->
  (forall d, zstd_bulk_compress pl = Some d -> len pl <= Z.max (32 * len d) 65536) ->
  try_compress_and_encrypt cfg env (mk_packet t tun h pl) = Ret (p', Ok tt) ->
  exists b1 b2 pl', p' = mk_packet t tun (set_encrypted (set_compressed h b1) b2) pl' /\
    forall x, is_encrypted x = b2 -> is_compressed x = b1 -> pm_len x = len pl ->
      carries (g_encryptor cfg) x pl pl'.
Proof using Hz.
  intros HE Hn Hsec Hok He Hc Hl Hz32. unfold try_compress_and_encrypt.
  destruct (compress _ _) as [[p1 [[]|e]]|] eqn:Ec; cbn [mbind comp_bind]; [|done|done].
  destruct (compress_path _ _ _ _ _ _ Hok Hc Hz32 Ec) as (b1 & pl1 & -> & Hopen1).
  rewrite Hsec. cbn [negb].
  destruct (e_encrypt _ _ _) as [[p2 [[]|e]]|] eqn:Ee; cbn [mbind comp_bind]; [|done|done].
  intros [= <-].
  assert (Hok1 := parts_ok_compressed t tun h b1 Hok).
  assert (He1 : is_encrypted (set_compressed h b1) = false).
  { unfold is_encrypted, set_compressed. rewrite contains_set_other; [exact He|apply flag_facts..|done]. }
  destruct (HE _ _ _ _ _ _ Hok1 He1 Hn Ee) as (b2 & pl2 & -> & Hopen2).
  exists b1, b2, pl2. split; [done|]. intros x Hx1 Hx2 Hx3 t2 tun2 y Hy Hy1 Hy2 Hy3.
  eexists. split; [apply Hopen2; [done|congruence]|]. unfold opened.
  apply Hopen1; [by apply parts_ok_encrypted| |by rewrite <- Hx3, <- Hy3].
  unfold is_compressed, set_encrypted.
  rewrite contains_set_other; [rewrite <- Hx2, <- Hy2; done|apply flag_facts..|done].
Qed.

(** A packet on the way from [A] to [B]. *)
Record travelling (A B : Z) (E : Encryptor) (pl : list Z) (x : PeerManagerHeader) (pl' : list Z) : Prop := {
  tr_wf : PeerManagerHeader_wf x;
  tr_ends : from_peer_id x = A /\ to_peer_id x = B;
  tr_type : pm_packet_type x = u8_of Data;
  tr_tun : is_not_send_to_tun x = false;
  tr_carries : carries E x pl pl' }.

(** Relays do not change what arrives. *)
Lemma travelling_forward A B E pl x pl' : travelling A B E pl x pl' -> forward_counter x <= 7 ->
  travelling A B E pl (forwarded x) pl'.
Proof.
  intros [Hw [Hf Ht] Hty Htun Hc] H7. destruct (forwarded_same x) as (F1 & F2 & F3 & F4 & F5 & F6).
  split; [by apply forwarded_wf|by rewrite F1, F2|by rewrite F3| |].
  - unfold is_not_send_to_tun in *. by rewrite F6 by (apply flag_facts || done).
  - intros t tun y Hy Hy1 Hy2 Hy3. apply Hc; [done| | |congruence].
    + rewrite Hy1. unfold is_encrypted. by rewrite F6 by (apply flag_facts || done).
    + rewrite Hy2. unfold is_compressed. by rewrite F6 by (apply flag_facts || done).
Qed.

(** The header of a packet that the host hands over. *)
Definition outgoing (A n : Z) : PeerManagerHeader :=
  {| from_peer_id := A; to_peer_id := 0; pm_packet_type := u8_of Data; flags := 0;
     forward_counter := 1; reserved := 0; pm_len := n |}.

(** The sender lets the packet out: ACL and NIC filters do not object, the
    address belongs to [B], and [B] may be reached through others. *)
Record departs (cfg : NodeConfig) (A B : Z) (ip : Z + Z) (pl : list Z) (c : NodeCore) : Prop := {
  de_acl : forall p now secs, peer_manager_header p = Some (outgoing A (len pl)) -> payload p = Ret pl ->
    exists F, process_packet_with_acl (c_acl c) p false None (fun _ => false)
      (r_get_peer_groups (g_route cfg)) now secs = Ret (F, true);
  de_filters : Forall (fun e => active_entry (ne_active e) = true -> forall p (c : NodeCore),
    peer_manager_header p = Some (outgoing A (len pl)) -> ne_filter e p c = Ret (c, p)) (g_nic_pipeline cfg);
  de_dst : exists is_exit, get_msg_dst_peer cfg (c_peers c) ip = ([B], is_exit);
  de_p2p : check_p2p_only_before_send cfg c B = Ok tt }.

Lemma run_nic_passing p h l : peer_manager_header p = Some h ->
  Forall (fun e => active_entry (ne_active e) = true -> forall p (c : NodeCore),
    peer_manager_header p = Some h -> ne_filter e p c = Ret (c, p)) l ->
  forall c, run_nic_filters l p c = Ret (c, p).
Proof.
  intros Hp. induction 1 as [|e l He _ IH]; intros c; [done|]. cbn [run_nic_filters].
  unfold nic_filter_if_active. destruct (active_entry (ne_active e)) eqn:Ea; cbv [mbind act_bind].
  - rewrite (He eq_refl p c Hp). apply IH.
  - apply IH.
Qed.

Lemma outgoing_wf A n : u32 A -> u32 n -> PeerManagerHeader_wf (outgoing A n).
Proof.
  intros. unfold PeerManagerHeader_wf, outgoing.
  cbn [from_peer_id to_peer_id pm_packet_type flags forward_counter reserved pm_len].
  unfold in_range in *. split_and!; try lia; by vm_compute.
Qed.

(** Up to the choice of the destination. *)
Lemma nic_pipeline_spec env cfg A B ip pl (c : NodeCore) p :
  departs cfg A B ip pl c -> peer_manager_header p = Some (outgoing A (len pl)) -> payload p = Ret pl ->
  exists F, run_nic_packet_process_pipeline cfg env p c = Ret (set_acl c F, (p, true)).
Proof.
  intros Hde Hh Hp. destruct (de_acl _ _ _ _ _ _ Hde p (ev_acl_now env) (ev_acl_secs env) Hh Hp) as [F HF].
  exists F. unfold run_nic_packet_process_pipeline, run_acl. run_act. rewrite HF. cbn [negb].
  rewrite (run_nic_passing p (outgoing A (len pl))); [done|done|].
  by apply Forall_rev, (de_filters _ _ _ _ _ _ Hde).
Qed.

(** The header is filled in for the payload's length. *)
Lemma fill_outgoing A t tun h0 pl : parts_ok t tun h0 -> len (inner (mk_packet t tun h0 pl)) < 2 ^ 32 ->
  u32 (len pl) /\
  fill_peer_manager_hdr (mk_packet t tun h0 pl) A 0 (u8_of Data) =
  Ret (mk_packet t tun (outgoing A (len pl)) pl).
Proof.
  intros Hp0 Hlen. pose proof (parts_has_header t tun h0 pl Hp0) as Hh.
  assert (Hpl : payload_len (mk_packet t tun h0 pl) = len pl).
  { rewrite payload_len_in by (done || lia). pose proof (payload_in _ Hh) as E.
    rewrite parts_payload in E by done.
    apply (f_equal (fun r => match r with Ret a => len a | Panic => 0 end)) in E. by rewrite E. }
  assert (Hl : u32 (len pl)).
  { pose proof (len_nonneg pl). unfold mk_packet in Hlen; cbn [inner] in Hlen.
    rewrite !len_app in Hlen. pose proof (len_nonneg tun). pose proof (len_nonneg (PeerManagerHeader_as_bytes h0)).
    unfold in_range. lia. }
  split; [done|]. by rewrite fill_hdr_spec, parts_put_header, Hpl, wrap_small.
Qed.

(** The header with which the copy for [B] leaves. *)
Definition leaving (cfg : NodeConfig) (A B n : Z) (b1 b2 ex : bool) : PeerManagerHeader :=
  with_to_peer (set_exit_node (set_latency_first (set_encrypted (set_compressed (outgoing A n) b1) b2)
    (pp_latency_first (packet_policy cfg))) ex) B.

Lemma leaving_facts cfg A B n b1 b2 ex : u32 A -> u32 B -> u32 n ->
  PeerManagerHeader_wf (leaving cfg A B n b1 b2 ex) /\
  is_encrypted (leaving cfg A B n b1 b2 ex) = b2 /\ is_compressed (leaving cfg A B n b1 b2 ex) = b1 /\
  is_not_send_to_tun (leaving cfg A B n b1 b2 ex) = false /\
  is_latency_first (leaving cfg A B n b1 b2 ex) = pp_latency_first (packet_policy cfg).
Proof.
  intros HA HB Hn. destruct flag_facts as (Fx & Fl & Fe & Fc & Fn). split.
  - assert (Hw : PeerManagerHeader_wf (set_exit_node (set_latency_first (set_encrypted (set_compressed
      (outgoing A n) b1) b2) (pp_latency_first (packet_policy cfg))) ex)).
    { do 4 (apply set_flag_wf; [done|]). by apply outgoing_wf. }
    destruct Hw as (?&?&?&?&?&?&?). unfold PeerManagerHeader_wf, leaving, with_to_peer.
    cbn [from_peer_id to_peer_id pm_packet_type flags forward_counter reserved pm_len]. by split_and!.
  - unfold is_encrypted, is_compressed, is_not_send_to_tun, is_latency_first, leaving, with_to_peer,
      set_exit_node, set_latency_first, set_encrypted, set_compressed. cbn [flags].
    split_and!; repeat (rewrite contains_set_other by done); rewrite ?contains_set_flag by done; try done.
Qed.

(** One copy. *)
Lemma one_copy_spec env cfg A B hop (c : NodeCore) ip nss t tun n b1 b2 ex pl' v :
  node_ok cfg A B hop c -> B <> A -> u32 A -> u32 B -> u32 n -> len tun = peer_manager_header_offset (get_packet_offsets t) ->
  check_p2p_only_before_send cfg c B = Ok tt ->
  hop (get_next_hop_policy (pp_latency_first (packet_policy cfg))) = Some v ->
  let h := set_exit_node (set_latency_first (set_encrypted (set_compressed (outgoing A n) b1) b2)
    (pp_latency_first (packet_policy cfg))) ex in
  exists c' cid, send_copies f cfg env (mk_packet t tun h pl') ip nss true [B] c = Ret (c', []) /\
    c_sent c' = c_sent c ++ [OnConn v cid (mk_packet t tun (leaving cfg A B n b1 b2 ex) pl')] /\
    node_ok cfg A B hop c' /\ c_nic c' = c_nic c.
Proof.
  intros Hok HB HuA HuB Hn Htun Hp2p Hv h. destruct (no_id _ _ _ _ _ Hok) as [Hg _].
  destruct (leaving_facts cfg A B n b1 b2 ex HuA HuB Hn) as (Hw & _ & _ & _ & Hlf).
  set (c1 := set_recent_traffic c (recent_mark (c_recent c) B (pp_disable_p2p (packet_policy cfg))
    (pp_lazy_p2p (packet_policy cfg)) (router_has_direct_conn cfg c) (re_now (ev_relay env)))).
  assert (Hok1 : node_ok cfg A B hop c1) by (destruct Hok; by split).
  destruct (send_internal_spec env cfg A B hop c1 (mk_packet t tun (leaving cfg A B n b1 b2 ex) pl')
    (leaving cfg A B n b1 b2 ex) v) as (c2 & cid & Es & Hs & Hq & Hn2);
    [done|done|by apply parts_header|by rewrite Hlf|].
  exists c2, cid. split_and!; [|done|done|by rewrite (q_nic _ _ Hq)].
  cbn [send_copies]. unfold mark_recent_traffic. run_act. fold c1.
  change (check_p2p_only_before_send cfg c1 B) with (check_p2p_only_before_send cfg c B). rewrite Hp2p.
  assert (Hwh : parts_ok t tun h).
  { destruct flag_facts as (?&?&?&?&?). split; [done|].
    do 4 (apply set_flag_wf; [done|]). by apply outgoing_wf. }
  rewrite edit_parts by done.
  replace (address_copy cfg nss ip B h) with (leaving cfg A B n b1 b2 ex); [by rewrite Es|].
  unfold address_copy. by rewrite Hg, (proj2 (Z.eqb_neq _ _) HB), andb_false_r.
Qed.

Lemma send_by_ip_spec env cfg A B hop (c : NodeCore) ip nss t tun h0 pl v p2 :
  node_ok cfg A B hop c -> B <> A -> u32 A -> u32 B -> departs cfg A B ip pl c ->
  PathCipher (g_encryptor cfg) -> nonce_ok (ev_rng env) ->
  (forall d, zstd_bulk_compress pl = Some d -> len pl <= Z.max (32 * len d) 65536) ->
  parts_ok t tun h0 -> len (inner (mk_packet t tun h0 pl)) < 2 ^ 32 ->
  hop (get_next_hop_policy (pp_latency_first (packet_policy cfg))) = Some v ->
  try_compress_and_encrypt cfg env (mk_packet t tun (outgoing A (len pl)) pl) = Ret (p2, Ok tt) ->
  exists c' cid x pl', send_msg_by_ip f cfg env (mk_packet t tun h0 pl) ip nss c = Ret (c', Ok tt) /\
    c_sent c' = c_sent c ++ [OnConn v cid (mk_packet t tun x pl')] /\
    node_ok cfg A B hop c' /\ travelling A B (g_encryptor cfg) pl x pl' /\
    forward_counter x = 1 /\ is_latency_first x = pp_latency_first (packet_policy cfg) /\
    c_nic c' = c_nic c.
Proof using Hz.
  intros Hok HB HuA HuB Hde HE Hn Hz32 Hp0 Hlen Hv Hready.
  destruct (no_id _ _ _ _ _ Hok) as [Hg _]. destruct (no_clear _ _ _ _ _ Hok) as [Hsec _].
  destruct (fill_outgoing A t tun h0 pl Hp0 Hlen) as [Hl Hfill].
  assert (Hw1 : parts_ok t tun (outgoing A (len pl))) by (split; [apply Hp0|by apply outgoing_wf]).
  destruct (prepare_spec env cfg t tun (outgoing A (len pl)) pl p2 HE Hn Hsec Hw1)
    as (b1 & b2 & pl' & -> & Hcar); [done..|].
  destruct (nic_pipeline_spec env cfg A B ip pl c (mk_packet t tun (outgoing A (len pl)) pl) Hde) as [F HF];
    [by apply parts_header|by apply parts_payload|].
  destruct (de_dst _ _ _ _ _ _ Hde) as [ex Hdst].
  assert (Hok1 : node_ok cfg A B hop (set_acl c F)) by (destruct Hok; by split).
  destruct (one_copy_spec env cfg A B hop (set_acl c F) ip nss t tun (len pl) b1 b2 ex pl' v Hok1 HB HuA HuB Hl)
    as (c' & cid & Es & Hs & Hn2 & Hnic); [apply Hp0|exact (de_p2p _ _ _ _ _ _ Hde)|done|].
  destruct (leaving_facts cfg A B (len pl) b1 b2 ex HuA HuB Hl) as (Hw & X1 & X2 & X3 & X4).
  exists c', cid, (leaving cfg A B (len pl) b1 b2 ex), pl'. split_and!; [|done|done| |done|done|done].
  - unfold send_msg_by_ip. run_act. rewrite Hg, Hfill, HF. cbn [negb]. rewrite parts_header by done.
    change (to_peer_id (outgoing A (len pl)) =? 0) with true. cbn [negb].
    change (c_peers (set_acl c F)) with (c_peers c). rewrite Hdst, Hready.
    rewrite edit_parts by by apply parts_ok_encrypted, parts_ok_compressed.
    cbn [length should_mark_recent_traffic_for_fanout Nat.leb]. cbn zeta in Es. by rewrite Es.
  - split; [done|done|done|done|by apply Hcar].
Qed.

(** ** The network *)

(** The nodes and the packets on the tunnels between them. *)
Record Net := { net_cores : gmap Z NodeCore; net_flight : list (Z * ZCPacket) }.

(** A tunnel replaces the headers in front of the peer manager's header. *)
Definition rewrapped (p q : ZCPacket) : Prop := exists t tun t2 tun2 h pl,
  parts_ok t tun h /\ parts_ok t2 tun2 h /\ p = mk_packet t tun h pl /\ q = mk_packet t2 tun2 h pl.

Definition destination (me : Z) (s : Sent) : Z * ZCPacket :=
  match s with OnConn v _ p => (v, p) | ToSelf p => (me, p) end.

Inductive net_step (cfgs : Z -> option NodeConfig) : Net -> Net -> Prop :=
  | net_deliver cores l1 d p l2 q env ingress cfg c c' out :
      cfgs d = Some cfg -> cores !! d = Some c -> rewrapped p q ->
      router_step f cfg env q ingress c = Ret (c', tt) -> c_sent c' = c_sent c ++ out ->
      net_step cfgs {| net_cores := cores; net_flight := l1 ++ (d, p) :: l2 |}
        {| net_cores := <[d := c']> cores; net_flight := l1 ++ l2 ++ (destination d <$> out) |}.

(** Following the next hops for [B] from a packet's arrival at a node with a
    counter and a latency flag, as relays follow them, leads to [B]. *)
Inductive leads (A B : Z) (hop : Z -> NextHopPolicy -> option Z) : Z -> bool -> Z -> Prop :=
  | leads_there fc lf : leads A B hop fc lf B
  | leads_on u v fc lf : u <> A -> u <> B -> fc <= 7 ->
      hop u (get_next_hop_policy (lf && negb (2 <? fc))) = Some v ->
      leads A B hop (fc + 1) (lf && negb (2 <? fc)) v -> leads A B hop fc lf u.

(** Some environment; a packet that is not sealed on the way needs none. *)
Definition idle_env : Env := {| ev_relay := {| re_now := 0; re_now_ms := 0; re_uninit := fun _ => 0;
    re_rng := []; re_fresh_key := []; re_uuid := 0; re_private_key := None;
    re_encryption_algorithm := EmptyString |};
  ev_acl_now := 0; ev_acl_secs := 0; ev_rng := [] |}.

(** [P] holds after finitely many steps, whichever they are. *)
Inductive inevitable {X} (R : X -> X -> Prop) (P : X -> Prop) : X -> Prop :=
  | inev_now x : P x -> inevitable R P x
  | inev_later x : (exists y, R x y) -> (forall y, R x y -> inevitable R P y) -> inevitable R P x.

Section net.
Context (cfgs : Z -> option NodeConfig) (A B : Z) (hop : Z -> NextHopPolicy -> option Z).
Context (E : Encryptor) (pl : list Z) (cap : nat) (cfgB : NodeConfig) (cB : NodeCore).

Record net_ok (cores : gmap Z NodeCore) : Prop := {
  nk_hops : forall u pol v, hop u pol = Some v -> exists cfg c, cfgs u = Some cfg /\
    cores !! u = Some c /\ node_ok cfg u B (hop u) c /\ fl_disable_relay_data (g_flags cfg) = false;
  nk_dest : cfgs B = Some cfgB /\ cores !! B = Some cB /\ g_my_peer_id cfgB = B /\
    g_secure_mode_enabled cfgB = false /\ fl_disable_relay_data (g_flags cfgB) = false /\
    g_encryptor cfgB = E /\ accepts cfgB A B pl cap cB }.

(** [B]'s host got one more packet, with the payload, from [A]. *)
Definition arrived (s : Net) : Prop := net_flight s = [] /\
  exists c q h, net_cores s !! B = Some c /\ c_nic c = c_nic cB ++ [q] /\ payload q = Ret pl /\
    peer_manager_header q = Some h /\ from_peer_id h = A /\ to_peer_id h = B.

Lemma one_in_flight l1 (d : Z) (p : ZCPacket) l2 x : l1 ++ (d, p) :: l2 = [x] -> l1 = [] /\ l2 = [] /\ x = (d, p).
Proof. destruct l1 as [|? []]; [|done|done]. by intros [= -> ->]. Qed.

Lemma rewrapped_parts t tun h pl0 q : parts_ok t tun h -> rewrapped (mk_packet t tun h pl0) q ->
  exists t2 tun2, parts_ok t2 tun2 h /\ q = mk_packet t2 tun2 h pl0.
Proof.
  intros Hok (t1 & tun1 & t2 & tun2 & h1 & pl1 & Hok1 & Hok2 & Ep & ->).
  assert (E1 : Some h = Some h1) by (rewrite <- (parts_header t tun h pl0 Hok), Ep; by apply parts_header).
  assert (E2 : Ret pl0 = Ret pl1) by (rewrite <- (parts_payload t tun h pl0 Hok), Ep; by apply parts_payload).
  simplify_eq. by exists t2, tun2.
Qed.

Lemma net_ok_insert cores u cfg c : net_ok cores -> u <> B -> cfgs u = Some cfg ->
  node_ok cfg u B (hop u) c -> fl_disable_relay_data (g_flags cfg) = false -> net_ok (<[u := c]> cores).
Proof.
  intros [Hh Hd] Hu Hc Hok Hr. split.
  - intros w pol v Hv. destruct (decide (u = w)) as [->|Hne].
    + exists cfg, c. by rewrite lookup_insert_eq.
    + rewrite lookup_insert_ne by done. by eapply Hh.
  - by rewrite lookup_insert_ne.
Qed.

(** When there is one packet, its next step is the only one. *)
Lemma flight_step cores u cfg c x pl' t tun (Q : Net -> Prop) :
  cfgs u = Some cfg -> cores !! u = Some c -> parts_ok t tun x ->
  (forall env ingress t2 tun2, parts_ok t2 tun2 x -> exists c' out,
     router_step f cfg env (mk_packet t2 tun2 x pl') ingress c = Ret (c', tt) /\
     c_sent c' = c_sent c ++ out /\
     inevitable (net_step cfgs) Q {| net_cores := <[u := c']> cores; net_flight := destination u <$> out |}) ->
  inevitable (net_step cfgs) Q {| net_cores := cores; net_flight := [(u, mk_packet t tun x pl')] |}.
Proof.
  intros Hc Hco Hp Hstep. apply inev_later.
  - destruct (Hstep idle_env Local t tun Hp) as (c' & out & Hr & Hs & _). eexists.
    apply (net_deliver cfgs cores [] u (mk_packet t tun x pl') [] (mk_packet t tun x pl') idle_env Local
      cfg c c' out); [done|done|by exists t, tun, t, tun, x, pl'|exact Hr|done].
  - intros s' Hs'. remember {| net_cores := cores; net_flight := _ |} as s0 eqn:Es0.
    destruct Hs' as [cores' l1 d p l2 q env ingress cfg' c0 c' out Hcf Hco' Hrw Hrun Hout].
    injection Es0 as -> Hfl. destruct (one_in_flight _ _ _ _ _ Hfl) as (-> & -> & [= <- <-]).
    destruct (rewrapped_parts _ _ _ _ _ Hp Hrw) as (t2 & tun2 & Hp2 & ->).
    rewrite Hc in Hcf. rewrite Hco in Hco'. simplify_eq.
    destruct (Hstep env ingress t2 tun2 Hp2) as (c2 & out2 & Hr & Hs & Hinev). rewrite Hr in Hrun.
    simplify_eq. rewrite Hs in Hout. apply app_inv_head in Hout as <-. done.
Qed.

(** The only packet in flight makes its way. *)
Lemma travel fc lf u : leads A B hop fc lf u -> forall cores t tun x pl',
  net_ok cores -> travelling A B E pl x pl' -> forward_counter x = fc -> is_latency_first x = lf ->
  parts_ok t tun x ->
  inevitable (net_step cfgs) arrived {| net_cores := cores; net_flight := [(u, mk_packet t tun x pl')] |}.
Proof.
  induction 1 as [fc lf|u v fc lf HuA HuB Hfc Hv _ IH]; intros cores t tun x pl' Hnet Htr Efc Elf Hp.
  - destruct (nk_dest _ Hnet) as (Hc & HcB & Hg & Hsec & Hd & HE & Hacc).
    eapply flight_step; [done..|]. intros env ingress t2 tun2 Hp2.
    destruct Htr as [Hw [Hf Ht] Hty Htun Hcar]. rewrite <- HE in Hcar.
    destruct (receive_spec env cfgB A B cap cB t2 tun2 x pl pl' ingress) as (c' & Hr & Hs & Hnic); try done;
      [by apply Hcar|]. exists c', []. rewrite app_nil_r. split_and!; [done|done|].
    apply inev_now. split; [done|]. destruct (opened_same x) as (O1 & O2 & _).
    exists c', (mk_packet t2 tun2 (opened x) pl), (opened x). cbn [net_cores].
    assert (Hpo := opened_ok _ _ _ Hp2).
    rewrite lookup_insert_eq, parts_payload, parts_header by done. split_and!; congruence || done.
  - destruct (nk_hops _ Hnet _ _ _ Hv) as (cfg & c & Hc & Hco & Hok & Hd).
    destruct (forwarded_same x) as (F1 & F2 & F3 & F4 & F5 & F6).
    pose proof (forwarded_latency x) as Elf'. rewrite Efc, Elf in Elf'.
    eapply flight_step; [done..|]. intros env ingress t2 tun2 Hp2.
    destruct (tr_ends _ _ _ _ _ _ Htr) as [Hf Ht].
    destruct (forward_spec env cfg u B (hop u) c t2 tun2 x pl' ingress v) as (c' & cid & Hr & Hs & _ & Hn);
      [done|done|done|done|congruence|congruence|by apply (tr_type _ _ _ _ _ _ Htr)|lia|by rewrite Elf'|].
    eexists c', _. split_and!; [done|exact Hs|].
    apply IH; [by eapply net_ok_insert|apply travelling_forward; [done|lia]|lia|done|].
    split; [apply Hp2|apply forwarded_wf; [apply Hp2|lia]].
Qed.
End net.
End delivery.

(** ** Properties *)

#[export] Instance node_encryptor_path `{HL : CryptoLaws} f b alg k1 k2 :
  PathCipher (node_encryptor f b alg k1 k2).
Proof. destruct b; apply _. Qed.

(** From the host of the sender to the host of the receiver. *)
Lemma packet_travels {GS : Type} {C : CidrLib} {T : Target} {H : HmacLib} {L : CryptoLib}
    {HL : CryptoLaws L} {O : HashOrder} {CE : ConnEnv} {N : NoiseLib} {Pb : RelayPb} {z : Zstd}
    {Hz : ZstdLaws z} {Ad : AddrLib} (f : Features)
    (cfgs : Z -> option (@CoreConfig GS C)) (cores : gmap Z Core) (A B v : Z)
    (hop : Z -> NextHopPolicy -> option Z) (cfgA cfgB : CoreConfig) (cA cB : Core)
    (enable : bool) (alg : string) (k1 k2 : list Z)
    (env : Env) (p p1 p2 : ZCPacket) (pl : list Z) (cap : nat) (ip : Z + Z) (nss : bool) :
  let latency_first := pp_latency_first (packet_policy cfgA) in
  cfgs A = Some cfgA -> cores !! A = Some cA -> A <> B -> u32 A -> u32 B ->
  g_encryptor cfgA = node_encryptor f enable alg k1 k2 -> nonce_ok (ev_rng env) ->
  net_ok cfgs A B hop (g_encryptor cfgA) pl cap cfgB cB cores ->
  departs cfgA A B ip pl cA ->
  hop A (get_next_hop_policy latency_first) = Some v -> leads A B hop 1 latency_first v ->
  bytes_ok (inner p) -> has_header p -> payload p = Ret pl -> len (inner p) < 2 ^ 32 ->
  (forall d, zstd_bulk_compress pl = Some d -> len pl <= Z.max (32 * len d) 65536) ->
  fill_peer_manager_hdr p A 0 (u8_of Data) = Ret p1 ->
  try_compress_and_encrypt cfgA env p1 = Ret (p2, Ok tt) ->
  exists cA' out, send_msg_by_ip f cfgA env p ip nss cA = Ret (cA', Ok tt) /\ c_sent cA' = c_sent cA ++ out /\
    inevitable (net_step f cfgs) (arrived A B pl cB)
      {| net_cores := <[A := cA']> cores; net_flight := destination A <$> out |}.
Proof.
  intros lf HcA HcoA HAB HuA HuB HE Hn Hnet Hde Hv Hleads Hb Hh Hpl Hlen Hz32 Hfill Hready.
  destruct (packet_parts p Hb Hh) as (tun & h0 & pl0 & Hp & Hok & _ & _).
  rewrite Hp, parts_payload in Hpl by done. injection Hpl as ->.
  destruct (nk_hops _ _ _ _ _ _ _ _ _ _ Hnet _ _ _ Hv) as (cfg & c & Hc & Hco & HokA & Hd).
  rewrite HcA in Hc. rewrite HcoA in Hco. simplify_eq.
  assert (HP : PathCipher (g_encryptor cfg)) by (rewrite HE; apply _).
  rewrite Hp in Hfill, Hlen |- *. destruct (fill_outgoing A _ tun h0 pl Hok Hlen) as [_ Ef].
  rewrite Ef in Hfill. assert (E1 : p1 = mk_packet (packet_type p) tun (outgoing A (len pl)) pl) by congruence.
  rewrite E1 in Hready.
  destruct (send_by_ip_spec f env cfg A B (hop A) c ip nss (packet_type p) tun h0 pl v p2)
    as (cA' & cid & x & pl' & Hsend & Hs & HokA' & Htr & Hfc & Hlf & _); try done.
  exists cA'. eexists. split_and!; [exact Hsend|exact Hs|].
  eapply travel; [exact Hleads| |exact Htr|done|done|].
  - eapply net_ok_insert; [exact Hnet|done|done|done|done].
  - split; [apply Hok|apply Htr].
Qed.


(** Three nodes in a line, with AES-GCM and compression on: the packet goes
    from 1 through 2 to 3, which has the address 10.0.0.3. *)
Module Line.
#[local] Instance order : HashOrder :=
  {| hash_iter := fun K V _ _ m => map_to_list m;
     hash_iter_perm := fun K V _ _ m => Permutation_refl (map_to_list m) |}.
#[local] Instance conn_env : ConnEnv :=
  {| latency_us := fun _ => 1000; conn_is_closed := fun _ => false; sink_ok := fun _ _ => true |}.
#[local] Instance cidrs : CidrLib :=
  {| V4Cidr := unit; V6Cidr := unit; v4_contains _ _ := false; v6_contains _ _ := false;
     cidr_from_str _ := None |}.
#[local] Instance hmac : HmacLib := fun _ _ => repeat 5 32.
#[local] Instance noise : NoiseLib :=
  {| NoiseInitiator := unit; NoiseResponder := unit; noise_public k := k;
     noise_initiate _ _ pl := Some (tt, pl); noise_respond _ m := Some (tt, [], m);
     noise_reply _ pl := Some pl; noise_complete _ m := Some m |}.
#[local] Instance pb : RelayPb :=
  {| encode_msg1 _ := []; decode_msg1 _ := None; encode_msg2 _ := []; decode_msg2 _ := None |}.
#[local] Instance addrs : AddrLib :=
  {| last_address_v4 a n := Z.lor a (2 ^ (32 - n) - 1); last_address_v6 a n := Z.lor a (2 ^ (128 - n) - 1);
     inet_contains_v4 n a := Z.shiftr a (32 - n.2) =? Z.shiftr n.1 (32 - n.2);
     inet_contains_v6 n a := Z.shiftr a (128 - n.2) =? Z.shiftr n.1 (128 - n.2) |}.
#[local] Instance word : Target := 64.
#[local] Existing Instance toy_lib.
#[local] Existing Instance zeros_zstd.
#[local] Existing Instance zeros_zstd_laws.

Definition conn (v : Z) : PeerConn :=
  {| pc_conn_id := v; pc_peer_id := v; pc_identity_type := Admin; pc_noise_remote_static_pubkey := [];
     pc_is_hole_punched := false; pc_origin := Network; pc_is_client := false; pc_remote_url := None |}.
Definition peer (v : Z) : Peer := (add_peer_conn (Peer_new v) (conn v)).1.

(** Everything for 3 goes one node further. *)
Definition hop (u : Z) (_ : NextHopPolicy) : option Z :=
  if u =? 1 then Some 2 else if u =? 2 then Some 3 else None.
Definition route (u : Z) : Route :=
  {| r_get_next_hop_with_policy := fun d pol => if d =? 3 then hop u pol else None; r_list_routes := [];
     r_get_peer_id_by_ipv4 := fun a => if a =? 167772163 then Some 3 else None;
     r_get_peer_id_by_ipv6 := fun _ => None; r_get_peer_info := fun _ => None;
     r_get_origin_my_peer_id := fun _ _ => None; r_get_public_ipv6_gateway_peer_id := None;
     r_get_peer_groups := fun _ => [] |}.
Definition peers (u : Z) (l : list Z) : PeerMap :=
  with_peers (add_route (PeerMap_new u) (route u)) (list_to_map ((fun v => (v, peer v)) <$> l)).

Definition cfg (u : Z) : @CoreConfig unit cidrs :=
  {| g_my_peer_id := u;
     g_flags := {| fl_disable_relay_data := false; fl_p2p_only := false; fl_latency_first := true;
                   fl_disable_p2p := false; fl_lazy_p2p := true |};
     g_local_exit_node_fallback := false; g_ipv4 := Some (167772160 + u, 24); g_ipv6 := None;
     g_public_lease_contains := fun _ => false; g_exit_nodes := []; g_route := route u;
     g_encryptor := node_encryptor full_features true "aes-gcm" [1] [2]; g_compress_algo := ZstdDefault;
     g_secure_mode_enabled := false; g_is_credential_node := false;
     g_peer_pipeline := init_packet_process_pipeline 8 []; g_nic_pipeline := [] |}.
Definition core (u : Z) (l : list Z) : @Core unit cidrs :=
  {| c_world := {| w_relay := RelayPeerMap_new u "net" false; w_store := store_new;
       w_peers := peers u l; w_foreign := Some (PeerMap_new u); w_out := [] |};
     c_foreign_networks := ∅; c_acl := AclFilter_new; c_recent := RecentTraffic_new u; c_nic := [];
     c_rpc := []; c_gateway := tt; c_spawned := []; c_answers := [] |}.

Definition cfgs (u : Z) : option CoreConfig := if (1 <=? u) && (u <=? 3) then Some (cfg u) else None.
Definition cores : gmap Z Core := {[ 1 := core 1 [2]; 2 := core 2 [1; 3]; 3 := core 3 [2] ]}.

(** The host's packet, as the NIC hands it over. *)
Definition env : Env := {| ev_relay := ev_relay idle_env; ev_acl_now := 0; ev_acl_secs := 0; ev_rng := repeat 9 12 |}.
Definition packet : ZCPacket :=
  mk_packet NIC (repeat 0 (Z.to_nat (peer_manager_header_offset (get_packet_offsets NIC)))) (outgoing 0 0) (repeat 0 40).

Lemma peer_usable M v : pm_peers M !! v = Some (peer v) -> peer_conns (peer v) = {[v := conn v]} ->
  default_conn (peer v) = None -> peer_node_id (peer v) = v -> usable M v.
Proof.
  intros HP Hc Hd Hid. exists (peer v). rewrite Hc. split_and!; [done| |apply insert_non_empty|done|done].
  split; [|by rewrite Hd]. intros i c. rewrite Hc. intros [<- <-]%lookup_singleton_Some. done.
Qed.

Lemma line_node u l v : 1 <= u -> u <= 3 -> hop u LeastHop = Some v -> v <> u ->
  get_gateway_peer_id (peers u l) 3 LeastHop = Some v -> get_gateway_peer_id (peers u l) 3 LeastCost = Some v ->
  usable (peers u l) v -> node_ok (cfg u) u 3 (hop u) (core u l).
Proof.
  intros H1 H3 Hv Hne Hg1 Hg2 Hu. split; [done|done|by exists (PeerMap_new u)|].
  intros pol w Hw. change (hop u pol) with (hop u LeastHop) in Hw. rewrite Hv in Hw. injection Hw as <-.
  by destruct pol.
Qed.

Lemma line_ok : net_ok cfgs 1 3 hop (g_encryptor (cfg 1)) (repeat 0 40) 8 (cfg 3) (core 3 [2]) cores.
Proof.
  split.
  - intros u pol v Hv. unfold hop in Hv.
    destruct (Z.eqb_spec u 1) as [->|]; [|destruct (Z.eqb_spec u 2) as [->|]; [|done]]; injection Hv as <-.
    + exists (cfg 1), (core 1 [2]). split_and!; [done|vm_compute; reflexivity| |done].
      apply (line_node 1 [2] 2); try done. by apply peer_usable.
    + exists (cfg 2), (core 2 [1; 3]). split_and!; [done|vm_compute; reflexivity| |done].
      apply (line_node 2 [1; 3] 3); try done. by apply peer_usable.
  - split_and!; [done|vm_compute; reflexivity|done..|]. split.
    + exists []. split; [by rewrite app_nil_r|]. intros. constructor.
    + intros. by eexists.
    + vm_compute. lia.
Qed.

Lemma line_leads : leads 1 3 hop 1 true 2.
Proof. eapply leads_on; [done..| |apply leads_there]; done. Qed.

Lemma line_departs : departs (cfg 1) 1 3 (inl 167772163) (repeat 0 40) (core 1 [2]).
Proof. split; [intros; by eexists|constructor|by exists false|done]. Qed.

Definition filled : ZCPacket :=
  match fill_peer_manager_hdr packet 1 0 (u8_of Data) with Ret p => p | Panic => packet end.
Definition sealed : ZCPacket :=
  match try_compress_and_encrypt (cfg 1) env filled with Ret (p, _) => p | Panic => packet end.

End Line.
