(* ===== verification/PacketSafety.v ===== *)
(** What a node does not do: theorems on the receive loop of
    [peers/peer_manager.rs] for packets that may come from anybody.  Relaying
    data can be switched off exactly; the host only gets clear data packets
    that the ACL let pass; a packet is forwarded a bounded number of times
    whatever the routes of the nodes are. *)
From stdpp Require Import list gmap strings relations.
From S2P Require Import Prelude Headers Packet Encrypt Compressor ReplayWindow SecureDatagram PeerSession.
From S2P Require Import TokenBucket Acl AclFilter RouteMessages RouteTable RouteSync PeerConns.
From S2P Require Import PeerConnsProofs RelayPeerMap PacketRouter PacketPath PacketRouterProofs.
Local Open Scope Z_scope.

Section safety.
Context {GS : Type} {C : CidrLib} {T : Target} {H : HmacLib} {L : CryptoLib} (f : Features).
Context {O : HashOrder} {CE : ConnEnv} {N : NoiseLib} {Pb : RelayPb} {z : Zstd} {Ad : AddrLib}.
Abbreviation NodeConfig := (@CoreConfig GS C).
Abbreviation NodeCore := (@Core GS C).
Implicit Types (cfg : NodeConfig) (c : NodeCore).

(** ** Relaying switched off *)

(** The same node with relaying on. *)
Definition relaying (cfg : NodeConfig) : NodeConfig :=
  let fl := g_flags cfg in
  {| g_my_peer_id := g_my_peer_id cfg;
     g_flags := {| fl_disable_relay_data := false; fl_p2p_only := fl_p2p_only fl;
                   fl_latency_first := fl_latency_first fl; fl_disable_p2p := fl_disable_p2p fl;
                   fl_lazy_p2p := fl_lazy_p2p fl |};
     g_local_exit_node_fallback := g_local_exit_node_fallback cfg; g_ipv4 := g_ipv4 cfg;
     g_ipv6 := g_ipv6 cfg; g_public_lease_contains := g_public_lease_contains cfg;
     g_exit_nodes := g_exit_nodes cfg; g_route := g_route cfg; g_encryptor := g_encryptor cfg;
     g_compress_algo := g_compress_algo cfg; g_secure_mode_enabled := g_secure_mode_enabled cfg;
     g_is_credential_node := g_is_credential_node cfg; g_peer_pipeline := g_peer_pipeline cfg;
     g_nic_pipeline := g_nic_pipeline cfg |}.

(** Data in transit that neither comes from nor goes to an attached peer. *)
Definition transit (cfg : NodeConfig) (c : NodeCore) (h : PeerManagerHeader) (data : bool)
    (ingress : PeerPacketIngress) : bool :=
  data && negb (ingress_is_attached ingress) && negb (has_direct_attached_peer (c_peers c) (to_peer_id h)) &&
  (negb (to_peer_id h =? g_my_peer_id cfg) || (pm_packet_type h =? u8_of ForeignNetworkPacket)).

Lemma foreign_leaves cfg p b c c' q : try_handle_foreign_network_packet cfg p b c = Ret (c', Some q) ->
  c' = c /\ q = p.
Proof.
  unfold try_handle_foreign_network_packet. run_act. intros Hr. repeat case_match; simplify_eq; try done.
Qed.

(** The branches of [handle_packet]. *)
Lemma handle_packet_spec env cfg p h data b ingress c : peer_manager_header p = Some h ->
  is_relay_data_zc_packet p = Ret data ->
  handle_packet f cfg env p b ingress c =
  if negb (to_peer_id h =? g_my_peer_id cfg)
  then forward_packet f cfg env p h (b && data && negb (ingress_is_attached ingress) &&
         negb (has_direct_attached_peer (c_peers c) (to_peer_id h))) c
  else receive_packet f cfg env p h c.
Proof.
  intros Hh Hd. unfold handle_packet, should_drop_relay_data. run_act. rewrite Hh, Hd.
  destruct b; cbn [negb andb]; [|by destruct (negb _)].
  destruct data; cbn [negb andb]; [|by destruct (negb _)].
  by destruct (to_peer_id h =? g_my_peer_id cfg); cbn [negb andb].
Qed.

(** With relaying off and on. *)
Lemma relay_switch env cfg p h data ingress c : peer_manager_header p = Some h ->
  is_relay_data_zc_packet p = Ret data ->
  router_step f cfg env p ingress c =
  if fl_disable_relay_data (g_flags cfg) && transit cfg c h data ingress then Ret (c, tt)
  else router_step f (relaying cfg) env p ingress c.
Proof.
  intros Hh Hd. unfold router_step, transit.
  change (pp_disable_relay_data (packet_policy (relaying cfg))) with false.
  change (pp_disable_relay_data (packet_policy cfg)) with (fl_disable_relay_data (g_flags cfg)).
  destruct (fl_disable_relay_data (g_flags cfg)) eqn:Ed; cbn [andb].
  2:{ run_act. cbn [andb]. change (try_handle_foreign_network_packet (relaying cfg)) with
        (try_handle_foreign_network_packet cfg).
      destruct (try_handle_foreign_network_packet cfg p false c) as [[c1 [q|]]|] eqn:Ef; [|done|done].
      destruct (foreign_leaves _ _ _ _ _ _ Ef) as [-> ->]. by rewrite !(handle_packet_spec _ _ _ h data). }
  run_act. rewrite Hh, Hd. cbn [andb].
  destruct (data && negb (ingress_is_attached ingress) && _) eqn:Edrop; cbn [andb].
  - destruct (Z.eqb_spec (pm_packet_type h) (u8_of ForeignNetworkPacket)) as [Ef|Ef].
    + rewrite orb_true_r. unfold try_handle_foreign_network_packet. run_act. rewrite Hh, Ef. done.
    + rewrite orb_false_r, !(pass_foreign _ p h) by done.
      rewrite !(handle_packet_spec _ _ _ h data) by done. cbn [andb]. rewrite Edrop.
      destruct (negb (to_peer_id h =? g_my_peer_id cfg)) eqn:Eto; [done|].
      change (g_my_peer_id (relaying cfg)) with (g_my_peer_id cfg). by rewrite Eto.
  - change (try_handle_foreign_network_packet (relaying cfg)) with (try_handle_foreign_network_packet cfg).
    destruct (try_handle_foreign_network_packet cfg p false c) as [[c1 [q|]]|] eqn:Ef; [|done|done].
    destruct (foreign_leaves _ _ _ _ _ _ Ef) as [-> ->]. rewrite !(handle_packet_spec _ _ _ h data) by done.
    cbn [andb]. by rewrite Edrop.
Qed.

(** ** What reaches the host *)

(** An action that leaves the channel to the host alone. *)
Definition keeps_nic {A} (m : act NodeCore A) : Prop := forall c c' a, m c = Ret (c', a) -> c_nic c' = c_nic c.

Lemma keeps_ret {A} (a : A) : keeps_nic (mret a).
Proof. by intros c c' b [= <- _]. Qed.
Lemma keeps_bind {A B} (m : act NodeCore A) (k : A -> act NodeCore B) :
  keeps_nic m -> (forall a, keeps_nic (k a)) -> keeps_nic (m ≫= k).
Proof.
  intros Hm Hk c c' b. cbv [mbind act_bind]. destruct (m c) as [[c1 a]|] eqn:E; [|done].
  intros Hb. rewrite (Hk a _ _ _ Hb). by apply (Hm _ _ _ E).
Qed.
Lemma keeps_gets {A} (g : NodeCore -> A) : keeps_nic (gets g).
Proof. by intros c c' a [= <- _]. Qed.
Lemma keeps_modify (g : NodeCore -> NodeCore) : (forall c, c_nic (g c) = c_nic c) -> keeps_nic (modify g).
Proof. intros Hg c c' a [= <- _]. apply Hg. Qed.
Lemma keeps_lift {A} (m : comp A) : keeps_nic (lift m).
Proof. intros c c' a. run_act. destruct m; [|done]. by intros [= <- _]. Qed.
Lemma keeps_on_world {A} (m : relay A) : keeps_nic (on_world m).
Proof. intros c c' a. unfold on_world. run_act. destruct (m _) as [[w b]|]; [|done]. by intros [= <- _]. Qed.
Lemma keeps_on_peers {A} (g : PeerMap -> PeerMap * (list Sent * A)) : keeps_nic (on_peers g).
Proof. intros c c' a. unfold on_peers. destruct (g _) as [M [l b]]. by intros [= <- _]. Qed.
Lemma keeps_on_foreign_client cfg {A} (g : PeerMap -> PeerMap * (list Sent * A)) :
  keeps_nic (on_foreign_client cfg g).
Proof. intros c c' a. unfold on_foreign_client. destruct (g _) as [M [l b]]. by intros [= <- _]. Qed.
Lemma keeps_run_acl env cfg p b ip l6 : keeps_nic (run_acl cfg env p b ip l6).
Proof. intros c c' a. unfold run_acl. run_act. destruct (process_packet_with_acl _ _ _ _ _ _ _ _) as [[F ok]|]; [|done]. by intros [= <- _]. Qed.

Lemma keeps_forward_foreign name dst msg : keeps_nic (forward_foreign_network_packet name dst msg).
Proof.
  intros c c' a. unfold forward_foreign_network_packet. destruct (_ !! _); [|by intros [= <- _]].
  destruct (PeerMap_send_msg _ _ _ _) as [M [l r]]. by intros [= <- _].
Qed.
End safety.

Create HintDb keeps_nic.
#[export] Hint Resolve keeps_ret keeps_gets keeps_modify keeps_lift keeps_on_world keeps_on_peers
  keeps_on_foreign_client keeps_run_acl keeps_forward_foreign : keeps_nic.
(** Follows the structure of an action. *)
Ltac keeps := repeat (first [progress intros | solve [auto with keeps_nic] | case_match | apply keeps_bind]).

Section host.
Context {GS : Type} {C : CidrLib} {T : Target} {H : HmacLib} {L : CryptoLib} (f : Features).
Context {O : HashOrder} {CE : ConnEnv} {N : NoiseLib} {Pb : RelayPb} {z : Zstd} {Ad : AddrLib}.
Implicit Types (cfg : @CoreConfig GS C) (c : @Core GS C).

Lemma keeps_send_internal env cfg msg dst : keeps_nic (send_msg_internal f cfg env msg dst).
Proof. unfold send_msg_internal, via_relay. keeps. Qed.
#[local] Hint Resolve keeps_send_internal : keeps_nic.
Lemma keeps_try_foreign cfg p b : keeps_nic (try_handle_foreign_network_packet cfg p b).
Proof. unfold try_handle_foreign_network_packet. keeps. Qed.
Lemma keeps_forward env cfg p h b : keeps_nic (forward_packet f cfg env p h b).
Proof. unfold forward_packet. keeps. Qed.
Lemma keeps_open env cfg p h : keeps_nic (open_packet f cfg env p h).
Proof. unfold open_packet. keeps. Qed.

(** The filters of gateways, up to the first that takes the packet. *)
Fixpoint run_gateways (l : list PeerPipelineEntry) (p : ZCPacket) : act (@Core GS C) (option ZCPacket) :=
  match l with
  | [] => mret (Some p)
  | e :: l =>
    o ← match filter_if_active e with Some g => g p | None => mret (Some p) end;
    match o with None => mret None | Some p => run_gateways l p end
  end.

Lemma run_filters_app l k : forall p c, run_peer_filters (l ++ k) p c =
  (o ← run_gateways l p; match o with None => mret true | Some q => run_peer_filters k q end) c.
Proof.
  induction l as [|e l IH]; intros p c; [done|]. cbn [app run_peer_filters run_gateways]. cbv [mbind act_bind].
  destruct (filter_if_active e) as [g|].
  - destruct (g p c) as [[c1 [q|]]|]; [|done|done]. apply IH.
  - cbv [mret act_ret]. apply IH.
Qed.

Lemma keeps_gateways l : Forall (fun e => forall p, keeps_nic (pe_filter e p)) l ->
  forall p, keeps_nic (run_gateways l p).
Proof.
  induction 1 as [|e l He _ IH]; intros p; cbn [run_gateways]; [apply keeps_ret|].
  apply keeps_bind; [|by keeps]. unfold filter_if_active. destruct (active_entry _); [apply He|apply keeps_ret].
Qed.

(** A packet for the host: clear, uncompressed data. *)
Definition for_host (p : ZCPacket) : Prop := exists h, peer_manager_header p = Some h /\
  pm_packet_type h = u8_of Data /\ is_not_send_to_tun h = false /\ is_encrypted h = false /\
  is_compressed h = false.

(** The last two filters. *)
Lemma last_filters cap p c c' b :
  run_peer_filters [permanent_peer_pipeline_entry PeerRpcPacketProcessor;
                    permanent_peer_pipeline_entry (NicPacketProcessor cap)] p c = Ret (c', b) ->
  c_nic c' = c_nic c \/
  (c_nic c' = c_nic c ++ [p] /\ for_host p /\ (length (c_nic c') <= cap)%nat).
Proof.
  cbn [run_peer_filters filter_if_active permanent_peer_pipeline_entry pe_active pe_filter active_entry].
  unfold PeerRpcPacketProcessor, NicPacketProcessor, nic_try_send. run_act.
  destruct (peer_manager_header p) as [h|] eqn:Eh; [|done].
  destruct (one_of _ _); [by intros [= <- _]; left|]. rewrite Eh.
  destruct (_ && _) eqn:Et; [|by intros [= <- _]; left].
  destruct (_ || _) eqn:Ef; [by intros [= <- _]; left|]. intros [= <- _].
  destruct (Nat.ltb_spec (length (c_nic c)) cap) as [Hlt|]; [right|by left]. bools.
  split_and!; [done| |cbn [c_nic set_channels]; rewrite length_app; cbn; lia].
  exists h. by split_and!.
Qed.

(** What happens to a packet before the last filters: it is for this node,
    opening it succeeds, the inbound ACL lets the clear packet pass, and the
    gateways, asked with that packet, leave the node in [cg] and the packet as
    [o] ([None]: one of them took it).  Nothing before the gateways touches the
    channel to the host. *)
Definition admitted (env : Env) (cfg : @CoreConfig GS C) (gws : list PeerPipelineEntry) (p : ZCPacket)
    (c cg : @Core GS C) (o : option ZCPacket) : Prop := exists h c1 q F,
  peer_manager_header p = Some h /\ to_peer_id h = g_my_peer_id cfg /\
  open_packet f cfg env p h c = Ret (c1, Some q) /\
  process_packet_with_acl (c_acl c1) q true (fst <$> g_ipv4 cfg) (is_ip_local_ipv6 cfg)
    (r_get_peer_groups (g_route cfg)) (ev_acl_now env) (ev_acl_secs env) = Ret (F, true) /\
  c_nic c1 = c_nic c /\
  run_gateways (rev gws) q (set_acl c1 F) = Ret (cg, o).

(** The channel to the host after the packet [p]: as it was, or as the gateways
    left it once [p] was admitted to them, with at most the packet they left
    behind it. *)
Definition host_channel (env : Env) (cfg : @CoreConfig GS C) (gws : list PeerPipelineEntry) (cap : nat)
    (p : ZCPacket) (c c' : @Core GS C) : Prop :=
  c_nic c' = c_nic c \/
  exists cg o, admitted env cfg gws p c cg o /\
    (Forall (fun e => forall p, keeps_nic (pe_filter e p)) gws -> c_nic cg = c_nic c) /\
    (c_nic c' = c_nic cg \/
     exists q, o = Some q /\ c_nic c' = c_nic cg ++ [q] /\ for_host q /\ (length (c_nic c') <= cap)%nat).

Lemma admitted_keeps env cfg gws p c cg o : admitted env cfg gws p c cg o ->
  Forall (fun e => forall p, keeps_nic (pe_filter e p)) gws -> c_nic cg = c_nic c.
Proof.
  intros (h & c1 & q & F & _ & _ & _ & _ & E & Eg) Hgw.
  by rewrite (keeps_gateways _ (Forall_rev Hgw) _ _ _ _ Eg).
Qed.

Lemma receive_admits env cfg gws cap p h c c' : peer_manager_header p = Some h ->
  to_peer_id h = g_my_peer_id cfg ->
  g_peer_pipeline cfg = init_packet_process_pipeline cap [] ++ gws ->
  receive_packet f cfg env p h c = Ret (c', tt) -> host_channel env cfg gws cap p c c'.
Proof.
  intros Hh Hto Hpipe. unfold receive_packet. destruct (one_of _ _).
  { intros Hr. left. revert Hr. apply (keeps_bind (on_world _)); keeps. }
  cbv [mbind act_bind]. destruct (open_packet f cfg env p h c) as [[c1 [q|]]|] eqn:Eo; [|by intros [= <-]; left; apply (keeps_open env cfg p h _ _ _ Eo)|done].
  pose proof (keeps_open env cfg p h _ _ _ Eo) as K1. unfold run_acl. run_act.
  destruct (process_packet_with_acl _ _ _ _ _ _ _ _) as [[F [|]]|] eqn:Ea; cbn [negb]; [|by intros [= <-]; left|done].
  rewrite Hpipe, rev_app_distr, run_filters_app. run_act.
  destruct (run_gateways (rev gws) q _) as [[cg o]|] eqn:Eg; [|done].
  assert (Ha : admitted env cfg gws p c cg o) by (by exists h, c1, q, F).
  destruct o as [q'|]; intros Hr; right; exists cg; eexists; (split; [exact Ha|]);
    (split; [by apply (admitted_keeps _ _ _ _ _ _ _ Ha)|]).
  - destruct (run_peer_filters _ q' cg) as [[c3 b]|] eqn:Er; [|done]. injection Hr as <-.
    destruct (last_filters cap q' cg c3 b Er) as [E|(E & Hf & Hl)]; [by left|right].
    exists q'. by split_and!.
  - injection Hr as <-. by left.
Qed.
End host.

(** ** Properties *)

(** C22. Switching off the relaying of data has exactly its effect: a node with
    [disable_relay_data] does nothing with data in transit (foreign-network
    packets that hold data included) unless it comes from or goes to an
    attached peer, and treats every other packet as a node that relays. *)
Theorem relay_data_switch {GS : Type} {C : CidrLib} {T : Target} {H : HmacLib} {L : CryptoLib}
    {O : HashOrder} {CE : ConnEnv} {N : NoiseLib} {Pb : RelayPb} {z : Zstd} (f : Features)
    (env : Env) (cfg : @CoreConfig GS C) (p : ZCPacket) (h : PeerManagerHeader) (data : bool)
    (ingress : PeerPacketIngress) (c : Core) :
  peer_manager_header p = Some h -> is_relay_data_zc_packet p = Ret data ->
  router_step f cfg env p ingress c =
  if fl_disable_relay_data (g_flags cfg) && transit cfg c h data ingress then Ret (c, tt)
  else router_step f (relaying cfg) env p ingress c.
Proof. apply relay_switch. Qed.

(** C15. What reaches the host: whatever packet arrives, and whatever the
    filters of the gateways do, the receive loop leaves the channel of the host
    alone unless the packet was addressed to this node, was decrypted and
    decompressed without error and passed the inbound ACL.  The channel is then
    what the gateways made of it when they were given the clear packet (the TCP
    proxy's filter writes to it itself), followed by at most the one packet they
    left, which is clear, uncompressed data and never exceeds the capacity.
    Gateways whose filters do not write to the channel leave it as it was. *)
Theorem host_gets_admitted {GS : Type} {C : CidrLib} {T : Target} {H : HmacLib} {L : CryptoLib}
    {O : HashOrder} {CE : ConnEnv} {N : NoiseLib} {Pb : RelayPb} {z : Zstd} (f : Features)
    (env : Env) (cfg : @CoreConfig GS C) (gws : list PeerPipelineEntry) (cap : nat) (p : ZCPacket)
    (ingress : PeerPacketIngress) (c c' : Core) :
  g_peer_pipeline cfg = init_packet_process_pipeline cap [] ++ gws ->
  router_step f cfg env p ingress c = Ret (c', tt) ->
  c_nic c' = c_nic c \/
  exists cg o, admitted f env cfg gws p c cg o /\
    (Forall (fun e => forall p, keeps_nic (pe_filter e p)) gws -> c_nic cg = c_nic c) /\
    (c_nic c' = c_nic cg \/
     exists q, o = Some q /\ c_nic c' = c_nic cg ++ [q] /\ for_host q /\ (length (c_nic c') <= cap)%nat).
Proof.
  intros Hpipe. unfold router_step. cbv [mbind act_bind gets lift comp_bind].
  destruct (if pp_disable_relay_data _ then _ else _) as [data|]; [|done].
  destruct (try_handle_foreign_network_packet _ _ _ _) as [[c1 [q|]]|] eqn:Ef; [| |done].
  2:{ intros [= <-]. left. apply (keeps_try_foreign _ _ _ _ _ _ Ef). }
  apply foreign_leaves in Ef as [-> ->]. unfold handle_packet. cbv [mbind act_bind gets lift comp_bind].
  destruct (should_drop_relay_data _ _ _ _ _) as [drop|]; [|done].
  destruct (peer_manager_header p) as [h|] eqn:Eh; [|by intros [= <-]; left].
  destruct (Z.eqb_spec (to_peer_id h) (g_my_peer_id cfg)) as [Hto|]; cbn [negb].
  - by apply receive_admits.
  - intros Hr. left. apply (keeps_forward f _ _ _ _ _ _ _ _ Hr).
Qed.

(** Node 2 of the line, with relaying switched off, and node 3. *)
Module LineSafety.
#[local] Existing Instances Line.order Line.conn_env Line.cidrs Line.hmac Line.noise Line.pb Line.addrs Line.word.
#[local] Existing Instances toy_lib zeros_zstd.

Definition to_three (n : Z) : PeerManagerHeader :=
  {| from_peer_id := 1; to_peer_id := 3; pm_packet_type := 1; flags := 0; forward_counter := n;
     reserved := 0; pm_len := 3 |}.
Definition packet (n : Z) : ZCPacket := mk_packet DummyTunnel [] (to_three n) [7; 8; 9].
(** No relaying. *)
Definition closed : @CoreConfig unit Line.cidrs :=
  let g := Line.cfg 2 in
  {| g_my_peer_id := 2;
     g_flags := {| fl_disable_relay_data := true; fl_p2p_only := false; fl_latency_first := true;
                   fl_disable_p2p := false; fl_lazy_p2p := true |};
     g_local_exit_node_fallback := g_local_exit_node_fallback g; g_ipv4 := g_ipv4 g; g_ipv6 := g_ipv6 g;
     g_public_lease_contains := g_public_lease_contains g; g_exit_nodes := g_exit_nodes g;
     g_route := g_route g; g_encryptor := g_encryptor g; g_compress_algo := g_compress_algo g;
     g_secure_mode_enabled := false; g_is_credential_node := false; g_peer_pipeline := g_peer_pipeline g;
     g_nic_pipeline := g_nic_pipeline g |}.

Lemma relay_data_switch_witness :
  router_step full_features closed Line.env (packet 1) Local (Line.core 2 [1; 3]) = Ret (Line.core 2 [1; 3], tt).
Proof.
  exact (@relay_data_switch unit Line.cidrs Line.word Line.hmac toy_lib Line.order Line.conn_env Line.noise Line.pb
    zeros_zstd full_features Line.env closed (packet 1) (to_three 1) true Local (Line.core 2 [1; 3])
    ltac:(vm_compute; reflexivity) ltac:(vm_compute; reflexivity)).
Defined.

(** Node 3 with a gateway that writes the packets it takes to the channel of
    the host itself, as the TCP proxy does, and what the node has after a clear
    packet. *)
Definition writer : @PeerPipelineEntry unit Line.cidrs :=
  permanent_peer_pipeline_entry (fun q => nic_try_send 8 q ;; mret None).
Definition with_writer : @CoreConfig unit Line.cidrs :=
  let g := Line.cfg 3 in
  {| g_my_peer_id := 3; g_flags := g_flags g;
     g_local_exit_node_fallback := g_local_exit_node_fallback g; g_ipv4 := g_ipv4 g; g_ipv6 := g_ipv6 g;
     g_public_lease_contains := g_public_lease_contains g; g_exit_nodes := g_exit_nodes g;
     g_route := g_route g; g_encryptor := g_encryptor g; g_compress_algo := g_compress_algo g;
     g_secure_mode_enabled := g_secure_mode_enabled g; g_is_credential_node := g_is_credential_node g;
     g_peer_pipeline := init_packet_process_pipeline 8 [] ++ [writer];
     g_nic_pipeline := g_nic_pipeline g |}.
Definition received : @Core unit Line.cidrs :=
  match router_step full_features with_writer Line.env (packet 1) Local (Line.core 3 [2]) with
  | Ret (c, _) => c
  | Panic => Line.core 3 [2]
  end.
Lemma received_eq : router_step full_features with_writer Line.env (packet 1) Local (Line.core 3 [2]) =
  Ret (received, tt).
Proof.
  unfold received. assert (E : match router_step full_features with_writer Line.env (packet 1) Local
    (Line.core 3 [2]) with Ret _ => true | Panic => false end = true) by (vm_compute; reflexivity).
  by destruct (router_step _ _ _ _ _ _) as [[c []]|].
Qed.
Lemma host_gets_admitted_witness : length (c_nic received) = 1%nat /\
  host_channel full_features Line.env with_writer [writer] 8 (packet 1) (Line.core 3 [2]) received.
Proof.
  split; [vm_compute; reflexivity|].
  exact (@host_gets_admitted unit Line.cidrs Line.word Line.hmac toy_lib Line.order Line.conn_env Line.noise Line.pb
    zeros_zstd full_features Line.env with_writer [writer] 8 (packet 1) Local (Line.core 3 [2]) received
    ltac:(reflexivity) received_eq).
Defined.

(** A foreign-network packet without its header ends the receive loop, at a
    relay too. *)
Definition malformed : ZCPacket :=
  mk_packet DummyTunnel [] {| from_peer_id := 1; to_peer_id := 3; pm_packet_type := u8_of ForeignNetworkPacket;
    flags := 0; forward_counter := 1; reserved := 0; pm_len := 0 |} [].
Example malformed_foreign_packet_panics :
  match router_step full_features (Line.cfg 2) Line.env malformed Local (Line.core 2 [1; 3]) with
  | Panic => true
  | Ret _ => false
  end = true.
Proof. vm_compute. reflexivity. Qed.
End LineSafety.
