(* ===== verification/HopLimit.v ===== *)
(** The limit of hops: however wrong the routes of the nodes are, and whatever
    the nodes on the way do to the payload (compress, encrypt, seal with a
    session, buffer it until there is one), a packet keeps its addresses and
    its counter of hops grows by one at each relay until the eighth drops it. *)
From stdpp Require Import list gmap strings relations.
From S2P Require Import Prelude Headers Packet Encrypt Compressor ReplayWindow SecureDatagram PeerSession.
From S2P Require Import TokenBucket Acl AclFilter RouteMessages RouteTable RouteSync PeerConns.
From S2P Require Import PeerConnsProofs RelayPeerMap PacketRouter PacketPath PacketRouterProofs PacketSafety.
Local Open Scope Z_scope.

(** ** Headers that differ in flags only *)

Record same_addresses (h h' : PeerManagerHeader) : Prop := {
  sa_from : from_peer_id h' = from_peer_id h; sa_to : to_peer_id h' = to_peer_id h;
  sa_type : pm_packet_type h' = pm_packet_type h;
  sa_counter : forward_counter h' = forward_counter h; sa_len : pm_len h' = pm_len h }.
#[export] Instance same_addresses_refl : Reflexive same_addresses.
Proof. by split. Qed.
#[export] Instance same_addresses_trans : Transitive same_addresses.
Proof. intros a b c [] []. split; congruence. Qed.

(** The packet still has its headers, but for flags. *)
Definition relabelled (t : ZCPacketType) (tun : list Z) (h : PeerManagerHeader) (p : ZCPacket) : Prop :=
  exists h' pl, p = mk_packet t tun h' pl /\ parts_ok t tun h' /\ same_addresses h h'.

Lemma relabelled_self t tun h pl : parts_ok t tun h -> relabelled t tun h (mk_packet t tun h pl).
Proof. intros Hok. by exists h, pl. Qed.
Lemma relabelled_trans t tun h h' p : same_addresses h h' -> relabelled t tun h' p -> relabelled t tun h p.
Proof. intros Hs (h2 & pl & -> & Hok & Hs2). exists h2, pl. split_and!; [done|done|by etrans]. Qed.
Lemma relabelled_encrypted t tun h b pl : parts_ok t tun h -> relabelled t tun h (mk_packet t tun (set_encrypted h b) pl).
Proof. intros Hok. exists (set_encrypted h b), pl. split_and!; [done|by apply parts_ok_encrypted|by split]. Qed.

(** Writing over the payload, whatever is written. *)
Lemma parts_put_any t tun h pl d : parts_ok t tun h -> exists pl',
  {| inner := overwrite (zc_payload_offset (mk_packet t tun h pl)) d (inner (mk_packet t tun h pl));
     packet_type := t |} = mk_packet t tun h pl'.
Proof.
  intros Hok. exists (d ++ drop (length d) pl). unfold mk_packet, zc_payload_offset; cbn [inner packet_type].
  pose proof (parts_pre_len t tun h Hok) as Hl. rewrite <- Hl, !app_assoc. f_equal. unfold overwrite.
  assert (Z.to_nat (len (tun ++ PeerManagerHeader_as_bytes h)) =
          length (tun ++ PeerManagerHeader_as_bytes h)) as -> by (unfold len; lia).
  by rewrite take_app_length, <- drop_drop, drop_app_length, !app_assoc.
Qed.

(** ** Ciphers *)

(** Encryption leaves the addresses alone, also when it fails. *)
Class HeaderKept (E : Encryptor) := header_kept : forall rng n t tun h pl p' r, parts_ok t tun h ->
  e_encrypt_with_nonce E rng (mk_packet t tun h pl) n = Ret (p', r) \/
  e_encrypt E rng (mk_packet t tun h pl) = Ret (p', r) -> relabelled t tun h p'.

Section ciphers.
Context {L : CryptoLib}.

Lemma seal_kept t tun h pl ct tail p' r : parts_ok t tun h ->
  (let p := {| inner := overwrite (zc_payload_offset (mk_packet t tun h pl)) ct (inner (mk_packet t tun h pl));
               packet_type := t |} in
   match tail with
   | None => Ret (p, Err EncryptionFailed)
   | Some d => '(h, put) ← unwrap (mut_peer_manager_header p); Ret (extend_packet (put (set_encrypted h true)) d, Ok tt)
   end) = Ret (p', r) -> relabelled t tun h p'.
Proof.
  intros Hok. destruct (parts_put_any t tun h pl ct Hok) as [pl' ->]. cbn zeta. destruct tail as [d|].
  - rewrite parts_mut_header by done. cbn [unwrap mbind comp_bind]. rewrite parts_put_header by done.
    rewrite extend_parts. intros [= <- _]. by apply relabelled_encrypted.
  - intros [= <- _]. by apply relabelled_self.
Qed.

(** The steps that the backends share. *)
Ltac kept_start :=
  intros Hok; rewrite parts_header by done; cbn [unwrap mbind comp_bind];
  case_match; [by intros [= <- _]; apply relabelled_self|].
Ltac kept_aead :=
  case_match; [|by intros [= <- _]; apply relabelled_self];
  rewrite parts_mut_payload by done; cbn [mbind comp_bind];
  match goal with
  | |- context [let '(_, _) := ?x in _] =>
    let ct := fresh "ct" in let tg := fresh "tg" in destruct x as [ct [tg|]]; intros Hs;
    [eapply (seal_kept _ _ _ _ ct (Some _))|eapply (seal_kept _ _ _ _ ct None)]; done
  end.

Lemma aes_kept c rng n t tun h pl p' r : parts_ok t tun h ->
  AesGcmCipher_encrypt_with_nonce c rng (mk_packet t tun h pl) n = Ret (p', r) -> relabelled t tun h p'.
Proof. unfold AesGcmCipher_encrypt_with_nonce. kept_start. kept_aead. Qed.
Lemma chacha_kept key rng n t tun h pl p' r : parts_ok t tun h ->
  ChaCha20Cipher_encrypt_with_nonce key rng (mk_packet t tun h pl) n = Ret (p', r) -> relabelled t tun h p'.
Proof. unfold ChaCha20Cipher_encrypt_with_nonce. kept_start. kept_aead. Qed.
Lemma ring_kept c rng n t tun h pl p' r : parts_ok t tun h ->
  RingCipher_encrypt_with_nonce c rng (mk_packet t tun h pl) n = Ret (p', r) -> relabelled t tun h p'.
Proof. unfold RingCipher_encrypt_with_nonce. kept_start. kept_aead. Qed.
Lemma openssl_kept c rng n t tun h pl p' r : parts_ok t tun h ->
  OpenSslCipher_encrypt_with_nonce c rng (mk_packet t tun h pl) n = Ret (p', r) -> relabelled t tun h p'.
Proof.
  unfold OpenSslCipher_encrypt_with_nonce. kept_start. case_match; [|by intros [= <- _]; apply relabelled_self].
  rewrite parts_payload by done. cbn [mbind comp_bind].
  destruct (ossl_seal _ _ _ _) as [[ct tg]|]; [|by intros [= <- _]; apply relabelled_self].
  rewrite parts_mut_payload by done. cbn [mbind comp_bind].
  destruct (copy_into _ _ _ _) as [m|]; [cbn [mbind comp_bind]|done]. destruct tg as [tg|]; intros Hs;
    [eapply (seal_kept _ _ _ _ m (Some _))|eapply (seal_kept _ _ _ _ m None)]; done.
Qed.
Lemma xor_kept key t tun h pl p' r : parts_ok t tun h ->
  XorCipher_encrypt key (mk_packet t tun h pl) = Ret (p', r) -> relabelled t tun h p'.
Proof.
  unfold XorCipher_encrypt. kept_start. rewrite parts_mut_payload by done. cbn [mbind comp_bind].
  destruct (parts_put_any t tun h pl (xor_data key pl) Hok) as [pl' ->].
  rewrite parts_mut_header by done. cbn [unwrap mbind comp_bind]. rewrite parts_put_header by done.
  intros [= <- _]. by apply relabelled_encrypted.
Qed.

#[export] Instance null_header : HeaderKept NullCipher.
Proof.
  intros rng n t tun h pl p' r Hok Hs. assert (p' = mk_packet t tun h pl) as ->.
  { cbn [e_encrypt e_encrypt_with_nonce NullCipher UnsupportedCipher_encryptor] in Hs.
    unfold NullCipher_encrypt in Hs. by destruct Hs; simplify_eq. }
  by apply relabelled_self.
Qed.
#[export] Instance unsupported_header c : HeaderKept (UnsupportedCipher_encryptor c).
Proof.
  intros rng n t tun h pl p' r Hok Hs. assert (p' = mk_packet t tun h pl) as ->.
  { cbn [e_encrypt e_encrypt_with_nonce NullCipher UnsupportedCipher_encryptor] in Hs.
    unfold NullCipher_encrypt in Hs. by destruct Hs; simplify_eq. }
  by apply relabelled_self.
Qed.
#[export] Instance xor_header key : HeaderKept (XorCipher_encryptor key).
Proof. intros rng n t tun h pl p' r Hok [Hs|Hs]; exact (xor_kept key t tun h pl p' r Hok Hs). Qed.
#[export] Instance aes_header c : HeaderKept (AesGcmCipher_encryptor c).
Proof. intros rng n t tun h pl p' r Hok [Hs|Hs];
  [exact (aes_kept c rng n t tun h pl p' r Hok Hs)|exact (aes_kept c rng None t tun h pl p' r Hok Hs)]. Qed.
#[export] Instance chacha_header key : HeaderKept (ChaCha20Cipher_encryptor key).
Proof. intros rng n t tun h pl p' r Hok [Hs|Hs];
  [exact (chacha_kept key rng n t tun h pl p' r Hok Hs)|exact (chacha_kept key rng None t tun h pl p' r Hok Hs)]. Qed.
#[export] Instance ring_header c : HeaderKept (RingCipher_encryptor c).
Proof. intros rng n t tun h pl p' r Hok [Hs|Hs];
  [exact (ring_kept c rng n t tun h pl p' r Hok Hs)|exact (ring_kept c rng None t tun h pl p' r Hok Hs)]. Qed.
#[export] Instance openssl_header c : HeaderKept (OpenSslCipher_encryptor c).
Proof. intros rng n t tun h pl p' r Hok [Hs|Hs];
  [exact (openssl_kept c rng n t tun h pl p' r Hok Hs)|exact (openssl_kept c rng None t tun h pl p' r Hok Hs)]. Qed.
#[export] Instance create_header f alg k1 k2 : HeaderKept (create_encryptor f alg k1 k2).
Proof.
  destruct (create_encryptor_cases f alg k1 k2)
    as [(e & _ & c & -> & _)|(_ & [-> | [(c & ->) | [(c & ->) | [(c & ->) | (c & ->)]]]])]; apply _.
Qed.
End ciphers.
#[export] Instance node_header `{L : CryptoLib} f b alg k1 k2 : HeaderKept (node_encryptor f b alg k1 k2).
Proof. destruct b; apply _. Qed.

(** ** Compression and sessions *)

Lemma compress_kept `{z : Zstd} a t tun h pl p' r : parts_ok t tun h ->
  compress (mk_packet t tun h pl) a = Ret (p', r) -> relabelled t tun h p'.
Proof.
  unfold compress. destruct a; [by intros Hok [= <- _]; apply relabelled_self|].
  intros Hok. rewrite parts_header by done. cbn [unwrap mbind comp_bind].
  case_match; [by intros [= <- _]; apply relabelled_self|]. rewrite parts_payload by done. cbn [mbind comp_bind].
  destruct (compress_raw pl _) as [buf|e]; [|by intros [= <- _]; apply relabelled_self].
  case_match; [by intros [= <- _]; apply relabelled_self|].
  rewrite parts_mut_header by done. cbn [unwrap mbind comp_bind]. rewrite parts_put_header by done.
  assert (Hok' := parts_ok_compressed t tun h true Hok).
  rewrite replace_payload, extend_parts by done. intros [= <- _]. eexists _, _. by split_and!.
Qed.

Section relays.
Context {GS : Type} {C : CidrLib} {T : Target} {H : HmacLib} {L : CryptoLib} (f : Features).
Context {O : HashOrder} {CE : ConnEnv} {N : NoiseLib} {Pb : RelayPb} {z : Zstd} {Ad : AddrLib}.

(** The sessions of a node have the ciphers of their keys. *)
Definition sessions_ok (st : PeerSessionStore) : Prop :=
  forall a s, heap st !! a = Some s -> session_ok f (datagram s).

Lemma encrypt_payload_kept st dir rng t tun h pl now st' p' r : session_ok f st -> parts_ok t tun h ->
  encrypt_payload f st dir rng (mk_packet t tun h pl) now = Ret (st', p', r) -> relabelled t tun h p'.
Proof.
  intros Hst Hok. unfold encrypt_payload. destruct (negb (is_valid st)); [by intros [= _ <- _]; apply relabelled_self|].
  destruct (next_nonce st dir now) as [st1 [[e s] n]] eqn:En.
  destruct (next_nonce_ok f _ _ _ _ _ _ _ Hst En) as (Hok1 & _).
  destruct (get_or_create_ok f st1 e dir (session_generation st1) true) as (kc & -> & _); [apply Hok1|].
  cbn [mbind comp_bind].
  destruct (e_encrypt_with_nonce _ _ _ _) as [[p2 r2]|] eqn:Ee; [|done]. intros Hr.
  assert (p' = p2) as -> by (cbn [mbind comp_bind] in Hr; by destruct r2; simplify_eq).
  refine (create_header f _ _ _ rng (Some n) t tun h pl p2 r2 Hok (or_introl _)). exact Ee.
Qed.

(** At most one copy of a packet was sent. *)
Definition sent_packet (s : Sent) : ZCPacket := match s with OnConn _ _ p | ToSelf p => p end.
Definition one (msg : ZCPacket) (l : list Sent) : Prop := l = [] \/ exists s, l = [s] /\ sent_packet s = msg.

Lemma peer_sends_one P msg P' l r : Peer_send_msg P msg = (P', (l, r)) -> one msg l.
Proof.
  assert (Hc : forall P c, one msg (conn_send P c msg).1).
  { intros Q c. unfold conn_send. case_match; [right|by left]. eexists. split; [reflexivity|done]. }
  unfold Peer_send_msg. destruct (default_conn P) as [c|].
  - intros [= <- E]. specialize (Hc P c). by rewrite E in Hc.
  - destruct (select_conn P) as [Q [c|]]; intros [= <- E]; [|by left].
    specialize (Hc Q c). by rewrite E in Hc.
Qed.
Lemma map_sends_one M msg dst M' l r : PeerMap_send_msg_directly M msg dst = (M', (l, r)) -> one msg l.
Proof.
  unfold PeerMap_send_msg_directly. case_match; [intros [= _ <- _]; right; eexists; split; [reflexivity|done]|].
  destruct (get_peer_by_id M dst) as [P|]; [|by intros [= _ <- _]; left].
  destruct (Peer_send_msg P msg) as [P' [l' r']] eqn:E. intros [= _ <- _]. by eapply peer_sends_one.
Qed.
Lemma foreign_sends_one F msg dst F' l r : foreign_send_msg F msg dst = (F', (l, r)) -> one msg l.
Proof.
  unfold foreign_send_msg. destruct (foreign_get_next_hop F dst); [apply map_sends_one|by intros [= _ <- _]; left].
Qed.

(** What a step adds to the sent and to the buffered packets has property [P]. *)
Record spreads (P : ZCPacket -> Prop) (W W' : RelayWorld) : Prop := {
  sp_sent : exists l, w_out W' = w_out W ++ l /\ (length l <= 1)%nat /\ Forall (fun s => P (sent_packet s)) l;
  sp_buffered : forall id q pol, (q, pol) ∈ default [] (rp_pending_packets (w_relay W') !! id) ->
    (q, pol) ∈ default [] (rp_pending_packets (w_relay W) !! id) \/ P q }.

Lemma spreads_one P W W' msg l : P msg -> one msg l -> w_out W' = w_out W ++ l ->
  rp_pending_packets (w_relay W') = rp_pending_packets (w_relay W) -> spreads P W W'.
Proof.
  intros HP Hl Ho Hp. split; [|intros id q pol; rewrite Hp; by left]. exists l.
  destruct Hl as [-> | (s & -> & Hs)]; split_and!; try done; [cbn; lia|].
  constructor; [by rewrite Hs|constructor].
Qed.
Lemma spreads_none (P : ZCPacket -> Prop) W W' : w_out W' = w_out W ->
  rp_pending_packets (w_relay W') = rp_pending_packets (w_relay W) -> spreads P W W'.
Proof.
  intros Ho Hp. split; [|intros id q pol; rewrite Hp; by left]. exists []. rewrite app_nil_r. split_and!; [done|cbn; lia|constructor].
Qed.

Lemma via_next_hop_spreads (P : ZCPacket -> Prop) msg dst pol W0 W W' r :
  P msg -> w_out W = w_out W0 -> rp_pending_packets (w_relay W) = rp_pending_packets (w_relay W0) ->
  send_via_next_hop msg dst pol W = Ret (W', r) -> spreads P W0 W'.
Proof.
  intros HP Ho Hp. unfold send_via_next_hop.
  destruct (get_gateway_peer_id _ _ _) as [next|]; [|by intros [= <- _]; apply spreads_none].
  case_match.
  - destruct (PeerMap_send_msg_directly _ _ _) as [M [l r']] eqn:E. intros [= <- _].
    eapply spreads_one; [exact HP|by eapply map_sends_one|cbn; by rewrite Ho|done].
  - destruct (w_foreign W) as [F|]; [|by intros [= <- _]; apply spreads_none].
    destruct (foreign_send_msg _ _ _) as [M [l r']] eqn:E. intros [= <- _].
    eapply spreads_one; [exact HP|by eapply foreign_sends_one|cbn; by rewrite Ho|done].
Qed.

Lemma buffer_spreads (P : ZCPacket -> Prop) W W' dst msg pol : P msg -> w_out W' = w_out W ->
  rp_pending_packets (w_relay W') =
  rp_pending_packets (buffer_pending_packet (w_relay W) dst msg pol) -> spreads P W W'.
Proof.
  intros HP Ho Hp. split; [exists []; rewrite app_nil_r; split_and!; [done|cbn; lia|constructor]|].
  intros id q pol'. rewrite Hp. unfold buffer_pending_packet. cbn [rp_pending_packets with_pending_packets].
  destruct (decide (dst = id)) as [->|Hne]; [|rewrite lookup_insert_ne by done; by left].
  rewrite lookup_insert_eq. cbn [from_option]; unfold Datatypes.id.
  destruct (length _ <? MAX_PENDING_PACKETS_PER_PEER)%nat; [|by left].
  intros [Hq|Hq]%elem_of_app; [by left|]. apply list_elem_of_singleton in Hq as [= -> _]. by right.
Qed.

(** Asking for a session changes neither the sessions nor what is buffered. *)
Lemma ensure_session_same env dst W W' o : ensure_session env dst W = Ret (W', o) ->
  heap (w_store W') = heap (w_store W) /\ w_out W' = w_out W /\
  rp_pending_packets (w_relay W') = rp_pending_packets (w_relay W).
Proof.
  unfold ensure_session, session_key, on_store. run_act.
  destruct (store_get _ _ _) as [[st s]|] eqn:Es; [|done]. cbn [mbind comp_bind].
  assert (Hh : heap st = heap (w_store W)).
  { revert Es. unfold store_get. destruct (_ !! _) as [e|]; [|by intros [= <- _]]. unfold deref.
    destruct (heap _ !! _); cbn; [|done]. by case_match; intros [= <- _]. }
  destruct s as [a|]; [by intros [= <- _]|].
  destruct (get_handshake_lock _ dst) as [R l] eqn:Eg. destruct (try_lock R l) as [R2 got] eqn:Et.
  intros [= <- _]. split_and!; [done|done|]. cbn.
  assert (rp_pending_packets R2 = rp_pending_packets R) as ->.
  { revert Et. unfold try_lock. by case_match; intros [= <- _]. }
  revert Eg. unfold get_handshake_lock. by case_match; intros [= <- _].
Qed.

Lemma seal_kept_by env a dst t tun h pl W W' p' r : sessions_ok (w_store W) -> parts_ok t tun h ->
  seal_with f env a dst (mk_packet t tun h pl) W = Ret (W', (p', r)) ->
  relabelled t tun h p' /\ w_out W' = w_out W /\ w_relay W' = w_relay W.
Proof.
  intros Hs Hok. unfold seal_with, deref. destruct (heap (w_store W) !! a) as [s|] eqn:Ea; [|done].
  cbn [unwrap mbind comp_bind]. unfold PeerSession_encrypt_payload.
  destruct (negb _); [by intros [= <- <- _]; split_and!; [apply relabelled_self|..]|].
  destruct (encrypt_payload _ _ _ _ _ _) as [[[d p2] r2]|] eqn:Ee; [|done]. cbn [mbind comp_bind].
  intros Hr. assert (p' = p2 /\ w_out W' = w_out W /\ w_relay W' = w_relay W) as (-> & ? & ?).
  { injection Hr as <- <- _. done. }
  split_and!; [|done|done]. by eapply encrypt_payload_kept; [apply (Hs a s Ea)|..].
Qed.

Lemma relay_send_spreads env t tun h pl dst pol W W' o : sessions_ok (w_store W) -> parts_ok t tun h ->
  relay_send_msg f env (mk_packet t tun h pl) dst pol W = Ret (W', o) ->
  spreads (relabelled t tun h) W W'.
Proof.
  intros Hs Hok. unfold relay_send_msg, on_relay. run_act.
  set (W1 := set_relay W _). destruct (rp_is_secure_mode_enabled (w_relay W1)); cbn [negb].
  - destruct (ensure_session env dst W1) as [[W2 e]|] eqn:Ee; [|done].
    destruct (ensure_session_same _ _ _ _ _ Ee) as (Hh & Ho & Hp). destruct e as [a|g|].
    + destruct (seal_with f env a dst _ W2) as [[W3 [p3 r3]]|] eqn:Eseal; [|done].
      apply seal_kept_by in Eseal as (Hrel & Ho3 & Hr3); [|by unfold sessions_ok; rewrite Hh|done].
      assert (Hp3 : rp_pending_packets (w_relay W3) = rp_pending_packets (w_relay W)) by (by rewrite Hr3, Hp).
      destruct r3; [|by intros [= <- _]; apply spreads_none; [rewrite Ho3, Ho|]].
      destruct (send_via_next_hop p3 dst pol W3) as [[W4 r4]|] eqn:Ev; [|done]. intros [= <- _].
      by eapply via_next_hop_spreads; [exact Hrel|rewrite Ho3, Ho|exact Hp3|exact Ev].
    + intros [= <- _]. eapply (buffer_spreads _ _ _ dst); [by apply relabelled_self|done|].
      cbn. unfold buffer_pending_packet. cbn. by rewrite Hp.
    + intros [= <- _]. eapply (buffer_spreads _ _ _ dst); [by apply relabelled_self|done|].
      cbn. unfold buffer_pending_packet. cbn. by rewrite Hp.
  - destruct (send_via_next_hop _ dst pol W1) as [[W4 r4]|] eqn:Ev; [|done]. intros [= <- _].
    eapply via_next_hop_spreads; [by apply relabelled_self|..|exact Ev]; done.
Qed.

Lemma send_internal_spreads env (cfg : @CoreConfig GS C) t tun h pl dst c c' r :
  sessions_ok (w_store (c_world c)) -> parts_ok t tun h ->
  send_msg_internal f cfg env (mk_packet t tun h pl) dst c = Ret (c', r) ->
  spreads (relabelled t tun h) (c_world c) (c_world c').
Proof.
  intros Hs Hok. set (p := mk_packet t tun h pl). assert (Hp : relabelled t tun h p) by by apply relabelled_self.
  assert (Hrelay : forall pol, via_relay f env p dst pol c = Ret (c', r) ->
    spreads (relabelled t tun h) (c_world c) (c_world c')).
  { intros pol. unfold via_relay, on_world. run_act.
    destruct (relay_send_msg _ _ _ _ _ _) as [[W' [tasks r']]|] eqn:E; [|done]. intros [= <- _].
    by eapply relay_send_spreads. }
  assert (Hmap : forall g, (forall M M' l r, g M = (M', (l, r)) -> one p l) -> on_peers g c = Ret (c', r) ->
    spreads (relabelled t tun h) (c_world c) (c_world c')).
  { intros g Hg. unfold on_peers. destruct (g _) as [M [l a]] eqn:E. intros [= <- _].
    by eapply spreads_one; [exact Hp|eapply Hg|..]. }
  assert (Hforeign : on_foreign_client cfg (fun F => foreign_send_msg F p dst) c = Ret (c', r) ->
    spreads (relabelled t tun h) (c_world c) (c_world c')).
  { unfold on_foreign_client. destruct (foreign_send_msg _ _ _) as [M [l a]] eqn:E. intros [= <- _].
    by eapply spreads_one; [exact Hp|eapply foreign_sends_one|..]. }
  assert (Hnone : forall e, Ret (c, Err e) = Ret (c', r) -> spreads (relabelled t tun h) (c_world c) (c_world c')).
  { intros e [= <- _]. by apply spreads_none. }
  unfold send_msg_internal. run_act. unfold p at 1. rewrite parts_header by done.
  destruct (match _ with Some _ => _ | None => false end); [apply Hrelay|].
  destruct (get_peer_by_id _ dst) as [P|].
  { apply Hmap. intros M M' l r0. destruct (Peer_send_msg P p) as [P' [l' r']] eqn:E.
    intros [= _ <- _]. by eapply peer_sends_one. }
  destruct (is_self _ _); [apply Hmap; intros ? ? ? ?; apply map_sends_one|].
  destruct (foreign_has_next_hop _ dst); [apply Hforeign|].
  destruct (get_gateway_peer_id _ _ _) as [g|].
  - destruct (_ || _); [apply Hrelay|apply Hnone].
  - cbv [foreign_has_next_hop]. repeat case_match; first [apply Hforeign|apply Hnone].
Qed.

(** ** One relay *)

Lemma prepare_kept env (cfg : @CoreConfig GS C) t tun h pl p' r : HeaderKept (g_encryptor cfg) -> parts_ok t tun h ->
  try_compress_and_encrypt cfg env (mk_packet t tun h pl) = Ret (p', r) -> relabelled t tun h p'.
Proof.
  intros HE Hok. unfold try_compress_and_encrypt.
  destruct (compress _ _) as [[p1 r1]|] eqn:Ec; [|done]. cbn [mbind comp_bind].
  apply compress_kept in Ec as (h1 & pl1 & -> & Hok1 & Hs1); [|done].
  assert (Hrel : relabelled t tun h (mk_packet t tun h1 pl1)) by by exists h1, pl1.
  destruct r1; [|by intros [= <- _]]. destruct (negb _); [|by intros [= <- _]].
  destruct (e_encrypt _ _ _) as [[p2 r2]|] eqn:Ee; [|done]. cbn [mbind comp_bind]. intros Hr.
  assert (p' = p2) as -> by (by destruct r2; simplify_eq).
  eapply relabelled_trans; [exact Hs1|]. eapply (HE _ None); [done|]. by right.
Qed.

Lemma forwarded_ok t tun h : parts_ok t tun h -> forward_counter h <= 7 -> parts_ok t tun (forwarded h).
Proof. intros [? ?] ?. split; [done|by apply forwarded_wf]. Qed.

Lemma forward_packet_spreads env (cfg : @CoreConfig GS C) t tun h pl drop c c' : HeaderKept (g_encryptor cfg) ->
  sessions_ok (w_store (c_world c)) -> parts_ok t tun h ->
  forward_packet f cfg env (mk_packet t tun h pl) h drop c = Ret (c', tt) ->
  spreads (fun q => forward_counter h <= 7 /\ relabelled t tun (forwarded h) q) (c_world c) (c_world c').
Proof.
  intros HE Hs Hok. unfold forward_packet.
  destruct drop; [by intros [= <-]; apply spreads_none|].
  destruct (Z.ltb_spec 7 (forward_counter h)) as [|H7]; [by intros [= <-]; apply spreads_none|].
  destruct (_ && one_of _ _); [by intros [= <-]; apply spreads_none|].
  run_act. rewrite edit_parts by done. fold (forwarded h). pose proof (forwarded_ok t tun h Hok H7) as Hok'.
  assert (Hsend : forall q, relabelled t tun (forwarded h) q ->
    match send_msg_internal f cfg env q (to_peer_id h) c with Ret (s, _) => Ret (s, tt) | Panic => Panic end
      = Ret (c', tt) ->
    spreads (fun q => forward_counter h <= 7 /\ relabelled t tun (forwarded h) q) (c_world c) (c_world c')).
  { intros q (h1 & pl1 & -> & Hok1 & Hs1).
    destruct (send_msg_internal _ _ _ _ _ _) as [[c1 r]|] eqn:E; [|done]. intros [= <-].
    destruct (send_internal_spreads env cfg t tun h1 pl1 _ c c1 r Hs Hok1 E) as [(l & Hl & Hlen & Hall) Hbuf].
    split.
    - exists l. split_and!; [done|done|]. eapply Forall_impl; [exact Hall|]. intros x Hx.
      split; [done|by eapply relabelled_trans].
    - intros id q pol Hq. destruct (Hbuf id q pol Hq); [by left|right]. split; [done|by eapply relabelled_trans]. }
  destruct (_ && one_of _ _); [|by apply Hsend, relabelled_self].
  destruct (try_compress_and_encrypt _ _ _) as [[p2 r2]|] eqn:Ep; [|done]. cbn [fmap comp_fmap fst].
  by eapply Hsend, prepare_kept.
Qed.

(** A relay passes the packet on with its counter increased, or not at all. *)
Lemma relay_spreads env (cfg : @CoreConfig GS C) t tun h pl ingress c c' : HeaderKept (g_encryptor cfg) ->
  sessions_ok (w_store (c_world c)) -> parts_ok t tun h -> to_peer_id h <> g_my_peer_id cfg ->
  pm_packet_type h <> u8_of ForeignNetworkPacket ->
  router_step f cfg env (mk_packet t tun h pl) ingress c = Ret (c', tt) ->
  spreads (fun q => forward_counter h <= 7 /\ relabelled t tun (forwarded h) q) (c_world c) (c_world c').
Proof.
  intros HE Hs Hok Hto Hty. set (p := mk_packet t tun h pl).
  assert (Hh : peer_manager_header p = Some h) by by apply parts_header.
  assert (Hd : is_relay_data_zc_packet p = Ret (is_relay_data_packet (pm_packet_type h))).
  { unfold is_relay_data_zc_packet. by rewrite Hh, (proj2 (Z.eqb_neq _ _) Hty). }
  unfold router_step. run_act. rewrite Hd.
  destruct (pp_disable_relay_data _); rewrite (pass_foreign cfg p h) by done;
    rewrite (handle_packet_spec f env cfg p h _ _ ingress c Hh Hd), (proj2 (Z.eqb_neq _ _) Hto); cbn [negb];
    by apply forward_packet_spreads.
Qed.

(** ** The way of a packet *)

(** Some relay, in some state, takes [q] and sends or buffers [q']. *)
Definition forwards (q q' : ZCPacket) : Prop := exists (cfg : @CoreConfig GS C) env ingress c c' h,
  HeaderKept (g_encryptor cfg) /\ sessions_ok (w_store (c_world c)) /\ peer_manager_header q = Some h /\
  to_peer_id h <> g_my_peer_id cfg /\ pm_packet_type h <> u8_of ForeignNetworkPacket /\
  router_step f cfg env q ingress c = Ret (c', tt) /\
  ((exists l s, c_sent c' = c_sent c ++ l /\ s ∈ l /\ sent_packet s = q') \/
   (exists id pol, (q', pol) ∈ default [] (rp_pending_packets (w_relay (c_world c')) !! id) /\
                   (q', pol) ∉ default [] (rp_pending_packets (w_relay (c_world c)) !! id))).
(** A buffered packet is sealed when the session is there. *)
Definition flushed (q q' : ZCPacket) : Prop := exists W W' env a dst r, sessions_ok (w_store W) /\
  seal_with f env a dst q W = Ret (W', (q', r)).

(** From [p] to [q] through [n] relays, whichever they are. *)
Inductive journey : nat -> ZCPacket -> ZCPacket -> Prop :=
  | journey_start p : journey 0 p p
  | journey_tunnel n p q q' : journey n p q -> rewrapped q q' -> journey n p q'
  | journey_flush n p q q' : journey n p q -> flushed q q' -> journey n p q'
  | journey_relay n p q q' : journey n p q -> forwards q q' -> journey (S n) p q'.

(** What is known of a packet after [n] relays. *)
Definition after_relays (h : PeerManagerHeader) (n : nat) (q : ZCPacket) : Prop := exists t tun h' pl,
  q = mk_packet t tun h' pl /\ parts_ok t tun h' /\
  from_peer_id h' = from_peer_id h /\ to_peer_id h' = to_peer_id h /\
  pm_packet_type h' = pm_packet_type h /\ pm_len h' = pm_len h /\
  forward_counter h' = forward_counter h + Z.of_nat n /\ (n = 0%nat \/ forward_counter h' <= 8).

Lemma after_relabelled h n t tun h' q :
  from_peer_id h' = from_peer_id h -> to_peer_id h' = to_peer_id h ->
  pm_packet_type h' = pm_packet_type h -> pm_len h' = pm_len h ->
  forward_counter h' = forward_counter h + Z.of_nat n -> (n = 0%nat \/ forward_counter h' <= 8) ->
  relabelled t tun h' q -> after_relays h n q.
Proof.
  intros H1 H2 H3 H4 H5 H6 (h2 & pl & -> & Hok2 & [S1 S2 S3 S4 S5]). exists t, tun, h2, pl.
  rewrite S1, S2, S3, S4, S5. by split_and!.
Qed.

Lemma journey_spec n p q : journey n p q -> forall t tun h pl, p = mk_packet t tun h pl -> parts_ok t tun h ->
  after_relays h n q.
Proof.
  induction 1 as [p|n p q q' _ IH Hw|n p q q' _ IH Hf|n p q q' _ IH Hf]; intros t tun h pl Hp Hok.
  - exists t, tun, h, pl. split_and!; try done; [lia|by left].
  - destruct (IH _ _ _ _ Hp Hok) as (t1 & tun1 & h1 & pl1 & -> & Hok1 & Hrest).
    destruct (rewrapped_parts _ _ _ _ _ Hok1 Hw) as (t2 & tun2 & Hok2 & ->). by exists t2, tun2, h1, pl1.
  - destruct (IH _ _ _ _ Hp Hok) as (t1 & tun1 & h1 & pl1 & -> & Hok1 & ? & ? & ? & ? & ? & ?).
    destruct Hf as (W & W' & env & a & dst & r & Hs & Hseal).
    apply seal_kept_by in Hseal as (Hrel & _); [|done|done].
    by eapply (after_relabelled h n t1 tun1 h1).
  - destruct (IH _ _ _ _ Hp Hok) as (t1 & tun1 & h1 & pl1 & -> & Hok1 & H1 & H2 & H3 & H4 & H5 & H6).
    destruct Hf as (cfg & env & ingress & c & c' & h2 & HE & Hs & Hh & Hto & Hty & Hstep & Hout).
    rewrite parts_header in Hh by done. assert (h2 = h1) as -> by congruence.
    pose proof (relay_spreads env cfg t1 tun1 h1 pl1 ingress c c' HE Hs Hok1 Hto Hty Hstep) as [Hsent Hbuf].
    assert (Hq : forward_counter h1 <= 7 /\ relabelled t1 tun1 (forwarded h1) q').
    { destruct Hout as [(l & s & El & Hin & <-)|(id & pol & Hin & Hnot)].
      - destruct Hsent as (l' & El' & _ & Hall). unfold c_sent in El. rewrite El' in El.
        apply app_inv_head in El as ->. rewrite Forall_forall in Hall. by apply Hall.
      - by destruct (Hbuf id q' pol Hin). }
    destruct Hq as [H7 Hrel]. destruct (forwarded_same h1) as (F1 & F2 & F3 & F4 & F5 & _).
    eapply (after_relabelled h (S n) t1 tun1 (forwarded h1)); [..|exact Hrel];
      try congruence; [lia|right; lia].
Qed.
End relays.

(** ** Property *)


(** Node 2 of the line relays a packet from 1 to 3. *)
Module LineHop.
Import LineSafety.
#[local] Existing Instances Line.order Line.conn_env Line.cidrs Line.hmac Line.noise Line.pb Line.addrs Line.word.
#[local] Existing Instances toy_lib zeros_zstd.

Definition passed_on : @Core unit Line.cidrs :=
  match router_step full_features (Line.cfg 2) Line.env (packet 1) Local (Line.core 2 [1; 3]) with
  | Ret (c, _) => c
  | Panic => Line.core 2 [1; 3]
  end.
Lemma passed_on_eq : router_step full_features (Line.cfg 2) Line.env (packet 1) Local (Line.core 2 [1; 3]) =
  Ret (passed_on, tt).
Proof.
  unfold passed_on. assert (E : match router_step full_features (Line.cfg 2) Line.env (packet 1) Local
    (Line.core 2 [1; 3]) with Ret _ => true | Panic => false end = true) by (vm_compute; reflexivity).
  by destruct (router_step _ _ _ _ _ _) as [[c []]|].
Qed.

Lemma one_relay : journey (GS := unit) full_features 1 (packet 1) (packet 2).
Proof.
  eapply journey_relay; [apply journey_start|].
  exists (Line.cfg 2), Line.env, Local, (Line.core 2 [1; 3]), passed_on, (to_three 1).
  split_and!; [apply _|by intros a s|vm_compute; reflexivity|done|done|exact passed_on_eq|].
  left. exists [OnConn 3 3 (packet 2)], (OnConn 3 3 (packet 2)). split_and!; [vm_compute; reflexivity|by left|done].
Qed.

End LineHop.
