(* ===== verification/RelayProofs.v ===== *)
(** Theorems on sessions that are made through relays
    ([peers/relay_peer_map.rs]): two nodes without a session get one, with the
    same key, from one exchange of messages; in secure mode nothing is relayed
    in the clear; what waits for a session is bounded. *)
From stdpp Require Import list gmap strings relations.
From S2P Require Import Prelude SyncedRoute Headers Packet Encrypt Compressor ReplayWindow SecureDatagram SecureSession PeerSession.
From S2P Require Import TokenBucket Acl AclFilter RouteMessages RouteTable PeerConns Rpc.
From S2P Require Import PeerConnsProofs RelayPeerMap PacketRouter PacketPath PacketRouterProofs PacketSafety HopLimit.
Local Open Scope Z_scope.

Section handshake.
Context {T : Target} {H : HmacLib} {L : CryptoLib} (f : Features).
Context {O : HashOrder} {CE : ConnEnv} {N : NoiseLib} {NL : NoiseLaws N} {Pb : RelayPb} {PL : RelayPbLaws Pb}.

(** ** Handshake packets *)

(** The header of a handshake packet when it leaves, but for its flags. *)
Definition handshake_packet (me dst : Z) (t : PacketType) (pl : list Z) (p : ZCPacket) : Prop :=
  payload p = Ret pl /\ exists h, peer_manager_header p = Some h /\ from_peer_id h = me /\
    to_peer_id h = dst /\ pm_packet_type h = PacketType_as_u8 t.

(** A node [me] that can reach [other]. *)
Record reaches (W : RelayWorld) (me other : Z) : Prop := {
  rc_me : rp_my_peer_id (w_relay W) = me /\ pm_my_peer_id (w_peers W) = me /\ u32 me;
  rc_hop : forall pol, exists v, get_gateway_peer_id (w_peers W) other pol = Some v /\ v <> me /\
    usable (w_peers W) v }.

Lemma send_handshake_spec env pl t me dst pol W : reaches W me dst -> u32 dst ->
  exists M s p, send_handshake_packet env pl t dst pol W = Ret (set_peers W M [s], Ok tt) /\
    sent_packet s = p /\ handshake_packet me dst t pl p /\ links_kept (w_peers W) M.
Proof.
  intros [(Hme & Hpm & Hu) Hhop] Hd. destruct (Hhop pol) as (v & Hg & Hv & Hus).
  unfold send_handshake_packet. run_act. rewrite Hme.
  destruct (new_with_payload_spec (re_uninit env) pl) as (pre & Hpre & ->).
  set (zc := {| inner := pre ++ pl; packet_type := NIC |}).
  assert (Hh : has_header zc).
  { unfold has_header, zc. cbn [inner]. rewrite len_app. pose proof (len_nonneg pl).
    change (zc_payload_offset _) with 36. lia. }
  rewrite fill_hdr_spec by done. set (h1 := {| from_peer_id := me |}).
  assert (Hw1 : PeerManagerHeader_wf h1) by (apply filled_hdr_wf; [done|done|by destruct t]).
  rewrite mut_pm_header, put_pm_get by done. cbn [fmap option_fmap option_map].
  set (h2 := set_latency_first h1 _). set (p := put_pm_header (put_pm_header zc h1) h2).
  assert (Hw2 : PeerManagerHeader_wf h2) by (by apply set_flag_wf; [exact latency_flag|]).
  destruct (next_hop_send W p dst pol v Hg) as (M & cid & -> & Hl); [by rewrite Hpm|done|].
  exists M, (OnConn v cid p), p. split_and!; [done|done| |done]. split.
  - unfold p. rewrite !put_pm_payload by auto using put_pm_has_header. by apply payload_app.
  - exists h2. unfold p. rewrite put_pm_get by auto using put_pm_has_header. done.
Qed.

(** ** The two sides *)

(** The node's routes give the static key of the peer. *)
Definition knows_key (W : RelayWorld) (id : Z) (k : list Z) : Prop :=
  k <> [] /\ exists i, get_route_peer_info (w_peers W) id = Some i /\ noise_static_pubkey i = k.
Lemma knows_key_get W id k : knows_key W id k -> get_remote_static_pubkey id W = Ret (W, Some k).
Proof.
  intros (Hne & i & Hi & Hk). unfold get_remote_static_pubkey, gets. rewrite Hi, Hk. by destruct k.
Qed.

Lemma store_get_fresh st k now : sessions st !! k = None -> store_get st k now = Ret (st, None).
Proof. intros E. unfold store_get. by rewrite E. Qed.

(** No session with the peer yet. *)
Definition no_session (W : RelayWorld) (id : Z) : Prop :=
  sessions (w_store W) !! (rp_network_name (w_relay W), id) = None.

Definition first_message (env : RelayEnv) : RelayNoiseMsg1Pb :=
  {| m1_version := RELAY_NOISE_VERSION; m1_a_session_generation := None; m1_a_conn_id := Some (re_uuid env);
     m1_client_encryption_algorithm := re_encryption_algorithm env |}.

Lemma attempt_send_spec env me dst pol W priv k i out : reaches W me dst -> u32 dst -> no_session W dst ->
  re_private_key env = Some priv -> knows_key W dst k ->
  noise_initiate priv k (encode_msg1 (first_message env)) = Some (i, out) ->
  exists W' s, attempt_send env dst pol W =
      Ret (W', Ok {| wt_init := i; wt_conn_id := re_uuid env; wt_remote_static := k |}) /\
    w_out W' = w_out W ++ [s] /\ handshake_packet me dst RelayHandshake out (sent_packet s) /\
    rp_pending_handshakes (w_relay W') !! dst = Some (re_uuid env).
Proof.
  intros Hr Hd Hno Hpriv Hk Hi. unfold attempt_send, session_key, on_store. run_act.
  rewrite (knows_key_get _ _ _ Hk), Hpriv, (store_get_fresh _ _ _ Hno). cbn [mbind comp_bind].
  change (option_bind nat Z _ None) with (@None Z). fold (first_message env). rewrite Hi. unfold on_relay. run_act.
  set (W1 := set_relay _ _).
  assert (Hr1 : reaches W1 me dst) by (destruct Hr as [? ?]; by split).
  destruct (send_handshake_spec env out RelayHandshake me dst pol W1 Hr1 Hd) as (M & s & p & -> & <- & Hp & _).
  eexists _, s. split_and!; [done|done|done|]. cbn. apply lookup_insert_eq.
Qed.

Lemma upsert_fresh st k ag sa ra pk fresh now now_ms : store_wf st -> sessions st !! k = None ->
  exists st', upsert_responder_session st k ag sa ra pk fresh now now_ms =
      Ret (st', Ok {| u_session := next_arc st; u_action := Create; u_generation := 1;
                      u_root_key := Some fresh; u_initial_epoch := 0 |}) /\
    heap st' !! next_arc st = Some (PeerSession_new k.2 fresh 1 0 sa ra pk now_ms) /\
    (exists e, sessions st' !! k = Some e /\ e_session e = next_arc st).
Proof.
  intros Hwf Hno. unfold upsert_responder_session. rewrite Hno. cbn [mbind comp_bind alloc].
  eexists. split_and!; [reflexivity|apply lookup_insert_eq|]. cbn. eexists. split; [apply lookup_insert_eq|done].
Qed.

(** A message as it arrives: relays and tunnels keep its ends and payload. *)
Definition arrives (p p' : ZCPacket) : Prop := payload p' = payload p /\
  forall h, peer_manager_header p = Some h -> exists h', peer_manager_header p' = Some h' /\
    from_peer_id h' = from_peer_id h /\ to_peer_id h' = to_peer_id h /\ pm_packet_type h' = pm_packet_type h.
Lemma handshake_arrives me dst t pl p p' : handshake_packet me dst t pl p -> arrives p p' ->
  handshake_packet me dst t pl p'.
Proof.
  intros [Hp (h & Hh & ? & ? & ?)] [Hpl Hhdr]. split; [congruence|].
  destruct (Hhdr h Hh) as (h' & ? & ? & ? & ?). exists h'. split_and!; congruence.
Qed.

Definition second_message (envB : RelayEnv) (echo : option Z) (fresh : list Z) : RelayNoiseMsg2Pb :=
  {| m2_action := action_i32 Create; m2_b_session_generation := 1; m2_root_key_32 := Some fresh;
     m2_initial_epoch := 0; m2_b_conn_id := Some (re_uuid envB); m2_a_conn_id_echo := echo;
     m2_server_encryption_algorithm := re_encryption_algorithm envB |}.

Lemma flush_nothing {A} env dst a (r : A) W : rp_pending_packets (w_relay W) !! dst = None ->
  exists W', (flush_pending_packets f env dst a ;; mret r) W = Ret (W', r) /\
    w_out W' = w_out W /\ w_store W' = w_store W.
Proof. intros E. unfold flush_pending_packets, on_relay. run_act. rewrite E. by eexists. Qed.

(** The responder answers a first contact, and goes on with what waits for the
    peer. *)
Lemma respond_spec env W me other priv k r m1 out p1 m :
  reaches W me other -> u32 other -> no_session W other -> store_wf (w_store W) ->
  re_private_key env = Some priv -> knows_key W other k ->
  rp_pending_handshakes (w_relay W) !! other = None \/ other < me ->
  handshake_packet other me RelayHandshake m p1 ->
  noise_respond priv m = Some (r, k, encode_msg1 m1) ->
  noise_reply r (encode_msg2 (second_message env (m1_a_conn_id m1) (re_fresh_key env))) = Some out ->
  exists W' s ib, handle_handshake_packet f env p1 W =
      (flush_pending_packets f env other (next_arc (w_store W)) ;; mret (None, Ok tt)) W' /\
    rp_pending_packets (w_relay W') = rp_pending_packets (w_relay W) /\
    w_out W' = w_out W ++ [s] /\ handshake_packet me other RelayHandshakeAck out (sent_packet s) /\
    heap (w_store W') !! next_arc (w_store W) = Some ib /\
    ib = PeerSession_new other (re_fresh_key env) 1 0 (re_encryption_algorithm env)
           (m1_client_encryption_algorithm m1) (key32 k) (re_now_ms env) /\
    exists e, sessions (w_store W') !! (rp_network_name (w_relay W), other) = Some e /\
      e_session e = next_arc (w_store W).
Proof.
  intros Hr Ho Hno Hwf Hpriv Hk Hrace [Hpl (h & Hh & Hf & Ht & Hty)] Hresp Hreply.
  unfold handle_handshake_packet. run_act. rewrite Hh, Hty, Hf.
  change (PacketType_as_u8 RelayHandshake =? PacketType_as_u8 RelayHandshake) with true. cbn match.
  assert (Hmsg : exists W1, handle_relay_msg1 f env p1 other W =
      (flush_pending_packets f env other (next_arc (w_store W)) ;; mret (Ok tt)) W1 /\
    rp_pending_packets (w_relay W1) = rp_pending_packets (w_relay W) /\
    exists s ib, w_out W1 = w_out W ++ [s] /\ handshake_packet me other RelayHandshakeAck out (sent_packet s) /\
    heap (w_store W1) !! next_arc (w_store W) = Some ib /\
    ib = PeerSession_new other (re_fresh_key env) 1 0 (re_encryption_algorithm env)
           (m1_client_encryption_algorithm m1) (key32 k) (re_now_ms env) /\
    exists e, sessions (w_store W1) !! (rp_network_name (w_relay W), other) = Some e /\
      e_session e = next_arc (w_store W)).
  2:{ destruct Hmsg as (W1 & -> & Hq & s & ib & Hrest). exists W1, s, ib. split; [|done]. run_act.
      by destruct (flush_pending_packets _ _ _ _ W1) as [[W2 []]|]. }
  unfold handle_relay_msg1. run_act. rewrite Hh.
  destruct (rc_me _ _ _ Hr) as (Hme & Hpm & Hu). rewrite Hme.
  assert (Hgo : bool_decide (is_Some (rp_pending_handshakes (w_relay W) !! other)) && negb (other <? me) = false).
  { destruct Hrace as [E|E]; [by rewrite E|]. by rewrite (proj2 (Z.ltb_lt _ _) E), andb_false_r. }
  rewrite Hgo.
  set (start := (if bool_decide (is_Some (rp_pending_handshakes (w_relay W) !! other))
    then on_relay (fun R => drop_pending_handshake R other) else fun s : RelayWorld => Ret (s, tt)) W).
  assert (Hstart : exists R, start = Ret (set_relay W R, tt) /\ rp_my_peer_id R = me /\
    rp_network_name R = rp_network_name (w_relay W) /\
    rp_pending_packets R = rp_pending_packets (w_relay W)).
  { unfold start, on_relay. case_bool_decide; [by eexists|]. exists (w_relay W). by destruct W. }
  destruct Hstart as (R & -> & Rme & Rnet & Rbuf).
  unfold handshake_payload. rewrite Hh, Hty, Z.eqb_refl. cbn [negb]. rewrite Hpl. cbn [mbind comp_bind].
  rewrite Hpriv. cbn [option_bind]. rewrite Hresp. cbn [option_bind]. rewrite decode_encode_msg1.
  cbn [option_bind]. rewrite (knows_key_get (set_relay W R) other k) by exact Hk.
  rewrite bool_decide_eq_true_2 by done. cbn [negb]. unfold session_key, on_store. run_act. cbn [w_relay set_relay w_store].
  rewrite Rnet.
  destruct (upsert_fresh (w_store W) (rp_network_name (w_relay W), other) (m1_a_session_generation m1)
    (re_encryption_algorithm env) (m1_client_encryption_algorithm m1) (key32 k) (re_fresh_key env)
    (re_now env) (re_now_ms env) Hwf Hno) as (st & -> & Hheap & Hent). cbn [mbind comp_bind u_action u_generation
    u_root_key u_initial_epoch u_session].
  fold (second_message env (m1_a_conn_id m1) (re_fresh_key env)). rewrite Hreply. unfold on_relay. run_act.
  set (W2 := set_relay _ _).
  assert (Hr2 : reaches W2 me other) by (destruct Hr as [? ?]; by split).
  destruct (send_handshake_spec env out RelayHandshakeAck me other
    (if is_latency_first h || (0 <? forward_counter h) then LeastCost else LeastHop) W2 Hr2 Ho)
    as (M & s & p & -> & <- & Hp & _).
  eexists. split; [reflexivity|]. split; [exact Rbuf|]. eexists s, _. split_and!; [done|done|exact Hheap|done|exact Hent].
Qed.

Lemma apply_fresh st k g key ep sa ra pk now now_ms : sessions st !! k = None ->
  exists st', apply_initiator_action st k Create g (Some key) ep sa ra pk now now_ms = Ret (st', Ok (next_arc st)).
Proof.
  intros Hno. unfold apply_initiator_action. rewrite Hno. cbn [mbind comp_bind alloc]. rewrite Hno.
  unfold check_session, deref. cbn [put_entry heap]. rewrite lookup_insert_eq. cbn [unwrap mbind comp_bind].
  unfold check_encrypt_algo_same. cbn [datagram PeerSession_new session_new send_cipher_algorithm recv_cipher_algorithm].
  rewrite (bool_decide_eq_true_2 (sa = sa)), (bool_decide_eq_true_2 (ra = ra)) by done. cbn [negb orb].
  assert (E : check_or_set_peer_static_pubkey (PeerSession_new k.2 key g ep sa ra pk now_ms) pk =
    (PeerSession_new k.2 key g ep sa ra pk now_ms, Ok tt)).
  { unfold check_or_set_peer_static_pubkey. destruct pk; [|done]. cbn [peer_static_pubkey PeerSession_new].
    rewrite bool_decide_eq_true_2 by done. done. }
  rewrite E. cbn [mbind comp_bind put_session heap]. rewrite lookup_insert_eq. cbn [unwrap mbind comp_bind].
  by eexists.
Qed.

(** The initiator takes the answer. *)
Lemma receive_completes env envB W me dst w out p2 fresh :
  no_session W dst -> store_wf (w_store W) -> handshake_packet dst me RelayHandshakeAck out p2 ->
  rp_pending_handshakes (w_relay W) !! dst = Some (wt_conn_id w) -> length fresh = 32%nat ->
  noise_complete (wt_init w) out = Some (encode_msg2 (second_message envB (Some (wt_conn_id w)) fresh)) ->
  exists W1 W2 a ia, handle_handshake_packet f env p2 W = Ret (W1, (Some (wt_conn_id w, p2), Ok tt)) /\
    attempt_receive env dst w (Some p2) W1 = Ret (W2, Ok a) /\
    heap (w_store W2) !! a = Some ia /\
    (exists e, sessions (w_store W2) !! (rp_network_name (w_relay W), dst) = Some e /\ e_session e = a) /\
    PeerSession_is_valid ia = true /\ ps_generation ia = 1 /\ ps_root_key ia = fresh /\
    send_epoch (datagram ia) = 0 /\ send_seq (datagram ia) = (0, 0) /\
    send_cipher_algorithm (datagram ia) = re_encryption_algorithm env /\
    recv_cipher_algorithm (datagram ia) = re_encryption_algorithm envB.
Proof.
  intros Hno Hwf [Hpl (h & Hh & Hf & Ht & Hty)] Hpend Hlen Hdone.
  exists (set_relay W (drop_pending_handshake (w_relay W) dst)).
  unfold handle_handshake_packet. run_act. rewrite Hh, Hty, Hf.
  change (PacketType_as_u8 RelayHandshakeAck =? PacketType_as_u8 RelayHandshake) with false.
  change (PacketType_as_u8 RelayHandshakeAck =? PacketType_as_u8 RelayHandshakeAck) with true. cbn beta match.
  rewrite Hpend. unfold on_relay. run_act. cbn [fmap option_fmap option_map].
  unfold attempt_receive, session_key. run_act. unfold handshake_payload. rewrite Hh, Hty, Z.eqb_refl.
  cbn [negb]. rewrite Hpl. cbn [mbind comp_bind option_bind]. rewrite Hdone. cbn [option_bind].
  rewrite decode_encode_msg2. cbn [second_message m2_a_conn_id_echo m2_action m2_b_session_generation
    m2_root_key_32 m2_initial_epoch m2_server_encryption_algorithm action_try_from action_i32 option_bind].
  rewrite bool_decide_eq_true_2 by done. cbn [negb]. unfold key32 at 1. rewrite Hlen.
  change ((32 =? 32)%nat) with true. cbn match. unfold on_store. cbn [w_store set_relay w_relay].
  cbn [mbind option_bind]. change (rp_network_name (drop_pending_handshake (w_relay W) dst)) with (rp_network_name (w_relay W)).
  set (k := (rp_network_name (w_relay W), dst)).
  destruct (apply_fresh (w_store W) k 1 fresh 0 (re_encryption_algorithm env) (re_encryption_algorithm envB)
    (key32 (wt_remote_static w)) (re_now env) (re_now_ms env) Hno) as (st & E).
  destruct (apply_install_cases (w_store W) k Create 1 fresh 0 (re_encryption_algorithm env)
    (re_encryption_algorithm envB) (key32 (wt_remote_static w)) (re_now env) (re_now_ms env) Hwf ltac:(done))
    as (st2 & r2 & E2 & _ & Hr). rewrite E in E2. injection E2 as <- <-. cbn in Hr.
  destruct Hr as (ia & Hia & Hent & Hv & Hg & Hkey & He & Hsq & Hsa & Hra).
  rewrite E. run_act. eexists _, _, ia. split_and!; try done.
Qed.

(** ** Together *)

(** The two ends of a session. *)
Record paired (ia ib : PeerSession) (key : list Z) : Prop := {
  pd_valid : PeerSession_is_valid ia = true /\ PeerSession_is_valid ib = true;
  pd_key : ps_root_key ia = key /\ ps_root_key ib = key;
  pd_generation : ps_generation ia = ps_generation ib;
  pd_out : send_cipher_algorithm (datagram ia) = recv_cipher_algorithm (datagram ib);
  pd_in : recv_cipher_algorithm (datagram ia) = send_cipher_algorithm (datagram ib);
  pd_start : send_epoch (datagram ia) = send_epoch (datagram ib) /\ send_seq (datagram ia) = (0, 0) /\
             send_seq (datagram ib) = (0, 0) }.
End handshake.

(** ** Nothing in the clear *)

(** The mark in the header. *)
Definition marked_encrypted (p : ZCPacket) : Prop :=
  exists h, peer_manager_header p = Some h /\ is_encrypted h = true.

Section sealing.
Context {L : CryptoLib}.

Lemma sealed_parts t tun h pl : parts_ok t tun h -> is_encrypted h = true -> marked_encrypted (mk_packet t tun h pl).
Proof. intros Hok He. exists h. by rewrite parts_header. Qed.

Lemma seal_sealed t tun h pl ct tail p' : parts_ok t tun h ->
  (let p := {| inner := overwrite (zc_payload_offset (mk_packet t tun h pl)) ct (inner (mk_packet t tun h pl));
               packet_type := t |} in
   match tail with
   | None => Ret (p, Err EncryptionFailed)
   | Some d => '(h, put) ← unwrap (mut_peer_manager_header p); Ret (extend_packet (put (set_encrypted h true)) d, Ok tt)
   end) = Ret (p', Ok tt) -> marked_encrypted p'.
Proof.
  intros Hok. destruct (parts_put_any t tun h pl ct Hok) as [pl' ->]. cbn zeta. destruct tail as [d|]; [|done].
  rewrite parts_mut_header by done. cbn [unwrap mbind comp_bind]. rewrite parts_put_header by done.
  rewrite extend_parts. intros [= <-]. apply sealed_parts; [by apply parts_ok_encrypted|apply is_encrypted_set].
Qed.

(** A cipher that succeeds has sealed the packet. *)
Class Seals (E : Encryptor) := seals : forall rng n t tun h pl p', parts_ok t tun h ->
  e_encrypt_with_nonce E rng (mk_packet t tun h pl) n = Ret (p', Ok tt) -> marked_encrypted p'.

Ltac seals_start :=
  intros rng n t tun h pl p' Hok; cbn [e_encrypt_with_nonce UnsupportedCipher_encryptor XorCipher_encryptor
    AesGcmCipher_encryptor ChaCha20Cipher_encryptor RingCipher_encryptor OpenSslCipher_encryptor];
  unfold XorCipher_encrypt, AesGcmCipher_encrypt_with_nonce, ChaCha20Cipher_encrypt_with_nonce,
    RingCipher_encrypt_with_nonce, OpenSslCipher_encrypt_with_nonce;
  rewrite parts_header by done; cbn [unwrap mbind comp_bind];
  destruct (is_encrypted h) eqn:Eh; [by intros [= <-]; apply sealed_parts|].
Ltac seals_aead :=
  case_match; [|done]; rewrite parts_mut_payload by done; cbn [mbind comp_bind];
  match goal with
  | |- context [let '(_, _) := ?x in _] =>
    let ct := fresh "ct" in let tg := fresh "tg" in destruct x as [ct [tg|]]; intros Hs;
    [eapply (seal_sealed _ _ _ _ ct (Some _))|eapply (seal_sealed _ _ _ _ ct None)]; done
  end.

#[export] Instance aes_seals c : Seals (AesGcmCipher_encryptor c).
Proof. seals_start. seals_aead. Qed.
#[export] Instance chacha_seals key : Seals (ChaCha20Cipher_encryptor key).
Proof. seals_start. seals_aead. Qed.
#[export] Instance ring_seals c : Seals (RingCipher_encryptor c).
Proof. seals_start. seals_aead. Qed.
#[export] Instance openssl_seals c : Seals (OpenSslCipher_encryptor c).
Proof.
  seals_start. case_match; [|done]. rewrite parts_payload by done. cbn [mbind comp_bind].
  destruct (ossl_seal _ _ _ _) as [[ct tg]|]; [|done]. rewrite parts_mut_payload by done. cbn [mbind comp_bind].
  destruct (copy_into _ _ _ _) as [m|]; [cbn [mbind comp_bind]|done]. destruct tg as [tg|]; intros Hs;
    [eapply (seal_sealed _ _ _ _ m (Some _))|eapply (seal_sealed _ _ _ _ m None)]; done.
Qed.
#[export] Instance xor_seals key : Seals (XorCipher_encryptor key).
Proof.
  seals_start. rewrite parts_mut_payload by done. cbn [mbind comp_bind].
  destruct (parts_put_any t tun h pl (xor_data key pl) Hok) as [pl' ->].
  rewrite parts_mut_header by done. cbn [unwrap mbind comp_bind]. rewrite parts_put_header by done.
  intros [= <-]. apply sealed_parts; [by apply parts_ok_encrypted|apply is_encrypted_set].
Qed.
#[export] Instance unsupported_seals c : Seals (UnsupportedCipher_encryptor c).
Proof. by intros rng n t tun h pl p' Hok Hs. Qed.
#[export] Instance create_seals f alg k1 k2 : Seals (create_encryptor f alg k1 k2).
Proof.
  destruct (create_encryptor_cases f alg k1 k2)
    as [(e & _ & c & -> & _)|(_ & [-> | [(c & ->) | [(c & ->) | [(c & ->) | (c & ->)]]]])]; apply _.
Qed.
End sealing.

Section secrecy.
Context {T : Target} {H : HmacLib} {L : CryptoLib} {HL : CryptoLaws L} (f : Features).
Context {O : HashOrder} {CE : ConnEnv} {N : NoiseLib} {Pb : RelayPb}.

(** A packet with headers. *)
Definition proper (p : ZCPacket) : Prop := bytes_ok (inner p) /\ has_header p.
Lemma proper_parts p : proper p -> exists t tun h pl, p = mk_packet t tun h pl /\ parts_ok t tun h.
Proof. intros [Hb Hh]. destruct (packet_parts p Hb Hh) as (tun & h & pl & Hp & Hok & _). by eexists _, _, _, _. Qed.

(** Sessions are sound, and at most 32 packets wait for each. *)
Record relay_ok (W : RelayWorld) : Prop := {
  ro_sessions : sessions_ok f (w_store W);
  ro_queues : forall id q, rp_pending_packets (w_relay W) !! id = Some q ->
    (length q <= MAX_PENDING_PACKETS_PER_PEER)%nat /\ Forall (fun x => proper x.1) q }.

(** *** One packet *)

(** [p'] is what the session [s] makes of [p], and nothing else leaves for it:
    marked as encrypted and, unless [p] already was or the algorithm is XOR,
    numbered with the session's next nonce and opened by the session's key. *)
Definition sealed_by (s s' : PeerSession) (env : RelayEnv) (me dst : Z) (p p' : ZCPacket) : Prop :=
  PeerSession_encrypt_payload f s me dst (re_rng env) p (re_now_ms env) = Ret (s', p', Ok tt) /\
  marked_encrypted p' /\
  (forall h, peer_manager_header p = Some h -> is_encrypted h = false -> tailed (datagram s) ->
   let dir := dir_for_sender me dst in
   exists pl, payload p' = Ret pl /\
     parse_tail pl = Some (make_nonce (send_epoch (datagram s')) (at_dir dir (send_seq (datagram s)))) /\
     e_decrypt (cipher_for f (datagram s) (send_epoch (datagram s')) dir true) p' = Ret (p, Ok tt)).

Lemma encrypt_sealed s env me dst p s' p' r : session_ok f (datagram s) -> proper p ->
  PeerSession_encrypt_payload f s me dst (re_rng env) p (re_now_ms env) = Ret (s', p', r) ->
  session_ok f (datagram s') /\ (r = Ok tt -> sealed_by s s' env me dst p p').
Proof using HL.
  intros Hs Hp Hall. pose proof Hall as Henc. revert Henc. unfold PeerSession_encrypt_payload.
  destruct (negb _); [by intros [= <- <- <-]|].
  destruct (encrypt_payload _ _ _ _ _ _) as [[[d p2] r2]|] eqn:Ee; [|done]. cbn [mbind comp_bind].
  intros [= <- <- <-]. split; [by eapply encrypt_payload_ok|]. intros ->. split; [done|]. split.
  - destruct (proper_parts p Hp) as (t & tun & h & pl & -> & Hok). revert Ee.
    unfold encrypt_payload. destruct (negb _); [done|].
    destruct (next_nonce _ _ _) as [st1 [[e sq] n]] eqn:En.
    destruct (next_nonce_ok f _ _ _ _ _ _ _ Hs En) as (Hok1 & _).
    destruct (get_or_create_ok f st1 e (dir_for_sender me dst) (session_generation st1) true)
      as (kc & -> & _); [apply Hok1|]. cbn [mbind comp_bind].
    destruct (e_encrypt_with_nonce _ _ _ _) as [[p3 [[]|e3]]|] eqn:E3; intros Hr; [|done|done].
    assert (p2 = p3) as -> by (cbn [mbind comp_bind] in Hr; by simplify_eq).
    refine (create_seals f _ _ _ (re_rng env) (Some n) t tun h pl p3 Hok _). exact E3.
  - intros h Hh He Ht. cbv zeta.
    destruct (encrypt_payload_shape f (datagram s) (dir_for_sender me dst) (re_rng env) p (re_now_ms env)
      d p2 h Hs Ht (proj1 Hp) Hh He Ee) as (e & q & pl & _ & _ & Hpl & Htail & Hd & -> & -> & _).
    by exists pl.
Qed.

Lemma put_relay_ok W a s : relay_ok W -> session_ok f (datagram s) ->
  relay_ok (set_store W (put_session (w_store W) a s)).
Proof.
  intros [Hs Hq] Hs'. split; [|done]. intros b x. cbn. destruct (decide (a = b)) as [->|Hne].
  - rewrite lookup_insert_eq. by intros [= <-].
  - rewrite lookup_insert_ne by done. apply Hs.
Qed.

Lemma seal_with_spec env a dst p W W' p' r : relay_ok W -> proper p ->
  seal_with f env a dst p W = Ret (W', (p', r)) ->
  exists s s', heap (w_store W) !! a = Some s /\
    PeerSession_encrypt_payload f s (rp_my_peer_id (w_relay W)) dst (re_rng env) p (re_now_ms env) = Ret (s', p', r) /\
    W' = set_store W (put_session (w_store W) a s') /\ relay_ok W' /\
    (r = Ok tt -> sealed_by s s' env (rp_my_peer_id (w_relay W)) dst p p').
Proof using HL.
  intros Hok Hp. unfold seal_with, deref. destruct (heap (w_store W) !! a) as [s|] eqn:Ea; [|done].
  cbn [unwrap mbind comp_bind].
  destruct (PeerSession_encrypt_payload _ _ _ _ _ _ _) as [[[s' p2] r2]|] eqn:Ee; [|done].
  cbn [mbind comp_bind]. intros [= <- <- <-].
  destruct (encrypt_sealed _ _ _ _ _ _ _ _ (ro_sessions _ Hok a s Ea) Hp Ee) as [Hs' Hsl].
  exists s, s'. split_and!; try done. by apply put_relay_ok.
Qed.

(** The next hop gets the packet, or nobody does. *)
Lemma via_next_hop_spec p dst pol W W' r : relay_ok W -> send_via_next_hop p dst pol W = Ret (W', r) ->
  relay_ok W' /\ w_relay W' = w_relay W /\ w_store W' = w_store W /\
  exists l, w_out W' = w_out W ++ l /\ one p l.
Proof.
  intros [Hs Hq]. unfold send_via_next_hop.
  assert (Hnone : forall r', Ret (W, r') = Ret (W', r) ->
    relay_ok W' /\ w_relay W' = w_relay W /\ w_store W' = w_store W /\
    exists l, w_out W' = w_out W ++ l /\ one p l).
  { intros r' [= <- _]. split_and!; [done|done|done|]. exists []. rewrite app_nil_r. by split; [|left]. }
  destruct (get_gateway_peer_id _ _ _) as [next|]; [|by apply Hnone]. case_match.
  - destruct (PeerMap_send_msg_directly _ _ _) as [M [l r']] eqn:E. intros [= <- _].
    split_and!; [by split|done|done|]. exists l. split; [done|]. by apply (map_sends_one _ _ _ _ _ _ E).
  - destruct (w_foreign W) as [F|] eqn:EF; [|by apply Hnone].
    destruct (foreign_send_msg _ _ _) as [F' [l r']] eqn:E. intros [= <- _].
    split_and!; [by split|done|done|]. exists l. split; [done|]. by apply (foreign_sends_one _ _ _ _ _ _ E).
Qed.

(** *** Packets that waited *)

(** The packets [l] sealed one after the other; the ones that the session
    refuses are left out. *)
Inductive seals_all (env : RelayEnv) (me dst : Z)
    : PeerSession -> list (ZCPacket * NextHopPolicy) -> list ZCPacket -> PeerSession -> Prop :=
  | all_sealed s : seals_all env me dst s [] [] s
  | seal_next s s1 s2 p p' pol l ps :
      sealed_by s s1 env me dst p p' -> seals_all env me dst s1 l ps s2 ->
      seals_all env me dst s ((p, pol) :: l) (p' :: ps) s2
  | seal_refused s s1 s2 p p' e pol l ps :
      PeerSession_encrypt_payload f s me dst (re_rng env) p (re_now_ms env) = Ret (s1, p', Err e) ->
      seals_all env me dst s1 l ps s2 ->
      seals_all env me dst s ((p, pol) :: l) ps s2.

Lemma flush_spec env dst a l : forall W W' s, relay_ok W -> Forall (fun x => proper x.1) l ->
  heap (w_store W) !! a = Some s -> flush_packets f env dst a l W = Ret (W', tt) ->
  exists ps out s', seals_all env (rp_my_peer_id (w_relay W)) dst s l ps s' /\
    w_out W' = w_out W ++ out /\ (sent_packet <$> out) `sublist_of` ps /\
    heap (w_store W') !! a = Some s' /\ w_relay W' = w_relay W /\ relay_ok W'.
Proof using HL.
  induction l as [|[p pol] l IH]; intros W W' s Hok Hl Ha; cbn [flush_packets].
  { intros [= <-]. exists [], [], s. rewrite app_nil_r. by split_and!; [constructor|..]. }
  inversion_clear Hl as [|? ? Hp Hl']. run_act.
  destruct (seal_with f env a dst p W) as [[W1 [p1 r1]]|] eqn:E1; [|done].
  destruct (seal_with_spec _ _ _ _ _ _ _ _ Hok Hp E1) as (x & s1 & Hx & Ee & EW & Hok1 & Hseal).
  rewrite Ha in Hx. injection Hx as <-.
  assert (Ha1 : heap (w_store W1) !! a = Some s1) by (rewrite EW; apply lookup_insert_eq).
  assert (Er1 : w_relay W1 = w_relay W) by (by rewrite EW).
  assert (Eo1 : w_out W1 = w_out W) by (by rewrite EW).
  destruct r1 as [[]|e].
  - destruct (send_via_next_hop p1 dst pol W1) as [[W2 r2]|] eqn:E2; [|done].
    destruct (via_next_hop_spec _ _ _ _ _ _ Hok1 E2) as (Hok2 & Er2 & Es2 & o & Eo2 & Hone).
    intros E. destruct (IH _ _ s1 Hok2 Hl' ltac:(by rewrite Es2) E) as (ps & out & s2 & Hs & Eo & Hsub & Ha2 & Er & Hok').
    rewrite Er2, Er1 in Hs, Er. exists (p1 :: ps), (o ++ out), s2.
    split_and!; [by eapply seal_next; [apply Hseal|]|by rewrite Eo, Eo2, Eo1, app_assoc| |done..].
    destruct Hone as [->|(y & -> & <-)]; cbn; by constructor.
  - intros E. destruct (IH _ _ s1 Hok1 Hl' Ha1 E) as (ps & out & s2 & Hs & Eo & Hsub & Ha2 & Er & Hok').
    rewrite Er1 in Hs, Er. exists ps, out, s2. rewrite Eo1 in Eo.
    split_and!; [by eapply seal_refused|done..].
Qed.

Lemma unqueue_ok W dst : relay_ok W -> relay_ok (set_relay W (drop_pending_packets (w_relay W) dst)).
Proof.
  intros [Hs Hq]. split; [done|]. intros id q. cbn. rewrite lookup_delete_Some. intros [_ E]. by apply (Hq id).
Qed.

(** What [flush_pending_packets] sends. *)
Definition flushes (env : RelayEnv) (dst : Z) (a : nat) (W W' : RelayWorld) : Prop :=
  rp_pending_packets (w_relay W') = delete dst (rp_pending_packets (w_relay W)) /\
  match rp_pending_packets (w_relay W) !! dst with
  | None => w_out W' = w_out W
  | Some l => exists s s' ps out,
      heap (w_store W) !! a = Some s /\ heap (w_store W') !! a = Some s' /\
      seals_all env (rp_my_peer_id (w_relay W)) dst s l ps s' /\
      w_out W' = w_out W ++ out /\ (sent_packet <$> out) `sublist_of` ps
  end.

Lemma flush_pending_spec env dst a s W W' : relay_ok W -> heap (w_store W) !! a = Some s ->
  flush_pending_packets f env dst a W = Ret (W', tt) -> relay_ok W' /\ flushes env dst a W W'.
Proof using HL.
  intros Hok Ha. unfold flush_pending_packets, flushes, on_relay. run_act.
  pose proof (unqueue_ok W dst Hok) as Hok1. set (W1 := set_relay W _) in *.
  destruct (rp_pending_packets (w_relay W) !! dst) as [l|] eqn:El; [|by intros [= <-]].
  intros E. destruct (flush_spec env dst a l W1 W' s Hok1) as (ps & out & s' & Hs & Eo & Hsub & Ha' & Er & Hok');
    [by apply (ro_queues _ Hok dst)|done|done|].
  split; [done|]. rewrite Er. split; [done|]. by exists s, s', ps, out.
Qed.

(** *** Packets that are sent *)

Lemma buffer_ok W dst p pol : relay_ok W -> proper p ->
  relay_ok (set_relay W (buffer_pending_packet (w_relay W) dst p pol)).
Proof.
  intros [Hs Hq] Hp. split; [done|]. intros id q. unfold buffer_pending_packet.
  cbn [w_relay set_relay with_pending_packets rp_pending_packets]. destruct (decide (dst = id)) as [->|Hne].
  - rewrite lookup_insert_eq. set (old := default [] (rp_pending_packets (w_relay W) !! id)). intros [= <-].
    assert (Hold : (length old <= MAX_PENDING_PACKETS_PER_PEER)%nat /\ Forall (fun x => proper x.1) old).
    { unfold old. destruct (_ !! id) as [q|] eqn:E; [by apply (Hq id)|]. split; [cbn; lia|constructor]. }
    destruct (Nat.ltb_spec (length old) MAX_PENDING_PACKETS_PER_PEER) as [Hlt|]; [|done].
    rewrite length_app. cbn [length]. split; [lia|]. apply Forall_app. split; [apply Hold|].
    constructor; [exact Hp|constructor].
  - rewrite lookup_insert_ne by done. apply Hq.
Qed.

(** What [send_msg] does with a packet in secure mode: with a session it seals
    the packet and hands it to the next hop, or reports that it cannot; without
    one the packet is kept, unless 32 wait already, and nothing is sent. *)
Definition secure_send (env : RelayEnv) (p : ZCPacket) (dst : Z) (pol : NextHopPolicy) (W W' : RelayWorld)
    (r : result PeerError unit) : Prop :=
  exists st o, store_get (w_store W) (rp_network_name (w_relay W), dst) (re_now env) = Ret (st, o) /\
  match o with
  | Some a => rp_pending_packets (w_relay W') = rp_pending_packets (w_relay W) /\
      exists s s' p' r', heap st !! a = Some s /\ heap (w_store W') !! a = Some s' /\
      PeerSession_encrypt_payload f s (rp_my_peer_id (w_relay W)) dst (re_rng env) p (re_now_ms env)
        = Ret (s', p', r') /\
      match r' with
      | Ok _ => sealed_by s s' env (rp_my_peer_id (w_relay W)) dst p p' /\
          exists l, w_out W' = w_out W ++ l /\ one p' l
      | Err _ => w_out W' = w_out W /\ r = Err RouteError
      end
  | None => w_out W' = w_out W /\ r = Ok tt /\
      let q := default [] (rp_pending_packets (w_relay W) !! dst) in
      rp_pending_packets (w_relay W') !! dst =
        Some (if (length q <? MAX_PENDING_PACKETS_PER_PEER)%nat then q ++ [(p, pol)] else q) /\
      forall id, id <> dst -> rp_pending_packets (w_relay W') !! id = rp_pending_packets (w_relay W) !! id
  end.

Lemma ensure_session_spec env dst W W' e : ensure_session env dst W = Ret (W', e) ->
  exists st o, store_get (w_store W) (rp_network_name (w_relay W), dst) (re_now env) = Ret (st, o) /\
    w_store W' = st /\ rp_my_peer_id (w_relay W') = rp_my_peer_id (w_relay W) /\
    match o with Some a => e = HaveSession a | None => (exists g, e = Spawn g) \/ e = InProgress end.
Proof.
  unfold ensure_session, session_key, on_store. run_act.
  destruct (store_get _ _ _) as [[st [a|]]|]; [by intros [= <- <-]; exists st, (Some a)| |done].
  cbn [mbind comp_bind]. destruct (get_handshake_lock _ dst) as [R l] eqn:Eg.
  destruct (try_lock R l) as [R2 got] eqn:Et. intros [= <- <-]. exists st, None. split_and!; [done|done| |].
  - cbn. assert (rp_my_peer_id R2 = rp_my_peer_id R) as ->.
    { revert Et. unfold try_lock. by case_match; intros [= <- _]. }
    revert Eg. unfold get_handshake_lock. by case_match; intros [= <- _].
  - destruct got; [left; by eexists|by right].
Qed.

Lemma relay_send_spec env p dst pol W W' sp r : relay_ok W -> rp_is_secure_mode_enabled (w_relay W) = true ->
  proper p -> relay_send_msg f env p dst pol W = Ret (W', (sp, r)) ->
  relay_ok W' /\ secure_send env p dst pol W W' r.
Proof using HL.
  intros Hok Hsec Hp. unfold relay_send_msg, on_relay. run_act. set (W1 := set_relay W _).
  assert (Hok1 : relay_ok W1) by (destruct Hok; by split).
  replace (rp_is_secure_mode_enabled (w_relay W1)) with true by (symmetry; exact Hsec). cbn [negb].
  destruct (ensure_session env dst W1) as [[W2 e]|] eqn:Ee; [|done].
  destruct (ensure_session_same _ _ _ _ _ Ee) as (Hh & Ho & Hq).
  destruct (ensure_session_spec _ _ _ _ _ Ee) as (st & o & Eg & <- & Eme & Hcase).
  assert (Hok2 : relay_ok W2).
  { destruct Hok1 as [Hs1 Hq1]. split; [unfold sessions_ok; by rewrite Hh|]. rewrite Hq. exact Hq1. }
  unfold secure_send. destruct o as [a|].
  - subst e. destruct (seal_with f env a dst p W2) as [[W3 [p3 r3]]|] eqn:E3; [|done].
    destruct (seal_with_spec _ _ _ _ _ _ _ _ Hok2 Hp E3) as (s & s' & Hs & Hen & EW & Hok3 & Hseal).
    rewrite Eme in Hen, Hseal. assert (Eq3 : rp_pending_packets (w_relay W3) = rp_pending_packets (w_relay W))
      by (rewrite EW; exact Hq).
    assert (Ha3 : heap (w_store W3) !! a = Some s') by (rewrite EW; apply lookup_insert_eq).
    assert (Eo3 : w_out W3 = w_out W) by (rewrite EW; exact Ho).
    destruct r3 as [[]|e].
    + destruct (send_via_next_hop p3 dst pol W3) as [[W4 r4]|] eqn:E4; [|done].
      destruct (via_next_hop_spec _ _ _ _ _ _ Hok3 E4) as (Hok4 & Er4 & Es4 & l & Eo4 & Hone).
      intros [= <- _ <-]. split; [done|]. exists (w_store W2), (Some a). split; [exact Eg|].
      rewrite Er4. split; [exact Eq3|]. exists s, s', p3, (Ok tt). rewrite Es4.
      split_and!; [exact Hs|exact Ha3|exact Hen|by apply Hseal|]. exists l. by rewrite Eo4, Eo3.
    + intros [= <- _ <-]. split; [done|]. exists (w_store W2), (Some a). split; [exact Eg|].
      split; [exact Eq3|]. by exists s, s', p3, (Err e).
  - assert (Hbuf : relay_ok (set_relay W2 (buffer_pending_packet (w_relay W2) dst p pol))) by (by apply buffer_ok).
    assert (Hres : secure_send env p dst pol W (set_relay W2 (buffer_pending_packet (w_relay W2) dst p pol)) (Ok tt)).
    { exists (w_store W2), None. split; [exact Eg|]. split; [exact Ho|]. split; [done|].
      unfold buffer_pending_packet. cbn [w_relay set_relay rp_pending_packets with_pending_packets].
      change (rp_pending_packets (w_relay W)) with (rp_pending_packets (w_relay W1)). rewrite Hq.
      split; [by rewrite lookup_insert_eq|]. intros id Hne. by rewrite lookup_insert_ne. }
    by destruct Hcase as [[g ->]| ->]; intros [= <- _ <-].
Qed.
End secrecy.

(** ** Properties *)

(** C10. A session through relays: two nodes that know each other's static key
    and can send to each other, but have no session, get one by one exchange,
    when both messages arrive with their ends and payload as they were sent
    (relays in secure mode seal them, see [relayed_handshake_refused]) and their
    texts fit the Noise buffers.  The initiator's message leaves; when it has
    reached the responder, the responder answers and has a session, and goes on
    to send what waits for the initiator; when the answer has reached the
    initiator, whose state may have changed but for this peer, it is handed
    to the attempt that waits, and the initiator has a session too.  The two
    sessions are valid, have the key that the responder drew, the same
    generation and epoch, the algorithms paired in both directions, and no
    nonce used.  If both started at once, this is how the node with the smaller
    id fares. *)
Theorem relay_handshake_establishes {T : Target} {H : HmacLib} {L : CryptoLib} {O : HashOrder} {CE : ConnEnv}
    {N : NoiseLib} {NL : NoiseLaws N} {Pb : RelayPb} {PL : RelayPbLaws Pb} (f : Features)
    (envA envB : RelayEnv) (A B : Z) (WA WB : RelayWorld) (privA privB : list Z) (pol : NextHopPolicy) :
  reaches WA A B -> reaches WB B A -> no_session WA B -> no_session WB A -> store_wf (w_store WB) ->
  re_private_key envA = Some privA -> re_private_key envB = Some privB ->
  knows_key WA B (noise_public privB) -> knows_key WB A (noise_public privA) ->
  length privA = 32%nat -> length privB = 32%nat -> noise_fits (encode_msg1 (first_message envA)) ->
  noise_fits (encode_msg2 (second_message envB (Some (re_uuid envA)) (re_fresh_key envB))) ->
  length (re_fresh_key envB) = 32%nat ->
  rp_pending_handshakes (w_relay WB) !! A = None \/ A < B ->
  exists WA1 w s1, attempt_send envA B pol WA = Ret (WA1, Ok w) /\ w_out WA1 = w_out WA ++ [s1] /\
    rp_pending_handshakes (w_relay WA1) !! B = Some (wt_conn_id w) /\
  forall p1, arrives (sent_packet s1) p1 ->
  exists WB1 s2 b ib,
    handle_handshake_packet f envB p1 WB =
      (flush_pending_packets f envB A b ;; mret (None, Ok tt)) WB1 /\
    rp_pending_packets (w_relay WB1) = rp_pending_packets (w_relay WB) /\
    (rp_pending_packets (w_relay WB) !! A = None -> exists WB2,
       handle_handshake_packet f envB p1 WB = Ret (WB2, (None, Ok tt)) /\
       w_out WB2 = w_out WB1 /\ w_store WB2 = w_store WB1) /\
    w_out WB1 = w_out WB ++ [s2] /\ heap (w_store WB1) !! b = Some ib /\
    (exists e, sessions (w_store WB1) !! (rp_network_name (w_relay WB), A) = Some e /\ e_session e = b) /\
  forall p2 envA2 WA2, arrives (sent_packet s2) p2 ->
    re_encryption_algorithm envA2 = re_encryption_algorithm envA -> store_wf (w_store WA2) -> no_session WA2 B ->
    rp_pending_handshakes (w_relay WA2) !! B = Some (wt_conn_id w) ->
  exists WA3 WA4 a ia,
    handle_handshake_packet f envA2 p2 WA2 = Ret (WA3, (Some (wt_conn_id w, p2), Ok tt)) /\
    attempt_receive envA2 B w (Some p2) WA3 = Ret (WA4, Ok a) /\ heap (w_store WA4) !! a = Some ia /\
    (exists e, sessions (w_store WA4) !! (rp_network_name (w_relay WA2), B) = Some e /\ e_session e = a) /\
    paired ia ib (re_fresh_key envB).
Proof.
  intros RA RB NA NB Wf PA PB KA KB LA LB F1 F2 Hfresh Hrace.
  assert (HuA : u32 A) by apply RA. assert (HuB : u32 B) by apply RB.
  destruct (noise_completes privA privB _ LA LB F1) as (i & out & r & Hi & Hresp & Hanswer).
  destruct (Hanswer _ F2) as (out2 & Hout2 & Hcomplete).
  destruct (attempt_send_spec envA A B pol WA privA _ i out RA HuB NA PA KA Hi)
    as (WA1 & s1 & Esend & Hout & Hp1 & Hpend).
  eexists WA1, _, s1. split_and!; [exact Esend|exact Hout|exact Hpend|]. intros p1 Hv1.
  destruct (respond_spec f envB WB B A privB (noise_public privA) r (first_message envA) out2 p1 out RB HuA NB Wf PB
    KB Hrace (handshake_arrives _ _ _ _ _ _ Hp1 Hv1) Hresp Hout2)
    as (WB1 & s2 & ib & Eresp & Hq & Hout' & Hp2 & Hib & -> & Hent).
  eexists WB1, s2, _, _. split_and!; [exact Eresp|exact Hq| |exact Hout'|exact Hib|exact Hent|].
  { intros Hnone. rewrite Eresp. apply flush_nothing. by rewrite Hq. }
  intros p2 envA2 WA2 Hv2 Halg Wf2 NA2 Hpend2.
  destruct (receive_completes f envA2 envB WA2 A B {| wt_init := i; wt_conn_id := re_uuid envA;
      wt_remote_static := noise_public privB |} out2 p2 (re_fresh_key envB) NA2 Wf2
      (handshake_arrives _ _ _ _ _ _ Hp2 Hv2) Hpend2 Hfresh Hcomplete)
    as (WA3 & WA4 & a & ia & E3 & E4 & Hia & Henta & Hval & Hgen & Hkey & Hep & Hseq & Hsa & Hra).
  exists WA3, WA4, a, ia. split_and!; [done|done|done|done|].
  split; [done|done|done| |done|done]. rewrite Hsa, Halg. done.
Qed.

(** C16. In secure mode nothing is relayed in the clear.  [send_msg] with a
    session for the destination sends nothing but what that session's
    [encrypt_payload] made of the packet, and reports an error when it fails;
    without a session it sends nothing and the packet joins those that wait,
    unless 32 do.  When a session sets the waiting packets free, what is sent
    are the results of sealing them one after the other with it, in order, and
    no packet waits any more.  A sealed packet is marked as encrypted; unless it
    was marked already (the ciphers leave such a packet alone) or the algorithm
    is XOR, it carries the session's next nonce and opens with the session's key
    to the packet that was given. *)
Theorem secure_relay_sealed {T : Target} {H : HmacLib} {L : CryptoLib} {HL : CryptoLaws L} {O : HashOrder}
    {CE : ConnEnv} {N : NoiseLib} {Pb : RelayPb} (f : Features) (env : RelayEnv) (W : RelayWorld) (dst : Z) :
  relay_ok f W ->
  (forall p pol W' sp r, rp_is_secure_mode_enabled (w_relay W) = true -> proper p ->
     relay_send_msg f env p dst pol W = Ret (W', (sp, r)) ->
     relay_ok f W' /\ secure_send f env p dst pol W W' r) /\
  (forall a s W', heap (w_store W) !! a = Some s ->
     flush_pending_packets f env dst a W = Ret (W', tt) -> relay_ok f W' /\ flushes f env dst a W W').
Proof.
  intros Hok. split.
  - intros p pol W' sp r Hsec Hp. by apply relay_send_spec.
  - intros a s W'. by apply flush_pending_spec.
Qed.

(** Nodes 1 and 3 of the line, in secure mode, with toy libraries: a noise
    message holds the sender's key, a protobuf message is one number. *)
Module LineRelay.
#[local] Existing Instances Line.order Line.conn_env Line.hmac Line.word toy_lib.
#[local] Instance noise : NoiseLib :=
  {| NoiseInitiator := unit; NoiseResponder := unit; noise_public k := k;
     noise_initiate pa _ pl := Some (tt, Z.of_nat (length pa) :: pa ++ pl);
     noise_respond _ m := match m with
                          | n :: r => Some (tt, take (Z.to_nat n) r, drop (Z.to_nat n) r)
                          | [] => None
                          end;
     noise_reply _ pl := Some pl; noise_complete _ m := Some m |}.
#[local] Instance noise_laws : NoiseLaws noise.
Proof.
  split. intros pa pb pl _ _ _. eexists tt, _, tt. split; [done|]. cbn [noise_respond noise].
  rewrite Nat2Z.id, take_app_length, drop_app_length. split; [done|]. intros pl2 _. by eexists.
Qed.

Definition number {A} `{Countable A} (a : A) : list Z := [Zpos (encode a)].
Definition from_number {A} `{Countable A} (l : list Z) : option A :=
  match l with [Zpos p] => decode p | _ => None end.
Lemma from_number_number {A} `{Countable A} (a : A) : from_number (number a) = Some a.
Proof. apply decode_encode. Qed.

#[local] Instance pb : RelayPb :=
  {| encode_msg1 m := number (m1_version m, m1_a_session_generation m, m1_a_conn_id m,
       m1_client_encryption_algorithm m);
     decode_msg1 l := (fun '(a, b, c, d) => {| m1_version := a; m1_a_session_generation := b;
       m1_a_conn_id := c; m1_client_encryption_algorithm := d |}) <$> from_number l;
     encode_msg2 m := number (m2_action m, m2_b_session_generation m, m2_root_key_32 m, m2_initial_epoch m,
       m2_b_conn_id m, m2_a_conn_id_echo m, m2_server_encryption_algorithm m);
     decode_msg2 l := (fun '(a, b, c, d, e, g, h) => {| m2_action := a; m2_b_session_generation := b;
       m2_root_key_32 := c; m2_initial_epoch := d; m2_b_conn_id := e; m2_a_conn_id_echo := g;
       m2_server_encryption_algorithm := h |}) <$> from_number l |}.
#[local] Instance pb_laws : RelayPbLaws pb.
Proof. split; intros []; cbn [pb encode_msg1 decode_msg1 encode_msg2 decode_msg2]; by rewrite from_number_number. Qed.

Definition info (id : Z) : RoutePeerInfo := Concrete.info id 1 (repeat id 32) [].
Definition route (u : Z) : Route :=
  {| r_get_next_hop_with_policy := fun _ _ => Some 2; r_list_routes := [];
     r_get_peer_id_by_ipv4 := fun _ => None; r_get_peer_id_by_ipv6 := fun _ => None;
     r_get_peer_info := fun id => Some (info id); r_get_origin_my_peer_id := fun _ _ => None;
     r_get_public_ipv6_gateway_peer_id := None; r_get_peer_groups := fun _ => [] |}.
Definition world (u : Z) : RelayWorld :=
  {| w_relay := RelayPeerMap_new u "net" true; w_store := store_new;
     w_peers := with_peers (add_route (PeerMap_new u) (route u)) {[ 2 := Line.peer 2 ]};
     w_foreign := None; w_out := [] |}.
Definition env (u : Z) : RelayEnv :=
  {| re_now := 0; re_now_ms := 0; re_uninit := fun _ => 0; re_rng := repeat 9 12;
     re_fresh_key := repeat 5 32; re_uuid := 70 + u; re_private_key := Some (repeat u 32);
     re_encryption_algorithm := "aes-gcm" |}.

Lemma world_reaches u v : u = 1 \/ u = 3 -> v = 1 \/ v = 3 -> u <> v -> reaches (world u) u v.
Proof.
  intros Hu Hv Huv. split.
  - split_and!; [done|done|]. destruct Hu as [-> | ->]; done.
  - intros pol. exists 2. split_and!; [|by destruct Hu; subst|].
    + destruct Hu as [-> | ->], Hv as [-> | ->], pol; done.
    + by apply Line.peer_usable.
Qed.
Lemma world_knows u v : v = 1 \/ v = 3 -> knows_key (world u) v (repeat v 32).
Proof. intros Hv. split; [done|]. by exists (info v). Qed.

(** The initiator while it waits. *)
Definition waiting : RelayWorld :=
  set_relay (world 1) (with_pending_handshakes (w_relay (world 1)) {[ 3 := 71 ]}).

Lemma relay_handshake_establishes_witness : exists WA1 w s1 WB1 s2 WA3 WA4 a ia ib,
  attempt_send (env 1) 3 LeastHop (world 1) = Ret (WA1, Ok w) /\
  handle_handshake_packet full_features (env 3) (sent_packet s1) (world 3) = Ret (WB1, (None, Ok tt)) /\
  handle_handshake_packet full_features (env 1) (sent_packet s2) waiting =
    Ret (WA3, (Some (71, sent_packet s2), Ok tt)) /\
  attempt_receive (env 1) 3 w (Some (sent_packet s2)) WA3 = Ret (WA4, Ok a) /\ paired ia ib (repeat 5 32).
Proof.
  destruct (@relay_handshake_establishes Line.word Line.hmac toy_lib Line.order Line.conn_env noise noise_laws pb
    pb_laws full_features (env 1) (env 3) 1 3 (world 1) (world 3) (repeat 1 32) (repeat 3 32) LeastHop
    (world_reaches 1 3 ltac:(auto) ltac:(auto) ltac:(done)) (world_reaches 3 1 ltac:(auto) ltac:(auto) ltac:(done))
    ltac:(reflexivity) ltac:(reflexivity) store_new_wf ltac:(reflexivity) ltac:(reflexivity)
    (world_knows 1 3 ltac:(auto)) (world_knows 3 1 ltac:(auto)) ltac:(reflexivity) ltac:(reflexivity)
    ltac:(done) ltac:(done) ltac:(reflexivity) ltac:(by left)) as (WA1 & w & s1 & E1 & _ & _ & Hb).
  assert (Hw : wt_conn_id w = 71).
  { assert (E : match attempt_send (env 1) 3 LeastHop (world 1) with
                | Ret (_, Ok w) => wt_conn_id w
                | _ => 0
                end = 71) by (vm_compute; reflexivity). rewrite E1 in E. exact E. }
  destruct (Hb (sent_packet s1)) as (WB0 & s2 & b & ib & _ & _ & E2 & _ & _ & _ & Hc); [split; [done|by eauto]|].
  destruct (E2 ltac:(reflexivity)) as (WB1 & E2' & _).
  destruct (Hc (sent_packet s2) (env 1) waiting) as (WA3 & WA4 & a & ia & E3 & E4 & _ & _ & Hp);
    [split; [done|by eauto]|done|exact store_new_wf|reflexivity|by rewrite Hw|].
  exists WA1, w, s1, WB1, s2, WA3, WA4, a, ia, ib. rewrite Hw in E3. done.
Defined.

(** Without a session the packet waits. *)
Lemma world_ok : relay_ok full_features (world 1).
Proof. split; [by intros a s|]. intros id q. cbn. by rewrite lookup_empty. Qed.
Definition packet : ZCPacket := LineSafety.packet 1.
Definition buffered : RelayWorld :=
  match relay_send_msg full_features (env 1) packet 3 LeastHop (world 1) with
  | Ret (W, _) => W
  | Panic => world 1
  end.
(** The packet waits; a session then sets it free. *)
Definition opened : RelayWorld :=
  match upsert_responder_session (w_store buffered) ("net"%string, 3) None "aes-gcm" "aes-gcm" None
          (repeat 8 32) 0 0 with
  | Ret (st, _) => set_store buffered st
  | Panic => buffered
  end.
Definition freed : RelayWorld :=
  match flush_pending_packets full_features (env 1) 3 0%nat opened with
  | Ret (W, _) => W
  | Panic => opened
  end.

Lemma queued_world_ok : relay_ok full_features opened.
Proof.
  assert (E : rp_pending_packets (w_relay opened) = {[ 3 := [(packet, LeastHop)] ]}) by (vm_compute; reflexivity).
  split.
  - intros a s Ha. assert (Eh : exists s0, heap (w_store opened) = {[ 0%nat := s0 ]} /\
      datagram s0 = session_new (repeat 8 32) 1 0 "aes-gcm" "aes-gcm" 0) by (eexists; vm_compute; split; reflexivity).
    destruct Eh as (s0 & Eh & Ed). rewrite Eh in Ha. apply lookup_singleton_Some in Ha as [_ <-]. rewrite Ed.
    by apply session_new_ok.
  - intros id q Hq. rewrite E in Hq. apply lookup_singleton_Some in Hq as [_ <-]. split; [unfold MAX_PENDING_PACKETS_PER_PEER; cbn; lia|].
    constructor; [|constructor]. split; vm_compute; [repeat constructor; discriminate|discriminate].
Qed.

Lemma secure_relay_sealed_witness :
  rp_pending_packets (w_relay buffered) !! 3 = Some [(packet, LeastHop)] /\
  secure_send full_features (env 1) packet 3 LeastHop (world 1) buffered (Ok tt) /\
  length (w_out freed) = 1%nat /\ flushes full_features (env 1) 3 0%nat opened freed.
Proof.
  assert (Hp : proper packet) by (split; vm_compute; [repeat constructor; discriminate|discriminate]).
  assert (E1 : exists sp, relay_send_msg full_features (env 1) packet 3 LeastHop (world 1) =
    Ret (buffered, (sp, Ok tt))) by (eexists; vm_compute; reflexivity).
  assert (E2 : exists s, heap (w_store opened) !! 0%nat = Some s) by (eexists; vm_compute; reflexivity).
  assert (E3 : flush_pending_packets full_features (env 1) 3 0%nat opened = Ret (freed, tt)).
  { unfold freed. assert (E : match flush_pending_packets full_features (env 1) 3 0%nat opened with
      | Ret _ => true | Panic => false end = true) by (vm_compute; reflexivity).
    by destruct (flush_pending_packets _ _ _ _ _) as [[W []]|]. }
  destruct E1 as [sp E1], E2 as [s E2].
  destruct (proj1 (@secure_relay_sealed Line.word Line.hmac toy_lib _ Line.order Line.conn_env noise pb full_features
    (env 1) (world 1) 3 world_ok) packet LeastHop buffered sp (Ok tt) ltac:(reflexivity) Hp E1) as [Hok Hsend].
  split; [vm_compute; reflexivity|]. split; [exact Hsend|]. split; [vm_compute; reflexivity|].
  refine (proj2 (proj2 (@secure_relay_sealed Line.word Line.hmac toy_lib _ Line.order Line.conn_env noise pb
    full_features (env 1) opened 3 queued_world_ok) 0%nat s freed E2 E3)).
Defined.

(** *** A handshake through two relays *)

(** Node 1 as the first relay from 4 to 3: it is in secure mode, has a session
    with 3 and reaches 3 through 2. *)
#[local] Existing Instances Line.cidrs Line.addrs zeros_zstd.
Definition relay_store : PeerSessionStore :=
  match upsert_responder_session store_new ("net"%string, 3) None "aes-gcm" "aes-gcm" None (repeat 8 32) 0 0 with
  | Ret (st, _) => st
  | Panic => store_new
  end.
Definition relay_node : @Core unit Line.cidrs :=
  set_world (Line.core 1 []) {| w_relay := RelayPeerMap_new 1 "net" true; w_store := relay_store;
    w_peers := w_peers (world 1); w_foreign := Some (PeerMap_new 1); w_out := [] |}.
Definition secure_cfg : @CoreConfig unit Line.cidrs :=
  let g := Line.cfg 1 in
  {| g_my_peer_id := 1; g_flags := g_flags g; g_local_exit_node_fallback := false; g_ipv4 := g_ipv4 g;
     g_ipv6 := None; g_public_lease_contains := g_public_lease_contains g; g_exit_nodes := [];
     g_route := route 1; g_encryptor := g_encryptor g; g_compress_algo := CompressNone;
     g_secure_mode_enabled := true; g_is_credential_node := false; g_peer_pipeline := g_peer_pipeline g;
     g_nic_pipeline := [] |}.

(** The first message of 4, and what the relay makes of it. *)
Definition request : option ZCPacket :=
  match attempt_send (env 4) 3 LeastHop (world 4) with
  | Ret (W, Ok _) => sent_packet <$> head (w_out W)
  | _ => None
  end.
Definition relayed_request : option ZCPacket :=
  p ← request;
  match router_step full_features secure_cfg
          {| ev_relay := env 1; ev_acl_now := 0; ev_acl_secs := 0; ev_rng := repeat 9 12 |} p Local relay_node with
  | Ret (c, _) => sent_packet <$> head (c_sent c)
  | Panic => None
  end.
(** What node 3 makes of a request. *)
Definition answered (p : option ZCPacket) : option bool :=
  p ← p;
  match handle_handshake_packet full_features (env 3) p (world 3) with
  | Ret (_, (_, Ok _)) => Some true
  | Ret (_, (_, Err _)) => Some false
  | Panic => None
  end.

(** The relay seals the handshake of others with its own session: the packet
    that leaves is marked as encrypted, and the destination, which would have
    answered the request as it was sent, refuses it. *)
Example relayed_handshake_refused :
  (is_encrypted <$> (relayed_request ≫= peer_manager_header)) = Some true /\
  answered request = Some true /\ answered relayed_request = Some false.
Proof. vm_compute. split_and!; reflexivity. Qed.
End LineRelay.
