(* ===== verification/RouteDelivery.v ===== *)
(** Routes meet the data path: [impl Route for PeerRoute] of
    [peers/route/peer_ospf_route.rs], which answers the data path from the route
    tables, and that nodes whose tables were built from the same knowledge
    send packets towards their destination: no loops, no more hops than the
    table of the first node says, within the limit of the relays. *)
From stdpp Require Import list gmap strings relations.
From S2P Require Import Prelude RouteGraph RouteMessages RouteTable RouteTableProofs RouteWire SyncedRoute.
From S2P Require Import SyncSession RouteSync Headers Packet Encrypt Compressor ReplayWindow SecureDatagram.
From S2P Require Import PeerSession TokenBucket Acl AclFilter PeerConns PeerConnsProofs RelayPeerMap.
From S2P Require Import PacketRouter PacketPath PacketRouterProofs RouteSyncExamples.
Local Open Scope Z_scope.
Local Set Warnings "-clear-no-such-hyp".

(** ** The implementation of the trait *)

Section implementation.
Context {T : Target} {H : MinHeap} {G : PetGraph} {N : RouteNet} {O : HashOrder}.
Context {om : OrderedMap} {tl : TrustLib} {pw : ProstWire} {pr : ProstRoute}.

(** The fields of a route that the data path reads. *)
Definition table_list_routes (t : OspfRouteTable) (me : Z) : list CoreRoute :=
  omap (fun kv =>
    if kv.1 =? me then None else
    i ← get_next_hop t kv.1;
    Some {| cr_peer_id := peer_id kv.2; cr_next_hop_peer_id := next_hop_peer_id i;
            cr_ipv4_addr := ipv4_addr kv.2 |})
    (hash_iter (RouteTable.peer_infos t)).

Definition PeerRoute_get_next_hop_with_policy (sv : PeerRouteServiceImpl) (dst : Z) (policy : NextHopPolicy)
    : option Z :=
  let t := match policy with LeastCost => route_table_with_cost sv | LeastHop => route_table sv end in
  next_hop_peer_id <$> get_next_hop t dst.

(** An address that no peer has is looked up among the proxied networks, unless
    it belongs to this network. *)
Definition PeerRoute_get_peer_id_by_ipv4 (sv : PeerRouteServiceImpl) (same_network : Z + Z -> bool) (a : Z)
    : option Z :=
  match get_peer_id_by_ipv4 (route_table sv) a with
  | Some p => Some p
  | None => if same_network (inl a) then None else get_peer_id_for_proxy (route_table sv) (inl a)
  end.
Definition PeerRoute_get_peer_id_by_ipv6 (sv : PeerRouteServiceImpl) (same_network : Z + Z -> bool) (a : Z)
    : option Z :=
  match get_peer_id_by_ipv6 (route_table sv) a with
  | Some p => Some p
  | None => if same_network (inr a) then None else get_peer_id_for_proxy (route_table sv) (inr a)
  end.

Definition PeerRoute_get_origin_my_peer_id (sv : PeerRouteServiceImpl) (name : list Z) (id : Z) : option Z :=
  foreign_network_my_peer_id_map sv !! (name, id).
(** The names of a set of groups come in some order. *)
Definition PeerRoute_get_peer_groups (sv : PeerRouteServiceImpl) (id : Z) : list (list Z) :=
  elements (default ∅ (group_trust_map_cache (synced_route_info sv) !! id)).

(** The answers of the service, and of the IPv6 service next to it. *)
Definition PeerRoute_route (sv : PeerRouteServiceImpl) (same_network : Z + Z -> bool) (gateway : option Z)
    : Route :=
  {| r_get_next_hop_with_policy := PeerRoute_get_next_hop_with_policy sv;
     r_list_routes := table_list_routes (route_table sv) (sv_my_peer_id sv);
     r_get_peer_id_by_ipv4 := PeerRoute_get_peer_id_by_ipv4 sv same_network;
     r_get_peer_id_by_ipv6 := PeerRoute_get_peer_id_by_ipv6 sv same_network;
     r_get_peer_info := get_peer_info (route_table sv);
     r_get_origin_my_peer_id := PeerRoute_get_origin_my_peer_id sv;
     r_get_public_ipv6_gateway_peer_id := gateway;
     r_get_peer_groups := PeerRoute_get_peer_groups sv |}.
End implementation.

(** ** Walks *)

Section walks.
Context {A : Type}.

Lemma path_cost_app ws ws' : path_cost (ws ++ ws') = path_cost ws + path_cost ws'.
Proof. induction ws as [|w ws IH]; cbn; [done|]. fold (path_cost ws) (path_cost (ws ++ ws')). lia. Qed.

Lemma path_cost_len ws : Forall (fun n => 1 <= n) ws -> len ws <= path_cost ws.
Proof.
  induction 1 as [|n ws Hn _ IH]; [done|]. cbn. fold (path_cost ws). rewrite len_cons. lia.
Qed.

Lemma walk_app (E : A -> A -> Z -> Prop) s u v ws ws' :
  walk E s u ws -> walk E u v ws' -> walk E s v (ws' ++ ws).
Proof. intros Hw. induction 1; [done|]. cbn. by econstructor. Qed.

(** What a walk with a first edge does after it: it does not leave from its
    start again, or a part of it was already a walk from the start. *)
Lemma via_rest `{!EqDecision A} (E : A -> A -> Z -> Prop) s h v ws : walk_via E s h v ws ->
  (exists w0 ws', E s h w0 /\ ws = ws' ++ [w0] /\ walk (fun a b w => a <> s /\ E a b w) h v ws') \/
  (exists ws1 ws2, walk E s v ws1 /\ ws = ws1 ++ ws2 /\ ws2 <> []).
Proof.
  induction 1 as [w HE|u v w ws Hv IH HE].
  - left. exists w, []. split_and!; [done|done|constructor].
  - destruct (decide (u = s)) as [->|Hu].
    + right. exists [w], ws. split_and!; [by repeat econstructor|done|]. by destruct Hv.
    + destruct IH as [(w0 & ws' & H0 & -> & Hr)|(ws1 & ws2 & Hw & -> & Hne)].
      * left. exists w0, (w :: ws'). split_and!; [done|done|by econstructor].
      * right. exists (w :: ws1), ws2. split_and!; [by econstructor|done|done].
Qed.

Lemma walk_leaves `{!EqDecision A} (E : A -> A -> Z -> Prop) s v ws :
  walk E s v ws -> s <> v -> exists b w, E s b w.
Proof.
  induction 1 as [|u v w ws Hw IH HE]; [done|]. intros _. destruct (decide (s = u)) as [->|Hu].
  - by eexists _, _.
  - by apply IH.
Qed.
End walks.

(** ** Tables built from the same knowledge *)

(** Snapshots that differ in order, version and duplicates only. *)
Record same_view (sn sn' : OspfRouteSnapshot) : Prop := {
  vw_nodes : forall p, has_node sn' p <-> has_node sn p;
  vw_conns : forall p q, q ∈ default [] (lookup_connected_peers sn' p) <->
                         q ∈ default [] (lookup_connected_peers sn p);
  vw_avoid : forall p, RouteTable.get_avoid_relay_data sn' p = RouteTable.get_avoid_relay_data sn p;
  vw_suppressed : sn_suppressed_peer_ids sn' = sn_suppressed_peer_ids sn }.

Section converged.
Context {T : Target} {H : MinHeap} {HL : MinHeapLaws H} {G : PetGraph} {GL : PetGraphLaws G}
  {N : RouteNet} {O : HashOrder}.
Context (sn : OspfRouteSnapshot).

(** The table of hop counts of node [u], from its own snapshot and costs. *)
Definition routed (u : Z) (t : OspfRouteTable) : Prop := exists snu calc t0,
  same_view sn snu /\ has_node snu u /\ costs_ok snu calc /\ (forall a b, calc a b < AVOID_RELAY_COST) /\
  older_than (sn_version snu) t0 /\ build_from_snapshot t0 u snu LeastHop calc = Ret t.

Definition hop_weight (a : Z) : Z := if RouteTable.get_avoid_relay_data sn a then AVOID_RELAY_COST + 1 else 1.
(** The links of the network as [me] counts them. *)
Definition hlink (me a b n : Z) : Prop :=
  has_node sn a /\ has_node sn b /\ (a = me \/ a ∉ sn_suppressed_peer_ids sn) /\
  b ∈ default [] (lookup_connected_peers sn a) /\ n = hop_weight a.

Lemma hop_weight_pos a : 1 <= hop_weight a.
Proof. unfold hop_weight, AVOID_RELAY_COST. case_match; lia. Qed.

Lemma normalized_cost snu calc a b : same_view sn snu -> costs_ok snu calc ->
  calc a b < AVOID_RELAY_COST -> normalize_edge_cost (edge_cost snu calc a b) = hop_weight a.
Proof.
  intros Hv [K Hc] Hlt. destruct (edge_cost_exact snu calc K a b Hc) as [-> _].
  destruct Hc as (_ & _ & Hc & _). destruct (Hc a b) as [H0 _].
  unfold normalize_edge_cost, hop_weight. rewrite (vw_avoid _ _ Hv). unfold AVOID_RELAY_COST in *.
  destruct (RouteTable.get_avoid_relay_data sn a).
  - by rewrite (proj2 (Z.leb_le _ _)) by lia.
  - by rewrite (proj2 (Z.leb_gt _ _)) by lia.
Qed.

Lemma link_hlink u snu calc a b n : same_view sn snu -> costs_ok snu calc ->
  (forall a b, calc a b < AVOID_RELAY_COST) ->
  measured (link u snu calc) normalize_edge_cost a b n <-> hlink u a b n.
Proof.
  intros Hv Hc Hlt. unfold measured, link, hlink. setoid_rewrite (vw_nodes _ _ Hv).
  setoid_rewrite (vw_conns _ _ Hv). setoid_rewrite (vw_suppressed _ _ Hv). split.
  - intros (w & (? & ? & ? & ? & ->) & ->). split_and!; try done. by apply normalized_cost.
  - intros (? & ? & ? & ? & ->). eexists. split; [done|]. symmetry. by apply normalized_cost.
Qed.

(** What the table of [u] says, in hops. *)
Lemma routed_spec u t : routed u t ->
  (forall p, p ∉ sn_suppressed_peer_ids sn -> (exists ns, walk (hlink u) u p ns) -> is_Some (get_next_hop t p)) /\
  (forall p info, p <> u -> get_next_hop t p = Some info ->
     exists ns, walk_via (hlink u) u (next_hop_peer_id info) p ns /\
       forall ns', walk (hlink u) u p ns' -> path_cost ns <= path_cost ns').
Proof.
  intros (snu & calc & t0 & Hv & Hu & Hc & Hlt & Hold & Hb).
  destruct (build_spec u snu calc LeastHop t0 Hu Hc Hold) as (t' & E & Hbest & Hreach & Hsup & _).
  rewrite Hb in E. injection E as <-.
  assert (Hget : forall p, get_next_hop t p =
    if decide (p ∈ sn_suppressed_peer_ids sn) then None else get_topology_next_hop t p).
  { intros p. unfold get_next_hop. by rewrite Hsup, (vw_suppressed _ _ Hv). }
  split.
  - intros p Hp (ns & Hw). rewrite Hget, decide_False by done. apply Hreach.
    destruct (walk_measured (link u snu calc) u normalize_edge_cost p ns) as (ws & Hws & _); [|by exists ws].
    eapply (walk_map (hlink u) _ id); [|exact Hw]. intros a b n Hl. by apply link_hlink.
  - intros p info Hp Hi. rewrite Hget in Hi. case_decide; [done|].
    destruct (Hbest p info Hp Hi) as (_ & ws & Hvia & _ & _ & Hpref).
    exists (map normalize_edge_cost ws). split.
    + clear -Hvia Hv Hc Hlt. induction Hvia as [w Hl|a b w ws _ IH Hl]; cbn.
      * constructor. apply (link_hlink u snu calc); [done..|by eexists].
      * econstructor; [exact IH|]. apply (link_hlink u snu calc); [done..|by eexists].
    + intros ns' Hw'.
      destruct (walk_measured (link u snu calc) u normalize_edge_cost p ns') as (ws' & Hws' & ->).
      { eapply (walk_map (hlink u) _ id); [|exact Hw']. intros a b n Hl. by apply link_hlink. }
      specialize (Hpref ws' Hws'). cbn in Hpref. lia.
Qed.

(** ** One hop *)

Lemma hlink_weights u s v ns : walk (hlink u) s v ns -> Forall (fun n => 1 <= n) ns.
Proof.
  induction 1 as [|a b n ns _ IH (_ & _ & _ & _ & ->)]; constructor; [apply hop_weight_pos|done].
Qed.

(** The next hop of a node that is not its destination. *)
Lemma next_hop_spec u t B info : routed u t -> B <> u -> get_next_hop t B = Some info ->
  let v := next_hop_peer_id info in
  v <> u /\ hlink u u v (hop_weight u) /\
  exists ns, walk (fun a b n => a <> u /\ hlink u a b n) v B ns /\
    forall ns', walk (hlink u) u B ns' -> hop_weight u + path_cost ns <= path_cost ns'.
Proof.
  intros Ht HB Hi v. destruct (routed_spec u t Ht) as [_ Hbest].
  destruct (Hbest B info HB Hi) as (ns & Hvia & Hmin).
  destruct (via_rest _ _ _ _ _ Hvia) as [(w0 & ns' & Hl & -> & Hrest)|(ws1 & ws2 & Hw & -> & Hne)].
  - fold v in Hl, Hrest. assert (w0 = hop_weight u) as -> by apply Hl. split_and!; [|done|].
    + intros Hvu. rewrite Hvu in Hrest. destruct (walk_leaves _ _ _ _ Hrest) as (b & w & Hne & _); congruence.
    + exists ns'. split; [done|]. intros ns1 H1. specialize (Hmin ns1 H1).
      rewrite path_cost_app in Hmin. cbn in Hmin. lia.
  - specialize (Hmin ws1 Hw). rewrite path_cost_app in Hmin.
    assert (0 < path_cost ws2); [|lia].
    pose proof (hlink_weights _ _ _ _ (via_walk _ _ _ _ _ Hvia)) as Hpos.
    apply Forall_app in Hpos as [_ Hpos]. pose proof (path_cost_len ws2 Hpos).
    destruct ws2; [done|]. rewrite len_cons in *. pose proof (len_nonneg ws2). lia.
Qed.

(** ** All hops *)

(** Every peer has a table. *)
Context (tables : gmap Z OspfRouteTable).
Context (Htables : forall u, has_node sn u -> is_Some (tables !! u)).
Context (Hrouted : forall u t, tables !! u = Some t -> routed u t).

(** The other nodes' next hops for [B], from the tables of hop counts. *)
Definition table_hop (B u : Z) (policy : NextHopPolicy) : option Z :=
  match policy with
  | LeastHop => if u =? B then None else t ← tables !! u; (next_hop_peer_id <$> get_next_hop t B)
  | LeastCost => None
  end.

(** A link between relays that do not mind relaying. *)
Definition willing (a b n : Z) : Prop :=
  has_node sn a /\ has_node sn b /\ (a ∉ sn_suppressed_peer_ids sn) /\
  b ∈ default [] (lookup_connected_peers sn a) /\ RouteTable.get_avoid_relay_data sn a = false /\ n = 1.

Lemma willing_walk u s v ns : walk willing s v ns -> walk (hlink u) s v ns /\ path_cost ns = len ns.
Proof.
  induction 1 as [|a b n ns _ [IH1 IH2] (? & ? & ? & ? & Ha & ->)]; [by split; [constructor|]|]. split.
  - econstructor; [exact IH1|]. unfold hlink, hop_weight. rewrite Ha. by split_and!; auto.
  - cbn. fold (path_cost ns). rewrite len_cons. lia.
Qed.

Section to_destination.
Context (A B : Z) (HB : B ∉ sn_suppressed_peer_ids sn).

(** A node that can reach [B] has a next hop, from which a shorter walk remains. *)
Lemma table_hop_spec u ns : u <> B -> has_node sn u -> walk (hlink u) u B ns ->
  exists v ns', table_hop B u LeastHop = Some v /\ has_node sn v /\ v <> u /\ hlink u u v (hop_weight u) /\
    walk (hlink v) v B ns' /\ forall ns1, walk (hlink u) u B ns1 -> hop_weight u + path_cost ns' <= path_cost ns1.
Proof using Htables Hrouted HB HL GL.
  intros Hu Hn Hw. destruct (Htables u Hn) as [t Et]. pose proof (Hrouted u t Et) as Ht. destruct (routed_spec u t Ht) as [Hreach _].
  destruct (Hreach B HB) as [info Hi]; [by exists ns|].
  destruct (next_hop_spec u t B info Ht) as (Hvu & Hl & ns' & Hrest & Hmin); [done|done|].
  exists (next_hop_peer_id info), ns'. split_and!; [|apply Hl|done|done| |done].
  - unfold table_hop. rewrite (proj2 (Z.eqb_neq _ _) Hu), Et; cbn. by rewrite Hi.
  - eapply (walk_map _ _ id); [|exact Hrest]. cbn.
    intros a b n (Hau & Ha & Hb & Hs & Hc & ->). unfold hlink. split_and!; try done. right. by destruct Hs.
Qed.

(** [DA] is less than the length of every walk from [A]. *)
Lemma tables_lead DA (HA : forall ns, walk (hlink A) A B ns -> DA <= path_cost ns) (k : nat) : forall u fc,
  has_node sn u -> (exists ns, walk (hlink u) u B ns /\ path_cost ns <= Z.of_nat k /\ path_cost ns < DA) ->
  fc + Z.of_nat k <= 8 -> leads A B (table_hop B) fc false u.
Proof using Htables Hrouted HB HL GL.
  induction k as [|k IH]; intros u fc Hn (ns & Hw & Hk & Hlt) Hfc;
    (destruct (decide (u = B)) as [->|HuB]; [by constructor|]).
  - pose proof (path_cost_len ns (hlink_weights _ _ _ _ Hw)) as Hl. destruct ns; [by inversion Hw; subst|].
    rewrite len_cons in Hl. pose proof (len_nonneg ns). lia.
  - destruct (table_hop_spec u ns HuB Hn Hw) as (v & ns' & Hv & Hnv & _ & _ & Hw' & Hmin).
    specialize (Hmin ns Hw). pose proof (hop_weight_pos u). eapply (leads_on _ _ _ u v).
    + intros ->. specialize (HA ns Hw). lia.
    + done.
    + lia.
    + exact Hv.
    + apply IH; [done| |lia]. exists ns'. split_and!; [done|lia|lia].
Qed.

(** From [A], with a route of eight hops. *)
Lemma tables_lead_from x ns : A <> B -> has_node sn A -> has_node sn x ->
  x ∈ default [] (lookup_connected_peers sn A) -> walk willing x B ns -> len ns <= 7 ->
  exists v, table_hop B A LeastHop = Some v /\ leads A B (table_hop B) 1 false v.
Proof using Htables Hrouted HB HL GL.
  intros HAB HnA Hnx Hx Hw Hlen. destruct (willing_walk A x B ns Hw) as [Hw1 Hcost].
  assert (HwA : walk (hlink A) A B (ns ++ [hop_weight A])).
  { eapply walk_app; [|exact Hw1]. econstructor; [constructor|]. by unfold hlink; auto. }
  destruct (table_hop_spec A _ HAB HnA HwA) as (v & ns' & Hv & Hnv & _ & _ & Hw' & Hmin).
  exists v. split; [done|].
  apply (tables_lead (hop_weight A + path_cost ns') Hmin 7); [done| |lia].
  exists ns'. pose proof (Hmin _ HwA) as Hm. rewrite path_cost_app in Hm. cbn in Hm.
  pose proof (hop_weight_pos A). split_and!; [done|lia|lia].
Qed.
End to_destination.

(** ** Nodes with these tables *)

Section nodes.
Context {om : OrderedMap} {tl : TrustLib} {pw : ProstWire} {pr : ProstRoute}.
Context {GS : Type} {C : CidrLib} {CE : ConnEnv}.

(** A node that is not in secure mode, routes with its table, relays data, and
    has working connections to exactly the peers that the network knows of. *)
Record member (u : Z) (cfg : @CoreConfig GS C) (c : @Core GS C) : Prop := {
  mb_id : g_my_peer_id cfg = u /\ pm_my_peer_id (c_peers c) = u;
  mb_clear : g_secure_mode_enabled cfg = false /\
             rp_is_secure_mode_enabled (w_relay (c_world c)) = false;
  mb_foreign : exists F, w_foreign (c_world c) = Some F /\ pm_peers F = ∅ /\ pm_my_peer_id F = u;
  mb_relays : fl_disable_relay_data (g_flags cfg) = false;
  mb_routes : exists sv same_network gateway, tables !! u = Some (route_table sv) /\
    pm_routes (c_peers c) = [PeerRoute_route sv same_network gateway];
  mb_known : forall v, is_Some (pm_peers (c_peers c) !! v) ->
    has_node sn v /\ v ∈ default [] (lookup_connected_peers sn u);
  mb_usable : forall v, v ∈ default [] (lookup_connected_peers sn u) -> usable (c_peers c) v }.

Lemma member_ok u B cfg c : member u cfg c -> node_ok cfg u B (table_hop B u) c.
Proof using Hrouted HL GL.
  intros Hm. split; [apply Hm|apply Hm|apply Hm|]. intros [] v Hv; [|done]. unfold table_hop in Hv.
  destruct (Z.eqb_spec u B) as [|HuB]; [done|].
  destruct (mb_routes _ _ _ Hm) as (sv & same & gw & Et & Er). rewrite Et in Hv. cbn in Hv.
  destruct (get_next_hop (route_table sv) B) as [info|] eqn:Ei; [|done]. injection Hv as <-.
  destruct (next_hop_spec u _ B info (Hrouted _ _ Et)) as (Hvu & Hl & ns & Hw & Hmin); [done|done|].
  split_and!; [|done|by apply (mb_usable _ _ _ Hm), Hl].
  unfold get_gateway_peer_id. destruct (mb_id _ _ _ Hm) as [_ Hid].
  rewrite Hid, (proj2 (Z.eqb_neq _ _)) by done. unfold has_peer.
  rewrite Hid, (proj2 (Z.eqb_neq _ _)) by done. cbn [orb].
  case_bool_decide as Hp; cbn [andb].
  - destruct (mb_known _ _ _ Hm _ Hp) as [HnB HcB]. f_equal.
    assert (Hd : walk (hlink u) u B [hop_weight u]).
    { econstructor; [constructor|]. split_and!; [apply Hl|done|by left|done|done]. }
    specialize (Hmin _ Hd). cbn in Hmin.
    assert (Hw' : walk (hlink u) (next_hop_peer_id info) B ns).
    { eapply (walk_map _ _ id); [|exact Hw]. by intros ? ? ? []. }
    pose proof (path_cost_len ns (hlink_weights _ _ _ _ Hw')). destruct ns as [|n ns].
    + by inversion Hw; subst.
    + rewrite len_cons in *. pose proof (len_nonneg ns). lia.
  - rewrite Er. cbn. unfold PeerRoute_get_next_hop_with_policy. by rewrite Ei.
Qed.
End nodes.
End converged.

Lemma willing_end sn x B ns : has_node sn x -> walk (willing sn) x B ns -> has_node sn B.
Proof. intros Hx Hw. destruct Hw as [|a b n ns _ (_ & Hb & _)]; done. Qed.

(** ** Properties *)


(** The line of [Line] again, with the tables that its nodes build. *)
Module RoutedLine.
Import RouteSyncExamples.Net.
#[local] Existing Instance Line.conn_env.
#[local] Existing Instance Line.cidrs.
#[local] Existing Instance Line.hmac.
#[local] Existing Instance Line.noise.
#[local] Existing Instance Line.pb.
#[local] Existing Instance Line.addrs.
#[local] Existing Instance toy_lib.
#[local] Existing Instance zeros_zstd.
#[local] Existing Instance zeros_zstd_laws.
#[local] Existing Instance RouteSyncExamples.ListMap.olist.
#[local] Existing Instance Example_routes.target.
#[local] Existing Instance Example_routes.pet.
#[local] Existing Instance Example_routes.host_net.
#[local] Existing Instance Line.order.
#[local] Existing Instance list_heap.

Definition ip (u : Z) : Z := 167772160 + u.
Definition sn : OspfRouteSnapshot :=
  {| sn_peer_infos := [(1, Example_routes.peer 1 (ip 1)); (2, Example_routes.peer 1 (ip 2));
                       (3, Example_routes.peer 1 (ip 3))];
     sn_conn_map := [(1, [2]); (2, [1; 3]); (3, [2])]; sn_suppressed_peer_ids := ∅; sn_version := 4 |}.
Definition latency (_ _ : Z) : Z := 10.
Definition table (u : Z) : OspfRouteTable :=
  match build_from_snapshot OspfRouteTable_new u sn LeastHop latency with
  | Ret t => t
  | Panic => OspfRouteTable_new
  end.
Definition tables : gmap Z OspfRouteTable := {[ 1 := table 1; 2 := table 2; 3 := table 3 ]}.

Definition peers (u : Z) (l : list Z) : PeerMap :=
  with_peers (add_route (PeerMap_new u) (PeerRoute_route (service_with u (table u)) (fun _ => true) None))
    (list_to_map ((fun v => (v, Line.peer v)) <$> l)).
Definition core (u : Z) (l : list Z) : @Core unit Line.cidrs :=
  set_world (Line.core u l) (set_peers (c_world (Line.core u l)) (peers u l) []).
(** Without the preference for low latency. *)
Definition cfg (u : Z) : @CoreConfig unit Line.cidrs :=
  let g := Line.cfg u in
  {| g_my_peer_id := u;
     g_flags := {| fl_disable_relay_data := false; fl_p2p_only := false; fl_latency_first := false;
                   fl_disable_p2p := false; fl_lazy_p2p := true |};
     g_local_exit_node_fallback := g_local_exit_node_fallback g; g_ipv4 := g_ipv4 g; g_ipv6 := g_ipv6 g;
     g_public_lease_contains := g_public_lease_contains g; g_exit_nodes := g_exit_nodes g;
     g_route := PeerRoute_route (service_with u (table u)) (fun _ => true) None;
     g_encryptor := g_encryptor g; g_compress_algo := g_compress_algo g;
     g_secure_mode_enabled := g_secure_mode_enabled g; g_is_credential_node := g_is_credential_node g;
     g_peer_pipeline := g_peer_pipeline g; g_nic_pipeline := g_nic_pipeline g |}.
Definition cfgs (u : Z) : option CoreConfig := if (1 <=? u) && (u <=? 3) then Some (cfg u) else None.
Definition cores : gmap Z Core := {[ 1 := core 1 [2]; 2 := core 2 [1; 3]; 3 := core 3 [2] ]}.

Lemma sn_nodes u : has_node sn u -> u = 1 \/ u = 2 \/ u = 3.
Proof.
  intros (info & Hin & _). cbn in Hin. rewrite !elem_of_cons, elem_of_nil in Hin. naive_solver.
Qed.
Lemma sn_costs : costs_ok sn latency.
Proof. apply costs_ok_64; [done|done|]. intros a b. unfold latency. lia. Qed.
Lemma sn_has u : u = 1 \/ u = 2 \/ u = 3 -> has_node sn u.
Proof.
  intros Hu. exists (Example_routes.peer 1 (ip u)). cbn. rewrite !elem_of_cons. naive_solver.
Qed.
Lemma same_sn : same_view sn sn.
Proof. by split. Qed.
Lemma table_routed u : has_node sn u ->
  build_from_snapshot OspfRouteTable_new u sn LeastHop latency = Ret (table u) -> routed sn u (table u).
Proof.
  intros Hn Hb. exists sn, latency, OspfRouteTable_new. split_and!; [exact same_sn|done|exact sn_costs|done| |done].
  by apply Example_routes.new_table_older.
Qed.

Lemma line_member u l : has_node sn u -> tables !! u = Some (table u) ->
  default [] (lookup_connected_peers sn u) = l ->
  Forall (fun v => has_node sn v /\ usable (peers u l) v) l ->
  (forall v, is_Some (pm_peers (peers u l) !! v) -> v ∈ l) ->
  member sn tables u (cfg u) (core u l).
Proof.
  intros Hn Ht Hl Hu Hk. rewrite Forall_forall in Hu. split; [done|done|by exists (PeerMap_new u)|done| | |].
  - by exists (service_with u (table u)), (fun _ => true), None.
  - intros v Hv. rewrite Hl. specialize (Hk v Hv). split; [by apply Hu|done].
  - intros v. rewrite Hl. intros Hv. apply (Hu v Hv).
Qed.

Lemma keys_of (l : list Z) v : is_Some ((list_to_map ((fun v => (v, Line.peer v)) <$> l) : gmap Z Peer) !! v) -> v ∈ l.
Proof.
  intros [P HP]. apply elem_of_list_to_map_2, list_elem_of_fmap in HP as (w & [= -> _] & Hw). done.
Qed.

Lemma routed_node u l : has_node sn u -> tables !! u = Some (table u) -> cfgs u = Some (cfg u) ->
  cores !! u = Some (core u l) -> default [] (lookup_connected_peers sn u) = l ->
  Forall (fun v => has_node sn v /\ usable (peers u l) v) l ->
  build_from_snapshot OspfRouteTable_new u sn LeastHop latency = Ret (table u) ->
  forall t, tables !! u = Some t -> routed sn u t /\
    exists cfg c, cfgs u = Some cfg /\ cores !! u = Some c /\ member sn tables u cfg c.
Proof.
  intros Hn Et Hcf Hco Hl Hu Hb t Ht. rewrite Et in Ht. assert (t = table u) as -> by congruence.
  split; [by apply table_routed|]. exists (cfg u), (core u l). split_and!; [done|done|].
  apply line_member; try done. apply keys_of.
Qed.

(** The conditions of [routed_node]. *)
Ltac line_node_by u l Hn :=
  apply (routed_node u l);
  [exact Hn|by simplify_map_eq|done|by simplify_map_eq|done
  |repeat constructor; try (apply sn_has; auto); apply Line.peer_usable; vm_compute; reflexivity
  |vm_compute; reflexivity].
Lemma line_members u t : tables !! u = Some t -> routed sn u t /\
  exists cfg c, cfgs u = Some cfg /\ cores !! u = Some c /\ member sn tables u cfg c.
Proof.
  intros Ht. assert (Hu : u = 1 \/ u = 2 \/ u = 3).
  { unfold tables in Ht. destruct (decide (1 = u)); [auto|]. rewrite lookup_insert_ne in Ht by done.
    destruct (decide (2 = u)); [auto|]. rewrite lookup_insert_ne in Ht by done.
    apply lookup_singleton_Some in Ht as [? _]. auto. }
  pose proof (sn_has u Hu) as Hn. revert t Ht.
  destruct Hu as [-> | [-> | ->]].
  - line_node_by 1 [2] Hn.
  - line_node_by 2 [1; 3] Hn.
  - line_node_by 3 [2] Hn.
Qed.

Lemma line_tables u : has_node sn u -> is_Some (tables !! u).
Proof. intros [-> | [-> | ->]]%sn_nodes; by simplify_map_eq. Qed.

Lemma routed_departs : departs (cfg 1) 1 3 (inl (ip 3)) (repeat 0 40) (core 1 [2]).
Proof. split; [intros; by eexists|constructor|exists false; vm_compute; reflexivity|done]. Qed.
Lemma line_accepts : accepts (cfg 3) 1 3 (repeat 0 40) 8 (core 3 [2]).
Proof.
  split.
  - exists []. split; [by rewrite app_nil_r|]. intros. constructor.
  - intros. by eexists.
  - vm_compute. lia.
Qed.
Lemma line_route : walk (willing sn) 2 3 [1].
Proof.
  econstructor; [constructor|]. split_and!; [apply sn_has; auto..|apply not_elem_of_empty| |done|done].
  apply (bool_decide_unpack _). vm_compute. reflexivity.
Qed.

End RoutedLine.
