(* ===== verification/ConnLiveness.v ===== *)
(** Whether a connection is alive: the liveness markers that ordinary packets
    carry ([peers/conn/peer_conn_liveness.rs]), the schedule of pings and the
    count of failures ([peers/conn/peer_conn_ping.rs]), and the window of
    measured latencies ([tunnel/stats.rs]). *)
From stdpp Require Import list gmap strings.
From S2P Require Import Prelude Headers Packet.
Local Open Scope Z_scope.

(** ** Liveness markers *)

Definition FEATURE : string := "liveness-echo-v1".

(** The atomics of [PeerConnLivenessInner]: [next_token] has 8 bits, a probe is
    its token plus one, 0 is none. *)
Record PeerConnLiveness := {
  lv_enabled : bool; next_token : Z; active_probe : Z; acknowledged_probe : Z; pending_echo : Z }.
Definition PeerConnLiveness_new : PeerConnLiveness :=
  {| lv_enabled := false; next_token := 0; active_probe := 0; acknowledged_probe := 0; pending_echo := 0 |}.

Definition with_enabled (l : PeerConnLiveness) (b : bool) : PeerConnLiveness :=
  {| lv_enabled := b; next_token := next_token l; active_probe := active_probe l;
     acknowledged_probe := acknowledged_probe l; pending_echo := pending_echo l |}.
Definition with_probes (l : PeerConnLiveness) (active acknowledged : Z) : PeerConnLiveness :=
  {| lv_enabled := lv_enabled l; next_token := next_token l; active_probe := active;
     acknowledged_probe := acknowledged; pending_echo := pending_echo l |}.
Definition with_next_token (l : PeerConnLiveness) (n : Z) : PeerConnLiveness :=
  {| lv_enabled := lv_enabled l; next_token := n; active_probe := active_probe l;
     acknowledged_probe := acknowledged_probe l; pending_echo := pending_echo l |}.
Definition with_echo (l : PeerConnLiveness) (e : Z) : PeerConnLiveness :=
  {| lv_enabled := lv_enabled l; next_token := next_token l; active_probe := active_probe l;
     acknowledged_probe := acknowledged_probe l; pending_echo := e |}.

Definition encode_probe (token : Z) : Z := token + 1.
Definition decode_probe (probe : Z) : Z := wrap 8 (probe - 1).

Definition set_enabled (l : PeerConnLiveness) (enabled : bool) : PeerConnLiveness :=
  let l := with_enabled l enabled in
  if enabled then l else with_echo (with_probes l 0 0) 0.
Definition set_remote_features (l : PeerConnLiveness) (features : list string) : PeerConnLiveness :=
  set_enabled l (existsb (fun x => bool_decide (x = FEATURE)) features).

Definition start_probe (l : PeerConnLiveness) : PeerConnLiveness * option Z :=
  if negb (lv_enabled l) then (l, None) else
  if negb (active_probe l =? 0) then (l, Some (decode_probe (active_probe l))) else
  let token := wrap 8 (next_token l + 1) in
  let l := with_next_token l token in
  (with_probes l (encode_probe token) 0, Some token).

(** The condition on which [wait_for_echo] returns. *)
Definition echo_seen (l : PeerConnLiveness) (token : Z) : bool :=
  acknowledged_probe l =? encode_probe token.

Definition finish_probe (l : PeerConnLiveness) (token : Z) : PeerConnLiveness :=
  let probe := encode_probe token in
  with_probes l (if active_probe l =? probe then 0 else active_probe l)
                (if acknowledged_probe l =? probe then 0 else acknowledged_probe l).

Definition active_token (l : PeerConnLiveness) : option Z :=
  if active_probe l =? 0 then None else Some (decode_probe (active_probe l)).
Definition queue_echo (l : PeerConnLiveness) (token : Z) : PeerConnLiveness :=
  with_echo l (encode_probe token).
Definition take_echo (l : PeerConnLiveness) : PeerConnLiveness * option Z :=
  (with_echo l 0, if pending_echo l =? 0 then None else Some (decode_probe (pending_echo l))).
Definition acknowledge (l : PeerConnLiveness) (token : Z) : PeerConnLiveness :=
  let probe := encode_probe token in
  if active_probe l =? probe then with_probes l 0 probe else l.

(** The marker a packet leaves with. *)
Definition liveness_before_send (l : PeerConnLiveness) (p : ZCPacket) : PeerConnLiveness * ZCPacket :=
  if negb (lv_enabled l) then (l, p) else
  match mut_peer_manager_header p with
  | None => (l, p)
  | Some (h, put) =>
    let h := clear_liveness_marker h in
    match take_echo l with
    | (l, Some token) => (l, put (set_liveness_echo h token))
    | (l, None) =>
      match active_token l with
      | Some token => (l, put (set_liveness_probe h token))
      | None => (l, put h)
      end
    end
  end.

Definition liveness_after_received (l : PeerConnLiveness) (p : ZCPacket) : PeerConnLiveness * ZCPacket :=
  if negb (lv_enabled l) then (l, p) else
  match mut_peer_manager_header p with
  | None => (l, p)
  | Some (h, put) =>
    let l := match liveness_probe_token h, liveness_echo_token h with
             | Some token, None => queue_echo l token
             | None, Some token => acknowledge l token
             | _, _ => l
             end in
    (l, put (clear_liveness_marker h))
  end.

(** ** The window of latencies *)

(** [wl_index] has 32 bits. *)
Record WindowLatency := { wl_window : list Z; wl_index : Z; wl_sum : Z; wl_count : Z }.
Definition WindowLatency_new (window_size : nat) : WindowLatency :=
  {| wl_window := replicate window_size 0; wl_index := 0; wl_sum := 0; wl_count := 0 |}.
Definition record_latency (w : WindowLatency) (latency : Z) : comp WindowLatency :=
  let size := len (wl_window w) in
  if size =? 0 then Panic else
  let count := if wl_count w <? size then wl_count w + 1 else wl_count w in
  let i := Z.to_nat (wl_index w mod size) in
  let old := default 0 (wl_window w !! i) in
  Ret {| wl_window := <[i := latency]> (wl_window w); wl_index := wrap 32 (wl_index w + 1);
         wl_sum := wrap 32 (if old <? latency then wl_sum w + (latency - old)
                            else wl_sum w - (old - latency));
         wl_count := count |}.
Definition get_latency_us (w : WindowLatency) : Z :=
  if wl_count w =? 0 then 0 else wl_sum w / wl_count w.

(** ** Pings *)

Record PingIntervalController := {
  logic_time : Z; last_send_logic_time : Z; backoff_idx : Z; last_tx_packets : Z; last_rx_packets : Z }.
Definition max_backoff_idx : Z := 5.
Definition PingIntervalController_new (tx rx : Z) : PingIntervalController :=
  {| logic_time := 0; last_send_logic_time := 0; backoff_idx := 0; last_tx_packets := tx;
     last_rx_packets := rx |}.
Definition tick (c : PingIntervalController) : PingIntervalController :=
  {| logic_time := logic_time c + 1; last_send_logic_time := last_send_logic_time c;
     backoff_idx := backoff_idx c; last_tx_packets := last_tx_packets c;
     last_rx_packets := last_rx_packets c |}.

(** [tx] and [rx] are the packets counted so far, [coin] the random draw. *)
Definition should_send_ping (c : PingIntervalController) (loss_counter tx rx : Z) (coin : bool)
    : PingIntervalController * bool :=
  let idx := if 0 <? loss_counter then 0
             else if (last_tx_packets c <? tx) && negb (last_rx_packets c <? rx) then 0
             else backoff_idx c in
  if logic_time c - last_send_logic_time c <? Z.shiftl 1 idx
  then ({| logic_time := logic_time c; last_send_logic_time := last_send_logic_time c;
           backoff_idx := idx; last_tx_packets := tx; last_rx_packets := rx |}, false)
  else
    let idx := Z.min (idx + 1) max_backoff_idx in
    let idx := if (max_backoff_idx - 2 <? idx) && coin then idx - 1 else idx in
    ({| logic_time := logic_time c; last_send_logic_time := logic_time c;
        backoff_idx := idx; last_tx_packets := tx; last_rx_packets := rx |}, true).

Definition new_ping_packet (uninit : nat -> Z) (me peer seq : Z) : comp ZCPacket :=
  p ← new_with_payload uninit (le_encode 4 seq);
  fill_peer_manager_hdr p me peer (PacketType_as_u8 Ping).

(** One packet in the loop of [wait_for_pong]: whether it ends the loop. *)
Definition pong_matches (seq : Z) (p : ZCPacket) : comp bool :=
  pl ← payload p; b ← slice 0 4 pl; Ret (le_decode b =? seq).

(** How [do_pingpong_once] ends; a pong with the elapsed microseconds. *)
Inductive PingResponse := Pong (us : Z) | LivenessEcho.

Record PingState := {
  pg_liveness : PeerConnLiveness; pg_latency_stats : WindowLatency; pg_loss_rate_stats : WindowLatency;
  pg_loss_counter : Z; pg_req_seq : Z }.

(** A round of [pingpong], before and after [do_pingpong_once]. *)
Definition ping_begin (s : PingState) : PingState * option Z :=
  if 0 <? pg_loss_counter s then
    let '(l, token) := start_probe (pg_liveness s) in
    ({| pg_liveness := l; pg_latency_stats := pg_latency_stats s; pg_loss_rate_stats := pg_loss_rate_stats s;
        pg_loss_counter := pg_loss_counter s; pg_req_seq := pg_req_seq s |}, token)
  else (s, None).

(** The flag says whether the loop goes on. *)
Definition ping_end (s : PingState) (token : option Z) (ret : option PingResponse) : comp (PingState * bool) :=
  let seq := wrap 32 (pg_req_seq s + 1) in
  match ret with
  | Some response =>
    lat ← match response with
          | Pong us => record_latency (pg_latency_stats s) (wrap 32 us)
          | LivenessEcho => Ret (pg_latency_stats s)
          end;
    let l := match token with Some t => finish_probe (pg_liveness s) t | None => pg_liveness s end in
    rate ← record_latency (pg_loss_rate_stats s) 0;
    Ret ({| pg_liveness := l; pg_latency_stats := lat; pg_loss_rate_stats := rate; pg_loss_counter := 0;
            pg_req_seq := seq |}, true)
  | None =>
    rate ← record_latency (pg_loss_rate_stats s) 1;
    let loss := pg_loss_counter s + 1 in
    Ret ({| pg_liveness := pg_liveness s; pg_latency_stats := pg_latency_stats s; pg_loss_rate_stats := rate;
            pg_loss_counter := loss; pg_req_seq := seq |}, negb (5 <=? loss))
  end.

(** ** Two ends of a connection *)

(** What happens on a connection, newest first; [false] and [true] are its ends. *)
Inductive LinkEvent :=
  | Start (b : bool) (token : Z)
  | Sends (b : bool) (q : ZCPacket)
  | Receives (b : bool) (q : ZCPacket).
Abbreviation trace := (list LinkEvent).
Abbreviation Ends := (bool -> PeerConnLiveness).
Definition set_end (E : Ends) (b : bool) (l : PeerConnLiveness) : Ends :=
  fun x => if Bool.eqb x b then l else E x.

Definition probe_of (q : ZCPacket) : option Z := h ← peer_manager_header q; liveness_probe_token h.
Definition echo_of (q : ZCPacket) : option Z := h ← peer_manager_header q; liveness_echo_token h.
Definition unmarked (p : ZCPacket) : Prop := probe_of p = None /\ echo_of p = None.

(** The tunnel loses, repeats and reorders packets.  Before an end knows the
    features of the other it sends its handshake, which has no markers. *)
Inductive link_history : Ends -> trace -> Prop :=
  | lh_new : link_history (fun _ => PeerConnLiveness_new) []
  | lh_features E tr b features : link_history E tr ->
      link_history (set_end E b (set_remote_features (E b) features)) tr
  | lh_start E tr b l o : link_history E tr -> start_probe (E b) = (l, o) ->
      link_history (set_end E b l)
        (match o with Some t => if active_probe (E b) =? 0 then [Start b t] else [] | None => [] end ++ tr)
  | lh_finish E tr b token : link_history E tr -> link_history (set_end E b (finish_probe (E b) token)) tr
  | lh_send E tr b p l q : link_history E tr -> bytes_ok (inner p) ->
      (lv_enabled (E b) = false -> unmarked p) -> liveness_before_send (E b) p = (l, q) ->
      link_history (set_end E b l) (Sends b q :: tr)
  | lh_receive E tr b q l p : link_history E tr -> Sends (negb b) q ∈ tr ->
      liveness_after_received (E b) q = (l, p) -> link_history (set_end E b l) (Receives b q :: tr).

(** An event that happened when [P] held already. *)
Definition after (P : trace -> Prop) (e : LinkEvent) (tr : trace) : Prop :=
  exists tr1 tr2, tr = tr1 ++ e :: tr2 /\ P tr2.
Definition started (b : bool) (t : Z) : trace -> Prop := after (fun _ => True) (Start b t).
Definition probe_received (b : bool) (t : Z) (tr : trace) : Prop := exists q, probe_of q = Some t /\
  after (after (started b t) (Sends b q)) (Receives (negb b) q) tr.
Definition round_trip (b : bool) (t : Z) (tr : trace) : Prop := exists q, echo_of q = Some t /\
  after (after (probe_received b t) (Sends (negb b) q)) (Receives b q) tr.

(** The tokens of the probes that an end started. *)
Definition start_token (b : bool) (e : LinkEvent) : option Z :=
  match e with Start b' t => if Bool.eqb b b' then Some t else None | _ => None end.
Definition tokens (b : bool) (tr : trace) : list Z := omap (start_token b) tr.

Lemma after_mono (P Q : trace -> Prop) e tr : (forall tr, P tr -> Q tr) -> after P e tr -> after Q e tr.
Proof. intros HPQ (tr1 & tr2 & -> & HP). exists tr1, tr2. auto. Qed.
Lemma after_cons P e x tr : after P e tr -> after P e (x :: tr).
Proof. intros (tr1 & tr2 & -> & HP). by exists (x :: tr1), tr2. Qed.
Lemma after_now (P : trace -> Prop) e tr : P tr -> after P e (e :: tr).
Proof. by exists [], tr. Qed.
Lemma started_elem b t tr : Start b t ∈ tr -> started b t tr.
Proof. intros (tr1 & tr2 & ->)%list_elem_of_split. by exists tr1, tr2. Qed.
Lemma probe_received_cons b t x tr : probe_received b t tr -> probe_received b t (x :: tr).
Proof. intros (q & Hq & Ha). exists q. auto using after_cons. Qed.
Lemma round_trip_cons b t x tr : round_trip b t tr -> round_trip b t (x :: tr).
Proof. intros (q & Hq & Ha). exists q. auto using after_cons. Qed.

(** Where the values of the atomics and the markers come from. *)
Record link_ok (E : Ends) (tr : trace) : Prop := {
  lo_active b t : 0 <= t < 256 -> active_probe (E b) = encode_probe t -> started b t tr;
  lo_echo b t : 0 <= t < 256 -> pending_echo (E (negb b)) = encode_probe t -> probe_received b t tr;
  lo_ack b t : acknowledged_probe (E b) = encode_probe t -> acknowledged_probe (E b) <> 0 ->
    round_trip b t tr;
  lo_probe b q t : Sends b q ∈ tr -> probe_of q = Some t -> echo_of q = None ->
    after (started b t) (Sends b q) tr;
  lo_sent_echo b q t : Sends b q ∈ tr -> echo_of q = Some t -> probe_of q = None ->
    after (probe_received (negb b) t) (Sends b q) tr;
  lo_tokens b q : Sends b q ∈ tr ->
    (forall t, probe_of q = Some t -> 0 <= t < 256) /\ (forall t, echo_of q = Some t -> 0 <= t < 256);
  lo_range b : 0 <= active_probe (E b) <= 256 /\ 0 <= pending_echo (E b) <= 256 }.

Lemma link_ok_cons E tr e : link_ok E tr -> (forall b q, e <> Sends b q) -> link_ok E (e :: tr).
Proof.
  intros [H1 H2 H3 H4 H5 H6 H7] He. split; [| | | | | |done].
  - intros. by apply after_cons, H1.
  - intros. by apply probe_received_cons, H2.
  - intros. by apply round_trip_cons, H3.
  - intros b q t [Hq|Hq]%elem_of_cons; [by destruct (He b q)|]. intros. by apply after_cons, H4.
  - intros b q t [Hq|Hq]%elem_of_cons; [by destruct (He b q)|]. intros. by apply after_cons, H5.
  - intros b q [Hq|Hq]%elem_of_cons; [by destruct (He b q)|]. by eapply H6.
Qed.

Lemma header_wf p h : bytes_ok (inner p) -> peer_manager_header p = Some h -> PeerManagerHeader_wf h /\ has_header p.
Proof.
  intros Hb Hh. assert (Hl : has_header p).
  { unfold has_header. destruct (Z_lt_le_dec (len (inner p)) (zc_payload_offset p)) as [Hlt|]; [|done].
    apply pm_header_None in Hlt. congruence. }
  destruct (pm_header_is_Some p Hb Hl) as (h' & Hh' & Hw & _). split; [congruence|done].
Qed.

Lemma clear_marker_wf h : PeerManagerHeader_wf h -> PeerManagerHeader_wf (clear_liveness_marker h).
Proof.
  unfold PeerManagerHeader_wf, clear_liveness_marker. cbn. intros (?&?&?&Hf&?&?&?). split_and!; auto.
  - by apply (ldiff_range 8).
  - by split.
Qed.
Lemma set_marker_wf h m t : PeerManagerHeader_wf h -> m = LIVENESS_PROBE \/ m = LIVENESS_ECHO -> u8 t ->
  PeerManagerHeader_wf (set_liveness_marker h m t).
Proof.
  intros (?&?&?&Hf&?&?&?)%clear_marker_wf Hm Ht. unfold set_liveness_marker.
  split_and!; auto. by apply (lor_range 8); [lia|done|destruct Hm; subst].
Qed.

Lemma decode_probe_range n : 0 <= decode_probe n < 256.
Proof. apply (Z.mod_pos_bound _ (2 ^ 8)). done. Qed.
Lemma decode_encode_probe t : 0 <= t < 256 -> decode_probe (encode_probe t) = t.
Proof. intros Ht. unfold decode_probe, encode_probe, wrap. rewrite Z.add_simpl_r. by apply Z.mod_small. Qed.
Lemma encode_decode_probe n : 0 < n <= 256 -> encode_probe (decode_probe n) = n.
Proof. intros Hn. unfold decode_probe, encode_probe, wrap. rewrite Z.mod_small; lia. Qed.

Lemma marks_put p h : has_header p -> PeerManagerHeader_wf h ->
  probe_of (put_pm_header p h) = liveness_probe_token h /\ echo_of (put_pm_header p h) = liveness_echo_token h.
Proof. intros Hp Hh. unfold probe_of, echo_of. by rewrite put_pm_get. Qed.

(** What a packet leaves with. *)
Lemma before_send_spec l p l' q : bytes_ok (inner p) -> liveness_before_send l p = (l', q) ->
  (lv_enabled l = false /\ l' = l /\ q = p) \/
  (unmarked q /\ (l' = l \/ l' = with_echo l 0)) \/
  (pending_echo l <> 0 /\ l' = with_echo l 0 /\ probe_of q = None /\ echo_of q = Some (decode_probe (pending_echo l))) \/
  (active_probe l <> 0 /\ l' = with_echo l 0 /\ echo_of q = None /\ probe_of q = Some (decode_probe (active_probe l))).
Proof.
  intros Hb. unfold liveness_before_send. destruct (lv_enabled l); cbn [negb]; [|intros [= <- <-]; by left].
  rewrite mut_pm_header. destruct (peer_manager_header p) as [h|] eqn:Eh; cbn [option_map].
  2:{ intros [= <- <-]. right; left. unfold unmarked, probe_of, echo_of. rewrite Eh. auto. }
  destruct (header_wf p h Hb Eh) as [Hw Hp]. pose proof (clear_marker_wf h Hw) as Hc.
  unfold take_echo, active_token. cbn [active_probe with_echo].
  destruct (liveness_markers h 0) as (_ & _ & _ & _ & C1 & C2 & _).
  destruct (Z.eqb_spec (pending_echo l) 0) as [|H0]; [destruct (Z.eqb_spec (active_probe l) 0) as [|H1]|];
    intros [= <- <-].
  - right; left. unfold unmarked. destruct (marks_put p _ Hp Hc) as [-> ->]. split; [by rewrite C1, C2|by right].
  - right; right; right. destruct (liveness_markers (clear_liveness_marker h) (decode_probe (active_probe l)))
      as (M1 & M2 & _). destruct (marks_put p (set_liveness_probe (clear_liveness_marker h) (decode_probe (active_probe l))) Hp)
      as [-> ->]; [|by rewrite M1, M2]. apply set_marker_wf; [done|by left|apply decode_probe_range].
  - right; right; left. destruct (liveness_markers (clear_liveness_marker h) (decode_probe (pending_echo l)))
      as (_ & _ & M1 & M2 & _). destruct (marks_put p (set_liveness_echo (clear_liveness_marker h) (decode_probe (pending_echo l))) Hp)
      as [-> ->]; [|by rewrite M1, M2]. apply set_marker_wf; [done|by right|apply decode_probe_range].
Qed.

(** What is noted when a packet arrives. *)
Lemma after_received_spec l q l' p : liveness_after_received l q = (l', p) ->
  l' = l \/ (exists t, probe_of q = Some t /\ echo_of q = None /\ l' = queue_echo l t) \/
  (exists t, echo_of q = Some t /\ probe_of q = None /\ l' = acknowledge l t).
Proof.
  unfold liveness_after_received. destruct (lv_enabled l); cbn [negb]; [|intros [= <- <-]; by left].
  rewrite mut_pm_header. unfold probe_of, echo_of.
  destruct (peer_manager_header q) as [h|]; cbn [option_map]; [|intros [= <- <-]; by left].
  intros [= <- _]. cbn [mbind option_bind].
  destruct (liveness_probe_token h), (liveness_echo_token h); eauto 7.
Qed.

(** One end changes. *)
Lemma link_ok_set E tr b l : link_ok E tr ->
  (forall t, 0 <= t < 256 -> active_probe l = encode_probe t -> started b t tr) ->
  (forall t, 0 <= t < 256 -> pending_echo l = encode_probe t -> probe_received (negb b) t tr) ->
  (forall t, acknowledged_probe l = encode_probe t -> acknowledged_probe l <> 0 -> round_trip b t tr) ->
  0 <= active_probe l <= 256 /\ 0 <= pending_echo l <= 256 -> link_ok (set_end E b l) tr.
Proof.
  intros [H1 H2 H3 H4 H5 H6 H7] A1 A2 A3 A4. unfold set_end. split; [| | |done|done|done|].
  - intros b' t. destruct (Bool.eqb_spec b' b) as [->|]; auto.
  - intros b' t. destruct (Bool.eqb_spec (negb b') b) as [<-|]; [|by auto].
    intros ? ?. rewrite <- (negb_involutive b'). by apply A2.
  - intros b' t. destruct (Bool.eqb_spec b' b) as [->|]; auto.
  - intros b'. destruct (Bool.eqb_spec b' b) as [->|]; auto.
Qed.

(** An end changes nothing but that it may forget. *)
Lemma link_ok_forget E tr b l : link_ok E tr ->
  active_probe l = active_probe (E b) \/ active_probe l = 0 ->
  pending_echo l = pending_echo (E b) \/ pending_echo l = 0 ->
  acknowledged_probe l = acknowledged_probe (E b) \/ acknowledged_probe l = 0 ->
  link_ok (set_end E b l) tr.
Proof.
  intros HE A P K. pose proof HE as [H1 H2 H3 _ _ _ H7]. specialize (H7 b). apply link_ok_set; [done|..].
  - intros t Ht. unfold encode_probe. destruct A as [-> | ->]; [by apply H1|lia].
  - intros t Ht. unfold encode_probe. rewrite <- (negb_involutive b) in P.
    destruct P as [-> | ->]; [by apply H2|lia].
  - intros t. destruct K as [-> | ->]; [by apply H3|done].
  - destruct A as [-> | ->], P as [-> | ->]; lia.
Qed.

Lemma link_ok_send E tr b q : link_ok E tr ->
  (forall t, probe_of q = Some t -> echo_of q = None -> 0 <= t < 256 /\ started b t tr) ->
  (forall t, echo_of q = Some t -> probe_of q = None -> 0 <= t < 256 /\ probe_received (negb b) t tr) ->
  probe_of q = None \/ echo_of q = None -> link_ok E (Sends b q :: tr).
Proof.
  intros [H1 H2 H3 H4 H5 H6 H7] P K One. split; [| | | | | |done].
  - intros. by apply after_cons, H1.
  - intros. by apply probe_received_cons, H2.
  - intros. by apply round_trip_cons, H3.
  - intros b' q' t [[= -> ->]|Hq]%elem_of_cons Hp He; [apply after_now; by apply P|by apply after_cons, H4].
  - intros b' q' t [[= -> ->]|Hq]%elem_of_cons Hp He; [apply after_now; by apply K|by apply after_cons, H5].
  - intros b' q' [[= -> ->]|Hq]%elem_of_cons; [|by eapply H6].
    split; intros t Ht; destruct One as [N|N]; try congruence; [by apply P|by apply K].
Qed.

Lemma link_ok_sends E tr b p l q : link_ok E tr -> bytes_ok (inner p) ->
  (lv_enabled (E b) = false -> unmarked p) -> liveness_before_send (E b) p = (l, q) ->
  link_ok (set_end E b l) (Sends b q :: tr).
Proof.
  intros IH Hb Hd Hs. pose proof (lo_range _ _ IH b) as [Ra Rp].
  assert (Hu : unmarked q -> link_ok E (Sends b q :: tr)).
  { intros [U1 U2]. apply link_ok_send; [done|by rewrite U1|by rewrite U2|by left]. }
  destruct (before_send_spec _ _ _ _ Hb Hs) as [(Hdis & -> & ->)|[[U Hl]|[(H0 & -> & N & Hm)|(H0 & -> & N & Hm)]]].
  - apply link_ok_forget; [by apply Hu, Hd|by auto..].
  - apply link_ok_forget; [by apply Hu|destruct Hl as [-> | ->]; cbn; auto..].
  - apply link_ok_forget; [|cbn; auto..]. apply link_ok_send; [done|by rewrite N| |by left].
    rewrite Hm. intros t [= <-] _. split; [apply decode_probe_range|].
    apply (lo_echo _ _ IH); [apply decode_probe_range|]. rewrite negb_involutive, encode_decode_probe; [done|lia].
  - apply link_ok_forget; [|cbn; auto..]. apply link_ok_send; [done| |by rewrite N|by right].
    rewrite Hm. intros t [= <-] _. split; [apply decode_probe_range|].
    apply (lo_active _ _ IH); [apply decode_probe_range|]. rewrite encode_decode_probe; [done|lia].
Qed.

Lemma link_ok_receives E tr b q l p : link_ok E tr -> Sends (negb b) q ∈ tr ->
  liveness_after_received (E b) q = (l, p) -> link_ok (set_end E b l) (Receives b q :: tr).
Proof.
  intros IH Hq Hr. pose proof (lo_range _ _ IH b) as [Ra Rp]. destruct (lo_tokens _ _ IH _ _ Hq) as [Tp Te].
  assert (Hc : link_ok E (Receives b q :: tr)) by (by apply link_ok_cons).
  destruct (after_received_spec _ _ _ _ Hr) as [-> |[(t & Hp & He & ->)|(t & He & Hp & ->)]].
  - by apply link_ok_forget; auto.
  - specialize (Tp t Hp). apply link_ok_set; [done|..]; cbn.
    + intros. by apply (lo_active _ _ Hc).
    + intros t' ? Ht. assert (t' = t) as -> by (unfold encode_probe in Ht; lia).
      exists q. split; [done|]. rewrite negb_involutive. apply after_now. by apply (lo_probe _ _ IH).
    + intros. by apply (lo_ack _ _ Hc).
    + unfold encode_probe. lia.
  - specialize (Te t He). unfold acknowledge. destruct (Z.eqb_spec (active_probe (E b)) (encode_probe t)) as [Ha|].
    2:{ by apply link_ok_forget; auto. }
    apply link_ok_set; [done|..]; cbn.
    + unfold encode_probe. intros; lia.
    + intros. apply (lo_echo _ _ Hc); [done|by rewrite negb_involutive].
    + intros t' Ht _. assert (t' = t) as -> by (unfold encode_probe in Ht; lia).
      exists q. split; [done|]. apply after_now. pose proof (lo_sent_echo _ _ IH _ _ _ Hq He Hp) as Hs.
      by rewrite negb_involutive in Hs.
    + unfold encode_probe. lia.
Qed.

Lemma link_history_ok E tr : link_history E tr -> link_ok E tr.
Proof.
  induction 1 as [|E tr b fs _ IH|E tr b l o _ IH Hs|E tr b t _ IH|E tr b p l q _ IH Hb Hd Hs|E tr b q l p _ IH Hq Hr].
  - split; try done; try (intros * []%not_elem_of_nil); unfold encode_probe; cbn; intros; lia.
  - apply link_ok_forget; [done|..]; unfold set_remote_features, set_enabled; case_match; cbn; auto.
  - unfold start_probe in Hs. destruct (lv_enabled (E b)); cbn [negb] in Hs; [|simplify_eq; by apply link_ok_forget; auto].
    destruct (Z.eqb_spec (active_probe (E b)) 0); cbn [negb] in Hs; simplify_eq; [|by apply link_ok_forget; auto].
    cbn [app]. set (t := wrap 8 _). assert (0 <= t < 256) by (apply (Z.mod_pos_bound _ (2 ^ 8)); done).
    assert (Hc : link_ok E (Start b t :: tr)) by (by apply link_ok_cons).
    apply link_ok_set; [done|..]; cbn.
    + intros t' ? Ht. assert (t' = t) as -> by (unfold encode_probe in Ht; lia). apply started_elem. by left.
    + intros t' ? Ht. apply (lo_echo _ _ Hc); [done|by rewrite negb_involutive].
    + done.
    + pose proof (lo_range _ _ IH b). unfold encode_probe. lia.
  - apply link_ok_forget; [done|..]; unfold finish_probe; cbn; auto; case_match; auto.
  - by eapply link_ok_sends.
  - by eapply link_ok_receives.
Qed.

(** The tokens count up. *)
Lemma tokens_count E tr : link_history E tr -> forall b,
  next_token (E b) = wrap 8 (len (tokens b tr)) /\
  forall i t, tokens b tr !! i = Some t -> t = wrap 8 (len (tokens b tr) - Z.of_nat i).
Proof.
  induction 1 as [|E tr b fs _ IH|E tr b l o _ IH Hs|E tr b t _ IH|E tr b p l q _ IH Hb Hd Hs|E tr b q l p _ IH Hq Hr];
    intros b'; unfold set_end.
  - by split.
  - destruct (Bool.eqb_spec b' b) as [->|]; [|done].
    unfold set_remote_features, set_enabled. case_match; apply IH.
  - unfold start_probe in Hs. destruct (lv_enabled (E b)); cbn [negb] in Hs.
    2:{ simplify_eq. cbn [app]. destruct (Bool.eqb_spec b' b) as [->|]; apply IH. }
    destruct (Z.eqb_spec (active_probe (E b)) 0); cbn [negb] in Hs; simplify_eq; cbn [app].
    2:{ destruct (Bool.eqb_spec b' b) as [->|]; apply IH. }
    unfold tokens. cbn [omap list_omap start_token].
    destruct (Bool.eqb_spec b' b) as [->|]; [|apply IH]. destruct (IH b) as [Hn Hi]. fold (tokens b tr).
    cbn [next_token with_next_token with_probes]. rewrite Hn, len_cons.
    assert (Hw : wrap 8 (wrap 8 (len (tokens b tr)) + 1) = wrap 8 (1 + len (tokens b tr))).
    { unfold wrap. rewrite Zplus_mod_idemp_l. f_equal. lia. }
    rewrite Hw. split; [done|]. intros [|i] t; cbn.
    + intros [= <-]. by rewrite Z.sub_0_r.
    + intros ->%Hi. f_equal. lia.
  - destruct (Bool.eqb_spec b' b) as [->|]; apply IH.
  - destruct (before_send_spec _ _ _ _ Hb Hs) as [(_ & -> & _)|[[_ [-> | ->]]|[(_ & -> & _)|(_ & -> & _)]]];
      destruct (Bool.eqb_spec b' b) as [->|]; apply IH.
  - destruct (after_received_spec _ _ _ _ Hr) as [-> |[(t & _ & _ & ->)|(t & _ & _ & ->)]];
      destruct (Bool.eqb_spec b' b) as [->|]; try apply IH. unfold acknowledge. case_match; apply IH.
Qed.

Lemma tokens_NoDup E tr b : link_history E tr -> len (tokens b tr) <= 256 -> NoDup (tokens b tr).
Proof.
  intros Hh Hl. destruct (tokens_count E tr Hh b) as [_ Hi]. apply NoDup_alt. intros i j t Ei Ej.
  pose proof (lookup_lt_Some _ _ _ Ei). pose proof (lookup_lt_Some _ _ _ Ej). apply Hi in Ei. apply Hi in Ej.
  unfold wrap, len in *. subst t.
  assert ((Z.of_nat j - Z.of_nat i) mod 2 ^ 8 = 0) as Hm.
  { replace (Z.of_nat j - Z.of_nat i) with
      ((Z.of_nat (length (tokens b tr)) - Z.of_nat i) - (Z.of_nat (length (tokens b tr)) - Z.of_nat j)) by lia.
    rewrite Zminus_mod, Ej, Z.sub_diag. done. }
  apply Z.mod_divide in Hm as [k Hk]; [|done]. change (2 ^ 8) with 256 in Hk. nia.
Qed.

Lemma clear_marker_idem h : clear_liveness_marker (clear_liveness_marker h) = clear_liveness_marker h.
Proof.
  unfold clear_liveness_marker, with_reserved, with_flags. cbn. f_equal. apply Z.bits_inj'. intros n Hn.
  rewrite !Z.ldiff_spec. by destruct (Z.testbit (flags h) n), (Z.testbit _ n).
Qed.
Lemma clear_set_marker h m t : m = LIVENESS_PROBE \/ m = LIVENESS_ECHO ->
  clear_liveness_marker (set_liveness_marker h m t) = clear_liveness_marker h.
Proof.
  intros Hm. unfold set_liveness_marker, clear_liveness_marker, with_reserved, with_flags.
  cbn [flags from_peer_id to_peer_id pm_packet_type forward_counter pm_len reserved].
  f_equal. apply Z.bits_inj'. intros n Hn. rewrite !Z.ldiff_spec, !Z.lor_spec, Z.ldiff_spec, Z.lor_spec.
  destruct Hm as [-> | ->];
    by destruct (Z.testbit (flags h) n), (Z.testbit LIVENESS_PROBE n), (Z.testbit LIVENESS_ECHO n).
Qed.

(** The header that a marked packet has. *)
Lemma before_send_header l p h l1 q : peer_manager_header p = Some h -> PeerManagerHeader_wf h ->
  lv_enabled l = true -> liveness_before_send l p = (l1, q) ->
  exists h2, q = put_pm_header p h2 /\ PeerManagerHeader_wf h2 /\ clear_liveness_marker h2 = clear_liveness_marker h.
Proof.
  intros Hh Hw E. pose proof (clear_marker_wf h Hw) as Hc. unfold liveness_before_send.
  rewrite E, mut_pm_header, Hh. cbn [negb option_map]. unfold take_echo, active_token. cbn [active_probe with_echo].
  destruct (pending_echo l =? 0); [destruct (active_probe l =? 0)|]; intros [= _ <-]; eexists; split; try done.
  - split; [done|apply clear_marker_idem].
  - split; [apply set_marker_wf; [done|by left|apply decode_probe_range]|].
    unfold set_liveness_probe. rewrite clear_set_marker by (by left). apply clear_marker_idem.
  - split; [apply set_marker_wf; [done|by right|apply decode_probe_range]|].
    unfold set_liveness_echo. rewrite clear_set_marker by (by right). apply clear_marker_idem.
Qed.

(** The markers are not seen outside: what the other end reads is the packet
    with its payload and its header, without markers. *)
Lemma markers_invisible l l' p h l1 q l2 p' : bytes_ok (inner p) -> peer_manager_header p = Some h ->
  lv_enabled l = true -> lv_enabled l' = true ->
  liveness_before_send l p = (l1, q) -> liveness_after_received l' q = (l2, p') ->
  payload p' = payload p /\ peer_manager_header p' = Some (clear_liveness_marker h).
Proof.
  intros Hb Hh E1 E2 Hs. destruct (header_wf p h Hb Hh) as [Hw Hp].
  destruct (before_send_header _ _ _ _ _ Hh Hw E1 Hs) as (h2 & -> & Hw2 & Hcl).
  unfold liveness_after_received. rewrite E2, mut_pm_header, put_pm_get by done. cbn [negb option_map].
  intros [= _ <-]. rewrite Hcl. pose proof (clear_marker_wf h Hw).
  rewrite put_pm_payload, put_pm_payload, put_pm_get by auto using put_pm_has_header. done.
Qed.

(** ** The window of latencies *)

(** The values recorded, newest first. *)
Inductive window_history (n : nat) : WindowLatency -> list Z -> Prop :=
  | wh_new : window_history n (WindowLatency_new n) []
  | wh_record w l x w' : window_history n w l -> 0 <= x -> record_latency w x = Ret w' ->
      window_history n w' (x :: l).

Definition sum (l : list Z) : Z := foldr Z.add 0 l.
Lemma sum_app l l' : sum (l ++ l') = sum l + sum l'.
Proof. induction l as [|x l IH]; cbn; [done|]. fold (sum (l ++ l')) (sum l). lia. Qed.

Lemma sum_rev l : sum (rev l) = sum l.
Proof. induction l as [|x l IH]; [done|]. cbn [rev]. rewrite sum_app, IH. cbn. fold (sum l). lia. Qed.
Lemma sum_zeros n : sum (replicate n 0) = 0.
Proof. induction n; cbn; [done|]. by fold (sum (replicate n 0)). Qed.
Lemma sum_bound B l : 0 <= B -> Forall (fun x => 0 <= x <= B) l -> 0 <= sum l <= B * len l.
Proof.
  intros HB. induction 1 as [|x l Hx _ IH]; [unfold len; cbn; lia|]. cbn. fold (sum l). rewrite len_cons. lia.
Qed.

(** The slots hold the last values, those of the present round first. *)
Definition ring (n m : nat) (l : list Z) : list Z :=
  let L := l ++ replicate n 0 in rev (take m L) ++ rev (take (n - m) (drop m L)).

Lemma ring_sum n m l : (m <= n)%nat -> sum (ring n m l) = sum (take n l).
Proof.
  intros Hm. unfold ring. rewrite sum_app, !sum_rev, <- sum_app.
  rewrite take_take_drop, Nat.add_comm, Nat.sub_add by done. rewrite take_app, sum_app.
  rewrite take_replicate, sum_zeros. lia.
Qed.

Lemma ring_full n l : ring n n l = ring n 0 l.
Proof. unfold ring. rewrite Nat.sub_diag, Nat.sub_0_r. cbn. by rewrite app_nil_r. Qed.

Lemma ring_record n m l x : (m < n)%nat ->
  exists old r, ring n m l = rev (take m (l ++ replicate n 0)) ++ old :: r /\
    ring n (S m) (x :: l) = rev (take m (l ++ replicate n 0)) ++ x :: r.
Proof.
  intros Hm. unfold ring. cbn [app take drop]. set (L := l ++ replicate n 0).
  assert (Hlen : (n <= length L)%nat) by (unfold L; rewrite length_app, length_replicate; lia).
  replace (n - m)%nat with (S (n - S m)) by lia.
  destruct (drop m L !! (n - S m)%nat) as [old|] eqn:Eo.
  2:{ apply lookup_ge_None in Eo. rewrite length_drop in Eo. lia. }
  exists old, (rev (take (n - S m) (drop m L))). rewrite (take_S_r _ _ _ Eo), rev_app_distr. split; [done|].
  cbn [rev]. by rewrite <- app_assoc.
Qed.

Lemma rev_zeros n : rev (replicate n 0) = replicate n 0.
Proof. induction n as [|n IH]; [done|]. cbn [replicate rev]. by rewrite IH, <- replicate_S_end. Qed.
Lemma ring_next n k l : (0 < n)%nat -> ring n (S (k mod n)) l = ring n (S k mod n) l.
Proof.
  intros Hn. pose proof (Nat.mod_upper_bound k n ltac:(lia)). rewrite <- Nat.add_1_r, <- (Nat.add_1_r k).
  rewrite <- (Nat.Div0.add_mod_idemp_l k 1 n).
  destruct (decide (k mod n + 1 = n)%nat) as [E|].
  - by rewrite E, Nat.Div0.mod_same, ring_full.
  - by rewrite (Nat.mod_small (k mod n + 1)) by lia.
Qed.

(** The sum is that of the last [n] values, as long as no sum overflows. *)
Lemma window_spec n w l B : window_history n w l -> (0 < n)%nat -> len l < 2 ^ 32 -> 0 <= B -> B * Z.of_nat n < 2 ^ 32 ->
  Forall (fun x => 0 <= x <= B) l ->
  wl_window w = ring n (length l mod n) l /\ wl_index w = len l /\ wl_sum w = sum (take n l) /\
  wl_count w = Z.of_nat (Nat.min n (length l)).
Proof.
  intros Hh Hn. induction Hh as [|w l x w' _ IH Hx Hr]; intros Hl HB Hs Hb.
  { rewrite Nat.Div0.mod_0_l. unfold ring. cbn [app take drop rev length]. rewrite Nat.sub_0_r, Nat.min_0_r, take_nil.
    rewrite take_0, drop_0, (take_ge _ n) by (rewrite length_replicate; lia). by rewrite rev_zeros. }
  rewrite len_cons in Hl. pose proof (Forall_cons_1 _ _ _ Hb) as [_ Hb'].
  destruct IH as (IW & II & IS & IC); [lia|done|done|done|]. unfold record_latency in Hr.
  pose proof (Nat.mod_upper_bound (length l) n ltac:(lia)) as Hm.
  destruct (ring_record n (length l mod n) l x Hm) as (old & r & E1 & E2).
  set (pre := rev (take (length l mod n) (l ++ replicate n 0))) in *.
  assert (Hpre : length pre = (length l mod n)%nat).
  { unfold pre. rewrite length_rev, length_take, length_app, length_replicate. lia. }
  assert (Hsize : len (wl_window w) = Z.of_nat n).
  { rewrite IW. unfold ring, len. rewrite length_app, !length_rev, !length_take, length_drop, length_app, length_replicate. lia. }
  rewrite Hsize in Hr. destruct (Z.eqb_spec (Z.of_nat n) 0); [lia|]. injection Hr as <-. cbn [wl_window wl_index wl_sum wl_count].
  rewrite II, IC. unfold len in *. rewrite <- Nat2Z.inj_mod, Nat2Z.id, IW, E1.
  rewrite lookup_app_r, Hpre, Nat.sub_diag by lia. cbn [lookup list_lookup default id].
  rewrite insert_app_r_alt, Hpre, Nat.sub_diag by lia. cbn [insert list_insert length].
  rewrite ring_next in E2 by done. split_and!.
  - by rewrite E2.
  - unfold wrap. rewrite Z.mod_small; lia.
  - rewrite <- (ring_sum n (S (length l) mod n) (x :: l)) by (by apply Nat.lt_le_incl, Nat.mod_upper_bound; lia).
    rewrite E2, sum_app. cbn [sum foldr]. fold (sum r).
    rewrite <- (ring_sum n (length l mod n) l), E1, sum_app in IS by lia. cbn [sum foldr] in IS. fold (sum r) in IS.
    assert (0 <= sum (take n (x :: l)) <= B * len (take n (x :: l))) as Hbd by (apply sum_bound; [done|by apply Forall_take]).
    rewrite <- (ring_sum n (S (length l) mod n) (x :: l)), E2, sum_app in Hbd
      by (by apply Nat.lt_le_incl, Nat.mod_upper_bound; lia). cbn [sum foldr] in Hbd. fold (sum r) in Hbd.
    assert (len (take n (x :: l)) <= Z.of_nat n) by (unfold len; rewrite length_take; lia).
    rewrite IS. unfold wrap. destruct (Z.ltb_spec old x); rewrite Z.mod_small; nia.
  - destruct (Z.ltb_spec (Z.of_nat (Nat.min n (length l))) (Z.of_nat n)); lia.
Qed.

(** ** The schedule of pings *)

(** What the controller goes through, a tick at a time: the losses, the
    traffic and the draw are arbitrary. *)
Inductive controller_reaches (tx rx : Z) : PingIntervalController -> Prop :=
  | cr_new : controller_reaches tx rx (PingIntervalController_new tx rx)
  | cr_tick c loss tx' rx' coin : controller_reaches tx rx c ->
      controller_reaches tx rx (should_send_ping (tick c) loss tx' rx' coin).1.

Lemma shiftl_1 n : 0 <= n -> Z.shiftl 1 n = 2 ^ n.
Proof. intros. by rewrite Z.shiftl_1_l. Qed.

Lemma controller_ok tx rx c : controller_reaches tx rx c ->
  0 <= backoff_idx c <= 5 /\ 0 <= logic_time c - last_send_logic_time c < 32.
Proof.
  induction 1 as [|c loss tx' rx' coin _ IH]; [done|]. unfold should_send_ping.
  set (idx := if 0 <? loss then 0 else _).
  assert (Hi : 0 <= idx <= 5) by (unfold idx; cbn; repeat case_match; lia).
  rewrite shiftl_1 by lia. assert (2 ^ idx <= 2 ^ 5) by (apply Z.pow_le_mono_r; lia).
  case_match; bools; cbn in *; [lia|]. unfold max_backoff_idx. case_match; bools; lia.
Qed.

(** The rounds of [pingpong] on the results of [do_pingpong_once], until the
    loop ends: what is left of the results then. *)
Fixpoint ping_rounds (s : PingState) (l : list (option PingResponse))
    : comp (PingState * bool * list (option PingResponse)) :=
  match l with
  | [] => Ret (s, true, [])
  | ret :: l =>
    let '(s, token) := ping_begin s in
    '(s, go_on) ← ping_end s token ret;
    match go_on with true => ping_rounds s l | false => Ret (s, false, l) end
  end.

(** The failures at the end of a list of results. *)
Definition trailing (k : Z) (l : list (option PingResponse)) : Z :=
  foldl (fun k ret => match ret with Some _ => 0 | None => k + 1 end) k l.

Definition windows_ok (s : PingState) : Prop :=
  wl_window (pg_latency_stats s) <> [] /\ wl_window (pg_loss_rate_stats s) <> [].
Lemma record_latency_total w x : wl_window w <> [] -> exists w', record_latency w x = Ret w' /\ wl_window w' <> [].
Proof.
  intros Hw. unfold record_latency, len. destruct (wl_window w) as [|y r] eqn:E; [done|].
  destruct (Z.eqb_spec (Z.of_nat (length (y :: r))) 0); [cbn in *; lia|]. eexists; split; [done|]. cbn [wl_window].
  intros Hn. apply (f_equal length) in Hn. by rewrite length_insert in Hn.
Qed.

Lemma ping_round_spec s ret : windows_ok s -> exists s' , (let '(s, token) := ping_begin s in ping_end s token ret) =
  Ret (s', negb (5 <=? trailing (pg_loss_counter s) [ret]) || bool_decide (is_Some ret)) /\ windows_ok s' /\
  pg_loss_counter s' = trailing (pg_loss_counter s) [ret].
Proof.
  intros [H1 H2]. assert (Hb : exists s1 token, ping_begin s = (s1, token) /\ windows_ok s1 /\
    pg_loss_counter s1 = pg_loss_counter s).
  { unfold ping_begin. case_match; [|by exists s, None]. destruct (start_probe _) as [l o]. by eexists _, _. }
  destruct Hb as (s1 & token & -> & [W1 W2] & HL). unfold ping_end.
  destruct (record_latency_total (pg_loss_rate_stats s1) 0 W2) as (r0 & E0 & R0).
  destruct (record_latency_total (pg_loss_rate_stats s1) 1 W2) as (r1 & E1 & R1).
  destruct ret as [[us|]|]; cbn [trailing foldl].
  - destruct (record_latency_total (pg_latency_stats s1) (wrap 32 us) W1) as (w & Ew & Hw).
    rewrite Ew. cbn. rewrite E0. by eexists.
  - cbn. rewrite E0. by eexists.
  - rewrite E1. cbn. rewrite HL, orb_false_r. by eexists.
Qed.

(** The loop ends with the fifth failure in a row, [k] of which it has seen. *)
Definition gives_up (k : Z) (l : list (option PingResponse))
    (o : comp (PingState * bool * list (option PingResponse))) : Prop :=
  exists s', (o = Ret (s', true, []) /\ forall pre post, l = pre ++ post -> trailing k pre < 5) \/
    exists pre rest, l = pre ++ None :: rest /\ o = Ret (s', false, rest) /\ trailing k pre = 4 /\
      forall pre' post, pre = pre' ++ post -> trailing k pre' < 5.
Lemma gives_up_step k ret l o : k < 5 -> gives_up (trailing k [ret]) l o -> gives_up k (ret :: l) o.
Proof.
  intros Hk (s' & [[Hr Hall]|(pre & rest & Hl & Hr & H4 & Hall)]); exists s'; [left|right].
  - split; [done|]. intros [|x pre] post Hp; [done|]. injection Hp as <- Hp. apply (Hall pre post Hp).
  - exists (ret :: pre), rest. split_and!; [by rewrite Hl|done|exact H4|].
    intros [|x pre'] post Hp; [done|]. injection Hp as <- Hp. apply (Hall pre' post Hp).
Qed.

(** ** Properties *)

(** The latency that a connection reports is the mean of its last [n]
    measurements, or of all while there are fewer, for fewer than [2^32]
    measurements whose sum over a window does not overflow. *)
Theorem latency_is_mean (n : nat) (w : WindowLatency) (l : list Z) (B : Z) :
  window_history n w l -> (0 < n)%nat -> len l < 2 ^ 32 -> 0 <= B -> B * Z.of_nat n < 2 ^ 32 ->
  Forall (fun x => 0 <= x <= B) l -> l <> [] ->
  get_latency_us w = sum (take n l) / Z.of_nat (Nat.min n (length l)).
Proof.
  intros Hh Hn Hl HB Hs Hb Hne. destruct (window_spec n w l B) as (_ & _ & HS & HC); try done.
  unfold get_latency_us. rewrite HS, HC. destruct l; [done|].
  destruct (Z.eqb_spec (Z.of_nat (Nat.min n (length (z :: l)))) 0); [cbn in *; lia|done].
Qed.

(** No connection is probed too rarely: whatever the traffic, the losses and
    the random draws are, fewer than 32 ticks pass without a ping, and while a
    ping is lost, or packets are sent without any coming back, every tick sends
    one. *)
Theorem pings_keep_coming (tx rx : Z) (c c' : PingIntervalController) (loss tx' rx' : Z) (coin sent : bool) :
  controller_reaches tx rx c -> should_send_ping (tick c) loss tx' rx' coin = (c', sent) ->
  logic_time c' - last_send_logic_time c' < 32 /\
  (0 < loss \/ (last_tx_packets c < tx' /\ rx' <= last_rx_packets c) -> sent = true).
Proof.
  intros Hc Hs. split.
  - apply (controller_ok tx rx). replace c' with (should_send_ping (tick c) loss tx' rx' coin).1 by (by rewrite Hs).
    by apply cr_tick.
  - intros Hl. destruct (controller_ok tx rx c Hc) as [_ Ht]. revert Hs. unfold should_send_ping.
    set (idx := if 0 <? loss then 0 else _).
    assert (idx = 0) as ->.
    { unfold idx. cbn. destruct (Z.ltb_spec 0 loss); [done|].
      destruct (Z.ltb_spec (last_tx_packets c) tx'), (Z.ltb_spec (last_rx_packets c) rx'); cbn; (done || lia). }
    cbn [logic_time last_send_logic_time tick]. destruct (Z.ltb_spec (logic_time c + 1 - last_send_logic_time c) (Z.shiftl 1 0)) as [Hlt|].
    + change (Z.shiftl 1 0) with 1 in Hlt. lia.
    + by intros [= _ <-].
Qed.

(** C26. A dead connection is given up, a live one is not: the rounds of pings go
    through any results without a panic and end right after the fifth failure
    in a row, and only then. *)
Theorem dead_connection_closed (s : PingState) (l : list (option PingResponse)) :
  windows_ok s -> 0 <= pg_loss_counter s < 5 ->
  exists s', (ping_rounds s l = Ret (s', true, []) /\
      forall pre post, l = pre ++ post -> trailing (pg_loss_counter s) pre < 5) \/
    exists pre rest, l = pre ++ None :: rest /\ ping_rounds s l = Ret (s', false, rest) /\
      trailing (pg_loss_counter s) pre = 4 /\
      forall pre' post, pre = pre' ++ post -> trailing (pg_loss_counter s) pre' < 5.
Proof.
  intros Hw Hc. change (gives_up (pg_loss_counter s) l (ping_rounds s l)). revert s Hw Hc.
  induction l as [|ret l IH]; intros s Hw Hc.
  - exists s. left. split; [done|]. intros pre post Hp. symmetry in Hp. apply app_nil in Hp as [-> _]. cbn. lia.
  - destruct (ping_round_spec s ret Hw) as (s1 & E & Hw1 & HL). cbn [ping_rounds].
    destruct (ping_begin s) as [s0 token]. rewrite E. cbn [mbind comp_bind].
    destruct ret as [r|]; cbn [trailing foldl] in *.
    + rewrite bool_decide_true, orb_true_r by done. apply gives_up_step; [lia|]. cbn. rewrite <- HL. apply IH; [done|lia].
    + rewrite orb_false_r. destruct (Z.leb_spec 5 (pg_loss_counter s + 1)) as [H5|H5]; cbn [negb].
      * exists s1. right. exists [], l. split_and!; [done|done|cbn; lia|].
        intros pre' post Hp. symmetry in Hp. apply app_nil in Hp as [-> _]. cbn. lia.
      * apply gives_up_step; [lia|]. cbn. rewrite <- HL. apply IH; [done|lia].
Qed.

(** C25. An echo proves a round trip: when an end sees the echo of its probe, then
    after it started this very probe a packet of its own with the probe reached
    the other end and a packet that the other end sent after that came back,
    whatever the tunnel loses, repeats or reorders and whatever is probed in
    the other direction.  Tokens have eight bits: the claim is for connections
    with at most 256 probes. *)
Theorem echo_proves_round_trip (E : Ends) (tr : trace) (b : bool) (t : Z) :
  link_history E tr -> len (tokens b tr) <= 256 -> u8 t -> echo_seen (E b) t = true ->
  round_trip b t tr /\
  forall tr1 tr2, tr = tr1 ++ Start b t :: tr2 -> (t ∉ tokens b tr1) /\ (t ∉ tokens b tr2).
Proof.
  intros Hh Hl [Ht _] He. unfold echo_seen in He. bools. split.
  - apply (lo_ack _ _ (link_history_ok E tr Hh)); [done|]. rewrite He. unfold encode_probe. lia.
  - intros tr1 tr2 ->. pose proof (tokens_NoDup _ _ _ Hh Hl) as Hn. unfold tokens in *.
    rewrite omap_app in Hn. cbn [omap list_omap start_token] in Hn. rewrite Bool.eqb_reflx in Hn.
    apply NoDup_app in Hn as (_ & Hd & Hn). apply NoDup_cons in Hn as [Hn _]. split; [|done].
    intros Hin. by apply (Hd t Hin); left.
Qed.

(** Both ends know the feature; the first starts a probe, and a packet goes
    there and one back. *)
Module EchoExample.
Definition packet : ZCPacket := {| inner := replicate 60 0; packet_type := NIC |}.
Definition fresh : PeerConnLiveness := set_remote_features PeerConnLiveness_new [FEATURE].
Definition probing : PeerConnLiveness := (start_probe fresh).1.
Definition probe : PeerConnLiveness * ZCPacket := liveness_before_send probing packet.
Definition asked : PeerConnLiveness * ZCPacket := liveness_after_received fresh probe.2.
Definition echo : PeerConnLiveness * ZCPacket := liveness_before_send asked.1 packet.
Definition answered : PeerConnLiveness * ZCPacket := liveness_after_received probe.1 echo.2.
Definition history : trace :=
  [Receives false echo.2; Sends true echo.2; Receives true probe.2; Sends false probe.2; Start false 1].

Definition ready : Ends := set_end (set_end (fun _ => PeerConnLiveness_new) false fresh) true fresh.
Definition ends : Ends :=
  set_end (set_end (set_end (set_end (set_end ready false probing) false probe.1) true asked.1) true echo.1)
    false answered.1.

Lemma echo_history : link_history ends history.
Proof.
  assert (Hb : bytes_ok (inner packet)) by (by apply Forall_replicate).
  apply (lh_receive _ _ false echo.2 answered.1 answered.2); [|by left|by vm_compute].
  apply (lh_send _ _ true packet echo.1 echo.2); [|done|by vm_compute|by vm_compute].
  apply (lh_receive _ _ true probe.2 asked.1 asked.2); [|by left|by vm_compute].
  apply (lh_send _ _ false packet probe.1 probe.2); [|done|by vm_compute|by vm_compute].
  apply (lh_start ready [] false probing (Some 1)); [|by vm_compute].
  apply (lh_features (set_end (fun _ => PeerConnLiveness_new) false fresh) _ true [FEATURE]).
  apply (lh_features (fun _ => PeerConnLiveness_new) _ false [FEATURE]), lh_new.
Qed.

Lemma echo_proves_round_trip_witness : round_trip false 1 history.
Proof.
  refine (proj1 (echo_proves_round_trip ends history false 1 echo_history _ _ _)); by vm_compute.
Defined.

Definition idle : PingState :=
  {| pg_liveness := fresh; pg_latency_stats := WindowLatency_new 15; pg_loss_rate_stats := WindowLatency_new 100;
     pg_loss_counter := 0; pg_req_seq := 0 |}.
Lemma dead_connection_closed_witness : exists s' pre rest,
  [Some (Pong 20000); None; None; None; None; None; None] = pre ++ None :: rest /\
  ping_rounds idle [Some (Pong 20000); None; None; None; None; None; None] = Ret (s', false, rest) /\ rest = [None].
Proof.
  destruct (dead_connection_closed idle [Some (Pong 20000); None; None; None; None; None; None])
    as (s' & [[Hr _]|(pre & rest & Hl & Hr & _)]); [by split|by vm_compute|by vm_compute in Hr|].
  exists s', pre, rest. split_and!; [done|done|]. by vm_compute in Hr; injection Hr as _ <-.
Defined.

(** A pong with less than four bytes of payload. *)
Example short_pong_panics : pong_matches 7 {| inner := replicate 38 0; packet_type := NIC |} = Panic.
Proof. reflexivity. Qed.
End EchoExample.
