(* ===== verification/PeerHandshake.v ===== *)
(** The handshake of a direct connection and what it decides
    ([peers/conn/peer_conn.rs]), the filter that seals the traffic of a
    connection, and the admission of connections to the own network
    ([peers/peer_manager.rs]).  A handshake is cut where it waits for a packet
    of the other side; the whole functions run on the stream of received
    packets. *)
From stdpp Require Import list gmap strings.
From S2P Require Import Prelude Headers Packet Encrypt Compressor ReplayWindow SecureDatagram PeerSession.
From S2P Require Import RouteMessages SyncedRoute CredentialStore RouteSync RouteTable PeerConns RelayPeerMap PacketRouter ConnLiveness.
From S2P Require Import PeerSession.
Local Open Scope Z_scope.

(** ** Networks and their secrets *)

Definition str_bytes (s : string) : list Z :=
  map (fun a => Z.of_N (Ascii.N_of_ascii a)) (String.list_ascii_of_string s).

Record NetworkIdentity := {
  ni_network_name : string; ni_network_secret : option (list Z); ni_network_secret_digest : option (list Z) }.

(** [DefaultHasher]: the 64-bit hash of the bytes written so far. *)
Class DigestLib := { hasher_finish : list Z -> Z }.

Section digest.
Context {dl : DigestLib}.

(** [generate_digest_from_str] on a digest of four shards. *)
Fixpoint digest_shards (k : nat) (written digest : list Z) : list Z :=
  match k with
  | O => digest
  | S k => let digest := digest ++ be_encode 8 (hasher_finish written) in
           digest_shards k (written ++ digest) digest
  end.
Definition generate_digest_from_str (a b : list Z) : list Z := digest_shards 4 (a ++ b) [].

Definition identity_new (name : string) (secret : list Z) : NetworkIdentity :=
  {| ni_network_name := name; ni_network_secret := Some secret;
     ni_network_secret_digest := Some (generate_digest_from_str (str_bytes name) secret) |}.
Definition identity_secret_digest (i : NetworkIdentity) : option (list Z) :=
  match ni_network_secret_digest i with
  | Some d => Some d
  | None => generate_digest_from_str (str_bytes (ni_network_name i)) <$> ni_network_secret i
  end.
(** [PartialEq] compares names and digests. *)
Definition identity_eqb (a b : NetworkIdentity) : bool :=
  bool_decide (ni_network_name a = ni_network_name b) &&
  bool_decide (identity_secret_digest a = identity_secret_digest b).
Definition zero_digest (d : list Z) : bool := forallb (fun b => b =? 0) d.
End digest.

(** ** The context of a connection *)

(** The keys are what [private_key()] and [public_key()] decode. *)
Record SecureModeConfig := {
  sm_enabled : bool; sm_private_key : option (list Z); sm_public_key : option (list Z) }.

Abbreviation TrustedKeys := (gmap (list Z) TrustedKeyMetadata).

(** [hc_pinned] is the key pinned for the remote address, in base64. *)
Record HsContext := {
  hc_network : NetworkIdentity; hc_secure_mode : option SecureModeConfig; hc_encryption_algorithm : string;
  hc_hmac_secret_digest : bool; hc_pinned : option (list Z);
  hc_trusted_keys : gmap string TrustedKeys; hc_credentials : CredentialManager }.

Inductive SecureAuthLevel := AuthNone | EncryptedUnauthenticated | PeerVerified | NetworkSecretConfirmed.
#[export] Instance SecureAuthLevel_eq_dec : EqDecision SecureAuthLevel.
Proof. solve_decision. Defined.

(** "easytier secret proof" and "digest". *)
Definition SECRET_PROOF_PREFIX : list Z := Eval vm_compute in str_bytes "easytier secret proof".
Definition digest_challenge : list Z := Eval vm_compute in str_bytes "digest".

Definition TrustedKeyMetadata_is_expired (m : TrustedKeyMetadata) (now : Z) : bool :=
  match tk_expiry_unix m with Some e => e <=? now | None => false end.

Section context.
Context {tl : TrustLib} {cl : CredLib} {dl : DigestLib}.

Definition secret_proof_from_secret (secret challenge : list Z) : list Z :=
  hmac_sha256 secret (SECRET_PROOF_PREFIX ++ challenge).
Definition secret_proof (cx : HsContext) (challenge : list Z) : option (list Z) :=
  (fun s => secret_proof_from_secret s challenge) <$> ni_network_secret (hc_network cx).
Definition context_secret_digest (cx : HsContext) : list Z :=
  if hc_hmac_secret_digest cx
  then default [] ((fun s => secret_proof_from_secret s digest_challenge) <$> ni_network_secret (hc_network cx))
  else default (replicate 32 0) (identity_secret_digest (hc_network cx)).

Definition update_trusted_keys (cx : HsContext) (name : string) (keys : TrustedKeys) : HsContext :=
  {| hc_network := hc_network cx; hc_secure_mode := hc_secure_mode cx;
     hc_encryption_algorithm := hc_encryption_algorithm cx; hc_hmac_secret_digest := hc_hmac_secret_digest cx;
     hc_pinned := hc_pinned cx; hc_trusted_keys := <[name := keys]> (hc_trusted_keys cx);
     hc_credentials := hc_credentials cx |}.
Definition verify_trusted_key_with_source (m : gmap string TrustedKeys) (pubkey : list Z) (name : string)
    (source : option TrustedKeySource) (now : Z) : bool :=
  match (keys ← m !! name; keys !! pubkey) with
  | None => false
  | Some md =>
    match source with
    | Some s => match s, tk_source md with
                | OspfNode, OspfNode | OspfCredential, OspfCredential => negb (TrustedKeyMetadata_is_expired md now)
                | _, _ => false
                end
    | None => negb (TrustedKeyMetadata_is_expired md now)
    end
  end.
Definition context_is_pubkey_trusted (cx : HsContext) (pubkey : list Z) (name : string) (now : Z) : bool :=
  verify_trusted_key_with_source (hc_trusted_keys cx) pubkey name None now ||
  bool_decide (name = ni_network_name (hc_network cx)) && CredentialStore.is_pubkey_trusted (hc_credentials cx) pubkey now.

(** ** The decision about the other side *)

Definition verify_remote_auth (cx : HsContext) (proof : option (list Z)) (handshake_hash remote_pubkey : list Z)
    (pinned : option (list Z)) (has_network_secret is_initiator : bool) (remote_network_name : string) (now : Z)
    : result PeerError SecureAuthLevel :=
  if match proof, secret_proof cx handshake_hash with
     | Some p, Some mac => bool_decide (mac = p)
     | _, _ => false
     end then Ok NetworkSecretConfirmed
  else match pinned with
       | Some pinned => if bool_decide (pinned = remote_pubkey) then Ok PeerVerified else Err WaitRespError
       | None =>
         if context_is_pubkey_trusted cx remote_pubkey remote_network_name now then Ok PeerVerified
         else if is_initiator && negb has_network_secret then Ok EncryptedUnauthenticated
         else Err WaitRespError
       end.

Definition classify_remote_identity (cx : HsContext) (remote_network_name : string) (level : SecureAuthLevel)
    (remote_role_hint_is_same_network remote_sent_secret_proof is_client : bool) : PeerIdentityType :=
  if negb remote_role_hint_is_same_network
     || negb (bool_decide (remote_network_name = ni_network_name (hc_network cx))) then
    if is_client then SharedNode else if remote_sent_secret_proof then Admin else Credential
  else if bool_decide (level = NetworkSecretConfirmed) || remote_sent_secret_proof then Admin else Credential.
End context.

(** ** Messages *)

Record HandshakeRequest := {
  hr_magic : Z; hr_my_peer_id : Z; hr_version : Z; hr_features : list string; hr_network_name : string;
  hr_network_secret_digest : list Z }.
Record PeerConnNoiseMsg1Pb := {
  n1_version : Z; n1_a_network_name : string; n1_a_session_generation : option Z; n1_a_conn_id : option Z;
  n1_client_encryption_algorithm : string; n1_features : list string }.
(** [n2_action] is the number of the enum. *)
Record PeerConnNoiseMsg2Pb := {
  n2_b_network_name : string; n2_role_hint : Z; n2_action : Z; n2_b_session_generation : Z;
  n2_root_key_32 : option (list Z); n2_initial_epoch : Z; n2_b_conn_id : option Z; n2_a_conn_id_echo : option Z;
  n2_secret_proof_32 : option (list Z); n2_server_encryption_algorithm : string; n2_features : list string }.
Record PeerConnNoiseMsg3Pb := {
  n3_a_conn_id_echo : option Z; n3_b_conn_id_echo : option Z; n3_secret_proof_32 : option (list Z);
  n3_secret_digest : list Z }.

Class HandshakePb := {
  encode_handshake : HandshakeRequest -> list Z; decode_handshake : list Z -> option HandshakeRequest;
  encode_noise1 : PeerConnNoiseMsg1Pb -> list Z; decode_noise1 : list Z -> option PeerConnNoiseMsg1Pb;
  encode_noise2 : PeerConnNoiseMsg2Pb -> list Z; decode_noise2 : list Z -> option PeerConnNoiseMsg2Pb;
  encode_noise3 : PeerConnNoiseMsg3Pb -> list Z; decode_noise3 : list Z -> option PeerConnNoiseMsg3Pb }.
Class HandshakePbLaws (P : HandshakePb) := {
  decode_encode_handshake : forall m, decode_handshake (encode_handshake m) = Some m;
  decode_encode_noise1 : forall m, decode_noise1 (encode_noise1 m) = Some m;
  decode_encode_noise2 : forall m, decode_noise2 (encode_noise2 m) = Some m;
  decode_encode_noise3 : forall m, decode_noise3 (encode_noise3 m) = Some m }.

(** [snow] with the pattern XX.  A state writes and reads messages in turn;
    writing draws the ephemeral key from the argument. *)
Class NoiseXX := {
  XXState : Type;
  xx_public : list Z -> list Z;
  xx_initiator : list Z -> option XXState; xx_responder : list Z -> option XXState;
  xx_write : XXState -> list Z -> list Z -> option (XXState * list Z);
  xx_read : XXState -> list Z -> option (XXState * list Z);
  xx_hash : XXState -> list Z; xx_remote_static : XXState -> option (list Z) }.

(** What fits into the buffer of 4096 bytes with two keys and their tags. *)
Definition xx_fits (m : list Z) : Prop := len m <= 4000.

(** Texts that fit are written, messages that arrive as they were written are
    read; both sides then have the same hash and know the static key of the
    other. *)
Class NoiseXXLaws (N : NoiseXX) := {
  xx_completes : forall pa pb i0 r0 ea m1, xx_initiator pa = Some i0 -> xx_responder pb = Some r0 -> xx_fits m1 ->
    exists i1 c1 r1, xx_write i0 ea m1 = Some (i1, c1) /\ xx_read r0 c1 = Some (r1, m1) /\ xx_hash r1 = xx_hash i1 /\
    forall eb m2, xx_fits m2 ->
    exists r2 c2 i2, xx_write r1 eb m2 = Some (r2, c2) /\ xx_read i1 c2 = Some (i2, m2) /\ xx_hash i2 = xx_hash r2 /\
    forall ea' m3, xx_fits m3 ->
    exists i3 c3 r3, xx_write i2 ea' m3 = Some (i3, c3) /\ xx_read r2 c3 = Some (r3, m3) /\
      xx_remote_static i3 = Some (xx_public pb) /\ xx_remote_static r3 = Some (xx_public pa) }.

(** ** A connection *)

Record PeerSessionTunnelFilter := {
  sf_enabled : bool; sf_my_peer_id : Z; sf_peer_id : option Z; sf_session : option nat }.
Definition new_with_peer (me : Z) (enabled : bool) : PeerSessionTunnelFilter :=
  {| sf_enabled := enabled; sf_my_peer_id := me; sf_peer_id := None; sf_session := None |}.

Record SecretProof := { sp_challenge : list Z; sp_proof : list Z }.
Record NoiseHandshakeResult := {
  nh_peer_id : Z; nh_session : nat; nh_local_static_pubkey : list Z; nh_remote_static_pubkey : list Z;
  nh_secure_auth_level : SecureAuthLevel; nh_peer_identity_type : PeerIdentityType;
  nh_remote_network_name : string; nh_secret_digest : list Z; nh_client_secret_proof : option SecretProof;
  nh_remote_features : list string }.

(** A [PeerConn] until it is given to a [Peer]. *)
Record Conn := {
  cn_conn_id : Z; cn_origin : PeerConnectionOrigin; cn_my_peer_id : Z; cn_peer_id_hint : option Z;
  cn_context : HsContext; cn_filter : PeerSessionTunnelFilter; cn_liveness : PeerConnLiveness;
  cn_noise : option NoiseHandshakeResult; cn_info : option HandshakeRequest; cn_is_client : option bool;
  cn_is_hole_punched : bool; cn_remote_url : option (list Z) }.

Definition secure_mode_enabled (cx : HsContext) : bool :=
  match hc_secure_mode cx with Some c => sm_enabled c | None => false end.
Definition new_with_peer_id_hint_and_origin (conn_id me : Z) (cx : HsContext) (url : option (list Z))
    (hint : option Z) (origin : PeerConnectionOrigin) : Conn :=
  {| cn_conn_id := conn_id; cn_origin := origin; cn_my_peer_id := me; cn_peer_id_hint := hint; cn_context := cx;
     cn_filter := new_with_peer me (secure_mode_enabled cx); cn_liveness := PeerConnLiveness_new;
     cn_noise := None; cn_info := None; cn_is_client := None; cn_is_hole_punched := true; cn_remote_url := url |}.

Definition with_ends (c : Conn) (me : Z) (F : PeerSessionTunnelFilter) (l : PeerConnLiveness) : Conn :=
  {| cn_conn_id := cn_conn_id c; cn_origin := cn_origin c; cn_my_peer_id := me;
     cn_peer_id_hint := cn_peer_id_hint c; cn_context := cn_context c; cn_filter := F; cn_liveness := l;
     cn_noise := cn_noise c; cn_info := cn_info c; cn_is_client := cn_is_client c;
     cn_is_hole_punched := cn_is_hole_punched c; cn_remote_url := cn_remote_url c |}.
Definition with_result (c : Conn) (n : option NoiseHandshakeResult) (i : HandshakeRequest) (client : bool) : Conn :=
  {| cn_conn_id := cn_conn_id c; cn_origin := cn_origin c; cn_my_peer_id := cn_my_peer_id c;
     cn_peer_id_hint := cn_peer_id_hint c; cn_context := cn_context c; cn_filter := cn_filter c;
     cn_liveness := cn_liveness c; cn_noise := n; cn_info := Some i; cn_is_client := Some client;
     cn_is_hole_punched := cn_is_hole_punched c; cn_remote_url := cn_remote_url c |}.
Definition set_is_hole_punched (c : Conn) (b : bool) : Conn :=
  {| cn_conn_id := cn_conn_id c; cn_origin := cn_origin c; cn_my_peer_id := cn_my_peer_id c;
     cn_peer_id_hint := cn_peer_id_hint c; cn_context := cn_context c; cn_filter := cn_filter c;
     cn_liveness := cn_liveness c; cn_noise := cn_noise c; cn_info := cn_info c; cn_is_client := cn_is_client c;
     cn_is_hole_punched := b; cn_remote_url := cn_remote_url c |}.

(** The errors of the configuration are not told apart. *)
Definition get_keypair (cx : HsContext) : option (list Z * list Z) :=
  c ← hc_secure_mode cx; priv ← sm_private_key c; pub ← sm_public_key c; Some (priv, pub).

(** What is received: a packet or an error of the tunnel. *)
Abbreviation StreamItem := (result unit ZCPacket).

(** A connection in its handshake: the sessions of the node, what arrives and
    what was sent, the peer ids that are reserved for foreign networks and the
    name that this handshake reserved one for. *)
Record HsWorld := {
  hw_store : PeerSessionStore; hw_conn : Conn; hw_in : list StreamItem; hw_out : list ZCPacket;
  hw_reserved : gmap string Z; hw_reserved_name : option string }.
Definition put_conn (W : HsWorld) (c : Conn) : HsWorld :=
  {| hw_store := hw_store W; hw_conn := c; hw_in := hw_in W; hw_out := hw_out W;
     hw_reserved := hw_reserved W; hw_reserved_name := hw_reserved_name W |}.
Definition put_store (W : HsWorld) (st : PeerSessionStore) : HsWorld :=
  {| hw_store := st; hw_conn := hw_conn W; hw_in := hw_in W; hw_out := hw_out W;
     hw_reserved := hw_reserved W; hw_reserved_name := hw_reserved_name W |}.
Definition put_in (W : HsWorld) (l : list StreamItem) : HsWorld :=
  {| hw_store := hw_store W; hw_conn := hw_conn W; hw_in := l; hw_out := hw_out W;
     hw_reserved := hw_reserved W; hw_reserved_name := hw_reserved_name W |}.
Definition push_out (W : HsWorld) (p : ZCPacket) : HsWorld :=
  {| hw_store := hw_store W; hw_conn := hw_conn W; hw_in := hw_in W; hw_out := hw_out W ++ [p];
     hw_reserved := hw_reserved W; hw_reserved_name := hw_reserved_name W |}.
Definition put_reserved (W : HsWorld) (m : gmap string Z) (name : option string) : HsWorld :=
  {| hw_store := hw_store W; hw_conn := hw_conn W; hw_in := hw_in W; hw_out := hw_out W;
     hw_reserved := m; hw_reserved_name := name |}.
Abbreviation hs := (act HsWorld).
Definition on_session_store {A} (g : PeerSessionStore -> comp (PeerSessionStore * A)) : hs A := fun W =>
  '(st, a) ← g (hw_store W); Ret (put_store W st, a).

(** The clocks, fresh randomness, memory, and whether the tunnel takes a packet. *)
Record HsEnv := {
  he_now : Z; he_now_ms : Z; he_now_unix : Z; he_uninit : nat -> Z; he_rng : list Z; he_uuid : Z;
  he_fresh_key : list Z; he_ephemeral : list Z; he_sink_ok : bool }.

Section operations.
Context {T : Target} {H : HmacLib} {L : CryptoLib} (f : Features).
Context {O : HashOrder} {tl : TrustLib} {cl : CredLib} {dl : DigestLib} {N : NoiseXX} {Pb : HandshakePb}.
Implicit Types (env : HsEnv).

(** ** The filter of a connection *)

Definition should_skip_encrypt (h : PeerManagerHeader) : bool :=
  one_of (pm_packet_type h)
    [NoiseHandshakeMsg1; NoiseHandshakeMsg2; NoiseHandshakeMsg3; RelayHandshake; RelayHandshakeAck; Ping; Headers.Pong].

Definition before_send (F : PeerSessionTunnelFilter) (env : HsEnv) (st : PeerSessionStore) (p : ZCPacket)
    : comp (PeerSessionStore * option ZCPacket) :=
  if negb (sf_enabled F) then Ret (st, Some p) else
  match peer_manager_header p with
  | None => Ret (st, Some p)
  | Some h =>
    if should_skip_encrypt h then Ret (st, Some p) else
    match sf_peer_id F with
    | None => Ret (st, Some p)
    | Some peer =>
      if negb (sf_my_peer_id F =? from_peer_id h) || negb (to_peer_id h =? peer) then Ret (st, Some p) else
      match sf_session F with
      | None => Ret (st, Some p)
      | Some a =>
        s ← deref st a;
        '(s, p, r) ← PeerSession_encrypt_payload f s (sf_my_peer_id F) peer (he_rng env) p (he_now_ms env);
        Ret (put_session st a s, match r with Ok _ => Some p | Err _ => None end)
      end
    end
  end.

(** An error closes the connection. *)
Definition after_received (F : PeerSessionTunnelFilter) (env : HsEnv) (st : PeerSessionStore) (item : StreamItem)
    : comp (PeerSessionStore * option StreamItem) :=
  if negb (sf_enabled F) then Ret (st, Some item) else
  match item with
  | Err e => Ret (st, Some (Err e))
  | Ok p =>
    match peer_manager_header p with
    | None => Ret (st, Some (Ok p))
    | Some h =>
      if should_skip_encrypt h then Ret (st, Some (Ok p)) else
      if from_peer_id h =? 0 then Ret (st, Some (Ok p)) else
      match sf_peer_id F, sf_session F with
      | Some peer, Some a =>
        if negb (from_peer_id h =? peer) then Ret (st, Some (Ok p)) else
        if negb (to_peer_id h =? sf_my_peer_id F) then Ret (st, Some (Ok p)) else
        s ← deref st a;
        '(s, p, r) ← PeerSession_decrypt_payload f s (from_peer_id h) (sf_my_peer_id F) p (he_now_ms env);
        let st := put_session st a s in
        match r with
        | Ok _ => Ret (st, Some (Ok p))
        | Err _ => Ret (st, if negb (PeerSession_is_valid s) then Some (Err tt) else None)
        end
      | _, _ => Ret (st, Some (Ok p))
      end
    end
  end.

(** The chain: sealing, then the liveness marker; the reverse on receiving.
    The counters between them are left out. *)
Definition sink_send (env : HsEnv) (p : ZCPacket) : hs (result PeerError unit) := fun W =>
  if negb (he_sink_ok env) then Ret (W, Err TunnelFailed) else
  '(st, o) ← before_send (cn_filter (hw_conn W)) env (hw_store W) p;
  let W := put_store W st in
  match o with
  | None => Ret (W, Ok tt)
  | Some p =>
    let c := hw_conn W in
    let '(l, p) := liveness_before_send (cn_liveness c) p in
    Ret (push_out (put_conn W (with_ends c (cn_my_peer_id c) (cn_filter c) l)) p, Ok tt)
  end.

Definition filter_received (env : HsEnv) (item : StreamItem) : hs (option StreamItem) := fun W =>
  let c := hw_conn W in
  let '(l, item) := match item with
                    | Ok p => let '(l, p) := liveness_after_received (cn_liveness c) p in (l, Ok p)
                    | Err e => (cn_liveness c, Err e)
                    end in
  let W := put_conn W (with_ends c (cn_my_peer_id c) (cn_filter c) l) in
  '(st, o) ← after_received (cn_filter c) env (hw_store W) item;
  Ret (put_store W st, o).

(** A loop over what is received, until a packet is accepted.  When nothing is
    left, the tunnel was closed or the time is over. *)
Fixpoint recv_items {A} (env : HsEnv) (accept : ZCPacket -> comp (option A)) (l : list StreamItem)
    : hs (result PeerError A) :=
  match l with
  | [] => modify (fun W => put_in W []) ;; mret (Err WaitRespError)
  | item :: l =>
    o ← filter_received env item;
    match o with
    | None => recv_items env accept l
    | Some (Err _) => modify (fun W => put_in W l) ;; mret (Err WaitRespError)
    | Some (Ok p) =>
      a ← lift (accept p);
      match a with
      | Some a => modify (fun W => put_in W l) ;; mret (Ok a)
      | None => recv_items env accept l
      end
    end
  end.
Definition recv_until {A} (env : HsEnv) (accept : ZCPacket -> comp (option A)) : hs (result PeerError A) :=
  l ← gets hw_in; recv_items env accept l.

Definition recv_next_peer_manager_packet (env : HsEnv) (expected : option PacketType) : hs (result PeerError ZCPacket) :=
  recv_until env (fun p => Ret match peer_manager_header p with
    | None => None
    | Some h => match expected with
                | None => Some p
                | Some t => if pm_packet_type h =? PacketType_as_u8 t then Some p else None
                end
    end).

(** ** The handshake without secure mode *)

Definition MAGIC : Z := 3521226209.
Definition VERSION : Z := 1.

Definition decode_handshake_packet (p : ZCPacket) : comp (option HandshakeRequest) :=
  pl ← handshake_payload HandShake p;
  Ret (pl ← pl; r ← decode_handshake pl;
       if (length (hr_network_secret_digest r) =? 32)%nat then Some r else None).
Definition wait_handshake_loop (env : HsEnv) : hs (result PeerError HandshakeRequest) :=
  recv_until env decode_handshake_packet.

Definition send_handshake (env : HsEnv) (send_secret_digest : bool) : hs (result PeerError unit) :=
  c ← gets hw_conn;
  let network := hc_network (cn_context c) in
  let req := {| hr_magic := MAGIC; hr_my_peer_id := cn_my_peer_id c; hr_version := VERSION;
                hr_features := [FEATURE]; hr_network_name := ni_network_name network;
                hr_network_secret_digest :=
                  if send_secret_digest then default (replicate 32 0) (identity_secret_digest network)
                  else replicate 32 0 |} in
  p ← lift (p ← new_with_payload (he_uninit env) (encode_handshake req);
            fill_peer_manager_hdr p (cn_my_peer_id c) 0 (PacketType_as_u8 HandShake));
  r ← sink_send env p;
  mret match r with Ok _ => Ok tt | Err _ => Err WaitRespError end.

(** ** The Noise handshake *)

(** [decode_b64_32]. *)
Definition decode_b64_32 (s : list Z) : option (list Z) := k ← b64_decode s; key32 k.

Definition send_noise_msg (env : HsEnv) (pl : list Z) (t : PacketType) (remote : Z) (x : XXState)
    : hs (result PeerError XXState) :=
  match xx_write x (he_ephemeral env) pl with
  | None => mret (Err WaitRespError)
  | Some (x, msg) =>
    me ← gets (fun W => cn_my_peer_id (hw_conn W));
    p ← lift (p ← new_with_payload (he_uninit env) msg; fill_peer_manager_hdr p me remote (PacketType_as_u8 t));
    r ← sink_send env p;
    mret match r with Ok _ => Ok x | Err e => Err e end
  end.

(** [decode_handshake_message] with a Noise state. *)
Definition decode_noise_message {M} (t : PacketType) (decode : list Z -> option M) (x : XXState) (p : ZCPacket)
    : comp (option (XXState * M)) :=
  pl ← handshake_payload t p;
  Ret (pl ← pl; '(x, m) ← xx_read x pl; m ← decode m; Some (x, m)).

(** What the client keeps while it waits for the second message. *)
Record NoiseClient := {
  nc_state : XXState; nc_pinned : option (list Z); nc_conn_id : Z; nc_local_static_pubkey : list Z;
  nc_server_handshake_hash : list Z }.

Definition noise_client_begin (env : HsEnv) : hs (result PeerError NoiseClient) :=
  c ← gets hw_conn;
  let cx := cn_context c in
  let name := ni_network_name (hc_network cx) in
  match match hc_pinned cx with None => Some None | Some s => Some <$> decode_b64_32 s end, get_keypair cx with
  | Some pinned, Some (priv, pub) =>
    found ← match cn_peer_id_hint c with
            | None => mret None
            | Some id => on_session_store (fun st => store_get st (name, id) (he_now env))
            end;
    generation ← gets (fun W => a ← found; ps_generation <$> heap (hw_store W) !! a);
    let msg1 := {| n1_version := VERSION; n1_a_network_name := name; n1_a_session_generation := generation;
                   n1_a_conn_id := Some (he_uuid env);
                   n1_client_encryption_algorithm := hc_encryption_algorithm cx; n1_features := [FEATURE] |} in
    match xx_initiator priv with
    | None => mret (Err WaitRespError)
    | Some x =>
      r ← send_noise_msg env (encode_noise1 msg1) NoiseHandshakeMsg1 0 x;
      mret match r with
           | Err e => Err e
           | Ok x => Ok {| nc_state := x; nc_pinned := pinned; nc_conn_id := he_uuid env;
                           nc_local_static_pubkey := pub; nc_server_handshake_hash := xx_hash x |}
           end
    end
  | _, _ => mret (Err WaitRespError)
  end.

Definition noise_client_finish (env : HsEnv) (nc : NoiseClient) (msg2 : ZCPacket)
    : hs (result PeerError NoiseHandshakeResult) :=
  c ← gets hw_conn;
  let cx := cn_context c in
  let name := ni_network_name (hc_network cx) in
  remote ← lift (unwrap (get_src_peer_id msg2));
  if match cn_peer_id_hint c with Some hint => negb (hint =? remote) | None => false end
  then mret (Err WaitRespError) else
  m ← lift (decode_noise_message NoiseHandshakeMsg2 decode_noise2 (nc_state nc) msg2);
  match m with
  | None => mret (Err WaitRespError)
  | Some (x, m2) =>
    if negb (bool_decide (n2_a_conn_id_echo m2 = Some (nc_conn_id nc))) then mret (Err WaitRespError) else
    match action_try_from (n2_action m2) with
    | None => mret (Err WaitRespError)
    | Some action =>
      let remote_name := n2_b_network_name m2 in
      if bool_decide (remote_name = name) && negb (n2_role_hint m2 =? 1) then mret (Err WaitRespError) else
      let digest := context_secret_digest cx in
      let msg3 := {| n3_a_conn_id_echo := Some (nc_conn_id nc); n3_b_conn_id_echo := n2_b_conn_id m2;
                     n3_secret_proof_32 := secret_proof cx (xx_hash x); n3_secret_digest := digest |} in
      r ← send_noise_msg env (encode_noise3 msg3) NoiseHandshakeMsg3 remote x;
      match r with
      | Err e => mret (Err e)
      | Ok x =>
        let remote_static := default [] (xx_remote_static x) in
        match (if negb (n2_role_hint m2 =? 1) && match nc_pinned nc with None => true | Some _ => false end
               then Ok EncryptedUnauthenticated
               else verify_remote_auth cx (n2_secret_proof_32 m2) (nc_server_handshake_hash nc) remote_static
                      (nc_pinned nc) (bool_decide (is_Some (ni_network_secret (hc_network cx)))) true remote_name
                      (he_now_unix env)) with
        | Err e => mret (Err e)
        | Ok level =>
          let identity := classify_remote_identity cx remote_name level (n2_role_hint m2 =? 1)
                            (bool_decide (is_Some (n2_secret_proof_32 m2))) true in
          s ← on_session_store (fun st => apply_initiator_action st (name, remote) action (n2_b_session_generation m2)
                (k ← n2_root_key_32 m2; key32 k) (n2_initial_epoch m2) (hc_encryption_algorithm cx)
                (n2_server_encryption_algorithm m2) (key32 remote_static) (he_now env) (he_now_ms env));
          mret match s with
               | Err _ => Err Other
               | Ok a => Ok {| nh_peer_id := remote; nh_session := a;
                               nh_local_static_pubkey := nc_local_static_pubkey nc;
                               nh_remote_static_pubkey := remote_static; nh_secure_auth_level := level;
                               nh_peer_identity_type := identity; nh_remote_network_name := remote_name;
                               nh_secret_digest := digest; nh_client_secret_proof := None;
                               nh_remote_features := n2_features m2 |}
               end
        end
      end
    end
  end.

Definition do_noise_handshake_as_client (env env2 : HsEnv) : hs (result PeerError NoiseHandshakeResult) :=
  nc ← noise_client_begin env;
  match nc with
  | Err e => mret (Err e)
  | Ok nc =>
    p ← recv_next_peer_manager_packet env2 (Some NoiseHandshakeMsg2);
    match p with
    | Err e => mret (Err e)
    | Ok p => noise_client_finish env2 nc p
    end
  end.

(** What the server keeps while it waits for the third message. *)
Record NoiseServer := {
  ns_state : XXState; ns_peer_id : Z; ns_msg1 : PeerConnNoiseMsg1Pb; ns_role_hint : Z; ns_session : nat;
  ns_conn_id : Z; ns_local_static_pubkey : list Z; ns_handshake_hash : list Z }.

(** [recved] is the callback on the name of the network; it may change the own
    peer id. *)
Definition noise_server_begin (env : HsEnv) (first : ZCPacket) (recved : string -> hs (result PeerError unit))
    : hs (result PeerError NoiseServer) :=
  cx ← gets (fun W => cn_context (hw_conn W));
  match (k ← get_keypair cx; x ← xx_responder k.1; Some (k.2, x)) with
  | None => mret (Err WaitRespError)
  | Some (pub, x) =>
    remote ← lift (unwrap (get_src_peer_id first));
    m ← lift (decode_noise_message NoiseHandshakeMsg1 decode_noise1 x first);
    match m with
    | None => mret (Err WaitRespError)
    | Some (x, m1) =>
      let remote_name := n1_a_network_name m1 in
      r ← recved remote_name;
      match r with
      | Err e => mret (Err e)
      | Ok _ =>
        let server_name := ni_network_name (hc_network cx) in
        let same := bool_decide (remote_name = server_name) in
        let role_hint := if same then 1 else 2 in
        let proof := if same then secret_proof cx (xx_hash x) else None in
        let algo := hc_encryption_algorithm cx in
        u ← on_session_store (fun st => upsert_responder_session st (remote_name, remote)
              (n1_a_session_generation m1) algo (n1_client_encryption_algorithm m1) None (he_fresh_key env)
              (he_now env) (he_now_ms env));
        match u with
        | Err _ => mret (Err Other)
        | Ok u =>
          let msg2 := {| n2_b_network_name := server_name; n2_role_hint := role_hint;
                         n2_action := action_i32 (u_action u); n2_b_session_generation := u_generation u;
                         n2_root_key_32 := u_root_key u; n2_initial_epoch := u_initial_epoch u;
                         n2_b_conn_id := Some (he_uuid env); n2_a_conn_id_echo := n1_a_conn_id m1;
                         n2_secret_proof_32 := proof; n2_server_encryption_algorithm := algo;
                         n2_features := [FEATURE] |} in
          r ← send_noise_msg env (encode_noise2 msg2) NoiseHandshakeMsg2 remote x;
          mret match r with
               | Err e => Err e
               | Ok x => Ok {| ns_state := x; ns_peer_id := remote; ns_msg1 := m1; ns_role_hint := role_hint;
                               ns_session := u_session u; ns_conn_id := he_uuid env;
                               ns_local_static_pubkey := pub; ns_handshake_hash := xx_hash x |}
               end
        end
      end
    end
  end.

Definition noise_server_finish (env : HsEnv) (ns : NoiseServer) (msg3 : ZCPacket)
    : hs (result PeerError NoiseHandshakeResult) :=
  cx ← gets (fun W => cn_context (hw_conn W));
  m ← lift (decode_noise_message NoiseHandshakeMsg3 decode_noise3 (ns_state ns) msg3);
  match m with
  | None => mret (Err WaitRespError)
  | Some (x, m3) =>
    if negb (bool_decide (n3_a_conn_id_echo m3 = n1_a_conn_id (ns_msg1 ns))) then mret (Err WaitRespError) else
    if negb (bool_decide (n3_b_conn_id_echo m3 = Some (ns_conn_id ns))) then mret (Err WaitRespError) else
    let remote_static := default [] (xx_remote_static x) in
    ok ← on_session_store (fun st =>
      s ← deref st (ns_session ns);
      let '(s, r) := check_or_set_peer_static_pubkey s (key32 remote_static) in
      Ret (put_session st (ns_session ns) s, r));
    match ok with
    | Err _ => mret (Err Other)
    | Ok _ =>
      let remote_name := n1_a_network_name (ns_msg1 ns) in
      match (if ns_role_hint ns =? 1
             then verify_remote_auth cx (n3_secret_proof_32 m3) (ns_handshake_hash ns) remote_static None
                    (bool_decide (is_Some (ni_network_secret (hc_network cx)))) false remote_name (he_now_unix env)
             else Ok EncryptedUnauthenticated) with
      | Err e => mret (Err e)
      | Ok level =>
        mret (Ok {| nh_peer_id := ns_peer_id ns; nh_session := ns_session ns;
                    nh_local_static_pubkey := ns_local_static_pubkey ns; nh_remote_static_pubkey := remote_static;
                    nh_secure_auth_level := level;
                    nh_peer_identity_type :=
                      classify_remote_identity cx remote_name level (ns_role_hint ns =? 1)
                        (bool_decide (is_Some (n3_secret_proof_32 m3))) false;
                    nh_remote_network_name := remote_name; nh_secret_digest := n3_secret_digest m3;
                    nh_client_secret_proof :=
                      (fun p => {| sp_challenge := ns_handshake_hash ns; sp_proof := p |}) <$> n3_secret_proof_32 m3;
                    nh_remote_features := n1_features (ns_msg1 ns) |})
      end
    end
  end.

Definition do_noise_handshake_as_server (env env2 : HsEnv) (first : ZCPacket)
    (recved : string -> hs (result PeerError unit)) : hs (result PeerError NoiseHandshakeResult) :=
  ns ← noise_server_begin env first recved;
  match ns with
  | Err e => mret (Err e)
  | Ok ns =>
    p ← recv_next_peer_manager_packet env2 (Some NoiseHandshakeMsg3);
    match p with
    | Err e => mret (Err e)
    | Ok p => noise_server_finish env2 ns p
    end
  end.

(** ** The whole handshake *)

Definition build_handshake_rsp (n : NoiseHandshakeResult) : HandshakeRequest :=
  {| hr_magic := MAGIC; hr_my_peer_id := nh_peer_id n; hr_version := VERSION;
     hr_features := nh_remote_features n; hr_network_name := nh_remote_network_name n;
     hr_network_secret_digest := nh_secret_digest n |}.

(** [copy_from_slice] panics unless the digest has 32 bytes. *)
Definition conn_peer_id (c : Conn) : comp Z := i ← unwrap (cn_info c); Ret (hr_my_peer_id i).
Definition get_network_identity (c : Conn) : comp NetworkIdentity :=
  i ← unwrap (cn_info c);
  if (length (hr_network_secret_digest i) =? 32)%nat then
    Ret {| ni_network_name := hr_network_name i; ni_network_secret := None;
           ni_network_secret_digest := Some (hr_network_secret_digest i) |}
  else Panic.

Definition note_noise (n : NoiseHandshakeResult) (client : bool) (W : HsWorld) : HsWorld :=
  let c := hw_conn W in
  let F := {| sf_enabled := sf_enabled (cn_filter c); sf_my_peer_id := sf_my_peer_id (cn_filter c);
              sf_peer_id := Some (nh_peer_id n); sf_session := Some (nh_session n) |} in
  put_conn W (with_result (with_ends c (cn_my_peer_id c) F (cn_liveness c)) (Some n) (build_handshake_rsp n) client).

(** The last steps of both sides. *)
Definition handshake_done : hs (result PeerError unit) :=
  c ← gets hw_conn;
  i ← lift (unwrap (cn_info c));
  modify (fun W => put_conn W (with_ends c (cn_my_peer_id c) (cn_filter c)
                                 (set_remote_features (cn_liveness c) (hr_features i)))) ;;
  mret (if hr_my_peer_id i =? cn_my_peer_id c then Err WaitRespError else Ok tt).

Definition do_handshake_as_server_ext (env env2 : HsEnv) (recved : string -> hs (result PeerError unit))
    : hs (result PeerError unit) :=
  first ← recv_next_peer_manager_packet env None;
  match first with
  | Err e => mret (Err e)
  | Ok first =>
    cx ← gets (fun W => cn_context (hw_conn W));
    match peer_manager_header first with
    | None => mret (Err WaitRespError)
    | Some h =>
      if secure_mode_enabled cx && (pm_packet_type h =? PacketType_as_u8 NoiseHandshakeMsg1) then
        n ← do_noise_handshake_as_server env env2 first recved;
        match n with
        | Err e => mret (Err e)
        | Ok n => modify (note_noise n false) ;; handshake_done
        end
      else if pm_packet_type h =? PacketType_as_u8 HandShake then
        r ← lift (decode_handshake_packet first);
        match r with
        | None => mret (Err WaitRespError)
        | Some req =>
          ok ← recved (hr_network_name req);
          match ok with
          | Err e => mret (Err e)
          | Ok _ =>
            modify (fun W => put_conn W (with_result (hw_conn W) (cn_noise (hw_conn W)) req false)) ;;
            c ← gets hw_conn;
            peer ← lift (get_network_identity c);
            sent ← send_handshake env (identity_eqb peer (hc_network cx));
            match sent with Err e => mret (Err e) | Ok _ => handshake_done end
          end
        end
      else mret (Err WaitRespError)
    end
  end.

Definition do_handshake_as_client (env env2 : HsEnv) : hs (result PeerError unit) :=
  cx ← gets (fun W => cn_context (hw_conn W));
  if secure_mode_enabled cx then
    n ← do_noise_handshake_as_client env env2;
    match n with
    | Err e => mret (Err e)
    | Ok n => modify (note_noise n true) ;; handshake_done
    end
  else
    sent ← send_handshake env true;
    match sent with
    | Err e => mret (Err e)
    | Ok _ =>
      r ← wait_handshake_loop env2;
      match r with
      | Err e => mret (Err e)
      | Ok req =>
        modify (fun W => put_conn W (with_result (hw_conn W) (cn_noise (hw_conn W)) req true)) ;;
        handshake_done
      end
    end.

(** ** Admission *)

Definition get_peer_identity_type (c : Conn) : PeerIdentityType :=
  match cn_noise c with Some n => nh_peer_identity_type n | None => Admin end.
Definition remote_static_pubkey (c : Conn) : list Z :=
  match cn_noise c with Some n => nh_remote_static_pubkey n | None => [] end.
(** The connection as [Peer] sees it. *)
Definition as_peer_conn (c : Conn) : comp PeerConn :=
  id ← conn_peer_id c;
  Ret {| pc_conn_id := cn_conn_id c; pc_peer_id := id; pc_identity_type := get_peer_identity_type c;
         pc_noise_remote_static_pubkey := remote_static_pubkey c; pc_is_hole_punched := cn_is_hole_punched c;
         pc_origin := cn_origin c; pc_is_client := default false (cn_is_client c);
         pc_remote_url := cn_remote_url c |}.

Definition set_peer_id (c : Conn) (id : Z) : comp Conn :=
  match cn_info c with
  | Some _ => Panic
  | None => let F := cn_filter c in
            Ret (with_ends c id {| sf_enabled := sf_enabled F; sf_my_peer_id := id; sf_peer_id := sf_peer_id F;
                                   sf_session := sf_session F |} (cn_liveness c))
  end.

Definition network_secret_digest_is_empty (i : NetworkIdentity) : bool :=
  match ni_network_secret_digest i with Some d => zero_digest d | None => true end.
Definition conn_digest_is_empty (i : NetworkIdentity) : bool :=
  match identity_secret_digest i with Some d => zero_digest d | None => true end.

Definition matches_local_secret_proof (c : Conn) : bool :=
  match (n ← cn_noise c; nh_client_secret_proof n) with
  | None => false
  | Some p => match secret_proof (cn_context c) (sp_challenge p) with
              | Some mac => bool_decide (mac = sp_proof p)
              | None => false
              end
  end.
Definition matches_local_network_secret (c : Conn) : comp bool :=
  if matches_local_secret_proof c then Ret true else
  let mine := hc_network (cn_context c) in
  peer ← get_network_identity c;
  Ret (negb (conn_digest_is_empty mine) && negb (conn_digest_is_empty peer)
       && bool_decide (identity_secret_digest mine = identity_secret_digest peer)).

(** [add_new_peer_conn] of the peer manager. *)
Definition admit_peer_conn (M : PeerMap) (local : NetworkIdentity) (local_secure_mode : bool) (c : Conn)
    : comp (PeerMap * result PeerError Z) :=
  peer ← get_network_identity c;
  let peer_secure_mode := negb (bool_decide (remote_static_pubkey c = [])) in
  if negb (Bool.eqb local_secure_mode peer_secure_mode) then Ret (M, Err SecretKeyError) else
  let identity_ok :=
    if network_secret_digest_is_empty local || network_secret_digest_is_empty peer
    then bool_decide (ni_network_name local = ni_network_name peer) else identity_eqb local peer in
  if negb identity_ok then Ret (M, Err SecretKeyError) else
  pc ← as_peer_conn c;
  let '(M, r) := add_new_peer_conn M pc in
  Ret (M, match r with Ok _ => Ok (pc_peer_id pc) | Err e => Err e end).

(** The id of this node in a foreign network, and whether a credential is
    trusted there, are known to the foreign network manager. *)
Record ForeignNetwork := { fo_my_peer_id : Z; fo_trusted : list Z -> bool }.
Record Admission := {
  ad_my_peer_id : Z; ad_context : HsContext; ad_private_mode : bool; ad_peers : PeerMap;
  ad_foreign_client : PeerMap; ad_recent : RecentTraffic; ad_store : PeerSessionStore;
  ad_reserved : gmap string Z; ad_foreign : gmap string ForeignNetwork }.
Definition with_admitted (A : Admission) (M F : PeerMap) (r : RecentTraffic) (st : PeerSessionStore)
    (reserved : gmap string Z) : Admission :=
  {| ad_my_peer_id := ad_my_peer_id A; ad_context := ad_context A; ad_private_mode := ad_private_mode A;
     ad_peers := M; ad_foreign_client := F; ad_recent := r; ad_store := st; ad_reserved := reserved;
     ad_foreign := ad_foreign A |}.
(** Where a connection ends. *)
Inductive Placement := InNetwork (peer_id conn_id : Z) | InForeignClient (peer_id conn_id : Z) | ToForeignManager (c : Conn).

Definition add_client_tunnel_with_origin (env env2 : HsEnv) (A : Admission) (conn_id : Z) (url : option (list Z))
    (is_directly_connected : bool) (hint : option Z) (origin : PeerConnectionOrigin) (arriving : list StreamItem)
    : comp (Admission * list ZCPacket * result PeerError Placement) :=
  let cx := ad_context A in
  let c := set_is_hole_punched (new_with_peer_id_hint_and_origin conn_id (ad_my_peer_id A) cx url hint origin)
             (negb is_directly_connected) in
  '(W, r) ← do_handshake_as_client env env2
    {| hw_store := ad_store A; hw_conn := c; hw_in := arriving; hw_out := []; hw_reserved := ad_reserved A;
       hw_reserved_name := None |};
  let c := hw_conn W in
  let keep M F rt := with_admitted A M F rt (hw_store W) (hw_reserved W) in
  let A1 := keep (ad_peers A) (ad_foreign_client A) (ad_recent A) in
  match r with
  | Err e => Ret (A1, hw_out W, Err e)
  | Ok _ =>
    peer_id ← conn_peer_id c;
    peer ← get_network_identity c;
    let local := hc_network cx in
    let is_local := bool_decide (ni_network_name peer = ni_network_name local) in
    if bool_decide (origin = Attached) && negb is_local then Ret (A1, hw_out W, Err SecretKeyError) else
    if is_local then
      '(M, r) ← admit_peer_conn (ad_peers A) local (secure_mode_enabled cx) c;
      match r with
      | Err e => Ret (keep M (ad_foreign_client A) (ad_recent A), hw_out W, Err e)
      | Ok id => Ret (keep M (ad_foreign_client A) (recent_clear (ad_recent A) id), hw_out W,
                      Ok (InNetwork peer_id (cn_conn_id c)))
      end
    else
      pc ← as_peer_conn c;
      let '(F, r) := add_new_peer_conn (ad_foreign_client A) pc in
      Ret (keep (ad_peers A) F (ad_recent A), hw_out W,
           match r with Ok _ => Ok (InForeignClient peer_id (cn_conn_id c)) | Err e => Err e end)
  end.

(** The callback of [add_tunnel_as_server_with_origin]; [random_id] is what
    [random_peer_id] draws. *)
Definition handshake_recved (A : Admission) (random_id : Z) (name : string) : hs (result PeerError unit) := fun W =>
  if bool_decide (name = ni_network_name (hc_network (ad_context A))) then Ret (W, Ok tt) else
  let '(W, id) :=
    match ad_foreign A !! name with
    | Some n => (W, fo_my_peer_id n)
    | None => let id := default random_id (hw_reserved W !! name) in
              (put_reserved W (<[name := id]> (hw_reserved W)) (Some name), id)
    end in
  c ← set_peer_id (hw_conn W) id;
  Ret (put_conn W c, Ok tt).

(** [from_own_network] says whether the remote address is one of the virtual
    network, in which case the tunnel is refused. *)
Definition add_tunnel_as_server_with_origin (env env2 : HsEnv) (A : Admission) (conn_id random_id : Z)
    (url : option (list Z)) (from_own_network is_directly_connected : bool) (origin : PeerConnectionOrigin)
    (arriving : list StreamItem) : comp (Admission * list ZCPacket * result PeerError Placement) :=
  if from_own_network then Ret (A, [], Err Other) else
  let cx := ad_context A in
  '(W, r) ← do_handshake_as_server_ext env env2 (handshake_recved A random_id)
    {| hw_store := ad_store A;
       hw_conn := new_with_peer_id_hint_and_origin conn_id (ad_my_peer_id A) cx url None origin;
       hw_in := arriving; hw_out := []; hw_reserved := ad_reserved A; hw_reserved_name := None |};
  let c := hw_conn W in
  let keep M rt reserved := with_admitted A M (ad_foreign_client A) rt (hw_store W) reserved in
  match r with
  | Err e =>
    let reserved := match hw_reserved_name W with
                    | Some name => delete name (hw_reserved W)
                    | None => hw_reserved W
                    end in
    Ret (keep (ad_peers A) (ad_recent A) reserved, hw_out W, Err e)
  | Ok _ =>
    peer ← get_network_identity c;
    let name := ni_network_name peer in
    let local := hc_network cx in
    let is_local := bool_decide (name = ni_network_name local) in
    let reserved := delete name (hw_reserved W) in
    let A1 := keep (ad_peers A) (ad_recent A) reserved in
    if bool_decide (origin = Attached) && negb is_local then Ret (A1, hw_out W, Err SecretKeyError) else
    peer_id ← conn_peer_id c;
    let trusted_foreign_credential :=
      bool_decide (get_peer_identity_type c = Credential) &&
      match ad_foreign A !! name with Some n => fo_trusted n (remote_static_pubkey c) | None => false end in
    matches ← matches_local_network_secret c;
    if negb is_local && ad_private_mode A && negb (matches || trusted_foreign_credential)
    then Ret (A1, hw_out W, Err SecretKeyError) else
    let c := set_is_hole_punched c (negb is_directly_connected) in
    if is_local then
      '(M, r) ← admit_peer_conn (ad_peers A) local (secure_mode_enabled cx) c;
      match r with
      | Err e => Ret (keep M (ad_recent A) reserved, hw_out W, Err e)
      | Ok id => Ret (keep M (recent_clear (ad_recent A) id) reserved, hw_out W, Ok (InNetwork peer_id (cn_conn_id c)))
      end
    else Ret (A1, hw_out W, Ok (ToForeignManager c))
  end.

(** The peers whose credential is no longer trusted lose their connections. *)
Definition close_untrusted_credential_peers (M : PeerMap) (trusted : list Z -> bool) : PeerMap :=
  foldl (fun M id =>
    match pm_peers M !! id with
    | Some P => match peer_identity_type P, peer_public_key P with
                | Some Credential, Some k => if trusted k then M else close_peer M id
                | _, _ => M
                end
    | None => M
    end) M (list_peers M).
End operations.
