(* ===== verification/HandshakeProofs.v ===== *)
(** Theorems on the handshake of a direct connection and on admission
    ([peers/conn/peer_conn.rs], [peers/peer_manager.rs]): who is admitted to
    the network, and what a client can do before it is. *)
From stdpp Require Import list gmap strings.
From S2P Require Import CredentialStoreProofs Prelude Headers Packet Encrypt Compressor ReplayWindow SecureDatagram.
From S2P Require Import RouteMessages SyncedRoute CredentialStore RouteSync RouteTable PeerConns PeerConnsProofs RelayPeerMap PacketRouter.
From S2P Require Import PacketRouterProofs RelayProofs ConnLiveness PeerSession PeerHandshake.
Local Open Scope Z_scope.

Lemma act_bind_inv {S A B} (m : act S A) (k : A -> act S B) s s2 b : (m ≫= k) s = Ret (s2, b) ->
  exists s1 a, m s = Ret (s1, a) /\ k a s1 = Ret (s2, b).
Proof. unfold mbind, act_bind. destruct (m s) as [[s1 a]|]; [|done]. by exists s1, a. Qed.
Lemma comp_bind_inv {A B} (m : comp A) (k : A -> comp B) b : (m ≫= k) = Ret b ->
  exists a, m = Ret a /\ k a = Ret b.
Proof. unfold mbind, comp_bind. destruct m as [a|]; [|done]. by exists a. Qed.
Lemma lift_inv {S A} (m : comp A) (s s2 : S) a : lift m s = Ret (s2, a) -> m = Ret a /\ s2 = s.
Proof. unfold lift. intros (x & -> & [= <- <-])%comp_bind_inv. done. Qed.

(** Takes a run apart, one call at a time. *)
Ltac act_step H :=
  let s := fresh "W" in let a := fresh "a" in let E := fresh "E" in
  apply act_bind_inv in H as (s & a & E & H);
  first [ unfold gets in E; injection E as <- <-
        | unfold modify in E; injection E as <- <-
        | apply lift_inv in E as [E ->]
        | idtac ].

Section safety.
Context {T : Target} {H : HmacLib} {L : CryptoLib} (f : Features).
Context {O : HashOrder} {tl : TrustLib} {cl : CredLib} {dl : DigestLib} {N : NoiseXX} {Pb : HandshakePb}.

(** ** What a handshake leaves alone *)

(** The connection keeps what it was made with, it has the session it had, and
    nothing is received that did not arrive. *)
Record keeps (W W' : HsWorld) : Prop := {
  k_id : cn_conn_id (hw_conn W') = cn_conn_id (hw_conn W);
  k_context : cn_context (hw_conn W') = cn_context (hw_conn W);
  k_noise : cn_noise (hw_conn W') = cn_noise (hw_conn W);
  k_session : sf_session (cn_filter (hw_conn W')) = sf_session (cn_filter (hw_conn W));
  k_in : hw_in W' ⊆ hw_in W }.
#[local] Instance keeps_preorder : PreOrder keeps.
Proof. split; [by split|]. intros ? ? ? [] []. split; [congruence..|by etrans]. Qed.
Lemma keeps_store W st : keeps W (put_store W st).
Proof. by split. Qed.
Lemma keeps_ends W me F l : sf_session F = sf_session (cn_filter (hw_conn W)) ->
  keeps W (put_conn W (with_ends (hw_conn W) me F l)).
Proof. by split. Qed.

Lemma sink_send_keeps env p W W' r : sink_send f env p W = Ret (W', r) -> keeps W W'.
Proof.
  unfold sink_send. case_match; [by intros [= <- _]|]. intros ([st o] & _ & Hk)%comp_bind_inv.
  destruct o; [|by injection Hk as <- _]. cbn in Hk. case_match. by injection Hk as <- _.
Qed.

(** The packet that a connection without session hands on is one that arrived,
    less the marker of the link. *)
Definition arrived (arriving : list StreamItem) (p : ZCPacket) : Prop := exists l q,
  Ok q ∈ arriving /\ p = (liveness_after_received l q).2.
Lemma filter_received_spec env i W W' o : filter_received f env i W = Ret (W', o) ->
  keeps W W' /\ hw_in W' = hw_in W /\
  (sf_session (cn_filter (hw_conn W)) = None -> forall p, o = Some (Ok p) ->
   exists l q, i = Ok q /\ p = (liveness_after_received l q).2).
Proof.
  unfold filter_received. destruct i as [q|e].
  - destruct (liveness_after_received _ q) as [l' p'] eqn:El. intros ([st o'] & Ha & [= <- <-])%comp_bind_inv.
    split_and!; [by split|done|]. intros Hs p ->. exists (cn_liveness (hw_conn W)), q. rewrite El. split; [done|].
    unfold after_received in Ha. rewrite Hs in Ha. repeat (case_match; try by simplify_eq/=).
  - intros ([st o'] & Ha & [= <- <-])%comp_bind_inv. split_and!; [by split|done|]. intros _ p ->.
    unfold after_received in Ha. case_match; by simplify_eq.
Qed.
Lemma recv_items_spec {A} env (accept : ZCPacket -> comp (option A)) l W W' r :
  l ⊆ hw_in W -> recv_items f env accept l W = Ret (W', r) ->
  keeps W W' /\ (sf_session (cn_filter (hw_conn W)) = None -> forall a, r = Ok a ->
                 exists p, arrived (hw_in W) p /\ accept p = Ret (Some a)).
Proof.
  revert W. induction l as [|i l IH]; intros W Hl Hr; cbn [recv_items] in Hr.
  { act_step Hr. injection Hr as <- <-. split; [|by intros]. by split. }
  act_step Hr. apply filter_received_spec in E as (K & Hin & Hp).
  assert (Hl' : l ⊆ hw_in W0) by (rewrite Hin; intros x Hx; by apply Hl, list_elem_of_further).
  assert (Hrec : recv_items f env accept l W0 = Ret (W', r) -> keeps W W' /\
    (sf_session (cn_filter (hw_conn W)) = None -> forall a, r = Ok a -> exists p, arrived (hw_in W) p /\ accept p = Ret (Some a))).
  { intros [K' Ha]%IH; [|done]. split; [by etrans|]. intros Hs b Hb. destruct (Ha) with b as (p & (l1 & q & Hq & ->) & Hp'); [|done|].
    - by rewrite (k_session _ _ K).
    - exists (liveness_after_received l1 q).2. split; [|done]. exists l1, q. by rewrite <- Hin. }
  assert (Hput : keeps W (put_in W0 l)) by (destruct K; split; [done..|cbn; by rewrite <- Hin]).
  destruct a as [[p|e]|]; [|act_step Hr; injection Hr as <- <-; by split|by apply Hrec].
  act_step Hr. destruct a as [a|]; [|by apply Hrec]. act_step Hr. injection Hr as <- <-. split; [done|].
  intros Hs b [= <-]. destruct (Hp Hs p eq_refl) as (l1 & q & -> & ->). exists (liveness_after_received l1 q).2.
  split; [|done]. exists l1, q. split; [apply Hl, list_elem_of_here|done].
Qed.
Lemma recv_next_spec env t W W' r : recv_next_peer_manager_packet f env t W = Ret (W', r) ->
  keeps W W' /\ (sf_session (cn_filter (hw_conn W)) = None -> forall p, r = Ok p -> arrived (hw_in W) p).
Proof.
  intros Hr. unfold recv_next_peer_manager_packet, recv_until in Hr. act_step Hr.
  apply recv_items_spec in Hr as [K Hp]; [|done]. split; [done|]. intros Hs p ->.
  destruct (Hp Hs p eq_refl) as (p' & Ha & Hacc). by repeat (case_match; try by simplify_eq).
Qed.
Lemma send_noise_spec env pl t id x W W' r : send_noise_msg f env pl t id x W = Ret (W', r) ->
  keeps W W' /\ forall x', r = Ok x' -> exists m, xx_write x (he_ephemeral env) pl = Some (x', m).
Proof.
  unfold send_noise_msg. destruct (xx_write x _ pl) as [[x' m]|]; [|by intros [= <- <-]].
  intros Hr. act_step Hr. act_step Hr. act_step Hr. injection Hr as <- <-. split; [by eapply sink_send_keeps|].
  intros x1 Hx. case_match; [|done]. injection Hx as <-. by exists m.
Qed.
Lemma send_handshake_keeps env b W W' r : send_handshake f env b W = Ret (W', r) -> keeps W W'.
Proof.
  intros Hr. unfold send_handshake in Hr. act_step Hr. act_step Hr. act_step Hr. injection Hr as <- _.
  by eapply sink_send_keeps.
Qed.
Lemma on_store_keeps {A} (g : PeerSessionStore -> comp (PeerSessionStore * A)) W W' a :
  on_session_store g W = Ret (W', a) -> keeps W W'.
Proof. unfold on_session_store. intros ([st x] & _ & [= <- _])%comp_bind_inv. apply keeps_store. Qed.
Lemma recved_keeps A rid name W W' r : handshake_recved A rid name W = Ret (W', r) -> keeps W W'.
Proof.
  unfold handshake_recved. case_bool_decide; [by intros [= <- _]|]. case_match eqn:Eh.
  intros (c & Hc & [= <- _])%comp_bind_inv. unfold set_peer_id in Hc.
  assert (Hw : keeps W h) by (destruct (ad_foreign A !! name); injection Eh as <- _; by split).
  etrans; [exact Hw|]. destruct (cn_info (hw_conn h)); [done|]. injection Hc as <-. by apply keeps_ends.
Qed.
Lemma decode_noise_inv {M} t (decode : list Z -> option M) x p x' m :
  decode_noise_message t decode x p = Ret (Some (x', m)) ->
  exists pl b, handshake_payload t p = Ret (Some pl) /\ xx_read x pl = Some (x', b) /\ decode b = Some m.
Proof.
  unfold decode_noise_message. intros ([pl|] & Hpl & [= Hk])%comp_bind_inv.
  cbn in Hk. destruct (xx_read x pl) as [[x1 b]|] eqn:Er; [|done]. cbn in Hk.
  destruct (decode b) as [m1|] eqn:Ed; [|done]. injection Hk as <- <-. by exists pl, b.
Qed.

(** ** What the server decides *)

(** The client's side of the decision: the name of the network in the first
    message, the third message, and the Noise states [x2] after the second
    message was written and [x3] after the third was read. *)
Record transcript (cx : HsContext) (arriving : list StreamItem) (env : HsEnv) (m1 : PeerConnNoiseMsg1Pb) (m3 : PeerConnNoiseMsg3Pb)
    (x2 x3 : XXState) : Prop := {
  tr_states : exists priv pub x0 x1 b1 b2 b3 p1 p3 pl1 pl3 c2,
    get_keypair cx = Some (priv, pub) /\ xx_responder priv = Some x0 /\
    arrived arriving p1 /\ handshake_payload NoiseHandshakeMsg1 p1 = Ret (Some pl1) /\
    xx_read x0 pl1 = Some (x1, b1) /\ decode_noise1 b1 = Some m1 /\
    xx_write x1 (he_ephemeral env) b2 = Some (x2, c2) /\
    arrived arriving p3 /\ handshake_payload NoiseHandshakeMsg3 p3 = Ret (Some pl3) /\
    xx_read x2 pl3 = Some (x3, b3) /\ decode_noise3 b3 = Some m3 }.

Lemma server_begin_spec env first A rid W W' ns :
  noise_server_begin f env first (handshake_recved A rid) W = Ret (W', Ok ns) ->
  keeps W W' /\
  ns_role_hint ns = (if bool_decide (n1_a_network_name (ns_msg1 ns) = ni_network_name (hc_network (cn_context (hw_conn W))))
                     then 1 else 2) /\
  ns_handshake_hash ns = xx_hash (ns_state ns) /\
  exists priv pub x0 x1 b1 b2 pl1 c2,
    get_keypair (cn_context (hw_conn W)) = Some (priv, pub) /\ xx_responder priv = Some x0 /\
    handshake_payload NoiseHandshakeMsg1 first = Ret (Some pl1) /\
    xx_read x0 pl1 = Some (x1, b1) /\ decode_noise1 b1 = Some (ns_msg1 ns) /\
    xx_write x1 (he_ephemeral env) b2 = Some (ns_state ns, c2).
Proof.
  intros Hr. unfold noise_server_begin in Hr. act_step Hr.
  destruct (get_keypair _) as [[priv pub]|] eqn:Ek; [|done]. cbn in Hr.
  destruct (xx_responder priv) as [x0|] eqn:E0; [|done]. cbn in Hr. act_step Hr. act_step Hr.
  destruct a0 as [[x1 m1]|]; [|done]. apply decode_noise_inv in E1 as (pl1 & b1 & Hpl & Hrd & Hdec).
  act_step Hr. apply recved_keeps in E1. destruct a0 as [[]|]; [|done].
  act_step Hr. apply on_store_keeps in E2. destruct a0 as [u|]; [|done]. act_step Hr. apply send_noise_spec in E3 as [E3 Hw].
  injection Hr as <- Hns. destruct a0 as [x2|]; [|done]. injection Hns as <-. cbn [ns_role_hint ns_msg1 ns_handshake_hash ns_state].
  destruct (Hw x2 eq_refl) as [c2 Hc2].
  split_and!; [by repeat (etrans; [eassumption|])|done|done|]. by eexists _, _, _, _, _, _, _, _.
Qed.

(** The decision on what the client sent. *)
Record decided (cx : HsContext) (now : Z) (m1 : PeerConnNoiseMsg1Pb) (m3 : PeerConnNoiseMsg3Pb) (x2 x3 : XXState)
    (n : NoiseHandshakeResult) : Prop := {
  dc_name : nh_remote_network_name n = n1_a_network_name m1;
  dc_key : nh_remote_static_pubkey n = default [] (xx_remote_static x3);
  dc_level : n1_a_network_name m1 = ni_network_name (hc_network cx) ->
    verify_remote_auth cx (n3_secret_proof_32 m3) (xx_hash x2) (nh_remote_static_pubkey n) None
      (bool_decide (is_Some (ni_network_secret (hc_network cx)))) false (n1_a_network_name m1) now
      = Ok (nh_secure_auth_level n) /\
    nh_peer_identity_type n = classify_remote_identity cx (n1_a_network_name m1) (nh_secure_auth_level n) true
      (bool_decide (is_Some (n3_secret_proof_32 m3))) false }.

Lemma server_finish_spec env ns p W W' n : noise_server_finish env ns p W = Ret (W', Ok n) ->
  ns_role_hint ns = (if bool_decide (n1_a_network_name (ns_msg1 ns) = ni_network_name (hc_network (cn_context (hw_conn W))))
                     then 1 else 2) ->
  ns_handshake_hash ns = xx_hash (ns_state ns) ->
  keeps W W' /\ exists m3 x3 pl3 b3,
    handshake_payload NoiseHandshakeMsg3 p = Ret (Some pl3) /\
    xx_read (ns_state ns) pl3 = Some (x3, b3) /\ decode_noise3 b3 = Some m3 /\
    decided (cn_context (hw_conn W)) (he_now_unix env) (ns_msg1 ns) m3 (ns_state ns) x3 n.
Proof.
  intros Hr Hrole Hh. unfold noise_server_finish in Hr. act_step Hr. act_step Hr. destruct a as [[x3 m3]|]; [|done].
  apply decode_noise_inv in E as (pl3 & b3 & Hpl & Hrd & Hdec).
  destruct (negb _); [done|]. destruct (negb _); [done|]. act_step Hr. apply on_store_keeps in E. destruct a as [[]|]; [|done].
  destruct (if ns_role_hint ns =? 1 then _ else _) as [level|] eqn:Ev; [|done]. injection Hr as <- <-.
  split; [done|]. exists m3, x3, pl3, b3. split_and!; [done..|]. split; [done..|]. intros Hn.
  rewrite bool_decide_true in Hrole by done. rewrite Hrole in *. rewrite Hh in *. done.
Qed.

(** The server's side of a handshake that succeeds. *)
Lemma server_handshake_spec env env2 A rid W W' :
  do_handshake_as_server_ext f env env2 (handshake_recved A rid) W = Ret (W', Ok tt) ->
  cn_noise (hw_conn W) = None -> sf_session (cn_filter (hw_conn W)) = None ->
  cn_conn_id (hw_conn W') = cn_conn_id (hw_conn W) /\
  forall n, cn_noise (hw_conn W') = Some n -> cn_info (hw_conn W') = Some (build_handshake_rsp n) /\
    exists m1 m3 x2 x3, transcript (cn_context (hw_conn W)) (hw_in W) env m1 m3 x2 x3 /\
      decided (cn_context (hw_conn W)) (he_now_unix env2) m1 m3 x2 x3 n.
Proof.
  intros Hr Hno Hs. unfold do_handshake_as_server_ext in Hr. act_step Hr. apply recv_next_spec in E as [K0 Ha].
  destruct a as [first|]; [|done]. specialize (Ha Hs first eq_refl). act_step Hr.
  destruct (peer_manager_header first) as [h|]; [|done]. destruct (secure_mode_enabled _ && _).
  - unfold do_noise_handshake_as_server in Hr. act_step Hr. rename E into En. act_step En.
    destruct a0 as [ns|]; [|by injection En as <- <-]. apply server_begin_spec in E as (K1 & Hrole & Hh & Hst).
    act_step En. apply recv_next_spec in E as [K2 Ha3]. destruct a0 as [p|]; [|by injection En as <- <-].
    destruct a as [n|]; [|done].
    assert (Hc2 : cn_context (hw_conn W3) = cn_context (hw_conn W0))
      by (rewrite (k_context _ _ K2); apply (k_context _ _ K1)).
    apply server_finish_spec in En as (K3 & m3 & x3 & pl3 & b3 & Hpl & Hrd & Hdec & D); [|by rewrite Hc2|done].
    act_step Hr. unfold handshake_done in Hr. act_step Hr. act_step Hr. act_step Hr. injection Hr as <- _.
    cbn [hw_conn put_conn with_ends cn_conn_id cn_noise cn_info note_noise with_result].
    split; [by rewrite (k_id _ _ K3), (k_id _ _ K2), (k_id _ _ K1), (k_id _ _ K0)|]. intros ? [= <-]. split; [done|].
    exists (ns_msg1 ns), m3, (ns_state ns), x3. rewrite Hc2, (k_context _ _ K0) in D. split; [|done].
    destruct Hst as (priv & pub & x0 & x1 & b1 & b2 & pl1 & c2 & Hk & Hx0 & Hp1 & Hr1 & Hd1 & Hw).
    rewrite (k_context _ _ K0) in Hk. split.
    exists priv, pub, x0, x1, b1, b2, b3, first, p, pl1, pl3, c2. split_and!; try done.
    destruct (Ha3) with p as (l & q & Hq & ->); [|done|].
    { by rewrite (k_session _ _ K1), (k_session _ _ K0). }
    exists l, q. split; [|done]. by apply (k_in _ _ K0), (k_in _ _ K1).
  - destruct (pm_packet_type h =? _); [|done]. act_step Hr. destruct a as [req|]; [|done].
    act_step Hr. apply recved_keeps in E0. destruct a as [[]|]; [|done]. act_step Hr. act_step Hr. act_step Hr.
    act_step Hr. destruct a0 as [[]|]; [|done]. apply send_handshake_keeps in E2 as K2.
    unfold handshake_done in Hr. act_step Hr. act_step Hr. act_step Hr. injection Hr as <- _.
    cbn [hw_conn put_conn with_ends cn_conn_id cn_noise cn_info].
    rewrite (k_id _ _ K2), (k_noise _ _ K2). cbn [hw_conn put_conn with_result cn_conn_id cn_noise].
    rewrite (k_id _ _ E0), (k_noise _ _ E0), (k_id _ _ K0), (k_noise _ _ K0), Hno. done.
Qed.
End safety.

(** ** What admission adds *)

Definition conns_at (M : PeerMap) (id : Z) : gmap Z PeerConn :=
  match pm_peers M !! id with Some P => peer_conns P | None => ∅ end.

Lemma maintain_peers M c : pm_peers (maintain_alive_client_urls M c) = pm_peers M.
Proof. unfold maintain_alive_client_urls. case_match; [done|]. by case_match. Qed.

Lemma add_peer_conn_cases P c P' r : add_peer_conn P c = (P', r) ->
  match r with
  | Ok _ => peer_conns P' = <[pc_conn_id c := c]> (peer_conns P) /\
      peer_identity_type P' = Some (pc_identity_type c) /\ peer_public_key P' = Some (pc_noise_remote_static_pubkey c)
  | Err _ => peer_conns P' = peer_conns P
  end.
Proof.
  unfold add_peer_conn. destruct (add_check P c) as [P1 [[]|e]] eqn:Ec; intros [= <- <-].
  - destruct (add_check_identity _ _ _ Ec) as (? & ? & _ & _). destruct (add_check_same _ _ _ _ Ec) as (E & _ & _).
    cbn. by rewrite E.
  - by apply add_check_same in Ec as (? & _ & _).
Qed.

Lemma add_new_peer_conn_cases M c M' r : add_new_peer_conn M c = (M', r) ->
  match r with
  | Ok _ => exists P, pm_peers M' !! pc_peer_id c = Some P /\
      peer_conns P = <[pc_conn_id c := c]> (conns_at M (pc_peer_id c)) /\
      peer_identity_type P = Some (pc_identity_type c) /\ peer_public_key P = Some (pc_noise_remote_static_pubkey c) /\
      forall id, id <> pc_peer_id c -> pm_peers M' !! id = pm_peers M !! id
  | Err _ => forall id, conns_at M' id = conns_at M id
  end.
Proof.
  unfold add_new_peer_conn, conns_at. rewrite maintain_peers.
  destruct (pm_peers M !! pc_peer_id c) as [P|] eqn:EP.
  - destruct (add_peer_conn P c) as [P' r'] eqn:Ea. intros [= <- <-]. apply add_peer_conn_cases in Ea.
    cbn [put_peer with_peers pm_peers]. destruct r' as [[]|e].
    + destruct Ea as (E1 & E2 & E3). exists P'. rewrite lookup_insert_eq. split_and!; [done..|].
      intros id Hne. rewrite lookup_insert_ne by done. by rewrite maintain_peers.
    + intros id. destruct (decide (id = pc_peer_id c)) as [->|Hne].
      * by rewrite lookup_insert_eq, EP.
      * rewrite lookup_insert_ne by done. by rewrite maintain_peers.
  - destruct (add_peer_conn (Peer_new (pc_peer_id c)) c) as [P' r'] eqn:Ea. apply add_peer_conn_cases in Ea.
    destruct r' as [[]|e]; intros [= <- <-].
    + destruct Ea as (E1 & E2 & E3). exists P'. cbn. rewrite lookup_insert_eq. split_and!; [done..|].
      intros id Hne. rewrite lookup_insert_ne by done. by rewrite maintain_peers.
    + intros id. by rewrite maintain_peers.
Qed.

Section admission.
Context {T : Target} {H : HmacLib} {L : CryptoLib} (f : Features).
Context {O : HashOrder} {tl : TrustLib} {cl : CredLib} {dl : DigestLib} {N : NoiseXX} {Pb : HandshakePb}.

Lemma admit_cases M local secure c M' r : admit_peer_conn M local secure c = Ret (M', r) ->
  match r with
  | Ok id => exists pc, as_peer_conn c = Ret pc /\ id = pc_peer_id pc /\
      add_new_peer_conn M pc = (M', Ok tt) /\ secure = negb (bool_decide (remote_static_pubkey c = []))
  | Err _ => forall id, conns_at M' id = conns_at M id
  end.
Proof.
  unfold admit_peer_conn. intros (peer & _ & Hk)%comp_bind_inv.
  destruct (Bool.eqb_spec secure (negb (bool_decide (remote_static_pubkey c = [])))) as [Hs|]; [|by injection Hk as <- <-].
  cbn [negb] in Hk. match type of Hk with (if negb ?b then _ else _) = _ => destruct b end; [|by injection Hk as <- <-].
  cbn [negb] in Hk.
  apply comp_bind_inv in Hk as (pc & Hpc & Hk).
  destruct (add_new_peer_conn M pc) as [M1 r1] eqn:Ea. injection Hk as <- <-.
  destruct r1 as [[]|e]; [by exists pc|]. by apply add_new_peer_conn_cases in Ea.
Qed.

(** The client proved that it has the secret of the network: its third message
    has the keyed hash of what both sides wrote and read until the second. *)
Definition proved_secret (cx : HsContext) (m3 : PeerConnNoiseMsg3Pb) (x2 : XXState) : Prop := exists p,
  n3_secret_proof_32 m3 = Some p /\ secret_proof cx (xx_hash x2) = Some p.

Lemma decided_authenticated cx now m1 m3 x2 x3 n : decided cx now m1 m3 x2 x3 n ->
  n1_a_network_name m1 = ni_network_name (hc_network cx) ->
  (proved_secret cx m3 x2 \/
   context_is_pubkey_trusted cx (nh_remote_static_pubkey n) (ni_network_name (hc_network cx)) now = true) /\
  (nh_peer_identity_type n = Admin <-> is_Some (n3_secret_proof_32 m3)).
Proof.
  intros [_ _ Hd] Hn. destruct (Hd Hn) as [Hv Ht]. clear Hd. unfold verify_remote_auth in Hv.
  rewrite andb_false_l, Hn in Hv. set (proof := n3_secret_proof_32 m3) in *.
  assert (Hproved : nh_secure_auth_level n = NetworkSecretConfirmed -> proved_secret cx m3 x2).
  { intros Hl. rewrite Hl in Hv. unfold proved_secret. fold proof.
    destruct (context_is_pubkey_trusted _ _ _ _), proof as [p|];
      try discriminate; destruct (secret_proof cx (xx_hash x2)) as [mac|]; try discriminate;
      (destruct (bool_decide_reflect (mac = p)); [subst; by exists p|discriminate]). }
  split.
  - destruct (match proof with Some _ => _ | None => _ end); [left; apply Hproved; by injection Hv|].
    right. destruct (context_is_pubkey_trusted _ _ _ _); [done|discriminate].
  - rewrite Ht. unfold classify_remote_identity. rewrite bool_decide_true by done. cbn [negb orb].
    destruct (bool_decide_reflect (nh_secure_auth_level n = NetworkSecretConfirmed)) as [Hl|]; cbn [orb];
      [|destruct (bool_decide_reflect (is_Some proof)); by split].
    destruct (Hproved Hl) as (p & Hp & _). fold proof in Hp. rewrite Hp. by split; [eexists|].
Qed.

Lemma as_peer_conn_spec c pc : as_peer_conn c = Ret pc ->
  pc_conn_id pc = cn_conn_id c /\ conn_peer_id c = Ret (pc_peer_id pc) /\
  pc_identity_type pc = get_peer_identity_type c /\ pc_noise_remote_static_pubkey pc = remote_static_pubkey c.
Proof. by intros (id & Hid & [= <-])%comp_bind_inv. Qed.
Lemma network_identity_name c i : get_network_identity c = Ret i ->
  exists h, cn_info c = Some h /\ ni_network_name i = hr_network_name h.
Proof.
  unfold get_network_identity. destruct (cn_info c) as [h|]; [|done]. intros (? & [= <-] & Hk)%comp_bind_inv.
  case_match; [|done]. injection Hk as <-. by exists h.
Qed.

(** C11. A node in secure mode takes a connection into its network only from a
    client that it authenticated in this handshake: the Noise messages that
    arrived, read with the node's own key and against the ephemeral key drawn
    for this connection, name the node's network and give the client's static
    key, and the third one has the keyed hash of the transcript under the
    network's secret, or that static key is trusted at this time.  The
    connection is recorded for the client's peer under that key, as an
    administrator just when a proof was sent, and the other peers stay as they
    were; with every other outcome no peer gets or loses a connection. *)
Theorem admission_authenticated env env2 A conn_id rid url own direct origin arriving A' out r :
  add_tunnel_as_server_with_origin f env env2 A conn_id rid url own direct origin arriving = Ret (A', out, r) ->
  secure_mode_enabled (ad_context A) = true ->
  let cx := ad_context A in let name := ni_network_name (hc_network cx) in
  match r with
  | Ok (InNetwork id cid) => cid = conn_id /\ exists P pc m1 m3 x2 x3 key,
      transcript cx arriving env m1 m3 x2 x3 /\ n1_a_network_name m1 = name /\
      xx_remote_static x3 = Some key /\ key <> [] /\
      (proved_secret cx m3 x2 \/ context_is_pubkey_trusted cx key name (he_now_unix env2) = true) /\
      pm_peers (ad_peers A') !! id = Some P /\ peer_public_key P = Some key /\
      (peer_identity_type P = Some Admin <-> is_Some (n3_secret_proof_32 m3)) /\
      peer_conns P = <[conn_id := pc]> (conns_at (ad_peers A) id) /\ pc_noise_remote_static_pubkey pc = key /\
      forall id', id' <> id -> pm_peers (ad_peers A') !! id' = pm_peers (ad_peers A) !! id'
  | _ => forall id, conns_at (ad_peers A') id = conns_at (ad_peers A) id
  end.
Proof.
  intros Hrun Hsec cx name. unfold add_tunnel_as_server_with_origin in Hrun.
  destruct own; [by injection Hrun as <- _ <-|]. apply comp_bind_inv in Hrun as ([W r0] & Hh & Hrun).
  destruct r0 as [[]|e]; [|by injection Hrun as <- _ <-].
  apply server_handshake_spec in Hh as [Hcid Hn]; [|done..]. cbn [hw_conn hw_in new_with_peer_id_hint_and_origin cn_conn_id cn_context] in Hcid, Hn.
  apply comp_bind_inv in Hrun as (peer & (h & Hi & Hname)%network_identity_name & Hrun).
  destruct (bool_decide (origin = Attached) && _); [by injection Hrun as <- _ <-|].
  apply comp_bind_inv in Hrun as (id & Hid & Hrun). apply comp_bind_inv in Hrun as (b & _ & Hrun).
  destruct (_ && negb (b || _)); [by injection Hrun as <- _ <-|].
  destruct (bool_decide_reflect (ni_network_name peer = ni_network_name (hc_network (ad_context A)))) as [El|];
    [|by injection Hrun as <- _ <-].
  apply comp_bind_inv in Hrun as ([M ra] & Ha & Hrun). apply admit_cases in Ha.
  destruct ra as [id'|e]; injection Hrun as <- _ <-; [|done].
  destruct Ha as (pc & Hpc & -> & Hadd & Hkey). rewrite Hsec in Hkey. symmetry in Hkey. apply negb_true_iff, bool_decide_eq_false in Hkey.
  apply as_peer_conn_spec in Hpc as (Hc & Hp & Ht & Hk). apply add_new_peer_conn_cases in Hadd as (P & HP & Hconns & HPt & HPk & Hothers).
  cbn in Hkey, Hc, Hp, Ht, Hk. unfold conn_peer_id in Hp, Hid. cbn [cn_info set_is_hole_punched] in Hp. rewrite Hid in Hp. injection Hp as ->.
  unfold remote_static_pubkey, get_peer_identity_type in *. cbn [cn_noise set_is_hole_punched] in *.
  destruct (cn_noise (hw_conn W)) as [n|] eqn:En; [|done].
  destruct (Hn n eq_refl) as (Hi' & m1 & m3 & x2 & x3 & Htr & D). rewrite Hi in Hi'. injection Hi' as ->.
  cbn [hr_network_name build_handshake_rsp] in Hname. pose proof (dc_name _ _ _ _ _ _ _ D) as Hm1.
  rewrite <- Hname, El in Hm1. destruct (decided_authenticated _ _ _ _ _ _ _ D (eq_sym Hm1)) as [Hauth Hadmin].
  pose proof (dc_key _ _ _ _ _ _ _ D) as Hx3. split; [by cbn; rewrite Hcid|].
  exists P, pc, m1, m3, x2, x3, (nh_remote_static_pubkey n). cbn [ad_peers with_admitted].
  rewrite Hc, Hcid in Hconns. rewrite HPk, HPt, Ht. split_and!; try done.
  - destruct (xx_remote_static x3); [by rewrite Hx3|done].
  - by rewrite Hk.
  - rewrite <- Hadmin. split; [by intros [= ->]|by intros ->].
Qed.
End admission.

(** ** A network of administrators and credential holders *)

(** Node 1 is in secure mode in the network [net], whose secret it has; it
    trusts the key of the credential of node 4. *)
Module SecureNetwork.
#[local] Existing Instances Line.order Line.hmac Line.word toy_lib Concrete.trust ConcreteCredentials.lib.
#[local] Instance digest : DigestLib := {| hasher_finish l := foldr Z.add 7 l mod 2 ^ 64 |}.

(** A handshake in clear text: every message has the ephemeral key, from the
    second on the static key, and the text; the hash is all that was said. *)
Record Saying := { sy_private : list Z; sy_said : list Z; sy_count : nat; sy_remote : option (list Z) }.
Definition packed (l : list Z) : list Z := Z.of_nat (length l) :: l.
Definition unpack (l : list Z) : option (list Z * list Z) :=
  match l with n :: r => Some (take (Z.to_nat n) r, drop (Z.to_nat n) r) | [] => None end.
Lemma unpack_packed l r : unpack (packed l ++ r) = Some (l, r).
Proof. cbn. by rewrite Nat2Z.id, take_app_length, drop_app_length. Qed.
Definition said (x : Saying) (m : list Z) (remote : option (list Z)) : Saying :=
  {| sy_private := sy_private x; sy_said := sy_said x ++ m; sy_count := S (sy_count x); sy_remote := remote |}.
Definition say (x : Saying) (e pl : list Z) : list Z :=
  packed e ++ packed (match sy_count x with O => [] | _ => sy_private x end) ++ pl.
#[local] Instance noise : NoiseXX :=
  {| XXState := Saying; xx_public k := k;
     xx_initiator k := Some {| sy_private := k; sy_said := []; sy_count := 0; sy_remote := None |};
     xx_responder k := Some {| sy_private := k; sy_said := []; sy_count := 0; sy_remote := None |};
     xx_write x e pl := Some (said x (say x e pl) (sy_remote x), say x e pl);
     xx_read x m := '(_, r) ← unpack m; '(k, pl) ← unpack r;
       Some (said x m (match sy_count x with O => sy_remote x | _ => Some k end), pl);
     xx_hash x := sy_said x; xx_remote_static x := sy_remote x |}.
#[local] Instance noise_laws : NoiseXXLaws noise.
Proof.
  split. intros pa pb i0 r0 ea m1 [= <-] [= <-] _. cbn [xx_read xx_write noise]. unfold say.
  eexists _, _, _. rewrite unpack_packed. cbn [mbind option_bind]. rewrite unpack_packed.
  split_and!; [done|done|done|]. intros eb m2 _. unfold say. eexists _, _, _. rewrite unpack_packed.
  cbn [mbind option_bind]. rewrite unpack_packed. split_and!; [done|done|done|]. intros ea' m3 _. unfold say.
  eexists _, _, _. rewrite unpack_packed. cbn [mbind option_bind]. by rewrite unpack_packed.
Qed.

#[local] Instance pb : HandshakePb :=
  {| encode_handshake m := LineRelay.number (hr_magic m, hr_my_peer_id m, hr_version m,
       (hr_features m, hr_network_name m, hr_network_secret_digest m));
     decode_handshake l := (fun '(a, b, c, (d, e, g)) => {| hr_magic := a; hr_my_peer_id := b; hr_version := c;
       hr_features := d; hr_network_name := e; hr_network_secret_digest := g |}) <$> LineRelay.from_number l;
     encode_noise1 m := LineRelay.number (n1_version m, n1_a_network_name m, n1_a_session_generation m,
       (n1_a_conn_id m, n1_client_encryption_algorithm m, n1_features m));
     decode_noise1 l := (fun '(a, b, c, (d, e, g)) => {| n1_version := a; n1_a_network_name := b;
       n1_a_session_generation := c; n1_a_conn_id := d; n1_client_encryption_algorithm := e;
       n1_features := g |}) <$> LineRelay.from_number l;
     encode_noise2 m := LineRelay.number ((n2_b_network_name m, n2_role_hint m, n2_action m),
       (n2_b_session_generation m, n2_root_key_32 m, n2_initial_epoch m),
       ((n2_b_conn_id m, n2_a_conn_id_echo m, n2_secret_proof_32 m),
        (n2_server_encryption_algorithm m, n2_features m)));
     decode_noise2 l := (fun '((a, b, c), (d, e, g), ((h, i, j), (k, o))) => {| n2_b_network_name := a;
       n2_role_hint := b; n2_action := c; n2_b_session_generation := d; n2_root_key_32 := e;
       n2_initial_epoch := g; n2_b_conn_id := h; n2_a_conn_id_echo := i; n2_secret_proof_32 := j;
       n2_server_encryption_algorithm := k; n2_features := o |}) <$> LineRelay.from_number l;
     encode_noise3 m := LineRelay.number ((n3_a_conn_id_echo m, n3_b_conn_id_echo m),
       (n3_secret_proof_32 m, n3_secret_digest m));
     decode_noise3 l := (fun '((a, b), (c, d)) => {| n3_a_conn_id_echo := a; n3_b_conn_id_echo := b;
       n3_secret_proof_32 := c; n3_secret_digest := d |}) <$> LineRelay.from_number l |}.
#[local] Instance pb_laws : HandshakePbLaws pb.
Proof.
  split; intros []; cbn [pb encode_handshake decode_handshake encode_noise1 decode_noise1 encode_noise2
    decode_noise2 encode_noise3 decode_noise3]; by rewrite LineRelay.from_number_number.
Qed.

Definition key (u : Z) : list Z := repeat u 32.
Definition secret : list Z := [115; 101; 99].
Definition context (name : string) (secret : option (list Z)) (u : Z) : HsContext :=
  {| hc_network := {| ni_network_name := name; ni_network_secret := secret;
       ni_network_secret_digest := generate_digest_from_str (str_bytes name) <$> secret |};
     hc_secure_mode := Some {| sm_enabled := true; sm_private_key := Some (key u); sm_public_key := Some (key u) |};
     hc_encryption_algorithm := "aes-gcm"; hc_hmac_secret_digest := false; hc_pinned := None;
     hc_trusted_keys := {[ "net" := {[ key 4 := {| tk_source := OspfCredential; tk_expiry_unix := Some 900 |} ]} ]};
     hc_credentials := CredentialManager_new |}.
Definition env (u : Z) : HsEnv :=
  {| he_now := 0; he_now_ms := 0; he_now_unix := 100; he_uninit := fun _ => 0; he_rng := repeat 9 12;
     he_uuid := 70 + u; he_fresh_key := key (50 + u); he_ephemeral := [80 + u]; he_sink_ok := true |}.
Definition node (cx : HsContext) (u : Z) (st : PeerSessionStore) : Admission :=
  {| ad_my_peer_id := u; ad_context := cx; ad_private_mode := true; ad_peers := PeerMap_new u;
     ad_foreign_client := PeerMap_new u; ad_recent := RecentTraffic_new u; ad_store := st; ad_reserved := ∅;
     ad_foreign := ∅ |}.
Definition server (st : PeerSessionStore) : Admission := node (context "net" (Some secret) 1) 1 st.

Abbreviation accept st := (add_tunnel_as_server_with_origin full_features (env 1) (env 1) (server st) 40 60
  None false true Network).
Abbreviation connect cx u := (add_client_tunnel_with_origin full_features (env u) (env u) (node cx u store_new)
  41 None true None Network).
Definition sent {A B} (r : comp (A * list ZCPacket * B)) : list StreamItem :=
  match r with Ret (_, out, _) => Ok <$> out | Panic => [] end.

(** The first packet of the client, the answer, and all that the client sends. *)
Definition said_by (cx : HsContext) (u : Z) (st : PeerSessionStore) : list StreamItem :=
  sent (connect cx u (sent (accept st (sent (connect cx u []))))).

(** Another node with the secret is admitted, as an administrator. *)
Definition admin : HsContext := context "net" (Some secret) 2.
Lemma admission_authenticated_witness : exists A' out P,
  accept store_new (said_by admin 2 store_new) = Ret (A', out, Ok (InNetwork 2 40)) /\
  pm_peers (ad_peers A') !! 2 = Some P /\ peer_public_key P = Some (key 2) /\ peer_identity_type P = Some Admin.
Proof.
  destruct (accept store_new (said_by admin 2 store_new)) as [[[A' out] r]|] eqn:E; [|vm_compute in E; discriminate].
  assert (Hr : match accept store_new (said_by admin 2 store_new) with
               | Ret (A', _, r) => (r, (fun P => (peer_public_key P, peer_identity_type P)) <$> pm_peers (ad_peers A') !! 2)
               | Panic => (Err Other, None)
               end = (Ok (InNetwork 2 40), Some (Some (key 2), Some Admin))) by (vm_compute; reflexivity).
  rewrite E in Hr. injection Hr as -> HP.
  destruct (admission_authenticated full_features (env 1) (env 1) (server store_new) 40 60 None false true Network
    (said_by admin 2 store_new) A' out _ E eq_refl)
    as (_ & P & pc & m1 & m3 & x2 & x3 & k & _ & _ & _ & _ & _ & HP' & Hk & _).
  exists A', out, P. rewrite HP' in HP. injection HP as H1 H2.
  split; [reflexivity|]. split; [exact HP'|]. split; [exact H1|exact H2].
Defined.

(** A client that reads the answer and writes a third message of its own. *)
Definition opened (cx : HsContext) (u : Z) (st : PeerSessionStore)
    : option (HsWorld * NoiseClient * XXState * PeerConnNoiseMsg2Pb) :=
  match noise_client_begin full_features (env u)
          {| hw_store := store_new; hw_conn := new_with_peer_id_hint_and_origin 41 u cx None None Network;
             hw_in := []; hw_out := []; hw_reserved := ∅; hw_reserved_name := None |} with
  | Ret (W, Ok nc) =>
    match sent (accept st (Ok <$> hw_out W)) with
    | [Ok p2] => match decode_noise_message NoiseHandshakeMsg2 decode_noise2 (nc_state nc) p2 with
                 | Ret (Some (x, m2)) => Some (W, nc, x, m2)
                 | _ => None
                 end
    | _ => None
    end
  | _ => None
  end.
Definition forged (cx : HsContext) (u : Z) (st : PeerSessionStore) (proof : option (list Z)) (digest : list Z)
    : list StreamItem :=
  match opened cx u st with
  | Some (W, nc, x, m2) =>
    match send_noise_msg full_features (env u) (encode_noise3 {| n3_a_conn_id_echo := Some (nc_conn_id nc);
            n3_b_conn_id_echo := n2_b_conn_id m2; n3_secret_proof_32 := proof; n3_secret_digest := digest |})
            NoiseHandshakeMsg3 1 x W with
    | Ret (W, _) => Ok <$> hw_out W
    | Panic => []
    end
  | None => []
  end.
(** What becomes of the peer that connects. *)
Definition recorded (u : Z) (r : comp (Admission * list ZCPacket * result PeerError Placement))
    : option (option PeerIdentityType) :=
  match r with
  | Ret (A', _, Ok (InNetwork id _)) => if id =? u then peer_identity_type <$> pm_peers (ad_peers A') !! u else None
  | _ => None
  end.

(** The holder of a credential is one, but any proof, even an empty one, makes
    it an administrator. *)
Definition credential : HsContext := context "net" None 4.
Example credential_with_any_proof :
  recorded 4 (accept store_new (said_by credential 4 store_new)) = Some (Some Credential) /\
  recorded 4 (accept store_new (forged credential 4 store_new (Some []) (replicate 32 0))) = Some (Some Admin).
Proof. vm_compute. auto. Qed.

(** A client of any network whose third message has a digest of another length
    makes the task panic. *)
Example short_digest_panics :
  accept store_new (forged (context "other" None 5) 5 store_new None [1]) = Panic.
Proof. vm_compute. reflexivity. Qed.

(** A client that has neither the secret nor a trusted key and takes the peer
    id of node 2 is sent the root key of the session with node 2, and is refused
    only after that. *)
Definition after_admin : PeerSessionStore :=
  match accept store_new (said_by admin 2 store_new) with Ret (A', _, _) => ad_store A' | Panic => store_new end.
Example root_key_before_authentication :
  let stranger := context "net" None 6 in
  (a ← e_session <$> sessions after_admin !! ("net"%string, 2); ps_root_key <$> heap after_admin !! a) = Some (key 51) /\
  n2_root_key_32 <$> (snd <$> opened stranger 2 after_admin) = Some (Some (key 51)) /\
  recorded 2 (accept after_admin (forged stranger 2 after_admin None (replicate 32 0))) = None.
Proof. vm_compute. auto. Qed.
End SecureNetwork.
