(* ===== verification/ConnEstablish.v ===== *)
(** Direct connections come about ([peers/conn/peer_conn.rs],
    [peers/peer_manager.rs]): two nodes of a network in secure mode that share
    its secret connect, whichever calls the other, and both admit the other. *)
From stdpp Require Import list gmap strings.
From S2P Require Import CredentialStoreProofs Prelude Headers Packet Encrypt Compressor ReplayWindow SecureDatagram.
From S2P Require Import RouteMessages SyncedRoute CredentialStore RouteSync RouteTable PeerConns PeerConnsProofs RelayPeerMap PacketRouter.
From S2P Require Import PacketPath PacketRouterProofs Rpc RelayProofs ConnLiveness PeerSession PeerHandshake HandshakeProofs.
Local Open Scope Z_scope.

Section success.
Context {T : Target} {H : HmacLib} {L : CryptoLib} (f : Features).
Context {O : HashOrder} {tl : TrustLib} {cl : CredLib} {dl : DigestLib} {N : NoiseXX} {NL : NoiseXXLaws N}.
Context {Pb : HandshakePb} {PL : HandshakePbLaws Pb}.

(** ** Messages of the handshake *)

Definition noise_type (t : PacketType) : Prop :=
  t = NoiseHandshakeMsg1 \/ t = NoiseHandshakeMsg2 \/ t = NoiseHandshakeMsg3.
Lemma noise_type_skips t h : noise_type t -> pm_packet_type h = PacketType_as_u8 t -> should_skip_encrypt h = true.
Proof. unfold should_skip_encrypt. intros [-> | [-> | ->]] ->; done. Qed.

(** A connection in its handshake sends no markers yet. *)
Definition plain (W : HsWorld) : Prop := lv_enabled (cn_liveness (hw_conn W)) = false.
Lemma plain_ends W : with_ends (hw_conn W) (cn_my_peer_id (hw_conn W)) (cn_filter (hw_conn W)) (cn_liveness (hw_conn W)) = hw_conn W.
Proof. by destruct W as [? [] ? ? ? ?]. Qed.
Lemma world_same W : put_store (put_conn W (hw_conn W)) (hw_store W) = W.
Proof. by destruct W. Qed.

Lemma sink_noise env p W me dst t pl : plain W -> he_sink_ok env = true -> noise_type t ->
  handshake_packet me dst t pl p -> sink_send f env p W = Ret (push_out W p, Ok tt).
Proof.
  intros Hp Hs Ht [_ (h & Hh & _ & _ & Hty)]. unfold sink_send, before_send. rewrite Hs, Hh, (noise_type_skips t h Ht Hty).
  cbn [negb]. destruct (negb (sf_enabled _)); cbn [mbind comp_bind put_store hw_conn];
    unfold liveness_before_send; rewrite Hp; cbn [negb]; rewrite plain_ends; by destruct W.
Qed.

(** The packet of a message. *)
Definition noise_packet (env : HsEnv) (me dst : Z) (t : PacketType) (m : list Z) : ZCPacket :=
  match (p ← new_with_payload (he_uninit env) m; fill_peer_manager_hdr p me dst (PacketType_as_u8 t)) with
  | Ret p => p
  | Panic => {| inner := []; packet_type := NIC |}
  end.
Lemma noise_packet_ok env me dst t m : u32 me -> u32 dst ->
  (p ← new_with_payload (he_uninit env) m; fill_peer_manager_hdr p me dst (PacketType_as_u8 t))
    = Ret (noise_packet env me dst t m) /\ handshake_packet me dst t m (noise_packet env me dst t m).
Proof.
  intros Hme Hd. unfold noise_packet. destruct (new_with_payload_spec (he_uninit env) m) as (pre & Hpre & ->).
  set (zc := {| inner := pre ++ m; packet_type := NIC |}).
  assert (Hh : has_header zc).
  { unfold has_header, zc. cbn [inner]. rewrite len_app. pose proof (len_nonneg m).
    change (zc_payload_offset _) with 36. lia. }
  cbn [mbind comp_bind]. rewrite fill_hdr_spec by done. set (h1 := {| from_peer_id := _ |}).
  assert (Hw1 : PeerManagerHeader_wf h1) by (apply filled_hdr_wf; [done|done|by destruct t]).
  split; [done|]. split; [rewrite put_pm_payload by done; by apply payload_app|].
  exists h1. by rewrite put_pm_get.
Qed.
Lemma send_noise_ok env pl t dst x x' m W : plain W -> he_sink_ok env = true -> noise_type t ->
  u32 (cn_my_peer_id (hw_conn W)) -> u32 dst -> xx_write x (he_ephemeral env) pl = Some (x', m) ->
  send_noise_msg f env pl t dst x W = Ret (push_out W (noise_packet env (cn_my_peer_id (hw_conn W)) dst t m), Ok x').
Proof.
  intros Hp Hs Ht Hme Hd Hw. unfold send_noise_msg. rewrite Hw.
  destruct (noise_packet_ok env _ _ t m Hme Hd) as [E Hpk]. run_act_in E. run_act. rewrite E.
  by rewrite (sink_noise env _ W _ _ _ _ Hp Hs Ht Hpk).
Qed.

Lemma filter_noise env p W me dst t pl : plain W -> noise_type t -> handshake_packet me dst t pl p ->
  filter_received f env (Ok p) W = Ret (W, Some (Ok p)).
Proof.
  intros Hp Ht [_ (h & Hh & _ & _ & Hty)]. unfold filter_received, liveness_after_received. rewrite Hp. cbn [negb].
  rewrite plain_ends. unfold after_received. rewrite Hh, (noise_type_skips t h Ht Hty).
  destruct (negb _); cbn [mbind comp_bind]; by destruct W.
Qed.
Lemma recv_noise env p W me dst t pl l e : plain W -> noise_type t -> handshake_packet me dst t pl p ->
  hw_in W = Ok p :: l -> e = None \/ e = Some t ->
  recv_next_peer_manager_packet f env e W = Ret (put_in W l, Ok p).
Proof.
  intros Hp Ht Hpk Hin He. unfold recv_next_peer_manager_packet, recv_until. run_act. rewrite Hin. cbn [recv_items].
  run_act. rewrite (filter_noise env p W me dst t pl) by done. destruct Hpk as [_ (h & Hh & _ & _ & Hty)].
  unfold lift. cbn [mbind comp_bind]. rewrite Hh. destruct He as [-> | ->]; [done|]. by rewrite Hty, Z.eqb_refl.
Qed.
Lemma recv_nothing env W e : hw_in W = [] -> recv_next_peer_manager_packet f env e W = Ret (put_in W [], Err WaitRespError).
Proof. intros Hin. unfold recv_next_peer_manager_packet, recv_until. run_act. by rewrite Hin. Qed.

Lemma decode_noise_ok {M} t (decode : list Z -> option M) x x' p me dst pl b m :
  handshake_packet me dst t pl p -> xx_read x pl = Some (x', b) -> decode b = Some m ->
  decode_noise_message t decode x p = Ret (Some (x', m)).
Proof.
  intros [Hpl (h & Hh & _ & _ & Hty)] Hr Hd. unfold decode_noise_message, handshake_payload.
  rewrite Hh, Hty, Z.eqb_refl. cbn [negb]. rewrite Hpl. cbn [mbind comp_bind option_bind]. rewrite Hr.
  cbn [mbind option_bind]. by rewrite Hd.
Qed.

(** ** Members of a network *)

(** A node of the network in secure mode, with the secret. *)
Record member (cx : HsContext) (name : string) (secret priv : list Z) : Prop := {
  mb_network : hc_network cx = identity_new name secret;
  mb_secure : secure_mode_enabled cx = true;
  mb_keys : exists pub, get_keypair cx = Some (priv, pub);
  mb_pinned : hc_pinned cx = None;
  mb_digest : hc_hmac_secret_digest cx = false }.

Definition first_noise (cx : HsContext) (env : HsEnv) : PeerConnNoiseMsg1Pb :=
  {| n1_version := VERSION; n1_a_network_name := ni_network_name (hc_network cx); n1_a_session_generation := None;
     n1_a_conn_id := Some (he_uuid env); n1_client_encryption_algorithm := hc_encryption_algorithm cx;
     n1_features := [FEATURE] |}.
Definition second_noise (cx : HsContext) (env : HsEnv) (echo : option Z) (h : list Z) : PeerConnNoiseMsg2Pb :=
  {| n2_b_network_name := ni_network_name (hc_network cx); n2_role_hint := 1; n2_action := action_i32 Create;
     n2_b_session_generation := 1; n2_root_key_32 := Some (he_fresh_key env); n2_initial_epoch := 0;
     n2_b_conn_id := Some (he_uuid env); n2_a_conn_id_echo := echo; n2_secret_proof_32 := secret_proof cx h;
     n2_server_encryption_algorithm := hc_encryption_algorithm cx; n2_features := [FEATURE] |}.
Definition third_noise (cx : HsContext) (a b : option Z) (h : list Z) : PeerConnNoiseMsg3Pb :=
  {| n3_a_conn_id_echo := a; n3_b_conn_id_echo := b; n3_secret_proof_32 := secret_proof cx h;
     n3_secret_digest := context_secret_digest cx |}.

Section members.
Context (name : string) (secret privA privB : list Z) (cxA cxB : HsContext).
Hypothesis HA : member cxA name secret privA.
Hypothesis HB : member cxB name secret privB.

Lemma member_name cx priv : member cx name secret priv -> ni_network_name (hc_network cx) = name.
Proof. intros []. by rewrite mb_network0. Qed.
Lemma member_verifies cx cx' priv priv' h key pinned has init nm now :
  member cx name secret priv -> member cx' name secret priv' ->
  verify_remote_auth cx (secret_proof cx' h) h key pinned has init nm now = Ok NetworkSecretConfirmed.
Proof.
  intros [E _ _ _ _] [E' _ _ _ _]. unfold verify_remote_auth, secret_proof. rewrite E, E'. cbn [fmap option_fmap option_map
    ni_network_secret identity_new]. by rewrite bool_decide_true.
Qed.
Lemma member_identity cx priv level client : member cx name secret priv -> level = NetworkSecretConfirmed ->
  forall sent, classify_remote_identity cx name level true sent client = Admin.
Proof.
  intros Hm -> sent. unfold classify_remote_identity. rewrite (member_name _ _ Hm).
  by rewrite !bool_decide_true.
Qed.

(** The initiator calls. *)
Lemma client_begin_ok env W i0 i1 c1 : plain W -> he_sink_ok env = true -> u32 (cn_my_peer_id (hw_conn W)) ->
  cn_context (hw_conn W) = cxA ->
  (forall id, cn_peer_id_hint (hw_conn W) = Some id -> sessions (hw_store W) !! (name, id) = None) ->
  xx_initiator privA = Some i0 ->
  xx_write i0 (he_ephemeral env) (encode_noise1 (first_noise cxA env)) = Some (i1, c1) ->
  exists pub, noise_client_begin f env W =
      Ret (push_out W (noise_packet env (cn_my_peer_id (hw_conn W)) 0 NoiseHandshakeMsg1 c1),
           Ok {| nc_state := i1; nc_pinned := None; nc_conn_id := he_uuid env;
                 nc_local_static_pubkey := pub; nc_server_handshake_hash := xx_hash i1 |}).
Proof.
  intros Hp Hs Hme Hcx Hno Hi Hw. destruct HA as [Hnet Hsec [pub Hk] Hpin _].
  pose proof (send_noise_ok env _ NoiseHandshakeMsg1 0 i0 i1 c1 W Hp Hs ltac:(by left) Hme ltac:(done) Hw) as E.
  exists pub. unfold noise_client_begin. run_act. rewrite Hcx, Hpin, Hk.
  assert (Hg : (match cn_peer_id_hint (hw_conn W) with
                | None => mret None
                | Some id => on_session_store (fun st => store_get st (ni_network_name (hc_network cxA), id) (he_now env))
                end : hs (option nat)) W = Ret (W, None)).
  { rewrite (member_name _ _ HA). destruct (cn_peer_id_hint _) as [id|]; [|done]. unfold on_session_store.
    rewrite store_get_fresh by (by apply Hno). cbn [mbind comp_bind]. by destruct W. }
  run_act_in Hg. rewrite Hg, Hi. change (option_bind nat Z _ None) with (@None Z).
  fold (first_noise cxA env). by rewrite E.
Qed.

(** The responder answers. *)
Lemma server_begin_ok A rid env W m1 p1 r0 c1 r1 r2 c2 idA : plain W -> he_sink_ok env = true ->
  u32 (cn_my_peer_id (hw_conn W)) -> u32 idA -> cn_context (hw_conn W) = cxB -> ad_context A = cxB ->
  store_wf (hw_store W) -> sessions (hw_store W) !! (name, idA) = None ->
  xx_responder privB = Some r0 -> n1_a_network_name m1 = name ->
  handshake_packet idA 0 NoiseHandshakeMsg1 c1 p1 -> xx_read r0 c1 = Some (r1, encode_noise1 m1) ->
  xx_write r1 (he_ephemeral env) (encode_noise2 (second_noise cxB env (n1_a_conn_id m1) (xx_hash r1))) = Some (r2, c2) ->
  let a := next_arc (hw_store W) in
  exists pub st, noise_server_begin f env p1 (handshake_recved A rid) W =
      Ret (push_out (put_store W st) (noise_packet env (cn_my_peer_id (hw_conn W)) idA NoiseHandshakeMsg2 c2),
           Ok {| ns_state := r2; ns_peer_id := idA; ns_msg1 := m1; ns_role_hint := 1; ns_session := a;
                 ns_conn_id := he_uuid env; ns_local_static_pubkey := pub; ns_handshake_hash := xx_hash r2 |}) /\
    heap st !! a = Some (PeerSession_new idA (he_fresh_key env) 1 0 (hc_encryption_algorithm cxB)
                           (n1_client_encryption_algorithm m1) None (he_now_ms env)) /\
    exists e, sessions st !! (name, idA) = Some e /\ e_session e = a.
Proof.
  intros Hp Hs Hme HuA Hcx HAcx Hwf Hno Hr0 Hn Hpk Hrd Hw a. destruct HB as [Hnet Hsec [pub Hk] _ _].
  destruct (upsert_fresh (hw_store W) (name, idA) (n1_a_session_generation m1) (hc_encryption_algorithm cxB)
    (n1_client_encryption_algorithm m1) None (he_fresh_key env) (he_now env) (he_now_ms env) Hwf Hno)
    as (st & Eu & Hheap & Hent).
  pose proof (send_noise_ok env _ NoiseHandshakeMsg2 idA r1 r2 c2 (put_store W st) Hp Hs ltac:(by right; left) Hme HuA Hw) as E.
  exists pub, st. split_and!; [|done|done]. unfold noise_server_begin.
  pose proof (decode_noise_ok NoiseHandshakeMsg1 decode_noise1 r0 r1 p1 idA 0 c1 _ m1 Hpk Hrd (decode_encode_noise1 m1)) as Ed.
  destruct Hpk as [_ (h & Hh & Hf & _ & _)]. run_act. rewrite Hcx, Hk. cbn [option_bind fst snd]. rewrite Hr0.
  cbn [option_bind]. unfold get_src_peer_id. rewrite Hh. cbn [option_map]. rewrite Hf, Ed.
  unfold handshake_recved. rewrite HAcx, (member_name _ _ HB), Hn, bool_decide_true by done.
  unfold on_session_store. run_act. rewrite Eu. cbn [u_action u_generation u_root_key u_initial_epoch u_session].
  unfold second_noise in E. rewrite (member_name _ _ HB) in E. by rewrite E.
Qed.

(** The initiator takes the answer and sends its proof. *)
Lemma client_finish_ok envA env envB W i1 c2 i2 i3 c3 p2 pub pubB idB : plain W -> he_sink_ok env = true ->
  u32 (cn_my_peer_id (hw_conn W)) -> u32 idB -> cn_context (hw_conn W) = cxA ->
  cn_peer_id_hint (hw_conn W) = None \/ cn_peer_id_hint (hw_conn W) = Some idB ->
  store_wf (hw_store W) -> sessions (hw_store W) !! (name, idB) = None ->
  length (he_fresh_key envB) = 32%nat -> length pubB = 32%nat ->
  handshake_packet idB (cn_my_peer_id (hw_conn W)) NoiseHandshakeMsg2 c2 p2 ->
  xx_read i1 c2 = Some (i2, encode_noise2 (second_noise cxB envB (Some (he_uuid envA)) (xx_hash i1))) ->
  xx_write i2 (he_ephemeral env) (encode_noise3 (third_noise cxA (Some (he_uuid envA)) (Some (he_uuid envB)) (xx_hash i2)))
    = Some (i3, c3) -> xx_remote_static i3 = Some pubB ->
  exists st a ia n, noise_client_finish f env
      {| nc_state := i1; nc_pinned := None; nc_conn_id := he_uuid envA; nc_local_static_pubkey := pub;
         nc_server_handshake_hash := xx_hash i1 |} p2 W =
      Ret (put_store (push_out W (noise_packet env (cn_my_peer_id (hw_conn W)) idB NoiseHandshakeMsg3 c3)) st, Ok n) /\
    nh_peer_id n = idB /\ nh_session n = a /\ nh_remote_static_pubkey n = pubB /\
    nh_secure_auth_level n = NetworkSecretConfirmed /\ nh_peer_identity_type n = Admin /\
    nh_remote_network_name n = name /\ nh_secret_digest n = context_secret_digest cxA /\
    heap st !! a = Some ia /\ (exists e, sessions st !! (name, idB) = Some e /\ e_session e = a) /\
    PeerSession_is_valid ia = true /\ ps_generation ia = 1 /\ ps_root_key ia = he_fresh_key envB /\
    send_epoch (datagram ia) = 0 /\ send_seq (datagram ia) = (0, 0) /\
    send_cipher_algorithm (datagram ia) = hc_encryption_algorithm cxA /\
    recv_cipher_algorithm (datagram ia) = hc_encryption_algorithm cxB.
Proof.
  intros Hp Hs Hme HuB Hcx Hhint Hwf Hno Hlen Hkl Hpk Hrd Hw Hrs.
  pose proof (send_noise_ok env _ NoiseHandshakeMsg3 idB i2 i3 c3 W Hp Hs ltac:(by right; right) Hme HuB Hw) as E.
  set (k := (name, idB)).
  destruct (apply_fresh (hw_store W) k 1 (he_fresh_key envB) 0 (hc_encryption_algorithm cxA) (hc_encryption_algorithm cxB)
    (Some pubB) (he_now env) (he_now_ms env) Hno) as (st & Ea).
  destruct (apply_install_cases (hw_store W) k Create 1 (he_fresh_key envB) 0 (hc_encryption_algorithm cxA)
    (hc_encryption_algorithm cxB) (Some pubB) (he_now env) (he_now_ms env) Hwf ltac:(done))
    as (st2 & r2 & E2 & _ & Hr). rewrite Ea in E2. injection E2 as <- <-. cbn in Hr. destruct Hr as (ia & Hia & Hent & Hrest).
  pose proof (decode_noise_ok NoiseHandshakeMsg2 decode_noise2 i1 i2 p2 _ _ c2 _ _ Hpk Hrd (decode_encode_noise2 _)) as Ed.
  destruct Hpk as [_ (h & Hh & Hf & _ & _)]. eexists st, _, ia, _. split.
  - unfold noise_client_finish. run_act. unfold get_src_peer_id. rewrite Hh. cbn [option_map]. rewrite Hf.
    assert (Hok : match cn_peer_id_hint (hw_conn W) with Some hint => negb (hint =? idB) | None => false end = false)
      by (destruct Hhint as [-> | ->]; [done|by rewrite Z.eqb_refl]).
    rewrite Hok. cbn [nc_state nc_conn_id nc_pinned nc_server_handshake_hash nc_local_static_pubkey]. rewrite Ed.
    rewrite bool_decide_true by done. cbn [negb second_noise n2_action action_i32 action_try_from n2_b_network_name n2_role_hint
      n2_b_conn_id n2_secret_proof_32 n2_b_session_generation n2_root_key_32 n2_initial_epoch n2_server_encryption_algorithm].
    rewrite (member_name _ _ HB), Hcx, (member_name _ _ HA), bool_decide_true by done.
    change (negb (1 =? 1)) with false. cbn [andb]. fold (third_noise cxA (Some (he_uuid envA)) (Some (he_uuid envB)) (xx_hash i2)).
    rewrite E, Hrs. cbn [from_option id]. rewrite (member_verifies cxA cxB privA privB) by done.
    unfold on_session_store. run_act. cbn [option_bind hw_store push_out].
    unfold key32. rewrite Hlen, Hkl. change ((32 =? 32)%nat) with true. cbn match. fold k. rewrite Ea. reflexivity.
  - cbn. split_and!; try done; try apply Hrest. by apply (member_identity cxA privA).
Qed.

(** The responder admits the initiator. *)
Lemma server_finish_ok envA envB env W m1 r2 c3 r3 p3 pub pubA idA a s : cn_context (hw_conn W) = cxB ->
  n1_a_network_name m1 = name -> n1_a_conn_id m1 = Some (he_uuid envA) ->
  heap (hw_store W) !! a = Some s -> peer_static_pubkey s = None -> length pubA = 32%nat ->
  handshake_packet idA (cn_my_peer_id (hw_conn W)) NoiseHandshakeMsg3 c3 p3 ->
  xx_read r2 c3 = Some (r3, encode_noise3 (third_noise cxA (Some (he_uuid envA)) (Some (he_uuid envB)) (xx_hash r2))) ->
  xx_remote_static r3 = Some pubA ->
  exists n s', noise_server_finish env
      {| ns_state := r2; ns_peer_id := idA; ns_msg1 := m1; ns_role_hint := 1; ns_session := a;
         ns_conn_id := he_uuid envB; ns_local_static_pubkey := pub; ns_handshake_hash := xx_hash r2 |} p3 W =
      Ret (put_store W (put_session (hw_store W) a s'), Ok n) /\
    datagram s' = datagram s /\ ps_invalidated s' = ps_invalidated s /\
    nh_peer_id n = idA /\ nh_session n = a /\ nh_remote_static_pubkey n = pubA /\
    nh_secure_auth_level n = NetworkSecretConfirmed /\ nh_peer_identity_type n = Admin /\
    nh_remote_network_name n = name /\ nh_secret_digest n = context_secret_digest cxA.
Proof.
  intros Hcx Hn Hid Hs Hpk0 Hkl Hpk Hrd Hrs.
  pose proof (decode_noise_ok NoiseHandshakeMsg3 decode_noise3 r2 r3 p3 _ _ c3 _ _ Hpk Hrd (decode_encode_noise3 _)) as Ed.
  eexists _, _. split.
  - unfold noise_server_finish. run_act. cbn [ns_state ns_msg1 ns_conn_id ns_session ns_role_hint ns_handshake_hash ns_peer_id
      ns_local_static_pubkey]. rewrite Ed. cbn [n3_a_conn_id_echo n3_b_conn_id_echo n3_secret_proof_32 n3_secret_digest third_noise].
    rewrite Hid, !bool_decide_true by done. cbn [negb]. unfold on_session_store, deref. run_act. rewrite Hs, Hrs. cbn [from_option id].
    unfold key32, check_or_set_peer_static_pubkey. rewrite Hkl, Hpk0. change ((32 =? 32)%nat) with true. cbn match.
    change (1 =? 1) with true. cbn match. rewrite Hcx, Hn, (member_verifies cxB cxA privB privA) by done. reflexivity.
  - cbn. split_and!; try done. by apply (member_identity cxB privB).
Qed.
End members.

(** ** Admission *)

Lemma digest_length a b : length (generate_digest_from_str a b) = 32%nat.
Proof. unfold generate_digest_from_str. cbn [digest_shards]. rewrite !length_app, !length_be_encode. done. Qed.
Lemma member_secret_digest cx name secret priv : member cx name secret priv ->
  Some (context_secret_digest cx) = ni_network_secret_digest (hc_network cx) /\ length (context_secret_digest cx) = 32%nat.
Proof.
  intros [E _ _ _ Hd]. unfold context_secret_digest. rewrite Hd, E. split; [done|]. apply digest_length.
Qed.

Lemma add_first_conn M c : pm_peers M !! pc_peer_id c = None ->
  exists M' P, add_new_peer_conn M c = (M', Ok tt) /\ pm_peers M' !! pc_peer_id c = Some P /\
    peer_conns P = {[pc_conn_id c := c]} /\ peer_identity_type P = Some (pc_identity_type c) /\
    peer_public_key P = Some (pc_noise_remote_static_pubkey c).
Proof.
  intros Hno. destruct (add_new_peer_conn M c) as [M' r] eqn:E. pose proof (add_new_peer_conn_cases _ _ _ _ E) as Hc.
  unfold add_new_peer_conn in E. rewrite maintain_peers, Hno in E. cbn in E. injection E as _ <-. destruct Hc as (P & HP & Hcs & Ht & Hk & _).
  exists M', P. split_and!; try done. rewrite Hcs. unfold conns_at. by rewrite Hno.
Qed.

(** The connection after its handshake. *)
Record shaken (c : Conn) (cx : HsContext) (cid : Z) (n : NoiseHandshakeResult) : Prop := {
  sk_id : cn_conn_id c = cid; sk_context : cn_context c = cx; sk_noise : cn_noise c = Some n;
  sk_info : cn_info c = Some (build_handshake_rsp n) }.

Lemma shaken_identity c cx cid n : shaken c cx cid n -> length (nh_secret_digest n) = 32%nat ->
  conn_peer_id c = Ret (nh_peer_id n) /\
  get_network_identity c = Ret {| ni_network_name := nh_remote_network_name n; ni_network_secret := None;
                                  ni_network_secret_digest := Some (nh_secret_digest n) |}.
Proof.
  intros [_ _ _ Hi] Hl. unfold conn_peer_id, get_network_identity. rewrite Hi.
  cbn [unwrap mbind comp_bind build_handshake_rsp hr_network_secret_digest]. by rewrite Hl.
Qed.

(** A peer connected with its key, as an administrator. *)
Definition peer_with (M : PeerMap) (id cid : Z) (key : list Z) : Prop := exists P pc,
  pm_peers M !! id = Some P /\ peer_conns P = {[cid := pc]} /\ peer_identity_type P = Some Admin /\
  peer_public_key P = Some key.

Lemma admit_ok M cx cx' name secret priv priv' c cid n : member cx name secret priv -> member cx' name secret priv' ->
  shaken c cx cid n -> nh_remote_network_name n = name -> nh_secret_digest n = context_secret_digest cx' ->
  nh_peer_identity_type n = Admin -> length (nh_remote_static_pubkey n) = 32%nat ->
  pm_peers M !! nh_peer_id n = None ->
  exists M', admit_peer_conn M (hc_network cx) true c = Ret (M', Ok (nh_peer_id n)) /\
    peer_with M' (nh_peer_id n) cid (nh_remote_static_pubkey n).
Proof.
  intros Hm Hm' [Hid Hcx Hn Hi] Hname Hdig Ht Hlen Hno. destruct (member_secret_digest _ _ _ _ Hm') as [Hd Hl].
  unfold admit_peer_conn, as_peer_conn, get_network_identity, remote_static_pubkey, conn_peer_id, get_peer_identity_type.
  rewrite Hn, Hi. cbn [unwrap mbind comp_bind build_handshake_rsp hr_network_secret_digest hr_network_name hr_my_peer_id].
  rewrite Hdig, Hl, Hname. change ((32 =? 32)%nat) with true. cbn match. cbn [mbind comp_bind].
  rewrite bool_decide_false by (by destruct (nh_remote_static_pubkey n)). cbn [Bool.eqb negb].
  set (peer := {| ni_network_name := name |}).
  assert (Hok : (if network_secret_digest_is_empty (hc_network cx) || network_secret_digest_is_empty peer
    then bool_decide (ni_network_name (hc_network cx) = ni_network_name peer) else identity_eqb (hc_network cx) peer) = true).
  { unfold peer. rewrite Hd. destruct Hm as [-> _ _ _ _], Hm' as [-> _ _ _ _]. unfold identity_eqb, identity_secret_digest.
    cbn [ni_network_name ni_network_secret_digest identity_new]. rewrite !bool_decide_true by done. by destruct (_ || _). }
  rewrite Hok. cbn [negb]. set (pc := {| pc_conn_id := cn_conn_id c |}).
  destruct (add_first_conn M pc Hno) as (M' & P & -> & HP & Hc & Hty & Hk). exists M'. split; [done|].
  exists P, pc. rewrite <- Hid. split_and!; [done|done| |done]. rewrite Hty. cbn. by rewrite Ht.
Qed.

(** ** The two ends *)

Lemma handshake_ends W n client : nh_peer_id n <> cn_my_peer_id (hw_conn W) ->
  exists W', (modify (note_noise n client) ;; handshake_done) W = Ret (W', Ok tt) /\
    hw_store W' = hw_store W /\ hw_out W' = hw_out W /\
    shaken (hw_conn W') (cn_context (hw_conn W)) (cn_conn_id (hw_conn W)) n.
Proof.
  intros Hne. eexists. split.
  - unfold handshake_done. run_act.
    cbn [note_noise hw_conn put_conn with_result with_ends cn_info cn_my_peer_id build_handshake_rsp hr_my_peer_id].
    rewrite (proj2 (Z.eqb_neq _ _) Hne). reflexivity.
  - by split_and!; [..|split].
Qed.

(** A node that is ready to connect to a peer it has neither a connection nor a
    session with. *)
Record ready (A : Admission) (me other : Z) (name : string) (secret priv : list Z) : Prop := {
  rd_id : ad_my_peer_id A = me /\ u32 me /\ me <> other;
  rd_member : member (ad_context A) name secret priv;
  rd_peer : pm_peers (ad_peers A) !! other = None;
  rd_session : sessions (ad_store A) !! (name, other) = None;
  rd_store : store_wf (ad_store A) }.
(** The peer connected, with its session. *)
Definition connected (A : Admission) (name : string) (other cid : Z) (key : list Z) (s : PeerSession) : Prop :=
  peer_with (ad_peers A) other cid key /\
  exists e, sessions (ad_store A) !! (name, other) = Some e /\ heap (ad_store A) !! e_session e = Some s.

Section ends.
Context (name : string) (secret privA privB : list Z) (A B : Admission) (idA idB : Z).
Context (envA envA2 envB envB2 : HsEnv) (cidA cidB rid : Z) (urlA urlB : option (list Z)) (dA dB : bool).
Context (hint : option Z) (oA oB : PeerConnectionOrigin).
Hypothesis RA : ready A idA idB name secret privA.
Hypothesis RB : ready B idB idA name secret privB.
Hypothesis Hhint : hint = None \/ hint = Some idB.
Hypothesis Hfresh : length (he_fresh_key envB) = 32%nat.
Hypothesis Hsinks : he_sink_ok envA = true /\ he_sink_ok envA2 = true /\ he_sink_ok envB = true.
Abbreviation cxA := (ad_context A).
Abbreviation cxB := (ad_context B).
Abbreviation call := (add_client_tunnel_with_origin f envA envA2 A cidA urlA dA hint oA).
Abbreviation answer := (add_tunnel_as_server_with_origin f envB envB2 B cidB rid urlB false dB oB).

Definition calling (l : list StreamItem) : HsWorld :=
  {| hw_store := ad_store A;
     hw_conn := set_is_hole_punched (new_with_peer_id_hint_and_origin cidA (ad_my_peer_id A) cxA urlA hint oA) (negb dA);
     hw_in := l; hw_out := []; hw_reserved := ad_reserved A; hw_reserved_name := None |}.
Definition answering (l : list StreamItem) : HsWorld :=
  {| hw_store := ad_store B; hw_conn := new_with_peer_id_hint_and_origin cidB (ad_my_peer_id B) cxB urlB None oB;
     hw_in := l; hw_out := []; hw_reserved := ad_reserved B; hw_reserved_name := None |}.

(** The initiator has called and waits. *)
Lemma call_begins l i0 i1 c1 : xx_initiator privA = Some i0 ->
  xx_write i0 (he_ephemeral envA) (encode_noise1 (first_noise cxA envA)) = Some (i1, c1) ->
  exists pub, noise_client_begin f envA (calling l) =
    Ret (push_out (calling l) (noise_packet envA idA 0 NoiseHandshakeMsg1 c1),
         Ok {| nc_state := i1; nc_pinned := None; nc_conn_id := he_uuid envA;
               nc_local_static_pubkey := pub; nc_server_handshake_hash := xx_hash i1 |}).
Proof.
  intros Hi Hw. destruct RA as [(Hid & Hu & _) Hm _ Hs _]. destruct Hsinks as (Hk & _ & _). rewrite <- Hid.
  apply (client_begin_ok name secret privA cxA Hm envA (calling l) i0); try done; cbn; [by rewrite Hid|].
  intros id ->. by destruct Hhint as [[=]|[= ->]].
Qed.
Lemma call_waits i0 i1 c1 : xx_initiator privA = Some i0 ->
  xx_write i0 (he_ephemeral envA) (encode_noise1 (first_noise cxA envA)) = Some (i1, c1) ->
  exists A0, call [] = Ret (A0, [noise_packet envA idA 0 NoiseHandshakeMsg1 c1], Err WaitRespError).
Proof.
  intros Hi Hw. destruct (call_begins [] i0 i1 c1 Hi Hw) as [pub Eb].
  assert (Ed : do_handshake_as_client f envA envA2 (calling []) =
    Ret (put_in (push_out (calling []) (noise_packet envA idA 0 NoiseHandshakeMsg1 c1)) [], Err WaitRespError)).
  { unfold do_handshake_as_client, do_noise_handshake_as_client. run_act. cbn [calling hw_conn cn_context set_is_hole_punched
      new_with_peer_id_hint_and_origin]. rewrite (mb_secure _ _ _ _ (rd_member _ _ _ _ _ _ RA)).
    fold (calling []). by rewrite Eb, recv_nothing. }
  unfold add_client_tunnel_with_origin. cbv zeta. fold (calling []). rewrite Ed. by eexists.
Qed.
Lemma call_succeeds i0 i1 c1 c2 i2 i3 c3 p2 : xx_initiator privA = Some i0 ->
  xx_write i0 (he_ephemeral envA) (encode_noise1 (first_noise cxA envA)) = Some (i1, c1) ->
  length (xx_public privB) = 32%nat -> handshake_packet idB idA NoiseHandshakeMsg2 c2 p2 ->
  xx_read i1 c2 = Some (i2, encode_noise2 (second_noise cxB envB (Some (he_uuid envA)) (xx_hash i1))) ->
  xx_write i2 (he_ephemeral envA2) (encode_noise3 (third_noise cxA (Some (he_uuid envA)) (Some (he_uuid envB)) (xx_hash i2)))
    = Some (i3, c3) -> xx_remote_static i3 = Some (xx_public privB) ->
  exists A' s, call [Ok p2] = Ret (A', [noise_packet envA idA 0 NoiseHandshakeMsg1 c1;
                                        noise_packet envA2 idA idB NoiseHandshakeMsg3 c3], Ok (InNetwork idB cidA)) /\
    connected A' name idB cidA (xx_public privB) s /\
    PeerSession_is_valid s = true /\ ps_generation s = 1 /\ ps_root_key s = he_fresh_key envB /\
    send_epoch (datagram s) = 0 /\ send_seq (datagram s) = (0, 0) /\
    send_cipher_algorithm (datagram s) = hc_encryption_algorithm cxA /\
    recv_cipher_algorithm (datagram s) = hc_encryption_algorithm cxB.
Proof.
  intros Hi Hw Hkl Hpk Hrd Hw3 Hrs. destruct (call_begins [Ok p2] i0 i1 c1 Hi Hw) as [pub Eb].
  destruct RA as [(Hid & Hu & Hne) Hm Hpeer Hses Hwf], RB as [(HidB & HuB & _) HmB _ _ _]. destruct Hsinks as (_ & Hk & _).
  set (W1 := push_out (calling [Ok p2]) _) in Eb.
  pose proof (recv_noise envA2 p2 W1 _ _ _ _ [] (Some NoiseHandshakeMsg2) ltac:(done) ltac:(by right; left) Hpk eq_refl
    ltac:(by right)) as Er.
  destruct (client_finish_ok name secret privA privB cxA cxB Hm HmB envA envA2 envB (put_in W1 []) i1 c2 i2 i3 c3 p2 pub
    (xx_public privB) idB ltac:(done) Hk ltac:(cbn; by rewrite Hid) HuB ltac:(done) Hhint Hwf Hses Hfresh Hkl
    ltac:(cbn; by rewrite Hid) Hrd Hw3 Hrs)
    as (st & a & s & n & Ef & Hn1 & Hn2 & Hn3 & Hn4 & Hn5 & Hn6 & Hn7 & Hheap & (e & He & Hea) & Hs).
  cbn [cn_my_peer_id hw_conn put_in W1 push_out calling set_is_hole_punched new_with_peer_id_hint_and_origin] in Ef.
  rewrite Hid in Ef. set (W2 := put_store _ st) in Ef.
  destruct (handshake_ends W2 n true) as (W3 & Ed & Hst & Hout & Hsh); [cbn; by rewrite Hn1, Hid|].
  destruct (admit_ok (ad_peers A) cxA cxA name secret privA privA (hw_conn W3) cidA n Hm Hm Hsh Hn6 Hn7 Hn5
    ltac:(by rewrite Hn3) ltac:(by rewrite Hn1)) as (M' & Ea & Hpw).
  assert (Edo : do_handshake_as_client f envA envA2 (calling [Ok p2]) = Ret (W3, Ok tt)).
  { unfold do_handshake_as_client, do_noise_handshake_as_client. run_act. cbn [calling hw_conn cn_context set_is_hole_punched
      new_with_peer_id_hint_and_origin]. rewrite (mb_secure _ _ _ _ Hm). fold (calling [Ok p2]). rewrite Eb, Er, Ef.
    run_act_in Ed. exact Ed. }
  destruct (shaken_identity _ _ _ _ Hsh) as [Hpid Hident]; [rewrite Hn7; by apply (member_secret_digest _ _ _ _ Hm)|].
  exists (with_admitted A M' (ad_foreign_client A) (recent_clear (ad_recent A) idB) st (hw_reserved W3)), s. split.
  - unfold add_client_tunnel_with_origin. cbv zeta. fold (calling [Ok p2]). rewrite Edo. cbn [mbind comp_bind].
    rewrite Hpid. cbn [mbind comp_bind]. rewrite Hident. cbn [mbind comp_bind ni_network_name].
    rewrite Hn6, (member_name _ _ _ _ Hm), (bool_decide_true (name = name)) by done. cbn [negb]. rewrite andb_false_r.
    rewrite (mb_secure _ _ _ _ Hm), Ea. cbn [mbind comp_bind].
    by rewrite Hst, Hout, Hn1, (sk_id _ _ _ _ Hsh).
  - split; [|done]. split; [by rewrite <- Hn1, <- Hn3|]. exists e. by rewrite Hea.
Qed.

(** The responder has answered and waits. *)
Lemma answer_begins l p1 c1 r0 r1 r2 c2 : xx_responder privB = Some r0 ->
  handshake_packet idA 0 NoiseHandshakeMsg1 c1 p1 ->
  xx_read r0 c1 = Some (r1, encode_noise1 (first_noise cxA envA)) ->
  xx_write r1 (he_ephemeral envB) (encode_noise2 (second_noise cxB envB (Some (he_uuid envA)) (xx_hash r1))) = Some (r2, c2) ->
  let a := next_arc (ad_store B) in
  exists pub st, recv_next_peer_manager_packet f envB None (answering (Ok p1 :: l)) = Ret (answering l, Ok p1) /\
    noise_server_begin f envB p1 (handshake_recved B rid) (answering l) =
      Ret (push_out (put_store (answering l) st) (noise_packet envB idB idA NoiseHandshakeMsg2 c2),
           Ok {| ns_state := r2; ns_peer_id := idA; ns_msg1 := first_noise cxA envA; ns_role_hint := 1; ns_session := a;
                 ns_conn_id := he_uuid envB; ns_local_static_pubkey := pub; ns_handshake_hash := xx_hash r2 |}) /\
    heap st !! a = Some (PeerSession_new idA (he_fresh_key envB) 1 0 (hc_encryption_algorithm cxB)
                           (hc_encryption_algorithm cxA) None (he_now_ms envB)) /\
    exists e, sessions st !! (name, idA) = Some e /\ e_session e = a.
Proof.
  intros Hr Hpk Hrd Hw. destruct RA as [(_ & HuA & _) Hm _ _ _], RB as [(Hid & HuB & _) HmB _ Hs Hwf].
  destruct Hsinks as (_ & _ & Hk).
  destruct (server_begin_ok name secret privB cxB HmB B rid envB (answering l) (first_noise cxA envA) p1 r0 c1 r1 r2 c2 idA
    ltac:(done) Hk ltac:(cbn; by rewrite Hid) HuA ltac:(done) ltac:(done) Hwf Hs Hr
    ltac:(by apply (member_name _ _ _ _ Hm)) Hpk Hrd Hw) as (pub & st & E & Hh & He).
  exists pub, st. cbn in E. rewrite Hid in E. split_and!; [|done|done|done].
  by rewrite (recv_noise envB p1 (answering (Ok p1 :: l)) _ _ _ _ l None ltac:(done) ltac:(by left) Hpk eq_refl ltac:(by left)).
Qed.

(** The first packet decides for the Noise handshake. *)
Lemma answer_noise l p1 c1 : handshake_packet idA 0 NoiseHandshakeMsg1 c1 p1 ->
  recv_next_peer_manager_packet f envB None (answering (Ok p1 :: l)) = Ret (answering l, Ok p1) ->
  do_handshake_as_server_ext f envB envB2 (handshake_recved B rid) (answering (Ok p1 :: l)) =
    (n ← do_noise_handshake_as_server f envB envB2 p1 (handshake_recved B rid);
     match n with
     | Err e => mret (Err e)
     | Ok n => modify (note_noise n false) ;; handshake_done
     end) (answering l).
Proof.
  intros [_ (h & Hh & _ & _ & Hty)] Er. unfold do_handshake_as_server_ext. run_act. rewrite Er, Hh, Hty.
  cbn [answering hw_conn new_with_peer_id_hint_and_origin cn_context].
  by rewrite (mb_secure _ _ _ _ (rd_member _ _ _ _ _ _ RB)).
Qed.
Lemma answer_waits p1 c1 r0 r1 r2 c2 : xx_responder privB = Some r0 ->
  handshake_packet idA 0 NoiseHandshakeMsg1 c1 p1 ->
  xx_read r0 c1 = Some (r1, encode_noise1 (first_noise cxA envA)) ->
  xx_write r1 (he_ephemeral envB) (encode_noise2 (second_noise cxB envB (Some (he_uuid envA)) (xx_hash r1))) = Some (r2, c2) ->
  exists B0, answer [Ok p1] = Ret (B0, [noise_packet envB idB idA NoiseHandshakeMsg2 c2], Err WaitRespError).
Proof.
  intros Hr Hpk Hrd Hw. destruct (answer_begins [] p1 c1 r0 r1 r2 c2 Hr Hpk Hrd Hw) as (pub & st & Er & Eb & _).
  unfold add_tunnel_as_server_with_origin. cbv zeta. fold (answering [Ok p1]). rewrite (answer_noise [] p1 c1 Hpk Er).
  unfold do_noise_handshake_as_server. run_act. rewrite Eb, recv_nothing by done. by eexists.
Qed.
Lemma answer_succeeds p1 c1 r0 r1 r2 c2 c3 r3 p3 : xx_responder privB = Some r0 ->
  handshake_packet idA 0 NoiseHandshakeMsg1 c1 p1 ->
  xx_read r0 c1 = Some (r1, encode_noise1 (first_noise cxA envA)) ->
  xx_write r1 (he_ephemeral envB) (encode_noise2 (second_noise cxB envB (Some (he_uuid envA)) (xx_hash r1))) = Some (r2, c2) ->
  length (xx_public privA) = 32%nat -> handshake_packet idA idB NoiseHandshakeMsg3 c3 p3 ->
  xx_read r2 c3 = Some (r3, encode_noise3 (third_noise cxA (Some (he_uuid envA)) (Some (he_uuid envB)) (xx_hash r2))) ->
  xx_remote_static r3 = Some (xx_public privA) ->
  exists B' s, answer [Ok p1; Ok p3] = Ret (B', [noise_packet envB idB idA NoiseHandshakeMsg2 c2], Ok (InNetwork idA cidB)) /\
    connected B' name idA cidB (xx_public privA) s /\ PeerSession_is_valid s = true /\
    datagram s = datagram (PeerSession_new idA (he_fresh_key envB) 1 0 (hc_encryption_algorithm cxB)
                             (hc_encryption_algorithm cxA) None (he_now_ms envB)).
Proof.
  intros Hr Hpk Hrd Hw Hkl Hpk3 Hrd3 Hrs.
  destruct (answer_begins [Ok p3] p1 c1 r0 r1 r2 c2 Hr Hpk Hrd Hw) as (pub & st & Er & Eb & Hheap & (e & He & Hea)).
  destruct RA as [(HidA & HuA & HneA) HmA _ _ _], RB as [(Hid & Hu & Hne) Hm Hpeer _ _].
  set (W1 := push_out _ _) in Eb.
  pose proof (recv_noise envB2 p3 W1 _ _ _ _ [] (Some NoiseHandshakeMsg3) ltac:(done) ltac:(by right; right) Hpk3 eq_refl
    ltac:(by right)) as Er3.
  destruct (server_finish_ok name secret privA privB cxA cxB HmA Hm envA envB envB2 (put_in W1 []) (first_noise cxA envA) r2 c3 r3
    p3 pub (xx_public privA) idA (next_arc (ad_store B)) _ ltac:(done) ltac:(by apply (member_name _ _ _ _ HmA)) ltac:(done)
    Hheap ltac:(done) Hkl ltac:(cbn; by rewrite Hid) Hrd3 Hrs)
    as (n & s & Ef & Hdg & Hinv & Hn1 & Hn2 & Hn3 & Hn4 & Hn5 & Hn6 & Hn7).
  set (W2 := put_store _ _) in Ef.
  destruct (handshake_ends W2 n false) as (W3 & Ed & Hst & Hout & Hsh); [cbn; by rewrite Hn1, Hid|].
  set (c := set_is_hole_punched (hw_conn W3) (negb dB)).
  assert (Hshc : shaken c cxB cidB n) by (destruct Hsh; by split).
  destruct (admit_ok (ad_peers B) cxB cxA name secret privB privA c cidB n Hm HmA Hshc Hn6 Hn7 Hn5
    ltac:(by rewrite Hn3) ltac:(by rewrite Hn1)) as (M' & Ea & Hpw).
  assert (Hdl : length (nh_secret_digest n) = 32%nat) by (rewrite Hn7; by apply (member_secret_digest _ _ _ _ HmA)).
  destruct (shaken_identity _ _ _ _ Hsh Hdl) as [Hpid Hident].
  assert (Edo : do_handshake_as_server_ext f envB envB2 (handshake_recved B rid) (answering [Ok p1; Ok p3]) = Ret (W3, Ok tt)).
  { rewrite (answer_noise [Ok p3] p1 c1 Hpk Er). unfold do_noise_handshake_as_server. run_act. rewrite Eb, Er3, Ef.
    run_act_in Ed. exact Ed. }
  assert (Hmatch : exists b, matches_local_network_secret (hw_conn W3) = Ret b).
  { unfold matches_local_network_secret. rewrite Hident. destruct (matches_local_secret_proof _); by eexists. }
  destruct Hmatch as [b Hb].
  exists (with_admitted B M' (ad_foreign_client B) (recent_clear (ad_recent B) idA) (hw_store W2)
            (delete name (hw_reserved W3))), s. split; [|split; [|split]].
  - unfold add_tunnel_as_server_with_origin. cbv zeta. fold (answering [Ok p1; Ok p3]). rewrite Edo. cbn [mbind comp_bind].
    rewrite Hident. cbn [mbind comp_bind ni_network_name].
    rewrite Hn6, (member_name _ _ _ _ Hm), (bool_decide_true (name = name)) by done. cbn [negb]. rewrite andb_false_r.
    rewrite Hpid. cbn [mbind comp_bind]. rewrite Hb. cbn [mbind comp_bind andb]. fold c.
    rewrite (mb_secure _ _ _ _ Hm), Ea. cbn [mbind comp_bind].
    by rewrite Hst, Hout, Hn1, (sk_id _ _ _ _ Hshc).
  - split; [by rewrite <- Hn1, <- Hn3|]. exists e. split; [exact He|]. rewrite Hea. cbn. apply lookup_insert_eq.
  - unfold PeerSession_is_valid. by rewrite Hdg, Hinv.
  - exact Hdg.
Qed.
End ends.
End success.

(** C12. Two nodes in secure mode that share the secret of their network and have
    neither a connection nor a session connect.  The initiator sends its first
    message; when it arrives, with its ends and payload intact, the responder
    sends the answer; when that arrives, the initiator sends its proof and
    admits the responder, and when the proof arrives, the responder admits the
    initiator, each as an administrator under the static key of the other, with
    no further message.  Each has a session with the other then: both are
    valid, with the key that the responder drew, the same generation and epoch,
    the algorithms paired in both directions, and no nonce used.  No key of the
    other is pinned in the configuration, the digest of the secret is the plain
    one, and the texts of the messages fit the Noise buffers.  ([call []]
    and [answer [Ok p1]] are the runs in which nothing else arrives: what they
    sent is what is sent before the wait.) *)
Theorem direct_handshake_establishes {T : Target} {H : HmacLib} {L : CryptoLib} {O : HashOrder} {tl : TrustLib}
    {cl : CredLib} {dl : DigestLib} {N : NoiseXX} {NL : NoiseXXLaws N} {Pb : HandshakePb} {PL : HandshakePbLaws Pb}
    (f : Features) (name : string) (secret privA privB : list Z) (A B : Admission) (idA idB : Z)
    (envA envA2 envB envB2 : HsEnv) (cidA cidB rid : Z) (urlA urlB : option (list Z)) (dA dB : bool)
    (hint : option Z) (oA oB : PeerConnectionOrigin) :
  ready A idA idB name secret privA -> ready B idB idA name secret privB -> hint = None \/ hint = Some idB ->
  length (he_fresh_key envB) = 32%nat ->
  he_sink_ok envA = true /\ he_sink_ok envA2 = true /\ he_sink_ok envB = true ->
  is_Some (xx_initiator privA) -> is_Some (xx_responder privB) ->
  length (xx_public privA) = 32%nat -> length (xx_public privB) = 32%nat ->
  xx_fits (encode_noise1 (first_noise (ad_context A) envA)) ->
  (forall h, xx_fits (encode_noise2 (second_noise (ad_context B) envB (Some (he_uuid envA)) h))) ->
  (forall h, xx_fits (encode_noise3 (third_noise (ad_context A) (Some (he_uuid envA)) (Some (he_uuid envB)) h))) ->
  let call := add_client_tunnel_with_origin f envA envA2 A cidA urlA dA hint oA in
  let answer := add_tunnel_as_server_with_origin f envB envB2 B cidB rid urlB false dB oB in
  exists A0 p1, call [] = Ret (A0, [p1], Err WaitRespError) /\
  forall p1', arrives p1 p1' ->
  exists B0 p2, answer [Ok p1'] = Ret (B0, [p2], Err WaitRespError) /\
  forall p2', arrives p2 p2' ->
  exists A' p3 sA, call [Ok p2'] = Ret (A', [p1; p3], Ok (InNetwork idB cidA)) /\
    connected A' name idB cidA (xx_public privB) sA /\
  forall p3', arrives p3 p3' ->
  exists B' sB, answer [Ok p1'; Ok p3'] = Ret (B', [p2], Ok (InNetwork idA cidB)) /\
    connected B' name idA cidB (xx_public privA) sB /\ paired sA sB (he_fresh_key envB).
Proof.
  intros RA RB Hh Hfr Hs [i0 Hi] [r0 Hr] HlA HlB F1 F2 F3 call answer. pose proof RA as [(_ & HuA & _) _ _ _ _].
  pose proof RB as [(_ & HuB & _) _ _ _ _].
  destruct (xx_completes privA privB i0 r0 (he_ephemeral envA) _ Hi Hr F1) as (i1 & c1 & r1 & W1 & R1 & E1 & Hx2).
  destruct (Hx2 (he_ephemeral envB) _ (F2 (xx_hash r1))) as (r2 & c2 & i2 & W2 & R2 & E2 & Hx3).
  destruct (Hx3 (he_ephemeral envA2) _ (F3 (xx_hash i2))) as (i3 & c3 & r3 & W3 & R3 & K3 & K3').
  destruct (call_waits f name secret privA A idA idB envA envA2 envB cidA urlA dA hint oA RA Hh Hs i0 i1 c1 Hi W1) as (A0 & Ec).
  eexists A0, _. split; [exact Ec|]. intros p1' V1.
  pose proof (handshake_arrives _ _ _ _ _ _ (proj2 (noise_packet_ok envA idA 0 NoiseHandshakeMsg1 c1 HuA ltac:(done))) V1) as Hp1.
  destruct (answer_waits f name secret privA privB A B idA idB envA envA2 envB envB2 cidB rid urlB dB oB RA RB Hs p1' c1 r0 r1 r2 c2
    Hr Hp1 R1 W2) as (B0 & Ea).
  eexists B0, _. split; [exact Ea|]. intros p2' V2.
  pose proof (handshake_arrives _ _ _ _ _ _ (proj2 (noise_packet_ok envB _ _ NoiseHandshakeMsg2 c2 HuB HuA)) V2) as Hp2.
  rewrite E1 in R2.
  destruct (call_succeeds f name secret privA privB A B idA idB envA envA2 envB cidA urlA dA hint oA RA RB Hh Hfr Hs
    i0 i1 c1 c2 i2 i3 c3 p2' Hi W1 HlB Hp2 R2 W3 K3) as (A' & sA & Es & HcA & Hv & Hg & Hk & Hep & Hsq & Hsa & Hra).
  eexists A', _, sA. split; [exact Es|]. split; [exact HcA|]. intros p3' V3.
  pose proof (handshake_arrives _ _ _ _ _ _ (proj2 (noise_packet_ok envA2 _ _ NoiseHandshakeMsg3 c3 HuA HuB)) V3) as Hp3.
  rewrite E2 in R3.
  destruct (answer_succeeds f name secret privA privB A B idA idB envA envA2 envB envB2 cidB rid urlB dB oB RA RB Hs
    p1' c1 r0 r1 r2 c2 c3 r3 p3' Hr Hp1 R1 W2 HlA Hp3 R3 K3') as (B' & sB & Et & HcB & HvB & Hdg).
  exists B', sB. split; [exact Et|]. split; [exact HcB|].
  unfold ps_generation, ps_root_key in *. split; unfold ps_generation, ps_root_key; rewrite ?Hdg; try done; by split_and!.
Qed.

(** Nodes 2 and 1 of the network connect. *)
Module TwoMembers.
#[local] Existing Instances Line.order Line.hmac Line.word toy_lib Concrete.trust ConcreteCredentials.lib.
#[local] Existing Instances SecureNetwork.digest SecureNetwork.noise SecureNetwork.noise_laws SecureNetwork.pb SecureNetwork.pb_laws.
Definition caller : Admission := SecureNetwork.node SecureNetwork.admin 2 store_new.

Lemma node_ready u v : u = 1 \/ u = 2 -> u <> v ->
  ready (SecureNetwork.node (SecureNetwork.context "net" (Some SecureNetwork.secret) u) u store_new) u v "net"
    SecureNetwork.secret (SecureNetwork.key u).
Proof.
  intros Hu Hv. split; [split; [done|]; split; [destruct Hu as [-> | ->]; done|done]| |done|done|exact store_new_wf].
  split; [done|done|by eexists|done|done].
Qed.

Lemma direct_handshake_establishes_witness : exists p1 p2 p3 A' B' sA sB,
  add_client_tunnel_with_origin full_features (SecureNetwork.env 2) (SecureNetwork.env 2) caller 41 None true None Network
    [Ok p2] = Ret (A', [p1; p3], Ok (InNetwork 1 41)) /\
  add_tunnel_as_server_with_origin full_features (SecureNetwork.env 1) (SecureNetwork.env 1) (SecureNetwork.server store_new)
    40 60 None false true Network [Ok p1; Ok p3] = Ret (B', [p2], Ok (InNetwork 2 40)) /\
  paired sA sB (SecureNetwork.key 51).
Proof.
  assert (Hself : forall p, arrives p p) by (intros p; split; [done|by eauto]).
  destruct (@direct_handshake_establishes Line.word Line.hmac toy_lib Line.order Concrete.trust ConcreteCredentials.lib
    SecureNetwork.digest SecureNetwork.noise SecureNetwork.noise_laws SecureNetwork.pb SecureNetwork.pb_laws full_features
    "net" SecureNetwork.secret (SecureNetwork.key 2) (SecureNetwork.key 1) caller (SecureNetwork.server store_new) 2 1
    (SecureNetwork.env 2) (SecureNetwork.env 2) (SecureNetwork.env 1) (SecureNetwork.env 1) 41 40 60 None None true true None
    Network Network (node_ready 2 1 ltac:(by right) ltac:(done)) (node_ready 1 2 ltac:(by left) ltac:(done)) ltac:(by left)
    ltac:(reflexivity) ltac:(done) ltac:(by eexists) ltac:(by eexists) ltac:(reflexivity) ltac:(reflexivity)
    ltac:(done) ltac:(done) ltac:(done)) as (A0 & p1 & _ & Hb).
  destruct (Hb p1 (Hself p1)) as (B0 & p2 & _ & Hc). destruct (Hc p2 (Hself p2)) as (A' & p3 & sA & Ea & _ & Hd).
  destruct (Hd p3 (Hself p3)) as (B' & sB & Eb & _ & Hp). exists p1, p2, p3, A', B', sA, sB. split; [exact Ea|].
  split; [exact Eb|exact Hp].
Defined.
End TwoMembers.
